(* ===== verification/_CoqProject ===== *)
-Q . S2P
Prelude.v
OrdTree.v
Avl.v
AvlFacts.v
AvlSearch.v
AvlWalk.v
AvlProps.v
Fibheap.v
FibheapProps.v
Bitset.v
Refs.v
Defrag.v
DefragFacts.v
DefragOps.v
DefragProps.v
DefragNack.v
DefragClaims.v
Reorder.v
ReorderFacts.v
ReorderOps.v
ReorderProps.v
ReorderGap.v
ReorderRun.v
ReorderClaims.v
Rmsg.v
RmsgFacts.v
RmsgProps.v
Dqueue.v
DqueueClaims.v
Time.v
QosMatch.v
QosMatchProps.v
Wire.v
Protocol.v
ProtocolProps.v
ProtocolRound.v
ProtocolClaims.v
Receive.v
ReceiveFacts.v
ReceiveOps.v
ReceiveProps.v
ReceiveGap.v
ReceiveHandlers.v
ReceiveConn.v
Submsg.v
SubmsgProps.v
Deliver.v
ReceiveRun.v
ReceiveClaims.v
ReceiveFindings.v
Whc.v
WhcFacts.v
WhcOps.v
WhcFind.v
WhcRemove.v
WhcInsert.v
WhcWrite.v
WhcHist.v
WhcClaims.v
WrReaders.v
WrReadersFacts.v
Xmsg.v
XmsgFacts.v
Writer.v
WriterSend.v
WriterReply.v
WriterFacts.v
WriterHb.v
WriterWrite.v
WriterReplyFacts.v
WriterAnswer.v
WriterRun.v
WriterClaims.v
WriterFindings.v
AckNack.v
Lease.v
LeaseProps.v
Xevent.v
Gc.v
GcProps.v
