(* ===== verification/Prelude.v ===== *)
(** * Reception, writers and their administrations in the OpenSplice DDSI2 service

    Vortex OpenSplice is an implementation of DDS.  Its networking service
    DDSI2 ([src/src/services/ddsi2e/core]) speaks the RTPS protocol: a receive
    thread reads packets into receive buffers, takes them apart into
    submessages, puts the fragments of large samples together, puts the samples
    of every remote writer in order, and hands them to a delivery thread.
    [q_receive.c] validates and dispatches the submessages and keeps, for each
    remote writer, a proxy writer with its readers; the administration of
    fragments and samples is in [q_radmin.c] and lives in the receive buffers
    themselves, kept alive by biased reference counts.  In the other direction a
    writer ([q_entity.c], [q_transmit.c]) numbers the samples it writes, keeps
    them in its history cache ([q_whc.c]) while a remote reader may need them,
    sends them in fragments ([q_xmsg.c], [q_xevent.c]), tells its readers with
    heartbeats what it has, and answers their ACKNACKs and NACKFRAGs
    ([q_receive.c]) with retransmissions and gaps.  This development models the
    path from the bytes of a packet to the bytes a reader gets, and the writers
    at its other end, with what they stand on, and proves them correct.

    ** The parts and the files

    - [Prelude] (this file): C integers as [Z] with explicit wrap-around, the
      rewrite database [dds], shared facts on sorted lists.
    - [OrdTree]: what [ut_avl.h] promises to its clients, as the class
      [OrdTree] with laws [OrdTreeLaws] over the in-order list of nodes.
      [ListTree] is the reference instance.
    - [Avl], [AvlFacts], [AvlSearch], [AvlWalk], [AvlProps]:
      [utilities/code/ut_avl.c].  Every operation of the file: insertion and
      deletion with their paths, rebalancing, the exact and inexact lookups with
      and without duplicate keys, neighbours, iterators, walks, augmentation,
      counting trees.  A node embedded in a user structure is a node of a tree;
      parent pointers and [ut_avlPath_t] are zippers.  [AvlProps] discharges
      [OrdTreeLaws].
    - [Fibheap], [FibheapProps]: [utilities/code/ut_fibheap.c], every operation.
      A node with its children is a tree, a circular list is a list that starts
      at the node the code has a pointer to.  The class [PrioHeap] with laws
      [PrioHeapLaws] says what heaps promise to their users over the elements
      that are on them; [FibheapProps] discharges the laws, and has what a user
      needs whose elements carry their keys (the section [Keyed]).
    - [Bitset]: [q_bitset_template.c], on lists of 32-bit words.
    - [Refs]: [struct nn_rdata], fragment chains, and the class [RmsgRefs] with
      laws [RmsgRefsLaws]: what messages promise about their reference counts.
    - [Rmsg], [RmsgFacts], [RmsgProps]: receive buffer pools,
      buffers, messages and chunks ([nn_rbufpool_*], [nn_rbuf_*], [nn_rmsg_*],
      [nn_rdata_new]); the state is the pool with a map of its live buffers and
      one of its live messages.  They discharge [RmsgRefsLaws].
    - [Defrag], [DefragFacts], [DefragOps], [DefragProps], [DefragNack],
      [DefragClaims]: the defragmenter ([nn_defrag_*],
      [defrag_*]), for any [OrdTree] and any [RmsgRefs].
    - [Reorder], [ReorderFacts], [ReorderOps], [ReorderProps], [ReorderGap],
      [ReorderRun], [ReorderClaims]: the reorder administration
      ([nn_reorder_*], [delete_last_sample],
      [coalesce_intervals_touching_range], ...), [fromSN] and [toSN] of
      [q_misc.c]; same interfaces.
    - [Dqueue], [DqueueClaims]: delivery queues ([nn_dqueue_*],
      [dqueue_thread]) as a transition system of the receive threads, the
      delivery thread and a thread waiting for room.
    - [Time]: [q_time.c], without the functions that read a clock.
    - [QosMatch], [QosMatchProps]: [q_qosmatch.c] and [ddsi2_patmatch] of
      [q_misc.c].
    - [Wire]: byte order ([q_bswap.c]), GUIDs, and the access to fields of a
      packet, which is a list of bytes.
    - [Protocol], [ProtocolProps], [ProtocolRound], [ProtocolClaims]: the submessages of [q_protocol.h] and the validators of
      [q_receive.c] ([valid_*]) with [nn_plist_quickscan] of [q_plist.c].
    - [Submsg], [SubmsgProps]: [do_packet],
      [handle_submsg_sequence] and the receiver state; what they do is a list of
      calls of handlers.
    - [Receive]: a proxy writer, its readers ([struct pwr_rd_match]) and the
      handlers that act on it: [handle_regular], [handle_Gap],
      [handle_Heartbeat], [handle_HeartbeatFrag], ..., and of [q_entity.c] the
      creation, matching and deletion of proxy writers.  What leaves the proxy
      writer (enqueued chains, delivered samples, notifications) is a list of
      outputs.  [ReceiveFacts] has the invariant [pwr_ok] and the relations
      [carries] and [handled] between the states before and after a call;
      [ReceiveOps], [ReceiveProps], [ReceiveGap], [ReceiveHandlers] and
      [ReceiveConn] show them for the parts, the handlers and the matching of
      readers.
    - [Deliver]: [defragment], from a chain of fragments to the bytes of the
      sample.
    - [ReceiveRun], [ReceiveClaims]: a proxy writer in operation, as a
      reachability relation, and the composition with the delivery queue and
      [defragment].
    - [ReceiveFindings]: packets on which reception fails.
    - [Whc]: the writer history cache ([q_whc.c]), every operation.  The hash
      tables are maps, a pointer to a sample is its sequence number.  [WhcFacts]
      has the invariant; [WhcOps], [WhcFind], [WhcRemove], [WhcInsert] and
      [WhcWrite] follow the operations, [WhcHist] relates the cache to the
      history of what it was asked to keep, [WhcClaims] has the theorems.
    - [WrReaders], [WrReadersFacts]: the tree of the readers matched with a writer
      and [augment_wr_prd_match], which keeps in every node what is needed to
      know of its subtree.
    - [Xmsg], [XmsgFacts]: messages to send, the merging of retransmissions, and
      the queue they wait in ([q_xmsg.c], [q_xevent.c]).
    - [Writer]: [struct writer], its readers, states and heartbeats;
      [WriterSend]: writing, throttling and fragments; [WriterReply]:
      [handle_AckNack] and [handle_NackFrag].  A function is cut in two where it
      gives up the lock of the writer.  [WriterFacts] has the invariant
      [writer_ok] and the relation [advances] between the states before and
      after an operation; [WriterHb], [WriterWrite], [WriterReplyFacts] and
      [WriterAnswer] show it for heartbeats, writing and answers; [WriterRun] has
      the runs of a writer, any sequence of 21 operations, with their invariant;
      [WriterClaims] the theorems and [WriterFindings] runs in which a writer
      does not do what it means to.
    - [AckNack]: what a reader tells the writer: [add_AckNack] and the event
      that sends it ([handle_xevk_acknack] of [q_xevent.c]), on the proxy writer
      of [Receive].
    - [Lease], [LeaseProps]: [q_lease.c], every operation, for any [PrioHeap].
      The loop of [check_and_handle_lease_expiration] is cut into iterations,
      between which other threads renew, move, register and free leases.
    - [Xevent]: the events on a timer of [q_xevent.c], for any [PrioHeap]:
      creation, rescheduling, deletion and the loop of the thread that handles
      them.  [Receive] and [Writer] have the event of a reader or a writer as the
      time it is scheduled for; [xevent_is_its_time] relates the two.
    - [Gc], [GcProps]: the threads of the service and the numbers they announce
      their use of entities with ([q_thread.c], [q_thread_template.c]), the
      garbage collector of entities ([q_gc.c]) and the check of the watchdogs
      ([q_servicelease.c]).  A run has any threads, which find, unlink and use
      entities; the loops that read the numbers of all threads are cut into
      iterations.

    In every file the operations come first, with the names of the C functions;
    a loop or a branch of a long function is a definition of its own.  Most
    operations return an [option], and [None] is a failed assertion, a null
    pointer or an access outside an array or to freed memory; so that an
    operation returns [Some] is part of what is proved.

    ** What is proved

    - AVL trees: insertion and deletion keep the tree a height-balanced search
      tree and change exactly one node; the inexact lookups find the closest
      node, also among duplicates; iterations and range walks visit exactly the
      right nodes in order; the arrays of size [UT_AVL_MAX_TREEHEIGHT] are never
      overrun; summaries stay right; and the trees refine sorted lists
      ([avl_refines_ordtree]).
    - Messages: memory handed out is aligned, in its buffer, and disjoint from
      all live memory; buffers are freed exactly when nothing in them is alive;
      counts follow the interface ([rmsg_refines_refs]).
    - Defragmenter: each step keeps the invariant (disjoint, not touching byte
      intervals covered by their chains) and the reference counts; fragments in
      any order, with repetitions, yield the sample; nackmaps are exact;
      dropping and freeing are balanced.
    - Reorder administration: each step keeps the invariant; for every sequence
      of arrivals the delivered samples are in strictly increasing order and
      every element is accounted for; with room, every sample is delivered
      exactly once; nackmaps are exact; freeing is balanced.
    - Delivery queues: each element is handled once, in order, for its reader;
      the thread gets everything done; stopping drains the queue.
    - Times survive the wire format; patterns, partitions and QoS match exactly
      when they should.
    - Packets: whatever the bytes, cutting a packet into submessages ends; in a
      packet with a whole header validation reads nothing outside it, and the
      trace neither when a MSG_LEN submessage has its content
      ([traceable_packet]); what handlers get is well typed; a
      receiver state that a sample refers to is not changed; what a sender of
      either byte order writes is read back.
    - Proxy writers: in every reachable state, each valid submessage that is
      [sane] is processed without failing (in a build without the two assertions
      of the reorder code below), the invariant and the reference counts are
      kept, a GAP and a HEARTBEAT make exactly the right sequence numbers known,
      and deletion gives back all references.  End to end: the delivery thread
      hands every sample to the readers in increasing order of sequence numbers,
      and its bytes are the bytes that were sent.
    - History cache: no assertion fails, with the depths of the history that
      [settings] asks for; what is not acknowledged is kept, what
      late readers may want is kept, and what is acknowledged goes.
    - Writers: in every reachable state each legal operation succeeds, which for
      an ACKNACK is [acknack_legal]; a sample that a
      reader has not acknowledged is in the cache; while a reader lacks one a
      heartbeat is on its way; heartbeats advertise the right range; an ACKNACK is
      answered for every number it asks for, with all fragments of the sample or
      a GAP, and the GAP announces nothing that is in the cache ([in_gap] is
      what the receiver of a GAP reads from it, in [ReceiveGap]); the receiver
      takes from each DATAFRAG exactly the part of the sample that was put into
      it ([fragment_range] of [Protocol]).
    - Acknowledgements: an ACKNACK acknowledges nothing that is missing, asks only
      for what is, and for all of it that fits, with a NACKFRAG for exactly the
      missing fragments of a sample that is known in part; while something is
      missing the event is scheduled again.
    - Heaps: Fibonacci heaps are priority queues ([fibheap_refines_prioheap]):
      no operation fails, the elements are as they should be, and the first has
      the smallest key.
    - Events: every event that is due is handled, in the order of their times,
      and the thread never sleeps past one.
    - Garbage collection: an entity is not freed while a thread has a pointer to
      it, a request is granted when all threads it waits for have made progress,
      and the collector ends with no request left ([gc_shutdown]); the lease of
      the service is renewed exactly when all threads make progress
      ([servicelease_exact]).
    - Leases: whatever threads do with leases after they are registered
      ([lease_legal]), no operation fails, a lease that is past its
      end is found by the next check, one that was renewed is not, and a check
      ends.
    - Some theorems show what the code does that it cannot mean to:
      [reorder_dropped_sample_is_lost], [defrag_merge_forgets_bytes],
      [defrag_full_evicts_its_own_sample], [dqueue_lost_wakeup],
      [bitset_one_overruns], [late_ack_nacks_received],
      [lease_renew_never_ignored], [lease_expiry_before_register], [thread_finds_other_slot],
      [reorder_assertions_fail], [heartbeat_sum_wraps], [short_packets_overread]
      and those of [ReceiveFindings] and [WriterFindings].  The correctness theorems
      state their hypotheses so that these cases are covered or excluded
      explicitly ([sane], [gap_fits], [nackmap_fits], [nack_range],
      [aligned_packet], [traceable_packet], [settings], [acknack_legal],
      [growable], [nack_fits], [acknack_call], [lease_legal]).

    ** Fuel and bounds

    Loops over a tree run with as much fuel as the tree has nodes (each
    iteration removes or passes one), pattern matching with the length of the
    pattern; running out is [None], so the theorems that an operation returns
    [Some] show that it is enough.  Sizes of structures are those of a 64-bit
    platform without debug fields ([RMSG_PAYLOAD_OFF], [CHUNK_PAYLOAD_OFF],
    [SIZEOF_RDATA]).  Sequence numbers are 64-bit.  What is computed from a number
    that the network can choose is wrapped: the number after a sample
    ([reorder_rsample_new], [rsample_convert_defrag_to_reorder]), the range of a
    nackmap, the ends of a GAP, the number before the base of an ACKNACK
    ([acked_seq]) and the number after the last one of a HEARTBEAT.  That nothing
    wraps is a condition of the theorems: numbers of samples are positive and below
    2^63 - 1 ([sane], [data_pre]), those of a GAP too ([gap_fits]), the last number
    of a writer as well ([nack_range], [ac_last]), and the base of an ACKNACK is not
    the least number when the writer lingers ([acknack_legal]).  The loop over the submessages of a
    packet has as much fuel as the packet has bytes, those over readers as much
    as there are readers.  The loops of [handle_AckNack] and [handle_NackFrag] have as
    much as there are bits, those over fragments as much as there are fragments.
    Putting roots of equal degree together has as much fuel as entries of the array
    of roots are in use, and one more; [HEAP_CAPACITY], the Fibonacci number 66,
    is the number of elements below which no degree exceeds [MAX_DEGREE], 63.  A
    check of the leases has as much fuel as leases are due, and one more; that of
    the numbers of threads as much as there are numbers, since each iteration
    passes one or takes one out.
    [ndebug] is whether assertions are compiled out; it is an argument where
    valid input makes an assertion fail: in the history cache with some settings
    ([whc_prune_assertion]), and in the reorder code
    ([nn_reorder_rsample_build], [nn_reorder_gap_build]).  There it is for two
    assertions, that on the sample info of the element before the last in
    [delete_last_sample] ([delete_last_assert], null for a gap) and that on the
    length of a released range in [nn_reorder_rsample].  [nn_reorder_rsample] and
    [nn_reorder_gap], which the other files use, are the build without these two
    and with all others; one with them does the same unless one of the two
    fails ([reorder_builds_agree]).  All other assertions fail as [None].

    ** What is not modelled

    Logging and tracing, except what they read from the packet in the header check of
    [do_packet] and for MSG_LEN; the Valgrind annotations; the failure branches of
    [os_malloc] where the code would only pass on the null pointer, as
    [os_malloc] does not return null (in [Rmsg] the result is an argument and
    the branches are there); the initialisation failures of mutexes and
    threads.  Of [q_receive.c] the deserialisation and the writing of samples into the kernel,
    the receive threads and sockets, and encrypted containers, a build option
    that calls a plugin, are left out; in the handlers, [nn_rmsg_alloc] always
    has room.  The model is of the build for the full product, not of the LITE
    one.  Of writers the sets of addresses, network
    partitions, latency estimates, the packets that messages are put into and the
    parameters of coherent sets are left out; what the code does to them is a
    list of outputs.  Memory is sequentially consistent.  Discovery, the configuration, the database, the kernel and
    the other services are outside this development. *)

From Stdlib Require Import ZArith Lia Sorting.Sorted.
From stdpp Require Import prelude.

(** * Machine integers

    C integers are kept as [Z] with the wrap-around of the C type written
    out where a computation can leave its range. *)

Open Scope Z_scope.

(** Conversion to an unsigned integer of [w] bits. *)
Definition wrap_u (w : Z) (x : Z) : Z := x mod 2 ^ w.

(** Conversion to a signed (two's complement) integer of [w] bits. *)
Definition wrap_s (w : Z) (x : Z) : Z :=
  let y := x mod 2 ^ w in if y <? 2 ^ (w - 1) then y else y - 2 ^ w.

Definition in_u (w x : Z) : Prop := 0 <= x < 2 ^ w.
Definition in_s (w x : Z) : Prop := - 2 ^ (w - 1) <= x < 2 ^ (w - 1).

Lemma wrap_u_small w x : in_u w x -> wrap_u w x = x.
Proof. intros Hx. unfold wrap_u. by apply Z.mod_small. Qed.

Lemma wrap_s_small w x : 0 < w -> in_s w x -> wrap_s w x = x.
Proof.
  intros Hw [H1 H2]. unfold wrap_s. assert (He : 2 ^ w = 2 * 2 ^ (w - 1)).
  { replace w with (1 + (w - 1)) at 1 by lia. rewrite Z.pow_add_r by lia. lia. }
  destruct (Z.lt_ge_cases x 0).
  - assert (E : x mod 2 ^ w = x + 2 ^ w) by (symmetry; apply Z.mod_unique with (-1); [left|]; lia).
    rewrite E. destruct (Z.ltb_spec (x + 2 ^ w) (2 ^ (w - 1))); lia.
  - rewrite Z.mod_small by lia. destruct (Z.ltb_spec x (2 ^ (w - 1))); lia.
Qed.

Lemma wrap_s_range w x : 0 < w -> in_s w (wrap_s w x).
Proof.
  intros Hw. unfold wrap_s, in_s. assert (He : 2 ^ w = 2 * 2 ^ (w - 1)).
  { replace w with (1 + (w - 1)) at 1 by lia. rewrite Z.pow_add_r by lia. lia. }
  assert (Hp : 0 < 2 ^ (w - 1)) by (apply Z.pow_pos_nonneg; lia).
  pose proof (Z.mod_pos_bound x (2 ^ w) ltac:(lia)).
  destruct (Z.ltb_spec (x mod 2 ^ w) (2 ^ (w - 1))); lia.
Qed.

(** Sums and differences of sequence numbers ([os_int64]). *)
Lemma wrap_seq x : - 2 ^ 63 <= x < 2 ^ 63 -> wrap_s 64 x = x.
Proof. intros Hx. by apply wrap_s_small. Qed.

Lemma wrap_u_range w x : 0 <= w -> in_u w (wrap_u w x).
Proof. intros Hw. unfold wrap_u, in_u. apply Z.mod_pos_bound. apply Z.pow_pos_nonneg; lia. Qed.

(** * Automation *)

(** [dds] removes conversions that do not change their argument. *)
Create Rewrite HintDb dds.
#[export] Hint Rewrite wrap_u_small using (solve [unfold in_u; lia]) : dds.
#[export] Hint Rewrite wrap_s_small using (solve [unfold in_s; lia]) : dds.

Ltac nowrap := autorewrite with dds; try lia; try done.

(** Case analysis on the integer comparisons of translated conditions. *)
Ltac zcase1 :=
  match goal with
  | |- context [?x =? ?y] => destruct (Z.eqb_spec x y) as [?Hz|?Hz]
  | |- context [?x <? ?y] => destruct (Z.ltb_spec x y) as [?Hz|?Hz]
  | |- context [?x <=? ?y] => destruct (Z.leb_spec x y) as [?Hz|?Hz]
  | |- context [?x >? ?y] => rewrite (Z.gtb_ltb x y)
  | |- context [?x >=? ?y] => rewrite (Z.geb_leb x y)
  | H : context [?x =? ?y] |- _ => destruct (Z.eqb_spec x y) as [?Hz|?Hz]
  | H : context [?x <? ?y] |- _ => destruct (Z.ltb_spec x y) as [?Hz|?Hz]
  | H : context [?x <=? ?y] |- _ => destruct (Z.leb_spec x y) as [?Hz|?Hz]
  | H : context [?x >? ?y] |- _ => rewrite (Z.gtb_ltb x y) in H
  | H : context [?x >=? ?y] |- _ => rewrite (Z.geb_leb x y) in H
  end.

Ltac zcases := repeat (zcase1; cbn beta iota delta [andb orb negb] in * ); try lia.

(** * Lists *)

Lemma StronglySorted_app_iff {A : Type} (R : A -> A -> Prop) l1 l2 :
  StronglySorted R (l1 ++ l2) <->
  StronglySorted R l1 /\ StronglySorted R l2 /\ Forall (fun a => Forall (R a) l2) l1.
Proof.
  induction l1 as [|x l1 IH]; simpl.
  - split; [intros H; repeat split; auto; constructor | tauto].
  - split.
    + intros H. apply StronglySorted_inv in H as [H1 H2].
      apply IH in H1 as (? & ? & ?). apply Forall_app in H2 as [? ?].
      repeat split; auto; constructor; auto.
    + intros (H1 & H2 & H3). apply StronglySorted_inv in H1 as [H1 H4].
      apply Forall_cons in H3 as [H3 H5].
      constructor; [tauto | apply Forall_app; auto].
Qed.

Lemma StronglySorted_mid_iff {A : Type} (R : A -> A -> Prop) l1 x l2 :
  StronglySorted R (l1 ++ x :: l2) <->
  StronglySorted R l1 /\ StronglySorted R l2 /\ Forall (fun y => R y x) l1 /\
  Forall (R x) l2 /\ Forall (fun a => Forall (R a) l2) l1.
Proof.
  rewrite StronglySorted_app_iff. split.
  - intros (? & Hc & Hl). apply StronglySorted_inv in Hc as [? ?].
    repeat split; auto; (eapply Forall_impl; [exact Hl|]); simpl; intros y Hy;
      apply Forall_cons in Hy; tauto.
  - intros (? & ? & Ha & ? & Hc). repeat split; auto; [by constructor|].
    rewrite Forall_forall in *. intros y Hy. apply Forall_cons. split; auto.
Qed.
