(* ===== verification/OrdTree.v ===== *)
(** * The ordered tree interface

    [ut_avl.h] promises its clients (the defragmenter, the reorder
    administration, the writer history cache, the address sets) a tree of
    nodes ordered on a key.  This file states that promise as a type class:
    [OrdTree] holds the operations the clients call and [OrdTreeLaws] their
    meaning in terms of the in-order list of nodes, against the reference
    functions [l_lookup], [l_predeq], ... on sorted lists.  [Avl.v]
    discharges the class for the AVL trees of [ut_avl.c]; [ListTree] below is
    the reference implementation on sorted lists. *)

From Stdlib Require Import ZArith Lia Sorting.Sorted.
From stdpp Require Import prelude.
From S2P Require Import Prelude.

Section OrdList.
Context {E : Type} (key : E -> Z).

Definition key_lt (a b : E) : Prop := key a < key b.
Definition sorted (l : list E) : Prop := StronglySorted key_lt l.

(** Reference operations on a list sorted on [key]. *)
Fixpoint l_lookup (k : Z) (l : list E) : option E :=
  match l with
  | [] => None
  | x :: l' => if key x =? k then Some x else l_lookup k l'
  end.

Fixpoint l_predeq (k : Z) (l : list E) : option E :=
  match l with
  | [] => None
  | x :: l' =>
      if key x <=? k
      then match l_predeq k l' with Some y => Some y | None => Some x end
      else None
  end.

Fixpoint l_pred (k : Z) (l : list E) : option E :=
  match l with
  | [] => None
  | x :: l' =>
      if key x <? k
      then match l_pred k l' with Some y => Some y | None => Some x end
      else None
  end.

Fixpoint l_succeq (k : Z) (l : list E) : option E :=
  match l with
  | [] => None
  | x :: l' => if k <=? key x then Some x else l_succeq k l'
  end.

Fixpoint l_succ (k : Z) (l : list E) : option E :=
  match l with
  | [] => None
  | x :: l' => if k <? key x then Some x else l_succ k l'
  end.

Fixpoint l_insert (x : E) (l : list E) : list E :=
  match l with
  | [] => [x]
  | y :: l' => if key y <? key x then y :: l_insert x l' else x :: y :: l'
  end.

Fixpoint l_delete (k : Z) (l : list E) : list E :=
  match l with
  | [] => []
  | y :: l' => if key y =? k then l' else y :: l_delete k l'
  end.

Fixpoint l_replace (k : Z) (x : E) (l : list E) : list E :=
  match l with
  | [] => []
  | y :: l' => if key y =? k then x :: l' else y :: l_replace k x l'
  end.

(** ** Sorted lists *)

Lemma sorted_app l1 l2 :
  sorted (l1 ++ l2) <->
  sorted l1 /\ sorted l2 /\ Forall (fun a => Forall (key_lt a) l2) l1.
Proof. apply StronglySorted_app_iff. Qed.

Lemma sorted_cons x l :
  sorted (x :: l) <-> Forall (key_lt x) l /\ sorted l.
Proof.
  split; [intros H; apply StronglySorted_inv in H; tauto | constructor; tauto].
Qed.

Lemma sorted_mid l1 x l2 :
  sorted (l1 ++ x :: l2) <->
  sorted l1 /\ sorted l2 /\ Forall (fun y => key_lt y x) l1 /\
  Forall (key_lt x) l2 /\ Forall (fun a => Forall (key_lt a) l2) l1.
Proof. apply StronglySorted_mid_iff. Qed.

Lemma Forall_key_lt_trans a b l :
  key a <= key b -> Forall (key_lt b) l -> Forall (key_lt a) l.
Proof. intros ? Hb. eapply Forall_impl; [exact Hb|]. unfold key_lt. intros; lia. Qed.

(** ** What the reference operations return *)

Lemma l_lookup_Some k l x :
  l_lookup k l = Some x -> key x = k /\ exists l1 l2, l = l1 ++ x :: l2.
Proof.
  induction l as [|y l IH]; simpl; [discriminate|].
  zcases.
  - intros [= ->]. split; auto. by exists [], l.
  - intros H. destruct (IH H) as (? & l1 & l2 & ->). split; auto.
    by exists (y :: l1), l2.
Qed.

Lemma l_lookup_None k l :
  l_lookup k l = None <-> Forall (fun y => key y <> k) l.
Proof.
  induction l as [|y l IH]; simpl; [split; auto|].
  rewrite Forall_cons. zcases; [|rewrite <- IH; tauto].
  split; [discriminate | tauto].
Qed.

Lemma l_lookup_mid l1 x l2 :
  sorted (l1 ++ x :: l2) -> l_lookup (key x) (l1 ++ x :: l2) = Some x.
Proof.
  intros (_ & _ & H & _ & _)%sorted_mid. induction l1 as [|y l1 IH]; simpl.
  - by rewrite Z.eqb_refl.
  - apply Forall_cons in H as [H1 H2]. unfold key_lt in H1. zcases. auto.
Qed.

Lemma l_predeq_Some k l x :
  sorted l -> l_predeq k l = Some x ->
  exists l1 l2, l = l1 ++ x :: l2 /\ key x <= k /\ Forall (fun y => k < key y) l2.
Proof.
  induction l as [|y l IH]; simpl; [discriminate|].
  rewrite sorted_cons. intros [H1 H2]. zcases; [|discriminate].
  destruct (l_predeq k l) as [z|] eqn:Ez.
  - intros [= <-]. destruct (IH H2 eq_refl) as (l1 & l2 & -> & ? & ?).
    by exists (y :: l1), l2.
  - intros [= <-]. exists [], l. repeat split; auto.
    destruct l as [|w l]; [constructor|]. simpl in Ez.
    apply sorted_cons in H2 as [H2 _].
    destruct (Z.leb_spec (key w) k).
    { destruct (l_predeq k l); discriminate. }
    constructor; auto.
    eapply Forall_impl; [exact H2|]; unfold key_lt; simpl; intros; lia.
Qed.

Lemma l_predeq_None k l :
  sorted l -> l_predeq k l = None -> Forall (fun y => k < key y) l.
Proof.
  destruct l as [|y l]; simpl; [constructor|].
  rewrite sorted_cons. intros [H1 H2]. zcases.
  - destruct (l_predeq k l); discriminate.
  - intros _. constructor; auto.
    eapply Forall_impl; [exact H1|]; unfold key_lt; simpl; intros; lia.
Qed.

Lemma l_predeq_mid k l1 x l2 :
  sorted (l1 ++ x :: l2) -> key x <= k -> Forall (fun y => k < key y) l2 ->
  l_predeq k (l1 ++ x :: l2) = Some x.
Proof.
  intros (_ & _ & H & _ & _)%sorted_mid Hk Hl2.
  induction l1 as [|y l1 IH]; simpl.
  - zcases. destruct l2 as [|z l2]; simpl; auto.
    apply Forall_cons in Hl2 as [? ?]. zcases. done.
  - apply Forall_cons in H as [H1 H2]. unfold key_lt in H1. zcases.
    by rewrite IH.
Qed.

Lemma l_pred_Some k l x :
  sorted l -> l_pred k l = Some x ->
  exists l1 l2, l = l1 ++ x :: l2 /\ key x < k /\ Forall (fun y => k <= key y) l2.
Proof.
  induction l as [|y l IH]; simpl; [discriminate|].
  rewrite sorted_cons. intros [H1 H2]. zcases; [|discriminate].
  destruct (l_pred k l) as [z|] eqn:Ez.
  - intros [= <-]. destruct (IH H2 eq_refl) as (l1 & l2 & -> & ? & ?).
    by exists (y :: l1), l2.
  - intros [= <-]. exists [], l. repeat split; auto.
    destruct l as [|w l]; [constructor|]. simpl in Ez.
    apply sorted_cons in H2 as [H2 _].
    destruct (Z.ltb_spec (key w) k).
    { destruct (l_pred k l); discriminate. }
    constructor; auto.
    eapply Forall_impl; [exact H2|]; unfold key_lt; simpl; intros; lia.
Qed.

Lemma l_pred_mid l1 x l2 :
  sorted (l1 ++ x :: l2) -> l_pred (key x) (l1 ++ x :: l2) = last l1.
Proof.
  intros (Hs & _ & H & Hx & _)%sorted_mid.
  assert (Hn : l_pred (key x) (x :: l2) = None) by (simpl; zcases; done).
  revert Hs H. induction l1 as [|y l1 IH]; intros Hs H.
  - exact Hn.
  - apply sorted_cons in Hs as [_ Hs]. apply Forall_cons in H as [Hy Hl].
    unfold key_lt in Hy. cbn [app l_pred]. zcases.
    rewrite IH by auto. destruct l1 as [|z l1]; [done|].
    assert (He : is_Some (last (z :: l1))) by (apply last_is_Some; done).
    destruct He as [w Hw]. by rewrite last_cons_cons, Hw.
Qed.

Lemma l_succeq_Some k l x :
  l_succeq k l = Some x ->
  exists l1 l2, l = l1 ++ x :: l2 /\ k <= key x /\ Forall (fun y => key y < k) l1.
Proof.
  induction l as [|y l IH]; simpl; [discriminate|]. zcases.
  - intros [= <-]. by exists [], l.
  - intros H. destruct (IH H) as (l1 & l2 & -> & ? & ?).
    exists (y :: l1), l2. repeat split; auto.
Qed.

Lemma l_succeq_None k l :
  l_succeq k l = None -> Forall (fun y => key y < k) l.
Proof. induction l; simpl; [constructor|]. zcases; [discriminate|]. auto. Qed.

Lemma l_succ_mid l1 x l2 :
  sorted (l1 ++ x :: l2) -> l_succ (key x) (l1 ++ x :: l2) = head l2.
Proof.
  intros (_ & _ & H & Hx & _)%sorted_mid.
  induction l1 as [|y l1 IH]; simpl.
  - rewrite Z.ltb_irrefl. destruct l2 as [|z l2]; simpl; auto.
    apply Forall_cons in Hx as [Hx _]. unfold key_lt in Hx. zcases. done.
  - apply Forall_cons in H as [H1 H2]. unfold key_lt in H1. zcases. auto.
Qed.

Lemma l_insert_mid l1 x l2 :
  Forall (fun y => key_lt y x) l1 -> Forall (key_lt x) l2 ->
  l_insert x (l1 ++ l2) = l1 ++ x :: l2.
Proof.
  intros H1 H2. induction l1 as [|y l1 IH]; simpl.
  - destruct l2 as [|z l2]; simpl; auto.
    apply Forall_cons in H2 as [H2 _]. unfold key_lt in H2. zcases. done.
  - apply Forall_cons in H1 as [H1 H3]. unfold key_lt in H1. zcases.
    by rewrite IH.
Qed.

Lemma l_delete_mid l1 x l2 :
  sorted (l1 ++ x :: l2) -> l_delete (key x) (l1 ++ x :: l2) = l1 ++ l2.
Proof.
  intros (_ & _ & H & _ & _)%sorted_mid. induction l1 as [|y l1 IH]; simpl.
  - by rewrite Z.eqb_refl.
  - apply Forall_cons in H as [H1 H2]. unfold key_lt in H1. zcases.
    by rewrite IH.
Qed.

Lemma l_replace_mid l1 x y l2 :
  sorted (l1 ++ x :: l2) ->
  l_replace (key x) y (l1 ++ x :: l2) = l1 ++ y :: l2.
Proof.
  intros (_ & _ & H & _ & _)%sorted_mid. induction l1 as [|z l1 IH]; simpl.
  - by rewrite Z.eqb_refl.
  - apply Forall_cons in H as [H1 H2]. unfold key_lt in H1. zcases.
    by rewrite IH.
Qed.

Lemma l_insert_In x y l : y ∈ l_insert x l <-> y = x \/ y ∈ l.
Proof. induction l as [|z l IH]; simpl; [set_solver|]; zcases; rewrite ?elem_of_cons, ?IH; tauto. Qed.

Lemma l_delete_notin k l :
  Forall (fun y => key y <> k) l -> l_delete k l = l.
Proof.
  induction l as [|y l IH]; simpl; auto.
  intros [H1 H2]%Forall_cons. zcases. by rewrite IH.
Qed.

(** An element of a sorted list has one position. *)
Lemma sorted_mid_unique x l1 l2 l1' l2' :
  sorted (l1 ++ x :: l2) -> l1 ++ x :: l2 = l1' ++ x :: l2' ->
  l1' = l1 /\ l2' = l2.
Proof.
  revert l1'. induction l1 as [|z l1 IH]; intros [|w l1'] Hs He; simpl in *.
  - by injection He as ->.
  - injection He as -> ->. apply sorted_cons in Hs as [Hs _].
    rewrite Forall_forall in Hs. specialize (Hs w). unfold key_lt in Hs.
    exfalso. assert (key w < key w) by (apply Hs; set_solver). lia.
  - injection He as -> <-. apply sorted_cons in Hs as [Hs _].
    rewrite Forall_forall in Hs. specialize (Hs x). unfold key_lt in Hs.
    exfalso. assert (key x < key x) by (apply Hs; set_solver). lia.
  - injection He as -> He. apply sorted_cons in Hs as [_ Hs].
    by destruct (IH _ Hs He) as [-> ->].
Qed.

(** Splitting a sorted list at a key it does not hold. *)
Lemma sorted_split k l :
  sorted l -> Forall (fun y => key y <> k) l ->
  exists l1 l2, l = l1 ++ l2 /\ Forall (fun y => key y < k) l1 /\
                Forall (fun y => k < key y) l2.
Proof.
  induction l as [|y l IH]; intros Hs Hn.
  - exists [], []. repeat split; auto.
  - apply sorted_cons in Hs as [Hy Hs]. apply Forall_cons in Hn as [Hk Hn].
    destruct (Z.lt_total (key y) k) as [|[|]]; [|done|].
    + destruct (IH Hs Hn) as (l1 & l2 & -> & ? & ?).
      exists (y :: l1), l2. repeat split; auto.
    + exists [], (y :: l). repeat split; auto. constructor; auto.
      eapply Forall_impl; [exact Hy|]. unfold key_lt; simpl; intros; lia.
Qed.
End OrdList.

(** ** The interface *)

(** Operations: the calls of [ut_avl.h] the modelled clients make, on trees
    without duplicate keys and with integer keys.  A node pointer that is
    handed to the tree ([Delete], [FindSucc], [SwapNode], writing a field
    through the pointer) is represented by the key of the node. *)
Class OrdTree (T : Type -> Type) : Type := {
  ot_elements : forall {E}, T E -> list E;
  ot_wf : forall {E} (key : E -> Z), T E -> Prop;
  ot_init : forall {E}, T E;
  ot_lookup : forall {E} (key : E -> Z), T E -> Z -> option E;
  ot_lookup_predeq : forall {E} (key : E -> Z), T E -> Z -> option E;
  ot_lookup_succeq : forall {E} (key : E -> Z), T E -> Z -> option E;
  ot_find_min : forall {E}, T E -> option E;
  ot_find_max : forall {E}, T E -> option E;
  ot_find_succ : forall {E} (key : E -> Z), T E -> Z -> option E;
  ot_find_pred : forall {E} (key : E -> Z), T E -> Z -> option E;
  ot_root : forall {E}, T E -> option E;
  ot_is_empty : forall {E}, T E -> bool;
  ot_is_singleton : forall {E}, T E -> bool;
  ot_insert : forall {E} (key : E -> Z), T E -> E -> T E;
  ot_delete : forall {E} (key : E -> Z), T E -> Z -> T E;
  ot_replace : forall {E} (key : E -> Z), T E -> Z -> E -> T E;
}.

Class OrdTreeLaws (T : Type -> Type) `{!OrdTree T} : Prop := {
  ot_wf_sorted : forall {E} (key : E -> Z) (t : T E),
    ot_wf key t -> sorted key (ot_elements t);
  ot_init_wf : forall {E} (key : E -> Z), ot_wf key (@ot_init T _ E);
  ot_init_elements : forall {E}, ot_elements (@ot_init T _ E) = [];
  ot_lookup_spec : forall {E} (key : E -> Z) (t : T E) k,
    ot_wf key t -> ot_lookup key t k = l_lookup key k (ot_elements t);
  ot_lookup_predeq_spec : forall {E} (key : E -> Z) (t : T E) k,
    ot_wf key t -> ot_lookup_predeq key t k = l_predeq key k (ot_elements t);
  ot_lookup_succeq_spec : forall {E} (key : E -> Z) (t : T E) k,
    ot_wf key t -> ot_lookup_succeq key t k = l_succeq key k (ot_elements t);
  ot_find_min_spec : forall {E} (t : T E), ot_find_min t = head (ot_elements t);
  ot_find_max_spec : forall {E} (t : T E), ot_find_max t = last (ot_elements t);
  ot_find_succ_spec : forall {E} (key : E -> Z) (t : T E) l1 x l2,
    ot_wf key t -> ot_elements t = l1 ++ x :: l2 ->
    ot_find_succ key t (key x) = head l2;
  ot_find_pred_spec : forall {E} (key : E -> Z) (t : T E) l1 x l2,
    ot_wf key t -> ot_elements t = l1 ++ x :: l2 ->
    ot_find_pred key t (key x) = last l1;
  ot_root_spec : forall {E} (t : T E),
    match ot_root t with
    | Some x => x ∈ ot_elements t
    | None => ot_elements t = []
    end;
  ot_is_empty_spec : forall {E} (t : T E),
    ot_is_empty t = match ot_elements t with [] => true | _ => false end;
  ot_is_singleton_spec : forall {E} (key : E -> Z) (t : T E),
    ot_wf key t ->
    ot_is_singleton t = match ot_elements t with [_] => true | _ => false end;
  ot_insert_spec : forall {E} (key : E -> Z) (t : T E) x,
    ot_wf key t -> Forall (fun y => key y <> key x) (ot_elements t) ->
    ot_wf key (ot_insert key t x) /\
    ot_elements (ot_insert key t x) = l_insert key x (ot_elements t);
  ot_delete_spec : forall {E} (key : E -> Z) (t : T E) k,
    ot_wf key t ->
    ot_wf key (ot_delete key t k) /\
    ot_elements (ot_delete key t k) = l_delete key k (ot_elements t);
  (** Rewriting a node in place: the key may change as long as it stays
      between those of the neighbours. *)
  ot_replace_spec : forall {E} (key : E -> Z) (t : T E) l1 x y l2,
    ot_wf key t -> ot_elements t = l1 ++ x :: l2 ->
    sorted key (l1 ++ y :: l2) ->
    ot_wf key (ot_replace key t (key x) y) /\
    ot_elements (ot_replace key t (key x) y) = l1 ++ y :: l2;
}.

(** ** The reference implementation: sorted lists *)

Definition ListTree (E : Type) : Type := list E.

#[global] Instance list_ordtree : OrdTree ListTree := {|
  ot_elements := fun E t => t;
  ot_wf := fun E key t => sorted key t;
  ot_init := fun E => [];
  ot_lookup := fun E key t k => l_lookup key k t;
  ot_lookup_predeq := fun E key t k => l_predeq key k t;
  ot_lookup_succeq := fun E key t k => l_succeq key k t;
  ot_find_min := fun E t => head t;
  ot_find_max := fun E t => last t;
  ot_find_succ := fun E key t k => l_succ key k t;
  ot_find_pred := fun E key t k => l_pred key k t;
  ot_root := fun E t => head t;
  ot_is_empty := fun E t => match t with [] => true | _ => false end;
  ot_is_singleton := fun E t => match t with [_] => true | _ => false end;
  ot_insert := fun E key t x => l_insert key x t;
  ot_delete := fun E key t k => l_delete key k t;
  ot_replace := fun E key t k x => l_replace key k x t;
|}.

#[global] Instance list_ordtree_laws : OrdTreeLaws ListTree.
Proof.
  split; simpl; auto.
  - intros E key. constructor.
  - intros E key t l1 x l2 Hs ->. by apply l_succ_mid.
  - intros E key t l1 x l2 Hs ->. by apply l_pred_mid.
  - intros E t. destruct t; simpl; [done|]. apply elem_of_cons; auto.
  - intros E key t x Hs Hn. split; auto.
    destruct (sorted_split key (key x) t) as (l1 & l2 & -> & H1 & H2); auto.
    rewrite l_insert_mid by auto. apply sorted_app in Hs as (? & ? & ?).
    apply sorted_mid. repeat split; auto.
  - intros E key t k Hs. split; auto.
    destruct (l_lookup key k t) as [x|] eqn:El.
    + apply l_lookup_Some in El as (<- & l1 & l2 & ->).
      rewrite l_delete_mid by auto. apply sorted_mid in Hs as (? & ? & ? & ? & ?).
      by apply sorted_app.
    + apply l_lookup_None in El. by rewrite l_delete_notin.
  - intros E key t l1 x y l2 Hs -> Hs'. rewrite l_replace_mid by auto. auto.
Qed.
