(* ===== verification/Avl.v ===== *)
(** * AVL trees: [src/utilities/code/ut_avl.c]

    The tree library under the whole of ddsi2e (and under the database, the
    durability service and the network bridge).  A C node embeds
    [ut_avlNode_t] (children [cs[0]], [cs[1]], [parent], [height]) in a user
    structure; here a node carries the user structure split in the part the
    tree never writes ([E], which holds the key) and the summary that the
    optional [augment] callback recomputes ([A]).  Parent pointers and the
    [ut_avlPath_t] of pointers to child slots are both the zipper [path]: the
    frames from a position up to the root.

    Part 1 translates every operation of the file, part 2 shows that they
    keep the tree a balanced search tree and refine the operations on the
    in-order list of nodes, and part 3 discharges the interface of
    [OrdTree.v]. *)

From Stdlib Require Import ZArith Lia Sorting.Sorted.
From stdpp Require Import prelude.
From S2P Require Import Prelude OrdTree.

(** ** Part 1: the operations *)

(** [ut_avlTreedef_t]: the comparison on keys returns a C [int]; INDKEY and
    the re-entrant comparison only change how the key is fetched and are
    folded into [td_key] and [td_cmp]. *)
Record treedef (K E A : Type) : Type := Treedef {
  td_key : E -> K;
  td_cmp : K -> K -> Z;
  td_augment : option (E -> option (E * A) -> option (E * A) -> A);
  td_allowdups : bool;
}.
Arguments Treedef {K E A}.
Arguments td_key {K E A}.
Arguments td_cmp {K E A}.
Arguments td_augment {K E A}.
Arguments td_allowdups {K E A}.

(** [ut_avlNode_t]; the null pointer is [Nil]. *)
Inductive tree (E A : Type) : Type :=
| Nil
| Node (height : Z) (cs0 : tree E A) (x : E) (a : A) (cs1 : tree E A).
Arguments Nil {E A}.
Arguments Node {E A}.

(** Twelve times the size of a pointer, on a platform with 64-bit pointers. *)
Definition UT_AVL_MAX_TREEHEIGHT : Z := 12 * 8.

Section Avl.
Context {K E A : Type}.
Implicit Types (td : treedef K E A) (t : tree E A) (k : K) (x : E) (a : A).

(** The user's structure around a node: [conode_from_node]. *)
Definition onode_from_node t : option (E * A) :=
  match t with Nil => None | Node _ _ x a _ => Some (x, a) end.

Definition node_height t : Z :=
  match t with Nil => 0 | Node h _ _ _ _ => h end.

(** [n->cs[dir]], for [dir] false = 0 = left, true = 1 = right. *)
Definition cs (dir : bool) t : tree E A :=
  match t with
  | Nil => Nil
  | Node _ l _ _ r => if dir then r else l
  end.

(** A node with child [c] on side [dir] and [o] on the other side. *)
Definition mk (dir : bool) (h : Z) (c : tree E A) x a (o : tree E A) : tree E A :=
  if dir then Node h o x a c else Node h c x a o.

Definition comparenk td x k : Z := td_cmp td (td_key td x) k.

Definition ut_avlInit : tree E A := Nil.

(** [treedestroy]: the order in which [freefun] is called. *)
Fixpoint treedestroy t : list E :=
  match t with
  | Nil => []
  | Node _ l x _ r => treedestroy l ++ treedestroy r ++ [x]
  end.

(** [ut_avlFree]: the emptied tree and the calls of [freefun], none if it
    is the null pointer. *)
Definition ut_avlFree t (has_freefun : bool) : tree E A * list E :=
  (Nil, if has_freefun then treedestroy t else []).

(** With an argument for [freefun]; the calls are the same. *)
Definition ut_avlFreeArg t (has_freefun : bool) : tree E A * list E :=
  (Nil, if has_freefun then treedestroy t else []).

Definition augment td t : tree E A :=
  match td_augment td, t with
  | Some f, Node h l x a r =>
      Node h l x (f x (onode_from_node l) (onode_from_node r)) r
  | _, _ => t
  end.

(** [rotate_single]: [*pnode] afterwards; [None] is the failed assertion
    that there is a child to rotate up. *)
Definition rotate_single td t (dir : bool) : option (tree E A) :=
  match t with
  | Nil => None
  | Node _ _ x a _ =>
      match cs (negb dir) t with
      | Nil => None
      | Node _ _ xND aND _ as node_ND =>
          let node_ND_D := cs dir node_ND in
          let h := match node_ND_D with Nil => 1 | Node hd _ _ _ _ => 1 + hd end in
          let node := augment td (mk (negb dir) h node_ND_D x a (cs dir t)) in
          Some (augment td (mk dir (h + 1) node xND aND (cs (negb dir) node_ND)))
      end
  end.

Definition rotate_double td t (dir : bool) : option (tree E A) :=
  match t with
  | Nil => None
  | Node _ _ x a _ =>
      match cs (negb dir) t with
      | Nil => None
      | Node hND _ xND aND _ as node_ND =>
          match cs dir node_ND with
          | Nil => None
          | Node hNDD _ xNDD aNDD _ as node_ND_D =>
              let node_ND' :=
                mk dir hNDD (cs (negb dir) node_ND_D) xND aND (cs (negb dir) node_ND) in
              let node' := mk (negb dir) hNDD (cs dir node_ND_D) x a (cs dir t) in
              let node' := augment td node' in
              let node_ND' := augment td node_ND' in
              Some (augment td (mk dir hND node' xNDD aNDD node_ND'))
          end
      end
  end.

Definition rotate td t (dir : bool) : option (tree E A) :=
  let node_ND := cs (negb dir) t in
  let height_ND_ND := node_height (cs (negb dir) node_ND) in
  let height_ND_D := node_height (cs dir node_ND) in
  if height_ND_ND <? height_ND_D then rotate_double td t dir
  else rotate_single td t dir.

(** [rebalance_one]: the subtree afterwards and whether to continue with
    the parent (the C function returns null to stop). *)
Definition rebalance_one td t : option (tree E A * bool) :=
  match t with
  | Nil => None
  | Node h l x a r =>
      let height_L := node_height l in
      let height_R := node_height r in
      if height_L >? height_R + 1 then
        t' ← rotate td t true; Some (t', true)
      else if height_L <? height_R - 1 then
        t' ← rotate td t false; Some (t', true)
      else
        let height := (if height_L <? height_R then height_R else height_L) + 1 in
        match td_augment td with
        | None => if height =? h then Some (t, false)
                  else Some (Node height l x a r, true)
        | Some _ => Some (augment td (Node height l x a r), true)
        end
  end.

(** One step of the way back to the root: the node [x] whose child on side
    [dir] is the position, and its other child. *)
Record frame : Type := Frame {
  fr_dir : bool; fr_height : Z; fr_x : E; fr_a : A; fr_other : tree E A }.

Definition plug (f : frame) t : tree E A :=
  mk (fr_dir f) (fr_height f) t (fr_x f) (fr_a f) (fr_other f).

Fixpoint zip (p : list frame) t : tree E A :=
  match p with [] => t | f :: p' => zip p' (plug f t) end.

(** [rebalance_path] and [rebalance_nopath] from the node [t] upwards. *)
Fixpoint rebalance_path td (p : list frame) t : option (tree E A) :=
  '(t', continue) ← rebalance_one td t;
  match p with
  | [] => Some t'
  | f :: p' =>
      if continue : bool then rebalance_path td p' (plug f t')
      else Some (zip p' (plug f t'))
  end.

(** Starting at the parent of the position, which may not exist. *)
Definition rebalance_parent td (p : list frame) t : option (tree E A) :=
  match p with
  | [] => Some t
  | f :: p' => rebalance_path td p' (plug f t)
  end.

Fixpoint lookup_node td t k : tree E A :=
  match t with
  | Nil => Nil
  | Node _ l x _ r =>
      let c := comparenk td x k in
      if c =? 0 then t
      else if c <=? 0 then lookup_node td r k else lookup_node td l k
  end.

Definition ut_avlLookup td t k : option (E * A) :=
  onode_from_node (lookup_node td t k).

Fixpoint lookup_path td t k (p : list frame) : tree E A * list frame :=
  match t with
  | Nil => (Nil, p)
  | Node h l x a r =>
      let c := comparenk td x k in
      if c =? 0 then (t, p)
      else if c <=? 0 then lookup_path td r k (Frame true h x a l :: p)
      else lookup_path td l k (Frame false h x a r :: p)
  end.

(** The [do ... while] of [ut_avlLookupIPath], down to a null child. *)
Fixpoint descend_to_leaf td t k (p : list frame) : list frame :=
  match t with
  | Nil => p
  | Node h l x a r =>
      let c := comparenk td x k in
      if c <=? 0 then descend_to_leaf td r k (Frame true h x a l :: p)
      else descend_to_leaf td l k (Frame false h x a r :: p)
  end.

(** [None] for the path is the invalidated path. *)
Definition ut_avlLookupIPath td t k : option (E * A) * option (list frame) :=
  let '(node, p) := lookup_path td t k [] in
  (onode_from_node node,
   match node with
   | Nil => Some p
   | _ => if td_allowdups td then Some (descend_to_leaf td node k p) else None
   end).

Definition ut_avlLookupDPath td t k : tree E A * list frame :=
  lookup_path td t k [].

(** [None]: the path was invalid (the assertion on [pnode]). *)
Definition ut_avlInsertIPath td (vnode : E * A) (p : option (list frame))
  : option (tree E A) :=
  p ← p;
  rebalance_parent td p (augment td (Node 1 Nil vnode.1 vnode.2 Nil)).

Definition ut_avlInsert td t (vnode : E * A) : option (tree E A) :=
  let '(_, p) := ut_avlLookupIPath td t (td_key td vnode.1) in
  ut_avlInsertIPath td vnode p.

(** The predecessor substitute: from [subst] follow [cs[1]] to the last
    node, recording the way; its left child, its structure and the frames. *)
Fixpoint find_subst (h : Z) (l : tree E A) x a (r : tree E A) (p : list frame)
  : tree E A * (E * A) * list frame :=
  match r with
  | Nil => (l, (x, a), p)
  | Node h' l' x' a' r' => find_subst h' l' x' a' r' (Frame true h x a l :: p)
  end.

(** The frame of [whence] with [augment] applied to it before rebalancing. *)
Definition augment_whence td (p : list frame) t : option (tree E A) :=
  match p with
  | [] => Some t
  | f :: p' => rebalance_path td p' (augment td (plug f t))
  end.

(** [delete_generic] for the node [t] at position [p]. *)
Definition delete_generic td t (p : list frame) : option (tree E A) :=
  match t with
  | Nil => None
  | Node h l x a r =>
      match l with
      | Nil => augment_whence td p r
      | Node hl ll lx la lr =>
          match r with
          | Nil => augment_whence td p l
          | _ =>
              let '(sl, s, q) := find_subst hl ll lx la lr [] in
              augment_whence td (q ++ Frame false h s.1 s.2 r :: p) sl
          end
      end
  end.

Definition ut_avlDeleteDPath td (dpath : tree E A * list frame) : option (tree E A) :=
  delete_generic td dpath.1 dpath.2.

(** [ut_avlDelete] of the node with key [k]: the parent chain of that node
    is its path from the root. *)
Definition ut_avlDelete td t k : option (tree E A) :=
  let '(node, p) := lookup_path td t k [] in delete_generic td node p.

(** [ut_avlSwapNode] of the node with key [k]. *)
Definition ut_avlSwapNode td t k (vnew : E * A) : option (tree E A) :=
  match lookup_path td t k [] with
  | (Node h l _ _ r, p) => Some (zip p (augment td (Node h l vnew.1 vnew.2 r)))
  | (Nil, _) => None
  end.

(** A node pointer: the subtree at the node and the way back to the root
    ([parent]). *)
Definition loc : Type := tree E A * list frame.
Definition onode_from_loc (n : option loc) : option (E * A) :=
  n ← n; onode_from_node n.1.

(** The position of child [dir] of the node at [(t, p)]. *)
Definition child (dir : bool) t (p : list frame) : loc :=
  match t with
  | Nil => (Nil, p)
  | Node h l x a r => (cs dir t, Frame dir h x a (cs (negb dir) t) :: p)
  end.

(** Following [cs[dir]] from the node to the last one. *)
Fixpoint descend (dir : bool) t (p : list frame) : option loc :=
  match t with
  | Nil => None
  | Node h l x a r =>
      match (if dir then r else l) with
      | Nil => Some (t, p)
      | _ => descend dir (if dir then r else l)
               (Frame dir h x a (if dir then l else r) :: p)
      end
  end.

(** Going up while the node is child [dir] of its parent; the parent then. *)
Fixpoint climb (dir : bool) t (p : list frame) : option loc :=
  match p with
  | [] => None
  | f :: p' =>
      if eqb (fr_dir f) dir then climb dir (plug f t) p'
      else Some (plug f t, p')
  end.

(** [find_neighbour]: dir false = predecessor, true = successor. *)
Definition find_neighbour (n : loc) (dir : bool) : option loc :=
  match cs dir n.1 with
  | Nil => climb dir n.1 n.2
  | _ => let c := child dir n.1 n.2 in descend (negb dir) c.1 c.2
  end.

Definition find_extremum t (dir : bool) : option loc := descend dir t [].

Definition ut_avlFindMin t : option (E * A) := onode_from_loc (find_extremum t false).
Definition ut_avlFindMax t : option (E * A) := onode_from_loc (find_extremum t true).

(** [vnode] is null or the node with the given key. *)
Definition ut_avlFindPred td t (vnode : option K) : option (E * A) :=
  match vnode with
  | None => ut_avlFindMax t
  | Some k => onode_from_loc (find_neighbour (lookup_path td t k []) false)
  end.

Definition ut_avlFindSucc td t (vnode : option K) : option (E * A) :=
  match vnode with
  | None => ut_avlFindMin t
  | Some k => onode_from_loc (find_neighbour (lookup_path td t k []) true)
  end.

(** [ut_avlIter_t]: the stack [todo] with its top ([*todop]) first, and
    [right]. *)
Record iter : Type := Iter { it_todo : list (tree E A); it_right : tree E A }.

Fixpoint push_left t (todo : list (tree E A)) : list (tree E A) :=
  match t with
  | Nil => todo
  | Node _ l _ _ _ => push_left l (t :: todo)
  end.

Definition avl_iter_downleft (it : iter) : iter :=
  match it_todo it with
  | Node _ l _ _ _ as n :: rest =>
      let todo := push_left l (n :: rest) in
      Iter todo (match todo with m :: _ => cs true m | [] => Nil end)
  | _ => it
  end.

Definition iter_node (it : iter) : option (E * A) :=
  match it_todo it with n :: _ => onode_from_node n | [] => None end.

Definition ut_avlIterFirst t : iter * option (E * A) :=
  let it := avl_iter_downleft (Iter [t] Nil) in (it, iter_node it).

Definition ut_avlIterNext (it : iter) : iter * option (E * A) :=
  let it' :=
    match it_todo it, it_right it with
    | _ :: ((m :: _) as rest), Nil => Iter rest (cs true m)
    | todo, rt => avl_iter_downleft (Iter (rt :: tail todo) rt)
    end in
  (it', iter_node it').

(** The inner [do ... while] of [ut_avlWalk]: the nodes [f] is called on,
    and the stack with [right] pushed. *)
Fixpoint walk_up (todo : list (tree E A)) : list E * list (tree E A) :=
  match todo with
  | Node _ _ x _ r :: rest =>
      match r, rest with
      | Nil, _ :: _ => let '(vs, st) := walk_up rest in (x :: vs, st)
      | _, _ => ([x], r :: rest)
      end
  | _ => ([], todo)
  end.

Fixpoint walk_loop (fuel : nat) (todo : list (tree E A)) : option (list E) :=
  match fuel with
  | O => None
  | S fuel' =>
      match todo with
      | Node _ l _ _ _ as n :: rest =>
          let '(vs, st) := walk_up (push_left l (n :: rest)) in
          vs' ← walk_loop fuel' st; Some (vs ++ vs')
      | _ => Some []
      end
  end.

Fixpoint size t : nat :=
  match t with Nil => O | Node _ l _ _ r => S (size l + size r) end.

(** [ut_avlWalk]: the nodes in the order [f] is called on them. *)
Definition ut_avlWalk t : option (list E) := walk_loop (S (size t)) [t].

Definition ut_avlConstWalk t : option (list E) := ut_avlWalk t.

Definition ut_avlIsEmpty t : bool := match t with Nil => true | _ => false end.

Definition ut_avlIsSingleton t : bool :=
  match t with Nil => false | Node h _ _ _ _ => h =? 1 end.

(** [ut_avlAugmentUpdate] from the node at the position up to the root. *)
Fixpoint augment_up td t (p : list frame) : tree E A :=
  match p with
  | [] => augment td t
  | f :: p' => augment_up td (plug f (augment td t)) p'
  end.

Definition ut_avlAugmentUpdate td t k : tree E A :=
  match td_augment td, lookup_path td t k [] with
  | Some _, (Node _ _ _ _ _ as n, p) => augment_up td n p
  | _, _ => t
  end.

(** The descent shared by [lookup_predeq] and [lookup_pred] ([dir] false)
    and by [lookup_succeq] and [lookup_succ] ([dir] true): where it stops
    and the best candidate seen. *)
Fixpoint lookup_cand td (dir : bool) t k (p : list frame) (cand : option loc)
  : loc * option loc :=
  match t with
  | Nil => ((Nil, p), cand)
  | Node h l x a r =>
      let c := comparenk td x k in
      if c =? 0 then ((t, p), cand)
      else if c <? 0 then
        lookup_cand td dir r k (Frame true h x a l :: p)
          (if dir then cand else Some (t, p))
      else
        lookup_cand td dir l k (Frame false h x a r :: p)
          (if dir then Some (t, p) else cand)
  end.

(** Among the nodes with key [k] below [t], the last in direction
    [negb dir]. *)
Fixpoint scan_eq td (dir : bool) t k (p : list frame) (cand : option loc) : option loc :=
  match t with
  | Nil => cand
  | Node h l x a r =>
      if comparenk td x k =? 0 then
        scan_eq td dir (if dir then l else r) k
          (Frame (negb dir) h x a (if dir then r else l) :: p) (Some (t, p))
      else
        scan_eq td dir (if dir then r else l) k
          (Frame dir h x a (if dir then l else r) :: p) cand
  end.

Definition fixup_predsucceq td k (tmp : loc) (cand : option loc) (dir : bool)
  : option loc :=
  match tmp.1 with
  | Nil => cand
  | _ => if negb (td_allowdups td) then Some tmp
         else let c := child (negb dir) tmp.1 tmp.2 in
              scan_eq td dir c.1 k c.2 (Some tmp)
  end.

(** Among the nodes below [t] with a key other than [k], the closest. *)
Fixpoint scan_ne td (dir : bool) t k (p : list frame) (cand : option loc) : option loc :=
  match t with
  | Nil => cand
  | Node h l x a r =>
      if comparenk td x k =? 0 then
        scan_ne td dir (if dir then r else l) k
          (Frame dir h x a (if dir then l else r) :: p) cand
      else
        scan_ne td dir (if dir then l else r) k
          (Frame (negb dir) h x a (if dir then r else l) :: p) (Some (t, p))
  end.

Definition fixup_predsucc td k (tmp : loc) (cand : option loc) (dir : bool)
  : option loc :=
  match cs dir tmp.1 with
  | Nil => cand
  | _ => let c := child dir tmp.1 tmp.2 in
         if negb (td_allowdups td) then descend (negb dir) c.1 c.2
         else scan_ne td dir c.1 k c.2 cand
  end.

Definition lookup_predeq td t k : option loc :=
  let '(tmp, cand) := lookup_cand td false t k [] None in
  fixup_predsucceq td k tmp cand false.

Definition lookup_succeq td t k : option loc :=
  let '(tmp, cand) := lookup_cand td true t k [] None in
  fixup_predsucceq td k tmp cand true.

Definition lookup_pred td t k : option loc :=
  let '(tmp, cand) := lookup_cand td false t k [] None in
  fixup_predsucc td k tmp cand false.

Definition lookup_succ td t k : option loc :=
  let '(tmp, cand) := lookup_cand td true t k [] None in
  fixup_predsucc td k tmp cand true.

Definition ut_avlLookupSuccEq td t k : option (E * A) := onode_from_loc (lookup_succeq td t k).
Definition ut_avlLookupPredEq td t k : option (E * A) := onode_from_loc (lookup_predeq td t k).
Definition ut_avlLookupSucc td t k : option (E * A) := onode_from_loc (lookup_succ td t k).
Definition ut_avlLookupPred td t k : option (E * A) := onode_from_loc (lookup_pred td t k).

(** The descents of [ut_avlIterSuccEq] and [ut_avlIterSucc]: where the loop
    stops and the stack of nodes passed on the left. *)
Fixpoint iter_descend td t k (todo : list (tree E A)) : tree E A * list (tree E A) :=
  match t with
  | Nil => (Nil, todo)
  | Node _ l x _ r =>
      let c := comparenk td x k in
      if c =? 0 then (t, todo)
      else if c >? 0 then iter_descend td l k (t :: todo)
      else iter_descend td r k todo
  end.

Fixpoint iter_scan_eq td t k (todo : list (tree E A)) : list (tree E A) :=
  match t with
  | Nil => todo
  | Node _ l x _ r =>
      if comparenk td x k =? 0 then iter_scan_eq td l k (t :: todo)
      else iter_scan_eq td r k todo
  end.

Fixpoint iter_scan_ne td t k (todo : list (tree E A)) : list (tree E A) :=
  match t with
  | Nil => todo
  | Node _ l x _ r =>
      if comparenk td x k =? 0 then iter_scan_ne td r k todo
      else iter_scan_ne td l k (t :: todo)
  end.

Definition iter_start (todo : list (tree E A)) : iter * option (E * A) :=
  let it := Iter todo (match todo with n :: _ => cs true n | [] => Nil end) in
  (it, iter_node it).

Definition ut_avlIterSuccEq td t k : iter * option (E * A) :=
  let '(tmp, todo) := iter_descend td t k [] in
  iter_start
    match tmp with
    | Nil => todo
    | _ => if td_allowdups td then iter_scan_eq td (cs false tmp) k (tmp :: todo)
           else tmp :: todo
    end.

Definition ut_avlIterSucc td t k : iter * option (E * A) :=
  let '(tmp, todo) := iter_descend td t k [] in
  iter_start
    match tmp with
    | Nil => todo
    | _ => if td_allowdups td then iter_scan_ne td (cs true tmp) k todo
           else push_left (cs true tmp) todo
    end.

(** The loop of [ut_avlWalkRange] ([dir] true) and [ut_avlWalkRangeReverse]
    ([dir] false): the nodes [f] is called on. *)
Fixpoint walk_range_loop td (fuel : nat) (dir : bool) (bound : K) (n : option loc)
  : option (list E) :=
  match fuel with
  | O => None
  | S fuel' =>
      match n with
      | Some (Node _ _ x _ _ as nd, p) =>
          let c := comparenk td x bound in
          if (if dir then c <=? 0 else c >=? 0) then
            vs ← walk_range_loop td fuel' dir bound (find_neighbour (nd, p) dir);
            Some (x :: vs)
          else Some []
      | _ => Some []
      end
  end.

Definition ut_avlWalkRange td t (min max : K) : option (list E) :=
  walk_range_loop td (S (size t)) true max (lookup_succeq td t min).

Definition ut_avlWalkRangeReverse td t (min max : K) : option (list E) :=
  walk_range_loop td (S (size t)) false min (lookup_predeq td t max).

Definition ut_avlConstWalkRange td t (min max : K) : option (list E) := ut_avlWalkRange td t min max.

Definition ut_avlConstWalkRangeReverse td t (min max : K) : option (list E) := ut_avlWalkRangeReverse td t min max.

Definition ut_avlRoot t : option (E * A) := onode_from_node t.

(** Counting trees ([ut_avlCTree_t]); the assertions are that there is
    something to delete. *)
Record ctree : Type := CTree { ct_t : tree E A; ct_count : Z }.

Definition ut_avlCInit : ctree := CTree Nil 0.
Definition ut_avlCFree (c : ctree) (has_freefun : bool) : ctree * list E :=
  let '(t, fs) := ut_avlFree (ct_t c) has_freefun in (CTree t 0, fs).
Definition ut_avlCInsert td (c : ctree) (vnode : E * A) : option ctree :=
  t ← ut_avlInsert td (ct_t c) vnode; Some (CTree t (wrap_u 64 (ct_count c + 1))).
Definition ut_avlCDelete td (c : ctree) k : option ctree :=
  if ct_count c >? 0 then t ← ut_avlDelete td (ct_t c) k; Some (CTree t (wrap_u 64 (ct_count c - 1))) else None.
Definition ut_avlCInsertIPath td (c : ctree) (vnode : E * A) (p : option (list frame))
  : option ctree :=
  t ← ut_avlInsertIPath td vnode p; Some (CTree t (wrap_u 64 (ct_count c + 1))).
Definition ut_avlCDeleteDPath td (c : ctree) (dpath : loc) : option ctree :=
  if ct_count c >? 0 then t ← ut_avlDeleteDPath td dpath; Some (CTree t (wrap_u 64 (ct_count c - 1))) else None.
Definition ut_avlCFreeArg (c : ctree) (has_freefun : bool) : ctree * list E :=
  let '(t, fs) := ut_avlFreeArg (ct_t c) has_freefun in (CTree t 0, fs).
Definition ut_avlCSwapNode td (c : ctree) k (vnew : E * A) : option ctree :=
  t ← ut_avlSwapNode td (ct_t c) k vnew; Some (CTree t (ct_count c)).
Definition ut_avlCAugmentUpdate td (c : ctree) k : ctree := CTree (ut_avlAugmentUpdate td (ct_t c) k) (ct_count c).
Definition ut_avlCCount (c : ctree) : Z := ct_count c.

(** The queries are those of the tree inside. *)
Definition ut_avlCRoot (c : ctree) : option (E * A) := ut_avlRoot (ct_t c).
Definition ut_avlCLookup td (c : ctree) k : option (E * A) := ut_avlLookup td (ct_t c) k.
Definition ut_avlCLookupIPath td (c : ctree) k : option (E * A) * option (list frame) :=
  ut_avlLookupIPath td (ct_t c) k.
Definition ut_avlCLookupDPath td (c : ctree) k : tree E A * list frame := ut_avlLookupDPath td (ct_t c) k.
Definition ut_avlCLookupPredEq td (c : ctree) k : option (E * A) := ut_avlLookupPredEq td (ct_t c) k.
Definition ut_avlCLookupSuccEq td (c : ctree) k : option (E * A) := ut_avlLookupSuccEq td (ct_t c) k.
Definition ut_avlCLookupPred td (c : ctree) k : option (E * A) := ut_avlLookupPred td (ct_t c) k.
Definition ut_avlCLookupSucc td (c : ctree) k : option (E * A) := ut_avlLookupSucc td (ct_t c) k.
Definition ut_avlCIsEmpty (c : ctree) : bool := ut_avlIsEmpty (ct_t c).
Definition ut_avlCIsSingleton (c : ctree) : bool := ut_avlIsSingleton (ct_t c).
Definition ut_avlCFindMin (c : ctree) : option (E * A) := ut_avlFindMin (ct_t c).
Definition ut_avlCFindMax (c : ctree) : option (E * A) := ut_avlFindMax (ct_t c).
Definition ut_avlCFindPred td (c : ctree) (vnode : option K) : option (E * A) := ut_avlFindPred td (ct_t c) vnode.
Definition ut_avlCFindSucc td (c : ctree) (vnode : option K) : option (E * A) := ut_avlFindSucc td (ct_t c) vnode.
Definition ut_avlCWalk (c : ctree) : option (list E) := ut_avlWalk (ct_t c).
Definition ut_avlCConstWalk (c : ctree) : option (list E) := ut_avlConstWalk (ct_t c).
Definition ut_avlCWalkRange td (c : ctree) (min max : K) : option (list E) := ut_avlWalkRange td (ct_t c) min max.
Definition ut_avlCConstWalkRange td (c : ctree) (min max : K) : option (list E) :=
  ut_avlConstWalkRange td (ct_t c) min max.
Definition ut_avlCWalkRangeReverse td (c : ctree) (min max : K) : option (list E) :=
  ut_avlWalkRangeReverse td (ct_t c) min max.
Definition ut_avlCConstWalkRangeReverse td (c : ctree) (min max : K) : option (list E) :=
  ut_avlConstWalkRangeReverse td (ct_t c) min max.
Definition ut_avlCIterFirst (c : ctree) : iter * option (E * A) := ut_avlIterFirst (ct_t c).
Definition ut_avlCIterSuccEq td (c : ctree) k : iter * option (E * A) := ut_avlIterSuccEq td (ct_t c) k.
Definition ut_avlCIterSucc td (c : ctree) k : iter * option (E * A) := ut_avlIterSucc td (ct_t c) k.
Definition ut_avlCIterNext (it : iter) : iter * option (E * A) := ut_avlIterNext it.
End Avl.
