(* ===== verification/AvlFacts.v ===== *)
(** * Correctness of the AVL trees

    The operations of [Avl.v] keep the tree height-balanced with exact
    stored heights, keep the nodes in key order, never run into the null
    dereferences and failed assertions the model makes explicit, and act on
    the in-order list of nodes as their documentation in [ut_avl.h] says. *)

From Stdlib Require Import ZArith Lia Sorting.Sorted.
From stdpp Require Import prelude.
From S2P Require Import Prelude OrdTree Avl.

(** What [ut_avl.h] asks of a comparison function: the sign behaves like the
    one of a C library comparison. *)
Class CmpLaws {K : Type} (cmp : K -> K -> Z) : Prop := {
  cmp_antisym : forall a b, cmp a b < 0 <-> 0 < cmp b a;
  cmp_trans : forall a b c, cmp a b <= 0 -> cmp b c <= 0 -> cmp a c <= 0;
}.

Section Facts.
Context {K E A : Type}.
Implicit Types (td : treedef K E A) (t : tree E A) (p : list (@frame E A)).

Fixpoint elements t : list E :=
  match t with Nil => [] | Node _ l x _ r => elements l ++ x :: elements r end.

(** Nodes before and after a position. *)
Fixpoint lctx p : list E :=
  match p with
  | [] => []
  | f :: p' => lctx p' ++ (if fr_dir f then elements (fr_other f) ++ [fr_x f] else [])
  end.
Fixpoint rctx p : list E :=
  match p with
  | [] => []
  | f :: p' => (if fr_dir f then [] else fr_x f :: elements (fr_other f)) ++ rctx p'
  end.

(** Balanced, with the stored heights right. *)
Fixpoint bal t : Prop :=
  match t with
  | Nil => True
  | Node h l _ _ r =>
      bal l /\ bal r /\ h = 1 + Z.max (node_height l) (node_height r) /\
      -1 <= node_height l - node_height r <= 1
  end.

Fixpoint bal_ctx p (h : Z) : Prop :=
  match p with
  | [] => True
  | f :: p' =>
      bal (fr_other f) /\ -1 <= h - node_height (fr_other f) <= 1 /\
      fr_height f = 1 + Z.max h (node_height (fr_other f)) /\
      bal_ctx p' (fr_height f)
  end.

(** ** Structure *)

Lemma elements_plug f t :
  elements (plug f t) =
  (if fr_dir f then elements (fr_other f) ++ [fr_x f] else []) ++ elements t ++
  (if fr_dir f then [] else fr_x f :: elements (fr_other f)).
Proof.
  destruct f as [[] h x a o]; unfold plug, mk; simpl.
  - by rewrite app_nil_r, <- app_assoc.
  - done.
Qed.

Lemma elements_zip p t : elements (zip p t) = lctx p ++ elements t ++ rctx p.
Proof.
  revert t. induction p as [|f p IH]; intros t; simpl.
  - by rewrite app_nil_r.
  - rewrite IH, elements_plug, <- !app_assoc. done.
Qed.

Lemma zip_app p q t : zip (p ++ q) t = zip q (zip p t).
Proof. revert t. induction p; simpl; auto. Qed.

Lemma lctx_app p q : lctx (p ++ q) = lctx q ++ lctx p.
Proof. induction p; simpl; [by rewrite app_nil_r|]. by rewrite IHp, app_assoc. Qed.

Lemma rctx_app p q : rctx (p ++ q) = rctx p ++ rctx q.
Proof. induction p; simpl; auto. by rewrite IHp, app_assoc. Qed.

Lemma bal_height_nonneg t : bal t -> 0 <= node_height t.
Proof. induction t; simpl; [lia|]. intros (?%IHt1 & ?%IHt2 & -> & ?). lia. Qed.

Lemma bal_plug f t :
  bal (plug f t) <->
  bal t /\ bal (fr_other f) /\ -1 <= node_height t - node_height (fr_other f) <= 1 /\
  fr_height f = 1 + Z.max (node_height t) (node_height (fr_other f)).
Proof. destruct f as [[] h x a o]; unfold plug, mk; simpl; intuition lia. Qed.

Lemma height_plug f t : node_height (plug f t) = fr_height f.
Proof. by destruct f as [[] h x a o]. Qed.

Lemma bal_zip p t : bal (zip p t) <-> bal t /\ bal_ctx p (node_height t).
Proof.
  revert t. induction p as [|f p IH]; intros t; simpl; [tauto|].
  rewrite IH, bal_plug, height_plug. tauto.
Qed.

(** [augment] only touches the summary. *)
Definition aug_val td (l : tree E A) x a (r : tree E A) : A :=
  match td_augment td with
  | Some f => f x (onode_from_node l) (onode_from_node r)
  | None => a
  end.

Lemma augment_Node td h l x a r :
  augment td (Node h l x a r) = Node h l x (aug_val td l x a r) r.
Proof. unfold augment, aug_val. by destruct (td_augment td). Qed.

Lemma augment_plug td f t :
  exists a, augment td (plug f t) = plug (Frame (fr_dir f) (fr_height f) (fr_x f) a (fr_other f)) t.
Proof.
  destruct f as [[] h x a o]; unfold plug, mk; simpl; rewrite augment_Node; eauto.
Qed.

(** ** Rebalancing *)

Ltac unfold_rot :=
  unfold rotate, rotate_single, rotate_double; simpl; rewrite ?augment_Node; simpl.

Lemma rotate_spec td h l x a r dir :
  bal l -> bal r ->
  (if dir : bool then node_height l = node_height r + 2
   else node_height r = node_height l + 2) ->
  exists t', rotate td (Node h l x a r) dir = Some t' /\ bal t' /\
    elements t' = elements l ++ x :: elements r /\
    Z.max (node_height l) (node_height r) <= node_height t' <=
    Z.max (node_height l) (node_height r) + 1.
Proof.
  intros Hl Hr Hh.
  pose proof (bal_height_nonneg l Hl). pose proof (bal_height_nonneg r Hr).
  destruct dir.
  - destruct l as [|hl ll lx la lr]; simpl in *; [lia|].
    destruct Hl as (Hll & Hlr & -> & ?).
    pose proof (bal_height_nonneg ll Hll). pose proof (bal_height_nonneg lr Hlr).
    unfold_rot. zcases.
    + destruct lr as [|hm ml mx ma mr]; simpl in *; [lia|].
      destruct Hlr as (Hml & Hmr & -> & ?). rewrite ?augment_Node; simpl.
      eexists; split; [done|]. simpl. rewrite <- !app_assoc. simpl.
      rewrite <- ?app_assoc. simpl. intuition lia.
    + eexists; split; [done|]. simpl. rewrite <- !app_assoc. simpl.
      destruct lr; simpl in *; intuition lia.
  - destruct r as [|hr rl rx ra rr]; simpl in *; [lia|].
    destruct Hr as (Hrl & Hrr & -> & ?).
    pose proof (bal_height_nonneg rl Hrl). pose proof (bal_height_nonneg rr Hrr).
    unfold_rot. zcases.
    + destruct rl as [|hm ml mx ma mr]; simpl in *; [lia|].
      destruct Hrl as (Hml & Hmr & -> & ?). rewrite ?augment_Node; simpl.
      eexists; split; [done|]. simpl. rewrite <- !app_assoc. simpl.
      rewrite <- ?app_assoc. simpl. intuition lia.
    + eexists; split; [done|]. simpl. rewrite <- !app_assoc. simpl.
      destruct rl; simpl in *; intuition lia.
Qed.

Lemma rebalance_one_spec td h l x a r :
  bal l -> bal r -> -2 <= node_height l - node_height r <= 2 ->
  exists t' c, rebalance_one td (Node h l x a r) = Some (t', c) /\ bal t' /\
    elements t' = elements l ++ x :: elements r /\
    (c = false -> node_height t' = h) /\
    Z.max (node_height l) (node_height r) <= node_height t' <=
    Z.max (node_height l) (node_height r) + 1 /\
    (-1 <= node_height l - node_height r <= 1 ->
     node_height t' = Z.max (node_height l) (node_height r) + 1).
Proof.
  intros Hl Hr Hd. unfold rebalance_one. rewrite Z.gtb_ltb.
  destruct (Z.ltb_spec (node_height r + 1) (node_height l));
    [|destruct (Z.ltb_spec (node_height l) (node_height r - 1))].
  - destruct (rotate_spec td h l x a r true) as (t' & -> & ? & ? & ?); auto; [lia|].
    exists t', true. simpl. intuition (congruence || lia).
  - destruct (rotate_spec td h l x a r false) as (t' & -> & ? & ? & ?); auto; [lia|].
    exists t', true. simpl. intuition (congruence || lia).
  - destruct (td_augment td); zcases;
      rewrite ?augment_Node; do 2 eexists; (split; [done|]); simpl;
      intuition (congruence || lia).
Qed.

Lemma rebalance_path_spec td p f t hh :
  bal t -> bal_ctx (f :: p) hh -> -1 <= node_height t - hh <= 1 ->
  exists t', rebalance_path td p (plug f t) = Some t' /\ bal t' /\
    elements t' = lctx (f :: p) ++ elements t ++ rctx (f :: p).
Proof.
  revert f t hh. induction p as [|g p IH]; intros f t hh Ht Hc Hh;
    destruct f as [dir h x a o]; cbn [bal_ctx fr_other fr_height] in Hc;
    destruct Hc as (Ho & Hd & -> & Hp);
    pose proof (rebalance_one_spec td (1 + Z.max hh (node_height o))
      (if dir then o else t) x a (if dir then t else o)) as R;
    (destruct R as (t1 & c & R1 & R2 & R3 & R4 & R5 & R6);
     [by destruct dir | by destruct dir | destruct dir; lia |]);
    assert (Hm : plug (Frame dir (1 + Z.max hh (node_height o)) x a o) t =
            Node (1 + Z.max hh (node_height o)) (if dir then o else t) x a
                 (if dir then t else o)) by (by destruct dir);
    rewrite Hm; cbn [rebalance_path]; rewrite R1; cbn [mbind option_bind].
  - exists t1. split; [done|]. split; [done|]. rewrite R3.
    destruct dir; simpl; rewrite ?app_nil_r, <- ?app_assoc; done.
  - assert (Hh1 : -1 <= node_height t1 - (1 + Z.max hh (node_height o)) <= 1)
      by (destruct dir; lia).
    assert (He : forall m, lctx (Frame dir m x a o :: g :: p) ++ elements t ++
               rctx (Frame dir m x a o :: g :: p) =
               lctx (g :: p) ++ elements t1 ++ rctx (g :: p)).
    { intros m. rewrite R3. cbn [lctx rctx fr_dir fr_other fr_x].
      destruct dir; rewrite ?app_nil_r, ?app_nil_l, <- ?app_assoc; done. }
    rewrite He. destruct c.
    + by apply (IH g t1 (1 + Z.max hh (node_height o))).
    + eexists; split; [done|]. rewrite R4 in Hh1 by done.
      change (zip p (plug g t1)) with (zip (g :: p) t1).
      rewrite bal_zip, elements_zip, R4 by done. auto.
Qed.

Lemma rebalance_parent_spec td p t hh :
  bal t -> bal_ctx p hh -> -1 <= node_height t - hh <= 1 ->
  exists t', rebalance_parent td p t = Some t' /\ bal t' /\
    elements t' = lctx p ++ elements t ++ rctx p.
Proof.
  intros Ht Hc Hh. destruct p as [|f p]; simpl rebalance_parent.
  - exists t. simpl. by rewrite app_nil_r.
  - by apply (rebalance_path_spec td p f t hh).
Qed.

Lemma augment_whence_spec td p t hh :
  bal t -> bal_ctx p hh -> -1 <= node_height t - hh <= 1 ->
  exists t', augment_whence td p t = Some t' /\ bal t' /\
    elements t' = lctx p ++ elements t ++ rctx p.
Proof.
  intros Ht Hc Hh. destruct p as [|f p]; simpl augment_whence.
  - exists t. simpl. by rewrite app_nil_r.
  - destruct (augment_plug td f t) as [a ->].
    apply (rebalance_path_spec td p
             (Frame (fr_dir f) (fr_height f) (fr_x f) a (fr_other f)) t hh); auto.
Qed.

(** ** Order *)

Definition key_le td (a b : E) : Prop := comparenk td a (td_key td b) <= 0.
Definition key_less td (a b : E) : Prop := comparenk td a (td_key td b) < 0.
Definition wsorted td (l : list E) : Prop := StronglySorted (key_le td) l.

(** In key order, without duplicates unless the tree allows them. *)
Definition td_sorted td (l : list E) : Prop :=
  StronglySorted (if td_allowdups td then key_le td else key_less td) l.

Lemma td_sorted_weak td l : td_sorted td l -> wsorted td l.
Proof.
  unfold td_sorted, wsorted. destruct (td_allowdups td); auto.
  induction 1; constructor; auto.
  eapply Forall_impl; [eassumption|]. unfold key_less, key_le; simpl; intros; lia.
Qed.

Section Order.
Context (td : treedef K E A) `{!CmpLaws (td_cmp td)}.
Implicit Types (k : K) (x y : E).

Lemma ck_lt y x k : key_le td y x -> comparenk td x k < 0 -> comparenk td y k < 0.
Proof.
  unfold key_le, comparenk. intros H1 H2.
  destruct (Z.lt_total (td_cmp td (td_key td y) k) 0) as [|Hge]; [done|exfalso].
  assert (H3 : td_cmp td k (td_key td y) <= 0).
  { destruct (Z.lt_total 0 (td_cmp td k (td_key td y))) as [H|]; [|lia].
    apply cmp_antisym in H. lia. }
  pose proof (cmp_trans _ _ _ H3 H1). apply cmp_antisym in H2. lia.
Qed.

Lemma ck_gt y x k : key_le td x y -> 0 < comparenk td x k -> 0 < comparenk td y k.
Proof.
  unfold key_le, comparenk. intros H1 H2.
  destruct (Z.lt_total 0 (td_cmp td (td_key td y) k)) as [|Hge]; [done|exfalso].
  assert (H3 : td_cmp td (td_key td x) k <= 0) by (eapply cmp_trans; [exact H1|lia]).
  lia.
Qed.

Lemma ck_le y x k : key_le td y x -> comparenk td x k <= 0 -> comparenk td y k <= 0.
Proof. unfold key_le, comparenk. apply cmp_trans. Qed.

Lemma ck_eq_sym x y : comparenk td x (td_key td y) = 0 -> comparenk td y (td_key td x) = 0.
Proof.
  unfold comparenk. intros H.
  destruct (cmp_antisym (td_key td x) (td_key td y)) as [_ H1].
  destruct (cmp_antisym (td_key td y) (td_key td x)) as [H2 _]. lia.
Qed.

Lemma ck_ge x y k : comparenk td x k = 0 -> key_le td x y -> 0 <= comparenk td y k.
Proof.
  intros H1 H2. destruct (Z.lt_total (comparenk td y k) 0) as [H3|]; [|lia].
  pose proof (ck_lt _ _ _ H2 H3). lia.
Qed.

Lemma ck_le_l x y k : comparenk td x k = 0 -> key_le td y x -> comparenk td y k <= 0.
Proof. intros H1 H2. eapply ck_le; [exact H2|lia]. Qed.

(** The keys on either side of a position, against [k]. *)
Definition ctx_sep p k : Prop :=
  Forall (fun y => comparenk td y k < 0) (lctx p) /\
  Forall (fun y => 0 < comparenk td y k) (rctx p).

Lemma wsorted_Node h l x a r :
  wsorted td (elements (Node h l x a r)) <->
  wsorted td (elements l) /\ wsorted td (elements r) /\
  Forall (fun y => key_le td y x) (elements l) /\
  Forall (key_le td x) (elements r) /\
  Forall (fun y => Forall (key_le td y) (elements r)) (elements l).
Proof. simpl. apply StronglySorted_mid_iff. Qed.

Lemma sep_left l x k :
  Forall (fun y => key_le td y x) l -> comparenk td x k < 0 ->
  Forall (fun y => comparenk td y k < 0) (l ++ [x]).
Proof.
  intros H1 H2. apply Forall_app. split; [|by constructor].
  eapply Forall_impl; [exact H1|]. intros y Hy. eapply ck_lt; [exact Hy|done].
Qed.

Lemma sep_right r x k :
  Forall (key_le td x) r -> 0 < comparenk td x k ->
  Forall (fun y => 0 < comparenk td y k) (x :: r).
Proof.
  intros H1 H2. apply Forall_cons. split; [done|].
  eapply Forall_impl; [exact H1|]. intros y Hy. eapply ck_gt; [exact Hy|done].
Qed.

Lemma lookup_path_spec t k p0 n p :
  wsorted td (elements t) -> ctx_sep p0 k ->
  lookup_path td t k p0 = (n, p) ->
  ctx_sep p k /\ zip p n = zip p0 t /\
  match n with Nil => True | Node _ _ x _ _ => comparenk td x k = 0 end.
Proof.
  revert p0. induction t as [|h l IHl x a r IHr]; intros p0 Hs [Hc1 Hc2] H.
  - simpl in H. simplify_eq. done.
  - apply wsorted_Node in Hs as (Hl & Hr & Hlx & Hrx & _).
    cbn [lookup_path] in H. zcases.
    + simplify_eq. done.
    + apply (IHr (Frame true h x a l :: p0)); [done| |done]. split; simpl; [|done].
      apply Forall_app. split; [done|]. apply sep_left; [done|lia].
    + apply (IHl (Frame false h x a r :: p0)); [done| |done].
      split; simpl; [by rewrite app_nil_r|].
      apply (Forall_app _ (x :: elements r)). split; [|done].
      apply sep_right; [done|lia].
Qed.

Lemma lookup_path_root t k n p :
  wsorted td (elements t) -> lookup_path td t k [] = (n, p) ->
  ctx_sep p k /\ zip p n = t /\
  match n with Nil => True | Node _ _ x _ _ => comparenk td x k = 0 end.
Proof. intros Hs H. apply (lookup_path_spec t k [] n p); auto. split; constructor. Qed.

Lemma lookup_path_node t k p : (lookup_path td t k p).1 = lookup_node td t k.
Proof. revert p. induction t; intros p; simpl; auto. zcases; auto. Qed.

Lemma descend_to_leaf_spec t k p0 :
  wsorted td (elements t) ->
  Forall (fun y => comparenk td y k <= 0) (lctx p0) ->
  Forall (fun y => 0 < comparenk td y k) (rctx p0) ->
  let p := descend_to_leaf td t k p0 in
  zip p Nil = zip p0 t /\
  Forall (fun y => comparenk td y k <= 0) (lctx p) /\
  Forall (fun y => 0 < comparenk td y k) (rctx p).
Proof.
  revert p0. induction t as [|h l IHl x a r IHr]; intros p0 Hs Hc1 Hc2; simpl; [done|].
  apply wsorted_Node in Hs as (Hl & Hr & Hlx & Hrx & _). zcases.
  - apply (IHr (Frame true h x a l :: p0)); auto. simpl.
    apply Forall_app. split; [done|]. apply Forall_app. split; [|by constructor].
    eapply Forall_impl; [exact Hlx|]. intros y Hy. eapply ck_le; [exact Hy|done].
  - apply (IHl (Frame false h x a r :: p0)); auto; simpl; [by rewrite app_nil_r|].
    apply (Forall_app _ (x :: elements r)). split; [|done].
    by apply sep_right.
Qed.

(** ** Insertion and deletion *)

Definition avl_ok t : Prop := bal t /\ td_sorted td (elements t).

Lemma avl_ok_wsorted t : avl_ok t -> wsorted td (elements t).
Proof. intros [_ ?]. by apply td_sorted_weak. Qed.

Lemma td_sorted_insert l1 x l2 :
  td_sorted td (l1 ++ l2) ->
  Forall (fun y => if td_allowdups td then comparenk td y (td_key td x) <= 0
                   else comparenk td y (td_key td x) < 0) l1 ->
  Forall (fun y => 0 < comparenk td y (td_key td x)) l2 ->
  td_sorted td (l1 ++ x :: l2).
Proof.
  unfold td_sorted. rewrite StronglySorted_mid_iff, StronglySorted_app_iff.
  intros (H1 & H2 & H3) Hl1 Hl2. repeat split; auto.
  - by destruct (td_allowdups td).
  - eapply Forall_impl; [exact Hl2|]. simpl. intros y Hy.
    unfold comparenk in Hy. apply cmp_antisym in Hy.
    destruct (td_allowdups td); unfold key_le, key_less, comparenk; lia.
Qed.

Lemma td_sorted_delete l1 x l2 : td_sorted td (l1 ++ x :: l2) -> td_sorted td (l1 ++ l2).
Proof.
  unfold td_sorted. rewrite StronglySorted_mid_iff, StronglySorted_app_iff. tauto.
Qed.

(** Inserting at a null child slot found by a descent for the key. *)
Lemma insert_at_leaf x a p t :
  avl_ok t -> zip p Nil = t ->
  Forall (fun y => if td_allowdups td then comparenk td y (td_key td x) <= 0
                   else comparenk td y (td_key td x) < 0) (lctx p) ->
  Forall (fun y => 0 < comparenk td y (td_key td x)) (rctx p) ->
  exists t', ut_avlInsertIPath td (x, a) (Some p) = Some t' /\ avl_ok t' /\
    elements t = lctx p ++ rctx p /\ elements t' = lctx p ++ x :: rctx p.
Proof.
  intros [Hb Hs] <- H1 H2. rewrite bal_zip in Hb. destruct Hb as [_ Hb].
  rewrite elements_zip in Hs. simpl in Hs. rewrite elements_zip. simpl.
  rewrite augment_Node.
  destruct (rebalance_parent_spec td p (Node 1 Nil x (aug_val td Nil x a Nil) Nil) 0)
    as (t' & Ht' & Hb' & He'); simpl; auto; [lia..|].
  exists t'. repeat split; auto. rewrite He'. simpl. by apply td_sorted_insert.
Qed.

Lemma insert_correct t x a :
  avl_ok t ->
  match ut_avlInsert td t (x, a) with
  | Some t' =>
      avl_ok t' /\ exists l1 l2, elements t = l1 ++ l2 /\ elements t' = l1 ++ x :: l2 /\
        Forall (fun y => if td_allowdups td then comparenk td y (td_key td x) <= 0
                         else comparenk td y (td_key td x) < 0) l1 /\
        Forall (fun y => 0 < comparenk td y (td_key td x)) l2
  | None =>
      td_allowdups td = false /\
      exists y, y ∈ elements t /\ comparenk td y (td_key td x) = 0
  end.
Proof.
  intros Hok. pose proof (avl_ok_wsorted t Hok) as Hw.
  unfold ut_avlInsert, ut_avlLookupIPath. simpl.
  destruct (lookup_path td t (td_key td x) []) as [n p] eqn:El.
  apply lookup_path_root in El as ([Hc1 Hc2] & Hz & Hn); auto.
  destruct n as [|h l y b r].
  - destruct (insert_at_leaf x a p t) as (t' & -> & ? & ? & ?); eauto 10.
    { eapply Forall_impl; [exact Hc1|]. simpl. intros. destruct (td_allowdups td); lia. }
    split; [done|]. exists (lctx p), (rctx p). repeat split; auto.
    eapply Forall_impl; [exact Hc1|]. simpl. intros. destruct (td_allowdups td); lia.
  - destruct (td_allowdups td) eqn:Ed.
    + assert (Hwn : wsorted td (elements (Node h l y b r))).
      { rewrite <- Hz, elements_zip in Hw.
        apply StronglySorted_app_iff in Hw as (_ & Hw & _).
        apply StronglySorted_app_iff in Hw. tauto. }
      destruct (descend_to_leaf_spec (Node h l y b r) (td_key td x) p) as (D1 & D2 & D3); auto.
      { eapply Forall_impl; [exact Hc1|]. simpl. intros. lia. }
      destruct (insert_at_leaf x a (descend_to_leaf td (Node h l y b r) (td_key td x) p) t)
        as (t' & -> & ? & ? & ?); auto; [by rewrite D1 | by rewrite Ed |].
      split; [done|]. eauto 10.
    + simpl. split; [done|]. exists y. split; [|done].
      rewrite <- Hz, elements_zip. simpl. set_solver.
Qed.

Lemma find_subst_spec h (l : tree E A) x a r q0 sl s q :
  find_subst h l x a r q0 = (sl, s, q) ->
  lctx q ++ elements sl ++ [s.1] = lctx q0 ++ elements (Node h l x a r) /\
  rctx q = rctx q0.
Proof.
  revert h l x a q0. induction r as [|h' l' IHl x' a' r' IHr]; intros h l x a q0 H;
    cbn [find_subst] in H.
  - simplify_eq. done.
  - apply IHr in H as [H1 H2]. split; [|done].
    rewrite H1. simpl. by rewrite <- !app_assoc.
Qed.

Lemma find_subst_bal h (l : tree E A) x a r q0 sl s q h0 :
  find_subst h l x a r q0 = (sl, s, q) -> bal (Node h l x a r) ->
  (forall p, bal_ctx p h0 -> bal_ctx (q0 ++ p) h) ->
  bal sl /\ forall p, bal_ctx p h0 -> bal_ctx (q ++ p) (1 + node_height sl).
Proof.
  revert h l x a q0. induction r as [|h' l' IHl x' a' r' IHr];
    intros h l x a q0 H Hb Hq; cbn [find_subst] in H.
  - simplify_eq. destruct Hb as (Hl & _ & -> & ?). simpl in *.
    pose proof (bal_height_nonneg sl Hl). split; [done|].
    rewrite Z.max_l in Hq by lia. done.
  - destruct Hb as (Hl & Hr & -> & ?).
    apply (IHr h' l' x' a') in H; auto.
    intros p Hp. simpl. split; [done|]. split; [simpl in *; lia|].
    split; [simpl; lia|]. by apply Hq.
Qed.

Lemma delete_generic_spec h l x a r p :
  bal (zip p (Node h l x a r)) ->
  exists t', delete_generic td (Node h l x a r) p = Some t' /\ bal t' /\
    elements t' = lctx p ++ (elements l ++ elements r) ++ rctx p.
Proof.
  rewrite bal_zip. intros [(Hl & Hr & Hh & Hd) Hp]. simpl in Hp.
  pose proof (bal_height_nonneg l Hl). pose proof (bal_height_nonneg r Hr).
  unfold delete_generic. destruct l as [|hl ll lx la lr].
  { apply (augment_whence_spec td p r h); auto. simpl in *. lia. }
  destruct r as [|hr rl rx ra rr].
  { rewrite app_nil_r. apply (augment_whence_spec td p _ h); auto. simpl in *. lia. }
  destruct (find_subst hl ll lx la lr []) as [[sl s] q] eqn:Ef.
  destruct (find_subst_spec _ _ _ _ _ _ _ _ _ Ef) as [F1 F2].
  destruct (find_subst_bal _ _ _ _ _ _ _ _ _ hl Ef Hl) as [F3 F4]; [auto|].
  set (r := Node hr rl rx ra rr) in *.
  destruct (augment_whence_spec td (q ++ Frame false h s.1 s.2 r :: p) sl
              (1 + node_height sl)) as (t' & -> & Hb' & He'); auto; [|lia|].
  { apply F4. simpl. cbn [node_height] in *. auto. }
  assert (F5 : forall z, lctx q ++ elements sl ++ s.1 :: z =
                         elements (Node hl ll lx la lr) ++ z).
  { intros z. change (s.1 :: z) with ([s.1] ++ z).
    by rewrite (app_assoc (elements sl)), app_assoc, F1. }
  exists t'. split; [done|]. split; [done|]. rewrite He', lctx_app, rctx_app.
  cbn [lctx rctx fr_dir fr_x fr_other]. rewrite F2, app_nil_r.
  rewrite <- !app_assoc. f_equal. apply F5.
Qed.

Lemma delete_correct t k :
  avl_ok t ->
  match ut_avlDelete td t k with
  | Some t' =>
      avl_ok t' /\ exists l1 x l2, elements t = l1 ++ x :: l2 /\
        comparenk td x k = 0 /\ elements t' = l1 ++ l2
  | None => Forall (fun y => comparenk td y k <> 0) (elements t)
  end.
Proof.
  intros [Hb Hs]. pose proof (td_sorted_weak _ _ Hs) as Hw. unfold ut_avlDelete.
  destruct (lookup_path td t k []) as [n p] eqn:El.
  apply lookup_path_root in El as ([Hc1 Hc2] & <- & Hn); auto.
  rewrite elements_zip in *. destruct n as [|h l x a r].
  - simpl. apply Forall_app. split.
    + eapply Forall_impl; [exact Hc1|]. simpl. lia.
    + eapply Forall_impl; [exact Hc2|]. simpl. lia.
  - destruct (delete_generic_spec h l x a r p Hb) as (t' & -> & Hb' & He').
    simpl in *. rewrite <- !app_assoc in *. simpl in *.
    rewrite app_assoc in Hs. apply td_sorted_delete in Hs.
    split; [split; [done|]; by rewrite He', app_assoc|].
    exists (lctx p ++ elements l), x, (elements r ++ rctx p).
    rewrite He'. by rewrite <- !app_assoc.
Qed.

Lemma swap_correct t k x' a' :
  avl_ok t ->
  match ut_avlSwapNode td t k (x', a') with
  | Some t' =>
      bal t' /\ exists l1 x l2, elements t = l1 ++ x :: l2 /\
        comparenk td x k = 0 /\ elements t' = l1 ++ x' :: l2
  | None => Forall (fun y => comparenk td y k <> 0) (elements t)
  end.
Proof.
  intros [Hb Hs]. pose proof (td_sorted_weak _ _ Hs) as Hw. unfold ut_avlSwapNode.
  destruct (lookup_path td t k []) as [n p] eqn:El.
  apply lookup_path_root in El as ([Hc1 Hc2] & <- & Hn); auto.
  rewrite elements_zip in *. destruct n as [|h l x a r].
  - simpl. apply Forall_app. split.
    + eapply Forall_impl; [exact Hc1|]. simpl. lia.
    + eapply Forall_impl; [exact Hc2|]. simpl. lia.
  - rewrite augment_Node. simpl. rewrite bal_zip in *. split; [exact Hb|].
    exists (lctx p ++ elements l), x, (elements r ++ rctx p).
    rewrite elements_zip. simpl. by rewrite <- !app_assoc.
Qed.
End Order.
End Facts.
