(* ===== verification/AvlSearch.v ===== *)
(** * Searching and traversing the AVL trees

    Positions in a tree, the neighbour steps, the four inexact lookups with
    and without duplicate keys, and the traversals, each related to the
    in-order list of nodes. *)

From Stdlib Require Import ZArith Lia Sorting.Sorted.
From stdpp Require Import prelude.
From S2P Require Import Prelude OrdTree Avl AvlFacts.

Section Search.
Context {K E A : Type}.
Implicit Types (td : treedef K E A) (t : tree E A) (p : list (@frame E A)) (n : @loc E A).

(** ** Positions *)

Definition before n : list E := lctx n.2 ++ elements (cs false n.1).
Definition after n : list E := elements (cs true n.1) ++ rctx n.2.

(** [n] is a node of the tree [root], holding [x]. *)
Definition at_loc (root : tree E A) n (x : E) : Prop :=
  zip n.2 n.1 = root /\ exists h l a r, n.1 = Node h l x a r.

Lemma at_loc_elements root n x :
  at_loc root n x -> elements root = before n ++ x :: after n.
Proof.
  destruct n as [t p]. intros [<- (h & l & a & r & Hn)]. simpl in *. subst.
  rewrite elements_zip. unfold before, after. simpl. by rewrite <- !app_assoc.
Qed.

Lemma at_loc_onode root n x : at_loc root n x -> fst <$> onode_from_node n.1 = Some x.
Proof. by intros [_ (h & l & a & r & ->)]. Qed.

Lemma descend_spec dir t p :
  match descend dir t p with
  | None => t = Nil
  | Some n => exists x, at_loc (zip p t) n x /\
      if dir : bool
      then before n ++ [x] = lctx p ++ elements t /\ after n = rctx p
      else before n = lctx p /\ x :: after n = elements t ++ rctx p
  end.
Proof.
  revert p. induction t as [|h l IHl x a r IHr]; intros p; [done|].
  destruct dir; cbn [descend].
  - destruct r as [|hr rl rx ra rr] eqn:Er.
    + exists x. split; [split; [done|by repeat eexists]|].
      unfold before, after. simpl. by rewrite app_assoc.
    + specialize (IHr (Frame true h x a l :: p)). rewrite <- Er in *.
      destruct (descend true r _) as [n|]; [|congruence].
      destruct IHr as (y & Hy & H1 & H2). exists y. split; [exact Hy|].
      rewrite H1, H2. simpl. by rewrite <- !app_assoc.
  - destruct l as [|hl ll lx la lr] eqn:El.
    + exists x. split; [split; [done|by repeat eexists]|].
      unfold before, after. simpl. by rewrite app_nil_r.
    + specialize (IHl (Frame false h x a r :: p)). rewrite <- El in *.
      destruct (descend false l _) as [n|]; [|congruence].
      destruct IHl as (y & Hy & H1 & H2). exists y. split; [exact Hy|].
      rewrite H1, H2. simpl. by rewrite app_nil_r, <- app_assoc.
Qed.

Lemma climb_spec dir t p :
  match climb dir t p with
  | None => if dir : bool then rctx p = [] else lctx p = []
  | Some n => exists x, at_loc (zip p t) n x /\
      if dir then before n = lctx p ++ elements t /\ x :: after n = rctx p
      else before n ++ [x] = lctx p /\ after n = elements t ++ rctx p
  end.
Proof.
  revert t. induction p as [|f p IH]; intros t; [by destruct dir|].
  destruct f as [d h x a o]; cbn [climb fr_dir].
  destruct (eqb d dir) eqn:Ed.
  - apply eqb_prop in Ed as ->. specialize (IH (plug (Frame dir h x a o) t)).
    destruct (climb dir _ p) as [n|].
    + destruct IH as (y & Hy & H). exists y. split; [exact Hy|].
      rewrite elements_plug in H. destruct dir; simpl in *; destruct H as [H1 H2];
        rewrite ?app_nil_r in *; rewrite H1, H2; split; auto;
        by rewrite <- ?app_assoc.
    + destruct dir; simpl in *; [done|]. by rewrite app_nil_r.
  - exists x. split.
    + split; [done|]. destruct d; unfold plug, mk; simpl; by repeat eexists.
    + destruct d, dir; try done; unfold before, after, plug, mk; simpl;
        rewrite ?app_nil_r, <- ?app_assoc; done.
Qed.

Lemma find_neighbour_spec root n x dir :
  at_loc root n x ->
  match find_neighbour n dir with
  | None => if dir : bool then after n = [] else before n = []
  | Some n' => exists y, at_loc root n' y /\
      if dir then before n' = before n ++ [x] /\ y :: after n' = after n
      else before n' ++ [y] = before n /\ after n' = x :: after n
  end.
Proof.
  destruct n as [t p]. intros [<- (h & l & a & r & Hn)]. simpl in Hn. subst t.
  unfold find_neighbour, before, after, child. destruct dir; cbn [fst snd cs negb].
  - destruct r as [|hr rl rx ra rr] eqn:Er.
    + pose proof (climb_spec true (Node h l x a Nil) p) as H.
      destruct (climb true _ p) as [n'|]; [|by simpl].
      destruct H as (y & Hy & H1 & H2). exists y. split; [exact Hy|].
      fold (before n') (after n'). rewrite H1, H2. simpl. by rewrite app_assoc.
    + rewrite <- Er in *.
      pose proof (descend_spec false r (Frame true h x a l :: p)) as H.
      destruct (descend false r _) as [n'|]; [|congruence].
      destruct H as (y & Hy & H1 & H2). exists y. split; [exact Hy|].
      fold (before n') (after n'). rewrite H1, H2. simpl. by rewrite app_assoc.
  - destruct l as [|hl ll lx la lr] eqn:El.
    + pose proof (climb_spec false (Node h Nil x a r) p) as H.
      destruct (climb false _ p) as [n'|]; [|simpl; by rewrite app_nil_r].
      destruct H as (y & Hy & H1 & H2). exists y. split; [exact Hy|].
      fold (before n') (after n'). rewrite H1, H2. simpl. by rewrite app_nil_r.
    + rewrite <- El in *.
      pose proof (descend_spec true l (Frame false h x a r :: p)) as H.
      destruct (descend true l _) as [n'|]; [|congruence].
      destruct H as (y & Hy & H1 & H2). exists y. split; [exact Hy|].
      fold (before n') (after n'). rewrite H1, H2. simpl. by rewrite app_nil_r.
Qed.

Definition elt (o : option (E * A)) : option E := fst <$> o.

Lemma find_min_spec t : elt (ut_avlFindMin t) = head (elements t).
Proof.
  unfold ut_avlFindMin, find_extremum, elt.
  pose proof (descend_spec false t []) as H.
  destruct (descend false t []) as [n|]; [|by subst].
  destruct H as (x & Hx & H1 & H2). rewrite app_nil_r in H2. rewrite <- H2. simpl.
  by eapply at_loc_onode.
Qed.

Lemma find_max_spec t : elt (ut_avlFindMax t) = last (elements t).
Proof.
  unfold ut_avlFindMax, find_extremum, elt.
  pose proof (descend_spec true t []) as H.
  destruct (descend true t []) as [n|]; [|by subst].
  destruct H as (x & Hx & H1 & H2). simpl in H1. rewrite <- H1, last_snoc.
  simpl. by eapply at_loc_onode.
Qed.

(** ** Inexact lookups *)

Lemma zip_true h x a l r p :
  zip (Frame true h x a l :: p) r = zip p (Node (E:=E) (A:=A) h l x a r).
Proof. done. Qed.
Lemma zip_false h x a l r p :
  zip (Frame false h x a r :: p) l = zip p (Node (E:=E) (A:=A) h l x a r).
Proof. done. Qed.

(** The candidate is the closest node outside the subtree at [p], on the
    side the lookup is after. *)
Definition cand_ok (dir : bool) (root : tree E A) p (cand : option loc) : Prop :=
  match cand with
  | None => (if dir then rctx p else lctx p) = []
  | Some c => exists x, at_loc root c x /\
      if dir then x :: after c = rctx p else before c ++ [x] = lctx p
  end.

Lemma cand_after p t c x :
  at_loc (zip p t) c x -> before c ++ [x] = lctx p -> after c = elements t ++ rctx p.
Proof.
  intros H1 H2. apply at_loc_elements in H1. rewrite elements_zip, <- H2 in H1.
  rewrite <- app_assoc in H1. apply app_inv_head in H1. simpl in H1. congruence.
Qed.

Lemma cand_before p t c x :
  at_loc (zip p t) c x -> x :: after c = rctx p -> before c = lctx p ++ elements t.
Proof.
  intros H1 H2. apply at_loc_elements in H1. rewrite elements_zip, <- H2 in H1.
  rewrite app_assoc in H1. by apply app_inv_tail in H1.
Qed.

Section Lookups.
Context (td : treedef K E A) `{!CmpLaws (td_cmp td)}.

Lemma lookup_cand_spec dir t k p cand tmp cand' :
  wsorted td (elements t) -> ctx_sep td p k -> cand_ok dir (zip p t) p cand ->
  lookup_cand td dir t k p cand = (tmp, cand') ->
  zip tmp.2 tmp.1 = zip p t /\ ctx_sep td tmp.2 k /\
  match tmp.1 with Nil => True | Node _ _ x _ _ => comparenk td x k = 0 end /\
  cand_ok dir (zip p t) tmp.2 cand'.
Proof.
  revert p cand. induction t as [|h l IHl x a r IHr]; intros p cand Hs [Hc1 Hc2] Hk H;
    cbn [lookup_cand] in H; [by simplify_eq|].
  apply wsorted_Node in Hs as (Hl & Hr & Hlx & Hrx & _).
  destruct (Z.eqb_spec (comparenk td x k) 0); [by simplify_eq|].
  destruct (Z.ltb_spec (comparenk td x k) 0).
  - apply (IHr (Frame true h x a l :: p)) in H; auto.
    + split; simpl; [|done]. apply Forall_app. split; [done|]. by apply sep_left.
    + destruct dir; simpl.
      * by destruct cand.
      * exists x. split; [split; [done|by repeat eexists]|].
        unfold before; simpl. by rewrite <- app_assoc.
  - apply (IHl (Frame false h x a r :: p)) in H; auto.
    + split; simpl; [by rewrite app_nil_r|].
      apply (Forall_app _ (x :: elements r)). split; [|done]. apply sep_right; [done..|lia].
    + destruct dir; simpl.
      * exists x. by split; [split; [done|by repeat eexists]|].
      * destruct cand; simpl in *; by rewrite app_nil_r.
Qed.

Lemma scan_eq_spec (dir : bool) t k p c xc :
  wsorted td (elements t) -> at_loc (zip p t) c xc -> comparenk td xc k = 0 ->
  (if dir
   then xc :: after c = rctx p /\ Forall (fun y => comparenk td y k < 0) (lctx p) /\
        Forall (fun y => comparenk td y k <= 0) (elements t)
   else before c ++ [xc] = lctx p /\ Forall (fun y => 0 < comparenk td y k) (rctx p) /\
        Forall (fun y => 0 <= comparenk td y k) (elements t)) ->
  exists n x, scan_eq td dir t k p (Some c) = Some n /\ at_loc (zip p t) n x /\
    comparenk td x k = 0 /\
    if dir then Forall (fun y => comparenk td y k < 0) (before n)
    else Forall (fun y => 0 < comparenk td y k) (after n).
Proof.
  revert p c xc. induction t as [|h l IHl x a r IHr];
    intros p c xc Hs Hc Hx H; cbn [scan_eq].
  - exists c, xc. repeat split; try apply Hc; auto. destruct dir.
    + destruct H as (H1 & H2 & _). erewrite cand_before by eassumption.
      simpl. by rewrite app_nil_r.
    + destruct H as (H1 & H2 & _). erewrite cand_after by eassumption. done.
  - apply wsorted_Node in Hs as (Hl & Hr & Hlx & Hrx & _).
    destruct (Z.eqb_spec (comparenk td x k) 0) as [He|Hne]; destruct dir; simpl negb;
      destruct H as (H1 & H2 & H3); simpl in H3; apply Forall_app in H3 as [H3 H4];
      apply Forall_cons in H4 as [H4 H5]; cbn beta in *.
    + apply (IHl (Frame false h x a r :: p) _ x); auto.
      { split; [done|by repeat eexists]. }
      simpl. rewrite app_nil_r. auto.
    + apply (IHr (Frame true h x a l :: p) _ x); auto.
      { split; [done|by repeat eexists]. }
      simpl. unfold before; simpl. rewrite <- app_assoc. auto.
    + apply (IHr (Frame true h x a l :: p) _ xc); auto.
      simpl. split; [done|]. split; [|done].
      apply Forall_app. split; [done|]. apply sep_left; [done..|lia].
    + apply (IHl (Frame false h x a r :: p) _ xc); auto.
      simpl. rewrite app_nil_r. split; [done|]. split; [|done].
      apply (Forall_app _ (x :: elements r)). split; [|done].
      apply sep_right; [done..|lia].
Qed.

Lemma scan_ne_spec (dir : bool) t k p cand :
  wsorted td (elements t) -> cand_ok dir (zip p t) p cand ->
  (if dir
   then Forall (fun y => comparenk td y k <= 0) (lctx p) /\
        Forall (fun y => 0 < comparenk td y k) (rctx p) /\
        Forall (fun y => 0 <= comparenk td y k) (elements t)
   else Forall (fun y => 0 <= comparenk td y k) (rctx p) /\
        Forall (fun y => comparenk td y k < 0) (lctx p) /\
        Forall (fun y => comparenk td y k <= 0) (elements t)) ->
  exists p', cand_ok dir (zip p t) p' (scan_ne td dir t k p cand) /\
    zip p' Nil = zip p t /\
    if dir then Forall (fun y => comparenk td y k <= 0) (lctx p') /\
                Forall (fun y => 0 < comparenk td y k) (rctx p')
    else Forall (fun y => 0 <= comparenk td y k) (rctx p') /\
         Forall (fun y => comparenk td y k < 0) (lctx p').
Proof.
  revert p cand. induction t as [|h l IHl x a r IHr];
    intros p cand Hs Hk H; cbn [scan_ne].
  - exists p. repeat split; auto. destruct dir; tauto.
  - apply wsorted_Node in Hs as (Hl & Hr & Hlx & Hrx & _).
    destruct (Z.eqb_spec (comparenk td x k) 0) as [He|Hne]; destruct dir; simpl negb;
      destruct H as (H1 & H2 & H3); simpl in H3; apply Forall_app in H3 as [H3 H4];
      apply Forall_cons in H4 as [H4 H5]; cbn beta in *.
    + apply (IHr (Frame true h x a l :: p)); auto. simpl. split; [|done].
      apply Forall_app. split; [done|]. apply Forall_app. split; [|constructor; [lia|constructor]].
      eapply Forall_impl; [exact Hlx|]. intros y Hy. eapply ck_le; [done|exact Hy|lia].
    + apply (IHl (Frame false h x a r :: p)); auto.
      { destruct cand; simpl in *; by rewrite app_nil_r. }
      simpl. rewrite app_nil_r. split; [|done]. apply (Forall_app _ (x :: elements r)). split; [|done].
      constructor; [lia|]. eapply Forall_impl; [exact Hrx|].
      intros y Hy. eapply ck_ge; [done|exact He|exact Hy].
    + apply (IHl (Frame false h x a r :: p)); auto.
      * simpl. exists x. by split; [split; [done|by repeat eexists]|].
      * simpl. rewrite app_nil_r. split; [done|]. split; [|done].
        apply (Forall_app _ (x :: elements r)). split; [|done].
        apply sep_right; [done..|lia].
    + apply (IHr (Frame true h x a l :: p)); auto.
      * simpl. exists x. split; [split; [done|by repeat eexists]|].
        unfold before; simpl. by rewrite <- app_assoc.
      * simpl. split; [done|]. split; [|done].
        apply Forall_app. split; [done|]. apply sep_left; [done..|lia].
Qed.

(** With unique keys, the nodes around one whose key is [k]. *)
Lemma strict_around l1 x l2 k :
  td_allowdups td = false -> td_sorted td (l1 ++ x :: l2) -> comparenk td x k = 0 ->
  Forall (fun y => comparenk td y k < 0) l1 /\ Forall (fun y => 0 < comparenk td y k) l2.
Proof.
  unfold td_sorted. intros -> Hs Hx. apply StronglySorted_mid_iff in Hs as (_ & _ & H1 & H2 & _).
  split; (eapply Forall_impl; [eassumption|]); unfold key_less, comparenk in *; simpl.
  - intros y Hy. destruct (Z.lt_total (td_cmp td (td_key td y) k) 0) as [|Hge]; [done|exfalso].
    assert (td_cmp td k (td_key td y) <= 0).
    { pose proof (cmp_antisym k (td_key td y)). pose proof (cmp_antisym (td_key td y) k). lia. }
    assert (td_cmp td (td_key td x) (td_key td y) <= 0) by (apply (cmp_trans _ k); [lia|done]).
    apply cmp_antisym in Hy. lia.
  - intros y Hy. destruct (Z.lt_total 0 (td_cmp td (td_key td y) k)) as [|Hge]; [done|exfalso].
    assert (td_cmp td k (td_key td x) <= 0).
    { pose proof (cmp_antisym k (td_key td x)). pose proof (cmp_antisym (td_key td x) k). lia. }
    assert (td_cmp td (td_key td y) (td_key td x) <= 0) by (apply (cmp_trans _ k); [lia|done]).
    apply cmp_antisym in Hy. lia.
Qed.

Lemma Forall_lt_le k (l : list E) :
  Forall (fun y => comparenk td y k < 0) l -> Forall (fun y => comparenk td y k <= 0) l.
Proof. intros H. eapply Forall_impl; [exact H|]. simpl. lia. Qed.
Lemma Forall_gt_ge k (l : list E) :
  Forall (fun y => 0 < comparenk td y k) l -> Forall (fun y => 0 <= comparenk td y k) l.
Proof. intros H. eapply Forall_impl; [exact H|]. simpl. lia. Qed.

(** What the common descent leaves: the node with the key and its
    surroundings, or none. *)
Lemma lookup_cand_root dir t k tmp cand :
  avl_ok td t -> lookup_cand td dir t k [] None = (tmp, cand) ->
  zip tmp.2 tmp.1 = t /\ ctx_sep td tmp.2 k /\ cand_ok dir t tmp.2 cand /\
  match tmp.1 with
  | Nil => True
  | Node _ l x _ r =>
      at_loc t tmp x /\ comparenk td x k = 0 /\
      wsorted td (elements l) /\ wsorted td (elements r) /\
      Forall (fun y => comparenk td y k <= 0) (elements l) /\
      Forall (fun y => 0 <= comparenk td y k) (elements r)
  end.
Proof.
  intros Hok H. pose proof (avl_ok_wsorted td t Hok) as Hw.
  apply lookup_cand_spec in H as (Hz & Hc & Hx & Hk); auto;
    [|by split; constructor | by destruct dir].
  split; [done|]. split; [done|]. split; [done|].
  destruct tmp as [[|h l x a r] p]; [done|]. simpl in *. subst t.
  rewrite elements_zip in Hw. apply StronglySorted_app_iff in Hw as (_ & Hw & _).
  apply StronglySorted_app_iff in Hw as (Hw & _ & _).
  apply wsorted_Node in Hw as (Hl & Hr & Hlx & Hrx & _).
  split; [split; [done|by repeat eexists]|]. repeat split; auto.
  - eapply Forall_impl; [exact Hlx|]. intros y Hy. eapply ck_le_l; [done|exact Hx|exact Hy].
  - eapply Forall_impl; [exact Hrx|]. intros y Hy. eapply ck_ge; [done|exact Hx|exact Hy].
Qed.

Lemma unique_around t p h l x a r k :
  td_allowdups td = false -> avl_ok td t -> zip p (Node h l x a r) = t ->
  comparenk td x k = 0 ->
  Forall (fun y => comparenk td y k < 0) (lctx p ++ elements l) /\
  Forall (fun y => 0 < comparenk td y k) (elements r ++ rctx p).
Proof.
  intros Ed [_ Hs] Hz Hx. apply (strict_around _ x _ k Ed); [|done].
  rewrite <- Hz, elements_zip in Hs. simpl in Hs.
  by rewrite <- !app_assoc in *.
Qed.

Lemma lookup_predeq_correct t k :
  avl_ok td t ->
  match lookup_predeq td t k with
  | None => Forall (fun y => 0 < comparenk td y k) (elements t)
  | Some n => exists x, at_loc t n x /\ comparenk td x k <= 0 /\
                Forall (fun y => 0 < comparenk td y k) (after n)
  end.
Proof.
  intros Hok. unfold lookup_predeq, fixup_predsucceq.
  destruct (lookup_cand td false t k [] None) as [tmp cand] eqn:El.
  apply lookup_cand_root in El as (Hz & [Hc1 Hc2] & Hk & Hn); auto.
  destruct tmp as [[|h l x a r] p]; simpl in *.
  - destruct cand as [c|]; simpl in Hk.
    + destruct Hk as (y & Hy & Hb). exists y. split; [done|].
      rewrite <- Hb in Hc1. apply Forall_app in Hc1 as [_ Hc1].
      apply Forall_cons in Hc1 as [Hc1 _]. split; [lia|].
      subst t. by erewrite (cand_after p Nil) by eassumption.
    + by rewrite <- Hz, elements_zip, Hk.
  - destruct Hn as (Ha & Hx & Hl & Hr & Hle & Hge).
    destruct (td_allowdups td) eqn:Ed; simpl.
    + destruct (scan_eq_spec false r k (Frame true h x a l :: p) (Node h l x a r, p) x)
        as (n & y & -> & Hy1 & Hy2 & Hy3); auto.
      { by rewrite zip_true, Hz. }
      { simpl. unfold before; simpl. rewrite <- app_assoc. auto. }
      exists y. rewrite zip_true, Hz in Hy1. split; [done|]. split; [lia|done].
    + exists x. split; [done|]. split; [lia|].
      by apply (unique_around t p h l x a r k).
Qed.

Lemma lookup_succeq_correct t k :
  avl_ok td t ->
  match lookup_succeq td t k with
  | None => Forall (fun y => comparenk td y k < 0) (elements t)
  | Some n => exists x, at_loc t n x /\ 0 <= comparenk td x k /\
                Forall (fun y => comparenk td y k < 0) (before n)
  end.
Proof.
  intros Hok. unfold lookup_succeq, fixup_predsucceq.
  destruct (lookup_cand td true t k [] None) as [tmp cand] eqn:El.
  apply lookup_cand_root in El as (Hz & [Hc1 Hc2] & Hk & Hn); auto.
  destruct tmp as [[|h l x a r] p]; simpl in *.
  - destruct cand as [c|]; simpl in Hk.
    + destruct Hk as (y & Hy & Hb). exists y. split; [done|].
      rewrite <- Hb in Hc2. apply Forall_cons in Hc2 as [Hc2 _]. split; [lia|].
      subst t. erewrite (cand_before p Nil) by eassumption. simpl. by rewrite app_nil_r.
    + rewrite <- Hz, elements_zip, Hk. simpl. by rewrite app_nil_r.
  - destruct Hn as (Ha & Hx & Hl & Hr & Hle & Hge).
    destruct (td_allowdups td) eqn:Ed; simpl.
    + destruct (scan_eq_spec true l k (Frame false h x a r :: p) (Node h l x a r, p) x)
        as (n & y & -> & Hy1 & Hy2 & Hy3); auto.
      { by rewrite zip_false, Hz. }
      { simpl. rewrite app_nil_r. auto. }
      exists y. rewrite zip_false, Hz in Hy1. split; [done|]. split; [lia|done].
    + exists x. split; [done|]. split; [lia|].
      by apply (unique_around t p h l x a r k).
Qed.

(** The candidate of a finished search for a strictly smaller, or
    larger, key. *)
Lemma cand_pred_correct t k p s cand :
  zip p s = t -> cand_ok false t p cand ->
  Forall (fun y => comparenk td y k < 0) (lctx p) ->
  Forall (fun y => 0 <= comparenk td y k) (elements s ++ rctx p) ->
  match cand with
  | None => Forall (fun y => 0 <= comparenk td y k) (elements t)
  | Some n => exists x, at_loc t n x /\ comparenk td x k < 0 /\
                Forall (fun y => 0 <= comparenk td y k) (after n)
  end.
Proof.
  intros Hz Hk H1 H2. destruct cand as [c|]; simpl in Hk.
  - destruct Hk as (y & Hy & Hb). exists y. split; [done|].
    rewrite <- Hb in H1. apply Forall_app in H1 as [_ H1].
    apply Forall_cons in H1 as [H1 _]. split; [done|].
    rewrite <- Hz in Hy. by erewrite (cand_after p s) by eassumption.
  - by rewrite <- Hz, elements_zip, Hk.
Qed.

Lemma cand_succ_correct t k p s cand :
  zip p s = t -> cand_ok true t p cand ->
  Forall (fun y => 0 < comparenk td y k) (rctx p) ->
  Forall (fun y => comparenk td y k <= 0) (lctx p ++ elements s) ->
  match cand with
  | None => Forall (fun y => comparenk td y k <= 0) (elements t)
  | Some n => exists x, at_loc t n x /\ 0 < comparenk td x k /\
                Forall (fun y => comparenk td y k <= 0) (before n)
  end.
Proof.
  intros Hz Hk H1 H2. destruct cand as [c|]; simpl in Hk.
  - destruct Hk as (y & Hy & Hb). exists y. split; [done|].
    rewrite <- Hb in H1. apply Forall_cons in H1 as [H1 _]. split; [done|].
    rewrite <- Hz in Hy. by erewrite (cand_before p s) by eassumption.
  - by rewrite <- Hz, elements_zip, Hk, app_nil_r.
Qed.

Lemma lookup_pred_correct t k :
  avl_ok td t ->
  match lookup_pred td t k with
  | None => Forall (fun y => 0 <= comparenk td y k) (elements t)
  | Some n => exists x, at_loc t n x /\ comparenk td x k < 0 /\
                Forall (fun y => 0 <= comparenk td y k) (after n)
  end.
Proof.
  intros Hok. unfold lookup_pred, fixup_predsucc.
  destruct (lookup_cand td false t k [] None) as [tmp cand] eqn:El.
  apply lookup_cand_root in El as (Hz & [Hc1 Hc2] & Hk & Hn); auto.
  apply Forall_gt_ge in Hc2.
  destruct tmp as [[|h l x a r] p]; cbn [fst snd cs] in *.
  - by apply (cand_pred_correct t k p Nil).
  - destruct Hn as (Ha & Hx & Hl & Hr & Hle & Hge).
    assert (Hr' : Forall (fun y => 0 <= comparenk td y k) (x :: elements r ++ rctx p)).
    { constructor; [lia|]. apply Forall_app; auto. }
    destruct l as [|hl ll lx la lr] eqn:Er.
    { by apply (cand_pred_correct t k p (Node h Nil x a r)). }
    assert (Hne : l <> Nil) by congruence.
    rewrite <- Er in *. clear Er hl ll lx la lr. cbn [child negb cs fst snd].
    destruct (td_allowdups td) eqn:Ed; simpl negb; cbn iota.
    + destruct (scan_ne_spec false l k (Frame false h x a r :: p) cand)
        as (p' & S1 & S2 & S3 & S4); auto.
      { rewrite zip_false, Hz. destruct cand; simpl in *; by rewrite app_nil_r. }
      { simpl. rewrite app_nil_r. auto. }
      rewrite zip_false, Hz in S1, S2. by apply (cand_pred_correct t k p' Nil).
    + destruct (unique_around t p h l x a r k Ed Hok Hz Hx) as [U1 U2].
      pose proof (descend_spec true l (Frame false h x a r :: p)) as D.
      destruct (descend true l _) as [n|]; [|congruence].
      destruct D as (y & Dy & D1 & D2). rewrite zip_false, Hz in Dy.
      exists y. split; [done|]. rewrite D2. simpl in D1.
      rewrite app_nil_r in D1. rewrite <- D1 in U1. apply Forall_app in U1 as [_ U1].
      by apply Forall_cons in U1 as [U1 _].
Qed.

Lemma lookup_succ_correct t k :
  avl_ok td t ->
  match lookup_succ td t k with
  | None => Forall (fun y => comparenk td y k <= 0) (elements t)
  | Some n => exists x, at_loc t n x /\ 0 < comparenk td x k /\
                Forall (fun y => comparenk td y k <= 0) (before n)
  end.
Proof.
  intros Hok. unfold lookup_succ, fixup_predsucc.
  destruct (lookup_cand td true t k [] None) as [tmp cand] eqn:El.
  apply lookup_cand_root in El as (Hz & [Hc1 Hc2] & Hk & Hn); auto.
  apply Forall_lt_le in Hc1.
  destruct tmp as [[|h l x a r] p]; cbn [fst snd cs] in *.
  - apply (cand_succ_correct t k p Nil); auto. by rewrite app_nil_r.
  - destruct Hn as (Ha & Hx & Hl & Hr & Hle & Hge).
    assert (Hl' : Forall (fun y => comparenk td y k <= 0) (lctx p ++ elements l ++ [x])).
    { apply Forall_app. split; [done|]. apply Forall_app. split; [done|].
      constructor; [lia|constructor]. }
    destruct r as [|hr rl rx ra rr] eqn:Er.
    { by apply (cand_succ_correct t k p (Node h l x a Nil)). }
    assert (Hne : r <> Nil) by congruence.
    rewrite <- Er in *. clear Er hr rl rx ra rr. cbn [child negb cs fst snd].
    destruct (td_allowdups td) eqn:Ed; simpl negb; cbn iota.
    + destruct (scan_ne_spec true r k (Frame true h x a l :: p) cand)
        as (p' & S1 & S2 & S3 & S4); auto.
      { rewrite zip_true, Hz. by destruct cand. }
      rewrite zip_true, Hz in S1, S2. apply (cand_succ_correct t k p' Nil); auto.
      by rewrite app_nil_r.
    + destruct (unique_around t p h l x a r k Ed Hok Hz Hx) as [U1 U2].
      pose proof (descend_spec false r (Frame true h x a l :: p)) as D.
      destruct (descend false r _) as [n|]; [|congruence].
      destruct D as (y & Dy & D1 & D2). rewrite zip_true, Hz in Dy.
      exists y. split; [done|]. rewrite D1. simpl in D2 |- *.
      rewrite <- D2 in U2. by apply Forall_cons in U2 as [U2 _].
Qed.
End Lookups.
End Search.
