(* ===== verification/AvlWalk.v ===== *)
(** * Traversals, heights and augmentation of the AVL trees

    The iterators and walks visit the nodes in key order, each once; the
    height bound that makes the fixed-size path and stack arrays of
    [ut_avlPath_t] and [ut_avlIter_t] large enough; and the summaries kept by
    the augment callback. *)

From Stdlib Require Import ZArith Lia Sorting.Sorted.
From stdpp Require Import prelude.
From S2P Require Import Prelude OrdTree Avl AvlFacts AvlSearch.

Section Walk.
Context {K E A : Type}.
Implicit Types (td : treedef K E A) (t : tree E A) (it : @iter E A).

(** ** The stack of the iterators *)

(** What is still to be visited from a stack of nodes. *)
Fixpoint rem (todo : list (tree E A)) : list E :=
  match todo with
  | [] => []
  | Nil :: rest => rem rest
  | Node _ _ x _ r :: rest => x :: elements r ++ rem rest
  end.

Definition is_node t : Prop := match t with Nil => False | _ => True end.

Lemma push_left_rem t todo : rem (push_left t todo) = elements t ++ rem todo.
Proof.
  revert todo. induction t as [|h l IHl x a r _]; intros todo; simpl; [done|].
  rewrite IHl. simpl. by rewrite <- app_assoc.
Qed.

Lemma push_left_nodes t todo : Forall is_node todo -> Forall is_node (push_left t todo).
Proof.
  revert todo. induction t as [|h l IHl x a r _]; intros todo H; simpl; [done|].
  apply IHl. by constructor.
Qed.

(** Between calls the top of the stack is the node last returned. *)
Definition iter_ok it : Prop :=
  exists n rest, it_todo it = n :: rest /\ Forall is_node (n :: rest) /\
                 it_right it = cs true n.

Lemma iter_node_rem it : iter_ok it -> elt (iter_node it) = head (rem (it_todo it)).
Proof.
  intros (n & rest & H1 & H2 & _). unfold iter_node. rewrite H1.
  apply Forall_cons in H2 as [H2 _]. by destruct n.
Qed.

Lemma iter_start_ok todo :
  Forall is_node todo ->
  match todo with
  | [] => (iter_start todo).2 = None
  | _ => iter_ok (iter_start todo).1 /\ (iter_start todo).2 = iter_node (iter_start todo).1 /\
         it_todo (iter_start todo).1 = todo
  end.
Proof.
  intros H. destruct todo as [|n rest]; [done|]. unfold iter_start. simpl.
  split; [|done]. exists n, rest. done.
Qed.

Lemma downleft_ok t rest rt :
  is_node t -> Forall is_node rest ->
  iter_ok (avl_iter_downleft (Iter (t :: rest) rt)) /\
  rem (it_todo (avl_iter_downleft (Iter (t :: rest) rt))) = elements t ++ rem rest.
Proof.
  intros Ht Hr. destruct t as [|h l x a r]; [done|].
  unfold avl_iter_downleft; simpl.
  assert (H : Forall is_node (push_left l (Node h l x a r :: rest)))
    by (apply push_left_nodes; by constructor).
  split.
  - destruct (push_left l _) as [|m rest'] eqn:Ep; simpl.
    + exfalso. pose proof (push_left_rem l (Node h l x a r :: rest)) as Hp.
      rewrite Ep in Hp. simpl in Hp. by destruct (elements l).
    + exists m, rest'. done.
  - rewrite push_left_rem. simpl. by rewrite <- app_assoc.
Qed.

Lemma iter_next_right n rest r :
  is_node r ->
  ut_avlIterNext (Iter (n :: rest) r) =
  (avl_iter_downleft (Iter (r :: rest) r), iter_node (avl_iter_downleft (Iter (r :: rest) r))).
Proof. destruct r; [done|]. by destruct rest. Qed.

Lemma iter_next_spec it :
  iter_ok it ->
  match tail (rem (it_todo it)) with
  | [] => (ut_avlIterNext it).2 = None
  | y :: ys => iter_ok (ut_avlIterNext it).1 /\
               (ut_avlIterNext it).2 = iter_node (ut_avlIterNext it).1 /\
               rem (it_todo (ut_avlIterNext it).1) = y :: ys
  end.
Proof.
  destruct it as [todo rt]. intros (n & rest & H1 & H2 & H3).
  cbn [it_todo it_right] in *. subst.
  apply Forall_cons in H2 as [Hn Hrest]. destruct n as [|h l x a r]; [done|].
  cbn [rem tail cs].
  destruct r as [|hr rl rx ra rr] eqn:Er.
  - destruct rest as [|m rest]; [done|]. simpl.
    apply Forall_cons in Hrest as [Hm Hrest]. destruct m as [|hm ml mx ma mr]; [done|].
    simpl. split; [|done]. exists (Node hm ml mx ma mr), rest. repeat split.
    by constructor.
  - assert (Hr : is_node r) by (by rewrite Er). rewrite <- Er in *.
    destruct (downleft_ok r rest r Hr Hrest) as [D1 D2].
    rewrite iter_next_right by done. simpl fst; simpl snd.
    destruct (elements r ++ rem rest) as [|y ys] eqn:Ee; [|by rewrite D2].
    exfalso. subst r. simpl in Ee. by destruct (elements rl).
Qed.

(** The loop [for (n = IterFirst(&it); n; n = IterNext(&it))]. *)
Fixpoint iter_collect (fuel : nat) (st : iter * option (E * A)) : option (list E) :=
  match st.2 with
  | None => Some []
  | Some (x, _) =>
      match fuel with
      | O => None
      | S fuel' => vs ← iter_collect fuel' (ut_avlIterNext st.1); Some (x :: vs)
      end
  end.

Lemma iter_collect_spec fuel it :
  iter_ok it -> (length (rem (it_todo it)) <= fuel)%nat ->
  iter_collect fuel (it, iter_node it) = Some (rem (it_todo it)).
Proof.
  revert it. induction fuel as [|fuel IH]; intros it Hok Hf;
    pose proof (iter_node_rem it Hok) as Hn; pose proof (iter_next_spec it Hok) as Hs;
    unfold elt in Hn; cbn [iter_collect snd fst];
    destruct (ut_avlIterNext it) as [it' o]; cbn [fst snd] in *;
    destruct (rem (it_todo it)) as [|y ys] eqn:Er; simpl in Hn; simpl in Hf; try lia;
    destruct (iter_node it) as [[x a]|]; simplify_eq/=; try done.
  destruct ys as [|z zs].
  - subst o. by destruct fuel.
  - destruct Hs as (S1 & -> & S3). rewrite IH; [|done|rewrite S3; simpl in *; lia].
    simpl. by rewrite S3.
Qed.

Lemma iter_first_spec t :
  iter_collect (length (elements t)) (ut_avlIterFirst t) = Some (elements t).
Proof.
  unfold ut_avlIterFirst. destruct t as [|h l x a r] eqn:Et; [done|]. rewrite <- Et.
  destruct (downleft_ok t [] Nil) as [D1 D2]; [by rewrite Et|constructor|].
  rewrite iter_collect_spec, D2; [|done|rewrite D2]; simpl; by rewrite app_nil_r.
Qed.

Lemma iter_start_spec todo :
  Forall is_node todo ->
  iter_collect (length (rem todo)) (iter_start todo) = Some (rem todo).
Proof.
  intros H. pose proof (iter_start_ok todo H) as S. destruct todo as [|n rest] eqn:Et; [done|].
  rewrite <- Et in *. destruct S as (S1 & S2 & S3).
  destruct (iter_start todo) as [it o]. simpl in *. subst o.
  rewrite <- S3. by apply iter_collect_spec.
Qed.

(** ** [ut_avlWalk] *)

Lemma walk_up_spec todo vs st :
  Forall is_node todo -> todo <> [] -> walk_up todo = (vs, st) ->
  vs <> [] /\ exists r rest, st = r :: rest /\ Forall is_node rest /\
    (r = Nil -> rest = []) /\ rem todo = vs ++ elements r ++ rem rest.
Proof.
  revert vs st. induction todo as [|n rest IH]; intros vs st Hn He H; [done|].
  apply Forall_cons in Hn as [Hn Hrest]. destruct n as [|h l x a r]; [done|].
  cbn [walk_up] in H. destruct r as [|hr rl rx ra rr] eqn:Er.
  - destruct rest as [|m rest'] eqn:Em.
    + simplify_eq. split; [done|]. by exists Nil, [].
    + rewrite <- Em in *. destruct (walk_up rest) as [vs' st'] eqn:Ew. simplify_eq.
      destruct (IH vs' st) as (H1 & r' & rest'' & -> & H2 & H3 & H4); auto; try by subst.
      split; [done|]. exists r', rest''. repeat split; auto. cbn [rem elements app] in *. by rewrite H4.
  - rewrite <- Er in *. simplify_eq. split; [done|].
    exists (Node hr rl rx ra rr), rest. done.
Qed.

Lemma walk_loop_spec fuel t rest :
  Forall is_node rest -> (t = Nil -> rest = []) ->
  (length (elements t ++ rem rest) < fuel)%nat ->
  walk_loop fuel (t :: rest) = Some (elements t ++ rem rest).
Proof.
  revert t rest. induction fuel as [|fuel IH]; intros t rest Hr Ht Hf; [lia|].
  cbn [walk_loop]. destruct t as [|h l x a r]; [by rewrite Ht|].
  destruct (walk_up (push_left l (Node h l x a r :: rest))) as [vs st] eqn:Ew.
  assert (Hp : rem (push_left l (Node h l x a r :: rest)) =
               elements (Node h l x a r) ++ rem rest).
  { rewrite push_left_rem. simpl. by rewrite <- app_assoc. }
  apply walk_up_spec in Ew as (Hv & r' & rest' & -> & H2 & H3 & H4).
  - rewrite H4 in Hp. rewrite <- Hp in *.
    assert (Hl : (0 < length vs)%nat) by (destruct vs; simpl; [done|lia]).
    rewrite IH; auto. rewrite length_app in Hf. lia.
  - apply push_left_nodes. by constructor.
  - intros He. rewrite He in Hp. simpl in Hp. by destruct (elements l).
Qed.

Lemma size_elements t : size t = length (elements t).
Proof. induction t; simpl; [done|]. rewrite length_app. simpl. lia. Qed.

Lemma walk_spec t : ut_avlWalk t = Some (elements t).
Proof.
  unfold ut_avlWalk. rewrite walk_loop_spec; simpl; rewrite ?app_nil_r; auto.
  rewrite size_elements. lia.
Qed.

Lemma treedestroy_perm t : treedestroy t ≡ₚ elements t.
Proof.
  induction t as [|h l IHl x a r IHr]; simpl; [done|].
  rewrite IHl, IHr. apply Permutation_app_head. symmetry. apply Permutation_cons_append.
Qed.

(** ** Iterating and walking from a key *)

Section Range.
Context (td : treedef K E A) `{!CmpLaws (td_cmp td)}.

(** The stack holds the nodes right of the descent. *)
Lemma iter_descend_spec t k p todo n p' :
  lookup_path td t k p = (n, p') -> rem todo = rctx p -> Forall is_node todo ->
  exists todo', iter_descend td t k todo = (n, todo') /\ rem todo' = rctx p' /\
                Forall is_node todo'.
Proof.
  revert p todo. induction t as [|h l IHl x a r IHr]; intros p todo H Hr Hn;
    cbn [lookup_path iter_descend] in *; [simplify_eq; eauto|].
  destruct (Z.eqb_spec (comparenk td x k) 0); [simplify_eq; eauto|].
  rewrite Z.gtb_ltb. destruct (Z.leb_spec (comparenk td x k) 0);
    destruct (Z.ltb_spec 0 (comparenk td x k)); try lia.
  - eapply IHr; eauto.
  - eapply IHl; [eauto| |by constructor]. simpl. by rewrite Hr.
Qed.

Lemma iter_scan_eq_spec t k p todo :
  wsorted td (elements t) -> rem todo = rctx p -> Forall is_node todo ->
  Forall (fun y => comparenk td y k < 0) (lctx p) ->
  Forall (fun y => comparenk td y k <= 0) (elements t) ->
  Forall (fun y => 0 <= comparenk td y k) (rctx p) ->
  exists p', rem (iter_scan_eq td t k todo) = rctx p' /\ zip p' Nil = zip p t /\
    Forall is_node (iter_scan_eq td t k todo) /\
    Forall (fun y => comparenk td y k < 0) (lctx p') /\
    Forall (fun y => 0 <= comparenk td y k) (rctx p').
Proof.
  revert p todo. induction t as [|h l IHl x a r IHr]; intros p todo Hs Hr Hn H1 H2 H3;
    cbn [iter_scan_eq]; [by exists p|].
  apply wsorted_Node in Hs as (Hl & Hw & Hlx & Hrx & _). simpl in H2.
  apply Forall_app in H2 as [H2 H4]. apply Forall_cons in H4 as [H4 H5].
  destruct (Z.eqb_spec (comparenk td x k) 0) as [He|Hne].
  - apply (IHl (Frame false h x a r :: p)); simpl;
      [done|by rewrite Hr|by constructor|by rewrite app_nil_r|done|].
    constructor; [lia|]. apply Forall_app. split; [|done].
    eapply Forall_impl; [exact Hrx|]. intros y Hy.
    eapply ck_ge; [done|exact He|exact Hy].
  - apply (IHr (Frame true h x a l :: p)); auto. simpl.
    apply Forall_app. split; [done|]. apply sep_left; [done..|lia].
Qed.

Lemma iter_scan_ne_spec t k p todo :
  wsorted td (elements t) -> rem todo = rctx p -> Forall is_node todo ->
  Forall (fun y => comparenk td y k <= 0) (lctx p) ->
  Forall (fun y => 0 <= comparenk td y k) (elements t) ->
  Forall (fun y => 0 < comparenk td y k) (rctx p) ->
  exists p', rem (iter_scan_ne td t k todo) = rctx p' /\ zip p' Nil = zip p t /\
    Forall is_node (iter_scan_ne td t k todo) /\
    Forall (fun y => comparenk td y k <= 0) (lctx p') /\
    Forall (fun y => 0 < comparenk td y k) (rctx p').
Proof.
  revert p todo. induction t as [|h l IHl x a r IHr]; intros p todo Hs Hr Hn H1 H2 H3;
    cbn [iter_scan_ne]; [by exists p|].
  apply wsorted_Node in Hs as (Hl & Hw & Hlx & Hrx & _). simpl in H2.
  apply Forall_app in H2 as [H2 H4]. apply Forall_cons in H4 as [H4 H5].
  destruct (Z.eqb_spec (comparenk td x k) 0) as [He|Hne].
  - apply (IHr (Frame true h x a l :: p)); auto. simpl.
    apply Forall_app. split; [done|]. apply Forall_app. split; [|constructor; [lia|constructor]].
    eapply Forall_impl; [exact Hlx|]. intros y Hy. eapply ck_le; [done|exact Hy|lia].
  - apply (IHl (Frame false h x a r :: p)); simpl;
      [done|by rewrite Hr|by constructor|by rewrite app_nil_r|done|].
    apply (Forall_app _ (x :: elements r)). split; [|done]. apply sep_right; [done..|lia].
Qed.

Lemma iter_succeq_correct t k :
  avl_ok td t ->
  exists l1 l2, elements t = l1 ++ l2 /\
    Forall (fun y => comparenk td y k < 0) l1 /\
    Forall (fun y => 0 <= comparenk td y k) l2 /\
    iter_collect (length l2) (ut_avlIterSuccEq td t k) = Some l2.
Proof.
  intros Hok. pose proof (avl_ok_wsorted td t Hok) as Hw. unfold ut_avlIterSuccEq.
  destruct (lookup_path td t k []) as [n p] eqn:El.
  destruct (iter_descend_spec t k [] [] n p El) as (todo & -> & Hr & Hn); [done|constructor|].
  apply lookup_path_root in El as ([Hc1 Hc2] & Hz & Hx); auto.
  destruct n as [|h l x a r].
  - exists (lctx p), (rctx p). rewrite <- Hz, elements_zip. split; [done|].
    split; [done|]. split; [by apply Forall_gt_ge|]. rewrite <- Hr. by apply iter_start_spec.
  - rewrite <- Hz, elements_zip in Hw. apply StronglySorted_app_iff in Hw as (_ & Hw & _).
    apply StronglySorted_app_iff in Hw as (Hw & _ & _).
    apply wsorted_Node in Hw as (Hl & Hrr & Hlx & Hrx & _).
    assert (Hge : Forall (fun y => 0 <= comparenk td y k) (x :: elements r ++ rctx p)).
    { constructor; [lia|]. apply Forall_app. split; [|by apply Forall_gt_ge].
      eapply Forall_impl; [exact Hrx|]. intros y Hy. eapply ck_ge; [done|exact Hx|exact Hy]. }
    destruct (td_allowdups td) eqn:Ed.
    + destruct (iter_scan_eq_spec l k (Frame false h x a r :: p) (Node h l x a r :: todo))
        as (p' & S1 & S2 & S3 & S4 & S5); simpl;
        [done|by rewrite Hr|by constructor|by rewrite app_nil_r| |done|].
      { eapply Forall_impl; [exact Hlx|]. intros y Hy. eapply ck_le_l; [done|exact Hx|exact Hy]. }
      exists (lctx p'), (rctx p'). rewrite zip_false, Hz in S2.
      rewrite <- S2, elements_zip. repeat split; auto. rewrite <- S1. by apply iter_start_spec.
    + destruct (unique_around td t p h l x a r k Ed Hok Hz Hx) as [U1 U2].
      exists (lctx p ++ elements l), (x :: elements r ++ rctx p).
      rewrite <- Hz, elements_zip. simpl. rewrite <- !app_assoc. repeat split; auto.
      rewrite <- Hr. apply (iter_start_spec (Node h l x a r :: todo)). by constructor.
Qed.

Lemma iter_succ_correct t k :
  avl_ok td t ->
  exists l1 l2, elements t = l1 ++ l2 /\
    Forall (fun y => comparenk td y k <= 0) l1 /\
    Forall (fun y => 0 < comparenk td y k) l2 /\
    iter_collect (length l2) (ut_avlIterSucc td t k) = Some l2.
Proof.
  intros Hok. pose proof (avl_ok_wsorted td t Hok) as Hw. unfold ut_avlIterSucc.
  destruct (lookup_path td t k []) as [n p] eqn:El.
  destruct (iter_descend_spec t k [] [] n p El) as (todo & -> & Hr & Hn); [done|constructor|].
  apply lookup_path_root in El as ([Hc1 Hc2] & Hz & Hx); auto. apply Forall_lt_le in Hc1.
  destruct n as [|h l x a r].
  - exists (lctx p), (rctx p). rewrite <- Hz, elements_zip. repeat split; auto.
    rewrite <- Hr. by apply iter_start_spec.
  - rewrite <- Hz, elements_zip in Hw. apply StronglySorted_app_iff in Hw as (_ & Hw & _).
    apply StronglySorted_app_iff in Hw as (Hw & _ & _).
    apply wsorted_Node in Hw as (Hl & Hrr & Hlx & Hrx & _).
    assert (Hle : Forall (fun y => comparenk td y k <= 0) (lctx p ++ elements l ++ [x])).
    { apply Forall_app. split; [done|]. apply Forall_app.
      split; [|constructor; [lia|constructor]].
      eapply Forall_impl; [exact Hlx|]. intros y Hy. eapply ck_le_l; [done|exact Hx|exact Hy]. }
    cbn [cs]. destruct (td_allowdups td) eqn:Ed.
    + destruct (iter_scan_ne_spec r k (Frame true h x a l :: p) todo)
        as (p' & S1 & S2 & S3 & S4 & S5); auto.
      { eapply Forall_impl; [exact Hrx|]. intros y Hy. eapply ck_ge; [done|exact Hx|exact Hy]. }
      exists (lctx p'), (rctx p'). rewrite zip_true, Hz in S2.
      rewrite <- S2, elements_zip. repeat split; auto. rewrite <- S1. by apply iter_start_spec.
    + destruct (unique_around td t p h l x a r k Ed Hok Hz Hx) as [U1 U2].
      exists (lctx p ++ elements l ++ [x]), (elements r ++ rctx p).
      rewrite <- Hz, elements_zip. simpl. rewrite <- !app_assoc. repeat split; auto.
      rewrite <- Hr, <- push_left_rem. apply iter_start_spec. by apply push_left_nodes.
Qed.

Lemma walk_range_up fuel root n x max :
  wsorted td (elements root) -> at_loc root n x -> (length (x :: after n) < fuel)%nat ->
  exists l2 l3, x :: after n = l2 ++ l3 /\
    Forall (fun y => comparenk td y max <= 0) l2 /\
    Forall (fun y => 0 < comparenk td y max) l3 /\
    walk_range_loop td fuel true max (Some n) = Some l2.
Proof.
  intros Hw. revert n x. induction fuel as [|fuel IH]; intros n x Hn Hf; [lia|].
  pose proof (at_loc_elements _ _ _ Hn) as He. rewrite He in Hw.
  apply StronglySorted_mid_iff in Hw as (_ & _ & _ & Hx & _).
  destruct n as [nd p]. pose proof Hn as [_ (h & l & a & r & Hnd)]. simpl in Hnd. subst nd.
  cbn [walk_range_loop]. destruct (Z.leb_spec (comparenk td x max) 0) as [Hle|Hgt].
  - pose proof (find_neighbour_spec root (Node h l x a r, p) x true Hn) as Hs.
    destruct (find_neighbour (Node h l x a r, p) true) as [n'|].
    + destruct Hs as (y & Hy & _ & Hs). rewrite <- Hs in *.
      destruct (IH n' y Hy) as (l2 & l3 & H1 & H2 & H3 & ->); [simpl in *; lia|].
      exists (x :: l2), l3. rewrite H1. repeat split; auto.
    + rewrite Hs. exists [x], []. repeat split; auto.
      destruct fuel; [simpl in Hf; lia|done].
  - exists [], (x :: after (Node h l x a r, p)). repeat split; auto.
    constructor; [done|]. eapply Forall_impl; [exact Hx|]. intros y Hy.
    eapply ck_gt; [done|exact Hy|done].
Qed.

Lemma walk_range_down fuel root n x min :
  wsorted td (elements root) -> at_loc root n x -> (length (before n ++ [x]) < fuel)%nat ->
  exists l1 l2, before n ++ [x] = l1 ++ reverse l2 /\
    Forall (fun y => 0 <= comparenk td y min) l2 /\
    Forall (fun y => comparenk td y min < 0) l1 /\
    walk_range_loop td fuel false min (Some n) = Some l2.
Proof.
  intros Hw. revert n x. induction fuel as [|fuel IH]; intros n x Hn Hf; [lia|].
  pose proof (at_loc_elements _ _ _ Hn) as He. rewrite He in Hw.
  apply StronglySorted_mid_iff in Hw as (_ & _ & Hx & _ & _).
  destruct n as [nd p]. pose proof Hn as [_ (h & l & a & r & Hnd)]. simpl in Hnd. subst nd.
  cbn [walk_range_loop]. rewrite Z.geb_leb.
  destruct (Z.leb_spec 0 (comparenk td x min)) as [Hge|Hlt].
  - pose proof (find_neighbour_spec root (Node h l x a r, p) x false Hn) as Hs.
    destruct (find_neighbour (Node h l x a r, p) false) as [n'|].
    + destruct Hs as (y & Hy & Hs & _). rewrite <- Hs in *.
      destruct (IH n' y Hy) as (l1 & l2 & H1 & H2 & H3 & ->).
      { rewrite length_app in Hf. simpl in Hf. lia. }
      exists l1, (x :: l2). rewrite H1, reverse_cons, app_assoc. repeat split; auto.
    + rewrite Hs. exists [], [x]. repeat split; auto.
      destruct fuel; [rewrite Hs in Hf; simpl in Hf; lia|done].
  - exists (before (Node h l x a r, p) ++ [x]), []. rewrite reverse_nil, app_nil_r.
    repeat split; auto. apply sep_left; [done| |done].
    eapply Forall_impl; [exact Hx|]. intros y Hy. exact Hy.
Qed.

Lemma walk_range_correct t min max :
  avl_ok td t ->
  exists l1 l2 l3, elements t = l1 ++ l2 ++ l3 /\
    Forall (fun y => comparenk td y min < 0) l1 /\
    Forall (fun y => 0 <= comparenk td y min /\ comparenk td y max <= 0) l2 /\
    Forall (fun y => 0 <= comparenk td y min /\ 0 < comparenk td y max) l3 /\
    ut_avlWalkRange td t min max = Some l2.
Proof.
  intros Hok. pose proof (avl_ok_wsorted td t Hok) as Hw. unfold ut_avlWalkRange.
  pose proof (lookup_succeq_correct td t min Hok) as Hl.
  destruct (lookup_succeq td t min) as [n|].
  - destruct Hl as (x & Hn & Hx & Hb). pose proof (at_loc_elements _ _ _ Hn) as He.
    destruct (walk_range_up (S (size t)) t n x max Hw Hn) as (l2 & l3 & H1 & H2 & H3 & ->).
    { rewrite size_elements, He, length_app. lia. }
    assert (Hge : Forall (fun y => 0 <= comparenk td y min) (l2 ++ l3)).
    { rewrite <- H1. constructor; [done|]. rewrite He in Hw.
      apply StronglySorted_mid_iff in Hw as (_ & _ & _ & Hw & _).
      eapply Forall_impl; [exact Hw|]. intros y Hy.
      destruct (Z.lt_total (comparenk td y min) 0) as [Hlt|]; [|lia].
      pose proof (ck_lt td _ _ _ Hy Hlt). lia. }
    apply Forall_app in Hge as [Hg2 Hg3].
    exists (before n), l2, l3. rewrite He, H1. repeat split; auto.
    + by apply Forall_and.
    + by apply Forall_and.
  - exists (elements t), [], []. simpl. rewrite app_nil_r. repeat split; auto.
Qed.

Lemma walk_range_reverse_correct t min max :
  avl_ok td t ->
  exists l1 l2 l3, elements t = l1 ++ reverse l2 ++ l3 /\
    Forall (fun y => comparenk td y max <= 0 /\ comparenk td y min < 0) l1 /\
    Forall (fun y => comparenk td y max <= 0 /\ 0 <= comparenk td y min) l2 /\
    Forall (fun y => 0 < comparenk td y max) l3 /\
    ut_avlWalkRangeReverse td t min max = Some l2.
Proof.
  intros Hok. pose proof (avl_ok_wsorted td t Hok) as Hw. unfold ut_avlWalkRangeReverse.
  pose proof (lookup_predeq_correct td t max Hok) as Hl.
  destruct (lookup_predeq td t max) as [n|].
  - destruct Hl as (x & Hn & Hx & Ha). pose proof (at_loc_elements _ _ _ Hn) as He.
    destruct (walk_range_down (S (size t)) t n x min Hw Hn) as (l1 & l2 & H1 & H2 & H3 & ->).
    { rewrite size_elements, He, !length_app. simpl. lia. }
    assert (Hle : Forall (fun y => comparenk td y max <= 0) (l1 ++ reverse l2)).
    { rewrite <- H1. apply Forall_app. split; [|by constructor]. rewrite He in Hw.
      apply StronglySorted_mid_iff in Hw as (_ & _ & Hw & _ & _).
      eapply Forall_impl; [exact Hw|]. intros y Hy. eapply ck_le; [done|exact Hy|done]. }
    apply Forall_app in Hle as [Hg2 Hg3]. rewrite Forall_reverse in Hg3.
    exists l1, l2, (after n). rewrite app_assoc, <- H1, He, <- app_assoc. repeat split; auto.
    + by apply Forall_and.
    + by apply Forall_and.
  - exists [], [], (elements t). rewrite reverse_nil. repeat split; auto.
Qed.
End Range.

(** ** Heights *)

(** Fibonacci numbers, as consecutive pairs. *)
Definition fibs (n : nat) : Z * Z := Nat.iter n (fun '(a, b) => (b, a + b)) (0, 1).
Definition fib (n : nat) : Z := (fibs n).1.

Lemma fib_SS n : fib (S (S n)) = fib n + fib (S n).
Proof. unfold fib, fibs. simpl. by destruct (Nat.iter n _ _). Qed.

Lemma fib_pos n : 0 <= fib n /\ 0 < fib (S n).
Proof. induction n as [|n [IH1 IH2]]; [done|]. rewrite fib_SS. lia. Qed.

Lemma fib_mono n m : (n <= m)%nat -> fib (S n) <= fib (S m).
Proof.
  induction 1 as [|m _ IH]; [lia|]. rewrite (fib_SS m). pose proof (fib_pos m). lia.
Qed.

Lemma bal_size t n : bal t -> Z.of_nat n <= node_height t -> fib (S (S n)) - 1 <= Z.of_nat (size t).
Proof.
  revert n. induction t as [|h l IHl x a r IHr]; intros n Hb Hn.
  - simpl in *. by replace n with O by lia.
  - destruct Hb as (Hl & Hr & -> & Hd). cbn [size node_height] in *.
    destruct n as [|[|m]]; [cbn; lia | cbn; lia|].
    destruct (Z.le_gt_cases (node_height r) (node_height l)).
    + pose proof (IHl (S m) Hl ltac:(lia)). pose proof (IHr m Hr ltac:(lia)).
      rewrite (fib_SS (S (S m))). lia.
    + pose proof (IHr (S m) Hr ltac:(lia)). pose proof (IHl m Hl ltac:(lia)).
      rewrite (fib_SS (S (S m))). lia.
Qed.

Lemma bal_height_bound t : bal t -> Z.of_nat (size t) < 2 ^ 64 -> node_height t < 92.
Proof.
  intros Hb Hs. destruct (Z.lt_ge_cases (node_height t) 92) as [|Hge]; [done|exfalso].
  pose proof (bal_size t 92 Hb ltac:(lia)) as H.
  assert (Hf : 2 ^ 64 <= fib 94 - 1) by (vm_compute; discriminate). lia.
Qed.

Lemma lookup_path_length td t k p n p' :
  bal t -> lookup_path td t k p = (n, p') ->
  Z.of_nat (length p') + node_height n <= Z.of_nat (length p) + node_height t.
Proof.
  revert p. induction t as [|h l IHl x a r IHr]; intros p Hb H; cbn [lookup_path] in H;
    [simplify_eq; lia|]. destruct Hb as (Hl & Hr & -> & Hd). cbn [node_height].
  destruct (Z.eqb_spec (comparenk td x k) 0); [simplify_eq; simpl; lia|].
  destruct (Z.leb_spec (comparenk td x k) 0).
  - apply IHr in H; auto. simpl length in H. lia.
  - apply IHl in H; auto. simpl length in H. lia.
Qed.

Lemma lookup_path_bal td t k p n p' :
  bal t -> lookup_path td t k p = (n, p') -> bal n.
Proof.
  revert p. induction t as [|h l IHl x a r IHr]; intros p Hb H; cbn [lookup_path] in H;
    [by simplify_eq|]. pose proof Hb as (Hl & Hr & _).
  destruct (_ =? _); [by simplify_eq|]. destruct (_ <=? _); eauto.
Qed.

Lemma descend_to_leaf_length td t k p :
  bal t -> Z.of_nat (length (descend_to_leaf td t k p)) <= Z.of_nat (length p) + node_height t.
Proof.
  revert p. induction t as [|h l IHl x a r IHr]; intros p Hb; cbn [descend_to_leaf];
    [simpl; lia|]. destruct Hb as (Hl & Hr & -> & Hd). cbn [node_height].
  destruct (Z.leb_spec (comparenk td x k) 0).
  - pose proof (IHr (Frame true (1 + Z.max (node_height l) (node_height r)) x a l :: p) Hr) as H1.
    simpl length in H1. lia.
  - pose proof (IHl (Frame false (1 + Z.max (node_height l) (node_height r)) x a r :: p) Hl) as H1.
    simpl length in H1. lia.
Qed.

Lemma push_left_length t todo :
  bal t -> Z.of_nat (length (push_left t todo)) <= Z.of_nat (length todo) + node_height t.
Proof.
  revert todo. induction t as [|h l IHl x a r _]; intros todo Hb; cbn [push_left]; [simpl; lia|].
  destruct Hb as (Hl & Hr & -> & Hd). cbn [node_height].
  pose proof (IHl (Node (1 + Z.max (node_height l) (node_height r)) l x a r :: todo) Hl) as H1.
  simpl length in H1. lia.
Qed.
End Walk.
