(* ===== verification/AvlProps.v ===== *)
(** * The properties of [ut_avl.c]

    The augmentation invariant, the instance that gives the clients their
    ordered trees, and the theorems about the library with their witnesses. *)

From Stdlib Require Import ZArith Lia Sorting.Sorted.
From stdpp Require Import prelude.
From S2P Require Import Prelude OrdTree Avl AvlFacts AvlSearch AvlWalk.

(** ** Augmentation *)

Section Augment.
Context {K E A : Type} (td : treedef K E A)
        (f : E -> option (E * A) -> option (E * A) -> A)
        (Hf : td_augment td = Some f).
Implicit Types (t : tree E A) (p : list (@frame E A)).

(** Every summary is the callback applied to the node and its children. *)
Fixpoint aug_ok t : Prop :=
  match t with
  | Nil => True
  | Node _ l x a r =>
      aug_ok l /\ aug_ok r /\ a = f x (onode_from_node l) (onode_from_node r)
  end.

Lemma aug_ok_augment h l x a r :
  aug_ok l -> aug_ok r -> aug_ok (augment td (Node h l x a r)).
Proof. unfold augment. rewrite Hf. simpl. auto. Qed.

Lemma rotate_single_aug h l x a r dir t' :
  aug_ok l -> aug_ok r ->
  rotate_single td (Node h l x a r) dir = Some t' -> aug_ok t'.
Proof.
  intros Hl Hr. unfold rotate_single. destruct dir; simpl.
  - destruct l as [|hl ll lx la lr]; [done|]. destruct Hl as (? & ? & ?).
    intros [= <-]. apply aug_ok_augment; auto. by apply aug_ok_augment.
  - destruct r as [|hr rl rx ra rr]; [done|]. destruct Hr as (? & ? & ?).
    intros [= <-]. apply aug_ok_augment; auto. by apply aug_ok_augment.
Qed.

Lemma rotate_double_aug h l x a r dir t' :
  aug_ok l -> aug_ok r ->
  rotate_double td (Node h l x a r) dir = Some t' -> aug_ok t'.
Proof.
  intros Hl Hr. unfold rotate_double. destruct dir; simpl.
  - destruct l as [|hl ll lx la lr]; [done|]. destruct Hl as (? & Hlr & ?).
    destruct lr as [|hm ml mx ma mr]; [done|]. destruct Hlr as (? & ? & ?).
    intros [= <-]. apply aug_ok_augment; by apply aug_ok_augment.
  - destruct r as [|hr rl rx ra rr]; [done|]. destruct Hr as (Hrl & ? & ?).
    destruct rl as [|hm ml mx ma mr]; [done|]. destruct Hrl as (? & ? & ?).
    intros [= <-]. apply aug_ok_augment; by apply aug_ok_augment.
Qed.

Lemma rotate_aug h l x a r dir t' :
  aug_ok l -> aug_ok r -> rotate td (Node h l x a r) dir = Some t' -> aug_ok t'.
Proof.
  intros Hl Hr. unfold rotate.
  destruct (_ <? _); [by apply rotate_double_aug | by apply rotate_single_aug].
Qed.

(** With a callback the walk to the root never stops early. *)
Lemma rebalance_one_aug h l x a r t' c :
  aug_ok l -> aug_ok r -> rebalance_one td (Node h l x a r) = Some (t', c) ->
  aug_ok t' /\ c = true.
Proof.
  intros Hl Hr. unfold rebalance_one. rewrite Hf.
  destruct (_ >? _); [|destruct (_ <? _ - 1)].
  - destruct (rotate td _ true) as [t1|] eqn:Er; [|done]. intros [= <- <-].
    split; [|done]. by eapply rotate_aug in Er.
  - destruct (rotate td _ false) as [t1|] eqn:Er; [|done]. intros [= <- <-].
    split; [|done]. by eapply rotate_aug in Er.
  - intros [= <- <-]. split; [|done]. by apply aug_ok_augment.
Qed.

Definition aug_ctx p : Prop := Forall (fun fr => aug_ok (fr_other fr)) p.

Lemma rebalance_path_aug p fr t t' :
  aug_ok t -> aug_ctx (fr :: p) -> rebalance_path td p (plug fr t) = Some t' -> aug_ok t'.
Proof.
  revert fr t. induction p as [|g p IH]; intros fr t Ht Hp H;
    apply Forall_cons in Hp as [Hfr Hp]; destruct fr as [dir h x a o]; simpl in Hfr;
    assert (Hm : plug (Frame dir h x a o) t =
            Node h (if dir then o else t) x a (if dir then t else o)) by (by destruct dir);
    rewrite Hm in H; cbn [rebalance_path] in H;
    destruct (rebalance_one td _) as [[t1 c]|] eqn:Er; simpl in H; try done;
    apply rebalance_one_aug in Er as [Er ->]; try (by destruct dir).
  - by simplify_eq.
  - by eapply IH in H.
Qed.

Lemma lookup_path_aug t k p n p' :
  aug_ok t -> aug_ctx p -> lookup_path td t k p = (n, p') -> aug_ok n /\ aug_ctx p'.
Proof.
  revert p. induction t as [|h l IHl x a r IHr]; intros p Ht Hp H; cbn [lookup_path] in H;
    [by simplify_eq|]. pose proof Ht as (Hl & Hr & _).
  destruct (_ =? _); [by simplify_eq|]. destruct (_ <=? _).
  - apply IHr in H; auto. by constructor.
  - apply IHl in H; auto. by constructor.
Qed.

Lemma descend_to_leaf_aug t k p : aug_ok t -> aug_ctx p -> aug_ctx (descend_to_leaf td t k p).
Proof.
  revert p. induction t as [|h l IHl x a r IHr]; intros p Ht Hp; cbn [descend_to_leaf]; [done|].
  destruct Ht as (Hl & Hr & _).
  destruct (_ <=? _); [apply IHr | apply IHl]; auto; by constructor.
Qed.

Lemma insert_aug t x a t' : aug_ok t -> ut_avlInsert td t (x, a) = Some t' -> aug_ok t'.
Proof.
  intros Ht. unfold ut_avlInsert, ut_avlLookupIPath. simpl.
  destruct (lookup_path td t (td_key td x) []) as [n p] eqn:El.
  apply lookup_path_aug in El as [Hn Hp]; auto; [|by constructor].
  assert (Hins : forall q, aug_ctx q -> ut_avlInsertIPath td (x, a) (Some q) = Some t' -> aug_ok t').
  { intros q Hq. simpl. assert (Hx : aug_ok (augment td (Node 1 Nil x a Nil)))
      by (by apply aug_ok_augment).
    destruct q as [|fr q]; simpl; [by intros [= <-]|]. by apply rebalance_path_aug. }
  destruct n as [|h l y b r]; [by apply Hins|].
  destruct (td_allowdups td); [|done]. apply Hins. by apply descend_to_leaf_aug.
Qed.

Lemma augment_whence_aug p t t' :
  aug_ok t -> aug_ctx p -> augment_whence td p t = Some t' -> aug_ok t'.
Proof.
  intros Ht Hp. destruct p as [|fr p]; simpl; [by intros [= <-]|].
  destruct (augment_plug td fr t) as [a ->]. apply Forall_cons in Hp as [H1 H2].
  apply rebalance_path_aug; [done|by constructor].
Qed.

Lemma find_subst_aug h l x a r q0 sl s q :
  aug_ok l -> aug_ok r -> aug_ctx q0 ->
  find_subst h l x a r q0 = (sl, s, q) -> aug_ok sl /\ aug_ctx q.
Proof.
  revert h l x a q0. induction r as [|h' l' _ x' a' r' IHr]; intros h l x a q0 Hl Hr Hq H;
    cbn [find_subst] in H; [by simplify_eq|]. destruct Hr as (? & ? & ?).
  apply IHr in H; auto. by constructor.
Qed.

Lemma delete_aug t k t' : aug_ok t -> ut_avlDelete td t k = Some t' -> aug_ok t'.
Proof.
  intros Ht. unfold ut_avlDelete. destruct (lookup_path td t k []) as [n p] eqn:El.
  apply lookup_path_aug in El as [Hn Hp]; auto; [|by constructor].
  destruct n as [|h l x a r]; [done|]. destruct Hn as (Hl & Hr & _). simpl.
  destruct l as [|hl ll lx la lr]; [by apply augment_whence_aug|].
  destruct r as [|hr rl rx ra rr]; [by apply augment_whence_aug|].
  destruct (find_subst hl ll lx la lr []) as [[sl s] q] eqn:Ef. destruct Hl as (? & ? & ?).
  apply find_subst_aug in Ef as [? ?]; auto; [|by constructor].
  apply augment_whence_aug; auto. apply Forall_app. split; [done|]. by constructor.
Qed.
End Augment.

(** ** The ordered trees the clients use *)

Definition compare_int64 (a b : Z) : Z := if a =? b then 0 else if a <? b then -1 else 1.

#[global] Instance compare_int64_laws : CmpLaws compare_int64.
Proof. split; unfold compare_int64; intros; zcases. Qed.

(** [UT_AVL_TREEDEF_INITIALIZER]: an integer key, no augmentation. *)
Definition int_treedef {E : Type} (key : E -> Z) : treedef Z E unit :=
  Treedef key compare_int64 None false.

Definition AvlTree (E : Type) : Type := tree E unit.

#[global] Instance avl_ordtree : OrdTree AvlTree := {|
  ot_elements := fun E t => elements t;
  ot_wf := fun E key t => avl_ok (int_treedef key) t;
  ot_init := fun E => ut_avlInit;
  ot_lookup := fun E key t k => elt (ut_avlLookup (int_treedef key) t k);
  ot_lookup_predeq := fun E key t k => elt (ut_avlLookupPredEq (int_treedef key) t k);
  ot_lookup_succeq := fun E key t k => elt (ut_avlLookupSuccEq (int_treedef key) t k);
  ot_find_min := fun E t => elt (ut_avlFindMin t);
  ot_find_max := fun E t => elt (ut_avlFindMax t);
  ot_find_succ := fun E key t k => elt (ut_avlFindSucc (int_treedef key) t (Some k));
  ot_find_pred := fun E key t k => elt (ut_avlFindPred (int_treedef key) t (Some k));
  ot_root := fun E t => elt (ut_avlRoot t);
  ot_is_empty := fun E t => ut_avlIsEmpty t;
  ot_is_singleton := fun E t => ut_avlIsSingleton t;
  ot_insert := fun E key t x => default t (ut_avlInsert (int_treedef key) t (x, tt));
  ot_delete := fun E key t k => default t (ut_avlDelete (int_treedef key) t k);
  ot_replace := fun E key t k x => default t (ut_avlSwapNode (int_treedef key) t k (x, tt));
|}.

(** The height tells a tree of one node apart. *)
Lemma is_singleton_spec {E A : Type} (t : tree E A) :
  bal t -> ut_avlIsSingleton t = match elements t with [_] => true | _ => false end.
Proof.
  destruct t as [|h l x a r]; [done|]. intros (Hl & Hr & -> & _). simpl.
  assert (Hn : forall u : tree E A, bal u -> node_height u = 0 /\ elements u = [] \/
                 0 < node_height u /\ elements u <> []).
  { intros [|h' l' x' a' r']; [by left|]. right. split.
    - destruct H as (H1 & H2 & -> & _). apply bal_height_nonneg in H1, H2. simpl. lia.
    - simpl. by destruct (elements l'). }
  destruct (Hn l Hl) as [[-> ->]|[H1 H2]], (Hn r Hr) as [[-> ->]|[H3 H4]]; simpl; [done|..].
  - destruct (elements r); [done|]. apply Z.eqb_neq. lia.
  - destruct (elements l) as [|? [|]]; [done|..]; apply Z.eqb_neq; lia.
  - destruct (elements l) as [|? [|]]; [done|..]; apply Z.eqb_neq; lia.
Qed.

Section Instance_.
Context {E : Type} (key : E -> Z).
Abbreviation td := (int_treedef key).

Lemma ck_int x k : comparenk td x k = compare_int64 (key x) k.
Proof. done. Qed.

Lemma ck_int_lt x k : comparenk td x k < 0 <-> key x < k.
Proof. rewrite ck_int. unfold compare_int64. zcases. Qed.
Lemma ck_int_gt x k : 0 < comparenk td x k <-> k < key x.
Proof. rewrite ck_int. unfold compare_int64. zcases. Qed.
Lemma ck_int_eq x k : comparenk td x k = 0 <-> key x = k.
Proof. rewrite ck_int. unfold compare_int64. zcases. Qed.

Lemma td_sorted_int l : td_sorted td l <-> sorted key l.
Proof.
  unfold td_sorted, sorted, key_lt. simpl.
  assert (H : forall a b, key_less td a b <-> key a < key b) by (intros; apply ck_int_lt).
  split; induction 1; constructor; auto; (eapply Forall_impl; [eassumption|]); simpl;
    intros; by apply H.
Qed.

Lemma at_loc_elt t n x :
  at_loc t n x -> elt (@onode_from_loc E unit (Some n)) = Some x.
Proof. apply at_loc_onode. Qed.

Lemma avl_lookup_int t k :
  avl_ok td t -> elt (ut_avlLookup td t k) = l_lookup key k (elements t).
Proof.
  intros Hok. unfold ut_avlLookup. rewrite <- (lookup_path_node td t k []).
  destruct (lookup_path td t k []) as [n p] eqn:El. simpl.
  pose proof (avl_ok_wsorted _ _ Hok) as Hw. destruct Hok as [_ Hs].
  apply td_sorted_int in Hs.
  apply lookup_path_root in El as ([Hc1 Hc2] & <- & Hn); [|exact _|done].
  rewrite elements_zip in *. destruct n as [|h l x a r]; simpl.
  - symmetry. apply l_lookup_None. apply Forall_app. split.
    + eapply Forall_impl; [exact Hc1|]. intros y Hy%ck_int_lt. lia.
    + eapply Forall_impl; [exact Hc2|]. intros y Hy%ck_int_gt. lia.
  - apply ck_int_eq in Hn as <-. simpl in Hs. rewrite <- app_assoc in *. simpl in *.
    rewrite app_assoc in *. symmetry. by apply l_lookup_mid.
Qed.

Lemma avl_predeq_int t k :
  avl_ok td t -> elt (ut_avlLookupPredEq td t k) = l_predeq key k (elements t).
Proof.
  intros Hok. unfold ut_avlLookupPredEq.
  pose proof (lookup_predeq_correct td t k Hok) as H. destruct Hok as [_ Hs].
  apply td_sorted_int in Hs. destruct (lookup_predeq td t k) as [n|].
  - destruct H as (x & Hx & Hk & Ha). rewrite (at_loc_elt t n x Hx).
    pose proof (at_loc_elements _ _ _ Hx) as He. rewrite He in *. symmetry.
    apply l_predeq_mid; auto.
    + destruct (Z.le_gt_cases (key x) k) as [|Hgt]; [done|]. apply ck_int_gt in Hgt. lia.
    + eapply Forall_impl; [exact Ha|]. intros y Hy. by apply ck_int_gt.
  - simpl. symmetry. destruct (elements t) as [|y l]; [done|].
    apply Forall_cons in H as [H _]. apply ck_int_gt in H. simpl. zcases. done.
Qed.

Lemma avl_succeq_int t k :
  avl_ok td t -> elt (ut_avlLookupSuccEq td t k) = l_succeq key k (elements t).
Proof.
  intros Hok. unfold ut_avlLookupSuccEq.
  pose proof (lookup_succeq_correct td t k Hok) as H.
  destruct (lookup_succeq td t k) as [n|].
  - destruct H as (x & Hx & Hk & Ha). rewrite (at_loc_elt t n x Hx).
    pose proof (at_loc_elements _ _ _ Hx) as He. rewrite He in *. clear He Hx.
    induction (before n) as [|y l IH]; simpl.
    + assert (k <= key x) by (destruct (Z.le_gt_cases k (key x)) as [|Hgt]; [done|];
        apply ck_int_lt in Hgt; lia). zcases. done.
    + apply Forall_cons in Ha as [Hy Ha]. apply ck_int_lt in Hy. zcases. auto.
  - simpl. symmetry. induction (elements t) as [|y l IH]; [done|].
    apply Forall_cons in H as [Hy H]. apply ck_int_lt in Hy. simpl. zcases. auto.
Qed.

Lemma lookup_path_at t l1 x l2 :
  avl_ok td t -> elements t = l1 ++ x :: l2 ->
  at_loc t (lookup_path td t (key x) []) x /\
  before (lookup_path td t (key x) []) = l1 /\ after (lookup_path td t (key x) []) = l2.
Proof.
  intros Hok He. destruct (lookup_path td t (key x) []) as [n p] eqn:El.
  pose proof (avl_ok_wsorted _ _ Hok) as Hw. destruct Hok as [_ Hs].
  apply lookup_path_root in El as ([Hc1 Hc2] & Hz & Hn); [|exact _|done].
  destruct n as [|h l y a r].
  - exfalso. assert (Hx : x ∈ lctx p ++ rctx p).
    { rewrite <- Hz, elements_zip in He. simpl in He. rewrite He. set_solver. }
    apply elem_of_app in Hx as [Hx|Hx].
    + rewrite Forall_forall in Hc1. apply Hc1 in Hx. apply ck_int_lt in Hx. lia.
    + rewrite Forall_forall in Hc2. apply Hc2 in Hx. apply ck_int_gt in Hx. lia.
  - apply ck_int_eq in Hn. apply td_sorted_int in Hs.
    assert (Hloc : at_loc t (Node h l y a r, p) y) by (split; [done|by repeat eexists]).
    pose proof (at_loc_elements _ _ _ Hloc) as He2.
    assert (Hxy : Some x = Some y).
    { rewrite <- (l_lookup_mid key l1 x l2) by (by rewrite <- He).
      rewrite <- Hn, <- (l_lookup_mid key (before (Node h l y a r, p)) y (after (Node h l y a r, p)))
        by (by rewrite <- He2). by rewrite <- He, <- He2. }
    injection Hxy as <-. split; [done|].
    rewrite He in He2, Hs. by apply (sorted_mid_unique key x).
Qed.
End Instance_.

#[global] Instance avl_ordtree_laws : OrdTreeLaws AvlTree.
Proof.
  split; cbn [ot_elements ot_wf ot_init ot_lookup ot_lookup_predeq ot_lookup_succeq
              ot_find_min ot_find_max ot_find_succ ot_find_pred ot_root ot_is_empty ot_is_singleton
              ot_insert ot_delete ot_replace avl_ordtree].
  - intros E key t [_ H]. by apply td_sorted_int.
  - intros E key. split; [done|]. constructor.
  - done.
  - intros E key t k. apply avl_lookup_int.
  - intros E key t k. apply avl_predeq_int.
  - intros E key t k. apply avl_succeq_int.
  - intros E t. apply find_min_spec.
  - intros E t. apply find_max_spec.
  - intros E key t l1 x l2 Hok He. unfold ut_avlFindSucc.
    destruct (lookup_path_at key t l1 x l2 Hok He) as (H1 & _ & H2).
    pose proof (find_neighbour_spec t _ x true H1) as Hn.
    destruct (find_neighbour _ true) as [n'|]; [|by rewrite <- H2, Hn].
    destruct Hn as (y & Hy & _ & Hn). rewrite <- H2, <- Hn. by apply (at_loc_elt t).
  - intros E key t l1 x l2 Hok He. unfold ut_avlFindPred.
    destruct (lookup_path_at key t l1 x l2 Hok He) as (H1 & H2 & _).
    pose proof (find_neighbour_spec t _ x false H1) as Hn.
    destruct (find_neighbour _ false) as [n'|]; [|by rewrite <- H2, Hn].
    destruct Hn as (y & Hy & Hn & _). rewrite <- H2, <- Hn, last_snoc. by apply (at_loc_elt t).
  - intros E t. destruct t as [|h l x a r]; simpl; [done|]. set_solver.
  - intros E t. destruct t as [|h l x a r]; simpl; [done|]. by destruct (elements l).
  - intros E key t [Hb _]. by apply is_singleton_spec.
  - intros E key t x Hok Hn. pose proof (insert_correct (int_treedef key) t x tt Hok) as H.
    destruct (ut_avlInsert _ t (x, tt)) as [t'|]; simpl.
    + destruct H as (Hok' & l1 & l2 & -> & -> & H1 & H2). split; [done|]. symmetry.
      apply l_insert_mid.
      * eapply Forall_impl; [exact H1|]. intros y Hy. by apply ck_int_lt.
      * eapply Forall_impl; [exact H2|]. intros y Hy. by apply ck_int_gt.
    + destruct H as (_ & y & Hy & He). rewrite Forall_forall in Hn.
      exfalso. exact (Hn y Hy (proj1 (ck_int_eq key y (key x)) He)).
  - intros E key t k Hok. pose proof (delete_correct (int_treedef key) t k Hok) as H.
    destruct (ut_avlDelete _ t k) as [t'|]; simpl.
    + destruct H as (Hok' & l1 & x & l2 & He & Hx & He'). split; [done|].
      destruct Hok as [_ Hs]. apply td_sorted_int in Hs. rewrite He, He' in *.
      apply ck_int_eq in Hx as <-. by rewrite l_delete_mid.
    + split; [done|]. rewrite l_delete_notin; [done|].
      eapply Forall_impl; [exact H|]. intros y Hy He. apply Hy. by apply ck_int_eq.
  - intros E key t l1 x y l2 Hok He Hs'.
    destruct (lookup_path_at key t l1 x l2 Hok He) as (H1 & H2 & H3).
    unfold ut_avlSwapNode. destruct (lookup_path _ t (key x) []) as [n p].
    destruct H1 as [Hz (h & l & a & r & Hn)]. simpl in Hz, Hn. subst n. simpl default.
    destruct Hok as [Hb _]. unfold before, after in H2, H3. simpl in H2, H3.
    assert (He' : elements (zip p (Node h l y tt r)) = l1 ++ y :: l2).
    { rewrite elements_zip. simpl. rewrite <- H2, <- H3. by rewrite <- !app_assoc. }
    split; [|done]. split.
    + rewrite <- Hz in Hb. rewrite bal_zip in Hb. by rewrite bal_zip.
    + apply td_sorted_int. refine (eq_ind_r (sorted key) Hs' He').
Qed.

(** ** The theorems *)

Section Claims.
Context {K E A : Type} (td : treedef K E A) `{!CmpLaws (td_cmp td)}.
Implicit Types (t : tree E A) (k : K) (x : E) (a : A).

(** Counting trees: the count is the number of nodes, and the assertion of
    the delete operations holds whenever there is a node to delete. *)
Definition ctree_ok (c : @ctree E A) : Prop :=
  avl_ok td (ct_t c) /\ ct_count c = Z.of_nat (length (elements (ct_t c))).

Lemma ctree_insert_ok c x a c' :
  ctree_ok c -> ct_count c < 2 ^ 64 - 1 -> ut_avlCInsert td c (x, a) = Some c' ->
  ctree_ok c' /\ ut_avlCCount c' = ut_avlCCount c + 1.
Proof.
  intros (Hok & Hn) Hb H. unfold ut_avlCInsert in H. pose proof (insert_correct td (ct_t c) x a Hok) as Hi.
  destruct (ut_avlInsert td (ct_t c) (x, a)) as [t'|]; [|done]. simplify_eq/=.
  destruct Hi as (Hok' & l1 & l2 & He & He' & _). unfold ctree_ok. simpl. rewrite He' in *.
  rewrite He, length_app in Hn. rewrite length_app. simpl. unfold wrap_u. rewrite Z.mod_small; [|lia]. split; [split|]; lia || done.
Qed.

Lemma ctree_delete_ok c k :
  ctree_ok c -> ct_count c < 2 ^ 64 ->
  match ut_avlCDelete td c k with
  | Some c' => ctree_ok c' /\ ut_avlCCount c' = ut_avlCCount c - 1
  | None => Forall (fun y => comparenk td y k <> 0) (elements (ct_t c))
  end.
Proof.
  intros (Hok & Hn) Hb. unfold ut_avlCDelete. pose proof (delete_correct td (ct_t c) k Hok) as Hd.
  rewrite Z.gtb_ltb. destruct (Z.ltb_spec 0 (ct_count c)) as [Hpos|Hpos].
  - destruct (ut_avlDelete td (ct_t c) k) as [t'|]; [|done]. simpl.
    destruct Hd as (Hok' & l1 & x & l2 & He & _ & He'). unfold ctree_ok. simpl. rewrite He' in *.
    rewrite He, length_app in Hn. simpl in Hn. rewrite length_app. unfold wrap_u.
    rewrite Z.mod_small by lia. split; [split|]; lia || done.
  - destruct (elements (ct_t c)); [constructor|]. simpl in Hn. lia.
Qed.

(** [ut_avlInsert] keeps the tree a height-balanced search tree and adds
    the node at its place in the order; with ALLOWDUPS a duplicate goes
    after the nodes with the same key.  It fails (the assertion on the
    invalidated path) exactly when a tree without ALLOWDUPS already holds
    the key. *)
Theorem avl_insert_ok t x a :
  avl_ok td t ->
  match ut_avlInsert td t (x, a) with
  | Some t' =>
      avl_ok td t' /\ exists l1 l2, elements t = l1 ++ l2 /\ elements t' = l1 ++ x :: l2 /\
        Forall (fun y => if td_allowdups td then comparenk td y (td_key td x) <= 0
                         else comparenk td y (td_key td x) < 0) l1 /\
        Forall (fun y => 0 < comparenk td y (td_key td x)) l2
  | None =>
      td_allowdups td = false /\
      exists y, y ∈ elements t /\ comparenk td y (td_key td x) = 0
  end.
Proof. apply insert_correct; done. Qed.

(** [ut_avlDelete] keeps the tree a height-balanced search tree and
    removes exactly one node, one with the given key; it finds one whenever
    the tree holds one. *)
Theorem avl_delete_ok t k :
  avl_ok td t ->
  match ut_avlDelete td t k with
  | Some t' =>
      avl_ok td t' /\ exists l1 x l2, elements t = l1 ++ x :: l2 /\
        comparenk td x k = 0 /\ elements t' = l1 ++ l2
  | None => Forall (fun y => comparenk td y k <> 0) (elements t)
  end.
Proof. apply delete_correct; done. Qed.

(** The inexact searches return the closest node: everything after the
    result of [lookup_predeq] ([lookup_pred]) is beyond the key, everything
    before the result of [lookup_succeq] ([lookup_succ]) is below it, also
    in the presence of duplicate keys, and a null result means there is no
    such node. *)
Theorem avl_inexact_lookups t k :
  avl_ok td t ->
  match lookup_predeq td t k with
  | None => Forall (fun y => 0 < comparenk td y k) (elements t)
  | Some n => exists x, at_loc t n x /\ comparenk td x k <= 0 /\
                        Forall (fun y => 0 < comparenk td y k) (after n)
  end /\
  match lookup_succeq td t k with
  | None => Forall (fun y => comparenk td y k < 0) (elements t)
  | Some n => exists x, at_loc t n x /\ 0 <= comparenk td x k /\
                        Forall (fun y => comparenk td y k < 0) (before n)
  end /\
  match lookup_pred td t k with
  | None => Forall (fun y => 0 <= comparenk td y k) (elements t)
  | Some n => exists x, at_loc t n x /\ comparenk td x k < 0 /\
                        Forall (fun y => 0 <= comparenk td y k) (after n)
  end /\
  match lookup_succ td t k with
  | None => Forall (fun y => comparenk td y k <= 0) (elements t)
  | Some n => exists x, at_loc t n x /\ 0 < comparenk td x k /\
                        Forall (fun y => comparenk td y k <= 0) (before n)
  end.
Proof.
  intros Hok. repeat split; [apply lookup_predeq_correct | apply lookup_succeq_correct
    | apply lookup_pred_correct | apply lookup_succ_correct]; done.
Qed.

(** Iterating visits every node from the starting point on exactly once,
    in order: all of them for [ut_avlIterFirst] and [ut_avlWalk], those with
    a key at least (beyond) the given one for [ut_avlIterSuccEq]
    ([ut_avlIterSucc]); [ut_avlFree] hands every node to [freefun] once. *)
Theorem avl_iteration t k :
  avl_ok td t ->
  iter_collect (length (elements t)) (ut_avlIterFirst t) = Some (elements t) /\
  ut_avlWalk t = Some (elements t) /\
  (ut_avlFree t true).2 ≡ₚ elements t /\
  (exists l1 l2, elements t = l1 ++ l2 /\
    Forall (fun y => comparenk td y k < 0) l1 /\
    Forall (fun y => 0 <= comparenk td y k) l2 /\
    iter_collect (length l2) (ut_avlIterSuccEq td t k) = Some l2) /\
  (exists l1 l2, elements t = l1 ++ l2 /\
    Forall (fun y => comparenk td y k <= 0) l1 /\
    Forall (fun y => 0 < comparenk td y k) l2 /\
    iter_collect (length l2) (ut_avlIterSucc td t k) = Some l2).
Proof.
  intros Hok. split; [apply iter_first_spec|]. split; [apply walk_spec|].
  split; [apply treedestroy_perm|].
  split; [by apply iter_succeq_correct | by apply iter_succ_correct].
Qed.

(** [ut_avlWalkRange] calls the function on exactly the nodes with a key
    in [min, max], in order; [ut_avlWalkRangeReverse] on the same nodes in
    reverse order. *)
Theorem avl_walk_range t min max :
  avl_ok td t ->
  (exists l1 l2 l3, elements t = l1 ++ l2 ++ l3 /\
    Forall (fun y => comparenk td y min < 0) l1 /\
    Forall (fun y => 0 <= comparenk td y min /\ comparenk td y max <= 0) l2 /\
    Forall (fun y => 0 <= comparenk td y min /\ 0 < comparenk td y max) l3 /\
    ut_avlWalkRange td t min max = Some l2) /\
  (exists l1 l2 l3, elements t = l1 ++ reverse l2 ++ l3 /\
    Forall (fun y => comparenk td y max <= 0 /\ comparenk td y min < 0) l1 /\
    Forall (fun y => comparenk td y max <= 0 /\ 0 <= comparenk td y min) l2 /\
    Forall (fun y => 0 < comparenk td y max) l3 /\
    ut_avlWalkRangeReverse td t min max = Some l2).
Proof.
  intros Hok. split; [by apply walk_range_correct | by apply walk_range_reverse_correct].
Qed.

(** No tree that fits in a 64-bit address space overruns the arrays of
    size [UT_AVL_MAX_TREEHEIGHT] in [ut_avlPath_t] and [ut_avlIter_t]: the
    paths that the lookups for insertion and deletion record and the stack
    an iteration starts with stay below it. *)
Theorem avl_stacks_fit t k :
  avl_ok td t -> Z.of_nat (length (elements t)) < 2 ^ 64 ->
  node_height t < UT_AVL_MAX_TREEHEIGHT /\
  Z.of_nat (length (lookup_path td t k []).2) < UT_AVL_MAX_TREEHEIGHT /\
  Z.of_nat (length (default [] (ut_avlLookupIPath td t k).2)) < UT_AVL_MAX_TREEHEIGHT /\
  Z.of_nat (length (push_left t [])) < UT_AVL_MAX_TREEHEIGHT.
Proof.
  intros [Hb _] Hs. rewrite <- size_elements in Hs.
  pose proof (bal_height_bound t Hb Hs) as Hh. pose proof (push_left_length t [] Hb) as Hp.
  unfold ut_avlLookupIPath. destruct (lookup_path td t k []) as [n p] eqn:El.
  pose proof (lookup_path_length td t k [] n p Hb El) as Hl.
  pose proof (lookup_path_bal td t k [] n p Hb El) as Hn.
  pose proof (bal_height_nonneg n Hn). change UT_AVL_MAX_TREEHEIGHT with 96. simpl length in *. simpl snd.
  repeat split; try lia.
  destruct n as [|h l x a r] eqn:En; [simpl in *; lia|]. rewrite <- En in *.
  destruct (td_allowdups td); cbn [default]; [|simpl; lia].
  pose proof (descend_to_leaf_length td n k p Hn). unfold id. lia.
Qed.

(** With an [augment] callback, insertion and deletion leave every node's
    summary equal to the callback applied to the node and its children. *)
Theorem avl_augment_ok f t x a k :
  td_augment td = Some f -> aug_ok f t ->
  (forall t', ut_avlInsert td t (x, a) = Some t' -> aug_ok f t') /\
  (forall t', ut_avlDelete td t k = Some t' -> aug_ok f t').
Proof.
  intros Hf Ht. split; intros t' H; [by eapply insert_aug in H | by eapply delete_aug in H].
Qed.
End Claims.

(** C30: the AVL trees implement the ordered-tree interface: on trees with an
    integer key and no duplicates every operation the clients use equals the
    reference operation on the in-order list of nodes. *)
Theorem avl_refines_ordtree : OrdTreeLaws AvlTree.
Proof. exact avl_ordtree_laws. Qed.

(** ** Witnesses *)

Definition demo_td (dups : bool) : treedef Z Z Z :=
  Treedef (fun x => x) compare_int64
    (Some (fun x l r => x + match l with Some (_, s) => s | None => 0 end
                          + match r with Some (_, s) => s | None => 0 end)) dups.

Definition demo : tree Z Z :=
  Node 2 (Node 1 Nil 10 10 Nil) 20 60 (Node 1 Nil 30 30 Nil).

Lemma demo_ok dups : avl_ok (demo_td dups) demo.
Proof.
  split; [simpl; lia|]. unfold td_sorted. destruct dups; simpl;
  repeat constructor; vm_compute; done.
Qed.

Lemma avl_insert_ok_witness :
  exists t', ut_avlInsert (demo_td true) demo (20, 0) = Some t' /\
             avl_ok (demo_td true) t' /\ elements t' = [10; 20; 20; 30].
Proof.
  pose proof (avl_insert_ok (demo_td true) demo 20 0 (demo_ok true)) as H.
  vm_compute in H. eexists. split; [vm_compute; reflexivity|].
  destruct H as [H _]. split; [exact H | reflexivity].
Defined.

Lemma avl_delete_ok_witness :
  exists t', ut_avlDelete (demo_td false) demo 20 = Some t' /\
             avl_ok (demo_td false) t' /\ elements t' = [10; 30].
Proof.
  pose proof (avl_delete_ok (demo_td false) demo 20 (demo_ok false)) as H.
  vm_compute in H. eexists. split; [vm_compute; reflexivity|].
  destruct H as [H _]. split; [exact H | reflexivity].
Defined.

Lemma avl_inexact_lookups_witness :
  exists n x, lookup_predeq (demo_td true) demo 25 = Some n /\ at_loc demo n x /\
              comparenk (demo_td true) x 25 <= 0.
Proof.
  destruct (avl_inexact_lookups (demo_td true) demo 25 (demo_ok true)) as [H _].
  destruct (lookup_predeq (demo_td true) demo 25) as [n|] eqn:El; [|vm_compute in El; discriminate].
  destruct H as (x & H1 & H2 & _). exists n, x. split; [reflexivity|]. split; assumption.
Defined.

Lemma avl_iteration_witness :
  ut_avlWalk demo = Some [10; 20; 30] /\ (ut_avlFree demo true).2 ≡ₚ elements demo.
Proof.
  destruct (avl_iteration (demo_td true) demo 20 (demo_ok true)) as (_ & H1 & H2 & _).
  split; assumption.
Defined.

Lemma avl_walk_range_witness :
  exists l, ut_avlWalkRange (demo_td true) demo 15 40 = Some l /\ l = [20; 30].
Proof.
  destruct (avl_walk_range (demo_td true) demo 15 40 (demo_ok true)) as [(_ & l & _ & _ & _ & _ & _ & H) _].
  exists l. split; [exact H|]. vm_compute in H. congruence.
Defined.

Lemma avl_stacks_fit_witness : node_height demo < UT_AVL_MAX_TREEHEIGHT.
Proof.
  apply (avl_stacks_fit (demo_td true) demo 20 (demo_ok true)). vm_compute. reflexivity.
Defined.

Lemma avl_augment_ok_witness :
  exists t', ut_avlInsert (demo_td true) demo (25, 0) = Some t' /\
    aug_ok (fun x l r => x + match l with Some (_, s) => s | None => 0 end
                           + match r with Some (_, s) => s | None => 0 end) t'.
Proof.
  eexists. split; [vm_compute; reflexivity|].
  refine (proj1 (avl_augment_ok (demo_td true) _ demo 25 0 20 eq_refl _) _ _);
    vm_compute; repeat split.
Defined.
