(* ===== verification/Fibheap.v ===== *)
(** * Fibonacci heaps

    The operations of [utilities/code/ut_fibheap.c].  A node is embedded in a
    structure of the user and is known by the identity of that structure; the
    comparison function of [ut_fibheapDef_t] looks at the contents the
    structures have at the time of the call, so it is an argument of the
    operations.  A node is a tree with its children; a circular list is a list
    that starts at the node the pointer to it points at.  Parent pointers are
    zippers.  The class [PrioHeap] says what the heap promises to its users. *)

From Stdlib Require Import ZArith Lia.
From stdpp Require Import prelude.
From S2P Require Import Prelude.

(** [ut_fibheapNode_t], without the pointers that make the lists circular. *)
Inductive fnode := FNode (id : Z) (mark : bool) (degree : Z) (children : list fnode).

Definition fn_id (n : fnode) : Z := let 'FNode i _ _ _ := n in i.
Definition fn_mark (n : fnode) : bool := let 'FNode _ m _ _ := n in m.
Definition fn_degree (n : fnode) : Z := let 'FNode _ _ d _ := n in d.
Definition fn_children (n : fnode) : list fnode := let 'FNode _ _ _ cs := n in cs.
Definition set_mark (b : bool) (n : fnode) : fnode := let 'FNode i _ d cs := n in FNode i b d cs.

(** [ut_fibheap_t]: the list of the roots, that with the smallest key first. *)
Abbreviation fibheap := (list fnode).

(** The largest degree there is room for, on a platform with pointers of 64 bits. *)
Definition MAX_DEGREE : Z := 8 * 8 - 1.

(** What [ut_fibheapDef_t] has of the user: the comparison of two structures. *)
Definition fhcmp := Z -> Z -> Z.

Definition cmp (fhdef : fhcmp) (a b : fnode) : Z := fhdef (fn_id a) (fn_id b).

Definition ut_fibheapInit : fibheap := [].

Definition ut_fibheapMin (fh : fibheap) : option Z :=
  match fh with [] => None | n :: _ => Some (fn_id n) end.

(** Let the pointer to a list point at another of its nodes. *)
Definition point_at (x : Z) (l : list fnode) : option (list fnode) :=
  '(i, _) ← list_find (fun n => fn_id n = x) l;
  Some (drop i l ++ take i l).

Definition ut_fibheap_merge_nonempty_list (mark l : list fnode) : option (list fnode) :=
  match l, mark with
  | [], _ => None
  | _, [] => Some l
  | _, m :: rest => Some (m :: l ++ rest)
  end.

Definition ut_fibheap_merge_into (fhdef : fhcmp) (a : fibheap) (br : list fnode) : option fibheap :=
  match br, a with
  | [], _ => Some a
  | _, [] => Some br
  | b :: _, r :: _ =>
    let c := cmp fhdef b r in
    a' ← ut_fibheap_merge_nonempty_list a br;
    if c <? 0 then point_at (fn_id b) a' else Some a'
  end.

(** The two heaps afterwards. *)
Definition ut_fibheapMerge (fhdef : fhcmp) (a b : fibheap) : option (fibheap * fibheap) :=
  a' ← ut_fibheap_merge_into fhdef a b;
  Some (a', []).

Definition ut_fibheapInsert (fhdef : fhcmp) (fh : fibheap) (node : Z) : option fibheap :=
  ut_fibheap_merge_into fhdef fh [FNode node false 0 []].

Definition ut_fibheap_add_as_child (parent child : fnode) : option fnode :=
  let 'FNode i m d cs := parent in
  cs' ← ut_fibheap_merge_nonempty_list cs [child];
  Some (FNode i m (d + 1) cs').

(** Merge [n] with roots of equal degree until there is none. *)
Fixpoint merge_equal (fuel : nat) (fhdef : fhcmp) (roots : list (option fnode)) (n : fnode)
  : option (list (option fnode) * fnode) :=
  match fuel with
  | O => None
  | S fuel =>
    match roots !! Z.to_nat (fn_degree n) with
    | Some (Some r) =>
      let '(u, v) := if cmp fhdef r n <? 0 then (r, n) else (n, r) in
      let roots := <[Z.to_nat (fn_degree n) := None]> roots in
      n ← ut_fibheap_add_as_child u v;
      merge_equal fuel fhdef roots n
    | _ => Some (roots, n)
    end
  end.

(** One iteration over the roots: the part of [roots] that is initialised is
    the list, of length [min_degree_noninit]. *)
Definition consolidate_one (fhdef : fhcmp) (roots : list (option fnode)) (n : fnode)
  : option (list (option fnode)) :=
  '(roots, n) ← merge_equal (S (length roots)) fhdef roots n;
  if fn_degree n <=? MAX_DEGREE then
    let d := Z.to_nat (fn_degree n) in
    Some (<[d := Some n]> (roots ++ replicate (S d - length roots) None))
  else None.

Fixpoint consolidate (fhdef : fhcmp) (roots : list (option fnode)) (todo : list fnode)
  : option (list (option fnode)) :=
  match todo with
  | [] => Some roots
  | n :: todo => roots ← consolidate_one fhdef roots n; consolidate fhdef roots todo
  end.

(** The smallest root, the first in order of degree when there are several. *)
Fixpoint newmin (fhdef : fhcmp) (m : fnode) (l : list fnode) : fnode :=
  match l with
  | [] => m
  | r :: l => newmin fhdef (if cmp fhdef r m <? 0 then r else m) l
  end.

Definition relink (fhdef : fhcmp) (roots : list (option fnode)) : option fibheap :=
  match omap id roots with
  | [] => None
  | r :: l => point_at (fn_id (newmin fhdef r l)) (r :: l)
  end.

Definition ut_fibheapExtractMin (fhdef : fhcmp) (fh : fibheap) : option (fibheap * option Z) :=
  match fh with
  | [] => Some ([], None)
  | min :: rest =>
    match rest, fn_children min with
    | [], [] => Some ([], Some (fn_id min))
    | _, cs =>
      fh ← match cs with
           | [] => Some rest
           | _ => ut_fibheap_merge_nonempty_list rest (map (set_mark false) cs)
           end;
      roots ← consolidate fhdef [] fh;
      fh ← relink fhdef roots;
      Some (fh, Some (fn_id min))
    end
  end.

(** A node from which one goes down into a child, between its brothers: what
    is reached over [node->parent]. *)
Record frame := Frame {
  fr_id : Z; fr_mark : bool; fr_degree : Z;
  fr_left : list fnode; fr_right : list fnode }.

Definition plug1 (n : fnode) (f : frame) : fnode :=
  FNode (fr_id f) (fr_mark f) (fr_degree f) (fr_left f ++ n :: fr_right f).
Definition plug (n : fnode) (fs : list frame) : fnode := fold_left plug1 fs n.

(** Where a node is: itself and the frames above it. *)
Fixpoint locate (x : Z) (t : fnode) : option (fnode * list frame) :=
  match t with
  | FNode i m d cs =>
    if i =? x then Some (t, [])
    else (fix go l r :=
            match r with
            | [] => None
            | c :: r => match locate x c with
                        | Some (n, fs) => Some (n, fs ++ [Frame i m d l r])
                        | None => go (l ++ [c]) r
                        end
            end) [] cs
  end.

Fixpoint locate_root (x : Z) (l r : list fnode)
  : option (fnode * list frame * (list fnode * list fnode)) :=
  match r with
  | [] => None
  | t :: r => match locate x t with
              | Some (n, fs) => Some (n, fs, (l, r))
              | None => locate_root x (l ++ [t]) r
              end
  end.

(** The loop of [ut_fibheap_cutnode]: where it ends, and the nodes that were
    cut, the last one first, which is their order in the list of the roots. *)
Fixpoint cut_loop (n : fnode) (fs : list frame) (cuts : list fnode)
  : option (fnode * list frame * list fnode) :=
  match fs with
  | [] => Some (n, [], cuts)
  | f :: fs' =>
    if fn_mark n then
      if 0 <? fr_degree f then
        cut_loop (FNode (fr_id f) (fr_mark f) (fr_degree f - 1) (fr_left f ++ fr_right f))
          fs' (set_mark false n :: cuts)
      else None
    else Some (n, fs, cuts)
  end.

(** [lr] are the roots before and after the one the node is under. *)
Definition ut_fibheap_cutnode (n : fnode) (fs : list frame) (lr : list fnode * list fnode)
  : option fibheap :=
  '(n, fs, cuts) ← cut_loop (set_mark true n) fs [];
  let n := match fs with [] => n | _ => set_mark true n end in
  match lr.1 ++ plug n fs :: lr.2 with
  | [] => None
  | h :: tl => Some (h :: cuts ++ tl)
  end.

Definition ut_fibheapDecreaseKey (fhdef : fhcmp) (fh : fibheap) (node : Z) : option fibheap :=
  '(n, fs, lr) ← locate_root node [] fh;
  match fs with
  | f :: _ =>
    if fhdef (fr_id f) node <=? 0 then Some fh
    else
      fh ← ut_fibheap_cutnode n fs lr;
      r ← head fh;
      if fhdef node (fn_id r) <? 0 then point_at node fh else Some fh
  | [] =>
    r ← head fh;
    if fhdef node (fn_id r) <? 0 then point_at node fh else Some fh
  end.

Definition ut_fibheapDelete (fhdef : fhcmp) (fh : fibheap) (node : Z) : option fibheap :=
  '(n, fs, lr) ← locate_root node [] fh;
  fh ← match fs with [] => Some fh | _ => ut_fibheap_cutnode n fs lr end;
  fh ← point_at node fh;
  '(fh, _) ← ut_fibheapExtractMin fhdef fh;
  Some fh.

(** ** What a priority queue promises

    The elements are identities; [ph_elems] lists them, in an order that means
    nothing.  Their keys are those of the moment: [ph_ok key h] is that [h] is
    right for the keys [key]. *)

(** The comparison function orders by the keys. *)
Definition cmp_ok (key : Z -> Z) (fhdef : fhcmp) : Prop :=
  forall a b, (fhdef a b < 0 <-> key a < key b) /\ (0 < fhdef a b <-> key b < key a).

Class PrioHeap (H : Type) := {
  ph_init : H;
  ph_min : H -> option Z;
  ph_insert : fhcmp -> H -> Z -> option H;
  ph_merge : fhcmp -> H -> H -> option (H * H);
  ph_extract : fhcmp -> H -> option (H * option Z);
  ph_decrease : fhcmp -> H -> Z -> option H;
  ph_delete : fhcmp -> H -> Z -> option H;
  ph_elems : H -> list Z;
  ph_ok : (Z -> Z) -> H -> Prop }.

(** No more elements than this: a heap of fewer has no node of a degree over
    [MAX_DEGREE].  It is the 66th Fibonacci number, and as many nodes do not
    fit into 48 bits of addresses. *)
Definition HEAP_CAPACITY : Z := 27777890035288.

Definition few {H} `{PrioHeap H} (h : H) : Prop := Z.of_nat (length (ph_elems h)) < HEAP_CAPACITY.

Class PrioHeapLaws (H : Type) `{PrioHeap H} : Prop := {
  ph_init_law key : ph_ok key ph_init /\ ph_elems ph_init = [];
  ph_key_law key key' (h : H) :
    ph_ok key h -> (forall x, x ∈ ph_elems h -> key' x = key x) -> ph_ok key' h;
  ph_nodup_law key (h : H) : ph_ok key h -> NoDup (ph_elems h);
  ph_min_law key (h : H) :
    ph_ok key h ->
    match ph_min h with
    | None => ph_elems h = []
    | Some x => x ∈ ph_elems h /\ forall y, y ∈ ph_elems h -> key x <= key y
    end;
  ph_insert_law key fhdef (h : H) x :
    ph_ok key h -> cmp_ok key fhdef -> x ∉ ph_elems h ->
    exists h', ph_insert fhdef h x = Some h' /\ ph_ok key h' /\
               ph_elems h' ≡ₚ x :: ph_elems h;
  ph_merge_law key fhdef (a b : H) :
    ph_ok key a -> ph_ok key b -> cmp_ok key fhdef -> ph_elems a ## ph_elems b ->
    exists a' b', ph_merge fhdef a b = Some (a', b') /\ ph_ok key a' /\ ph_ok key b' /\
                  ph_elems a' ≡ₚ ph_elems a ++ ph_elems b /\ ph_elems b' = [];
  ph_extract_law key fhdef (h : H) :
    ph_ok key h -> cmp_ok key fhdef -> few h ->
    exists h', ph_extract fhdef h = Some (h', ph_min h) /\ ph_ok key h' /\
               ph_elems h ≡ₚ option_list (ph_min h) ++ ph_elems h';
  ph_decrease_law key key' fhdef (h : H) x :
    ph_ok key h -> cmp_ok key' fhdef -> x ∈ ph_elems h -> key' x <= key x ->
    (forall y, y ∈ ph_elems h -> y <> x -> key' y = key y) ->
    exists h', ph_decrease fhdef h x = Some h' /\ ph_ok key' h' /\ ph_elems h' ≡ₚ ph_elems h;
  ph_delete_law key fhdef (h : H) x :
    ph_ok key h -> cmp_ok key fhdef -> x ∈ ph_elems h -> few h ->
    exists h', ph_delete fhdef h x = Some h' /\ ph_ok key h' /\
               ph_elems h ≡ₚ x :: ph_elems h' }.
