(* ===== verification/FibheapProps.v ===== *)
(** * Fibonacci heaps keep their promises

    The invariant: the nodes are ordered, the degree is the number of children,
    and the children of a node have degrees that are spread out, which bounds
    the degree by the size.  Every operation keeps it, and the heaps satisfy
    [PrioHeapLaws].  The last part is about heaps whose users keep the key of an
    element in it, and use one value of the key for what is not on the heap. *)

From Stdlib Require Import ZArith Lia.
From stdpp Require Import prelude gmap.
From S2P Require Import Prelude AvlWalk Fibheap.

(** ** Nodes of a forest *)

Fixpoint nodes (t : fnode) : list fnode :=
  match t with FNode _ _ _ cs => t :: flat_map nodes cs end.
Definition fnodes (l : list fnode) : list fnode := flat_map nodes l.
Definition fids (l : list fnode) : list Z := map fn_id (fnodes l).

Lemma fnode_ind' (P : fnode -> Prop) :
  (forall i m d cs, Forall P cs -> P (FNode i m d cs)) -> forall t, P t.
Proof.
  intros H. fix IH 1. intros [i m d cs]. apply H.
  induction cs as [|c cs IHcs]; constructor; auto.
Qed.

Lemma nodes_eq t : nodes t = t :: fnodes (fn_children t).
Proof. by destruct t. Qed.

Lemma fnodes_app l1 l2 : fnodes (l1 ++ l2) = fnodes l1 ++ fnodes l2.
Proof. apply flat_map_app. Qed.

Lemma fids_app l1 l2 : fids (l1 ++ l2) = fids l1 ++ fids l2.
Proof. unfold fids. by rewrite fnodes_app, map_app. Qed.

Lemma fids_cons t l : fids (t :: l) = fn_id t :: fids (fn_children t) ++ fids l.
Proof. unfold fids, fnodes. simpl. rewrite map_app, nodes_eq. done. Qed.

Lemma fids_nil : fids [] = [].
Proof. done. Qed.

#[global] Instance fnodes_perm : Proper ((≡ₚ) ==> (≡ₚ)) fnodes.
Proof. intros l1 l2 H. by apply Permutation_flat_map. Qed.

#[global] Instance fids_perm : Proper ((≡ₚ) ==> (≡ₚ)) fids.
Proof. intros l1 l2 H. unfold fids. by rewrite H. Qed.

Lemma fids_root n l : n ∈ l -> fn_id n ∈ fids l.
Proof.
  intros H. apply list_elem_of_split in H as (l1 & l2 & ->).
  rewrite fids_app, fids_cons. set_solver.
Qed.

Lemma set_mark_id b n : fn_id (set_mark b n) = fn_id n.
Proof. by destruct n. Qed.
Lemma set_mark_children b n : fn_children (set_mark b n) = fn_children n.
Proof. by destruct n. Qed.
Lemma set_mark_degree b n : fn_degree (set_mark b n) = fn_degree n.
Proof. by destruct n. Qed.
Lemma set_mark_mark b n : fn_mark (set_mark b n) = b.
Proof. by destruct n. Qed.

Lemma fids_set_mark b l : fids (map (set_mark b) l) = fids l.
Proof.
  induction l as [|t l IH]; [done|]. simpl. rewrite !fids_cons, IH.
  by destruct t.
Qed.

(** ** The invariant *)

(** No more than [j] of the numbers are smaller than [j]. *)
Definition spread (ks : list nat) : Prop :=
  forall j, (length (filter (fun k => k < j)%nat ks) <= j)%nat.

(** The degree a child had when it became one, or more: it has lost at most
    one child, and then it is marked. *)
Definition rank (n : fnode) : nat :=
  (length (fn_children n) + if fn_mark n then 1 else 0)%nat.

Definition node_ok (key : Z -> Z) (n : fnode) : Prop :=
  fn_degree n = Z.of_nat (length (fn_children n)) /\
  spread (map rank (fn_children n)) /\
  Forall (fun c => key (fn_id n) <= key (fn_id c)) (fn_children n).

Definition unmarked (n : fnode) : Prop := fn_mark n = false.

Definition forest_ok (key : Z -> Z) (l : list fnode) : Prop :=
  Forall (node_ok key) (fnodes l) /\ Forall unmarked l.

Definition heap_ok (key : Z -> Z) (h : fibheap) : Prop :=
  forest_ok key h /\ NoDup (fids h) /\
  match h with [] => True | r :: _ => Forall (fun n => key (fn_id r) <= key (fn_id n)) h end.

Lemma spread_nil : spread [].
Proof. intros j. simpl. lia. Qed.

#[global] Instance spread_perm : Proper ((≡ₚ) ==> iff) spread.
Proof.
  intros l1 l2 H. unfold spread. by setoid_rewrite H.
Qed.

Lemma spread_sub k ks : spread (k :: ks) -> spread ks.
Proof.
  intros H j. specialize (H j). rewrite filter_cons in H.
  destruct (decide (k < j)%nat); simpl in H; lia.
Qed.

(** A child that is as large as the number of its brothers. *)
Lemma spread_cons k ks : (length ks <= k)%nat -> spread ks -> spread (k :: ks).
Proof.
  intros Hk H j. specialize (H j). rewrite filter_cons.
  destruct (decide (k < j)%nat); [|done]. simpl.
  pose proof (length_filter (fun k => k < j)%nat ks). lia.
Qed.

Lemma filter_all_id {A} (P : A -> Prop) `{forall x, Decision (P x)} l : Forall P l -> filter P l = l.
Proof.
  induction 1 as [|x l Hx _ IH]; [done|]. rewrite filter_cons_True by done. by rewrite IH.
Qed.

Lemma spread_big ks :
  ks <> [] -> spread ks -> exists k ks', ks ≡ₚ k :: ks' /\ (length ks' <= k)%nat.
Proof.
  intros Hne H. destruct (decide (Exists (fun k => length ks - 1 <= k)%nat ks)) as [He|He].
  - apply Exists_exists in He as (k & Hk & Hle).
    apply elem_of_Permutation in Hk as (ks' & Hp). exists k, ks'. split; [done|].
    apply Permutation_length in Hp. simpl in Hp. lia.
  - exfalso. apply not_Exists_Forall in He; [|apply _]. specialize (H (length ks - 1)%nat).
    rewrite (filter_all_id (fun k => k < length ks - 1)%nat) in H.
    + destruct ks; [done|]. simpl in H. lia.
    + eapply Forall_impl; [exact He|]. simpl. intros. lia.
Qed.

Definition zsum (l : list Z) : Z := fold_right Z.add 0 l.

#[global] Instance zsum_perm : Proper ((≡ₚ) ==> eq) zsum.
Proof. intros l1 l2 H. induction H; simpl; lia. Qed.

Lemma spread_sum (f : nat -> Z) ks :
  (forall a b, (a <= b)%nat -> f a <= f b) -> spread ks ->
  zsum (map f (seq 0 (length ks))) <= zsum (map f ks).
Proof.
  intros Hf. remember (length ks) as n eqn:Hn. revert ks Hn.
  induction n as [|n IH]; intros ks Hn Hs.
  - by destruct ks.
  - destruct (spread_big ks) as (k & ks' & Hp & Hk); [by destruct ks|done|].
    pose proof (Permutation_length Hp) as Hl. simpl in Hl.
    rewrite seq_S, map_app. rewrite Hp in Hs |- *. simpl.
    specialize (IH ks' ltac:(lia) (spread_sub _ _ Hs)). specialize (Hf n k ltac:(lia)).
    rewrite (Permutation_app_comm (map f (seq 0 n)) [f n]). simpl. lia.
Qed.

(** ** The size of a tree and its degree *)

(** A child of rank [k] has at least this many nodes. *)
Definition rank_size (k : nat) : Z := fib (S (Nat.max k 1)).

Lemma rank_size_sum d : 1 + zsum (map rank_size (seq 0 d)) = fib (S (S d)).
Proof.
  induction d as [|d IH]; [done|].
  rewrite seq_S, map_app, (Permutation_app_comm _ _), fib_SS, <- IH.
  change (zsum _) with (rank_size d + zsum (map rank_size (seq 0 d))) at 1.
  destruct d as [|d]; [done|].
  change (rank_size (S d)) with (fib (S (Nat.max (S d) 1))). rewrite Nat.max_l by lia. lia.
Qed.

Lemma fnodes_length l : Z.of_nat (length (fnodes l)) = zsum (map (fun t => Z.of_nat (length (nodes t))) l).
Proof.
  induction l as [|t l IH]; [done|].
  change (fnodes (t :: l)) with (nodes t ++ fnodes l). rewrite length_app, Nat2Z.inj_add, IH. done.
Qed.

Lemma zsum_le {A} (f g : A -> Z) l :
  Forall (fun x => f x <= g x) l -> zsum (map f l) <= zsum (map g l).
Proof. induction 1; simpl; lia. Qed.

Lemma degree_size key t :
  Forall (node_ok key) (nodes t) -> fib (S (S (length (fn_children t)))) <= Z.of_nat (length (nodes t)).
Proof.
  induction t as [i m d cs IH] using fnode_ind'. intros H.
  apply Forall_cons in H as [(_ & Hs & _) H]. simpl in *.
  rewrite <- rank_size_sum. rewrite Nat2Z.inj_succ. fold (fnodes cs).
  rewrite fnodes_length, <- (length_map rank cs).
  etrans; [apply Zplus_le_compat_l, spread_sum; [|exact Hs]|].
  - intros a b Hab. apply fib_mono. lia.
  - rewrite map_map. enough (zsum (map (fun t => rank_size (rank t)) cs) <=
      zsum (map (fun t => Z.of_nat (length (nodes t))) cs)) by lia.
    apply zsum_le. clear Hs. induction cs as [|c cs IHcs]; constructor.
    + apply Forall_cons in IH as [IH _]. simpl in H. apply Forall_app in H as [H _].
      etrans; [|apply IH, H]. unfold rank_size, rank.
      destruct (fn_mark c); apply fib_mono; lia.
    + apply Forall_cons in IH as [_ IH]. simpl in H. apply Forall_app in H as [_ H]. auto.
Qed.

(** The keys below a node are not smaller than its own. *)
Lemma nodes_min key t :
  Forall (node_ok key) (nodes t) -> forall y, y ∈ map fn_id (nodes t) -> key (fn_id t) <= key y.
Proof.
  induction t as [i m d cs IH] using fnode_ind'. intros H y Hy.
  apply Forall_cons in H as [(_ & _ & Ho) H]. simpl in *.
  apply elem_of_cons in Hy as [->|Hy]; [lia|].
  apply list_elem_of_fmap in Hy as (n & -> & Hn).
  apply list_elem_of_In, in_flat_map in Hn as (c & Hc%list_elem_of_In & Hn%list_elem_of_In).
  rewrite Forall_forall in IH, Ho. specialize (Ho c Hc).
  etrans; [exact Ho|]. apply IH; [done| |by apply list_elem_of_fmap_2].
  apply Forall_forall. intros z Hz. rewrite Forall_forall in H. apply H.
  apply list_elem_of_In, in_flat_map. exists c. split; by apply list_elem_of_In.
Qed.

Lemma heap_min key r h :
  heap_ok key (r :: h) -> forall y, y ∈ fids (r :: h) -> key (fn_id r) <= key y.
Proof.
  intros ((H & _) & _ & Hm) y Hy. unfold fids in Hy.
  apply list_elem_of_fmap in Hy as (n & -> & Hn).
  apply list_elem_of_In, in_flat_map in Hn as (c & Hc%list_elem_of_In & Hn%list_elem_of_In).
  rewrite Forall_forall in Hm. etrans; [apply Hm, Hc|].
  apply nodes_min; [|by apply list_elem_of_fmap_2].
  apply Forall_forall. intros z Hz. rewrite Forall_forall in H. apply H.
  apply list_elem_of_In, in_flat_map. exists c. split; by apply list_elem_of_In.
Qed.

(** ** Forests *)

#[global] Instance forest_ok_perm key : Proper ((≡ₚ) ==> iff) (forest_ok key).
Proof. intros l1 l2 H. unfold forest_ok. by rewrite H. Qed.

Lemma forest_ok_app key l1 l2 : forest_ok key (l1 ++ l2) <-> forest_ok key l1 /\ forest_ok key l2.
Proof. unfold forest_ok. rewrite fnodes_app, !Forall_app. tauto. Qed.

Lemma forest_ok_cons key t l :
  forest_ok key (t :: l) <->
  node_ok key t /\ Forall (node_ok key) (fnodes (fn_children t)) /\ unmarked t /\ forest_ok key l.
Proof.
  unfold forest_ok. change (fnodes (t :: l)) with (nodes t ++ fnodes l).
  rewrite nodes_eq, Forall_app, !Forall_cons. tauto.
Qed.

Lemma forest_ok_nil key : forest_ok key [].
Proof. by split. Qed.

(** The order is that of the keys of the nodes. *)
Lemma forest_key key key' l :
  (forall x, x ∈ fids l -> key' x = key x) ->
  Forall (node_ok key) (fnodes l) -> Forall (node_ok key') (fnodes l).
Proof.
  intros Hk H. apply Forall_forall. intros n Hn. rewrite Forall_forall in H.
  destruct (H n Hn) as (Hd & Hs & Ho). split_and!; [done..|].
  assert (Hin : fn_id n ∈ fids l) by (by apply list_elem_of_fmap_2).
  assert (Hsub : forall c, c ∈ fn_children n -> fn_id c ∈ fids l).
  { intros c Hc. apply list_elem_of_fmap_2.
    clear -Hn Hc. induction l as [|t l IH]; [by apply elem_of_nil in Hn|].
    change (n ∈ nodes t ++ fnodes l) in Hn. change (c ∈ nodes t ++ fnodes l).
    apply elem_of_app in Hn as [Hn|Hn]; apply elem_of_app; [left|by right; apply IH].
    clear IH. induction t as [i m d cs IH] using fnode_ind'.
    apply elem_of_cons in Hn as [->|Hn].
    - simpl in *. right. apply list_elem_of_In, in_flat_map. exists c.
      split; [by apply list_elem_of_In|]. rewrite nodes_eq. by left.
    - right. apply list_elem_of_In, in_flat_map in Hn as (e & He & Hn).
      apply list_elem_of_In, in_flat_map. exists e. split; [done|].
      rewrite Forall_forall in IH. apply list_elem_of_In.
      apply IH; by apply list_elem_of_In. }
  rewrite Forall_forall in Ho |- *. intros c Hc. specialize (Ho c Hc).
  rewrite (Hk (fn_id n)), (Hk (fn_id c)) by auto. done.
Qed.

Lemma heap_key key key' h :
  heap_ok key h -> (forall x, x ∈ fids h -> key' x = key x) -> heap_ok key' h.
Proof.
  intros ((H & Hu) & Hn & Hm) Hk. split_and!; [split|..]; [by eapply forest_key|done..|].
  destruct h as [|r h]; [done|]. rewrite Forall_forall in Hm |- *. intros n Hn'.
  rewrite !Hk; auto using fids_root. apply fids_root. by left.
Qed.

Lemma point_at_ok x l n :
  n ∈ l -> fn_id n = x ->
  exists n' tl, point_at x l = Some (n' :: tl) /\ fn_id n' = x /\ n' :: tl ≡ₚ l.
Proof.
  intros Hn Hx. unfold point_at.
  destruct (list_find_elem_of (fun n => fn_id n = x) l n Hn Hx) as [[i n'] Hf].
  rewrite Hf. simpl. apply list_find_Some in Hf as (Hi & Hid & _).
  rewrite (drop_S _ _ _ Hi). exists n', (drop (S i) l ++ take i l). split_and!; [done..|].
  change (n' :: drop (S i) l ++ take i l) with ((n' :: drop (S i) l) ++ take i l).
  rewrite <- (drop_S _ _ _ Hi), Permutation_app_comm. by rewrite take_drop.
Qed.

(** Roots with the smallest one in front. *)
Lemma heap_intro key l r tl :
  forest_ok key l -> NoDup (fids l) -> r :: tl ≡ₚ l ->
  (forall n, n ∈ l -> key (fn_id r) <= key (fn_id n)) -> heap_ok key (r :: tl).
Proof.
  intros Hf Hn Hp Hm. split_and!; [by rewrite Hp..|]. rewrite Hp. by apply Forall_forall.
Qed.

(** ** Merging and insertion *)

Lemma merge_into_ok key fhdef a b :
  heap_ok key a -> heap_ok key b -> cmp_ok key fhdef -> fids a ## fids b ->
  exists h, ut_fibheap_merge_into fhdef a b = Some h /\ heap_ok key h /\ fids h ≡ₚ fids a ++ fids b.
Proof.
  intros Ha Hb Hc Hd. destruct b as [|t b]; simpl.
  { exists a. rewrite fids_nil, app_nil_r. done. }
  destruct a as [|r a]; [by exists (t :: b)|].
  set (l := r :: t :: b ++ a).
  assert (Hp : l ≡ₚ (r :: a) ++ t :: b).
  { unfold l. change (t :: b ++ a) with ((t :: b) ++ a). by rewrite (Permutation_app_comm (t :: b) a). }
  assert (Hf : forest_ok key l) by (rewrite Hp; apply forest_ok_app; split; [apply Ha|apply Hb]).
  assert (Hi : fids l ≡ₚ fids (r :: a) ++ fids (t :: b)) by (by rewrite Hp, fids_app).
  assert (Hn : NoDup (fids l)).
  { rewrite Hi. apply NoDup_app. split_and!; [apply Ha|set_solver|apply Hb]. }
  destruct Ha as (_ & _ & Ha), Hb as (_ & _ & Hb). rewrite Forall_forall in Ha, Hb.
  simpl. unfold cmp. destruct (Hc (fn_id t) (fn_id r)) as [Hlt _].
  destruct (Z.ltb_spec (fhdef (fn_id t) (fn_id r)) 0) as [H|H].
  - destruct (point_at_ok (fn_id t) l t) as (t' & tl & -> & Ht' & Hp'); [set_solver|done|].
    exists (t' :: tl). split; [done|]. split; [|by rewrite Hp'].
    apply (heap_intro key l); [done..|]. rewrite Ht'. intros n Hn'. rewrite Hp in Hn'.
    apply elem_of_app in Hn' as [Hn'|Hn']; [|auto]. specialize (Ha n Hn'). apply Hlt in H. lia.
  - exists l. split; [done|]. split; [|done]. apply (heap_intro key l); [done..|].
    intros n Hn'. rewrite Hp in Hn'. apply elem_of_app in Hn' as [Hn'|Hn']; [auto|].
    specialize (Hb n Hn'). assert (~ key (fn_id t) < key (fn_id r)) by (rewrite <- Hlt; lia). lia.
Qed.

Lemma singleton_ok key x : heap_ok key [FNode x false 0 []].
Proof.
  split_and!; [split|..]; repeat constructor; simpl; try (lia || apply spread_nil); set_solver.
Qed.

Lemma fib_insert_ok key fhdef h x :
  heap_ok key h -> cmp_ok key fhdef -> x ∉ fids h ->
  exists h', ut_fibheapInsert fhdef h x = Some h' /\ heap_ok key h' /\ fids h' ≡ₚ x :: fids h.
Proof.
  intros Hh Hc Hx.
  destruct (merge_into_ok key fhdef h [FNode x false 0 []]) as (h' & H & Hok & Hp);
    [done|apply singleton_ok|done| |].
  - unfold fids at 2. simpl. set_solver.
  - exists h'. split_and!; [done..|]. rewrite Hp, Permutation_app_comm. done.
Qed.

Lemma fib_merge_ok key fhdef a b :
  heap_ok key a -> heap_ok key b -> cmp_ok key fhdef -> fids a ## fids b ->
  exists h, ut_fibheapMerge fhdef a b = Some (h, []) /\ heap_ok key h /\ fids h ≡ₚ fids a ++ fids b.
Proof.
  intros Ha Hb Hc Hd. destruct (merge_into_ok key fhdef a b Ha Hb Hc Hd) as (h & H & ? & ?).
  exists h. unfold ut_fibheapMerge. by rewrite H.
Qed.

(** ** Consolidation *)

(** A root becomes a child of a root of the same degree. *)
Lemma add_as_child_ok key u v l :
  forest_ok key (u :: v :: l) -> fn_degree u = fn_degree v -> key (fn_id u) <= key (fn_id v) ->
  exists n, ut_fibheap_add_as_child u v = Some n /\ forest_ok key (n :: l) /\
            fn_degree n = fn_degree u + 1 /\ fids (n :: l) ≡ₚ fids (u :: v :: l).
Proof.
  intros H Hd Hk. rewrite !forest_ok_cons in H.
  destruct H as ((Hud & Hus & Huo) & Huf & Hum & (Hvd & Hvs & Hvo) & Hvf & Hvm & Hl).
  destruct u as [i m d cs].
  assert (exists cs', ut_fibheap_merge_nonempty_list cs [v] = Some cs' /\ cs' ≡ₚ v :: cs)
    as (cs' & Hcs & Hp).
  { destruct cs as [|c cs]; simpl; eexists; split; [done..|constructor]. }
  unfold ut_fibheap_add_as_child. rewrite Hcs. eexists. split; [done|]. simpl in *.
  rewrite forest_ok_cons. unfold node_ok. simpl. split_and!; try done.
  - rewrite Hp. simpl. lia.
  - rewrite Hp. simpl. apply spread_cons; [|done]. rewrite length_map. unfold rank. rewrite Hvm. lia.
  - rewrite Hp. by constructor.
  - rewrite Hp. change (fnodes (v :: cs)) with (nodes v ++ fnodes cs).
    rewrite nodes_eq. apply Forall_app. split; [|done]. by constructor.
  - rewrite (fids_cons (FNode i m (d + 1) cs')), (fids_cons (FNode i m d cs)). simpl.
    constructor. rewrite Hp, <- !fids_app. simpl. by rewrite Permutation_middle.
Qed.

(** The array of roots: each is where its degree says. *)
Definition roots_ok (roots : list (option fnode)) : Prop :=
  forall i n, roots !! i = Some (Some n) -> fn_degree n = Z.of_nat i.

Lemma omap_insert (roots : list (option fnode)) i o o' :
  roots !! i = Some o ->
  option_list o ++ omap id (<[i := o']> roots) ≡ₚ option_list o' ++ omap id roots.
Proof.
  intros H. rewrite <- (take_drop_middle _ _ _ H) at 2. rewrite insert_take_drop by
    (eapply lookup_lt_Some; exact H).
  rewrite !omap_app. destruct o, o'; simpl; try rewrite <- !Permutation_middle; try done; constructor.
Qed.

Lemma roots_ok_insert roots i o :
  roots_ok roots -> match o with Some n => fn_degree n = Z.of_nat i | None => True end ->
  roots_ok (<[i := o]> roots).
Proof.
  intros H Ho j n Hj. destruct (decide (i = j)) as [<-|Hne].
  - apply list_lookup_insert_Some in Hj as [(_ & -> & _)|(? & _)]; done.
  - rewrite list_lookup_insert_ne in Hj by done. by apply H.
Qed.

Lemma merge_equal_ok key fhdef fuel roots n l :
  cmp_ok key fhdef -> roots_ok roots -> forest_ok key (n :: omap id roots ++ l) ->
  Z.max 0 (Z.of_nat (length roots) - fn_degree n) < Z.of_nat fuel ->
  exists roots' n', merge_equal fuel fhdef roots n = Some (roots', n') /\
    roots_ok roots' /\ forest_ok key (n' :: omap id roots' ++ l) /\
    length roots' = length roots /\
    (forall r, roots' !! Z.to_nat (fn_degree n') <> Some (Some r)) /\
    fids (n' :: omap id roots' ++ l) ≡ₚ fids (n :: omap id roots ++ l).
Proof.
  intros Hc. revert roots n. induction fuel as [|fuel IH]; intros roots n Hr Hf Hfuel; [lia|].
  assert (Hdeg : 0 <= fn_degree n) by (apply forest_ok_cons in Hf as ((-> & _) & _); lia).
  simpl. destruct (roots !! Z.to_nat (fn_degree n)) as [[r|]|] eqn:E.
  2-3: exists roots, n; split_and!; try done; rewrite E; done.
  pose proof (lookup_lt_Some _ _ _ E) as Hlt. pose proof (Hr _ _ E) as Hrd.
  set (roots1 := <[Z.to_nat (fn_degree n) := None]> roots).
  assert (Hom : omap id roots ≡ₚ r :: omap id roots1)
    by (pose proof (omap_insert roots _ _ None E) as H; by symmetry in H).
  assert (Hr1 : roots_ok roots1) by (by apply roots_ok_insert).
  assert (Hl1 : length roots1 = length roots) by apply length_insert.
  assert (exists u v, (if cmp fhdef r n <? 0 then (r, n) else (n, r)) = (u, v) /\
            [u; v] ≡ₚ [n; r] /\ key (fn_id u) <= key (fn_id v) /\
            fn_degree u = fn_degree n /\ fn_degree v = fn_degree n) as (u & v & -> & Hp & Hk & Hu & Hv).
  { unfold cmp. destruct (Hc (fn_id r) (fn_id n)) as [Hlt' _].
    destruct (Z.ltb_spec (fhdef (fn_id r) (fn_id n)) 0) as [H|H]; eexists _, _;
      (split_and!; [done|by constructor| |lia|lia]).
    - apply Hlt' in H. lia.
    - assert (~ key (fn_id r) < key (fn_id n)) by (rewrite <- Hlt'; lia). lia. }
  assert (Huv : u :: v :: omap id roots1 ++ l ≡ₚ n :: omap id roots ++ l).
  { rewrite Hom. change ([u; v] ++ (omap id roots1 ++ l) ≡ₚ [n; r] ++ (omap id roots1 ++ l)).
    by rewrite Hp. }
  rewrite <- Huv in Hf.
  destruct (add_as_child_ok key u v _ Hf) as (n1 & -> & Hf1 & Hd1 & Hi1); [lia|done|].
  destruct (IH roots1 n1) as (roots2 & n2 & H2 & Hr2 & Hf2 & Hl2 & Hno & Hi2); [done..|lia|].
  exists roots2, n2. split_and!; try done; [lia|]. by rewrite Hi2, Hi1, Huv.
Qed.

Lemma capacity_degree key n l :
  forest_ok key (n :: l) -> Z.of_nat (length (fids (n :: l))) < HEAP_CAPACITY ->
  fn_degree n <= MAX_DEGREE.
Proof.
  intros [H _] Hl. change (fnodes (n :: l)) with (nodes n ++ fnodes l) in H.
  apply Forall_app in H as [H _]. pose proof (degree_size key n H) as Hs.
  rewrite nodes_eq in H. apply Forall_cons in H as [[Hd _] _]. rewrite Hd.
  destruct (decide (length (fn_children n) <= 63)%nat) as [|Hgt]; [unfold MAX_DEGREE; lia|].
  exfalso. pose proof (fib_mono 65 (S (length (fn_children n))) ltac:(lia)) as Hm.
  assert (HEAP_CAPACITY = fib 66) as Hcap by (vm_compute; reflexivity).
  unfold fids in Hl. change (fnodes (n :: l)) with (nodes n ++ fnodes l) in Hl.
  rewrite length_map, length_app in Hl. lia.
Qed.

Lemma omap_replicate_None k : omap id (replicate k (@None fnode)) = [].
Proof. induction k; done. Qed.

Lemma consolidate_one_ok key fhdef roots n l :
  cmp_ok key fhdef -> roots_ok roots -> forest_ok key (n :: omap id roots ++ l) ->
  Z.of_nat (length (fids (n :: omap id roots ++ l))) < HEAP_CAPACITY ->
  exists roots', consolidate_one fhdef roots n = Some roots' /\ roots_ok roots' /\
    forest_ok key (omap id roots' ++ l) /\
    fids (omap id roots' ++ l) ≡ₚ fids (n :: omap id roots ++ l).
Proof.
  intros Hc Hr Hf Hcap.
  assert (Hdeg : 0 <= fn_degree n) by (apply forest_ok_cons in Hf as ((-> & _) & _); lia).
  unfold consolidate_one.
  destruct (merge_equal_ok key fhdef (S (length roots)) roots n l)
    as (roots1 & n1 & H1 & Hr1 & Hf1 & Hl1 & Hno & Hi1); [done..|lia|].
  rewrite H1. cbn [mbind option_bind].
  assert (Hmax : fn_degree n1 <= MAX_DEGREE)
    by (eapply capacity_degree; [exact Hf1|by rewrite Hi1]).
  rewrite (proj2 (Z.leb_le _ _) Hmax). eexists. split; [done|].
  assert (Hdeg1 : 0 <= fn_degree n1) by (apply forest_ok_cons in Hf1 as ((-> & _) & _); lia).
  set (d := Z.to_nat (fn_degree n1)) in *. set (roots2 := roots1 ++ _).
  assert (Hr2 : roots_ok roots2).
  { intros i m Hi. unfold roots2 in Hi. apply lookup_app_Some in Hi as [Hi|[_ Hi]]; [by apply Hr1|].
    apply lookup_replicate in Hi as [? _]. done. }
  assert (Hd2 : roots2 !! d = Some None).
  { destruct (lookup_lt_is_Some_2 roots2 d) as [o Ho].
    - unfold roots2. rewrite length_app, length_replicate. lia.
    - rewrite Ho. destruct o as [m|]; [|done]. exfalso.
      unfold roots2 in Ho. apply lookup_app_Some in Ho as [Ho|[_ Ho]]; [by apply (Hno m)|].
      apply lookup_replicate in Ho as [? _]. done. }
  assert (Ho2 : omap id (<[d := Some n1]> roots2) ≡ₚ n1 :: omap id roots1).
  { pose proof (omap_insert roots2 d None (Some n1) Hd2) as H. simpl in H. rewrite H.
    unfold roots2. by rewrite omap_app, omap_replicate_None, app_nil_r. }
  split_and!.
  - apply roots_ok_insert; [done|]. unfold d. lia.
  - rewrite Ho2. done.
  - rewrite Ho2, <- Hi1. done.
Qed.

Lemma consolidate_ok key fhdef todo roots :
  cmp_ok key fhdef -> roots_ok roots -> forest_ok key (omap id roots ++ todo) ->
  Z.of_nat (length (fids (omap id roots ++ todo))) < HEAP_CAPACITY ->
  exists roots', consolidate fhdef roots todo = Some roots' /\
    forest_ok key (omap id roots') /\ fids (omap id roots') ≡ₚ fids (omap id roots ++ todo).
Proof.
  intros Hc. revert roots. induction todo as [|n todo IH]; intros roots Hr Hf Hcap; simpl.
  - exists roots. rewrite app_nil_r in *. done.
  - assert (Hp : omap id roots ++ n :: todo ≡ₚ n :: omap id roots ++ todo)
      by (by rewrite Permutation_middle).
    rewrite Hp in Hf, Hcap.
    destruct (consolidate_one_ok key fhdef roots n todo) as (roots1 & H1 & Hr1 & Hf1 & Hi1); [done..|].
    rewrite H1. cbn [mbind option_bind].
    destruct (IH roots1) as (roots2 & H2 & Hf2 & Hi2); [done..|by rewrite Hi1|].
    exists roots2. split_and!; [done..|]. by rewrite Hi2, Hi1, Hp.
Qed.

Lemma newmin_ok key fhdef m l :
  cmp_ok key fhdef ->
  newmin fhdef m l ∈ m :: l /\
    forall n, n ∈ m :: l -> key (fn_id (newmin fhdef m l)) <= key (fn_id n).
Proof.
  intros Hc. revert m. induction l as [|r l IH]; intros m; simpl; [set_solver by lia|].
  unfold cmp. destruct (Hc (fn_id r) (fn_id m)) as [Hlt _].
  destruct (Z.ltb_spec (fhdef (fn_id r) (fn_id m)) 0) as [H|H].
  - destruct (IH r) as [H1 H2]. split; [set_solver|]. intros n Hn.
    pose proof (H2 r ltac:(set_solver)). apply Hlt in H.
    apply elem_of_cons in Hn as [->|Hn]; [lia|]. by apply H2.
  - destruct (IH m) as [H1 H2]. split; [set_solver|]. intros n Hn.
    pose proof (H2 m ltac:(set_solver)).
    assert (~ key (fn_id r) < key (fn_id m)) by (rewrite <- Hlt; lia).
    apply elem_of_cons in Hn as [->|Hn]; [lia|]. apply elem_of_cons in Hn as [->|Hn]; [lia|].
    apply H2. set_solver.
Qed.

Lemma relink_ok key fhdef roots :
  cmp_ok key fhdef -> omap id roots <> [] -> forest_ok key (omap id roots) ->
  NoDup (fids (omap id roots)) ->
  exists h, relink fhdef roots = Some h /\ heap_ok key h /\ fids h ≡ₚ fids (omap id roots).
Proof.
  intros Hc Hne Hf Hn. unfold relink. destruct (omap id roots) as [|r l]; [done|].
  destruct (newmin_ok key fhdef r l Hc) as [Hin Hmin].
  destruct (point_at_ok _ _ _ Hin eq_refl) as (n' & tl & -> & Hid & Hp).
  exists (n' :: tl). split_and!; [done| |by rewrite Hp].
  apply (heap_intro key (r :: l)); [done..|]. rewrite Hid. done.
Qed.

(** ** Extraction of the first root *)

Lemma unmark_forest_ok key cs : Forall (node_ok key) (fnodes cs) -> forest_ok key (map (set_mark false) cs).
Proof.
  intros H. induction cs as [|c cs IH]; [apply forest_ok_nil|]. simpl.
  change (fnodes (c :: cs)) with (nodes c ++ fnodes cs) in H. rewrite nodes_eq in H.
  apply Forall_app in H as [H H']. apply Forall_cons in H as [Hc H].
  rewrite forest_ok_cons, set_mark_children. split_and!; auto.
  - destruct c. exact Hc.
  - apply set_mark_mark.
Qed.

Lemma extract_ok key fhdef min rest :
  forest_ok key (min :: rest) -> NoDup (fids (min :: rest)) -> cmp_ok key fhdef ->
  Z.of_nat (length (fids (min :: rest))) < HEAP_CAPACITY ->
  exists h, ut_fibheapExtractMin fhdef (min :: rest) = Some (h, Some (fn_id min)) /\
    heap_ok key h /\ fids (min :: rest) ≡ₚ fn_id min :: fids h.
Proof.
  intros Hf Hn Hc Hcap. rewrite fids_cons in *. apply forest_ok_cons in Hf as (_ & Hcs & _ & Hrest).
  apply unmark_forest_ok in Hcs. set (cs := map (set_mark false) (fn_children min)) in *.
  rewrite <- (fids_set_mark false (fn_children min)) in *. fold cs in Hn, Hcap |- *.
  destruct (decide (rest = [] /\ fn_children min = [])) as [[-> Hnil]|Hne].
  { exists []. simpl. rewrite Hnil. unfold cs. rewrite Hnil. split_and!; try done.
    split_and!; [apply forest_ok_nil|constructor|done]. }
  assert (exists l, match fn_children min with
                    | [] => Some rest
                    | _ => ut_fibheap_merge_nonempty_list rest cs
                    end = Some l /\ l ≡ₚ cs ++ rest) as (l & Hl & Hp).
  { unfold cs. destruct (fn_children min) as [|c cs']; [by exists rest|].
    destruct rest as [|r rest]; eexists; (split; [done|]); simpl; [by rewrite app_nil_r|].
    rewrite <- Permutation_middle. constructor. }
  assert (Hi : fids l ≡ₚ fids cs ++ fids rest) by (by rewrite Hp, fids_app).
  assert (Hfl : forest_ok key l) by (rewrite Hp; by apply forest_ok_app).
  simpl in Hcap. rewrite <- Hi in Hcap. apply NoDup_cons in Hn as [_ Hn]. rewrite <- Hi in Hn.
  destruct (consolidate_ok key fhdef l []) as (roots & H1 & Hf1 & Hi1); [done|done|done|simpl; lia|].
  destruct (relink_ok key fhdef roots) as (h & H2 & Hok & Hi2); [done| |done| |].
  - intros Hnil. rewrite Hnil in Hi1. apply Permutation_nil_l in Hi1.
    destruct l as [|[] l]; [|done].
    apply Permutation_nil_l in Hp. apply eq_sym, app_nil in Hp as [Hp ->]. apply Hne.
    split; [done|]. unfold cs in Hp. by apply map_eq_nil in Hp.
  - rewrite Hi1. done.
  - exists h. split_and!; [|done|].
    + unfold ut_fibheapExtractMin. unfold cs in Hl. destruct rest as [|r rest]; destruct (fn_children min) eqn:E;
        try (by exfalso; apply Hne); rewrite Hl; cbn [mbind option_bind]; rewrite H1;
        cbn [mbind option_bind]; by rewrite H2.
    + constructor. rewrite Hi2, Hi1. simpl. done.
Qed.

(** ** Nodes inside a tree *)

Lemma plug_snoc n fs f : plug n (fs ++ [f]) = plug1 (plug n fs) f.
Proof. unfold plug. by rewrite fold_left_app. Qed.

Lemma locate_spec x t :
  match locate x t with
  | Some (n, fs) => plug n fs = t /\ fn_id n = x
  | None => x ∉ map fn_id (nodes t)
  end.
Proof.
  induction t as [i m d cs IH] using fnode_ind'. simpl.
  destruct (Z.eqb_spec i x) as [->|Hne]; [done|].
  match goal with |- context [?f [] cs] => set (go := f) end.
  enough (H : forall l r, Forall (fun c => match locate x c with
              | Some (n, fs) => plug n fs = c /\ fn_id n = x
              | None => x ∉ map fn_id (nodes c) end) r ->
            match go l r with
            | Some (n, fs) => plug n fs = FNode i m d (l ++ r) /\ fn_id n = x
            | None => x ∉ fids r
            end).
  { specialize (H [] cs IH). destruct (go [] cs) as [[n fs]|]; [done|]. unfold fids, fnodes in H. set_solver. }
  clear IH cs. intros l r H. revert l. induction H as [|c r Hc _ IH]; intros l; simpl; [set_solver|].
  destruct (locate x c) as [[n fs]|] eqn:E.
  - destruct Hc as [Hp Hid]. split; [|done]. rewrite plug_snoc, Hp. done.
  - specialize (IH (l ++ [c])). destruct (go (l ++ [c]) r) as [[n fs]|].
    + by rewrite <- app_assoc in IH.
    + unfold fids, fnodes in *. simpl. rewrite map_app. set_solver.
Qed.

Lemma locate_root_spec x l r :
  match locate_root x l r with
  | Some (n, fs, (l', r')) => l ++ r = l' ++ plug n fs :: r' /\ fn_id n = x
  | None => x ∉ fids r
  end.
Proof.
  revert l. induction r as [|t r IH]; intros l; simpl; [set_solver|].
  pose proof (locate_spec x t) as H. destruct (locate x t) as [[n fs]|].
  - by destruct H as [<- ->].
  - specialize (IH (l ++ [t])). destruct (locate_root x (l ++ [t]) r) as [[[n fs] [l' r']]|].
    + by rewrite <- app_assoc in IH.
    + unfold fids in *. change (fnodes (t :: r)) with (nodes t ++ fnodes r). rewrite map_app. set_solver.
Qed.

Lemma locate_root_in x h :
  x ∈ fids h ->
  exists n fs l r, locate_root x [] h = Some (n, fs, (l, r)) /\ h = l ++ plug n fs :: r /\ fn_id n = x.
Proof.
  intros Hx. pose proof (locate_root_spec x [] h) as H.
  destruct (locate_root x [] h) as [[[n fs] [l r]]|]; [|done].
  exists n, fs, l, r. tauto.
Qed.

(** The nodes that are not below the hole. *)
Fixpoint ctx_ids (fs : list frame) : list Z :=
  match fs with [] => [] | f :: fs => fr_id f :: fids (fr_left f ++ fr_right f) ++ ctx_ids fs end.

Lemma plug_fids n fs : fids [plug n fs] ≡ₚ fids [n] ++ ctx_ids fs.
Proof.
  revert n. induction fs as [|f fs IH]; intros n; simpl; [by rewrite app_nil_r|].
  change (fold_left plug1 fs (plug1 n f)) with (plug (plug1 n f) fs). rewrite IH.
  unfold plug1. rewrite fids_cons. simpl. rewrite app_nil_r, <- !Permutation_middle.
  rewrite app_assoc, <- fids_app. done.
Qed.

(** What is right around a hole for a node of rank [k]. *)
Fixpoint ctx_ok (key : Z -> Z) (k : nat) (fs : list frame) : Prop :=
  match fs with
  | [] => True
  | f :: fs' =>
    let lr := fr_left f ++ fr_right f in
    fr_degree f = Z.of_nat (S (length lr)) /\
    spread (k :: map rank lr) /\
    Forall (fun c => key (fr_id f) <= key (fn_id c)) lr /\
    Forall (node_ok key) (fnodes lr) /\
    match fs' with [] => fr_mark f = false | g :: _ => key (fr_id g) <= key (fr_id f) end /\
    ctx_ok key (S (length lr) + if fr_mark f then 1 else 0) fs'
  end.

Definition hole_ok (key : Z -> Z) (i : Z) (m : bool) (fs : list frame) : Prop :=
  match fs with [] => m = false | f :: _ => key (fr_id f) <= key i end.

Lemma plug_ok key n fs :
  forest_ok key [plug n fs] <->
  Forall (node_ok key) (nodes n) /\ ctx_ok key (rank n) fs /\ hole_ok key (fn_id n) (fn_mark n) fs.
Proof.
  revert n. induction fs as [|f fs IH]; intros n; simpl.
  { unfold forest_ok, fnodes. simpl. rewrite app_nil_r, Forall_singleton. unfold unmarked. tauto. }
  change (fold_left plug1 fs (plug1 n f)) with (plug (plug1 n f) fs). rewrite IH. clear IH.
  unfold plug1, rank at 1, node_ok. simpl. rewrite Forall_cons. simpl.
  fold (fnodes (fr_left f ++ n :: fr_right f)).
  assert (Hp : fr_left f ++ n :: fr_right f ≡ₚ n :: fr_left f ++ fr_right f)
    by (by rewrite Permutation_middle).
  assert (Hs : spread (map rank (fr_left f ++ n :: fr_right f)) <-> spread (map rank (n :: fr_left f ++ fr_right f)))
    by (by rewrite Hp).
  assert (Hn : Forall (node_ok key) (fnodes (fr_left f ++ n :: fr_right f)) <->
               Forall (node_ok key) (fnodes (n :: fr_left f ++ fr_right f))) by (by rewrite Hp).
  assert (Hk : Forall (fun c => key (fr_id f) <= key (fn_id c)) (fr_left f ++ n :: fr_right f) <->
               Forall (fun c => key (fr_id f) <= key (fn_id c)) (n :: fr_left f ++ fr_right f)) by (by rewrite Hp).
  rewrite (Permutation_length Hp), Hs, Hn, Hk. clear Hp Hs Hn Hk.
  generalize (fr_left f ++ fr_right f). intros lr. cbn [map length Nat.add].
  change (fnodes (n :: lr)) with (nodes n ++ fnodes lr). rewrite Forall_cons, Forall_app.
  replace (match fs with [] => fr_mark f = false | g :: _ => key (fr_id g) <= key (fr_id f) end)
    with (hole_ok key (fr_id f) (fr_mark f) fs) by (by destruct fs). tauto.
Qed.

Lemma ctx_key key key' k fs :
  (forall y, y ∈ ctx_ids fs -> key' y = key y) -> ctx_ok key k fs -> ctx_ok key' k fs.
Proof.
  revert k. induction fs as [|f fs IH]; intros k Hk; simpl; [done|].
  intros (Hd & Hs & Ho & Hn & Hm & H). simpl in Hk.
  assert (Hf : key' (fr_id f) = key (fr_id f)) by set_solver. split_and!; try done.
  - rewrite Forall_forall in Ho |- *. intros c Hc. rewrite Hf, (Hk (fn_id c)); [by apply Ho|].
    apply fids_root in Hc. set_solver.
  - eapply forest_key; [|done]. set_solver.
  - destruct fs as [|g fs]; [done|]. rewrite Hf, (Hk (fr_id g)); [done|]. set_solver.
  - apply IH; [|done]. set_solver.
Qed.

(** ** Cutting *)

Lemma plug_set_mark_fids b n fs l : fids (plug (set_mark b n) fs :: l) ≡ₚ fids (plug n fs :: l).
Proof.
  change (fids ([plug (set_mark b n) fs] ++ l) ≡ₚ fids ([plug n fs] ++ l)).
  rewrite !fids_app, !plug_fids, !fids_cons, set_mark_id, set_mark_children. done.
Qed.

Lemma plug_id n n' fs : fn_id n = fn_id n' -> fn_id (plug n fs) = fn_id (plug n' fs).
Proof. revert n n'. induction fs as [|f fs IH]; intros n n' H; [done|]. by apply IH. Qed.

(** The node that is left where the loop ends. *)
Definition left_node (n : fnode) (fs : list frame) : fnode :=
  match fs with [] => n | _ => set_mark true n end.

(** A node in the loop: it is to be cut, or has just lost a child. *)
Definition cut_state (key : Z -> Z) (n : fnode) (k : nat) (fs : list frame) : Prop :=
  (fs <> [] /\ fn_mark n = true) \/
  (fn_mark n = false /\ k = S (length (fn_children n)) /\ hole_ok key (fn_id n) false fs).

Lemma cut_loop_end key n k fs :
  fn_mark n = false -> k = S (length (fn_children n)) -> hole_ok key (fn_id n) false fs ->
  Forall (node_ok key) (nodes n) -> ctx_ok key k fs -> forest_ok key [plug (left_node n fs) fs].
Proof.
  intros Hm Hk Hh Hn Hx. apply plug_ok. destruct n as [i m d cs]. simpl in *. subst m.
  destruct fs as [|f fs]; [done|]. simpl left_node. split_and!; [|..|exact Hh].
  - apply Forall_cons in Hn as [Hn Hn']. by constructor.
  - unfold rank. cbn [fn_children fn_mark]. by rewrite Nat.add_1_r, <- Hk.
Qed.

Lemma cut_loop_ok key n fs cuts k :
  Forall (node_ok key) (nodes n) -> ctx_ok key k fs -> cut_state key n k fs -> forest_ok key cuts ->
  exists n' fs' pre, cut_loop n fs cuts = Some (n', fs', pre ++ cuts) /\
    forest_ok key (plug (left_node n' fs') fs' :: pre ++ cuts) /\
    fids (plug (left_node n' fs') fs' :: pre ++ cuts) ≡ₚ fids (plug n fs :: cuts) /\
    fn_id (plug (left_node n' fs') fs') = fn_id (plug n fs) /\
    (fn_mark n = true -> set_mark false n ∈ pre).
Proof.
  revert n cuts k. induction fs as [|f fs IH]; intros n cuts k Hn Hx Hs Hc; simpl.
  { destruct Hs as [[? _]|(Hm & Hk & Hh)]; [done|]. exists n, [], []. simpl.
    split_and!; try done; [|congruence].
    change (forest_ok key ([plug (left_node n []) []] ++ cuts)). apply forest_ok_app.
    split; [by eapply cut_loop_end|done]. }
  destruct (fn_mark n) eqn:Hm.
  - simpl in Hx. destruct Hx as (Hd & Hsp & Ho & Hnn & Hg & Hx).
    set (lr := fr_left f ++ fr_right f) in *. rewrite (proj2 (Z.ltb_lt _ _)) by lia.
    set (p := FNode (fr_id f) (fr_mark f) (fr_degree f - 1) lr).
    destruct (IH p (set_mark false n :: cuts) (S (length lr + if fr_mark f then 1 else 0))) as (n' & fs' & pre & H & Hf & Hi & Hid & _);
      [|exact Hx| | |].
    + constructor; [|exact Hnn]. split_and!; simpl; [lia|by eapply spread_sub|done].
    + unfold cut_state, p. simpl. destruct (fr_mark f) eqn:Hfm.
      * left. destruct fs; done.
      * right. rewrite Nat.add_0_r. split_and!; try done; by destruct fs.
    + rewrite forest_ok_cons, set_mark_children. rewrite nodes_eq in Hn.
      apply Forall_cons in Hn as [Hn Hn']. split_and!; try done; [|apply set_mark_mark].
      by destruct n.
    + exists n', fs', (pre ++ [set_mark false n]). rewrite <- app_assoc. simpl.
      split_and!; try done; [|by rewrite Hid; apply plug_id|set_solver].
      rewrite Hi. change (plug (plug1 n f) fs) with (plug n (f :: fs)).
      change (fids ([plug p fs] ++ [set_mark false n] ++ cuts) ≡ₚ fids ([plug n (f :: fs)] ++ cuts)).
      rewrite !fids_app, !plug_fids.
      replace (fids [set_mark false n]) with (fids [n]) by (by destruct n).
      replace (fids [p] ++ ctx_ids fs) with (ctx_ids (f :: fs))
        by (unfold p; rewrite fids_cons; simpl; by rewrite app_nil_r).
      by rewrite app_assoc, (Permutation_app_comm (ctx_ids (f :: fs))).
  - destruct Hs as [[_ ?]|(_ & Hk & Hh)]; [congruence|]. exists n, (f :: fs), []. simpl app.
    split_and!; try done.
    + change (forest_ok key ([plug (left_node n (f :: fs)) (f :: fs)] ++ cuts)). apply forest_ok_app.
      split; [by eapply cut_loop_end|done].
    + exact (plug_set_mark_fids true n (f :: fs) cuts).
    + exact (plug_id (set_mark true n) n (f :: fs) (set_mark_id true n)).
Qed.

Lemma cutnode_ok key n f fs l r k :
  Forall (node_ok key) (nodes n) -> ctx_ok key k (f :: fs) -> forest_ok key (l ++ r) ->
  exists h tl, ut_fibheap_cutnode n (f :: fs) (l, r) = Some (h :: tl) /\
    forest_ok key (h :: tl) /\ fids (h :: tl) ≡ₚ fids (l ++ plug n (f :: fs) :: r) /\
    fn_id <$> head (l ++ plug n (f :: fs) :: r) = Some (fn_id h) /\
    set_mark false n ∈ h :: tl.
Proof.
  intros Hn Hx Hlr. unfold ut_fibheap_cutnode.
  destruct (cut_loop_ok key (set_mark true n) (f :: fs) [] k)
    as (n' & fs' & pre & H & Hf & Hi & Hid & Hin).
  { rewrite nodes_eq in Hn. apply Forall_cons in Hn as [Hn Hn']. rewrite nodes_eq, set_mark_children.
    constructor; [by destruct n|done]. }
  { done. }
  { left. split; [done|apply set_mark_mark]. }
  { apply forest_ok_nil. }
  rewrite H, app_nil_r in *. cbn [mbind option_bind]. fold (left_node n' fs'). simpl fst. simpl snd.
  set (t := plug (left_node n' fs') fs') in *.
  assert (exists h tl, l ++ t :: r = h :: tl) as (h & tl & Hht) by (destruct l; eauto).
  rewrite Hht. exists h, (pre ++ tl).
  assert (Hp : h :: pre ++ tl ≡ₚ (t :: pre) ++ l ++ r).
  { change (h :: pre ++ tl) with ([h] ++ pre ++ tl). rewrite Permutation_app_swap_app.
    change ([h] ++ tl) with (h :: tl). rewrite <- Hht, <- (Permutation_middle l r t).
    by rewrite <- Permutation_middle. }
  split_and!; [done| | | |].
  - rewrite Hp. apply forest_ok_app. done.
  - rewrite Hp, fids_app, Hi, plug_set_mark_fids, <- fids_app. simpl. by rewrite Permutation_middle.
  - assert (Hids : fn_id t = fn_id (plug n (f :: fs))) by (rewrite Hid; apply plug_id, set_mark_id).
    destruct l as [|l0 l]; simpl in Hht |- *; [|by simplify_eq]. injection Hht as <- <-.
    by rewrite Hids.
  - rewrite Hp. specialize (Hin (set_mark_mark true n)).
    replace (set_mark false (set_mark true n)) with (set_mark false n) in Hin by (by destruct n).
    set_solver.
Qed.

(** ** Decreasing a key and deleting *)

(** Keys that only change at [x], which becomes smaller. *)
Definition lowered (key key' : Z -> Z) (x : Z) (l : list Z) : Prop :=
  key' x <= key x /\ forall y, y ∈ l -> y <> x -> key' y = key y.

(** The parts of a heap around a node, for the new keys. *)
Lemma lowered_parts key key' h n fs l r :
  heap_ok key h -> h = l ++ plug n fs :: r -> lowered key key' (fn_id n) (fids h) ->
  Forall (node_ok key') (nodes n) /\ ctx_ok key' (rank n) fs /\ forest_ok key' (l ++ r) /\
  (fn_id n ∉ ctx_ids fs) /\ (ctx_ids fs ⊆ fids h).
Proof.
  intros (Hf & Hn & _) -> [Hx Hk].
  assert (Hp : l ++ plug n fs :: r ≡ₚ [plug n fs] ++ l ++ r) by (by rewrite <- Permutation_middle).
  assert (Hi : fids (l ++ plug n fs :: r) ≡ₚ fn_id n :: fids (fn_children n) ++ ctx_ids fs ++ fids (l ++ r)).
  { rewrite Hp, fids_app, plug_fids, fids_cons. simpl. by rewrite app_nil_r, <- app_assoc. }
  rewrite Hi in Hn. apply NoDup_cons in Hn as [Hni _]. rewrite !elem_of_app in Hni.
  assert (Hkc : forall ys : list Z, (forall y, y ∈ ys ->
              y ∈ fids (fn_children n) \/ y ∈ ctx_ids fs ++ fids (l ++ r)) ->
            forall y, y ∈ ys -> key' y = key y).
  { intros ys Hys y Hy. specialize (Hys y Hy). apply Hk; [rewrite Hi; set_solver|]. intros ->.
    rewrite elem_of_app in Hys. set_solver. }
  rewrite Hp in Hf. apply forest_ok_app in Hf as [Hf [Hlr Hum]].
  apply plug_ok in Hf as (Hnn & Hc & _). split_and!.
  - rewrite nodes_eq in Hnn |- *. apply Forall_cons in Hnn as [(Hd & Hs & Ho) Hnn].
    constructor; [split_and!; try done|].
    + rewrite Forall_forall in Ho |- *. intros c Hcc. specialize (Ho c Hcc).
      rewrite (Hkc (fids (fn_children n)) ltac:(auto) (fn_id c)); [lia|by apply fids_root].
    + eapply forest_key; [|exact Hnn]. apply Hkc. auto.
  - eapply ctx_key; [|exact Hc]. apply Hkc. set_solver.
  - split; [|done]. eapply forest_key; [|exact Hlr]. apply Hkc. set_solver.
  - tauto.
  - intros y Hy. rewrite Hi. set_solver.
Qed.

Lemma lowered_min key key' r tl x :
  heap_ok key (r :: tl) -> lowered key key' x (fids (r :: tl)) ->
  forall y, y ∈ fids (r :: tl) -> y <> x -> key' (fn_id r) <= key' y.
Proof.
  intros Hh [Hx Hk] y Hy Hne. rewrite (Hk y Hy Hne). pose proof (heap_min _ _ _ Hh y Hy) as Hm.
  destruct (decide (fn_id r = x)) as [Hr|Hr]; [subst x; lia|].
  rewrite Hk; [done| |done]. rewrite fids_cons. by left.
Qed.

Lemma promote_ok key fhdef h tl x n :
  forest_ok key (h :: tl) -> NoDup (fids (h :: tl)) -> cmp_ok key fhdef ->
  n ∈ h :: tl -> fn_id n = x ->
  (forall y, y ∈ fids (h :: tl) -> y <> x -> key (fn_id h) <= key y) ->
  exists h', (if fhdef x (fn_id h) <? 0 then point_at x (h :: tl) else Some (h :: tl)) = Some h' /\
             heap_ok key h' /\ fids h' ≡ₚ fids (h :: tl).
Proof.
  intros Hf Hn Hc Hin Hx Hm. destruct (Hc x (fn_id h)) as [Hlt _].
  destruct (Z.ltb_spec (fhdef x (fn_id h)) 0) as [H|H].
  - apply Hlt in H. destruct (point_at_ok x _ n Hin Hx) as (n' & tl' & -> & Hid & Hp).
    exists (n' :: tl'). split_and!; [done| |by rewrite Hp].
    apply (heap_intro key (h :: tl)); [done..|]. rewrite Hid. intros m Hm'.
    destruct (decide (fn_id m = x)) as [->|Hne]; [lia|].
    specialize (Hm (fn_id m) (fids_root _ _ Hm') Hne). lia.
  - exists (h :: tl). split_and!; [done| |done]. apply (heap_intro key (h :: tl)); [done..|].
    intros m Hm'. destruct (decide (fn_id m = x)) as [->|Hne].
    + assert (~ key x < key (fn_id h)) by (rewrite <- Hlt; lia). lia.
    + apply Hm; [by apply fids_root|done].
Qed.

(** A node that stays where it is, below a parent that is not larger. *)
Lemma stay_ok key key' h n f fs l r :
  heap_ok key h -> h = l ++ plug n (f :: fs) :: r -> lowered key key' (fn_id n) (fids h) ->
  key' (fr_id f) <= key' (fn_id n) -> heap_ok key' h.
Proof.
  intros Hh Hl Hk Hle.
  destruct (lowered_parts key key' h n (f :: fs) l r Hh Hl Hk) as (H1 & H2 & H3 & H4 & H5).
  assert (Hf : forest_ok key' h).
  { rewrite Hl, <- Permutation_middle.
    change (forest_ok key' ([plug n (f :: fs)] ++ l ++ r)).
    apply forest_ok_app. split; [|done]. by apply plug_ok. }
  assert (Hnd : NoDup (fids h)) by apply Hh. destruct h as [|r0 tl]; [by destruct l|].
  pose proof (lowered_min key key' r0 tl (fn_id n) Hh Hk) as Hm.
  apply (heap_intro key' (r0 :: tl)); [done..|]. intros m Hm'.
  destruct (decide (fn_id m = fn_id n)) as [->|Hne]; [|by apply Hm; [apply fids_root|]].
  etrans; [|exact Hle]. apply Hm; [apply H5; by left|]. intros E. apply H4. rewrite <- E. by left.
Qed.

Lemma decrease_ok key key' fhdef h x :
  heap_ok key h -> cmp_ok key' fhdef -> x ∈ fids h -> lowered key key' x (fids h) ->
  exists h', ut_fibheapDecreaseKey fhdef h x = Some h' /\ heap_ok key' h' /\ fids h' ≡ₚ fids h.
Proof.
  intros Hh Hc Hx Hk. destruct (locate_root_in x h Hx) as (n & fs & l & r & Hloc & Hl & Hid).
  unfold ut_fibheapDecreaseKey. rewrite Hloc. cbn [mbind option_bind].
  assert (Hk' : lowered key key' (fn_id n) (fids h)) by (by rewrite Hid).
  destruct (lowered_parts key key' h n fs l r Hh Hl Hk') as (H1 & H2 & H3 & _ & _).
  assert (Hnd : NoDup (fids h)) by apply Hh.
  assert (exists r0 tl0, h = r0 :: tl0) as (r0 & tl0 & Hr0) by (subst h; destruct l; eauto).
  assert (Hm : forall y, y ∈ fids h -> y <> x -> key' (fn_id r0) <= key' y)
    by (rewrite Hr0 in Hh, Hk |- *; by eapply lowered_min).
  destruct fs as [|f fs].
  - simpl in Hl. assert (Hf : forest_ok key' h).
    { rewrite Hl, <- Permutation_middle.
      change (forest_ok key' ([n] ++ l ++ r)). apply forest_ok_app. split; [|done].
      apply (plug_ok key' n []). split_and!; try done. destruct Hh as [[_ Hu] _].
      rewrite Hl in Hu. apply Forall_app in Hu as [_ Hu]. by apply Forall_cons in Hu as [? _]. }
    assert (Hin : n ∈ r0 :: tl0) by (rewrite <- Hr0, Hl; set_solver).
    rewrite Hr0 in Hf, Hnd, Hm |- *. simpl. by apply (promote_ok key' fhdef r0 tl0 x n).
  - destruct (Z.leb_spec (fhdef (fr_id f) x) 0) as [Hle|Hgt].
    + exists h. split_and!; [done| |done]. eapply stay_ok; [exact Hh|exact Hl|done|].
      destruct (Hc (fr_id f) x) as [_ Hlt]. rewrite Hid.
      assert (~ key' x < key' (fr_id f)) by (rewrite <- Hlt; lia). lia.
    + destruct (cutnode_ok key' n f fs l r (rank n)) as (h1 & tl1 & Hcut & Hf & Hi & Hhd & Hin); [done..|].
      rewrite Hcut. cbn [mbind option_bind head]. rewrite <- Hl in Hi, Hhd.
      rewrite Hr0 in Hhd. injection Hhd as Hhd.
      destruct (promote_ok key' fhdef h1 tl1 x (set_mark false n)) as (h' & -> & Hok & Hp); try done.
      * by rewrite Hi.
      * by rewrite set_mark_id.
      * intros y Hy. rewrite Hi in Hy. rewrite <- Hhd. by apply Hm.
      * exists h'. by rewrite Hp, Hi.
Qed.

Lemma delete_ok key fhdef h x :
  heap_ok key h -> cmp_ok key fhdef -> x ∈ fids h -> Z.of_nat (length (fids h)) < HEAP_CAPACITY ->
  exists h', ut_fibheapDelete fhdef h x = Some h' /\ heap_ok key h' /\ fids h ≡ₚ x :: fids h'.
Proof.
  intros Hh Hc Hx Hcap. destruct (locate_root_in x h Hx) as (n & fs & l & r & Hloc & Hl & Hid).
  unfold ut_fibheapDelete. rewrite Hloc. cbn [mbind option_bind].
  assert (Hk : lowered key key (fn_id n) (fids h)) by (by split; [lia|]).
  destruct (lowered_parts key key h n fs l r Hh Hl Hk) as (H1 & H2 & H3 & _ & _).
  assert (Hnd : NoDup (fids h)) by apply Hh.
  assert (exists h1 n1, match fs with [] => Some h | _ => ut_fibheap_cutnode n fs (l, r) end = Some h1 /\
            forest_ok key h1 /\ fids h1 ≡ₚ fids h /\ n1 ∈ h1 /\ fn_id n1 = x)
    as (h1 & n1 & -> & Hf1 & Hi1 & Hin1 & Hid1).
  { destruct fs as [|f fs].
    - exists h, n. split_and!; try done; [apply Hh|]. rewrite Hl. set_solver.
    - destruct (cutnode_ok key n f fs l r (rank n)) as (h1 & tl1 & Hcut & Hf & Hi & _ & Hin); [done..|].
      exists (h1 :: tl1), (set_mark false n). rewrite set_mark_id, Hl. done. }
  cbn [mbind option_bind].
  destruct (point_at_ok x h1 n1 Hin1 Hid1) as (n2 & tl & -> & Hid2 & Hp). cbn [mbind option_bind].
  destruct (extract_ok key fhdef n2 tl) as (h' & -> & Hok & Hi'); try (by rewrite Hp); try done.
  - rewrite Hp, Hi1. done.
  - rewrite Hp, Hi1. done.
  - exists h'. split_and!; [done..|]. rewrite <- Hi1, <- Hp, Hi', Hid2. done.
Qed.

(** ** The interface *)

#[global] Instance fibheap_prioheap : PrioHeap fibheap := {
  ph_init := ut_fibheapInit;
  ph_min := ut_fibheapMin;
  ph_insert := ut_fibheapInsert;
  ph_merge := ut_fibheapMerge;
  ph_extract := ut_fibheapExtractMin;
  ph_decrease := ut_fibheapDecreaseKey;
  ph_delete := ut_fibheapDelete;
  ph_elems := fids;
  ph_ok := heap_ok }.

Lemma heap_ok_nil key : heap_ok key [].
Proof. split_and!; [apply forest_ok_nil|constructor|done]. Qed.

Lemma fibheap_laws_ok : PrioHeapLaws fibheap.
Proof.
  constructor; unfold few; simpl.
  - intros key. split; [apply heap_ok_nil|done].
  - intros key key' h Hh Hk. by eapply heap_key.
  - intros key h Hh. apply Hh.
  - intros key [|r h] Hh; simpl; [done|]. split; [|by apply heap_min].
    rewrite fids_cons. by left.
  - intros key fhdef h x. apply fib_insert_ok.
  - intros key fhdef a b Ha Hb Hc Hd.
    destruct (fib_merge_ok key fhdef a b Ha Hb Hc Hd) as (h & ? & ? & ?).
    exists h, []. split_and!; try done. apply heap_ok_nil.
  - intros key fhdef [|r h] Hh Hc Hcap.
    + exists []. split_and!; try done.
    + destruct Hh as (Hf & Hn & _). by apply extract_ok.
  - intros key key' fhdef h x Hh Hc Hx Hle Hk. by eapply decrease_ok.
  - intros key fhdef h x. apply delete_ok.
Qed.

#[global] Instance fibheap_laws : PrioHeapLaws fibheap := fibheap_laws_ok.

(** C23: Fibonacci heaps are priority queues: every operation succeeds, none of
    its assertions fails and the array of roots is not overrun; insertion,
    merging, extraction, deletion and the lowering of a key change the elements
    exactly as they should, and the first element always has the smallest key. *)
Theorem fibheap_refines_prioheap : PrioHeapLaws fibheap.
Proof. exact fibheap_laws_ok. Qed.

(** ** How large a degree can be *)

Lemma nodes_sub n t : n ∈ nodes t -> sublist (nodes n) (nodes t).
Proof.
  induction t as [i m d cs IH] using fnode_ind'. intros Hn.
  apply elem_of_cons in Hn as [->|Hn]; [done|]. simpl. apply sublist_cons.
  induction cs as [|c cs IHcs]; [by apply elem_of_nil in Hn|]. apply Forall_cons in IH as [IH IH'].
  simpl in *. apply elem_of_app in Hn as [Hn|Hn].
  - rewrite <- (app_nil_r (nodes n)). apply sublist_app; [auto|apply sublist_nil_l].
  - change (nodes n) with ([] ++ nodes n). apply sublist_app; [apply sublist_nil_l|auto].
Qed.

(** A node of degree [d] is in a heap of at least as many elements as the
    Fibonacci number [d + 2]. *)
Theorem fibheap_degree_bound key h n :
  heap_ok key h -> n ∈ fnodes h -> fib (S (S (Z.to_nat (fn_degree n)))) <= Z.of_nat (length (fids h)).
Proof.
  intros ((Hok & _) & _ & _) Hn. unfold fids. rewrite length_map.
  assert (Hsub : sublist (nodes n) (fnodes h)).
  { clear Hok. induction h as [|t h IH]; [by apply elem_of_nil in Hn|].
    change (n ∈ nodes t ++ fnodes h) in Hn. change (sublist (nodes n) (nodes t ++ fnodes h)).
    apply elem_of_app in Hn as [Hn|Hn].
    - rewrite <- (app_nil_r (nodes n)). apply sublist_app; [by apply nodes_sub|apply sublist_nil_l].
    - change (nodes n) with ([] ++ nodes n). apply sublist_app; [apply sublist_nil_l|auto]. }
  pose proof (sublist_length _ _ Hsub). pose proof (Forall_forall (node_ok key) (fnodes h)) as [Hf _].
  destruct (Hf Hok n Hn) as [-> _]. rewrite Nat2Z.id. etrans; [apply (degree_size key)|lia].
  apply Forall_forall. intros x Hx. apply Hf; [done|]. eapply sublist_subseteq; [exact Hsub|done].
Qed.

(** The size of the address space does not bound the degree by its number of
    bits: with pointers of 32 bits there are 32 roots in the array, and this many
    nodes of 20 bytes fit, for which a degree of 32 is not excluded. *)
Lemma fibheap_degree_32 : 20 * fib 34 < 2 ^ 32.
Proof. vm_compute. reflexivity. Qed.

(** ** Elements that carry their keys *)

Section Keyed.
Context {H : Type} `{PrioHeapLaws H} {E : Type} (tsched : E -> Z) (off : Z).
Implicit Types (m : gmap Z E) (h : H).

Definition key_of m (a : Z) : Z := match m !! a with Some e => tsched e | None => off end.

(** The element at [a] is to be on the heap. *)
Definition on_heap m (a : Z) : Prop := exists e, m !! a = Some e /\ tsched e <> off.

Definition keyed_ok m h : Prop := ph_ok (key_of m) h /\ forall a, a ∈ ph_elems h <-> on_heap m a.

(** The same while the element [a], which is not on the heap, is changed. *)
Definition keyed_but (a : Z) m h : Prop :=
  ph_ok (key_of m) h /\ (a ∉ ph_elems h) /\ forall x, x <> a -> (x ∈ ph_elems h <-> on_heap m x).

Lemma key_of_insert m a e x : key_of (<[a := e]> m) x = if decide (x = a) then tsched e else key_of m x.
Proof.
  unfold key_of. destruct (decide (x = a)) as [->|Hne].
  - by rewrite lookup_insert_eq.
  - by rewrite lookup_insert_ne.
Qed.

Lemma on_heap_ne m a x e : x <> a -> (on_heap (<[a := e]> m) x <-> on_heap m x).
Proof. intros Hne. unfold on_heap. by rewrite lookup_insert_ne. Qed.

Lemma on_heap_eq m a e : on_heap (<[a := e]> m) a <-> tsched e <> off.
Proof. unfold on_heap. rewrite lookup_insert_eq. naive_solver. Qed.

Lemma keyed_off m h a e : keyed_ok m h -> m !! a = Some e -> tsched e = off -> keyed_but a m h.
Proof.
  intros (Hh & Hs) Ha Hl. split_and!; [done| |auto]. rewrite Hs. intros (l' & Hl' & Hne). congruence.
Qed.

Lemma keyed_absent m h a : keyed_ok m h -> m !! a = None -> keyed_but a m h.
Proof.
  intros (Hh & Hs) Ha. split_and!; [done| |auto]. rewrite Hs. intros (l' & Hl' & Hne). congruence.
Qed.

(** An element that has been taken off the heap. *)
Lemma keyed_taken m h a h' :
  keyed_ok m h -> ph_ok (key_of m) h' -> ph_elems h ≡ₚ a :: ph_elems h' -> keyed_but a m h'.
Proof.
  intros (Hh & Hs) Hh' Hp.
  pose proof (ph_nodup_law _ _ Hh) as Hn. rewrite Hp in Hn. apply NoDup_cons in Hn as [Hn _].
  split_and!; [done|done|]. intros x Hne. rewrite <- Hs, Hp, elem_of_cons. naive_solver.
Qed.

Lemma keyed_but_insert a m h e : keyed_but a m h -> keyed_but a (<[a := e]> m) h.
Proof.
  intros (Hh & Ha & Hs). split_and!; [|done|].
  - eapply ph_key_law; [exact Hh|]. intros x Hx. rewrite key_of_insert.
    destruct (decide (x = a)) as [->|]; done.
  - intros x Hne. by rewrite on_heap_ne, Hs.
Qed.

(** The element stays off the heap. *)
Lemma keyed_put_off a m h e : keyed_but a m h -> tsched e = off -> keyed_ok (<[a := e]> m) h.
Proof.
  intros Hb Hl. apply (keyed_but_insert a m h e) in Hb as (Hh & Ha & Hs). split; [done|].
  intros x. destruct (decide (x = a)) as [->|Hne]; [|auto]. rewrite on_heap_eq. tauto.
Qed.

Lemma keyed_forget a m h : keyed_but a m h -> keyed_ok (delete a m) h.
Proof.
  intros (Hh & Ha & Hs). split.
  - eapply ph_key_law; [exact Hh|]. intros x Hx. unfold key_of. rewrite lookup_delete_ne; [done|congruence].
  - intros x. unfold on_heap. destruct (decide (x = a)) as [->|Hne].
    + rewrite lookup_delete_eq. naive_solver.
    + rewrite lookup_delete_ne by done. by apply Hs.
Qed.

(** The element goes onto the heap. *)
Lemma keyed_put_on a m h e fhdef :
  keyed_but a m h -> tsched e <> off -> cmp_ok (key_of (<[a := e]> m)) fhdef ->
  exists h', ph_insert fhdef h a = Some h' /\ keyed_ok (<[a := e]> m) h'.
Proof.
  intros Hb Hon Hc. apply (keyed_but_insert a m h e) in Hb as (Hh & Ha & Hs).
  destruct (ph_insert_law _ _ h a Hh Hc Ha) as (h' & E' & Hok & Hp). exists h'. split; [done|]. split; [done|].
  intros x. rewrite Hp, elem_of_cons. destruct (decide (x = a)) as [->|Hne].
  - rewrite on_heap_eq. tauto.
  - rewrite Hs by done. naive_solver.
Qed.

(** A change that does not move the element on the heap. *)
Lemma keyed_same m h a e e' :
  keyed_ok m h -> m !! a = Some e -> tsched e' = tsched e -> keyed_ok (<[a := e']> m) h.
Proof.
  intros (Hh & Hs) Ha Hl. split.
  - eapply ph_key_law; [exact Hh|]. intros x Hx. rewrite key_of_insert.
    destruct (decide (x = a)) as [->|]; [|done]. unfold key_of. by rewrite Ha, Hl.
  - intros x. rewrite Hs. destruct (decide (x = a)) as [->|Hne]; [|by rewrite on_heap_ne].
    rewrite on_heap_eq, Hl. unfold on_heap. rewrite Ha. naive_solver.
Qed.

(** A change that moves it forward. *)
Lemma keyed_lower m h a e e' fhdef :
  keyed_ok m h -> m !! a = Some e -> tsched e <> off -> tsched e' <> off -> tsched e' <= tsched e ->
  cmp_ok (key_of (<[a := e']> m)) fhdef ->
  exists h', ph_decrease fhdef h a = Some h' /\ keyed_ok (<[a := e']> m) h'.
Proof.
  intros [Hh Hs] Ha Hon Hon' Hle Hc.
  destruct (ph_decrease_law (key_of m) (key_of (<[a := e']> m)) fhdef h a) as (h' & E' & Hok & Hp);
    [done|done|apply Hs; by exists e| | |].
  - rewrite key_of_insert, decide_True by done. unfold key_of. by rewrite Ha.
  - intros y _ Hne. by rewrite key_of_insert, decide_False.
  - exists h'. split; [done|]. split; [done|]. intros x. rewrite Hp, Hs.
    destruct (decide (x = a)) as [->|Hne]; [|by rewrite on_heap_ne].
    rewrite on_heap_eq. split; [done|]. intros _. by exists e.
Qed.

(** The first element, and what is left without it. *)
Lemma keyed_extract m h fhdef :
  keyed_ok m h -> cmp_ok (key_of m) fhdef -> few h ->
  match ph_min h with
  | None => forall a e, m !! a = Some e -> tsched e = off
  | Some a => exists e h', m !! a = Some e /\ tsched e <> off /\
      ph_extract fhdef h = Some (h', Some a) /\ keyed_but a m h' /\
      forall x e', m !! x = Some e' -> tsched e' = off \/ tsched e <= tsched e'
  end.
Proof.
  intros [Hh Hs] Hc Hfew. pose proof (ph_min_law _ _ Hh) as Hm.
  assert (Hon : forall x e, m !! x = Some e -> tsched e = off \/ x ∈ ph_elems h).
  { intros x e Hx. destruct (decide (tsched e = off)); [auto|]. right. apply Hs. by exists e. }
  destruct (ph_extract_law _ fhdef h Hh Hc Hfew) as (h' & E' & Hh' & Hp).
  destruct (ph_min h) as [a|] eqn:Hmin.
  - destruct Hm as [Hin Hm]. pose proof Hin as Hin'. apply Hs in Hin' as (e & Ha & He). exists e, h'.
    split_and!; try done; [apply (keyed_taken m h a h'); [by split|done|exact Hp]|].
    intros x e' Hx. destruct (Hon x e' Hx) as [|Hx']; [by left|right]. specialize (Hm x Hx').
    unfold key_of in Hm. by rewrite Ha, Hx in Hm.
  - intros a e Ha. destruct (Hon a e Ha) as [|Hx]; [done|]. rewrite Hm in Hx. by apply elem_of_nil in Hx.
Qed.

Lemma keyed_delete m h a e fhdef :
  keyed_ok m h -> cmp_ok (key_of m) fhdef -> few h -> m !! a = Some e -> tsched e <> off ->
  exists h', ph_delete fhdef h a = Some h' /\ keyed_but a m h'.
Proof.
  intros Hok Hc Hf Ha Hon.
  destruct (ph_delete_law _ fhdef h a (proj1 Hok) Hc) as (h' & E' & Hh & Hp); [|done|].
  { apply Hok. by exists e. }
  exists h'. split; [done|]. by eapply keyed_taken.
Qed.

Lemma keyed_few m h : keyed_ok m h -> Z.of_nat (size m) < HEAP_CAPACITY -> few h.
Proof.
  intros (Hh & Hs) Hr. unfold few.
  enough (length (ph_elems h) <= size m)%nat by lia.
  rewrite <- size_dom, <- (size_list_to_set (C := gset Z) (ph_elems h)) by (by eapply ph_nodup_law).
  apply subseteq_size. intros x Hx. apply elem_of_list_to_set, Hs in Hx as (l & Hl & _).
  apply elem_of_dom. eauto.
Qed.
End Keyed.

(** The comparison functions compare the times. *)
Definition cmp3 (a b : Z) : Z := if a =? b then 0 else if a <? b then -1 else 1.

Lemma cmp3_ok (key : Z -> Z) : cmp_ok key (fun a b => cmp3 (key a) (key b)).
Proof.
  intros a b. unfold cmp3. destruct (Z.eqb_spec (key a) (key b)); [lia|].
  destruct (Z.ltb_spec (key a) (key b)); lia.
Qed.
