(* ===== verification/Bitset.v ===== *)
(** * Bit sets of the protocol: [src/services/ddsi2e/core/q_bitset_template.c]

    The bitmaps of AckNack, NackFrag and Gap submessages: an array of 32-bit
    words in which bit [idx] is bit [31 - idx mod 32] of word [idx / 32].  The
    array is the list of its words; an access outside it is [None]. *)

From Stdlib Require Import ZArith Lia.
From stdpp Require Import prelude.
From S2P Require Import Prelude.

Section Bitset.
Implicit Types (numbits idx : Z) (bits : list Z).

(** [1u << (31 - (idx%32))] *)
Definition bit_mask idx : Z := Z.shiftl 1 (31 - idx mod 32).

(** The complement of a 32-bit word. *)
Definition not32 (x : Z) : Z := 2 ^ 32 - 1 - x.

Definition nn_bitset_isset numbits bits idx : option bool :=
  if idx <? numbits
  then w ← bits !! Z.to_nat (idx / 32); Some (negb (Z.land w (bit_mask idx) =? 0))
  else Some false.

Definition nn_bitset_set numbits bits idx : option (list Z) :=
  if idx <? numbits
  then w ← bits !! Z.to_nat (idx / 32);
       Some (<[Z.to_nat (idx / 32) := Z.lor w (bit_mask idx)]> bits)
  else None.

Definition nn_bitset_clear numbits bits idx : option (list Z) :=
  if idx <? numbits
  then w ← bits !! Z.to_nat (idx / 32);
       Some (<[Z.to_nat (idx / 32) := Z.land w (not32 (bit_mask idx))]> bits)
  else None.

(** [memset] of the first [n] words to the word [w]. *)
Definition memset_words (n : nat) (w : Z) bits : option (list Z) :=
  if decide (n <= length bits)%nat then Some (replicate n w ++ drop n bits) else None.

Definition bitset_words numbits : nat := Z.to_nat (wrap_u 32 (numbits + 31) / 32).

Definition nn_bitset_zero numbits bits : option (list Z) :=
  memset_words (bitset_words numbits) 0 bits.

Definition nn_bitset_one numbits bits : option (list Z) :=
  bits' ← memset_words (bitset_words numbits) (2 ^ 32 - 1) bits;
  let k := Z.to_nat (numbits / 32) in
  let n := numbits mod 32 in
  w ← bits' !! k;
  Some (<[k := Z.land w (not32 (Z.shiftr (2 ^ 32 - 1) n))]> bits').

(** ** What the operations do *)

(** Membership, for in-range indices. *)
Definition bit_at bits idx : bool :=
  match bits !! Z.to_nat (idx / 32) with
  | Some w => Z.testbit w (31 - idx mod 32)
  | None => false
  end.

Definition word_ok (w : Z) : Prop := in_u 32 w.
Definition bits_ok numbits bits : Prop :=
  0 <= numbits <= 2 ^ 31 /\ Forall word_ok bits /\ numbits <= 32 * Z.of_nat (length bits).

Lemma idx_word_lt numbits bits idx :
  bits_ok numbits bits -> 0 <= idx < numbits ->
  exists w, bits !! Z.to_nat (idx / 32) = Some w /\ word_ok w.
Proof.
  intros (Hn & Hf & Hl) Hi.
  assert (Hlt : (Z.to_nat (idx / 32) < length bits)%nat).
  { assert (idx / 32 < Z.of_nat (length bits)) by (apply Z.div_lt_upper_bound; lia).
    pose proof (Z.div_pos idx 32). lia. }
  apply lookup_lt_is_Some in Hlt as [w Hw]. exists w. split; [done|].
  rewrite Forall_forall in Hf. apply Hf. by eapply list_elem_of_lookup_2.
Qed.

Lemma mask_range idx : 0 <= 31 - idx mod 32 < 32.
Proof. pose proof (Z.mod_pos_bound idx 32). lia. Qed.

Lemma mask_testbit idx n :
  0 <= n -> Z.testbit (bit_mask idx) n = (n =? 31 - idx mod 32).
Proof.
  intros Hn. unfold bit_mask. pose proof (mask_range idx).
  rewrite Z.shiftl_1_l, Z.pow2_bits_eqb by lia. by rewrite Z.eqb_sym.
Qed.

Lemma land_mask_testbit w idx :
  negb (Z.land w (bit_mask idx) =? 0) = Z.testbit w (31 - idx mod 32).
Proof.
  pose proof (mask_range idx) as Hr.
  destruct (Z.testbit w (31 - idx mod 32)) eqn:Eb.
  - apply negb_true_iff, Z.eqb_neq. intros H0.
    assert (Hb : Z.testbit (Z.land w (bit_mask idx)) (31 - idx mod 32) = true).
    { rewrite Z.land_spec, Eb, mask_testbit, Z.eqb_refl by lia. done. }
    rewrite H0, Z.bits_0 in Hb. done.
  - apply negb_false_iff, Z.eqb_eq, Z.bits_inj'. intros n Hn.
    rewrite Z.land_spec, Z.bits_0, mask_testbit by lia.
    destruct (Z.eqb_spec n (31 - idx mod 32)) as [->|]; [by rewrite Eb|].
    apply andb_false_r.
Qed.

Lemma isset_bit_at numbits bits idx :
  bits_ok numbits bits -> 0 <= idx ->
  nn_bitset_isset numbits bits idx = Some (bool_decide (idx < numbits) && bit_at bits idx).
Proof.
  intros Hok Hi. unfold nn_bitset_isset, bit_at. destruct (Z.ltb_spec idx numbits).
  - rewrite bool_decide_eq_true_2 by done.
    destruct (idx_word_lt numbits bits idx Hok ltac:(lia)) as (w & -> & _). simpl.
    by rewrite land_mask_testbit.
  - by rewrite bool_decide_eq_false_2 by lia.
Qed.

(** Two indices in the same word are told apart by their remainder. *)
Lemma idx_split i j :
  0 <= i -> 0 <= j -> Z.to_nat (i / 32) = Z.to_nat (j / 32) -> i mod 32 = j mod 32 -> i = j.
Proof.
  intros Hi Hj Hq Hr. pose proof (Z.div_pos i 32). pose proof (Z.div_pos j 32).
  assert (i / 32 = j / 32) by lia.
  rewrite (Z.div_mod i 32), (Z.div_mod j 32) by lia. congruence.
Qed.

Lemma word_ok_bits w : word_ok w <-> 0 <= w /\ forall n, 32 <= n -> Z.testbit w n = false.
Proof.
  unfold word_ok, in_u. split.
  - intros Hw. split; [lia|]. intros n Hn.
    apply Z.bits_above_log2; [lia|]. destruct (Z.eq_dec w 0) as [->|]; [simpl; lia|].
    apply Z.log2_lt_pow2; [lia|]. apply Z.lt_le_trans with (2 ^ 32); [lia|].
    by apply Z.pow_le_mono_r.
  - intros [H0 Hb]. split; [done|].
    destruct (Z.lt_ge_cases w (2 ^ 32)) as [|Hge]; [done|exfalso].
    assert (Hl : 32 <= Z.log2 w) by (apply Z.log2_le_pow2; lia).
    pose proof (Hb _ Hl) as Hx. by rewrite Z.bit_log2 in Hx by lia.
Qed.

Lemma not32_testbit x n :
  word_ok x -> 0 <= n < 32 -> Z.testbit (not32 x) n = negb (Z.testbit x n).
Proof.
  intros Hx Hn. unfold not32.
  replace (2 ^ 32 - 1 - x) with ((- x - 1) mod 2 ^ 32).
  - rewrite Z.mod_pow2_bits_low by lia. replace (- x - 1) with (Z.lnot x) by (unfold Z.lnot; lia).
    apply Z.lnot_spec; lia.
  - rewrite <- (Z.mod_add _ 1) by lia. replace (- x - 1 + 1 * 2 ^ 32) with (2 ^ 32 - 1 - x) by lia.
    apply Z.mod_small. unfold word_ok, in_u in Hx. lia.
Qed.

Lemma mask_ok idx : word_ok (bit_mask idx).
Proof.
  apply word_ok_bits. pose proof (mask_range idx) as Hr. split.
  - unfold bit_mask. rewrite Z.shiftl_1_l. apply Z.pow_nonneg. lia.
  - intros n Hn. rewrite mask_testbit by lia. apply Z.eqb_neq. lia.
Qed.

(** [nn_bitset_set] succeeds, adds [idx] and leaves the rest alone. *)
Lemma set_spec numbits bits idx :
  bits_ok numbits bits -> 0 <= idx < numbits ->
  exists bits', nn_bitset_set numbits bits idx = Some bits' /\ bits_ok numbits bits' /\
    length bits' = length bits /\
    forall j, 0 <= j -> bit_at bits' j = (j =? idx) || bit_at bits j.
Proof.
  intros Hok Hi. destruct (idx_word_lt numbits bits idx Hok Hi) as (w & Hw & Hwok).
  unfold nn_bitset_set. rewrite Hw. destruct (Z.ltb_spec idx numbits); [|lia]. simpl.
  pose proof (lookup_lt_Some _ _ _ Hw) as Hlt.
  eexists. split; [done|]. destruct Hok as (Hn & Hf & Hl). split; [split; [done|split]|split].
  - apply Forall_insert; [done|]. apply word_ok_bits. split.
    + apply Z.lor_nonneg. pose proof (mask_ok idx). unfold word_ok, in_u in *. lia.
    + intros n Hnn. rewrite Z.lor_spec.
      by rewrite (proj2 (proj1 (word_ok_bits w) Hwok)), (proj2 (proj1 (word_ok_bits _) (mask_ok idx))).
  - by rewrite length_insert.
  - by rewrite length_insert.
  - intros j Hj. unfold bit_at. pose proof (mask_range j) as Hr.
    destruct (Nat.eq_dec (Z.to_nat (idx / 32)) (Z.to_nat (j / 32))) as [He|Hne].
    + rewrite <- He, list_lookup_insert_eq, Hw by done.
      rewrite Z.lor_spec, mask_testbit, orb_comm by lia. f_equal.
      destruct (Z.eqb_spec j idx) as [->|Hne]; [by rewrite Z.eqb_refl|].
      apply Z.eqb_neq. intros He'. apply Hne, idx_split; try lia.
    + rewrite list_lookup_insert_ne by done. destruct (Z.eqb_spec j idx); [congruence|done].
Qed.

(** [nn_bitset_clear] succeeds, removes [idx] and leaves the rest alone. *)
Lemma clear_spec numbits bits idx :
  bits_ok numbits bits -> 0 <= idx < numbits ->
  exists bits', nn_bitset_clear numbits bits idx = Some bits' /\ bits_ok numbits bits' /\
    forall j, 0 <= j -> bit_at bits' j = negb (j =? idx) && bit_at bits j.
Proof.
  intros Hok Hi. destruct (idx_word_lt numbits bits idx Hok Hi) as (w & Hw & Hwok).
  unfold nn_bitset_clear. rewrite Hw. destruct (Z.ltb_spec idx numbits); [|lia]. simpl.
  pose proof (lookup_lt_Some _ _ _ Hw) as Hlt.
  eexists. split; [done|]. destruct Hok as (Hn & Hf & Hl). split; [split; [done|split]|].
  - apply Forall_insert; [done|]. apply word_ok_bits. split.
    + apply Z.land_nonneg. unfold word_ok, in_u in Hwok. lia.
    + intros n Hnn. rewrite Z.land_spec. by rewrite (proj2 (proj1 (word_ok_bits w) Hwok)).
  - by rewrite length_insert.
  - intros j Hj. unfold bit_at. pose proof (mask_range j) as Hr.
    destruct (Nat.eq_dec (Z.to_nat (idx / 32)) (Z.to_nat (j / 32))) as [He|Hne].
    + rewrite <- He, list_lookup_insert_eq, Hw by done.
      rewrite Z.land_spec, not32_testbit, mask_testbit, andb_comm by (lia || apply mask_ok). do 2 f_equal.
      destruct (Z.eqb_spec j idx) as [->|Hne]; [by rewrite Z.eqb_refl|].
      apply Z.eqb_neq. intros He'. apply Hne, idx_split; try lia.
    + rewrite list_lookup_insert_ne by done. destruct (Z.eqb_spec j idx); [congruence|done].
Qed.

Lemma bitset_words_eq numbits :
  0 <= numbits <= 2 ^ 31 -> bitset_words numbits = Z.to_nat ((numbits + 31) / 32).
Proof. intros Hn. unfold bitset_words, wrap_u. by rewrite Z.mod_small by lia. Qed.

Lemma words_le numbits bits :
  bits_ok numbits bits -> (bitset_words numbits <= length bits)%nat.
Proof.
  intros (Hn & _ & Hl). rewrite bitset_words_eq by done.
  assert ((numbits + 31) / 32 < Z.of_nat (length bits) + 1)
    by (apply Z.div_lt_upper_bound; lia). lia.
Qed.

Lemma idx_in_words numbits j :
  0 <= numbits <= 2 ^ 31 -> 0 <= j < numbits -> (Z.to_nat (j / 32) < bitset_words numbits)%nat.
Proof.
  intros Hn Hj. rewrite bitset_words_eq by done. apply Z2Nat.inj_lt.
  - apply Z.div_pos; lia.
  - apply Z.div_pos; lia.
  - apply Z.lt_le_trans with (j / 32 + 1); [lia|].
    replace (j / 32 + 1) with ((j + 1 * 32) / 32) by (rewrite Z.div_add by lia; lia).
    apply Z.div_le_mono; lia.
Qed.

(** [nn_bitset_zero] succeeds and clears every bit of the set. *)
Lemma zero_spec numbits bits :
  bits_ok numbits bits ->
  exists bits', nn_bitset_zero numbits bits = Some bits' /\ bits_ok numbits bits' /\
    length bits' = length bits /\ forall j, 0 <= j < numbits -> bit_at bits' j = false.
Proof.
  intros Hok. pose proof (words_le numbits bits Hok) as Hw. destruct Hok as (Hn & Hf & Hl).
  unfold nn_bitset_zero, memset_words. rewrite decide_True by done.
  assert (Hlen : length (replicate (bitset_words numbits) 0 ++ drop (bitset_words numbits) bits)
                 = length bits) by (rewrite length_app, length_replicate, length_drop; lia).
  eexists. split; [done|]. split; [split; [done|split]|split].
  - apply Forall_app. split; [by apply Forall_replicate|by apply Forall_drop].
  - by rewrite Hlen.
  - done.
  - intros j Hj. unfold bit_at. pose proof (idx_in_words numbits j Hn Hj).
    rewrite lookup_app_l by (rewrite length_replicate; lia).
    rewrite lookup_replicate_2 by lia. apply Z.bits_0.
Qed.

Lemma ones_shift_testbit n i :
  0 <= n <= 32 -> 0 <= i < 32 -> Z.testbit (Z.shiftr (2 ^ 32 - 1) n) i = (i <? 32 - n).
Proof.
  intros Hn Hi. rewrite Z.shiftr_spec by lia. replace (2 ^ 32 - 1) with (Z.ones 32) by done.
  destruct (Z.ltb_spec i (32 - n)).
  - apply Z.ones_spec_low. lia.
  - apply Z.ones_spec_high. lia.
Qed.

(** [nn_bitset_one] sets exactly the bits of the set, given one word more
    than the set needs when [numbits] is a multiple of 32. *)
Lemma one_spec numbits bits :
  bits_ok numbits bits -> numbits < 32 * Z.of_nat (length bits) ->
  exists bits', nn_bitset_one numbits bits = Some bits' /\
    length bits' = length bits /\ forall j, 0 <= j < numbits -> bit_at bits' j = true.
Proof.
  intros Hok Hlt. pose proof (words_le numbits bits Hok) as Hw. destruct Hok as (Hn & Hf & Hl).
  unfold nn_bitset_one, memset_words. rewrite decide_True by done. simpl.
  set (b1 := replicate (bitset_words numbits) (2 ^ 32 - 1) ++ drop (bitset_words numbits) bits).
  assert (Hlen : length b1 = length bits)
    by (unfold b1; rewrite length_app, length_replicate, length_drop; lia).
  assert (Hk : (Z.to_nat (numbits / 32) < length b1)%nat).
  { assert (numbits / 32 < Z.of_nat (length bits)) by (apply Z.div_lt_upper_bound; lia).
    pose proof (Z.div_pos numbits 32). lia. }
  destruct (lookup_lt_is_Some_2 _ _ Hk) as [w Hwk]. rewrite Hwk. simpl.
  eexists. split; [done|]. split; [by rewrite length_insert|].
  intros j Hj. unfold bit_at. pose proof (idx_in_words numbits j Hn Hj) as Hjw.
  assert (Hb1 : b1 !! Z.to_nat (j / 32) = Some (2 ^ 32 - 1)).
  { unfold b1. rewrite lookup_app_l by (rewrite length_replicate; lia).
    by rewrite lookup_replicate_2 by lia. }
  pose proof (mask_range j) as Hr.
  assert (Ho : Z.testbit (2 ^ 32 - 1) (31 - j mod 32) = true).
  { change (2 ^ 32 - 1) with (Z.ones 32). apply Z.ones_spec_low. lia. }
  destruct (Nat.eq_dec (Z.to_nat (numbits / 32)) (Z.to_nat (j / 32))) as [He|Hne].
  - rewrite <- He in Hb1 |- *. rewrite list_lookup_insert_eq by lia.
    assert (w = (2 ^ 32 - 1)) as -> by congruence.
    rewrite Z.land_spec, Ho. simpl.
    pose proof (Z.mod_pos_bound numbits 32). rewrite not32_testbit; [| |lia].
    + rewrite ones_shift_testbit by lia.
      apply negb_true_iff, Z.ltb_ge.
      pose proof (Z.div_pos numbits 32). pose proof (Z.div_pos j 32).
      rewrite (Z.div_mod numbits 32), (Z.div_mod j 32) in Hj by lia.
      assert (numbits / 32 = j / 32) by lia. lia.
    + split; [apply Z.shiftr_nonneg; lia|]. rewrite Z.shiftr_div_pow2 by lia.
      apply Z.div_lt_upper_bound; [apply Z.pow_pos_nonneg; lia|].
      assert (0 < 2 ^ (numbits mod 32)) by (apply Z.pow_pos_nonneg; lia). nia.
  - rewrite list_lookup_insert_ne by done. by rewrite Hb1.
Qed.

Lemma one_words numbits bits bits' :
  Forall word_ok bits -> nn_bitset_one numbits bits = Some bits' -> Forall word_ok bits'.
Proof.
  unfold nn_bitset_one, memset_words. intros Hf E. case_decide; [|done]. simpl in E.
  set (b1 := replicate _ _ ++ _) in E.
  assert (Hb : Forall word_ok b1).
  { apply Forall_app. split; [by apply Forall_replicate|by apply Forall_drop]. }
  destruct (b1 !! _) as [w|] eqn:Ew; [|done]. injection E as <-.
  apply Forall_insert; [done|]. pose proof (Forall_lookup_1 _ _ _ _ Hb Ew) as Hw%word_ok_bits.
  apply word_ok_bits. split; [apply Z.land_nonneg; left; apply Hw|].
  intros n Hn. rewrite Z.land_spec. by rewrite (proj2 Hw n Hn).
Qed.

(** Only the words of the set are sent. *)
Lemma bit_at_take bits n j : 0 <= j < n -> n <= 256 -> bit_at (take (bitset_words n) bits) j = bit_at bits j.
Proof.
  intros Hj Hn. unfold bit_at. rewrite lookup_take_lt; [done|]. rewrite bitset_words_eq by lia. apply Z2Nat.inj_lt; [by apply Z.div_pos; lia|by apply Z.div_pos; lia|].
  pose proof (Z.div_mod (n + 31) 32 ltac:(lia)). pose proof (Z.mod_pos_bound (n + 31) 32 ltac:(lia)). apply Z.div_lt_upper_bound; lia.
Qed.

(** With an array of exactly the words that the set needs and [numbits] a
    multiple of 32, [nn_bitset_one] accesses the word beyond the array. *)
Lemma one_overrun numbits bits :
  bits_ok numbits bits -> numbits = 32 * Z.of_nat (length bits) ->
  nn_bitset_one numbits bits = None.
Proof.
  intros Hok He. pose proof (words_le numbits bits Hok) as Hw. destruct Hok as (Hn & Hf & Hl).
  unfold nn_bitset_one, memset_words. rewrite decide_True by done. simpl.
  rewrite lookup_ge_None_2; [done|]. rewrite length_app, length_replicate, length_drop.
  assert (numbits / 32 = Z.of_nat (length bits)) as -> by (rewrite He, Z.mul_comm; by apply Z.div_mul).
  lia.
Qed.

(** [nn_bitset_set], [nn_bitset_clear] and [nn_bitset_isset] implement a
    finite set: setting or clearing an index in range changes that index and
    no other, within the array. *)
Theorem bitset_set_clear_isset numbits bits idx j :
  bits_ok numbits bits -> 0 <= idx < numbits -> 0 <= j < numbits ->
  (exists bits', nn_bitset_set numbits bits idx = Some bits' /\ bits_ok numbits bits' /\
     nn_bitset_isset numbits bits' j = if j =? idx then Some true else nn_bitset_isset numbits bits j) /\
  (exists bits', nn_bitset_clear numbits bits idx = Some bits' /\ bits_ok numbits bits' /\
     nn_bitset_isset numbits bits' j = if j =? idx then Some false else nn_bitset_isset numbits bits j).
Proof.
  intros Hok Hi Hj. split.
  - destruct (set_spec numbits bits idx Hok Hi) as (b & E & Hb & _ & Hs). exists b. split; [done|]. split; [done|].
    rewrite !isset_bit_at by (done || lia). rewrite bool_decide_eq_true_2 by lia. rewrite Hs by lia.
    by destruct (j =? idx).
  - destruct (clear_spec numbits bits idx Hok Hi) as (b & E & Hb & Hs). exists b. split; [done|]. split; [done|].
    rewrite !isset_bit_at by (done || lia). rewrite bool_decide_eq_true_2 by lia. rewrite Hs by lia.
    by destruct (j =? idx).
Qed.

(** [nn_bitset_one] writes beyond an array of exactly the words the set
    needs when the number of bits is a multiple of 32, as with the maps of 256
    bits that are passed to [nn_defrag_nackmap]. *)
Theorem bitset_one_overruns numbits bits :
  bits_ok numbits bits -> numbits = 32 * Z.of_nat (length bits) ->
  nn_bitset_one numbits bits = None.
Proof. apply one_overrun. Qed.
End Bitset.

Lemma bitset_set_clear_isset_witness :
  exists bits', nn_bitset_set 40 [0; 0] 33 = Some bits' /\ bits_ok 40 bits' /\
    nn_bitset_isset 40 bits' 33 = Some true.
Proof.
  destruct (bitset_set_clear_isset 40 [0; 0] 33 33) as [(b & E & Hb & Hs) _];
    [split; [lia|split; [repeat constructor; lia|simpl; lia]]|lia|lia|].
  exists b. split; [exact E|]. split; [exact Hb|exact Hs].
Defined.

Lemma bitset_one_overruns_witness : nn_bitset_one 256 (replicate 8 0) = None.
Proof.
  apply bitset_one_overruns; [|reflexivity]. split; [lia|]. split; [|simpl; lia].
  repeat constructor; lia.
Defined.
