(* ===== verification/Refs.v ===== *)
(** * Reference counts of received messages

    [q_radmin.c] keeps every fragment in the receive buffer it arrived in; a
    message ([nn_rmsg]) stays alive while its reference count is not zero.
    This file holds the fragments ([nn_rdata]) and their chains, the interface
    that the message storage promises to the defragmenter and the reorder
    administration ([RmsgRefs], discharged in [Rmsg.v]), and the operations on
    the reference counts of a whole fragment chain. *)

From Stdlib Require Import ZArith Lia.
From stdpp Require Import prelude gmap.
From S2P Require Import Prelude.

(** The address of a message: its receive buffer and the offset in it. *)
Definition rmsg_addr : Type := Z * Z.

Definition RMSG_REFCOUNT_UNCOMMITTED_BIAS : Z := Z.shiftl 1 31.
Definition RMSG_REFCOUNT_RDATA_BIAS : Z := Z.shiftl 1 20.

(** [struct nn_rdata]; [nextfrag] is the position in a chain, which is a list. *)
Record rdata : Type := Rdata {
  rd_rmsg : rmsg_addr;
  rd_min : Z;
  rd_maxp1 : Z;
  rd_submsg_zoff : Z;
  rd_payload_zoff : Z;
}.

(** [None] is a failed assertion or an access to released memory. *)
Class RmsgRefs (H : Type) : Type := {
  rc_wf : H -> Prop;
  (** The reference count, 0 for a message that was freed. *)
  rc : H -> rmsg_addr -> Z;
  nn_rmsg_addbias : H -> rmsg_addr -> option H;
  nn_rmsg_rmbias_and_adjust : H -> rmsg_addr -> Z -> option H;
  nn_rmsg_rmbias_anythread : H -> rmsg_addr -> option H;
  nn_rmsg_unref : H -> rmsg_addr -> option H;
}.

Definition rc_upd {H} `{!RmsgRefs H} (h h' : H) (m : rmsg_addr) (d : Z) : Prop :=
  forall m', rc h' m' = rc h m' + if decide (m' = m) then d else 0.

Class RmsgRefsLaws (H : Type) `{!RmsgRefs H} : Prop := {
  rc_range : forall h m, rc_wf h -> 0 <= rc h m < 2 ^ 32;
  addbias_spec : forall h m,
    rc_wf h -> RMSG_REFCOUNT_UNCOMMITTED_BIAS <= rc h m ->
    rc h m + RMSG_REFCOUNT_RDATA_BIAS < 2 ^ 32 ->
    exists h', nn_rmsg_addbias h m = Some h' /\ rc_wf h' /\
               rc_upd h h' m RMSG_REFCOUNT_RDATA_BIAS;
  rmbias_and_adjust_spec : forall h m adjust,
    rc_wf h -> 0 <= adjust < RMSG_REFCOUNT_RDATA_BIAS ->
    RMSG_REFCOUNT_RDATA_BIAS - adjust <= rc h m ->
    exists h', nn_rmsg_rmbias_and_adjust h m adjust = Some h' /\ rc_wf h' /\
               rc_upd h h' m (adjust - RMSG_REFCOUNT_RDATA_BIAS);
  rmbias_anythread_spec : forall h m,
    rc_wf h -> RMSG_REFCOUNT_RDATA_BIAS <= rc h m ->
    exists h', nn_rmsg_rmbias_anythread h m = Some h' /\ rc_wf h' /\
               rc_upd h h' m (- RMSG_REFCOUNT_RDATA_BIAS);
  unref_spec : forall h m,
    rc_wf h -> 1 <= rc h m ->
    exists h', nn_rmsg_unref h m = Some h' /\ rc_wf h' /\ rc_upd h h' m (-1);
}.

(** The number of fragments of message [m] in a chain. *)
Fixpoint refs_to (m : rmsg_addr) (chain : list rdata) : Z :=
  match chain with
  | [] => 0
  | rd :: chain' => (if decide (m = rd_rmsg rd) then 1 else 0) + refs_to m chain'
  end.

Lemma refs_to_app m c1 c2 : refs_to m (c1 ++ c2) = refs_to m c1 + refs_to m c2.
Proof. induction c1 as [|x c1 IH]; simpl; [done|]. rewrite IH. lia. Qed.

Lemma refs_to_nonneg m c : 0 <= refs_to m c.
Proof. induction c as [|x c IH]; simpl; [done|]. case_decide; lia. Qed.

Section Refs.
Context {H : Type} `{!RmsgRefs H}.

Definition nn_rdata_addbias (h : H) (rd : rdata) : option H :=
  nn_rmsg_addbias h (rd_rmsg rd).

Definition nn_rdata_rmbias_and_adjust (h : H) (rd : rdata) (adjust : Z) : option H :=
  nn_rmsg_rmbias_and_adjust h (rd_rmsg rd) adjust.

Definition nn_rdata_rmbias_anythread (h : H) (rd : rdata) : option H :=
  nn_rmsg_rmbias_anythread h (rd_rmsg rd).

Definition nn_rdata_unref (h : H) (rd : rdata) : option H :=
  nn_rmsg_unref h (rd_rmsg rd).

Fixpoint nn_fragchain_adjust_refcount (h : H) (frag : list rdata) (adjust : Z) : option H :=
  match frag with
  | [] => Some h
  | rd :: frag1 =>
      h ← nn_rdata_rmbias_and_adjust h rd adjust; nn_fragchain_adjust_refcount h frag1 adjust
  end.

Fixpoint nn_fragchain_rmbias_anythread (h : H) (frag : list rdata) (_adjust : Z) : option H :=
  match frag with
  | [] => Some h
  | rd :: frag1 =>
      h ← nn_rdata_rmbias_anythread h rd; nn_fragchain_rmbias_anythread h frag1 _adjust
  end.

Fixpoint nn_fragchain_unref (h : H) (frag : list rdata) : option H :=
  match frag with
  | [] => Some h
  | rd :: frag1 => h ← nn_rdata_unref h rd; nn_fragchain_unref h frag1
  end.

Context `{!RmsgRefsLaws H}.

(** What a walk over a chain does to the counts, given what it does to one
    fragment. *)
Lemma chain_walk (f : H -> rdata -> option H) (d : Z) (walk : H -> list rdata -> option H) :
  (forall h, walk h [] = Some h) ->
  (forall h rd c, walk h (rd :: c) = h ← f h rd; walk h c) ->
  0 <= d ->
  (forall h rd, rc_wf h -> d <= rc h (rd_rmsg rd) ->
     exists h', f h rd = Some h' /\ rc_wf h' /\ rc_upd h h' (rd_rmsg rd) (- d)) ->
  forall c h, rc_wf h -> (forall m, d * refs_to m c <= rc h m) ->
  exists h', walk h c = Some h' /\ rc_wf h' /\ forall m, rc h' m = rc h m - d * refs_to m c.
Proof.
  intros Hnil Hcons Hd Hf c. induction c as [|rd c IH]; intros h Hwf Hc.
  - exists h. rewrite Hnil. repeat split; auto. intros; simpl; lia.
  - destruct (Hf h rd Hwf) as (h1 & E1 & Hwf1 & Hu1).
    { specialize (Hc (rd_rmsg rd)). simpl in Hc. rewrite decide_True in Hc by done.
      pose proof (refs_to_nonneg (rd_rmsg rd) c). nia. }
    destruct (IH h1 Hwf1) as (h2 & E2 & Hwf2 & Hu2).
    { intros m. specialize (Hc m). rewrite Hu1. simpl in Hc. case_decide; subst; lia. }
    exists h2. rewrite Hcons, E1. simpl. split; [done|]. split; [done|].
    intros m. rewrite Hu2, Hu1. simpl. case_decide; lia.
Qed.

Lemma fragchain_adjust_spec h c adjust :
  rc_wf h -> 0 <= adjust < RMSG_REFCOUNT_RDATA_BIAS ->
  (forall m, (RMSG_REFCOUNT_RDATA_BIAS - adjust) * refs_to m c <= rc h m) ->
  exists h', nn_fragchain_adjust_refcount h c adjust = Some h' /\ rc_wf h' /\
    forall m, rc h' m = rc h m - (RMSG_REFCOUNT_RDATA_BIAS - adjust) * refs_to m c.
Proof.
  intros Hwf Ha. apply (chain_walk (fun h rd => nn_rdata_rmbias_and_adjust h rd adjust) _
    (fun h c => nn_fragchain_adjust_refcount h c adjust)); auto; [lia|].
  intros h' rd Hwf' Hle. destruct (rmbias_and_adjust_spec h' (rd_rmsg rd) adjust)
    as (h2 & E & Hw & Hu); auto. exists h2. split; [done|]. split; [done|].
  intros m. rewrite Hu. case_decide; lia.
Qed.

Lemma fragchain_rmbias_anythread_spec h c a :
  rc_wf h -> (forall m, RMSG_REFCOUNT_RDATA_BIAS * refs_to m c <= rc h m) ->
  exists h', nn_fragchain_rmbias_anythread h c a = Some h' /\ rc_wf h' /\
    forall m, rc h' m = rc h m - RMSG_REFCOUNT_RDATA_BIAS * refs_to m c.
Proof.
  intros Hwf. apply (chain_walk nn_rdata_rmbias_anythread _
    (fun h c => nn_fragchain_rmbias_anythread h c a)); auto; [done|].
  intros h' rd Hwf' Hle. by apply rmbias_anythread_spec.
Qed.

Lemma fragchain_unref_spec h c :
  rc_wf h -> (forall m, refs_to m c <= rc h m) ->
  exists h', nn_fragchain_unref h c = Some h' /\ rc_wf h' /\
    forall m, rc h' m = rc h m - refs_to m c.
Proof.
  intros Hwf Hc. destruct (chain_walk nn_rdata_unref 1 nn_fragchain_unref) with (c := c) (h := h)
    as (h' & E & Hw & Hu); auto; [lia| | |].
  - intros h' rd Hwf' Hle. by apply unref_spec.
  - intros m. specialize (Hc m). lia.
  - exists h'. split; [done|]. split; [done|]. intros m. rewrite Hu. lia.
Qed.
End Refs.

(** ** Counters alone

    The reference implementation: the 32-bit counters without the storage
    behind them.  A message whose counter reaches 0 is freed, and gone. *)

Abbreviation RefCounts := (gmap rmsg_addr Z).

Definition count_of (h : RefCounts) (m : rmsg_addr) : Z := default 0 (h !! m).

(** Setting a counter, freeing the message at 0. *)
Definition set_count (h : RefCounts) (m : rmsg_addr) (n : Z) : RefCounts :=
  if n =? 0 then delete m h else <[m := n]> h.

(** [pa_sub32_nv] with its assertion. *)
Definition sub_count (h : RefCounts) (m : rmsg_addr) (n : Z) : option RefCounts :=
  if n <=? count_of h m then Some (set_count h m (wrap_u 32 (count_of h m - n))) else None.

#[global] Instance count_refs : RmsgRefs RefCounts := {|
  rc_wf := fun h => map_Forall (fun _ n => 0 < n < 2 ^ 32) h;
  rc := count_of;
  nn_rmsg_addbias := fun h m =>
    if RMSG_REFCOUNT_UNCOMMITTED_BIAS <=? count_of h m
    then Some (set_count h m (wrap_u 32 (count_of h m + RMSG_REFCOUNT_RDATA_BIAS))) else None;
  nn_rmsg_rmbias_and_adjust := fun h m adjust =>
    if (0 <=? adjust) && (adjust <? RMSG_REFCOUNT_RDATA_BIAS)
    then sub_count h m (RMSG_REFCOUNT_RDATA_BIAS - adjust) else None;
  nn_rmsg_rmbias_anythread := fun h m => sub_count h m RMSG_REFCOUNT_RDATA_BIAS;
  nn_rmsg_unref := fun h m => sub_count h m 1;
|}.

Lemma count_range (h : RefCounts) m : rc_wf h -> 0 <= count_of h m < 2 ^ 32.
Proof.
  intros Hwf. unfold count_of. destruct (h !! m) as [n|] eqn:E; simpl; [|lia].
  pose proof (Hwf m n E). simpl in *. lia.
Qed.

Lemma set_count_spec (h : RefCounts) m n :
  rc_wf h -> 0 <= n < 2 ^ 32 ->
  rc_wf (set_count h m n) /\ rc_upd h (set_count h m n) m (n - count_of h m).
Proof.
  intros Hwf Hn. unfold set_count, rc_upd. simpl in *.
  destruct (Z.eqb_spec n 0) as [->|Hne]; split.
  - by apply map_Forall_delete.
  - intros m'. cbn [rc count_refs]. unfold count_of. destruct (decide (m' = m)) as [->|Hd]; [rewrite lookup_delete_eq|rewrite lookup_delete_ne by done];
      simpl; lia.
  - apply map_Forall_insert_2; [lia|done].
  - intros m'. cbn [rc count_refs]. unfold count_of. destruct (decide (m' = m)) as [->|Hd]; [rewrite lookup_insert_eq|rewrite lookup_insert_ne by done];
      simpl; lia.
Qed.

Lemma sub_count_spec (h : RefCounts) m n :
  rc_wf h -> 0 <= n <= count_of h m ->
  exists h', sub_count h m n = Some h' /\ rc_wf h' /\ rc_upd h h' m (- n).
Proof.
  intros Hwf Hn. pose proof (count_range h m Hwf). unfold sub_count.
  destruct (Z.leb_spec n (count_of h m)); [|lia].
  assert (wrap_u 32 (count_of h m - n) = count_of h m - n) as -> by (apply Z.mod_small; lia).
  destruct (set_count_spec h m (count_of h m - n) Hwf ltac:(lia)) as [Hw Hu].
  eexists. split; [done|]. split; [done|]. intros m'. rewrite Hu. case_decide; lia.
Qed.

#[global] Instance count_refs_laws : RmsgRefsLaws RefCounts.
Proof.
  split; cbn [rc nn_rmsg_addbias nn_rmsg_rmbias_and_adjust nn_rmsg_rmbias_anythread nn_rmsg_unref count_refs].
  - intros h m. apply count_range.
  - intros h m Hwf H1 H2. pose proof (count_range h m Hwf).
    destruct (Z.leb_spec RMSG_REFCOUNT_UNCOMMITTED_BIAS (count_of h m)); [|lia].
    assert (Hs : 0 <= RMSG_REFCOUNT_RDATA_BIAS) by done.
    assert (wrap_u 32 (count_of h m + RMSG_REFCOUNT_RDATA_BIAS) =
            count_of h m + RMSG_REFCOUNT_RDATA_BIAS) as -> by (apply Z.mod_small; lia).
    destruct (set_count_spec h m (count_of h m + RMSG_REFCOUNT_RDATA_BIAS) Hwf ltac:(lia)) as [Hw Hu].
    eexists. split; [done|]. split; [done|]. intros m'. rewrite Hu. case_decide; lia.
  - intros h m a Hwf Ha H1. zcases. destruct (sub_count_spec h m (RMSG_REFCOUNT_RDATA_BIAS - a) Hwf)
      as (h' & E & Hw & Hu); [lia|]. exists h'. split; [done|]. split; [done|].
    intros m'. rewrite Hu. case_decide; lia.
  - intros h m Hwf H1. apply sub_count_spec; [done|]. split; [done|lia].
  - intros h m Hwf H1. apply sub_count_spec; [done|lia].
Qed.
