(* ===== verification/Defrag.v ===== *)
(** * The defragmenter: the DEFRAG part of [q_radmin.c]

    Fragments of samples arrive in any order, duplicated and overlapping.  For
    every sample that is not complete yet the defragmenter keeps a tree of
    disjoint byte intervals, each with the chain of the fragments that cover
    it, and the samples themselves in a tree on the sequence number.

    Pointers to tree nodes that the code caches ([lastfrag], [max_sample]) are
    the key of the node, and follow the node when the code changes its key in
    place.  The trees are any implementation of [OrdTree]; the reference counts
    any implementation of [RmsgRefs].  Memory for the administration comes from
    [nn_rmsg_alloc], which only fails when [os_malloc] returns null, which it
    never does (it aborts the process instead), so the branches for a failed
    allocation are left out.  [None] is a failed assertion or a null pointer
    access. *)

From Stdlib Require Import ZArith Lia.
From stdpp Require Import prelude.
From S2P Require Import Prelude OrdTree Bitset Refs.

(** [struct nn_rsample_info] *)
Record rsample_info : Type := RsampleInfo {
  si_seq : Z;
  si_rst : Z;                      (* receiver state, a pointer *)
  si_pwr : Z;                      (* proxy writer, a pointer *)
  si_size : Z;
  si_fragsize : Z;
  si_timestamp : Z * Z;
  si_reception_timestamp : Z;
  si_statusinfo : Z;
  si_pt_wr_info_zoff : Z;
  si_bswap : bool;
  si_complex_qos : bool;
}.

(** [struct nn_rsample_chain_elem]: a gap has no sample info. *)
Record rsample_chain_elem : Type := ChainElem {
  ce_fragchain : list rdata;
  ce_sampleinfo : option rsample_info;
}.

(** [struct nn_rsample_reorder]: the chain [sc] is the list of its elements. *)
Record rsample_reorder : Type := RsampleReorder {
  ro_sc : list rsample_chain_elem;
  ro_min : Z;
  ro_maxp1 : Z;
  ro_n_samples : Z;
}.

(** [struct nn_defrag_iv]: [first] and [last] are the ends of the chain; the
    sentinel has none. *)
Record defrag_iv : Type := DefragIv {
  iv_min : Z;
  iv_maxp1 : Z;
  iv_chain : list rdata;
}.

Inductive nn_defrag_drop_mode : Type :=
| NN_DEFRAG_DROP_OLDEST
| NN_DEFRAG_DROP_LATEST.

(** [struct nn_fragment_number_set] *)
Record fragment_number_set : Type := FragmentNumberSet {
  fn_bitmap_base : Z;
  fn_numbits : Z;
  fn_bits : list Z;
}.

(** The [for] loops of the two nackmap functions: set the bits from [i] while
    [i < base + numbits] and [i < bound]; the array and the final [i]. *)
Fixpoint set_from (n : nat) (numbits base : Z) (bits : list Z) (i : Z) : option (list Z) :=
  match n with
  | O => Some bits
  | S n' =>
      bits ← nn_bitset_set numbits bits (wrap_u 32 (i - base));
      set_from n' numbits base bits (i + 1)
  end.

Definition for_set (numbits base : Z) (bits : list Z) (i bound : Z) : option (list Z * Z) :=
  let n := Z.to_nat (Z.min (base + numbits) bound - i) in
  bits ← set_from n numbits base bits i; Some (bits, i + Z.of_nat n).

Section Defrag.
Context {T : Type -> Type} `{!OrdTree T} {H : Type} `{!RmsgRefs H}.

(** [struct nn_rsample_defrag] *)
Record rsample_defrag : Type := RsampleDefrag {
  df_fragtree : T defrag_iv;
  df_lastfrag : option Z;
  df_sampleinfo : rsample_info;
  df_seq : Z;
}.

(** [struct nn_defrag] *)
Record nn_defrag : Type := NnDefrag {
  dg_sampletree : T rsample_defrag;
  dg_max_sample : option Z;
  dg_n_samples : Z;
  dg_max_samples : Z;
  dg_drop_mode : nn_defrag_drop_mode;
}.

Implicit Types (d : nn_defrag) (s : rsample_defrag) (h : H) (rd : rdata) (info : rsample_info).

Definition nn_defrag_new (drop_mode : nn_defrag_drop_mode) (max_samples : Z) : option nn_defrag :=
  if max_samples >=? 1
  then Some (NnDefrag ot_init None 0 max_samples drop_mode)
  else None.

(** Freeing the chains of the intervals in order. *)
Fixpoint free_ivs (fragchain_free : H -> list rdata -> Z -> option H) h (ivs : list defrag_iv)
  : option H :=
  match ivs with
  | [] => Some h
  | iv :: ivs' => h ← fragchain_free h (iv_chain iv) 0; free_ivs fragchain_free h ivs'
  end.

Definition defrag_rsample_drop d h s (fragchain_free : H -> list rdata -> Z -> option H)
  : option (nn_defrag * H) :=
  if dg_n_samples d >? 0 then
    h ← free_ivs fragchain_free h (ot_elements (df_fragtree s));
    Some (NnDefrag (ot_delete df_seq (dg_sampletree d) (df_seq s)) (dg_max_sample d)
            (dg_n_samples d - 1) (dg_max_samples d) (dg_drop_mode d), h)
  else None.

Fixpoint defrag_free_loop (fuel : nat) d h : option (nn_defrag * H) :=
  match ot_find_min (dg_sampletree d) with
  | None => if dg_n_samples d =? 0 then Some (d, h) else None
  | Some s =>
      match fuel with
      | O => None
      | S fuel' =>
          '(d, h) ← defrag_rsample_drop d h s nn_fragchain_rmbias_anythread;
          defrag_free_loop fuel' d h
      end
  end.

(** [nn_defrag_free]: the counts afterwards. *)
Definition nn_defrag_free d h : option H :=
  '(_, h) ← defrag_free_loop (length (ot_elements (dg_sampletree d))) d h; Some h.

(** [node] is the key of the interval; the boolean is the returned [int]. *)
Definition defrag_try_merge_with_succ s (node : Z) : option (rsample_defrag * bool) :=
  if decide (df_lastfrag s = Some node) then Some (s, false)
  else
    nd ← ot_lookup iv_min (df_fragtree s) node;
    succ ← ot_find_succ iv_min (df_fragtree s) node;
    if iv_min succ >? iv_maxp1 nd then Some (s, false)
    else
      let succ_maxp1 := iv_maxp1 succ in
      let fragtree := ot_delete iv_min (df_fragtree s) (iv_min succ) in
      let lastfrag :=
        if decide (df_lastfrag s = Some (iv_min succ)) then Some node else df_lastfrag s in
      match iv_chain nd with
      | [] => None
      | _ =>
          let nd' := DefragIv (iv_min nd) succ_maxp1 (iv_chain nd ++ iv_chain succ) in
          Some (RsampleDefrag (ot_replace iv_min fragtree node nd') lastfrag
                  (df_sampleinfo s) (df_seq s),
                iv_maxp1 nd' >? succ_maxp1)
      end.

(** [while (defrag_try_merge_with_succ (dfsample, node)) ;] *)
Fixpoint defrag_merge_loop (fuel : nat) s (node : Z) : option rsample_defrag :=
  match fuel with
  | O => None
  | S fuel' =>
      '(s, again) ← defrag_try_merge_with_succ s node;
      if again : bool then defrag_merge_loop fuel' s node else Some s
  end.

(** As many rounds as there are intervals to merge. *)
Definition defrag_merge s (node : Z) : option rsample_defrag :=
  defrag_merge_loop (length (ot_elements (df_fragtree s))) s node.

Definition defrag_rsample_addiv s h rd : option (rsample_defrag * H) :=
  let newiv := DefragIv (rd_min rd) (rd_maxp1 rd) [rd] in
  h ← nn_rdata_addbias h rd;
  let fragtree := ot_insert iv_min (df_fragtree s) newiv in
  let lastfrag :=
    match df_lastfrag s with
    | None => Some (rd_min rd)
    | Some l => if rd_min rd >? l then Some (rd_min rd) else Some l
    end in
  Some (RsampleDefrag fragtree lastfrag (df_sampleinfo s) (df_seq s), h).

Definition defrag_rsample_new h rd info : option (rsample_defrag * H) :=
  let fragtree :=
    if rd_min rd >? 0 then ot_insert iv_min ot_init (DefragIv 0 0 []) else ot_init in
  defrag_rsample_addiv (RsampleDefrag fragtree None info (si_seq info)) h rd.

Definition reorder_rsample_new h rd info : option (rsample_reorder * H) :=
  h ← nn_rdata_addbias h rd;
  Some (RsampleReorder [ChainElem [rd] (Some info)] (si_seq info) (wrap_s 64 (si_seq info + 1)) 1, h).

Definition is_complete s : option bool :=
  iv ← ot_root (df_fragtree s);
  if (iv_min iv =? 0) && (iv_maxp1 iv >=? si_size (df_sampleinfo s))
  then if ot_is_singleton (df_fragtree s) then Some true else None
  else Some false.

Definition rsample_convert_defrag_to_reorder s : option rsample_reorder :=
  iv ← ot_root (df_fragtree s);
  Some (RsampleReorder [ChainElem (iv_chain iv) (Some (df_sampleinfo s))]
          (df_seq s) (wrap_s 64 (df_seq s + 1)) 1).

(** The sample afterwards and whether it is complete (and returned). *)
Definition defrag_add_fragment s h rd info : option (rsample_defrag * H * bool) :=
  let min := rd_min rd in
  let maxp1 := rd_maxp1 rd in
  if negb ((min <? maxp1) && (df_seq s =? si_seq info) &&
           bool_decide (df_lastfrag s = option_map iv_min (ot_find_max (df_fragtree s))))
  then None else
  lastfrag ← df_lastfrag s;
  predeq ← (if min >=? lastfrag then ot_lookup iv_min (df_fragtree s) lastfrag
            else ot_lookup_predeq iv_min (df_fragtree s) min);
  let succ := if decide (df_lastfrag s = Some (iv_min predeq)) then None
              else ot_find_succ iv_min (df_fragtree s) (iv_min predeq) in
  if iv_maxp1 predeq >=? maxp1 then Some (s, h, false)
  else if min <=? iv_maxp1 predeq then
    h ← nn_rdata_addbias h rd;
    let sampleinfo := match iv_chain predeq with [] => info | _ => df_sampleinfo s end in
    let predeq' := DefragIv (iv_min predeq) maxp1 (iv_chain predeq ++ [rd]) in
    let s := RsampleDefrag (ot_replace iv_min (df_fragtree s) (iv_min predeq) predeq')
               (df_lastfrag s) sampleinfo (df_seq s) in
    s ← defrag_merge s (iv_min predeq);
    c ← is_complete s;
    Some (s, h, c)
  else
    match succ with
    | Some succ =>
        if iv_min succ <=? maxp1 then
          h ← nn_rdata_addbias h rd;
          let succ' := DefragIv min (if maxp1 >? iv_maxp1 succ then maxp1 else iv_maxp1 succ)
                         (rd :: iv_chain succ) in
          let lastfrag' :=
            if decide (df_lastfrag s = Some (iv_min succ)) then Some min else df_lastfrag s in
          let s := RsampleDefrag (ot_replace iv_min (df_fragtree s) (iv_min succ) succ')
                     lastfrag' (df_sampleinfo s) (df_seq s) in
          s ← (if maxp1 >? iv_maxp1 succ then defrag_merge s min else Some s);
          c ← is_complete s;
          if c : bool then None else Some (s, h, false)
        else
          '(s, h) ← defrag_rsample_addiv s h rd; Some (s, h, false)
    | None =>
        '(s, h) ← defrag_rsample_addiv s h rd; Some (s, h, false)
    end.

Definition nn_rdata_is_fragment rd info : option bool :=
  if (rd_min rd <=? rd_maxp1 rd) && (rd_maxp1 rd <=? si_size info)
  then Some (negb ((rd_min rd =? 0) && (rd_maxp1 rd =? si_size info)))
  else None.

(** The administration, [*max_seq] and whether the sample may be stored. *)
Definition defrag_limit_samples d h (seq max_seq : Z) : option (nn_defrag * H * Z * bool) :=
  if dg_n_samples d <? dg_max_samples d then Some (d, h, max_seq, true)
  else
    max_sample ← dg_max_sample d;
    sample_to_drop ←
      (match dg_drop_mode d with
       | NN_DEFRAG_DROP_LATEST =>
           if seq >? max_sample then Some None
           else mx ← ot_lookup df_seq (dg_sampletree d) max_sample; Some (Some mx)
       | NN_DEFRAG_DROP_OLDEST =>
           mn ← ot_find_min (dg_sampletree d);
           if seq <? df_seq mn then Some None else Some (Some mn)
       end);
    match sample_to_drop with
    | None => Some (d, h, max_seq, false)
    | Some sample_to_drop =>
        '(d, h) ← defrag_rsample_drop d h sample_to_drop nn_fragchain_adjust_refcount;
        if df_seq sample_to_drop =? max_sample then
          let max_sample := option_map df_seq (ot_find_max (dg_sampletree d)) in
          Some (NnDefrag (dg_sampletree d) max_sample (dg_n_samples d) (dg_max_samples d)
                  (dg_drop_mode d), h, default 0 max_sample, true)
        else Some (d, h, max_seq, true)
    end.

(** Storing the sample changed by [defrag_add_fragment], and taking it out
    again in reorder format when it is complete. *)
Definition defrag_finish d h s (complete : bool)
  : option (nn_defrag * H * option rsample_reorder) :=
  let tree := ot_replace df_seq (dg_sampletree d) (df_seq s) s in
  if complete then
    if dg_n_samples d >? 0 then
      let tree := ot_delete df_seq tree (df_seq s) in
      let max_sample :=
        if decide (dg_max_sample d = Some (df_seq s))
        then option_map df_seq (ot_find_max tree) else dg_max_sample d in
      r ← rsample_convert_defrag_to_reorder s;
      Some (NnDefrag tree max_sample (dg_n_samples d - 1) (dg_max_samples d) (dg_drop_mode d),
            h, Some r)
    else None
  else
    Some (NnDefrag tree (dg_max_sample d) (dg_n_samples d) (dg_max_samples d) (dg_drop_mode d),
          h, None).

(** Inserting a new sample. *)
Definition defrag_insert_new d h rd info (max_sample : option Z)
  : option (nn_defrag * H * option rsample_reorder) :=
  '(s, h) ← defrag_rsample_new h rd info;
  Some (NnDefrag (ot_insert df_seq (dg_sampletree d) s) max_sample
          (wrap_u 32 (dg_n_samples d + 1)) (dg_max_samples d) (dg_drop_mode d), h, None).

(** The [if] cascade for a fragment, up to the assertion at the end. *)
Definition defrag_store_fragment d h rd info : option (nn_defrag * H * option rsample_reorder) :=
  let seq := si_seq info in
  let max_seq := default 0 (dg_max_sample d) in
  if seq =? max_seq then
    max_sample ← dg_max_sample d;
    s ← ot_lookup df_seq (dg_sampletree d) max_sample;
    '(s, h, c) ← defrag_add_fragment s h rd info;
    defrag_finish d h s c
  else
    '(d, h, max_seq, ok) ← defrag_limit_samples d h seq max_seq;
    if negb ok then Some (d, h, None)
    else if seq >? max_seq then
      defrag_insert_new d h rd info (Some seq)
    else
      match ot_lookup df_seq (dg_sampletree d) seq with
      | None => if seq <? max_seq then defrag_insert_new d h rd info (dg_max_sample d)
                else None
      | Some s =>
          '(s, h, c) ← defrag_add_fragment s h rd info;
          defrag_finish d h s c
      end.

(** [defrag->max_sample == ut_avlFindMax (..)] *)
Definition defrag_max_assert d : bool :=
  bool_decide (dg_max_sample d = option_map df_seq (ot_find_max (dg_sampletree d))).

Definition nn_defrag_rsample d h rd info : option (nn_defrag * H * option rsample_reorder) :=
  if dg_n_samples d >? dg_max_samples d then None else
  frag ← nn_rdata_is_fragment rd info;
  if negb frag then
    '(r, h) ← reorder_rsample_new h rd info; Some (d, h, Some r)
  else if negb (defrag_max_assert d) then None
  else
    '(d, h, r) ← defrag_store_fragment d h rd info;
    if defrag_max_assert d then Some (d, h, r) else None.

Fixpoint defrag_notegap_loop (fuel : nat) d h (o : option rsample_defrag) (maxp1 : Z)
  : option (nn_defrag * H) :=
  match o with
  | Some s =>
      if df_seq s <? maxp1 then
        match fuel with
        | O => None
        | S fuel' =>
            let s1 := ot_find_succ df_seq (dg_sampletree d) (df_seq s) in
            '(d, h) ← defrag_rsample_drop d h s nn_fragchain_adjust_refcount;
            defrag_notegap_loop fuel' d h s1 maxp1
        end
      else Some (d, h)
  | None => Some (d, h)
  end.

Definition nn_defrag_notegap d h (min maxp1 : Z) : option (nn_defrag * H) :=
  '(d, h) ← defrag_notegap_loop (length (ot_elements (dg_sampletree d))) d h
              (ot_lookup_succeq df_seq (dg_sampletree d) min) maxp1;
  Some (NnDefrag (dg_sampletree d) (option_map df_seq (ot_find_max (dg_sampletree d)))
          (dg_n_samples d) (dg_max_samples d) (dg_drop_mode d), h).

(** The [while] over the intervals of [nn_defrag_nackmap]: the bits and [i].
    [lim] is [map->bitmap_base + map->numbits]. *)
Fixpoint nackmap_loop (fuel : nat) (fragtree : T defrag_iv) (fragsz numbits base : Z)
    (bits : list Z) (i : Z) (iv : option defrag_iv) : option (list Z * Z) :=
  match iv with
  | None => Some (bits, i)
  | Some iv =>
      if i <? base + numbits then
        match fuel with
        | O => None
        | S fuel' =>
            let bound := iv_min iv / fragsz + (if iv_min iv mod fragsz =? 0 then 0 else 1) in
            '(bits, _) ← for_set numbits base bits i bound;
            nackmap_loop fuel' fragtree fragsz numbits base bits (iv_maxp1 iv / fragsz)
              (ot_find_succ iv_min fragtree (iv_min iv))
        end
      else Some (bits, i)
  end.

(** The returned [int] and the map ([None]: not written). *)
Definition nn_defrag_nackmap d (seq maxfragnum : Z) (bits : list Z) (maxsz : Z)
  : option (Z * option fragment_number_set) :=
  if maxsz >? 256 then None else
  match ot_lookup df_seq (dg_sampletree d) seq with
  | None =>
      if maxfragnum =? 2 ^ 32 - 1 then Some (-1, None)
      else
        let numbits := if maxfragnum + 1 >? maxsz then maxsz else maxfragnum + 1 in
        bits ← nn_bitset_one numbits bits;
        Some (numbits, Some (FragmentNumberSet 0 numbits bits))
  | Some s =>
      let fragsz := si_fragsize (df_sampleinfo s) in
      let size := si_size (df_sampleinfo s) in
      if fragsz =? 0 then None else
      let nfrags := wrap_u 32 (size + fragsz - 1) / fragsz in
      let maxfragnum := if maxfragnum >=? nfrags then wrap_u 32 (nfrags - 1) else maxfragnum in
      lastfrag ← df_lastfrag s;
      liv ← ot_lookup iv_min (df_fragtree s) lastfrag;
      iv ← ot_find_min (df_fragtree s);
      let base := iv_maxp1 iv / fragsz in
      let map_end :=
        if (iv_maxp1 liv <? wrap_u 32 ((maxfragnum + 1) * fragsz)) && (iv_maxp1 liv <? size)
        then maxfragnum
        else if iv_min liv >? 0 then (iv_min liv - 1) / fragsz
        else 0 in
      let numbits := if map_end <? base then 0 else map_end - base + 1 in
      let numbits := if numbits >? maxsz then maxsz else numbits in
      bits ← nn_bitset_zero numbits bits;
      '(bits, i) ← nackmap_loop (length (ot_elements (df_fragtree s))) (df_fragtree s) fragsz
                     numbits base bits base (ot_find_succ iv_min (df_fragtree s) (iv_min iv));
      '(bits, _) ← for_set numbits base bits i (base + numbits);
      Some (numbits, Some (FragmentNumberSet base numbits bits))
  end.
End Defrag.
Arguments rsample_defrag : clear implicits.
Arguments nn_defrag : clear implicits.
