(* ===== verification/DefragFacts.v ===== *)
(** * Invariants of the defragmenter

    The intervals of one sample: disjoint, not touching, starting at 0, each
    covered by its chain of fragments; what [defrag_add_fragment] does to them
    and to the reference counts. *)

From Stdlib Require Import ZArith Lia Sorting.Sorted.
From stdpp Require Import prelude.
From S2P Require Import Prelude OrdTree Bitset Refs Defrag.

(** ** Fragment chains *)

(** How a reader of a chain proceeds: every fragment has to start at or before
    the bytes already taken; the number of bytes taken in the end. *)
Fixpoint walk (off : Z) (c : list rdata) : option Z :=
  match c with
  | [] => Some off
  | rd :: c' => if rd_min rd <=? off then walk (Z.max off (rd_maxp1 rd)) c' else None
  end.

Lemma walk_app o c1 c2 : walk o (c1 ++ c2) = e ← walk o c1; walk e c2.
Proof.
  revert o. induction c1 as [|rd c1 IH]; intros o; simpl; [done|].
  destruct (_ <=? _); [apply IH|done].
Qed.

Lemma walk_ge o c e : walk o c = Some e -> o <= e.
Proof.
  revert o. induction c as [|rd c IH]; intros o; simpl; [intros [= ->]; lia|].
  destruct (_ <=? _); [|done]. intros H%IH. lia.
Qed.

Lemma walk_mono o c e o' : walk o c = Some e -> o <= o' -> walk o' c = Some (Z.max e o').
Proof.
  revert o o'. induction c as [|rd c IH]; intros o o'; simpl.
  - intros [= ->] ?. f_equal. lia.
  - destruct (Z.leb_spec (rd_min rd) o); [|done]. intros Hw Ho.
    destruct (Z.leb_spec (rd_min rd) o'); [|lia].
    pose proof (walk_ge _ _ _ Hw). rewrite (IH _ (Z.max o' (rd_maxp1 rd)) Hw) by lia. f_equal. lia.
Qed.

Lemma walk_le size o c e :
  walk o c = Some e -> o <= size -> Forall (fun rd => rd_maxp1 rd <= size) c -> e <= size.
Proof.
  revert o. induction c as [|rd c IH]; intros o; simpl; [intros [= ->]; done|].
  destruct (_ <=? _); [|done]. intros Hw Ho [H1 H2]%Forall_cons.
  eapply IH; [exact Hw|lia|done].
Qed.

(** ** Intervals *)

Definition iv_sep (a b : defrag_iv) : Prop := iv_maxp1 a < iv_min b.

Record iv_good (size : Z) (iv : defrag_iv) : Prop := {
  ig_range : 0 <= iv_min iv <= iv_maxp1 iv /\ iv_maxp1 iv <= size;
  ig_sentinel : iv_chain iv = [] -> iv_maxp1 iv = 0;
  ig_nonempty : iv_chain iv <> [] -> iv_min iv < iv_maxp1 iv;
  ig_frags : Forall (fun rd => rd_maxp1 rd <= size) (iv_chain iv);
  ig_min : iv_min iv = 0 \/ exists x, x ∈ iv_chain iv /\ rd_min x = iv_min iv;
  ig_walk : exists e, walk (iv_min iv) (iv_chain iv) = Some e /\ iv_maxp1 iv <= e;
}.

Definition ivs_ok (size : Z) (l : list defrag_iv) : Prop :=
  StronglySorted iv_sep l /\ Forall (iv_good size) l /\
  match l with iv :: _ => iv_min iv = 0 | [] => False end.

Definition covered (l : list defrag_iv) (b : Z) : Prop :=
  exists iv, iv ∈ l /\ iv_min iv <= b < iv_maxp1 iv.

Definition rd_good (size : Z) (rd : rdata) : Prop := 0 <= rd_min rd < rd_maxp1 rd /\ rd_maxp1 rd <= size.

Lemma covered_app l1 l2 b : covered (l1 ++ l2) b <-> covered l1 b \/ covered l2 b.
Proof. unfold covered. set_solver. Qed.

Lemma covered_cons iv l b : covered (iv :: l) b <-> iv_min iv <= b < iv_maxp1 iv \/ covered l b.
Proof. unfold covered. set_solver. Qed.

Lemma covered_nil b : covered [] b <-> False.
Proof. unfold covered. set_solver. Qed.

(** Merging an interval with its successor, as [defrag_merge] does it. *)
Definition frag_merge (nd : defrag_iv) (l : list defrag_iv) : list defrag_iv :=
  match l with
  | q :: l' =>
      if iv_min q >? iv_maxp1 nd then nd :: l
      else DefragIv (iv_min nd) (iv_maxp1 q) (iv_chain nd ++ iv_chain q) :: l'
  | [] => [nd]
  end.

Lemma frag_merge_sound nd l b : covered (frag_merge nd l) b -> covered (nd :: l) b.
Proof.
  destruct l as [|q l]; simpl; [done|]. rewrite Z.gtb_ltb. destruct (Z.ltb_spec (iv_maxp1 nd) (iv_min q)); [done|].
  rewrite !covered_cons. simpl. intros [Hb|]; [|tauto].
  destruct (Z.lt_ge_cases b (iv_maxp1 nd)); [left|right; left]; lia.
Qed.

Lemma frag_merge_keep nd l b :
  Forall (fun q => iv_min nd < iv_min q) l -> covered l b -> covered (frag_merge nd l) b.
Proof.
  destruct l as [|q l]; simpl; [by rewrite covered_nil|]. rewrite Z.gtb_ltb.
  destruct (Z.ltb_spec (iv_maxp1 nd) (iv_min q)); rewrite !covered_cons, Forall_cons; [tauto|].
  simpl. intros [Hq _] [Hb|Hb]; [lia|tauto].
Qed.

(** The bytes of the interval itself are kept up to the end of the interval
    it is merged with. *)
Lemma frag_merge_node nd l b :
  iv_min nd <= b < iv_maxp1 nd ->
  Forall (fun q => iv_min q <= iv_maxp1 nd -> b < iv_maxp1 q) l ->
  covered (frag_merge nd l) b.
Proof.
  destruct l as [|q l]; simpl; [rewrite covered_cons; tauto|]. rewrite Z.gtb_ltb.
  destruct (Z.ltb_spec (iv_maxp1 nd) (iv_min q)); rewrite !covered_cons, Forall_cons; [tauto|].
  simpl. intros Hb [Hq _]. lia.
Qed.

Lemma frag_merge_good size nd q :
  iv_good size nd -> iv_good size q -> iv_chain nd <> [] -> iv_min nd < iv_min q ->
  iv_min q <= iv_maxp1 nd ->
  iv_good size (DefragIv (iv_min nd) (iv_maxp1 q) (iv_chain nd ++ iv_chain q)).
Proof.
  intros [R1 S1 N1 F1 M1 (e1 & W1 & E1)] [R2 S2 N2 F2 M2 (e2 & W2 & E2)] Hne Hlt Hle.
  split; simpl; [lia| | |by apply Forall_app| |].
  - intros [? _]%app_eq_nil. done.
  - intros _. lia.
  - destruct M1 as [|(x & Hx & ?)]; [by left|right]. exists x. split; [set_solver|done].
  - exists (Z.max e2 e1). rewrite walk_app, W1. simpl.
    split; [apply (walk_mono (iv_min q)); [done|lia]|lia].
Qed.

Lemma frag_merge_ok size l1 nd l2 :
  StronglySorted iv_sep l1 -> StronglySorted iv_sep l2 -> Forall (fun p => iv_sep p nd) l1 ->
  Forall (fun p => Forall (iv_sep p) l2) l1 ->
  Forall (fun q => iv_min nd < iv_min q) l2 -> iv_chain nd <> [] ->
  Forall (iv_good size) l1 -> iv_good size nd -> Forall (iv_good size) l2 ->
  StronglySorted iv_sep (l1 ++ frag_merge nd l2) /\ Forall (iv_good size) (l1 ++ frag_merge nd l2).
Proof.
  intros S1 S2 H1 H12 Hnd Hne G1 Gn G2. destruct l2 as [|q l2]; simpl.
  - split; [|by apply Forall_app; split; [|by constructor]].
    apply StronglySorted_mid_iff. repeat split; auto.
  - apply StronglySorted_inv in S2 as [S2 Hq]. apply Forall_cons in Hnd as [Hn1 Hn2].
    apply Forall_cons in G2 as [Gq G2].
    assert (H12' : Forall (fun p => Forall (iv_sep p) l2) l1).
    { eapply Forall_impl; [exact H12|]. intros p Hp. by apply Forall_cons in Hp as [_ Hp]. }
    rewrite Z.gtb_ltb. destruct (Z.ltb_spec (iv_maxp1 nd) (iv_min q)) as [Hg|Hg]; split.
    + apply StronglySorted_mid_iff. repeat split; auto; [by constructor|].
      constructor; [done|]. eapply Forall_impl; [exact Hq|]. unfold iv_sep. intros r Hr.
      pose proof (ig_range _ _ Gq). lia.
    + apply Forall_app. split; [done|]. constructor; [done|by constructor].
    + apply StronglySorted_mid_iff. repeat split; auto.
    + apply Forall_app. split; [done|]. constructor; [|done]. by apply frag_merge_good.
Qed.

(** The fragments a list of intervals holds on to. *)
Fixpoint chains (l : list defrag_iv) : list rdata :=
  match l with [] => [] | iv :: l' => iv_chain iv ++ chains l' end.

Lemma chains_app l1 l2 : chains (l1 ++ l2) = chains l1 ++ chains l2.
Proof. induction l1 as [|iv l1 IH]; simpl; [done|]. by rewrite IH, app_assoc. Qed.

Lemma chains_merge nd l : chains (frag_merge nd l) = chains (nd :: l).
Proof. destruct l as [|q l]; simpl; [done|]. destruct (_ >? _); simpl; [done|]. by rewrite app_assoc. Qed.

(** One fragment more. *)
Definition adds_ref (rd : rdata) (l l' : list rdata) : Prop :=
  forall m, refs_to m l' = refs_to m l + if decide (m = rd_rmsg rd) then 1 else 0.

(** ** The three ways of storing a fragment *)

Section Store.
Context (size : Z) (rd : rdata) (l1 : list defrag_iv) (p : defrag_iv) (l2 : list defrag_iv).
Hypothesis Hok : ivs_ok size (l1 ++ p :: l2).
Hypothesis Hrd : rd_good size rd.
Hypothesis Hp : iv_min p <= rd_min rd.
Hypothesis Hl2 : Forall (fun q => rd_min rd < iv_min q) l2.
Hypothesis Hnc : iv_maxp1 p < rd_maxp1 rd.

Lemma store_split :
  StronglySorted iv_sep l1 /\ StronglySorted iv_sep l2 /\ Forall (fun y => iv_sep y p) l1 /\
  Forall (iv_sep p) l2 /\ Forall (fun a => Forall (iv_sep a) l2) l1 /\
  Forall (iv_good size) l1 /\ iv_good size p /\ Forall (iv_good size) l2.
Proof.
  destruct Hok as (Hs & Hg & _). apply StronglySorted_mid_iff in Hs as (? & ? & ? & ? & ?).
  apply Forall_app in Hg as [? Hg]. by apply Forall_cons in Hg as [? ?].
Qed.

Lemma head_zero nd l : iv_min nd = iv_min p -> ivs_ok size (l1 ++ p :: l2) ->
  match l1 ++ frag_merge nd l with iv :: _ => iv_min iv = 0 | [] => False end.
Proof.
  intros He (_ & _ & H0). destruct l1; simpl in *; [|done].
  destruct l as [|q l]; simpl; [congruence|]. destruct (_ >? _); simpl; congruence.
Qed.

Definition grown : defrag_iv := DefragIv (iv_min p) (rd_maxp1 rd) (iv_chain p ++ [rd]).

Lemma grow_ok :
  rd_min rd <= iv_maxp1 p -> ivs_ok size (l1 ++ frag_merge grown l2).
Proof.
  intros Hle. destruct store_split as (S1 & S2 & H1 & H2 & H12 & G1 & Gp & G2).
  destruct Hrd as [[Hr1 Hr2] Hr3]. destruct Gp as [R S N F M (e & W & E)].
  edestruct (frag_merge_ok size l1 grown l2) as [Hs Hg]; eauto.
  - eapply Forall_impl; [exact Hl2|]. simpl. intros. lia.
  - simpl. by destruct (iv_chain p).
  - split; simpl; [lia| | |apply Forall_app; split; [done|by repeat constructor]| |].
    + intros [_ ?]%app_eq_nil. done.
    + lia.
    + destruct M as [|(x & Hx & ?)]; [by left|right]. exists x. split; [set_solver|done].
    + exists (Z.max e (rd_maxp1 rd)). rewrite walk_app, W. simpl.
      destruct (Z.leb_spec (rd_min rd) e); [|lia]. split; [done|lia].
  - split; [done|]. split; [done|]. by apply head_zero.
Qed.

(** The successor extended at its head, and possibly at its end. *)
Definition headed (q : defrag_iv) : defrag_iv :=
  DefragIv (rd_min rd) (Z.max (rd_maxp1 rd) (iv_maxp1 q)) (rd :: iv_chain q).

Lemma extend_ok q l3 :
  l2 = q :: l3 -> iv_maxp1 p < rd_min rd -> iv_min q <= rd_maxp1 rd ->
  ivs_ok size ((l1 ++ [p]) ++ frag_merge (headed q) l3).
Proof.
  intros El Hgap Hle. destruct store_split as (S1 & S2 & H1 & H2 & H12 & G1 & Gp & G2).
  destruct Hrd as [[Hr1 Hr2] Hr3]. pose proof Hl2 as Hq3. rewrite El in S2, H2, H12, G2, Hq3.
  apply StronglySorted_inv in S2 as [S3 Hqs]. apply Forall_cons in H2 as [Hpq H2].
  apply Forall_cons in G2 as [Gq G3]. apply Forall_cons in Hq3 as [Hq Hl3].
  assert (H13 : Forall (fun a => Forall (iv_sep a) l3) l1).
  { eapply Forall_impl; [exact H12|]. intros a Ha. by apply Forall_cons in Ha as [_ Ha]. }
  assert (Hpr : iv_min p <= iv_maxp1 p) by (pose proof (ig_range _ _ Gp); lia).
  edestruct (frag_merge_ok size (l1 ++ [p]) (headed q) l3) as [Hs Hg]; eauto.
  - apply StronglySorted_mid_iff. repeat split; auto; [constructor|].
    eapply Forall_impl; [exact H1|]. done.
  - apply Forall_app. split; [|constructor; [done|constructor]].
    eapply Forall_impl; [exact H1|]. unfold iv_sep. simpl. intros a Ha. lia.
  - apply Forall_app. split; [done|]. by constructor.
  - apply Forall_app. split; [done|]. by constructor.
  - destruct Gq as [R S N F _ (e & W & E)].
    split; simpl; [lia|done|intros _; lia|by constructor|right; exists rd; split; [left|done]|].
    rewrite Z.leb_refl. exists (Z.max e (Z.max (rd_min rd) (rd_maxp1 rd))).
    split; [apply (walk_mono (iv_min q)); [done|lia]|lia].
  - split; [done|]. split; [done|]. destruct Hok as (_ & _ & H0). by destruct l1.
Qed.

Lemma insert_ok :
  iv_maxp1 p < rd_min rd -> Forall (fun q => rd_maxp1 rd < iv_min q) l2 ->
  ivs_ok size (l1 ++ p :: DefragIv (rd_min rd) (rd_maxp1 rd) [rd] :: l2).
Proof.
  intros Hgap Hq. destruct store_split as (S1 & S2 & H1 & H2 & H12 & G1 & Gp & G2).
  destruct Hrd as [[Hr1 Hr2] Hr3].
  assert (Hpr : iv_min p <= iv_maxp1 p) by (pose proof (ig_range _ _ Gp); lia).
  split; [|split].
  - apply StronglySorted_mid_iff. repeat split; auto.
    + by constructor.
    + rewrite Forall_forall in *. intros a Ha. constructor; [|by apply H12].
      apply H1 in Ha. unfold iv_sep in *. simpl. lia.
  - apply Forall_app. split; [done|]. constructor; [done|]. constructor; [|done].
    split; simpl; [lia|done|intros _; lia|by repeat constructor|right; exists rd; split; [left|done]|].
    rewrite Z.leb_refl. exists (Z.max (rd_min rd) (rd_maxp1 rd)). split; [done|lia].
  - destruct Hok as (_ & _ & H0). by destruct l1.
Qed.
End Store.
