(* ===== verification/DefragOps.v ===== *)
(** * Adding a fragment to a sample

    [defrag_add_fragment] against the interval lists of [DefragFacts.v]: it
    never fails, keeps the sample well-formed, loses no byte, invents no byte,
    accounts for the fragment in the reference counts and reports completion
    exactly when every byte is there. *)

From Stdlib Require Import ZArith Lia Sorting.Sorted.
From stdpp Require Import prelude.
From S2P Require Import Prelude OrdTree Bitset Refs Defrag DefragFacts.

Lemma sorted_replace {E : Type} (key : E -> Z) l1 x y l2 :
  key y = key x -> sorted key (l1 ++ x :: l2) -> sorted key (l1 ++ y :: l2).
Proof.
  intros He. rewrite !sorted_mid. unfold key_lt. rewrite He. done.
Qed.

Lemma last_key {E : Type} (key : E -> Z) l1 x l2 :
  sorted key (l1 ++ x :: l2) ->
  option_map key (last (l1 ++ x :: l2)) = Some (key x) <-> l2 = [].
Proof.
  rewrite sorted_mid. intros (_ & _ & _ & Hx & _). rewrite last_app, last_cons.
  destruct (last l2) as [z|] eqn:El; simpl.
  - split; [|intros ->; done]. intros [= He]. apply last_Some in El as [l ->].
    apply Forall_app in Hx as [_ Hx]. apply Forall_cons in Hx as [Hx _]. unfold key_lt in Hx. lia.
  - split; [|done]. intros _. by apply last_None.
Qed.

Section Ops.
Context {T : Type -> Type} `{!OrdTree T, !OrdTreeLaws T}.
Context {H : Type} `{!RmsgRefs H, !RmsgRefsLaws H}.
Implicit Types (s : rsample_defrag T) (h : H) (rd : rdata) (info : rsample_info).

Definition ivs s : list defrag_iv := ot_elements (df_fragtree s).

Record sample_ok s : Prop := {
  so_wf : ot_wf iv_min (df_fragtree s);
  so_ivs : ivs_ok (si_size (df_sampleinfo s)) (ivs s);
  so_last : df_lastfrag s = option_map iv_min (last (ivs s));
  so_seq : si_seq (df_sampleinfo s) = df_seq s;
}.

(** Some byte is missing. *)
Definition incomplete (size : Z) (l : list defrag_iv) : Prop :=
  exists b, 0 <= b < size /\ ~ covered l b.

(** ** Merging *)

Lemma merge_spec s l1 nd l2 :
  ot_wf iv_min (df_fragtree s) -> ivs s = l1 ++ nd :: l2 -> iv_chain nd <> [] ->
  df_lastfrag s = option_map iv_min (last (ivs s)) ->
  exists s', defrag_merge s (iv_min nd) = Some s' /\ ot_wf iv_min (df_fragtree s') /\
    ivs s' = l1 ++ frag_merge nd l2 /\ df_lastfrag s' = option_map iv_min (last (ivs s')) /\
    df_sampleinfo s' = df_sampleinfo s /\ df_seq s' = df_seq s.
Proof.
  intros Hwf He Hne Hl. pose proof (ot_wf_sorted _ _ Hwf) as Hs. fold (ivs s) in Hs.
  unfold defrag_merge. fold (ivs s).
  destruct (length (ivs s)) as [|n] eqn:En; [rewrite He, length_app in En; simpl in En; lia|].
  cbn [defrag_merge_loop]. unfold defrag_try_merge_with_succ. rewrite He in Hs.
  destruct (decide (df_lastfrag s = Some (iv_min nd))) as [Hd|Hd].
  - simpl. exists s. rewrite Hl, He in Hd. apply last_key in Hd as ->; [|done]. done.
  - destruct l2 as [|q l3].
    { exfalso. apply Hd. rewrite Hl, He. by apply last_key. }
    rewrite (ot_lookup_spec _ _ _ Hwf). fold (ivs s). rewrite He, l_lookup_mid by done. simpl.
    rewrite (ot_find_succ_spec _ _ l1 nd (q :: l3) Hwf He). simpl.
    destruct (iv_min q >? iv_maxp1 nd) eqn:Eg; [simpl; by exists s|].
    destruct (iv_chain nd) as [|rd0 c0] eqn:Ec; [done|]. rewrite <- Ec.
    destruct (ot_delete_spec iv_min _ (iv_min q) Hwf) as [Hwf1 He1]. fold (ivs s) in He1.
    replace (l1 ++ nd :: q :: l3) with ((l1 ++ [nd]) ++ q :: l3) in * by (by rewrite <- app_assoc).
    rewrite He, l_delete_mid, <- app_assoc in He1 by done. simpl in He1.
    destruct (ot_replace_spec iv_min _ l1 nd
      (DefragIv (iv_min nd) (iv_maxp1 q) (iv_chain nd ++ iv_chain q)) l3 Hwf1 He1) as [Hwf2 He2].
    { eapply sorted_replace; [|rewrite <- He1; by apply ot_wf_sorted]. done. }
    rewrite Z.gtb_ltb, Z.ltb_irrefl. simpl. eexists. split; [done|]. simpl.
    split; [done|]. split; [done|]. split; [|done].
    unfold ivs. cbn [df_fragtree]. rewrite He2, Hl, He.
    case_decide as Hq.
    + apply last_key in Hq as ->; [|done]. by rewrite last_snoc.
    + rewrite !last_app, !last_cons. destruct (last l3) eqn:E3; [done|].
      exfalso. apply Hq. apply last_None in E3 as ->. by rewrite last_app.
Qed.

(** ** Completion *)

Lemma incomplete_two size a b l : ivs_ok size (a :: b :: l) -> incomplete size (a :: b :: l).
Proof.
  intros (Hs & Hg & H0). apply StronglySorted_inv in Hs as [_ Ha].
  apply Forall_cons in Hg as [Ga Hg]. apply Forall_cons in Hg as [Gb _].
  exists (iv_maxp1 a). pose proof (ig_range _ _ Ga). pose proof (ig_range _ _ Gb).
  split; [apply Forall_cons in Ha as [Hab _]; unfold iv_sep in Hab; lia|].
  rewrite covered_cons. intros [?|(iv & Hiv & ?)]; [lia|].
  rewrite Forall_forall in Ha. apply Ha in Hiv. unfold iv_sep in Hiv. lia.
Qed.

Lemma is_complete_spec s :
  sample_ok s ->
  exists c, is_complete s = Some c /\
    if c : bool
    then exists iv, ivs s = [iv] /\ iv_min iv = 0 /\ iv_maxp1 iv = si_size (df_sampleinfo s)
    else incomplete (si_size (df_sampleinfo s)) (ivs s).
Proof.
  intros [Hwf Hok _ _]. unfold is_complete. pose proof (ot_root_spec (df_fragtree s)) as Hr.
  fold (ivs s) in Hr. pose proof Hok as (Hs & Hg & H0).
  destruct (ot_root (df_fragtree s)) as [iv|]; [|by rewrite Hr in H0]. simpl.
  rewrite (ot_is_singleton_spec iv_min) by done. fold (ivs s).
  destruct (ivs s) as [|a [|b l]] eqn:El; [done|..].
  - apply elem_of_cons in Hr as [->|Hr]; [|by apply elem_of_nil in Hr].
    apply Forall_cons in Hg as [Ga _]. pose proof (ig_range _ _ Ga).
    rewrite H0, Z.geb_leb. simpl.
    destruct (Z.leb_spec (si_size (df_sampleinfo s)) (iv_maxp1 a)).
    + exists true. split; [done|]. exists a. repeat split; auto. lia.
    + exists false. split; [done|]. exists (iv_maxp1 a). rewrite covered_cons, covered_nil. lia.
  - exists false. split; [|by apply incomplete_two].
    destruct ((iv_min iv =? 0) && (iv_maxp1 iv >=? si_size (df_sampleinfo s))) eqn:Ec; [exfalso|done].
    apply andb_prop in Ec as [E1%Z.eqb_eq E2]. rewrite Z.geb_leb in E2. apply Z.leb_le in E2.
    apply StronglySorted_inv in Hs as [_ Ha]. apply Forall_cons in Hg as [Ga Hg].
    pose proof (ig_range _ _ Ga). apply elem_of_cons in Hr as [->|Hr].
    + apply Forall_cons in Ha as [Hab _]. apply Forall_cons in Hg as [Gb _].
      pose proof (ig_range _ _ Gb). unfold iv_sep in Hab. lia.
    + rewrite Forall_forall in Ha. apply Ha in Hr. unfold iv_sep in Hr. lia.
Qed.

(** ** Adding a fragment *)

(** The interval at or before the new fragment. *)
Lemma predeq_spec s rd :
  sample_ok s -> 0 <= rd_min rd ->
  exists lastfrag l1 p l2, df_lastfrag s = Some lastfrag /\ ivs s = l1 ++ p :: l2 /\
    iv_min p <= rd_min rd /\ Forall (fun q => rd_min rd < iv_min q) l2 /\
    (if rd_min rd >=? lastfrag then ot_lookup iv_min (df_fragtree s) lastfrag
     else ot_lookup_predeq iv_min (df_fragtree s) (rd_min rd)) = Some p /\
    (if decide (df_lastfrag s = Some (iv_min p)) then None
     else ot_find_succ iv_min (df_fragtree s) (iv_min p)) = head l2.
Proof.
  intros [Hwf (Hs & Hg & H0) Hl _] Hmin. pose proof (ot_wf_sorted _ _ Hwf) as Hso. fold (ivs s) in Hso.
  destruct (last (ivs s)) as [z|] eqn:Ez; [|apply last_None in Ez; by rewrite Ez in H0].
  assert (Hsucc : forall l1 p l2, ivs s = l1 ++ p :: l2 ->
    (if decide (df_lastfrag s = Some (iv_min p)) then None
     else ot_find_succ iv_min (df_fragtree s) (iv_min p)) = head l2).
  { intros l1 p l2 He. case_decide as Hd.
    - rewrite Hl, <- Ez, He in Hd. rewrite He in Hso. apply last_key in Hd as ->; done.
    - by apply (ot_find_succ_spec iv_min _ l1). }
  destruct (Z.leb_spec (iv_min z) (rd_min rd)) as [Hc|Hc].
  - apply last_Some in Ez as [l1 El]. exists (iv_min z), l1, z, [].
    split; [done|]. split; [done|]. split; [done|]. split; [constructor|]. split.
    + rewrite Z.geb_leb. destruct (Z.leb_spec (iv_min z) (rd_min rd)); [|lia].
      rewrite (ot_lookup_spec _ _ _ Hwf). fold (ivs s). rewrite El in *. by apply l_lookup_mid.
    + by apply (Hsucc l1).
  - destruct (l_predeq iv_min (rd_min rd) (ivs s)) as [p|] eqn:Ep.
    + destruct (l_predeq_Some _ _ _ _ Hso Ep) as (l1 & l2 & El & Hp & Hl2).
      exists (iv_min z), l1, p, l2. repeat (split; [done|]). split.
      * rewrite Z.geb_leb. destruct (Z.leb_spec (iv_min z) (rd_min rd)); [lia|].
        by rewrite (ot_lookup_predeq_spec _ _ _ Hwf).
      * by apply (Hsucc l1).
    + apply l_predeq_None in Ep; [|done]. destruct (ivs s) as [|a l]; [done|].
      apply Forall_cons in Ep as [Ep _]. lia.
Qed.

(** What adding a fragment to a sample amounts to. *)
Record added (size : Z) rd h s h' s' (c : bool) : Prop := {
  ad_wf : rc_wf h';
  ad_ok : sample_ok s';
  ad_seq : df_seq s' = df_seq s;
  ad_size : si_size (df_sampleinfo s') = size;
  ad_keep : forall b, covered (ivs s) b -> covered (ivs s') b;
  ad_sound : forall b, covered (ivs s') b ->
    covered (ivs s) b \/ rd_min rd <= b < rd_maxp1 rd;
  ad_all : Forall (fun iv => rd_min rd < iv_min iv <= rd_maxp1 rd ->
                             rd_maxp1 rd <= iv_maxp1 iv) (ivs s) ->
    forall b, rd_min rd <= b < rd_maxp1 rd -> covered (ivs s') b;
  ad_refs : forall m,
    rc h' m - RMSG_REFCOUNT_RDATA_BIAS * refs_to m (chains (ivs s')) =
    rc h m - RMSG_REFCOUNT_RDATA_BIAS * refs_to m (chains (ivs s));
  ad_grow : forall m, rc h m <= rc h' m <=
    rc h m + if decide (m = rd_rmsg rd) then RMSG_REFCOUNT_RDATA_BIAS else 0;
  ad_frags : forall x, x ∈ chains (ivs s') -> x = rd \/ x ∈ chains (ivs s);
  ad_complete : if c then exists iv, ivs s' = [iv] /\ iv_min iv = 0 /\ iv_maxp1 iv = size
                else incomplete size (ivs s');
}.

Section Add.
Context (s : rsample_defrag T) (h h1 : H) (rd : rdata) (info : rsample_info).
Context (l1 : list defrag_iv) (p : defrag_iv) (l2 : list defrag_iv) (lastfrag : Z).
Abbreviation size := (si_size (df_sampleinfo s)).
Hypothesis Hok : sample_ok s.
Hypothesis Hsz : si_size info = size.
Hypothesis Hsq : si_seq info = df_seq s.
Hypothesis Hrd : rd_good size rd.
Hypothesis Hlf : df_lastfrag s = Some lastfrag.
Hypothesis He : ivs s = l1 ++ p :: l2.
Hypothesis Hp : iv_min p <= rd_min rd.
Hypothesis Hl2 : Forall (fun q => rd_min rd < iv_min q) l2.
Hypothesis Hnc : iv_maxp1 p < rd_maxp1 rd.
Hypothesis Hab : nn_rdata_addbias h rd = Some h1.
Hypothesis Hwf1 : rc_wf h1.
Hypothesis Hu1 : rc_upd h h1 (rd_rmsg rd) RMSG_REFCOUNT_RDATA_BIAS.

Lemma ivs_split : ivs_ok size (l1 ++ p :: l2).
Proof using Hok He. rewrite <- He. apply Hok. Qed.

Lemma refs_added (l : list defrag_iv) :
  adds_ref rd (chains (ivs s)) (chains l) ->
  forall m, rc h1 m - RMSG_REFCOUNT_RDATA_BIAS * refs_to m (chains l) =
            rc h m - RMSG_REFCOUNT_RDATA_BIAS * refs_to m (chains (ivs s)).
Proof using Hu1.
  intros Ha m. rewrite Ha, Hu1. case_decide; nia.
Qed.

Lemma grow_added m : rc h m <= rc h1 m <=
  rc h m + if decide (m = rd_rmsg rd) then RMSG_REFCOUNT_RDATA_BIAS else 0.
Proof using Hu1. rewrite Hu1. change RMSG_REFCOUNT_RDATA_BIAS with (2 ^ 20). case_decide; lia. Qed.

Lemma sorted_p2 : Forall (fun q => iv_min p < iv_min q) l2.
Proof using Hl2 Hp. eapply Forall_impl; [exact Hl2|]. simpl. lia. Qed.

Lemma gap_p2 : Forall (fun q => iv_maxp1 p < iv_min q /\ iv_min q <= iv_maxp1 q) l2.
Proof using Hok He.
  destruct ivs_split as (Hs & Hg & _). apply StronglySorted_mid_iff in Hs as (_ & _ & _ & Hs & _).
  apply Forall_app in Hg as [_ Hg]. apply Forall_cons in Hg as [_ Hg].
  rewrite Forall_forall in Hs, Hg |- *. intros q Hq. pose proof (ig_range _ _ (Hg q Hq)).
  specialize (Hs q Hq). unfold iv_sep in Hs. lia.
Qed.

(** The fragment extends [p]. *)
Lemma add_grow :
  rd_min rd <= iv_maxp1 p ->
  let sampleinfo := match iv_chain p with [] => info | _ => df_sampleinfo s end in
  exists s' c,
    (s1 ← defrag_merge (RsampleDefrag (ot_replace iv_min (df_fragtree s) (iv_min p) (grown rd p))
                         (df_lastfrag s) sampleinfo (df_seq s)) (iv_min p);
     c ← is_complete s1; Some (s1, h1, c)) = Some (s', h1, c) /\
    added size rd h s h1 s' c.
Proof using All.
  intros Hle si. pose proof ivs_split as Hi. pose proof (ot_wf_sorted _ _ (so_wf _ Hok)) as Hso.
  fold (ivs s) in Hso. rewrite He in Hso.
  destruct (ot_replace_spec iv_min _ l1 p (grown rd p) l2 (so_wf _ Hok) He) as [Hw Hel].
  { eapply sorted_replace; [|exact Hso]. done. }
  set (s0 := RsampleDefrag _ _ _ _).
  destruct (merge_spec s0 l1 (grown rd p) l2) as (s' & Em & Hw' & Hel' & Hl' & Hi' & Hq'); auto.
  { simpl. by destruct (iv_chain p). }
  { unfold s0, ivs. simpl. rewrite Hel, (so_last _ Hok), He, !last_app, !last_cons.
    by destruct (last l2). }
  change (iv_min (grown rd p)) with (iv_min p) in Em. rewrite Em. simpl.
  assert (Hsi : si_size (df_sampleinfo s') = size).
  { rewrite Hi'. simpl. unfold si. by destruct (iv_chain p). }
  assert (Hok' : sample_ok s').
  { split; auto.
    - rewrite Hsi, Hel'. apply grow_ok; auto.
    - rewrite Hi', Hq'. simpl. unfold si. pose proof (so_seq _ Hok). by destruct (iv_chain p). }
  destruct (is_complete_spec s' Hok') as (c & Ec & Hc). rewrite Ec. simpl.
  exists s', c. split; [done|]. split; auto; rewrite ?Hsi in Hc; auto.
  - intros b. rewrite He, Hel', !covered_app, covered_cons. intros [|[Hb|Hb]]; [tauto|right..].
    + apply frag_merge_node; [simpl; lia|]. pose proof gap_p2 as Hg.
      eapply Forall_impl; [exact Hg|]. simpl. lia.
    + apply frag_merge_keep; [exact sorted_p2|done].
  - intros b. rewrite He, Hel', !covered_app. intros [|Hb%frag_merge_sound]; [tauto|].
    rewrite covered_cons in *. simpl in Hb. destruct Hb as [Hb|]; [|tauto].
    destruct (Z.lt_ge_cases b (iv_maxp1 p)); [left; right; left; lia|right; lia].
  - rewrite He, Hel'. intros Hall b Hb. rewrite covered_app. right. apply frag_merge_node; [simpl; lia|].
    apply Forall_app in Hall as [_ Hall]. apply Forall_cons in Hall as [_ Hall].
    rewrite Forall_forall in *. intros q Hq Hqr. apply Hl2 in Hq as Hq2. simpl in Hqr.
    specialize (Hall q Hq). lia.
  - apply refs_added. rewrite He, Hel'. intros m.
    rewrite !chains_app, chains_merge, !refs_to_app. simpl. rewrite !refs_to_app. simpl. case_decide; lia.
  - apply grow_added.
  - intros x. rewrite He, Hel', !chains_app, chains_merge. simpl. rewrite !elem_of_app.
    rewrite list_elem_of_singleton. tauto.
Qed.

Lemma p_range : iv_min p <= iv_maxp1 p.
Proof using Hok He.
  destruct ivs_split as (_ & Hg & _). apply Forall_app in Hg as [_ Hg].
  apply Forall_cons in Hg as [Hg _]. pose proof (ig_range _ _ Hg). lia.
Qed.

(** Every interval up to [p] starts before the fragment. *)
Lemma before_rd : iv_maxp1 p < rd_min rd -> Forall (fun y => iv_min y < rd_min rd) (l1 ++ [p]).
Proof using All.
  intros Hgap. pose proof p_range as Hpr. pose proof (ot_wf_sorted _ _ (so_wf _ Hok)) as Hso.
  fold (ivs s) in Hso. rewrite He in Hso. apply sorted_mid in Hso as (_ & _ & Hl & _).
  apply Forall_app. split; [|constructor; [lia|constructor]].
  eapply Forall_impl; [exact Hl|]. unfold key_lt. simpl. lia.
Qed.

Lemma frag_merge_cons nd l : exists nd' l', frag_merge nd l = nd' :: l'.
Proof using. destruct l as [|q l]; simpl; [eauto|]. destruct (_ >? _); eauto. Qed.

(** The successor with the fragment at its head is in the tree, before
    the merge. *)
Lemma extend_replace q l3 :
  l2 = q :: l3 -> iv_maxp1 p < rd_min rd ->
  let s0 := RsampleDefrag (ot_replace iv_min (df_fragtree s) (iv_min q) (headed rd q))
              (if decide (df_lastfrag s = Some (iv_min q)) then Some (rd_min rd)
               else df_lastfrag s) (df_sampleinfo s) (df_seq s) in
  ot_wf iv_min (df_fragtree s0) /\ ivs s0 = (l1 ++ [p]) ++ headed rd q :: l3 /\
  df_lastfrag s0 = option_map iv_min (last (ivs s0)).
Proof using All.
  intros El Hgap s0. pose proof (ot_wf_sorted _ _ (so_wf _ Hok)) as Hso. fold (ivs s) in Hso.
  pose proof He as He'. rewrite El in He'.
  replace (l1 ++ p :: q :: l3) with ((l1 ++ [p]) ++ q :: l3) in He' by (by rewrite <- app_assoc).
  pose proof Hl2 as Hl2'. rewrite El in Hl2'. apply Forall_cons in Hl2' as [Hq Hl3].
  destruct (ot_replace_spec iv_min _ (l1 ++ [p]) q (headed rd q) l3 (so_wf _ Hok) He') as [Hw Hel].
  { rewrite He' in Hso. apply sorted_mid in Hso as (S1 & S3 & _ & _ & S13).
    apply sorted_mid. split; [done|]. split; [done|]. split; [by apply before_rd|done]. }
  split; [done|]. split; [done|]. unfold ivs. simpl. rewrite Hel, (so_last _ Hok), He'.
  rewrite He' in Hso. case_decide as Hd.
  - apply last_key in Hd as ->; [|done]. by rewrite last_app.
  - rewrite !last_app, !last_cons. destruct (last l3) eqn:E3; [done|].
    exfalso. apply Hd. apply last_None in E3 as ->. by rewrite last_app.
Qed.

Lemma add_extend q l3 :
  l2 = q :: l3 -> iv_maxp1 p < rd_min rd -> iv_min q <= rd_maxp1 rd ->
  let s0 := RsampleDefrag (ot_replace iv_min (df_fragtree s) (iv_min q) (headed rd q))
              (if decide (df_lastfrag s = Some (iv_min q)) then Some (rd_min rd)
               else df_lastfrag s) (df_sampleinfo s) (df_seq s) in
  exists s',
    (s1 ← (if rd_maxp1 rd >? iv_maxp1 q then defrag_merge s0 (rd_min rd) else Some s0);
     c ← is_complete s1; if c : bool then None else Some (s1, h1, false)) = Some (s', h1, false) /\
    added size rd h s h1 s' false.
Proof using All.
  intros El Hgap Hle s0. pose proof ivs_split as Hi.
  destruct (extend_replace q l3 El Hgap) as (Hw & Hel & Hl). fold s0 in Hw, Hel, Hl.
  assert (Hq3 : Forall (iv_sep q) l3).
  { destruct Hi as (Hs & _). rewrite El in Hs. apply StronglySorted_mid_iff in Hs as (_ & Hs & _).
    by apply StronglySorted_inv in Hs as [_ Hs]. }
  pose proof Hl2 as Hl2'. rewrite El in Hl2'. apply Forall_cons in Hl2' as [Hq Hl3].
  assert (Hq4 : Forall (fun r => iv_maxp1 q < iv_maxp1 r) l3).
  { pose proof gap_p2 as Hg. rewrite El in Hg. apply Forall_cons in Hg as [_ Hg].
    rewrite Forall_forall in Hg, Hq3 |- *. intros r Hr. specialize (Hg r Hr).
    specialize (Hq3 r Hr). unfold iv_sep in Hq3. lia. }
  assert (Hm : exists s', (if rd_maxp1 rd >? iv_maxp1 q then defrag_merge s0 (rd_min rd) else Some s0)
            = Some s' /\ ot_wf iv_min (df_fragtree s') /\
            ivs s' = (l1 ++ [p]) ++ frag_merge (headed rd q) l3 /\
            df_lastfrag s' = option_map iv_min (last (ivs s')) /\
            df_sampleinfo s' = df_sampleinfo s /\ df_seq s' = df_seq s).
  { rewrite Z.gtb_ltb. destruct (Z.ltb_spec (iv_maxp1 q) (rd_maxp1 rd)).
    - destruct (merge_spec s0 (l1 ++ [p]) (headed rd q) l3) as (s' & Em & ? & ? & ? & ? & ?); auto.
      by exists s'.
    - exists s0. repeat split; auto. rewrite Hel. f_equal. destruct l3 as [|r l4]; [done|].
      simpl. apply Forall_cons in Hq3 as [Hr _]. unfold iv_sep in Hr. zcases. done. }
  destruct Hm as (s' & Em & Hw' & Hel' & Hl' & Hi' & Hq'). rewrite Em. simpl.
  assert (Hio : ivs_ok size (ivs s')) by (rewrite Hel'; eapply extend_ok; eauto).
  assert (Hok' : sample_ok s').
  { split; auto; rewrite ?Hi', ?Hq'; [done|apply Hok]. }
  destruct (is_complete_spec s' Hok') as (c & Ec & Hc). rewrite Ec. simpl. rewrite Hi' in Hc.
  assert (c = false) as ->.
  { destruct c; [|done]. destruct Hc as (iv & Hiv & _). exfalso. rewrite Hel' in Hiv.
    destruct (frag_merge_cons (headed rd q) l3) as (? & ? & Hf). rewrite Hf in Hiv.
    destruct l1 as [|? [|]]; done. }
  exists s'. split; [done|]. split; auto.
  - by rewrite Hi'.
  - intros b. rewrite He, El, Hel', !covered_app, !covered_cons, covered_nil.
    intros [|[|[Hb|Hb]]]; [tauto..| |].
    + right. apply frag_merge_node; [simpl; lia|]. eapply Forall_impl; [exact Hq4|].
      simpl. intros r Hr _. lia.
    + right. apply frag_merge_keep; [done|done].
  - intros b. rewrite He, El, Hel', !covered_app, !covered_cons, covered_nil.
    intros [[|[|]]|Hb%frag_merge_sound]; [tauto..|]. rewrite covered_cons in Hb. simpl in Hb.
    destruct Hb as [Hb|]; [|tauto]. destruct (Z.lt_ge_cases b (rd_maxp1 rd)); [right; lia|].
    left. right. right. left. lia.
  - rewrite He, El, Hel'. intros Hall b Hb. rewrite covered_app. right.
    apply frag_merge_node; [simpl; lia|].
    apply Forall_app in Hall as [_ Hall]. apply Forall_cons in Hall as [_ Hall].
    apply Forall_cons in Hall as [Hq1 Hall].
    eapply Forall_impl; [exact Hq4|]. simpl. intros r Hr Hrr. lia.
  - apply refs_added. rewrite He, El, Hel'. intros m.
    rewrite !chains_app, chains_merge, !refs_to_app. simpl. rewrite !refs_to_app. simpl.
    case_decide; lia.
  - apply grow_added.
  - intros x. rewrite He, El, Hel', !chains_app, chains_merge. simpl.
    rewrite !elem_of_app, elem_of_cons, !elem_of_app, elem_of_nil. tauto.
Qed.

Lemma add_insert :
  iv_maxp1 p < rd_min rd -> Forall (fun q => rd_maxp1 rd < iv_min q) l2 ->
  exists s', (x ← defrag_rsample_addiv s h rd; Some (x.1, x.2, false)) = Some (s', h1, false) /\
    added size rd h s h1 s' false.
Proof using All.
  intros Hgap Hq. unfold defrag_rsample_addiv. rewrite Hab. simpl. rewrite Hlf.
  set (nw := DefragIv (rd_min rd) (rd_maxp1 rd) [rd]). pose proof ivs_split as Hi.
  pose proof (before_rd Hgap) as Hb1.
  assert (Hin : l_insert iv_min nw (ivs s) = l1 ++ p :: nw :: l2).
  { rewrite He. replace (l1 ++ p :: l2) with ((l1 ++ [p]) ++ l2) by (by rewrite <- app_assoc).
    replace (l1 ++ p :: nw :: l2) with ((l1 ++ [p]) ++ nw :: l2) by (by rewrite <- app_assoc).
    by apply l_insert_mid. }
  destruct (ot_insert_spec iv_min (df_fragtree s) nw (so_wf _ Hok)) as [Hw Hel].
  { fold (ivs s). rewrite He. replace (l1 ++ p :: l2) with ((l1 ++ [p]) ++ l2) by (by rewrite <- app_assoc).
    apply Forall_app. split; [eapply Forall_impl; [exact Hb1|] | eapply Forall_impl; [exact Hl2|]];
      simpl; lia. }
  fold (ivs s) in Hel. rewrite Hin in Hel. eexists. split; [done|].
  assert (Hio : ivs_ok size (l1 ++ p :: nw :: l2)) by (apply insert_ok; auto).
  split; auto; unfold ivs; cbn [df_fragtree]; rewrite ?Hel; fold (ivs s); rewrite ?He.
  - split; unfold ivs; cbn [df_fragtree df_lastfrag df_sampleinfo df_seq]; rewrite ?Hel; auto; [|apply Hok].
    pose proof (so_last _ Hok) as Hlast. rewrite Hlf, He in Hlast.
    rewrite Z.gtb_ltb, !last_app, !last_cons in *.
    destruct (last l2) as [z|] eqn:Ez; simpl in Hlast; injection Hlast as ->.
    + apply last_Some in Ez as [l0 ->]. apply Forall_app in Hl2 as [_ Hz].
      apply Forall_cons in Hz as [Hz _]. destruct (Z.ltb_spec (iv_min z) (rd_min rd)); [lia|done].
    + pose proof p_range. destruct (Z.ltb_spec (iv_min p) (rd_min rd)); [done|lia].
  - intros b. rewrite !covered_app, !covered_cons. tauto.
  - intros b. rewrite !covered_app, !covered_cons. simpl. tauto.
  - intros _ b Hb. rewrite covered_app, !covered_cons. simpl. tauto.
  - rewrite <- He. apply refs_added. rewrite He. intros m.
    rewrite !chains_app, !refs_to_app. simpl. rewrite !refs_to_app. simpl. case_decide; lia.
  - apply grow_added.
  - intros x. rewrite !chains_app. simpl. rewrite !elem_of_app, elem_of_cons. tauto.
  - destruct l1 as [|a [|b l0]]; simpl in *; by apply incomplete_two.
Qed.
End Add.

Lemma max_if a b : (if a >? b then a else b) = Z.max a b.
Proof. rewrite Z.gtb_ltb. destruct (Z.ltb_spec b a); lia. Qed.

Lemma add_fragment_spec s h rd info :
  sample_ok s -> incomplete (si_size (df_sampleinfo s)) (ivs s) -> rc_wf h ->
  si_seq info = df_seq s -> si_size info = si_size (df_sampleinfo s) ->
  rd_good (si_size info) rd -> RMSG_REFCOUNT_UNCOMMITTED_BIAS <= rc h (rd_rmsg rd) ->
  rc h (rd_rmsg rd) + RMSG_REFCOUNT_RDATA_BIAS < 2 ^ 32 ->
  exists s' h' c, defrag_add_fragment s h rd info = Some (s', h', c) /\
    added (si_size info) rd h s h' s' c.
Proof.
  intros Hok Hinc Hwf Hsq Hsz Hrd Hb1 Hb2. unfold defrag_add_fragment.
  pose proof Hrd as [[Hr1 Hr2] Hr3].
  rewrite ot_find_max_spec. fold (ivs s). rewrite <- (so_last _ Hok).
  rewrite bool_decide_eq_true_2 by done.
  destruct (Z.ltb_spec (rd_min rd) (rd_maxp1 rd)); [|lia]. rewrite Hsq, Z.eqb_refl. simpl.
  destruct (predeq_spec s rd Hok Hr1) as (lf & l1 & p & l2 & Hlf & He & Hp & Hl2 & Epr & Esucc).
  assert (Hbind : forall {B} (f : Z -> option B), (df_lastfrag s ≫= f) = f lf)
    by (intros; by rewrite Hlf).
  rewrite Hbind, Epr. simpl.
  destruct (addbias_spec h (rd_rmsg rd) Hwf Hb1 Hb2) as (h1 & Hab & Hwf1 & Hu1).
  rewrite Hsz in Hrd |- *. rewrite Z.geb_leb.
  destruct (Z.leb_spec (rd_maxp1 rd) (iv_maxp1 p)) as [Hc|Hc].
  { exists s, h, false. split; [done|]. split; auto.
    - intros _ b Hb. rewrite He, covered_app, covered_cons. right. left. lia.
    - intros m. destruct (decide (m = rd_rmsg rd)); [change RMSG_REFCOUNT_RDATA_BIAS with (2 ^ 20)|]; lia. }
  destruct (Z.leb_spec (rd_min rd) (iv_maxp1 p)) as [Hg|Hg].
  { change (nn_rdata_addbias h rd) with (nn_rmsg_addbias h (rd_rmsg rd)). rewrite Hab. simpl.
    destruct (add_grow s h h1 rd info l1 p l2 lf) as (s' & c & E & Ha); auto.
    fold (grown rd p). rewrite E. by exists s', h1, c. }
  assert (Hins : Forall (fun q => rd_maxp1 rd < iv_min q) l2 ->
    exists s' h' c, ('(s, h) ← defrag_rsample_addiv s h rd; Some (s, h, false)) = Some (s', h', c) /\
      added (si_size (df_sampleinfo s)) rd h s h' s' c).
  { intros Hq. destruct (add_insert s h h1 rd info l1 p l2 lf) as (s' & E & Ha); auto.
    exists s', h1, false. split; [|done].
    destruct (defrag_rsample_addiv s h rd) as [[? ?]|]; done. }
  rewrite Esucc. destruct l2 as [|q l3]; simpl; [by apply Hins|].
  destruct (Z.leb_spec (iv_min q) (rd_maxp1 rd)) as [Hq|Hq].
  - change (nn_rdata_addbias h rd) with (nn_rmsg_addbias h (rd_rmsg rd)). rewrite Hab. simpl.
    rewrite max_if. fold (headed rd q).
    destruct (add_extend s h h1 rd info l1 p (q :: l3) lf) with (q := q) (l3 := l3)
      as (s' & E & Ha); auto. rewrite E. by exists s', h1, false.
  - apply Hins. constructor; [done|].
    pose proof (ot_wf_sorted _ _ (so_wf _ Hok)) as Hso. fold (ivs s) in Hso. rewrite He in Hso.
    apply sorted_mid in Hso as (_ & Hso & _). apply sorted_cons in Hso as [Hso _].
    eapply Forall_impl; [exact Hso|]. unfold key_lt. simpl. lia.
Qed.

(** ** A new sample *)

Lemma rsample_new_spec h rd info :
  rc_wf h -> rd_good (si_size info) rd -> nn_rdata_is_fragment rd info = Some true ->
  RMSG_REFCOUNT_UNCOMMITTED_BIAS <= rc h (rd_rmsg rd) ->
  rc h (rd_rmsg rd) + RMSG_REFCOUNT_RDATA_BIAS < 2 ^ 32 ->
  exists s h', defrag_rsample_new h rd info = Some (s, h') /\ rc_wf h' /\ sample_ok s /\
    df_seq s = si_seq info /\ df_sampleinfo s = info /\ incomplete (si_size info) (ivs s) /\
    (forall b, covered (ivs s) b <-> rd_min rd <= b < rd_maxp1 rd) /\
    chains (ivs s) = [rd] /\
    rc_upd h h' (rd_rmsg rd) RMSG_REFCOUNT_RDATA_BIAS.
Proof.
  intros Hwf [[Hr1 Hr2] Hr3] Hf Hb1 Hb2.
  destruct (addbias_spec h (rd_rmsg rd) Hwf Hb1 Hb2) as (h1 & Hab & Hwf1 & Hu1).
  unfold defrag_rsample_new, defrag_rsample_addiv.
  change (nn_rdata_addbias h rd) with (nn_rmsg_addbias h (rd_rmsg rd)). rewrite Hab. simpl.
  set (nw := DefragIv (rd_min rd) (rd_maxp1 rd) [rd]).
  assert (Hnw : iv_good (si_size info) nw).
  { split; simpl; [lia|done|lia|by repeat constructor|right; exists rd; split; [left|done]|]. rewrite Z.leb_refl.
    exists (Z.max (rd_min rd) (rd_maxp1 rd)). split; [done|lia]. }
  pose proof (@ot_init_wf T _ _ _ iv_min) as Hw0. pose proof (@ot_init_elements T _ _ defrag_iv) as He0.
  rewrite Z.gtb_ltb. destruct (Z.ltb_spec 0 (rd_min rd)) as [Hm|Hm].
  - set (st := DefragIv 0 0 []).
    destruct (ot_insert_spec iv_min ot_init st Hw0) as [Hw1 He1]; [by rewrite He0|].
    rewrite He0 in He1. simpl in He1.
    destruct (ot_insert_spec iv_min _ nw Hw1) as [Hw2 He2].
    { rewrite He1. constructor; [simpl; lia|constructor]. }
    rewrite He1 in He2. simpl in He2. destruct (Z.ltb_spec 0 (rd_min rd)) in He2; [|lia].
    assert (Hio : ivs_ok (si_size info) [st; nw]).
    { split; [|split; [|done]].
      - repeat constructor. done.
      - constructor; [|by constructor]. split; simpl; [lia|done|done|constructor|by left|eauto with lia]. }
    eexists _, h1. split; [done|]. unfold ivs. simpl. rewrite He2.
    split; [done|]. split; [|split; [done|split; [done|split; [by apply incomplete_two|]]]].
    + split; unfold ivs; simpl; rewrite ?He2; done.
    + split; [|done]. intros b. rewrite !covered_cons, covered_nil. simpl. lia.
  - destruct (ot_insert_spec iv_min ot_init nw Hw0) as [Hw1 He1]; [by rewrite He0|].
    rewrite He0 in He1. simpl in He1. assert (Hz : rd_min rd = 0) by lia.
    assert (Hio : ivs_ok (si_size info) [nw]) by (split; [repeat constructor|split; [by constructor|done]]).
    eexists _, h1. split; [done|]. unfold ivs. simpl. rewrite He1.
    split; [done|]. split; [|split; [done|split; [done|split]]].
    + split; unfold ivs; simpl; rewrite ?He1; done.
    + exists (rd_maxp1 rd). rewrite covered_cons, covered_nil. simpl.
      unfold nn_rdata_is_fragment in Hf. rewrite Hz in *. zcases; done.
    + split; [|done]. intros b. rewrite covered_cons, covered_nil. simpl. tauto.
Qed.
End Ops.
