(* ===== verification/DefragProps.v ===== *)
(** * Properties of the defragmenter

    [nn_defrag_rsample], [nn_defrag_notegap] and [nn_defrag_free] over the
    whole administration. *)

From Stdlib Require Import ZArith Lia Sorting.Sorted.
From stdpp Require Import prelude.
From S2P Require Import Prelude OrdTree Bitset Refs Defrag DefragFacts DefragOps.

Section Props.
Context {T : Type -> Type} `{!OrdTree T, !OrdTreeLaws T}.
Context {H : Type} `{!RmsgRefs H, !RmsgRefsLaws H}.
Implicit Types (d : nn_defrag T) (s : rsample_defrag T) (h : H) (rd : rdata) (info : rsample_info).
Implicit Types (l : list (rsample_defrag T)).

Abbreviation BIAS := RMSG_REFCOUNT_RDATA_BIAS.

Definition samples d : list (rsample_defrag T) := ot_elements (dg_sampletree d).

(** A sample in the tree: well-formed, and some byte of it is missing. *)
Definition stored_ok s : Prop :=
  sample_ok s /\ incomplete (si_size (df_sampleinfo s)) (ivs s) /\ 0 < df_seq s.

Record defrag_ok d : Prop := {
  do_wf : ot_wf df_seq (dg_sampletree d);
  do_stored : Forall stored_ok (samples d);
  do_max : dg_max_sample d = option_map df_seq (last (samples d));
  do_n : dg_n_samples d = Z.of_nat (length (samples d));
  do_limit : dg_n_samples d <= dg_max_samples d;
  do_range : 1 <= dg_max_samples d < 2 ^ 32;
}.

(** All fragments the administration holds on to. *)
Fixpoint held l : list rdata :=
  match l with [] => [] | s :: l' => chains (ivs s) ++ held l' end.

Lemma held_app l1 l2 : held (l1 ++ l2) = held l1 ++ held l2.
Proof. induction l1 as [|s l1 IH]; simpl; [done|]. by rewrite IH, app_assoc. Qed.

Lemma held_mid m l1 s l2 :
  refs_to m (held (l1 ++ s :: l2)) = refs_to m (chains (ivs s)) + refs_to m (held (l1 ++ l2)).
Proof. rewrite !held_app. simpl. rewrite !refs_to_app. lia. Qed.

Lemma held_insert m s l :
  refs_to m (held (l_insert df_seq s l)) = refs_to m (chains (ivs s)) + refs_to m (held l).
Proof.
  induction l as [|x l IH]; simpl; [by rewrite refs_to_app|].
  destruct (_ <? _); simpl; rewrite !refs_to_app, ?IH; simpl; rewrite ?refs_to_app; lia.
Qed.

(** ** Dropping a sample *)

Definition frees (f : H -> list rdata -> Z -> option H) : Prop :=
  forall h c, rc_wf h -> (forall m, BIAS * refs_to m c <= rc h m) ->
  exists h', f h c 0 = Some h' /\ rc_wf h' /\ forall m, rc h' m = rc h m - BIAS * refs_to m c.

Lemma frees_adjust : frees nn_fragchain_adjust_refcount.
Proof.
  intros h c Hwf Hc. destruct (fragchain_adjust_spec h c 0 Hwf) as (h' & E & Hw & Hr).
  - done.
  - intros m. specialize (Hc m). lia.
  - exists h'. split; [done|]. split; [done|]. intros m. rewrite Hr. lia.
Qed.

Lemma frees_anythread : frees nn_fragchain_rmbias_anythread.
Proof. intros h c Hwf Hc. by apply fragchain_rmbias_anythread_spec. Qed.

Lemma free_ivs_spec f h (l : list defrag_iv) :
  frees f -> rc_wf h -> (forall m, BIAS * refs_to m (chains l) <= rc h m) ->
  exists h', free_ivs f h l = Some h' /\ rc_wf h' /\
    forall m, rc h' m = rc h m - BIAS * refs_to m (chains l).
Proof.
  intros Hf. revert h. induction l as [|iv l IH]; intros h Hwf Hc; simpl.
  - exists h. split; [done|]. split; [done|]. intros; lia.
  - simpl in Hc. destruct (Hf h (iv_chain iv) Hwf) as (h1 & E1 & Hw1 & Hr1).
    { intros m. specialize (Hc m). rewrite refs_to_app in Hc. pose proof (refs_to_nonneg m (chains l)).
      change BIAS with (2 ^ 20) in *. nia. }
    destruct (IH h1 Hw1) as (h2 & E2 & Hw2 & Hr2).
    { intros m. specialize (Hc m). rewrite refs_to_app in Hc. rewrite Hr1. lia. }
    exists h2. rewrite E1. split; [done|]. split; [done|]. intros m.
    rewrite Hr2, Hr1, refs_to_app. lia.
Qed.

Lemma drop_spec f d h l1 s l2 :
  frees f -> rc_wf h -> ot_wf df_seq (dg_sampletree d) -> samples d = l1 ++ s :: l2 ->
  dg_n_samples d = Z.of_nat (length (samples d)) ->
  (forall m, BIAS * refs_to m (chains (ivs s)) <= rc h m) ->
  exists d' h', defrag_rsample_drop d h s f = Some (d', h') /\ rc_wf h' /\
    ot_wf df_seq (dg_sampletree d') /\ samples d' = l1 ++ l2 /\
    dg_max_sample d' = dg_max_sample d /\ dg_n_samples d' = dg_n_samples d - 1 /\
    dg_max_samples d' = dg_max_samples d /\ dg_drop_mode d' = dg_drop_mode d /\
    forall m, rc h' m = rc h m - BIAS * refs_to m (chains (ivs s)).
Proof.
  intros Hf Hwf Hw He Hn Hc. unfold defrag_rsample_drop.
  assert (Hpos : 0 < dg_n_samples d) by (rewrite Hn, He, length_app; simpl; lia).
  rewrite Z.gtb_ltb. destruct (Z.ltb_spec 0 (dg_n_samples d)); [|lia].
  fold (ivs s). destruct (free_ivs_spec f h (ivs s) Hf Hwf Hc) as (h' & E & Hw' & Hr).
  rewrite E. simpl. eexists _, h'. split; [done|]. split; [done|].
  destruct (ot_delete_spec df_seq (dg_sampletree d) (df_seq s) Hw) as [Hw1 He1].
  split; [done|]. split; [|done]. unfold samples in *. simpl. rewrite He1, He. apply l_delete_mid.
  rewrite <- He. by apply ot_wf_sorted.
Qed.

(** ** The limit on the number of samples *)

(** [max_sample] after it was recomputed. *)
Lemma find_max_samples d :
  option_map df_seq (ot_find_max (dg_sampletree d)) = option_map df_seq (last (samples d)).
Proof. by rewrite ot_find_max_spec. Qed.

Lemma last_other l1 s l2 (k : Z) :
  sorted df_seq (l1 ++ s :: l2) -> option_map df_seq (last (l1 ++ s :: l2)) = Some k ->
  df_seq s <> k -> option_map df_seq (last (l1 ++ l2)) = Some k.
Proof.
  intros Hs Hl Hne. rewrite !last_app, last_cons in *. destruct (last l2); [done|].
  simpl in Hl. congruence.
Qed.

(** The reference counts cover what is held. *)
Definition refs_cover h (l : list rdata) : Prop := forall m, BIAS * refs_to m l <= rc h m.

Lemma refs_cover_mid h l1 s l2 :
  refs_cover h (held (l1 ++ s :: l2)) -> forall m, BIAS * refs_to m (chains (ivs s)) <= rc h m.
Proof.
  intros Hc m. specialize (Hc m). rewrite held_mid in Hc.
  pose proof (refs_to_nonneg m (held (l1 ++ l2))). change BIAS with (2 ^ 20) in *. nia.
Qed.

(** What making room amounts to: either there is room, possibly after
    dropping one sample, or nothing changes and the new sample is refused. *)
Definition limited d h d' h' (max_seq' : Z) (ok : bool) : Prop :=
  if ok then
    defrag_ok d' /\ rc_wf h' /\ max_seq' = default 0 (dg_max_sample d') /\
    dg_n_samples d' < dg_max_samples d' /\ dg_max_samples d' = dg_max_samples d /\
    dg_drop_mode d' = dg_drop_mode d /\
    (forall m, rc h' m - BIAS * refs_to m (held (samples d')) =
               rc h m - BIAS * refs_to m (held (samples d))) /\
    (samples d' = samples d /\ dg_n_samples d < dg_max_samples d \/
     exists l1 x l2, samples d = l1 ++ x :: l2 /\ samples d' = l1 ++ l2 /\
       dg_n_samples d = dg_max_samples d)
  else d' = d /\ h' = h /\ dg_n_samples d = dg_max_samples d.

Lemma limit_drop d h l1 x l2 z :
  defrag_ok d -> rc_wf h -> refs_cover h (held (samples d)) ->
  samples d = l1 ++ x :: l2 -> last (samples d) = Some z ->
  dg_max_samples d <= dg_n_samples d ->
  exists d' h' max_seq' ok,
    ('(d, h) ← defrag_rsample_drop d h x nn_fragchain_adjust_refcount;
     if df_seq x =? df_seq z then
       let max_sample := option_map df_seq (ot_find_max (dg_sampletree d)) in
       Some (NnDefrag (dg_sampletree d) max_sample (dg_n_samples d) (dg_max_samples d)
               (dg_drop_mode d), h, default 0 max_sample, true)
     else Some (d, h, df_seq z, true)) = Some (d', h', max_seq', ok) /\
    limited d h d' h' max_seq' ok.
Proof.
  intros [Hw Hst Hmx Hn Hlim Hrg] Hwf Hc He Ez Hge. rewrite Ez in Hmx. simpl in Hmx.
  pose proof (ot_wf_sorted _ _ Hw) as Hso. fold (samples d) in Hso.
  destruct (drop_spec nn_fragchain_adjust_refcount d h l1 x l2)
    as (d1 & h1 & E & Hwf1 & Hw1 & He1 & Hm1 & Hn1 & Hx1 & Hd1 & Hr1); auto.
  { apply frees_adjust. }
  { rewrite He in Hc. by eapply refs_cover_mid. }
  rewrite E. simpl. rewrite find_max_samples.
  assert (Hst1 : Forall stored_ok (l1 ++ l2)).
  { rewrite He in Hst. apply Forall_app in Hst as [? Hst]. apply Forall_cons in Hst as [? ?].
    by apply Forall_app. }
  assert (Hn' : dg_n_samples d1 = Z.of_nat (length (l1 ++ l2))).
  { rewrite Hn1, Hn, He, !length_app. simpl. lia. }
  assert (Hrc : forall m, rc h1 m - BIAS * refs_to m (held (l1 ++ l2)) =
                          rc h m - BIAS * refs_to m (held (samples d))).
  { intros m. rewrite He, held_mid, Hr1. lia. }
  destruct (Z.eqb_spec (df_seq x) (df_seq z)) as [Hxz|Hxz].
  - eexists _, h1, _, true. split; [done|]. simpl. rewrite He1.
    split; [split; unfold samples; simpl; fold (samples d1); rewrite ?He1; auto; lia|].
    split; [done|]. split; [done|]. split; [lia|]. split; [done|]. split; [done|].
    unfold samples at 1 3. simpl. fold (samples d1). rewrite He1. split; [done|].
    right. exists l1, x, l2. split; [done|]. split; [|lia]. done.
  - exists d1, h1, (df_seq z), true. split; [done|].
    assert (Hmx1 : dg_max_sample d1 = option_map df_seq (last (samples d1))).
    { rewrite Hm1, Hmx, He1. rewrite He in Hso, Ez. symmetry.
      eapply last_other; [exact Hso|by rewrite Ez|done]. }
    split; [split; rewrite ?He1; auto; [by rewrite <- He1|lia|lia]|].
    split; [done|]. split; [by rewrite Hm1, Hmx|]. split; [lia|]. split; [done|]. split; [done|].
    rewrite He1. split; [done|]. right. exists l1, x, l2. split; [done|]. split; [done|]. lia.
Qed.

Lemma limit_samples_spec d h seq :
  defrag_ok d -> rc_wf h -> refs_cover h (held (samples d)) ->
  exists d' h' max_seq' ok,
    defrag_limit_samples d h seq (default 0 (dg_max_sample d)) = Some (d', h', max_seq', ok) /\
    limited d h d' h' max_seq' ok.
Proof.
  intros Hok Hwf Hc. pose proof Hok as [Hw Hst Hmx Hn Hlim Hrg]. unfold defrag_limit_samples.
  destruct (Z.ltb_spec (dg_n_samples d) (dg_max_samples d)) as [Hlt|Hge].
  { exists d, h, (default 0 (dg_max_sample d)), true. repeat (split; [done|]). by left. }
  pose proof (ot_wf_sorted _ _ Hw) as Hso. fold (samples d) in Hso.
  destruct (last (samples d)) as [z|] eqn:Ez.
  2:{ apply last_None in Ez. rewrite Ez in Hn. simpl in Hn. lia. }
  pose proof (fun l1 x l2 He => limit_drop d h l1 x l2 z Hok Hwf Hc He Ez Hge) as Hdrop.
  simpl in Hmx. rewrite Hmx. simpl.
  assert (Hno : exists d' h' max_seq' ok, Some (d, h, df_seq z, false) = Some (d', h', max_seq', ok) /\
                  limited d h d' h' max_seq' ok).
  { exists d, h, (df_seq z), false. split; [done|]. repeat (split; [done|]). lia. }
  destruct (dg_drop_mode d).
  - rewrite ot_find_min_spec. fold (samples d). destruct (samples d) as [|a l] eqn:El; [done|]. simpl.
    destruct (seq <? df_seq a); simpl; [done|]. by apply (Hdrop [] a l).
  - rewrite Z.gtb_ltb. destruct (df_seq z <? seq); simpl; [done|].
    apply last_Some in Ez as [l0 El]. rewrite (ot_lookup_spec _ _ _ Hw). fold (samples d).
    assert (Hlk : l_lookup df_seq (df_seq z) (samples d) = Some z)
      by (rewrite El in *; by apply l_lookup_mid).
    rewrite Hlk. simpl. by apply (Hdrop l0 z []).
Qed.

(** ** One fragment through the defragmenter *)

(** The bytes of sample [seq] that are known. *)
Definition known_byte l (seq b : Z) : Prop := exists s, s ∈ l /\ df_seq s = seq /\ covered (ivs s) b.

Definition result_refs (m : rmsg_addr) (r : option rsample_reorder) : Z :=
  match r with
  | Some r => refs_to m (mjoin (map ce_fragchain (ro_sc r)))
  | None => 0
  end.

(** A returned sample: one element with a chain that a reader can follow from
    byte 0 to the end of the sample. *)
Definition result_ok info (r : rsample_reorder) : Prop :=
  exists c i, r = RsampleReorder [ChainElem c (Some i)] (si_seq info) (wrap_s 64 (si_seq info + 1)) 1 /\
    si_seq i = si_seq info /\ si_size i = si_size info /\ walk 0 c = Some (si_size info).

(** Every fragment of every sample satisfies [P] of its sequence number. *)
Definition frags_from (P : Z -> rdata -> Prop) l : Prop :=
  Forall (fun s => Forall (P (df_seq s)) (chains (ivs s))) l.

Record stepped rd info d h d' h' (r : option rsample_reorder) : Prop := {
  st_ok : defrag_ok d';
  st_wf : rc_wf h';
  st_conf : dg_max_samples d' = dg_max_samples d /\ dg_drop_mode d' = dg_drop_mode d;
  st_refs : forall m,
    rc h' m - BIAS * (refs_to m (held (samples d')) + result_refs m r) =
    rc h m - BIAS * refs_to m (held (samples d));
  st_grow : forall m, rc h' m <= rc h m + if decide (m = rd_rmsg rd) then BIAS else 0;
  st_res : match r with Some r' => result_ok info r' | None => True end;
  st_sound : forall seq b, known_byte (samples d') seq b ->
    known_byte (samples d) seq b \/ seq = si_seq info /\ rd_min rd <= b < rd_maxp1 rd;
  st_keep : dg_n_samples d < dg_max_samples d ->
    forall seq b, known_byte (samples d) seq b ->
      known_byte (samples d') seq b \/ seq = si_seq info /\ is_Some r;
  st_all : dg_n_samples d < dg_max_samples d -> r = None ->
    (forall s, s ∈ samples d -> df_seq s = si_seq info ->
       Forall (fun iv => rd_min rd < iv_min iv <= rd_maxp1 rd -> rd_maxp1 rd <= iv_maxp1 iv) (ivs s)) ->
    forall b, rd_min rd <= b < rd_maxp1 rd -> known_byte (samples d') (si_seq info) b;
  st_from : forall s, s ∈ samples d' ->
    s ∈ samples d \/ df_seq s = si_seq info /\ si_size (df_sampleinfo s) = si_size info;
  st_frags : forall P, frags_from P (samples d) -> P (si_seq info) rd ->
    frags_from P (samples d') /\
    match r with
    | Some r' => Forall (fun e => Forall (P (si_seq info)) (ce_fragchain e)) (ro_sc r')
    | None => True
    end;
}.

Lemma known_byte_app l1 l2 seq b : known_byte (l1 ++ l2) seq b <-> known_byte l1 seq b \/ known_byte l2 seq b.
Proof. unfold known_byte. setoid_rewrite elem_of_app. naive_solver. Qed.

Lemma known_byte_cons s l seq b :
  known_byte (s :: l) seq b <-> df_seq s = seq /\ covered (ivs s) b \/ known_byte l seq b.
Proof. unfold known_byte. setoid_rewrite elem_of_cons. naive_solver. Qed.

Lemma chain_walk_single size iv :
  iv_good size iv -> iv_min iv = 0 -> iv_maxp1 iv = size -> walk 0 (iv_chain iv) = Some size.
Proof.
  intros [R _ _ F _ (e & W & E)] H0 Hs. rewrite H0 in W. rewrite W. f_equal.
  pose proof (walk_le size _ _ _ W ltac:(lia) F). lia.
Qed.

Section Finish.
Context (rd : rdata) (info : rsample_info) (d : nn_defrag T) (h h' : H).
Context (l1 : list (rsample_defrag T)) (s : rsample_defrag T) (l2 : list (rsample_defrag T))
        (s' : rsample_defrag T).
Hypothesis Hok : defrag_ok d.
Hypothesis He : samples d = l1 ++ s :: l2.
Hypothesis Hseq : df_seq s = si_seq info.

Lemma finish_replace :
  df_seq s' = df_seq s ->
  ot_wf df_seq (ot_replace df_seq (dg_sampletree d) (df_seq s) s') /\
  ot_elements (ot_replace df_seq (dg_sampletree d) (df_seq s) s') = l1 ++ s' :: l2 /\
  sorted df_seq (l1 ++ s :: l2) /\
  Forall stored_ok l1 /\ 0 < df_seq s /\ Forall stored_ok l2.
Proof using All.
  intros Hsq. pose proof (ot_wf_sorted _ _ (do_wf _ Hok)) as Hso. fold (samples d) in Hso.
  pose proof (do_stored _ Hok) as Hst. rewrite He in Hso, Hst.
  apply Forall_app in Hst as [G1 Hst]. apply Forall_cons in Hst as [[_ [_ Hpos]] G2].
  destruct (ot_replace_spec df_seq _ l1 s s' l2 (do_wf _ Hok) He) as [Hw1 He1]; [|done].
  by eapply sorted_replace; [|exact Hso].
Qed.

Lemma finish_complete :
  added (si_size info) rd h s h' s' true ->
  exists d' r, defrag_finish d h' s' true = Some (d', h', r) /\ stepped rd info d h d' h' r.
Proof using All.
  intros [Hwf Hok' Hsq Hsz Hkeep Hsnd Hall Hrf Hgr Hfr (iv & Hiv & Hi0 & Hend)].
  destruct (finish_replace Hsq) as (Hw1 & He1 & Hso & G1 & Hpos & G2). unfold defrag_finish.
  pose proof (do_n _ Hok) as Hn. pose proof (do_max _ Hok) as Hmx. rewrite He in Hn, Hmx.
  pose proof (do_range _ Hok). pose proof (do_limit _ Hok). rewrite length_app in Hn. simpl in Hn.
  rewrite Z.gtb_ltb. destruct (Z.ltb_spec 0 (dg_n_samples d)); [|lia].
  unfold rsample_convert_defrag_to_reorder.
  pose proof (ot_root_spec (df_fragtree s')) as Hr. fold (ivs s') in Hr. rewrite Hiv in Hr.
  destruct (ot_root (df_fragtree s')) as [iv'|]; [|done].
  apply list_elem_of_singleton in Hr as ->. simpl. rewrite Hsq.
  destruct (ot_delete_spec df_seq _ (df_seq s) Hw1) as [Hw2 He2].
  rewrite He1, <- Hsq, l_delete_mid in He2 by (eapply sorted_replace; [|exact Hso]; done).
  rewrite Hsq in He2.
  eexists _, _. split; [done|].
  match goal with |- stepped _ _ _ _ ?d1 _ _ => assert (Hs' : samples d1 = l1 ++ l2) by exact He2 end.
  split; rewrite ?Hs'; simpl; auto.
  - split; rewrite ?Hs'; cbn [dg_sampletree dg_max_sample dg_n_samples dg_max_samples]; auto; [by apply Forall_app| |rewrite length_app; lia|lia].
    clear Hs'. case_decide as Hd; [by rewrite ot_find_max_spec, He2|]. rewrite Hmx in Hd |- *. symmetry.
    destruct (option_map df_seq (last (l1 ++ s :: l2))) as [k|] eqn:Ek.
    + eapply last_other; [exact Hso|exact Ek|congruence].
    + rewrite last_app, last_cons in Ek. by destruct (last l2).
  - intros m. rewrite He, held_mid. specialize (Hrf m). rewrite Hiv in Hrf. simpl in Hrf.
    rewrite app_nil_r in *. lia.
  - intros m. specialize (Hgr m). lia.
  - exists (iv_chain iv), (df_sampleinfo s'). rewrite Hseq. split; [done|].
    split; [rewrite <- Hseq, <- Hsq; apply Hok'|]. split; [done|].
    apply chain_walk_single; auto. destruct (so_ivs _ Hok') as (_ & Hg & _).
    rewrite Hsz, Hiv in Hg. by apply Forall_cons in Hg as [Hg _].
  - intros seq b. rewrite He, !known_byte_app, known_byte_cons. tauto.
  - intros _ seq b. rewrite He, !known_byte_app, known_byte_cons, Hseq. intros [|[[<- _]|]]; eauto.
  - done.
  - intros x. rewrite He, !elem_of_app, elem_of_cons. tauto.
  - intros P HP HPr. rewrite He in HP. apply Forall_app in HP as [P1 P2].
    apply Forall_cons in P2 as [Ps P2]. split; [by apply Forall_app|].
    constructor; [|constructor]. simpl. rewrite Forall_forall in Ps |- *. intros x Hx.
    rewrite Hseq in Ps. destruct (Hfr x) as [->|]; auto. rewrite Hiv. simpl. by rewrite app_nil_r.
Qed.

Lemma finish_incomplete :
  added (si_size info) rd h s h' s' false ->
  exists d' r, defrag_finish d h' s' false = Some (d', h', r) /\ stepped rd info d h d' h' r.
Proof using All.
  intros [Hwf Hok' Hsq Hsz Hkeep Hsnd Hall Hrf Hgr Hfr Hc].
  destruct (finish_replace Hsq) as (Hw1 & He1 & Hso & G1 & Hpos & G2). unfold defrag_finish.
  pose proof (do_n _ Hok) as Hn. pose proof (do_max _ Hok) as Hmx. rewrite He in Hn, Hmx.
  pose proof (do_range _ Hok). pose proof (do_limit _ Hok). rewrite Hsq.
  eexists _, _. split; [done|].
  match goal with |- stepped _ _ _ _ ?d1 _ _ => assert (Hs' : samples d1 = l1 ++ s' :: l2) by exact He1 end.
  split; rewrite ?Hs'; simpl; auto.
  - split; rewrite ?Hs'; cbn [dg_sampletree dg_max_sample dg_n_samples dg_max_samples]; auto.
    + apply Forall_app. split; [done|]. constructor; [|done]. rewrite <- Hsz in Hc.
      split; [done|]. split; [done|]. by rewrite Hsq.
    + rewrite Hmx, !last_app, !last_cons. destruct (last l2); simpl; congruence.
    + rewrite Hn, !length_app. done.
  - intros m. rewrite He, !held_mid. specialize (Hrf m). lia.
  - intros m. specialize (Hgr m). lia.
  - intros seq b. rewrite He, !known_byte_app, !known_byte_cons, Hsq, Hseq.
    intros [|[[<- Hb%Hsnd]|]]; tauto.
  - intros _ seq b. rewrite He, !known_byte_app, !known_byte_cons, Hsq.
    intros [|[[<- Hb%Hkeep]|]]; tauto.
  - intros _ _ Hal b Hb. rewrite known_byte_app, known_byte_cons. right. left. rewrite Hsq.
    split; [done|]. apply Hall; [|done]. apply Hal; [rewrite He; set_solver|done].
  - intros x. rewrite He, !elem_of_app, !elem_of_cons. intros [|[->|]]; [tauto| |tauto].
    right. split; congruence.
  - intros P HP HPr. split; [|done]. rewrite He in HP. apply Forall_app in HP as [P1 P2].
    apply Forall_cons in P2 as [Ps P2]. apply Forall_app. split; [done|]. constructor; [|done].
    rewrite Hsq. rewrite Hseq in *. rewrite Forall_forall in Ps |- *. intros x Hx.
    destruct (Hfr x Hx) as [->|]; auto.
Qed.

Lemma finish_spec c :
  added (si_size info) rd h s h' s' c ->
  exists d' r, defrag_finish d h' s' c = Some (d', h', r) /\ stepped rd info d h d' h' r.
Proof using All. destruct c; [apply finish_complete | apply finish_incomplete]. Qed.
End Finish.

Definition absent l (seq : Z) : Prop := Forall (fun s => df_seq s <> seq) l.

Lemma absent_known l seq b : absent l seq -> known_byte l seq b -> False.
Proof. unfold absent. rewrite Forall_forall. intros Ha (s & Hs & He & _). by apply (Ha s). Qed.

Lemma frags_from_insert P s l :
  frags_from P (l_insert df_seq s l) <-> Forall (P (df_seq s)) (chains (ivs s)) /\ frags_from P l.
Proof.
  unfold frags_from. rewrite (Forall_forall _ (l_insert _ _ _)), (Forall_forall _ l). split.
  - intros Ha. split; [apply Ha, l_insert_In; by left|].
    intros x Hx. apply Ha, l_insert_In. by right.
  - intros [Hs Hl] x Hx. apply l_insert_In in Hx as [->|Hx]; auto.
Qed.

Lemma known_insert s l seq b :
  known_byte (l_insert df_seq s l) seq b <-> df_seq s = seq /\ covered (ivs s) b \/ known_byte l seq b.
Proof. unfold known_byte. setoid_rewrite l_insert_In. naive_solver. Qed.

Lemma length_insert s l : length (l_insert df_seq s l) = S (length l).
Proof. induction l as [|x l IH]; simpl; [done|]. destruct (_ <? _); simpl; congruence. Qed.

Lemma insert_new_spec rd info d h (mx : option Z) :
  defrag_ok d -> rc_wf h -> dg_n_samples d < dg_max_samples d -> 0 < si_seq info ->
  absent (samples d) (si_seq info) -> rd_good (si_size info) rd ->
  nn_rdata_is_fragment rd info = Some true ->
  RMSG_REFCOUNT_UNCOMMITTED_BIAS <= rc h (rd_rmsg rd) -> rc h (rd_rmsg rd) + BIAS < 2 ^ 32 ->
  (forall s, df_seq s = si_seq info -> mx = option_map df_seq (last (l_insert df_seq s (samples d)))) ->
  exists d' h', defrag_insert_new d h rd info mx = Some (d', h', None) /\
    stepped rd info d h d' h' None.
Proof.
  intros [Hw Hst Hmx Hn Hlim Hrg] Hwf Hroom Hpos Hab Hrd Hf Hb1 Hb2 Hmax. unfold defrag_insert_new.
  destruct (rsample_new_spec h rd info Hwf Hrd Hf Hb1 Hb2)
    as (s & h' & E & Hwf' & Hok & Hsq & Hsi & Hinc & Hcov & Hch & Hu).
  rewrite E. simpl.
  destruct (ot_insert_spec df_seq (dg_sampletree d) s Hw) as [Hw1 He1]; [by rewrite Hsq|].
  fold (samples d) in He1. eexists _, h'. split; [done|].
  match goal with |- stepped _ _ _ _ ?d1 _ _ =>
    assert (Hs' : samples d1 = l_insert df_seq s (samples d)) by exact He1 end.
  split; rewrite ?Hs'; simpl; auto.
  - split; rewrite ?Hs'; cbn [dg_sampletree dg_max_sample dg_n_samples dg_max_samples]; auto.
    + apply Forall_forall. intros x. rewrite l_insert_In. intros [->|Hx].
      * rewrite <- Hsi in Hinc. split; [done|]. split; [done|]. lia.
      * rewrite Forall_forall in Hst. auto.
    + rewrite length_insert. nowrap.
    + nowrap.
  - intros m. rewrite held_insert, Hch, Hu. simpl. case_decide; lia.
  - intros m. rewrite Hu. case_decide; lia.
  - intros seq b. rewrite known_insert, Hcov. intros [[<- Hb]|]; [right|left]; done.
  - intros _ seq b. rewrite known_insert. tauto.
  - intros _ _ _ b Hb. rewrite known_insert, Hcov. tauto.
  - intros x. rewrite l_insert_In. intros [->|]; [right|by left]. by rewrite Hsi.
  - intros P HP HPr. rewrite frags_from_insert, Hch, Hsq. split; [|done]. split; [|done]. by constructor.
Qed.

(** Making room first. *)
Lemma stepped_after_limit rd info d h d1 h1 mseq d2 h2 r :
  defrag_ok d -> limited d h d1 h1 mseq true -> stepped rd info d1 h1 d2 h2 r ->
  stepped rd info d h d2 h2 r.
Proof.
  intros Hok (Hok1 & Hwf1 & _ & Hroom & Hx & Hd & Hrc & Hs)
         [So Sw [Sc1 Sc2] Sr Sg Sres Ss Sk Sa Sft Sf].
  assert (Hsub : forall x, x ∈ samples d1 -> x ∈ samples d).
  { destruct Hs as [[-> _]|(l1 & x & l2 & -> & -> & _)]; set_solver. }
  assert (Hle : forall m, rc h1 m <= rc h m).
  { intros m. specialize (Hrc m). destruct Hs as [[Hs _]|(l1 & x & l2 & Hs & Hs1 & _)].
    - rewrite Hs in Hrc. lia.
    - rewrite Hs, Hs1, held_mid in Hrc. pose proof (refs_to_nonneg m (chains (ivs x))).
      change BIAS with (2 ^ 20) in *. nia. }
  assert (Hsame : dg_n_samples d < dg_max_samples d -> samples d1 = samples d)
    by (intros ?; destruct Hs as [[? _]|(? & ? & ? & ? & ? & ?)]; [done|lia]).
  split; auto.
  - split; congruence.
  - intros m. rewrite Sr. apply Hrc.
  - intros m. specialize (Sg m). specialize (Hle m). lia.
  - intros seq b Hk. destruct (Ss seq b Hk) as [(s & Hin & Hk')|]; [left|by right].
    exists s. auto.
  - intros Hr seq b. rewrite <- (Hsame Hr). by apply Sk.
  - intros x Hx'. destruct (Sft x Hx'); auto.
  - intros P HP. apply Sf. unfold frags_from in *. rewrite Forall_forall in *. auto.
Qed.

(** What the caller of [nn_defrag_rsample] has to ensure: a valid sequence
    number and byte range, the same sample size in all fragments of a sample,
    and a message that is still being processed, whose count has room. *)
Record frag_pre rd info d h : Prop := {
  fp_seq : 0 < si_seq info;
  fp_range : 0 <= rd_min rd <= rd_maxp1 rd /\ rd_maxp1 rd <= si_size info;
  fp_nonempty : rd_min rd = 0 /\ rd_maxp1 rd = si_size info \/ rd_min rd < rd_maxp1 rd;
  fp_size : forall s, s ∈ samples d -> df_seq s = si_seq info ->
    si_size (df_sampleinfo s) = si_size info;
  fp_wf : rc_wf h;
  fp_refs : forall m, BIAS * refs_to m (held (samples d)) +
    (if decide (m = rd_rmsg rd) then RMSG_REFCOUNT_UNCOMMITTED_BIAS else 0) <= rc h m;
  fp_room : rc h (rd_rmsg rd) + BIAS < 2 ^ 32;
}.

Lemma fp_cover rd info d h : frag_pre rd info d h -> refs_cover h (held (samples d)).
Proof.
  intros Hp m. pose proof (fp_refs _ _ _ _ Hp m).
  change RMSG_REFCOUNT_UNCOMMITTED_BIAS with (2 ^ 31) in *. case_decide; lia.
Qed.

Lemma fp_uncommitted rd info d h :
  frag_pre rd info d h -> RMSG_REFCOUNT_UNCOMMITTED_BIAS <= rc h (rd_rmsg rd).
Proof.
  intros Hp. pose proof (fp_refs _ _ _ _ Hp (rd_rmsg rd)) as Hr. rewrite decide_True in Hr by done.
  pose proof (refs_to_nonneg (rd_rmsg rd) (held (samples d))).
  change BIAS with (2 ^ 20) in *. lia.
Qed.

(** A fragment of a sample that is in the tree. *)
Lemma add_to_known rd info d h l1 s l2 :
  defrag_ok d -> frag_pre rd info d h -> rd_min rd < rd_maxp1 rd ->
  samples d = l1 ++ s :: l2 -> df_seq s = si_seq info ->
  exists d' h' r,
    ('(s, h, c) ← defrag_add_fragment s h rd info; defrag_finish d h s c) = Some (d', h', r) /\ stepped rd info d h d' h' r.
Proof.
  intros Hok Hp Hlt He Hsq. pose proof (do_stored _ Hok) as Hst. rewrite He in Hst.
  apply Forall_app in Hst as [_ Hst]. apply Forall_cons in Hst as [(Hs & Hinc & _) _].
  assert (Hsz : si_size info = si_size (df_sampleinfo s)).
  { symmetry. apply (fp_size _ _ _ _ Hp); [|done]. rewrite He. set_solver. }
  pose proof (fp_range _ _ _ _ Hp).
  destruct (add_fragment_spec s h rd info) as (s' & h' & c & E & Ha); auto.
  { apply (fp_wf _ _ _ _ Hp). }
  { split; lia. }
  { by eapply fp_uncommitted. }
  { apply (fp_room _ _ _ _ Hp). }
  rewrite E. simpl. destruct (finish_spec rd info d h h' l1 s l2 s' Hok He Hsq c Ha) as (d' & r & Ef & Hst).
  rewrite Ef. by exists d', h', r.
Qed.

(** A sample that is not in the tree, with room for it. *)
Lemma add_new rd info d h mx :
  defrag_ok d -> frag_pre rd info d h -> rd_min rd < rd_maxp1 rd ->
  nn_rdata_is_fragment rd info = Some true -> dg_n_samples d < dg_max_samples d ->
  absent (samples d) (si_seq info) ->
  mx = (if si_seq info >? default 0 (dg_max_sample d) then Some (si_seq info) else dg_max_sample d) ->
  exists d' h' r, defrag_insert_new d h rd info mx = Some (d', h', r) /\ stepped rd info d h d' h' r.
Proof.
  intros Hok Hp Hlt Hf Hroom Hab Hmx. pose proof (fp_range _ _ _ _ Hp).
  destruct (insert_new_spec rd info d h mx) as (d' & h' & E & Hst); auto.
  { apply (fp_wf _ _ _ _ Hp). }
  { apply (fp_seq _ _ _ _ Hp). }
  { split; lia. }
  { by eapply fp_uncommitted. }
  { apply (fp_room _ _ _ _ Hp). }
  { intros s Hs. pose proof (ot_wf_sorted _ _ (do_wf _ Hok)) as Hso. fold (samples d) in Hso.
    destruct (sorted_split df_seq (si_seq info) (samples d) Hso Hab) as (l1 & l2 & He & H1 & H2).
    rewrite He, l_insert_mid by (rewrite <- Hs in H1, H2; done).
    rewrite Hmx, (do_max _ Hok), He, !last_app, !last_cons, Z.gtb_ltb.
    destruct (last l2) as [z|] eqn:Ez; simpl.
    - apply last_Some in Ez as [l0 ->]. apply Forall_app in H2 as [_ H2].
      apply Forall_cons in H2 as [H2 _]. destruct (Z.ltb_spec (df_seq z) (si_seq info)); [lia|done].
    - apply last_None in Ez as ->. destruct (last l1) as [z|] eqn:Ez; simpl.
      + apply last_Some in Ez as [l0 ->]. apply Forall_app in H1 as [_ H1].
        apply Forall_cons in H1 as [H1 _]. destruct (Z.ltb_spec (df_seq z) (si_seq info)); [congruence|lia].
      + pose proof (fp_seq _ _ _ _ Hp). destruct (Z.ltb_spec 0 (si_seq info)); [congruence|lia]. }
  by exists d', h', None.
Qed.

(** The preconditions survive making room. *)
Lemma limited_pre rd info d h d1 h1 mseq :
  frag_pre rd info d h -> limited d h d1 h1 mseq true -> frag_pre rd info d1 h1.
Proof.
  intros [P1 P2 P3 P4 P5 P6 P7] (Hok1 & Hwf1 & _ & Hroom & Hx & Hd & Hrc & Hs).
  assert (Hsub : forall x, x ∈ samples d1 -> x ∈ samples d).
  { destruct Hs as [[-> _]|(l1 & x & l2 & -> & -> & _)]; set_solver. }
  split; auto.
  - intros m. specialize (P6 m). specialize (Hrc m). lia.
  - specialize (Hrc (rd_rmsg rd)). destruct Hs as [[Hs _]|(l1 & x & l2 & Hs & Hs1 & _)].
    + rewrite Hs in Hrc. lia.
    + rewrite Hs, Hs1, held_mid in Hrc. pose proof (refs_to_nonneg (rd_rmsg rd) (chains (ivs x))).
      change BIAS with (2 ^ 20) in *. nia.
Qed.

(** Nothing happened. *)
Lemma stepped_refl rd info d h :
  defrag_ok d -> rc_wf h -> dg_n_samples d = dg_max_samples d -> stepped rd info d h d h None.
Proof.
  intros Hok Hwf Hn. split; auto; simpl.
  - intros m. lia.
  - intros m. change BIAS with (2 ^ 20). case_decide; lia.
  - lia.
Qed.

Lemma seq_in_samples d seq :
  ot_wf df_seq (dg_sampletree d) ->
  match ot_lookup df_seq (dg_sampletree d) seq with
  | Some s => df_seq s = seq /\ exists l1 l2, samples d = l1 ++ s :: l2
  | None => absent (samples d) seq
  end.
Proof.
  intros Hw. rewrite (ot_lookup_spec _ _ _ Hw). fold (samples d).
  destruct (l_lookup df_seq seq (samples d)) as [s|] eqn:El; [by apply l_lookup_Some|].
  by apply l_lookup_None.
Qed.

Lemma not_fragment_spec rd info d h :
  defrag_ok d -> frag_pre rd info d h -> rd_min rd = 0 -> rd_maxp1 rd = si_size info ->
  exists d' h' r, ('(r, h) ← reorder_rsample_new h rd info; Some (d, h, Some r)) = Some (d', h', r) /\
    stepped rd info d h d' h' r.
Proof.
  intros Hok Hp H1 H2. unfold reorder_rsample_new, nn_rdata_addbias.
  destruct (addbias_spec h (rd_rmsg rd) (fp_wf _ _ _ _ Hp) (fp_uncommitted _ _ _ _ Hp) (fp_room _ _ _ _ Hp))
    as (h' & E & Hwf' & Hu).
  rewrite E. simpl. eexists d, h', _. split; [done|]. split; simpl; auto.
  - intros m. rewrite Hu. simpl. case_decide; lia.
  - intros m. rewrite Hu. case_decide; lia.
  - exists [rd], info. repeat (split; [done|]). simpl. rewrite H1, H2. simpl.
    pose proof (fp_range _ _ _ _ Hp). f_equal. lia.
  - done.
  - intros P HP HPr. split; [done|]. by repeat constructor.
Qed.

Lemma max_seq_known d :
  defrag_ok d -> match dg_max_sample d with
                 | Some k => exists s, ot_lookup df_seq (dg_sampletree d) k = Some s
                 | None => True
                 end.
Proof.
  intros Hok. rewrite (do_max _ Hok). destruct (last (samples d)) as [z|] eqn:Ez; simpl; [|done].
  apply last_Some in Ez as [l0 El]. exists z. rewrite (ot_lookup_spec _ _ _ (do_wf _ Hok)).
  fold (samples d). pose proof (ot_wf_sorted _ _ (do_wf _ Hok)) as Hso. fold (samples d) in Hso.
  rewrite El in *. by apply l_lookup_mid.
Qed.

(** No sample is beyond [max_sample]. *)
Lemma max_bound d s l1 l2 :
  defrag_ok d -> samples d = l1 ++ s :: l2 -> df_seq s <= default 0 (dg_max_sample d).
Proof.
  intros Hok He. pose proof (ot_wf_sorted _ _ (do_wf _ Hok)) as Hso. fold (samples d) in Hso.
  rewrite (do_max _ Hok), He, last_app, last_cons. rewrite He in Hso.
  apply sorted_mid in Hso as (_ & _ & _ & Hs & _).
  destruct (last l2) as [z|] eqn:Ez; simpl; [|lia]. apply last_Some in Ez as [l0 ->].
  apply Forall_app in Hs as [_ Hs]. apply Forall_cons in Hs as [Hs _]. unfold key_lt in Hs. lia.
Qed.

(** A fragment is added to the sample it belongs to. *)
Lemma store_fragment_spec rd info d h :
  defrag_ok d -> frag_pre rd info d h -> rd_min rd < rd_maxp1 rd ->
  nn_rdata_is_fragment rd info = Some true ->
  exists d' h' r, defrag_store_fragment d h rd info = Some (d', h', r) /\ stepped rd info d h d' h' r.
Proof.
  intros Hok Hp Hlt Hf. unfold defrag_store_fragment. cbv zeta. pose proof (fp_seq _ _ _ _ Hp) as Hpos.
  destruct (Z.eqb_spec (si_seq info) (default 0 (dg_max_sample d))) as [Hm|Hm].
  - pose proof (max_seq_known d Hok) as Hk. destruct (dg_max_sample d) as [k|] eqn:Ek; simpl in Hm; [|lia].
    destruct Hk as [s Hs]. cbn [mbind option_bind]. pose proof (seq_in_samples d k (do_wf _ Hok)) as Hin.
    rewrite Hs in *. destruct Hin as (Hsq & l1 & l2 & He). cbn [mbind option_bind].
    apply (add_to_known rd info d h l1 s l2); auto. congruence.
  - destruct (limit_samples_spec d h (si_seq info) Hok (fp_wf _ _ _ _ Hp) (fp_cover _ _ _ _ Hp))
      as (d1 & h1 & mseq & ok & El & Hl). rewrite El. cbn [mbind option_bind].
    destruct ok; simpl negb.
    2:{ destruct Hl as (-> & -> & Hn). exists d, h, None. split; [done|].
        apply stepped_refl; auto. apply (fp_wf _ _ _ _ Hp). }
    pose proof (limited_pre rd info d h d1 h1 mseq Hp Hl) as Hp1.
    pose proof Hl as (Hok1 & Hwf1 & Hms & Hroom & _).
    assert (Hthen : forall o, (exists d' h' r, o = Some (d', h', r) /\ stepped rd info d1 h1 d' h' r) ->
              exists d' h' r, o = Some (d', h', r) /\ stepped rd info d h d' h' r).
    { intros o (d' & h' & r & Eo & Hs). exists d', h', r. split; [done|].
      by eapply stepped_after_limit. }
    apply Hthen. pose proof (seq_in_samples d1 (si_seq info) (do_wf _ Hok1)) as Hin.
    rewrite Hms. destruct (si_seq info >? default 0 (dg_max_sample d1)) eqn:Egt.
    + apply add_new; auto; [|by rewrite Egt].
      rewrite Z.gtb_ltb in Egt. apply Z.ltb_lt in Egt.
      destruct (ot_lookup df_seq (dg_sampletree d1) (si_seq info)) as [s|]; [|done].
      destruct Hin as (Hsq & l1 & l2 & He). pose proof (max_bound d1 s l1 l2 Hok1 He). lia.
    + destruct (ot_lookup df_seq (dg_sampletree d1) (si_seq info)) as [s|] eqn:Elk.
      * destruct Hin as (Hsq & l1 & l2 & He). by apply (add_to_known rd info d1 h1 l1 s l2).
      * pose proof (max_seq_known d1 Hok1) as Hk.
        destruct (Z.ltb_spec (si_seq info) (default 0 (dg_max_sample d1))) as [Hlt1|Hge].
        -- apply add_new; auto. by rewrite Egt.
        -- exfalso. rewrite Z.gtb_ltb in Egt. apply Z.ltb_ge in Egt.
           destruct (dg_max_sample d1) as [k|]; simpl in *; [|lia].
           destruct Hk as [s Hs]. assert (si_seq info = k) by lia. congruence.
Qed.

Lemma max_assert_holds d : defrag_ok d -> defrag_max_assert d = true.
Proof.
  intros Hok. unfold defrag_max_assert. rewrite ot_find_max_spec. fold (samples d).
  rewrite <- (do_max _ Hok). by rewrite bool_decide_eq_true_2.
Qed.

(** [nn_defrag_rsample] never fails, and does what [stepped] says. *)
Lemma defrag_rsample_spec rd info d h :
  defrag_ok d -> frag_pre rd info d h ->
  exists d' h' r, nn_defrag_rsample d h rd info = Some (d', h', r) /\ stepped rd info d h d' h' r.
Proof.
  intros Hok Hp. unfold nn_defrag_rsample. pose proof (do_limit _ Hok). pose proof (fp_range _ _ _ _ Hp).
  rewrite Z.gtb_ltb. destruct (Z.ltb_spec (dg_max_samples d) (dg_n_samples d)); [lia|].
  assert (Hf : nn_rdata_is_fragment rd info =
               Some (negb ((rd_min rd =? 0) && (rd_maxp1 rd =? si_size info)))).
  { unfold nn_rdata_is_fragment. zcases; done. }
  rewrite Hf. cbn [mbind option_bind]. rewrite negb_involutive.
  destruct ((rd_min rd =? 0) && (rd_maxp1 rd =? si_size info)) eqn:Ef.
  { apply andb_prop in Ef as [E1%Z.eqb_eq E2%Z.eqb_eq]. by apply not_fragment_spec. }
  assert (Hlt : rd_min rd < rd_maxp1 rd).
  { destruct (fp_nonempty _ _ _ _ Hp) as [[E1 E2]|]; [|done]. rewrite E1, E2, !Z.eqb_refl in Ef. done. }
  rewrite (max_assert_holds d Hok). destruct (store_fragment_spec rd info d h Hok Hp Hlt Hf) as (d' & h' & r & E & Hst).
  rewrite E. cbn [mbind option_bind negb]. rewrite (max_assert_holds d' (st_ok _ _ _ _ _ _ _ Hst)). eauto.
Qed.

(** ** Gaps *)

Lemma notegap_loop_spec maxp1 rest : forall fuel d h l1,
  rc_wf h -> ot_wf df_seq (dg_sampletree d) -> samples d = l1 ++ rest ->
  dg_n_samples d = Z.of_nat (length (samples d)) -> refs_cover h (held (samples d)) ->
  (length rest <= fuel)%nat ->
  exists d' h' r1 r2,
    defrag_notegap_loop fuel d h (head rest) maxp1 = Some (d', h') /\ rc_wf h' /\
    ot_wf df_seq (dg_sampletree d') /\ rest = r1 ++ r2 /\
    Forall (fun s => df_seq s < maxp1) r1 /\
    match r2 with s :: _ => maxp1 <= df_seq s | [] => True end /\
    samples d' = l1 ++ r2 /\ dg_n_samples d' = Z.of_nat (length (samples d')) /\
    dg_max_samples d' = dg_max_samples d /\ dg_drop_mode d' = dg_drop_mode d /\
    forall m, rc h' m - BIAS * refs_to m (held (samples d')) =
              rc h m - BIAS * refs_to m (held (samples d)).
Proof.
  induction rest as [|s rest IH]; intros fuel d h l1 Hwf Hw He Hn Hc Hfu.
  - exists d, h, [], []. destruct fuel; by repeat (split; [done|]).
  - destruct fuel as [|fuel]; simpl in Hfu; [lia|]. cbn [head defrag_notegap_loop].
    destruct (Z.ltb_spec (df_seq s) maxp1) as [Hlt|Hge].
    2:{ exists d, h, [], (s :: rest). by repeat (split; [done|]). }
    rewrite (ot_find_succ_spec df_seq _ l1 s rest Hw He).
    destruct (drop_spec nn_fragchain_adjust_refcount d h l1 s rest)
      as (d1 & h1 & E & Hwf1 & Hw1 & He1 & Hm1 & Hn1 & Hx1 & Hd1 & Hr1); auto.
    { apply frees_adjust. }
    { rewrite He in Hc. by eapply refs_cover_mid. }
    assert (Hrc : forall m, rc h1 m - BIAS * refs_to m (held (samples d1)) =
                            rc h m - BIAS * refs_to m (held (samples d))).
    { intros m. rewrite He, He1, held_mid, Hr1. lia. }
    destruct (IH fuel d1 h1 l1) as (d' & h' & r1 & r2 & E' & Hwf' & Hw' & Hr & Hf & Hh & Hs' & Hn' & Hx' & Hd' & Hrc');
      auto; [rewrite Hn1, Hn, He, He1, !length_app; simpl; lia| |lia|].
    { intros m. specialize (Hrc m). specialize (Hc m). lia. }
    exists d', h', (s :: r1), r2. rewrite E. cbn [mbind option_bind]. split; [done|].
    split; [done|]. split; [done|]. split; [by rewrite Hr|]. split; [by constructor|].
    split; [done|]. split; [done|]. split; [done|]. split; [congruence|]. split; [congruence|].
    intros m. by rewrite Hrc'.
Qed.

Lemma sorted_head_ge (k : Z) l :
  sorted df_seq l -> match l with s :: _ => k <= df_seq s | [] => True end ->
  Forall (fun s => k <= df_seq s) l.
Proof.
  destruct l as [|s l]; [constructor|]. intros [Hs _]%sorted_cons Hk. constructor; [done|].
  eapply Forall_impl; [exact Hs|]. unfold key_lt. simpl. lia.
Qed.

Lemma notegap_spec d h min maxp1 :
  defrag_ok d -> rc_wf h -> refs_cover h (held (samples d)) ->
  exists d' h' l1 r1 r2,
    nn_defrag_notegap d h min maxp1 = Some (d', h') /\ defrag_ok d' /\ rc_wf h' /\
    samples d = l1 ++ r1 ++ r2 /\ samples d' = l1 ++ r2 /\
    Forall (fun s => df_seq s < min) l1 /\ Forall (fun s => min <= df_seq s < maxp1) r1 /\
    Forall (fun s => min <= df_seq s /\ maxp1 <= df_seq s) r2 /\
    (forall m, rc h' m - BIAS * refs_to m (held (samples d')) =
               rc h m - BIAS * refs_to m (held (samples d))).
Proof.
  intros Hok Hwf Hc. pose proof (ot_wf_sorted _ _ (do_wf _ Hok)) as Hso. fold (samples d) in Hso.
  assert (Hsp : exists l1 rest, samples d = l1 ++ rest /\ Forall (fun s => df_seq s < min) l1 /\
            Forall (fun s => min <= df_seq s) rest /\
            ot_lookup_succeq df_seq (dg_sampletree d) min = head rest).
  { rewrite (ot_lookup_succeq_spec _ _ _ (do_wf _ Hok)). fold (samples d).
    destruct (l_succeq df_seq min (samples d)) as [s|] eqn:El.
    - apply l_succeq_Some in El as (l1 & l2 & He & Hk & Hl1). exists l1, (s :: l2).
      split; [done|]. split; [done|]. split; [|done]. rewrite He in Hso.
      apply sorted_app in Hso as (_ & Hso & _). by apply sorted_head_ge.
    - apply l_succeq_None in El. exists (samples d), []. by rewrite app_nil_r. }
  destruct Hsp as (l1 & rest & He & Hl1 & Hrest & Elk). unfold nn_defrag_notegap. rewrite Elk.
  destruct (notegap_loop_spec maxp1 rest (length (ot_elements (dg_sampletree d))) d h l1)
    as (d' & h' & r1 & r2 & E' & Hwf' & Hw' & Hr & Hf & Hh & Hs' & Hn' & Hx' & Hd' & Hrc'); auto.
  { apply Hok. }
  { apply Hok. }
  { fold (samples d). rewrite He, length_app. lia. }
  rewrite E'. cbn [mbind option_bind]. eexists _, h', l1, r1, r2. split; [done|].
  pose proof (do_stored _ Hok) as Hst. rewrite He, Hr in Hst.
  apply Forall_app in Hst as [G1 Hst]. apply Forall_app in Hst as [_ G2].
  rewrite He, Hr in Hso. apply sorted_app in Hso as (_ & Hso & _).
  apply sorted_app in Hso as (_ & Hso & _). rewrite Hr in Hrest. apply Forall_app in Hrest as [R1 R2].
  pose proof (sorted_head_ge maxp1 r2 Hso Hh) as R3. unfold samples at 3. simpl. fold (samples d').
  split; [|split; [done|split; [by rewrite He, Hr|split; [done|]]]].
  - pose proof (do_limit _ Hok). pose proof (do_n _ Hok) as Hn. pose proof (do_range _ Hok).
    rewrite He, Hr, !length_app in Hn.
    split; unfold samples; simpl; fold (samples d'); auto; try lia.
    + rewrite Hs'. by apply Forall_app.
    + apply find_max_samples.
    + rewrite Hn', Hs', length_app. lia.
  - split; [done|]. split; [by apply Forall_and|]. split; [by apply Forall_and|]. done.
Qed.

(** ** Freeing the defragmenter *)

Lemma defrag_free_loop_spec l : forall d h,
  rc_wf h -> ot_wf df_seq (dg_sampletree d) -> samples d = l ->
  dg_n_samples d = Z.of_nat (length (samples d)) -> refs_cover h (held (samples d)) ->
  exists d' h', defrag_free_loop (length l) d h = Some (d', h') /\ rc_wf h' /\
    forall m, rc h' m = rc h m - BIAS * refs_to m (held l).
Proof.
  induction l as [|s l IH]; intros d h Hwf Hw He Hn Hc; cbn [length defrag_free_loop];
    rewrite ot_find_min_spec; fold (samples d); rewrite He; cbn [head].
  - rewrite He in Hn. rewrite Hn. simpl. exists d, h. split; [done|]. split; [done|]. intros; lia.
  - destruct (drop_spec nn_fragchain_rmbias_anythread d h [] s l)
      as (d1 & h1 & E & Hwf1 & Hw1 & He1 & Hm1 & Hn1 & Hx1 & Hd1 & Hr1); auto.
    { apply frees_anythread. }
    { rewrite He in Hc. by eapply (refs_cover_mid h []). }
    rewrite E. cbn [mbind option_bind]. simpl in He1.
    destruct (IH d1 h1) as (d' & h' & E' & Hwf' & Hrc); auto.
    { rewrite Hn1, Hn, He, He1. simpl. lia. }
    { intros m. specialize (Hc m). rewrite He in Hc. simpl in Hc. rewrite He1, Hr1.
      rewrite refs_to_app in Hc. lia. }
    exists d', h'. split; [done|]. split; [done|]. intros m. rewrite Hrc, Hr1. simpl.
    rewrite refs_to_app. lia.
Qed.

Lemma defrag_free_spec d h :
  defrag_ok d -> rc_wf h -> refs_cover h (held (samples d)) ->
  exists h', nn_defrag_free d h = Some h' /\ rc_wf h' /\
    forall m, rc h' m = rc h m - BIAS * refs_to m (held (samples d)).
Proof.
  intros Hok Hwf Hc. unfold nn_defrag_free. fold (samples d).
  destruct (defrag_free_loop_spec (samples d) d h) as (d' & h' & E & Hwf' & Hr); auto; try apply Hok.
  rewrite E. by exists h'.
Qed.
End Props.
