(* ===== verification/DefragNack.v ===== *)
(** * Retransmission requests of the defragmenter

    [nn_defrag_nackmap] asks for exactly the fragments of which a byte is
    missing. *)

From Stdlib Require Import ZArith Lia Sorting.Sorted.
From stdpp Require Import prelude.
From S2P Require Import Prelude OrdTree Bitset Refs Defrag DefragFacts DefragOps DefragProps.

(** ** Setting a range of bits *)

Lemma set_from_spec n numbits base : forall bits i,
  bits_ok numbits bits -> base <= i -> i + Z.of_nat n <= base + numbits ->
  exists bits', set_from n numbits base bits i = Some bits' /\ bits_ok numbits bits' /\
    length bits' = length bits /\
    forall x, 0 <= x -> bit_at bits' x = bit_at bits x || (i - base <=? x) && (x <? i - base + Z.of_nat n).
Proof.
  induction n as [|n IH]; intros bits i Hok Hi Hn; cbn [set_from].
  - exists bits. split; [done|]. split; [done|]. split; [done|]. intros x Hx.
    destruct (Z.leb_spec (i - base) x), (Z.ltb_spec x (i - base + Z.of_nat 0)); simpl;
      rewrite ?orb_false_r; lia || done.
  - pose proof (proj1 Hok) as Hnb.
    assert (Hw : wrap_u 32 (i - base) = i - base) by (apply Z.mod_small; lia). rewrite Hw.
    destruct (set_spec numbits bits (i - base) Hok) as (b1 & E1 & Hok1 & Hl1 & Hb1); [lia|].
    rewrite E1. cbn [mbind option_bind].
    destruct (IH b1 (i + 1) Hok1) as (b2 & E2 & Hok2 & Hl2 & Hb2); [lia|lia|].
    exists b2. split; [done|]. split; [done|]. split; [congruence|]. intros x Hx.
    rewrite Hb2, Hb1 by done.
    destruct (Z.eqb_spec x (i - base)), (Z.leb_spec (i + 1 - base) x), (Z.leb_spec (i - base) x),
      (Z.ltb_spec x (i + 1 - base + Z.of_nat n)), (Z.ltb_spec x (i - base + Z.of_nat (S n)));
      simpl; rewrite ?orb_true_r, ?orb_false_r; lia || done.
Qed.

Lemma for_set_spec numbits base bits i bound :
  bits_ok numbits bits -> base <= i ->
  exists bits' i', for_set numbits base bits i bound = Some (bits', i') /\ bits_ok numbits bits' /\
    length bits' = length bits /\
    forall x, 0 <= x < numbits ->
      bit_at bits' x = bit_at bits x || (i <=? base + x) && (base + x <? bound).
Proof.
  intros Hok Hi. unfold for_set. pose proof (proj1 Hok) as Hnb.
  destruct (Z.le_gt_cases (Z.min (base + numbits) bound) i) as [Hc|Hc].
  - replace (Z.to_nat (Z.min (base + numbits) bound - i)) with O by lia.
    exists bits, (i + 0). split; [done|]. split; [done|]. split; [done|]. intros x Hx.
    destruct (Z.leb_spec i (base + x)), (Z.ltb_spec (base + x) bound); simpl; rewrite ?orb_false_r; lia || done.
  - destruct (set_from_spec (Z.to_nat (Z.min (base + numbits) bound - i)) numbits base bits i)
      as (b' & E & Hok' & Hl' & Hb'); [done|lia|lia|].
    rewrite E. cbn [mbind option_bind]. eexists b', _. split; [done|]. split; [done|]. split; [done|].
    intros x Hx. rewrite Hb' by lia. f_equal.
    destruct (Z.leb_spec i (base + x)), (Z.ltb_spec (base + x) bound), (Z.leb_spec (i - base) x),
      (Z.ltb_spec x (i - base + Z.of_nat (Z.to_nat (Z.min (base + numbits) bound - i)))); simpl; lia || done.
Qed.

(** ** Fragments and gaps *)

Section Gap.
Context (fs : Z).
Hypothesis Hfs : 0 < fs.

Definition in_frag (k b : Z) : Prop := k * fs <= b < (k + 1) * fs.

(** The fragments that have a byte in [g0, g1). *)
Lemma frag_meets g0 g1 k :
  0 <= g0 < g1 ->
  (exists b, in_frag k b /\ g0 <= b < g1) <->
  g0 / fs <= k < g1 / fs + (if g1 mod fs =? 0 then 0 else 1).
Proof using Hfs.
  intros Hg. pose proof (Z.div_mod g0 fs ltac:(lia)) as D0. pose proof (Z.div_mod g1 fs ltac:(lia)) as D1.
  pose proof (Z.mod_pos_bound g0 fs Hfs). pose proof (Z.mod_pos_bound g1 fs Hfs).
  unfold in_frag. split.
  - intros (b & Hb & Hr). split; [nia|]. destruct (Z.eqb_spec (g1 mod fs) 0); nia.
  - intros Hk. exists (Z.max g0 (k * fs)). destruct (Z.eqb_spec (g1 mod fs) 0); nia.
Qed.

(** Uncovered bytes of fragment [k] below [lim]. *)
Definition missing (l : list defrag_iv) (lim k : Z) : Prop :=
  exists b, in_frag k b /\ 0 <= b < lim /\ ~ covered l b.

(** Between two consecutive intervals. *)
Lemma missing_next size l1 p q l2 k :
  ivs_ok size (l1 ++ p :: q :: l2) ->
  missing (l1 ++ p :: q :: l2) (iv_maxp1 q) k <->
  missing (l1 ++ p :: q :: l2) (iv_maxp1 p) k \/
  iv_maxp1 p / fs <= k < iv_min q / fs + (if iv_min q mod fs =? 0 then 0 else 1).
Proof using Hfs.
  intros (Hs & Hg & _). apply StronglySorted_mid_iff in Hs as (_ & Hs2 & Hp1 & Hp2 & _).
  apply StronglySorted_inv in Hs2 as [_ Hq2]. apply Forall_cons in Hp2 as [Hpq Hp2].
  apply Forall_app in Hg as [G1 Hg]. apply Forall_cons in Hg as [Gp Hg]. apply Forall_cons in Hg as [Gq G2].
  pose proof (ig_range _ _ Gp). pose proof (ig_range _ _ Gq). unfold iv_sep in Hpq.
  rewrite <- frag_meets by lia. unfold missing.
  assert (Hgap : forall b, iv_maxp1 p <= b < iv_min q -> ~ covered (l1 ++ p :: q :: l2) b).
  { intros b Hb. rewrite covered_app, !covered_cons. intros [(iv & Hiv & Hc)|[?|[?|(iv & Hiv & Hc)]]]; try lia.
    - rewrite Forall_forall in Hp1. apply Hp1 in Hiv. unfold iv_sep in Hiv. lia.
    - rewrite Forall_forall in Hq2. apply Hq2 in Hiv. unfold iv_sep in Hiv. lia. }
  split.
  - intros (b & Hb & Hl & Hn). destruct (Z.lt_ge_cases b (iv_maxp1 p)) as [|Hge].
    + left. exists b. split; [done|]. split; [lia|done].
    + right. exists b. split; [done|]. split; [lia|].
      destruct (Z.lt_ge_cases b (iv_min q)); [done|]. exfalso. apply Hn.
      rewrite covered_app, !covered_cons. lia.
  - intros [(b & Hb & Hl & Hn)|(b & Hb & Hr)]; exists b.
    + split; [done|]. split; [lia|done].
    + split; [done|]. split; [lia|]. by apply Hgap.
Qed.
End Gap.

Section Nack.
Context {T : Type -> Type} `{!OrdTree T, !OrdTreeLaws T}.
Implicit Types (d : nn_defrag T) (s : rsample_defrag T).

Section Loop.
Context (size fs numbits base : Z) (fragtree : T defrag_iv).
Hypothesis Hfs : 0 < fs.
Hypothesis Hw : ot_wf iv_min fragtree.
Abbreviation L := (ot_elements fragtree).
Hypothesis Hok : ivs_ok size L.

(** What the bits mean once the intervals up to [p] have been handled. *)
Definition bits_upto (p : defrag_iv) (bits : list Z) : Prop :=
  forall x, 0 <= x < numbits -> bit_at bits x = true <-> missing fs L (iv_maxp1 p) (base + x).

(** What they mean, together with the tail from [i], in the end. *)
Definition bits_final (z : defrag_iv) (bits : list Z) (i : Z) : Prop :=
  forall x, 0 <= x < numbits ->
    (bit_at bits x = true \/ i <= base + x) <->
    (missing fs L (iv_maxp1 z) (base + x) \/ iv_maxp1 z / fs <= base + x).

Lemma last_beyond l1 p rest z :
  L = l1 ++ p :: rest -> last L = Some z -> iv_maxp1 p <= iv_maxp1 z.
Proof using Hok.
  destruct Hok as (Hs & Hg & _). intros He Hz. rewrite He in *. rewrite last_app, last_cons in Hz.
  destruct (last rest) as [y|] eqn:Ey; simplify_eq; [|lia]. apply last_Some in Ey as [r ->].
  apply StronglySorted_mid_iff in Hs as (_ & _ & _ & Hp & _). apply Forall_app in Hp as [_ Hp].
  apply Forall_cons in Hp as [Hp _]. unfold iv_sep in Hp.
  apply Forall_app in Hg as [_ Hg]. apply Forall_cons in Hg as [_ Hg].
  apply Forall_app in Hg as [_ Hg]. apply Forall_cons in Hg as [Hg _].
  pose proof (ig_range _ _ Hg). lia.
Qed.

Lemma final_here z bits : bits_upto z bits -> bits_final z bits (iv_maxp1 z / fs).
Proof using. intros Hb x Hx. rewrite (Hb x Hx). done. Qed.

Lemma final_early l1 p rest z bits :
  L = l1 ++ p :: rest -> last L = Some z -> bits_upto p bits ->
  base + numbits <= iv_maxp1 p / fs -> bits_final z bits (iv_maxp1 p / fs).
Proof using Hfs Hok.
  intros He Hz Hb Hi x Hx. rewrite (Hb x Hx). pose proof (last_beyond l1 p rest z He Hz) as Hpz.
  pose proof (Z.div_le_mono _ _ fs Hfs Hpz). pose proof (Z.mul_div_le (iv_maxp1 p) fs Hfs).
  split; (intros [(b & Hin & Hr & Hn)|?]; [left; exists b|lia]).
  - split; [done|]. split; [lia|done].
  - split; [done|]. split; [|done]. unfold in_frag in Hin. nia.
Qed.

Lemma nackmap_loop_spec z rest : forall fuel l1 p bits,
  last L = Some z -> L = l1 ++ p :: rest -> (length rest <= fuel)%nat -> bits_ok numbits bits ->
  base <= iv_maxp1 p / fs -> bits_upto p bits ->
  exists bits' i', nackmap_loop fuel fragtree fs numbits base bits (iv_maxp1 p / fs) (head rest) =
      Some (bits', i') /\ bits_ok numbits bits' /\ length bits' = length bits /\ base <= i' /\
    bits_final z bits' i'.
Proof using All.
  induction rest as [|q rest IH]; intros fuel l1 p bits Hz He Hfu Hbo Hbase Hb.
  - exists bits, (iv_maxp1 p / fs). destruct fuel; (split; [done|]); repeat (split; [done|]);
      rewrite He, last_snoc in Hz; simplify_eq; by apply final_here.
  - destruct fuel as [|fuel]; simpl in Hfu; [lia|]. cbn [head nackmap_loop].
    destruct (Z.ltb_spec (iv_maxp1 p / fs) (base + numbits)) as [Hlt|Hge].
    2:{ exists bits, (iv_maxp1 p / fs). repeat (split; [done|]). by eapply final_early. }
    destruct (for_set_spec numbits base bits (iv_maxp1 p / fs)
      (iv_min q / fs + (if iv_min q mod fs =? 0 then 0 else 1)) Hbo Hbase)
      as (b1 & i1 & E1 & Hbo1 & Hl1 & Hb1).
    rewrite E1. cbn [mbind option_bind].
    pose proof Hok as Hok'. rewrite He in Hok'.
    assert (He' : L = (l1 ++ [p]) ++ q :: rest) by (by rewrite He, <- app_assoc).
    rewrite (ot_find_succ_spec iv_min fragtree (l1 ++ [p]) q rest Hw He').
    assert (Hpq : iv_maxp1 p <= iv_maxp1 q).
    { destruct Hok' as (Hs & Hg & _). apply StronglySorted_mid_iff in Hs as (_ & _ & _ & Hp & _).
      apply Forall_cons in Hp as [Hp _]. apply Forall_app in Hg as [_ Hg].
      apply Forall_cons in Hg as [_ Hg]. apply Forall_cons in Hg as [Hg _].
      pose proof (ig_range _ _ Hg). unfold iv_sep in Hp. lia. }
    destruct (IH fuel (l1 ++ [p]) q b1 Hz He') as (b2 & i2 & E2 & Hbo2 & Hl2 & Hi2 & Hb2); auto; [lia| | |].
    + pose proof (Z.div_le_mono _ _ fs Hfs Hpq). lia.
    + intros x Hx. rewrite (Hb1 x Hx), orb_true_iff, (Hb x Hx), andb_true_iff, Z.leb_le, Z.ltb_lt, He.
      symmetry. apply (missing_next fs Hfs size l1 p q rest). done.
    + exists b2, i2. split; [done|]. split; [done|]. split; [congruence|]. done.
Qed.
End Loop.

(** Where the bitmap has to end. *)
Section MapEnd.
Context (size fs maxfragnum : Z) (l : list defrag_iv) (a z : defrag_iv).
Hypothesis Hfs : 0 < fs.
Hypothesis Hok : ivs_ok size l.
Hypothesis Hinc : incomplete size l.
Hypothesis Ha : head l = Some a.
Hypothesis Hz : last l = Some z.
Hypothesis Hmf : 0 <= maxfragnum.
Definition clipped : Z :=
  let nfrags := (size + fs - 1) / fs in
  if maxfragnum >=? nfrags then nfrags - 1 else maxfragnum.
Definition map_end : Z :=
  if (iv_maxp1 z <? (clipped + 1) * fs) && (iv_maxp1 z <? size) then clipped
  else if iv_min z >? 0 then (iv_min z - 1) / fs
  else 0.

Lemma ends : iv_min a = 0 /\ 0 <= iv_maxp1 a <= iv_maxp1 z /\ 0 <= iv_min z <= iv_maxp1 z /\
  iv_maxp1 z <= size /\ (z = a \/ iv_maxp1 a < iv_min z /\ ~ covered l (iv_min z - 1)) /\
  (forall b, iv_maxp1 z <= b -> ~ covered l b).
Proof using All.
  destruct l as [|a' l']; simplify_eq. injection Ha as ->. pose proof Hok as (Hs & Hg & H0).
  assert (Hin : z ∈ a :: l') by (by apply last_Some_elem_of).
  rewrite Forall_forall in Hg. pose proof (ig_range _ _ (Hg a ltac:(left))).
  pose proof (ig_range _ _ (Hg z Hin)). apply last_Some in Hz as [l0 He].
  rewrite He in Hs. apply StronglySorted_mid_iff in Hs as (_ & _ & Hl & _).
  rewrite Forall_forall in Hl.
  assert (Hall : forall iv, iv ∈ a :: l' -> iv = z \/ iv_maxp1 iv < iv_min z).
  { intros iv Hiv. rewrite He in Hiv. apply elem_of_app in Hiv as [Hiv|Hiv].
    - right. by apply Hl.
    - left. by apply list_elem_of_singleton in Hiv. }
  split; [done|]. destruct (Hall a ltac:(left)) as [<-|Haz].
  - repeat split; try lia; [by left|]. intros b Hb (iv & Hiv & Hc).
    destruct (Hall iv Hiv) as [->|]; lia.
  - repeat split; try lia.
    + right. split; [done|]. intros (iv & Hiv & Hc). destruct (Hall iv Hiv) as [->|]; lia.
    + intros b Hb (iv & Hiv & Hc). destruct (Hall iv Hiv) as [->|]; lia.
Qed.

Lemma clipped_frag k : k <= clipped -> k * fs < size.
Proof using All.
  intros Hk. destruct Hinc as (b & Hb & _). unfold clipped in Hk. rewrite Z.geb_leb in Hk.
  assert (Hn : ((size + fs - 1) / fs - 1) * fs < size).
  { pose proof (Z.mul_div_le (size + fs - 1) fs Hfs). nia. }
  destruct (Z.leb_spec ((size + fs - 1) / fs) maxfragnum); nia.
Qed.

Lemma frag_clipped k : k <= maxfragnum -> k * fs < size -> k <= clipped.
Proof using Hfs.
  intros Hk Hs. unfold clipped. rewrite Z.geb_leb.
  destruct (Z.leb_spec ((size + fs - 1) / fs) maxfragnum); [|done].
  assert (k + 1 <= (size + fs - 1) / fs); [|lia]. apply Z.div_le_lower_bound; nia.
Qed.

Lemma clipped_nonneg : 0 <= clipped.
Proof using All.
  destruct Hinc as (b & Hb & _). unfold clipped. rewrite Z.geb_leb.
  destruct (Z.leb_spec ((size + fs - 1) / fs) maxfragnum); [|done].
  assert (1 <= (size + fs - 1) / fs); [|lia]. apply Z.div_le_lower_bound; lia.
Qed.

(** A single interval from 0 stops before the end of the sample. *)
Lemma single_short : z = a -> iv_maxp1 z < size.
Proof using All.
  intros He. destruct ends as (Ha0 & _ & _ & _ & _ & _). destruct Hinc as (b & Hb & Hn).
  destruct (Z.lt_ge_cases (iv_maxp1 z) size); [done|]. exfalso. apply Hn.
  exists a. split; [by apply head_Some_elem_of|]. subst. lia.
Qed.

Lemma map_end_exact k :
  iv_maxp1 a / fs <= k <= map_end ->
  missing fs l size k <-> missing fs l (iv_maxp1 z) k \/ iv_maxp1 z / fs <= k.
Proof using All.
  intros [Hk1 Hk2]. destruct ends as (Ha0 & Hr1 & Hr2 & Hr3 & Hza & Hun). split.
  - intros (b & Hin & Hb & Hn). destruct (Z.lt_ge_cases b (iv_maxp1 z)).
    + left. exists b. split; [done|]. split; [lia|done].
    + right. unfold in_frag in Hin. assert (iv_maxp1 z / fs < k + 1); [|lia].
      apply Z.div_lt_upper_bound; lia.
  - intros [(b & Hin & Hb & Hn)|Hk]; [exists b; split; [done|]; split; [lia|done]|].
    pose proof (Z.mul_succ_div_gt (iv_maxp1 z) fs Hfs) as Hgt.
    pose proof (Z.div_pos (iv_maxp1 a) fs ltac:(lia) Hfs) as Hd0.
    unfold map_end in Hk2. rewrite Z.gtb_ltb in Hk2.
    destruct (Z.ltb_spec (iv_maxp1 z) ((clipped + 1) * fs)), (Z.ltb_spec (iv_maxp1 z) size);
      simpl in Hk2.
    1: { pose proof (clipped_frag k Hk2). exists (Z.max (iv_maxp1 z) (k * fs)).
         split; [unfold in_frag; nia|]. split; [lia|]. apply Hun. lia. }
    all: destruct (Z.ltb_spec 0 (iv_min z));
      [ destruct Hza as [->|[_ Hnc]]; [lia|];
        pose proof (Z.mul_div_le (iv_min z - 1) fs Hfs);
        pose proof (Z.mul_succ_div_gt (iv_min z - 1) fs Hfs);
        pose proof (Z.div_le_mono (iv_min z - 1) (iv_maxp1 z) fs Hfs ltac:(lia));
        exists (iv_min z - 1); split; [unfold in_frag; nia|]; split; [lia|done]
      | destruct Hza as [He|[? _]]; [|lia]; pose proof (single_short He);
        pose proof clipped_nonneg; subst; nia ].
Qed.

Lemma map_end_complete k :
  k <= maxfragnum -> missing fs l size k -> iv_maxp1 a / fs <= k <= map_end.
Proof using All.
  intros Hk (b & Hin & Hb & Hn). destruct ends as (Ha0 & Hr1 & Hr2 & Hr3 & Hza & Hun).
  unfold in_frag in Hin. assert (Hkc : k <= clipped) by (apply frag_clipped; lia).
  assert (Hba : iv_maxp1 a <= b).
  { destruct (Z.lt_ge_cases b (iv_maxp1 a)); [|done]. exfalso. apply Hn. exists a.
    split; [by apply head_Some_elem_of|lia]. }
  assert (Hbase : iv_maxp1 a / fs <= k).
  { assert (iv_maxp1 a / fs < k + 1); [|lia]. apply Z.div_lt_upper_bound; lia. }
  split; [done|]. unfold map_end. rewrite Z.gtb_ltb.
  assert (Hbz : iv_min z <= b -> iv_maxp1 z <= b).
  { intros ?. destruct (Z.lt_ge_cases b (iv_maxp1 z)); [|done]. exfalso. apply Hn. exists z.
    split; [by apply last_Some_elem_of|lia]. }
  destruct (Z.ltb_spec (iv_maxp1 z) ((clipped + 1) * fs)), (Z.ltb_spec (iv_maxp1 z) size);
    simpl; [done|..]; destruct (Z.ltb_spec 0 (iv_min z));
    try (apply Z.div_le_lower_bound; nia); nia.
Qed.
End MapEnd.

(** The 32-bit arithmetic of the code computes [map_end]. *)
Lemma map_end_u32 size fs maxfragnum l a z :
  0 < fs -> 0 <= size -> size + fs < 2 ^ 32 -> 0 <= maxfragnum ->
  ivs_ok size l -> incomplete size l -> head l = Some a -> last l = Some z ->
  let nfrags := wrap_u 32 (size + fs - 1) / fs in
  let mf := if maxfragnum >=? nfrags then wrap_u 32 (nfrags - 1) else maxfragnum in
  (if (iv_maxp1 z <? wrap_u 32 ((mf + 1) * fs)) && (iv_maxp1 z <? size) then mf
   else if iv_min z >? 0 then (iv_min z - 1) / fs else 0) = map_end size fs maxfragnum z.
Proof.
  intros Hfs Hs Hb Hmf Hok Hinc Ha Hz nfrags mf.
  assert (Hn : nfrags = (size + fs - 1) / fs).
  { unfold nfrags, wrap_u. by rewrite Z.mod_small by lia. }
  assert (Hpos : 1 <= nfrags).
  { destruct Hinc as (b & ? & _). rewrite Hn. apply Z.div_le_lower_bound; lia. }
  pose proof (Z.mul_div_le (size + fs - 1) fs Hfs) as Hle. rewrite <- Hn in Hle.
  assert (Hm : mf = clipped size fs maxfragnum).
  { unfold mf, clipped. rewrite <- Hn. destruct (maxfragnum >=? nfrags); [|done].
    unfold wrap_u. apply Z.mod_small. nia. }
  assert (Hmn : 0 <= mf <= nfrags - 1).
  { rewrite Hm. unfold clipped. rewrite <- Hn, Z.geb_leb.
    destruct (Z.leb_spec nfrags maxfragnum); lia. }
  unfold map_end. rewrite <- Hm. unfold wrap_u. rewrite (Z.mod_small ((mf + 1) * fs)); [done|nia].
Qed.

(** The map for a sample of which something is known. *)
Lemma nackmap_spec_bits d s seq maxfragnum bits maxsz :
  defrag_ok d -> ot_lookup df_seq (dg_sampletree d) seq = Some s ->
  let fs := si_fragsize (df_sampleinfo s) in
  let size := si_size (df_sampleinfo s) in
  0 < fs -> size + fs < 2 ^ 32 -> 0 <= maxfragnum < 2 ^ 32 ->
  0 <= maxsz <= 256 -> bits_ok maxsz bits ->
  exists numbits base bits',
    nn_defrag_nackmap d seq maxfragnum bits maxsz =
      Some (numbits, Some (FragmentNumberSet base numbits bits')) /\
    0 <= numbits <= maxsz /\ length bits' = length bits /\
    (forall x, 0 <= x < numbits -> bit_at bits' x = true <-> missing fs (ivs s) size (base + x)) /\
    (forall k, k <= maxfragnum -> missing fs (ivs s) size k ->
       base <= k /\ (k < base + numbits \/ numbits = maxsz)) /\
    bits_ok numbits bits' /\ 0 <= base < 2 ^ 32 - 1.
Proof.
  intros Hok Elk fs size Hfs Hsz Hmf Hmx Hbo. unfold nn_defrag_nackmap.
  pose proof (seq_in_samples d seq (do_wf _ Hok)) as Hin. rewrite Elk in *.
  destruct Hin as (_ & d1 & d2 & Hd). pose proof (do_stored _ Hok) as Hst. rewrite Hd in Hst.
  apply Forall_app in Hst as [_ Hst]. apply Forall_cons in Hst as [(Hso & Hinc & _) _].
  destruct Hso as [Hw Hiv Hlf _]. fold size fs. fold size in Hiv, Hinc.
  rewrite Z.gtb_ltb. destruct (Z.ltb_spec 256 maxsz); [lia|]. destruct (Z.eqb_spec fs 0); [lia|].
  destruct (last (ivs s)) as [z|] eqn:Ez.
  2:{ apply last_None in Ez. destruct Hiv as (_ & _ & H0). by rewrite Ez in H0. }
  destruct (ivs s) as [|a rest] eqn:El; [done|]. rewrite <- El in *.
  assert (Ha : head (ivs s) = Some a) by (by rewrite El).
  rewrite Hlf. cbn [option_map mbind option_bind].
  pose proof (ot_wf_sorted _ _ Hw) as Hsr. fold (ivs s) in Hsr.
  assert (Hlk : ot_lookup iv_min (df_fragtree s) (iv_min z) = Some z).
  { rewrite (ot_lookup_spec _ _ _ Hw). fold (ivs s). apply last_Some in Ez as [l0 He].
    rewrite He in *. by apply l_lookup_mid. }
  rewrite Hlk, ot_find_min_spec. fold (ivs s). rewrite Ha. cbn [mbind option_bind].
  destruct Hinc as (b0 & Hb0 & Hn0). pose proof (ex_intro _ b0 (conj Hb0 Hn0) : incomplete size (ivs s)) as Hinc.
  rewrite (map_end_u32 size fs maxfragnum (ivs s) a z) by (auto; lia).
  pose proof (map_end_exact size fs maxfragnum (ivs s) a z Hfs Hiv Hinc Ha Ez (proj1 Hmf)) as Hex.
  pose proof (map_end_complete size fs maxfragnum (ivs s) a z Hfs Hiv Hinc Ha Ez (proj1 Hmf)) as Hco.
  set (me := map_end size fs maxfragnum z) in *. set (base := iv_maxp1 a / fs) in *.
  set (nb := if (if me <? base then 0 else me - base + 1) >? maxsz then maxsz
             else if me <? base then 0 else me - base + 1).
  assert (Hnb : 0 <= nb <= maxsz /\ (nb = maxsz \/ nb = Z.max 0 (me - base + 1)) /\
                (0 < nb -> base + nb <= me + 1)).
  { unfold nb. rewrite Z.gtb_ltb. zcases. }
  destruct Hnb as (Hnb1 & Hnb2 & Hnb3).
  assert (Hbo' : bits_ok nb bits) by (destruct Hbo as (? & ? & ?); split; [lia|]; split; [done|lia]).
  destruct (zero_spec nb bits Hbo') as (b1 & E1 & Hbo1 & Hl1 & Hz1). rewrite E1. cbn [mbind option_bind].
  assert (Hsucc : ot_find_succ iv_min (df_fragtree s) (iv_min a) = head rest)
    by (apply (ot_find_succ_spec iv_min _ [] a rest Hw El)).
  rewrite Hsucc.
  destruct (nackmap_loop_spec size fs nb base (df_fragtree s) Hfs Hw Hiv z rest
    (length (ivs s)) [] a b1) as (b2 & i2 & E2 & Hbo2 & Hl2 & Hi2 & Hf2); auto.
  { rewrite El. simpl. lia. }
  { unfold base. lia. }
  { intros x Hx. rewrite (Hz1 x Hx). split; [done|]. intros (b & Hin & Hb & Hn). exfalso. apply Hn.
    exists a. split; [fold (ivs s); rewrite El; left|].
    pose proof Hiv as (_ & _ & H0). rewrite El in H0. lia. }
  fold base in E2. rewrite E2. cbn [mbind option_bind].
  destruct (for_set_spec nb base b2 i2 (base + nb) Hbo2 Hi2) as (b3 & i3 & E3 & Hbo3 & Hl3 & Hf3).
  rewrite E3. cbn [mbind option_bind]. exists nb, base, b3. split; [done|]. split; [done|].
  split; [congruence|]. split.
  - intros x Hx. rewrite (Hf3 x Hx), orb_true_iff, andb_true_iff, Z.leb_le, Z.ltb_lt.
    rewrite (Hex (base + x)) by lia. rewrite <- (Hf2 x Hx). split; [tauto|]. intros [|]; [by left|right; lia].
  - split; [intros k Hk Hm; specialize (Hco k Hk Hm); lia|]. split; [done|].
    assert (Hma : 0 <= iv_maxp1 a <= size).
    { destruct (ends size fs maxfragnum (ivs s) a z Hfs Hiv Hinc Ha Ez (proj1 Hmf)) as (_ & ? & _ & ? & _). lia. }
    pose proof (Z.div_pos (iv_maxp1 a) fs ltac:(lia) Hfs). pose proof (Z.div_le_upper_bound (iv_maxp1 a) fs size Hfs ltac:(nia)).
    unfold base. lia.
Qed.

Lemma nackmap_spec d s seq maxfragnum bits maxsz :
  defrag_ok d -> ot_lookup df_seq (dg_sampletree d) seq = Some s ->
  let fs := si_fragsize (df_sampleinfo s) in
  let size := si_size (df_sampleinfo s) in
  0 < fs -> size + fs < 2 ^ 32 -> 0 <= maxfragnum < 2 ^ 32 ->
  0 <= maxsz <= 256 -> bits_ok maxsz bits ->
  exists numbits base bits',
    nn_defrag_nackmap d seq maxfragnum bits maxsz =
      Some (numbits, Some (FragmentNumberSet base numbits bits')) /\
    0 <= numbits <= maxsz /\ length bits' = length bits /\
    (forall x, 0 <= x < numbits -> bit_at bits' x = true <-> missing fs (ivs s) size (base + x)) /\
    (forall k, k <= maxfragnum -> missing fs (ivs s) size k ->
       base <= k /\ (k < base + numbits \/ numbits = maxsz)).
Proof.
  intros Hok Elk fs size Hfs Hsz Hmf Hmx Hbo.
  destruct (nackmap_spec_bits d s seq maxfragnum bits maxsz Hok Elk Hfs Hsz Hmf Hmx Hbo)
    as (n & b & bits' & ? & ? & ? & ? & ? & _). by exists n, b, bits'.
Qed.
End Nack.
