(* ===== verification/DefragClaims.v ===== *)
(** * Whole samples through the defragmenter, and the theorems about it

    The fragments of one sample in any order, repeated or not, yield the
    sample; then the theorems about the defragmenter, with witnesses. *)

From Stdlib Require Import ZArith Lia Sorting.Sorted.
From stdpp Require Import prelude gmap.
From S2P Require Import Prelude OrdTree Avl AvlProps Bitset Refs Defrag DefragFacts DefragOps DefragProps DefragNack.

Section Run.
Context {T : Type -> Type} `{!OrdTree T, !OrdTreeLaws T}.
Context {H : Type} `{!RmsgRefs H, !RmsgRefsLaws H}.
Implicit Types (d : nn_defrag T) (s : rsample_defrag T) (h : H) (rd : rdata) (info : rsample_info).

Abbreviation BIAS := RMSG_REFCOUNT_RDATA_BIAS.

(** A sequence of fragments and the results of [nn_defrag_rsample]. *)
Fixpoint defrag_run d h (l : list (rdata * rsample_info))
  : option (nn_defrag T * H * list (option rsample_reorder)) :=
  match l with
  | [] => Some (d, h, [])
  | (rd, info) :: l' =>
      '(d, h, r) ← nn_defrag_rsample d h rd info;
      '(d, h, rs) ← defrag_run d h l';
      Some (d, h, r :: rs)
  end.

(** Fragment number [k] of a sample of [size] bytes cut in [fragsize] bytes. *)
Definition is_frag (size fragsize : Z) rd : Prop :=
  exists k, 0 <= k /\ rd_min rd = k * fragsize /\ rd_min rd < size /\
            rd_maxp1 rd = Z.min ((k + 1) * fragsize) size.

Section OneSample.
Context (seq size fragsize : Z).
Hypothesis Hseq : 0 < seq.
Hypothesis Hfs : 0 < fragsize.

Definition frag_of (x : rdata * rsample_info) : Prop :=
  si_seq x.2 = seq /\ si_size x.2 = size /\ is_frag size fragsize x.1.

(** The state between two fragments: room for a sample besides this one,
    only aligned fragments of this one, counts with room for the rest. *)
Record run_inv (others : list Z) d h (l : list (rdata * rsample_info)) : Prop := {
  ri_ok : defrag_ok d;
  ri_others : forall s, s ∈ samples d -> df_seq s = seq \/ df_seq s ∈ others;
  ri_room : Z.of_nat (length others) + 1 < dg_max_samples d;
  ri_size : forall s, s ∈ samples d -> df_seq s = seq -> si_size (df_sampleinfo s) = size;
  ri_frags : frags_from (fun q x => q = seq -> is_frag size fragsize x) (samples d);
  ri_wf : rc_wf h;
  ri_cover : refs_cover h (held (samples d));
  ri_refs : forall x, x ∈ l ->
    BIAS * refs_to (rd_rmsg x.1) (held (samples d)) + RMSG_REFCOUNT_UNCOMMITTED_BIAS <= rc h (rd_rmsg x.1) /\
    rc h (rd_rmsg x.1) + BIAS * Z.of_nat (length l) < 2 ^ 32;
}.

Lemma sorted_NoDup {E : Type} (key : E -> Z) (l : list E) : sorted key l -> NoDup (map key l).
Proof.
  induction 1 as [|x l Hs IH Hx]; simpl; constructor; [|done].
  intros Hin. apply list_elem_of_fmap in Hin as (y & He & Hy).
  rewrite Forall_forall in Hx. apply Hx in Hy. unfold key_lt in Hy. lia.
Qed.

Lemma run_room others d h l : run_inv others d h l -> dg_n_samples d < dg_max_samples d.
Proof.
  intros [Hok Ho Hr _ _ _ _ _]. rewrite (do_n _ Hok).
  assert (Hs : map df_seq (samples d) ⊆+ seq :: others).
  { apply NoDup_submseteq.
    - apply sorted_NoDup, ot_wf_sorted, Hok.
    - intros q Hq. apply list_elem_of_fmap in Hq as (s & -> & Hs).
      apply elem_of_cons. by apply Ho. }
  apply submseteq_length in Hs. rewrite length_map in Hs. simpl in Hs. lia.
Qed.

(** An interval of aligned fragments that starts inside or right after a
    fragment reaches beyond it. *)
Lemma aligned_fits others d h l rd s :
  run_inv others d h l -> is_frag size fragsize rd -> s ∈ samples d -> df_seq s = seq ->
  Forall (fun iv => rd_min rd < iv_min iv <= rd_maxp1 rd -> rd_maxp1 rd <= iv_maxp1 iv) (ivs s).
Proof using Hfs.
  intros Hi (k & Hk & Hmin & Hlt & Hmax) Hs Hsq. apply Forall_forall. intros iv Hiv Hr.
  pose proof (do_stored _ (ri_ok _ _ _ _ Hi)) as Hst. rewrite Forall_forall in Hst.
  destruct (Hst s Hs) as [Hso _]. destruct (so_ivs _ Hso) as (_ & Hg & _).
  rewrite Forall_forall in Hg. specialize (Hg iv Hiv). pose proof (ig_range _ _ Hg) as [R1 R2].
  destruct (ig_min _ _ Hg) as [Hz|(x & Hx & He)]; [nia|].
  pose proof (ri_frags _ _ _ _ Hi) as Hf. unfold frags_from in Hf. rewrite Forall_forall in Hf.
  specialize (Hf s Hs). rewrite Forall_forall in Hf.
  destruct (Hf x) as (k' & _ & Hx' & _); [|done|].
  { clear -Hiv Hx. induction (ivs s) as [|i l IH]; [by apply elem_of_nil in Hiv|].
    simpl. apply elem_of_app. apply elem_of_cons in Hiv as [<-|Hiv]; [by left|right; auto]. }
  assert (k < k') by nia. nia.
Qed.

Lemma frag_of_pre others d h rd info l :
  run_inv others d h ((rd, info) :: l) -> frag_of (rd, info) -> frag_pre rd info d h.
Proof using All.
  intros Hi (Hsq & Hsz & k & Hk & Hmin & Hlt & Hmax). simpl in *.
  destruct (ri_refs _ _ _ _ Hi (rd, info)) as [Hr1 Hr2]; [left|]. simpl in Hr1, Hr2.
  split; auto; try (rewrite ?Hsq, ?Hsz; nia).
  - intros s Hs Hq. rewrite Hsz. apply (ri_size _ _ _ _ Hi); congruence.
  - apply Hi.
  - intros m. case_decide as Hm; [subst m; lia|].
    pose proof (ri_cover _ _ _ _ Hi m). lia.
  - change BIAS with (2 ^ 20) in *. lia.
Qed.

Lemma result_refs_nonneg m r : 0 <= result_refs m r.
Proof. destruct r as [r|]; [apply refs_to_nonneg|done]. Qed.

Lemma run_inv_step others d h rd info l d' h' r :
  run_inv others d h ((rd, info) :: l) -> frag_of (rd, info) ->
  stepped rd info d h d' h' r -> run_inv others d' h' l.
Proof.
  intros Hi (Hsq & Hsz & Hfr) [So Sw [Sc _] Sr Sg _ _ _ _ Sft Sf]. simpl in *.
  assert (Hge : forall m, rc h m - BIAS * refs_to m (held (samples d)) <=
                          rc h' m - BIAS * refs_to m (held (samples d'))).
  { intros m. specialize (Sr m). pose proof (result_refs_nonneg m r).
    change BIAS with (2 ^ 20) in *. lia. }
  split; auto.
  - intros s Hs. destruct (Sft s Hs) as [Hs'|[-> _]]; [|left; congruence]. by apply (ri_others _ _ _ _ Hi).
  - rewrite Sc. apply Hi.
  - intros s Hs Hq. destruct (Sft s Hs) as [Hs'|[_ ->]]; [|done]. by apply (ri_size _ _ _ _ Hi).
  - apply Sf; [apply Hi|done].
  - intros m. pose proof (ri_cover _ _ _ _ Hi m). specialize (Hge m). lia.
  - intros x Hx. destruct (ri_refs _ _ _ _ Hi x) as [Hr1 Hr2]; [by right|].
    specialize (Hge (rd_rmsg x.1)). specialize (Sg (rd_rmsg x.1)). simpl length in Hr2.
    change BIAS with (2 ^ 20) in *. case_decide; lia.
Qed.

Definition delivers (rs : list (option rsample_reorder)) : Prop :=
  exists r info, Some r ∈ rs /\ si_seq info = seq /\ si_size info = size /\ result_ok info r.

Lemma defrag_run_spec others l : forall d h,
  run_inv others d h l -> Forall frag_of l ->
  exists d' h' rs, defrag_run d h l = Some (d', h', rs) /\ run_inv others d' h' [] /\
    (delivers rs \/
     forall b, known_byte (samples d) seq b \/ (exists x, x ∈ l /\ rd_min x.1 <= b < rd_maxp1 x.1) ->
               known_byte (samples d') seq b).
Proof using All.
  induction l as [|[rd info] l IH]; intros d h Hi Hl.
  - exists d, h, []. split; [done|]. split; [done|]. right.
    intros b [|(x & Hx & _)]; [done|by apply elem_of_nil in Hx].
  - apply Forall_cons in Hl as [Hf Hl]. pose proof (frag_of_pre _ _ _ _ _ _ Hi Hf) as Hp.
    destruct (defrag_rsample_spec rd info d h (ri_ok _ _ _ _ Hi) Hp) as (d1 & h1 & r & E1 & Hst).
    pose proof (run_inv_step _ _ _ _ _ _ _ _ _ Hi Hf Hst) as Hi1.
    destruct (IH d1 h1 Hi1 Hl) as (d2 & h2 & rs & E2 & Hi2 & Hres).
    exists d2, h2, (r :: rs). cbn [defrag_run]. rewrite E1. cbn [mbind option_bind]. rewrite E2.
    split; [done|]. split; [done|]. pose proof Hf as (Hsq & Hsz & Hal). simpl in Hsq, Hsz, Hal.
    destruct r as [r|].
    { left. exists r, info. split; [left|]. split; [done|]. split; [done|]. apply (st_res _ _ _ _ _ _ _ Hst). }
    destruct Hres as [(r & i & Hin & Hr)|Hres]; [left; exists r, i; split; [by right|done]|right].
    intros b Hb. apply Hres. pose proof (run_room _ _ _ _ Hi) as Hroom.
    destruct Hb as [Hb|(x & Hx & Hb)].
    + left. destruct (st_keep _ _ _ _ _ _ _ Hst Hroom seq b Hb) as [|[_ [? ?]]]; done.
    + apply elem_of_cons in Hx as [->|Hx]; [left|right; by exists x].
      rewrite <- Hsq. apply (st_all _ _ _ _ _ _ _ Hst Hroom); auto.
      intros s Hs Hq. eapply (aligned_fits others d h); eauto. congruence.
Qed.

End OneSample.
End Run.

(** ** The theorems about the defragmenter, with witnesses

    As for the reorder administration: proved for every implementation of the
    tree and reference count interfaces, run on the AVL trees of [Avl.v] and on
    plain reference counters. *)

Section Claims.
Context {T : Type -> Type} `{!OrdTree T, !OrdTreeLaws T}.
Context {H : Type} `{!RmsgRefs H, !RmsgRefsLaws H}.
Implicit Types (d : nn_defrag T) (h : H) (rd : rdata) (info : rsample_info).

Abbreviation BIAS := RMSG_REFCOUNT_RDATA_BIAS.

Lemma defrag_new_ok mode max_samples d :
  nn_defrag_new mode max_samples = Some d -> max_samples < 2 ^ 32 ->
  defrag_ok d /\ samples d = [] /\ dg_max_samples d = max_samples /\ dg_drop_mode d = mode.
Proof.
  unfold nn_defrag_new. rewrite Z.geb_leb. destruct (Z.leb_spec 1 max_samples); [|done].
  intros [= <-] Hm. assert (He : samples (NnDefrag (ot_init : T _) None 0 max_samples mode) = []) by apply ot_init_elements.
  split; [|done]. split; rewrite ?He; simpl; auto; [apply ot_init_wf|lia].
Qed.

(** [nn_defrag_rsample] on any fragment of a valid DATA or DATAFRAG
    submessage keeps the invariant of the defragmenter and the bookkeeping of
    references (every stored or returned fragment holds exactly one bias); a
    sample it returns has a chain that covers the sample from byte 0 to its
    end; it knows no byte that did not arrive, and forgets none while there is
    room. *)
Theorem defrag_rsample_ok rd info d h :
  defrag_ok d -> frag_pre rd info d h ->
  exists d' h' r, nn_defrag_rsample d h rd info = Some (d', h', r) /\ stepped rd info d h d' h' r.
Proof. apply defrag_rsample_spec. Qed.


(** [nn_defrag_notegap] drops exactly the incomplete samples in the
    range, with all their references. *)
Theorem defrag_notegap_ok d h min maxp1 :
  defrag_ok d -> rc_wf h -> refs_cover h (held (samples d)) ->
  exists d' h' l1 r1 r2,
    nn_defrag_notegap d h min maxp1 = Some (d', h') /\ defrag_ok d' /\ rc_wf h' /\
    samples d = l1 ++ r1 ++ r2 /\ samples d' = l1 ++ r2 /\
    Forall (fun s => df_seq s < min) l1 /\ Forall (fun s => min <= df_seq s < maxp1) r1 /\
    Forall (fun s => min <= df_seq s /\ maxp1 <= df_seq s) r2 /\
    (forall m, rc h' m - BIAS * refs_to m (held (samples d')) =
               rc h m - BIAS * refs_to m (held (samples d))).
Proof. apply notegap_spec. Qed.

(** The bitmap of [nn_defrag_nackmap] has a bit set exactly for the
    fragments in its range of which a byte is missing, and the range leaves
    out a missing fragment only if the buffer is full. *)
Theorem defrag_nackmap_exact d s seq maxfragnum bits maxsz :
  defrag_ok d -> ot_lookup df_seq (dg_sampletree d) seq = Some s ->
  let fs := si_fragsize (df_sampleinfo s) in
  let size := si_size (df_sampleinfo s) in
  0 < fs -> size + fs < 2 ^ 32 -> 0 <= maxfragnum < 2 ^ 32 ->
  0 <= maxsz <= 256 -> bits_ok maxsz bits ->
  exists numbits base bits',
    nn_defrag_nackmap d seq maxfragnum bits maxsz =
      Some (numbits, Some (FragmentNumberSet base numbits bits')) /\
    0 <= numbits <= maxsz /\ length bits' = length bits /\
    (forall x, 0 <= x < numbits -> bit_at bits' x = true <-> missing fs (ivs s) size (base + x)) /\
    (forall k, k <= maxfragnum -> missing fs (ivs s) size k ->
       base <= k /\ (k < base + numbits \/ numbits = maxsz)).
Proof. apply nackmap_spec. Qed.

(** [nn_defrag_free] removes the bias of every fragment that is still
    stored, and no other. *)
Theorem defrag_free_balanced d h :
  defrag_ok d -> rc_wf h -> refs_cover h (held (samples d)) ->
  exists h', nn_defrag_free d h = Some h' /\ rc_wf h' /\
    forall m, rc h' m = rc h m - BIAS * refs_to m (held (samples d)).
Proof. apply defrag_free_spec. Qed.
End Claims.

(** ** A concrete defragmenter *)

Definition dmsg : rmsg_addr := (0, 128).
Definition dinfo (seq size fragsize : Z) : rsample_info :=
  RsampleInfo seq 0 0 size fragsize (0, 0) 0 0 0 false false.
Definition dfrag (min maxp1 : Z) : rdata := Rdata dmsg min maxp1 0 0.
Definition dheap : RefCounts := {[ dmsg := RMSG_REFCOUNT_UNCOMMITTED_BIAS ]}.

Definition dnew (mode : nn_defrag_drop_mode) (max_samples : Z) : nn_defrag AvlTree :=
  NnDefrag ut_avlInit None 0 max_samples mode.

Lemma dnew_ok mode n : 1 <= n < 1000 -> defrag_ok (dnew mode n) /\ samples (dnew mode n) = [].
Proof.
  intros Hn. destruct (defrag_new_ok mode n (dnew mode n)) as (Hok & He & _); [|lia|done].
  unfold nn_defrag_new. rewrite Z.geb_leb. by destruct (Z.leb_spec 1 n); [|lia].
Qed.

Lemma dheap_wf : rc_wf dheap.
Proof. apply map_Forall_singleton. done. Qed.

Lemma dheap_rc m : rc dheap m = if decide (m = dmsg) then RMSG_REFCOUNT_UNCOMMITTED_BIAS else 0.
Proof.
  change (rc dheap m) with (default 0 (dheap !! m)). unfold dheap. case_decide as Hd.
  - subst m. by rewrite lookup_singleton_eq.
  - by rewrite lookup_singleton_ne.
Qed.

Definition dlog (size fragsize : Z) (l : list Z) : list (rdata * rsample_info) :=
  map (fun k => (dfrag (k * fragsize) (Z.min ((k + 1) * fragsize) size), dinfo 1 size fragsize)) l.

(** [defrag_try_merge_with_succ] lets the interval end where its last
    successor ends even if the interval reached further, so bytes that arrived
    are forgotten: [5, 50) after [10, 20) and [30, 40) leaves [5, 40). *)
Theorem defrag_merge_forgets_bytes :
  exists d h rs s,
    defrag_run (dnew NN_DEFRAG_DROP_LATEST 3) dheap
      [(dfrag 10 20, dinfo 1 100 10); (dfrag 30 40, dinfo 1 100 10); (dfrag 5 50, dinfo 1 100 10)] =
      Some (d, h, rs) /\
    ot_lookup df_seq (dg_sampletree d) 1 = Some s /\
    map (fun iv => (iv_min iv, iv_maxp1 iv)) (ivs s) = [(0, 0); (5, 40)].
Proof. eexists _, _, _, _. split; [vm_compute; reflexivity|]. split; vm_compute; reflexivity. Qed.

(** A full defragmenter makes room before it looks whether the sample of
    the fragment is known: in the drop-oldest mode a fragment of the oldest
    sample evicts what arrived of that very sample, so here the second half of
    sample 1 does not complete it. *)
Theorem defrag_full_evicts_its_own_sample :
  exists d h s,
    defrag_run (dnew NN_DEFRAG_DROP_OLDEST 2) dheap
      [(dfrag 0 50, dinfo 1 100 50); (dfrag 0 50, dinfo 2 100 50); (dfrag 50 100, dinfo 1 100 50)] =
      Some (d, h, [None; None; None]) /\
    ot_lookup df_seq (dg_sampletree d) 1 = Some s /\
    map (fun iv => (iv_min iv, iv_maxp1 iv)) (ivs s) = [(0, 0); (50, 100)].
Proof. eexists _, _, _. split; [vm_compute; reflexivity|]. split; vm_compute; reflexivity. Qed.

Lemma dnew_inv seq size fragsize mode n l :
  2 <= n < 1000 -> (length l <= 1000)%nat -> Forall (fun x => rd_rmsg x.1 = dmsg) l ->
  run_inv seq size fragsize [] (dnew mode n) dheap l.
Proof.
  intros Hn Hl Hm. destruct (dnew_ok mode n) as [Hok He]; [lia|]. split; rewrite ?He; auto.
  - intros s Hs. by apply elem_of_nil in Hs.
  - simpl. lia.
  - intros s Hs. by apply elem_of_nil in Hs.
  - constructor.
  - apply dheap_wf.
  - intros m. pose proof (rc_range dheap m dheap_wf). change (refs_to m (held [])) with 0. lia.
  - intros x Hx. rewrite Forall_forall in Hm. rewrite (Hm x Hx), dheap_rc, decide_True by done.
    change RMSG_REFCOUNT_UNCOMMITTED_BIAS with (2 ^ 31). change RMSG_REFCOUNT_RDATA_BIAS with (2 ^ 20). change (refs_to dmsg (held [])) with 0. lia.
Qed.

Lemma dlog_frags size fragsize l :
  Forall (fun k => 0 <= k /\ k * fragsize < size) l -> Forall (frag_of 1 size fragsize) (dlog size fragsize l).
Proof.
  intros Hl. apply Forall_forall. intros x (k & -> & Hk)%list_elem_of_fmap.
  rewrite Forall_forall in Hl. destruct (Hl k Hk). split; [done|]. split; [done|]. by exists k.
Qed.

(** The state after fragments 3, 0 and 1 of five fragments of 20 bytes of 90. *)
Definition dstate : nn_defrag AvlTree * RefCounts :=
  match defrag_run (dnew NN_DEFRAG_DROP_LATEST 4) dheap (dlog 90 20 [3; 0; 1]) with
  | Some (d, h, _) => (d, h)
  | None => (dnew NN_DEFRAG_DROP_LATEST 4, dheap)
  end.

Lemma dstate_inv : run_inv 1 90 20 [] dstate.1 dstate.2 [].
Proof.
  destruct (defrag_run_spec 1 90 20 ltac:(lia) ltac:(lia) [] (dlog 90 20 [3; 0; 1])
              (dnew NN_DEFRAG_DROP_LATEST 4) dheap) as (d & h & rs & E & Hi & _).
  - apply dnew_inv; [lia|simpl; lia|repeat constructor].
  - apply dlog_frags. repeat constructor; lia.
  - unfold dstate. by rewrite E.
Qed.

(** ** Witnesses *)

Lemma defrag_rsample_ok_witness :
  exists d' h' r, nn_defrag_rsample (dnew NN_DEFRAG_DROP_LATEST 4) dheap (dfrag 40 60) (dinfo 1 90 20) =
      Some (d', h', r) /\
    stepped (dfrag 40 60) (dinfo 1 90 20) (dnew NN_DEFRAG_DROP_LATEST 4) dheap d' h' r.
Proof.
  apply defrag_rsample_ok; [apply dnew_ok; lia|].
  split; simpl; [lia|lia|right; lia| |apply dheap_wf| |].
  - intros s Hs. by apply elem_of_nil in Hs.
  - intros m. change (refs_to m (held (samples (dnew NN_DEFRAG_DROP_LATEST 4)))) with 0.
    pose proof (dheap_rc m) as Hr. simpl in Hr. rewrite Hr. case_decide; done.
  - vm_compute. reflexivity.
Defined.


Lemma defrag_notegap_ok_witness :
  exists d' h', nn_defrag_notegap dstate.1 dstate.2 1 5 = Some (d', h') /\ defrag_ok d' /\ samples d' = [].
Proof.
  destruct (defrag_notegap_ok dstate.1 dstate.2 1 5) as (d' & h' & l1 & r1 & r2 & E & Hok & _);
    [apply dstate_inv|apply dstate_inv|apply dstate_inv|].
  exists d', h'. split; [exact E|]. split; [exact Hok|]. vm_compute in E. injection E as <- _. reflexivity.
Defined.

Lemma defrag_nackmap_exact_witness :
  exists numbits base bits',
    nn_defrag_nackmap dstate.1 1 4 [0; 0] 64 = Some (numbits, Some (FragmentNumberSet base numbits bits')) /\
    0 <= numbits <= 64 /\ base = 2 /\ bits' = [Z.shiftl 1 31 + Z.shiftl 1 29; 0].
Proof.
  destruct (ot_lookup df_seq (dg_sampletree dstate.1) 1) as [s|] eqn:Es; [|vm_compute in Es; discriminate].
  destruct (defrag_nackmap_exact dstate.1 s 1 4 [0; 0] 64 (ri_ok _ _ _ _ _ _ _ dstate_inv) Es)
    as (numbits & base & bits' & E & Hn & _).
  - vm_compute in Es. injection Es as <-. reflexivity.
  - vm_compute in Es. injection Es as <-. reflexivity.
  - lia.
  - lia.
  - split; [lia|split; [repeat constructor; lia|simpl; lia]].
  - exists numbits, base, bits'. split; [exact E|]. split; [exact Hn|].
    vm_compute in E. injection E as _ <- _ <-. split; reflexivity.
Defined.

Lemma defrag_free_balanced_witness :
  exists h', nn_defrag_free dstate.1 dstate.2 = Some h' /\ rc h' dmsg = RMSG_REFCOUNT_UNCOMMITTED_BIAS.
Proof.
  destruct (defrag_free_balanced dstate.1 dstate.2) as (h' & E & _ & Hr);
    [apply dstate_inv|apply dstate_inv|apply dstate_inv|].
  exists h'. split; [exact E|]. rewrite Hr. vm_compute. reflexivity.
Defined.
