(* ===== verification/Reorder.v ===== *)
(** * The reorder administration: the REORDER part of [q_radmin.c]

    Complete samples that arrive before their predecessors are kept in a tree
    of disjoint, not touching intervals of sequence numbers, each with the
    chain of its samples; a sample (or gap) that makes the next expected
    sequence number available releases a chain of consecutive samples.

    As in [Defrag.v], a pointer to a tree node is the key of the node, the
    trees and the reference counts are any implementation of their interfaces,
    and [None] is a failed assertion or a null pointer access. *)

From Stdlib Require Import ZArith Lia.
From stdpp Require Import prelude.
From S2P Require Import Prelude OrdTree Bitset Refs Defrag.

Inductive nn_reorder_mode : Type :=
| NN_REORDER_MODE_NORMAL
| NN_REORDER_MODE_MONOTONICALLY_INCREASING
| NN_REORDER_MODE_ALWAYS_DELIVER.

#[global] Instance nn_reorder_mode_eq_dec : EqDecision nn_reorder_mode.
Proof. solve_decision. Defined.

(** [nn_reorder_result_t]: one of these, or the number of samples to deliver. *)
Definition NN_REORDER_ACCEPT : Z := 0.
Definition NN_REORDER_TOO_OLD : Z := -1.
Definition NN_REORDER_REJECT : Z := -2.

(** [nn_sequence_number_t] and its conversions, from [q_misc.c]. *)
Record sequence_number : Type := SequenceNumber { sn_high : Z; sn_low : Z }.

Definition fromSN (sn : sequence_number) : Z :=
  Z.lor (Z.shiftl (sn_high sn) 32) (sn_low sn).

Definition toSN (n : Z) : sequence_number :=
  SequenceNumber (wrap_s 32 (Z.shiftr n 32)) (wrap_u 32 n).

Record sequence_number_set : Type := SequenceNumberSet {
  ss_bitmap_base : sequence_number;
  ss_numbits : Z;
  ss_bits : list Z;
}.

(** [append_rsample_interval]: [a] afterwards. *)
Definition append_rsample_interval (a b : rsample_reorder) : rsample_reorder :=
  RsampleReorder (ro_sc a ++ ro_sc b) (ro_min a) (ro_maxp1 b)
    (wrap_u 32 (ro_n_samples a + ro_n_samples b)).

Definition rsample_is_singleton (s : rsample_reorder) : option bool :=
  if ro_min s <? ro_maxp1 s then
    if ro_n_samples s =? 1 then
      if (ro_min s + 1 =? ro_maxp1 s) && bool_decide (length (ro_sc s) = 1%nat)
      then Some true else None
    else Some false
  else None.

(** The duplicate for a secondary reorder administration shares the fragment
    chain and the sample info. *)
Definition nn_reorder_rsample_dup (s : rsample_reorder) : option rsample_reorder :=
  sing ← rsample_is_singleton s;
  match sing, ro_sc s with
  | true, e :: _ =>
      Some (RsampleReorder [ChainElem (ce_fragchain e) (ce_sampleinfo e)]
              (ro_min s) (ro_maxp1 s) (ro_n_samples s))
  | _, _ => None
  end.

Definition nn_rsample_fragchain (s : rsample_reorder) : option (list rdata) :=
  sing ← rsample_is_singleton s;
  match sing, ro_sc s with true, e :: _ => Some (ce_fragchain e) | _, _ => None end.

Section Reorder.
Context {T : Type -> Type} `{!OrdTree T} {H : Type} `{!RmsgRefs H}.

(** [struct nn_reorder] *)
Record nn_reorder : Type := NnReorder {
  rr_sampleivtree : T rsample_reorder;
  rr_max_sampleiv : option Z;
  rr_next_seq : Z;
  rr_mode : nn_reorder_mode;
  rr_max_samples : Z;
  rr_n_samples : Z;
}.

Implicit Types (r : nn_reorder) (s : rsample_reorder) (h : H).

Definition nn_reorder_new (mode : nn_reorder_mode) (max_samples : Z) : nn_reorder :=
  NnReorder ot_init None 1 mode max_samples 0.

(** The assignments to one field. *)
Definition set_tree r (t : T rsample_reorder) : nn_reorder :=
  NnReorder t (rr_max_sampleiv r) (rr_next_seq r) (rr_mode r) (rr_max_samples r) (rr_n_samples r).
Definition set_max r (m : option Z) : nn_reorder :=
  NnReorder (rr_sampleivtree r) m (rr_next_seq r) (rr_mode r) (rr_max_samples r) (rr_n_samples r).
Definition set_next_seq r (n : Z) : nn_reorder :=
  NnReorder (rr_sampleivtree r) (rr_max_sampleiv r) n (rr_mode r) (rr_max_samples r) (rr_n_samples r).
Definition set_n_samples r (n : Z) : nn_reorder :=
  NnReorder (rr_sampleivtree r) (rr_max_sampleiv r) (rr_next_seq r) (rr_mode r) (rr_max_samples r)
    (wrap_u 32 n).

(** Releasing the chains of an interval. *)
Fixpoint unref_elems h (sc : list rsample_chain_elem) : option H :=
  match sc with
  | [] => Some h
  | e :: sc' => h ← nn_fragchain_unref h (ce_fragchain e); unref_elems h sc'
  end.

Fixpoint reorder_free_loop (fuel : nat) (t : T rsample_reorder) h : option H :=
  match ot_find_min t with
  | None => Some h
  | Some iv =>
      match fuel with
      | O => None
      | S fuel' =>
          h ← unref_elems h (ro_sc iv);
          reorder_free_loop fuel' (ot_delete ro_min t (ro_min iv)) h
      end
  end.

Definition nn_reorder_free r h : option H :=
  reorder_free_loop (length (ot_elements (rr_sampleivtree r))) (rr_sampleivtree r) h.

Definition reorder_add_rsampleiv r s : option nn_reorder :=
  match ot_lookup ro_min (rr_sampleivtree r) (ro_min s) with
  | Some _ => None
  | None => Some (set_tree r (ot_insert ro_min (rr_sampleivtree r) s))
  end.

(** The tree, [appendto] and whether [max_sampleiv] was discarded. *)
Definition reorder_try_append_and_discard r (appendto : rsample_reorder)
    (todiscard : option rsample_reorder) : option (nn_reorder * rsample_reorder * bool) :=
  match todiscard with
  | None => Some (r, appendto, false)
  | Some todiscard =>
      if ro_maxp1 appendto <? ro_min todiscard then Some (r, appendto, false)
      else if ro_min todiscard =? ro_maxp1 appendto then
        Some (set_tree r (ot_delete ro_min (rr_sampleivtree r) (ro_min todiscard)),
              append_rsample_interval appendto todiscard,
              bool_decide (rr_max_sampleiv r = Some (ro_min todiscard)))
      else None
  end.

(** [assert (pe->sampleinfo->seq + 1 < last->maxp1)], where [pe] is the
    element before the last of the chain: [false] also when [pe] is a gap,
    whose [sampleinfo] is a null pointer. *)
Definition delete_last_assert (lst : rsample_reorder) : bool :=
  match last (removelast (ro_sc lst)) with
  | Some pe =>
      match ce_sampleinfo pe with
      | Some info => wrap_s 64 (si_seq info + 1) <? ro_maxp1 lst
      | None => false
      end
  | None => false
  end.

(** Two assertions of this file fail on valid messages: the one in
    [delete_last_sample] above, and the one in [nn_reorder_rsample] on the
    length of the released range.  The operations that reach them have an
    argument [ndebug]: these two are checked when it is [false].  All the
    others are always checked. *)
Definition delete_last_sample (ndebug : bool) r h : option (nn_reorder * H) :=
  if rr_n_samples r >? 0 then
    k ← rr_max_sampleiv r;
    lst ← ot_lookup ro_min (rr_sampleivtree r) k;
    e ← last (ro_sc lst);
    if decide (length (ro_sc lst) = 1%nat) then
      let t := ot_delete ro_min (rr_sampleivtree r) k in
      mx ← ot_find_max t;
      h ← nn_fragchain_unref h (ce_fragchain e);
      Some (set_max (set_tree r t) (Some (ro_min mx)), h)
    else
      if (ro_n_samples lst >=? 1) && (ro_min lst + ro_n_samples lst <=? ro_maxp1 lst) &&
         (ndebug || delete_last_assert lst) then
        let lst' := RsampleReorder (removelast (ro_sc lst)) (ro_min lst) (ro_maxp1 lst - 1)
                      (wrap_u 32 (ro_n_samples lst - 1)) in
        h ← nn_fragchain_unref h (ce_fragchain e);
        Some (set_tree r (ot_replace ro_min (rr_sampleivtree r) k lst'), h)
      else None
  else None.

(** What [nn_reorder_rsample] and [nn_reorder_gap] return: the chain in
    [*sc], the increment of [*refcount_adjust] and the result. *)
Definition outcome : Type := list rsample_chain_elem * Z * Z.

(** The assertions at the start of [nn_reorder_rsample]. *)
Definition reorder_asserts r : bool :=
  match ot_find_min (rr_sampleivtree r) with
  | Some mn => rr_next_seq r <? ro_min mn
  | None => true
  end &&
  bool_decide (rr_max_sampleiv r = option_map ro_min (ot_find_max (rr_sampleivtree r))) &&
  (rr_n_samples r <=? rr_max_samples r).

(** Deliverable: the first branch of [nn_reorder_rsample]. *)
Definition reorder_deliver (ndebug : bool) r h s : option (nn_reorder * H * outcome) :=
  '(r, s, wasmax) ←
    (match rr_max_sampleiv r with
     | Some _ => reorder_try_append_and_discard r s (ot_find_min (rr_sampleivtree r))
     | None => Some (r, s, false)
     end);
  let r := if wasmax : bool then set_max r None else r in
  let r := set_next_seq r (ro_maxp1 s) in
  if (ro_maxp1 s - ro_min s >=? 1) && (ndebug || (ro_maxp1 s - ro_min s <=? 2147483647)) &&
     (ro_min s + ro_n_samples s <=? ro_maxp1 s) && (rr_n_samples r >=? ro_n_samples s - 1)
  then Some (set_n_samples r (rr_n_samples r - (ro_n_samples s - 1)), h,
             (ro_sc s, 1, ro_n_samples s))
  else None.

(** Not extending the interval before it: extend the one after it at its
    head (which changes the key but not the place of the node, and swaps the
    node for that of the sample), or make a new one. *)
Definition reorder_store_head r s (immsucc : option rsample_reorder) : option nn_reorder :=
  match immsucc with
  | Some i =>
      let i' := RsampleReorder (ro_sc s ++ ro_sc i) (ro_min s) (ro_maxp1 i)
                  (wrap_u 32 (ro_n_samples i + ro_n_samples s)) in
      let wasmax := bool_decide (rr_max_sampleiv r = Some (ro_min i)) in
      let r := set_tree r (ot_replace ro_min (rr_sampleivtree r) (ro_min i) i') in
      Some (if wasmax then set_max r (Some (ro_min s)) else r)
  | None => reorder_add_rsampleiv r s
  end.

Definition reorder_store r s (predeq immsucc : option rsample_reorder) : option nn_reorder :=
  match predeq with
  | Some p =>
      if ro_min s =? ro_maxp1 p then
        '(r, p', wasmax) ← reorder_try_append_and_discard r (append_rsample_interval p s) immsucc;
        let r := set_tree r (ot_replace ro_min (rr_sampleivtree r) (ro_min p) p') in
        Some (if wasmax : bool then set_max r (Some (ro_min p)) else r)
      else reorder_store_head r s immsucc
  | None => reorder_store_head r s immsucc
  end.

(** The last branch: the sample goes somewhere before the last interval. *)
Definition reorder_hard_case (ndebug : bool) r h s (late_ack_mode delivery_queue_full_p : bool)
  : option (nn_reorder * H * outcome) :=
  if late_ack_mode && delivery_queue_full_p then Some (r, h, ([], 0, NN_REORDER_REJECT)) else
  let predeq := ot_lookup_predeq ro_min (rr_sampleivtree r) (ro_min s) in
  if match predeq with
     | Some p => (ro_min s >=? ro_min p) && (ro_min s <? ro_maxp1 p)
     | None => false
     end
  then Some (r, h, ([], 0, NN_REORDER_REJECT))
  else
    let immsucc := ot_lookup ro_min (rr_sampleivtree r) (ro_maxp1 s) in
    r ← reorder_store r s predeq immsucc;
    '(r, h) ← (if rr_n_samples r <? rr_max_samples r
               then Some (set_n_samples r (rr_n_samples r + 1), h)
               else delete_last_sample ndebug r h);
    Some (r, h, ([], 1, NN_REORDER_ACCEPT)).

Definition nn_reorder_rsample_build (ndebug : bool) r h s (late_ack_mode delivery_queue_full_p : bool)
  : option (nn_reorder * H * outcome) :=
  let reject := Some (r, h, ([], 0, NN_REORDER_REJECT)) in
  sing ← rsample_is_singleton s;
  if negb (sing && reorder_asserts r) then None else
  if (ro_min s =? rr_next_seq r) ||
     ((ro_min s >? rr_next_seq r) &&
      bool_decide (rr_mode r = NN_REORDER_MODE_MONOTONICALLY_INCREASING)) ||
     bool_decide (rr_mode r = NN_REORDER_MODE_ALWAYS_DELIVER)
  then
    if delivery_queue_full_p then reject else reorder_deliver ndebug r h s
  else if ro_min s <? rr_next_seq r then Some (r, h, ([], 0, NN_REORDER_TOO_OLD))
  else if ot_is_empty (rr_sampleivtree r) then
    if negb (rr_n_samples r =? 0) then None
    else if rr_max_samples r =? 0 then reject
    else
      r ← reorder_add_rsampleiv r s;
      Some (set_n_samples (set_max r (Some (ro_min s))) (rr_n_samples r + 1), h,
            ([], 1, NN_REORDER_ACCEPT))
  else
    k ← rr_max_sampleiv r;
    mx ← ot_lookup ro_min (rr_sampleivtree r) k;
    if ro_min s =? ro_maxp1 mx then
      if delivery_queue_full_p then reject
      else if rr_n_samples r <? rr_max_samples r then
        let mx' := append_rsample_interval mx s in
        Some (set_n_samples (set_tree r (ot_replace ro_min (rr_sampleivtree r) k mx'))
                (rr_n_samples r + 1), h, ([], 1, NN_REORDER_ACCEPT))
      else reject
    else if ro_min s >? ro_maxp1 mx then
      if delivery_queue_full_p then reject
      else if rr_n_samples r <? rr_max_samples r then
        r ← reorder_add_rsampleiv r s;
        Some (set_n_samples (set_max r (Some (ro_min s))) (rr_n_samples r + 1), h,
              ([], 1, NN_REORDER_ACCEPT))
      else reject
    else reorder_hard_case ndebug r h s late_ack_mode delivery_queue_full_p.

(** The build in which the two assertions are compiled out. *)
Definition nn_reorder_rsample : nn_reorder -> H -> rsample_reorder -> bool -> bool -> option (nn_reorder * H * outcome) :=
  nn_reorder_rsample_build true.

(** The [while] of [coalesce_intervals_touching_range]: the tree without the
    appended intervals, [s], and whether there were any. *)
Fixpoint coalesce_loop (fuel : nat) (t : T rsample_reorder) s (k maxp1 : Z) (valuable : bool)
  : option (T rsample_reorder * rsample_reorder * bool) :=
  match ot_find_succ ro_min t k with
  | None => Some (t, s, valuable)
  | Some u =>
      if ro_min u <=? maxp1 then
        match fuel with
        | O => None
        | S fuel' =>
            coalesce_loop fuel' (ot_delete ro_min t (ro_min u)) (append_rsample_interval s u)
              k maxp1 true
        end
      else Some (t, s, valuable)
  end.

(** The tree, the coalesced interval and [*valuable]. *)
Definition coalesce_intervals_touching_range (t : T rsample_reorder) (min maxp1 : Z)
  : option (T rsample_reorder * option rsample_reorder * bool) :=
  let s := ot_lookup_predeq ro_min t min in
  let first :=
    match s with
    | Some p =>
        if ro_maxp1 p >=? min then Some p
        else match ot_find_succ ro_min t (ro_min p) with
             | Some u => if ro_min u <=? maxp1 then Some u else None
             | None => None
             end
    | None =>
        match ot_find_min t with
        | Some u => if ro_min u <=? maxp1 then Some u else None
        | None => None
        end
    end in
  match first with
  | None => Some (t, None, false)
  | Some s =>
      if negb (ro_min s + ro_n_samples s <=? ro_maxp1 s) then None else
      match coalesce_loop (length (ot_elements t)) t s (ro_min s) maxp1 false with
      | None => None
      | Some (t, s', valuable) =>
          let valuable := valuable || (min <? ro_min s') || (maxp1 >? ro_maxp1 s') in
          let s'' := RsampleReorder (ro_sc s')
                       (if min <? ro_min s' then min else ro_min s')
                       (if maxp1 >? ro_maxp1 s' then maxp1 else ro_maxp1 s') (ro_n_samples s') in
          Some (ot_replace ro_min t (ro_min s) s'', Some s'', valuable)
      end
  end.

(** The interval that [reorder_insert_gap] stores. *)
Definition gap_interval (rd : rdata) (min maxp1 : Z) : rsample_reorder :=
  RsampleReorder [ChainElem [rd] None] min maxp1 1.

Definition reorder_insert_gap r (rd : rdata) (min maxp1 : Z) : option nn_reorder :=
  reorder_add_rsampleiv r (gap_interval rd min maxp1).

Definition reset_max r : nn_reorder :=
  set_max r (option_map ro_min (ot_find_max (rr_sampleivtree r))).

(** The branch of [nn_reorder_gap] in which no interval touches the range. *)
Definition reorder_gap_apart (ndebug : bool) r h (rd : rdata) (min maxp1 : Z) : option (nn_reorder * H * outcome) :=
  if min <=? rr_next_seq r then
    Some (reset_max (set_next_seq r maxp1), h, ([], 0, NN_REORDER_ACCEPT))
  else
    refuse ←
      (if rr_n_samples r =? rr_max_samples r then
         match rr_max_sampleiv r with
         | None => Some true
         | Some k => mx ← ot_lookup ro_min (rr_sampleivtree r) k; Some (min >? ro_maxp1 mx)
         end
       else Some false);
    if refuse : bool then Some (reset_max r, h, ([], 0, NN_REORDER_REJECT))
    else
      r ← reorder_insert_gap r rd min maxp1;
      '(r, h) ← (if rr_n_samples r <? rr_max_samples r
                 then Some (set_n_samples r (rr_n_samples r + 1), h)
                 else delete_last_sample ndebug r h);
      Some (reset_max r, h, ([], 1, NN_REORDER_ACCEPT)).

Definition nn_reorder_gap_build (ndebug : bool) r h (rd : rdata) (min maxp1 : Z)
  : option (nn_reorder * H * outcome) :=
  if maxp1 <=? rr_next_seq r then Some (r, h, ([], 0, NN_REORDER_TOO_OLD))
  else if negb (bool_decide (rr_mode r = NN_REORDER_MODE_NORMAL))
  then Some (r, h, ([], 0, NN_REORDER_REJECT))
  else
    '(t, coalesced, valuable) ← coalesce_intervals_touching_range (rr_sampleivtree r) min maxp1;
    let r := set_tree r t in
    match coalesced with
    | None => reorder_gap_apart ndebug r h rd min maxp1
    | Some c =>
        if ro_min c <=? rr_next_seq r then
          let r := set_tree r (ot_delete ro_min t (ro_min c)) in
          if (min <=? rr_next_seq r) && (ro_min c + ro_n_samples c <=? ro_maxp1 c) &&
             (rr_n_samples r >=? ro_n_samples c)
          then
            let r := reset_max (set_next_seq r (ro_maxp1 c)) in
            Some (set_n_samples r (rr_n_samples r - ro_n_samples c), h,
                  (ro_sc c, 0, ro_n_samples c))
          else None
        else
          Some (reset_max r, h,
                ([], 0, if valuable : bool then NN_REORDER_ACCEPT else NN_REORDER_REJECT))
    end.

Definition nn_reorder_gap : nn_reorder -> H -> rdata -> Z -> Z -> option (nn_reorder * H * outcome) :=
  nn_reorder_gap_build true.

Definition nn_reorder_wantsample r (seq : Z) : bool :=
  if seq <? rr_next_seq r then false
  else match ot_lookup_predeq ro_min (rr_sampleivtree r) seq with
       | None => true
       | Some s => ro_maxp1 s <=? seq
       end.

(** The [while] of [nn_reorder_nackmap]. *)
Fixpoint reorder_nackmap_loop (fuel : nat) (t : T rsample_reorder) (numbits base : Z)
    (bits : list Z) (i : Z) (iv : option rsample_reorder) : option (list Z * Z) :=
  match iv with
  | None => Some (bits, i)
  | Some iv =>
      if i <? base + numbits then
        match fuel with
        | O => None
        | S fuel' =>
            '(bits, _) ← for_set numbits base bits i (ro_min iv);
            reorder_nackmap_loop fuel' t numbits base bits (ro_maxp1 iv)
              (ot_find_succ ro_min t (ro_min iv))
        end
      else Some (bits, i)
  end.

(** The returned [numbits] and the map. *)
Definition nn_reorder_nackmap r (base maxseq : Z) (bits : list Z) (maxsz : Z) (notail : bool)
  : option (Z * sequence_number_set) :=
  if maxsz >? 256 then None else
  let maxsz := if maxsz >? rr_max_samples r then rr_max_samples r else maxsz in
  let base := if base >? rr_next_seq r then rr_next_seq r else base in
  let maxseq := if wrap_s 64 (maxseq + 1) <? base then wrap_s 64 (base - 1) else maxseq in
  let len := wrap_s 64 (wrap_s 64 (maxseq + 1) - base) in
  let numbits := if len >? maxsz then maxsz else wrap_u 32 len in
  bits ← nn_bitset_zero numbits bits;
  let iv := ot_find_min (rr_sampleivtree r) in
  if match iv with Some mn => negb (ro_min mn >? base) | None => false end then None else
  '(bits, i) ← reorder_nackmap_loop (length (ot_elements (rr_sampleivtree r))) (rr_sampleivtree r)
                 numbits base bits base iv;
  if notail && (i <? base + numbits) then
    let numbits := wrap_u 32 (i - base) in
    Some (numbits, SequenceNumberSet (toSN base) numbits bits)
  else
    '(bits, _) ← for_set numbits base bits i (base + numbits);
    Some (numbits, SequenceNumberSet (toSN base) numbits bits).

Definition nn_reorder_next_seq r : Z := rr_next_seq r.
End Reorder.
Arguments nn_reorder : clear implicits.
