(* ===== verification/ReorderFacts.v ===== *)
(** * Invariants of the reorder administration

    Chains of samples in order, lists of intervals, and how the primitives of
    [Reorder.v] change them. *)

From Stdlib Require Import ZArith Lia Sorting.Sorted.
From stdpp Require Import prelude.
From S2P Require Import Prelude OrdTree Bitset Refs Defrag DefragOps Reorder.

(** ** Chains *)

(** The elements fit in order in the sequence numbers [lo, hi): a sample at
    its own number, a gap anywhere. *)
Fixpoint fits (lo hi : Z) (sc : list rsample_chain_elem) : Prop :=
  match sc with
  | [] => lo <= hi
  | e :: sc' =>
      exists q, lo <= q /\ (forall i, ce_sampleinfo e = Some i -> si_seq i = q) /\ fits (q + 1) hi sc'
  end.

(** The sequence numbers of the samples of a chain. *)
Fixpoint elem_seqs (sc : list rsample_chain_elem) : list Z :=
  match sc with
  | [] => []
  | e :: sc' =>
      match ce_sampleinfo e with Some i => si_seq i :: elem_seqs sc' | None => elem_seqs sc' end
  end.

Lemma fits_le lo hi sc : fits lo hi sc -> lo + Z.of_nat (length sc) <= hi.
Proof.
  revert lo. induction sc as [|e sc IH]; intros lo; simpl; [lia|].
  intros (q & Hq & _ & Hf). apply IH in Hf. lia.
Qed.

Lemma fits_weaken lo hi lo' hi' sc : fits lo hi sc -> lo' <= lo -> hi <= hi' -> fits lo' hi' sc.
Proof.
  revert lo lo'. induction sc as [|e sc IH]; intros lo lo'; simpl; [lia|].
  intros (q & Hq & He & Hf) Hl Hh. exists q. split; [lia|]. split; [done|]. eapply IH; eauto. lia.
Qed.

Lemma fits_app lo mid hi a b : fits lo mid a -> fits mid hi b -> fits lo hi (a ++ b).
Proof.
  revert lo. induction a as [|e a IH]; intros lo; simpl.
  - intros Hl Hf. eapply fits_weaken; eauto. lia.
  - intros (q & Hq & He & Hf) Hb. exists q. eauto.
Qed.

Lemma fits_snoc lo hi a e : fits lo hi (a ++ [e]) -> fits lo (hi - 1) a.
Proof.
  revert lo. induction a as [|x a IH]; intros lo; simpl.
  - intros (q & Hq & _ & Hf). lia.
  - intros (q & Hq & He & Hf). eauto.
Qed.

Lemma fits_seqs lo hi sc :
  fits lo hi sc -> StronglySorted Z.lt (elem_seqs sc) /\ Forall (fun q => lo <= q < hi) (elem_seqs sc).
Proof.
  revert lo. induction sc as [|e sc IH]; intros lo; simpl; [split; constructor|].
  intros (q & Hq & He & Hf). destruct (IH _ Hf) as [Hs Hr].
  assert (Hr' : Forall (fun q' => lo <= q' < hi) (elem_seqs sc)).
  { eapply Forall_impl; [exact Hr|]. simpl. lia. }
  destruct (ce_sampleinfo e) as [i|]; [|done]. rewrite (He i eq_refl). split.
  - constructor; [done|]. eapply Forall_impl; [exact Hr|]. simpl. lia.
  - constructor; [|done]. apply fits_le in Hf. lia.
Qed.

(** The samples before the last element of a chain come before it. *)
Lemma fits_last lo hi a e i :
  fits lo hi (a ++ [e]) -> ce_sampleinfo e = Some i -> Forall (fun q => lo <= q < si_seq i) (elem_seqs a) /\ si_seq i < hi.
Proof.
  intros Hf Hi. assert (Hs : fits lo (si_seq i) a /\ si_seq i < hi); [|split; [apply fits_seqs|]; apply Hs].
  revert lo Hf. induction a as [|x a IH]; intros lo; simpl.
  - intros (q & Hq & He & Hf). rewrite (He i Hi). lia.
  - intros (q & Hq & He & Hf). destruct (IH _ Hf) as [IH1 IH2]. split; [|done]. exists q. auto.
Qed.

Lemma elem_seqs_in sc e i : e ∈ sc -> ce_sampleinfo e = Some i -> si_seq i ∈ elem_seqs sc.
Proof.
  intros He Hi. induction He as [e sc|e x sc He IH]; simpl; [rewrite Hi; left|].
  destruct (ce_sampleinfo x); [right|]; by apply IH.
Qed.

Lemma elem_seqs_app a b : elem_seqs (a ++ b) = elem_seqs a ++ elem_seqs b.
Proof.
  induction a as [|e a IH]; simpl; [done|]. destruct (ce_sampleinfo e); simpl; by rewrite IH.
Qed.

(** References of a chain of samples to a message. *)
Fixpoint elem_refs (m : rmsg_addr) (sc : list rsample_chain_elem) : Z :=
  match sc with [] => 0 | e :: sc' => refs_to m (ce_fragchain e) + elem_refs m sc' end.

Lemma elem_refs_app m a b : elem_refs m (a ++ b) = elem_refs m a + elem_refs m b.
Proof. induction a as [|e a IH]; simpl; [done|]. rewrite IH. lia. Qed.

Lemma elem_refs_nonneg m a : 0 <= elem_refs m a.
Proof. induction a as [|e a IH]; simpl; [done|]. pose proof (refs_to_nonneg m (ce_fragchain e)). lia. Qed.

(** ** Intervals *)

Definition rsep (a b : rsample_reorder) : Prop := ro_maxp1 a < ro_min b.

Record rgood (iv : rsample_reorder) : Prop := {
  rg_n : ro_n_samples iv = Z.of_nat (length (ro_sc iv));
  rg_ne : ro_sc iv <> [];
  rg_fits : fits (ro_min iv) (ro_maxp1 iv) (ro_sc iv);
}.

Lemma rgood_range iv : rgood iv ->
  1 <= ro_n_samples iv /\ ro_min iv + ro_n_samples iv <= ro_maxp1 iv /\ ro_min iv < ro_maxp1 iv.
Proof.
  intros [Hn Hne Hf]. apply fits_le in Hf. destruct (ro_sc iv); [done|]. simpl in *. lia.
Qed.

(** The sequence numbers an interval list knows about. *)
Definition rcov (l : list rsample_reorder) (q : Z) : Prop :=
  exists iv, iv ∈ l /\ ro_min iv <= q < ro_maxp1 iv.

Definition elems (l : list rsample_reorder) : list rsample_chain_elem := mjoin (map ro_sc l).

Definition ro_ok (l : list rsample_reorder) : Prop := StronglySorted rsep l /\ Forall rgood l.

Lemma rcov_app l1 l2 q : rcov (l1 ++ l2) q <-> rcov l1 q \/ rcov l2 q.
Proof. unfold rcov. setoid_rewrite elem_of_app. naive_solver. Qed.

Lemma rcov_cons iv l q : rcov (iv :: l) q <-> ro_min iv <= q < ro_maxp1 iv \/ rcov l q.
Proof. unfold rcov. setoid_rewrite elem_of_cons. naive_solver. Qed.

Lemma rcov_nil q : rcov [] q <-> False.
Proof. unfold rcov. setoid_rewrite elem_of_nil. naive_solver. Qed.

Lemma elems_app l1 l2 : elems (l1 ++ l2) = elems l1 ++ elems l2.
Proof. unfold elems. induction l1 as [|x l1 IH]; simpl; [done|]. by rewrite IH, app_assoc. Qed.

Lemma elems_cons iv l : elems (iv :: l) = ro_sc iv ++ elems l.
Proof. done. Qed.

Lemma rgood_append a b :
  rgood a -> rgood b -> ro_maxp1 a <= ro_min b ->
  Z.of_nat (length (ro_sc a ++ ro_sc b)) < 2 ^ 32 -> rgood (append_rsample_interval a b).
Proof.
  intros [Na NEa Fa] [Nb NEb Fb] Hab Hlen. split; simpl.
  - rewrite Na, Nb, length_app in *. nowrap.
  - intros [? _]%app_eq_nil. done.
  - eapply fits_app; [exact Fa|]. eapply fits_weaken; [exact Fb| |]; lia.
Qed.

Lemma ro_ok_mid l1 x l2 :
  ro_ok (l1 ++ x :: l2) <->
  ro_ok l1 /\ ro_ok l2 /\ rgood x /\ Forall (fun y => rsep y x) l1 /\ Forall (rsep x) l2 /\
  Forall (fun a => Forall (rsep a) l2) l1.
Proof.
  unfold ro_ok. rewrite StronglySorted_mid_iff, Forall_app, Forall_cons. tauto.
Qed.

Lemma ro_ok_app l1 l2 :
  ro_ok (l1 ++ l2) <-> ro_ok l1 /\ ro_ok l2 /\ Forall (fun a => Forall (rsep a) l2) l1.
Proof. unfold ro_ok. rewrite StronglySorted_app_iff, Forall_app. tauto. Qed.

Lemma ro_ok_sorted l : ro_ok l -> sorted ro_min l.
Proof.
  intros [Hs Hg]. induction Hs as [|x l Hs IH Hx]; constructor.
  - apply Forall_cons in Hg as [_ Hg]. by apply IH.
  - apply Forall_cons in Hg as [Hg _]. pose proof (rgood_range _ Hg).
    eapply Forall_impl; [exact Hx|]. unfold rsep, key_lt. simpl. lia.
Qed.

(** Joining [x] with a neighbour [y] right before or right after it. *)
Lemma ro_ok_glue l1 a b l2 :
  ro_ok (l1 ++ [a]) -> ro_ok (b :: l2) -> Forall (fun y => Forall (rsep y) (b :: l2)) l1 ->
  ro_maxp1 a <= ro_min b -> Z.of_nat (length (ro_sc a ++ ro_sc b)) < 2 ^ 32 ->
  ro_ok (l1 ++ append_rsample_interval a b :: l2).
Proof.
  intros H1 H2 H12 Hab Hlen. apply ro_ok_mid in H1 as (O1 & _ & Ga & S1 & _).
  change (b :: l2) with ([] ++ b :: l2) in H2. apply ro_ok_mid in H2 as (_ & O2 & Gb & _ & S2 & _).
  apply ro_ok_mid. split; [done|]. split; [done|]. split; [by apply rgood_append|].
  split; [exact S1|]. split; [exact S2|]. eapply Forall_impl; [exact H12|].
  simpl. intros y Hy. by apply Forall_cons in Hy as [_ Hy].
Qed.

Lemma rcov_glue a b q :
  ro_maxp1 a = ro_min b -> rgood a -> rgood b ->
  ro_min (append_rsample_interval a b) <= q < ro_maxp1 (append_rsample_interval a b) <->
  ro_min a <= q < ro_maxp1 a \/ ro_min b <= q < ro_maxp1 b.
Proof. intros He Ga%rgood_range Gb%rgood_range. simpl. lia. Qed.

Lemma append_assoc a b c :
  append_rsample_interval (append_rsample_interval a b) c =
  append_rsample_interval a (append_rsample_interval b c).
Proof.
  unfold append_rsample_interval. simpl. f_equal; [by rewrite app_assoc|].
  unfold wrap_u. rewrite Zplus_mod_idemp_l, Zplus_mod_idemp_r. f_equal. lia.
Qed.
