(* ===== verification/ReorderOps.v ===== *)
(** * The operations of the reorder administration on interval lists *)

From Stdlib Require Import ZArith Lia Sorting.Sorted.
From stdpp Require Import prelude.
From S2P Require Import Prelude OrdTree Bitset Refs Defrag DefragOps Reorder ReorderFacts.

Lemma ends_in_nil {A : Type} (l : list A) : exists rest, l = rest ++ [].
Proof. exists l. by rewrite app_nil_r. Qed.
#[export] Hint Resolve ends_in_nil : core.

Section Ops.
Context {T : Type -> Type} `{!OrdTree T, !OrdTreeLaws T}.
Context {H : Type} `{!RmsgRefs H, !RmsgRefsLaws H}.
Implicit Types (r : nn_reorder T) (s : rsample_reorder) (h : H) (l : list rsample_reorder).

Definition rivs r : list rsample_reorder := ot_elements (rr_sampleivtree r).

(** What holds of the tree at every moment, also halfway an operation. *)
Record tree_ok r : Prop := {
  tk_wf : ot_wf ro_min (rr_sampleivtree r);
  tk_ivs : ro_ok (rivs r);
  tk_max : rr_max_sampleiv r = option_map ro_min (last (rivs r));
  tk_next : Forall (fun iv => rr_next_seq r < ro_min iv) (rivs r);
}.

Record reorder_ok r : Prop := {
  rk_tree : tree_ok r;
  rk_n : rr_n_samples r = Z.of_nat (length (elems (rivs r)));
  rk_lim : rr_n_samples r <= rr_max_samples r < 2 ^ 32 - 1;
  rk_mode : rr_mode r <> NN_REORDER_MODE_NORMAL -> rivs r = [];
}.

(** The fields no operation changes. *)
Definition same_conf r r' : Prop :=
  rr_mode r' = rr_mode r /\ rr_max_samples r' = rr_max_samples r.

(** ** Dropping the last sample *)

Definition sc_cover h (sc : list rsample_chain_elem) : Prop := forall m, elem_refs m sc <= rc h m.

Lemma removelast_snoc {A : Type} (l : list A) x : last l = Some x -> l = removelast l ++ [x].
Proof. intros [l' ->]%last_Some. by rewrite List.removelast_last. Qed.

Lemma rgood_removelast iv e :
  rgood iv -> last (ro_sc iv) = Some e -> length (ro_sc iv) <> 1%nat -> ro_n_samples iv < 2 ^ 32 ->
  rgood (RsampleReorder (removelast (ro_sc iv)) (ro_min iv) (ro_maxp1 iv - 1)
           (wrap_u 32 (ro_n_samples iv - 1))).
Proof.
  intros Hg He Hl Hn. pose proof (rgood_range _ Hg) as (Hr & _). destruct Hg as [N NE F].
  apply removelast_snoc in He. rewrite He in F, N, Hl. rewrite length_app in N, Hl. simpl in N, Hl.
  split; simpl.
  - nowrap.
  - intros E. rewrite E in Hl. done.
  - by eapply fits_snoc.
Qed.

Lemma fragchain_unref_elem h (e : rsample_chain_elem) (sc : list rsample_chain_elem) :
  rc_wf h -> sc_cover h (sc ++ [e]) ->
  exists h', nn_fragchain_unref h (ce_fragchain e) = Some h' /\ rc_wf h' /\
    forall m, rc h' m = rc h m - elem_refs m [e].
Proof.
  intros Hwf Hc. destruct (fragchain_unref_spec h (ce_fragchain e) Hwf) as (h' & E & Hw & Hr).
  { intros m. specialize (Hc m). rewrite elem_refs_app in Hc. simpl in Hc.
    pose proof (elem_refs_nonneg m sc). lia. }
  exists h'. split; [done|]. split; [done|]. intros m. rewrite Hr. simpl. lia.
Qed.

Lemma delete_last_spec r h :
  tree_ok r -> rc_wf h -> 0 < rr_n_samples r -> (2 <= length (elems (rivs r)))%nat ->
  Z.of_nat (length (elems (rivs r))) < 2 ^ 32 -> sc_cover h (elems (rivs r)) ->
  exists r' h' e,
    delete_last_sample true r h = Some (r', h') /\ tree_ok r' /\ rc_wf h' /\
    elems (rivs r) = elems (rivs r') ++ [e] /\
    (forall m, rc h' m = rc h m - elem_refs m [e]) /\
    (forall q, rcov (rivs r') q -> rcov (rivs r) q) /\
    same_conf r r' /\ rr_next_seq r' = rr_next_seq r /\ rr_n_samples r' = rr_n_samples r.
Proof.
  intros [Hw Hok Hmx Hnx] Hwf Hn H2 Hlt Hc. unfold delete_last_sample.
  rewrite Z.gtb_ltb. destruct (Z.ltb_spec 0 (rr_n_samples r)); [|lia].
  destruct (last (rivs r)) as [z|] eqn:Ez.
  2:{ apply last_None in Ez. rewrite Ez in H2. simpl in H2. lia. }
  rewrite Hmx. cbn [option_map mbind option_bind]. apply last_Some in Ez as [l0 El].
  pose proof (ot_wf_sorted _ _ Hw) as Hso. fold (rivs r) in Hso.
  rewrite (ot_lookup_spec _ _ _ Hw). fold (rivs r). rewrite El in *. rewrite l_lookup_mid by done.
  cbn [mbind option_bind]. rewrite elems_app, elems_cons in *. change (elems []) with (@nil rsample_chain_elem) in *.
  rewrite app_nil_r in *. apply ro_ok_mid in Hok as (Ol & _ & Gz & Sl & _).
  apply Forall_app in Hnx as [Nl Nz]. apply Forall_cons in Nz as [Nz _].
  destruct (last (ro_sc z)) as [e|] eqn:Ee; [|apply last_None in Ee; by destruct Gz].
  cbn [mbind option_bind]. pose proof (removelast_snoc _ _ Ee) as Hsc.
  rewrite Hsc, app_assoc in Hc. destruct (fragchain_unref_elem h e _ Hwf Hc) as (h' & Eu & Hwf' & Hr).
  case_decide as Hd.
  - destruct (ot_delete_spec ro_min _ (ro_min z) Hw) as [Hw1 He1]. fold (rivs r) in He1.
    rewrite El, l_delete_mid, app_nil_r in He1 by done.
    rewrite ot_find_max_spec, He1. destruct (last l0) as [y|] eqn:Ey.
    2:{ apply last_None in Ey. rewrite Ey in H2. rewrite length_app in H2. unfold elems in H2. simpl in H2. lia. }
    cbn [mbind option_bind]. rewrite Eu. cbn [mbind option_bind].
    eexists _, h', e. split; [done|]. unfold rivs. simpl. rewrite He1.
    split; [split; unfold rivs; simpl; rewrite ?He1; auto; by rewrite Ey|].
    split; [done|]. split; [|split; [done|split; [|done]]].
    + destruct (ro_sc z) as [|x [|]]; simpl in Ee, Hd; by simplify_eq.
    + intros q. rewrite rcov_app. tauto.
  - pose proof (rgood_range _ Gz) as (Hz1 & Hz2 & Hz3). rewrite Z.geb_leb.
    destruct (Z.leb_spec 1 (ro_n_samples z)); [|lia].
    destruct (Z.leb_spec (ro_min z + ro_n_samples z) (ro_maxp1 z)); [|lia]. cbn [andb].
    rewrite Eu. cbn [mbind option_bind].
    set (z' := RsampleReorder _ _ _ _).
    assert (Gz' : rgood z').
    { apply (rgood_removelast z e); auto. rewrite (rg_n _ Gz). rewrite length_app in Hlt. lia. }
    destruct (ot_replace_spec ro_min _ l0 z z' [] Hw El) as [Hw1 He1].
    { by eapply sorted_replace; [|exact Hso]. }
    eexists _, h', e. split; [done|]. unfold rivs. cbn [rr_sampleivtree set_tree rr_next_seq].
    split; [split; unfold rivs; simpl; rewrite ?He1; auto|].
    + apply ro_ok_mid. split; [done|]. split; [by split; constructor|]. split; [done|].
      split; [done|]. split; [constructor|]. apply Forall_forall. constructor.
    + rewrite last_snoc. by rewrite Hmx.
    + apply Forall_app. split; [done|]. by constructor.
    + split; [done|]. rewrite He1, elems_app, elems_cons. change (elems []) with (@nil rsample_chain_elem).
      rewrite app_nil_r. split; [rewrite Hsc at 1; by rewrite app_assoc|]. split; [done|].
      split; [|done]. intros q. rewrite !rcov_app, !rcov_cons, !rcov_nil. simpl. intros [|[?|]]; [tauto|lia|tauto].
Qed.

(** An interval that ends beyond its last element keeps what it covers, but
    for its last number. *)
Lemma delete_last_covers r h r' h' z q :
  tree_ok r -> last (rivs r) = Some z -> (2 <= length (ro_sc z))%nat ->
  delete_last_sample true r h = Some (r', h') ->
  rcov (rivs r) q -> q + 1 < ro_maxp1 z -> rcov (rivs r') q.
Proof.
  intros [Hw Hok Hmx _] [l0 El]%last_Some H2 E Hq Hlt. unfold delete_last_sample in E.
  destruct (rr_n_samples r >? 0); [|done]. rewrite Hmx, El, last_snoc in E. cbn [option_map mbind option_bind] in E.
  pose proof (ot_wf_sorted _ _ Hw) as Hso. fold (rivs r) in Hso.
  rewrite (ot_lookup_spec _ _ _ Hw) in E. fold (rivs r) in E. rewrite El in E, Hso, Hq.
  rewrite l_lookup_mid in E by done. cbn [mbind option_bind] in E.
  destruct (last (ro_sc z)) as [e|]; [|done]. cbn [mbind option_bind] in E.
  rewrite decide_False in E by lia. destruct (_ && _); [|done].
  destruct (nn_fragchain_unref _ _); [|done]. injection E as <- _. unfold rivs. simpl.
  match goal with |- rcov (ot_elements (ot_replace _ _ _ ?z')) _ =>
    destruct (ot_replace_spec ro_min _ l0 z z' [] Hw El) as [_ ->] end.
  { by eapply sorted_replace; [|exact Hso]. }
  rewrite !rcov_app, !rcov_cons, !rcov_nil in *. simpl. destruct Hq as [|[|[]]]; [tauto|right; left; lia].
Qed.

Lemma elem_refs_perm m (a b : list rsample_chain_elem) : a ≡ₚ b -> elem_refs m a = elem_refs m b.
Proof. induction 1; simpl; lia. Qed.

(** ** What an operation amounts to *)

(** The sequence numbers that are delivered, stored or known to be a gap. *)
Definition known r (q : Z) : Prop := q < rr_next_seq r \/ rcov (rivs r) q.

(** An operation that brings [news] for the sequence numbers [lo, hi). *)
Record reord (lo hi : Z) (news : list rsample_chain_elem) r h r' h' (out : outcome)
    (dropped : list rsample_chain_elem) : Prop := {
  re_ok : reorder_ok r';
  re_wf : rc_wf h';
  re_conf : same_conf r r';
  re_fits : fits (rr_next_seq r) (rr_next_seq r') out.1.1;
  re_res : out.2 = Z.of_nat (length out.1.1) \/ out.1.1 = [] /\ out.2 < 0;
  re_adj : out.1.2 = 0 \/ out.1.2 = 1;
  re_elems : elems (rivs r') ++ out.1.1 ++ dropped ≡ₚ
             elems (rivs r) ++ (if out.1.2 =? 1 then news else []);
  re_refs : forall m, rc h' m = rc h m - elem_refs m dropped;
  re_dropped : dropped = [] \/ rr_n_samples r = rr_max_samples r /\ length dropped = 1%nat /\ out.1.2 = 1;
  re_old : exists rest, elems (rivs r) = rest ++ dropped;
  re_sound : forall q, known r' q -> known r q \/ 0 <= out.2 /\ lo <= q < hi;
  re_known : dropped = [] -> forall q, known r q \/ 0 <= out.2 /\ lo <= q < hi -> known r' q;
}.

(** A complete sample, as [nn_defrag_rsample] returns it. *)
Definition sample_in (q : Z) s : Prop :=
  exists c i, s = RsampleReorder [ChainElem c (Some i)] q (q + 1) 1 /\ si_seq i = q.

Lemma sample_in_good q s : sample_in q s -> rgood s /\ ro_min s = q /\ ro_maxp1 s = q + 1 /\
  rsample_is_singleton s = Some true /\ length (ro_sc s) = 1%nat.
Proof.
  intros (c & i & -> & Hi). split; [split; simpl; [done|done|]|].
  - exists q. split; [lia|]. split; [|lia]. intros j [= <-]. done.
  - split; [done|]. split; [done|]. split; [|done]. unfold rsample_is_singleton. simpl.
    destruct (Z.ltb_spec q (q + 1)); [|lia]. by rewrite Z.eqb_refl.
Qed.

Lemma unchanged_spec lo hi news r h res :
  reorder_ok r -> rc_wf h -> res < 0 -> reord lo hi news r h r h ([], 0, res) [].
Proof.
  intros Hok Hwf Hres. split; simpl; auto.
  - done.
  - lia.
  - intros m. lia.
  - intros _ q [|[? _]]; [done|lia].
Qed.

Lemma asserts_hold r : reorder_ok r -> reorder_asserts r = true.
Proof.
  intros [[Hw Hok Hmx Hnx] Hn Hl _]. unfold reorder_asserts.
  rewrite ot_find_min_spec, ot_find_max_spec. fold (rivs r).
  rewrite bool_decide_eq_true_2 by done.
  assert (Hm : match head (rivs r) with Some mn => rr_next_seq r <? ro_min mn | None => true end = true).
  { destruct (rivs r) as [|a l]; [done|]. simpl. apply Forall_cons in Hnx as [Hnx _].
    apply Z.ltb_lt. done. }
  rewrite Hm. simpl. apply Z.leb_le. lia.
Qed.

(** The intervals after the first one are beyond it. *)
Lemma tail_beyond a l : ro_ok (a :: l) -> Forall (fun iv => ro_maxp1 a < ro_min iv) l.
Proof. intros [Hs _]. by apply StronglySorted_inv in Hs as [_ Hs]. Qed.

(** ** Delivery *)

Lemma deliver_alone r h s q :
  reorder_ok r -> rc_wf h -> sample_in q s -> rr_next_seq r = q ->
  Forall (fun iv => q + 1 < ro_min iv) (rivs r) ->
  let r' := set_n_samples (set_next_seq r (q + 1)) (rr_n_samples r - (ro_n_samples s - 1)) in
  reord q (q + 1) (ro_sc s) r h r' h (ro_sc s, 1, ro_n_samples s) [].
Proof.
  intros Hok Hwf Hs Hq Hb r'. destruct (sample_in_good q s Hs) as (Gs & Hmin & Hmax & _ & Hlen).
  pose proof (rg_n _ Gs) as Hn. pose proof Hok as [[Hw Ho Hmx Hnx] Hn' Hl Hm].
  assert (Hn1 : wrap_u 32 (rr_n_samples r - (ro_n_samples s - 1)) = rr_n_samples r).
  { rewrite Hn, Hlen. nowrap. }
  split; simpl; auto.
  - split; [split|..]; unfold rivs; simpl; rewrite ?Hn1; auto.
  - done.
  - rewrite Hq, <- Hmin, Hmin, <- Hmax, <- Hmin. apply Gs.
  - rewrite app_nil_r. unfold rivs. simpl. done.
  - intros m. lia.
  - intros x [Hx|Hx]; [simpl in Hx|left; by right]. destruct (Z.lt_ge_cases x q); [left; left; lia|right; lia].
  - intros _ x [[Hx|Hx]|[_ Hx]]; [left; simpl; lia|by right|left; simpl; lia].
Qed.

(** The first interval follows the sample and goes with it. *)
Lemma deliver_joined r h s q a l t :
  reorder_ok r -> rc_wf h -> sample_in q s -> rr_next_seq r = q -> rivs r = a :: l ->
  ro_min a = q + 1 -> ot_wf ro_min t -> ot_elements t = l ->
  let r' := set_n_samples (set_next_seq
              (NnReorder t (option_map ro_min (last l)) (rr_next_seq r) (rr_mode r)
                 (rr_max_samples r) (rr_n_samples r)) (ro_maxp1 a))
              (rr_n_samples r - (1 + ro_n_samples a - 1)) in
  reord q (q + 1) (ro_sc s) r h r' h (ro_sc s ++ ro_sc a, 1, 1 + ro_n_samples a) [].
Proof.
  intros Hok Hwf Hs Hq El Ha Hwt Het r'.
  destruct (sample_in_good q s Hs) as (Gs & Hmin & Hmax & _ & Hlen).
  pose proof Hok as [[Hw Ho Hmx Hnx] Hn Hl Hm]. rewrite El in Ho, Hn, Hnx.
  pose proof (tail_beyond a l Ho) as Hal. change (a :: l) with ([] ++ a :: l) in Ho.
  apply ro_ok_mid in Ho as (_ & Ol & Ga & _). pose proof (rg_n _ Ga) as Hna.
  rewrite elems_cons, length_app in Hn.
  assert (Hr' : rivs r' = l) by exact Het.
  assert (Hn' : rr_n_samples r' = Z.of_nat (length (elems l))).
  { unfold r'. simpl. nowrap. }
  split; simpl; auto.
  - split; [split|..]; rewrite ?Hr'; auto.
    + rewrite Hn'. simpl. lia.
    + intros Hne. specialize (Hm Hne). congruence.
  - done.
  - eapply (fits_app _ (q + 1)); [|rewrite <- Ha; apply Ga].
    rewrite Hq, <- Hmax, <- Hmin. apply Gs.
  - rewrite length_app. lia.
  - rewrite Hr', El, elems_cons, app_nil_r. solve_Permutation.
  - intros m. lia.
  - intros x. unfold known. rewrite Hr', El, rcov_cons. simpl. intros [Hx|Hx]; [|tauto].
    destruct (Z.lt_ge_cases x q); [left; left; lia|]. destruct (Z.lt_ge_cases x (q + 1)); [right; lia|].
    left. right. left. lia.
  - intros _ x. unfold known. rewrite Hr', El, rcov_cons. simpl. pose proof (rgood_range _ Ga).
    intros [[Hx|[Hx|Hx]]|[_ Hx]]; [left; lia|left; lia|by right|left; lia].
Qed.

Lemma deliver_spec r h s q :
  reorder_ok r -> rc_wf h -> sample_in q s -> rr_next_seq r = q ->
  exists r' out, reorder_deliver true r h s = Some (r', h, out) /\
    reord q (q + 1) (ro_sc s) r h r' h out [] /\ 1 <= out.2 /\ out.1.2 = 1.
Proof.
  intros Hok Hwf Hs Hq. destruct (sample_in_good q s Hs) as (Gs & Hmin & Hmax & _ & Hlen).
  pose proof (rgood_range _ Gs) as Hrs. pose proof (rg_n _ Gs) as Hns.
  pose proof Hok as [[Hw Ho Hmx Hnx] Hn Hl Hm]. unfold reorder_deliver. cbn [orb].
  assert (Halone : Forall (fun iv => q + 1 < ro_min iv) (rivs r) ->
    exists r' out,
      (let r0 := set_next_seq r (ro_maxp1 s) in
       if (ro_maxp1 s - ro_min s >=? 1) && true && (ro_min s + ro_n_samples s <=? ro_maxp1 s) &&
          (rr_n_samples r0 >=? ro_n_samples s - 1)
       then Some (set_n_samples r0 (rr_n_samples r0 - (ro_n_samples s - 1)), h,
                  (ro_sc s, 1, ro_n_samples s)) else None) = Some (r', h, out) /\
      reord q (q + 1) (ro_sc s) r h r' h out [] /\ 1 <= out.2 /\ out.1.2 = 1).
  { intros Hb. rewrite Hmax. simpl. eexists _, _.
    split; [|split; [by apply deliver_alone|split; [simpl; lia|done]]]. rewrite Hlen in Hns. zcases. done. }
  destruct (rivs r) as [|a l] eqn:El.
  { rewrite Hmx. simpl. by apply Halone. }
  assert (Hsome : exists k, rr_max_sampleiv r = Some k).
  { rewrite Hmx. destruct (last (a :: l)) eqn:E; [simpl; eauto|]. by apply last_None in E. }
  destruct Hsome as [k Hk].
  assert (Hmatch : forall (x y : option (nn_reorder T * rsample_reorder * bool)),
    match rr_max_sampleiv r with Some _ => x | None => y end = x) by (intros; by rewrite Hk).
  rewrite Hmatch, ot_find_min_spec. fold (rivs r). rewrite El.
  cbn [head]. unfold reorder_try_append_and_discard.
  pose proof (tail_beyond a l Ho) as Hal. apply Forall_cons in Hnx as [Hna Hnl].
  destruct (Z.ltb_spec (ro_maxp1 s) (ro_min a)) as [Hlt|Hge].
  { cbn [mbind option_bind]. apply Halone. constructor; [lia|].
    destruct Ho as [_ Hg]. apply Forall_cons in Hg as [Ga _]. pose proof (rgood_range _ Ga).
    eapply Forall_impl; [exact Hal|]. simpl. lia. }
  destruct (Z.eqb_spec (ro_min a) (ro_maxp1 s)) as [He|]; [|lia]. cbn [mbind option_bind].
  destruct (ot_delete_spec ro_min _ (ro_min a) Hw) as [Hw1 He1]. fold (rivs r) in He1.
  pose proof (ro_ok_sorted _ Ho) as Hso. change (a :: l) with ([] ++ a :: l) in Hso.
  rewrite El in He1. change (a :: l) with ([] ++ a :: l) in He1. rewrite l_delete_mid in He1 by done.
  destruct Ho as [Hsep Hg]. apply Forall_cons in Hg as [Ga Gl]. pose proof (rgood_range _ Ga) as Hra.
  rewrite elems_cons, length_app in Hn. pose proof (rg_n _ Ga) as Hna'.
  assert (Hns' : ro_n_samples (append_rsample_interval s a) = 1 + ro_n_samples a).
  { simpl. rewrite Hns, Hlen. nowrap. }
  set (r2 := if bool_decide _ then _ else _).
  assert (Hr2 : r2 = NnReorder (ot_delete ro_min (rr_sampleivtree r) (ro_min a))
                       (option_map ro_min (last l)) (rr_next_seq r) (rr_mode r)
                       (rr_max_samples r) (rr_n_samples r)).
  { unfold r2. rewrite Hmx. case_bool_decide as Hd.
    - change (a :: l) with ([] ++ a :: l) in Hd. apply last_key in Hd as ->; [|done]. done.
    - unfold set_tree. f_equal. rewrite Hmx, last_cons. destruct (last l) eqn:E3; [done|].
      exfalso. apply Hd. apply last_None in E3 as ->. done. }
  rewrite Hr2. rewrite Hns'. simpl ro_maxp1. simpl ro_min. cbn [rr_n_samples set_next_seq].
  eexists _, _. split; [zcases; done|]. split; [|split; [simpl; lia|done]].
  apply (deliver_joined r h s q a l); auto. lia.
Qed.

(** ** Storing *)

(** [r1] is [r] with one element for [lo, hi) more, not counted yet. *)
Record stored (lo hi : Z) (news : list rsample_chain_elem) r r1 : Prop := {
  sd_tree : tree_ok r1;
  sd_elems : elems (rivs r1) ≡ₚ elems (rivs r) ++ news;
  sd_cov : forall q, rcov (rivs r1) q <-> rcov (rivs r) q \/ lo <= q < hi;
  sd_conf : same_conf r r1;
  sd_next : rr_next_seq r1 = rr_next_seq r;
  sd_n : rr_n_samples r1 = rr_n_samples r;
  sd_last : (exists iv, iv ∈ rivs r /\ hi <= ro_min iv) -> last (elems (rivs r1)) = last (elems (rivs r));
}.

Lemma stored_room lo hi news r r1 h :
  reorder_ok r -> rc_wf h -> rr_mode r = NN_REORDER_MODE_NORMAL -> length news = 1%nat ->
  stored lo hi news r r1 -> rr_n_samples r < rr_max_samples r ->
  reord lo hi news r h (set_n_samples r1 (rr_n_samples r1 + 1)) h ([], 1, NN_REORDER_ACCEPT) [].
Proof.
  intros Hok Hwf Hmode Hnews [Ht He Hc [Hc1 Hc2] Hx Hn _] Hroom.
  pose proof Hok as [_ Hn0 Hl _]. pose proof (Permutation_length He) as Hlen.
  rewrite length_app, Hnews in Hlen.
  assert (Hw : wrap_u 32 (rr_n_samples r1 + 1) = rr_n_samples r1 + 1) by nowrap.
  split; simpl; auto.
  - destruct Ht as [T1 T2 T3 T4].
    split; [by split|..]; unfold rivs; simpl; fold (rivs r1); rewrite ?Hw, ?Hc1, ?Hc2; [lia|lia|done].
  - by split.
  - rewrite Hx. lia.
  - rewrite app_nil_r. exact He.
  - intros m. lia.
  - intros q. unfold known. simpl. rewrite Hx. intros [|Hq]; [by left; left|].
    apply Hc in Hq as [|]; [left; by right|right; done].
  - intros _ q. unfold known. simpl. rewrite Hx. intros [[|]|[_ ?]]; [by left|right; apply Hc; by left|].
    right. apply Hc. by right.
Qed.

Lemma stored_full lo hi news r r1 h :
  reorder_ok r -> rc_wf h -> rr_mode r = NN_REORDER_MODE_NORMAL -> length news = 1%nat ->
  stored lo hi news r r1 -> rr_n_samples r = rr_max_samples r -> 0 < rr_n_samples r ->
  sc_cover h (elems (rivs r) ++ news) -> (exists iv, iv ∈ rivs r /\ hi <= ro_min iv) ->
  exists r2 h2 e, delete_last_sample true r1 h = Some (r2, h2) /\
    reord lo hi news r h r2 h2 ([], 1, NN_REORDER_ACCEPT) [e].
Proof.
  intros Hok Hwf Hmode Hnews [Ht He Hc [Hc1 Hc2] Hx Hn Hlast] Hfull Hpos Hcov Hb. specialize (Hlast Hb).
  pose proof Hok as [_ Hn0 Hl _]. pose proof (Permutation_length He) as Hlen.
  rewrite length_app, Hnews in Hlen.
  destruct (delete_last_spec r1 h Ht Hwf) as (r2 & h2 & e & E & Ht2 & Hwf2 & He2 & Hr2 & Hc3 & [Hf1 Hf2] & Hx2 & Hn2);
    [lia|lia|lia| |].
  { intros m. specialize (Hcov m). rewrite <- (elem_refs_perm m _ _ He) in Hcov. done. }
  exists r2, h2, e. split; [done|]. rewrite He2, length_app in Hlen. simpl in Hlen.
  rewrite He2, last_snoc in Hlast. symmetry in Hlast. apply last_Some in Hlast as [rest Hrest].
  split; simpl; auto.
  - split; auto; [lia|lia|congruence].
  - split; congruence.
  - rewrite Hx2, Hx. lia.
  - by rewrite <- He2.
  - by exists rest.
  - intros q. unfold known. rewrite Hx2, Hx. intros [|Hq]; [by left; left|].
    apply Hc3, Hc in Hq as [|]; [left; by right|right; done].
  - done.
Qed.

Lemma stored_limit lo hi news r r1 h :
  reorder_ok r -> rc_wf h -> rr_mode r = NN_REORDER_MODE_NORMAL -> length news = 1%nat ->
  stored lo hi news r r1 -> 0 < rr_max_samples r -> sc_cover h (elems (rivs r) ++ news) ->
  (exists iv, iv ∈ rivs r /\ hi <= ro_min iv) ->
  exists r2 h2 dropped,
    (if rr_n_samples r1 <? rr_max_samples r1
     then Some (set_n_samples r1 (rr_n_samples r1 + 1), h)
     else delete_last_sample true r1 h) = Some (r2, h2) /\
    reord lo hi news r h r2 h2 ([], 1, NN_REORDER_ACCEPT) dropped.
Proof.
  intros Hok Hwf Hmode Hnews Hst Hpos Hcov Hb0. pose proof (rk_lim _ Hok) as Hl.
  assert (Hb : (rr_n_samples r1 <? rr_max_samples r1) = (rr_n_samples r <? rr_max_samples r))
    by (by rewrite (sd_n _ _ _ _ _ Hst), (proj2 (sd_conf _ _ _ _ _ Hst))).
  rewrite Hb. destruct (Z.ltb_spec (rr_n_samples r) (rr_max_samples r)).
  - exists (set_n_samples r1 (rr_n_samples r1 + 1)), h, []. split; [done|]. by apply stored_room.
  - destruct (stored_full lo hi news r r1 h) as (r2 & h2 & e & E & Hr); auto; [lia|lia|].
    by exists r2, h2, [e].
Qed.

(** A new interval apart from the others. *)
Lemma add_apart r x l1 l2 :
  tree_ok r -> rivs r = l1 ++ l2 -> rgood x ->
  Forall (fun y => rsep y x) l1 -> Forall (rsep x) l2 ->
  exists t, reorder_add_rsampleiv r x = Some (set_tree r t) /\ ot_wf ro_min t /\
    ot_elements t = l1 ++ x :: l2 /\ ro_ok (l1 ++ x :: l2).
Proof.
  intros [Hw Ho _ _] El Gx S1 S2. unfold reorder_add_rsampleiv. rewrite El in Ho.
  apply ro_ok_app in Ho as (O1 & O2 & S12). pose proof (rgood_range _ Gx) as Hx.
  assert (Hk : Forall (fun y => key_lt ro_min y x) l1).
  { destruct O1 as [_ G1]. rewrite Forall_forall in *. intros y Hy.
    pose proof (rgood_range _ (G1 y Hy)). specialize (S1 y Hy). unfold rsep, key_lt in *. lia. }
  assert (Hk2 : Forall (key_lt ro_min x) l2).
  { eapply Forall_impl; [exact S2|]. unfold rsep, key_lt. simpl. lia. }
  assert (Hn : Forall (fun y => ro_min y <> ro_min x) (rivs r)).
  { rewrite El. apply Forall_app. split; [eapply Forall_impl; [exact Hk|] | eapply Forall_impl; [exact Hk2|]];
      unfold key_lt; simpl; lia. }
  rewrite (ot_lookup_spec _ _ _ Hw). fold (rivs r). rewrite (proj2 (l_lookup_None ro_min _ _)) by done.
  destruct (ot_insert_spec ro_min _ x Hw Hn) as [Hw1 He1]. fold (rivs r) in He1.
  rewrite El, l_insert_mid in He1 by done.
  eexists. split; [done|]. split; [done|]. split; [done|]. by apply ro_ok_mid.
Qed.

(** Building [stored] for a changed tree. *)
Lemma stored_intro lo hi news r r1 l1 l2 :
  reorder_ok r -> rivs r = l1 ++ l2 -> ot_wf ro_min (rr_sampleivtree r1) -> ro_ok (rivs r1) ->
  rr_max_sampleiv r1 = option_map ro_min (last (rivs r1)) ->
  Forall (fun iv => rr_next_seq r < ro_min iv) (rivs r1) ->
  elems (rivs r1) = elems l1 ++ news ++ elems l2 ->
  (forall q, rcov (rivs r1) q <-> rcov (l1 ++ l2) q \/ lo <= q < hi) ->
  same_conf r r1 -> rr_next_seq r1 = rr_next_seq r -> rr_n_samples r1 = rr_n_samples r ->
  Forall (fun y => ro_min y < hi) l1 ->
  stored lo hi news r r1.
Proof.
  intros Hok El Hw Ho Hmx Hnx He Hc Hcf Hx Hn Hl1. split; auto.
  - split; auto. by rewrite Hx.
  - rewrite He, El, elems_app. solve_Permutation.
  - by rewrite El.
  - intros (iv & Hin & Hb). rewrite He, El, elems_app. rewrite El in Hin. apply elem_of_app in Hin as [Hin|Hin].
    { rewrite Forall_forall in Hl1. specialize (Hl1 iv Hin). lia. }
    assert (Hne : elems l2 <> []).
    { pose proof (rk_tree _ Hok) as [_ [_ Hg] _ _]. rewrite El, Forall_app in Hg. destruct Hg as [_ Hg].
      rewrite Forall_forall in Hg. pose proof (rg_ne _ (Hg iv Hin)) as Hsc.
      apply list_elem_of_split in Hin as (a & b & ->). rewrite elems_app, elems_cons.
      intros [_ [? _]%app_eq_nil]%app_eq_nil. done. }
    rewrite !last_app. by destruct (last (elems l2)) eqn:E2; [|apply last_None in E2].
Qed.

Lemma starts_below (l : list rsample_reorder) (b hi : Z) :
  Forall rgood l -> Forall (fun y => ro_maxp1 y <= b) l -> b <= hi -> Forall (fun y => ro_min y < hi) l.
Proof.
  rewrite !Forall_forall. intros Hg Hb Hle y Hy. pose proof (rgood_range _ (Hg y Hy)). specialize (Hb y Hy).
  simpl in Hb. lia.
Qed.

Section Hard.
Context (r : nn_reorder T) (s : rsample_reorder) (q : Z).
Context (l1 l2 : list rsample_reorder).
Hypothesis Hok : reorder_ok r.
Hypothesis Hs : sample_in q s.
Hypothesis Hq : rr_next_seq r < q.
Hypothesis El : rivs r = l1 ++ l2.
Hypothesis Hl1 : Forall (fun y => ro_maxp1 y <= q) l1.
Hypothesis Hl2 : Forall (fun y => q + 1 <= ro_min y) l2.
Hypothesis Hne2 : l2 <> [].

(** No interval after it touches the sample, or the first one does. *)
Lemma immsucc_spec :
  match ot_lookup ro_min (rr_sampleivtree r) (q + 1) with
  | Some i => exists l3, l2 = i :: l3 /\ ro_min i = q + 1
  | None => Forall (fun y => q + 1 < ro_min y) l2
  end.
Proof using All.
  pose proof (rk_tree _ Hok) as [Hw Ho _ _]. rewrite (ot_lookup_spec _ _ _ Hw). fold (rivs r).
  pose proof (ro_ok_sorted _ Ho) as Hso. rewrite El in Hso, Ho |- *.
  destruct (l_lookup ro_min (q + 1) (l1 ++ l2)) as [i|] eqn:Ei.
  - apply l_lookup_Some in Ei as (Hi & a & b & Hab).
    assert (Hin : i ∈ l1 ++ l2) by (rewrite Hab; set_solver).
    apply elem_of_app in Hin as [Hin|Hin].
    { destruct Ho as [_ Hg]. apply Forall_app in Hg as [Hg _]. rewrite Forall_forall in Hg, Hl1.
      pose proof (rgood_range _ (Hg i Hin)). specialize (Hl1 i Hin). lia. }
    destruct l2 as [|y l3]; [by apply elem_of_nil in Hin|].
    apply elem_of_cons in Hin as [<-|Hin]; [by exists l3|].
    apply sorted_app in Hso as (_ & Hso & _). apply sorted_cons in Hso as [Hso _].
    rewrite Forall_forall in Hso. specialize (Hso i Hin). apply Forall_cons in Hl2 as [Hy _].
    unfold key_lt in Hso. lia.
  - apply l_lookup_None in Ei. apply Forall_app in Ei as [_ Ei].
    rewrite Forall_forall in *. intros y Hy. specialize (Ei y Hy). specialize (Hl2 y Hy). lia.
Qed.

Lemma short_sum (l l' : list rsample_reorder) x y :
  rivs r = l ++ x :: l' -> length (ro_sc y) = 1%nat ->
  Z.of_nat (length (ro_sc y ++ ro_sc x)) < 2 ^ 32 /\ Z.of_nat (length (ro_sc x ++ ro_sc y)) < 2 ^ 32.
Proof using Hok.
  intros He Hy. pose proof (rk_n _ Hok) as Hn. pose proof (rk_lim _ Hok) as Hl.
  rewrite He, elems_app, elems_cons, !length_app in Hn. rewrite !length_app. lia.
Qed.

(** The pieces around the sample. *)
Lemma hard_facts :
  rgood s /\ ro_min s = q /\ ro_maxp1 s = q + 1 /\ length (ro_sc s) = 1%nat /\
  ro_ok l1 /\ ro_ok l2 /\ Forall (fun a => Forall (rsep a) l2) l1 /\
  Forall (fun iv => rr_next_seq r < ro_min iv) l1 /\ Forall (fun iv => rr_next_seq r < ro_min iv) l2 /\
  rr_max_sampleiv r = option_map ro_min (last l2).
Proof using All.
  destruct (sample_in_good q s Hs) as (Gs & Hmin & Hmax & _ & Hlen).
  pose proof (rk_tree _ Hok) as [Hw Ho Hmx Hnx]. rewrite El in Ho, Hmx, Hnx.
  apply ro_ok_app in Ho as (O1 & O2 & S12). apply Forall_app in Hnx as [N1 N2].
  repeat (split; [done|]). rewrite Hmx, last_app. destruct (last l2) eqn:E2; [done|].
  by apply last_None in E2.
Qed.

(** The sample joins the interval after it, if there is one: list and tree. *)
Lemma store_head_spec :
  Forall (fun y => ro_maxp1 y < q) l1 ->
  exists r1, reorder_store_head r s (ot_lookup ro_min (rr_sampleivtree r) (q + 1)) = Some r1 /\
    stored q (q + 1) (ro_sc s) r r1.
Proof using All.
  intros Hlt. destruct hard_facts as (Gs & Hmin & Hmax & Hlen & O1 & O2 & S12 & N1 & N2 & Hmx).
  pose proof (rk_tree _ Hok) as [Hw _ _ _]. pose proof immsucc_spec as Hi.
  destruct (ot_lookup ro_min (rr_sampleivtree r) (q + 1)) as [i|].
  - destruct Hi as (l3 & El2 & Hi). rewrite El2 in *. unfold reorder_store_head.
    assert (Hi' : RsampleReorder (ro_sc s ++ ro_sc i) (ro_min s) (ro_maxp1 i)
                    (wrap_u 32 (ro_n_samples i + ro_n_samples s)) = append_rsample_interval s i)
      by (unfold append_rsample_interval; by rewrite Z.add_comm).
    rewrite Hi'. clear Hi'. set (i' := append_rsample_interval s i).
    assert (Oi : ro_ok (l1 ++ i' :: l3)).
    { apply (ro_ok_glue l1 s i l3); auto.
      - apply ro_ok_mid. split; [done|]. split; [by split; constructor|]. split; [done|].
        split; [eapply Forall_impl; [exact Hlt|]; unfold rsep; simpl; lia|].
        split; [constructor|]. apply Forall_forall. constructor.
      - lia.
      - by apply (short_sum l1 l3 i s). }
    destruct (ot_replace_spec ro_min _ l1 i i' l3 Hw El) as [Hw1 He1]; [by apply ro_ok_sorted|].
    eexists. split; [done|]. apply Forall_cons in N2 as [Ni N3].
    assert (Hsi : sorted ro_min ([] ++ i :: l3)) by (by apply ro_ok_sorted).
    destruct (bool_decide _) eqn:Eb; [apply bool_decide_eq_true in Eb|apply bool_decide_eq_false in Eb];
      (eapply (stored_intro _ _ _ _ _ l1 (i :: l3)); unfold rivs; simpl; rewrite ?He1; auto).
    all: try (by split).
    all: try (apply (starts_below l1 q); [apply O1|done|lia]).
    all: try (apply Forall_app; split; [done|]; constructor; [simpl; lia|done]).
    all: try (rewrite elems_app, !elems_cons; simpl; by rewrite <- app_assoc).
    all: try (intros x; rewrite !rcov_app, !rcov_cons; simpl; destruct O2 as [_ Gi];
              apply Forall_cons in Gi as [Gi _]; pose proof (rgood_range _ Gi); rewrite Hmin; intuition lia).
    + rewrite Hmx in Eb. change (i :: l3) with ([] ++ i :: l3) in Eb.
      apply last_key in Eb; [|done]. rewrite Eb, last_snoc. done.
    + rewrite Hmx, last_app, !last_cons in *. destruct (last l3); [done|]. done.
  - destruct (add_apart r s l1 l2) as (t & E & Hwt & Het & Ot); auto.
    { apply Hok. }
    { eapply Forall_impl; [exact Hlt|]. unfold rsep. simpl. lia. }
    { eapply Forall_impl; [exact Hi|]. unfold rsep. simpl. lia. }
    simpl. rewrite E. eexists. split; [done|].
    eapply (stored_intro _ _ _ _ _ l1 l2); unfold rivs; simpl; rewrite ?Het; auto.
    + rewrite Hmx, last_app, last_cons. destruct (last l2) eqn:E2; [done|]. by apply last_None in E2.
    + apply Forall_app. split; [done|]. constructor; [lia|done].
    + by rewrite elems_app, elems_cons.
    + intros x. rewrite !rcov_app, !rcov_cons. intuition lia.
    + by split.
    + apply (starts_below l1 q); [apply O1|done|lia].
Qed.

(** Replacing the interval [p] before the sample by one that starts at the
    same number. *)
Lemma grown_stored l0 p p' l3 r1 :
  l1 = l0 ++ [p] -> ro_maxp1 p = q -> ro_min p' = ro_min p ->
  ot_wf ro_min (rr_sampleivtree r1) -> rivs r1 = l0 ++ p' :: l3 -> ro_ok (l0 ++ p' :: l3) ->
  rr_max_sampleiv r1 = option_map ro_min (last (l0 ++ p' :: l3)) ->
  Forall (fun iv => rr_next_seq r < ro_min iv) l3 ->
  ro_sc p' ++ elems l3 = ro_sc p ++ ro_sc s ++ elems l2 ->
  (forall x, rcov (p' :: l3) x <-> rcov (p :: l2) x \/ q <= x < q + 1) ->
  same_conf r r1 -> rr_next_seq r1 = rr_next_seq r -> rr_n_samples r1 = rr_n_samples r ->
  stored q (q + 1) (ro_sc s) r r1.
Proof using All.
  intros Hl Hp Hm Hw1 He1 Ho1 Hmx1 N3 Hsc Hcv Hcf Hx Hn.
  destruct hard_facts as (_ & _ & _ & _ & O1 & _ & _ & N1 & _).
  assert (Hb : Forall (fun y => ro_min y < q + 1) l1) by (apply (starts_below l1 q); [apply O1|done|lia]).
  rewrite Hl in N1. apply Forall_app in N1 as [N0 Np]. apply Forall_cons in Np as [Np _].
  eapply (stored_intro _ _ _ _ _ l1 l2); rewrite ?He1; auto.
  - apply Forall_app. split; [done|]. constructor; [lia|done].
  - rewrite elems_app, elems_cons, Hsc, Hl, elems_app, elems_cons.
    change (elems []) with (@nil rsample_chain_elem). by rewrite app_nil_r, <- !app_assoc.
  - intros x. rewrite Hl, <- app_assoc. simpl. rewrite !(rcov_app l0), Hcv. tauto.
Qed.

Lemma store_grow_spec l0 p :
  l1 = l0 ++ [p] -> ro_maxp1 p = q ->
  exists r1, reorder_store r s (Some p) (ot_lookup ro_min (rr_sampleivtree r) (q + 1)) = Some r1 /\
    stored q (q + 1) (ro_sc s) r r1.
Proof using All.
  intros Hl Hp. destruct hard_facts as (Gs & Hmin & Hmax & Hlen & O1 & O2 & S12 & N1 & N2 & Hmx).
  pose proof (rk_tree _ Hok) as [Hw Ho _ _]. pose proof immsucc_spec as Hi.
  pose proof El as El'. rewrite Hl, <- app_assoc in El'. simpl in El'.
  pose proof (ro_ok_sorted _ Ho) as Hso. rewrite El' in Hso, Ho.
  apply ro_ok_mid in Ho as (O0 & _ & Gp & S0 & Sp & S02). pose proof (rgood_range _ Gp) as Hrp.
  pose proof (rgood_range _ Gs) as Hrs.
  assert (S0s : Forall (fun y => rsep y s) l0).
  { eapply Forall_impl; [exact S0|]. unfold rsep. simpl. lia. }
  assert (Oa : ro_ok (l0 ++ [p])) by (by rewrite <- Hl).
  unfold reorder_store. rewrite Hmin, Hp, Z.eqb_refl.
  destruct (ot_lookup ro_min (rr_sampleivtree r) (q + 1)) as [i|]; unfold reorder_try_append_and_discard.
  - destruct Hi as (l3 & El2 & Hi). simpl ro_maxp1. rewrite Hmax, Hi, Z.ltb_irrefl, Z.eqb_refl.
    cbn [mbind option_bind]. rewrite append_assoc. set (si := append_rsample_interval s i).
    rewrite El2 in O2, N2, Hmx, El', Hso, S02, Sp. pose proof O2 as [_ G2]. apply Forall_cons in G2 as [Gi _].
    pose proof (rgood_range _ Gi) as Hri. apply Forall_cons in N2 as [Ni N3].
    pose proof (short_sum (l0 ++ [p]) l3 i s) as [Hlsi _]; [rewrite <- app_assoc; exact El'|done|].
    assert (Osi : ro_ok (si :: l3)).
    { apply (ro_ok_glue [] s i l3); auto; [|lia]. split; [repeat constructor|by constructor]. }
    assert (Op : ro_ok (l0 ++ append_rsample_interval p si :: l3)).
    { apply (ro_ok_glue l0 p si l3); auto; [|simpl; lia|].
      - rewrite Forall_forall in S0s, S02 |- *. intros y Hy. specialize (S02 y Hy).
        apply Forall_cons in S02 as [_ S02]. constructor; [by apply S0s|done].
      - pose proof (rk_n _ Hok) as Hn. pose proof (rk_lim _ Hok).
        rewrite El', elems_app, !elems_cons, !length_app in Hn. simpl. rewrite !length_app. lia. }
    destruct (ot_delete_spec ro_min _ (ro_min i) Hw) as [Hw1 He1]. fold (rivs r) in He1.
    replace (l0 ++ p :: i :: l3) with ((l0 ++ [p]) ++ i :: l3) in El', Hso by (by rewrite <- app_assoc).
    rewrite El', l_delete_mid, <- app_assoc in He1 by done. simpl in He1.
    destruct (ot_replace_spec ro_min _ l0 p (append_rsample_interval p si) l3 Hw1 He1) as [Hw2 He2];
      [by apply ro_ok_sorted|].
    rewrite <- Hi. eexists. split; [done|]. replace (stored q (ro_min i)) with (stored q (q + 1)) by (by rewrite Hi).
    assert (Hmax' : (if bool_decide (rr_max_sampleiv r = Some (ro_min i)) then Some (ro_min p)
              else rr_max_sampleiv r) =
              option_map ro_min (last (l0 ++ append_rsample_interval p si :: l3))).
    { rewrite Hmx. change (i :: l3) with ([] ++ i :: l3). case_bool_decide as Hd.
      - apply last_key in Hd as ->; [by rewrite last_snoc|]. by apply ro_ok_sorted.
      - rewrite !last_app, !last_cons. rewrite last_app, last_cons in Hd. destruct (last l3); [done|].
        by destruct Hd. }
    assert (Hcv : forall x, rcov (append_rsample_interval p si :: l3) x <->
                    rcov (p :: i :: l3) x \/ q <= x < q + 1).
    { intros x. rewrite !rcov_cons. simpl. intuition lia. }
    destruct (bool_decide _); simpl in Hmax';
      (apply (grown_stored l0 p (append_rsample_interval p si) l3); auto; [| |by split]);
      rewrite El2, ?elems_cons; simpl; rewrite <- ?app_assoc; done.
  - cbn [mbind option_bind]. pose proof (short_sum l0 l2 p s El' Hlen) as [_ Hlps].
    assert (Op : ro_ok (l0 ++ append_rsample_interval p s :: l2)).
    { apply (ro_ok_glue l0 p s l2); auto; [| |lia].
      - change (s :: l2) with ([] ++ s :: l2). apply ro_ok_mid. split; [by split; constructor|].
        split; [done|]. split; [done|]. split; [constructor|]. split; [|constructor].
        eapply Forall_impl; [exact Hi|]. unfold rsep. simpl. lia.
      - rewrite Forall_forall in S0s, S02 |- *. intros y Hy. constructor; [by apply S0s|by apply S02]. }
    destruct (ot_replace_spec ro_min _ l0 p (append_rsample_interval p s) l2 Hw El') as [Hw2 He2];
      [by apply ro_ok_sorted|].
    eexists. split; [done|].
    apply (grown_stored l0 p (append_rsample_interval p s) l2); auto.
    + simpl. rewrite Hmx, last_app, last_cons. destruct (last l2) eqn:E2; [done|]. by apply last_None in E2.
    + simpl. by rewrite <- app_assoc.
    + intros x. rewrite !rcov_cons. simpl. intuition lia.
    + by split.
Qed.
End Hard.
End Ops.
