(* ===== verification/ReorderProps.v ===== *)
(** * What the reorder administration guarantees

    The specifications of [nn_reorder_rsample], [nn_reorder_gap],
    [nn_reorder_wantsample], [nn_reorder_nackmap] and [nn_reorder_free] for any
    implementation of the tree and reference count interfaces. *)

From Stdlib Require Import ZArith Lia Sorting.Sorted.
From stdpp Require Import prelude.
From S2P Require Import Prelude OrdTree Bitset Refs Defrag DefragOps Reorder ReorderFacts ReorderOps.

Section Props.
Context {T : Type -> Type} `{!OrdTree T, !OrdTreeLaws T}.
Context {H : Type} `{!RmsgRefs H, !RmsgRefsLaws H}.
Implicit Types (r : nn_reorder T) (s : rsample_reorder) (h : H) (l : list rsample_reorder).

(** Why a sample is refused: it is known already, the delivery queue is
    full, or there is no room. *)
Definition refusable r (q : Z) (full : bool) : Prop :=
  rcov (rivs r) q \/ full = true \/ rr_n_samples r = rr_max_samples r.

Lemma not_covered l q : Forall (fun y => ro_maxp1 y <= q) l -> ~ rcov l q.
Proof. rewrite Forall_forall. intros Hf (iv & Hin & Hr). specialize (Hf iv Hin). lia. Qed.

(** The sample goes somewhere before the end of the last interval. *)
Lemma hard_store_spec r s q l mx :
  reorder_ok r -> sample_in q s -> rr_next_seq r < q -> rivs r = l ++ [mx] -> q < ro_maxp1 mx ->
  let predeq := ot_lookup_predeq ro_min (rr_sampleivtree r) q in
  let immsucc := ot_lookup ro_min (rr_sampleivtree r) (q + 1) in
  if match predeq with Some p => (q >=? ro_min p) && (q <? ro_maxp1 p) | None => false end
  then rcov (rivs r) q
  else ~ rcov (rivs r) q /\
       exists r1, reorder_store r s predeq immsucc = Some r1 /\ stored q (q + 1) (ro_sc s) r r1.
Proof.
  intros Hok Hs Hq El Hmx predeq immsucc. pose proof (rk_tree _ Hok) as [Hw Ho _ _].
  pose proof (ro_ok_sorted _ Ho) as Hso. destruct (sample_in_good q s Hs) as (_ & Hmin & _).
  unfold predeq. rewrite (ot_lookup_predeq_spec _ _ _ Hw). fold (rivs r).
  destruct (l_predeq ro_min q (rivs r)) as [p|] eqn:Ep.
  - destruct (l_predeq_Some _ _ _ _ Hso Ep) as (l1 & l2 & Er & Hp & Hl2).
    rewrite Z.geb_leb. destruct (Z.leb_spec (ro_min p) q); [|lia].
    destruct (Z.ltb_spec q (ro_maxp1 p)) as [Hin|Hout]; simpl.
    { exists p. split; [rewrite Er; set_solver|lia]. }
    assert (Hne : l2 <> []).
    { intros ->. rewrite El in Er. apply app_inj_tail in Er as [_ ->]. lia. }
    rewrite Er in Ho. apply ro_ok_mid in Ho as (O1 & _ & Gp & S1 & _).
    pose proof (rgood_range _ Gp) as Hrp.
    assert (Er' : rivs r = (l1 ++ [p]) ++ l2) by (by rewrite <- app_assoc).
    assert (Hl1 : Forall (fun y => ro_maxp1 y < ro_min p) l1) by exact S1.
    assert (Hl2' : Forall (fun y => q + 1 <= ro_min y) l2)
      by (eapply Forall_impl; [exact Hl2|]; simpl; lia).
    assert (Hl1' : Forall (fun y => ro_maxp1 y <= q) (l1 ++ [p])).
    { apply Forall_app. split; [|by repeat constructor]. eapply Forall_impl; [exact Hl1|]. simpl. lia. }
    split.
    { rewrite Er', rcov_app. intros [Hc|Hc]; [by apply not_covered in Hc|].
      destruct Hc as (iv & Hin & Hr). rewrite Forall_forall in Hl2. specialize (Hl2 iv Hin). simpl in Hl2. lia. }
    destruct (Z.eq_dec (ro_maxp1 p) q) as [Hpq|Hpq].
    + by apply (store_grow_spec r s q (l1 ++ [p]) l2 Hok Hs Hq Er' Hl1' Hl2' Hne l1 p).
    + unfold reorder_store. rewrite Hmin. destruct (Z.eqb_spec q (ro_maxp1 p)); [lia|].
      apply (store_head_spec r s q (l1 ++ [p]) l2); auto.
      apply Forall_app. split; [eapply Forall_impl; [exact Hl1|]; simpl; lia|].
      constructor; [lia|constructor].
  - apply l_predeq_None in Ep; [|done]. split.
    { intros (iv & Hin & Hr). rewrite Forall_forall in Ep. specialize (Ep iv Hin). simpl in Ep. lia. }
    apply (store_head_spec r s q [] (rivs r)); auto.
    + eapply Forall_impl; [exact Ep|]. simpl. lia.
    + rewrite El. by destruct l.
Qed.

Lemma hard_spec r h s q l mx la full :
  reorder_ok r -> rc_wf h -> rr_mode r = NN_REORDER_MODE_NORMAL -> sample_in q s ->
  rr_next_seq r < q -> rivs r = l ++ [mx] -> q < ro_maxp1 mx ->
  sc_cover h (elems (rivs r) ++ ro_sc s) ->
  exists r' h' out dropped, reorder_hard_case true r h s la full = Some (r', h', out) /\
    reord q (q + 1) (ro_sc s) r h r' h' out dropped /\
    (out.2 = NN_REORDER_REJECT /\ refusable r q full \/ out.2 = NN_REORDER_ACCEPT /\ out.1.2 = 1 /\ ~ rcov (rivs r) q).
Proof.
  intros Hok Hwf Hmode Hs Hq El Hmx Hcov. unfold reorder_hard_case.
  destruct (sample_in_good q s Hs) as (_ & Hmin & Hmax & _ & Hlen).
  assert (Hrej : refusable r q full -> exists r' h' out dropped,
    Some (r, h, (@nil rsample_chain_elem, 0, NN_REORDER_REJECT)) = Some (r', h', out) /\
    reord q (q + 1) (ro_sc s) r h r' h' out dropped /\
    (out.2 = NN_REORDER_REJECT /\ refusable r q full \/ out.2 = NN_REORDER_ACCEPT /\ out.1.2 = 1 /\ ~ rcov (rivs r) q)).
  { intros Hx. eexists _, _, _, []. split; [done|]. split; [by apply unchanged_spec|by left]. }
  destruct la, full; try (apply Hrej; unfold refusable; tauto); cbn [andb];
    (pose proof (hard_store_spec r s q l mx Hok Hs Hq El Hmx) as Hst; cbv zeta in Hst;
     rewrite Hmin, Hmax; destruct (match ot_lookup_predeq _ _ _ with Some _ => _ | None => _ end);
     [apply Hrej; by left|]; destruct Hst as (Hnc & r1 & E & Hst); rewrite E; cbn [mbind option_bind];
     destruct (stored_limit q (q + 1) (ro_sc s) r r1 h) as (r2 & h2 & dr & E2 & Hre); auto;
     [pose proof (rk_lim _ Hok); pose proof (rk_n _ Hok) as Hn; pose proof (rk_tree _ Hok) as [_ Ho _ _];
      rewrite El in Hn, Ho; apply ro_ok_mid in Ho as (_ & _ & Gm & _); pose proof (rgood_range _ Gm);
      pose proof (rg_n _ Gm); rewrite elems_app, elems_cons, !length_app in Hn; lia
     |exists mx; split; [rewrite El; set_solver|];
      destruct (Z.le_gt_cases (ro_min mx) q); [|lia]; destruct Hnc; exists mx; split; [rewrite El; set_solver|lia]
     |rewrite E2; eexists _, _, _, dr; split; [done|]; split; [done|by right]]).
Qed.

(** Storing a new last interval, with [max_sampleiv] updated. *)
Lemma add_last_spec r x :
  reorder_ok r -> rgood x -> rr_next_seq r < ro_min x ->
  Forall (fun y => ro_maxp1 y < ro_min x) (rivs r) ->
  exists t, reorder_add_rsampleiv r x = Some (set_tree r t) /\
    stored (ro_min x) (ro_maxp1 x) (ro_sc x) r (set_max (set_tree r t) (Some (ro_min x))).
Proof.
  intros Hok Gx Hx Hb. pose proof (rk_tree _ Hok) as Ht.
  destruct (add_apart r x (rivs r) []) as (t & E & Hwt & Het & Ot); auto; [by rewrite app_nil_r|].
  exists t. split; [done|]. eapply (stored_intro _ _ _ _ _ (rivs r) []); unfold rivs; simpl; rewrite ?Het; auto.
  - by rewrite app_nil_r.
  - by rewrite last_snoc.
  - apply Forall_app. split; [apply Ht|by repeat constructor].
  - by rewrite elems_app, elems_cons.
  - intros y. fold (rivs r). rewrite !rcov_app, !rcov_cons. tauto.
  - by split.
  - pose proof (rgood_range _ Gx). apply (starts_below (rivs r) (ro_min x)); [apply Ht| |lia].
    eapply Forall_impl; [exact Hb|]. simpl. lia.
Qed.

(** Appending the sample to the last interval. *)
Lemma append_last_spec r s q l mx :
  reorder_ok r -> sample_in q s -> rivs r = l ++ [mx] -> q = ro_maxp1 mx ->
  stored q (q + 1) (ro_sc s) r
    (set_tree r (ot_replace ro_min (rr_sampleivtree r) (ro_min mx) (append_rsample_interval mx s))).
Proof.
  intros Hok Hs El Hq. destruct (sample_in_good q s Hs) as (Gs & Hmin & Hmax & _ & Hlen).
  pose proof (rk_tree _ Hok) as [Hw Ho Hmx Hnx]. rewrite El in Ho, Hmx, Hnx.
  pose proof Ho as (O & _ & Gm & S & _)%ro_ok_mid. apply Forall_app in Hnx as [N Nm].
  pose proof (rgood_range _ Gm) as Hrm. apply Forall_cons in Nm as [Nm _].
  assert (Oa : ro_ok (l ++ [append_rsample_interval mx s])).
  { apply (ro_ok_glue l mx s []); auto.
    - split; [repeat constructor|by constructor].
    - eapply Forall_impl; [exact S|]. unfold rsep. simpl. intros y Hy. constructor; [|done]. lia.
    - lia.
    - by apply (short_sum r Hok l [] mx s). }
  destruct (ot_replace_spec ro_min _ l mx (append_rsample_interval mx s) [] Hw El) as [Hw1 He1];
    [by apply ro_ok_sorted|].
  eapply (stored_intro _ _ _ _ _ (l ++ [mx]) []); unfold rivs; simpl; rewrite ?He1; auto.
  - by rewrite app_nil_r.
  - rewrite Hmx. by rewrite !last_snoc.
  - apply Forall_app. split; [done|by repeat constructor].
  - rewrite !elems_app, !elems_cons. change (elems []) with (@nil rsample_chain_elem). simpl.
    by rewrite !app_nil_r, app_assoc.
  - intros y. rewrite !rcov_app, !rcov_cons, !rcov_nil. simpl. intuition lia.
  - by split.
  - apply (starts_below (l ++ [mx]) q); [apply Ho| |lia]. apply Forall_app. split; [|by repeat constructor; lia].
    eapply Forall_impl; [exact S|]. unfold rsep. simpl. lia.
Qed.

(** What [nn_reorder_rsample] answers. *)
Definition answers r (q : Z) (full : bool) (out : outcome) : Prop :=
  if q <? rr_next_seq r then out.2 = NN_REORDER_TOO_OLD
  else if q =? rr_next_seq r then if full then out.2 = NN_REORDER_REJECT else 1 <= out.2 /\ out.1.2 = 1
  else out.2 = NN_REORDER_REJECT /\ refusable r q full \/
       out.2 = NN_REORDER_ACCEPT /\ out.1.2 = 1 /\ ~ rcov (rivs r) q.

Lemma stored_accept r h s q r1 :
  reorder_ok r -> rc_wf h -> rr_mode r = NN_REORDER_MODE_NORMAL -> sample_in q s ->
  stored q (q + 1) (ro_sc s) r r1 -> rr_n_samples r < rr_max_samples r ->
  reord q (q + 1) (ro_sc s) r h (set_n_samples r1 (rr_n_samples r + 1)) h ([], 1, NN_REORDER_ACCEPT) [].
Proof.
  intros Hok Hwf Hm Hs Hst Hroom. destruct (sample_in_good q s Hs) as (_ & _ & _ & _ & Hlen).
  rewrite <- (sd_n _ _ _ _ _ Hst). by apply stored_room.
Qed.

Lemma last_is_end l mx : ro_ok (l ++ [mx]) -> Forall (fun y => ro_maxp1 y <= ro_maxp1 mx) (l ++ [mx]).
Proof.
  intros (_ & _ & Gm & S & _)%ro_ok_mid. pose proof (rgood_range _ Gm).
  apply Forall_app. split; [|by repeat constructor].
  eapply Forall_impl; [exact S|]. unfold rsep. simpl. lia.
Qed.

Lemma rsample_normal_spec r h s q la full :
  reorder_ok r -> rc_wf h -> rr_mode r = NN_REORDER_MODE_NORMAL -> sample_in q s ->
  sc_cover h (elems (rivs r) ++ ro_sc s) ->
  exists r' h' out dropped, nn_reorder_rsample r h s la full = Some (r', h', out) /\
    reord q (q + 1) (ro_sc s) r h r' h' out dropped /\ answers r q full out.
Proof.
  intros Hok Hwf Hmode Hs Hcov. unfold nn_reorder_rsample, nn_reorder_rsample_build, answers.
  destruct (sample_in_good q s Hs) as (Gs & Hmin & Hmax & Hsing & Hlen).
  rewrite Hsing. cbn [mbind option_bind]. rewrite (asserts_hold r Hok). cbn [negb andb].
  rewrite Hmin, Hmode. rewrite !bool_decide_eq_false_2 by done. rewrite andb_false_r, !orb_false_r.
  pose proof (rk_tree _ Hok) as [Hw Ho Hmx Hnx]. pose proof (rk_lim _ Hok) as Hlim.
  destruct (Z.eqb_spec q (rr_next_seq r)) as [Heq|Hne].
  { destruct (Z.ltb_spec q (rr_next_seq r)); [lia|]. destruct full.
    - eexists _, _, _, []. split; [done|]. split; [by apply unchanged_spec|done].
    - destruct (deliver_spec r h s q Hok Hwf Hs) as (r' & out & E & Hre & Hpos); [done|].
      eexists _, _, _, []. split; [exact E|]. by split. }
  destruct (Z.ltb_spec q (rr_next_seq r)) as [Hlt|Hge].
  { eexists _, _, _, []. split; [done|]. split; [by apply unchanged_spec|done]. }
  rewrite ot_is_empty_spec. fold (rivs r). destruct (rivs r) as [|a l'] eqn:Er.
  - assert (Hn0 : rr_n_samples r = 0) by (pose proof (rk_n _ Hok) as Hn; by rewrite Er in Hn).
    rewrite Hn0. cbn [Z.eqb negb]. destruct (Z.eqb_spec (rr_max_samples r) 0) as [H0|H0].
    + eexists _, _, _, []. split; [done|]. split; [by apply unchanged_spec|].
      left. split; [done|]. right. right. lia.
    + destruct (add_last_spec r s Hok Gs) as (t & E & Hst); [lia|rewrite Er; constructor|].
      rewrite E. cbn [mbind option_bind]. eexists _, _, _, []. split; [done|].
      rewrite Hmin, Hmax in Hst. split; [|right; split; [done|]; split; [done|]; by intros Hc%rcov_nil].
      apply (stored_accept r h s q); auto. lia.
  - destruct (last (a :: l')) as [mx|] eqn:Em; [|by apply last_None in Em].
    pose proof Em as [l El]%last_Some. rewrite Hmx. cbn [option_map mbind option_bind].
    rewrite El in *. rewrite (ot_lookup_spec _ _ _ Hw). fold (rivs r). rewrite Er.
    rewrite l_lookup_mid by (by apply ro_ok_sorted). cbn [mbind option_bind].
    pose proof (last_is_end l mx Ho) as Hend. rewrite Z.gtb_ltb.
    assert (Hrej : full = true \/ rr_n_samples r = rr_max_samples r -> exists r' h' out dropped,
      Some (r, h, (@nil rsample_chain_elem, 0, NN_REORDER_REJECT)) = Some (r', h', out) /\
      reord q (q + 1) (ro_sc s) r h r' h' out dropped /\
      (out.2 = NN_REORDER_REJECT /\ refusable r q full \/
       out.2 = NN_REORDER_ACCEPT /\ out.1.2 = 1 /\ ~ rcov (l ++ [mx]) q)).
    { intros Hx. eexists _, _, _, []. split; [done|]. split; [by apply unchanged_spec|].
      left. split; [done|]. right. tauto. }
    destruct (Z.eqb_spec q (ro_maxp1 mx)) as [Heq|Hneq]; [|destruct (Z.ltb_spec (ro_maxp1 mx) q)].
    + destruct full; [apply Hrej; tauto|].
      destruct (Z.ltb_spec (rr_n_samples r) (rr_max_samples r)); [|apply Hrej; lia].
      eexists _, _, _, []. split; [done|]. split; [|right; split; [done|]; split; [done|]].
      * apply (stored_accept r h s q); auto. by apply (append_last_spec r s q l mx).
      * apply not_covered. by rewrite Heq.
    + destruct full; [apply Hrej; tauto|].
      destruct (Z.ltb_spec (rr_n_samples r) (rr_max_samples r)); [|apply Hrej; lia].
      destruct (add_last_spec r s Hok Gs) as (t & E & Hst); [lia| |].
      { rewrite Er, Hmin. eapply Forall_impl; [exact Hend|]. simpl. lia. }
      rewrite E. cbn [mbind option_bind]. eexists _, _, _, []. split; [done|].
      rewrite Hmin, Hmax in Hst. split; [|right; split; [done|]; split; [done|]].
      * apply (stored_accept r h s q); auto.
      * apply not_covered. eapply Forall_impl; [exact Hend|]. simpl. lia.
    + destruct (hard_spec r h s q l mx la full) as (r' & h' & out & dr & E & Hre & Hans); auto; [lia|lia|..].
      { by rewrite Er. }
      rewrite E. rewrite Er in Hans. eauto 10.
Qed.

(** Before the end of the last interval, beyond the next expected number. *)
Lemma rsample_is_hard r h s q l mx la full :
  reorder_ok r -> rr_mode r = NN_REORDER_MODE_NORMAL -> sample_in q s -> rr_next_seq r < q ->
  rivs r = l ++ [mx] -> q < ro_maxp1 mx ->
  nn_reorder_rsample r h s la full = reorder_hard_case true r h s la full.
Proof.
  intros Hok Hmode Hs Hlt El Hq. unfold nn_reorder_rsample, nn_reorder_rsample_build.
  destruct (sample_in_good q s Hs) as (_ & Hmin & Hmax & Hsing & _).
  rewrite Hsing. cbn [mbind option_bind]. rewrite (asserts_hold r Hok). cbn [negb andb].
  rewrite Hmin, Hmode. rewrite !bool_decide_eq_false_2 by done. rewrite andb_false_r, !orb_false_r.
  pose proof (rk_tree _ Hok) as [Hw Ho Hmx _].
  destruct (Z.eqb_spec q (rr_next_seq r)); [lia|]. destruct (Z.ltb_spec q (rr_next_seq r)); [lia|].
  rewrite ot_is_empty_spec. fold (rivs r). rewrite Hmx, El, last_snoc.
  replace (match l ++ [mx] with [] => true | _ :: _ => false end) with false by (by destruct l).
  cbn [option_map mbind option_bind]. rewrite (ot_lookup_spec _ _ _ Hw). fold (rivs r). rewrite El in Ho |- *.
  rewrite l_lookup_mid by (by apply ro_ok_sorted). cbn [mbind option_bind].
  rewrite Z.gtb_ltb. destruct (Z.eqb_spec q (ro_maxp1 mx)); [lia|]. by destruct (Z.ltb_spec (ro_maxp1 mx) q); [lia|].
Qed.

(** A sample with a known number beyond the next expected one is rejected. *)
Lemma rsample_known r h s q la full :
  reorder_ok r -> rr_mode r = NN_REORDER_MODE_NORMAL -> sample_in q s -> rcov (rivs r) q ->
  nn_reorder_rsample r h s la full = Some (r, h, ([], 0, NN_REORDER_REJECT)).
Proof.
  intros Hok Hmode Hs Hq. destruct (sample_in_good q s Hs) as (_ & Hmin & _).
  pose proof (rk_tree _ Hok) as [_ Ho _ Hnx].
  destruct (last (rivs r)) as [mx|] eqn:Em; [|apply last_None in Em; rewrite Em in Hq; by apply rcov_nil in Hq].
  pose proof Em as [l El]%last_Some. pose proof Hq as (iv & Hi & Hr). rewrite El in Ho.
  pose proof (last_is_end l mx Ho) as Hend. rewrite <- El, Forall_forall in Hend. rewrite Forall_forall in Hnx.
  specialize (Hend iv Hi). specialize (Hnx iv Hi). simpl in Hend, Hnx.
  rewrite (rsample_is_hard r h s q l mx) by (done || lia).
  unfold reorder_hard_case. destruct (la && full); [done|]. rewrite Hmin.
  pose proof (hard_store_spec r s q l mx Hok Hs ltac:(lia) El ltac:(lia)) as Hst. cbv zeta in Hst.
  destruct (match ot_lookup_predeq _ _ _ with Some _ => _ | None => _ end); [done|]. by destruct Hst as [[] _].
Qed.

(** Around a number that no interval contains or touches. *)
Lemma apart_split r x :
  reorder_ok r -> (forall y, x - 1 <= y <= x + 1 -> ~ rcov (rivs r) y) ->
  exists l1 l2, rivs r = l1 ++ l2 /\ Forall (fun y => ro_maxp1 y < x) l1 /\ Forall (fun y => x + 1 < ro_min y) l2 /\
    match ot_lookup_predeq ro_min (rr_sampleivtree r) x with Some p => ro_maxp1 p < x | None => True end /\
    ot_lookup ro_min (rr_sampleivtree r) (x + 1) = None.
Proof.
  intros Hok Hn. pose proof (rk_tree _ Hok) as [Hw Ho _ _]. pose proof (ro_ok_sorted _ Ho) as Hso.
  assert (Hg : forall y, y ∈ rivs r -> ro_min y < ro_maxp1 y).
  { intros y Hy. by apply (rgood_range y), (proj1 (Forall_forall _ _) (proj2 Ho)). }
  assert (Hc : forall y, y ∈ rivs r -> ro_maxp1 y < x \/ x + 1 < ro_min y).
  { intros y Hy. pose proof (Hg y Hy).
    destruct (Z.lt_ge_cases (ro_maxp1 y) x); [by left|]. destruct (Z.lt_ge_cases (x + 1) (ro_min y)); [by right|].
    destruct (Hn (Z.max (x - 1) (ro_min y))); [lia|]. exists y. split; [done|lia]. }
  assert (Hl : ot_lookup ro_min (rr_sampleivtree r) (x + 1) = None).
  { rewrite (ot_lookup_spec _ _ _ Hw). fold (rivs r). apply l_lookup_None, Forall_forall. intros y Hy Hx.
    pose proof (Hg y Hy). destruct (Hc y Hy); lia. }
  rewrite (ot_lookup_predeq_spec _ _ _ Hw). fold (rivs r).
  destruct (l_predeq ro_min x (rivs r)) as [p|] eqn:Ep.
  - destruct (l_predeq_Some _ _ _ _ Hso Ep) as (l1 & l2 & Er & Hp & Hl2).
    assert (Hpx : ro_maxp1 p < x) by (destruct (Hc p); [rewrite Er; set_solver|done|lia]).
    exists (l1 ++ [p]), l2. split; [by rewrite <- app_assoc|]. rewrite !Forall_forall in *.
    rewrite Er in Ho. apply ro_ok_mid in Ho as (_ & _ & Gp & S1 & _). pose proof (rgood_range _ Gp).
    rewrite Forall_forall in S1. split_and!; [|intros y Hy; specialize (Hl2 y Hy); simpl in Hl2|done..].
    + intros y [Hy| ->%list_elem_of_singleton]%elem_of_app; [|done]. specialize (S1 y Hy). unfold rsep in S1. simpl in *. lia.
    + assert (Hy' : y ∈ rivs r) by (rewrite Er; set_solver). pose proof (Hg y Hy'). destruct (Hc y Hy'); [lia|done].
  - apply l_predeq_None in Ep; [|done]. exists [], (rivs r). split_and!; [done|constructor| |done..].
    rewrite Forall_forall in *. intros y Hy. specialize (Ep y Hy). simpl in Ep.
    pose proof (Hg y Hy). destruct (Hc y Hy); [lia|done].
Qed.

(** A sample apart from all intervals, stored in a full administration
    before the last one: an interval of its own, and one off the end. *)
Lemma full_apart_spec r h s x z la :
  reorder_ok r -> rc_wf h -> rr_mode r = NN_REORDER_MODE_NORMAL -> sample_in x s ->
  sc_cover h (elems (rivs r) ++ ro_sc s) -> rr_n_samples r = rr_max_samples r -> rr_next_seq r < x ->
  (forall y, x - 1 <= y <= x + 1 -> ~ rcov (rivs r) y) -> last (rivs r) = Some z -> x < ro_min z ->
  exists r1 r2 h2 e,
    nn_reorder_rsample r h s la false = Some (r2, h2, ([], 1, NN_REORDER_ACCEPT)) /\
    reord x (x + 1) (ro_sc s) r h r2 h2 ([], 1, NN_REORDER_ACCEPT) [e] /\
    delete_last_sample true r1 h = Some (r2, h2) /\ stored x (x + 1) (ro_sc s) r r1 /\ last (rivs r1) = Some z.
Proof.
  intros Hok Hwf Hmode Hs Hcov Hfull Hlt Hap Ez Hxz.
  destruct (apart_split r x Hok Hap) as (l1 & l2 & Er & H1 & H2 & Hp & Hi).
  destruct (sample_in_good x s Hs) as (Gs & Hmin & Hmax & _ & Hlen).
  pose proof (rk_tree _ Hok) as [_ Ho _ _]. pose proof (rk_lim _ Hok). pose proof (rk_n _ Hok) as Hn.
  pose proof Ez as [l El]%last_Some.
  assert (Hz2 : last l2 = Some z).
  { rewrite Er, last_app in Ez. destruct (last l2); [done|]. apply last_Some in Ez as [l' El'].
    pose proof (rgood_range z). destruct Ho as [_ Hg]. rewrite Er, El' in Hg. apply Forall_app in Hg as [Hg _].
    apply Forall_app in Hg as [_ Gz]. apply Forall_cons in Gz as [Gz _]. pose proof (rgood_range _ Gz).
    rewrite El' in H1. apply Forall_app in H1 as [_ H1]. apply Forall_cons in H1 as [H1 _]. simpl in H1. lia. }
  destruct (store_head_spec r s x l1 l2 Hok Hs Hlt Er) as (r1 & E1 & Hst); auto.
  { eapply Forall_impl; [exact H1|]. simpl. lia. }
  { eapply Forall_impl; [exact H2|]. simpl. lia. }
  { intros ->. done. }
  assert (Hpos : 0 < rr_n_samples r).
  { rewrite Hn, El, elems_app, elems_cons, !length_app. rewrite El in Ho. apply ro_ok_mid in Ho as (_ & _ & Gz & _).
    pose proof (rgood_range _ Gz). pose proof (rg_n _ Gz). lia. }
  destruct (stored_full x (x + 1) (ro_sc s) r r1 h) as (r2 & h2 & e & E2 & Hre); auto.
  { exists z. split; [rewrite El; set_solver|lia]. }
  rewrite Hi in E1. cbn [reorder_store_head] in E1.
  destruct (add_apart r s l1 l2 (rk_tree _ Hok) Er Gs) as (t & Et & _ & He & _).
  { eapply Forall_impl; [exact H1|]. unfold rsep. simpl. lia. }
  { eapply Forall_impl; [exact H2|]. unfold rsep. simpl. lia. }
  rewrite Et in E1. injection E1 as <-.
  exists (set_tree r t), r2, h2, e. split_and!; auto.
  2:{ unfold rivs. simpl. rewrite He, last_app, last_cons. by rewrite Hz2. }
  rewrite El in Ho. apply ro_ok_mid in Ho as (_ & _ & Gz & _). pose proof (rgood_range _ Gz).
  rewrite (rsample_is_hard r h s x l z) by (done || lia).
  unfold reorder_hard_case. rewrite andb_false_r, Hmin, Hmax, Hi. unfold reorder_store, reorder_store_head. rewrite Hmin, Et.
  assert (Hpq : forall p, ot_lookup_predeq ro_min (rr_sampleivtree r) x = Some p ->
    (x >=? ro_min p) && (x <? ro_maxp1 p) = false /\ (x =? ro_maxp1 p) = false).
  { intros p Ep. rewrite Ep in Hp. split; [rewrite andb_false_iff; right|]; zcases. }
  assert (Hlim : (rr_n_samples (set_tree r t) <? rr_max_samples (set_tree r t)) = false) by (simpl; zcases).
  destruct (ot_lookup_predeq ro_min (rr_sampleivtree r) x) as [p|]; [destruct (Hpq p eq_refl) as [-> ->]|];
    cbn [mbind option_bind]; by rewrite Hlim, E2.
Qed.

(** In the other modes nothing is ever stored. *)
Lemma rsample_modes_spec r h s q la full :
  reorder_ok r -> rr_mode r <> NN_REORDER_MODE_NORMAL -> sample_in q s ->
  nn_reorder_rsample r h s la full =
    Some (if bool_decide (rr_mode r = NN_REORDER_MODE_MONOTONICALLY_INCREASING) && (q <? rr_next_seq r)
          then (r, h, ([], 0, NN_REORDER_TOO_OLD))
          else if full then (r, h, ([], 0, NN_REORDER_REJECT))
          else (set_next_seq r (q + 1), h, (ro_sc s, 1, 1))).
Proof.
  intros Hok Hmode Hs. unfold nn_reorder_rsample, nn_reorder_rsample_build.
  destruct (sample_in_good q s Hs) as (Gs & Hmin & Hmax & Hsing & Hlen).
  pose proof (rg_n _ Gs) as Hn. rewrite Hlen in Hn. pose proof (rk_mode _ Hok Hmode) as He.
  rewrite Hsing. cbn [mbind option_bind]. rewrite (asserts_hold r Hok). cbn [negb andb].
  assert (Hdel : reorder_deliver true r h s = Some (set_next_seq r (q + 1), h, (ro_sc s, 1, 1))).
  { unfold reorder_deliver. rewrite (tk_max _ (rk_tree _ Hok)), He. simpl.
    assert (Hn0 : rr_n_samples r = 0) by (rewrite (rk_n _ Hok), He; done).
    rewrite Hn0, Hmin, Hmax, Hn. zcases. unfold set_n_samples, set_next_seq. simpl.
    change (wrap_u 32 (0 - (1 - 1))) with 0. by rewrite Hn0. }
  rewrite Hdel, Hmin. destruct (rr_mode r); [done|..]; simpl;
    [|rewrite orb_true_r; by destruct full].
  rewrite Z.gtb_ltb, andb_true_r, orb_false_r.
  destruct (Z.eqb_spec q (rr_next_seq r)), (Z.ltb_spec (rr_next_seq r) q), (Z.ltb_spec q (rr_next_seq r));
    try lia; simpl; by destruct full.
Qed.

Lemma reset_max_id r : tree_ok r -> reset_max r = r.
Proof.
  intros [_ _ Hm _]. unfold reset_max, set_max. rewrite ot_find_max_spec. fold (rivs r).
  rewrite <- Hm. by destruct r.
Qed.
End Props.
