(* ===== verification/ReorderGap.v ===== *)
(** * Gaps in the reorder administration

    [nn_reorder_gap] merges the intervals that touch the range of a GAP
    message, delivers what the gap releases, or stores the gap. *)

From Stdlib Require Import ZArith Lia Sorting.Sorted.
From stdpp Require Import prelude.
From S2P Require Import Prelude OrdTree Bitset Refs Defrag DefragOps Reorder ReorderFacts ReorderOps ReorderProps.

(** The intervals of [m] appended one after the other. *)
Definition joined (x : rsample_reorder) (m : list rsample_reorder) : rsample_reorder :=
  fold_left append_rsample_interval m x.

Lemma joined_sc m : forall x, ro_sc (joined x m) = ro_sc x ++ elems m /\ ro_min (joined x m) = ro_min x.
Proof.
  induction m as [|y m IH]; intros x; simpl; [by rewrite app_nil_r|].
  destruct (IH (append_rsample_interval x y)) as [E1 E2]. unfold joined in *. rewrite E1, E2.
  split; [|done]. simpl. by rewrite elems_cons, app_assoc.
Qed.

(** Intervals short enough for their counters. *)
Definition short (l : list rsample_reorder) : Prop := Z.of_nat (length (elems l)) < 2 ^ 32.

Lemma joined_step x y m :
  ro_ok (x :: y :: m) -> short (x :: y :: m) ->
  ro_ok (append_rsample_interval x y :: m) /\ short (append_rsample_interval x y :: m) /\
  ro_maxp1 x < ro_min y /\ rgood x /\ rgood y.
Proof.
  unfold short. intros Ho Hl. rewrite !elems_cons, !length_app in Hl.
  change (x :: y :: m) with (([] ++ [x]) ++ y :: m) in Ho. rewrite ro_ok_app in Ho.
  destruct Ho as (Ox & Oy & Sxy). apply Forall_cons in Sxy as [Sx _]. apply Forall_cons in Sx as [Sx _].
  unfold rsep in Sx. split; [|split; [|split; [done|]]].
  - apply (ro_ok_glue [] x y m); auto; [lia|]. rewrite length_app. lia.
  - rewrite elems_cons. simpl. rewrite !length_app. lia.
  - destruct Ox as [_ Gx], Oy as [_ Gy]. split; [by apply Forall_cons in Gx as [? _]|by apply Forall_cons in Gy as [? _]].
Qed.

Lemma joined_good m : forall x, ro_ok (x :: m) -> short (x :: m) -> rgood (joined x m).
Proof.
  induction m as [|y m IH]; intros x Ho Hl.
  - destruct Ho as [_ Hg]. by apply Forall_cons in Hg as [Hg _].
  - change (joined x (y :: m)) with (joined (append_rsample_interval x y) m).
    destruct (joined_step x y m Ho Hl) as (Ho' & Hl' & _). auto.
Qed.

(** Joining intervals that all touch [lo, hi) fills no more than that range. *)
Lemma joined_cov lo hi z m : forall x,
  ro_ok (x :: m) -> short (x :: m) -> lo <= ro_maxp1 x -> Forall (fun y => ro_min y <= hi) m ->
  (rcov (x :: m) z -> ro_min x <= z < ro_maxp1 (joined x m)) /\
  (ro_min x <= z < ro_maxp1 (joined x m) -> rcov (x :: m) z \/ lo <= z < hi) /\
  lo <= ro_maxp1 (joined x m).
Proof.
  induction m as [|y m IH]; intros x Ho Hl Hx Hm.
  - rewrite rcov_cons, rcov_nil. simpl. split; [|split]; [tauto|tauto|done].
  - destruct (joined_step x y m Ho Hl) as (Ho' & Hl' & Hxy & Gx & Gy).
    apply rgood_range in Gx, Gy. apply Forall_cons in Hm as [Hy Hm].
    destruct (IH (append_rsample_interval x y) Ho' Hl') as (I1 & I2 & I3); [simpl; lia|done|].
    change (joined x (y :: m)) with (joined (append_rsample_interval x y) m).
    rewrite !rcov_cons in *. simpl in I1, I2.
    split; [intros [|[|]]; apply I1; [left; lia|left; lia|tauto]|].
    split; [|done]. intros Hz. destruct (I2 Hz) as [[Hr|]|]; [|tauto|tauto].
    destruct (Z.lt_ge_cases z (ro_maxp1 x)); [left; left; lia|].
    destruct (Z.lt_ge_cases z (ro_min y)); [right; lia|left; right; left; lia].
Qed.

(** A list splits in one way into a part that satisfies [P] and one that does not. *)
Lemma split_unique {A : Type} (P : A -> Prop) (a b c d : list A) :
  a ++ b = c ++ d -> Forall P a -> Forall P c -> Forall (fun x => ~ P x) b -> Forall (fun x => ~ P x) d ->
  a = c /\ b = d.
Proof.
  revert c. induction a as [|x a IH]; intros c He Ha Hc Hb Hd; destruct c as [|y c]; simpl in He.
  - done.
  - subst b. apply Forall_cons in Hb as [Hb _]. by apply Forall_cons in Hc as [? _].
  - subst d. apply Forall_cons in Hd as [Hd _]. by apply Forall_cons in Ha as [? _].
  - simplify_eq. apply Forall_cons in Ha as [_ Ha], Hc as [_ Hc].
    destruct (IH c) as [-> ->]; auto.
Qed.

(** The intervals before, touching and after a range. *)
Lemma touch_split lo hi l :
  ro_ok l -> lo <= hi ->
  exists l1 m l2, l = l1 ++ m ++ l2 /\ Forall (fun y => ro_maxp1 y < lo) l1 /\
    Forall (fun y => lo <= ro_maxp1 y /\ ro_min y <= hi) m /\ Forall (fun y => hi < ro_min y) l2.
Proof.
  intros Ho Hlh. induction l as [|x l IH]; [by exists [], [], []|].
  change (x :: l) with ([] ++ x :: l) in Ho.
  apply ro_ok_mid in Ho as (_ & Ol & Gx & _ & Sx & _). pose proof (rgood_range _ Gx) as Hx.
  destruct (IH Ol) as (l1 & m & l2 & -> & H1 & Hm & H2).
  destruct (Z.lt_ge_cases (ro_maxp1 x) lo) as [Hlt|Hge].
  { exists (x :: l1), m, l2. split; [done|]. split; [by constructor|done]. }
  destruct l1 as [|y l1].
  2:{ apply Forall_cons in Sx as [Sx _]. apply Forall_cons in H1 as [H1 _]. unfold rsep in Sx.
      destruct Ol as [_ Gy]. apply Forall_cons in Gy as [Gy _]. apply rgood_range in Gy. lia. }
  destruct (Z.le_gt_cases (ro_min x) hi) as [Hle|Hgt].
  - exists [], (x :: m), l2. split; [done|]. split; [constructor|]. split; [|done]. by constructor.
  - destruct m as [|y m].
    + exists [], [], (x :: l2). split; [done|]. split; [constructor|]. split; [constructor|]. by constructor.
    + apply Forall_cons in Sx as [Sx _]. apply Forall_cons in Hm as [Hm _]. unfold rsep in Sx. lia.
Qed.

Section Gap.
Context {T : Type -> Type} `{!OrdTree T, !OrdTreeLaws T}.
Context {H : Type} `{!RmsgRefs H, !RmsgRefsLaws H}.
Implicit Types (r : nn_reorder T) (t : T rsample_reorder) (s : rsample_reorder) (h : H).

Lemma coalesce_loop_spec hi x l1 l2 m : forall fuel t s v,
  ot_wf ro_min t -> ot_elements t = l1 ++ x :: m ++ l2 -> (length m <= fuel)%nat ->
  Forall (fun y => ro_min y <= hi) m -> Forall (fun y => hi < ro_min y) l2 ->
  exists t', coalesce_loop fuel t s (ro_min x) hi v =
               Some (t', joined s m, v || match m with [] => false | _ => true end) /\
    ot_wf ro_min t' /\ ot_elements t' = l1 ++ x :: l2.
Proof.
  induction m as [|y m IH]; intros fuel t s v Hw He Hf Hm Hl2.
  - exists t. split; [|done]. destruct fuel; simpl; rewrite (ot_find_succ_spec ro_min t l1 x l2 Hw He), orb_false_r;
      (destruct l2 as [|u l2]; [done|]; simpl; apply Forall_cons in Hl2 as [Hu _];
       destruct (Z.leb_spec (ro_min u) hi); [lia|done]).
  - destruct fuel as [|fuel]; [simpl in Hf; lia|]. simpl in Hf. apply Forall_cons in Hm as [Hy Hm].
    simpl. rewrite (ot_find_succ_spec ro_min t l1 x (y :: m ++ l2) Hw He). simpl.
    destruct (Z.leb_spec (ro_min y) hi); [|lia].
    destruct (ot_delete_spec ro_min t (ro_min y) Hw) as [Hw1 He1].
    pose proof (ot_wf_sorted _ _ Hw) as Hso. rewrite He in He1, Hso.
    replace (l1 ++ x :: (y :: m) ++ l2) with ((l1 ++ [x]) ++ y :: (m ++ l2)) in He1, Hso
      by (by rewrite <- app_assoc).
    rewrite l_delete_mid, <- app_assoc in He1 by done.
    destruct (IH fuel _ (append_rsample_interval s y) true Hw1 He1) as (t' & E & Hw' & He');
      [lia|done|done|]. exists t'. rewrite orb_true_r. by rewrite E.
Qed.

(** The first interval that touches the range. *)
Lemma coalesce_first_spec lo hi t l1 m l2 :
  ot_wf ro_min t -> ro_ok (ot_elements t) -> lo < hi -> ot_elements t = l1 ++ m ++ l2 ->
  Forall (fun y => ro_maxp1 y < lo) l1 ->
  Forall (fun y => lo <= ro_maxp1 y /\ ro_min y <= hi) m -> Forall (fun y => hi < ro_min y) l2 ->
  match ot_lookup_predeq ro_min t lo with
  | Some p =>
      if ro_maxp1 p >=? lo then Some p
      else match ot_find_succ ro_min t (ro_min p) with
           | Some u => if ro_min u <=? hi then Some u else None
           | None => None
           end
  | None =>
      match ot_find_min t with
      | Some u => if ro_min u <=? hi then Some u else None
      | None => None
      end
  end = head m.
Proof.
  intros Hw Ho Hlh He H1 Hm H2.
  assert (Hhd : match head (m ++ l2) with
                | Some u => if ro_min u <=? hi then Some u else None | None => None end = head m).
  { destruct m as [|u m]; simpl.
    - destruct l2 as [|u l2]; [done|]. simpl. apply Forall_cons in H2 as [Hu _].
      destruct (Z.leb_spec (ro_min u) hi); [lia|done].
    - apply Forall_cons in Hm as [Hu _]. destruct (Z.leb_spec (ro_min u) hi); [done|lia]. }
  pose proof (ro_ok_sorted _ Ho) as Hso. rewrite (ot_lookup_predeq_spec _ _ _ Hw).
  destruct (l_predeq ro_min lo (ot_elements t)) as [p|] eqn:Ep.
  - destruct (l_predeq_Some _ _ _ _ Hso Ep) as (a & b & Eab & Hp & Hb).
    pose proof Ho as Ho'. rewrite Eab in Ho'. apply ro_ok_mid in Ho' as (_ & _ & Gp & Sa & _).
    apply rgood_range in Gp. rewrite Z.geb_leb. destruct (Z.leb_spec lo (ro_maxp1 p)) as [Ht|Ht].
    + assert (Hin : p ∈ l1 ++ m ++ l2) by (rewrite <- He, Eab; set_solver).
      rewrite !elem_of_app in Hin. rewrite Forall_forall in H1, H2.
      destruct Hin as [Hin|[Hin|Hin]]; [specialize (H1 p Hin); simpl in H1; lia| |specialize (H2 p Hin); simpl in H2; lia].
      destruct m as [|x m]; [by apply elem_of_nil in Hin|]. simpl.
      apply elem_of_cons in Hin as [->|Hin]; [done|]. apply Forall_cons in Hm as [Hx _].
      rewrite He in Ho. apply ro_ok_app in Ho as (_ & Ho & _). simpl in Ho.
      change (x :: m ++ l2) with ([] ++ x :: m ++ l2) in Ho.
      apply ro_ok_mid in Ho as (_ & _ & _ & _ & Sx & _). rewrite Forall_forall in Sx.
      specialize (Sx p). unfold rsep in Sx. rewrite elem_of_app in Sx. specialize (Sx (or_introl Hin)). lia.
    + rewrite (ot_find_succ_spec ro_min t a p b Hw Eab).
      destruct (split_unique (fun y => ro_maxp1 y < lo) l1 (m ++ l2) (a ++ [p]) b) as [_ <-]; auto.
      * rewrite <- He, Eab. by rewrite <- app_assoc.
      * apply Forall_app. split; [eapply Forall_impl; [exact Sa|]; unfold rsep; simpl; lia|by repeat constructor].
      * rewrite He in Ho. destruct Ho as [_ Hg]. rewrite !Forall_app in Hg. destruct Hg as (_ & Gm & Gl).
        apply Forall_app. split; [eapply Forall_impl; [exact Hm|]; simpl; lia|].
        rewrite Forall_forall in *. intros y Hy. pose proof (rgood_range _ (Gl y Hy)). specialize (H2 y Hy). simpl in H2. lia.
      * destruct Ho as [_ Hg]. rewrite Eab, Forall_app, Forall_cons in Hg. destruct Hg as (_ & _ & Gb).
        rewrite Forall_forall in *. intros y Hy. pose proof (rgood_range _ (Gb y Hy)). specialize (Hb y Hy). simpl in Hb. lia.
  - apply l_predeq_None in Ep; [|done]. rewrite ot_find_min_spec, He.
    destruct l1 as [|y l1]; [done|]. rewrite He in Ep, Ho. apply Forall_cons in Ep as [Ep _].
    apply Forall_cons in H1 as [H1 _]. destruct Ho as [_ Gy]. apply Forall_cons in Gy as [Gy _].
    apply rgood_range in Gy. lia.
Qed.

(** The interval that the touched intervals and the range become. *)
Definition merged (lo hi : Z) (x : rsample_reorder) (m : list rsample_reorder) : rsample_reorder :=
  let j := joined x m in
  RsampleReorder (ro_sc j) (if lo <? ro_min j then lo else ro_min j)
    (if hi >? ro_maxp1 j then hi else ro_maxp1 j) (ro_n_samples j).

Lemma merged_facts lo hi l1 x m l2 :
  ro_ok (l1 ++ (x :: m) ++ l2) -> short (x :: m) -> lo < hi ->
  Forall (fun y => ro_maxp1 y < lo) l1 ->
  Forall (fun y => lo <= ro_maxp1 y /\ ro_min y <= hi) (x :: m) -> Forall (fun y => hi < ro_min y) l2 ->
  ro_ok (l1 ++ merged lo hi x m :: l2) /\ ro_sc (merged lo hi x m) = elems (x :: m) /\
  (forall z, ro_min (merged lo hi x m) <= z < ro_maxp1 (merged lo hi x m) <->
             rcov (x :: m) z \/ lo <= z < hi).
Proof.
  intros Ho Hs Hlh H1 Hm H2. apply ro_ok_app in Ho as (O1 & Ho & S1). apply ro_ok_app in Ho as (Om & O2 & S2).
  pose proof (joined_good m x Om Hs) as Gj. pose proof (rgood_range _ Gj) as Hj.
  destruct (joined_sc m x) as [Jsc Jmin]. apply Forall_cons in Hm as [[Hx1 Hx2] Hm].
  assert (Hm' : Forall (fun y => ro_min y <= hi) m) by (eapply Forall_impl; [exact Hm|]; simpl; lia).
  assert (Hmin : ro_min (merged lo hi x m) = Z.min lo (ro_min x)) by (simpl; rewrite Jmin; zcases).
  assert (Hmax : ro_maxp1 (merged lo hi x m) = Z.max hi (ro_maxp1 (joined x m))) by (simpl; zcases).
  split; [|split].
  - apply ro_ok_mid. split; [done|]. split; [done|]. split; [|split; [|split]].
    + destruct Gj as [Gn Gne Gf]. split; [done|done|]. rewrite Hmin, Hmax.
      eapply fits_weaken; [exact Gf|rewrite Jmin; lia|lia].
    + rewrite Forall_forall in H1, S1 |- *. intros y Hy. specialize (H1 y Hy). specialize (S1 y Hy).
      apply Forall_cons in S1 as [S1 _]. unfold rsep in *. simpl in H1. rewrite Hmin. lia.
    + destruct (joined_cov lo hi (ro_maxp1 (joined x m) - 1) m x Om Hs Hx1 Hm') as (_ & J2 & _).
      rewrite Forall_forall in H2 |- *. intros y Hy. specialize (H2 y Hy). simpl in H2. unfold rsep.
      rewrite Hmax. destruct J2 as [(z & Hz & Hr)|Hr]; [lia| |lia].
      rewrite Forall_forall in S2. specialize (S2 z Hz). rewrite Forall_forall in S2. specialize (S2 y Hy).
      unfold rsep in S2. lia.
    + eapply Forall_impl; [exact S1|]. simpl. intros y Hy.
      apply Forall_cons in Hy as [_ Hy]. by apply Forall_app in Hy as [_ Hy].
  - simpl. by rewrite Jsc, elems_cons.
  - intros z. destruct (joined_cov lo hi z m x Om Hs Hx1 Hm') as (J1 & J2 & J3). rewrite Hmin, Hmax.
    rewrite Jmin in Hj. split.
    + intros Hz. destruct (Z.lt_ge_cases z (ro_min x)); [right; lia|].
      destruct (Z.lt_ge_cases z (ro_maxp1 (joined x m))); [apply J2; lia|right; lia].
    + intros [Hz|Hz]; [apply J1 in Hz; lia|lia].
Qed.

Lemma coalesce_spec lo hi t l1 m l2 :
  ot_wf ro_min t -> ro_ok (ot_elements t) -> short (ot_elements t) -> lo < hi ->
  ot_elements t = l1 ++ m ++ l2 ->
  Forall (fun y => ro_maxp1 y < lo) l1 ->
  Forall (fun y => lo <= ro_maxp1 y /\ ro_min y <= hi) m -> Forall (fun y => hi < ro_min y) l2 ->
  match m with
  | [] => coalesce_intervals_touching_range t lo hi = Some (t, None, false)
  | x :: m' => exists t' valuable,
      coalesce_intervals_touching_range t lo hi = Some (t', Some (merged lo hi x m'), valuable) /\
      ot_wf ro_min t' /\ ot_elements t' = l1 ++ merged lo hi x m' :: l2 /\
      (valuable = false -> m' = [] /\ ro_min x <= lo /\ hi <= ro_maxp1 x)
  end.
Proof.
  intros Hw Ho Hs Hlh He H1 Hm H2. unfold coalesce_intervals_touching_range.
  rewrite (coalesce_first_spec lo hi t l1 m l2) by done. destruct m as [|x m]; [done|]. cbn [head].
  pose proof Ho as Ho'. rewrite He in Ho'.
  assert (Hsx : short (x :: m)).
  { unfold short in *. rewrite He, !elems_app, !length_app in Hs. lia. }
  assert (Gx : rgood x).
  { destruct Ho' as [_ Hg]. rewrite !Forall_app, Forall_cons in Hg. tauto. }
  pose proof (rgood_range _ Gx) as Hrx.
  destruct (Z.leb_spec (ro_min x + ro_n_samples x) (ro_maxp1 x)); [|lia]. cbn [negb].
  destruct (coalesce_loop_spec hi x l1 l2 m (length (ot_elements t)) t x false Hw) as (t1 & E & Hw1 & He1); auto.
  { rewrite He, !length_app. simpl. lia. }
  { apply Forall_cons in Hm as [_ Hm]. eapply Forall_impl; [exact Hm|]. simpl. lia. }
  rewrite E. destruct (merged_facts lo hi l1 x m l2) as (Om & _); auto.
  destruct (ot_replace_spec ro_min t1 l1 x (merged lo hi x m) l2 Hw1 He1) as [Hw2 He2]; [by apply ro_ok_sorted|].
  eexists _, _. split; [done|]. split; [done|]. split; [done|].
  intros [[Hv1 Hv2]%orb_false_iff Hv3]%orb_false_iff. destruct m as [|y m]; [|done].
  split; [done|]. simpl in Hv2, Hv3. zcases.
Qed.

(** ** The range does not touch an interval *)

Definition gap_news (rd : rdata) : list rsample_chain_elem := [ChainElem [rd] None].

Lemma gap_good rd lo hi : lo < hi -> rgood (gap_interval rd lo hi).
Proof. intros Hl. split; simpl; [done|done|]. exists lo. split; [lia|]. split; [done|lia]. Qed.

(** A gap at the next expected number moves it. *)
Lemma gap_advance_spec r h rd lo hi :
  reorder_ok r -> rc_wf h -> lo <= rr_next_seq r < hi ->
  Forall (fun y => hi < ro_min y) (rivs r) ->
  reord lo hi (gap_news rd) r h (reset_max (set_next_seq r hi)) h ([], 0, NN_REORDER_ACCEPT) [].
Proof.
  intros Hok Hwf Hlo Hb. pose proof Hok as [[Hw Ho Hmx Hnx] Hn Hl Hm].
  assert (Ht : tree_ok (set_next_seq r hi)) by (by split).
  rewrite (reset_max_id _ Ht). split; simpl; auto.
  - by split.
  - done.
  - lia.
  - intros m. lia.
  - intros z [Hz|Hz]; [simpl in Hz|left; by right].
    destruct (Z.lt_ge_cases z (rr_next_seq r)); [left; by left|right]. unfold NN_REORDER_ACCEPT. lia.
  - intros _ z [[Hz|Hz]|[_ Hz]]; [left; simpl; lia|by right|left; simpl; lia].
Qed.

(** Storing a gap: [max_sampleiv] is recomputed. *)
Lemma gap_stored r rd lo hi l1 l2 :
  reorder_ok r -> rr_next_seq r < lo -> lo < hi -> rivs r = l1 ++ l2 ->
  Forall (fun y => ro_maxp1 y < lo) l1 -> Forall (fun y => hi < ro_min y) l2 ->
  exists t, reorder_insert_gap r rd lo hi = Some (set_tree r t) /\
    stored lo hi (gap_news rd) r (reset_max (set_tree r t)) /\
    (l2 <> [] -> reset_max (set_tree r t) = set_tree r t).
Proof.
  intros Hok Hlo Hlh El H1 H2. pose proof (rk_tree _ Hok) as Ht. pose proof Ht as [Hw Ho Hmx Hnx].
  destruct (add_apart r (gap_interval rd lo hi) l1 l2) as (t & E & Hwt & Het & Ot);
    [done|done|by apply gap_good|exact H1|exact H2|].
  assert (Hmx' : ot_find_max t = last (l1 ++ gap_interval rd lo hi :: l2)) by (by rewrite ot_find_max_spec, Het).
  exists t. split; [exact E|]. rewrite El in Hnx. apply Forall_app in Hnx as [N1 N2]. split.
  - eapply (stored_intro _ _ _ _ _ l1 l2); unfold rivs, reset_max; simpl; rewrite ?Hmx', ?Het; auto.
    + apply Forall_app. split; [done|]. by constructor.
    + by rewrite elems_app, elems_cons.
    + intros z. rewrite !rcov_app, !rcov_cons. simpl. tauto.
    + by split.
    + apply (starts_below l1 lo); [|eapply Forall_impl; [exact H1|]; simpl; lia|lia].
      rewrite El in Ho. by apply ro_ok_app in Ho as ([_ G1] & _).
  - intros Hne. unfold reset_max. simpl. rewrite Hmx'. unfold set_max, set_tree. simpl. f_equal.
    rewrite Hmx, El, !last_app, last_cons. destruct (last l2) eqn:E2; [done|]. by apply last_None in E2.
Qed.

(** What [nn_reorder_gap] answers. *)
Definition gap_answers r (lo hi : Z) (out : outcome) : Prop :=
  if hi <=? rr_next_seq r then out.2 = NN_REORDER_TOO_OLD
  else if lo <=? rr_next_seq r then 0 <= out.2 /\ out.1.2 = 0
  else out.2 = NN_REORDER_ACCEPT \/
       out.2 = NN_REORDER_REJECT /\
       ((forall q, lo <= q < hi -> rcov (rivs r) q) \/ rr_n_samples r = rr_max_samples r).

Lemma gap_apart_spec r h rd lo hi l1 l2 :
  reorder_ok r -> rc_wf h -> rr_mode r = NN_REORDER_MODE_NORMAL -> lo < hi -> rr_next_seq r < hi ->
  sc_cover h (elems (rivs r) ++ gap_news rd) -> rivs r = l1 ++ l2 ->
  Forall (fun y => ro_maxp1 y < lo) l1 -> Forall (fun y => hi < ro_min y) l2 ->
  exists r' h' out dropped, reorder_gap_apart true r h rd lo hi = Some (r', h', out) /\
    reord lo hi (gap_news rd) r h r' h' out dropped /\ gap_answers r lo hi out.
Proof.
  intros Hok Hwf Hmode Hlh Hhi Hcov El H1 H2. unfold reorder_gap_apart, gap_answers.
  destruct (Z.leb_spec hi (rr_next_seq r)); [lia|].
  pose proof (rk_tree _ Hok) as [Hw Ho Hmx Hnx]. pose proof (rk_lim _ Hok) as Hlim.
  destruct (Z.leb_spec lo (rr_next_seq r)) as [Hlo|Hlo].
  { eexists _, _, _, []. split; [done|]. split; [|done]. apply gap_advance_spec; auto.
    destruct l1 as [|y l1]; [by rewrite El|]. rewrite El in Ho, Hnx. destruct Ho as [_ Hg].
    apply Forall_cons in Hg as [Gy _], H1 as [Hy _], Hnx as [Ny _]. apply rgood_range in Gy. lia. }
  destruct (gap_stored r rd lo hi l1 l2 Hok Hlo Hlh El H1 H2) as (t & E & Hst & Hid).
  assert (Hrej : rr_n_samples r = rr_max_samples r -> exists r' h' out dropped,
    Some (reset_max r, h, (@nil rsample_chain_elem, 0, NN_REORDER_REJECT)) = Some (r', h', out) /\
    reord lo hi (gap_news rd) r h r' h' out dropped /\
    (out.2 = NN_REORDER_ACCEPT \/ out.2 = NN_REORDER_REJECT /\
       ((forall q, lo <= q < hi -> rcov (rivs r) q) \/ rr_n_samples r = rr_max_samples r))).
  { intros Hf. eexists _, _, _, []. split; [done|]. rewrite reset_max_id by (by split).
    split; [by apply unchanged_spec|]. right. split; [done|by right]. }
  destruct (Z.eqb_spec (rr_n_samples r) (rr_max_samples r)) as [Hfull|Hroom].
  - destruct (last (rivs r)) as [mx|] eqn:Em; rewrite Hmx; cbn [option_map mbind option_bind].
    2:{ by apply Hrej. }
    pose proof Em as [l Er]%last_Some. pose proof (ro_ok_sorted _ Ho) as Hso.
    rewrite (ot_lookup_spec _ _ _ Hw). fold (rivs r). rewrite Er in Hso |- *.
    rewrite l_lookup_mid by done. cbn [mbind option_bind]. rewrite Z.gtb_ltb, <- Er.
    destruct (Z.ltb_spec (ro_maxp1 mx) lo) as [Hbeyond|Hbefore]; [by apply Hrej|].
    assert (Hne : l2 <> []).
    { intros ->. rewrite app_nil_r in El. rewrite El in Er. rewrite Er in H1.
      apply Forall_app in H1 as [_ H1]. apply Forall_cons in H1 as [H1 _]. lia. }
    rewrite E. cbn [mbind option_bind]. rewrite (Hid Hne) in Hst.
    destruct (stored_limit lo hi (gap_news rd) r (set_tree r t) h) as (r2 & h2 & dr & E2 & Hre); auto.
    { pose proof (rk_n _ Hok) as Hn. rewrite Er in Ho, Hn. apply ro_ok_mid in Ho as (_ & _ & Gm & _).
      pose proof (rgood_range _ Gm). pose proof (rg_n _ Gm).
      rewrite elems_app, elems_cons, !length_app in Hn. lia. }
    { destruct l2 as [|y l2]; [done|]. apply Forall_cons in H2 as [Hy _]. exists y.
      split; [rewrite El; set_solver|lia]. }
    rewrite E2. cbn [mbind option_bind]. rewrite (reset_max_id r2) by apply Hre.
    eexists _, _, _, dr. split; [done|]. split; [done|by left].
  - cbn [mbind option_bind]. rewrite E. cbn [mbind option_bind rr_n_samples rr_max_samples set_tree].
    destruct (Z.ltb_spec (rr_n_samples r) (rr_max_samples r)); [|lia]. cbn [mbind option_bind].
    eexists _, _, _, []. split; [done|]. split; [|by left].
    apply (stored_room lo hi (gap_news rd) r (reset_max (set_tree r t)) h); auto.
Qed.

(** ** The range touches intervals *)

Lemma merged_count l1 x m l2 r lo hi :
  reorder_ok r -> rivs r = l1 ++ (x :: m) ++ l2 ->
  short (x :: m) /\ 
  (ro_ok (l1 ++ merged lo hi x m :: l2) ->
   ro_n_samples (merged lo hi x m) = Z.of_nat (length (elems (x :: m))) /\
   ro_n_samples (merged lo hi x m) <= rr_n_samples r).
Proof.
  intros Hok El. pose proof (rk_n _ Hok) as Hn. pose proof (rk_lim _ Hok) as Hl.
  rewrite El, !elems_app, !length_app in Hn. split; [unfold short; lia|].
  intros (_ & _ & Gm & _)%ro_ok_mid. rewrite (rg_n _ Gm). destruct (joined_sc m x) as [Hsc _].
  simpl. rewrite Hsc, <- elems_cons. lia.
Qed.

(** The touched intervals start at the next expected number and go. *)
Lemma gap_release_spec r h rd lo hi x m l2 t :
  reorder_ok r -> rc_wf h -> lo <= rr_next_seq r < hi -> rivs r = (x :: m) ++ l2 ->
  Forall (fun y => lo <= ro_maxp1 y /\ ro_min y <= hi) (x :: m) -> Forall (fun y => hi < ro_min y) l2 ->
  ot_wf ro_min t -> ot_elements t = l2 ->
  let c := merged lo hi x m in
  let r1 := reset_max (set_next_seq (set_tree r t) (ro_maxp1 c)) in
  reord lo hi (gap_news rd) r h (set_n_samples r1 (rr_n_samples r1 - ro_n_samples c)) h
    (ro_sc c, 0, ro_n_samples c) [].
Proof.
  intros Hok Hwf Hlo El Hm H2 Hwt Het c r1. pose proof Hok as [[Hw Ho Hmx Hnx] Hn Hl Hmode].
  destruct (merged_count [] x m l2 r lo hi Hok El) as [Hsh Hct].
  rewrite El in Ho, Hnx, Hn. destruct (merged_facts lo hi [] x m l2) as (Oc & Hsc & Hcov); auto; [lia|].
  destruct (Hct Oc) as [Hc1 Hc2]. fold c in Oc, Hsc, Hcov, Hc1, Hc2. simpl in Oc.
  change (c :: l2) with ([] ++ c :: l2) in Oc. apply ro_ok_mid in Oc as (_ & O2 & Gc & _ & Sc & _).
  rewrite elems_app, length_app in Hn. apply Forall_app in Hnx as [Nm N2].
  assert (Hlo' : ro_min c <= lo) by (simpl; zcases).
  assert (Hhi' : hi <= ro_maxp1 c) by (simpl; zcases).
  assert (Hfit : fits (rr_next_seq r) (ro_maxp1 c) (ro_sc c)).
  { assert (Gj : rgood (joined x m)).
    { apply joined_good; [|done]. apply (ro_ok_app (x :: m) l2) in Ho. tauto. }
    apply Forall_cons in Nm as [Nx _]. destruct (joined_sc m x) as [Jsc Jmin].
    eapply fits_weaken; [apply Gj|rewrite Jmin; lia|]. simpl. zcases. }
  assert (Hw' : wrap_u 32 (rr_n_samples r - ro_n_samples c) = rr_n_samples r - ro_n_samples c) by nowrap.
  clearbody c. set (r' := set_n_samples _ _). assert (Hri : rivs r' = l2) by exact Het.
  assert (Hrn : rr_n_samples r' = rr_n_samples r - ro_n_samples c) by exact Hw'.
  assert (Hnx' : rr_next_seq r' = ro_maxp1 c) by done.
  split; simpl; auto.
  - split; [split|..]; rewrite ?Hri, ?Hrn, ?Hnx'; auto; [|lia|simpl; lia|].
    + unfold r', r1. simpl. by rewrite ot_find_max_spec, Het.
    + intros Hne. specialize (Hmode Hne). by rewrite Hmode in El.
  - done.
  - left. by rewrite (rg_n _ Gc).
  - rewrite Hri, El, elems_app, !app_nil_r, Hsc. solve_Permutation.
  - intros z. lia.
  - intros z. unfold known. rewrite Hri, Hnx', El, rcov_app. intros [Hz|Hz]; [|tauto].
    destruct (Z.lt_ge_cases z (rr_next_seq r)); [tauto|].
    assert (Hz' : ro_min c <= z < ro_maxp1 c) by lia.
    apply Hcov in Hz' as [Hz'|Hz']; [tauto|right]. lia.
  - intros _ z. unfold known. rewrite Hri, Hnx', El, rcov_app.
    intros [[Hz|[Hz|Hz]]|[_ Hz]]; [left; lia| |by right|left; lia].
    left. apply Hcov. by left.
Qed.

(** The touched intervals become one and stay. *)
Lemma gap_merge_spec r h rd lo hi l1 x m l2 t res :
  reorder_ok r -> rc_wf h -> lo < hi -> rivs r = l1 ++ (x :: m) ++ l2 ->
  Forall (fun y => ro_maxp1 y < lo) l1 ->
  Forall (fun y => lo <= ro_maxp1 y /\ ro_min y <= hi) (x :: m) -> Forall (fun y => hi < ro_min y) l2 ->
  ot_wf ro_min t -> ot_elements t = l1 ++ merged lo hi x m :: l2 ->
  rr_next_seq r < ro_min (merged lo hi x m) ->
  res = 0 \/ res < 0 /\ (forall z, lo <= z < hi -> rcov (rivs r) z) ->
  reord lo hi (gap_news rd) r h (reset_max (set_tree r t)) h ([], 0, res) [].
Proof.
  intros Hok Hwf Hlh El H1 Hm H2 Hwt Het Hc Hres. pose proof Hok as [[Hw Ho Hmx Hnx] Hn Hl Hmode].
  destruct (merged_count l1 x m l2 r lo hi Hok El) as [Hsh _]. rewrite El in Ho, Hnx, Hn.
  destruct (merged_facts lo hi l1 x m l2) as (Oc & Hsc & Hcov); auto.
  set (c := merged lo hi x m) in *. clearbody c. set (r' := reset_max _).
  assert (Hri : rivs r' = l1 ++ c :: l2) by exact Het.
  assert (He : elems (rivs r') = elems (rivs r)) by (by rewrite Hri, El, !elems_app, elems_cons, Hsc).
  assert (Hcv : forall z, rcov (rivs r') z <-> rcov (rivs r) z \/ lo <= z < hi).
  { intros z. rewrite Hri, El, !rcov_app, !rcov_cons, Hcov, rcov_cons. tauto. }
  split; simpl; auto.
  - split; [split|..]; rewrite ?Hri; auto.
    + unfold r'. simpl. by rewrite ot_find_max_spec, Het.
    + rewrite !Forall_app in Hnx. destruct Hnx as (N1 & _ & N2). apply Forall_app. split; [done|by constructor].
    + rewrite <- Hri, He, El. exact Hn.
    + intros Hne. specialize (Hmode Hne). rewrite Hmode in El. by destruct l1.
  - done.
  - lia.
  - destruct Hres as [->|[? _]]; [by left|by right].
  - by rewrite He.
  - intros z. lia.
  - intros z [Hz|Hz]; [left; by left|]. apply Hcv in Hz as [Hz|Hz]; [left; by right|].
    destruct Hres as [->|[_ Hr]]; [right; lia|left; right; auto].
  - intros _ z. unfold known. rewrite Hcv. intros [[Hz|Hz]|[_ Hz]]; [left; done|tauto|tauto].
Qed.

Lemma gap_normal_spec r h rd lo hi :
  reorder_ok r -> rc_wf h -> rr_mode r = NN_REORDER_MODE_NORMAL -> lo < hi ->
  sc_cover h (elems (rivs r) ++ gap_news rd) ->
  exists r' h' out dropped, nn_reorder_gap r h rd lo hi = Some (r', h', out) /\
    reord lo hi (gap_news rd) r h r' h' out dropped /\ gap_answers r lo hi out.
Proof.
  intros Hok Hwf Hmode Hlh Hcov. unfold nn_reorder_gap, nn_reorder_gap_build.
  destruct (Z.leb_spec hi (rr_next_seq r)) as [Hold|Hhi].
  { eexists _, _, _, []. split; [done|]. split; [by apply unchanged_spec|]. unfold gap_answers.
    by destruct (Z.leb_spec hi (rr_next_seq r)); [|lia]. }
  rewrite bool_decide_eq_true_2 by done. cbn [negb].
  pose proof (rk_tree _ Hok) as [Hw Ho Hmx Hnx].
  destruct (touch_split lo hi (rivs r) Ho) as (l1 & m & l2 & El & H1 & Hm & H2); [lia|].
  assert (Hsh : short (rivs r)).
  { unfold short. rewrite <- (rk_n _ Hok). pose proof (rk_lim _ Hok). lia. }
  pose proof (coalesce_spec lo hi _ l1 m l2 Hw Ho Hsh Hlh El H1 Hm H2) as Hco.
  destruct m as [|x m].
  { rewrite Hco. cbn [mbind option_bind]. replace (set_tree r (rr_sampleivtree r)) with r by (by destruct r).
    by apply (gap_apart_spec r h rd lo hi l1 l2). }
  destruct Hco as (t & v & E & Hwt & Het & Hv). rewrite E. cbn [mbind option_bind].
  destruct (merged_count l1 x m l2 r lo hi Hok El) as [Hsx Hct].
  destruct (merged_facts lo hi l1 x m l2) as (Oc & Hsc & Hcc); auto; [by rewrite <- El|].
  destruct (Hct Oc) as [Hc1 Hc2]. pose proof Oc as (_ & _ & Gc & _)%ro_ok_mid. apply rgood_range in Gc.
  cbn [rr_next_seq set_tree]. unfold gap_answers. destruct (Z.leb_spec hi (rr_next_seq r)); [lia|].
  rewrite El, !Forall_app, Forall_cons in Hnx. destruct Hnx as (N1 & [Nx Nm] & N2).
  assert (Hmin : ro_min (merged lo hi x m) = Z.min lo (ro_min x)).
  { simpl. rewrite (proj2 (joined_sc m x)). zcases. }
  destruct (Z.leb_spec (ro_min (merged lo hi x m)) (rr_next_seq r)) as [Hrel|Hkeep].
  - assert (Hlo : lo <= rr_next_seq r) by lia. destruct (Z.leb_spec lo (rr_next_seq r)); [|lia].
    destruct (Z.leb_spec (ro_min (merged lo hi x m) + ro_n_samples (merged lo hi x m)) (ro_maxp1 (merged lo hi x m))); [|lia].
    rewrite Z.geb_leb. cbn [rr_n_samples set_tree].
    destruct (Z.leb_spec (ro_n_samples (merged lo hi x m)) (rr_n_samples r)); [|lia]. cbn [andb].
    eexists _, _, _, []. split; [done|]. split; [|cbn [snd fst]; split; [lia|done]].
    destruct l1 as [|y l1].
    2:{ rewrite El in Ho. destruct Ho as [_ Hg]. apply Forall_cons in Hg as [Gy _], H1 as [Hy _], N1 as [Ny _].
        apply rgood_range in Gy. lia. }
    destruct (ot_delete_spec ro_min t (ro_min (merged lo hi x m)) Hwt) as [Hwd Hed].
    rewrite Het in Hed. rewrite l_delete_mid in Hed by (by apply ro_ok_sorted).
    apply (gap_release_spec r h rd lo hi x m l2 (ot_delete ro_min t (ro_min (merged lo hi x m)))); auto.
  - destruct (Z.leb_spec lo (rr_next_seq r)); [lia|].
    assert (Hknown : v = false -> forall z, lo <= z < hi -> rcov (rivs r) z).
    { intros (-> & Hx1 & Hx2)%Hv z Hz. exists x. split; [rewrite El; set_solver|lia]. }
    eexists _, _, _, []. split; [done|]. split.
    + apply (gap_merge_spec r h rd lo hi l1 x m l2 t); auto. destruct v; [by left|right]. split; [done|auto].
    + destruct v; [by left|right]. split; [done|]. left. auto.
Qed.
End Gap.
