(* ===== verification/ReorderRun.v ===== *)
(** * Queries and whole runs of the reorder administration

    [nn_reorder_wantsample], [nn_reorder_nackmap] and [nn_reorder_free]; any
    sequence of samples and gaps is delivered in order. *)

From Stdlib Require Import ZArith Lia Sorting.Sorted.
From stdpp Require Import prelude.
From S2P Require Import Prelude OrdTree Bitset Refs Defrag DefragOps DefragNack Reorder ReorderFacts ReorderOps ReorderProps ReorderGap.

(** ** Sequence numbers *)

Lemma toSN_fromSN_inv n : in_s 64 n -> fromSN (toSN n) = n.
Proof.
  unfold in_s, fromSN, toSN. simpl sn_high. simpl sn_low. intros Hn.
  rewrite Z.shiftr_div_pow2 by lia. unfold wrap_s, wrap_u.
  pose proof (Z.div_mod n (2 ^ 32) ltac:(lia)) as D. pose proof (Z.mod_pos_bound n (2 ^ 32) ltac:(lia)) as M.
  assert (Hh : (if (n / 2 ^ 32) mod 2 ^ 32 <? 2 ^ (32 - 1) then (n / 2 ^ 32) mod 2 ^ 32
                else (n / 2 ^ 32) mod 2 ^ 32 - 2 ^ 32) = n / 2 ^ 32).
  { destruct (Z.lt_ge_cases n 0).
    - assert (E : (n / 2 ^ 32) mod 2 ^ 32 = n / 2 ^ 32 + 2 ^ 32).
      { symmetry. apply Z.mod_unique with (-1); [left|]; lia. }
      rewrite E. destruct (Z.ltb_spec (n / 2 ^ 32 + 2 ^ 32) (2 ^ (32 - 1))); lia.
    - rewrite Z.mod_small by lia. destruct (Z.ltb_spec (n / 2 ^ 32) (2 ^ (32 - 1))); lia. }
  rewrite Hh. pose proof (Z.add_lor_land (Z.shiftl (n / 2 ^ 32) 32) (n mod 2 ^ 32)) as A.
  assert (L : Z.land (Z.shiftl (n / 2 ^ 32) 32) (n mod 2 ^ 32) = 0).
  { apply Z.bits_inj'. intros i Hi. rewrite Z.land_spec, Z.bits_0.
    destruct (Z.lt_ge_cases i 32).
    - by rewrite Z.shiftl_spec_low by lia.
    - rewrite Z.mod_pow2_bits_high by lia. by rewrite andb_false_r. }
  rewrite L in A. rewrite Z.shiftl_mul_pow2 in * by lia. lia.
Qed.

Section Queries.
Context {T : Type -> Type} `{!OrdTree T, !OrdTreeLaws T}.
Context {H : Type} `{!RmsgRefs H, !RmsgRefsLaws H}.
Implicit Types (r : nn_reorder T) (t : T rsample_reorder) (s : rsample_reorder) (h : H).

Lemma wantsample_spec r q : reorder_ok r -> nn_reorder_wantsample r q = true <-> ~ known r q.
Proof.
  intros Hok. pose proof (rk_tree _ Hok) as [Hw Ho _ _]. pose proof (ro_ok_sorted _ Ho) as Hso.
  unfold nn_reorder_wantsample, known. destruct (Z.ltb_spec q (rr_next_seq r)) as [Hlt|Hge]; [split; [done|tauto]|].
  rewrite (ot_lookup_predeq_spec _ _ _ Hw). fold (rivs r).
  destruct (l_predeq ro_min q (rivs r)) as [p|] eqn:Ep.
  - destruct (l_predeq_Some _ _ _ _ Hso Ep) as (a & b & Eab & Hp & Hb).
    rewrite Eab in Ho |- *. apply ro_ok_mid in Ho as (_ & _ & Gp & Sa & _).
    destruct (Z.leb_spec (ro_maxp1 p) q) as [Hle|Hgt].
    + split; [|done]. intros _ [|(iv & Hin & Hr)]; [lia|].
      rewrite elem_of_app, elem_of_cons in Hin. rewrite Forall_forall in Sa, Hb.
      destruct Hin as [Hin|[->|Hin]]; [|lia|specialize (Hb iv Hin); simpl in Hb; lia].
      specialize (Sa iv Hin). unfold rsep in Sa. lia.
    + split; [done|]. intros []. right. exists p. split; [set_solver|lia].
  - apply l_predeq_None in Ep; [|done]. split; [|done]. intros _ [|(iv & Hin & Hr)]; [lia|].
    rewrite Forall_forall in Ep. specialize (Ep iv Hin). simpl in Ep. lia.
Qed.

Section Nackmap.
Context (r : nn_reorder T) (numbits base : Z).
Hypothesis Hok : reorder_ok r.
Hypothesis Hnb : 0 <= numbits.

Definition bits_before (bits : list Z) (i : Z) : Prop :=
  forall x, 0 <= x < numbits ->
    bit_at bits x = true <-> base + x < i /\ ~ rcov (rivs r) (base + x).

Lemma reorder_loop_spec rest : forall fuel front bits i,
  rivs r = front ++ rest -> (length rest <= fuel)%nat -> bits_ok numbits bits -> base <= i ->
  Forall (fun y => ro_maxp1 y <= i) front -> Forall (fun y => i <= ro_min y) rest ->
  bits_before bits i ->
  exists bits' i', reorder_nackmap_loop fuel (rr_sampleivtree r) numbits base bits i (head rest) =
      Some (bits', i') /\ bits_ok numbits bits' /\ length bits' = length bits /\ base <= i' /\
    bits_before bits' i' /\
    (i' < base + numbits -> forall q, i' <= q -> ~ rcov (rivs r) q).
Proof using All.
  induction rest as [|v rest IH]; intros fuel front bits i El Hf Hbo Hi Hfr Hre Hb.
  - exists bits, i. rewrite app_nil_r in El. destruct fuel; (split; [done|]); repeat (split; [done|]);
      (intros _ q Hq; rewrite El; apply not_covered; eapply Forall_impl; [exact Hfr|]; simpl; lia).
  - destruct fuel as [|fuel]; [simpl in Hf; lia|]. simpl in Hf. cbn [reorder_nackmap_loop head].
    apply Forall_cons in Hre as [Hv Hre].
    destruct (Z.ltb_spec i (base + numbits)) as [Hlt|Hge].
    2:{ exists bits, i. split; [done|]. repeat (split; [done|]). lia. }
    destruct (for_set_spec numbits base bits i (ro_min v) Hbo Hi) as (b1 & i1 & E1 & Hbo1 & Hl1 & Hb1).
    rewrite E1. cbn [mbind option_bind]. pose proof (rk_tree _ Hok) as [Hw Ho _ _].
    pose proof Ho as Hom. rewrite El in Hom. apply ro_ok_mid in Hom as (_ & _ & Gv & Sf & Sr & _).
    apply rgood_range in Gv.
    rewrite (ot_find_succ_spec ro_min _ front v rest Hw El).
    destruct (IH fuel (front ++ [v]) b1 (ro_maxp1 v)) as (b2 & i2 & E2 & Hbo2 & Hl2 & Hi2 & Hb2 & Hend); auto.
    + by rewrite <- app_assoc.
    + lia.
    + lia.
    + apply Forall_app. split; [eapply Forall_impl; [exact Sf|]; unfold rsep; simpl; lia|by repeat constructor].
    + eapply Forall_impl; [exact Sr|]. unfold rsep. simpl. lia.
    + intros x Hx. rewrite (Hb1 x Hx). rewrite orb_true_iff, andb_true_iff, Z.leb_le, Z.ltb_lt, (Hb x Hx).
      assert (Hcov : ro_min v <= base + x < ro_maxp1 v -> rcov (rivs r) (base + x)).
      { intros Hr. exists v. split; [rewrite El; set_solver|done]. }
      assert (Hgap : i <= base + x < ro_min v -> ~ rcov (rivs r) (base + x)).
      { intros Hr (y & Hin & Hy). rewrite El, elem_of_app, elem_of_cons in Hin.
        rewrite Forall_forall in Hfr, Sr.
        destruct Hin as [Hin|[->|Hin]]; [specialize (Hfr y Hin); simpl in Hfr; lia|lia|].
        specialize (Sr y Hin). unfold rsep in Sr. lia. }
      split.
      * intros [[? ?]|?]; (split; [lia|]); auto.
      * intros [Hlt' Hn]. destruct (Z.lt_ge_cases (base + x) i); [by left|right].
        split; [done|]. destruct (Z.lt_ge_cases (base + x) (ro_min v)); [done|]. exfalso. apply Hn, Hcov. lia.
    + exists b2, i2. rewrite E2. repeat (split; [done|]). split; [congruence|]. done.
Qed.
End Nackmap.

(** The numbers are such that [maxseq + 1] and [maxseq + 1 - base] fit 64 bits. *)
Definition nack_range r (base maxseq : Z) : Prop :=
  0 <= Z.min base (rr_next_seq r) < 2 ^ 63 /\ -1 <= maxseq < 2 ^ 63 - 1.

(** The bitmap covers [base0, base0 + numbits) and a bit is set exactly for
    the numbers in it that are missing; what the range leaves out before
    [maxseq] is a tail of missing numbers, and only if [notail]. *)
Lemma reorder_nackmap_spec_bits r base maxseq bits maxsz notail :
  reorder_ok r -> nack_range r base maxseq -> 0 <= maxsz <= 256 -> bits_ok maxsz bits ->
  let base0 := Z.min base (rr_next_seq r) in
  let size := Z.min maxsz (rr_max_samples r) in
  exists numbits bits',
    nn_reorder_nackmap r base maxseq bits maxsz notail =
      Some (numbits, SequenceNumberSet (toSN base0) numbits bits') /\
    0 <= numbits <= size /\ length bits' = length bits /\
    (forall x, 0 <= x < numbits -> base0 + x <= maxseq /\
       (nn_bitset_isset numbits bits' x = Some true <-> ~ rcov (rivs r) (base0 + x))) /\
    (forall q, base0 + numbits <= q <= maxseq -> q < base0 + size ->
       notail = true /\ ~ rcov (rivs r) q) /\
    bits_ok numbits bits'.
Proof.
  intros Hok [Hbr Hqr] Hmz Hbits base0 size. fold base0 in Hbr. unfold nn_reorder_nackmap.
  pose proof (rk_tree _ Hok) as [Hw Ho _ Hnx]. pose proof (rk_lim _ Hok) as Hl. pose proof (rk_n _ Hok) as Hn.
  rewrite Z.gtb_ltb. destruct (Z.ltb_spec 256 maxsz); [lia|].
  assert (Hsz : (if maxsz >? rr_max_samples r then rr_max_samples r else maxsz) = size) by (unfold size; zcases).
  assert (Hba : (if base >? rr_next_seq r then rr_next_seq r else base) = base0) by (unfold base0; zcases).
  rewrite Hsz, Hba. clear Hsz Hba.
  cbv zeta. rewrite (wrap_seq (maxseq + 1)), (wrap_seq (base0 - 1)) by lia.
  set (maxseq' := if maxseq + 1 <? base0 then base0 - 1 else maxseq).
  assert (Hms : base0 <= maxseq' + 1 /\ maxseq' + 1 = Z.max base0 (maxseq + 1)) by (unfold maxseq'; zcases).
  rewrite (wrap_seq (maxseq' + 1)), (wrap_seq (maxseq' + 1 - base0)) by lia.
  set (numbits := if maxseq' + 1 - base0 >? size then size else wrap_u 32 (maxseq' + 1 - base0)).
  assert (Hnb : numbits = Z.min size (maxseq' + 1 - base0)).
  { unfold numbits. rewrite Z.gtb_ltb. destruct (Z.ltb_spec size (maxseq' + 1 - base0)); [lia|].
    nowrap. }
  clearbody numbits maxseq'. assert (Hbn : bits_ok numbits bits) by (destruct Hbits as (? & ? & ?); split; [lia|]; split; [done|lia]).
  destruct (zero_spec numbits bits Hbn) as (b0 & E0 & Hb0 & Hl0 & Hz0). rewrite E0. cbn [mbind option_bind].
  rewrite ot_find_min_spec. fold (rivs r).
  assert (Has : match head (rivs r) with Some mn => negb (ro_min mn >? base0) | None => false end = false).
  { destruct (rivs r) as [|a l]; [done|]. simpl. apply Forall_cons in Hnx as [Ha _]. zcases. }
  rewrite Has. clear Has.
  destruct (reorder_loop_spec r numbits base0 Hok ltac:(lia) (rivs r) (length (rivs r)) []
              b0 base0) as (b1 & i1 & E1 & Hb1 & Hl1 & Hi1 & Hbb & Hend); auto; [lia| |..].
  { eapply Forall_impl; [exact Hnx|]. simpl. lia. }
  { intros x Hx. rewrite (Hz0 x Hx). split; [done|]. intros [? _]. lia. }
  rewrite E1. cbn [mbind option_bind].
  destruct (notail && (i1 <? base0 + numbits)) eqn:Ent.
  - apply andb_true_iff in Ent as [-> Hlt%Z.ltb_lt].
    assert (Hwr : wrap_u 32 (i1 - base0) = i1 - base0) by nowrap. rewrite Hwr.
    exists (i1 - base0), b1. split; [done|]. split; [lia|]. split; [congruence|].
    assert (Hbi : bits_ok (i1 - base0) b1) by (destruct Hb1 as (? & ? & ?); split; [lia|]; split; [done|lia]).
    split; [|split; [|done]].
    + intros x Hx. split; [lia|]. rewrite isset_bit_at by (done || lia).
      rewrite bool_decide_eq_true_2 by lia. simpl. pose proof (Hbb x ltac:(lia)) as Hx'.
      assert (base0 + x < i1) by lia. destruct (bit_at b1 x); split; intros; [tauto|done|done|].
      exfalso. assert (false = true) by tauto. done.
    + intros q Hq Hq'. split; [done|]. apply (Hend Hlt). lia.
  - destruct (for_set_spec numbits base0 b1 i1 (base0 + numbits) Hb1 Hi1) as (b2 & i2 & E2 & Hb2 & Hl2 & Hbs).
    rewrite E2. cbn [mbind option_bind]. exists numbits, b2. split; [done|]. split; [lia|]. split; [congruence|].
    split; [|split; [lia|done]]. intros x Hx. split; [lia|]. rewrite isset_bit_at by (done || lia).
    rewrite bool_decide_eq_true_2 by lia. simpl. rewrite (Hbs x Hx).
    assert (Hiff : bit_at b1 x || (i1 <=? base0 + x) && (base0 + x <? base0 + numbits) = true <-> ~ rcov (rivs r) (base0 + x)).
    { rewrite orb_true_iff, andb_true_iff, Z.leb_le, Z.ltb_lt, (Hbb x Hx). split.
      - intros [[_ ?]|[? ?]]; [done|]. apply Hend; lia.
      - intros Hn'. destruct (Z.lt_ge_cases (base0 + x) i1); [left; done|right; lia]. }
    rewrite <- Hiff. split; [congruence|]. by intros ->.
Qed.

Lemma reorder_nackmap_spec r base maxseq bits maxsz notail :
  reorder_ok r -> nack_range r base maxseq -> 0 <= maxsz <= 256 -> bits_ok maxsz bits ->
  let base0 := Z.min base (rr_next_seq r) in
  let size := Z.min maxsz (rr_max_samples r) in
  exists numbits bits',
    nn_reorder_nackmap r base maxseq bits maxsz notail =
      Some (numbits, SequenceNumberSet (toSN base0) numbits bits') /\
    0 <= numbits <= size /\ length bits' = length bits /\
    (forall x, 0 <= x < numbits -> base0 + x <= maxseq /\
       (nn_bitset_isset numbits bits' x = Some true <-> ~ rcov (rivs r) (base0 + x))) /\
    (forall q, base0 + numbits <= q <= maxseq -> q < base0 + size ->
       notail = true /\ ~ rcov (rivs r) q).
Proof.
  intros Hok Hr Hmz Hbits base0 size.
  destruct (reorder_nackmap_spec_bits r base maxseq bits maxsz notail Hok Hr Hmz Hbits)
    as (n & bits' & ? & ? & ? & ? & ? & _). by exists n, bits'.
Qed.

(** The samples of a chain are not before its interval. *)
Lemma seq_above_min z l e i :
  rgood z -> ro_sc z = l ++ [e] -> ce_sampleinfo e = Some i -> ro_min z <= si_seq i.
Proof.
  intros Gz Es Hi. destruct (fits_seqs _ _ _ (rg_fits _ Gz)) as [_ Hf]. rewrite Forall_forall in Hf.
  apply (Hf (si_seq i)). apply (elem_seqs_in _ e); [|done]. rewrite Es. set_solver.
Qed.

Lemma elems_below l b q :
  Forall rgood l -> Forall (fun iv => ro_maxp1 iv <= b) l -> q ∈ elem_seqs (elems l) -> q < b.
Proof.
  induction 1 as [|iv l Gi Hl IH]; [intros _ Hq; by apply elem_of_nil in Hq|]. intros [Hb Hbs]%Forall_cons.
  rewrite elems_cons, elem_seqs_app. intros [Hq|Hq]%elem_of_app; [|auto].
  destruct (fits_seqs _ _ _ (rg_fits _ Gi)) as [_ Hf]. rewrite Forall_forall in Hf. specialize (Hf q Hq). simpl in *. lia.
Qed.

(** ** The builds with and without the two assertions that can fail *)

Lemma delete_last_builds r h x :
  delete_last_sample false r h = Some x -> delete_last_sample true r h = Some x.
Proof.
  unfold delete_last_sample. destruct (rr_n_samples r >? 0); [|done].
  destruct (rr_max_sampleiv r); cbn [mbind option_bind]; [|done].
  destruct (ot_lookup _ _ _) as [lst|]; cbn [mbind option_bind]; [|done].
  destruct (last (ro_sc lst)); cbn [mbind option_bind]; [|done]. case_decide; [done|].
  destruct (_ && (_ <=? _)); cbn [andb orb]; [|done]. by destruct (delete_last_assert lst).
Qed.

Lemma rsample_builds r h s la full x :
  nn_reorder_rsample_build false r h s la full = Some x -> nn_reorder_rsample r h s la full = Some x.
Proof.
  unfold nn_reorder_rsample, nn_reorder_rsample_build.
  destruct (rsample_is_singleton s) as [b|]; cbn [mbind option_bind]; [|done].
  destruct (negb _); [done|]. destruct (_ || _).
  { destruct full; [done|]. unfold reorder_deliver.
    destruct (match rr_max_sampleiv r with Some _ => _ | None => _ end) as [[[r1 s1] w]|]; cbn [mbind option_bind]; [|done].
    destruct (_ >=? 1), (_ <=? 2147483647); cbn [andb orb]; done. }
  destruct (_ <? _); [done|]. destruct (ot_is_empty _); [done|].
  destruct (rr_max_sampleiv r); cbn [mbind option_bind]; [|done].
  destruct (ot_lookup _ _ _) as [mx|]; cbn [mbind option_bind]; [|done].
  destruct (_ =? _); [done|]. destruct (_ >? _); [done|]. unfold reorder_hard_case.
  destruct (la && full); [done|]. destruct (match ot_lookup_predeq _ _ _ with Some _ => _ | None => _ end); [done|].
  destruct (reorder_store _ _ _ _) as [r1|]; cbn [mbind option_bind]; [|done]. destruct (_ <? _); [done|].
  destruct (delete_last_sample false r1 h) as [y|] eqn:E; cbn [mbind option_bind]; [|done].
  by rewrite (delete_last_builds _ _ _ E).
Qed.

Lemma gap_builds r h rd lo hi x :
  nn_reorder_gap_build false r h rd lo hi = Some x -> nn_reorder_gap r h rd lo hi = Some x.
Proof.
  unfold nn_reorder_gap, nn_reorder_gap_build. destruct (_ <=? _); [done|]. destruct (negb _); [done|].
  destruct (coalesce_intervals_touching_range _ _ _) as [[[t c] v]|]; cbn [mbind option_bind]; [|done].
  destruct c; [done|]. unfold reorder_gap_apart. destruct (_ <=? _); [done|].
  destruct (if _ =? _ then _ else _) as [b|]; cbn [mbind option_bind]; [|done]. destruct b; [done|].
  destruct (reorder_insert_gap _ _ _ _) as [r1|]; cbn [mbind option_bind]; [|done]. destruct (_ <? _); [done|].
  destruct (delete_last_sample false r1 h) as [y|] eqn:E; cbn [mbind option_bind]; [|done].
  by rewrite (delete_last_builds _ _ _ E).
Qed.

(** ** Freeing *)

Lemma unref_elems_spec (sc : list rsample_chain_elem) : forall h,
  rc_wf h -> sc_cover h sc ->
  exists h', unref_elems h sc = Some h' /\ rc_wf h' /\ forall m, rc h' m = rc h m - elem_refs m sc.
Proof.
  induction sc as [|e sc IH]; intros h Hwf Hc; simpl.
  - exists h. split; [done|]. split; [done|]. intros m. lia.
  - destruct (fragchain_unref_spec h (ce_fragchain e) Hwf) as (h1 & E1 & Hw1 & Hr1).
    { intros m. specialize (Hc m). simpl in Hc. pose proof (elem_refs_nonneg m sc). lia. }
    rewrite E1. cbn [mbind option_bind]. destruct (IH h1 Hw1) as (h2 & E2 & Hw2 & Hr2).
    { intros m. specialize (Hc m). simpl in Hc. rewrite Hr1. lia. }
    exists h2. split; [done|]. split; [done|]. intros m. rewrite Hr2, Hr1. lia.
Qed.

Lemma reorder_free_loop_spec l : forall fuel t h,
  ot_wf ro_min t -> ot_elements t = l -> (length l <= fuel)%nat -> rc_wf h -> sc_cover h (elems l) ->
  exists h', reorder_free_loop fuel t h = Some h' /\ rc_wf h' /\ forall m, rc h' m = rc h m - elem_refs m (elems l).
Proof.
  induction l as [|a l IH]; intros fuel t h Hw He Hf Hwf Hc.
  - exists h. destruct fuel; simpl; rewrite ot_find_min_spec, He; simpl; (split; [done|]; split; [done|]; intros m; lia).
  - destruct fuel as [|fuel]; [simpl in Hf; lia|]. simpl in Hf. simpl. rewrite ot_find_min_spec, He. cbn [head].
    rewrite elems_cons in *. destruct (unref_elems_spec (ro_sc a) h Hwf) as (h1 & E1 & Hw1 & Hr1).
    { intros m. specialize (Hc m). rewrite elem_refs_app in Hc. pose proof (elem_refs_nonneg m (elems l)). lia. }
    rewrite E1. cbn [mbind option_bind]. destruct (ot_delete_spec ro_min t (ro_min a) Hw) as [Hw2 He2].
    pose proof (ot_wf_sorted _ _ Hw) as Hso. rewrite He in He2, Hso. change (a :: l) with ([] ++ a :: l) in He2, Hso.
    rewrite l_delete_mid in He2 by done.
    destruct (IH fuel _ h1 Hw2 He2) as (h2 & E2 & Hw3 & Hr2); [lia|done| |].
    { intros m. specialize (Hc m). rewrite elem_refs_app in Hc. rewrite Hr1. lia. }
    exists h2. split; [done|]. split; [done|]. intros m. rewrite Hr2, Hr1, elem_refs_app. lia.
Qed.

Lemma reorder_free_spec r h :
  reorder_ok r -> rc_wf h -> sc_cover h (elems (rivs r)) ->
  exists h', nn_reorder_free r h = Some h' /\ rc_wf h' /\ forall m, rc h' m = rc h m - elem_refs m (elems (rivs r)).
Proof. intros Hok Hwf Hc. apply (reorder_free_loop_spec (rivs r)); auto. apply Hok. Qed.
End Queries.

(** ** Runs *)

Section Runs.
Context {T : Type -> Type} `{!OrdTree T, !OrdTreeLaws T}.
Context {H : Type} `{!RmsgRefs H, !RmsgRefsLaws H}.
Implicit Types (r : nn_reorder T) (h : H).

(** What a proxy writer feeds its reorder administration. *)
Inductive arrival : Type :=
| ArrSample (s : rsample_reorder) (late_ack_mode delivery_queue_full_p : bool)
| ArrGap (rd : rdata) (min maxp1 : Z).

Definition reorder_step r h (a : arrival) : option (nn_reorder T * H * outcome) :=
  match a with
  | ArrSample s la full => nn_reorder_rsample r h s la full
  | ArrGap rd min maxp1 => nn_reorder_gap r h rd min maxp1
  end.

(** The final state and everything that is delivered, in order. *)
Fixpoint reorder_run r h (l : list arrival) : option (nn_reorder T * H * list rsample_chain_elem) :=
  match l with
  | [] => Some (r, h, [])
  | a :: l' =>
      '(r, h, out) ← reorder_step r h a;
      '(r, h, d) ← reorder_run r h l';
      Some (r, h, out.1.1 ++ d)
  end.

(** The numbers an arrival is about, and its chain elements. *)
Definition arr_range (a : arrival) : Z * Z :=
  match a with ArrSample s _ _ => (ro_min s, ro_maxp1 s) | ArrGap _ lo hi => (lo, hi) end.
Definition arr_news (a : arrival) : list rsample_chain_elem :=
  match a with ArrSample s _ _ => ro_sc s | ArrGap rd _ _ => gap_news rd end.
Definition arr_ok (a : arrival) : Prop :=
  match a with ArrSample s _ _ => sample_in (ro_min s) s | ArrGap _ lo hi => lo < hi end.

Lemma step_spec r h a :
  reorder_ok r -> rc_wf h -> rr_mode r = NN_REORDER_MODE_NORMAL -> arr_ok a ->
  sc_cover h (elems (rivs r) ++ arr_news a) ->
  exists r' h' out dropped, reorder_step r h a = Some (r', h', out) /\
    reord (arr_range a).1 (arr_range a).2 (arr_news a) r h r' h' out dropped /\
    match a with
    | ArrSample s _ full => answers r (ro_min s) full out
    | ArrGap _ lo hi => gap_answers r lo hi out
    end.
Proof.
  intros Hok Hwf Hm Ha Hc. destruct a as [s la full|rd lo hi]; simpl in *.
  - destruct (sample_in_good _ s Ha) as (_ & _ & Hmax & _). rewrite Hmax. by apply rsample_normal_spec.
  - by apply gap_normal_spec.
Qed.

(** The references that remain cover what remains. *)
Lemma reord_cover lo hi news r h r' h' out dropped rest :
  reord lo hi news r h r' h' out dropped -> sc_cover h (elems (rivs r) ++ news ++ rest) ->
  sc_cover h' (elems (rivs r') ++ rest).
Proof.
  intros Hre Hc m. specialize (Hc m). rewrite (re_refs _ _ _ _ _ _ _ _ _ Hre).
  pose proof (elem_refs_perm m _ _ (re_elems _ _ _ _ _ _ _ _ _ Hre)) as Hp.
  rewrite !elem_refs_app in *. pose proof (elem_refs_nonneg m out.1.1). pose proof (elem_refs_nonneg m news).
  destruct (out.1.2 =? 1); simpl in Hp; lia.
Qed.

Lemma reorder_run_spec l : forall r h,
  reorder_ok r -> rc_wf h -> rr_mode r = NN_REORDER_MODE_NORMAL -> Forall arr_ok l ->
  sc_cover h (elems (rivs r) ++ mjoin (map arr_news l)) ->
  exists r' h' d dropped accepted,
    reorder_run r h l = Some (r', h', d) /\ reorder_ok r' /\ rc_wf h' /\
    fits (rr_next_seq r) (rr_next_seq r') d /\
    sublist accepted (mjoin (map arr_news l)) /\
    elems (rivs r') ++ d ++ dropped ≡ₚ elems (rivs r) ++ accepted /\
    (forall m, rc h' m = rc h m - elem_refs m dropped).
Proof.
  induction l as [|a l IH]; intros r h Hok Hwf Hm Hl Hc.
  - exists r, h, [], [], []. split; [done|]. split; [done|]. split; [done|]. split; [simpl; lia|].
    split; [constructor|]. split; [done|]. intros m. simpl. lia.
  - apply Forall_cons in Hl as [Ha Hl]. cbn [map mjoin] in Hc.
    destruct (step_spec r h a Hok Hwf Hm Ha) as (r1 & h1 & out & dr & E1 & Hre & _).
    { intros m. specialize (Hc m). simpl in Hc. rewrite !elem_refs_app in *.
      pose proof (elem_refs_nonneg m (mjoin (map arr_news l))). unfold mjoin in *. simpl in Hc. lia. }
    destruct (IH r1 h1) as (r2 & h2 & d & dr2 & acc & E2 & Hok2 & Hwf2 & Hf2 & Hs2 & He2 & Hr2).
    { apply Hre. }
    { apply Hre. }
    { rewrite <- Hm. apply Hre. }
    { done. }
    { eapply reord_cover; eauto. }
    exists r2, h2, (out.1.1 ++ d), (dr ++ dr2), ((if out.1.2 =? 1 then arr_news a else []) ++ acc).
    cbn [reorder_run]. rewrite E1. cbn [mbind option_bind]. rewrite E2. split; [done|].
    split; [done|]. split; [done|]. split; [eapply fits_app; [apply Hre|done]|]. split; [|split].
    + cbn [map mjoin]. apply sublist_app; [|done]. destruct (out.1.2 =? 1); [done|apply sublist_nil_l].
    + pose proof (re_elems _ _ _ _ _ _ _ _ _ Hre) as He1.
      rewrite (app_assoc (elems (rivs r))), <- He1.
      transitivity ((elems (rivs r2) ++ d ++ dr2) ++ out.1.1 ++ dr); [solve_Permutation|].
      rewrite He2. solve_Permutation.
    + intros m. rewrite Hr2, (re_refs _ _ _ _ _ _ _ _ _ Hre), elem_refs_app. lia.
Qed.

(** ** Enough room: nothing is lost *)

Definition arr_unhindered (a : arrival) : Prop :=
  match a with ArrSample _ _ full => full = false | ArrGap _ _ _ => True end.

Lemma arr_news_one a : arr_ok a -> length (arr_news a) = 1%nat.
Proof. destruct a as [s la full|rd lo hi]; simpl; [|done]. intros Hs. apply (sample_in_good _ s Hs). Qed.

Lemma step_room_spec r h a :
  reorder_ok r -> rc_wf h -> rr_mode r = NN_REORDER_MODE_NORMAL -> arr_ok a -> arr_unhindered a ->
  sc_cover h (elems (rivs r) ++ arr_news a) -> rr_n_samples r < rr_max_samples r ->
  exists r' h' out, reorder_step r h a = Some (r', h', out) /\
    reord (arr_range a).1 (arr_range a).2 (arr_news a) r h r' h' out [] /\
    rr_n_samples r' <= rr_n_samples r + 1 /\
    (forall q, known r q \/ (arr_range a).1 <= q < (arr_range a).2 -> known r' q) /\
    (forall s la full, a = ArrSample s la full -> 0 <= out.2 -> out.1.2 = 1).
Proof.
  intros Hok Hwf Hm Ha Hu Hc Hroom.
  destruct (step_spec r h a Hok Hwf Hm Ha Hc) as (r' & h' & out & dr & E & Hre & Hans).
  destruct (re_dropped _ _ _ _ _ _ _ _ _ Hre) as [->|[? _]]; [|lia].
  exists r', h', out. split; [done|]. split; [done|]. split; [|split].
  - rewrite (rk_n _ Hok), (rk_n _ (re_ok _ _ _ _ _ _ _ _ _ Hre)).
    pose proof (Permutation_length (re_elems _ _ _ _ _ _ _ _ _ Hre)) as Hp.
    rewrite !length_app in Hp. pose proof (arr_news_one a Ha). destruct (out.1.2 =? 1); simpl in Hp; lia.
  - assert (Hr : forall q, (arr_range a).1 <= q < (arr_range a).2 -> known r q \/ 0 <= out.2).
    { destruct a as [s la full|rd lo hi]; simpl in Hans, Hu |- *; intros q Hq.
      - subst full. destruct (sample_in_good _ s Ha) as (_ & _ & Hmax & _).
        assert (q = ro_min s) as -> by lia. unfold answers in Hans.
        destruct (Z.ltb_spec (ro_min s) (rr_next_seq r)); [left; by left|].
        destruct (Z.eqb_spec (ro_min s) (rr_next_seq r)); [right; lia|]. destruct Hans as [[_ [Hk|[?|?]]]|[Hr _]]; [left; by right|done|lia|right; by rewrite Hr].
      - unfold gap_answers in Hans. destruct (Z.leb_spec hi (rr_next_seq r)); [left; left; lia|].
        destruct (Z.leb_spec lo (rr_next_seq r)); [right; lia|].
        destruct Hans as [Hr|[_ [Hk|?]]]; [right; by rewrite Hr|left; right; auto|lia]. }
    intros q Hq. apply (re_known _ _ _ _ _ _ _ _ _ Hre eq_refl).
    destruct Hq as [|Hq]; [by left|]. destruct (Hr q Hq); [by left|by right].
  - intros s la full -> Hpos. simpl in Hans. unfold answers in Hans.
    destruct (Z.ltb_spec (ro_min s) (rr_next_seq r)); [rewrite Hans in Hpos; done|].
    destruct (Z.eqb_spec (ro_min s) (rr_next_seq r)).
    + destruct full; [rewrite Hans in Hpos; done|tauto].
    + destruct Hans as [[Hr _]|(_ & ? & _)]; [rewrite Hr in Hpos; done|done].
Qed.

Definition arr_sample (a : arrival) : Prop :=
  match a with ArrSample _ _ _ => True | ArrGap _ _ _ => False end.

(** Every number above [n0] that is known is delivered ([d]) or stored. *)
Definition present (n0 : Z) r (d : list rsample_chain_elem) : Prop :=
  forall q, n0 <= q -> known r q -> q ∈ elem_seqs (d ++ elems (rivs r)).

Lemma elem_seqs_perm a b : a ≡ₚ b -> elem_seqs a ≡ₚ elem_seqs b.
Proof.
  induction 1 as [|e a b Hp IH|e1 e2 a|a b c Hp1 IH1 Hp2 IH2]; simpl; [done|..].
  - destruct (ce_sampleinfo e); by rewrite IH.
  - destruct (ce_sampleinfo e1), (ce_sampleinfo e2); solve_Permutation.
  - by rewrite IH1.
Qed.

Lemma present_step n0 r h r' h' out s d :
  reord (ro_min s) (ro_maxp1 s) (ro_sc s) r h r' h' out [] -> sample_in (ro_min s) s ->
  (0 <= out.2 -> out.1.2 = 1) -> present n0 r d -> present n0 r' (d ++ out.1.1).
Proof.
  intros Hre (c & i & Es & Hi) Hadj Hp q Hq Hk.
  pose proof (elem_seqs_perm _ _ (re_elems _ _ _ _ _ _ _ _ _ Hre)) as He. rewrite app_nil_r in He.
  assert (Hgoal : q ∈ elem_seqs d \/ q ∈ elem_seqs (elems (rivs r') ++ out.1.1)).
  { destruct (re_sound _ _ _ _ _ _ _ _ _ Hre q Hk) as [Hk'|[Hpos Hr]].
    - specialize (Hp q Hq Hk'). rewrite elem_seqs_app, elem_of_app in Hp. destruct Hp as [|Hp]; [by left|right].
      rewrite He, elem_seqs_app, elem_of_app. by left.
    - right. rewrite He, elem_seqs_app, elem_of_app, (Hadj Hpos). right. rewrite Es in Hr |- *. simpl in *.
      rewrite Hi. apply list_elem_of_singleton. lia. }
  rewrite !elem_seqs_app, !elem_of_app in *. tauto.
Qed.

Lemma run_room_spec n0 l : forall r h d0,
  reorder_ok r -> rc_wf h -> rr_mode r = NN_REORDER_MODE_NORMAL ->
  Forall arr_ok l -> Forall arr_unhindered l ->
  sc_cover h (elems (rivs r) ++ mjoin (map arr_news l)) ->
  rr_n_samples r + Z.of_nat (length l) <= rr_max_samples r ->
  exists r' h' d,
    reorder_run r h l = Some (r', h', d) /\ reorder_ok r' /\ fits (rr_next_seq r) (rr_next_seq r') d /\
    (forall q, known r q \/ (exists a, a ∈ l /\ (arr_range a).1 <= q < (arr_range a).2) -> known r' q) /\
    (Forall arr_sample l -> present n0 r d0 -> present n0 r' (d0 ++ d)).
Proof.
  induction l as [|a l IH]; intros r h d0 Hok Hwf Hm Hl Hu Hc Hroom.
  - exists r, h, []. split; [done|]. split; [done|]. split; [simpl; lia|]. split; [|by rewrite app_nil_r].
    intros q [|(a & Ha & _)]; [done|by apply elem_of_nil in Ha].
  - apply Forall_cons in Hl as [Ha Hl], Hu as [Hua Hu]. simpl length in Hroom.
    destruct (step_room_spec r h a Hok Hwf Hm Ha Hua) as (r1 & h1 & out & E1 & Hre & Hn1 & Hk1 & Hadj); [|lia|].
    { intros m. specialize (Hc m). cbn [map mjoin] in Hc. unfold mjoin in Hc. simpl in Hc.
      rewrite !elem_refs_app in *. pose proof (elem_refs_nonneg m (mjoin (map arr_news l))). unfold mjoin in *. lia. }
    destruct (re_conf _ _ _ _ _ _ _ _ _ Hre) as [Hcm Hcs].
    destruct (IH r1 h1 (d0 ++ out.1.1)) as (r2 & h2 & d & E2 & Hok2 & Hf2 & Hk2 & Hp2); auto.
    { apply Hre. }
    { apply Hre. }
    { congruence. }
    { eapply reord_cover; eauto. }
    { lia. }
    exists r2, h2, (out.1.1 ++ d). cbn [reorder_run]. rewrite E1. cbn [mbind option_bind]. rewrite E2.
    split; [done|]. split; [done|]. split; [eapply fits_app; [apply Hre|done]|]. split.
    + intros q Hq. apply Hk2. destruct Hq as [Hq|(b & Hb & Hq)]; [left; apply Hk1; by left|].
      apply elem_of_cons in Hb as [->|Hb]; [left; apply Hk1; by right|right; eauto].
    + intros [Hs Hss]%Forall_cons Hp. rewrite app_assoc. apply Hp2; [done|].
      destruct a as [s la full|]; [|done]. simpl in Hre, Ha.
      eapply present_step; eauto.
Qed.

(** Stored samples are beyond the next expected number. *)
Lemma stored_beyond r q : reorder_ok r -> q ∈ elem_seqs (elems (rivs r)) -> rr_next_seq r < q.
Proof.
  intros [[_ [_ Hg] _ Hnx] _ _ _] Hq. induction (rivs r) as [|a l IH]; [by apply elem_of_nil in Hq|].
  rewrite elems_cons, elem_seqs_app, elem_of_app in Hq. apply Forall_cons in Hg as [Ga Hg], Hnx as [Na Hnx].
  destruct Hq as [Hq|Hq]; [|auto]. destruct (fits_seqs _ _ _ (rg_fits _ Ga)) as [_ Hr].
  rewrite Forall_forall in Hr. specialize (Hr q Hq). simpl in Hr. lia.
Qed.

(** Samples in any order, repeated or not: exactly the numbers from the next
    expected one on are delivered, each once and in order. *)
Lemma run_exactly_once r h l n :
  reorder_ok r -> rc_wf h -> rr_mode r = NN_REORDER_MODE_NORMAL -> rivs r = [] ->
  Forall arr_ok l -> Forall arr_unhindered l -> Forall arr_sample l ->
  sc_cover h (mjoin (map arr_news l)) -> Z.of_nat (length l) <= rr_max_samples r ->
  (forall q, rr_next_seq r <= q < n -> exists a, a ∈ l /\ (arr_range a).1 = q) ->
  exists r' h' d, reorder_run r h l = Some (r', h', d) /\
    (rr_next_seq r <= n -> n <= rr_next_seq r') /\
    StronglySorted Z.lt (elem_seqs d) /\
    (forall q, q ∈ elem_seqs d <-> rr_next_seq r <= q < rr_next_seq r').
Proof.
  intros Hok Hwf Hm He Hl Hu Hs Hc Hroom Hall.
  assert (Hn0 : rr_n_samples r = 0) by (rewrite (rk_n _ Hok), He; done).
  destruct (run_room_spec (rr_next_seq r) l r h []) as (r' & h' & d & E & Hok' & Hf & Hk & Hp); auto.
  { by rewrite He. }
  { lia. }
  exists r', h', d. split; [done|]. destruct (fits_seqs _ _ _ Hf) as [Hst Hr].
  pose proof (fits_le _ _ _ Hf) as Hle. split; [|split; [done|]].
  - intros Hn. destruct (Z.le_gt_cases n (rr_next_seq r')) as [|Hgt]; [done|exfalso].
    destruct (Hk (rr_next_seq r')) as [?|(iv & Hin & Hiv)]; [|lia|].
    { right. destruct (Hall (rr_next_seq r')) as (a & Ha & Hq); [lia|]. exists a. split; [done|].
      rewrite Forall_forall in Hl, Hs. specialize (Hl a Ha). specialize (Hs a Ha).
      destruct a as [s la full|]; [|done]. simpl in *. apply sample_in_good in Hl. lia. }
    pose proof (tk_next _ (rk_tree _ Hok')) as Hnx. rewrite Forall_forall in Hnx. specialize (Hnx iv Hin).
    simpl in Hnx. lia.
  - intros q. split.
    + intros Hq. rewrite Forall_forall in Hr. by apply Hr.
    + intros Hq. specialize (Hp Hs). destruct (elem_of_app (elem_seqs d) (elem_seqs (elems (rivs r'))) q) as [Hd _].
      destruct Hd as [|Hd]; [|done|].
      * rewrite <- elem_seqs_app. apply Hp; [|lia|left; lia].
        intros x Hx [Hk'|Hk']; [lia|]. rewrite He in Hk'. by apply rcov_nil in Hk'.
      * apply stored_beyond in Hd; [|done]. lia.
Qed.
End Runs.
