(* ===== verification/ReorderClaims.v ===== *)
(** * The theorems about the reorder administration, with witnesses

    The theorems hold for every implementation of the tree and reference count
    interfaces; the witnesses run them on the AVL trees of [Avl.v] and on plain
    reference counters. *)

From Stdlib Require Import ZArith Lia Sorting.Sorted.
From stdpp Require Import prelude gmap.
From S2P Require Import Prelude OrdTree Avl AvlProps Bitset Refs Defrag DefragOps Reorder ReorderFacts ReorderOps ReorderProps ReorderGap ReorderRun.

Section Claims.
Context {T : Type -> Type} `{!OrdTree T, !OrdTreeLaws T}.
Context {H : Type} `{!RmsgRefs H, !RmsgRefsLaws H}.
Implicit Types (r : nn_reorder T) (h : H).

Lemma reorder_new_ok mode max_samples :
  0 <= max_samples < 2 ^ 32 - 1 -> reorder_ok (nn_reorder_new mode max_samples : nn_reorder T).
Proof.
  intros Hm. assert (He : rivs (nn_reorder_new mode max_samples : nn_reorder T) = []) by apply ot_init_elements.
  split; [split|..]; rewrite ?He; simpl; auto; [apply ot_init_wf|by split; constructor].
Qed.

(** [nn_reorder_rsample] in the normal mode keeps the invariant of the
    administration (disjoint, apart intervals beyond the next expected number,
    a sample count within its limit), delivers only a chain that continues
    where the last one ended, neither loses nor duplicates a chain element or
    a reference, and answers TOO_OLD, REJECT or ACCEPT for the right reason. *)
Theorem reorder_rsample_ok r h s q late_ack full :
  reorder_ok r -> rc_wf h -> rr_mode r = NN_REORDER_MODE_NORMAL -> sample_in q s ->
  sc_cover h (elems (rivs r) ++ ro_sc s) ->
  exists r' h' out dropped, nn_reorder_rsample r h s late_ack full = Some (r', h', out) /\
    reord q (q + 1) (ro_sc s) r h r' h' out dropped /\ answers r q full out.
Proof. apply rsample_normal_spec. Qed.

(** [nn_reorder_gap] keeps the invariant; the whole range becomes known
    (intervals that touch it are merged), a gap that reaches the next expected
    number releases the samples behind it, and a refused gap was known
    already or found no room. *)
Theorem reorder_gap_ok r h rd lo hi :
  reorder_ok r -> rc_wf h -> rr_mode r = NN_REORDER_MODE_NORMAL -> lo < hi ->
  sc_cover h (elems (rivs r) ++ gap_news rd) ->
  exists r' h' out dropped, nn_reorder_gap r h rd lo hi = Some (r', h', out) /\
    reord lo hi (gap_news rd) r h r' h' out dropped /\ gap_answers r lo hi out.
Proof. apply gap_normal_spec. Qed.

(** A build with the two assertions that [nn_reorder_rsample] and
    [nn_reorder_gap] leave out (on the element before the last in
    [delete_last_sample], and on the length of the released range) does the
    same as one without them, unless one of the two fails. *)
Theorem reorder_builds_agree r h (x : nn_reorder T * H * outcome) :
  (forall s la full, nn_reorder_rsample_build false r h s la full = Some x -> nn_reorder_rsample r h s la full = Some x) /\
  (forall rd lo hi, nn_reorder_gap_build false r h rd lo hi = Some x -> nn_reorder_gap r h rd lo hi = Some x).
Proof. split; intros *; [apply rsample_builds|apply gap_builds]. Qed.

(** C13: in the normal mode, whatever samples and gaps arrive in whatever
    order, each of them a range that ends after its start (so a sample has a
    number less than 2^63 - 1), every call succeeds (the assertions on the element before the last
    in [delete_last_sample] and on the length of the released range apart, which
    gaps can make fail and which are compiled out here, no assertion fails)
    and the samples are delivered in strictly increasing order of their
    sequence numbers; the elements stored, delivered and dropped in the end are
    those stored at the start and those accepted, and the references taken
    back are those of the dropped ones. *)
Theorem reorder_run_in_order r h l :
  reorder_ok r -> rc_wf h -> rr_mode r = NN_REORDER_MODE_NORMAL -> Forall arr_ok l ->
  sc_cover h (elems (rivs r) ++ mjoin (map arr_news l)) ->
  exists r' h' d dropped accepted,
    reorder_run r h l = Some (r', h', d) /\ reorder_ok r' /\
    StronglySorted Z.lt (elem_seqs d) /\
    Forall (fun q => rr_next_seq r <= q < rr_next_seq r') (elem_seqs d) /\
    sublist accepted (mjoin (map arr_news l)) /\
    elems (rivs r') ++ d ++ dropped ≡ₚ elems (rivs r) ++ accepted /\
    (forall m, rc h' m = rc h m - elem_refs m dropped).
Proof.
  intros Hok Hwf Hm Hl Hc.
  destruct (reorder_run_spec l r h Hok Hwf Hm Hl Hc) as (r' & h' & d & dr & acc & E & Hok' & _ & Hf & Hs & He & Hr).
  destruct (fits_seqs _ _ _ Hf) as [Hsorted Hrange]. eauto 15.
Qed.

(** C14: with room for all of them, samples that arrive in any order, some
    repeatedly, are delivered exactly once and in order, and every sample up
    to the first missing one is delivered. *)
Theorem reorder_exactly_once r h l n :
  reorder_ok r -> rc_wf h -> rr_mode r = NN_REORDER_MODE_NORMAL -> rivs r = [] ->
  Forall arr_ok l -> Forall arr_unhindered l -> Forall arr_sample l ->
  sc_cover h (mjoin (map arr_news l)) -> Z.of_nat (length l) <= rr_max_samples r ->
  (forall q, rr_next_seq r <= q < n -> exists a, a ∈ l /\ (arr_range a).1 = q) ->
  exists r' h' d, reorder_run r h l = Some (r', h', d) /\
    (rr_next_seq r <= n -> n <= rr_next_seq r') /\
    StronglySorted Z.lt (elem_seqs d) /\
    (forall q, q ∈ elem_seqs d <-> rr_next_seq r <= q < rr_next_seq r').
Proof. apply run_exactly_once. Qed.

(** In the modes for best-effort data nothing is stored: a sample is
    delivered at once unless it is too old (monotonic mode) or the delivery
    queue is full. *)
Theorem reorder_other_modes r h s q late_ack full :
  reorder_ok r -> rr_mode r <> NN_REORDER_MODE_NORMAL -> sample_in q s ->
  nn_reorder_rsample r h s late_ack full =
    Some (if bool_decide (rr_mode r = NN_REORDER_MODE_MONOTONICALLY_INCREASING) && (q <? rr_next_seq r)
          then (r, h, ([], 0, NN_REORDER_TOO_OLD))
          else if full then (r, h, ([], 0, NN_REORDER_REJECT))
          else (set_next_seq r (q + 1), h, (ro_sc s, 1, 1))).
Proof. apply rsample_modes_spec. Qed.

(** [nn_reorder_wantsample] says yes exactly for the sequence numbers
    that are neither delivered, nor stored, nor in a gap. *)
Theorem reorder_wantsample_exact r q :
  reorder_ok r -> nn_reorder_wantsample r q = true <-> ~ known r q.
Proof. apply wantsample_spec. Qed.

(** The bitmap of [nn_reorder_nackmap] starts at the requested or the
    next expected number, fits the buffer and the number of samples allowed,
    stays within [maxseq], has a bit set exactly for the missing numbers, and
    leaves out nothing but (with [notail]) a tail in which all is missing; the
    numbers are such that [maxseq + 1 - base] fits 64 bits. *)
Theorem reorder_nackmap_exact r base maxseq bits maxsz notail :
  reorder_ok r -> nack_range r base maxseq -> 0 <= maxsz <= 256 -> bits_ok maxsz bits ->
  let base0 := Z.min base (rr_next_seq r) in
  let size := Z.min maxsz (rr_max_samples r) in
  exists numbits bits',
    nn_reorder_nackmap r base maxseq bits maxsz notail =
      Some (numbits, SequenceNumberSet (toSN base0) numbits bits') /\
    0 <= numbits <= size /\ length bits' = length bits /\
    (forall x, 0 <= x < numbits -> base0 + x <= maxseq /\
       (nn_bitset_isset numbits bits' x = Some true <-> ~ rcov (rivs r) (base0 + x))) /\
    (forall q, base0 + numbits <= q <= maxseq -> q < base0 + size ->
       notail = true /\ ~ rcov (rivs r) q).
Proof. apply reorder_nackmap_spec. Qed.

(** [nn_reorder_free] gives back exactly one reference for every
    fragment of every stored sample and gap. *)
Theorem reorder_free_balanced r h :
  reorder_ok r -> rc_wf h -> sc_cover h (elems (rivs r)) ->
  exists h', nn_reorder_free r h = Some h' /\ rc_wf h' /\
    forall m, rc h' m = rc h m - elem_refs m (elems (rivs r)).
Proof. apply reorder_free_spec. Qed.

(** C39: when the administration is full and its last interval ends in a gap
    after its last sample [e], storing a sample before it (here one that
    touches no other) drops [e], but only the last number of the interval: the
    number of [e] stays known although no sample with it is stored, so it is no
    longer wanted and every copy of it that arrives is rejected. *)
Theorem reorder_dropped_sample_is_lost r h s x z l e i la :
  reorder_ok r -> rc_wf h -> rr_mode r = NN_REORDER_MODE_NORMAL -> sample_in x s ->
  sc_cover h (elems (rivs r) ++ ro_sc s) -> rr_n_samples r = rr_max_samples r -> rr_next_seq r < x ->
  (forall y, x - 1 <= y <= x + 1 -> ~ rcov (rivs r) y) ->
  last (rivs r) = Some z -> x < ro_min z -> ro_sc z = l ++ [e] -> l <> [] ->
  ce_sampleinfo e = Some i -> si_seq i + 1 < ro_maxp1 z ->
  exists r' h', nn_reorder_rsample r h s la false = Some (r', h', ([], 1, NN_REORDER_ACCEPT)) /\
    elems (rivs r') ++ [e] ≡ₚ elems (rivs r) ++ ro_sc s /\
    ~ si_seq i ∈ elem_seqs (elems (rivs r')) /\ nn_reorder_wantsample r' (si_seq i) = false /\
    forall s' h1 la1 full1, sample_in (si_seq i) s' ->
      nn_reorder_rsample r' h1 s' la1 full1 = Some (r', h1, ([], 0, NN_REORDER_REJECT)).
Proof.
  intros Hok Hwf Hm Hs Hc Hn Hx Hap Ez Hxz Esc Hl Hi Hend.
  destruct (full_apart_spec r h s x z la) as (r1 & r' & h' & e' & E & Hre & Ed & Hst & Ez1); auto.
  pose proof Ez as [l0 El]%last_Some. pose proof (rk_tree _ Hok) as [_ Ho _ _]. rewrite El in Ho.
  apply ro_ok_mid in Ho as (Ol & _ & Gz & Sl & _).
  destruct (fits_last _ _ _ _ _ ltac:(rewrite <- Esc; apply (rg_fits _ Gz)) Hi) as [Hla Hlb].
  assert (He : elems (rivs r) = (elems l0 ++ l) ++ [e]).
  { rewrite El, elems_app, elems_cons, Esc. change (elems []) with (@nil rsample_chain_elem). by rewrite app_nil_r, app_assoc. }
  assert (e' = e) as ->.
  { destruct (re_old _ _ _ _ _ _ _ _ _ Hre) as [rest Hr]. rewrite He in Hr. by apply app_inj_tail in Hr as [_ ->]. }
  assert (Hmin : ro_min z <= si_seq i) by (apply (seq_above_min z l e i); auto).
  assert (Hk : rcov (rivs r') (si_seq i)).
  { eapply delete_last_covers; [apply Hst|exact Ez1| |exact Ed| |lia].
    - rewrite Esc, length_app. destruct l; [done|]. simpl. lia.
    - apply Hst. left. exists z. split; [rewrite El; set_solver|lia]. }
  assert (Hp : elems (rivs r') ≡ₚ (elems l0 ++ l) ++ ro_sc s).
  { pose proof (re_elems _ _ _ _ _ _ _ _ _ Hre) as Hp. simpl in Hp. rewrite He in Hp.
    apply (Permutation_app_inv_r [e]). rewrite Hp. solve_Permutation. }
  exists r', h'. split_and!; [done|apply (re_elems _ _ _ _ _ _ _ _ _ Hre)| | |].
  - rewrite (elem_seqs_perm _ _ Hp), !elem_seqs_app, !elem_of_app. destruct Hs as (c & j & -> & Hj). simpl.
    rewrite Forall_forall in Hla. intros [[Hq|Hq]|Hq%list_elem_of_singleton].
    + apply (elems_below l0 (ro_min z)) in Hq; [lia|apply Ol|]. eapply Forall_impl; [exact Sl|]. unfold rsep. simpl. lia.
    + specialize (Hla _ Hq). simpl in Hla. lia.
    + lia.
  - destruct (nn_reorder_wantsample r' (si_seq i)) eqn:Ew; [|done].
    apply (wantsample_spec _ _ (re_ok _ _ _ _ _ _ _ _ _ Hre)) in Ew. destruct Ew. by right.
  - intros s' h1 la1 full1 Hs'. apply (rsample_known _ _ _ (si_seq i)); auto; [apply Hre|].
    destruct (re_conf _ _ _ _ _ _ _ _ _ Hre) as [Hcm _]. congruence.
Qed.
End Claims.

(** A 64-bit sequence number survives the conversion to the wire format
    and back. *)
Theorem toSN_fromSN n : in_s 64 n -> fromSN (toSN n) = n.
Proof. apply toSN_fromSN_inv. Qed.

(** ** A concrete administration *)

Definition demo_info (q : Z) : rsample_info := RsampleInfo q 0 0 8 8 (0, 0) 0 0 0 false false.
Definition demo_rdata (q : Z) : rdata := Rdata (0, 64) 0 8 0 (16 * q).
Definition demo_sample (q : Z) : rsample_reorder :=
  RsampleReorder [ChainElem [demo_rdata q] (Some (demo_info q))] q (q + 1) 1.
Definition demo_refs : RefCounts := {[ (0, 64) := 1000 ]}.

Lemma demo_sample_in q : sample_in q (demo_sample q).
Proof. by eexists _, _. Qed.

Lemma demo_refs_wf : rc_wf demo_refs.
Proof. apply map_Forall_singleton. lia. Qed.

(** Chains with few fragments of the one message are covered. *)
Lemma demo_cover (sc : list rsample_chain_elem) :
  Forall (fun e => Forall (fun x => rd_rmsg x = (0, 64)) (ce_fragchain e) /\ (length (ce_fragchain e) <= 1)%nat) sc ->
  (length sc <= 1000)%nat -> sc_cover demo_refs sc.
Proof.
  intros Hf Hl m. assert (Hb : elem_refs m sc <= if decide (m = (0, 64)) then Z.of_nat (length sc) else 0).
  { clear Hl. induction Hf as [|e sc [He Hlen] Hf IH]; simpl; [case_decide; done|].
    destruct (ce_fragchain e) as [|x [|]]; simpl in *; [case_decide; lia| |lia].
    apply Forall_cons in He as [-> _]. case_decide; lia. }
  change (rc demo_refs m) with (default 0 (demo_refs !! m)). case_decide as Hd.
  - subst m. unfold demo_refs. rewrite lookup_singleton_eq. simpl. lia.
  - unfold demo_refs. rewrite lookup_singleton_ne by done. simpl. lia.
Qed.

Definition demo_new (max_samples : Z) : nn_reorder AvlTree := nn_reorder_new NN_REORDER_MODE_NORMAL max_samples.

Definition demo_arrivals (l : list Z) : list arrival :=
  map (fun q => ArrSample (demo_sample q) false false) l.

Lemma demo_arrivals_ok l : Forall arr_ok (demo_arrivals l).
Proof. apply Forall_forall. intros a (q & -> & _)%list_elem_of_fmap. apply demo_sample_in. Qed.

Ltac demo_cover_tac := apply demo_cover; [repeat constructor|vm_compute; lia].

(** The state after some arrivals: 3, 4 and 7 are stored, 1 is delivered. *)
Definition demo_log : list arrival := demo_arrivals [3; 7; 4; 1].

Definition demo_state : nn_reorder AvlTree :=
  match reorder_run (demo_new 8) demo_refs demo_log with Some (r, _, _) => r | None => demo_new 8 end.

Lemma demo_new_ok n : 0 <= n < 1000 -> reorder_ok (demo_new n).
Proof. intros Hn. apply reorder_new_ok. lia. Qed.

Lemma demo_state_ok : reorder_ok demo_state.
Proof.
  destruct (reorder_run_spec demo_log (demo_new 8) demo_refs) as (r & h & d & ? & ? & E & Hok & _);
    [by apply demo_new_ok|apply demo_refs_wf|done|apply demo_arrivals_ok|demo_cover_tac|].
  unfold demo_state. by rewrite E.
Qed.

(** ** Witnesses *)

Lemma reorder_rsample_ok_witness :
  exists r' h' out dropped,
    nn_reorder_rsample demo_state demo_refs (demo_sample 6) false false = Some (r', h', out) /\
    reord 6 (6 + 1) (ro_sc (demo_sample 6)) demo_state demo_refs r' h' out dropped /\
    out.2 = NN_REORDER_ACCEPT.
Proof.
  destruct (reorder_rsample_ok demo_state demo_refs (demo_sample 6) 6 false false demo_state_ok demo_refs_wf)
    as (r' & h' & out & dr & E & Hre & _); [vm_compute; reflexivity|apply demo_sample_in|demo_cover_tac|].
  exists r', h', out, dr. split; [exact E|]. split; [exact Hre|].
  vm_compute in E. injection E as _ _ <-. reflexivity.
Defined.

Lemma reorder_gap_ok_witness :
  exists r' h' out dropped,
    nn_reorder_gap demo_state demo_refs (demo_rdata 2) 2 6 = Some (r', h', out) /\
    reord 2 6 (gap_news (demo_rdata 2)) demo_state demo_refs r' h' out dropped /\
    elem_seqs out.1.1 = [3; 4].
Proof.
  destruct (reorder_gap_ok demo_state demo_refs (demo_rdata 2) 2 6 demo_state_ok demo_refs_wf)
    as (r' & h' & out & dr & E & Hre & _); [vm_compute; reflexivity|lia|demo_cover_tac|].
  exists r', h', out, dr. split; [exact E|]. split; [exact Hre|].
  vm_compute in E. injection E as _ _ <-. reflexivity.
Defined.

Lemma reorder_run_in_order_witness :
  exists r' h' d,
    reorder_run (demo_new 3) demo_refs (demo_arrivals [5; 2; 3; 7; 1]) = Some (r', h', d) /\
    reorder_ok r' /\ StronglySorted Z.lt (elem_seqs d).
Proof.
  destruct (reorder_run_in_order (demo_new 3) demo_refs (demo_arrivals [5; 2; 3; 7; 1]))
    as (r' & h' & d & _ & _ & E & Hok & Hs & _);
    [apply demo_new_ok; lia|apply demo_refs_wf|reflexivity|apply demo_arrivals_ok|demo_cover_tac|].
  exists r', h', d. split; [exact E|]. split; [exact Hok|exact Hs].
Defined.

Lemma reorder_exactly_once_witness :
  exists r' h' d,
    reorder_run (demo_new 8) demo_refs (demo_arrivals [3; 2; 3; 5; 1]) = Some (r', h', d) /\
    4 <= rr_next_seq r' /\ forall q, q ∈ elem_seqs d <-> 1 <= q < rr_next_seq r'.
Proof.
  destruct (reorder_exactly_once (demo_new 8) demo_refs (demo_arrivals [3; 2; 3; 5; 1]) 4)
    as (r' & h' & d & E & Hn & _ & Hd);
    [apply demo_new_ok; lia|apply demo_refs_wf|reflexivity|reflexivity|apply demo_arrivals_ok
    |repeat constructor|repeat constructor|demo_cover_tac|vm_compute; discriminate| |].
  - intros q Hq. exists (ArrSample (demo_sample q) false false). split; [|reflexivity].
    apply list_elem_of_fmap. exists q. split; [reflexivity|]. simpl in Hq.
    assert (Hc : q = 1 \/ q = 2 \/ q = 3) by lia. destruct Hc as [->|[->| ->]]; set_solver.
  - exists r', h', d. split; [exact E|]. split; [apply Hn; vm_compute; discriminate|exact Hd].
Defined.

Lemma reorder_other_modes_witness :
  nn_reorder_rsample (nn_reorder_new NN_REORDER_MODE_MONOTONICALLY_INCREASING 8 : nn_reorder AvlTree)
    demo_refs (demo_sample 5) false false =
  Some (set_next_seq (nn_reorder_new NN_REORDER_MODE_MONOTONICALLY_INCREASING 8) 6, demo_refs,
        (ro_sc (demo_sample 5), 1, 1)).
Proof.
  rewrite (reorder_other_modes _ _ _ 5 false false);
    [reflexivity|apply reorder_new_ok; lia|discriminate|apply demo_sample_in].
Defined.

Lemma reorder_wantsample_exact_witness : ~ known demo_state 5.
Proof.
  apply (reorder_wantsample_exact demo_state 5 demo_state_ok). vm_compute. reflexivity.
Defined.

Lemma reorder_nackmap_exact_witness :
  exists numbits bits',
    nn_reorder_nackmap demo_state 2 9 [0; 0] 64 false =
      Some (numbits, SequenceNumberSet (toSN 2) numbits bits') /\ 0 <= numbits <= 8 /\
    bits' = [Z.shiftl 1 31 + Z.shiftl 1 28 + Z.shiftl 1 27 + Z.shiftl 1 25 + Z.shiftl 1 24; 0].
Proof.
  destruct (reorder_nackmap_exact demo_state 2 9 [0; 0] 64 false demo_state_ok)
    as (numbits & bits' & E & Hn & _); [vm_compute; intuition discriminate|lia|split; [lia|split; [repeat constructor; lia|simpl; lia]]|].
  exists numbits, bits'. split; [exact E|]. split; [exact Hn|].
  vm_compute in E. injection E as _ _ <-. reflexivity.
Defined.

Lemma reorder_free_balanced_witness :
  exists h', nn_reorder_free demo_state demo_refs = Some h' /\ rc h' (0, 64) = 997.
Proof.
  destruct (reorder_free_balanced demo_state demo_refs demo_state_ok demo_refs_wf) as (h' & E & _ & Hr);
    [demo_cover_tac|].
  exists h'. split; [exact E|]. rewrite Hr. vm_compute. reflexivity.
Defined.

Lemma toSN_fromSN_witness : fromSN (toSN (-5)) = -5.
Proof. apply (toSN_fromSN (-5)). split; vm_compute; [discriminate|reflexivity]. Defined.

(** Two samples and a gap after them fill an administration of two. *)
Definition demo_gap_state : nn_reorder AvlTree :=
  match reorder_run (demo_new 2) demo_refs (demo_arrivals [5; 6] ++ [ArrGap (demo_rdata 7) 7 10]) with
  | Some (r, _, _) => r
  | None => demo_new 2
  end.

Lemma demo_gap_state_ok : reorder_ok demo_gap_state.
Proof.
  destruct (reorder_run_spec (demo_arrivals [5; 6] ++ [ArrGap (demo_rdata 7) 7 10]) (demo_new 2) demo_refs)
    as (r & h & d & ? & ? & E & Hok & _);
    [by apply demo_new_ok|apply demo_refs_wf|done| |demo_cover_tac|].
  { apply Forall_app. split; [apply demo_arrivals_ok|]. by repeat constructor. }
  unfold demo_gap_state. by rewrite E.
Qed.

Lemma demo_gap_state_ivs :
  rivs demo_gap_state = [RsampleReorder (ro_sc (demo_sample 5) ++ ro_sc (demo_sample 6)) 5 10 2].
Proof. vm_compute. reflexivity. Qed.

Lemma reorder_dropped_sample_is_lost_witness :
  exists r' h', nn_reorder_rsample demo_gap_state demo_refs (demo_sample 3) false false =
      Some (r', h', ([], 1, NN_REORDER_ACCEPT)) /\
    nn_reorder_wantsample r' 6 = false /\
    nn_reorder_rsample r' h' (demo_sample 6) false false = Some (r', h', ([], 0, NN_REORDER_REJECT)).
Proof.
  destruct (reorder_dropped_sample_is_lost demo_gap_state demo_refs (demo_sample 3) 3
              (RsampleReorder (ro_sc (demo_sample 5) ++ ro_sc (demo_sample 6)) 5 10 2)
              (ro_sc (demo_sample 5)) (ChainElem [demo_rdata 6] (Some (demo_info 6))) (demo_info 6) false)
    as (r' & h' & E & _ & _ & Hw & Hr);
    [apply demo_gap_state_ok|apply demo_refs_wf|reflexivity|apply demo_sample_in|demo_cover_tac|reflexivity|reflexivity
    | |reflexivity|reflexivity|reflexivity|discriminate|reflexivity|reflexivity|].
  - intros y Hy. rewrite demo_gap_state_ivs. intros (iv & ->%list_elem_of_singleton & Hq). simpl in Hq. lia.
  - exists r', h'. split; [exact E|]. split; [exact Hw|]. apply (Hr _ h' false false (demo_sample_in 6)).
Defined.

(** The two assertions that are compiled out fail on valid arrivals: the
    element before the last may be a gap, and a sample may release a range
    that a gap made longer than 2^31. *)
Theorem reorder_assertions_fail :
  (exists r h d, reorder_run (demo_new 2) demo_refs [ArrGap (demo_rdata 5) 5 7; ArrSample (demo_sample 7) false false] = Some (r, h, d) /\
     nn_reorder_rsample_build false r h (demo_sample 3) false false = None /\
     exists y, nn_reorder_rsample_build true r h (demo_sample 3) false false = Some y) /\
  (exists r h d, reorder_run (demo_new 2) demo_refs [ArrGap (demo_rdata 2) 2 (2 + 2 ^ 31)] = Some (r, h, d) /\
     nn_reorder_rsample_build false r h (demo_sample 1) false false = None /\
     exists y, nn_reorder_rsample_build true r h (demo_sample 1) false false = Some y).
Proof.
  split; (eexists _, _, _; split; [vm_compute; reflexivity|]; split; [vm_compute; reflexivity|]; eexists; vm_compute; reflexivity).
Qed.
