(* ===== verification/Rmsg.v ===== *)
(** * Receive buffers and messages: the RBUFPOOL, RBUF and RMSG parts of
    [q_radmin.c], and [nn_rdata_new]

    A pool hands out messages ([nn_rmsg]) from its current receive buffer; a
    message is one or more chunks of memory, each in a buffer, and keeps its
    buffers alive by counting its chunks in [n_live_rmsg_chunks].

    The state is one pool with its buffers and messages.  A pointer to a buffer
    is its address, a pointer into a buffer is the buffer and an offset in
    [u.raw]; the chunks of a message, linked by [next] from [chunk] to
    [lastchunk], are a list.  What [os_malloc] returns is an argument.  [None]
    is a failed assertion or an access to freed memory.  Every operation is one
    step: the threads only share counters, which they change atomically. *)

From Stdlib Require Import ZArith Lia.
From stdpp Require Import prelude gmap.
From S2P Require Import Prelude Refs.

(** [struct nn_rmsg_chunk]: [ck_start] is the offset of what [nn_rbuf_alloc]
    returned for it, [ck_hdr] the distance from there to the payload. *)
Record rmsg_chunk : Type := RmsgChunk {
  ck_rbuf : Z;
  ck_start : Z;
  ck_hdr : Z;
  ck_size : Z;
}.

(** [struct nn_rmsg] *)
Record rmsg : Type := Rmsg {
  rm_refcount : Z;
  rm_chunks : list rmsg_chunk;
}.

(** [struct nn_rbuf] *)
Record rbuf : Type := Rbuf {
  rb_n_live_rmsg_chunks : Z;
  rb_size : Z;
  rb_max_rmsg_size : Z;
  rb_freeptr : Z;
}.

(** [struct nn_rbufpool], with the buffers and messages in it. *)
Record rbufpool : Type := Rbufpool {
  rp_current : Z;
  rp_rbuf_size : Z;
  rp_max_rmsg_size : Z;
  rp_rbufs : gmap Z rbuf;
  rp_rmsgs : gmap rmsg_addr rmsg;
}.

(** [offsetof (struct nn_rmsg, chunk.u.payload)] and
    [offsetof (struct nn_rmsg_chunk, u.payload)] on a 64-bit platform. *)
Definition RMSG_PAYLOAD_OFF : Z := 40.
Definition CHUNK_PAYLOAD_OFF : Z := 24.

(** [sizeof (struct nn_rdata)], likewise. *)
Definition SIZEOF_RDATA : Z := 32.

Definition align8uint32 (x : Z) : Z := Z.land (wrap_u 32 (x + 7)) (wrap_u 32 (-8)).

Definition max_uint32 (a b : Z) : Z := if a >=? b then a else b.

Definition max_rmsg_size_w_hdr (max_rmsg_size : Z) : Z :=
  wrap_u 32 (max_uint32 RMSG_PAYLOAD_OFF CHUNK_PAYLOAD_OFF + max_rmsg_size).

Implicit Types (p : rbufpool) (m : rmsg_addr) (c : rmsg_chunk).

(** The assignments to one field. *)
Definition set_rbufs p (b : gmap Z rbuf) : rbufpool :=
  Rbufpool (rp_current p) (rp_rbuf_size p) (rp_max_rmsg_size p) b (rp_rmsgs p).
Definition set_rmsgs p (ms : gmap rmsg_addr rmsg) : rbufpool :=
  Rbufpool (rp_current p) (rp_rbuf_size p) (rp_max_rmsg_size p) (rp_rbufs p) ms.
Definition set_current p (a : Z) : rbufpool :=
  Rbufpool a (rp_rbuf_size p) (rp_max_rmsg_size p) (rp_rbufs p) (rp_rmsgs p).
Definition set_freeptr (rb : rbuf) (o : Z) : rbuf :=
  Rbuf (rb_n_live_rmsg_chunks rb) (rb_size rb) (rb_max_rmsg_size rb) o.
Definition set_n_live (rb : rbuf) (n : Z) : rbuf :=
  Rbuf (wrap_u 32 n) (rb_size rb) (rb_max_rmsg_size rb) (rb_freeptr rb).
Definition set_size c (size : Z) : rmsg_chunk :=
  RmsgChunk (ck_rbuf c) (ck_start c) (ck_hdr c) size.

(** [chunk->u.payload + chunk->size] *)
Definition ck_end c : Z := ck_start c + ck_hdr c + ck_size c.

(** Writing to the last chunk of a message. *)
Definition set_last {A : Type} (l : list A) (x : A) : list A := removelast l ++ [x].

Definition nn_rbuf_alloc_new p (mem : option Z) : rbufpool * option Z :=
  match mem with
  | None => (p, None)
  | Some a => (set_rbufs p (<[a := Rbuf 1 (rp_rbuf_size p) (rp_max_rmsg_size p) 0]> (rp_rbufs p)), Some a)
  end.

Definition nn_rbuf_release p (a : Z) : option rbufpool :=
  rb ← rp_rbufs p !! a;
  let rb := set_n_live rb (rb_n_live_rmsg_chunks rb - 1) in
  if rb_n_live_rmsg_chunks rb =? 0
  then Some (set_rbufs p (delete a (rp_rbufs p)))
  else Some (set_rbufs p (<[a := rb]> (rp_rbufs p))).

(** [mem_pool] and [lock_ok]: whether the pool itself and its lock can be made. *)
Definition nn_rbufpool_new (rbuf_size max_rmsg_size : Z) (mem_pool lock_ok : bool) (mem : option Z)
  : option (option rbufpool) :=
  if (max_rmsg_size >? 0) && (rbuf_size >=? max_rmsg_size_w_hdr max_rmsg_size) then
    if mem_pool && lock_ok then
      match nn_rbuf_alloc_new (Rbufpool 0 rbuf_size max_rmsg_size ∅ ∅) mem with
      | (p, Some a) => Some (Some (set_current p a))
      | (_, None) => Some None
      end
    else Some None
  else None.

Definition nn_rbufpool_free p : option rbufpool := nn_rbuf_release p (rp_current p).

Definition nn_rbuf_new p (mem : option Z) : option (rbufpool * option Z) :=
  match nn_rbuf_alloc_new p mem with
  | (p, Some a) => p ← nn_rbuf_release p (rp_current p); Some (set_current p a, Some a)
  | (p, None) => Some (p, None)
  end.

Definition nn_rbuf_alloc p (mem : option Z) : option (rbufpool * option (Z * Z)) :=
  let asize := max_rmsg_size_w_hdr (rp_max_rmsg_size p) in
  rb ← rp_rbufs p !! rp_current p;
  if negb ((rb_freeptr rb >=? 0) && (rb_freeptr rb <=? rb_size rb)) then None
  else if rb_size rb - rb_freeptr rb <? asize then
    '(p, r) ← nn_rbuf_new p mem;
    match r with
    | None => Some (p, None)
    | Some a =>
        rb ← rp_rbufs p !! a;
        if rb_size rb - rb_freeptr rb >=? asize then Some (p, Some (a, rb_freeptr rb)) else None
    end
  else Some (p, Some (rp_current p, rb_freeptr rb)).

(** The chunk at [start] with its header of [hdr] bytes. *)
Definition init_rmsg_chunk p (a start hdr : Z) : option (rbufpool * rmsg_chunk) :=
  rb ← rp_rbufs p !! a;
  Some (set_rbufs p (<[a := set_n_live rb (rb_n_live_rmsg_chunks rb + 1)]> (rp_rbufs p)),
        RmsgChunk a start hdr 0).

Definition nn_rmsg_new p (mem : option Z) : option (rbufpool * option rmsg_addr) :=
  '(p, r) ← nn_rbuf_alloc p mem;
  match r with
  | None => Some (p, None)
  | Some (a, off) =>
      '(p, c) ← init_rmsg_chunk p (rp_current p) off RMSG_PAYLOAD_OFF;
      Some (set_rmsgs p (<[(a, off) := Rmsg RMSG_REFCOUNT_UNCOMMITTED_BIAS [c]]> (rp_rmsgs p)), Some (a, off))
  end.

(** [ASSERT_RMSG_UNCOMMITTED] *)
Definition uncommitted (rm : rmsg) : bool := rm_refcount rm >=? RMSG_REFCOUNT_UNCOMMITTED_BIAS.

Definition nn_rmsg_setsize p m (size : Z) : option rbufpool :=
  let size8 := align8uint32 size in
  rm ← rp_rmsgs p !! m;
  match rm_chunks rm with
  | [c] =>
      rb ← rp_rbufs p !! ck_rbuf c;
      if (rm_refcount rm =? RMSG_REFCOUNT_UNCOMMITTED_BIAS) && (ck_size c =? 0) &&
         (size8 <=? rb_max_rmsg_size rb)
      then Some (set_rmsgs p (<[m := Rmsg (rm_refcount rm) [set_size c size8]]> (rp_rmsgs p)))
      else None
  | _ => None
  end.

(** The loop of [nn_rmsg_free]. *)
Fixpoint release_chunks p (l : list rmsg_chunk) : option rbufpool :=
  match l with
  | [] => Some p
  | c :: l' =>
      rb ← rp_rbufs p !! ck_rbuf c;
      if rb_n_live_rmsg_chunks rb >? 0
      then p ← nn_rbuf_release p (ck_rbuf c); release_chunks p l'
      else None
  end.

Definition nn_rmsg_free p m : option rbufpool :=
  rm ← rp_rmsgs p !! m;
  if rm_refcount rm =? 0
  then p ← release_chunks p (rm_chunks rm); Some (set_rmsgs p (delete m (rp_rmsgs p)))
  else None.

Definition commit_rmsg_chunk p c : option rbufpool :=
  rb ← rp_rbufs p !! ck_rbuf c;
  Some (set_rbufs p (<[ck_rbuf c := set_freeptr rb (ck_end c)]> (rp_rbufs p))).

(** [pa_sub32_nv (&rmsg->refcount, sub)], freeing the message at 0. *)
Definition set_refcount p m (rm : rmsg) (n : Z) : rbufpool :=
  set_rmsgs p (<[m := Rmsg (wrap_u 32 n) (rm_chunks rm)]> (rp_rmsgs p)).

Definition nn_rmsg_commit p m : option rbufpool :=
  rm ← rp_rmsgs p !! m;
  chunk ← last (rm_chunks rm);
  first ← head (rm_chunks rm);
  rb ← rp_rbufs p !! ck_rbuf chunk;
  rb0 ← rp_rbufs p !! ck_rbuf first;
  if uncommitted rm && (ck_size chunk <=? rb_max_rmsg_size rb) && (ck_size chunk mod 8 =? 0) &&
     (rb_n_live_rmsg_chunks rb0 >? 0) && (rb_n_live_rmsg_chunks rb >? 0) &&
     bool_decide (rp_current p = ck_rbuf chunk)
  then
    let n := wrap_u 32 (rm_refcount rm - RMSG_REFCOUNT_UNCOMMITTED_BIAS) in
    let p := set_refcount p m rm n in
    if n =? 0 then nn_rmsg_free p m else commit_rmsg_chunk p chunk
  else None.

Definition rmsg_addbias p m : option rbufpool :=
  rm ← rp_rmsgs p !! m;
  if uncommitted rm
  then Some (set_refcount p m rm (rm_refcount rm + RMSG_REFCOUNT_RDATA_BIAS))
  else None.

(** Subtracting [sub], with the assertion that it can be. *)
Definition rmsg_sub p m (sub : Z) : option rbufpool :=
  rm ← rp_rmsgs p !! m;
  if rm_refcount rm >=? sub then
    let n := wrap_u 32 (rm_refcount rm - sub) in
    let p := set_refcount p m rm n in
    if n =? 0 then nn_rmsg_free p m else Some p
  else None.

Definition rmsg_rmbias_and_adjust p m (adjust : Z) : option rbufpool :=
  if (adjust >=? 0) && (wrap_u 32 adjust <? RMSG_REFCOUNT_RDATA_BIAS)
  then rmsg_sub p m (wrap_u 32 (RMSG_REFCOUNT_RDATA_BIAS - wrap_u 32 adjust))
  else None.

Definition rmsg_rmbias_anythread p m : option rbufpool := rmsg_sub p m RMSG_REFCOUNT_RDATA_BIAS.

Definition rmsg_unref p m : option rbufpool := rmsg_sub p m 1.

(** The buffer and offset of the memory. *)
Definition nn_rmsg_alloc p m (size : Z) (mem : option Z) : option (rbufpool * option (Z * Z)) :=
  rm ← rp_rmsgs p !! m;
  chunk ← last (rm_chunks rm);
  rb ← rp_rbufs p !! ck_rbuf chunk;
  let size8 := align8uint32 size in
  if negb (uncommitted rm && (ck_size chunk mod 8 =? 0) && (size8 <=? rb_max_rmsg_size rb)) then None
  else if wrap_u 32 (ck_size chunk + size8) >? rb_max_rmsg_size rb then
    p ← commit_rmsg_chunk p chunk;
    '(p, r) ← nn_rbuf_alloc p mem;
    match r with
    | None => Some (p, None)
    | Some (_, off) =>
        '(p, c) ← init_rmsg_chunk p (rp_current p) off CHUNK_PAYLOAD_OFF;
        let c' := set_size c (wrap_u 32 (ck_size c + size8)) in
        Some (set_rmsgs p (<[m := Rmsg (rm_refcount rm) (rm_chunks rm ++ [c'])]> (rp_rmsgs p)),
              Some (ck_rbuf c, ck_end c))
    end
  else
    let c' := set_size chunk (wrap_u 32 (ck_size chunk + size8)) in
    Some (set_rmsgs p (<[m := Rmsg (rm_refcount rm) (set_last (rm_chunks rm) c')]> (rp_rmsgs p)),
          Some (ck_rbuf chunk, ck_end chunk)).

(** [NN_OFF_TO_ZOFF] *)
Definition NN_OFF_TO_ZOFF (off : Z) : option Z :=
  if (off <? 65536) && (off mod 4 =? 0) then Some off else None.

Definition nn_rdata_new p m (start endp1 submsg_offset payload_offset : Z) (mem : option Z)
  : option (rbufpool * option rdata) :=
  '(p, d) ← nn_rmsg_alloc p m SIZEOF_RDATA mem;
  match d with
  | None => Some (p, None)
  | Some _ =>
      s ← NN_OFF_TO_ZOFF submsg_offset;
      q ← NN_OFF_TO_ZOFF payload_offset;
      Some (p, Some (Rdata m start endp1 s q))
  end.
