(* ===== verification/RmsgFacts.v ===== *)
(** * The invariant of receive buffers and messages *)

From Stdlib Require Import ZArith Lia.
From stdpp Require Import prelude gmap.
From S2P Require Import Prelude Refs Rmsg.

Implicit Types (p : rbufpool) (m : rmsg_addr) (c : rmsg_chunk) (ms : gmap rmsg_addr rmsg).

(** ** Lists of chunks *)

(** The number of chunks in buffer [a]. *)
Fixpoint in_rbuf (a : Z) (l : list rmsg_chunk) : Z :=
  match l with [] => 0 | c :: l' => (if decide (ck_rbuf c = a) then 1 else 0) + in_rbuf a l' end.

Lemma in_rbuf_app a l1 l2 : in_rbuf a (l1 ++ l2) = in_rbuf a l1 + in_rbuf a l2.
Proof. induction l1 as [|c l1 IH]; simpl; [done|]. rewrite IH. lia. Qed.

Lemma in_rbuf_nonneg a l : 0 <= in_rbuf a l.
Proof. induction l as [|c l IH]; simpl; [done|]. case_decide; lia. Qed.

Lemma in_rbuf_perm a l1 l2 : l1 ≡ₚ l2 -> in_rbuf a l1 = in_rbuf a l2.
Proof. induction 1; simpl; lia. Qed.

Lemma in_rbuf_elem a l c : c ∈ l -> ck_rbuf c = a -> 1 <= in_rbuf a l.
Proof.
  intros Hin Ha. apply list_elem_of_split in Hin as (l1 & l2 & ->). rewrite in_rbuf_app. simpl.
  rewrite decide_True by done. pose proof (in_rbuf_nonneg a l1). pose proof (in_rbuf_nonneg a l2). lia.
Qed.

(** Two chunks that share no byte. *)
Definition apart c1 c2 : Prop :=
  ck_rbuf c1 <> ck_rbuf c2 \/ ck_end c1 <= ck_start c2 \/ ck_end c2 <= ck_start c1.

Fixpoint pairwise (l : list rmsg_chunk) : Prop :=
  match l with [] => True | c :: l' => Forall (apart c) l' /\ pairwise l' end.

Lemma apart_sym c1 c2 : apart c1 c2 -> apart c2 c1.
Proof. unfold apart. intuition congruence. Qed.

Lemma pairwise_perm l1 l2 : l1 ≡ₚ l2 -> pairwise l1 -> pairwise l2.
Proof.
  induction 1 as [|c l1 l2 Hp IH|c1 c2 l|l1 l2 l3 H1 IH1 H2 IH2]; simpl; [done|..].
  - intros [Ha Hl]. split; [by rewrite <- Hp|auto].
  - intros [Ha [Hb Hl]]. apply Forall_cons in Ha as [Ha Ha']. split; [constructor; [by apply apart_sym|done]|done].
  - auto.
Qed.

Lemma pairwise_app l1 l2 : pairwise (l1 ++ l2) -> pairwise l1 /\ pairwise l2.
Proof.
  induction l1 as [|c l1 IH]; simpl; [done|]. intros [Ha Hl]. apply IH in Hl as [H1 H2].
  apply Forall_app in Ha as [Ha _]. done.
Qed.

(** ** The chunks of all messages *)

(** The chunks that get no more memory: all but the last one of the message
    [o] that is being built. *)
Definition closed_of (o : option rmsg_addr) (x : rmsg_addr * rmsg) : list rmsg_chunk :=
  if decide (o = Some x.1) then removelast (rm_chunks x.2) else rm_chunks x.2.

Definition closed (o : option rmsg_addr) ms : list rmsg_chunk := mjoin (map (closed_of o) (map_to_list ms)).

Lemma mjoin_perm {A : Type} (l1 l2 : list (list A)) : l1 ≡ₚ l2 -> mjoin l1 ≡ₚ mjoin l2.
Proof. unfold mjoin. induction 1; simpl; [done|by f_equiv|solve_Permutation|etrans; eauto]. Qed.

Lemma closed_delete o ms m rm :
  ms !! m = Some rm -> closed o ms ≡ₚ closed_of o (m, rm) ++ closed o (delete m ms).
Proof.
  intros Hm. unfold closed. rewrite <- (insert_delete_id ms m rm Hm) at 1.
  change (closed_of o (m, rm) ++ mjoin (map (closed_of o) (map_to_list (delete m ms))))
    with (mjoin (map (closed_of o) ((m, rm) :: map_to_list (delete m ms)))).
  apply mjoin_perm, Permutation_map, map_to_list_insert. apply lookup_delete_eq.
Qed.

Lemma closed_insert o ms m rm :
  closed o (<[m := rm]> ms) ≡ₚ closed_of o (m, rm) ++ closed o (delete m ms).
Proof.
  rewrite (closed_delete o (<[m := rm]> ms) m rm) by apply lookup_insert_eq. by rewrite delete_insert_eq.
Qed.

(** Which message is being built matters only to that message. *)
Lemma closed_absent o o' ms :
  (forall m rm, ms !! m = Some rm -> o = Some m <-> o' = Some m) -> closed o ms = closed o' ms.
Proof.
  intros Ho. unfold closed. f_equal. apply map_ext_in. intros [m rm] Hin%list_elem_of_In%elem_of_map_to_list.
  unfold closed_of. simpl. specialize (Ho m rm Hin). destruct (decide (o = Some m)), (decide (o' = Some m)); tauto.
Qed.

Lemma closed_delete_any o o' ms m :
  o = Some m \/ o = None -> o' = Some m \/ o' = None -> closed o (delete m ms) = closed o' (delete m ms).
Proof.
  intros Ho Ho'. apply closed_absent. intros m' rm Hm'.
  assert (m' <> m) by (intros ->; by rewrite lookup_delete_eq in Hm').
  split; intros ->; destruct Ho, Ho'; congruence.
Qed.

(** ** The invariant *)

Record chunk_ok (mx : Z) c : Prop := {
  co_start : 0 <= ck_start c /\ ck_start c mod 8 = 0;
  co_hdr : ck_hdr c = RMSG_PAYLOAD_OFF \/ ck_hdr c = CHUNK_PAYLOAD_OFF;
  co_size : 0 <= ck_size c <= mx /\ ck_size c mod 8 = 0;
}.

Record rmsg_ok (mx : Z) m (rm : rmsg) : Prop := {
  mo_count : 0 < rm_refcount rm < 2 ^ 32;
  mo_first : exists c, head (rm_chunks rm) = Some c /\ ck_rbuf c = m.1 /\ ck_start c = m.2;
  mo_chunks : Forall (chunk_ok mx) (rm_chunks rm);
}.

Record rbuf_ok p (a : Z) (rb : rbuf) : Prop := {
  bo_size : rb_size rb = rp_rbuf_size p;
  bo_max : rb_max_rmsg_size rb = rp_max_rmsg_size p;
  bo_free : 0 <= rb_freeptr rb <= rb_size rb /\ rb_freeptr rb mod 8 = 0;
  bo_live : rb_n_live_rmsg_chunks rb =
    in_rbuf a (closed None (rp_rmsgs p)) + (if decide (a = rp_current p) then 1 else 0);
  bo_pos : 0 < rb_n_live_rmsg_chunks rb;
}.

(** The chunk that is being filled: it starts at or before [freeptr] (before it
    only if there was no memory for another chunk) and can get all it may. *)
Definition open_ok p (m : rmsg_addr) : Prop :=
  exists rm c rb, rp_rmsgs p !! m = Some rm /\ last (rm_chunks rm) = Some c /\
    rp_rbufs p !! rp_current p = Some rb /\ ck_rbuf c = rp_current p /\
    ck_start c <= rb_freeptr rb <= ck_end c /\
    ck_start c + ck_hdr c + rp_max_rmsg_size p <= rp_rbuf_size p.

Definition open_chunk (o : option rmsg_addr) p : option rmsg_chunk :=
  m ← o; rm ← rp_rmsgs p !! m; last (rm_chunks rm).

Definition closed_ok (o : option rmsg_addr) p c : Prop :=
  exists rb, rp_rbufs p !! ck_rbuf c = Some rb /\ ck_end c <= rb_freeptr rb /\
    forall c0, open_chunk o p = Some c0 -> ck_rbuf c0 = ck_rbuf c -> ck_end c <= ck_start c0.

(** [o] is the message that is being built, if any. *)
Record pool_ok (o : option rmsg_addr) p : Prop := {
  pk_sizes : 0 < rp_max_rmsg_size p /\ RMSG_PAYLOAD_OFF + rp_max_rmsg_size p <= rp_rbuf_size p < 2 ^ 32;
  pk_cur : is_Some (rp_rbufs p !! rp_current p);
  pk_rbufs : map_Forall (rbuf_ok p) (rp_rbufs p);
  pk_rmsgs : map_Forall (rmsg_ok (rp_max_rmsg_size p)) (rp_rmsgs p);
  pk_open : match o with Some m => open_ok p m | None => True end;
  pk_closed : Forall (closed_ok o p) (closed o (rp_rmsgs p));
  pk_apart : pairwise (closed o (rp_rmsgs p));
}.

(** ** Counting *)

Lemma pairwise_starts a l :
  Forall (fun c => ck_start c < ck_end c) l -> pairwise l ->
  NoDup (map ck_start (filter (fun c => ck_rbuf c = a) l)).
Proof.
  induction l as [|c l IH]; intros Hp Hl; [constructor|]. apply Forall_cons in Hp as [Hc Hp]. destruct Hl as [Ha Hl].
  rewrite filter_cons. case_decide as Hd; [|auto]. simpl. constructor; [|auto].
  intros (c' & He & Hin)%list_elem_of_fmap. apply list_elem_of_filter in Hin as [Hd' Hin].
  rewrite Forall_forall in Ha, Hp. specialize (Ha c' Hin). specialize (Hp c' Hin). simpl in Hp.
  destruct Ha as [?|?]; [congruence|lia].
Qed.

Lemma in_rbuf_length a l : in_rbuf a l = Z.of_nat (length (filter (fun c => ck_rbuf c = a) l)).
Proof.
  induction l as [|c l IH]; [done|]. rewrite filter_cons. simpl. case_decide; simpl; lia.
Qed.

Lemma in_rbuf_bound a l size :
  pairwise l -> Forall (fun c => 0 <= ck_start c /\ ck_start c < ck_end c /\ (ck_rbuf c = a -> ck_end c <= size)) l ->
  0 <= size -> in_rbuf a l <= size.
Proof.
  intros Hp Hl Hs. rewrite in_rbuf_length, <- (length_map ck_start).
  assert (Hsub : map ck_start (filter (fun c => ck_rbuf c = a) l) ⊆+ seqZ 0 size).
  { apply NoDup_submseteq; [apply pairwise_starts; [|done]; eapply Forall_impl; [exact Hl|]; simpl; tauto|].
    intros s (c & -> & Hin)%list_elem_of_fmap. apply list_elem_of_filter in Hin as [Ha Hin].
    rewrite Forall_forall in Hl. specialize (Hl c Hin). simpl in Hl. apply elem_of_seqZ. lia. }
  apply submseteq_length in Hsub. rewrite length_seqZ in Hsub. lia.
Qed.

Lemma chunk_pos mx c : chunk_ok mx c -> ck_start c + 24 <= ck_end c.
Proof. intros [? H ?]. unfold ck_end. destruct H as [-> | ->]; unfold RMSG_PAYLOAD_OFF, CHUNK_PAYLOAD_OFF; lia. Qed.

Lemma removelast_elem {A : Type} (l : list A) x : x ∈ removelast l -> x ∈ l.
Proof.
  intros Hx. destruct (last l) as [y|] eqn:E; [|apply last_None in E as ->; done].
  apply last_Some in E as [l' ->]. rewrite List.removelast_last in Hx. apply elem_of_app. by left.
Qed.

Lemma closed_elem o ms c : c ∈ closed o ms -> exists m rm, ms !! m = Some rm /\ c ∈ rm_chunks rm.
Proof.
  unfold closed. intros Hc. apply list_elem_of_join in Hc as (l & Hc & Hl).
  apply list_elem_of_fmap in Hl as ([m rm] & -> & Hm%elem_of_map_to_list). exists m, rm. split; [done|].
  unfold closed_of in Hc. case_decide; [by apply removelast_elem|done].
Qed.

Lemma closed_chunks_ok o p : pool_ok o p -> Forall (chunk_ok (rp_max_rmsg_size p)) (closed o (rp_rmsgs p)).
Proof.
  intros Hok. apply Forall_forall. intros c (m & rm & Hm & Hc)%closed_elem.
  pose proof (mo_chunks _ _ _ (pk_rmsgs _ _ Hok m rm Hm)) as Hf. rewrite Forall_forall in Hf. auto.
Qed.

Lemma removelast_perm {A : Type} (l : list A) x : last l = Some x -> l ≡ₚ x :: removelast l.
Proof. intros [l' ->]%last_Some. rewrite List.removelast_last. solve_Permutation. Qed.

Lemma closed_open ms m rm c :
  ms !! m = Some rm -> last (rm_chunks rm) = Some c -> closed None ms ≡ₚ c :: closed (Some m) ms.
Proof.
  intros Hm Hc. rewrite (closed_delete None ms m rm Hm), (closed_delete (Some m) ms m rm Hm).
  rewrite (closed_delete_any None (Some m)) by tauto. unfold closed_of. simpl.
  destruct (decide (None = Some m)); [done|]. destruct (decide (Some m = Some m)); [|done].
  change (c :: removelast (rm_chunks rm) ++ closed (Some m) (delete m ms))
    with ((c :: removelast (rm_chunks rm)) ++ closed (Some m) (delete m ms)).
  f_equiv. by apply removelast_perm.
Qed.

(** The counter of a buffer never wraps around. *)
Lemma live_bound o p a rb :
  pool_ok o p -> rp_rbufs p !! a = Some rb -> rb_n_live_rmsg_chunks rb < 2 ^ 32 - 1.
Proof.
  intros Hok Ha. pose proof (pk_rbufs _ _ Hok a rb Ha) as [Hs _ Hf Hn _]. rewrite Hn.
  pose proof (pk_sizes _ _ Hok) as Hz. unfold RMSG_PAYLOAD_OFF in Hz.
  assert (Hb : in_rbuf a (closed o (rp_rmsgs p)) <= rp_rbuf_size p - 24 + 1).
  { rewrite in_rbuf_length.
    rewrite <- (length_map ck_start).
    assert (Hsub : map ck_start (filter (fun c => ck_rbuf c = a) (closed o (rp_rmsgs p))) ⊆+ seqZ 0 (rp_rbuf_size p - 24 + 1)).
    { pose proof (closed_chunks_ok _ _ Hok) as Hc. apply NoDup_submseteq.
      - apply pairwise_starts; [|apply Hok]. eapply Forall_impl; [exact Hc|]. intros c Hck%chunk_pos. simpl. lia.
      - intros s (c & -> & Hin)%list_elem_of_fmap. apply list_elem_of_filter in Hin as [Hca Hin].
        rewrite Forall_forall in Hc. pose proof (Hc c Hin) as Hck. pose proof (chunk_pos _ _ Hck).
        pose proof (pk_closed _ _ Hok) as Hcl. rewrite Forall_forall in Hcl.
        destruct (Hcl c Hin) as (rb' & Hrb' & He & _). rewrite Hca in Hrb'. simplify_eq.
        destruct Hck as [Hst _ _]. apply elem_of_seqZ. lia. }
    apply submseteq_length in Hsub. rewrite length_seqZ in Hsub. lia. }
  assert (Hl : in_rbuf a (closed None (rp_rmsgs p)) <= in_rbuf a (closed o (rp_rmsgs p)) + 1).
  { destruct o as [m|]; [|lia]. destruct (pk_open _ _ Hok) as (rm & c & _ & Hm & Hc & _).
    rewrite (in_rbuf_perm _ _ _ (closed_open _ _ _ _ Hm Hc)). cbn [in_rbuf]. destruct (decide (ck_rbuf c = a)); lia. }
  case_decide; lia.
Qed.

(** ** Releasing chunks *)

Definition released p (l : list rmsg_chunk) (a : Z) : option rbuf :=
  rb ← rp_rbufs p !! a;
  if rb_n_live_rmsg_chunks rb =? in_rbuf a l then None
  else Some (set_n_live rb (rb_n_live_rmsg_chunks rb - in_rbuf a l)).

Lemma release_chunks_spec l : forall p,
  (forall c, c ∈ l -> is_Some (rp_rbufs p !! ck_rbuf c)) ->
  (forall a rb, rp_rbufs p !! a = Some rb ->
     in_rbuf a l <= rb_n_live_rmsg_chunks rb < 2 ^ 32 /\ 0 < rb_n_live_rmsg_chunks rb) ->
  exists b, release_chunks p l = Some (set_rbufs p b) /\ forall a, b !! a = released p l a.
Proof.
  induction l as [|c l IH]; intros p Hin Hn; simpl.
  - exists (rp_rbufs p). split; [by destruct p|]. intros a. unfold released. simpl.
    destruct (rp_rbufs p !! a) as [rb|] eqn:E; [|done]. simpl. destruct (Hn a rb E) as [[_ Hlt] Hpos].
    destruct (Z.eqb_spec (rb_n_live_rmsg_chunks rb) 0); [lia|]. f_equal. unfold set_n_live.
    rewrite Z.sub_0_r. unfold wrap_u. rewrite Z.mod_small by lia. by destruct rb.
  - destruct (Hin c ltac:(left)) as [rb Hrb]. rewrite Hrb. cbn [mbind option_bind].
    destruct (Hn _ _ Hrb) as [[Hle Hlt] Hpos]. simpl in Hle. rewrite decide_True in Hle by done.
    rewrite Z.gtb_ltb. destruct (Z.ltb_spec 0 (rb_n_live_rmsg_chunks rb)); [|lia].
    unfold nn_rbuf_release. rewrite Hrb. cbn [mbind option_bind]. pose proof (in_rbuf_nonneg (ck_rbuf c) l).
    assert (Hw : wrap_u 32 (rb_n_live_rmsg_chunks rb - 1) = rb_n_live_rmsg_chunks rb - 1)
      by nowrap.
    cbn [rb_n_live_rmsg_chunks set_n_live]. rewrite Hw.
    destruct (Z.eqb_spec (rb_n_live_rmsg_chunks rb - 1) 0) as [H1|H1]; cbn [mbind option_bind].
    + destruct (IH (set_rbufs p (delete (ck_rbuf c) (rp_rbufs p)))) as (b & E & Hb); simpl.
      { intros c' Hc'. assert (ck_rbuf c' <> ck_rbuf c) by (intros He; pose proof (in_rbuf_elem _ _ _ Hc' He); lia).
        rewrite lookup_delete_ne by done. apply Hin. by right. }
      { intros a rb' Ha. destruct (decide (a = ck_rbuf c)) as [->|Hne]; [by rewrite lookup_delete_eq in Ha|].
        rewrite lookup_delete_ne in Ha by done. specialize (Hn a rb' Ha). simpl in Hn. rewrite decide_False in Hn by done. lia. }
      exists b. split; [done|]. intros a. rewrite Hb. unfold released. simpl.
      destruct (decide (a = ck_rbuf c)) as [->|Hne].
      * rewrite lookup_delete_eq, Hrb. simpl. rewrite decide_True by done.
        destruct (Z.eqb_spec (rb_n_live_rmsg_chunks rb) (1 + in_rbuf (ck_rbuf c) l)); [done|lia].
      * rewrite lookup_delete_ne by done. by rewrite decide_False.
    + destruct (IH (set_rbufs p (<[ck_rbuf c := set_n_live rb (rb_n_live_rmsg_chunks rb - 1)]> (rp_rbufs p)))) as (b & E & Hb); simpl.
      { intros c' Hc'. destruct (decide (ck_rbuf c' = ck_rbuf c)) as [->|Hne]; [by rewrite lookup_insert_eq|].
        rewrite lookup_insert_ne by done. apply Hin. by right. }
      { intros a rb' Ha. destruct (decide (a = ck_rbuf c)) as [->|Hne].
        - rewrite lookup_insert_eq in Ha. simplify_eq. simpl. rewrite Hw. lia.
        - rewrite lookup_insert_ne in Ha by done. specialize (Hn a rb' Ha). simpl in Hn. rewrite decide_False in Hn by done. lia. }
      exists b. split; [done|]. intros a. rewrite Hb. unfold released. simpl.
      destruct (decide (a = ck_rbuf c)) as [->|Hne].
      * rewrite lookup_insert_eq, Hrb. simpl. rewrite Hw. rewrite decide_True by done.
        destruct (Z.eqb_spec (rb_n_live_rmsg_chunks rb - 1) (in_rbuf (ck_rbuf c) l)),
          (Z.eqb_spec (rb_n_live_rmsg_chunks rb) (1 + in_rbuf (ck_rbuf c) l)); try lia; [done|].
        unfold set_n_live. simpl. do 3 f_equal. lia.
      * rewrite lookup_insert_ne by done. by rewrite decide_False.
Qed.

Lemma closed_sub o ms c : c ∈ closed o ms -> c ∈ closed None ms.
Proof.
  intros (m & rm & Hm & Hc)%closed_elem. unfold closed. apply list_elem_of_join. exists (rm_chunks rm).
  split; [done|]. apply list_elem_of_fmap. exists (m, rm). split; [done|]. by apply elem_of_map_to_list.
Qed.
