(* ===== verification/RmsgProps.v ===== *)
(** * What receive buffers and messages guarantee

    Memory handed out for a message is aligned, inside the buffer and disjoint
    from all other live memory; a buffer is freed when, and only when, nothing
    in it is alive and it is not the current one; and the messages discharge
    the interface [RmsgRefs] that the defragmenter and the reorder
    administration are built on. *)

From Stdlib Require Import ZArith Lia.
From stdpp Require Import prelude gmap.
From S2P Require Import Prelude Refs Rmsg RmsgFacts.

Implicit Types (p : rbufpool) (m : rmsg_addr) (c : rmsg_chunk) (o : option rmsg_addr).

(** ** Freeing a message *)

(** What is being built after message [m] is gone. *)
Definition without o m : option rmsg_addr := if decide (o = Some m) then None else o.

Lemma closed_without o m (ms : gmap rmsg_addr rmsg) : closed (without o m) (delete m ms) = closed o (delete m ms).
Proof.
  unfold without. case_decide as Hd; [|done]. subst o. apply closed_delete_any; tauto.
Qed.

Lemma open_without o m p p' :
  rp_rmsgs p' = delete m (rp_rmsgs p) ->
  open_chunk (without o m) p' = open_chunk o p \/ open_chunk (without o m) p' = None.
Proof.
  intros He. unfold without, open_chunk. case_decide as Hd; [by right|]. left. rewrite He.
  destruct o as [m'|]; [|done]. simpl. by rewrite lookup_delete_ne by congruence.
Qed.

(** Every live chunk is in a live buffer. *)
Lemma live_rbuf o p c :
  pool_ok o p -> c ∈ closed None (rp_rmsgs p) -> is_Some (rp_rbufs p !! ck_rbuf c).
Proof.
  intros Hok Hc. pose proof (pk_closed _ _ Hok) as Hcl. rewrite Forall_forall in Hcl.
  destruct o as [m|]; [|destruct (Hcl c Hc) as (rb & -> & _); done].
  destruct (pk_open _ _ Hok) as (rm & c0 & rb & Hm & Hl & Hrb & Hcur & _).
  rewrite (closed_open _ _ _ _ Hm Hl) in Hc. apply elem_of_cons in Hc as [->|Hc]; [rewrite Hcur; by exists rb|].
  destruct (Hcl c Hc) as (rb' & -> & _). done.
Qed.

Section Remove.
Context (o : option rmsg_addr) (p : rbufpool) (m : rmsg_addr) (rm : rmsg).
Hypothesis Hok : pool_ok o p.
Hypothesis Hm : rp_rmsgs p !! m = Some rm.

Definition rest : gmap rmsg_addr rmsg := delete m (rp_rmsgs p).

Lemma live_split a :
  in_rbuf a (closed None (rp_rmsgs p)) = in_rbuf a (rm_chunks rm) + in_rbuf a (closed None rest).
Proof using Hm.
  rewrite (in_rbuf_perm _ _ _ (closed_delete None _ _ _ Hm)), in_rbuf_app. done.
Qed.

(** The buffers after the release of the chunks of the message. *)
Lemma released_spec a rb :
  rp_rbufs p !! a = Some rb ->
  match released p (rm_chunks rm) a with
  | None => in_rbuf a (closed None rest) = 0 /\ a <> rp_current p
  | Some rb' => rb_size rb' = rb_size rb /\ rb_max_rmsg_size rb' = rb_max_rmsg_size rb /\
      rb_freeptr rb' = rb_freeptr rb /\ 0 < rb_n_live_rmsg_chunks rb' /\
      rb_n_live_rmsg_chunks rb' =
        in_rbuf a (closed None rest) + (if decide (a = rp_current p) then 1 else 0)
  end.
Proof using All.
  intros Ha. pose proof (pk_rbufs _ _ Hok a rb Ha) as [_ _ _ Hn Hpos]. rewrite live_split in Hn.
  pose proof (live_bound _ _ _ _ Hok Ha). pose proof (in_rbuf_nonneg a (closed None rest)).
  pose proof (in_rbuf_nonneg a (rm_chunks rm)).
  unfold released. rewrite Ha. cbn [mbind option_bind].
  destruct (Z.eqb_spec (rb_n_live_rmsg_chunks rb) (in_rbuf a (rm_chunks rm))).
  - case_decide; [lia|]. split; [lia|done].
  - cbn [set_n_live rb_size rb_max_rmsg_size rb_freeptr rb_n_live_rmsg_chunks].
    assert (Hw : wrap_u 32 (rb_n_live_rmsg_chunks rb - in_rbuf a (rm_chunks rm)) =
                 rb_n_live_rmsg_chunks rb - in_rbuf a (rm_chunks rm)).
    { unfold wrap_u. rewrite Z.mod_small; [done|]. case_decide; lia. }
    rewrite Hw. do 3 (split; [done|]). case_decide; lia.
Qed.

(** A buffer with a chunk of another message stays. *)
Lemma released_stays c :
  c ∈ closed o rest ->
  exists rb rb', rp_rbufs p !! ck_rbuf c = Some rb /\ released p (rm_chunks rm) (ck_rbuf c) = Some rb' /\
    rb_freeptr rb' = rb_freeptr rb /\ closed_ok o p c.
Proof using All.
  intros Hc. assert (Hin : c ∈ closed o (rp_rmsgs p)).
  { rewrite (closed_delete o _ _ _ Hm). apply elem_of_app. by right. }
  pose proof (pk_closed _ _ Hok) as Hcl. rewrite Forall_forall in Hcl. specialize (Hcl c Hin).
  pose proof Hcl as (rb & Hrb & _). pose proof (released_spec _ _ Hrb) as Hr.
  apply closed_sub in Hc. pose proof (in_rbuf_elem _ _ _ Hc eq_refl).
  destruct (released p (rm_chunks rm) (ck_rbuf c)) as [rb'|]; [|lia]. exists rb, rb'.
  destruct Hr as (_ & _ & Hf & _). done.
Qed.

Lemma remove_ok (b : gmap Z rbuf) :
  (forall a, b !! a = released p (rm_chunks rm) a) ->
  pool_ok (without o m)
    (Rbufpool (rp_current p) (rp_rbuf_size p) (rp_max_rmsg_size p) b rest).
Proof using All.
  intros Hb. pose proof (pk_cur _ _ Hok) as [rbc Hrbc]. pose proof (released_spec _ _ Hrbc) as Hc.
  assert (Hcur : exists rbc', released p (rm_chunks rm) (rp_current p) = Some rbc' /\ rb_freeptr rbc' = rb_freeptr rbc).
  { destruct (released p (rm_chunks rm) (rp_current p)) as [rbc'|]; [|tauto]. exists rbc'. tauto. }
  destruct Hcur as (rbc' & Hrbc' & Hfree). split; simpl.
  - apply Hok.
  - rewrite Hb, Hrbc'. done.
  - intros a rb' Ha. rewrite Hb in Ha. destruct (rp_rbufs p !! a) as [rb|] eqn:Erb.
    2:{ unfold released in Ha. by rewrite Erb in Ha. }
    pose proof (released_spec _ _ Erb) as Hr. rewrite Ha in Hr. destruct Hr as (H1 & H2 & H3 & H4 & H5).
    pose proof (pk_rbufs _ _ Hok a rb Erb) as [B1 B2 B3 _ _]. split; simpl; congruence || (rewrite ?H1, ?H3; done) || done.
  - apply map_Forall_delete, Hok.
  - unfold without. destruct (decide (o = Some m)) as [Hd|Hd]; [exact I|]. destruct o as [m'|] eqn:Eo; [|exact I].
    destruct (pk_open _ _ Hok) as (rm' & c & rb & Hm' & Hl & Hrb & Hrest).
    exists rm', c, rbc'. simpl. unfold rest. rewrite lookup_delete_ne by congruence.
    rewrite Hb, Hrbc', Hfree. simplify_eq. tauto.
  - rewrite (closed_without o m (rp_rmsgs p) : closed (without o m) rest = closed o rest). apply Forall_forall. intros c Hc'.
    destruct (released_stays c Hc') as (rb & rb' & Hrb & Hrb' & Hf & rb2 & Hrb2 & He & Ho). simplify_eq.
    exists rb'. simpl. rewrite Hb, Hf. split; [done|]. split; [done|]. intros c0 Hc0.
    destruct (open_without o m p (Rbufpool (rp_current p) (rp_rbuf_size p) (rp_max_rmsg_size p) b rest) eq_refl) as [E|E];
      rewrite E in Hc0; [by apply Ho|done].
  - rewrite (closed_without o m (rp_rmsgs p) : closed (without o m) rest = closed o rest). pose proof (pairwise_perm _ _ (closed_delete o _ _ _ Hm) (pk_apart _ _ Hok)) as Hp.
    by apply pairwise_app in Hp as [_ Hp].
Qed.
End Remove.

Lemma free_spec o p m rm n :
  pool_ok o p -> rp_rmsgs p !! m = Some rm -> n = 0 ->
  exists b, nn_rmsg_free (set_refcount p m rm n) m =
      Some (Rbufpool (rp_current p) (rp_rbuf_size p) (rp_max_rmsg_size p) b (delete m (rp_rmsgs p))) /\
    (forall a, b !! a = released p (rm_chunks rm) a) /\
    pool_ok (without o m)
      (Rbufpool (rp_current p) (rp_rbuf_size p) (rp_max_rmsg_size p) b (delete m (rp_rmsgs p))).
Proof.
  intros Hok Hm ->. unfold nn_rmsg_free. simpl. rewrite lookup_insert_eq. cbn [mbind option_bind rm_refcount rm_chunks].
  change (wrap_u 32 0 =? 0) with true. cbn [mbind option_bind].
  destruct (release_chunks_spec (rm_chunks rm) (set_refcount p m rm 0)) as (b & E & Hb); simpl.
  - intros c Hc. assert (Hin : c ∈ closed None (rp_rmsgs p)).
    { rewrite (closed_delete None _ _ _ Hm). apply elem_of_app. by left. }
    by apply (live_rbuf o).
  - intros a rb Ha. pose proof (live_bound _ _ _ _ Hok Ha). pose proof (pk_rbufs _ _ Hok a rb Ha) as [_ _ _ Hn Hpos].
    rewrite (live_split p m rm Hm) in Hn. pose proof (in_rbuf_nonneg a (closed None (rest p m))).
    case_decide; lia.
  - rewrite E. cbn [mbind option_bind]. exists b. split.
    { unfold set_rmsgs, set_rbufs, set_refcount. simpl. by rewrite delete_insert_eq. }
    split; [done|]. by apply (remove_ok o p m rm).
Qed.

(** ** Reference counts *)

(** Changing only the count of a message. *)
Lemma count_only_ok o p m rm n :
  pool_ok o p -> rp_rmsgs p !! m = Some rm -> 0 < n < 2 ^ 32 -> pool_ok o (set_refcount p m rm n).
Proof.
  intros Hok Hm Hn. assert (Hw : wrap_u 32 n = n) by nowrap.
  unfold set_refcount. rewrite Hw. set (rm' := Rmsg n (rm_chunks rm)).
  assert (Hcl : forall o', closed o' (<[m := rm']> (rp_rmsgs p)) ≡ₚ closed o' (rp_rmsgs p)).
  { intros o'. rewrite closed_insert, (closed_delete o' _ _ _ Hm). done. }
  assert (Hoc : open_chunk o (set_rmsgs p (<[m := rm']> (rp_rmsgs p))) = open_chunk o p).
  { unfold open_chunk. destruct o as [m'|]; [|done]. simpl. destruct (decide (m' = m)) as [->|Hne].
    - by rewrite lookup_insert_eq, Hm.
    - by rewrite lookup_insert_ne. }
  destruct Hok as [K1 K2 K3 K4 K5 K6 K7]. split; simpl; auto.
  - intros a rb Ha. destruct (K3 a rb Ha) as [B1 B2 B3 B4 B5]. split; simpl; auto.
    by rewrite (in_rbuf_perm _ _ _ (Hcl None)).
  - apply map_Forall_insert_2; [|done]. destruct (K4 m rm Hm) as [_ M2 M3]. by split.
  - destruct o as [m'|]; [|done]. destruct K5 as (rm1 & c & rb & Hm1 & Hrest).
    destruct (decide (m' = m)) as [->|Hne].
    + exists rm', c, rb. simpl. rewrite lookup_insert_eq. simplify_eq. done.
    + exists rm1, c, rb. simpl. by rewrite lookup_insert_ne.
  - rewrite Hcl. eapply Forall_impl; [exact K6|]. intros c (rb & Hrb & He & Ho). exists rb. simpl.
    split; [done|]. split; [done|]. intros c0. rewrite Hoc. apply Ho.
  - eapply pairwise_perm; [symmetry; apply Hcl|done].
Qed.

Definition refcount_of p m : Z := match rp_rmsgs p !! m with Some rm => rm_refcount rm | None => 0 end.

Lemma refcount_range o p m : pool_ok o p -> 0 <= refcount_of p m < 2 ^ 32.
Proof.
  intros Hok. unfold refcount_of. destruct (rp_rmsgs p !! m) as [rm|] eqn:E; [|lia].
  destruct (pk_rmsgs _ _ Hok m rm E) as [? _ _]. lia.
Qed.

Lemma sub_spec o p m sub :
  pool_ok o p -> 0 < sub <= refcount_of p m ->
  exists p' o', rmsg_sub p m sub = Some p' /\ pool_ok o' p' /\ (o' = o \/ o' = without o m) /\
    forall m', refcount_of p' m' = refcount_of p m' + if decide (m' = m) then - sub else 0.
Proof.
  intros Hok Hs. pose proof (refcount_range _ _ m Hok) as Hr. unfold rmsg_sub, refcount_of in *.
  destruct (rp_rmsgs p !! m) as [rm|] eqn:Hm; [|lia]. cbn [mbind option_bind].
  rewrite Z.geb_leb. destruct (Z.leb_spec sub (rm_refcount rm)); [|lia].
  assert (Hw : wrap_u 32 (rm_refcount rm - sub) = rm_refcount rm - sub) by nowrap.
  rewrite Hw. destruct (Z.eqb_spec (rm_refcount rm - sub) 0) as [H0|H0].
  - destruct (free_spec o p m rm _ Hok Hm H0) as (b & E & _ & Hok'). eexists _, _. split; [exact E|].
    split; [exact Hok'|]. split; [by right|]. intros m'. simpl. destruct (decide (m' = m)) as [->|Hne].
    + rewrite lookup_delete_eq, Hm. lia.
    + rewrite lookup_delete_ne by done. lia.
  - eexists _, o. split; [done|]. split; [apply (count_only_ok o p m rm); auto; lia|]. split; [by left|].
    intros m'. simpl. rewrite Hw. destruct (decide (m' = m)) as [->|Hne].
    + rewrite lookup_insert_eq, Hm. simpl. lia.
    + rewrite lookup_insert_ne by done. lia.
Qed.

#[global] Instance rmsg_refs : RmsgRefs rbufpool := {|
  rc_wf := fun p => exists o, pool_ok o p;
  rc := refcount_of;
  nn_rmsg_addbias := rmsg_addbias;
  nn_rmsg_rmbias_and_adjust := rmsg_rmbias_and_adjust;
  nn_rmsg_rmbias_anythread := rmsg_rmbias_anythread;
  nn_rmsg_unref := rmsg_unref;
|}.

Lemma sub_law p m sub :
  rc_wf p -> 0 < sub <= rc p m ->
  exists p', rmsg_sub p m sub = Some p' /\ rc_wf p' /\ rc_upd p p' m (- sub).
Proof.
  intros [o Hok] Hs. destruct (sub_spec o p m sub Hok Hs) as (p' & o' & E & Hok' & _ & Hr).
  exists p'. split; [done|]. split; [by exists o'|exact Hr].
Qed.

#[global] Instance rmsg_refs_laws : RmsgRefsLaws rbufpool.
Proof.
  split.
  - intros p m [o Hok]. by eapply refcount_range.
  - intros p m [o Hok] H1 H2. cbn [nn_rmsg_addbias rmsg_refs]. unfold rmsg_addbias.
    cbn [rc rmsg_refs] in H1, H2. pose proof (refcount_range _ _ m Hok) as Hr. unfold refcount_of in *.
    change RMSG_REFCOUNT_UNCOMMITTED_BIAS with (2 ^ 31) in *. change RMSG_REFCOUNT_RDATA_BIAS with (2 ^ 20) in *.
    destruct (rp_rmsgs p !! m) as [rm|] eqn:Hm; [|lia]. cbn [mbind option_bind].
    unfold uncommitted. change RMSG_REFCOUNT_UNCOMMITTED_BIAS with (2 ^ 31). rewrite Z.geb_leb.
    destruct (Z.leb_spec (2 ^ 31) (rm_refcount rm)); [|lia].
    eexists. split; [done|]. split; [exists o; apply (count_only_ok o p m rm); auto; lia|].
    intros m'. cbn [rc rmsg_refs]. unfold refcount_of. simpl. destruct (decide (m' = m)) as [->|Hne].
    + rewrite lookup_insert_eq, Hm. cbn [rm_refcount]. nowrap.
    + rewrite lookup_insert_ne by done. lia.
  - intros p m adjust Hwf Ha Hs. cbn [nn_rmsg_rmbias_and_adjust rmsg_refs]. unfold rmsg_rmbias_and_adjust.
    change RMSG_REFCOUNT_RDATA_BIAS with (2 ^ 20) in *.
    assert (Hw : wrap_u 32 adjust = adjust) by nowrap. rewrite Hw.
    assert (Hw2 : wrap_u 32 (2 ^ 20 - adjust) = 2 ^ 20 - adjust) by nowrap.
    rewrite Hw2. rewrite Z.geb_leb. destruct (Z.leb_spec 0 adjust); [|lia]. destruct (Z.ltb_spec adjust (2 ^ 20)); [|lia].
    destruct (sub_law p m (2 ^ 20 - adjust) Hwf) as (p' & E & Hwf' & Hu); [lia|].
    exists p'. split; [done|]. split; [done|]. intros m'. rewrite Hu. case_decide; lia.
  - intros p m Hwf Hs. apply sub_law; [done|]. split; [done|exact Hs].
  - intros p m Hwf Hs. apply sub_law; [done|]. lia.
Qed.

(** ** Sizes *)

Lemma align8_spec x : 0 <= x < 2 ^ 32 - 8 ->
  align8uint32 x mod 8 = 0 /\ x <= align8uint32 x < x + 8.
Proof.
  intros Hx. assert (He : align8uint32 x = Z.shiftl (Z.shiftr (x + 7) 3) 3).
  { unfold align8uint32, wrap_u. rewrite (Z.mod_small (x + 7)) by lia.
    change (-8 mod 2 ^ 32) with (Z.shiftl (Z.ones 29) 3). apply Z.bits_inj'. intros i Hi. rewrite Z.land_spec.
    destruct (Z.lt_ge_cases i 3) as [Hl|Hl].
    - by rewrite !Z.shiftl_spec_low, andb_false_r by lia.
    - rewrite !Z.shiftl_spec, Z.shiftr_spec by lia. replace (i - 3 + 3) with i by lia.
      destruct (Z.lt_ge_cases i 32).
      + rewrite Z.ones_spec_low by lia. apply andb_true_r.
      + rewrite Z.ones_spec_high by lia. rewrite andb_false_r. symmetry.
        apply Z.bits_above_log2; [lia|]. apply Z.lt_le_trans with 32; [|lia].
        apply Z.log2_lt_pow2; lia. }
  rewrite He, Z.shiftl_mul_pow2, Z.shiftr_div_pow2 by lia. change (2 ^ 3) with 8.
  split; [by apply Z.mod_mul|]. pose proof (Z.div_mod (x + 7) 8 ltac:(lia)). pose proof (Z.mod_pos_bound (x + 7) 8 ltac:(lia)). lia.
Qed.

Lemma asize_spec o p : pool_ok o p ->
  max_rmsg_size_w_hdr (rp_max_rmsg_size p) = RMSG_PAYLOAD_OFF + rp_max_rmsg_size p.
Proof.
  intros Hok. pose proof (pk_sizes _ _ Hok) as Hs. unfold max_rmsg_size_w_hdr.
  change (max_uint32 RMSG_PAYLOAD_OFF CHUNK_PAYLOAD_OFF) with RMSG_PAYLOAD_OFF.
  unfold wrap_u. rewrite Z.mod_small; [done|]. unfold RMSG_PAYLOAD_OFF in *. lia.
Qed.

(** ** Buffers *)

(** Nothing alive is in a buffer that is not there. *)
Lemma no_chunks o p a : pool_ok o p -> rp_rbufs p !! a = None -> in_rbuf a (closed None (rp_rmsgs p)) = 0.
Proof.
  intros Hok Ha. pose proof (in_rbuf_nonneg a (closed None (rp_rmsgs p))).
  destruct (Z.eq_dec (in_rbuf a (closed None (rp_rmsgs p))) 0) as [|Hne]; [done|exfalso].
  rewrite in_rbuf_length in Hne.
  destruct (filter (fun c => ck_rbuf c = a) (closed None (rp_rmsgs p))) as [|c l] eqn:E; [done|].
  assert (Hin : c ∈ filter (fun c => ck_rbuf c = a) (closed None (rp_rmsgs p))) by (rewrite E; left).
  apply list_elem_of_filter in Hin as [Hca Hin]. apply (live_rbuf o) in Hin; [|done].
  rewrite Hca, Ha in Hin. by destruct Hin.
Qed.

(** Making a fresh buffer [nb] at [a] and releasing the current one, which goes
    if it is empty. *)
Lemma release_current_spec p a nb :
  pool_ok None p -> rp_rbufs p !! a = None ->
  exists b, nn_rbuf_release (set_rbufs p (<[a := nb]> (rp_rbufs p))) (rp_current p) =
      Some (set_rbufs p b) /\ b !! a = Some nb /\
    (forall x rb, b !! x = Some rb -> x = a /\ rb = nb \/
       x <> a /\ exists rb0, rp_rbufs p !! x = Some rb0 /\ rb_size rb = rb_size rb0 /\
         rb_max_rmsg_size rb = rb_max_rmsg_size rb0 /\ rb_freeptr rb = rb_freeptr rb0 /\
         rb_n_live_rmsg_chunks rb = in_rbuf x (closed None (rp_rmsgs p)) /\ 0 < rb_n_live_rmsg_chunks rb) /\
    (forall x rb0, rp_rbufs p !! x = Some rb0 -> 1 <= in_rbuf x (closed None (rp_rmsgs p)) ->
       exists rb, b !! x = Some rb /\ rb_freeptr rb = rb_freeptr rb0).
Proof.
  intros Hok Ha. pose proof (pk_cur _ _ Hok) as [rbc Hc]. assert (Hne : rp_current p <> a) by congruence.
  pose proof (live_bound _ _ _ _ Hok Hc) as Hlb. pose proof (pk_rbufs _ _ Hok _ _ Hc) as [_ _ _ Hn Hpos].
  rewrite decide_True in Hn by done. pose proof (in_rbuf_nonneg (rp_current p) (closed None (rp_rmsgs p))) as Hnn.
  assert (Hother : forall x rb0, x <> rp_current p -> rp_rbufs p !! x = Some rb0 ->
            rb_n_live_rmsg_chunks rb0 = in_rbuf x (closed None (rp_rmsgs p)) /\ 0 < rb_n_live_rmsg_chunks rb0).
  { intros x rb0 Hx Hrb. pose proof (pk_rbufs _ _ Hok _ _ Hrb) as [_ _ _ Hnx Hpx]. rewrite decide_False in Hnx by done. lia. }
  unfold nn_rbuf_release. simpl. rewrite lookup_insert_ne, Hc by done. cbn [mbind option_bind].
  assert (Hw : wrap_u 32 (rb_n_live_rmsg_chunks rbc - 1) = rb_n_live_rmsg_chunks rbc - 1)
    by nowrap.
  cbn [rb_n_live_rmsg_chunks set_n_live]. rewrite Hw.
  destruct (Z.eqb_spec (rb_n_live_rmsg_chunks rbc - 1) 0) as [H0|H0].
  - eexists. split; [done|]. split; [by rewrite lookup_delete_ne, lookup_insert_eq by done|]. split.
    + intros x rb Hx. apply lookup_delete_Some in Hx as [Hxc Hx].
      apply lookup_insert_Some in Hx as [[-> <-]|[Hxa Hx]]; [by left|right].
      split; [done|]. exists rb. destruct (Hother x rb (not_eq_sym Hxc) Hx). done.
    + intros x rb0 Hx Hin. destruct (decide (x = rp_current p)) as [->|Hxc]; [simplify_eq; lia|].
      exists rb0. rewrite lookup_delete_ne, lookup_insert_ne by congruence. done.
  - eexists. split; [done|]. split; [by rewrite lookup_insert_ne, lookup_insert_eq by done|]. split.
    + intros x rb Hx. apply lookup_insert_Some in Hx as [[<- <-]|[Hxc Hx]].
      * right. split; [done|]. exists rbc. simpl. rewrite Hw. repeat (split; [done|]). lia.
      * apply lookup_insert_Some in Hx as [[-> <-]|[Hxa Hx]]; [by left|right].
        split; [done|]. exists rb. destruct (Hother x rb (not_eq_sym Hxc) Hx). done.
    + intros x rb0 Hx Hin. destruct (decide (x = rp_current p)) as [->|Hxc].
      * rewrite lookup_insert_eq. simplify_eq. eexists. split; [done|]. done.
      * exists rb0. rewrite !lookup_insert_ne by congruence. done.
Qed.

(** A fresh current buffer; the old one goes if it is empty. *)
Lemma rbuf_new_spec p a :
  pool_ok None p -> rp_rbufs p !! a = None ->
  exists p', nn_rbuf_new p (Some a) = Some (p', Some a) /\ pool_ok None p' /\ rp_current p' = a /\
    rp_rmsgs p' = rp_rmsgs p /\ rp_rbuf_size p' = rp_rbuf_size p /\ rp_max_rmsg_size p' = rp_max_rmsg_size p /\
    rp_rbufs p' !! a = Some (Rbuf 1 (rp_rbuf_size p) (rp_max_rmsg_size p) 0).
Proof.
  intros Hok Ha. pose proof (no_chunks _ _ _ Hok Ha) as Hna.
  set (nb := Rbuf 1 (rp_rbuf_size p) (rp_max_rmsg_size p) 0).
  destruct (release_current_spec p a nb Hok Ha) as (b & E & Hba & Hb & Hkeep).
  unfold nn_rbuf_new, nn_rbuf_alloc_new. fold nb.
  cbn [rp_current set_rbufs]. rewrite E. cbn [mbind option_bind]. eexists. split; [done|].
  split; [|by simpl]. pose proof (pk_sizes _ _ Hok) as Hsz. split; simpl.
  - done.
  - by exists nb.
  - intros x rb Hx. destruct (Hb x rb Hx) as [[-> ->]|(Hxa & rb0 & Hx0 & E1 & E2 & E3 & E4 & E5)].
    + split; simpl; [done|done| | |done]; [unfold RMSG_PAYLOAD_OFF in Hsz; split; [lia|done]|]. rewrite Hna, decide_True by done. done.
    + pose proof (pk_rbufs _ _ Hok _ _ Hx0) as [B1 B2 B3 _ _].
      split; simpl; [congruence|congruence|by rewrite E3, E1| |done]. rewrite decide_False by done. lia.
  - apply Hok.
  - done.
  - pose proof (pk_closed _ _ Hok) as Hcl. rewrite Forall_forall in Hcl |- *. intros c Hin.
    destruct (Hcl c Hin) as (rb0 & Hrb0 & He & _). pose proof (in_rbuf_elem _ _ _ Hin eq_refl) as Hpos'.
    destruct (Hkeep _ _ Hrb0 Hpos') as (rb & Hrb & Hf). exists rb. simpl. split; [done|]. split; [lia|]. done.
  - apply Hok.
Qed.

Definition mem_fresh p (mem : option Z) : Prop := match mem with Some a => rp_rbufs p !! a = None | None => True end.

Lemma rbuf_alloc_spec p mem :
  pool_ok None p -> mem_fresh p mem ->
  exists p' r, nn_rbuf_alloc p mem = Some (p', r) /\ pool_ok None p' /\ rp_rmsgs p' = rp_rmsgs p /\
    rp_rbuf_size p' = rp_rbuf_size p /\ rp_max_rmsg_size p' = rp_max_rmsg_size p /\
    match r with
    | None => mem = None /\ p' = p
    | Some (a, off) => a = rp_current p' /\ exists rb, rp_rbufs p' !! a = Some rb /\ rb_freeptr rb = off /\
        off + RMSG_PAYLOAD_OFF + rp_max_rmsg_size p <= rp_rbuf_size p
    end.
Proof.
  intros Hok Hf. unfold nn_rbuf_alloc. rewrite (asize_spec _ _ Hok). pose proof (pk_cur _ _ Hok) as [rb Hrb].
  pose proof (pk_sizes _ _ Hok) as Hsz. pose proof (pk_rbufs _ _ Hok _ _ Hrb) as [B1 _ B3 _ _].
  rewrite Hrb. cbn [mbind option_bind]. rewrite Z.geb_leb.
  destruct (Z.leb_spec 0 (rb_freeptr rb)); [|lia]. destruct (Z.leb_spec (rb_freeptr rb) (rb_size rb)); [|lia]. cbn [andb negb].
  destruct (Z.ltb_spec (rb_size rb - rb_freeptr rb) (RMSG_PAYLOAD_OFF + rp_max_rmsg_size p)) as [Hlt|Hge].
  - destruct mem as [a|].
    + destruct (rbuf_new_spec p a Hok Hf) as (p' & E & Hok' & Hc & Hm & Hs & Hx & Hb). rewrite E.
      cbn [mbind option_bind]. rewrite Hb. cbn [mbind option_bind rb_size rb_freeptr].
      rewrite Z.geb_leb. destruct (Z.leb_spec (RMSG_PAYLOAD_OFF + rp_max_rmsg_size p) (rp_rbuf_size p - 0)); [|lia].
      eexists _, _. split; [done|]. repeat (split; [done|]). eexists. split; [exact Hb|]. simpl. split; [done|lia].
    + eexists _, _. split; [done|]. done.
  - eexists _, _. split; [done|]. repeat (split; [done|]). exists rb. split; [done|]. split; [done|lia].
Qed.

(** ** Chunks *)

(** Committing the chunk that is being filled. *)
Lemma commit_chunk_ok m p rm c :
  pool_ok (Some m) p -> rp_rmsgs p !! m = Some rm -> last (rm_chunks rm) = Some c ->
  exists p', commit_rmsg_chunk p c = Some p' /\ pool_ok (Some m) p' /\ pool_ok None p' /\
    rp_rmsgs p' = rp_rmsgs p /\ rp_rbuf_size p' = rp_rbuf_size p /\ rp_max_rmsg_size p' = rp_max_rmsg_size p /\
    (forall a, rp_rbufs p !! a = None -> rp_rbufs p' !! a = None).
Proof.
  intros Hok Hm Hl. destruct (pk_open _ _ Hok) as (rm' & c' & rb & Hm' & Hl' & Hrb & Hcur & Hfr & Hend). simplify_eq.
  assert (Hcin : c ∈ rm_chunks rm) by (by apply last_Some_elem_of).
  pose proof (mo_chunks _ _ _ (pk_rmsgs _ _ Hok m rm Hm)) as Hco. rewrite Forall_forall in Hco.
  pose proof (Hco c Hcin) as Hck. pose proof (chunk_pos _ _ Hck) as Hpos. destruct Hck as [Hst Hhd Hsz].
  assert (Hoc : open_chunk (Some m) p = Some c) by (unfold open_chunk; simpl; by rewrite Hm).
  assert (He8 : ck_end c mod 8 = 0).
  { unfold ck_end. rewrite Z.add_mod, (Z.add_mod (ck_start c)) by lia. destruct Hst as [_ ->], Hsz as [_ ->].
    destruct Hhd as [-> | ->]; done. }
  assert (Hes : ck_end c <= rp_rbuf_size p) by (unfold ck_end; lia).
  unfold commit_rmsg_chunk. rewrite Hcur, Hrb. cbn [mbind option_bind]. eexists. split; [done|].
  set (b := <[rp_current p := set_freeptr rb (ck_end c)]> (rp_rbufs p)).
  assert (Hrbs : map_Forall (rbuf_ok (set_rbufs p b)) b).
  { apply map_Forall_insert_2; simpl.
    - pose proof (pk_rbufs _ _ Hok _ _ Hrb) as [B1 B2 B3 B4 B5]. split; simpl; auto. split; [lia|done].
    - intros a x Ha. destruct (pk_rbufs _ _ Hok a x Ha) as [B1 B2 B3 B4 B5]. by split. }
  assert (Hcur' : is_Some (b !! rp_current p)) by (unfold b; by rewrite lookup_insert_eq).
  (* a closed chunk stays below the free pointer *)
  assert (Hbelow : Forall (fun x => exists rb', b !! ck_rbuf x = Some rb' /\ ck_end x <= rb_freeptr rb' /\
            (ck_rbuf c = ck_rbuf x -> ck_end x <= ck_start c)) (closed (Some m) (rp_rmsgs p))).
  { eapply Forall_impl; [apply Hok|]. intros x (rb' & Hrb' & Hx & Hox). specialize (Hox c Hoc). simpl.
    unfold b. destruct (decide (ck_rbuf x = rp_current p)) as [Hxc|Hxc].
    - rewrite Hxc, lookup_insert_eq. eexists. split; [done|]. simpl. split; [|intros _; apply Hox; congruence].
      assert (ck_end x <= ck_start c) by (apply Hox; congruence). lia.
    - rewrite lookup_insert_ne by congruence. exists rb'. done. }
  split; [|split; [|split; [done|split; [done|split; [done|]]]]].
  - split; simpl; auto; try apply Hok.
    + exists rm, c, (set_freeptr rb (ck_end c)). simpl. unfold b. rewrite lookup_insert_eq. repeat (split; [done|]). split; [lia|done].
    + eapply Forall_impl; [exact Hbelow|]. intros x (rb' & H1 & H2 & H3). exists rb'. simpl. split; [done|]. split; [done|].
      intros c0. unfold open_chunk in *. simpl in *. rewrite Hoc. intros [= <-]. done.
  - pose proof (closed_open _ _ _ _ Hm Hl) as Hp. split; simpl; auto; try apply Hok.
    + rewrite Hp. constructor.
      * exists (set_freeptr rb (ck_end c)). simpl. unfold b. rewrite Hcur, lookup_insert_eq. by simpl.
      * eapply Forall_impl; [exact Hbelow|]. intros x (rb' & H1 & H2 & H3). exists rb'. simpl. by split.
    + eapply pairwise_perm; [symmetry; exact Hp|]. split; [|apply Hok].
      eapply Forall_impl; [exact Hbelow|]. intros x (rb' & H1 & H2 & H3). unfold apart.
      destruct (decide (ck_rbuf c = ck_rbuf x)); [right; right; auto|by left].
  - intros a Ha. simpl. unfold b. rewrite lookup_insert_ne by congruence. done.
Qed.

(** Opening a chunk at the free pointer. *)
Lemma open_new_ok m p rb prev n hdr size :
  pool_ok None p -> rp_rbufs p !! rp_current p = Some rb ->
  rb_freeptr rb + RMSG_PAYLOAD_OFF + rp_max_rmsg_size p <= rp_rbuf_size p ->
  hdr = RMSG_PAYLOAD_OFF \/ hdr = CHUNK_PAYLOAD_OFF ->
  0 <= size <= rp_max_rmsg_size p -> size mod 8 = 0 ->
  let c := RmsgChunk (rp_current p) (rb_freeptr rb) hdr size in
  match rp_rmsgs p !! m with Some rm => prev = rm_chunks rm | None => prev = [] /\ m = (rp_current p, rb_freeptr rb) end ->
  0 < n < 2 ^ 32 ->
  pool_ok (Some m)
    (set_rmsgs (set_rbufs p (<[rp_current p := set_n_live rb (rb_n_live_rmsg_chunks rb + 1)]> (rp_rbufs p)))
       (<[m := Rmsg n (prev ++ [c])]> (rp_rmsgs p))).
Proof.
  intros Hok Hrb Hroom Hh Hs Hs8 c Hprev Hn. pose proof (pk_rbufs _ _ Hok _ _ Hrb) as [B1 B2 B3 B4 B5].
  pose proof (live_bound _ _ _ _ Hok Hrb) as Hlb.
  assert (Hw : wrap_u 32 (rb_n_live_rmsg_chunks rb + 1) = rb_n_live_rmsg_chunks rb + 1) by nowrap.
  assert (Hend : ck_end c <= rb_freeptr rb + RMSG_PAYLOAD_OFF + size).
  { unfold ck_end, c. simpl. destruct Hh as [-> | ->]; unfold RMSG_PAYLOAD_OFF, CHUNK_PAYLOAD_OFF; lia. }
  assert (Hdel : prev ++ closed None (delete m (rp_rmsgs p)) ≡ₚ closed None (rp_rmsgs p)).
  { destruct (rp_rmsgs p !! m) as [rm|] eqn:Em; [subst prev; symmetry; by apply (closed_delete None)|].
    destruct Hprev as [-> _]. by rewrite delete_id. }
  assert (Hcl : closed (Some m) (<[m := Rmsg n (prev ++ [c])]> (rp_rmsgs p)) ≡ₚ closed None (rp_rmsgs p)).
  { rewrite closed_insert. rewrite (closed_delete_any (Some m) None) by tauto. unfold closed_of. simpl.
    rewrite decide_True by done. by rewrite List.removelast_last. }
  assert (Hck : chunk_ok (rp_max_rmsg_size p) c) by (split; simpl; [tauto|done|done]).
  assert (Hlive : forall a, in_rbuf a (closed None (<[m := Rmsg n (prev ++ [c])]> (rp_rmsgs p))) =
            in_rbuf a (closed None (rp_rmsgs p)) + if decide (rp_current p = a) then 1 else 0).
  { intros a. rewrite (in_rbuf_perm a _ (c :: closed (Some m) (<[m := Rmsg n (prev ++ [c])]> (rp_rmsgs p)))).
    - cbn [in_rbuf]. rewrite (in_rbuf_perm _ _ _ Hcl). simpl. lia.
    - apply (closed_open _ m (Rmsg n (prev ++ [c]))); [apply lookup_insert_eq|apply last_snoc]. }
  split; simpl; auto; try apply Hok.
  - by rewrite lookup_insert_eq.
  - intros a x [[<- <-]|[Hne Ha]]%lookup_insert_Some.
    + split; simpl; auto; rewrite ?Hw; [|lia]. rewrite Hlive, B4, !decide_True by done. lia.
    + destruct (pk_rbufs _ _ Hok a x Ha) as [C1 C2 C3 C4 C5]. split; simpl; auto. rewrite Hlive, C4.
      rewrite !decide_False by congruence. lia.
  - apply map_Forall_insert_2; [|apply Hok]. split; simpl; [done| |].
    + destruct (rp_rmsgs p !! m) as [rm|] eqn:Em.
      * destruct (pk_rmsgs _ _ Hok m rm Em) as [_ (c0 & H1 & H2) _]. subst prev. exists c0.
        destruct (rm_chunks rm); [done|]. simpl in *. by simplify_eq.
      * destruct Hprev as [-> ->]. by exists c.
    + apply Forall_app. split; [|by apply Forall_singleton].
      destruct (rp_rmsgs p !! m) as [rm|] eqn:Em; [subst prev; by apply (pk_rmsgs _ _ Hok m rm)|].
      destruct Hprev as [-> _]. by apply Forall_nil.
  - exists (Rmsg n (prev ++ [c])), c, (set_n_live rb (rb_n_live_rmsg_chunks rb + 1)). simpl.
    rewrite !lookup_insert_eq, last_snoc. repeat (split; [done|]). split; [|destruct Hh as [-> | ->]; unfold CHUNK_PAYLOAD_OFF, RMSG_PAYLOAD_OFF in *; lia].
    pose proof (chunk_pos _ _ Hck). unfold c in *. simpl in *. lia.
  - rewrite Hcl. eapply Forall_impl; [apply Hok|]. intros x (rb' & Hrb' & He & _).
    destruct (decide (ck_rbuf x = rp_current p)) as [Hx|Hx].
    + exists (set_n_live rb (rb_n_live_rmsg_chunks rb + 1)). simpl. rewrite Hx, lookup_insert_eq.
      rewrite Hx in Hrb'. simplify_eq. split; [done|]. split; [done|]. intros c0. unfold open_chunk. simpl.
      rewrite lookup_insert_eq. simpl. rewrite last_snoc. intros [= <-] _. done.
    + exists rb'. simpl. rewrite lookup_insert_ne by congruence. split; [done|]. split; [done|]. intros c0. unfold open_chunk. simpl.
      rewrite lookup_insert_eq. simpl. rewrite last_snoc. intros [= <-]. simpl. congruence.
  - eapply pairwise_perm; [symmetry; exact Hcl|]. apply Hok.
Qed.

(** No message is alive at the free pointer while none is being built. *)
Lemma freeptr_unused p rb :
  pool_ok None p -> rp_rbufs p !! rp_current p = Some rb -> rp_rmsgs p !! ((rp_current p, rb_freeptr rb) : rmsg_addr) = None.
Proof.
  intros Hok Hrb. destruct (rp_rmsgs p !! ((rp_current p, rb_freeptr rb) : rmsg_addr)) as [rm|] eqn:Em; [exfalso|done].
  destruct (pk_rmsgs _ _ Hok _ _ Em) as [_ (c & Hh & Hc1 & Hc2) Hco]. simpl in Hc1, Hc2.
  assert (Hin : c ∈ rm_chunks rm) by (by apply head_Some_elem_of).
  assert (Hcl : c ∈ closed None (rp_rmsgs p)) by (rewrite (closed_delete None _ _ _ Em); apply elem_of_app; by left).
  pose proof (pk_closed _ _ Hok) as Hf. rewrite Forall_forall in Hf, Hco. destruct (Hf c Hcl) as (rb' & Hrb' & He & _).
  pose proof (chunk_pos _ _ (Hco c Hin)). rewrite Hc1 in Hrb'. simplify_eq. lia.
Qed.

Lemma rmsg_new_spec p mem :
  pool_ok None p -> mem_fresh p mem ->
  exists p' r, nn_rmsg_new p mem = Some (p', r) /\
    match r with
    | None => mem = None /\ p' = p
    | Some m => pool_ok (Some m) p' /\ rp_rmsgs p !! m = None /\
        rp_rmsgs p' = <[m := Rmsg RMSG_REFCOUNT_UNCOMMITTED_BIAS [RmsgChunk m.1 m.2 RMSG_PAYLOAD_OFF 0]]> (rp_rmsgs p)
    end.
Proof.
  intros Hok Hf. unfold nn_rmsg_new.
  destruct (rbuf_alloc_spec p mem Hok Hf) as (p1 & r & E & Hok1 & Hm & Hs & Hx & Hr). rewrite E.
  cbn [mbind option_bind]. destruct r as [[a off]|]; [|by eexists _, _].
  destruct Hr as (-> & rb & Hrb & <- & Hroom). unfold init_rmsg_chunk. rewrite Hrb. cbn [mbind option_bind].
  eexists _, _. split; [done|]. pose proof (freeptr_unused _ _ Hok1 Hrb) as Hun.
  split; [|split; [by rewrite <- Hm|simpl; by rewrite Hm]].
  pose proof (open_new_ok (rp_current p1, rb_freeptr rb) p1 rb [] RMSG_REFCOUNT_UNCOMMITTED_BIAS RMSG_PAYLOAD_OFF 0 Hok1 Hrb) as Hn.
  simpl app in Hn. apply Hn; [lia|by left|pose proof (pk_sizes _ _ Hok1); lia|done| |done].
  by rewrite Hun.
Qed.

(** Growing the chunk that is being filled. *)
Lemma rmsg_grow_ok m p rm c size :
  pool_ok (Some m) p -> rp_rmsgs p !! m = Some rm -> last (rm_chunks rm) = Some c ->
  ck_size c <= size <= rp_max_rmsg_size p -> size mod 8 = 0 ->
  pool_ok (Some m) (set_rmsgs p (<[m := Rmsg (rm_refcount rm) (set_last (rm_chunks rm) (set_size c size))]> (rp_rmsgs p))).
Proof.
  intros Hok Hm Hl Hs Hs8. destruct (pk_rmsgs _ _ Hok m rm Hm) as [M1 (cf & Mh & M2) M3].
  pose proof (removelast_perm _ _ Hl) as Hperm. pose proof Hl as [l0 Hl0]%last_Some.
  assert (Hrl : removelast (rm_chunks rm) = l0) by (by rewrite Hl0, List.removelast_last).
  set (c' := set_size c size). set (rm' := Rmsg _ _).
  assert (Hchunks : rm_chunks rm' = l0 ++ [c']) by (unfold rm', set_last; simpl; by rewrite Hrl).
  assert (Hrc : rm_refcount rm' = rm_refcount rm) by done. clearbody rm'.
  assert (Hcl : closed (Some m) (<[m := rm']> (rp_rmsgs p)) ≡ₚ closed (Some m) (rp_rmsgs p)).
  { rewrite closed_insert, (closed_delete (Some m) _ _ _ Hm). unfold closed_of. cbn [fst snd].
    rewrite !decide_True by done. by rewrite Hchunks, List.removelast_last, Hrl. }
  assert (Hlive : forall a, in_rbuf a (closed None (<[m := rm']> (rp_rmsgs p))) = in_rbuf a (closed None (rp_rmsgs p))).
  { intros a. rewrite (in_rbuf_perm _ _ _ (closed_insert None _ _ _)), (in_rbuf_perm _ _ _ (closed_delete None _ _ _ Hm)).
    unfold closed_of. cbn [fst snd]. destruct (decide (None = Some m)); [done|].
    rewrite Hchunks, Hl0, !in_rbuf_app. done. }
  assert (Hck : chunk_ok (rp_max_rmsg_size p) c').
  { rewrite Hl0 in M3. apply Forall_app in M3 as [_ M3]. apply Forall_cons in M3 as [[C1 C2 C3] _].
    split; simpl; [done|done|]. split; [lia|done]. }
  assert (Hoc : open_chunk (Some m) p = Some c) by (unfold open_chunk; simpl; by rewrite Hm).
  split; simpl; try apply Hok.
  - intros a x Ha. destruct (pk_rbufs _ _ Hok a x Ha) as [C1 C2 C3 C4 C5]. split; simpl; auto. by rewrite Hlive.
  - apply map_Forall_insert_2; [|apply Hok]. split; [by rewrite Hrc| |].
    + rewrite Hchunks. destruct l0 as [|x l0]; rewrite Hl0 in Mh; simpl in Mh |- *; simplify_eq; [by exists c'|by exists cf].
    + rewrite Hchunks. rewrite Hl0 in M3. apply Forall_app in M3 as [M3 _]. apply Forall_app. split; [done|by apply Forall_singleton].
  - destruct (pk_open _ _ Hok) as (rm1 & c1 & rb & Hm1 & Hl1 & Hrb & Hcur & Hfr & Hend). simplify_eq.
    exists rm', c', rb. simpl. rewrite lookup_insert_eq. split; [done|]. split; [rewrite Hchunks; apply last_snoc|].
    repeat (split; [done|]). split; [|done]. unfold ck_end in *. simpl. lia.
  - rewrite Hcl. eapply Forall_impl; [apply Hok|]. intros x (rb & Hrb & He & Ho). exists rb. simpl.
    split; [done|]. split; [done|]. intros c0. unfold open_chunk. simpl. rewrite lookup_insert_eq. cbn [mbind option_bind].
    rewrite Hchunks, last_snoc. intros [= <-]. apply (Ho c Hoc).
  - eapply pairwise_perm; [symmetry; exact Hcl|]. apply Hok.
Qed.

(** The memory [off, off + size) of buffer [a] is aligned, inside the buffer,
    and beyond all live memory of that buffer. *)
Definition usable p (a off size : Z) : Prop :=
  off mod 8 = 0 /\ 0 <= off /\ off + size <= rp_rbuf_size p /\
  forall c, c ∈ closed None (rp_rmsgs p) -> ck_rbuf c = a -> ck_end c <= off.

Lemma chunk_end8 mx c : chunk_ok mx c -> ck_end c mod 8 = 0.
Proof.
  intros [[_ H1] Hh [_ H2]]. unfold ck_end. rewrite Z.add_mod, (Z.add_mod (ck_start c)) by lia. rewrite H1, H2.
  destruct Hh as [-> | ->]; done.
Qed.

(** The end of the chunk that is being filled. *)
Lemma open_end_usable m p rm c size :
  pool_ok (Some m) p -> rp_rmsgs p !! m = Some rm -> last (rm_chunks rm) = Some c ->
  ck_size c + size <= rp_max_rmsg_size p -> usable p (ck_rbuf c) (ck_end c) size.
Proof.
  intros Hok Hm Hl Hs. destruct (pk_open _ _ Hok) as (rm1 & c1 & rb & Hm1 & Hl1 & Hrb & Hcur & Hfr & Hend). simplify_eq.
  pose proof (mo_chunks _ _ _ (pk_rmsgs _ _ Hok m rm Hm)) as Hco. rewrite Forall_forall in Hco.
  pose proof (Hco c ltac:(by apply last_Some_elem_of)) as Hck. pose proof (chunk_pos _ _ Hck).
  split; [by eapply chunk_end8|]. destruct Hck as [? _ _]. split; [lia|]. split; [unfold ck_end in *; lia|].
  intros x Hx Hxa. rewrite (closed_open _ _ _ _ Hm Hl) in Hx. apply elem_of_cons in Hx as [->|Hx]; [lia|].
  pose proof (pk_closed _ _ Hok) as Hcl. rewrite Forall_forall in Hcl. destruct (Hcl x Hx) as (rb' & _ & _ & Ho).
  assert (ck_end x <= ck_start c); [|lia]. apply Ho; [|done]. unfold open_chunk. simpl. by rewrite Hm.
Qed.

Lemma rmsg_alloc_spec m p rm size mem :
  pool_ok (Some m) p -> rp_rmsgs p !! m = Some rm -> RMSG_REFCOUNT_UNCOMMITTED_BIAS <= rm_refcount rm ->
  0 <= size < 2 ^ 32 - 8 -> align8uint32 size <= rp_max_rmsg_size p -> 2 * rp_max_rmsg_size p < 2 ^ 32 ->
  mem_fresh p mem ->
  exists p' r, nn_rmsg_alloc p m size mem = Some (p', r) /\ pool_ok (Some m) p' /\
    (forall m', refcount_of p' m' = refcount_of p m') /\
    match r with
    | None => mem = None
    | Some (a, off) => usable p a off (align8uint32 size) /\
        exists rm' c', rp_rmsgs p' !! m = Some rm' /\ last (rm_chunks rm') = Some c' /\ ck_rbuf c' = a /\
          ck_start c' + ck_hdr c' <= off /\ ck_end c' = off + align8uint32 size
    end.
Proof.
  intros Hok Hm Hu Hs Ha H2 Hf. destruct (align8_spec size Hs) as [Ha8 Has]. unfold nn_rmsg_alloc. rewrite Hm. cbn [mbind option_bind].
  destruct (pk_open _ _ Hok) as (rm1 & c & rb & Hm1 & Hl & Hrb & Hcur & Hfr & Hend). simplify_eq.
  rewrite Hl. cbn [mbind option_bind]. rewrite Hcur, Hrb. cbn [mbind option_bind].
  pose proof (mo_chunks _ _ _ (pk_rmsgs _ _ Hok m rm Hm)) as Hco. rewrite Forall_forall in Hco.
  pose proof (Hco c ltac:(by apply last_Some_elem_of)) as Hck. destruct Hck as [C1 C2 [C3 C4]].
  pose proof (pk_rbufs _ _ Hok _ _ Hrb) as [_ B2 _ _ _]. rewrite B2.
  unfold uncommitted. rewrite Z.geb_leb. destruct (Z.leb_spec RMSG_REFCOUNT_UNCOMMITTED_BIAS (rm_refcount rm)); [|lia].
  destruct (Z.eqb_spec (ck_size c mod 8) 0); [|lia]. destruct (Z.leb_spec (align8uint32 size) (rp_max_rmsg_size p)); [|lia].
  cbn [andb negb].
  assert (Hw : wrap_u 32 (ck_size c + align8uint32 size) = ck_size c + align8uint32 size) by nowrap.
  rewrite Hw, Z.gtb_ltb. destruct (Z.ltb_spec (rp_max_rmsg_size p) (ck_size c + align8uint32 size)) as [Hbig|Hfit].
  - destruct (commit_chunk_ok m p rm c Hok Hm Hl) as (p1 & E1 & Hok1 & Hok1' & Hm1' & Hz1 & Hx1 & Hd1). rewrite E1. cbn [mbind option_bind].
    destruct (rbuf_alloc_spec p1 mem Hok1') as (p2 & r & E2 & Hok2 & Hm2 & Hz2 & Hx2 & Hr).
    { destruct mem; [by apply Hd1|done]. }
    rewrite E2. cbn [mbind option_bind]. destruct r as [[a off]|].
    + destruct Hr as (-> & rb2 & Hrb2 & <- & Hroom). unfold init_rmsg_chunk. rewrite Hrb2. cbn [mbind option_bind].
      eexists _, _. split; [done|]. cbn [ck_rbuf ck_end ck_start ck_hdr ck_size].
      assert (Hw0 : wrap_u 32 (0 + align8uint32 size) = align8uint32 size) by nowrap.
      unfold set_size, ck_end. cbn [ck_rbuf ck_end ck_start ck_hdr ck_size]. rewrite Hw0.
      assert (Hmm : rp_rmsgs p2 !! m = Some rm) by congruence.
      split; [|split; [|split]].
      * apply (open_new_ok m p2 rb2 (rm_chunks rm)); auto; [lia| |by rewrite Hmm|].
        { rewrite Hx2, Hx1. lia. }
        pose proof (mo_count _ _ _ (pk_rmsgs _ _ Hok m rm Hm)). done.
      * intros m'. unfold refcount_of. simpl. rewrite Hm2, Hm1'. destruct (decide (m' = m)) as [->|Hne].
        -- by rewrite lookup_insert_eq, Hm.
        -- by rewrite lookup_insert_ne.
      * pose proof (pk_rbufs _ _ Hok2 _ _ Hrb2) as [_ _ [F1 F2] _ _]. unfold RMSG_PAYLOAD_OFF, CHUNK_PAYLOAD_OFF in *. split; [|split; [lia|split; [lia|]]].
        { rewrite Z.add_0_r, Z.add_mod, F2 by lia. done. }
        intros x Hx Hxa. pose proof (pk_closed _ _ Hok2) as Hcl. rewrite Forall_forall in Hcl. rewrite Hm2, Hm1' in Hcl.
        destruct (Hcl x Hx) as (rbx & Hrbx & Hex & _). rewrite Hxa in Hrbx. simplify_eq. lia.
      * eexists _, _. simpl. rewrite lookup_insert_eq. split; [done|]. simpl. rewrite last_snoc. split; [done|]. simpl. split; [done|]. lia.
    + destruct Hr as [-> ->]. eexists _, _. split; [done|]. split; [done|]. split; [|done]. intros m'. unfold refcount_of. by rewrite Hm1'.
  - eexists _, _. split; [done|]. split; [|split; [|split]].
    + apply rmsg_grow_ok; auto; [lia|]. rewrite Z.add_mod, C4, Ha8 by lia. done.
    + intros m'. unfold refcount_of. simpl. destruct (decide (m' = m)) as [->|Hne]; [by rewrite lookup_insert_eq, Hm|by rewrite lookup_insert_ne].
    + rewrite <- Hcur. by apply (open_end_usable m p rm c).
    + eexists _, _. simpl. rewrite lookup_insert_eq. split; [done|]. simpl. unfold set_last. rewrite last_snoc. split; [done|]. simpl.
      split; [done|]. unfold ck_end. simpl. lia.
Qed.

Lemma rmsg_setsize_spec m p rm c size :
  pool_ok (Some m) p -> rp_rmsgs p !! m = Some rm -> rm_chunks rm = [c] -> ck_size c = 0 ->
  rm_refcount rm = RMSG_REFCOUNT_UNCOMMITTED_BIAS ->
  0 <= size < 2 ^ 32 - 8 -> align8uint32 size <= rp_max_rmsg_size p ->
  exists p', nn_rmsg_setsize p m size = Some p' /\ pool_ok (Some m) p' /\
    rp_rmsgs p' = <[m := Rmsg (rm_refcount rm) [set_size c (align8uint32 size)]]> (rp_rmsgs p).
Proof.
  intros Hok Hm Hc H0 Hr Hs Ha. destruct (align8_spec size Hs) as [Ha8 Has]. unfold nn_rmsg_setsize.
  rewrite Hm. cbn [mbind option_bind]. rewrite Hc, H0, Hr, !Z.eqb_refl.
  destruct (pk_open _ _ Hok) as (rm1 & c1 & rb & Hm1 & Hl & Hrb & Hcur & _). simplify_eq. rewrite Hc in Hl. simpl in Hl. simplify_eq.
  rewrite Hcur, Hrb. cbn [mbind option_bind]. rewrite (bo_max _ _ _ (pk_rbufs _ _ Hok _ _ Hrb)).
  destruct (Z.leb_spec (align8uint32 size) (rp_max_rmsg_size p)); [|lia]. cbn [andb].
  eexists. split; [done|]. split; [|done].
  pose proof (rmsg_grow_ok m p rm c1 (align8uint32 size) Hok Hm) as Hg. rewrite Hc, Hr in Hg. unfold set_last in Hg. simpl in Hg.
  apply Hg; [done|lia|done].
Qed.

Lemma rmsg_commit_spec m p rm :
  pool_ok (Some m) p -> rp_rmsgs p !! m = Some rm -> RMSG_REFCOUNT_UNCOMMITTED_BIAS <= rm_refcount rm ->
  exists p', nn_rmsg_commit p m = Some p' /\ pool_ok None p' /\
    forall m', refcount_of p' m' = refcount_of p m' - if decide (m' = m) then RMSG_REFCOUNT_UNCOMMITTED_BIAS else 0.
Proof.
  intros Hok Hm Hu. unfold nn_rmsg_commit. rewrite Hm. cbn [mbind option_bind].
  destruct (pk_open _ _ Hok) as (rm1 & c & rb & Hm1 & Hl & Hrb & Hcur & Hfr & Hend). simplify_eq.
  destruct (pk_rmsgs _ _ Hok m rm Hm) as [Hrange (c0 & Hh & _) Hco]. rewrite Forall_forall in Hco.
  pose proof (Hco c ltac:(by apply last_Some_elem_of)) as [C1 C2 [C3 C4]].
  destruct (live_rbuf (Some m) p c0 Hok) as [rb0 Hrb0].
  { rewrite (closed_delete None _ _ _ Hm). apply elem_of_app. left. by apply head_Some_elem_of. }
  pose proof (pk_rbufs _ _ Hok _ _ Hrb) as [_ B2 _ _ B5]. pose proof (bo_pos _ _ _ (pk_rbufs _ _ Hok _ _ Hrb0)) as B5'.
  rewrite Hl, Hh. cbn [mbind option_bind]. rewrite Hcur, Hrb, Hrb0. cbn [mbind option_bind]. rewrite B2.
  unfold uncommitted. rewrite Z.geb_leb. destruct (Z.leb_spec RMSG_REFCOUNT_UNCOMMITTED_BIAS (rm_refcount rm)); [|lia].
  destruct (Z.leb_spec (ck_size c) (rp_max_rmsg_size p)); [|lia]. destruct (Z.eqb_spec (ck_size c mod 8) 0); [|lia].
  rewrite !Z.gtb_ltb. destruct (Z.ltb_spec 0 (rb_n_live_rmsg_chunks rb0)); [|lia]. destruct (Z.ltb_spec 0 (rb_n_live_rmsg_chunks rb)); [|lia].
  rewrite bool_decide_eq_true_2 by done. cbn [andb]. change RMSG_REFCOUNT_UNCOMMITTED_BIAS with (2 ^ 31) in *.
  assert (Hw : wrap_u 32 (rm_refcount rm - 2 ^ 31) = rm_refcount rm - 2 ^ 31) by nowrap.
  rewrite Hw. destruct (Z.eqb_spec (rm_refcount rm - 2 ^ 31) 0) as [Hz|Hz].
  - destruct (free_spec (Some m) p m rm _ Hok Hm Hz) as (b & E & _ & Hok'). rewrite E. eexists. split; [done|].
    unfold without in Hok'. rewrite decide_True in Hok' by done. split; [done|]. intros m'. unfold refcount_of. simpl.
    destruct (decide (m' = m)) as [->|Hne]; [rewrite lookup_delete_eq, Hm; lia|rewrite lookup_delete_ne by done; lia].
  - pose proof (count_only_ok (Some m) p m rm (rm_refcount rm - 2 ^ 31) Hok Hm ltac:(lia)) as Hok1.
    destruct (commit_chunk_ok m _ (Rmsg (wrap_u 32 (rm_refcount rm - 2 ^ 31)) (rm_chunks rm)) c Hok1) as (p' & E & _ & Hok' & Hms & _).
    { simpl. apply lookup_insert_eq. }
    { done. }
    exists p'. split; [done|]. split; [done|]. intros m'. unfold refcount_of. rewrite Hms. simpl.
    destruct (decide (m' = m)) as [->|Hne]; [rewrite lookup_insert_eq, Hm; simpl; lia|rewrite lookup_insert_ne by done; lia].
Qed.

Lemma rbufpool_new_spec rbuf_size max_rmsg_size mem_pool lock_ok mem :
  0 < max_rmsg_size -> RMSG_PAYLOAD_OFF + max_rmsg_size <= rbuf_size < 2 ^ 32 ->
  exists r, nn_rbufpool_new rbuf_size max_rmsg_size mem_pool lock_ok mem = Some r /\
    match r with
    | Some p => pool_ok None p /\ rp_rmsgs p = ∅ /\ rp_rbuf_size p = rbuf_size /\ rp_max_rmsg_size p = max_rmsg_size
    | None => mem = None \/ mem_pool = false \/ lock_ok = false
    end.
Proof.
  intros Hm Hs. unfold nn_rbufpool_new, max_rmsg_size_w_hdr.
  change (max_uint32 RMSG_PAYLOAD_OFF CHUNK_PAYLOAD_OFF) with RMSG_PAYLOAD_OFF. unfold RMSG_PAYLOAD_OFF in *.
  assert (Hw : wrap_u 32 (40 + max_rmsg_size) = 40 + max_rmsg_size) by nowrap.
  rewrite Hw, Z.gtb_ltb, Z.geb_leb. destruct (Z.ltb_spec 0 max_rmsg_size); [|lia].
  destruct (Z.leb_spec (40 + max_rmsg_size) rbuf_size); [|lia]. cbn [andb].
  destruct mem_pool, lock_ok; try (eexists; split; [done|]; simpl; tauto). cbn [andb].
  destruct mem as [a|]; simpl; eexists; (split; [done|]); [|by left]. split; [|done].
  split; simpl; [done|by rewrite lookup_insert_eq| |done|done|constructor|done].
  intros x rb Hx. apply lookup_singleton_Some in Hx as [<- <-]. split; simpl; [done|done|split; [lia|done]| |done].
  by rewrite decide_True.
Qed.

(** With no message left, freeing the pool frees every buffer. *)
Lemma rbufpool_free_spec p :
  pool_ok None p -> rp_rmsgs p = ∅ -> exists p', nn_rbufpool_free p = Some p' /\ rp_rbufs p' = ∅.
Proof.
  intros Hok He. destruct (pk_cur _ _ Hok) as [rb Hrb].
  assert (Hn : forall a x, rp_rbufs p !! a = Some x -> a = rp_current p /\ rb_n_live_rmsg_chunks x = 1).
  { intros a x Ha. destruct (pk_rbufs _ _ Hok a x Ha) as [_ _ _ H1 H2]. rewrite He in H1. change (closed None ∅) with (@nil rmsg_chunk) in H1. simpl in H1.
    destruct (decide (a = rp_current p)); [done|lia]. }
  destruct (Hn _ _ Hrb) as [_ H1]. unfold nn_rbufpool_free, nn_rbuf_release. rewrite Hrb. cbn [mbind option_bind].
  cbn [rb_n_live_rmsg_chunks set_n_live]. rewrite H1. eexists. split; [done|]. simpl. apply map_eq. intros a.
  rewrite lookup_empty. destruct (decide (a = rp_current p)) as [->|Hne]; [apply lookup_delete_eq|].
  rewrite lookup_delete_ne by done. destruct (rp_rbufs p !! a) as [x|] eqn:Ha; [|done]. by destruct (Hn a x Ha).
Qed.

(** ** The theorems, with witnesses *)

(** C31: the reference counts of messages, with the freeing of messages and
    buffers behind them, implement the interface that the defragmenter and the
    reorder administration are verified against: each operation succeeds, keeps
    the storage consistent, and changes the count of its message only. *)
Theorem rmsg_refines_refs : RmsgRefsLaws rbufpool.
Proof. exact rmsg_refs_laws. Qed.

(** [nn_rmsg_new] makes a message where no live one is, in the current
    buffer or a new one, and fails only if there is no memory for a buffer, in
    which case nothing has changed. *)
Theorem rmsg_new_ok p mem :
  pool_ok None p -> mem_fresh p mem ->
  exists p' r, nn_rmsg_new p mem = Some (p', r) /\
    match r with
    | None => mem = None /\ p' = p
    | Some m => pool_ok (Some m) p' /\ rp_rmsgs p !! m = None /\
        rp_rmsgs p' = <[m := Rmsg RMSG_REFCOUNT_UNCOMMITTED_BIAS [RmsgChunk m.1 m.2 RMSG_PAYLOAD_OFF 0]]> (rp_rmsgs p)
    end.
Proof. apply rmsg_new_spec. Qed.

(** C35: the memory [nn_rmsg_alloc] returns is 8-byte aligned, lies in its
    buffer and in the last chunk of the message, and overlaps no live memory;
    the allocation fails only if a new buffer is needed and there is none. *)
Theorem rmsg_alloc_safe m p rm size mem :
  pool_ok (Some m) p -> rp_rmsgs p !! m = Some rm -> RMSG_REFCOUNT_UNCOMMITTED_BIAS <= rm_refcount rm ->
  0 <= size < 2 ^ 32 - 8 -> align8uint32 size <= rp_max_rmsg_size p -> 2 * rp_max_rmsg_size p < 2 ^ 32 ->
  mem_fresh p mem ->
  exists p' r, nn_rmsg_alloc p m size mem = Some (p', r) /\ pool_ok (Some m) p' /\
    (forall m', refcount_of p' m' = refcount_of p m') /\
    match r with
    | None => mem = None
    | Some (a, off) => usable p a off (align8uint32 size) /\
        exists rm' c', rp_rmsgs p' !! m = Some rm' /\ last (rm_chunks rm') = Some c' /\ ck_rbuf c' = a /\
          ck_start c' + ck_hdr c' <= off /\ ck_end c' = off + align8uint32 size
    end.
Proof. apply rmsg_alloc_spec. Qed.

(** [nn_rmsg_commit] keeps a message that is still referred to, with its
    memory out of reach of later allocations, and frees one that is not. *)
Theorem rmsg_commit_ok m p rm :
  pool_ok (Some m) p -> rp_rmsgs p !! m = Some rm -> RMSG_REFCOUNT_UNCOMMITTED_BIAS <= rm_refcount rm ->
  exists p', nn_rmsg_commit p m = Some p' /\ pool_ok None p' /\
    forall m', refcount_of p' m' = refcount_of p m' - if decide (m' = m) then RMSG_REFCOUNT_UNCOMMITTED_BIAS else 0.
Proof. apply rmsg_commit_spec. Qed.

(** Once no message is left, [nn_rbufpool_free] leaves no buffer behind. *)
Theorem rbufpool_no_leak p :
  pool_ok None p -> rp_rmsgs p = ∅ -> exists p', nn_rbufpool_free p = Some p' /\ rp_rbufs p' = ∅.
Proof. apply rbufpool_free_spec. Qed.

(** ** A concrete pool *)

Definition mpool : rbufpool :=
  match nn_rbufpool_new 4096 1024 true true (Some 7) with Some (Some p) => p | _ => Rbufpool 0 0 0 ∅ ∅ end.

Lemma mpool_ok : pool_ok None mpool.
Proof.
  destruct (rbufpool_new_spec 4096 1024 true true (Some 7)) as (r & E & Hr); [lia|vm_compute; split; [discriminate|reflexivity]|].
  unfold mpool. rewrite E. destruct r as [p|]; [apply Hr|]. destruct Hr as [|[|]]; done.
Qed.

Definition mmsg : rmsg_addr := (7, 0).
Definition mbusy : rbufpool := match nn_rmsg_new mpool None with Some (p, _) => p | None => mpool end.

Lemma mbusy_ok : pool_ok (Some mmsg) mbusy.
Proof.
  destruct (rmsg_new_spec mpool None mpool_ok I) as (p & r & E & Hr).
  assert (E' := E). vm_compute in E'. injection E' as _ Er. unfold mbusy. rewrite E. rewrite <- Er in Hr. apply Hr.
Qed.

Lemma rmsg_new_ok_witness :
  exists p' m, nn_rmsg_new mpool None = Some (p', Some m) /\ pool_ok (Some m) p' /\ m = mmsg.
Proof.
  destruct (rmsg_new_ok mpool None mpool_ok I) as (p & r & E & Hr). pose proof E as E'.
  vm_compute in E'. injection E' as _ Er. subst r. exists p, (7, 0). split; [exact E|]. split; [apply Hr|reflexivity].
Defined.

Lemma rmsg_alloc_safe_witness :
  exists p' a off, nn_rmsg_alloc mbusy mmsg 20 None = Some (p', Some (a, off)) /\ pool_ok (Some mmsg) p' /\
    usable mbusy a off 24 /\ off = 40.
Proof.
  destruct (rp_rmsgs mbusy !! mmsg) as [rm|] eqn:Em; [|vm_compute in Em; discriminate].
  destruct (rmsg_alloc_safe mmsg mbusy rm 20 None mbusy_ok Em) as (p & r & E & Hok & _ & Hr);
    [vm_compute in Em; injection Em as <-; vm_compute; discriminate|lia|vm_compute; discriminate|reflexivity|exact I|].
  pose proof E as E'. vm_compute in E'. injection E' as _ Er. subst r. destruct Hr as [Hu _].
  exists p, 7, 40. split; [exact E|]. split; [exact Hok|]. split; [exact Hu|reflexivity].
Defined.

Lemma rmsg_commit_ok_witness :
  exists p', nn_rmsg_commit mbusy mmsg = Some p' /\ pool_ok None p' /\ refcount_of p' mmsg = 0.
Proof.
  destruct (rp_rmsgs mbusy !! mmsg) as [rm|] eqn:Em; [|vm_compute in Em; discriminate].
  destruct (rmsg_commit_ok mmsg mbusy rm mbusy_ok Em) as (p & E & Hok & Hr);
    [vm_compute in Em; injection Em as <-; vm_compute; discriminate|].
  exists p. split; [exact E|]. split; [exact Hok|]. rewrite Hr. vm_compute. reflexivity.
Defined.

Lemma rbufpool_no_leak_witness : exists p', nn_rbufpool_free mpool = Some p' /\ rp_rbufs p' = ∅.
Proof. apply (rbufpool_no_leak mpool mpool_ok). reflexivity. Defined.
