(* ===== verification/Dqueue.v ===== *)
(** * Delivery queues: the DELIVERY QUEUE part of [q_radmin.c]

    Receive threads append chains of samples under the lock of the queue; one
    delivery thread takes the whole queue and processes it without the lock; a
    receive thread may wait until a full queue is empty.  The model is a
    transition system: a step is a critical section, or one access to shared
    memory outside it.  [os_condWait] releases the lock and sleeps in one step;
    a broadcast makes the sleepers runnable.

    The handler and the callbacks are not part of this code: the calls to them
    are events of a log, as are the releases of fragment chains. *)

From Stdlib Require Import ZArith Lia.
From stdpp Require Import prelude.
From S2P Require Import Prelude Refs Defrag Reorder.

(** [nn_guid_t] *)
Record nn_guid : Type := NnGuid { guid_prefix : Z * Z * Z; guid_entityid : Z }.

(** [struct nn_dqueue_bubble]; a callback and its argument are one number. *)
Inductive nn_dqueue_bubble : Type :=
| NN_DQBK_STOP
| NN_DQBK_CALLBACK (cb : Z)
| NN_DQBK_RDGUID (rdguid : nn_guid) (count : Z).

(** A chain element in the queue: a sample or gap, or a bubble (whose
    [sampleinfo] points to itself). *)
Inductive dq_elem : Type :=
| DqSample (e : rsample_chain_elem)
| DqBubble (b : nn_dqueue_bubble).

Inductive dqueue_elem_kind : Type := DQEK_DATA | DQEK_GAP | DQEK_BUBBLE.

Definition elem_kind (e : dq_elem) : dqueue_elem_kind :=
  match e with
  | DqSample e => match ce_sampleinfo e with None => DQEK_GAP | Some _ => DQEK_DATA end
  | DqBubble _ => DQEK_BUBBLE
  end.

(** What the delivery thread does with an element. *)
Inductive event : Type :=
| EvHandler (info : rsample_info) (fragchain : list rdata) (prdguid : option nn_guid)
| EvUnref (fragchain : list rdata)
| EvCallback (cb : Z).

(** Where the delivery thread is: at the top of its loop with the lock to be
    taken, asleep, woken up, processing the chain it took, between decrementing
    [nof_samples] to 0 and the broadcast, before the [switch], or finished. *)
Inductive consumer : Type :=
| CTop
| CWait
| CWoken
| CPop (sc : list dq_elem)
| CBroadcast (e : dq_elem) (sc : list dq_elem)
| CSwitch (e : dq_elem) (sc : list dq_elem)
| CDone.

(** Where a thread in [nn_dqueue_wait_until_empty_if_full] is: not in it, about
    to lock, about to test [nof_samples] with the lock held, about to sleep with
    the lock held, or asleep. *)
Inductive waiter : Type := WOut | WLock | WTest | WSleep | WWait.

Record nn_dqueue : Type := NnDqueue {
  dq_sc : list dq_elem;
  dq_max_samples : Z;
  dq_nof_samples : Z;
  (* local variables of the delivery thread *)
  dq_pc : consumer;
  dq_keepgoing : bool;
  dq_prdguid : option nn_guid;
  dq_rdguid_count : Z;
  (* the waiting thread, and the log *)
  dq_waiter : waiter;
  dq_log : list event;
}.

Implicit Types (q : nn_dqueue) (sc : list dq_elem).

Definition nn_dqueue_new (max_samples : Z) : nn_dqueue :=
  NnDqueue [] max_samples 0 CTop true None 0 WOut [].

(** Assignments. *)
Definition set_sc q sc : nn_dqueue :=
  NnDqueue sc (dq_max_samples q) (dq_nof_samples q) (dq_pc q) (dq_keepgoing q) (dq_prdguid q) (dq_rdguid_count q) (dq_waiter q) (dq_log q).
Definition set_nof q (n : Z) : nn_dqueue :=
  NnDqueue (dq_sc q) (dq_max_samples q) (wrap_u 32 n) (dq_pc q) (dq_keepgoing q) (dq_prdguid q) (dq_rdguid_count q) (dq_waiter q) (dq_log q).
Definition set_pc q (pc : consumer) : nn_dqueue :=
  NnDqueue (dq_sc q) (dq_max_samples q) (dq_nof_samples q) pc (dq_keepgoing q) (dq_prdguid q) (dq_rdguid_count q) (dq_waiter q) (dq_log q).
Definition set_keepgoing q (b : bool) : nn_dqueue :=
  NnDqueue (dq_sc q) (dq_max_samples q) (dq_nof_samples q) (dq_pc q) b (dq_prdguid q) (dq_rdguid_count q) (dq_waiter q) (dq_log q).
Definition set_rdguid q (g : option nn_guid) (n : Z) : nn_dqueue :=
  NnDqueue (dq_sc q) (dq_max_samples q) (dq_nof_samples q) (dq_pc q) (dq_keepgoing q) g n (dq_waiter q) (dq_log q).
Definition set_waiter q (w : waiter) : nn_dqueue :=
  NnDqueue (dq_sc q) (dq_max_samples q) (dq_nof_samples q) (dq_pc q) (dq_keepgoing q) (dq_prdguid q) (dq_rdguid_count q) w (dq_log q).
Definition add_event q (ev : event) : nn_dqueue :=
  NnDqueue (dq_sc q) (dq_max_samples q) (dq_nof_samples q) (dq_pc q) (dq_keepgoing q) (dq_prdguid q) (dq_rdguid_count q) (dq_waiter q) (dq_log q ++ [ev]).

(** [os_condBroadcast (&q->cond)] *)
Definition broadcast q : nn_dqueue :=
  let q := match dq_pc q with CWait => set_pc q CWoken | _ => q end in
  match dq_waiter q with WWait => set_waiter q WLock | _ => q end.

(** Whether the lock is free between two steps. *)
Definition unlocked q : bool := match dq_waiter q with WTest | WSleep => false | _ => true end.

(** ** The operations of the producers *)

(** The queue and [must_signal]. *)
Definition nn_dqueue_enqueue_locked q sc : nn_dqueue * bool :=
  match dq_sc q with
  | [] => (set_sc q sc, true)
  | _ => (set_sc q (dq_sc q ++ sc), false)
  end.

Definition nn_dqueue_enqueue_bubble_locked q (b : nn_dqueue_bubble) : nn_dqueue * bool :=
  nn_dqueue_enqueue_locked q [DqBubble b].

(** [None]: a failed assertion, or the lock is taken. *)
Definition nn_dqueue_enqueue q (sc : list rsample_chain_elem) (rres : Z) : option nn_dqueue :=
  if negb (unlocked q && (rres >? 0) && bool_decide (sc <> [])) then None else
  let q := set_nof q (dq_nof_samples q + rres) in
  let '(q, must_signal) := nn_dqueue_enqueue_locked q (map DqSample sc) in
  Some (if must_signal then broadcast q else q).

Definition nn_dqueue_enqueue_bubble q (b : nn_dqueue_bubble) : option nn_dqueue :=
  if negb (unlocked q) then None else
  let q := set_nof q (dq_nof_samples q + 1) in
  let '(q, must_signal) := nn_dqueue_enqueue_bubble_locked q b in
  Some (if must_signal then broadcast q else q).

Definition nn_dqueue_enqueue_callback q (cb : Z) : option nn_dqueue :=
  nn_dqueue_enqueue_bubble q (NN_DQBK_CALLBACK cb).

Definition nn_dqueue_enqueue1 q (rdguid : nn_guid) (sc : list rsample_chain_elem) (rres : Z) : option nn_dqueue :=
  if negb (unlocked q && (rres >? 0) && bool_decide (sc <> [])) then None else
  let q := set_nof q (dq_nof_samples q + 1 + rres) in
  let '(q, must_signal) := nn_dqueue_enqueue_bubble_locked q (NN_DQBK_RDGUID rdguid (wrap_u 32 rres)) in
  let q := if must_signal then broadcast q else q in
  Some (fst (nn_dqueue_enqueue_locked q (map DqSample sc))).

Definition nn_dqueue_is_full q : bool := dq_nof_samples q >=? dq_max_samples q.

(** The first half of [nn_dqueue_free]; the second half waits for [CDone]. *)
Definition nn_dqueue_free_stop q : option nn_dqueue := nn_dqueue_enqueue_bubble q NN_DQBK_STOP.

(** The assertion after the delivery thread has stopped. *)
Definition nn_dqueue_free_assert q : bool := match dq_sc q with [] => true | _ => false end.

(** ** The delivery thread *)

(** [sc = q->sc; q->sc.first = q->sc.last = NULL] *)
Definition take_queue q : nn_dqueue := set_pc (set_sc q []) (CPop (dq_sc q)).

(** The [switch]: an element is processed. *)
Definition process q (e : dq_elem) : nn_dqueue :=
  match e with
  | DqSample e =>
      let q := match ce_sampleinfo e with
               | Some info => add_event q (EvHandler info (ce_fragchain e) (dq_prdguid q))
               | None => q
               end in
      let q := add_event q (EvUnref (ce_fragchain e)) in
      if dq_rdguid_count q >? 0 then
        let n := dq_rdguid_count q - 1 in
        if n =? 0 then set_rdguid q None n else set_rdguid q (dq_prdguid q) n
      else q
  | DqBubble NN_DQBK_STOP => set_keepgoing q false
  | DqBubble (NN_DQBK_CALLBACK cb) => add_event q (EvCallback cb)
  | DqBubble (NN_DQBK_RDGUID g n) => set_rdguid q (Some g) n
  end.

(** One step of [dqueue_thread]; [None]: it cannot go on by itself. *)
Definition dqueue_thread_step q : option nn_dqueue :=
  match dq_pc q with
  | CTop =>
      if negb (unlocked q) then None
      else if negb (dq_keepgoing q) then Some (set_pc q CDone)
      else match dq_sc q with [] => Some (set_pc q CWait) | _ => Some (take_queue q) end
  | CWait => None
  | CWoken => if unlocked q then Some (take_queue q) else None
  | CPop [] => Some (set_pc q CTop)
  | CPop (e :: sc) =>
      let n := wrap_u 32 (dq_nof_samples q - 1) in
      Some (set_pc (set_nof q n) (if n =? 0 then CBroadcast e sc else CSwitch e sc))
  | CBroadcast e sc => Some (broadcast (set_pc q (CSwitch e sc)))
  | CSwitch e sc => Some (set_pc (process q e) (CPop sc))
  | CDone => None
  end.

(** ** [nn_dqueue_wait_until_empty_if_full] *)

Definition waiter_step q : option nn_dqueue :=
  match dq_waiter q with
  | WOut => Some (if nn_dqueue_is_full q then set_waiter q WLock else q)
  | WLock => Some (set_waiter q WTest)
  | WTest => Some (if dq_nof_samples q >? 0 then set_waiter q WSleep else set_waiter q WOut)
  | WSleep => Some (set_waiter q WWait)
  | WWait => None
  end.
