(* ===== verification/DqueueClaims.v ===== *)
(** * What delivery queues guarantee

    Invariants of the transition system of [Dqueue.v] by induction on
    reachability, a reachable deadlock, and the theorems with witnesses. *)

From Stdlib Require Import ZArith Lia.
From stdpp Require Import prelude.
From S2P Require Import Prelude Refs Defrag Reorder Dqueue.

Implicit Types (q : nn_dqueue) (l sc : list dq_elem) (g : option nn_guid).

(** ** What is to be delivered *)

(** The events for a sample or gap, for reader [g] if there is one. *)
Definition deliver g (e : rsample_chain_elem) : list event :=
  match ce_sampleinfo e with
  | Some info => [EvHandler info (ce_fragchain e) g; EvUnref (ce_fragchain e)]
  | None => [EvUnref (ce_fragchain e)]
  end.

Definition deliver_all g (l : list rsample_chain_elem) : list event := mjoin (map (deliver g) l).

(** The reader and count after one more sample. *)
Definition count_down (s : option nn_guid * Z) : option nn_guid * Z :=
  if s.2 >? 0 then if s.2 - 1 =? 0 then (None, 0) else (s.1, s.2 - 1) else s.

(** The reader and count after the elements [l]. *)
Fixpoint state_after (s : option nn_guid * Z) l : option nn_guid * Z :=
  match l with
  | [] => s
  | DqSample _ :: l' => state_after (count_down s) l'
  | DqBubble (NN_DQBK_RDGUID g n) :: l' => state_after (Some g, n) l'
  | DqBubble _ :: l' => state_after s l'
  end.

(** The events that the elements [l] will cause. *)
Fixpoint pending (s : option nn_guid * Z) l : list event :=
  match l with
  | [] => []
  | DqSample e :: l' => deliver s.1 e ++ pending (count_down s) l'
  | DqBubble (NN_DQBK_RDGUID g n) :: l' => pending (Some g, n) l'
  | DqBubble (NN_DQBK_CALLBACK cb) :: l' => EvCallback cb :: pending s l'
  | DqBubble NN_DQBK_STOP :: l' => pending s l'
  end.

Lemma state_after_app l1 : forall s l2, state_after s (l1 ++ l2) = state_after (state_after s l1) l2.
Proof. induction l1 as [|[e|[|cb|g n]] l1 IH]; intros s l2; simpl; auto. Qed.

Lemma pending_app l1 : forall s l2, pending s (l1 ++ l2) = pending s l1 ++ pending (state_after s l1) l2.
Proof.
  induction l1 as [|[e|[|cb|g n]] l1 IH]; intros s l2; simpl; auto; rewrite IH; [by rewrite app_assoc|done].
Qed.

(** Without a reader, and with a reader and the number of samples. *)
Lemma plain_samples (l : list rsample_chain_elem) :
  state_after (None, 0) (map DqSample l) = (None, 0) /\ pending (None, 0) (map DqSample l) = deliver_all None l.
Proof.
  induction l as [|e l [IH1 IH2]]; simpl; [done|]. change (count_down (None, 0)) with (@None nn_guid, 0).
  rewrite IH1, IH2. done.
Qed.

Lemma count_down_more g n : count_down (g, Z.of_nat (S (S n))) = (g, Z.of_nat (S n)).
Proof.
  unfold count_down. cbn [fst snd]. destruct (Z.gtb_spec (Z.of_nat (S (S n))) 0); [|lia].
  destruct (Z.eqb_spec (Z.of_nat (S (S n)) - 1) 0); [lia|]. f_equal. lia.
Qed.

Lemma reader_samples g (l : list rsample_chain_elem) :
  l <> [] ->
  state_after (g, Z.of_nat (length l)) (map DqSample l) = (None, 0) /\
  pending (g, Z.of_nat (length l)) (map DqSample l) = deliver_all g l.
Proof.
  induction l as [|e l IH]; [done|]. intros _. destruct l as [|e' l]; [done|].
  destruct IH as [IH1 IH2]; [done|].
  change (map DqSample (e :: e' :: l)) with (DqSample e :: map DqSample (e' :: l)).
  cbn [state_after pending length fst]. rewrite count_down_more. cbn [length] in IH1, IH2. by rewrite IH1, IH2.
Qed.

(** ** Reachable states *)

(** The elements that the delivery thread has taken but not processed. *)
Definition taken q : list dq_elem :=
  match dq_pc q with CPop sc => sc | CBroadcast e sc | CSwitch e sc => e :: sc | _ => [] end.

(** Those among them that are still counted. *)
Definition counted q : list dq_elem :=
  match dq_pc q with CPop sc => sc | CBroadcast _ sc | CSwitch _ sc => sc | _ => [] end.

Definition elements_of q : list dq_elem := taken q ++ dq_sc q.

(** Reachable from a new queue, with the events that were asked for and whether
    the queue is being freed.  Receive threads pass on what the reorder
    administration released: as many samples as it says. *)
Inductive reach (max_samples : Z) : nn_dqueue -> list event -> bool -> Prop :=
| reach_new : reach max_samples (nn_dqueue_new max_samples) [] false
| reach_enqueue q hist (sc : list rsample_chain_elem) q' :
    reach max_samples q hist false -> nn_dqueue_enqueue q sc (Z.of_nat (length sc)) = Some q' ->
    reach max_samples q' (hist ++ deliver_all None sc) false
| reach_enqueue1 q hist (g : nn_guid) (sc : list rsample_chain_elem) q' :
    reach max_samples q hist false -> Z.of_nat (length sc) < 2 ^ 32 ->
    nn_dqueue_enqueue1 q g sc (Z.of_nat (length sc)) = Some q' ->
    reach max_samples q' (hist ++ deliver_all (Some g) sc) false
| reach_callback q hist cb q' :
    reach max_samples q hist false -> nn_dqueue_enqueue_callback q cb = Some q' ->
    reach max_samples q' (hist ++ [EvCallback cb]) false
| reach_free q hist q' :
    reach max_samples q hist false -> nn_dqueue_free_stop q = Some q' -> reach max_samples q' hist true
| reach_thread q hist b q' :
    reach max_samples q hist b -> dqueue_thread_step q = Some q' -> reach max_samples q' hist b
| reach_waiter q hist b q' :
    reach max_samples q hist b -> waiter_step q = Some q' -> reach max_samples q' hist b
| reach_spurious q hist b :
    reach max_samples q hist b -> dq_pc q = CWait -> reach max_samples (set_pc q CWoken) hist b.

Definition no_stop l : Prop := Forall (fun e => e <> DqBubble NN_DQBK_STOP) l.

(** The stop bubble is the last element, until it is processed. *)
Definition stop_ok q (stopped : bool) : Prop :=
  if stopped then
    (exists l, elements_of q = l ++ [DqBubble NN_DQBK_STOP] /\ no_stop l /\ dq_keepgoing q = true) \/
    elements_of q = [] /\ dq_keepgoing q = false
  else no_stop (elements_of q) /\ dq_keepgoing q = true.

Record dq_inv (max_samples : Z) q (hist : list event) (stopped : bool) : Prop := {
  di_max : dq_max_samples q = max_samples;
  di_nof : dq_nof_samples q = wrap_u 32 (Z.of_nat (length (counted q ++ dq_sc q)));
  di_sleep : dq_pc q = CWait -> dq_sc q = [];
  di_hist : hist = dq_log q ++ pending (dq_prdguid q, dq_rdguid_count q) (elements_of q);
  di_state : state_after (dq_prdguid q, dq_rdguid_count q) (elements_of q) = (None, 0);
  di_stop : stop_ok q stopped;
  di_done : dq_pc q = CDone -> dq_keepgoing q = false;
}.

(** A broadcast changes nothing but who sleeps. *)
Lemma broadcast_facts q :
  dq_sc (broadcast q) = dq_sc q /\ dq_max_samples (broadcast q) = dq_max_samples q /\
  dq_nof_samples (broadcast q) = dq_nof_samples q /\ dq_keepgoing (broadcast q) = dq_keepgoing q /\
  dq_prdguid (broadcast q) = dq_prdguid q /\ dq_rdguid_count (broadcast q) = dq_rdguid_count q /\
  dq_log (broadcast q) = dq_log q /\ taken (broadcast q) = taken q /\ counted (broadcast q) = counted q /\
  dq_pc (broadcast q) <> CWait /\ (dq_pc (broadcast q) = CDone -> dq_pc q = CDone).
Proof. destruct q as [sc mx n pc k g c w lg]. by destruct pc, w. Qed.

(** Appending the elements [new] to the queue, waking the sleepers if it was
    empty. *)
Lemma append_inv max_samples q hist stopped new evs n q' :
  dq_inv max_samples q hist false ->
  state_after (None, 0) new = (None, 0) -> pending (None, 0) new = evs ->
  wrap_u 32 n = wrap_u 32 (dq_nof_samples q + Z.of_nat (length new)) ->
  (if stopped : bool then new = [DqBubble NN_DQBK_STOP] else no_stop new) ->
  q' = set_sc (set_nof q n) (dq_sc q ++ new) \/
  q' = broadcast (set_sc (set_nof q n) (dq_sc q ++ new)) ->
  (dq_sc q = [] -> dq_pc q' <> CWait) ->
  dq_inv max_samples q' (hist ++ evs) stopped.
Proof.
  intros [I1 I2 I3 I4 I5 I6 I7] Hs Hp Hn Hst Hq' Hwake.
  assert (Hf : dq_sc q' = dq_sc q ++ new /\ dq_max_samples q' = dq_max_samples q /\
    dq_nof_samples q' = wrap_u 32 n /\ dq_keepgoing q' = dq_keepgoing q /\ dq_prdguid q' = dq_prdguid q /\
    dq_rdguid_count q' = dq_rdguid_count q /\ dq_log q' = dq_log q /\ taken q' = taken q /\ counted q' = counted q /\
    (dq_pc q' = CWait -> dq_pc q = CWait) /\ (dq_pc q' = CDone -> dq_pc q = CDone)).
  { destruct Hq' as [-> | ->]; [done|].
    destruct (broadcast_facts (set_sc (set_nof q n) (dq_sc q ++ new))) as (-> & -> & -> & -> & -> & -> & -> & -> & -> & Hw & Hd).
    repeat (split; [done|]). done. }
  destruct Hf as (F1 & F2 & F3 & F4 & F5 & F6 & F7 & F8 & F9 & F10 & F11).
  assert (He : elements_of q' = elements_of q ++ new) by (unfold elements_of; by rewrite F8, F1, app_assoc).
  split.
  - congruence.
  - rewrite F3, Hn, F9, F1, I2. unfold wrap_u. rewrite Zplus_mod_idemp_l. f_equal. rewrite !length_app. lia.
  - intros Hw. rewrite F1. specialize (F10 Hw). rewrite (I3 F10). exfalso. by apply (Hwake (I3 F10)).
  - rewrite F7, F5, F6, He, pending_app, I5, Hp, I4. by rewrite app_assoc.
  - rewrite F5, F6, He, state_after_app, I5. done.
  - destruct I6 as [I6 I6']. unfold stop_ok. rewrite He, F4. destruct stopped.
    + left. exists (elements_of q). by rewrite Hst.
    + split; [|done]. apply Forall_app. done.
  - intros Hd. rewrite F4. auto.
Qed.

Lemma bubble_inv max_samples q hist stopped b evs q' :
  dq_inv max_samples q hist false -> nn_dqueue_enqueue_bubble q b = Some q' ->
  state_after (None, 0) [DqBubble b] = (None, 0) -> pending (None, 0) [DqBubble b] = evs ->
  (if stopped : bool then b = NN_DQBK_STOP else b <> NN_DQBK_STOP) ->
  dq_inv max_samples q' (hist ++ evs) stopped.
Proof.
  intros Hi He Hs Hp Hst. unfold nn_dqueue_enqueue_bubble, nn_dqueue_enqueue_bubble_locked, nn_dqueue_enqueue_locked in He.
  destruct (unlocked q); [|done]. cbn [negb] in He.
  eapply (append_inv _ q hist stopped [DqBubble b] evs (dq_nof_samples q + 1)); eauto.
  - destruct stopped; [by subst|]. constructor; [congruence|constructor].
  - change (dq_sc (set_nof q (dq_nof_samples q + 1))) with (dq_sc q) in He.
    destruct (dq_sc q) as [|x sc]; injection He as <-; [by right|by left].
  - intros Hnil. change (dq_sc (set_nof q (dq_nof_samples q + 1))) with (dq_sc q) in He. rewrite Hnil in He.
    injection He as <-. apply broadcast_facts.
Qed.

Lemma enqueue_inv max_samples q hist (sc : list rsample_chain_elem) q' :
  dq_inv max_samples q hist false -> nn_dqueue_enqueue q sc (Z.of_nat (length sc)) = Some q' ->
  dq_inv max_samples q' (hist ++ deliver_all None sc) false.
Proof.
  intros Hi He. unfold nn_dqueue_enqueue, nn_dqueue_enqueue_locked in He. destruct (negb _); [done|].
  destruct (plain_samples sc) as [Ps Pp]. set (n := dq_nof_samples q + Z.of_nat (length sc)) in *.
  change (dq_sc (set_nof q n)) with (dq_sc q) in He.
  eapply (append_inv _ q hist false (map DqSample sc) _ n); eauto.
  - unfold n. by rewrite length_map.
  - apply Forall_forall. by intros x (e & -> & _)%list_elem_of_fmap.
  - destruct (dq_sc q) as [|x l]; injection He as <-; [by right|by left].
  - intros Hnil. rewrite Hnil in He. injection He as <-. apply broadcast_facts.
Qed.

Lemma enqueue1_inv max_samples q hist (g : nn_guid) (sc : list rsample_chain_elem) q' :
  dq_inv max_samples q hist false -> Z.of_nat (length sc) < 2 ^ 32 ->
  nn_dqueue_enqueue1 q g sc (Z.of_nat (length sc)) = Some q' ->
  dq_inv max_samples q' (hist ++ deliver_all (Some g) sc) false.
Proof.
  intros Hi Hlen He. unfold nn_dqueue_enqueue1 in He.
  destruct (negb _) eqn:En; [done|]. apply negb_false_iff, andb_prop in En as [_ Hne]. apply bool_decide_eq_true in Hne.
  destruct (reader_samples (Some g) sc Hne) as [Ps Pp].
  assert (Hw : wrap_u 32 (Z.of_nat (length sc)) = Z.of_nat (length sc)) by nowrap.
  rewrite Hw in He. set (n := dq_nof_samples q + 1 + Z.of_nat (length sc)) in *.
  set (b := DqBubble (NN_DQBK_RDGUID g (Z.of_nat (length sc)))).
  assert (Hq' : if decide (dq_sc q = []) then q' = broadcast (set_sc (set_nof q n) (dq_sc q ++ b :: map DqSample sc))
                else q' = set_sc (set_nof q n) (dq_sc q ++ b :: map DqSample sc)).
  { unfold nn_dqueue_enqueue_bubble_locked, nn_dqueue_enqueue_locked in He. change (dq_sc (set_nof q n)) with (dq_sc q) in He.
    destruct q as [l mx nf pc k gd c w lg]. cbn [dq_sc] in He |- *. case_decide as Hd.
    - subst l. injection He as <-. destruct pc, w; done.
    - destruct l as [|x l]; [done|]. injection He as <-. unfold set_sc, set_nof. simpl. by rewrite <- app_assoc. }
  eapply (append_inv _ q hist false (b :: map DqSample sc) _ n); eauto.
  - unfold n. simpl length. rewrite length_map. f_equal. lia.
  - constructor; [done|]. apply Forall_forall. by intros x (e & -> & _)%list_elem_of_fmap.
  - case_decide; [by right|by left].
  - intros Hnil. rewrite decide_True in Hq' by done. subst q'. apply broadcast_facts.
Qed.

(** ** The delivery thread *)

Lemma process_facts q e :
  dq_sc (process q e) = dq_sc q /\ dq_max_samples (process q e) = dq_max_samples q /\
  dq_nof_samples (process q e) = dq_nof_samples q /\
  dq_keepgoing (process q e) = (match e with DqBubble NN_DQBK_STOP => false | _ => dq_keepgoing q end) /\
  dq_log (process q e) = dq_log q ++ pending (dq_prdguid q, dq_rdguid_count q) [e] /\
  (dq_prdguid (process q e), dq_rdguid_count (process q e)) = state_after (dq_prdguid q, dq_rdguid_count q) [e].
Proof.
  destruct q as [sc mx n pc k g c w lg], e as [e|[|cb|g' n']]; simpl; unfold add_event; simpl;
    try (rewrite ?app_nil_r; repeat split; done).
  unfold count_down, deliver. cbn [fst snd]. rewrite Z.gtb_ltb.
  destruct (ce_sampleinfo e) as [info|]; simpl; rewrite ?Z.gtb_ltb; destruct (Z.ltb_spec 0 c); simpl;
    try destruct (Z.eqb_spec (c - 1) 0) as [Hz|Hz]; simpl; rewrite ?Hz, <- ?app_assoc; repeat split; done.
Qed.

Lemma stop_process q e (sc : list dq_elem) stopped :
  stop_ok q stopped -> elements_of q = e :: sc ++ dq_sc q ->
  stop_ok (set_pc (process q e) (CPop sc)) stopped /\ (dq_keepgoing q = false -> False).
Proof.
  destruct (process_facts q e) as (P1 & _ & _ & P4 & _).
  assert (He' : elements_of (set_pc (process q e) (CPop sc)) = sc ++ dq_sc q).
  { unfold elements_of. simpl. by rewrite P1. }
  intros Hst He. unfold stop_ok in *. rewrite He'. cbn [dq_keepgoing set_pc]. rewrite P4, He in *. destruct stopped.
  - destruct Hst as [(l & Hl & Hno & Hk)|[Hnil _]]; [|done]. split; [|congruence].
    destruct l as [|x l]; injection Hl as -> Hl.
    + right. split; [done|]. done.
    + left. exists l. apply Forall_cons in Hno as [Hx Hno]. split; [done|]. split; [done|].
      destruct x as [|[]]; done.
  - destruct Hst as [Hno Hk]. apply Forall_cons in Hno as [Hx Hno]. split; [|congruence]. split; [done|].
    destruct e as [|[]]; done.
Qed.

(** Changes that concern the elements not at all. *)
Lemma same_elements_inv max_samples q hist stopped q' :
  dq_inv max_samples q hist stopped ->
  dq_sc q' = dq_sc q -> dq_max_samples q' = dq_max_samples q -> dq_nof_samples q' = dq_nof_samples q ->
  dq_keepgoing q' = dq_keepgoing q -> dq_prdguid q' = dq_prdguid q -> dq_rdguid_count q' = dq_rdguid_count q ->
  dq_log q' = dq_log q -> taken q' = taken q -> counted q' = counted q ->
  (dq_pc q' = CWait -> dq_sc q = []) -> (dq_pc q' = CDone -> dq_keepgoing q = false) ->
  dq_inv max_samples q' hist stopped.
Proof.
  intros [I1 I2 I3 I4 I5 I6 I7] F1 F2 F3 F4 F5 F6 F7 F8 F9 F10 F11.
  assert (He : elements_of q' = elements_of q) by (unfold elements_of; congruence).
  split.
  - congruence.
  - by rewrite F3, F9, F1.
  - intros Hw. rewrite F1. auto.
  - by rewrite F7, F5, F6, He.
  - by rewrite F5, F6, He.
  - unfold stop_ok in *. by rewrite He, F4.
  - rewrite F4. auto.
Qed.

Lemma thread_inv max_samples q hist stopped q' :
  dq_inv max_samples q hist stopped -> dqueue_thread_step q = Some q' -> dq_inv max_samples q' hist stopped.
Proof.
  intros Hi He. unfold dqueue_thread_step in He. pose proof Hi as [I1 I2 I3 I4 I5 I6 I7].
  assert (Htake : dq_pc q = CTop \/ dq_pc q = CWoken -> dq_inv max_samples (take_queue q) hist stopped).
  { intros Hpc. assert (Hel : elements_of (take_queue q) = elements_of q).
    { unfold elements_of, taken. simpl. rewrite app_nil_r. by destruct Hpc as [-> | ->]. }
    split; try done; try (rewrite Hel; done).
    - simpl. rewrite I2, app_nil_r. unfold counted. by destruct Hpc as [-> | ->].
    - unfold stop_ok in *. by rewrite Hel. }
  destruct (dq_pc q) as [| | |[|e sc]|e sc|e sc|] eqn:Hpc; try done.
  - destruct (unlocked q); [|done]. cbn [negb] in He. destruct (dq_keepgoing q) eqn:Hk; cbn [negb] in He.
    + destruct (dq_sc q) as [|x l] eqn:Hsc; injection He as <-; [|auto].
      apply (same_elements_inv _ q); auto; unfold taken, counted; simpl; by rewrite ?Hpc.
    + injection He as <-. apply (same_elements_inv _ q); auto; unfold taken, counted; simpl; by rewrite ?Hpc.
  - destruct (unlocked q); [|done]. injection He as <-. auto.
  - injection He as <-. apply (same_elements_inv _ q); auto; unfold taken, counted; simpl; by rewrite ?Hpc.
  - injection He as <-. unfold counted, stop_ok, elements_of, taken in *. rewrite Hpc in *.
    set (pc' := if _ =? 0 then _ else _).
    assert (Hpc' : pc' = CBroadcast e sc \/ pc' = CSwitch e sc) by (unfold pc'; destruct (_ =? 0); tauto).
    destruct Hpc' as [Ep|Ep]; rewrite Ep; (split; simpl; auto; try done); rewrite I2; unfold wrap_u;
      rewrite Z.mod_mod, Zminus_mod_idemp_l by lia; unfold counted; simpl; f_equal; lia.
  - injection He as <-. destruct (broadcast_facts (set_pc q (CSwitch e sc))) as (F1 & F2 & F3 & F4 & F5 & F6 & F7 & F8 & F9 & F10 & F11).
    apply (same_elements_inv _ q); auto.
    + rewrite F8. unfold taken. simpl. by rewrite Hpc.
    + rewrite F9. unfold counted. simpl. by rewrite Hpc.
    + done.
    + intros Hd. by apply F11 in Hd.
  - injection He as <-. destruct (process_facts q e) as (P1 & P2 & P3 & P4 & P5 & P6).
    assert (Hel : elements_of q = e :: sc ++ dq_sc q) by (unfold elements_of, taken; by rewrite Hpc).
    assert (Hel' : elements_of (set_pc (process q e) (CPop sc)) = sc ++ dq_sc q)
      by (unfold elements_of; simpl; by rewrite P1).
    change (e :: sc ++ dq_sc q) with ([e] ++ sc ++ dq_sc q) in Hel. rewrite Hel in I4, I5.
    rewrite pending_app in I4. rewrite state_after_app in I5. split.
    + simpl. congruence.
    + simpl. rewrite P3, P1, I2. unfold counted. by rewrite Hpc.
    + done.
    + rewrite Hel'. cbn [dq_log dq_prdguid dq_rdguid_count set_pc]. by rewrite P5, P6, <- app_assoc.
    + rewrite Hel'. cbn [dq_prdguid dq_rdguid_count set_pc]. by rewrite P6.
    + by apply stop_process.
    + done.
Qed.

Lemma waiter_step_set q q' : waiter_step q = Some q' -> exists w, q' = set_waiter q w.
Proof.
  assert (Hq : q = set_waiter q (dq_waiter q)) by (by destruct q).
  unfold waiter_step. destruct (dq_waiter q); try (destruct (nn_dqueue_is_full q)); try (destruct (_ >? 0));
    intros [= <-]; eauto.
Qed.

Lemma reach_inv max_samples q hist stopped : reach max_samples q hist stopped -> dq_inv max_samples q hist stopped.
Proof.
  induction 1 as [|q hist sc q' Hr IH He|q hist g sc q' Hr IH Hl He|q hist cb q' Hr IH He|q hist q' Hr IH He
                 |q hist b q' Hr IH He|q hist b q' Hr IH He|q hist b Hr IH He].
  - split; simpl; done || (split; [constructor|done]).
  - by eapply enqueue_inv.
  - by eapply enqueue1_inv.
  - by eapply (bubble_inv _ _ _ false (NN_DQBK_CALLBACK cb)).
  - rewrite <- (app_nil_r hist). by eapply (bubble_inv _ _ _ true NN_DQBK_STOP).
  - by eapply thread_inv.
  - destruct (waiter_step_set q q' He) as [w ->]. destruct IH as [I1 I2 I3 I4 I5 I6 I7]. by split.
  - apply (same_elements_inv _ q); auto; unfold taken, counted; simpl; by rewrite ?He.
Qed.

(** ** Progress *)

(** [n] steps of the delivery thread. *)
Fixpoint thread_run (n : nat) q : option nn_dqueue :=
  match n with O => Some q | S n' => q ← dqueue_thread_step q; thread_run n' q end.

Lemma thread_run_reach max_samples n : forall q hist b q',
  reach max_samples q hist b -> thread_run n q = Some q' -> reach max_samples q' hist b.
Proof.
  induction n as [|n IH]; intros q hist b q' Hr He; simpl in He; [by simplify_eq|].
  destruct (dqueue_thread_step q) as [q1|] eqn:E1; [|done]. eapply IH; [|exact He]. by eapply reach_thread.
Qed.

Lemma thread_run_app n1 n2 q q1 q2 :
  thread_run n1 q = Some q1 -> thread_run n2 q1 = Some q2 -> thread_run (n1 + n2) q = Some q2.
Proof.
  revert q. induction n1 as [|n1 IH]; intros q H1 H2; simpl in *; [by simplify_eq|].
  destruct (dqueue_thread_step q) as [q'|]; [|done]. eauto.
Qed.

Lemma thread_run_S n q q1 : dqueue_thread_step q = Some q1 -> thread_run (S n) q = thread_run n q1.
Proof. intros E. simpl. by rewrite E. Qed.

Lemma broadcast_unlocked q : unlocked q = true -> unlocked (broadcast q) = true.
Proof. destruct q as [sc mx n pc k g c w lg]. by destruct pc, w. Qed.

Lemma process_waiter q e : dq_waiter (process q e) = dq_waiter q.
Proof.
  destruct q as [sc mx n pc k g c w lg], e as [e|[|cb|g' n']]; simpl; try done.
  destruct (ce_sampleinfo e); simpl; destruct (_ >? _); try destruct (_ =? _); done.
Qed.

(** The chain it has taken is processed in the end. *)
Lemma drain_taken (sc : list dq_elem) : forall q,
  dq_pc q = CPop sc -> unlocked q = true ->
  exists n q', thread_run n q = Some q' /\ dq_pc q' = CTop /\ dq_sc q' = dq_sc q /\ unlocked q' = true.
Proof.
  induction sc as [|e sc IH]; intros q Hpc Hu.
  - exists 1%nat. simpl. unfold dqueue_thread_step. rewrite Hpc. simpl. eexists. done.
  - set (n := wrap_u 32 (dq_nof_samples q - 1)).
    assert (Hsw : exists k q1, thread_run k q = Some q1 /\ dq_pc q1 = CSwitch e sc /\ dq_sc q1 = dq_sc q /\ unlocked q1 = true).
    { destruct (n =? 0) eqn:En.
      - assert (Es : dqueue_thread_step q = Some (set_pc (set_nof q n) (CBroadcast e sc))).
        { unfold dqueue_thread_step. rewrite Hpc. fold n. by rewrite En. }
        exists 2%nat, (broadcast (set_pc (set_pc (set_nof q n) (CBroadcast e sc)) (CSwitch e sc))).
        rewrite (thread_run_S _ _ _ Es). split; [done|]. split; [|split].
        + destruct q as [l mx nf pc k g c w lg]. simpl. by destruct w.
        + by rewrite (proj1 (broadcast_facts _)).
        + by apply broadcast_unlocked.
      - exists 1%nat, (set_pc (set_nof q n) (CSwitch e sc)). simpl. unfold dqueue_thread_step. rewrite Hpc. fold n. rewrite En. done. }
    destruct Hsw as (k & q1 & E1 & Hpc1 & Hsc1 & Hu1).
    destruct (process_facts q1 e) as (P1 & _).
    destruct (IH (set_pc (process q1 e) (CPop sc))) as (k2 & q2 & E2 & Hpc2 & Hsc2 & Hu2); [done| |].
    { unfold unlocked. simpl. by rewrite process_waiter. }
    exists (k + (1 + k2))%nat, q2. split; [|split; [done|split; [simpl in Hsc2; congruence|done]]].
    eapply thread_run_app; [exact E1|]. simpl. unfold dqueue_thread_step. rewrite Hpc1. exact E2.
Qed.

Lemma stopped_empty max_samples q hist b :
  dq_inv max_samples q hist b -> dq_keepgoing q = false -> elements_of q = [].
Proof.
  intros Hi Hk. pose proof (di_stop _ _ _ _ Hi) as Hs. unfold stop_ok in Hs. destruct b; [|destruct Hs; congruence].
  destruct Hs as [(l & _ & _ & Hk')|[He _]]; [congruence|done].
Qed.

Lemma drained max_samples q hist b : dq_inv max_samples q hist b -> elements_of q = [] -> dq_log q = hist.
Proof. intros Hi He. rewrite (di_hist _ _ _ _ Hi), He. simpl. by rewrite app_nil_r. Qed.

Lemma drains max_samples q hist b :
  reach max_samples q hist b -> unlocked q = true ->
  exists n q', thread_run n q = Some q' /\ dq_log q' = hist.
Proof.
  intros Hr Hu. pose proof (reach_inv _ _ _ _ Hr) as Hi.
  assert (Hnow : elements_of q = [] -> exists n q', thread_run n q = Some q' /\ dq_log q' = hist).
  { intros He. exists O, q. split; [done|]. by eapply drained. }
  (* from the top of the loop *)
  assert (Htop : forall n q1, thread_run n q = Some q1 -> dq_pc q1 = CTop -> unlocked q1 = true ->
            exists n' q', thread_run n' q = Some q' /\ dq_log q' = hist).
  { intros n q1 E1 Hpc Hu1. pose proof (thread_run_reach _ _ _ _ _ _ Hr E1) as Hr1. pose proof (reach_inv _ _ _ _ Hr1) as Hi1.
    destruct (dq_sc q1) as [|x l] eqn:Hsc.
    { exists n, q1. split; [done|]. eapply drained; [exact Hi1|]. unfold elements_of, taken. by rewrite Hpc, Hsc. }
    destruct (dq_keepgoing q1) eqn:Hk.
    2:{ exists n, q1. split; [done|]. eapply drained; [exact Hi1|]. by eapply stopped_empty. }
    destruct (drain_taken (x :: l) (take_queue q1)) as (k & q2 & E2 & Hpc2 & Hsc2 & Hu2).
    { unfold take_queue. by rewrite Hsc. }
    { done. }
    assert (E12 : thread_run (n + (1 + k)) q = Some q2).
    { eapply thread_run_app; [exact E1|]. simpl. unfold dqueue_thread_step. rewrite Hpc, Hu1, Hk, Hsc. exact E2. }
    exists (n + (1 + k))%nat, q2. split; [exact E12|].
    eapply drained; [eapply reach_inv, thread_run_reach; [exact Hr|exact E12]|].
    unfold elements_of, taken. rewrite Hpc2, Hsc2. done. }
  assert (Hpop : forall n q1 sc, thread_run n q = Some q1 -> dq_pc q1 = CPop sc -> unlocked q1 = true ->
            exists n' q', thread_run n' q = Some q' /\ dq_log q' = hist).
  { intros n q1 sc E1 Hpc Hu1. destruct (drain_taken sc q1 Hpc Hu1) as (k & q2 & E2 & Hpc2 & _ & Hu2).
    apply (Htop (n + k)%nat q2); auto. by eapply thread_run_app. }
  assert (Hswitch : forall n q1 e sc, thread_run n q = Some q1 -> dq_pc q1 = CSwitch e sc -> unlocked q1 = true ->
            exists n' q', thread_run n' q = Some q' /\ dq_log q' = hist).
  { intros n q1 e sc E1 Hpc Hu1. apply (Hpop (n + 1)%nat (set_pc (process q1 e) (CPop sc)) sc); auto.
    - eapply thread_run_app; [exact E1|]. simpl. unfold dqueue_thread_step. by rewrite Hpc.
    - unfold unlocked. simpl. by rewrite process_waiter. }
  destruct (dq_pc q) as [| | |sc|e sc|e sc|] eqn:Hpc.
  - by apply (Htop O q).
  - apply Hnow. unfold elements_of, taken. rewrite Hpc, (di_sleep _ _ _ _ Hi Hpc). done.
  - apply (Hpop 1%nat (take_queue q) (dq_sc q)); auto. simpl. unfold dqueue_thread_step. by rewrite Hpc, Hu.
  - by apply (Hpop O q sc).
  - apply (Hswitch 1%nat (broadcast (set_pc q (CSwitch e sc))) e sc); [|destruct q as [? ? ? ? ? ? ? w ?]; simpl; by destruct w|by apply broadcast_unlocked].
    simpl. unfold dqueue_thread_step. by rewrite Hpc.
  - by apply (Hswitch O q e sc).
  - apply Hnow. eapply stopped_empty; [exact Hi|]. by apply Hi.
Qed.

(** ** The theorems about delivery queues, with witnesses *)

(** C32: in every reachable state the delivery thread has done, in order, a
    first part of what the receive threads asked for: each sample handled once,
    for the reader it was enqueued for and no other, then its chain released. *)
Theorem dqueue_in_order max_samples q hist stopped :
  reach max_samples q hist stopped ->
  exists todo, hist = dq_log q ++ todo /\ (elements_of q = [] -> todo = []).
Proof.
  intros Hr%reach_inv. eexists. split; [apply Hr|]. by intros ->.
Qed.

(** [nof_samples] counts the elements not yet taken off, so (as long as
    there are fewer than 2^32) [nn_dqueue_is_full] tells whether the queue has
    reached its limit. *)
Theorem dqueue_counts max_samples q hist stopped :
  reach max_samples q hist stopped -> Z.of_nat (length (counted q ++ dq_sc q)) < 2 ^ 32 ->
  nn_dqueue_is_full q = true <-> max_samples <= Z.of_nat (length (counted q ++ dq_sc q)).
Proof.
  intros Hr%reach_inv Hb. unfold nn_dqueue_is_full. rewrite (di_nof _ _ _ _ Hr), (di_max _ _ _ _ Hr).
  unfold wrap_u. rewrite Z.mod_small by lia. rewrite Z.geb_leb. apply Z.leb_le.
Qed.

(** The delivery thread never sleeps on a queue that is not empty, and
    whenever no one holds the lock it gets everything done by its own steps. *)
Theorem dqueue_drains max_samples q hist stopped :
  reach max_samples q hist stopped ->
  (dq_pc q = CWait -> dq_sc q = []) /\
  (unlocked q = true -> exists n q', thread_run n q = Some q' /\ dq_log q' = hist).
Proof. intros Hr. split; [apply (reach_inv _ _ _ _ Hr)|]. by apply drains with (1 := Hr). Qed.

(** When the delivery thread has stopped, everything that was enqueued
    before [nn_dqueue_free] is done and the queue is empty, as [nn_dqueue_free]
    asserts. *)
Theorem dqueue_free_complete max_samples q hist stopped :
  reach max_samples q hist stopped -> dq_pc q = CDone ->
  stopped = true /\ nn_dqueue_free_assert q = true /\ dq_log q = hist.
Proof.
  intros Hr%reach_inv Hd. pose proof (di_done _ _ _ _ Hr Hd) as Hk. pose proof (stopped_empty _ _ _ _ Hr Hk) as He.
  split; [|split].
  - destruct stopped; [done|]. destruct (di_stop _ _ _ _ Hr) as [_ Hk']. congruence.
  - unfold nn_dqueue_free_assert. unfold elements_of, taken in He. rewrite Hd in He. simpl in He. by rewrite He.
  - by eapply drained.
Qed.

(** ** The waiting receive thread can miss its wake-up *)

Definition wsample : rsample_chain_elem := ChainElem [] None.

Definition wbusy : nn_dqueue :=
  default (nn_dqueue_new 1) (nn_dqueue_enqueue (nn_dqueue_new 1) [wsample] 1).

Lemma wbusy_reach : reach 1 wbusy ([] ++ deliver_all None [wsample]) false.
Proof. apply (reach_enqueue 1 _ [] [wsample] _ (reach_new 1)). vm_compute. reflexivity. Defined.

(** Steps of the delivery thread ([true]) and the waiting thread ([false]). *)
Fixpoint schedule (l : list bool) (q : nn_dqueue) : option nn_dqueue :=
  match l with
  | [] => Some q
  | b :: l' => q ← (if b : bool then dqueue_thread_step q else waiter_step q); schedule l' q
  end.

Lemma schedule_reach max_samples (l : list bool) : forall q hist b q',
  reach max_samples q hist b -> schedule l q = Some q' -> reach max_samples q' hist b.
Proof.
  induction l as [|x l IH]; intros q hist b q' Hr He; simpl in He; [by simplify_eq|].
  destruct x.
  - destruct (dqueue_thread_step q) as [q1|] eqn:E1; [|done]. eapply IH; [|exact He]. by eapply reach_thread.
  - destruct (waiter_step q) as [q1|] eqn:E1; [|done]. eapply IH; [|exact He]. by eapply reach_waiter.
Qed.

(** A receive thread in [nn_dqueue_wait_until_empty_if_full] tests
    [nof_samples] with the lock held, but the delivery thread decrements it and
    broadcasts without the lock; if that happens between the test and the wait,
    the receive thread sleeps on an empty queue, and so does the delivery
    thread: neither can go on until someone else enqueues something. *)
Theorem dqueue_lost_wakeup :
  exists q hist, reach 1 q hist false /\
    dq_nof_samples q = 0 /\ elements_of q = [] /\ dq_waiter q = WWait /\
    dqueue_thread_step q = None /\ waiter_step q = None.
Proof.
  destruct (schedule [true; false; false; false; true; true; true; true; false; true] wbusy) as [q|] eqn:E;
    [|vm_compute in E; discriminate].
  exists q. eexists. split; [exact (schedule_reach 1 _ _ _ _ _ wbusy_reach E)|].
  vm_compute in E. injection E as <-. repeat split.
Qed.

(** ** Witnesses *)

Definition wguid : nn_guid := NnGuid (1, 2, 3) 4.

(** A queue with a sample for one reader, freed and drained. *)
Lemma wqueue_reach :
  exists q, reach 4 q (deliver_all (Some wguid) [wsample]) true /\ dq_pc q = CDone.
Proof.
  eexists. split.
  - apply (thread_run_reach 4 10 _ _ _ _
             (reach_free 4 _ _ _ (reach_enqueue1 4 _ [] wguid [wsample] _ (reach_new 4) eq_refl eq_refl) eq_refl)).
    vm_compute. reflexivity.
  - reflexivity.
Defined.

Lemma dqueue_in_order_witness :
  exists todo, [] ++ deliver_all None [wsample] = dq_log wbusy ++ todo /\ (elements_of wbusy = [] -> todo = []).
Proof. apply (dqueue_in_order 1 wbusy _ false wbusy_reach). Defined.

Lemma dqueue_counts_witness : nn_dqueue_is_full wbusy = true.
Proof. apply (dqueue_counts 1 wbusy _ false wbusy_reach); vm_compute; [reflexivity|discriminate]. Defined.

Lemma dqueue_drains_witness :
  exists n q', thread_run n wbusy = Some q' /\ dq_log q' = [] ++ deliver_all None [wsample].
Proof. apply (dqueue_drains 1 wbusy _ false wbusy_reach). vm_compute. reflexivity. Defined.

Lemma dqueue_free_complete_witness :
  exists q, dq_pc q = CDone /\ nn_dqueue_free_assert q = true /\ dq_log q = deliver_all (Some wguid) [wsample].
Proof.
  destruct wqueue_reach as (q & Hr & Hd).
  destruct (dqueue_free_complete 4 q _ true Hr Hd) as (_ & H1 & H2).
  exists q. split; [exact Hd|]. split; [exact H1|exact H2].
Defined.
