(* ===== verification/Time.v ===== *)
(** * Times and durations: [src/services/ddsi2e/core/q_time.c]

    Times are 64-bit counts of nanoseconds, [T_NEVER] the latest; on the wire a
    time is seconds and a fraction of 2^-32 s.  Division and remainder are those
    of C (towards zero).  The clocks themselves are not modelled. *)

From Stdlib Require Import ZArith Lia.
From stdpp Require Import prelude.
From S2P Require Import Prelude.

Definition T_NEVER : Z := 0x7fffffffffffffff.
Definition T_MILLISECOND : Z := 1000000.
Definition T_SECOND : Z := 1000 * T_MILLISECOND.

(** [nn_ddsi_time_t]; [nn_duration_t] is the same type
    ([DDSI_DURATION_ACCORDING_TO_SPEC] is not defined). *)
Record nn_ddsi_time : Type := DdsiTime { seconds : Z; fraction : Z }.

#[global] Instance nn_ddsi_time_eq_dec : EqDecision nn_ddsi_time.
Proof. solve_decision. Defined.

Definition invalid_ddsi_timestamp : nn_ddsi_time := DdsiTime (-1) 0xffffffff.
Definition ddsi_time_infinite : nn_ddsi_time := DdsiTime 0x7fffffff 0xffffffff.
Definition duration_infinite : nn_ddsi_time := DdsiTime 0x7fffffff 0xffffffff.

(** [*sec] and [*usec]; also [mtime_to_sec_usec], [wctime_to_sec_usec] and
    [etime_to_sec_usec]. *)
Definition time_to_sec_usec (t : Z) : Z * Z :=
  (Z.quot t T_SECOND, Z.quot (wrap_s 32 (Z.rem t T_SECOND)) 1000).

Definition wctime_to_sec_usec_32 (t : Z) : Z * Z :=
  (wrap_s 32 (Z.quot t T_SECOND), Z.quot (wrap_s 32 (Z.rem t T_SECOND)) 1000).

(** [None]: an assertion fails. *)
Definition mtime_round_up (t round : Z) : option Z :=
  if (t >=? 0) && (round >=? 0) then
    if (round =? 0) || (t =? T_NEVER) then Some t
    else
      let remainder := Z.rem t round in
      if remainder =? 0 then Some t else Some (wrap_s 64 (t + round - remainder))
  else None.

Definition add_duration_to_time (t d : Z) : option Z :=
  if (t >=? 0) && (d >=? 0) then
    let sum := wrap_u 64 (wrap_u 64 t + wrap_u 64 d) in
    Some (if sum >=? T_NEVER then T_NEVER else wrap_s 64 sum)
  else None.

Definition add_duration_to_mtime : Z -> Z -> option Z := add_duration_to_time.
Definition add_duration_to_wctime : Z -> Z -> option Z := add_duration_to_time.
Definition add_duration_to_etime : Z -> Z -> option Z := add_duration_to_time.

Definition valid_ddsi_timestamp (t : nn_ddsi_time) : bool :=
  negb (seconds t =? seconds invalid_ddsi_timestamp) && negb (fraction t =? fraction invalid_ddsi_timestamp).

Definition nn_to_ddsi_time (t : Z) : nn_ddsi_time :=
  if t =? T_NEVER then ddsi_time_infinite
  else
    let ns := wrap_s 32 (Z.rem t T_SECOND) in
    DdsiTime (wrap_s 32 (Z.quot t T_SECOND))
      (wrap_u 32 (Z.quot ((T_SECOND - 1) + Z.shiftl ns 32) T_SECOND)).

Definition nn_wctime_to_ddsi_time (t : Z) : nn_ddsi_time := nn_to_ddsi_time t.

Definition nn_from_ddsi_time (x : nn_ddsi_time) : Z :=
  if (seconds x =? seconds ddsi_time_infinite) && (fraction x =? fraction ddsi_time_infinite) then T_NEVER
  else
    let ns := wrap_s 32 (Z.shiftr (2147483648 + fraction x * T_SECOND) 32) in
    seconds x * T_SECOND + ns.

Definition nn_wctime_from_ddsi_time (x : nn_ddsi_time) : Z := nn_from_ddsi_time x.
Definition nn_to_ddsi_duration (x : Z) : nn_ddsi_time := nn_to_ddsi_time x.
Definition nn_from_ddsi_duration (x : nn_ddsi_time) : Z := nn_from_ddsi_time x.

(** [OS_TIMEW_INIT (0, t)] *)
Definition nn_wctime_to_os_timeW (t : Z) : option Z := if t >=? 0 then Some (wrap_u 64 t) else None.

(** ** Properties *)

Lemma add_duration_spec t d :
  0 <= t <= T_NEVER -> 0 <= d <= T_NEVER -> add_duration_to_time t d = Some (Z.min (t + d) T_NEVER).
Proof.
  unfold T_NEVER. intros Ht Hd. unfold add_duration_to_time, T_NEVER. rewrite !Z.geb_leb.
  destruct (Z.leb_spec 0 t); [|lia]. destruct (Z.leb_spec 0 d); [|lia]. cbn [andb].
  assert (E : wrap_u 64 (wrap_u 64 t + wrap_u 64 d) = t + d).
  { unfold wrap_u. rewrite (Z.mod_small t), (Z.mod_small d), Z.mod_small; lia. }
  rewrite E. destruct (Z.leb_spec 0x7fffffffffffffff (t + d)); f_equal; [lia|].
  rewrite wrap_s_small; [lia|lia|]. unfold in_s. lia.
Qed.

(** The least multiple of [round] that is not before [t]. *)
Lemma round_up_spec t round :
  0 <= t < T_NEVER -> 0 < round -> t + round < 2 ^ 63 ->
  exists u, mtime_round_up t round = Some u /\ t <= u < t + round /\ u mod round = 0.
Proof.
  intros Ht Hr Hb. unfold mtime_round_up. rewrite !Z.geb_leb.
  destruct (Z.leb_spec 0 t); [|lia]. destruct (Z.leb_spec 0 round); [|lia]. cbn [andb].
  destruct (Z.eqb_spec round 0); [lia|]. destruct (Z.eqb_spec t T_NEVER); [lia|]. cbn [orb].
  rewrite Z.rem_mod_nonneg by lia. pose proof (Z.mod_pos_bound t round Hr). pose proof (Z.div_mod t round ltac:(lia)).
  destruct (Z.eqb_spec (t mod round) 0).
  - exists t. split; [done|]. split; [lia|done].
  - eexists. split; [done|]. rewrite wrap_s_small; [|lia|unfold in_s; lia]. split; [lia|].
    replace (t + round - t mod round) with ((t / round + 1) * round) by lia. apply Z.mod_mul. lia.
Qed.

(** The fraction of a number of nanoseconds, and back. *)
Lemma fraction_roundtrip ns :
  0 <= ns < T_SECOND ->
  let f := (T_SECOND - 1 + ns * 2 ^ 32) / T_SECOND in
  0 <= f < 2 ^ 32 - 1 /\ (2147483648 + f * T_SECOND) / 2 ^ 32 = ns.
Proof.
  cbv zeta. assert (HT : T_SECOND = 1000000000) by done. rewrite HT. intros Hn.
  set (f := (1000000000 - 1 + ns * 2 ^ 32) / 1000000000).
  pose proof (Z.div_mod (1000000000 - 1 + ns * 2 ^ 32) 1000000000 ltac:(lia)) as D.
  pose proof (Z.mod_pos_bound (1000000000 - 1 + ns * 2 ^ 32) 1000000000 ltac:(lia)) as M. fold f in D.
  split; [lia|]. symmetry. apply Z.div_unique with (2147483648 + f * 1000000000 - ns * 2 ^ 32); lia.
Qed.

Lemma ddsi_time_inv t :
  0 <= t < 2 ^ 31 * T_SECOND \/ t = T_NEVER -> nn_from_ddsi_time (nn_to_ddsi_time t) = t.
Proof.
  intros [Ht| ->]; [|done]. assert (HT : T_SECOND = 1000000000) by done. rewrite HT in Ht. unfold nn_to_ddsi_time.
  destruct (Z.eqb_spec t T_NEVER) as [->|_]; [unfold T_NEVER in Ht; lia|].
  pose proof (Z.mod_pos_bound t T_SECOND ltac:(lia)) as M. pose proof (Z.div_mod t T_SECOND ltac:(lia)) as D.
  assert (Hq : 0 <= t / T_SECOND < 2 ^ 31) by (split; [apply Z.div_pos; lia|apply Z.div_lt_upper_bound; lia]).
  rewrite Z.rem_mod_nonneg, Z.quot_div_nonneg by lia.
  rewrite (wrap_s_small 32 (t mod T_SECOND)) by (try done; unfold in_s; lia).
  rewrite (wrap_s_small 32 (t / T_SECOND)) by (try done; unfold in_s; lia).
  rewrite Z.shiftl_mul_pow2 by lia. rewrite Z.quot_div_nonneg by lia.
  destruct (fraction_roundtrip (t mod T_SECOND) M) as [Hf Hr].
  set (f := (T_SECOND - 1 + t mod T_SECOND * 2 ^ 32) / T_SECOND) in *.
  assert (Hw : wrap_u 32 f = f) by nowrap. rewrite Hw.
  unfold nn_from_ddsi_time. cbn [seconds fraction ddsi_time_infinite].
  destruct (Z.eqb_spec f 0xffffffff); [lia|]. rewrite andb_false_r.
  rewrite Z.shiftr_div_pow2, Hr by lia. rewrite (wrap_s_small 32) by (try done; unfold in_s; lia). lia.
Qed.

(** A time from the epoch to 2038, or [T_NEVER], survives the conversion to
    the wire format and back, to the nanosecond. *)
Theorem ddsi_time_roundtrip t :
  0 <= t < 2 ^ 31 * T_SECOND \/ t = T_NEVER -> nn_wctime_from_ddsi_time (nn_wctime_to_ddsi_time t) = t.
Proof. apply ddsi_time_inv. Qed.

Lemma ddsi_time_roundtrip_witness :
  nn_wctime_from_ddsi_time (nn_wctime_to_ddsi_time 1500000000123456789) = 1500000000123456789.
Proof. apply ddsi_time_roundtrip. left. vm_compute. split; [discriminate|reflexivity]. Defined.
