(* ===== verification/QosMatch.v ===== *)
(** * Matching readers and writers: [q_qosmatch.c] and [ddsi2_patmatch]

    Strings are lists of characters (a C string without its terminating 0);
    reading the terminator is reaching the end of the list. *)

From Stdlib Require Import ZArith Lia Ascii.
From stdpp Require Import prelude.
From S2P Require Import Prelude Time.

Abbreviation str := (list ascii).

#[global] Instance ascii_eq_decision : EqDecision ascii.
Proof. exact Ascii.ascii_dec. Defined.

Definition ch_any : ascii := "?".
Definition ch_star : ascii := "*".

(** ** [ddsi2_patmatch] in [q_misc.c] (and [patmatch] in [c_typebase.c], which
    [c_valueStringMatch] calls, with the same body) *)

(** Collapsing a sequence of wildcards; [None]: [str] is too short for its ?s. *)
Fixpoint collapse (pat s : str) : option (str * str) :=
  match pat with
  | [] => Some ([], s)
  | p :: pat' =>
      if decide (p = ch_star) then collapse pat' s
      else if decide (p = ch_any) then match s with [] => None | _ :: s' => collapse pat' s' end
      else Some (pat, s)
  end.

(** Trying all positions where [s] has the character [q]. *)
Fixpoint try_positions (f : str -> bool) (q : ascii) (s : str) : bool :=
  match s with
  | [] => false
  | c :: s' => (bool_decide (c = q) && f s') || try_positions f q s'
  end.

(** The pattern gets shorter in every iteration and recursive call: the fuel. *)
Fixpoint patmatch_fuel (fuel : nat) (pat s : str) : bool :=
  match fuel with
  | O => match pat, s with [], [] => true | _, _ => false end
  | S fuel' =>
      match pat with
      | [] => match s with [] => true | _ => false end
      | p :: pat' =>
          if decide (p = ch_any) then match s with [] => false | _ :: s' => patmatch_fuel fuel' pat' s' end
          else if decide (p = ch_star) then
            match collapse pat s with
            | None => false
            | Some ([], _) => true
            | Some (q :: pat'', s') => try_positions (patmatch_fuel fuel' pat'') q s'
            end
          else match s with
               | [] => false
               | c :: s' => if decide (c = p) then patmatch_fuel fuel' pat' s' else false
               end
      end
  end.

Definition ddsi2_patmatch (pat s : str) : bool := patmatch_fuel (length pat) pat s.

(** What a pattern means. *)
Inductive matches : str -> str -> Prop :=
| m_end : matches [] []
| m_char c pat s : c <> ch_any -> c <> ch_star -> matches pat s -> matches (c :: pat) (c :: s)
| m_any c pat s : matches pat s -> matches (ch_any :: pat) (c :: s)
| m_star s1 pat s2 : matches pat s2 -> matches (ch_star :: pat) (s1 ++ s2).

(** ** Quality of service *)

(** The enumerations, in the order of their values. *)
Record nn_presentation_qospolicy : Type := Presentation {
  access_scope : Z;
  coherent_access : Z;
  ordered_access : Z;
}.

(** The part of [nn_xqos_t] that takes part in matching; kinds by value. *)
Record nn_xqos : Type := NnXqos {
  present : Z;
  topic_name : str;
  type_name : str;
  presentation : nn_presentation_qospolicy;
  partition : list str;
  durability_kind : Z;
  deadline : nn_ddsi_time;
  latency_budget : nn_ddsi_time;
  liveliness_kind : Z;
  liveliness_lease_duration : nn_ddsi_time;
  reliability_kind : Z;
  destination_order_kind : Z;
  ownership_kind : Z;
  relaxed_qos_matching : bool;
}.

Definition QP_TOPIC_NAME : Z := Z.shiftl 1 0.
Definition QP_TYPE_NAME : Z := Z.shiftl 1 1.
Definition QP_PRESENTATION : Z := Z.shiftl 1 2.
Definition QP_PARTITION : Z := Z.shiftl 1 3.
Definition QP_DURABILITY : Z := Z.shiftl 1 6.
Definition QP_DEADLINE : Z := Z.shiftl 1 8.
Definition QP_LATENCY_BUDGET : Z := Z.shiftl 1 9.
Definition QP_LIVELINESS : Z := Z.shiftl 1 10.
Definition QP_RELIABILITY : Z := Z.shiftl 1 11.
Definition QP_DESTINATION_ORDER : Z := Z.shiftl 1 12.
Definition QP_OWNERSHIP : Z := Z.shiftl 1 18.
Definition QP_PRISMTECH_RELAXED_QOS_MATCHING : Z := Z.shiftl 1 23.
Definition QP_PRISMTECH_SYNCHRONOUS_ENDPOINT : Z := Z.shiftl 1 28.

Definition QP_RXO_MASK : Z :=
  foldr Z.lor 0 [QP_DURABILITY; QP_PRESENTATION; QP_DEADLINE; QP_LATENCY_BUDGET; QP_OWNERSHIP; QP_LIVELINESS;
                 QP_RELIABILITY; QP_DESTINATION_ORDER; QP_PRISMTECH_RELAXED_QOS_MATCHING;
                 QP_PRISMTECH_SYNCHRONOUS_ENDPOINT].

Definition Q_INVALID_QOS_POLICY_ID : Z := 0.
Definition Q_DURABILITY_QOS_POLICY_ID : Z := 2.
Definition Q_PRESENTATION_QOS_POLICY_ID : Z := 3.
Definition Q_DEADLINE_QOS_POLICY_ID : Z := 4.
Definition Q_LATENCYBUDGET_QOS_POLICY_ID : Z := 5.
Definition Q_OWNERSHIP_QOS_POLICY_ID : Z := 6.
Definition Q_LIVELINESS_QOS_POLICY_ID : Z := 8.
Definition Q_PARTITION_QOS_POLICY_ID : Z := 10.
Definition Q_RELIABILITY_QOS_POLICY_ID : Z := 11.
Definition Q_DESTINATIONORDER_QOS_POLICY_ID : Z := 12.

Implicit Types (a b rd wr x : nn_xqos).

Definition is_wildcard_partition (s : str) : bool := bool_decide (ch_star ∈ s) || bool_decide (ch_any ∈ s).

Definition partition_patmatch_p (pat name : str) : bool :=
  if negb (is_wildcard_partition pat) then bool_decide (pat = name)
  else if is_wildcard_partition name then false
  else ddsi2_patmatch pat name.

(** No partition QoS, or an empty list. *)
Definition no_partition x : bool := (Z.land (present x) QP_PARTITION =? 0) || bool_decide (partition x = []).

Definition partitions_match_default x : bool :=
  if no_partition x then true else existsb (fun p => partition_patmatch_p p []) (partition x).

Definition partitions_match_p a b : bool :=
  if no_partition a then partitions_match_default b
  else if no_partition b then partitions_match_default a
  else existsb (fun p => existsb (fun r => partition_patmatch_p p r || partition_patmatch_p r p) (partition b))
         (partition a).

(** The two nested loops of [partition_match_based_on_wildcard_in_left_operand]:
    [inr tt] is the [return 0] inside, [inl] is [maybe_yes] and [*realname]. *)
Fixpoint wildcard_row (p : str) (bs : list str) (maybe : option str) : option str + unit :=
  match bs with
  | [] => inl maybe
  | r :: bs' =>
      if partition_patmatch_p p r then
        if is_wildcard_partition p then wildcard_row p bs' (Some r) else inr tt
      else wildcard_row p bs' maybe
  end.

Fixpoint wildcard_rows (ps bs : list str) (maybe : option str) : option str :=
  match ps with
  | [] => maybe
  | p :: ps' => match wildcard_row p bs maybe with inl m => wildcard_rows ps' bs m | inr _ => None end
  end.

(** [Some name]: 1, with [*realname = name]; the outer [None]: the assertion. *)
Definition partition_match_based_on_wildcard_in_left_operand a b : option (option str) :=
  if negb (partitions_match_p a b) then None
  else if no_partition a then Some None
  else if no_partition b then Some (if bool_decide ([] ∈ partition a) then None else Some [])
  else Some (wildcard_rows (partition a) (partition b) None).

Definition ddsi_duration_is_lt (a0 b0 : nn_ddsi_time) : bool :=
  let a := nn_from_ddsi_duration a0 in
  let b := nn_from_ddsi_duration b0 in
  if a =? T_NEVER then false else if b =? T_NEVER then true else a <? b.

Definition has_all (mask : Z) x : bool := Z.land (present x) mask =? mask.

(** [None]: an assertion fails. *)
Definition qos_match_p rd wr : option Z :=
  let musthave := foldr Z.lor 0 [QP_RXO_MASK; QP_PARTITION; QP_TOPIC_NAME; QP_TYPE_NAME] in
  if negb (has_all musthave rd && has_all musthave wr) then None else
  let tail :=
    if negb (bool_decide (topic_name rd = topic_name wr)) then Q_INVALID_QOS_POLICY_ID
    else if negb (bool_decide (type_name rd = type_name wr)) then Q_INVALID_QOS_POLICY_ID
    else if negb (partitions_match_p rd wr) then Q_PARTITION_QOS_POLICY_ID
    else -1 in
  Some (
    if relaxed_qos_matching rd || relaxed_qos_matching wr then
      if negb (reliability_kind rd =? reliability_kind wr) then Q_RELIABILITY_QOS_POLICY_ID else tail
    else
      if reliability_kind rd >? reliability_kind wr then Q_RELIABILITY_QOS_POLICY_ID
      else if durability_kind rd >? durability_kind wr then Q_DURABILITY_QOS_POLICY_ID
      else if access_scope (presentation rd) >? access_scope (presentation wr) then Q_PRESENTATION_QOS_POLICY_ID
      else if coherent_access (presentation rd) >? coherent_access (presentation wr) then Q_PRESENTATION_QOS_POLICY_ID
      else if ordered_access (presentation rd) >? ordered_access (presentation wr) then Q_PRESENTATION_QOS_POLICY_ID
      else if ddsi_duration_is_lt (deadline rd) (deadline wr) then Q_DEADLINE_QOS_POLICY_ID
      else if ddsi_duration_is_lt (latency_budget rd) (latency_budget wr) then Q_LATENCYBUDGET_QOS_POLICY_ID
      else if negb (ownership_kind rd =? ownership_kind wr) then Q_OWNERSHIP_QOS_POLICY_ID
      else if liveliness_kind rd >? liveliness_kind wr then Q_LIVELINESS_QOS_POLICY_ID
      else if ddsi_duration_is_lt (liveliness_lease_duration rd) (liveliness_lease_duration wr)
      then Q_LIVELINESS_QOS_POLICY_ID
      else if destination_order_kind rd >? destination_order_kind wr then Q_DESTINATIONORDER_QOS_POLICY_ID
      else tail).
