(* ===== verification/QosMatchProps.v ===== *)
(** * What matching decides *)

From Stdlib Require Import ZArith Lia Ascii.
From stdpp Require Import prelude.
From S2P Require Import Prelude Time QosMatch.

Implicit Types (pat s : str).

(** ** Patterns *)

Lemma matches_nil s : matches [] s <-> s = [].
Proof. split; [by inversion 1|intros ->; constructor]. Qed.

Lemma matches_any pat s : matches (ch_any :: pat) s <-> exists c s', s = c :: s' /\ matches pat s'.
Proof.
  split; [|intros (c & s' & -> & Hm); by constructor]. inversion 1; subst; [done|eauto].
Qed.

Lemma matches_char c pat s :
  c <> ch_any -> c <> ch_star -> matches (c :: pat) s <-> exists s', s = c :: s' /\ matches pat s'.
Proof.
  intros H1 H2. split; [|intros (s' & -> & Hm); by constructor]. inversion 1; subst; [eauto|done|done].
Qed.

Lemma matches_star pat s : matches (ch_star :: pat) s <-> exists s1 s2, s = s1 ++ s2 /\ matches pat s2.
Proof.
  split; [|intros (s1 & s2 & -> & Hm); by constructor]. inversion 1; subst; [done|eauto].
Qed.

Lemma star_star pat s : matches (ch_star :: ch_star :: pat) s <-> matches (ch_star :: pat) s.
Proof.
  rewrite !matches_star. setoid_rewrite matches_star. split.
  - intros (s1 & s2 & -> & t1 & t2 & -> & Hm). exists (s1 ++ t1), t2. by rewrite app_assoc.
  - intros (s1 & s2 & -> & Hm). exists s1, s2. split; [done|]. by exists [], s2.
Qed.

Lemma star_any_cons pat c s : matches (ch_star :: ch_any :: pat) (c :: s) <-> matches (ch_star :: pat) s.
Proof.
  rewrite !matches_star. setoid_rewrite matches_any. split.
  - intros (s1 & s2 & He & c' & s' & -> & Hm). destruct s1 as [|x s1]; simplify_eq/=.
    + by exists [], s'.
    + exists (s1 ++ [c']), s'. by rewrite <- app_assoc.
  - intros (s1 & s2 & -> & Hm). destruct (last s1) as [x|] eqn:El.
    + apply last_Some in El as [s0 ->]. exists (c :: s0), (x :: s2). split; [simpl; by rewrite <- app_assoc|]. eauto.
    + apply last_None in El as ->. exists [], (c :: s2). split; [done|]. eauto.
Qed.

Lemma star_any_nil pat : ~ matches (ch_star :: ch_any :: pat) [].
Proof.
  rewrite matches_star. intros (s1 & s2 & He & Hm). symmetry in He. apply app_eq_nil in He as [_ ->].
  rewrite matches_any in Hm. by destruct Hm as (? & ? & ? & _).
Qed.

Lemma collapse_spec pat : forall s,
  match collapse pat s with
  | None => ~ matches (ch_star :: pat) s
  | Some (rest, s') =>
      (matches (ch_star :: pat) s <-> matches (ch_star :: rest) s') /\ (length rest <= length pat)%nat /\
      match rest with [] => True | q :: _ => q <> ch_any /\ q <> ch_star end
  end.
Proof.
  induction pat as [|p pat IH]; intros s; simpl; [done|].
  destruct (decide (p = ch_star)) as [->|Hs].
  { specialize (IH s). destruct (collapse pat s) as [[rest s']|]; rewrite star_star; [|done].
    destruct IH as (I1 & I2 & I3). split; [done|]. split; [lia|done]. }
  destruct (decide (p = ch_any)) as [->|Ha]; [|done].
  destruct s as [|c s]; [apply star_any_nil|]. specialize (IH s).
  destruct (collapse pat s) as [[rest s']|]; rewrite star_any_cons; [|done].
  destruct IH as (I1 & I2 & I3). split; [done|]. split; [lia|done].
Qed.

Lemma try_positions_spec f q s :
  try_positions f q s = true <-> exists s1 s2, s = s1 ++ q :: s2 /\ f s2 = true.
Proof.
  induction s as [|c s IH]; simpl.
  - split; [done|]. intros (s1 & s2 & He & _). by destruct s1.
  - rewrite orb_true_iff, andb_true_iff, bool_decide_eq_true, IH. split.
    + intros [[-> Hf]|(s1 & s2 & -> & Hf)]; [by exists [], s|by exists (c :: s1), s2].
    + intros (s1 & s2 & He & Hf). destruct s1 as [|x s1]; simplify_eq/=; [by left|right; eauto].
Qed.

Lemma patmatch_fuel_spec n : forall pat s, (length pat <= n)%nat -> patmatch_fuel n pat s = true <-> matches pat s.
Proof.
  induction n as [|n IH]; intros pat s Hl.
  - destruct pat; [|simpl in Hl; lia]. rewrite matches_nil. by destruct s.
  - destruct pat as [|p pat]; cbn [patmatch_fuel]; [rewrite matches_nil; by destruct s|]. simpl in Hl.
    destruct (decide (p = ch_any)) as [->|Ha].
    { rewrite matches_any. destruct s as [|c s]; [split; [done|by intros (? & ? & ? & _)]|].
      rewrite IH by lia. split; [eauto|]. intros (? & ? & ? & ?). by simplify_eq. }
    destruct (decide (p = ch_star)) as [->|Hs].
    + cbn [collapse]. destruct (decide (ch_star = ch_star)); [|done]. pose proof (collapse_spec pat s) as Hc.
      destruct (collapse pat s) as [[[|q rest] s']|]; [| |split; done].
      * destruct Hc as (-> & _). split; [|done]. intros _. rewrite matches_star. exists s', []. rewrite app_nil_r.
        split; [done|constructor].
      * destruct Hc as (-> & Hlen & Hq1 & Hq2). simpl in Hlen. rewrite try_positions_spec, matches_star. split.
        -- intros (s1 & s2 & -> & Hf). apply IH in Hf; [|lia]. exists s1, (q :: s2). split; [done|]. by constructor.
        -- intros (s1 & s2 & -> & Hm). apply matches_char in Hm as (s3 & -> & Hm); [|done|done].
           exists s1, s3. split; [done|]. apply IH; [lia|done].
    + rewrite matches_char by done. destruct s as [|c s]; [split; [done|by intros (? & ? & _)]|].
      destruct (decide (c = p)) as [->|Hne].
      * rewrite IH by lia. split; [eauto|]. intros (? & ? & ?). by simplify_eq.
      * split; [done|]. intros (? & ? & _). by simplify_eq.
Qed.

(** C36: [ddsi2_patmatch] decides the matching of wildcard patterns, where *
    stands for any string and ? for any character. *)
Theorem patmatch_correct pat s : ddsi2_patmatch pat s = true <-> matches pat s.
Proof. by apply patmatch_fuel_spec. Qed.

(** ** Partitions and QoS *)

Lemma existsb_iff {A : Type} (f : A -> bool) l : existsb f l = true <-> exists x, x ∈ l /\ f x = true.
Proof.
  rewrite List.existsb_exists. by setoid_rewrite <- list_elem_of_In.
Qed.

Lemma duration_not_lt x y :
  nn_from_ddsi_duration x <= T_NEVER -> nn_from_ddsi_duration y <= T_NEVER ->
  ddsi_duration_is_lt x y = false <-> nn_from_ddsi_duration y <= nn_from_ddsi_duration x.
Proof.
  unfold ddsi_duration_is_lt. intros Hx Hy.
  destruct (Z.eqb_spec (nn_from_ddsi_duration x) T_NEVER); [split; [lia|done]|].
  destruct (Z.eqb_spec (nn_from_ddsi_duration y) T_NEVER); [split; [done|lia]|].
  destruct (Z.ltb_spec (nn_from_ddsi_duration x) (nn_from_ddsi_duration y)); split; done || lia.
Qed.

(** The partitions an endpoint is in: the default partition if none is given. *)
Definition effective_partitions x : list str := if no_partition x then [[]] else partition x.

(** One name stands for the other: equal, or a pattern and a plain name it matches. *)
Definition name_covers (p r : str) : Prop :=
  if is_wildcard_partition p then is_wildcard_partition r = false /\ matches p r else p = r.

Definition partitions_overlap a b : Prop :=
  exists p r, p ∈ effective_partitions a /\ r ∈ effective_partitions b /\ (name_covers p r \/ name_covers r p).

Lemma partition_patmatch_covers p r : partition_patmatch_p p r = true <-> name_covers p r.
Proof.
  unfold partition_patmatch_p, name_covers. destruct (is_wildcard_partition p); cbn [negb].
  - destruct (is_wildcard_partition r); [naive_solver|].
    unfold ddsi2_patmatch. rewrite patmatch_fuel_spec by done. tauto.
  - apply bool_decide_eq_true.
Qed.

Lemma covers_default p : name_covers [] p -> name_covers p [].
Proof. by intros <-. Qed.

Lemma partitions_match_default_spec x :
  partitions_match_default x = true <-> exists p, p ∈ effective_partitions x /\ name_covers p [].
Proof.
  unfold partitions_match_default, effective_partitions. destruct (no_partition x).
  - split; [|done]. intros _. exists []. split; [set_solver|done].
  - rewrite existsb_iff. by setoid_rewrite partition_patmatch_covers.
Qed.

Lemma partitions_match_spec a b : partitions_match_p a b = true <-> partitions_overlap a b.
Proof.
  unfold partitions_match_p, partitions_overlap.
  destruct (no_partition a) eqn:Ha; [|destruct (no_partition b) eqn:Hb].
  - rewrite partitions_match_default_spec. unfold effective_partitions at 2. rewrite Ha.
    setoid_rewrite list_elem_of_singleton. pose proof covers_default. naive_solver.
  - rewrite partitions_match_default_spec. unfold effective_partitions at 3. rewrite Hb.
    setoid_rewrite list_elem_of_singleton. pose proof covers_default. naive_solver.
  - unfold effective_partitions. rewrite Ha, Hb, existsb_iff. setoid_rewrite existsb_iff.
    setoid_rewrite orb_true_iff. setoid_rewrite partition_patmatch_covers. naive_solver.
Qed.

(** What a reader requests is no more than what a writer offers. *)
Definition rxo_compatible rd wr : Prop :=
  reliability_kind rd <= reliability_kind wr /\ durability_kind rd <= durability_kind wr /\
  access_scope (presentation rd) <= access_scope (presentation wr) /\
  coherent_access (presentation rd) <= coherent_access (presentation wr) /\
  ordered_access (presentation rd) <= ordered_access (presentation wr) /\
  nn_from_ddsi_duration (deadline wr) <= nn_from_ddsi_duration (deadline rd) /\
  nn_from_ddsi_duration (latency_budget wr) <= nn_from_ddsi_duration (latency_budget rd) /\
  ownership_kind rd = ownership_kind wr /\ liveliness_kind rd <= liveliness_kind wr /\
  nn_from_ddsi_duration (liveliness_lease_duration wr) <= nn_from_ddsi_duration (liveliness_lease_duration rd) /\
  destination_order_kind rd <= destination_order_kind wr.

Definition durations_ok x : Prop :=
  Forall (fun t => nn_from_ddsi_duration t <= T_NEVER) [deadline x; latency_budget x; liveliness_lease_duration x].

Definition must_have : Z := foldr Z.lor 0 [QP_RXO_MASK; QP_PARTITION; QP_TOPIC_NAME; QP_TYPE_NAME].

(** One of the checks of [qos_match_p]: it passes, and so do the later ones. *)
Lemma check_passes (c : bool) (k t : Z) : k <> -1 -> (if c then k else t) = -1 <-> c = false /\ t = -1.
Proof. destruct c; naive_solver. Qed.

Lemma gtb_false_iff (x y : Z) : (x >? y) = false <-> x <= y.
Proof. rewrite Z.gtb_ltb. apply Z.ltb_ge. Qed.

Lemma neq_false_iff (x y : Z) : negb (x =? y) = false <-> x = y.
Proof. rewrite negb_false_iff. apply Z.eqb_eq. Qed.

Lemma differ_false_iff (x y : str) : negb (bool_decide (x = y)) = false <-> x = y.
Proof. rewrite negb_false_iff. apply bool_decide_eq_true. Qed.

Lemma qos_match_spec rd wr :
  has_all must_have rd = true -> has_all must_have wr = true -> durations_ok rd -> durations_ok wr ->
  exists id, qos_match_p rd wr = Some id /\
    (id = -1 <->
     (if relaxed_qos_matching rd || relaxed_qos_matching wr
      then reliability_kind rd = reliability_kind wr else rxo_compatible rd wr) /\
     topic_name rd = topic_name wr /\ type_name rd = type_name wr /\ partitions_overlap rd wr).
Proof.
  intros Hr Hw Dr Dw. unfold qos_match_p. fold must_have. rewrite Hr, Hw. cbn [andb negb]. eexists. split; [done|].
  unfold durations_ok in *. rewrite !Forall_cons in Dr, Dw. destruct Dr as (R1 & R2 & R3 & _), Dw as (W1 & W2 & W3 & _).
  destruct (relaxed_qos_matching rd || relaxed_qos_matching wr); unfold rxo_compatible;
    rewrite !check_passes by done; rewrite ?gtb_false_iff, ?neq_false_iff, ?differ_false_iff, ?negb_false_iff, ?partitions_match_spec.
  - tauto.
  - rewrite !duration_not_lt by done. tauto.
Qed.

(** Matching a reader with a writer, both with all their policies set:
    the assertions hold, and -1 (a match) is returned exactly when topic and
    type are the same, some partition of the one covers one of the other (no
    partition being the default one), and every policy the reader requests is offered by
    the writer (in relaxed mode: the reliability kinds are the same). *)
Theorem qos_match_exact rd wr :
  has_all must_have rd = true -> has_all must_have wr = true -> durations_ok rd -> durations_ok wr ->
  exists id, qos_match_p rd wr = Some id /\
    (id = -1 <->
     (if relaxed_qos_matching rd || relaxed_qos_matching wr
      then reliability_kind rd = reliability_kind wr else rxo_compatible rd wr) /\
     topic_name rd = topic_name wr /\ type_name rd = type_name wr /\ partitions_overlap rd wr).
Proof. apply qos_match_spec. Qed.

Definition example_qos (kind : Z) (parts : list str) (d : nn_ddsi_time) : nn_xqos :=
  NnXqos must_have ["T"%char] ["S"%char] (Presentation 1 0 1) parts kind d duration_infinite kind duration_infinite kind
    1 0 false.

Definition duration_ok_b x : bool :=
  (nn_from_ddsi_duration (deadline x) <=? T_NEVER) && (nn_from_ddsi_duration (latency_budget x) <=? T_NEVER) &&
  (nn_from_ddsi_duration (liveliness_lease_duration x) <=? T_NEVER).

Lemma qos_match_exact_witness :
  (let rd := example_qos 0 [["a"%char; ch_star]] duration_infinite in
   let wr := example_qos 1 [["b"%char]; ["a"%char; "c"%char]] (DdsiTime 3 0) in
   exists id, qos_match_p rd wr = Some id /\
    (id = -1 <->
     (if relaxed_qos_matching rd || relaxed_qos_matching wr
      then reliability_kind rd = reliability_kind wr else rxo_compatible rd wr) /\
     topic_name rd = topic_name wr /\ type_name rd = type_name wr /\ partitions_overlap rd wr)) /\
  qos_match_p (example_qos 0 [["a"%char; ch_star]] duration_infinite)
    (example_qos 1 [["b"%char]; ["a"%char; "c"%char]] (DdsiTime 3 0)) = Some (-1) /\
  qos_match_p (example_qos 1 [] (DdsiTime 3 0)) (example_qos 0 [] (DdsiTime 3 0)) = Some Q_RELIABILITY_QOS_POLICY_ID.
Proof.
  split; [|by split; vm_compute].
  intros rd wr.
  assert (Hok : forall x, duration_ok_b x = true -> durations_ok x).
  { intros x Hx. unfold duration_ok_b in Hx. rewrite !andb_true_iff, !Z.leb_le in Hx. destruct Hx as ((H1 & H2) & H3).
    unfold durations_ok. by rewrite !Forall_cons. }
  exact (qos_match_exact rd wr eq_refl eq_refl (Hok rd eq_refl) (Hok wr eq_refl)).
Defined.
