(* ===== verification/Wire.v ===== *)
(** * Bytes on the wire: [q_bswap.c], [q_bswap_template.c], [q_protocol.h]

    A packet is the list of its bytes.  The code casts a pointer into it to a
    struct and swaps the bytes of the fields in place when the sender's byte
    order (a flag of the submessage) is not that of the platform; [le] says
    whether the platform is little-endian ([PLATFORM_IS_LITTLE_ENDIAN]).  A read
    outside the list is [None].  The file also has the order on GUIDs, which
    compares them as 16 bytes of memory. *)

From Stdlib Require Import ZArith Lia.
From stdpp Require Import prelude countable.
From S2P Require Import Prelude Reorder Dqueue.

(** ** Byte swapping *)

Definition bswap2u (x : Z) : Z := wrap_u 16 (Z.lor (Z.shiftr x 8) (Z.shiftl x 8)).

Definition bswap4u (x : Z) : Z :=
  Z.lor (Z.lor (Z.lor (Z.shiftr x 24) (Z.land (Z.shiftr x 8) 0xff00))
           (Z.land (wrap_u 32 (Z.shiftl x 8)) 0xff0000))
        (wrap_u 32 (Z.shiftl x 24)).

Definition bswap8u (x : Z) : Z :=
  let newhi := bswap4u (wrap_u 32 x) in
  let newlo := bswap4u (wrap_u 32 (Z.shiftr x 32)) in
  Z.lor (Z.shiftl newhi 32) newlo.

Definition bswap4 (x : Z) : Z := wrap_s 32 (bswap4u (wrap_u 32 x)).

Definition bswapSN (sn : sequence_number) : sequence_number :=
  SequenceNumber (bswap4 (sn_high sn)) (bswap4u (sn_low sn)).

Section Platform.
Context (le : bool).

Definition toBE4u (x : Z) : Z := if le then bswap4u x else x.
Definition fromBE4u (x : Z) : Z := if le then bswap4u x else x.

(** The words of a prefix and an entity id are numbers in host order. *)
Definition nn_hton_guid_prefix (p : Z * Z * Z) : Z * Z * Z :=
  (toBE4u p.1.1, toBE4u p.1.2, toBE4u p.2).
Definition nn_ntoh_guid_prefix (p : Z * Z * Z) : Z * Z * Z :=
  (fromBE4u p.1.1, fromBE4u p.1.2, fromBE4u p.2).
Definition nn_hton_entityid (e : Z) : Z := toBE4u e.
Definition nn_ntoh_entityid (e : Z) : Z := fromBE4u e.
Definition nn_hton_guid (g : nn_guid) : nn_guid :=
  NnGuid (nn_hton_guid_prefix (guid_prefix g)) (nn_hton_entityid (guid_entityid g)).
Definition nn_ntoh_guid (g : nn_guid) : nn_guid :=
  NnGuid (nn_ntoh_guid_prefix (guid_prefix g)) (nn_ntoh_entityid (guid_entityid g)).

(** ** Memory *)

(** A number as the platform stores it. *)
Definition bytes2 (x : Z) : list Z :=
  if le then [x mod 256; x / 256] else [x / 256; x mod 256].

Definition bytes4 (x : Z) : list Z :=
  if le then [x mod 256; x / 2 ^ 8 mod 256; x / 2 ^ 16 mod 256; x / 2 ^ 24]
  else [x / 2 ^ 24; x / 2 ^ 16 mod 256; x / 2 ^ 8 mod 256; x mod 256].

Definition get1 (b : list Z) (o : Z) : option Z := if 0 <=? o then b !! Z.to_nat o else None.

Definition get2u (b : list Z) (o : Z) : option Z :=
  x ← get1 b o; y ← get1 b (o + 1);
  Some (if le then x + 2 ^ 8 * y else y + 2 ^ 8 * x).

Definition get4u (b : list Z) (o : Z) : option Z :=
  w ← get1 b o; x ← get1 b (o + 1); y ← get1 b (o + 2); z ← get1 b (o + 3);
  Some (if le then w + 2 ^ 8 * x + 2 ^ 16 * y + 2 ^ 24 * z
        else z + 2 ^ 8 * y + 2 ^ 16 * x + 2 ^ 24 * w).

(** An array of [n] 32-bit words. *)
Fixpoint get4u_array (b : list Z) (o : Z) (n : nat) : option (list Z) :=
  match n with
  | O => Some []
  | S n' => w ← get4u b o; ws ← get4u_array b (o + 4) n'; Some (w :: ws)
  end.

(** ** The order of GUIDs *)

Definition guid_words (g : nn_guid) : list Z :=
  [(guid_prefix g).1.1; (guid_prefix g).1.2; (guid_prefix g).2; guid_entityid g].

Definition guid_bytes (g : nn_guid) : list Z := mjoin (map bytes4 (guid_words g)).

(** [memcmp]: the order of the first bytes that differ. *)
Fixpoint memcmp (a b : list Z) : comparison :=
  match a, b with
  | x :: a', y :: b' => match x ?= y with Eq => memcmp a' b' | c => c end
  | _, _ => Eq
  end.

Definition compare_guid (a b : nn_guid) : comparison := memcmp (guid_bytes a) (guid_bytes b).

(** The key of a GUID in the trees: its 16 bytes read as one number. *)
Definition guid_key (g : nn_guid) : Z :=
  fold_left (fun k w => 2 ^ 32 * k + toBE4u w) (guid_words g) 0.
End Platform.

#[global] Instance nn_guid_eq_dec : EqDecision nn_guid.
Proof. solve_decision. Defined.

#[global] Instance nn_guid_countable : Countable nn_guid.
Proof.
  apply (inj_countable' (fun g => (guid_prefix g, guid_entityid g)) (fun p => NnGuid p.1 p.2)).
  by intros [].
Defined.

Definition guid_wf (g : nn_guid) : Prop :=
  in_u 32 (guid_prefix g).1.1 /\ in_u 32 (guid_prefix g).1.2 /\ in_u 32 (guid_prefix g).2 /\
  in_u 32 (guid_entityid g).

(** ** Arithmetic of the byte operations *)

Lemma land_field x k : 0 <= k -> Z.land x (Z.shiftl 255 k) = (x / 2 ^ k) mod 256 * 2 ^ k.
Proof.
  intros Hk. rewrite <- Z.shiftl_mul_pow2, <- Z.shiftr_div_pow2 by lia.
  change 256 with (2 ^ 8). rewrite <- Z.land_ones by lia. change (Z.ones 8) with 255.
  apply Z.bits_inj'. intros i Hi. rewrite Z.land_spec. destruct (Z.lt_ge_cases i k).
  - rewrite !Z.shiftl_spec_low by lia. apply andb_false_r.
  - rewrite !Z.shiftl_spec, Z.land_spec, Z.shiftr_spec by lia. f_equal. f_equal. lia.
Qed.

Lemma lor_add a b k : 0 <= k -> 0 <= a < 2 ^ k -> Z.lor a (b * 2 ^ k) = a + b * 2 ^ k.
Proof.
  intros Hk Ha. pose proof (Z.add_lor_land a (b * 2 ^ k)) as E.
  assert (L : Z.land a (b * 2 ^ k) = 0); [|lia].
  apply Z.bits_inj'. intros i Hi. rewrite Z.land_spec, Z.bits_0.
  destruct (Z.lt_ge_cases i k).
  - rewrite Z.mul_pow2_bits_low by lia. apply andb_false_r.
  - rewrite <- (Z.mod_small a (2 ^ k)) by lia. by rewrite Z.mod_pow2_bits_high by lia.
Qed.

Definition word (w x y z : Z) : Z := w + 2 ^ 8 * x + 2 ^ 16 * y + 2 ^ 24 * z.

Lemma word_div w x y z :
  in_u 8 w -> in_u 8 x -> in_u 8 y -> in_u 8 z ->
  word w x y z mod 256 = w /\ word w x y z / 2 ^ 8 mod 256 = x /\
  word w x y z / 2 ^ 16 mod 256 = y /\ word w x y z / 2 ^ 24 = z /\ in_u 32 (word w x y z).
Proof.
  unfold in_u, word. intros Hw Hx Hy Hz. change (2 ^ 8) with 256 in *. change (2 ^ 16) with 65536.
  change (2 ^ 24) with 16777216. change (2 ^ 32) with 4294967296.
  split; [|split; [|split; [|split]]]; [..|lia].
  - symmetry. apply Z.mod_unique with (x + 256 * y + 65536 * z); [left|]; lia.
  - replace ((w + 256 * x + 65536 * y + 16777216 * z) / 256) with (x + 256 * y + 65536 * z)
      by (apply Z.div_unique with w; [left|]; lia).
    symmetry. apply Z.mod_unique with (y + 256 * z); [left|]; lia.
  - replace ((w + 256 * x + 65536 * y + 16777216 * z) / 65536) with (y + 256 * z)
      by (apply Z.div_unique with (w + 256 * x); [left|]; lia).
    symmetry. apply Z.mod_unique with z; [left|]; lia.
  - symmetry. apply Z.div_unique with (w + 256 * x + 65536 * y); [left|]; lia.
Qed.

(** Every 32-bit number is its four bytes. *)
Lemma word_split n : in_u 32 n ->
  exists w x y z, in_u 8 w /\ in_u 8 x /\ in_u 8 y /\ in_u 8 z /\ n = word w x y z.
Proof.
  unfold in_u, word. intros Hn.
  exists (n mod 256), (n / 256 mod 256), (n / 65536 mod 256), (n / 16777216).
  change (2 ^ 8) with 256. change (2 ^ 16) with 65536. change (2 ^ 24) with 16777216.
  repeat (split; [apply Z.mod_pos_bound; lia|]). split; [split; [apply Z.div_pos; lia|apply Z.div_lt_upper_bound; lia]|].
  pose proof (Z.div_mod n 256 ltac:(lia)). pose proof (Z.div_mod (n / 256) 256 ltac:(lia)).
  pose proof (Z.div_mod (n / 65536) 256 ltac:(lia)).
  rewrite (Z.div_div n 256 256) in * by lia. rewrite (Z.div_div n 65536 256) in * by lia.
  change (256 * 256) with 65536 in *. change (65536 * 256) with 16777216 in *. lia.
Qed.

Lemma bswap4u_word w x y z :
  in_u 8 w -> in_u 8 x -> in_u 8 y -> in_u 8 z -> bswap4u (word w x y z) = word z y x w.
Proof.
  intros Hw Hx Hy Hz. destruct (word_div w x y z Hw Hx Hy Hz) as (D0 & D1 & D2 & D3 & Hr).
  unfold bswap4u. change 0xff00 with (Z.shiftl 255 8). change 0xff0000 with (Z.shiftl 255 16).
  rewrite !land_field by lia. rewrite !Z.shiftr_div_pow2, !Z.shiftl_mul_pow2 by lia.
  rewrite (Z.div_div _ (2 ^ 8) (2 ^ 8)) by lia. change (2 ^ 8 * 2 ^ 8) with (2 ^ 16). rewrite D2, D3.
  assert (E1 : wrap_u 32 (word w x y z * 2 ^ 8) / 2 ^ 16 mod 256 = x).
  { unfold wrap_u. replace ((word w x y z * 2 ^ 8) mod 2 ^ 32) with (word 0 w x y).
    - apply word_div; auto. split; lia.
    - unfold in_u, word in *. apply Z.mod_unique with z; [left|]; lia. }
  assert (E2 : wrap_u 32 (word w x y z * 2 ^ 24) = w * 2 ^ 24).
  { unfold wrap_u, in_u, word in *. symmetry. apply Z.mod_unique with (x + 2 ^ 8 * y + 2 ^ 16 * z); [left|]; lia. }
  rewrite E1, E2. unfold in_u in *.
  rewrite (lor_add z y 8), (lor_add _ x 16), (lor_add _ w 24) by lia. unfold word. lia.
Qed.

Lemma bswap4u_range n : in_u 32 n -> in_u 32 (bswap4u n).
Proof. intros (w & x & y & z & ? & ? & ? & ? & ->)%word_split. rewrite bswap4u_word by done. by apply word_div. Qed.

Lemma bswap4u_inv n : in_u 32 n -> bswap4u (bswap4u n) = n.
Proof. intros (w & x & y & z & ? & ? & ? & ? & ->)%word_split. by rewrite !bswap4u_word. Qed.

Lemma half_split n : in_u 16 n -> exists x y, in_u 8 x /\ in_u 8 y /\ n = x + 2 ^ 8 * y.
Proof.
  intros Hn. exists (n mod 256), (n / 256). unfold in_u in *. change (2 ^ 8) with 256.
  split; [apply Z.mod_pos_bound; lia|]. split; [split; [apply Z.div_pos; lia|apply Z.div_lt_upper_bound; lia]|].
  pose proof (Z.div_mod n 256 ltac:(lia)). lia.
Qed.

Lemma half_div x y : in_u 8 x -> in_u 8 y -> (x + 2 ^ 8 * y) mod 256 = x /\ (x + 2 ^ 8 * y) / 256 = y.
Proof.
  unfold in_u. intros Hx Hy. change (2 ^ 8) with 256 in *. split; symmetry.
  - apply Z.mod_unique with y; [left|]; lia.
  - apply Z.div_unique with x; [left|]; lia.
Qed.

Lemma bswap2u_half x y : in_u 8 x -> in_u 8 y -> bswap2u (x + 2 ^ 8 * y) = y + 2 ^ 8 * x.
Proof.
  intros Hx Hy. unfold bswap2u. rewrite Z.shiftr_div_pow2, Z.shiftl_mul_pow2 by lia.
  destruct (half_div x y Hx Hy) as [_ D]. change (2 ^ 8) with 256 in *. rewrite D. unfold in_u in *.
  change 256 with (2 ^ 8) at 2. rewrite lor_add by lia.
  unfold wrap_u. symmetry. apply Z.mod_unique with y; [left|]; lia.
Qed.

Lemma bswap2u_inv n : in_u 16 n -> bswap2u (bswap2u n) = n.
Proof. intros (x & y & ? & ? & ->)%half_split. by rewrite !bswap2u_half. Qed.

(** ** Reading what was written *)

Definition bytes_ok (b : list Z) : Prop := Forall (in_u 8) b.

Lemma get1_lt b o : 0 <= o < Z.of_nat (length b) -> exists x, get1 b o = Some x.
Proof.
  intros Ho. unfold get1. destruct (Z.leb_spec 0 o); [|lia].
  apply lookup_lt_is_Some_2. lia.
Qed.

Lemma get1_range b o x : bytes_ok b -> get1 b o = Some x -> in_u 8 x.
Proof.
  unfold get1. intros Hb. destruct (0 <=? o); [|done]. intros Hx.
  by eapply Forall_lookup_1 in Hx.
Qed.

Lemma get1_mid a x c k : k = Z.of_nat (length a) -> get1 (a ++ x :: c) k = Some x.
Proof.
  intros ->. unfold get1. destruct (Z.leb_spec 0 (Z.of_nat (length a))); [|lia].
  rewrite Nat2Z.id. by apply list_lookup_middle.
Qed.

Section Reads.
Context (le : bool).

Lemma get2u_lt b o : 0 <= o -> o + 2 <= Z.of_nat (length b) -> exists x, get2u le b o = Some x.
Proof.
  intros H1 H2. unfold get2u. destruct (get1_lt b o) as [x ->]; [lia|]. destruct (get1_lt b (o + 1)) as [y ->]; [lia|].
  by eexists.
Qed.

Lemma get4u_lt b o : 0 <= o -> o + 4 <= Z.of_nat (length b) -> exists x, get4u le b o = Some x.
Proof.
  intros H1 H2. unfold get4u. destruct (get1_lt b o) as [w ->]; [lia|]. destruct (get1_lt b (o + 1)) as [x ->]; [lia|].
  destruct (get1_lt b (o + 2)) as [y ->]; [lia|]. destruct (get1_lt b (o + 3)) as [z ->]; [lia|]. by eexists.
Qed.

Lemma get4u_array_lt n : forall b o, 0 <= o -> o + 4 * Z.of_nat n <= Z.of_nat (length b) ->
  exists ws, get4u_array le b o n = Some ws /\ length ws = n.
Proof.
  induction n as [|n IH]; intros b o H1 H2; simpl; [by eexists|].
  destruct (get4u_lt b o) as [w ->]; [lia|lia|]. simpl.
  destruct (IH b (o + 4)) as (ws & -> & Hl); [lia|lia|]. eexists. split; [done|]. simpl. by rewrite Hl.
Qed.

Lemma get2u_range b o x : bytes_ok b -> get2u le b o = Some x -> in_u 16 x.
Proof.
  intros Hb. unfold get2u. destruct (get1 b o) as [u|] eqn:E1; [|done].
  destruct (get1 b (o + 1)) as [v|] eqn:E2; [|done]. intros [= <-].
  apply get1_range in E1, E2; [|done..]. unfold in_u in *. destruct le; lia.
Qed.

Lemma get4u_range b o x : bytes_ok b -> get4u le b o = Some x -> in_u 32 x.
Proof.
  intros Hb. unfold get4u. destruct (get1 b o) as [u|] eqn:E1; [|done]. destruct (get1 b (o + 1)) as [v|] eqn:E2; [|done].
  destruct (get1 b (o + 2)) as [w|] eqn:E3; [|done]. destruct (get1 b (o + 3)) as [z|] eqn:E4; [|done]. intros [= <-].
  apply get1_range in E1, E2, E3, E4; [|done..]. unfold in_u in *. destruct le; lia.
Qed.

(** A number stored by a platform with byte order [e]. *)
Lemma get2u_bytes e a n c k :
  in_u 16 n -> k = Z.of_nat (length a) ->
  get2u le (a ++ bytes2 e n ++ c) k = Some (if Bool.eqb e le then n else bswap2u n).
Proof.
  intros (x & y & Hx & Hy & ->)%half_split ->. destruct (half_div x y Hx Hy) as [D0 D1].
  assert (G : forall p q, get2u le (a ++ [p; q] ++ c) (Z.of_nat (length a)) =
                 Some (if le then p + 2 ^ 8 * q else q + 2 ^ 8 * p)).
  { intros p q. unfold get2u. simpl app. rewrite (get1_mid a _ _ (Z.of_nat (length a)) eq_refl). cbn [mbind option_bind].
    by rewrite cons_middle, app_assoc, (get1_mid (a ++ [p]) _ _ (Z.of_nat (length a) + 1)) by (rewrite length_app; simpl; lia). }
  unfold bytes2. rewrite D0, D1. destruct e; rewrite G; destruct le; simpl; by rewrite ?bswap2u_half.
Qed.

Lemma get4u_bytes e a n c k :
  in_u 32 n -> k = Z.of_nat (length a) ->
  get4u le (a ++ bytes4 e n ++ c) k = Some (if Bool.eqb e le then n else bswap4u n).
Proof.
  intros (w & x & y & z & Hw & Hx & Hy & Hz & ->)%word_split ->.
  destruct (word_div w x y z Hw Hx Hy Hz) as (D0 & D1 & D2 & D3 & _).
  assert (G : forall p q r s, get4u le (a ++ [p; q; r; s] ++ c) (Z.of_nat (length a)) =
                 Some (if le then word p q r s else word s r q p)).
  { intros p q r s. unfold get4u. simpl app. rewrite (get1_mid a _ _ (Z.of_nat (length a)) eq_refl). cbn [mbind option_bind].
    rewrite cons_middle, app_assoc, (get1_mid (a ++ [p]) _ _ (Z.of_nat (length a) + 1)) by (rewrite length_app; simpl; lia). cbn [mbind option_bind].
    rewrite cons_middle, app_assoc, (get1_mid ((a ++ [p]) ++ [q]) _ _ (Z.of_nat (length a) + 2)) by (rewrite !length_app; simpl; lia). cbn [mbind option_bind].
    rewrite cons_middle, app_assoc, (get1_mid (((a ++ [p]) ++ [q]) ++ [r]) _ _ (Z.of_nat (length a) + 3)) by (rewrite !length_app; simpl; lia).
    done. }
  unfold bytes4. rewrite D0, D1, D2, D3. destruct e; rewrite G; destruct le; simpl; rewrite ?bswap4u_word by done; done.
Qed.
End Reads.

(** ** The order of GUIDs is the order of their keys *)

Lemma memcmp_app a1 a2 b1 b2 : length a1 = length b1 ->
  memcmp (a1 ++ a2) (b1 ++ b2) = match memcmp a1 b1 with Eq => memcmp a2 b2 | c => c end.
Proof.
  revert b1. induction a1 as [|x a1 IH]; intros [|y b1] Hl; try done. simpl.
  destruct (x ?= y); [|done..]. apply IH. by injection Hl.
Qed.

Lemma compare_digit b k l x y :
  0 <= x < b -> 0 <= y < b ->
  (b * k + x ?= b * l + y) = match k ?= l with Eq => x ?= y | c => c end.
Proof.
  intros Hx Hy. destruct (Z.compare_spec k l) as [->|Hlt|Hgt].
  - destruct (Z.compare_spec x y); [apply Z.compare_eq_iff|apply Z.compare_lt_iff|apply Z.compare_gt_iff]; lia.
  - apply Z.compare_lt_iff. nia.
  - apply Z.compare_gt_iff. nia.
Qed.

Lemma memcmp_word le m n : in_u 32 m -> in_u 32 n ->
  memcmp (bytes4 le m) (bytes4 le n) = (toBE4u le m ?= toBE4u le n).
Proof.
  intros (w & x & y & z & Hw & Hx & Hy & Hz & ->)%word_split
         (w' & x' & y' & z' & Hw' & Hx' & Hy' & Hz' & ->)%word_split.
  destruct (word_div w x y z) as (D0 & D1 & D2 & D3 & _), (word_div w' x' y' z') as (D0' & D1' & D2' & D3' & _); auto.
  assert (C : forall a b c d a' b' c' d', in_u 8 a -> in_u 8 b -> in_u 8 c -> in_u 8 d ->
            in_u 8 a' -> in_u 8 b' -> in_u 8 c' -> in_u 8 d' ->
            (word a b c d ?= word a' b' c' d') = memcmp [d; c; b; a] [d'; c'; b'; a']).
  { intros a b c d a' b' c' d' Ha Hb Hc Hd Ha' Hb' Hc' Hd'. simpl. unfold word, in_u in *.
    replace (a + 2 ^ 8 * b + 2 ^ 16 * c + 2 ^ 24 * d) with (2 ^ 8 * (2 ^ 8 * (2 ^ 8 * d + c) + b) + a) by lia.
    replace (a' + 2 ^ 8 * b' + 2 ^ 16 * c' + 2 ^ 24 * d') with (2 ^ 8 * (2 ^ 8 * (2 ^ 8 * d' + c') + b') + a') by lia.
    rewrite !compare_digit by lia. destruct (d ?= d'), (c ?= c'), (b ?= b'), (a ?= a'); done. }
  unfold bytes4, toBE4u. rewrite D0, D1, D2, D3, D0', D1', D2', D3'.
  destruct le; rewrite ?bswap4u_word by done; by rewrite C.
Qed.

Lemma toBE4u_range le n : in_u 32 n -> in_u 32 (toBE4u le n).
Proof. unfold toBE4u. destruct le; [apply bswap4u_range|done]. Qed.

Lemma compare_guid_key le a b : guid_wf a -> guid_wf b ->
  compare_guid le a b = (guid_key le a ?= guid_key le b).
Proof.
  intros (A0 & A1 & A2 & A3) (B0 & B1 & B2 & B3). unfold compare_guid, guid_bytes, guid_key, guid_words.
  simpl. rewrite !app_nil_r. unfold mjoin in *. simpl.
  assert (L : forall m n, length (bytes4 le m) = length (bytes4 le n)) by (by intros; destruct le).
  rewrite !memcmp_app, !memcmp_word by auto.
  pose proof (toBE4u_range le _ A0). pose proof (toBE4u_range le _ A1). pose proof (toBE4u_range le _ A2).
  pose proof (toBE4u_range le _ A3). pose proof (toBE4u_range le _ B0). pose proof (toBE4u_range le _ B1).
  pose proof (toBE4u_range le _ B2). pose proof (toBE4u_range le _ B3). unfold in_u in *.
  rewrite !compare_digit by lia. simpl.
  destruct (toBE4u le (guid_prefix a).1.1 ?= toBE4u le (guid_prefix b).1.1); try done.
  destruct (toBE4u le (guid_prefix a).1.2 ?= toBE4u le (guid_prefix b).1.2); try done.
Qed.

Lemma toBE4u_inj le m n : in_u 32 m -> in_u 32 n -> toBE4u le m = toBE4u le n -> m = n.
Proof.
  intros Hm Hn. unfold toBE4u. destruct le; [|done]. intros E.
  rewrite <- (bswap4u_inv m), <- (bswap4u_inv n) by done. by rewrite E.
Qed.

Lemma guid_key_inj le a b : guid_wf a -> guid_wf b -> guid_key le a = guid_key le b -> a = b.
Proof.
  destruct a as [[[a0 a1] a2] a3], b as [[[b0 b1] b2] b3].
  intros (A0 & A1 & A2 & A3) (B0 & B1 & B2 & B3). unfold guid_key, guid_words. cbn [map fold_left guid_prefix guid_entityid fst snd] in *.
  pose proof (toBE4u_range le _ A0). pose proof (toBE4u_range le _ A1). pose proof (toBE4u_range le _ A2).
  pose proof (toBE4u_range le _ A3). pose proof (toBE4u_range le _ B0). pose proof (toBE4u_range le _ B1).
  pose proof (toBE4u_range le _ B2). pose proof (toBE4u_range le _ B3). unfold in_u in *. intros E.
  assert (E3 : toBE4u le a3 = toBE4u le b3) by lia. assert (E2 : toBE4u le a2 = toBE4u le b2) by lia.
  assert (E1 : toBE4u le a1 = toBE4u le b1) by lia. assert (E0 : toBE4u le a0 = toBE4u le b0) by lia.
  apply (toBE4u_inj le) in E0, E1, E2, E3; auto. by subst.
Qed.
