(* ===== verification/Protocol.v ===== *)
(** * Submessages and their validation: [q_protocol.h], [q_receive.c], [q_plist.c]

    The [valid_*] functions of [q_receive.c] take the bytes [b] from the start
    of a submessage to the end of the packet, the size of the submessage and
    whether the sender's byte order differs.  The code swaps the bytes in place
    and the handlers read the struct afterwards; here the struct is the result.
    [Malformed] is the result 0; [None] is a read outside the packet (or, in
    [nn_plist_quickscan] and [valid_InfoTS], a failed assertion). *)

From Stdlib Require Import ZArith Lia.
From stdpp Require Import prelude.
From S2P Require Import Prelude Bitset Refs Defrag Reorder Rmsg Dqueue Time Wire.

Inductive validity (A : Type) : Type := Malformed | Valid (a : A).
Arguments Malformed {A}.
Arguments Valid {A} a.

(** The build and configuration settings that the reception of packets
    depends on. *)
Record ddsi_config : Type := DdsiConfig {
  platform_is_little_endian : bool;
  nn_strict_p : bool;                       (* NN_STRICT_P *)
  nn_pedantic_p : bool;                     (* NN_PEDANTIC_P *)
  lc_trace : bool;                          (* config.enabled_logcats & LC_TRACE *)
  fragment_size : Z;
  buggy_datafrag_flags_mode : bool;
  max_sample_size : Z;
  nack_delay : Z;
  late_ack_mode : bool;
  meas_hb_to_ack_latency : bool;
  preemptive_ack_delay : Z;
  conservative_builtin_reader_startup : bool;
  primary_reorder_maxsamples : Z;
  secondary_reorder_maxsamples : Z;
  defrag_reliable_maxsamples : Z;
  defrag_unreliable_maxsamples : Z;
}.

(** ** Submessages *)

Record SubmessageHeader : Type := SubmsgHeader {
  sh_submessageId : Z;
  sh_flags : Z;
  sh_octetsToNextHeader : Z;
}.
Definition RTPS_SUBMESSAGE_HEADER_SIZE : Z := 4.

(** [SubmessageKind_t] *)
Definition SMID_PAD : Z := 0x01.
Definition SMID_ACKNACK : Z := 0x06.
Definition SMID_HEARTBEAT : Z := 0x07.
Definition SMID_GAP : Z := 0x08.
Definition SMID_INFO_TS : Z := 0x09.
Definition SMID_INFO_SRC : Z := 0x0c.
Definition SMID_INFO_REPLY_IP4 : Z := 0x0d.
Definition SMID_INFO_DST : Z := 0x0e.
Definition SMID_INFO_REPLY : Z := 0x0f.
Definition SMID_NACK_FRAG : Z := 0x12.
Definition SMID_HEARTBEAT_FRAG : Z := 0x13.
Definition SMID_DATA : Z := 0x15.
Definition SMID_DATA_FRAG : Z := 0x16.
Definition SMID_PT_INFO_CONTAINER : Z := 0x80.
Definition SMID_PT_MSG_LEN : Z := 0x81.
Definition SMID_PT_ENTITY_ID : Z := 0x82.

Definition SMFLAG_ENDIANNESS : Z := 0x01.
Definition DATA_FLAG_INLINE_QOS : Z := 0x02.
Definition DATA_FLAG_DATAFLAG : Z := 0x04.
Definition DATA_FLAG_KEYFLAG : Z := 0x08.
Definition DATAFRAG_FLAG_INLINE_QOS : Z := 0x02.
Definition INFOTS_INVALIDATE_FLAG : Z := 0x2.
Definition HEARTBEAT_FLAG_FINAL : Z := 0x02.

Definition NN_SEQUENCE_NUMBER_UNKNOWN : Z := - 2 ^ 32.

Record InfoDST : Type := MkInfoDST { id_guid_prefix : Z * Z * Z }.
Record InfoSRC : Type := MkInfoSRC {
  is_version : Z * Z;
  is_vendorid : Z * Z;
  is_guid_prefix : Z * Z * Z;
}.
Record InfoTS : Type := MkInfoTS { it_flags : Z; it_time : nn_ddsi_time }.
Record PT_InfoContainer : Type := MkPT_InfoContainer { pc_id : Z }.

Record Data_DataFrag_common : Type := DataCommon {
  dx_flags : Z;
  dx_extraFlags : Z;
  dx_octetsToInlineQos : Z;
  dx_readerId : Z;
  dx_writerId : Z;
  dx_writerSN : sequence_number;
}.
Record DataFrag : Type := MkDataFrag {
  df_x : Data_DataFrag_common;
  df_fragmentStartingNum : Z;
  df_fragmentsInSubmessage : Z;
  df_fragmentSize : Z;
  df_sampleSize : Z;
}.
Record AckNack : Type := MkAckNack {
  an_flags : Z;
  an_readerId : Z;
  an_writerId : Z;
  an_readerSNState : sequence_number_set;
  an_count : Z;                             (* follows the bitmap *)
}.
Record Gap : Type := MkGap {
  gp_readerId : Z;
  gp_writerId : Z;
  gp_gapStart : sequence_number;
  gp_gapList : sequence_number_set;
}.
Record Heartbeat : Type := MkHeartbeat {
  hb_flags : Z;
  hb_readerId : Z;
  hb_writerId : Z;
  hb_firstSN : sequence_number;
  hb_lastSN : sequence_number;
  hb_count : Z;
}.
Record HeartbeatFrag : Type := MkHeartbeatFrag {
  hf_readerId : Z;
  hf_writerId : Z;
  hf_writerSN : sequence_number;
  hf_lastFragmentNum : Z;
  hf_count : Z;
}.
Record NackFrag : Type := MkNackFrag {
  nf_readerId : Z;
  nf_writerId : Z;
  nf_writerSN : sequence_number;
  nf_fragmentNumberState : fragment_number_set;
  nf_count : Z;                             (* follows the bitmap *)
}.

(** [NN_SEQUENCE_NUMBER_SET_BITS_SIZE] and the sizes built on it. *)
Definition SET_BITS_SIZE (numbits : Z) : Z := 4 * Z.of_nat (bitset_words numbits).
Definition GAP_SIZE (numbits : Z) : Z := 20 + (12 + SET_BITS_SIZE numbits).
Definition ACKNACK_SIZE (numbits : Z) : Z := 12 + (12 + SET_BITS_SIZE numbits) + 4.
Definition NACKFRAG_SIZE (numbits : Z) : Z := 20 + (8 + SET_BITS_SIZE numbits) + 4.

(** Whether a flag is set. *)
Definition flag (flags f : Z) : bool := negb (Z.land flags f =? 0).

Definition valid_sequence_number_set (snset : sequence_number_set) : bool :=
  if fromSN (ss_bitmap_base snset) <=? 0 then false
  else if (ss_numbits snset <=? 0) || (ss_numbits snset >? 256) then false
  else true.

Definition valid_fragment_number_set (fnset : fragment_number_set) : bool :=
  if fn_bitmap_base fnset <=? 0 then false
  else if (fn_numbits fnset <=? 0) || (fn_numbits fnset >? 256) then false
  else true.

Section Valid.
Context (cfg : ddsi_config).

Abbreviation le := (platform_is_little_endian cfg).
Implicit Types (b : list Z) (o size : Z) (byteswap : bool).

(** Fields of a struct after the byte swaps. *)
Definition field2 byteswap b o : option Z :=
  x ← get2u le b o; Some (if byteswap then bswap2u x else x).
Definition field4 byteswap b o : option Z :=
  x ← get4u le b o; Some (if byteswap then bswap4u x else x).
Definition field4s byteswap b o : option Z :=
  x ← get4u le b o; let x := wrap_s 32 x in Some (if byteswap then bswap4 x else x).
Definition fieldSN byteswap b o : option sequence_number :=
  high ← get4u le b o; low ← get4u le b (o + 4);
  let sn := SequenceNumber (wrap_s 32 high) low in Some (if byteswap then bswapSN sn else sn).
Definition field_entityid b o : option Z := x ← get4u le b o; Some (nn_ntoh_entityid le x).
(** A prefix, not converted to host order. *)
Definition field_prefix b o : option (Z * Z * Z) :=
  x ← get4u le b o; y ← get4u le b (o + 4); z ← get4u le b (o + 8); Some (x, y, z).

(** [bswap_sequence_number_set_bitmap], [bswap_fragment_number_set_bitmap] *)
Definition bswap_bitmap byteswap (bits : list Z) : list Z := if byteswap then map bswap4u bits else bits.

Definition valid_AckNack b size byteswap : option (validity AckNack) :=
  if size <? ACKNACK_SIZE 0 then Some Malformed else
  flags ← get1 b 1;
  base ← fieldSN byteswap b 12; numbits ← field4 byteswap b 20;
  readerId ← field_entityid b 4; writerId ← field_entityid b 8;
  if negb (valid_sequence_number_set (SequenceNumberSet base numbits [])) &&
     (nn_strict_p cfg || negb (numbits =? 0))
  then Some Malformed
  else if size <? ACKNACK_SIZE numbits then Some Malformed
  else
    bits ← get4u_array le b 24 (bitset_words numbits);
    count ← field4s byteswap b (24 + SET_BITS_SIZE numbits);
    Some (Valid (MkAckNack flags readerId writerId
                   (SequenceNumberSet base numbits (bswap_bitmap byteswap bits)) count)).

Definition valid_Gap b size byteswap : option (validity Gap) :=
  if size <? GAP_SIZE 0 then Some Malformed else
  gapStart ← fieldSN byteswap b 12;
  base ← fieldSN byteswap b 20; numbits ← field4 byteswap b 28;
  readerId ← field_entityid b 4; writerId ← field_entityid b 8;
  if fromSN gapStart <=? 0 then Some Malformed
  else if negb (valid_sequence_number_set (SequenceNumberSet base numbits [])) &&
          (nn_strict_p cfg || negb (numbits =? 0))
  then Some Malformed
  else if size <? GAP_SIZE numbits then Some Malformed
  else
    bits ← get4u_array le b 32 (bitset_words numbits);
    Some (Valid (MkGap readerId writerId gapStart
                   (SequenceNumberSet base numbits (bswap_bitmap byteswap bits)))).

Definition valid_InfoDST b size byteswap : option (validity InfoDST) :=
  if size <? 16 then Some Malformed
  else p ← field_prefix b 4; Some (Valid (MkInfoDST p)).

Definition valid_InfoSRC b size byteswap : option (validity InfoSRC) :=
  if size <? 24 then Some Malformed
  else
    major ← get1 b 8; minor ← get1 b 9; v0 ← get1 b 10; v1 ← get1 b 11;
    p ← field_prefix b 12; Some (Valid (MkInfoSRC (major, minor) (v0, v1) p)).

(** With the invalidate flag the time is not read. *)
Definition valid_InfoTS b size byteswap : option (validity InfoTS) :=
  if negb (RTPS_SUBMESSAGE_HEADER_SIZE <=? size) then None else
  flags ← get1 b 1;
  if flag flags INFOTS_INVALIDATE_FLAG then Some (Valid (MkInfoTS flags invalid_ddsi_timestamp))
  else if size <? 12 then Some Malformed
  else
    s ← field4s byteswap b 4; f ← field4 byteswap b 8;
    Some (if valid_ddsi_timestamp (DdsiTime s f) then Valid (MkInfoTS flags (DdsiTime s f)) else Malformed).

Definition valid_PT_InfoContainer b size byteswap : option (validity PT_InfoContainer) :=
  if size <? 8 then Some Malformed
  else id ← field4 byteswap b 4; Some (Valid (MkPT_InfoContainer id)).

Definition valid_Heartbeat b size byteswap : option (validity Heartbeat) :=
  if size <? 32 then Some Malformed else
  flags ← get1 b 1;
  firstSN ← fieldSN byteswap b 12; lastSN ← fieldSN byteswap b 20; count ← field4s byteswap b 28;
  readerId ← field_entityid b 4; writerId ← field_entityid b 8;
  if ((fromSN firstSN <=? 0) || (fromSN lastSN <? fromSN firstSN)) &&
     (nn_strict_p cfg || negb (fromSN firstSN =? wrap_s 64 (fromSN lastSN + 1)))
  then Some Malformed
  else Some (Valid (MkHeartbeat flags readerId writerId firstSN lastSN count)).

Definition valid_HeartbeatFrag b size byteswap : option (validity HeartbeatFrag) :=
  if size <? 28 then Some Malformed else
  writerSN ← fieldSN byteswap b 12; lastFragmentNum ← field4 byteswap b 20;
  count ← field4s byteswap b 24;
  readerId ← field_entityid b 4; writerId ← field_entityid b 8;
  if (fromSN writerSN <=? 0) || (lastFragmentNum =? 0) then Some Malformed
  else Some (Valid (MkHeartbeatFrag readerId writerId writerSN lastFragmentNum count)).

Definition valid_NackFrag b size byteswap : option (validity NackFrag) :=
  if size <? NACKFRAG_SIZE 0 then Some Malformed else
  writerSN ← fieldSN byteswap b 12;
  base ← field4 byteswap b 20; numbits ← field4 byteswap b 24;
  readerId ← field_entityid b 4; writerId ← field_entityid b 8;
  if negb (valid_fragment_number_set (FragmentNumberSet base numbits [])) then Some Malformed
  else if size <? NACKFRAG_SIZE numbits then Some Malformed
  else
    bits ← get4u_array le b 28 (bitset_words numbits);
    count ← field4s byteswap b (28 + SET_BITS_SIZE numbits);
    Some (Valid (MkNackFrag readerId writerId writerSN
                   (FragmentNumberSet base numbits (bswap_bitmap byteswap bits)) count)).
End Valid.

(** ** Inline QoS *)

(** [struct receiver_state]; [rst_id] stands for its address. *)
Record receiver_state : Type := ReceiverState {
  rst_id : Z;
  rst_src_guid_prefix : Z * Z * Z;
  rst_dst_guid_prefix : Z * Z * Z;
  rst_vendor : Z * Z;
  rst_protocol_version : Z * Z;
  rst_forme : bool;
}.

Definition vendor_is_opensplice (vid : Z * Z) : bool := (vid.1 =? 0x01) && (vid.2 =? 0x02).
Definition vendor_is_lite (vid : Z * Z) : bool := (vid.1 =? 0x01) && (vid.2 =? 0x0d).
Definition is_own_vendor (vid : Z * Z) : bool := (vid.1 =? 0x01) && (vid.2 =? 0x02).

Definition PID_PAD : Z := 0x0.
Definition PID_SENTINEL : Z := 0x1.
Definition PID_KEYHASH : Z := 0x70.
Definition PID_STATUSINFO : Z := 0x71.
Definition PID_PRISMTECH_WRITER_INFO : Z := Z.lor 0x8000 0x1.
(** [sizeof (nn_prismtech_writer_info_old_t)] *)
Definition SIZEOF_WRITER_INFO_OLD : Z := 28.

Implicit Types (info : rsample_info).

(** Assignments to fields of the sample info. *)
Definition set_qosinfo info (statusinfo pt_wr_info_zoff : Z) (complex_qos : bool) : rsample_info :=
  RsampleInfo (si_seq info) (si_rst info) (si_pwr info) (si_size info) (si_fragsize info) (si_timestamp info)
    (si_reception_timestamp info) statusinfo pt_wr_info_zoff (si_bswap info) complex_qos.
Definition set_complex_qos info : rsample_info :=
  set_qosinfo info (si_statusinfo info) (si_pt_wr_info_zoff info) true.
Definition set_bswap info (bswap : bool) : rsample_info :=
  RsampleInfo (si_seq info) (si_rst info) (si_pwr info) (si_size info) (si_fragsize info) (si_timestamp info)
    (si_reception_timestamp info) (si_statusinfo info) (si_pt_wr_info_zoff info) bswap (si_complex_qos info).
Definition set_size_of info (size : Z) : rsample_info :=
  RsampleInfo (si_seq info) (si_rst info) (si_pwr info) size (si_fragsize info) (si_timestamp info)
    (si_reception_timestamp info) (si_statusinfo info) (si_pt_wr_info_zoff info) (si_bswap info) (si_complex_qos info).
Definition set_origin info (seq rst pwr size fragsize : Z) : rsample_info :=
  RsampleInfo seq rst pwr size fragsize (si_timestamp info)
    (si_reception_timestamp info) (si_statusinfo info) (si_pt_wr_info_zoff info) (si_bswap info) (si_complex_qos info).

Section Data.
Context (cfg : ddsi_config).

Abbreviation le := (platform_is_little_endian cfg).
Implicit Types (b : list Z) (o size : Z) (byteswap : bool).

(** The loop of [nn_plist_quickscan]; [o] is [pl], the list ends at [bend], and
    [smoff] is where [b] starts in the message. *)
Fixpoint quickscan_loop (fuel : nat) (vendorid : Z * Z) b (smoff bend : Z) info o
  : option (validity (rsample_info * Z)) :=
  if o + 4 <=? bend then
    match fuel with
    | O => None
    | S fuel' =>
        pid ← field2 cfg (si_bswap info) b o; length ← field2 cfg (si_bswap info) b (o + 2);
        let o := o + 4 in
        if pid =? PID_SENTINEL then Some (Valid (info, o))
        else if length >? bend - o then Some Malformed
        else if negb (length mod 4 =? 0) then Some Malformed
        else if (pid =? PID_PAD) || (pid =? PID_KEYHASH) then
          quickscan_loop fuel' vendorid b smoff bend info (o + length)
        else if pid =? PID_STATUSINFO then
          if length <? 4 then Some Malformed
          else
            w ← get4u le b o;
            let stinfo := fromBE4u le w in
            stinfox ← (if (length <? 8) || negb (vendor_is_opensplice vendorid) then Some 0
                       else w ← get4u le b (o + 4); Some (fromBE4u le w));
            let complex := negb (Z.land stinfo (not32 3) =? 0) || negb (stinfox =? 0) in
            let info := set_qosinfo info (Z.land stinfo 3) (si_pt_wr_info_zoff info)
                          (complex || si_complex_qos info) in
            quickscan_loop fuel' vendorid b smoff bend info (o + length)
        else if pid =? PID_PRISMTECH_WRITER_INFO then
          if length <? SIZEOF_WRITER_INFO_OLD then Some Malformed
          else
            zoff ← NN_OFF_TO_ZOFF (smoff + o);
            quickscan_loop fuel' vendorid b smoff bend
              (set_qosinfo info (si_statusinfo info) zoff (si_complex_qos info)) (o + length)
        else quickscan_loop fuel' vendorid b smoff bend (set_complex_qos info) (o + length)
    end
  else Some Malformed.

(** The sample info and the offset of the byte after the list; every round
    takes 4 bytes at least.  [pl_le]: the encoding is [PL_CDR_LE]. *)
Definition nn_plist_quickscan info (vendorid : Z * Z) (pl_le : bool) b (smoff o bufsz : Z)
  : option (validity (rsample_info * Z)) :=
  let info := set_bswap (set_qosinfo info 0 0 false) (xorb pl_le le) in
  quickscan_loop (Z.to_nat bufsz) vendorid b smoff (o + bufsz) info o.

(** ** Data and DataFrag *)

(** [CDR_BE], [CDR_LE], [PL_CDR_BE], [PL_CDR_LE] as the platform reads them:
    the new [sampleinfo->bswap]. *)
Definition cdr_header_bswap (identifier : Z) : option bool :=
  if (identifier =? 0) || (identifier =? (if le then 0x0200 else 0x0002)) then Some le
  else if (identifier =? (if le then 0x0100 else 0x0001)) || (identifier =? (if le then 0x0300 else 0x0003))
  then Some (negb le)
  else None.

(** The fields that [Data_t] and [DataFrag_t] share. *)
Definition read_common byteswap b : option Data_DataFrag_common :=
  flags ← get1 b 1;
  extraFlags ← field2 cfg byteswap b 4; octetsToInlineQos ← field2 cfg byteswap b 6;
  writerSN ← fieldSN cfg byteswap b 16;
  readerId ← field_entityid cfg b 8; writerId ← field_entityid cfg b 12;
  Some (DataCommon flags extraFlags octetsToInlineQos readerId writerId writerSN).

(** [pwr_of] is [ephash_lookup_proxy_writer_guid] (0: not found); [smoff] is
    where the submessage starts in the packet; the result has the submessage,
    the sample info and the offset of the payload in the submessage ([None]: no
    payload). *)
Definition valid_Data (pwr_of : nn_guid -> Z) (rst : receiver_state) b (smoff size : Z) byteswap info
  : option (validity (Data_DataFrag_common * rsample_info * option Z)) :=
  if size <? 24 then Some Malformed else
  flags ← get1 b 1;
  if flag flags DATA_FLAG_DATAFLAG && flag flags DATA_FLAG_KEYFLAG then Some Malformed else
  x ← read_common byteswap b;
  let seq := fromSN (dx_writerSN x) in
  let info := set_origin info seq (rst_id rst)
                (pwr_of (NnGuid (rst_src_guid_prefix rst) (dx_writerId x))) (si_size info) 0 in
  if (seq <=? 0) && negb (seq =? NN_SEQUENCE_NUMBER_UNKNOWN) then Some Malformed
  else if negb (flag flags DATA_FLAG_INLINE_QOS || flag flags DATA_FLAG_DATAFLAG || flag flags DATA_FLAG_KEYFLAG)
  then Some (Valid (x, set_qosinfo (set_size_of info 0) 0 0 false, None))
  else if 6 + 2 + dx_octetsToInlineQos x + 4 >? size then Some Malformed
  else
    let ptr := 6 + 2 + dx_octetsToInlineQos x in
    r ← (if flag flags DATA_FLAG_INLINE_QOS
         then nn_plist_quickscan info (rst_vendor rst) (flag flags SMFLAG_ENDIANNESS) b smoff ptr (size - ptr)
         else Some (Valid (set_qosinfo info 0 0 false, ptr)));
    match r with
    | Malformed => Some Malformed
    | Valid (info, ptr) =>
        if negb (flag flags DATA_FLAG_DATAFLAG || flag flags DATA_FLAG_KEYFLAG)
        then Some (Valid (x, set_size_of info 0, None))
        else if ptr + 4 >? size then Some Malformed
        else
          identifier ← get2u le b ptr;
          match cdr_header_bswap identifier with
          | Some bswap => Some (Valid (x, set_bswap (set_size_of info (wrap_u 32 (size - ptr))) bswap, Some ptr))
          | None => Some Malformed
          end
    end.

Definition valid_DataFrag (pwr_of : nn_guid -> Z) (rst : receiver_state) b (smoff size : Z) byteswap info
  : option (validity (DataFrag * rsample_info * Z)) :=
  if size <? 36 then Some Malformed else
  flags ← get1 b 1;
  if buggy_datafrag_flags_mode cfg && (flag flags DATA_FLAG_DATAFLAG && flag flags DATA_FLAG_KEYFLAG)
  then Some Malformed else
  x ← read_common byteswap b;
  fragmentStartingNum ← field4 cfg byteswap b 24; fragmentsInSubmessage ← field2 cfg byteswap b 28;
  fragmentSize ← field2 cfg byteswap b 30; sampleSize ← field4 cfg byteswap b 32;
  let msg := MkDataFrag x fragmentStartingNum fragmentsInSubmessage fragmentSize sampleSize in
  if nn_strict_p cfg && (fragmentSize <=? 1024) && (fragmentSize <? fragment_size cfg) then Some Malformed
  else if (fragmentSize =? 0) || (fragmentStartingNum =? 0) || (fragmentsInSubmessage =? 0) then Some Malformed
  else if nn_strict_p cfg && (fragmentSize >=? sampleSize) then Some Malformed
  else if wrap_u 32 (wrap_u 32 (fragmentStartingNum + fragmentsInSubmessage - 2) * fragmentSize) >=? sampleSize
  then Some Malformed
  else
    let seq := fromSN (dx_writerSN x) in
    let info := set_origin info seq (rst_id rst)
                  (pwr_of (NnGuid (rst_src_guid_prefix rst) (dx_writerId x))) sampleSize fragmentSize in
    if (seq <=? 0) && negb (seq =? NN_SEQUENCE_NUMBER_UNKNOWN) then Some Malformed
    else if buggy_datafrag_flags_mode cfg && negb (flag flags DATA_FLAG_DATAFLAG || flag flags DATA_FLAG_KEYFLAG)
    then Some Malformed
    else if 6 + 2 + dx_octetsToInlineQos x + 4 >? size then Some Malformed
    else
      let ptr := 6 + 2 + dx_octetsToInlineQos x in
      r ← (if flag flags DATAFRAG_FLAG_INLINE_QOS
           then nn_plist_quickscan info (rst_vendor rst) (flag flags SMFLAG_ENDIANNESS) b smoff ptr (size - ptr)
           else Some (Valid (set_qosinfo info 0 0 false, ptr)));
      match r with
      | Malformed => Some Malformed
      | Valid (info, ptr) =>
          let payloadsz := wrap_u 32 (size - ptr) in
          if (fragmentsInSubmessage * fragmentSize >? payloadsz) &&
             (((fragmentsInSubmessage - 1) * fragmentSize >=? payloadsz) ||
              (wrap_u 32 (wrap_u 32 (wrap_u 32 (fragmentStartingNum - 1) * fragmentSize) + payloadsz) <? sampleSize))
          then Some Malformed
          else if fragmentStartingNum =? 1 then
            if ptr + 4 >? size then Some Malformed
            else
              identifier ← get2u le b ptr;
              match cdr_header_bswap identifier with
              | Some bswap => Some (Valid (msg, set_bswap info bswap, ptr))
              | None => Some Malformed
              end
          else Some (Valid (msg, info, ptr))
      end.
End Data.

(** The bytes [begin, endp1) of the sample that [handle_DataFrag] takes from a
    submessage of [size] bytes with its payload at [datap]. *)
Definition fragment_range (msg : DataFrag) (size datap : Z) : Z * Z :=
  let begin := wrap_u 32 (wrap_u 32 (df_fragmentStartingNum msg - 1) * df_fragmentSize msg) in
  let endp1 :=
    if df_fragmentSize msg * df_fragmentsInSubmessage msg >? size - datap
    then wrap_u 32 (begin + wrap_u 32 (size - datap))
    else wrap_u 32 (begin + df_fragmentSize msg * df_fragmentsInSubmessage msg) in
  (begin, if endp1 >? df_sampleSize msg then df_sampleSize msg else endp1).

(** ** Small functions on submessages *)

(** The words of the bitmap with a bit set within [numbits]. *)
Definition acknack_is_nack (msg : AckNack) : option bool :=
  let numbits := ss_numbits (an_readerSNState msg) in
  let bits := ss_bits (an_readerSNState msg) in
  if numbits =? 0 then Some false else
  let i := (bitset_words numbits - 1)%nat in
  let x := fold_left Z.lor (take i bits) 0 in
  let mask := if numbits mod 32 =? 0 then 2 ^ 32 - 1 else not32 (Z.shiftr (2 ^ 32 - 1) (numbits mod 32)) in
  w ← bits !! i;
  Some (negb (Z.lor x (Z.land w mask) =? 0)).

(** The result, [*exp_count] and [*t_last_accepted]. *)
Definition accept_ack_or_hb_w_timeout (new_count exp_count tnow t_last_accepted : Z) (force_accept : bool)
  : bool * Z * Z :=
  let timeout := 2 * T_SECOND in
  if (new_count <? exp_count) && (tnow - t_last_accepted <? timeout) && negb force_accept
  then (false, exp_count, t_last_accepted)
  else (true, wrap_s 32 (new_count + 1), tnow).
