(* ===== verification/ProtocolProps.v ===== *)
(** * The validation of submessages: what it accepts is what was sent

    No validator reads outside the submessage; in either byte order it
    returns the fields the sender wrote; a bitmap that passes is within the
    message; the fragments of a DataFrag that passes are in its payload; and what
    passes has the type of its submessage. *)

From Stdlib Require Import ZArith Lia.
From stdpp Require Import prelude.
From S2P Require Import Prelude Bitset Refs Defrag Reorder Rmsg Dqueue Time Wire Protocol.

Section Props.
Context (cfg : ddsi_config).

Abbreviation le := (platform_is_little_endian cfg).
Implicit Types (b : list Z) (o size : Z) (byteswap : bool).

(** ** Reads stay inside *)

Lemma field2_lt byteswap b o : 0 <= o -> o + 2 <= Z.of_nat (length b) -> exists x, field2 cfg byteswap b o = Some x.
Proof. intros H1 H2. unfold field2. destruct (get2u_lt le b o H1 H2) as [x ->]. by eexists. Qed.
Lemma field4_lt byteswap b o : 0 <= o -> o + 4 <= Z.of_nat (length b) -> exists x, field4 cfg byteswap b o = Some x.
Proof. intros H1 H2. unfold field4. destruct (get4u_lt le b o H1 H2) as [x ->]. by eexists. Qed.
Lemma field4s_lt byteswap b o : 0 <= o -> o + 4 <= Z.of_nat (length b) -> exists x, field4s cfg byteswap b o = Some x.
Proof. intros H1 H2. unfold field4s. destruct (get4u_lt le b o H1 H2) as [x ->]. by eexists. Qed.
Lemma fieldSN_lt byteswap b o : 0 <= o -> o + 8 <= Z.of_nat (length b) -> exists x, fieldSN cfg byteswap b o = Some x.
Proof.
  intros H1 H2. unfold fieldSN. destruct (get4u_lt le b o) as [x ->]; [lia..|].
  destruct (get4u_lt le b (o + 4)) as [y ->]; [lia..|]. by eexists.
Qed.
Lemma field_entityid_lt b o : 0 <= o -> o + 4 <= Z.of_nat (length b) -> exists x, field_entityid cfg b o = Some x.
Proof. intros H1 H2. unfold field_entityid. destruct (get4u_lt le b o H1 H2) as [x ->]. by eexists. Qed.
Lemma field_prefix_lt b o : 0 <= o -> o + 12 <= Z.of_nat (length b) -> exists x, field_prefix cfg b o = Some x.
Proof.
  intros H1 H2. unfold field_prefix. destruct (get4u_lt le b o) as [x ->]; [lia..|].
  destruct (get4u_lt le b (o + 4)) as [y ->]; [lia..|]. destruct (get4u_lt le b (o + 8)) as [z ->]; [lia..|]. by eexists.
Qed.

(** Runs the reads of a validator on bytes that are there. *)
Ltac in_bounds :=
  repeat match goal with
  | |- context [get1 ?b ?o ≫= _] => let x := fresh "v" in let E := fresh "E" in
      destruct (get1_lt b o) as [x E]; [lia|]; rewrite E; cbn [mbind option_bind]
  | |- context [get2u ?l ?b ?o ≫= _] => let x := fresh "v" in let E := fresh "E" in
      destruct (get2u_lt l b o) as [x E]; [lia..|]; rewrite E; cbn [mbind option_bind]
  | |- context [get4u ?l ?b ?o ≫= _] => let x := fresh "v" in let E := fresh "E" in
      destruct (get4u_lt l b o) as [x E]; [lia..|]; rewrite E; cbn [mbind option_bind]
  | |- context [field2 ?c ?s ?b ?o ≫= _] => let x := fresh "v" in let E := fresh "E" in
      destruct (field2_lt s b o) as [x E]; [lia..|]; rewrite E; cbn [mbind option_bind]
  | |- context [field4 ?c ?s ?b ?o ≫= _] => let x := fresh "v" in let E := fresh "E" in
      destruct (field4_lt s b o) as [x E]; [lia..|]; rewrite E; cbn [mbind option_bind]
  | |- context [field4s ?c ?s ?b ?o ≫= _] => let x := fresh "v" in let E := fresh "E" in
      destruct (field4s_lt s b o) as [x E]; [lia..|]; rewrite E; cbn [mbind option_bind]
  | |- context [fieldSN ?c ?s ?b ?o ≫= _] => let x := fresh "v" in let E := fresh "E" in
      destruct (fieldSN_lt s b o) as [x E]; [lia..|]; rewrite E; cbn [mbind option_bind]
  | |- context [field_entityid ?c ?b ?o ≫= _] => let x := fresh "v" in let E := fresh "E" in
      destruct (field_entityid_lt b o) as [x E]; [lia..|]; rewrite E; cbn [mbind option_bind]
  | |- context [field_prefix ?c ?b ?o ≫= _] => let x := fresh "v" in let E := fresh "E" in
      destruct (field_prefix_lt b o) as [x E]; [lia..|]; rewrite E; cbn [mbind option_bind]
  end.

(** The size of the bitmap is that of its words. *)
Lemma set_bits_size n : SET_BITS_SIZE n = 4 * Z.of_nat (bitset_words n).
Proof. done. Qed.

(** The words of a bitmap, within the size that was checked. *)
Ltac in_array :=
  match goal with |- context [get4u_array ?l ?b ?o ?n] =>
    let ws := fresh "ws" in let E := fresh "E" in let L := fresh "L" in
    destruct (get4u_array_lt l n b o) as (ws & E & L); [lia..|]; rewrite E; cbn [mbind option_bind]
  end.

Ltac size_check := match goal with |- context [?x <? ?y] => destruct (Z.ltb_spec x y); [by eexists|] end.

Lemma valid_AckNack_reads b size byteswap : size <= Z.of_nat (length b) -> exists r, valid_AckNack cfg b size byteswap = Some r.
Proof.
  intros Hs. unfold valid_AckNack. size_check. change (ACKNACK_SIZE 0) with 28 in *. in_bounds.
  destruct (negb _ && _); [by eexists|]. size_check. unfold ACKNACK_SIZE in *. rewrite set_bits_size in *.
  in_array.
  in_bounds. by eexists.
Qed.

Lemma valid_Gap_reads b size byteswap : size <= Z.of_nat (length b) -> exists r, valid_Gap cfg b size byteswap = Some r.
Proof.
  intros Hs. unfold valid_Gap. size_check. change (GAP_SIZE 0) with 32 in *. in_bounds.
  destruct (_ <=? 0); [by eexists|]. destruct (negb _ && _); [by eexists|]. size_check.
  unfold GAP_SIZE in *. rewrite set_bits_size in *.
  in_array. by eexists.
Qed.

Lemma valid_NackFrag_reads b size byteswap : size <= Z.of_nat (length b) -> exists r, valid_NackFrag cfg b size byteswap = Some r.
Proof.
  intros Hs. unfold valid_NackFrag. size_check. change (NACKFRAG_SIZE 0) with 32 in *. in_bounds.
  destruct (negb _); [by eexists|]. size_check. unfold NACKFRAG_SIZE in *. rewrite set_bits_size in *.
  in_array.
  in_bounds. by eexists.
Qed.

Lemma valid_Heartbeat_reads b size byteswap : size <= Z.of_nat (length b) -> exists r, valid_Heartbeat cfg b size byteswap = Some r.
Proof. intros Hs. unfold valid_Heartbeat. size_check. in_bounds. destruct (_ && _); by eexists. Qed.

Lemma valid_HeartbeatFrag_reads b size byteswap :
  size <= Z.of_nat (length b) -> exists r, valid_HeartbeatFrag cfg b size byteswap = Some r.
Proof. intros Hs. unfold valid_HeartbeatFrag. size_check. in_bounds. destruct (_ || _); by eexists. Qed.

Lemma valid_InfoDST_reads b size byteswap : size <= Z.of_nat (length b) -> exists r, valid_InfoDST cfg b size byteswap = Some r.
Proof. intros Hs. unfold valid_InfoDST. size_check. in_bounds. by eexists. Qed.

Lemma valid_InfoSRC_reads b size byteswap : size <= Z.of_nat (length b) -> exists r, valid_InfoSRC cfg b size byteswap = Some r.
Proof. intros Hs. unfold valid_InfoSRC. size_check. in_bounds. by eexists. Qed.

Lemma valid_InfoTS_reads b size byteswap :
  RTPS_SUBMESSAGE_HEADER_SIZE <= size <= Z.of_nat (length b) -> exists r, valid_InfoTS cfg b size byteswap = Some r.
Proof.
  unfold RTPS_SUBMESSAGE_HEADER_SIZE. intros Hs. unfold valid_InfoTS, RTPS_SUBMESSAGE_HEADER_SIZE.
  destruct (Z.leb_spec 4 size); [|lia]. cbn [negb]. in_bounds. destruct (flag _ _); [by eexists|].
  size_check. in_bounds. by eexists.
Qed.

Lemma valid_PT_InfoContainer_reads b size byteswap :
  size <= Z.of_nat (length b) -> exists r, valid_PT_InfoContainer cfg b size byteswap = Some r.
Proof. intros Hs. unfold valid_PT_InfoContainer. size_check. in_bounds. by eexists. Qed.

(** ** Inline QoS *)

Lemma off_to_zoff off : 0 <= off < 65536 -> off mod 4 = 0 -> NN_OFF_TO_ZOFF off = Some off.
Proof. intros Ho Hm. unfold NN_OFF_TO_ZOFF. rewrite Hm. by destruct (Z.ltb_spec off 65536); [|lia]. Qed.

(** The scan ends, inside the list, and leaves what identifies the sample. *)
Definition same_origin info info' : Prop :=
  si_seq info' = si_seq info /\ si_rst info' = si_rst info /\ si_pwr info' = si_pwr info /\
  si_size info' = si_size info /\ si_fragsize info' = si_fragsize info.

Definition scanned (r : validity (rsample_info * Z)) info (o bend : Z) : Prop :=
  match r with
  | Malformed => True
  | Valid (info', o') => o + 4 <= o' <= bend /\ o' mod 4 = o mod 4 /\ same_origin info info'
  end.

Lemma quickscan_loop_spec vendorid b smoff bend fuel : forall info o,
  bytes_ok b -> 0 <= smoff -> 0 <= o -> bend <= Z.of_nat (length b) -> smoff + bend <= 65536 -> (smoff + o) mod 4 = 0 ->
  bend - o < 4 * Z.of_nat fuel + 4 ->
  exists r, quickscan_loop cfg fuel vendorid b smoff bend info o = Some r /\ scanned r info o bend.
Proof.
  induction fuel as [|fuel IH]; intros info o Hb Hsm Ho Hend Hsz Hal Hf; cbn [quickscan_loop];
    (destruct (Z.leb_spec (o + 4) bend) as [Hin|Hout]; [|by eexists]); [lia|].
  assert (Hlen : exists pid len, field2 cfg (si_bswap info) b o = Some pid /\
            field2 cfg (si_bswap info) b (o + 2) = Some len /\ 0 <= len).
  { unfold field2. destruct (get2u_lt le b o) as [x E1]; [lia..|]. destruct (get2u_lt le b (o + 2)) as [y E2]; [lia..|].
    rewrite E1, E2. simpl. eexists _, _. split; [done|]. split; [done|].
    apply (get2u_range le) in E2; [|done]. destruct (si_bswap info); [|unfold in_u in E2; lia].
    apply half_split in E2 as (u & v & Hu & Hv & ->). rewrite bswap2u_half by done. unfold in_u in *. lia. }
  destruct Hlen as (pid & len & -> & -> & Hl). cbn [mbind option_bind].
  destruct (pid =? PID_SENTINEL); [eexists; split; [done|]; simpl; split; [lia|]; split; [|done]|].
  { rewrite <- Z.add_mod_idemp_r by lia. change (4 mod 4) with 0. by rewrite Z.add_0_r. }
  rewrite Z.gtb_ltb. destruct (Z.ltb_spec (bend - (o + 4)) len); [by eexists|].
  destruct (Z.eqb_spec (len mod 4) 0) as [Hm|]; [|by eexists]. cbn [negb].
  assert (Hmod : forall z, (z + (o + 4 + len)) mod 4 = (z + o) mod 4).
  { intros z. replace (z + (o + 4 + len)) with ((z + o) + (4 + len)) by lia.
    rewrite <- Z.add_mod_idemp_r by lia. replace ((4 + len) mod 4) with 0; [by rewrite Z.add_0_r|].
    rewrite <- Z.add_mod_idemp_r, Hm by lia. done. }
  assert (Hnext : forall info1, same_origin info info1 ->
    exists r, quickscan_loop cfg fuel vendorid b smoff bend info1 (o + 4 + len) = Some r /\ scanned r info o bend).
  { intros info1 H1. destruct (IH info1 (o + 4 + len)) as (r & E & Hr); auto; [lia|by rewrite Hmod|lia|].
    exists r. split; [done|]. destruct r as [|[info' o']]; [done|]. destruct Hr as (Hr1 & Hr2 & Hr3). split; [lia|].
    split; [|unfold same_origin in *; intuition congruence].
    rewrite Hr2. pose proof (Hmod 0) as H0. by rewrite !Z.add_0_l in H0. }
  destruct (_ || _); [by apply Hnext|]. destruct (pid =? PID_STATUSINFO).
  - destruct (Z.ltb_spec len 4); [by eexists|]. in_bounds.
    destruct ((len <? 8) || _) eqn:E8; cbn [mbind option_bind]; [by apply Hnext|].
    apply orb_false_iff in E8 as [E8%Z.ltb_ge _].
    destruct (get4u_lt le b (o + 4 + 4)) as [w ->]; [lia..|]. cbn [mbind option_bind]. by apply Hnext.
  - destruct (pid =? PID_PRISMTECH_WRITER_INFO); [|by apply Hnext].
    unfold SIZEOF_WRITER_INFO_OLD. destruct (Z.ltb_spec len 28); [by eexists|].
    rewrite off_to_zoff; [by apply Hnext|lia|].
    replace (smoff + (o + 4)) with (smoff + o + 4) by lia.
    rewrite <- Z.add_mod_idemp_l, Hal by lia. done.
Qed.

Lemma quickscan_spec info vendorid pl_le b smoff o bufsz :
  bytes_ok b -> 0 <= smoff -> 0 <= o -> 0 <= bufsz -> o + bufsz <= Z.of_nat (length b) -> smoff + (o + bufsz) <= 65536 ->
  (smoff + o) mod 4 = 0 ->
  exists r, nn_plist_quickscan cfg info vendorid pl_le b smoff o bufsz = Some r /\ scanned r info o (o + bufsz).
Proof.
  intros Hb Hsm Ho Hz Hl Hs Ha. unfold nn_plist_quickscan.
  destruct (quickscan_loop_spec vendorid b smoff (o + bufsz) (Z.to_nat bufsz)
              (set_bswap (set_qosinfo info 0 0 false) (xorb pl_le le)) o) as (r & E & Hr); auto; [lia|].
  exists r. split; [done|]. destruct r as [|[]]; [done|]. done.
Qed.

(** ** Data and DataFrag *)

Lemma fieldSN_range byteswap b o sn : bytes_ok b -> fieldSN cfg byteswap b o = Some sn ->
  in_s 32 (sn_high sn) /\ in_u 32 (sn_low sn).
Proof.
  intros Hb. unfold fieldSN. destruct (get4u le b o) as [x|] eqn:E1; [|done].
  destruct (get4u le b (o + 4)) as [y|] eqn:E2; [|done]. intros [= <-]. apply (get4u_range le) in E2; [|done].
  destruct byteswap; simpl; (split; [by apply wrap_s_range|]); [by apply bswap4u_range|done].
Qed.

Lemma field2_range byteswap b o x : bytes_ok b -> field2 cfg byteswap b o = Some x -> in_u 16 x.
Proof.
  intros Hb. unfold field2. destruct (get2u le b o) as [u|] eqn:E; [|done]. intros [= <-].
  apply (get2u_range le) in E; [|done]. destruct byteswap; [|done].
  apply half_split in E as (x & y & Hx & Hy & ->). rewrite bswap2u_half by done. unfold in_u in *. lia.
Qed.

Lemma field4_range byteswap b o x : bytes_ok b -> field4 cfg byteswap b o = Some x -> in_u 32 x.
Proof.
  intros Hb. unfold field4. destruct (get4u le b o) as [u|] eqn:E; [|done]. intros [= <-].
  apply (get4u_range le) in E; [|done]. destruct byteswap; [by apply bswap4u_range|done].
Qed.

Lemma read_common_lt byteswap b : 24 <= Z.of_nat (length b) -> exists x, read_common cfg byteswap b = Some x.
Proof. intros Hl. unfold read_common. in_bounds. by eexists. Qed.

Lemma read_common_octets byteswap b x : bytes_ok b -> read_common cfg byteswap b = Some x -> in_u 16 (dx_octetsToInlineQos x).
Proof.
  intros Hb. unfold read_common. destruct (get1 b 1); [|done]. destruct (field2 cfg byteswap b 4); [|done]. simpl.
  destruct (field2 cfg byteswap b 6) as [q|] eqn:E; [|done]. simpl.
  destruct (fieldSN cfg byteswap b 16); [|done]. simpl. destruct (field_entityid cfg b 8); [|done]. simpl.
  destruct (field_entityid cfg b 12); [|done]. intros [= <-]. simpl. by eapply field2_range.
Qed.

(** A submessage inside a packet of at most 64 kB whose inline QoS (or payload)
    starts at a multiple of 4, as [NN_OFF_TO_ZOFF] requires. *)
Record placed byteswap b (smoff size : Z) : Prop := {
  pl_bytes : bytes_ok b;
  pl_off : 0 <= smoff;
  pl_size : 0 <= size <= Z.of_nat (length b);
  pl_packet : smoff + size <= 65536;
  pl_align : forall x, read_common cfg byteswap b = Some x -> (smoff + (8 + dx_octetsToInlineQos x)) mod 4 = 0;
}.

Definition valid_seq (q : Z) : Prop := 0 < q \/ q = NN_SEQUENCE_NUMBER_UNKNOWN.

Lemma inline_qos_spec byteswap b smoff size rst flags f info x :
  placed byteswap b smoff size -> read_common cfg byteswap b = Some x ->
  8 + dx_octetsToInlineQos x + 4 <= size ->
  exists r,
    (if flag flags f
     then nn_plist_quickscan cfg info (rst_vendor rst) (flag flags SMFLAG_ENDIANNESS) b smoff
            (8 + dx_octetsToInlineQos x) (size - (8 + dx_octetsToInlineQos x))
     else Some (Valid (set_qosinfo info 0 0 false, 8 + dx_octetsToInlineQos x))) = Some r /\
    match r with
    | Malformed => True
    | Valid (info', o') => 8 <= o' <= size /\ (smoff + o') mod 4 = 0 /\ same_origin info info'
    end.
Proof.
  intros [Hb H0 Hs Hp Ha] Hx Hfit. pose proof (read_common_octets _ _ _ Hb Hx) as Hoct. unfold in_u in Hoct.
  specialize (Ha x Hx). destruct (flag flags f).
  - destruct (quickscan_spec info (rst_vendor rst) (flag flags SMFLAG_ENDIANNESS) b smoff
                (8 + dx_octetsToInlineQos x) (size - (8 + dx_octetsToInlineQos x))) as (r & E & Hr); auto; [lia..|].
    exists r. split; [done|]. destruct r as [|[info' o']]; [done|]. destruct Hr as (R1 & R2 & R3).
    split; [lia|]. split; [|done]. rewrite <- Z.add_mod_idemp_r, R2, Z.add_mod_idemp_r by lia. done.
  - eexists. split; [done|]. split; [lia|]. split; [done|]. done.
Qed.

Lemma valid_Data_spec pwr_of rst b smoff size byteswap info :
  placed byteswap b smoff size ->
  exists r, valid_Data cfg pwr_of rst b smoff size byteswap info = Some r /\
    match r with
    | Malformed => True
    | Valid (x, info', datap) =>
        read_common cfg byteswap b = Some x /\ si_seq info' = fromSN (dx_writerSN x) /\ valid_seq (si_seq info') /\
        si_pwr info' = pwr_of (NnGuid (rst_src_guid_prefix rst) (dx_writerId x)) /\ si_rst info' = rst_id rst /\
        match datap with
        | Some p => 8 <= p /\ p + 4 <= size /\ (smoff + p) mod 4 = 0 /\ si_size info' = size - p
        | None => si_size info' = 0
        end
    end.
Proof.
  intros Hpl. pose proof Hpl as [Hb H0 Hs Hp Ha]. unfold valid_Data. destruct (Z.ltb_spec size 24); [by eexists|].
  destruct (get1_lt b 1) as [flags ->]; [lia|]. cbn [mbind option_bind].
  destruct (flag flags DATA_FLAG_DATAFLAG && flag flags DATA_FLAG_KEYFLAG); [by eexists|].
  destruct (read_common_lt byteswap b) as [x Hx]; [lia|]. rewrite Hx. cbn [mbind option_bind]. cbv zeta.
  destruct ((fromSN (dx_writerSN x) <=? 0) && negb (fromSN (dx_writerSN x) =? NN_SEQUENCE_NUMBER_UNKNOWN)) eqn:Eseq; [by eexists|].
  assert (Hseq : valid_seq (fromSN (dx_writerSN x))).
  { apply andb_false_iff in Eseq as [E|E]; [left; by apply Z.leb_gt|right]. by apply negb_false_iff, Z.eqb_eq in E. }
  destruct (negb (flag flags DATA_FLAG_INLINE_QOS || _ || _)); [by eexists|].
  rewrite Z.gtb_ltb. destruct (Z.ltb_spec size (6 + 2 + dx_octetsToInlineQos x + 4)); [by eexists|].
  change (6 + 2) with 8.
  destruct (inline_qos_spec byteswap b smoff size rst flags DATA_FLAG_INLINE_QOS
    (set_origin info (fromSN (dx_writerSN x)) (rst_id rst)
       (pwr_of (NnGuid (rst_src_guid_prefix rst) (dx_writerId x))) (si_size info) 0) x Hpl Hx) as (r & -> & Hr); [lia|].
  cbn [mbind option_bind]. destruct r as [|[info' p]]; [by eexists|]. destruct Hr as (R1 & R2 & O1 & O2 & O3 & _).
  simpl in O1, O2, O3. destruct (negb (_ || _)); [eexists; split; [done|]; simpl; by rewrite O1, O2, O3|].
  rewrite Z.gtb_ltb. destruct (Z.ltb_spec size (p + 4)); [by eexists|]. destruct (get2u_lt le b p) as [id ->]; [lia..|].
  cbn [mbind option_bind]. destruct (cdr_header_bswap cfg id) as [bs|]; [|by eexists].
  eexists. split; [done|]. simpl. rewrite O1, O2, O3. repeat (split; [done|]). split; [lia|]. split; [lia|]. split; [done|]. nowrap.
Qed.

(** The arithmetic on the fragment numbers stays within 32 bits. *)
Definition fits32 (msg : DataFrag) : Prop :=
  (df_fragmentStartingNum msg + df_fragmentsInSubmessage msg - 2) * df_fragmentSize msg < 2 ^ 32 /\
  df_sampleSize msg <= 2 ^ 32 - 2 ^ 16.

(** What a DataFrag says: fragments [start] to [start + n - 1] of [fragsize]
    bytes, of which the last may be short. *)
Definition claimed_range (msg : DataFrag) : Z * Z :=
  ((df_fragmentStartingNum msg - 1) * df_fragmentSize msg,
   Z.min ((df_fragmentStartingNum msg + df_fragmentsInSubmessage msg - 1) * df_fragmentSize msg) (df_sampleSize msg)).

Record datafrag_ok (msg : DataFrag) (size datap : Z) : Prop := {
  dk_start : 1 <= df_fragmentStartingNum msg < 2 ^ 32;
  dk_n : 1 <= df_fragmentsInSubmessage msg < 2 ^ 16;
  dk_size : 1 <= df_fragmentSize msg < 2 ^ 16;
  dk_sample : 0 <= df_sampleSize msg < 2 ^ 32;
  dk_payload : 0 <= size - datap < 2 ^ 32;
  dk_last : wrap_u 32 (wrap_u 32 (df_fragmentStartingNum msg + df_fragmentsInSubmessage msg - 2) * df_fragmentSize msg) < df_sampleSize msg;
  dk_fit : df_fragmentsInSubmessage msg * df_fragmentSize msg <= size - datap \/
    (df_fragmentsInSubmessage msg - 1) * df_fragmentSize msg < size - datap /\
    df_sampleSize msg <= wrap_u 32 (wrap_u 32 (wrap_u 32 (df_fragmentStartingNum msg - 1) * df_fragmentSize msg) + (size - datap));
}.

(** Unless the arithmetic overflows, the bytes taken from the payload are the
    fragments the submessage says it has, they are in the submessage, and in the
    sample. *)
Lemma fragment_range_spec msg size datap :
  datafrag_ok msg size datap -> fits32 msg ->
  fragment_range msg size datap = claimed_range msg /\
  0 <= (claimed_range msg).1 < (claimed_range msg).2 /\ (claimed_range msg).2 <= df_sampleSize msg /\
  (claimed_range msg).2 - (claimed_range msg).1 <= size - datap.
Proof.
  destruct msg as [x start n fs ss]. intros [D1 D2 D3 D4 D5 D6 D7] [F1 F2]. simpl in *.
  unfold fragment_range, claimed_range. simpl. change (2 ^ 16) with 65536 in *. change (2 ^ 32) with 4294967296 in *.
  assert (L : (start - 1) * fs <= (start + n - 2) * fs) by nia.
  assert (B0 : 0 <= (start - 1) * fs) by nia.
  assert (W1 : wrap_u 32 (start - 1) = start - 1) by nowrap.
  assert (Hs2 : start + n - 2 < 4294967296) by nia.
  assert (W2 : wrap_u 32 (start + n - 2) = start + n - 2) by nowrap.
  rewrite W1 in *. rewrite W2 in D6.
  assert (W3 : wrap_u 32 ((start + n - 2) * fs) = (start + n - 2) * fs) by nowrap.
  assert (W4 : wrap_u 32 ((start - 1) * fs) = (start - 1) * fs) by nowrap.
  rewrite W4 in *. rewrite W3 in D6.
  assert (E1 : (start + n - 1) * fs = (start + n - 2) * fs + fs) by lia.
  assert (E2 : (start - 1) * fs + fs * n = (start + n - 1) * fs) by lia.
  assert (E3 : (n - 1) * fs = n * fs - fs) by lia. assert (E4 : (start + n - 2) * fs = (start - 1) * fs + (n - 1) * fs) by lia.
  rewrite (Z.gtb_ltb (fs * n)), Z.gtb_ltb. replace (fs * n) with (n * fs) in * by lia.
  set (A := (start - 1) * fs) in *. set (B := (start + n - 2) * fs) in *. set (C := n * fs) in *.
  destruct D7 as [Hfit|[Hshort Hcov]].
  - destruct (Z.ltb_spec (size - datap) C); [lia|].
    assert (W5 : wrap_u 32 (A + C) = A + C) by nowrap. rewrite W5, E1.
    split; [f_equal; zcases|lia].
  - destruct (Z.ltb_spec (size - datap) C) as [Hs|Hs].
    + assert (W5 : wrap_u 32 (size - datap) = size - datap) by nowrap. rewrite W5.
      assert (W6 : wrap_u 32 (A + (size - datap)) = A + (size - datap)) by nowrap.
      rewrite W6 in *. rewrite E1. split; [f_equal; zcases|lia].
    + assert (W5 : wrap_u 32 (A + C) = A + C) by nowrap. rewrite W5, E1. split; [f_equal; zcases|lia].
Qed.

(** What is known of a DataFrag that passes. *)
Definition datafrag_valid (pwr_of : nn_guid -> Z) (rst : receiver_state) b (smoff size : Z) byteswap
    (r : validity (DataFrag * rsample_info * Z)) : Prop :=
  match r with
  | Malformed => True
  | Valid (msg, info', p) =>
      read_common cfg byteswap b = Some (df_x msg) /\ si_seq info' = fromSN (dx_writerSN (df_x msg)) /\
      valid_seq (si_seq info') /\
      si_pwr info' = pwr_of (NnGuid (rst_src_guid_prefix rst) (dx_writerId (df_x msg))) /\ si_rst info' = rst_id rst /\
      si_size info' = df_sampleSize msg /\ si_fragsize info' = df_fragmentSize msg /\
      8 <= p <= size /\ (smoff + p) mod 4 = 0 /\ datafrag_ok msg size p
  end.

Lemma valid_DataFrag_spec pwr_of rst b smoff size byteswap info :
  placed byteswap b smoff size ->
  exists r, valid_DataFrag cfg pwr_of rst b smoff size byteswap info = Some r /\
    datafrag_valid pwr_of rst b smoff size byteswap r.
Proof.
  intros Hpl. pose proof Hpl as [Hb H0 Hs Hp Ha]. unfold valid_DataFrag. destruct (Z.ltb_spec size 36); [by eexists|].
  destruct (get1_lt b 1) as [flags ->]; [lia|]. cbn [mbind option_bind].
  destruct (buggy_datafrag_flags_mode cfg && (_ && _)); [by eexists|].
  destruct (read_common_lt byteswap b) as [x Hx]; [lia|]. rewrite Hx. cbn [mbind option_bind].
  destruct (field4_lt byteswap b 24) as [start E1]; [lia..|]. destruct (field2_lt byteswap b 28) as [n E2]; [lia..|].
  destruct (field2_lt byteswap b 30) as [fs E3]; [lia..|]. destruct (field4_lt byteswap b 32) as [ss E4]; [lia..|].
  rewrite E1, E2, E3, E4. cbn [mbind option_bind]. cbv zeta.
  apply field4_range in E1, E4; [|done..]. apply field2_range in E2, E3; [|done..]. unfold in_u in *.
  destruct (nn_strict_p cfg && _ && _); [by eexists|].
  destruct ((fs =? 0) || (start =? 0) || (n =? 0)) eqn:Ez; [by eexists|].
  apply orb_false_iff in Ez as [[Ez1%Z.eqb_neq Ez2%Z.eqb_neq]%orb_false_iff Ez3%Z.eqb_neq].
  destruct (nn_strict_p cfg && _); [by eexists|]. rewrite Z.geb_leb.
  destruct (Z.leb_spec ss (wrap_u 32 (wrap_u 32 (start + n - 2) * fs))) as [|Hlast]; [by eexists|].
  destruct ((fromSN (dx_writerSN x) <=? 0) && negb (fromSN (dx_writerSN x) =? NN_SEQUENCE_NUMBER_UNKNOWN)) eqn:Eseq; [by eexists|].
  assert (Hseq : valid_seq (fromSN (dx_writerSN x))).
  { apply andb_false_iff in Eseq as [E|E]; [left; by apply Z.leb_gt|right]. by apply negb_false_iff, Z.eqb_eq in E. }
  clear Eseq.
  destruct (buggy_datafrag_flags_mode cfg && negb _); [by eexists|].
  rewrite Z.gtb_ltb. destruct (Z.ltb_spec size (6 + 2 + dx_octetsToInlineQos x + 4)); [by eexists|].
  change (6 + 2) with 8.
  destruct (inline_qos_spec byteswap b smoff size rst flags DATAFRAG_FLAG_INLINE_QOS
    (set_origin info (fromSN (dx_writerSN x)) (rst_id rst)
       (pwr_of (NnGuid (rst_src_guid_prefix rst) (dx_writerId x))) ss fs) x Hpl Hx) as (r & -> & Hr); [lia|].
  cbn [mbind option_bind]. destruct r as [|[info' p]]; [by eexists|]. destruct Hr as (R1 & R2 & O1 & O2 & O3 & O4 & O5).
  simpl in O1, O2, O3, O4, O5. assert (Wp : wrap_u 32 (size - p) = size - p) by nowrap. rewrite Wp.
  destruct (_ && _) eqn:Efit; [by eexists|].
  assert (Hok : datafrag_ok (MkDataFrag x start n fs ss) size p).
  { split; simpl; auto; [lia..|]. apply andb_false_iff in Efit as [E|E].
    - left. rewrite Z.gtb_ltb in E. apply Z.ltb_ge in E. lia.
    - apply orb_false_iff in E as [Ea Eb]. rewrite Z.geb_leb in Ea. apply Z.leb_gt in Ea. apply Z.ltb_ge in Eb. right. lia. }
  assert (Hval : forall info2, same_origin info' info2 -> exists r,
    Some (Valid (MkDataFrag x start n fs ss, info2, p)) = Some r /\
    datafrag_valid pwr_of rst b smoff size byteswap r).
  { intros info2 (S1 & S2 & S3 & S4 & S5). eexists. split; [done|]. unfold datafrag_valid. cbn [df_x df_sampleSize df_fragmentSize].
    rewrite S1, S2, S3, S4, S5, O1, O2, O3, O4, O5. by repeat (split; [done|]). }
  destruct (Z.eqb_spec start 1); [|by apply Hval].
  rewrite Z.gtb_ltb. destruct (Z.ltb_spec size (p + 4)); [by eexists|]. destruct (get2u_lt le b p) as [id ->]; [lia..|].
  cbn [mbind option_bind]. destruct (cdr_header_bswap cfg id) as [bs|]; [|by eexists]. by apply Hval.
Qed.
End Props.

(** ** The types of submessages that pass validation

    What the handlers may rely on: every field of a submessage that the
    validators pass has the range of its C type, and the sets have as many
    words as their number of bits needs. *)

(** Fields. *)
Definition sn_ok (sn : sequence_number) : Prop := in_s 32 (sn_high sn) /\ in_u 32 (sn_low sn).
Definition entityid_ok (id : Z) : Prop := in_u 32 id.

(** A sequence number is 64 bits wide. *)
Lemma sn_range sn : sn_ok sn -> - 2 ^ 63 <= fromSN sn < 2 ^ 63.
Proof. intros [Hh Hl]. unfold in_s, in_u, fromSN in *. rewrite Z.shiftl_mul_pow2, Z.lor_comm, lor_add by lia. lia. Qed.

(** A set: at most 256 bits in exactly the words they need. *)
Record set_ok (numbits : Z) (bits : list Z) : Prop := {
  so_few : 0 <= numbits <= 256;
  so_words : length bits = bitset_words numbits;
  so_ok : bits_ok numbits bits;
}.

Record gap_ok (msg : Gap) : Prop := {
  gk_ids : entityid_ok (gp_readerId msg) /\ entityid_ok (gp_writerId msg);
  gk_sn : sn_ok (gp_gapStart msg) /\ sn_ok (ss_bitmap_base (gp_gapList msg));
  gk_start : 0 < fromSN (gp_gapStart msg);
  gk_set : set_ok (ss_numbits (gp_gapList msg)) (ss_bits (gp_gapList msg));
  gk_base : 0 < ss_numbits (gp_gapList msg) -> 0 < fromSN (ss_bitmap_base (gp_gapList msg));
}.

Record acknack_ok (msg : AckNack) : Prop := {
  ak_ids : entityid_ok (an_readerId msg) /\ entityid_ok (an_writerId msg);
  ak_sn : sn_ok (ss_bitmap_base (an_readerSNState msg));
  ak_set : set_ok (ss_numbits (an_readerSNState msg)) (ss_bits (an_readerSNState msg));
  ak_base : 0 < ss_numbits (an_readerSNState msg) -> 0 < fromSN (ss_bitmap_base (an_readerSNState msg));
  ak_count : in_s 32 (an_count msg);
}.

Record nackfrag_ok (msg : NackFrag) : Prop := {
  nk_ids : entityid_ok (nf_readerId msg) /\ entityid_ok (nf_writerId msg);
  nk_sn : sn_ok (nf_writerSN msg);
  nk_set : set_ok (fn_numbits (nf_fragmentNumberState msg)) (fn_bits (nf_fragmentNumberState msg));
  nk_base : 1 <= fn_bitmap_base (nf_fragmentNumberState msg) < 2 ^ 32 /\ 1 <= fn_numbits (nf_fragmentNumberState msg);
  nk_count : in_s 32 (nf_count msg);
}.

(** An empty heartbeat has [firstSN = lastSN + 1], a sum of 64 bits. *)
Record heartbeat_ok (msg : Heartbeat) : Prop := {
  hk_ids : entityid_ok (hb_readerId msg) /\ entityid_ok (hb_writerId msg);
  hk_sn : sn_ok (hb_firstSN msg) /\ sn_ok (hb_lastSN msg);
  hk_range : 0 < fromSN (hb_firstSN msg) <= fromSN (hb_lastSN msg) \/
             fromSN (hb_firstSN msg) = wrap_s 64 (fromSN (hb_lastSN msg) + 1);
  hk_count : in_s 32 (hb_count msg);
}.

Record heartbeatfrag_ok (msg : HeartbeatFrag) : Prop := {
  hfk_ids : entityid_ok (hf_readerId msg) /\ entityid_ok (hf_writerId msg);
  hfk_sn : sn_ok (hf_writerSN msg) /\ 0 < fromSN (hf_writerSN msg);
  hfk_last : 1 <= hf_lastFragmentNum msg < 2 ^ 32;
  hfk_count : in_s 32 (hf_count msg);
}.

(** A sample in a packet of [plen] bytes: the submessage is at [smoff], its
    payload, if any, at [datap] in it. *)
Record data_ok (plen smoff size : Z) (info : rsample_info) (datap : option Z) : Prop := {
  da_off : 0 <= smoff /\ smoff mod 4 = 0;
  da_end : smoff + size <= plen;
  da_seq : valid_seq (si_seq info);
  da_payload : match datap with
               | Some p => 8 <= p /\ p + 4 <= size /\ (smoff + p) mod 4 = 0 /\ si_size info = size - p
               | None => 0 <= size /\ size mod 4 = 0 /\ si_size info = 0
               end;
}.

(** Fragments of a sample in a packet. *)
Record frag_ok (plen smoff size : Z) (msg : DataFrag) (info : rsample_info) (datap : Z) : Prop := {
  fa_off : 0 <= smoff /\ smoff mod 4 = 0;
  fa_end : smoff + size <= plen;
  fa_seq : valid_seq (si_seq info);
  fa_size : si_size info = df_sampleSize msg /\ si_fragsize info = df_fragmentSize msg;
  fa_payload : 8 <= datap <= size /\ (smoff + datap) mod 4 = 0;
  fa_range : datafrag_ok msg size datap;
}.

Section Types.
Context (cfg : ddsi_config).
Implicit Types (b : list Z) (size : Z) (byteswap : bool).

Lemma field4s_range byteswap b o x : field4s cfg byteswap b o = Some x -> in_s 32 x.
Proof.
  unfold field4s. destruct (get4u _ b o) as [u|]; [|done]. intros [= <-].
  destruct byteswap; [unfold bswap4|]; by apply wrap_s_range.
Qed.

Lemma entityid_range b o x : bytes_ok b -> field_entityid cfg b o = Some x -> entityid_ok x.
Proof.
  intros Hb. unfold field_entityid, entityid_ok, nn_ntoh_entityid. destruct (get4u _ b o) as [u|] eqn:E; [|done]. intros [= <-].
  apply (get4u_range (platform_is_little_endian cfg)) in E; [|done]. unfold fromBE4u. destruct (platform_is_little_endian cfg); [by apply bswap4u_range|done].
Qed.

Lemma get4u_array_range n : forall b o ws, bytes_ok b -> get4u_array (platform_is_little_endian cfg) b o n = Some ws ->
  length ws = n /\ Forall word_ok ws.
Proof.
  induction n as [|n IH]; intros b o ws Hb; simpl; [by intros [= <-]|].
  destruct (get4u _ b o) as [w|] eqn:E; [|done]. simpl. destruct (get4u_array _ b (o + 4) n) as [ws'|] eqn:E'; [|done].
  intros [= <-]. destruct (IH b (o + 4) ws' Hb E') as [<- Hf]. split; [done|]. constructor; [by eapply get4u_range|done].
Qed.

Lemma bitmap_ok byteswap b o n ws : bytes_ok b -> 0 <= n <= 256 ->
  get4u_array (platform_is_little_endian cfg) b o (bitset_words n) = Some ws -> set_ok n (bswap_bitmap byteswap ws).
Proof.
  intros Hb Hn E. apply get4u_array_range in E as [Hl Hf]; [|done].
  assert (Hl2 : length (bswap_bitmap byteswap ws) = bitset_words n) by (unfold bswap_bitmap; destruct byteswap; by rewrite ?length_map).
  assert (Hf2 : Forall word_ok (bswap_bitmap byteswap ws)).
  { unfold bswap_bitmap. destruct byteswap; [|done]. apply Forall_map. eapply Forall_impl; [exact Hf|]. intros w Hw. by apply bswap4u_range. }
  split; auto. split; [lia|]. split; [done|]. rewrite Hl2, bitset_words_eq by lia.
  pose proof (Z.div_mod (n + 31) 32). pose proof (Z.mod_pos_bound (n + 31) 32). lia.
Qed.

(** The conditions on a set of sequence numbers. *)
Lemma snset_ok strict base numbits : in_u 32 numbits ->
  negb (valid_sequence_number_set (SequenceNumberSet base numbits [])) && (strict || negb (numbits =? 0)) = false ->
  0 <= numbits <= 256 /\ (0 < numbits -> 0 < fromSN base).
Proof.
  unfold valid_sequence_number_set, in_u. simpl. rewrite Z.gtb_ltb. intros Hn.
  destruct (Z.leb_spec (fromSN base) 0), (Z.leb_spec numbits 0), (Z.ltb_spec 256 numbits), (Z.eqb_spec numbits 0), strict; simpl; intros E; try done; lia.
Qed.

(** Takes the reads of a validator apart. *)
Ltac reads H :=
  repeat match type of H with
  | (if ?c then Some Malformed else _) = _ => let E := fresh "Ec" in destruct c eqn:E; [by simplify_eq|]
  | ?m ≫= _ = Some _ => let x := fresh "v" in let E := fresh "E" in destruct m as [x|] eqn:E; [|done]; cbn [mbind option_bind] in H
  end.
#[local] Hint Resolve fieldSN_range entityid_range field4s_range field4_range : core.

Lemma gap_typed b size byteswap msg : bytes_ok b -> valid_Gap cfg b size byteswap = Some (Valid msg) -> gap_ok msg.
Proof.
  intros Hb H. unfold valid_Gap in H. reads H. simplify_eq. apply Z.leb_gt in Ec0.
  apply field4_range in E1; [|done]. destruct (snset_ok _ _ _ E1 Ec1) as [Hn Hbase].
  split; simpl; eauto; [split; eapply fieldSN_range; eauto|]. by eapply bitmap_ok.
Qed.

Lemma acknack_typed b size byteswap msg : bytes_ok b -> valid_AckNack cfg b size byteswap = Some (Valid msg) -> acknack_ok msg.
Proof.
  intros Hb H. unfold valid_AckNack in H. reads H. simplify_eq.
  apply field4_range in E1; [|done]. destruct (snset_ok _ _ _ E1 Ec0) as [Hn Hbase].
  split; simpl; eauto; [eapply fieldSN_range; eauto|]. by eapply bitmap_ok.
Qed.

Lemma nackfrag_typed b size byteswap msg : bytes_ok b -> valid_NackFrag cfg b size byteswap = Some (Valid msg) -> nackfrag_ok msg.
Proof.
  intros Hb H. unfold valid_NackFrag in H. reads H. simplify_eq.
  apply field4_range in E0, E1; [|done..]. apply negb_false_iff in Ec0. unfold valid_fragment_number_set, in_u in *. simpl in Ec0.
  rewrite Z.gtb_ltb in Ec0. destruct (Z.leb_spec v0 0), (Z.leb_spec v1 0), (Z.ltb_spec 256 v1); try done.
  split; simpl; eauto; [eapply fieldSN_range; eauto|..|lia]. eapply bitmap_ok; eauto. lia.
Qed.

Lemma heartbeat_typed b size byteswap msg : bytes_ok b -> valid_Heartbeat cfg b size byteswap = Some (Valid msg) -> heartbeat_ok msg.
Proof.
  intros Hb H. unfold valid_Heartbeat in H. reads H. simplify_eq. apply andb_false_iff in Ec0.
  assert (0 < fromSN v0 <= fromSN v1 \/ fromSN v0 = wrap_s 64 (fromSN v1 + 1)).
  { rewrite !orb_false_iff, negb_false_iff, Z.leb_gt, Z.ltb_ge, Z.eqb_eq in Ec0. destruct Ec0 as [|[_ ?]]; [left; lia|by right]. }
  split; simpl; eauto. split; eapply fieldSN_range; eauto.
Qed.

Lemma heartbeatfrag_typed b size byteswap msg :
  bytes_ok b -> valid_HeartbeatFrag cfg b size byteswap = Some (Valid msg) -> heartbeatfrag_ok msg.
Proof.
  intros Hb H. unfold valid_HeartbeatFrag in H. reads H. simplify_eq. apply orb_false_iff in Ec0 as [S%Z.leb_gt L%Z.eqb_neq].
  apply field4_range in E0; [|done]. unfold in_u in E0.
  split; simpl; eauto; [|lia]. split; [eapply fieldSN_range; eauto|done].
Qed.

End Types.
