(* ===== verification/ProtocolRound.v ===== *)
(** * Submessages survive the wire

    A sender writes its structs in its own byte order ([e]: little-endian) and
    says so in the flags; the [encode_*] functions are these layouts
    ([q_protocol.h]; entity ids always go in network order).  Whatever the byte
    orders of the two sides, the validators give back what was written. *)

From Stdlib Require Import ZArith Lia.
From stdpp Require Import prelude.
From S2P Require Import Prelude Bitset Refs Defrag Reorder Dqueue Time Wire Protocol ProtocolProps.

Implicit Types (e : bool).

Definition encode_header e (id flags len : Z) : list Z := [id; flags] ++ bytes2 e len.
Definition encode_entityid (x : Z) : list Z := bytes4 false x.
Definition encodeSN e (sn : sequence_number) : list Z := bytes4 e (wrap_u 32 (sn_high sn)) ++ bytes4 e (sn_low sn).
Definition encode_count e (c : Z) : list Z := bytes4 e (wrap_u 32 c).
Fixpoint encode_bits e (bits : list Z) : list Z :=
  match bits with [] => [] | w :: bits' => bytes4 e w ++ encode_bits e bits' end.

Definition encode_Heartbeat e (len : Z) (m : Heartbeat) : list Z :=
  encode_header e SMID_HEARTBEAT (hb_flags m) len ++ encode_entityid (hb_readerId m) ++ encode_entityid (hb_writerId m) ++
  encodeSN e (hb_firstSN m) ++ encodeSN e (hb_lastSN m) ++ encode_count e (hb_count m).

Definition encode_HeartbeatFrag e (flags len : Z) (m : HeartbeatFrag) : list Z :=
  encode_header e SMID_HEARTBEAT_FRAG flags len ++ encode_entityid (hf_readerId m) ++ encode_entityid (hf_writerId m) ++
  encodeSN e (hf_writerSN m) ++ bytes4 e (hf_lastFragmentNum m) ++ encode_count e (hf_count m).

Definition encode_Gap e (flags len : Z) (m : Gap) : list Z :=
  encode_header e SMID_GAP flags len ++ encode_entityid (gp_readerId m) ++ encode_entityid (gp_writerId m) ++
  encodeSN e (gp_gapStart m) ++ encodeSN e (ss_bitmap_base (gp_gapList m)) ++ bytes4 e (ss_numbits (gp_gapList m)) ++
  encode_bits e (ss_bits (gp_gapList m)).

Definition encode_AckNack e (len : Z) (m : AckNack) : list Z :=
  encode_header e SMID_ACKNACK (an_flags m) len ++ encode_entityid (an_readerId m) ++ encode_entityid (an_writerId m) ++
  encodeSN e (ss_bitmap_base (an_readerSNState m)) ++ bytes4 e (ss_numbits (an_readerSNState m)) ++
  encode_bits e (ss_bits (an_readerSNState m)) ++ encode_count e (an_count m).

Definition encode_NackFrag e (flags len : Z) (m : NackFrag) : list Z :=
  encode_header e SMID_NACK_FRAG flags len ++ encode_entityid (nf_readerId m) ++ encode_entityid (nf_writerId m) ++
  encodeSN e (nf_writerSN m) ++ bytes4 e (fn_bitmap_base (nf_fragmentNumberState m)) ++
  bytes4 e (fn_numbits (nf_fragmentNumberState m)) ++ encode_bits e (fn_bits (nf_fragmentNumberState m)) ++
  encode_count e (nf_count m).

(** The values a C field of the type can have. *)
Definition sn_wf (sn : sequence_number) : Prop := in_s 32 (sn_high sn) /\ in_u 32 (sn_low sn).
Definition bits_wf (numbits : Z) (bits : list Z) : Prop :=
  in_u 32 numbits /\ length bits = bitset_words numbits /\ Forall (in_u 32) bits.

Section Round.
Context (cfg : ddsi_config) (e : bool).

Abbreviation le := (platform_is_little_endian cfg).
Abbreviation swap := (xorb e le).

(** ** Skipping fields *)

Lemma get1_skip p b o n : n = Z.of_nat (length p) -> n <= o -> get1 (p ++ b) o = get1 b (o - n).
Proof.
  intros -> Ho. unfold get1. destruct (Z.leb_spec 0 o), (Z.leb_spec 0 (o - Z.of_nat (length p))); try lia.
  rewrite lookup_app_r by lia. f_equal. lia.
Qed.

Lemma get2u_skip p b o n : n = Z.of_nat (length p) -> n <= o -> get2u le (p ++ b) o = get2u le b (o - n).
Proof.
  intros Hn Ho. unfold get2u. rewrite !(get1_skip p b _ n) by (done || lia).
  by replace (o + 1 - n) with (o - n + 1) by lia.
Qed.

Lemma get4u_skip p b o n : n = Z.of_nat (length p) -> n <= o -> get4u le (p ++ b) o = get4u le b (o - n).
Proof.
  intros Hn Ho. unfold get4u. rewrite !(get1_skip p b _ n) by (done || lia).
  by replace (o + 1 - n) with (o - n + 1) by lia; replace (o + 2 - n) with (o - n + 2) by lia;
    replace (o + 3 - n) with (o - n + 3) by lia.
Qed.

Lemma get4u_array_skip k : forall p b o n, n = Z.of_nat (length p) -> n <= o ->
  get4u_array le (p ++ b) o k = get4u_array le b (o - n) k.
Proof.
  induction k as [|k IH]; intros p b o n Hn Ho; [done|]. simpl. rewrite (get4u_skip p b o n) by done.
  destruct (get4u le b (o - n)); [|done]. simpl. rewrite (IH p b (o + 4) n) by (done || lia).
  by replace (o + 4 - n) with (o - n + 4) by lia.
Qed.

Lemma len4 f x : length (bytes4 f x) = 4%nat.
Proof. by destruct f. Qed.
Lemma len2 f x : length (bytes2 f x) = 2%nat.
Proof. by destruct f. Qed.

(** ** Reading one field at the front *)

Lemma swap_swap (x y : Z) : (if swap then x else y) = if Bool.eqb e le then y else x.
Proof. by destruct e, le. Qed.

Lemma field4_front x b : in_u 32 x -> field4 cfg swap (bytes4 e x ++ b) 0 = Some x.
Proof.
  intros Hx. unfold field4. pose proof (get4u_bytes le e [] x b 0 Hx eq_refl) as E. simpl in E. rewrite E.
  cbn [mbind option_bind]. rewrite swap_swap. destruct (Bool.eqb e le); [done|]. by rewrite bswap4u_inv.
Qed.

Lemma field4s_front c b : in_s 32 c -> field4s cfg swap (encode_count e c ++ b) 0 = Some c.
Proof.
  intros Hc. unfold field4s, encode_count. pose proof (wrap_u_range 32 c ltac:(lia)) as Hw.
  pose proof (get4u_bytes le e [] (wrap_u 32 c) b 0 Hw eq_refl) as E. simpl in E. rewrite E.
  cbn [mbind option_bind]. rewrite swap_swap. f_equal.
  assert (U : forall x, in_u 32 x -> wrap_u 32 (wrap_s 32 x) = x).
  { intros x Hx. unfold wrap_u, wrap_s, in_u in *. rewrite (Z.mod_small x) by done.
    destruct (Z.ltb_spec x (2 ^ (32 - 1))); [by apply Z.mod_small|].
    symmetry. apply Z.mod_unique with (-1); [left|]; lia. }
  assert (V : wrap_s 32 (wrap_u 32 c) = c).
  { rewrite <- (wrap_s_small 32 c) at 2 by (done || lia). unfold wrap_s, wrap_u. by rewrite Z.mod_mod by lia. }
  destruct (Bool.eqb e le); [done|]. unfold bswap4. rewrite U by (by apply bswap4u_range). by rewrite bswap4u_inv.
Qed.

Lemma fieldSN_front sn b : sn_wf sn -> fieldSN cfg swap (encodeSN e sn ++ b) 0 = Some sn.
Proof.
  intros [Hh Hl]. pose proof (field4s_front (sn_high sn) (bytes4 e (sn_low sn) ++ b) Hh) as F1.
  pose proof (field4_front (sn_low sn) b Hl) as F2.
  unfold fieldSN, encodeSN. unfold field4s, encode_count in F1. unfold field4 in F2. rewrite <- app_assoc.
  destruct (get4u le (bytes4 e (wrap_u 32 (sn_high sn)) ++ bytes4 e (sn_low sn) ++ b) 0) as [hi|]; [|done].
  cbn [mbind option_bind] in F1 |- *. rewrite (get4u_skip _ _ (0 + 4) 4) by (by rewrite ?len4).
  change (0 + 4 - 4) with 0. destruct (get4u le (bytes4 e (sn_low sn) ++ b) 0) as [lo|]; [|done].
  cbn [mbind option_bind] in F2 |- *. destruct sn as [h l]. simpl in *. unfold bswapSN. simpl.
  destruct swap; simplify_eq; simpl; congruence.
Qed.

Lemma field_entityid_front x b : in_u 32 x -> field_entityid cfg (encode_entityid x ++ b) 0 = Some x.
Proof.
  intros Hx. unfold field_entityid, encode_entityid. pose proof (get4u_bytes le false [] x b 0 Hx eq_refl) as E.
  cbn [app] in E. rewrite E. unfold nn_ntoh_entityid, fromBE4u. simpl. destruct le; simpl; [by rewrite bswap4u_inv|done].
Qed.

Lemma array_front bits : forall b, Forall (in_u 32) bits ->
  exists ws, get4u_array le (encode_bits e bits ++ b) 0 (length bits) = Some ws /\ bswap_bitmap swap ws = bits.
Proof.
  induction bits as [|w bits IH]; intros b Hb.
  - exists []. split; [done|]. unfold bswap_bitmap. by destruct swap.
  - apply Forall_cons in Hb as [Hw Hb]. destruct (IH b Hb) as (ws & E & F).
    pose proof (field4_front w (encode_bits e bits ++ b) Hw) as G. unfold field4 in G.
    cbn [encode_bits]. rewrite <- app_assoc. cbn [length get4u_array].
    destruct (get4u le (bytes4 e w ++ encode_bits e bits ++ b) 0) as [x|]; [|done]. cbn [mbind option_bind] in G |- *.
    rewrite (get4u_array_skip _ _ _ (0 + 4) 4) by (by rewrite ?len4). change (0 + 4 - 4) with 0. rewrite E.
    eexists. split; [done|]. unfold bswap_bitmap in *. destruct swap; simpl; [f_equal|]; congruence.
Qed.

Lemma len_bits bits : Z.of_nat (length (encode_bits e bits)) = 4 * Z.of_nat (length bits).
Proof. induction bits as [|w bits IH]; simpl; [done|]. rewrite length_app, len4. lia. Qed.

(** ** Fields further on *)

Lemma field4_skip p b o n : n = Z.of_nat (length p) -> n <= o -> field4 cfg swap (p ++ b) o = field4 cfg swap b (o - n).
Proof. intros Hn Ho. unfold field4. by rewrite (get4u_skip p b o n). Qed.
Lemma field4s_skip p b o n : n = Z.of_nat (length p) -> n <= o -> field4s cfg swap (p ++ b) o = field4s cfg swap b (o - n).
Proof. intros Hn Ho. unfold field4s. by rewrite (get4u_skip p b o n). Qed.
Lemma fieldSN_skip p b o n : n = Z.of_nat (length p) -> n <= o -> fieldSN cfg swap (p ++ b) o = fieldSN cfg swap b (o - n).
Proof.
  intros Hn Ho. unfold fieldSN. rewrite (get4u_skip p b o n), (get4u_skip p b (o + 4) n) by (done || lia).
  by replace (o + 4 - n) with (o - n + 4) by lia.
Qed.
Lemma field_entityid_skip p b o n : n = Z.of_nat (length p) -> n <= o -> field_entityid cfg (p ++ b) o = field_entityid cfg b (o - n).
Proof. intros Hn Ho. unfold field_entityid. by rewrite (get4u_skip p b o n). Qed.

Lemma len_header id flags len : length (encode_header e id flags len) = 4%nat.
Proof. unfold encode_header. by rewrite length_app, len2. Qed.
Lemma len_entityid x : length (encode_entityid x) = 4%nat.
Proof. apply len4. Qed.
Lemma lenSN sn : length (encodeSN e sn) = 8%nat.
Proof. unfold encodeSN. by rewrite length_app, !len4. Qed.
Lemma len_count c : length (encode_count e c) = 4%nat.
Proof. apply len4. Qed.

Lemma flags_front id flags len b : get1 (encode_header e id flags len ++ b) 1 = Some flags.
Proof. by unfold encode_header. Qed.

(** Advances a read over the fields before it. *)
Ltac field_len := rewrite ?len_header, ?len_entityid, ?lenSN, ?len_count, ?len4; done.
Ltac skip_to :=
  repeat first
    [ rewrite (field4_skip (encode_header _ _ _ _) _ _ 4) by (field_len || lia)
    | rewrite (field4_skip (encode_entityid _) _ _ 4) by (field_len || lia)
    | rewrite (field4_skip (encodeSN _ _) _ _ 8) by (field_len || lia)
    | rewrite (field4_skip (bytes4 _ _) _ _ 4) by (field_len || lia)
    | rewrite (field4s_skip (encode_header _ _ _ _) _ _ 4) by (field_len || lia)
    | rewrite (field4s_skip (encode_entityid _) _ _ 4) by (field_len || lia)
    | rewrite (field4s_skip (encodeSN _ _) _ _ 8) by (field_len || lia)
    | rewrite (field4s_skip (bytes4 _ _) _ _ 4) by (field_len || lia)
    | rewrite (fieldSN_skip (encode_header _ _ _ _) _ _ 4) by (field_len || lia)
    | rewrite (fieldSN_skip (encode_entityid _) _ _ 4) by (field_len || lia)
    | rewrite (fieldSN_skip (encodeSN _ _) _ _ 8) by (field_len || lia)
    | rewrite (fieldSN_skip (bytes4 _ _) _ _ 4) by (field_len || lia)
    | rewrite (field_entityid_skip (encode_header _ _ _ _) _ _ 4) by (field_len || lia)
    | rewrite (field_entityid_skip (encode_entityid _) _ _ 4) by (field_len || lia)
    | rewrite (get4u_array_skip _ (encode_header _ _ _ _) _ _ 4) by (field_len || lia)
    | rewrite (get4u_array_skip _ (encode_entityid _) _ _ 4) by (field_len || lia)
    | rewrite (get4u_array_skip _ (encodeSN _ _) _ _ 8) by (field_len || lia)
    | rewrite (get4u_array_skip _ (bytes4 _ _) _ _ 4) by (field_len || lia) ].
Ltac round_reads :=
  rewrite <- !app_assoc; skip_to; cbn [Z.sub Z.opp Z.add Z.pos_sub Pos.pred_double];
  rewrite ?flags_front, ?field_entityid_front, ?fieldSN_front, ?field4_front, ?field4s_front by done;
  cbn [mbind option_bind].

Lemma Heartbeat_round len m rest size :
  in_u 32 (hb_readerId m) -> in_u 32 (hb_writerId m) -> sn_wf (hb_firstSN m) -> sn_wf (hb_lastSN m) -> in_s 32 (hb_count m) ->
  32 <= size ->
  valid_Heartbeat cfg (encode_Heartbeat e len m ++ rest) size swap =
  Some (if (0 <? fromSN (hb_firstSN m)) && (fromSN (hb_firstSN m) <=? fromSN (hb_lastSN m)) ||
           negb (nn_strict_p cfg) && (fromSN (hb_firstSN m) =? wrap_s 64 (fromSN (hb_lastSN m) + 1))
        then Valid m else Malformed).
Proof.
  intros Hr Hw H1 H2 Hc Hs. unfold valid_Heartbeat, encode_Heartbeat. destruct (Z.ltb_spec size 32); [lia|].
  round_reads. destruct m. simpl. destruct (nn_strict_p cfg); zcases; done.
Qed.

Lemma HeartbeatFrag_round flags len m rest size :
  in_u 32 (hf_readerId m) -> in_u 32 (hf_writerId m) -> sn_wf (hf_writerSN m) -> in_u 32 (hf_lastFragmentNum m) ->
  in_s 32 (hf_count m) -> 28 <= size ->
  valid_HeartbeatFrag cfg (encode_HeartbeatFrag e flags len m ++ rest) size swap =
  Some (if (0 <? fromSN (hf_writerSN m)) && negb (hf_lastFragmentNum m =? 0) then Valid m else Malformed).
Proof.
  intros Hr Hw H1 H2 Hc Hs. unfold valid_HeartbeatFrag, encode_HeartbeatFrag. destruct (Z.ltb_spec size 28); [lia|].
  round_reads. destruct m. simpl. zcases; done.
Qed.

(** Sets of sequence numbers that are accepted. *)
Definition set_accepted (s : sequence_number_set) : bool :=
  valid_sequence_number_set s || negb (nn_strict_p cfg) && (ss_numbits s =? 0).

Lemma bits_size_nonneg n : 0 <= SET_BITS_SIZE n.
Proof. unfold SET_BITS_SIZE. lia. Qed.

Lemma Gap_round flags len m rest size :
  in_u 32 (gp_readerId m) -> in_u 32 (gp_writerId m) -> sn_wf (gp_gapStart m) -> sn_wf (ss_bitmap_base (gp_gapList m)) ->
  bits_wf (ss_numbits (gp_gapList m)) (ss_bits (gp_gapList m)) -> GAP_SIZE (ss_numbits (gp_gapList m)) <= size ->
  valid_Gap cfg (encode_Gap e flags len m ++ rest) size swap =
  Some (if (0 <? fromSN (gp_gapStart m)) && set_accepted (gp_gapList m) then Valid m else Malformed).
Proof.
  destruct m as [rid wid start [base numbits bits]].
  cbn [gp_readerId gp_writerId gp_gapStart gp_gapList ss_bitmap_base ss_numbits ss_bits]. intros Hr Hw H1 H2 (Hn & Hl & Hb) Hs.
  pose proof (bits_size_nonneg numbits) as Hp. unfold valid_Gap, encode_Gap, GAP_SIZE in *.
  change (SET_BITS_SIZE 0) with 0. cbn [gp_readerId gp_writerId gp_gapStart gp_gapList ss_bitmap_base ss_numbits ss_bits]. destruct (Z.ltb_spec size (20 + (12 + 0))); [lia|]. round_reads.
  unfold set_accepted. simpl ss_numbits.
  replace (valid_sequence_number_set (SequenceNumberSet base numbits [])) with
    (valid_sequence_number_set (SequenceNumberSet base numbits bits)) by done.
  destruct (Z.leb_spec (fromSN start) 0), (Z.ltb_spec 0 (fromSN start)); try lia; [done|].
  destruct (Z.ltb_spec size (20 + (12 + SET_BITS_SIZE numbits))); [lia|]. rewrite <- Hl.
  destruct (array_front bits rest Hb) as (ws & E & F). skip_to. change (32 - 4 - 4 - 4 - 8 - 8 - 4) with 0. rewrite E. cbn [mbind option_bind]. rewrite F.
  destruct (valid_sequence_number_set _), (nn_strict_p cfg), (numbits =? 0); done.
Qed.

Lemma AckNack_round len m rest size :
  in_u 32 (an_readerId m) -> in_u 32 (an_writerId m) -> sn_wf (ss_bitmap_base (an_readerSNState m)) ->
  bits_wf (ss_numbits (an_readerSNState m)) (ss_bits (an_readerSNState m)) -> in_s 32 (an_count m) ->
  ACKNACK_SIZE (ss_numbits (an_readerSNState m)) <= size ->
  valid_AckNack cfg (encode_AckNack e len m ++ rest) size swap =
  Some (if set_accepted (an_readerSNState m) then Valid m else Malformed).
Proof.
  destruct m as [flags rid wid [base numbits bits] count].
  cbn [an_flags an_readerId an_writerId an_readerSNState an_count ss_bitmap_base ss_numbits ss_bits]. intros Hr Hw H2 (Hn & Hl & Hb) Hc Hs.
  pose proof (bits_size_nonneg numbits) as Hp. unfold valid_AckNack, encode_AckNack, ACKNACK_SIZE in *.
  change (SET_BITS_SIZE 0) with 0. cbn [an_flags an_readerId an_writerId an_readerSNState an_count ss_bitmap_base ss_numbits ss_bits].
  destruct (Z.ltb_spec size (12 + (12 + 0) + 4)); [lia|]. round_reads.
  unfold set_accepted. simpl ss_numbits.
  replace (valid_sequence_number_set (SequenceNumberSet base numbits [])) with
    (valid_sequence_number_set (SequenceNumberSet base numbits bits)) by done.
  destruct (Z.ltb_spec size (12 + (12 + SET_BITS_SIZE numbits) + 4)); [lia|].
  destruct (array_front bits (encode_count e count ++ rest) Hb) as (ws & E & F).
  rewrite <- Hl. skip_to. change (24 - 4 - 4 - 4 - 8 - 4) with 0. rewrite E. cbn [mbind option_bind]. rewrite F.
  rewrite (field4s_skip (encode_bits e bits) _ _ (SET_BITS_SIZE numbits)); [|rewrite len_bits, Hl; done|lia].
  replace (24 + SET_BITS_SIZE numbits - 4 - 4 - 4 - 8 - 4 - SET_BITS_SIZE numbits) with 0 by lia.
  rewrite field4s_front by done. cbn [mbind option_bind]. destruct (valid_sequence_number_set _), (nn_strict_p cfg), (numbits =? 0); done.
Qed.

Lemma NackFrag_round flags len m rest size :
  in_u 32 (nf_readerId m) -> in_u 32 (nf_writerId m) -> sn_wf (nf_writerSN m) ->
  in_u 32 (fn_bitmap_base (nf_fragmentNumberState m)) ->
  bits_wf (fn_numbits (nf_fragmentNumberState m)) (fn_bits (nf_fragmentNumberState m)) -> in_s 32 (nf_count m) ->
  NACKFRAG_SIZE (fn_numbits (nf_fragmentNumberState m)) <= size ->
  valid_NackFrag cfg (encode_NackFrag e flags len m ++ rest) size swap =
  Some (if valid_fragment_number_set (nf_fragmentNumberState m) then Valid m else Malformed).
Proof.
  destruct m as [rid wid sn [base numbits bits] count].
  cbn [nf_readerId nf_writerId nf_writerSN nf_fragmentNumberState nf_count fn_bitmap_base fn_numbits fn_bits]. intros Hr Hw H1 H2 (Hn & Hl & Hb) Hc Hs.
  pose proof (bits_size_nonneg numbits) as Hp. unfold valid_NackFrag, encode_NackFrag, NACKFRAG_SIZE in *.
  change (SET_BITS_SIZE 0) with 0.
  cbn [nf_readerId nf_writerId nf_writerSN nf_fragmentNumberState nf_count fn_bitmap_base fn_numbits fn_bits].
  destruct (Z.ltb_spec size (20 + (8 + 0) + 4)); [lia|]. round_reads.
  replace (valid_fragment_number_set (FragmentNumberSet base numbits [])) with
    (valid_fragment_number_set (FragmentNumberSet base numbits bits)) by done.
  destruct (Z.ltb_spec size (20 + (8 + SET_BITS_SIZE numbits) + 4)); [lia|].
  destruct (array_front bits (encode_count e count ++ rest) Hb) as (ws & E & F).
  rewrite <- Hl. skip_to. change (28 - 4 - 4 - 4 - 8 - 4 - 4) with 0. rewrite E. cbn [mbind option_bind]. rewrite F.
  rewrite (field4s_skip (encode_bits e bits) _ _ (SET_BITS_SIZE numbits)); [|rewrite len_bits, Hl; done|lia].
  replace (28 + SET_BITS_SIZE numbits - 4 - 4 - 4 - 8 - 4 - 4 - SET_BITS_SIZE numbits) with 0 by lia.
  rewrite field4s_front by done. cbn [mbind option_bind]. by destruct (valid_fragment_number_set _).
Qed.
End Round.
