(* ===== verification/ProtocolClaims.v ===== *)
(** * The theorems about submessages, with witnesses *)

From Stdlib Require Import ZArith Lia.
From stdpp Require Import prelude.
From S2P Require Import Prelude Bitset Refs Defrag Reorder Dqueue Time Wire Protocol ProtocolProps ProtocolRound.

Section Claims.
Context (cfg : ddsi_config).

(** C37: every AckNack, Gap, Heartbeat, HeartbeatFrag and NackFrag that a
    validator passes is well typed: its fields have the range of their C types,
    a set has at most 256 bits and exactly the words these need, a non-empty
    set starts at a positive number (an empty set of an AckNack or a Gap may
    start anywhere, one of a NackFrag is refused), the start of a gap and the
    numbers in a HeartbeatFrag are positive, and a Heartbeat's range either
    starts at a positive number and is not empty, or is empty with
    [firstSN = lastSN + 1] in 64-bit arithmetic, whatever the sign of the two. *)
Theorem submessages_typed b size byteswap :
  bytes_ok b ->
  (forall msg, valid_AckNack cfg b size byteswap = Some (Valid msg) -> acknack_ok msg) /\
  (forall msg, valid_Gap cfg b size byteswap = Some (Valid msg) -> gap_ok msg) /\
  (forall msg, valid_Heartbeat cfg b size byteswap = Some (Valid msg) -> heartbeat_ok msg) /\
  (forall msg, valid_HeartbeatFrag cfg b size byteswap = Some (Valid msg) -> heartbeatfrag_ok msg) /\
  (forall msg, valid_NackFrag cfg b size byteswap = Some (Valid msg) -> nackfrag_ok msg).
Proof.
  intros Hb. repeat split_and; eauto using acknack_typed, gap_typed, heartbeat_typed, heartbeatfrag_typed, nackfrag_typed.
Qed.

(** ** Round trips *)

Lemma set_wf n bits : set_ok n bits -> bits_wf n bits.
Proof. intros [Hf Hw (_ & Hb & _)]. split; [unfold in_u; lia|]. split; [done|exact Hb]. Qed.

Lemma set_ok_accepted base n bits : nn_strict_p cfg = false -> set_ok n bits -> (0 < n -> 0 < fromSN base) ->
  set_accepted cfg (SequenceNumberSet base n bits) = true.
Proof.
  intros Hs [Hf _ _] Hb. unfold set_accepted, valid_sequence_number_set. rewrite Hs. simpl. rewrite Z.gtb_ltb.
  destruct (Z.leb_spec (fromSN base) 0), (Z.leb_spec n 0), (Z.ltb_spec 256 n), (Z.eqb_spec n 0); simpl; try done; lia.
Qed.

(** C34: a well-typed submessage that a sender of either byte order writes is
    read back as it was by a receiver of either byte order (unless the receiver
    is set to be strict about empty sets and ranges). *)
Theorem submessages_roundtrip e flags len size rest :
  nn_strict_p cfg = false ->
  let swap := xorb e (platform_is_little_endian cfg) in
  (forall m, acknack_ok m -> ACKNACK_SIZE (ss_numbits (an_readerSNState m)) <= size ->
     valid_AckNack cfg (encode_AckNack e len m ++ rest) size swap = Some (Valid m)) /\
  (forall m, gap_ok m -> GAP_SIZE (ss_numbits (gp_gapList m)) <= size ->
     valid_Gap cfg (encode_Gap e flags len m ++ rest) size swap = Some (Valid m)) /\
  (forall m, heartbeat_ok m -> 32 <= size -> valid_Heartbeat cfg (encode_Heartbeat e len m ++ rest) size swap = Some (Valid m)) /\
  (forall m, heartbeatfrag_ok m -> 28 <= size ->
     valid_HeartbeatFrag cfg (encode_HeartbeatFrag e flags len m ++ rest) size swap = Some (Valid m)) /\
  (forall m, nackfrag_ok m -> NACKFRAG_SIZE (fn_numbits (nf_fragmentNumberState m)) <= size ->
     valid_NackFrag cfg (encode_NackFrag e flags len m ++ rest) size swap = Some (Valid m)).
Proof.
  intros Hs swap. split_and!.
  - intros m [[A1 A2] A3 A4 A5 A6] Hsz. unfold swap. rewrite AckNack_round by eauto using set_wf.
    destruct m as [fl rid wid [base n bits] c]. cbn [an_readerSNState]. by rewrite set_ok_accepted.
  - intros m [[A1 A2] [A3 A3'] A4 A5 A6] Hsz. unfold swap. rewrite Gap_round by eauto using set_wf.
    destruct m as [rid wid st [base n bits]]. cbn [gp_gapList gp_gapStart]. rewrite set_ok_accepted by done. simpl in A4. by rewrite (proj2 (Z.ltb_lt _ _) A4).
  - intros m [[A1 A2] [A3 A3'] A4 A5] Hsz. unfold swap. rewrite Heartbeat_round by done. rewrite Hs. cbn [negb andb].
    destruct A4 as [[A4 A4']| ->]; [|by rewrite Z.eqb_refl, orb_true_r].
    by rewrite (proj2 (Z.ltb_lt _ _) A4), (proj2 (Z.leb_le _ _) A4').
  - intros m [[A1 A2] [A3 A3'] A4 A5] Hsz. unfold swap. rewrite HeartbeatFrag_round by (done || unfold in_u; lia).
    rewrite (proj2 (Z.ltb_lt _ _) A3'). by destruct (Z.eqb_spec (hf_lastFragmentNum m) 0); [lia|].
  - intros m [[A1 A2] A3 A4 [A5 A5'] A6] Hsz. unfold swap. rewrite NackFrag_round by (eauto using set_wf || unfold in_u; lia).
    destruct A4 as [Hf _ _]. unfold valid_fragment_number_set. rewrite Z.gtb_ltb.
    destruct (Z.leb_spec (fn_bitmap_base (nf_fragmentNumberState m)) 0), (Z.leb_spec (fn_numbits (nf_fragmentNumberState m)) 0),
      (Z.ltb_spec 256 (fn_numbits (nf_fragmentNumberState m))); simpl; try done; lia.
Qed.

(** The sum [lastSN + 1] with which an empty Heartbeat is recognised wraps:
    one that announces all the numbers there are passes as empty. *)
Theorem heartbeat_sum_wraps e len rest :
  nn_strict_p cfg = false ->
  let m := MkHeartbeat 0 0 0 (toSN (- 2 ^ 63)) (toSN (2 ^ 63 - 1)) 0 in
  fromSN (hb_firstSN m) = - 2 ^ 63 /\ fromSN (hb_lastSN m) = 2 ^ 63 - 1 /\
  valid_Heartbeat cfg (encode_Heartbeat e len m ++ rest) 32 (xorb e (platform_is_little_endian cfg)) = Some (Valid m).
Proof.
  intros Hs m. split; [reflexivity|]. split; [reflexivity|]. rewrite Heartbeat_round by (done || by vm_compute).
  by rewrite Hs.
Qed.

(** C38: a DATAFRAG that passes validation, and whose fragment numbers do not
    overflow 32 bits, is taken for exactly the fragments it says it has: a
    non-empty range of bytes inside the sample, and no more than the submessage
    carries. *)
Theorem datafrag_range_exact pwr_of rst b smoff size byteswap info msg info' p :
  placed cfg byteswap b smoff size -> valid_DataFrag cfg pwr_of rst b smoff size byteswap info = Some (Valid (msg, info', p)) -> fits32 msg ->
  si_size info' = df_sampleSize msg /\ fragment_range msg size p = claimed_range msg /\
  0 <= (claimed_range msg).1 < (claimed_range msg).2 /\ (claimed_range msg).2 <= df_sampleSize msg /\
  (claimed_range msg).2 - (claimed_range msg).1 <= size - p /\ 8 <= p <= size.
Proof.
  intros Hp Hv Hf. destruct (valid_DataFrag_spec cfg pwr_of rst b smoff size byteswap info Hp) as (r & E & Hr).
  rewrite Hv in E. injection E as <-. destruct Hr as (_ & _ & _ & _ & _ & Hsz & _ & Hdp & _ & Hok).
  destruct (fragment_range_spec msg size p Hok Hf) as (R0 & R1 & R2 & R3). done.
Qed.

(** ** Requests in an ACKNACK *)

Lemma lor_fold l : forall x, fold_left Z.lor l x = 0 <-> x = 0 /\ Forall (eq 0) l.
Proof.
  induction l as [|w l IH]; intros x; simpl; [split; [by intros ->|tauto]|]. rewrite IH, Z.lor_eq_0_iff, Forall_cons. naive_solver.
Qed.

(** A word with a bit set. *)
Lemma word_zero w : word_ok w -> w = 0 <-> forall n, 0 <= n < 32 -> Z.testbit w n = false.
Proof.
  intros Hw. split; [intros -> n _; apply Z.bits_0|]. intros Hb. apply Z.bits_inj'. intros n Hn. rewrite Z.bits_0.
  apply word_ok_bits in Hw as [_ Hw]. destruct (Z.lt_ge_cases n 32); [by apply Hb|by apply Hw].
Qed.

(** The mask for the last word. *)
Lemma last_mask_testbit m t : 0 <= m < 32 -> 0 <= t < 32 ->
  Z.testbit (if m =? 0 then 2 ^ 32 - 1 else not32 (Z.shiftr (2 ^ 32 - 1) m)) t = (m =? 0) || (32 - m <=? t).
Proof.
  intros Hm Ht. destruct (Z.eqb_spec m 0) as [->|]; [by apply (Z.ones_spec_low 32)|]. simpl orb.
  rewrite not32_testbit, ones_shift_testbit by (done || lia || (split; [apply Z.shiftr_nonneg; lia|rewrite Z.shiftr_div_pow2 by lia; apply Z.div_lt_upper_bound; nia])).
  destruct (Z.ltb_spec t (32 - m)), (Z.leb_spec (32 - m) t); simpl; done || lia.
Qed.

(** The word of a bit. *)
Lemma bit_at_word bits j t w : bits !! j = Some w -> 0 <= t < 32 -> bit_at bits (32 * Z.of_nat j + (31 - t)) = Z.testbit w t.
Proof.
  intros Hw Ht. unfold bit_at. rewrite Z.mul_comm, Z.div_add_l, (Z.div_small (31 - t)) by lia.
  replace (Z.to_nat (Z.of_nat j + 0)) with j by lia. rewrite Hw, Z.add_comm, Z.mod_add, Z.mod_small by lia. f_equal. lia.
Qed.

(** [acknack_is_nack] tells, for any number of bits, whether the set of an
    ACKNACK that passed validation has a bit set. *)
Theorem acknack_is_nack_exact msg :
  acknack_ok msg ->
  exists r, acknack_is_nack msg = Some r /\
    (r = false <-> forall i, 0 <= i < ss_numbits (an_readerSNState msg) -> bit_at (ss_bits (an_readerSNState msg)) i = false).
Proof.
  intros [_ _ [Hf Hw (_ & Hb & _)] _ _]. unfold acknack_is_nack. set (n := ss_numbits _) in *. set (bits := ss_bits _) in *.
  destruct (Z.eqb_spec n 0) as [Hz|Hz]; [exists false; split; [done|]; split; [intros _ i Hi; lia|done]|].
  rewrite bitset_words_eq in * by lia. set (k := ((n + 31) / 32)) in *.
  assert (Hk : 32 * (k - 1) < n <= 32 * k /\ 1 <= k).
  { unfold k. pose proof (Z.div_mod (n + 31) 32 ltac:(lia)). pose proof (Z.mod_pos_bound (n + 31) 32 ltac:(lia)). lia. }
  clearbody k. set (i := (Z.to_nat k - 1)%nat). assert (Hi : Z.of_nat i = k - 1) by lia.
  destruct (lookup_lt_is_Some_2 bits i) as [w Ew]; [lia|]. rewrite Ew. cbn [mbind option_bind]. eexists. split; [done|].
  rewrite negb_false_iff, Z.eqb_eq, Z.lor_eq_0_iff, lor_fold.
  assert (Hm : n mod 32 = if n =? 32 * k then 0 else n - 32 * (k - 1)).
  { destruct (Z.eqb_spec n (32 * k)) as [->|]; [by rewrite Z.mul_comm, Z.mod_mul by lia|].
    rewrite (Z.mod_eq n 32) by lia. f_equal. f_equal. symmetry. apply (Z.div_unique n 32 (k - 1) (n - 32 * (k - 1))); lia. }
  assert (Hmask : forall t, 0 <= t < 32 -> Z.testbit (if n mod 32 =? 0 then 2 ^ 32 - 1 else not32 (Z.shiftr (2 ^ 32 - 1) (n mod 32))) t =
    (32 * Z.of_nat i + (31 - t) <? n)).
  { intros t Ht. rewrite last_mask_testbit by (done || apply Z.mod_pos_bound; lia). rewrite Hm. zcases; lia. }
  rewrite Forall_forall in Hb. split.
  - intros [[_ Hall] Hlast] q Hq. unfold bit_at. destruct (bits !! Z.to_nat (q / 32)) as [v|] eqn:Ev; [|done].
    pose proof (Z.mod_pos_bound q 32 ltac:(lia)). pose proof (Z.div_mod q 32 ltac:(lia)).
    destruct (decide (Z.to_nat (q / 32) = i)) as [E|E].
    + rewrite E, Ew in Ev. injection Ev as <-. assert (Hbit : Z.testbit (Z.land w (if n mod 32 =? 0 then 2 ^ 32 - 1 else not32 (Z.shiftr (2 ^ 32 - 1) (n mod 32)))) (31 - q mod 32) = false)
        by (rewrite Hlast; apply Z.bits_0).
      rewrite Z.land_spec, Hmask in Hbit by lia. destruct (Z.ltb_spec (32 * Z.of_nat i + (31 - (31 - q mod 32))) n); [by rewrite andb_true_r in Hbit|lia].
    + rewrite Forall_forall in Hall. rewrite <- (Hall v); [apply Z.bits_0|].
      apply list_elem_of_lookup. exists (Z.to_nat (q / 32)). rewrite lookup_take_lt; [done|]. apply lookup_lt_Some in Ev. lia.
  - intros Hall. split; [split; [done|]|].
    + apply Forall_forall. intros v Hv. apply list_elem_of_lookup in Hv as [j Hj]. apply lookup_take_Some in Hj as [Hj Hlt].
      symmetry. apply word_zero; [apply Hb; by eapply list_elem_of_lookup_2|]. intros t Ht. rewrite <- (bit_at_word bits j t v Hj Ht). apply Hall. lia.
    + apply Z.bits_inj'. intros t Ht. rewrite Z.land_spec, Z.bits_0. assert (Hwb : word_ok w) by (apply Hb; by eapply list_elem_of_lookup_2).
      destruct (Z.lt_ge_cases t 32); [|apply word_ok_bits in Hwb as [_ Hwb]; by rewrite Hwb by lia].
      rewrite Hmask by lia. destruct (Z.ltb_spec (32 * Z.of_nat i + (31 - t)) n); [|apply andb_false_r].
      rewrite <- (bit_at_word bits i t w Ew) by lia. rewrite Hall by lia. done.
Qed.
End Claims.

(** ** A concrete configuration *)

Definition rcfg : ddsi_config :=
  DdsiConfig true false false true 1300 false (2 ^ 31) 10000000 false false 10000000 false 300 128 16 16.

(** Bytes can be checked. *)
Lemma bytes_ok_dec b : forallb (fun x => (0 <=? x) && (x <? 256)) b = true -> bytes_ok b.
Proof. intros Hb. apply Forall_forall. intros x Hx. rewrite forallb_forall in Hb. apply list_elem_of_In, Hb in Hx. unfold in_u. lia. Qed.

(** A GAP of 1 to 299 and 301, and a DATAFRAG with the second
    fragment, of two bytes, of a sample of five. *)
Definition pgap : Gap := MkGap 0x107 0x102 (SequenceNumber 0 1) (SequenceNumberSet (SequenceNumber 0 300) 33 [0x40000000; 0]).
Definition pgap_bytes : list Z := encode_Gap false 0 32 pgap.
Definition pfrag_bytes : list Z :=
  encode_header true SMID_DATA_FRAG 1 36 ++ [0; 0; 28; 0] ++ encode_entityid 0x107 ++ encode_entityid 0x102 ++
  encodeSN true (SequenceNumber 0 1) ++ bytes4 true 2 ++ bytes2 true 1 ++ bytes2 true 2 ++ bytes4 true 5 ++ [7; 8; 0; 0].
Definition prst : receiver_state := ReceiverState 1 (9, 9, 9) (1, 2, 3) (1, 2) (2, 1) true.
Definition pinfo : rsample_info := RsampleInfo 0 1 0 0 0 (0, 0) 0 0 0 false false.

Lemma submessages_typed_witness : gap_ok pgap.
Proof.
  apply (submessages_typed rcfg pgap_bytes 40 true); [|vm_compute; reflexivity].
  by apply bytes_ok_dec; vm_compute.
Defined.

Lemma submessages_roundtrip_witness :
  valid_Gap rcfg (encode_Gap false 0 36 pgap ++ []) 40 true = Some (Valid pgap).
Proof.
  apply (submessages_roundtrip rcfg false 0 36 40 [] eq_refl); [|by vm_compute].
  split; [by split; split; vm_compute|by split; split; split; vm_compute|by vm_compute| |by vm_compute].
  split; [by vm_compute|by vm_compute|]. split; [by vm_compute|]. split; [|by vm_compute]. by repeat constructor; vm_compute.
Defined.

Lemma pfrag_placed : placed rcfg false pfrag_bytes 20 40.
Proof.
  split; [by apply bytes_ok_dec; vm_compute|lia|by vm_compute|lia|].
  intros x E. vm_compute in E. by injection E as <-.
Qed.

Lemma datafrag_range_exact_witness :
  exists msg info' p, valid_DataFrag rcfg (fun _ => 0) prst pfrag_bytes 20 40 false pinfo = Some (Valid (msg, info', p)) /\
    fragment_range msg 40 p = (2, 4) /\ si_size info' = 5.
Proof.
  destruct (valid_DataFrag rcfg (fun _ => 0) prst pfrag_bytes 20 40 false pinfo) as [[|[[msg info'] p]]|] eqn:E; [by vm_compute in E| |by vm_compute in E].
  assert (Hf : fits32 msg) by (vm_compute in E; injection E as <- <- <-; by vm_compute).
  destruct (datafrag_range_exact rcfg (fun _ => 0) prst pfrag_bytes 20 40 false pinfo msg info' p pfrag_placed E Hf) as (H1 & H2 & _).
  exists msg, info', p. split; [reflexivity|]. rewrite H1, H2. vm_compute in E. injection E as <- <- <-. done.
Defined.
