(* ===== verification/Receive.v ===== *)
(** * Reception at a proxy writer: the handlers of [q_receive.c]

    A proxy writer has one defragmenter, a primary reorder administration
    shared by the readers that are in sync with it, and for every matched
    reader a match record with a secondary reorder administration for
    catching up on historical data.  The handlers feed DATA, DATAFRAG, GAP and
    HEARTBEAT submessages through these, hand chains of samples to the delivery
    queue (or deliver them at once), and schedule acknowledgements.

    The readers are a tree on the GUID; the trees and the reference counts are
    any implementation of their interfaces.  What a handler asks of other parts
    (the delivery queue, the notification of waiting readers, the lease of the
    participant) is a list of outputs.  The handlers run with the lock of the
    proxy writer held; only the delivery queue changes meanwhile, so whether it
    is full is a function of the call that asks ([dq_full None] for the primary
    administration, [dq_full (Some guid)] for the reader [guid]).  [None] is a
    failed assertion or an access outside an object. *)

From Stdlib Require Import ZArith Lia.
From stdpp Require Import prelude.
From S2P Require Import Prelude OrdTree Bitset Refs Defrag Reorder Rmsg Dqueue Time Wire Protocol.

Inductive pwr_rd_match_syncstate : Type :=
| PRMSS_SYNC
| PRMSS_TLCATCHUP
| PRMSS_OUT_OF_SYNC.

#[global] Instance syncstate_eq_dec : EqDecision pwr_rd_match_syncstate.
Proof. solve_decision. Defined.

Definition MAX_SEQ_NUMBER : Z := 0x7fffffffffffffff.
Definition DDSI_COUNT_MIN : Z := - 2 ^ 31.
Definition NN_ENTITYID_UNKNOWN : Z := 0x0.
Definition NN_ENTITYID_SPDP_BUILTIN_PARTICIPANT_WRITER : Z := 0x100c2.
Definition TSCHED_DELETE : Z := - 2 ^ 63.

(** What a handler asks of other parts: [nn_dqueue_enqueue], [nn_dqueue_enqueue1],
    [deliver_user_data], [notify_wait_for_historical_data], [lease_renew] and
    [nn_dqueue_wait_until_empty_if_full]. *)
Inductive output : Type :=
| OutEnqueue (sc : list rsample_chain_elem) (rres : Z)
| OutEnqueue1 (rdguid : nn_guid) (sc : list rsample_chain_elem) (rres : Z)
| OutDeliver (info : rsample_info) (fragchain : list rdata)
| OutNotify (rdguid : nn_guid)
| OutRenewLease
| OutWaitIfFull.

Section Receive.
Context {T : Type -> Type} `{!OrdTree T} {H : Type} `{!RmsgRefs H}.
Context (cfg : ddsi_config).

(** [struct pwr_rd_match]; an event of the transmit queue is the time it is
    scheduled for. *)
Record pwr_rd_match : Type := PwrRdMatch {
  wn_rd_guid : nn_guid;
  wn_tcreate : Z;
  wn_count : Z;
  wn_next_heartbeat : Z;
  wn_hb_timestamp : Z;
  wn_t_heartbeat_accepted : Z;
  wn_t_last_nack : Z;
  wn_seq_last_nack : Z;
  wn_acknack_xevent : option Z;
  wn_in_sync : pwr_rd_match_syncstate;
  wn_end_of_tl_seq : Z;
  wn_end_of_out_of_sync_seq : Z;
  wn_reorder : nn_reorder T;
}.

(** [struct proxy_writer], without what the handlers do not use. *)
Record proxy_writer : Type := ProxyWriter {
  pwr_readers : T pwr_rd_match;
  pwr_n_reliable_readers : Z;
  pwr_n_readers_out_of_sync : Z;
  pwr_last_seq : Z;
  pwr_last_fragnum : Z;
  pwr_last_fragnum_reset : bool;
  pwr_deliver_synchronously : bool;
  pwr_have_seen_heartbeat : bool;
  pwr_assert_pp_lease : bool;
  pwr_defrag : nn_defrag T;
  pwr_reorder : nn_reorder T;
  pwr_builtins_dqueue : bool;             (* pwr->dqueue == gv.builtins_dqueue *)
}.

Implicit Types (wn : pwr_rd_match) (p : proxy_writer) (h : H) (info : rsample_info) (rd : rdata).

(** [compare_guid] orders the readers as their keys. *)
Definition wn_key wn : Z := guid_key (platform_is_little_endian cfg) (wn_rd_guid wn).

(** Assignments. *)
Definition wn_set_sync wn (s : pwr_rd_match_syncstate) : pwr_rd_match :=
  PwrRdMatch (wn_rd_guid wn) (wn_tcreate wn) (wn_count wn) (wn_next_heartbeat wn) (wn_hb_timestamp wn) (wn_t_heartbeat_accepted wn)
    (wn_t_last_nack wn) (wn_seq_last_nack wn) (wn_acknack_xevent wn) s (wn_end_of_tl_seq wn) (wn_end_of_out_of_sync_seq wn) (wn_reorder wn).
Definition wn_set_reorder wn (r : nn_reorder T) : pwr_rd_match :=
  PwrRdMatch (wn_rd_guid wn) (wn_tcreate wn) (wn_count wn) (wn_next_heartbeat wn) (wn_hb_timestamp wn) (wn_t_heartbeat_accepted wn)
    (wn_t_last_nack wn) (wn_seq_last_nack wn) (wn_acknack_xevent wn) (wn_in_sync wn) (wn_end_of_tl_seq wn) (wn_end_of_out_of_sync_seq wn) r.
Definition wn_set_end_of_tl wn (q : Z) : pwr_rd_match :=
  PwrRdMatch (wn_rd_guid wn) (wn_tcreate wn) (wn_count wn) (wn_next_heartbeat wn) (wn_hb_timestamp wn) (wn_t_heartbeat_accepted wn)
    (wn_t_last_nack wn) (wn_seq_last_nack wn) (wn_acknack_xevent wn) (wn_in_sync wn) q (wn_end_of_out_of_sync_seq wn) (wn_reorder wn).
Definition wn_set_heartbeat wn (next_heartbeat t_accepted : Z) : pwr_rd_match :=
  PwrRdMatch (wn_rd_guid wn) (wn_tcreate wn) (wn_count wn) next_heartbeat (wn_hb_timestamp wn) t_accepted
    (wn_t_last_nack wn) (wn_seq_last_nack wn) (wn_acknack_xevent wn) (wn_in_sync wn) (wn_end_of_tl_seq wn) (wn_end_of_out_of_sync_seq wn) (wn_reorder wn).
Definition wn_set_event wn (ev : option Z) (hb_timestamp : Z) : pwr_rd_match :=
  PwrRdMatch (wn_rd_guid wn) (wn_tcreate wn) (wn_count wn) (wn_next_heartbeat wn) hb_timestamp (wn_t_heartbeat_accepted wn)
    (wn_t_last_nack wn) (wn_seq_last_nack wn) ev (wn_in_sync wn) (wn_end_of_tl_seq wn) (wn_end_of_out_of_sync_seq wn) (wn_reorder wn).

Definition pwr_set_readers p (t : T pwr_rd_match) : proxy_writer :=
  ProxyWriter t (pwr_n_reliable_readers p) (pwr_n_readers_out_of_sync p) (pwr_last_seq p) (pwr_last_fragnum p) (pwr_last_fragnum_reset p)
    (pwr_deliver_synchronously p) (pwr_have_seen_heartbeat p) (pwr_assert_pp_lease p) (pwr_defrag p) (pwr_reorder p) (pwr_builtins_dqueue p).
Definition pwr_set_counts p (n_reliable n_out_of_sync : Z) : proxy_writer :=
  ProxyWriter (pwr_readers p) (wrap_s 32 n_reliable) (wrap_s 32 n_out_of_sync) (pwr_last_seq p) (pwr_last_fragnum p) (pwr_last_fragnum_reset p)
    (pwr_deliver_synchronously p) (pwr_have_seen_heartbeat p) (pwr_assert_pp_lease p) (pwr_defrag p) (pwr_reorder p) (pwr_builtins_dqueue p).
Definition pwr_set_last p (seq fragnum : Z) (reset : bool) : proxy_writer :=
  ProxyWriter (pwr_readers p) (pwr_n_reliable_readers p) (pwr_n_readers_out_of_sync p) seq fragnum reset
    (pwr_deliver_synchronously p) (pwr_have_seen_heartbeat p) (pwr_assert_pp_lease p) (pwr_defrag p) (pwr_reorder p) (pwr_builtins_dqueue p).
Definition pwr_set_seen p : proxy_writer :=
  ProxyWriter (pwr_readers p) (pwr_n_reliable_readers p) (pwr_n_readers_out_of_sync p) (pwr_last_seq p) (pwr_last_fragnum p) (pwr_last_fragnum_reset p)
    (pwr_deliver_synchronously p) true (pwr_assert_pp_lease p) (pwr_defrag p) (pwr_reorder p) (pwr_builtins_dqueue p).
Definition pwr_set_defrag p (d : nn_defrag T) : proxy_writer :=
  ProxyWriter (pwr_readers p) (pwr_n_reliable_readers p) (pwr_n_readers_out_of_sync p) (pwr_last_seq p) (pwr_last_fragnum p) (pwr_last_fragnum_reset p)
    (pwr_deliver_synchronously p) (pwr_have_seen_heartbeat p) (pwr_assert_pp_lease p) d (pwr_reorder p) (pwr_builtins_dqueue p).
Definition pwr_set_reorder p (r : nn_reorder T) : proxy_writer :=
  ProxyWriter (pwr_readers p) (pwr_n_reliable_readers p) (pwr_n_readers_out_of_sync p) (pwr_last_seq p) (pwr_last_fragnum p) (pwr_last_fragnum_reset p)
    (pwr_deliver_synchronously p) (pwr_have_seen_heartbeat p) (pwr_assert_pp_lease p) (pwr_defrag p) r (pwr_builtins_dqueue p).

(** ** The state of a handler *)

(** The proxy writer, the reference counts, [refc_adjust] and the outputs. *)
Record rx : Type := Rx {
  rx_pwr : proxy_writer;
  rx_h : H;
  rx_adjust : Z;
  rx_out : list output;
}.
Implicit Types (st : rx).

Definition with_pwr st p : rx := Rx p (rx_h st) (rx_adjust st) (rx_out st).
Definition with_h st h : rx := Rx (rx_pwr st) h (rx_adjust st) (rx_out st).
Definition emit st (o : output) : rx := Rx (rx_pwr st) (rx_h st) (rx_adjust st) (rx_out st ++ [o]).
Definition add_adjust st (n : Z) : rx := Rx (rx_pwr st) (rx_h st) (rx_adjust st + n) (rx_out st).

(** The match record [wn] points to was changed. *)
Definition store_reader st wn : rx :=
  let p := rx_pwr st in
  with_pwr st (pwr_set_readers p (ot_replace wn_key (pwr_readers p) (wn_key wn) wn)).

(** [for (wn = ut_avlFindMin (..); wn != NULL; wn = ut_avlFindSucc (.., wn))]
    with a body that changes [*wn]. *)
Fixpoint readers_loop (fuel : nat) (f : rx -> pwr_rd_match -> option (rx * pwr_rd_match)) st
    (o : option pwr_rd_match) : option rx :=
  match o with
  | None => Some st
  | Some wn =>
      match fuel with
      | O => None
      | S fuel' =>
          '(st, wn) ← f st wn;
          let st := store_reader st wn in
          readers_loop fuel' f st (ot_find_succ wn_key (pwr_readers (rx_pwr st)) (wn_key wn))
      end
  end.

Definition for_readers (f : rx -> pwr_rd_match -> option (rx * pwr_rd_match)) st : option rx :=
  let t := pwr_readers (rx_pwr st) in
  readers_loop (length (ot_elements t)) f st (ot_find_min t).

(** ** Synchronisation of readers *)

(** The case [PRMSS_TLCATCHUP]. *)
Definition tlcatchup_in_sync st wn (last_deliv_seq : Z) : rx * pwr_rd_match :=
  if last_deliv_seq >=? wn_end_of_tl_seq wn then
    let p := rx_pwr st in
    (emit (with_pwr st (pwr_set_counts p (pwr_n_reliable_readers p) (pwr_n_readers_out_of_sync p - 1)))
       (OutNotify (wn_rd_guid wn)),
     wn_set_sync wn PRMSS_SYNC)
  else (st, wn).

Definition maybe_set_reader_in_sync st wn (last_deliv_seq : Z) : option (rx * pwr_rd_match) :=
  match wn_in_sync wn with
  | PRMSS_SYNC => None
  | PRMSS_TLCATCHUP => Some (tlcatchup_in_sync st wn last_deliv_seq)
  | PRMSS_OUT_OF_SYNC =>
      if nn_reorder_next_seq (wn_reorder wn) - 1 >=? wn_end_of_out_of_sync_seq wn
      then Some (tlcatchup_in_sync st (wn_set_sync wn PRMSS_TLCATCHUP) last_deliv_seq)
      else Some (st, wn)
  end.

(** ** Delivery *)

Fixpoint deliver_user_data_synchronously st (sc : list rsample_chain_elem) : option rx :=
  match sc with
  | [] => Some st
  | e :: sc' =>
      let st := match ce_sampleinfo e with
                | Some info => emit st (OutDeliver info (ce_fragchain e))
                | None => st
                end in
      h ← nn_fragchain_unref (rx_h st) (ce_fragchain e);
      deliver_user_data_synchronously (with_h st h) sc'
  end.

(** Delivering what the primary administration releases. *)
Definition deliver_primary st (sc : list rsample_chain_elem) (rres : Z) : option rx :=
  if pwr_deliver_synchronously (rx_pwr st) then deliver_user_data_synchronously st sc
  else Some (emit st (OutEnqueue sc rres)).

(** The primary reorder administration takes a sample or a gap; the chain and
    the result. *)
Definition primary_rsample st (s : rsample_reorder) (full : bool) : option (rx * list rsample_chain_elem * Z) :=
  '(r, h, (sc, adj, rres)) ← nn_reorder_rsample (pwr_reorder (rx_pwr st)) (rx_h st) s (late_ack_mode cfg) full;
  Some (add_adjust (with_h (with_pwr st (pwr_set_reorder (rx_pwr st) r)) h) adj, sc, rres).

Definition primary_gap st rd (a b : Z) : option (rx * list rsample_chain_elem * Z) :=
  '(r, h, (sc, adj, rres)) ← nn_reorder_gap (pwr_reorder (rx_pwr st)) (rx_h st) rd a b;
  Some (add_adjust (with_h (with_pwr st (pwr_set_reorder (rx_pwr st) r)) h) adj, sc, rres).

(** The reorder administration of one reader. *)
Definition reader_rsample st wn (s : rsample_reorder) (full : bool)
  : option (rx * pwr_rd_match * list rsample_chain_elem * Z) :=
  '(r, h, (sc, adj, rres)) ← nn_reorder_rsample (wn_reorder wn) (rx_h st) s (late_ack_mode cfg) full;
  Some (add_adjust (with_h st h) adj, wn_set_reorder wn r, sc, rres).

Definition reader_gap st wn rd (a b : Z) : option (rx * pwr_rd_match * list rsample_chain_elem * Z) :=
  '(r, h, (sc, adj, rres)) ← nn_reorder_gap (wn_reorder wn) (rx_h st) rd a b;
  Some (add_adjust (with_h st h) adj, wn_set_reorder wn r, sc, rres).
(** ** DATA and DATAFRAG *)

(** Makes room in the defragmenter: no reader needs what comes before. *)
Definition clean_defrag st : option rx :=
  let p := rx_pwr st in
  let seq := fold_left (fun seq wn =>
      if bool_decide (wn_in_sync wn = PRMSS_OUT_OF_SYNC) then
        let seq1 := nn_reorder_next_seq (wn_reorder wn) in if seq1 <? seq then seq1 else seq
      else seq) (ot_elements (pwr_readers p)) (nn_reorder_next_seq (pwr_reorder p)) in
  '(d, h) ← nn_defrag_notegap (pwr_defrag p) (rx_h st) 1 seq;
  Some (with_h (with_pwr st (pwr_set_defrag p d)) h).

(** The highest sequence and fragment number known of. *)
Definition track_seq p (seq fragnum : Z) : proxy_writer :=
  if seq >? pwr_last_seq p then pwr_set_last p seq fragnum false
  else if (seq =? pwr_last_seq p) && (fragnum >? pwr_last_fragnum p)
  then pwr_set_last p (pwr_last_seq p) fragnum false
  else p.

(** The body of the loop over readers when samples were delivered. *)
Definition tlcatchup_reader (seq : Z) st wn : option (rx * pwr_rd_match) :=
  if bool_decide (wn_in_sync wn = PRMSS_TLCATCHUP) then maybe_set_reader_in_sync st wn seq
  else Some (st, wn).

(** The body of the loop over readers for an old sample: it may be new to a
    reader that is out of sync.  (A duplicate that was not stored is used again
    for the next reader in the code, which saves memory.) *)
Definition too_old_reader (dq_full : option nn_guid -> bool) (s : rsample_reorder) (seq : Z) st wn
  : option (rx * pwr_rd_match) :=
  if negb (bool_decide (wn_in_sync wn = PRMSS_OUT_OF_SYNC)) || (seq >? wn_end_of_out_of_sync_seq wn)
  then Some (st, wn)
  else
    dup ← nn_reorder_rsample_dup s;
    '(st, wn, sc, rres2) ← reader_rsample st wn dup (dq_full (Some (wn_rd_guid wn)));
    if (rres2 =? NN_REORDER_TOO_OLD) || (rres2 =? NN_REORDER_REJECT) || (rres2 =? NN_REORDER_ACCEPT)
    then Some (st, wn)
    else if negb (rres2 >? 0) then None
    else
      '(st, wn) ← maybe_set_reader_in_sync st wn seq;
      Some (emit st (OutEnqueue1 (wn_rd_guid wn) sc rres2), wn).

(** With best-effort readers only, the gap [1, seq) forces delivery. *)
Definition force_delivery st rd (seq : Z) : option (rx * list rsample_chain_elem * Z) :=
  '(r, h, (sc, gap_refc_adjust, rres)) ← nn_reorder_gap (pwr_reorder (rx_pwr st)) (rx_h st) rd 1 seq;
  if (rres >? 0) && (gap_refc_adjust =? 0)
  then Some (with_h (with_pwr st (pwr_set_reorder (rx_pwr st) r)) h, sc, rres)
  else None.

(** What [handle_regular] does with a complete sample. *)
Definition regular_rsample (dq_full : option nn_guid -> bool) st info rd (s : rsample_reorder) : option rx :=
  fragchain ← nn_rsample_fragchain s;
  let full := pwr_builtins_dqueue (rx_pwr st) && dq_full None in
  '(st, sc, rres) ← primary_rsample st s full;
  '(st, sc, rres) ← (if (rres =? NN_REORDER_ACCEPT) && (pwr_n_reliable_readers (rx_pwr st) =? 0)
                     then force_delivery st rd (si_seq info)
                     else Some (st, sc, rres));
  st ← (if rres >? 0 then
          st ← deliver_primary st sc rres;
          if pwr_n_readers_out_of_sync (rx_pwr st) >? 0
          then for_readers (tlcatchup_reader (si_seq info)) st
          else Some st
        else if rres =? NN_REORDER_TOO_OLD then
          for_readers (too_old_reader dq_full s (si_seq info)) st
        else if (rres =? NN_REORDER_ACCEPT) || (rres =? NN_REORDER_REJECT) then Some st
        else None);
  h ← nn_fragchain_adjust_refcount (rx_h st) fragchain (rx_adjust st);
  Some (with_h st h).

Definition renew_lease st : rx := if pwr_assert_pp_lease (rx_pwr st) then emit st OutRenewLease else st.

Definition handle_regular (dq_full : option nn_guid -> bool) st info (fragnum : Z) rd : option rx :=
  let st := renew_lease st in
  if ot_is_empty (pwr_readers (rx_pwr st)) then Some st
  else
    let st := with_pwr st (track_seq (rx_pwr st) (si_seq info) fragnum) in
    st ← clean_defrag st;
    '(d, h, rsample) ← nn_defrag_rsample (pwr_defrag (rx_pwr st)) (rx_h st) rd info;
    let st := with_h (with_pwr st (pwr_set_defrag (rx_pwr st) d)) h in
    st ← (match rsample with
          | Some s => regular_rsample dq_full st info rd s
          | None => Some st
          end);
    Some (if negb (pwr_deliver_synchronously (rx_pwr st)) && negb (pwr_builtins_dqueue (rx_pwr st))
          then emit st OutWaitIfFull else st).

(** [nn_rdata_new] and [nn_rdata_newgap] in message [m], without the memory. *)
Definition rdata_new (m : rmsg_addr) (start endp1 submsg_offset payload_offset : Z) : option rdata :=
  s ← NN_OFF_TO_ZOFF submsg_offset; q ← NN_OFF_TO_ZOFF payload_offset; Some (Rdata m start endp1 s q).

Definition nn_rdata_newgap h (m : rmsg_addr) : option (rdata * H) :=
  rd ← rdata_new m 0 0 0 0; h ← nn_rdata_addbias h rd; Some (rd, h).

(** ** Gaps *)

(** The state, the match record of the addressed reader and whether the gap
    told anything new. *)
Definition handle_one_gap st (owner : option pwr_rd_match) (a b : Z) (gap : rdata)
  : option (rx * option pwr_rd_match * bool) :=
  '(d, h) ← nn_defrag_notegap (pwr_defrag (rx_pwr st)) (rx_h st) a b;
  let st := with_h (with_pwr st (pwr_set_defrag (rx_pwr st) d)) h in
  '(st, sc, res) ← primary_gap st gap a b;
  st ← (if res >? 0 then deliver_primary st sc res else Some st);
  let valuable := res >=? 0 in
  match owner with
  | None => Some (st, None, valuable)
  | Some wn =>
      if bool_decide (wn_in_sync wn = PRMSS_SYNC) then Some (st, Some wn, valuable)
      else
        '(st, wn, valuable) ←
          (if bool_decide (wn_in_sync wn = PRMSS_OUT_OF_SYNC) && (a <=? wn_end_of_out_of_sync_seq wn) then
             '(st, wn, sc, res) ← reader_gap st wn gap a b;
             let st := if res >? 0 then emit st (OutEnqueue1 (wn_rd_guid wn) sc res) else st in
             Some (st, wn, if res >=? 0 then true else valuable)
           else Some (st, wn, valuable));
        '(st, wn) ← maybe_set_reader_in_sync st wn (b - 1);
        Some (store_reader st wn, Some wn, valuable)
  end.

Definition lookup_reader st (dst : nn_guid) : option pwr_rd_match :=
  ot_lookup wn_key (pwr_readers (rx_pwr st)) (guid_key (platform_is_little_endian cfg) dst).

(** [for (; i < numbits; i++) if (!nn_bitset_isset (numbits, bits, i)) break;]:
    the final [i], after at most [n] rounds. *)
Fixpoint skip_set (n : nat) (numbits : Z) (bits : list Z) (i : Z) : option Z :=
  match n with
  | O => Some i
  | S n' =>
      if i <? numbits then
        b ← nn_bitset_isset numbits bits i;
        if b : bool then skip_set n' numbits bits (i + 1) else Some i
      else Some i
  end.

(** The [while] of [handle_Gap]: the state, the match record and
    [last_included_rel]. *)
Fixpoint gap_bits_loop (fuel : nat) st (owner : option pwr_rd_match) (listbase numbits : Z) (bits : list Z) (gap : rdata)
    (listidx last_included_rel : Z) : option (rx * option pwr_rd_match * Z) :=
  if listidx <? numbits then
    match fuel with
    | O => None
    | S fuel' =>
        set ← nn_bitset_isset numbits bits listidx;
        if set : bool then
          j ← skip_set (Z.to_nat numbits) numbits bits (listidx + 1);
          '(st, owner, _) ← handle_one_gap st owner (wrap_s 64 (listbase + listidx)) (wrap_s 64 (listbase + j)) gap;
          if j >=? 1 then gap_bits_loop fuel' st owner listbase numbits bits gap j (j - 1) else None
        else gap_bits_loop fuel' st owner listbase numbits bits gap (listidx + 1) last_included_rel
    end
  else Some (st, owner, last_included_rel).

(** [dst] is the addressed reader, [m] the message. *)
Definition handle_Gap st (m : rmsg_addr) (dst : nn_guid) (msg : Gap) : option rx :=
  let gapstart := fromSN (gp_gapStart msg) in
  let listbase := fromSN (ss_bitmap_base (gp_gapList msg)) in
  let numbits := ss_numbits (gp_gapList msg) in
  let bits := ss_bits (gp_gapList msg) in
  listidx ← skip_set (Z.to_nat numbits) numbits bits 0;
  let st := renew_lease st in
  match lookup_reader st dst with
  | None => Some st
  | Some wn =>
      '(gap, h) ← nn_rdata_newgap (rx_h st) m;
      let st := with_h st h in
      '(st, owner) ← (if gapstart <? wrap_s 64 (listbase + listidx)
                      then '(st, owner, _) ← handle_one_gap st (Some wn) gapstart (wrap_s 64 (listbase + listidx)) gap; Some (st, owner)
                      else Some (st, Some wn));
      '(st, owner, last_included_rel) ←
        gap_bits_loop (Z.to_nat numbits) st owner listbase numbits bits gap listidx (listidx - 1);
      h ← nn_fragchain_adjust_refcount (rx_h st) [gap] (rx_adjust st);
      let st := with_h st h in
      let last_included := wrap_s 64 (listbase + last_included_rel) in
      Some (if last_included >? pwr_last_seq (rx_pwr st)
            then with_pwr st (pwr_set_last (rx_pwr st) last_included (2 ^ 32 - 1) false)
            else st)
  end.

Definition drop_oversize st (m : rmsg_addr) (dst : nn_guid) info : option rx :=
  '(gap, h) ← nn_rdata_newgap (rx_h st) m;
  let st := with_h st h in
  '(st, _, _) ← handle_one_gap st (lookup_reader st dst) (si_seq info) (wrap_s 64 (si_seq info + 1)) gap;
  h ← nn_fragchain_adjust_refcount (rx_h st) [gap] (rx_adjust st);
  Some (with_h st h).

(** [handle_Data] and [handle_DataFrag] for a known proxy writer: the
    submessage is at [smoff] in the packet and has [size] bytes, its payload
    is at [datap] in it. *)
Definition handle_Data (dq_full : option nn_guid -> bool) st (m : rmsg_addr) (dst : nn_guid) (smoff size : Z) info (datap : option Z)
  : option rx :=
  if si_size info >? max_sample_size cfg then drop_oversize st m dst info
  else
    let payload_offset := match datap with Some d => smoff + d | None => smoff + size end in
    rd ← rdata_new m 0 (si_size info) smoff payload_offset;
    handle_regular dq_full st info (2 ^ 32 - 1) rd.

Definition handle_DataFrag (dq_full : option nn_guid -> bool) st (m : rmsg_addr) (dst : nn_guid) (smoff size : Z) (msg : DataFrag)
    info (datap : Z) : option rx :=
  if si_size info >? max_sample_size cfg then drop_oversize st m dst info
  else
    let '(begin, endp1) := fragment_range msg size datap in
    rd ← rdata_new m begin endp1 smoff (smoff + datap);
    handle_regular dq_full st info (wrap_u 32 (df_fragmentStartingNum msg + df_fragmentsInSubmessage msg - 2)) rd.

(** ** Heartbeats *)

(** The new time of the event, and whether it changed. *)
Definition resched_xevent_if_earlier (ev tsched : Z) : option (Z * bool) :=
  if tsched >? TSCHED_DELETE then Some (if tsched >=? ev then (ev, false) else (tsched, true)) else None.

(** When to respond, for the reference number [refseq]. *)
Definition nack_time p wn (flags refseq tnow_mt : Z) : Z :=
  if pwr_last_seq p >? refseq then
    if (tnow_mt >=? wn_t_last_nack wn + nack_delay cfg) || (refseq >=? wn_seq_last_nack wn)
    then tnow_mt else tnow_mt + nack_delay cfg
  else if negb (flag flags HEARTBEAT_FLAG_FINAL) then tnow_mt
  else T_NEVER.

Definition handle_Heartbeat_helper (msg : Heartbeat) (timestamp : nn_ddsi_time) (tnow tnow_mt : Z) st wn
  : option (rx * pwr_rd_match) :=
  let '(ok, next_heartbeat, t_accepted) :=
    accept_ack_or_hb_w_timeout (hb_count msg) (wn_next_heartbeat wn) tnow (wn_t_heartbeat_accepted wn) false in
  let wn := wn_set_heartbeat wn next_heartbeat t_accepted in
  if negb ok then Some (st, wn)
  else
    let p := rx_pwr st in
    let refseq := if negb (bool_decide (wn_in_sync wn = PRMSS_OUT_OF_SYNC))
                  then nn_reorder_next_seq (pwr_reorder p) - 1
                  else nn_reorder_next_seq (wn_reorder wn) - 1 in
    match wn_acknack_xevent wn with
    | None => Some (st, wn)
    | Some ev =>
        '(ev, resched) ← resched_xevent_if_earlier ev (nack_time p wn (hb_flags msg) refseq tnow_mt);
        Some (st, wn_set_event wn (Some ev)
                    (if resched && meas_hb_to_ack_latency cfg && valid_ddsi_timestamp timestamp
                     then nn_wctime_from_ddsi_time timestamp else wn_hb_timestamp wn))
    end.

(** [ut_avlWalkRange]: the readers with keys from [kmin] to [kmax], in order. *)
Fixpoint walk_range_loop (fuel : nat) (f : rx -> pwr_rd_match -> option (rx * pwr_rd_match)) (kmax : Z) st
    (o : option pwr_rd_match) : option rx :=
  match o with
  | None => Some st
  | Some wn =>
      if wn_key wn <=? kmax then
        match fuel with
        | O => None
        | S fuel' =>
            '(st, wn) ← f st wn;
            let st := store_reader st wn in
            walk_range_loop fuel' f kmax st (ot_find_succ wn_key (pwr_readers (rx_pwr st)) (wn_key wn))
        end
      else Some st
  end.

Definition handle_forall_destinations (dst : nn_guid) (f : rx -> pwr_rd_match -> option (rx * pwr_rd_match)) st : option rx :=
  let haveprefix := negb (bool_decide (guid_prefix dst = (0, 0, 0))) in
  let haveid := negb (guid_entityid dst =? NN_ENTITYID_UNKNOWN) in
  let t := pwr_readers (rx_pwr st) in
  match haveprefix, haveid with
  | false, false => for_readers f st
  | false, true =>
      for_readers (fun st wn => if guid_entityid (wn_rd_guid wn) =? guid_entityid dst then f st wn else Some (st, wn)) st
  | true, false =>
      let key g := guid_key (platform_is_little_endian cfg) g in
      walk_range_loop (length (ot_elements t)) f (key (NnGuid (guid_prefix dst) (2 ^ 32 - 1))) st
        (ot_lookup_succeq wn_key t (key (NnGuid (guid_prefix dst) 0)))
  | true, true =>
      match lookup_reader st dst with
      | Some wn => '(st, wn) ← f st wn; Some (store_reader st wn)
      | None => Some st
      end
  end.

(** The loop over the readers that are not in sync. *)
Definition heartbeat_reader (gap : rdata) (firstseq lastseq : Z) st wn : option (rx * pwr_rd_match) :=
  match wn_in_sync wn with
  | PRMSS_SYNC => Some (st, wn)
  | s =>
      '(st, wn, last_deliv_seq) ←
        (match s with
         | PRMSS_OUT_OF_SYNC =>
             '(st, wn, sc, res) ← reader_gap st wn gap 1 firstseq;
             let st := if res >? 0 then emit st (OutEnqueue1 (wn_rd_guid wn) sc res) else st in
             Some (st, wn, nn_reorder_next_seq (wn_reorder wn) - 1)
         | _ => Some (st, wn, nn_reorder_next_seq (pwr_reorder (rx_pwr st)) - 1)
         end);
      let wn := if wn_end_of_tl_seq wn =? MAX_SEQ_NUMBER then wn_set_end_of_tl wn lastseq else wn in
      maybe_set_reader_in_sync st wn last_deliv_seq
  end.

Definition track_heartbeat p (lastseq : Z) : proxy_writer :=
  if lastseq >? pwr_last_seq p then pwr_set_last p lastseq (2 ^ 32 - 1) false
  else if negb (pwr_last_fragnum p =? 2 ^ 32 - 1) && (lastseq =? pwr_last_seq p) then
    if negb (pwr_last_fragnum_reset p) then pwr_set_last p (pwr_last_seq p) (pwr_last_fragnum p) true
    else pwr_set_last p (pwr_last_seq p) (2 ^ 32 - 1) false
  else p.

Definition handle_Heartbeat st (m : rmsg_addr) (dst : nn_guid) (msg : Heartbeat) (timestamp : nn_ddsi_time) (tnow tnow_mt : Z)
  : option rx :=
  let firstseq := fromSN (hb_firstSN msg) in
  let st := renew_lease st in
  let st := with_pwr st (track_heartbeat (pwr_set_seen (rx_pwr st)) (fromSN (hb_lastSN msg))) in
  '(d, h) ← nn_defrag_notegap (pwr_defrag (rx_pwr st)) (rx_h st) 1 firstseq;
  let st := with_h (with_pwr st (pwr_set_defrag (rx_pwr st) d)) h in
  '(gap, h) ← nn_rdata_newgap (rx_h st) m;
  let st := with_h st h in
  '(st, sc, res) ← primary_gap st gap 1 firstseq;
  st ← (if res >? 0 then deliver_primary st sc res else Some st);
  st ← for_readers (heartbeat_reader gap firstseq (fromSN (hb_lastSN msg))) st;
  h ← nn_fragchain_adjust_refcount (rx_h st) [gap] (rx_adjust st);
  let st := with_h st h in
  handle_forall_destinations dst (handle_Heartbeat_helper msg timestamp tnow tnow_mt) st.
(** The first reader, in order, that satisfies [P]. *)
Definition find_reader p (P : pwr_rd_match -> bool) : option pwr_rd_match :=
  List.find P (ot_elements (pwr_readers p)).

(** The reader on whose behalf missing fragments of [seq] are requested. *)
Definition nackfrag_reader p (seq : Z) : option pwr_rd_match :=
  if nn_reorder_wantsample (pwr_reorder p) seq then
    match ot_root (pwr_readers p) with
    | Some m => match wn_acknack_xevent m with
                | Some _ => Some m
                | None => find_reader p (fun m => bool_decide (is_Some (wn_acknack_xevent m)))
                end
    | None => None
    end
  else if seq <? nn_reorder_next_seq (pwr_reorder p) then
    find_reader p (fun m => bool_decide (wn_in_sync m = PRMSS_OUT_OF_SYNC) && bool_decide (is_Some (wn_acknack_xevent m)) &&
                            nn_reorder_wantsample (wn_reorder m) seq)
  else None.

(** [now] is [now_mt ()]; the bitmap of 256 bits is 8 words of the stack. *)
Definition handle_HeartbeatFrag st (msg : HeartbeatFrag) (now : Z) (nackfrag_bits : list Z) : option rx :=
  let seq := fromSN (hf_writerSN msg) in
  let fragnum := wrap_u 32 (hf_lastFragmentNum msg - 1) in
  let st := renew_lease st in
  let st := with_pwr st (track_seq (rx_pwr st) seq fragnum) in
  if ot_is_empty (pwr_readers (rx_pwr st)) then Some st
  else
    match nackfrag_reader (rx_pwr st) seq with
    | None => Some st
    | Some m =>
        '(n, _) ← nn_defrag_nackmap (pwr_defrag (rx_pwr st)) seq fragnum nackfrag_bits 256;
        if n >? 0 then
          ev ← wn_acknack_xevent m;
          t ← add_duration_to_mtime now (nack_delay cfg);
          '(ev, _) ← resched_xevent_if_earlier ev t;
          Some (store_reader st (wn_set_event m (Some ev) (wn_hb_timestamp m)))
        else Some st
    end.

(** ** Matching readers *)

(** [struct reader], as far as a connection depends on it. *)
Record reader : Type := Reader {
  rd_guid : nn_guid;
  rd_reliable : bool;
  rd_handle_as_transient_local : bool;
}.

(** [is_builtin_entityid] for an entity of this vendor. *)
Definition is_builtin_own_entityid (id : Z) : bool := (Z.land id 0xc0 =? 0xc0) || (Z.land id 0xc0 =? 0x40).

(** [now] is [now_mt ()] and [garbage] the memory [os_malloc] returned, from
    which the fields come that are not set.  The groups of the reader belong to
    the kernel side and are left out. *)
Definition proxy_writer_add_connection p (rd : reader) (tnow now init_count : Z) (garbage : pwr_rd_match) : option proxy_writer :=
  match ot_lookup wn_key (pwr_readers p) (guid_key (platform_is_little_endian cfg) (rd_guid rd)) with
  | Some _ => Some p
  | None =>
      let last_deliv_seq := nn_reorder_next_seq (pwr_reorder p) - 1 in
      let '(in_sync, end_of_tl_seq, end_of_out_of_sync_seq) :=
        if negb (rd_handle_as_transient_local rd)
        then (PRMSS_SYNC, wn_end_of_tl_seq garbage, wn_end_of_out_of_sync_seq garbage)
        else if last_deliv_seq =? 0
        then (PRMSS_TLCATCHUP, MAX_SEQ_NUMBER, wn_end_of_out_of_sync_seq garbage)
        else if negb (conservative_builtin_reader_startup cfg) && is_builtin_own_entityid (guid_entityid (rd_guid rd)) &&
                negb (ot_is_empty (pwr_readers p))
        then (PRMSS_SYNC, wn_end_of_tl_seq garbage, wn_end_of_out_of_sync_seq garbage)
        else (PRMSS_OUT_OF_SYNC, pwr_last_seq p, last_deliv_seq) in
      let n_out_of_sync := pwr_n_readers_out_of_sync p + if bool_decide (in_sync = PRMSS_SYNC) then 0 else 1 in
      ev ← (if rd_reliable rd then t ← add_duration_to_mtime tnow (preemptive_ack_delay cfg); Some (Some t) else Some None);
      let mode := if rd_reliable rd then NN_REORDER_MODE_NORMAL else NN_REORDER_MODE_MONOTONICALLY_INCREASING in
      let m := PwrRdMatch (rd_guid rd) now init_count DDSI_COUNT_MIN 0 0 0 0 ev in_sync end_of_tl_seq end_of_out_of_sync_seq
                 (nn_reorder_new mode (secondary_reorder_maxsamples cfg)) in
      let p := pwr_set_counts p (pwr_n_reliable_readers p + if rd_reliable rd then 1 else 0) n_out_of_sync in
      Some (pwr_set_readers p (ot_insert wn_key (pwr_readers p) m))
  end.

(** [free_pwr_rd_match]: the references of its reorder administration. *)
Definition free_pwr_rd_match h wn : option H := nn_reorder_free (wn_reorder wn) h.

Definition proxy_writer_drop_connection st (rd : reader) : option rx :=
  let p := rx_pwr st in
  let m := lookup_reader st (rd_guid rd) in
  let st :=
    match m with
    | Some wn =>
        let p := pwr_set_readers p (ot_delete wn_key (pwr_readers p) (wn_key wn)) in
        if bool_decide (wn_in_sync wn = PRMSS_SYNC) then with_pwr st p
        else emit (with_pwr st (pwr_set_counts p (pwr_n_reliable_readers p) (pwr_n_readers_out_of_sync p - 1)))
               (OutNotify (rd_guid rd))
    | None => st
    end in
  let p := rx_pwr st in
  let st := if rd_reliable rd
            then with_pwr st (pwr_set_counts p (pwr_n_reliable_readers p - 1) (pwr_n_readers_out_of_sync p)) else st in
  match m with
  | Some wn => h ← free_pwr_rd_match (rx_h st) wn; Some (with_h st h)
  | None => Some st
  end.

(** ** Making and deleting a proxy writer *)

Definition new_proxy_writer (isreliable deliver_synchronously assert_pp_lease builtins_dqueue : bool) : option proxy_writer :=
  d ← (if isreliable then nn_defrag_new NN_DEFRAG_DROP_LATEST (defrag_reliable_maxsamples cfg)
       else nn_defrag_new NN_DEFRAG_DROP_OLDEST (defrag_unreliable_maxsamples cfg));
  let mode := if isreliable then NN_REORDER_MODE_NORMAL else NN_REORDER_MODE_MONOTONICALLY_INCREASING in
  Some (ProxyWriter ot_init 0 0 0 (2 ^ 32 - 1) false deliver_synchronously false assert_pp_lease d
          (nn_reorder_new mode (primary_reorder_maxsamples cfg)) builtins_dqueue).

(** [while (!ut_avlIsEmpty (&pwr->readers))] *)
Fixpoint delete_readers_loop (fuel : nat) (t : T pwr_rd_match) h : option H :=
  match ot_root t with
  | None => Some h
  | Some m =>
      match fuel with
      | O => None
      | S fuel' => h ← free_pwr_rd_match h m; delete_readers_loop fuel' (ot_delete wn_key t (wn_key m)) h
      end
  end.

(** [gc_delete_proxy_writer]: the references that are left. *)
Definition gc_delete_proxy_writer p h : option H :=
  h ← delete_readers_loop (length (ot_elements (pwr_readers p))) (pwr_readers p) h;
  h ← nn_defrag_free (pwr_defrag p) h;
  nn_reorder_free (pwr_reorder p) h.

(** ** Participant discovery *)

(** [handle_SPDP]: there is no proxy writer; the administrations are global.
    The state, the counts and what goes to the queue of the built-in topics. *)
Definition handle_SPDP (spdp_defrag : nn_defrag T) (spdp_reorder : nn_reorder T) h info rd (full : bool)
  : option (nn_defrag T * nn_reorder T * H * list output) :=
  '(d, h, rsample) ← nn_defrag_rsample spdp_defrag h rd info;
  s ← rsample;
  fragchain ← nn_rsample_fragchain s;
  '(r, h, (sc, refc_adjust, rres)) ← nn_reorder_rsample spdp_reorder h s (late_ack_mode cfg) full;
  let out := if rres >? 0 then [OutEnqueue sc rres] else [] in
  h ← nn_fragchain_adjust_refcount h fragchain refc_adjust;
  Some (d, r, h, out).
End Receive.
Arguments pwr_rd_match : clear implicits.
Arguments proxy_writer : clear implicits.
Arguments rx : clear implicits.
