(* ===== verification/ReceiveFacts.v ===== *)
(** * What the steps of the handlers conserve

    The reorder administrations in the modes a proxy writer uses them in, the
    references a proxy writer owes, and the loops over its readers. *)

From Stdlib Require Import ZArith Lia Sorting.Sorted.
From stdpp Require Import prelude.
From S2P Require Import Prelude OrdTree Bitset Refs Defrag DefragFacts DefragOps DefragProps Reorder ReorderFacts ReorderOps ReorderProps ReorderGap ReorderRun Rmsg Dqueue Time Wire Protocol Receive.

Section Moved.
Context {T : Type -> Type} `{!OrdTree T, !OrdTreeLaws T}.
Context {H : Type} `{!RmsgRefs H, !RmsgRefsLaws H}.
Implicit Types (r : nn_reorder T) (s : rsample_reorder) (h : H).

(** One operation on a reorder administration, in the normal or in the
    monotonic mode. *)
Record moved (news : list rsample_chain_elem) r h r' h' (out : outcome) : Prop := {
  mv_ok : reorder_ok r';
  mv_wf : rc_wf h';
  mv_conf : same_conf r r';
  mv_fits : fits (rr_next_seq r) (rr_next_seq r') out.1.1;
  mv_res : out.2 = Z.of_nat (length out.1.1) \/
           out.1.1 = [] /\ (out.2 = NN_REORDER_TOO_OLD \/ out.2 = NN_REORDER_REJECT);
  mv_adj : out.1.2 = 0 \/ out.1.2 = 1;
  mv_refs : forall m, rc h' m - elem_refs m (elems (rivs r')) - elem_refs m out.1.1 + out.1.2 * elem_refs m news =
                      rc h m - elem_refs m (elems (rivs r));
  mv_from : forall e, e ∈ elems (rivs r') \/ e ∈ out.1.1 -> e ∈ elems (rivs r) \/ e ∈ news;
}.

Lemma reord_moved lo hi news r h r' h' out dropped :
  reord lo hi news r h r' h' out dropped ->
  (out.2 < 0 -> out.2 = NN_REORDER_TOO_OLD \/ out.2 = NN_REORDER_REJECT) -> moved news r h r' h' out.
Proof.
  intros Hre Hc. pose proof (re_elems _ _ _ _ _ _ _ _ _ Hre) as He. split; try apply Hre.
  - destruct (re_res _ _ _ _ _ _ _ _ _ Hre) as [|[? Hn]]; [by left|right; auto].
  - intros m. rewrite (re_refs _ _ _ _ _ _ _ _ _ Hre). pose proof (elem_refs_perm m _ _ He) as Hp.
    rewrite !elem_refs_app in Hp. destruct (re_adj _ _ _ _ _ _ _ _ _ Hre) as [E|E]; rewrite E in *; simpl in Hp; lia.
  - intros e Hin. assert (Hi : e ∈ elems (rivs r') ++ out.1.1 ++ dropped) by set_solver.
    rewrite He in Hi. destruct (out.1.2 =? 1); set_solver.
Qed.

Lemma moved_refl news r h res :
  reorder_ok r -> rc_wf h -> res = NN_REORDER_TOO_OLD \/ res = NN_REORDER_REJECT -> moved news r h r h ([], 0, res).
Proof.
  intros Hok Hwf Hr. split; simpl; auto; [done|lia|intros m; lia|]. intros e [|He]; [by left|by apply elem_of_nil in He].
Qed.

Abbreviation deliverable r := (rr_mode r <> NN_REORDER_MODE_ALWAYS_DELIVER).

Lemma any_rsample_spec r h s q la full :
  reorder_ok r -> rc_wf h -> deliverable r -> sample_in q s -> sc_cover h (elems (rivs r) ++ ro_sc s) ->
  exists r' h' out, nn_reorder_rsample r h s la full = Some (r', h', out) /\ moved (ro_sc s) r h r' h' out.
Proof.
  intros Hok Hwf Hm Hs Hc. destruct (decide (rr_mode r = NN_REORDER_MODE_NORMAL)) as [Hn|Hn].
  - destruct (rsample_normal_spec r h s q la full Hok Hwf Hn Hs Hc) as (r' & h' & out & dr & E & Hre & Ha).
    exists r', h', out. split; [done|]. eapply reord_moved; [done|]. intros Hneg. unfold answers in Ha.
    destruct (q <? rr_next_seq r); [by left|]. destruct (q =? rr_next_seq r).
    + destruct full; [by right|lia].
    + destruct Ha as [[Ha _]|[Ha _]]; [by right|]. rewrite Ha in Hneg. done.
  - rewrite (rsample_modes_spec r h s q la full Hok Hn Hs).
    assert (Hmono : rr_mode r = NN_REORDER_MODE_MONOTONICALLY_INCREASING) by (destruct (rr_mode r); done).
    rewrite bool_decide_eq_true_2 by done. cbn [andb].
    destruct (Z.ltb_spec q (rr_next_seq r)) as [Hlt|Hge]; [eexists _, _, _; split; [done|]; apply moved_refl; auto|].
    destruct full; [eexists _, _, _; split; [done|]; apply moved_refl; auto|].
    eexists _, _, _. split; [done|]. destruct (sample_in_good q s Hs) as (Gs & Hmin & Hmax & _ & Hlen).
    pose proof (rk_mode _ Hok Hn) as He. assert (He' : rivs (set_next_seq r (q + 1)) = []) by done.
    split; simpl; rewrite ?He', ?He; auto.
    + destruct Hok as [[Hw Ho Hmx Hnx] Hcount Hl Hmode]. split; [split|..]; rewrite ?He'; auto.
      * by rewrite He in Ho.
      * by rewrite He in Hmx.
      * by rewrite He in Hcount.
    + by split.
    + rewrite <- Hmax, <- Hmin in *. apply (fits_weaken (ro_min s) (ro_maxp1 s)); [apply Gs|lia|lia].
    + left. by rewrite Hlen.
    + intros m. simpl. lia.
Qed.

Lemma any_gap_spec r h rd lo hi :
  reorder_ok r -> rc_wf h -> deliverable r -> lo < hi \/ hi <= rr_next_seq r ->
  sc_cover h (elems (rivs r) ++ gap_news rd) ->
  exists r' h' out, nn_reorder_gap r h rd lo hi = Some (r', h', out) /\ moved (gap_news rd) r h r' h' out.
Proof.
  intros Hok Hwf Hm Hlh Hc.
  destruct (Z.le_gt_cases hi (rr_next_seq r)) as [Hold|Hnew].
  { unfold nn_reorder_gap, nn_reorder_gap_build. destruct (Z.leb_spec hi (rr_next_seq r)); [|lia].
    eexists _, _, _. split; [done|]. apply moved_refl; auto. }
  destruct (decide (rr_mode r = NN_REORDER_MODE_NORMAL)) as [Hn|Hn].
  - destruct (gap_normal_spec r h rd lo hi Hok Hwf Hn) as (r' & h' & out & dr & E & Hre & Ha); [lia|done|].
    exists r', h', out. split; [done|]. eapply reord_moved; [done|]. intros Hneg. unfold gap_answers in Ha.
    destruct (hi <=? rr_next_seq r); [by left|]. destruct (lo <=? rr_next_seq r); [lia|].
    destruct Ha as [Ha|[Ha _]]; [|by right]. rewrite Ha in Hneg. done.
  - unfold nn_reorder_gap, nn_reorder_gap_build. destruct (Z.leb_spec hi (rr_next_seq r)); [lia|].
    rewrite bool_decide_eq_false_2 by done. cbn [negb]. eexists _, _, _. split; [done|]. apply moved_refl; auto.
Qed.

(** ** Forced delivery *)

(** A stored sample lies in an interval. *)
Lemma stored_covered l q : ro_ok l -> q ∈ elem_seqs (elems l) -> exists iv, iv ∈ l /\ ro_min iv <= q < ro_maxp1 iv.
Proof.
  intros [_ Hg] Hq. induction l as [|a l IH]; [by apply elem_of_nil in Hq|].
  rewrite elems_cons, elem_seqs_app, elem_of_app in Hq. apply Forall_cons in Hg as [Ga Hg].
  destruct Hq as [Hq|Hq].
  - exists a. split; [left|]. destruct (fits_seqs _ _ _ (rg_fits _ Ga)) as [_ Hr]. rewrite Forall_forall in Hr. by apply Hr.
  - destruct (IH Hg Hq) as (iv & Hin & Hr). exists iv. split; [by right|done].
Qed.

(** A gap up to a stored sample releases it: the assertions of [handle_regular]. *)
Lemma gap_forces r h rd q :
  reorder_ok r -> rc_wf h -> rr_mode r = NN_REORDER_MODE_NORMAL -> 1 <= rr_next_seq r ->
  sc_cover h (elems (rivs r) ++ gap_news rd) -> q ∈ elem_seqs (elems (rivs r)) ->
  exists r' h' out, nn_reorder_gap r h rd 1 q = Some (r', h', out) /\ moved (gap_news rd) r h r' h' out /\
    0 < out.2 /\ out.1.2 = 0.
Proof.
  intros Hok Hwf Hmode Hnx Hc Hq.
  destruct (stored_covered _ _ (tk_ivs _ (rk_tree _ Hok)) Hq) as (iv & Hiv & Hr).
  assert (Hn : rr_next_seq r < q).
  { pose proof (tk_next _ (rk_tree _ Hok)) as Hf. rewrite Forall_forall in Hf. specialize (Hf iv Hiv). simpl in Hf. lia. }
  destruct (gap_normal_spec r h rd 1 q Hok Hwf Hmode) as (r' & h' & out & dr & E & Hre & Ha); [lia|done|].
  unfold gap_answers in Ha. destruct (Z.leb_spec q (rr_next_seq r)); [lia|]. destruct (Z.leb_spec 1 (rr_next_seq r)); [|lia].
  destruct Ha as [Ha1 Ha2]. exists r', h', out. split; [done|]. split; [eapply reord_moved; [done|]; lia|]. split; [|done].
  assert (dr = []) as ->.
  { destruct (re_dropped _ _ _ _ _ _ _ _ _ Hre) as [|(_ & _ & ?)]; [done|lia]. }
  pose proof (re_elems _ _ _ _ _ _ _ _ _ Hre) as He. rewrite Ha2 in He. simpl in He. rewrite !app_nil_r in He.
  destruct (re_res _ _ _ _ _ _ _ _ _ Hre) as [Hl|[_ ?]]; [|lia]. destruct out.1.1 as [|e sc]; [exfalso|simpl in Hl; lia].
  rewrite app_nil_r in He.
  assert (Hq' : q ∈ elem_seqs (elems (rivs r'))).
  { clear -He Hq. assert (Hp : elem_seqs (elems (rivs r')) ≡ₚ elem_seqs (elems (rivs r))).
    { remember (elems (rivs r')) as a. remember (elems (rivs r)) as b. clear -He. induction He; simpl; auto.
      - destruct (ce_sampleinfo x); [by constructor|done].
      - destruct (ce_sampleinfo x), (ce_sampleinfo y); auto. by constructor.
      - by etrans. }
    by rewrite Hp. }
  pose proof (re_ok _ _ _ _ _ _ _ _ _ Hre) as Hok'. pose proof (tk_ivs _ (rk_tree _ Hok')) as Ho'.
  destruct (stored_covered _ _ Ho' Hq') as (iv' & Hiv' & Hr').
  pose proof (tk_next _ (rk_tree _ Hok')) as Hf'. rewrite Forall_forall in Hf'. specialize (Hf' iv' Hiv'). simpl in Hf'.
  pose proof (fits_le _ _ _ (re_fits _ _ _ _ _ _ _ _ _ Hre)) as Hle. simpl in Hle.
  destruct (re_known _ _ _ _ _ _ _ _ _ Hre eq_refl (ro_min iv' - 1)) as [Hk|(iv2 & Hiv2 & Hr2)]; [right; lia|lia|].
  apply list_elem_of_split in Hiv' as (l1 & l2 & El). rewrite El in Ho', Hiv2.
  apply ro_ok_mid in Ho' as (_ & _ & Gv & S1 & S2 & _). rewrite Forall_forall in S1, S2.
  rewrite elem_of_app, elem_of_cons in Hiv2. unfold rsep in *.
  destruct Hiv2 as [Hi|[->|Hi]]; [specialize (S1 _ Hi); lia|lia|].
  specialize (S2 _ Hi). apply rgood_range in Gv. lia.
Qed.
End Moved.

(** ** Outputs *)

(** The samples (and gaps) that the readers in sync get. *)
Fixpoint primary (o : list output) : list rsample_chain_elem :=
  match o with
  | [] => []
  | OutEnqueue sc _ :: o' => sc ++ primary o'
  | OutDeliver info c :: o' => ChainElem c (Some info) :: primary o'
  | _ :: o' => primary o'
  end.

(** Those that only the reader [g] gets. *)
Fixpoint reader_chain (g : nn_guid) (o : list output) : list rsample_chain_elem :=
  match o with
  | [] => []
  | OutEnqueue1 g' sc _ :: o' => (if decide (g' = g) then sc else []) ++ reader_chain g o'
  | _ :: o' => reader_chain g o'
  end.

(** The references handed over to the delivery queue. *)
Fixpoint handed (m : rmsg_addr) (o : list output) : Z :=
  match o with
  | [] => 0
  | OutEnqueue sc _ :: o' => elem_refs m sc + handed m o'
  | OutEnqueue1 _ sc _ :: o' => elem_refs m sc + handed m o'
  | _ :: o' => handed m o'
  end.

(** What is known of the fragments that arrive for a sequence number, such as
    which bytes they carry. *)
Class FragFrom : Type := frag_from : Z -> rdata -> Prop.

(** A chain that a reader can follow over the whole sample, of fragments that
    arrived for it. *)
Definition whole `{!FragFrom} (e : rsample_chain_elem) : Prop :=
  forall i, ce_sampleinfo e = Some i ->
    walk 0 (ce_fragchain e) = Some (si_size i) /\ Forall (frag_from (si_seq i)) (ce_fragchain e).

(** What the delivery queue asserts of what it gets, and whole samples. *)
Definition output_ok `{!FragFrom} (o : output) : Prop :=
  match o with
  | OutEnqueue sc n => sc <> [] /\ n = Z.of_nat (length sc) /\ Forall whole sc
  | OutEnqueue1 _ sc n => sc <> [] /\ n = Z.of_nat (length sc) /\ Forall whole sc
  | OutDeliver info c => whole (ChainElem c (Some info))
  | _ => True
  end.

Lemma primary_app a b : primary (a ++ b) = primary a ++ primary b.
Proof. induction a as [|[]]; simpl; rewrite ?IHa, ?app_assoc; done. Qed.
Lemma reader_chain_app g a b : reader_chain g (a ++ b) = reader_chain g a ++ reader_chain g b.
Proof. induction a as [|[]]; simpl; rewrite ?IHa, ?app_assoc; done. Qed.
Lemma handed_app m a b : handed m (a ++ b) = handed m a + handed m b.
Proof. induction a as [|[]]; simpl; rewrite ?IHa; lia. Qed.
Lemma handed_nonneg m o : 0 <= handed m o.
Proof. induction o as [|[]]; simpl; try lia; pose proof (elem_refs_nonneg m sc); lia. Qed.

(** Leaving out gaps keeps the order. *)
Lemma fits_sublist lo hi a b : fits lo hi b -> sublist a b -> fits lo hi a.
Proof.
  intros Hf Hs. revert lo Hf. induction Hs as [|x a b Hs IH|x a b Hs IH]; intros lo; simpl; [done|..].
  - intros (q & Hq & He & Hf). exists q. auto.
  - intros (q & Hq & He & Hf). apply IH. eapply fits_weaken; [exact Hf|lia|lia].
Qed.

Fixpoint count {A : Type} (P : A -> bool) (l : list A) : Z :=
  match l with [] => 0 | x :: l' => (if P x then 1 else 0) + count P l' end.

Lemma count_app {A : Type} (P : A -> bool) l1 l2 : count P (l1 ++ l2) = count P l1 + count P l2.
Proof. induction l1 as [|x l1 IH]; simpl; lia. Qed.
Lemma count_bound {A : Type} (P : A -> bool) l : 0 <= count P l <= Z.of_nat (length l).
Proof. induction l as [|x l IH]; simpl; [lia|]. destruct (P x); lia. Qed.

Section Carry.
Context {T : Type -> Type} `{!OrdTree T, !OrdTreeLaws T}.
Context {H : Type} `{!RmsgRefs H, !RmsgRefsLaws H}.
Context `{FF : !FragFrom} (cfg : ddsi_config).

Abbreviation BIAS := RMSG_REFCOUNT_RDATA_BIAS.
Abbreviation wkey := (@wn_key T cfg).
Implicit Types (wn : pwr_rd_match T) (p : proxy_writer T) (h : H) (st : rx T H).

Definition readers p : list (pwr_rd_match T) := ot_elements (pwr_readers p).

Fixpoint readers_refs (m : rmsg_addr) (l : list (pwr_rd_match T)) : Z :=
  match l with [] => 0 | wn :: l' => elem_refs m (elems (rivs (wn_reorder wn))) + readers_refs m l' end.

(** The references the administrations of a proxy writer hold. *)
Definition owed p (m : rmsg_addr) : Z :=
  BIAS * refs_to m (held (samples (pwr_defrag p))) + elem_refs m (elems (rivs (pwr_reorder p))) +
  readers_refs m (readers p).

Definition reo_ok (r : nn_reorder T) : Prop :=
  reorder_ok r /\ rr_mode r <> NN_REORDER_MODE_ALWAYS_DELIVER /\ 1 <= rr_next_seq r /\ Forall whole (elems (rivs r)).

Definition out_of_sync wn : bool := negb (bool_decide (wn_in_sync wn = PRMSS_SYNC)).
Definition is_reliable wn : bool := bool_decide (is_Some (wn_acknack_xevent wn)).

(** The invariant of a proxy writer. *)
Record pwr_ok p : Prop := {
  po_wf : ot_wf wkey (pwr_readers p);
  po_defrag : defrag_ok (pwr_defrag p);
  po_reorder : reo_ok (pwr_reorder p);
  po_readers : Forall (fun wn => reo_ok (wn_reorder wn)) (readers p);
  po_sync : pwr_n_readers_out_of_sync p = count out_of_sync (readers p);
  po_reliable : pwr_n_reliable_readers p = count is_reliable (readers p);
  po_few : Z.of_nat (length (readers p)) < 2 ^ 16;
  po_frags : frags_from frag_from (samples (pwr_defrag p));
}.

(** How a reader changes while [o] is put out: it keeps its GUID and mode, gets
    its samples in order, and only becomes more in sync. *)
Record reader_moves (o : list output) wn wn' : Prop := {
  rm_guid : wn_rd_guid wn' = wn_rd_guid wn;
  rm_conf : same_conf (wn_reorder wn) (wn_reorder wn');
  rm_rel : is_reliable wn' = is_reliable wn;
  rm_fits : fits (rr_next_seq (wn_reorder wn)) (rr_next_seq (wn_reorder wn')) (reader_chain (wn_rd_guid wn) o);
  rm_sync : out_of_sync wn' = true -> out_of_sync wn = true;
}.

(** The references accounted for, when the fragments of [chain] have their
    bias on top of [refc_adjust]. *)
Definition balance (chain : list rdata) st (m : rmsg_addr) : Z :=
  rc (rx_h st) m - owed (rx_pwr st) m - handed m (rx_out st) + rx_adjust st * refs_to m chain.

(** Fit to make [k] more calls of reorder administrations with [chain]. *)
Record ready (k : Z) (chain : list rdata) st : Prop := {
  rd_pwr : pwr_ok (rx_pwr st);
  rd_wf : rc_wf (rx_h st);
  rd_cover : forall m, BIAS * refs_to m chain <= balance chain st m;
  rd_adj : 0 <= rx_adjust st /\ rx_adjust st + k < BIAS;
}.

(** A part of a handler with at most [k] such calls. *)
Record carries (k : Z) (chain : list rdata) st st' : Prop := {
  cy_pwr : pwr_ok (rx_pwr st');
  cy_wf : rc_wf (rx_h st');
  cy_bal : forall m, balance chain st' m = balance chain st m;
  cy_adj : rx_adjust st <= rx_adjust st' <= rx_adjust st + k;
  cy_out : exists o, rx_out st' = rx_out st ++ o /\ Forall output_ok o /\
    fits (rr_next_seq (pwr_reorder (rx_pwr st))) (rr_next_seq (pwr_reorder (rx_pwr st'))) (primary o) /\
    Forall2 (reader_moves o) (readers (rx_pwr st)) (readers (rx_pwr st'));
  cy_samples : forall s, s ∈ samples (pwr_defrag (rx_pwr st')) -> s ∈ samples (pwr_defrag (rx_pwr st));
  cy_last : pwr_last_seq (rx_pwr st) <= pwr_last_seq (rx_pwr st');
  cy_conf : same_conf (pwr_reorder (rx_pwr st)) (pwr_reorder (rx_pwr st')) /\
    pwr_deliver_synchronously (rx_pwr st') = pwr_deliver_synchronously (rx_pwr st) /\
    pwr_builtins_dqueue (rx_pwr st') = pwr_builtins_dqueue (rx_pwr st);
}.

Lemma reader_moves_refl wn : reader_moves [] wn wn.
Proof. split; simpl; auto; [done|lia]. Qed.

Lemma reader_moves_trans o1 o2 wn wn1 wn2 :
  reader_moves o1 wn wn1 -> reader_moves o2 wn1 wn2 -> reader_moves (o1 ++ o2) wn wn2.
Proof.
  intros [G1 [C1 D1] R1 F1 S1] [G2 [C2 D2] R2 F2 S2]. split; try congruence.
  - split; congruence.
  - rewrite reader_chain_app. eapply fits_app; [exact F1|]. by rewrite <- G1.
  - auto.
Qed.

Lemma readers_moves_refl l : Forall2 (reader_moves []) l l.
Proof. induction l; constructor; [apply reader_moves_refl|done]. Qed.

Lemma readers_moves_trans o1 o2 l l1 l2 :
  Forall2 (reader_moves o1) l l1 -> Forall2 (reader_moves o2) l1 l2 -> Forall2 (reader_moves (o1 ++ o2)) l l2.
Proof.
  intros H1. revert l2. induction H1 as [|x y l l1 Hxy H1 IH]; intros l2 H2; [by inversion H2; subst|].
  inversion H2 as [|? z ? l2' Hyz H2']; subst. constructor; [by eapply reader_moves_trans|auto].
Qed.

Lemma carries_refl chain st : pwr_ok (rx_pwr st) -> rc_wf (rx_h st) -> carries 0 chain st st.
Proof.
  intros Hp Hw. split; auto; [lia| |lia|done]. exists []. rewrite app_nil_r. split; [done|].
  split; [constructor|]. split; [simpl; lia|]. apply readers_moves_refl.
Qed.

Lemma carries_trans k1 k2 chain st st1 st2 :
  carries k1 chain st st1 -> carries k2 chain st1 st2 -> carries (k1 + k2) chain st st2.
Proof.
  intros [P1 W1 B1 A1 (o1 & O1 & K1 & F1 & M1) S1 L1 ([C1 C1'] & D1 & E1)]
         [P2 W2 B2 A2 (o2 & O2 & K2 & F2 & M2) S2 L2 ([C2 C2'] & D2 & E2)].
  split; auto.
  - intros m. by rewrite B2.
  - lia.
  - exists (o1 ++ o2). rewrite O2, O1, app_assoc. split; [done|]. split; [by apply Forall_app|].
    split; [rewrite primary_app; by eapply fits_app|]. by eapply readers_moves_trans.
  - lia.
  - split; [split; congruence|]. split; congruence.
Qed.

Lemma carries_weaken k k' chain st st' : carries k chain st st' -> k <= k' -> carries k' chain st st'.
Proof. intros [P W B A O S L C] Hk. split; auto. lia. Qed.

Lemma ready_after k1 k2 chain st st1 : ready (k1 + k2) chain st -> carries k1 chain st st1 -> ready k2 chain st1.
Proof.
  intros [P W C A] Hc. split; [apply Hc|apply Hc|..].
  - intros m. rewrite (cy_bal _ _ _ _ Hc). auto.
  - pose proof (cy_adj _ _ _ _ Hc). lia.
Qed.

Lemma ready_weaken k k' chain st : ready k chain st -> k' <= k -> ready k' chain st.
Proof. intros [P W C A] Hk. split; auto. lia. Qed.
End Carry.
