(* ===== verification/ReceiveOps.v ===== *)
(** * The steps of the handlers

    Each part of a handler carries the state of a proxy writer over
    ([carries]): it keeps the invariant, accounts for every reference and
    delivers in order. *)

From Stdlib Require Import ZArith Lia Sorting.Sorted.
From stdpp Require Import prelude.
From S2P Require Import Prelude OrdTree Bitset Refs Defrag DefragFacts DefragOps DefragProps Reorder ReorderFacts ReorderOps ReorderProps ReorderGap ReorderRun Rmsg Dqueue Time Wire Protocol Receive ReceiveFacts.

Section Ops.
Context {T : Type -> Type} `{!OrdTree T, !OrdTreeLaws T}.
Context {H : Type} `{!RmsgRefs H, !RmsgRefsLaws H}.
Context `{FF : !FragFrom} (cfg : ddsi_config).

Abbreviation BIAS := RMSG_REFCOUNT_RDATA_BIAS.
Abbreviation wkey := (@wn_key T cfg).
Implicit Types (wn : pwr_rd_match T) (p : proxy_writer T) (h : H) (st : rx T H) (chain : list rdata).

Abbreviation carries := (carries cfg).
Abbreviation ready := (ready cfg).

Lemma readers_refs_app m (l1 l2 : list (pwr_rd_match T)) : readers_refs m (l1 ++ l2) = readers_refs m l1 + readers_refs m l2.
Proof. induction l1 as [|wn l1 IH]; simpl; lia. Qed.

Lemma readers_refs_nonneg m (l : list (pwr_rd_match T)) : 0 <= readers_refs m l.
Proof. induction l as [|wn l IH]; simpl; [lia|]. pose proof (elem_refs_nonneg m (elems (rivs (wn_reorder wn)))). lia. Qed.

(** The references cover everything, and [chain] once more. *)
Lemma ready_cover k chain st m : ready k chain st -> 0 <= k -> owed (rx_pwr st) m + refs_to m chain <= rc (rx_h st) m.
Proof.
  intros [_ _ C A] Hk. specialize (C m). unfold balance in C. pose proof (handed_nonneg m (rx_out st)).
  pose proof (refs_to_nonneg m chain). change BIAS with (2 ^ 20) in *. nia.
Qed.

Lemma primary_cover k chain st news :
  ready k chain st -> 0 <= k -> (forall m, elem_refs m news <= refs_to m chain) ->
  sc_cover (rx_h st) (elems (rivs (pwr_reorder (rx_pwr st))) ++ news).
Proof.
  intros Hr Hk Hn m. pose proof (ready_cover k chain st m Hr Hk) as Hc. unfold owed in Hc. rewrite elem_refs_app.
  specialize (Hn m). pose proof (refs_to_nonneg m (held (samples (pwr_defrag (rx_pwr st))))).
  pose proof (readers_refs_nonneg m (readers (rx_pwr st))). change BIAS with (2 ^ 20) in *. lia.
Qed.

Lemma reader_cover k chain st l1 wn l2 news :
  ready k chain st -> 0 <= k -> readers (rx_pwr st) = l1 ++ wn :: l2 -> (forall m, elem_refs m news <= refs_to m chain) ->
  sc_cover (rx_h st) (elems (rivs (wn_reorder wn)) ++ news).
Proof.
  intros Hr Hk El Hn m. pose proof (ready_cover k chain st m Hr Hk) as Hc. unfold owed in Hc. rewrite elem_refs_app.
  rewrite El, readers_refs_app in Hc. simpl in Hc.
  specialize (Hn m). pose proof (refs_to_nonneg m (held (samples (pwr_defrag (rx_pwr st))))).
  pose proof (readers_refs_nonneg m l1). pose proof (readers_refs_nonneg m l2).
  pose proof (elem_refs_nonneg m (elems (rivs (pwr_reorder (rx_pwr st))))). change BIAS with (2 ^ 20) in *. lia.
Qed.

(** ** Storing a match record *)

Lemma sorted_same_key (l1 l2 : list (pwr_rd_match T)) wn wn' :
  wkey wn' = wkey wn -> sorted wkey (l1 ++ wn :: l2) -> sorted wkey (l1 ++ wn' :: l2).
Proof.
  intros Hk. rewrite !sorted_mid. intros (S1 & S2 & S3 & S4 & S5). repeat (split; [done|]). split; [|split]; [..|done].
  - eapply Forall_impl; [exact S3|]. unfold key_lt. intros y Hy. by rewrite Hk.
  - eapply Forall_impl; [exact S4|]. unfold key_lt. intros y Hy. by rewrite Hk.
Qed.

Lemma store_spec p l1 wn l2 wn' :
  ot_wf wkey (pwr_readers p) -> readers p = l1 ++ wn :: l2 -> wn_rd_guid wn' = wn_rd_guid wn ->
  ot_wf wkey (ot_replace wkey (pwr_readers p) (wkey wn') wn') /\
  ot_elements (ot_replace wkey (pwr_readers p) (wkey wn') wn') = l1 ++ wn' :: l2.
Proof.
  intros Hw El Hg. assert (Hk : wkey wn' = wkey wn) by (unfold wn_key; by rewrite Hg).
  pose proof (ot_wf_sorted _ _ Hw) as Hs. fold (readers p) in Hs. rewrite El in Hs.
  rewrite Hk. apply ot_replace_spec; [done|done|]. by eapply sorted_same_key.
Qed.

(** ** Parts that only touch one field *)

Lemma carries_emit chain st o :
  pwr_ok cfg (rx_pwr st) -> rc_wf (rx_h st) -> output_ok o -> primary [o] = [] -> (forall g, reader_chain g [o] = []) ->
  (forall m, handed m [o] = 0) -> carries 0 chain st (emit st o).
Proof.
  intros Hp Hw Ho Hpr Hre Hh. split; simpl; auto.
  - intros m. unfold balance. simpl. rewrite handed_app, Hh. lia.
  - lia.
  - exists [o]. split; [done|]. split; [by constructor|]. split; [rewrite Hpr; simpl; lia|].
    pose proof (@readers_moves_refl T (readers (rx_pwr st))) as Hm. eapply Forall2_impl; [exact Hm|].
    intros wn wn' [G C R F S]. split; auto. by rewrite Hre.
  - lia.
  - done.
Qed.

Lemma carries_renew chain st : pwr_ok cfg (rx_pwr st) -> rc_wf (rx_h st) -> carries 0 chain st (renew_lease st).
Proof.
  intros Hp Hw. unfold renew_lease. destruct (pwr_assert_pp_lease (rx_pwr st)); [|by apply carries_refl].
  by apply carries_emit.
Qed.

(** Fields the invariant does not speak about. *)
Lemma carries_fields chain st p' :
  pwr_ok cfg (rx_pwr st) -> rc_wf (rx_h st) ->
  pwr_readers p' = pwr_readers (rx_pwr st) -> pwr_defrag p' = pwr_defrag (rx_pwr st) -> pwr_reorder p' = pwr_reorder (rx_pwr st) ->
  pwr_n_readers_out_of_sync p' = pwr_n_readers_out_of_sync (rx_pwr st) ->
  pwr_n_reliable_readers p' = pwr_n_reliable_readers (rx_pwr st) ->
  pwr_deliver_synchronously p' = pwr_deliver_synchronously (rx_pwr st) -> pwr_builtins_dqueue p' = pwr_builtins_dqueue (rx_pwr st) ->
  pwr_last_seq (rx_pwr st) <= pwr_last_seq p' -> carries 0 chain st (with_pwr st p').
Proof.
  intros [P1 P2 P3 P4 P5 P6 P7 P8] Hw E1 E2 E3 E4 E5 E6 E7 Hl.
  assert (Er : readers p' = readers (rx_pwr st)) by (unfold readers; by rewrite E1).
  split; simpl; auto.
  - split; rewrite ?Er, ?E1, ?E2, ?E3, ?E4, ?E5; auto.
  - intros m. unfold balance, owed. simpl. by rewrite Er, E2, E3.
  - lia.
  - exists []. rewrite app_nil_r, E3, Er. split; [done|]. split; [constructor|]. split; [simpl; lia|]. apply readers_moves_refl.
  - by rewrite E2.
  - by rewrite E3.
Qed.

Lemma carries_track chain st seq fragnum :
  pwr_ok cfg (rx_pwr st) -> rc_wf (rx_h st) -> carries 0 chain st (with_pwr st (track_seq (rx_pwr st) seq fragnum)).
Proof.
  intros Hp Hw. unfold track_seq. rewrite Z.gtb_ltb. destruct (Z.ltb_spec (pwr_last_seq (rx_pwr st)) seq).
  - apply carries_fields; simpl; auto. lia.
  - destruct (_ && _); apply carries_fields; simpl; auto; lia.
Qed.

(** ** The defragmenter *)

Lemma held_sub m l1 (r1 r2 : list (rsample_defrag T)) : refs_to m (held (l1 ++ r2)) <= refs_to m (held (l1 ++ r1 ++ r2)).
Proof. rewrite !held_app, !refs_to_app. pose proof (refs_to_nonneg m (held r1)). lia. Qed.

Lemma carries_notegap k chain st a b :
  ready k chain st -> 0 <= k ->
  exists d h, nn_defrag_notegap (pwr_defrag (rx_pwr st)) (rx_h st) a b = Some (d, h) /\
    carries 0 chain st (with_h (with_pwr st (pwr_set_defrag (rx_pwr st) d)) h) /\ (forall m, rc h m <= rc (rx_h st) m) /\
    Forall (fun s => ~ a <= df_seq s < b) (samples d).
Proof.
  intros Hr Hk. pose proof Hr as [Hp Hw _ _]. pose proof Hp as [P1 P2 P3 P4 P5 P6 P7 P8].
  assert (Hc : refs_cover (rx_h st) (held (samples (pwr_defrag (rx_pwr st))))).
  { intros m. pose proof (ready_cover k chain st m Hr Hk) as Hc. unfold owed in Hc.
    pose proof (readers_refs_nonneg m (readers (rx_pwr st))). pose proof (refs_to_nonneg m chain).
    pose proof (elem_refs_nonneg m (elems (rivs (pwr_reorder (rx_pwr st))))). lia. }
  destruct (notegap_spec (pwr_defrag (rx_pwr st)) (rx_h st) a b P2 Hw Hc)
    as (d & h & l1 & r1 & r2 & E & Hd & Hwh & Es & Ed & F1 & F2 & F3 & Hrc).
  exists d, h. split; [done|]. split; [|split].
  - split; simpl; auto.
    + split; auto. simpl. rewrite Ed. rewrite Es in P8. unfold frags_from in *. rewrite !Forall_app in *. tauto.
    + intros m. specialize (Hrc m). unfold balance, owed. simpl. change (readers (pwr_set_defrag (rx_pwr st) d)) with (readers (rx_pwr st)). lia.
    + lia.
    + exists []. rewrite app_nil_r. split; [done|]. split; [constructor|]. split; [simpl; lia|]. apply readers_moves_refl.
    + intros s Hs. rewrite Ed in Hs. rewrite Es. set_solver.
    + lia.
    + done.
  - intros m. specialize (Hrc m). rewrite Es, Ed in Hrc. pose proof (held_sub m l1 r1 r2). change BIAS with (2 ^ 20) in *. lia.
  - rewrite Ed. apply Forall_app. split; [eapply Forall_impl; [exact F1|]; simpl; lia|eapply Forall_impl; [exact F3|]; simpl; lia].
Qed.

Lemma carries_clean k chain st :
  ready k chain st -> 0 <= k -> exists st', clean_defrag st = Some st' /\ carries 0 chain st st' /\
    (forall m, rc (rx_h st') m <= rc (rx_h st) m).
Proof.
  intros Hr Hk. unfold clean_defrag.
  match goal with |- context [nn_defrag_notegap _ _ 1 ?q] => destruct (carries_notegap k chain st 1 q Hr Hk) as (d & h & E & Hc & Hle & _) end.
  rewrite E. cbn [mbind option_bind]. eexists. split; [done|]. split; [done|]. done.
Qed.

(** ** Delivery at once *)

Lemma sync_deliver_spec sc : forall st,
  rc_wf (rx_h st) -> sc_cover (rx_h st) sc -> Forall whole sc ->
  exists st' o, deliver_user_data_synchronously st sc = Some st' /\ rc_wf (rx_h st') /\
    rx_pwr st' = rx_pwr st /\ rx_adjust st' = rx_adjust st /\ rx_out st' = rx_out st ++ o /\
    (forall m, rc (rx_h st') m = rc (rx_h st) m - elem_refs m sc) /\
    sublist (primary o) sc /\ (forall g, reader_chain g o = []) /\ (forall m, handed m o = 0) /\ Forall output_ok o.
Proof.
  induction sc as [|e sc IH]; intros st Hw Hc Hwh; cbn [deliver_user_data_synchronously].
  - exists st, []. rewrite app_nil_r. repeat (split; [done|]). split; [intros m; simpl; lia|]. split; [constructor|]. auto.
  - apply Forall_cons in Hwh as [He Hwh]. set (st0 := match ce_sampleinfo e with Some _ => _ | None => _ end).
    assert (H0 : rx_h st0 = rx_h st /\ rx_pwr st0 = rx_pwr st /\ rx_adjust st0 = rx_adjust st).
    { unfold st0. by destruct (ce_sampleinfo e). }
    destruct H0 as (Eh & Ep & Ea). rewrite Eh.
    destruct (fragchain_unref_spec (rx_h st) (ce_fragchain e) Hw) as (h1 & E1 & Hw1 & Hr1).
    { intros m. specialize (Hc m). simpl in Hc. pose proof (elem_refs_nonneg m sc). lia. }
    rewrite E1. cbn [mbind option_bind].
    destruct (IH (with_h st0 h1)) as (st' & o & E & W & P & A & O & R & S & G & K & Q); [done| |done|].
    { intros m. simpl. specialize (Hc m). simpl in Hc. rewrite Hr1. lia. }
    exists st'. simpl in P, A, O, R. rewrite Ep in P. rewrite Ea in A.
    assert (Hst : exists o1, rx_out st0 = rx_out st ++ o1 /\ sublist (primary o1) [e] /\ (forall g, reader_chain g o1 = []) /\
              (forall m, handed m o1 = 0) /\ Forall output_ok o1).
    { unfold st0. destruct (ce_sampleinfo e) as [i|] eqn:Ei.
      - eexists [_]. split; [done|]. simpl. assert (Ee : ChainElem (ce_fragchain e) (Some i) = e) by (destruct e; simpl in *; congruence).
        rewrite Ee. split; [done|]. split; [done|]. split; [done|]. constructor; [|done]. simpl. by rewrite Ee.
      - exists []. rewrite app_nil_r. split; [done|]. split; [apply sublist_nil_l|]. auto. }
    destruct Hst as (o1 & O1 & S1 & G1 & K1 & Q1). exists (o1 ++ o). split; [done|]. split; [done|]. split; [done|]. split; [done|].
    split; [by rewrite O, O1, app_assoc|]. split; [intros m; rewrite R, Hr1; simpl; lia|].
    split; [rewrite primary_app; change (e :: sc) with ([e] ++ sc); by apply sublist_app|].
    split; [intros g; by rewrite reader_chain_app, G, G1|]. split; [intros m; rewrite handed_app, K, K1; lia|]. by apply Forall_app.
Qed.

Lemma gap_whole rd : Forall whole (gap_news rd).
Proof. apply Forall_singleton. by intros i. Qed.

(** ** The primary administration *)

Lemma reo_ok_moved news (r : nn_reorder T) h r' h' out :
  reo_ok r -> moved news r h r' h' out -> Forall whole news -> reo_ok r' /\ Forall whole out.1.1.
Proof.
  intros (Hok & Hm & Hn & Hwh) Hmv Hnews.
  assert (Hall : forall e, e ∈ elems (rivs r') \/ e ∈ out.1.1 -> whole e).
  { intros e He. rewrite Forall_forall in Hwh, Hnews. destruct (mv_from _ _ _ _ _ _ Hmv e He); auto. }
  split; [split; [apply Hmv|]|].
  - split; [rewrite (proj1 (mv_conf _ _ _ _ _ _ Hmv)); done|]. split.
    + pose proof (fits_le _ _ _ (mv_fits _ _ _ _ _ _ Hmv)). lia.
    + apply Forall_forall. auto.
  - apply Forall_forall. auto.
Qed.

Lemma primary_step chain st r' h' out news :
  ready 1 chain st -> moved news (pwr_reorder (rx_pwr st)) (rx_h st) r' h' out ->
  (out.1.2 = 1 -> forall m, elem_refs m news = refs_to m chain) -> Forall whole news ->
  let st1 := add_adjust (with_h (with_pwr st (pwr_set_reorder (rx_pwr st) r')) h') out.1.2 in
  (out.1.1 = [] -> carries 1 chain st st1) /\
  (0 < out.2 -> exists st2, deliver_primary st1 out.1.1 out.2 = Some st2 /\ carries 1 chain st st2).
Proof.
  intros Hr Hmv Hnews Hwn st1. pose proof Hr as [Hp Hw Hcov Hadj]. pose proof Hp as [P1 P2 P3 P4 P5 P6 P7 P8].
  destruct (reo_ok_moved _ _ _ _ _ _ P3 Hmv Hwn) as [Hreo Hwh].
  assert (Hp1 : pwr_ok cfg (rx_pwr st1)) by (split; auto).
  assert (Hw1 : rc_wf h') by apply Hmv. pose proof (mv_adj _ _ _ _ _ _ Hmv) as Ha.
  assert (Hrefs : forall m, balance chain st1 m = balance chain st m + elem_refs m out.1.1).
  { intros m. pose proof (mv_refs _ _ _ _ _ _ Hmv m) as Hm. unfold balance, owed, st1. simpl.
    change (readers (pwr_set_reorder (rx_pwr st) r')) with (readers (rx_pwr st)).
    destruct Ha as [E|E]; rewrite E in *; [lia|]. specialize (Hnews eq_refl m). lia. }
  assert (Hconf := mv_conf _ _ _ _ _ _ Hmv). split.
  - intros Hnil. split; auto.
    + intros m. rewrite Hrefs, Hnil. simpl. lia.
    + simpl. lia.
    + exists []. rewrite app_nil_r. split; [done|]. split; [constructor|]. split; [|apply readers_moves_refl].
      pose proof (fits_le _ _ _ (mv_fits _ _ _ _ _ _ Hmv)). simpl. lia.
    + simpl. lia.
  - intros Hpos. unfold deliver_primary. destruct (mv_res _ _ _ _ _ _ Hmv) as [Hlen|[_ Hn]].
    2:{ unfold NN_REORDER_TOO_OLD, NN_REORDER_REJECT in Hn. lia. }
    assert (Hne : out.1.1 <> []) by (intros E; rewrite E in Hlen; simpl in Hlen; lia).
    destruct (pwr_deliver_synchronously (rx_pwr st1)) eqn:Esync.
    + destruct (sync_deliver_spec out.1.1 st1) as (st2 & o & E & W & P & A & O & R & S & G & K & Q); auto.
      { intros m. specialize (Hrefs m). specialize (Hcov m). unfold balance in Hrefs, Hcov.
        unfold owed in Hrefs, Hcov. simpl in Hrefs |- *. change (readers (pwr_set_reorder (rx_pwr st) r')) with (readers (rx_pwr st)) in Hrefs.
        pose proof (handed_nonneg m (rx_out st)). pose proof (refs_to_nonneg m chain).
        pose proof (refs_to_nonneg m (held (samples (pwr_defrag (rx_pwr st))))).
        pose proof (readers_refs_nonneg m (readers (rx_pwr st))). pose proof (elem_refs_nonneg m (elems (rivs r'))).
        change BIAS with (2 ^ 20) in *. assert (Hb : 0 <= (2 ^ 20 - (rx_adjust st + out.1.2)) * refs_to m chain) by nia. lia. }
      exists st2. split; [done|]. split; rewrite ?P; auto.
      * intros m. specialize (Hrefs m). unfold balance in Hrefs |- *. rewrite P, A, O, R, handed_app, K. lia.
      * rewrite A. simpl. lia.
      * exists o. split; [done|]. split; [done|]. split; [eapply fits_sublist; [apply Hmv|done]|].
        eapply Forall2_impl; [apply readers_moves_refl|]. intros x y [M1 M2 M3 M4 M5]. split; auto. by rewrite G.
      * simpl. lia.
    + eexists. split; [done|]. split; auto.
      * intros m. specialize (Hrefs m). unfold balance in Hrefs |- *. simpl in Hrefs |- *. rewrite handed_app. simpl. lia.
      * simpl. lia.
      * eexists [_]. split; [done|]. split; [by repeat constructor|]. simpl. rewrite app_nil_r. split; [apply Hmv|].
        eapply Forall2_impl; [apply readers_moves_refl|]. intros x y [M1 M2 M3 M4 M5]. by split.
      * simpl. lia.
Qed.

(** ** One reader *)

Lemma other_guid (l1 l2 : list (pwr_rd_match T)) wn x :
  sorted wkey (l1 ++ wn :: l2) -> x ∈ l1 \/ x ∈ l2 -> wn_rd_guid x <> wn_rd_guid wn.
Proof.
  intros (_ & _ & S3 & S4 & _)%sorted_mid Hx Hg. rewrite Forall_forall in S3, S4. unfold key_lt, wn_key in *.
  destruct Hx as [Hx|Hx]; [specialize (S3 x Hx)|specialize (S4 x Hx)]; simpl in *; rewrite Hg in *; lia.
Qed.

(** The proxy writer with as many readers fewer that are out of sync. *)
Record counted_down p p' (d : Z) : Prop := {
  cd_readers : pwr_readers p' = pwr_readers p;
  cd_defrag : pwr_defrag p' = pwr_defrag p;
  cd_reorder : pwr_reorder p' = pwr_reorder p;
  cd_sync : pwr_n_readers_out_of_sync p' = pwr_n_readers_out_of_sync p - d;
  cd_rel : pwr_n_reliable_readers p' = pwr_n_reliable_readers p;
  cd_flags : pwr_deliver_synchronously p' = pwr_deliver_synchronously p /\ pwr_builtins_dqueue p' = pwr_builtins_dqueue p;
  cd_last : pwr_last_seq p' = pwr_last_seq p;
}.

Lemma counted_refl p : counted_down p p 0.
Proof. split; auto. lia. Qed.

(** What the reader [wn] gets, and nobody else. *)
Record for_reader (g : nn_guid) (sc : list rsample_chain_elem) (o : list output) : Prop := {
  fo_handed : forall m, handed m o = elem_refs m sc;
  fo_primary : primary o = [];
  fo_chain : reader_chain g o = sc;
  fo_others : forall g', g' <> g -> reader_chain g' o = [];
  fo_ok : Forall output_ok o;
}.

Lemma for_nil g : for_reader g [] [].
Proof. by split. Qed.

Lemma for_notify g g' : for_reader g [] [OutNotify g'].
Proof. split; auto. by repeat constructor. Qed.

Lemma for_enqueue1 g sc :
  sc <> [] -> Forall whole sc -> for_reader g sc [OutEnqueue1 g sc (Z.of_nat (length sc))].
Proof.
  intros Hne Hw. split; simpl; auto; [lia|by rewrite decide_True, app_nil_r|by intros g' Hg; rewrite decide_False|].
  by repeat constructor.
Qed.

Lemma for_reader_app g sc1 sc2 o1 o2 : for_reader g sc1 o1 -> for_reader g sc2 o2 -> for_reader g (sc1 ++ sc2) (o1 ++ o2).
Proof.
  intros [A1 B1 C1 D1 E1] [A2 B2 C2 D2 E2]. split.
  - intros m. by rewrite handed_app, elem_refs_app, A1, A2.
  - by rewrite primary_app, B1, B2.
  - by rewrite reader_chain_app, C1, C2.
  - intros g' Hg. by rewrite reader_chain_app, D1, D2.
  - by apply Forall_app.
Qed.

Lemma reader_step chain st l1 wn l2 r' h' out news wn' p' o :
  ready 1 chain st -> readers (rx_pwr st) = l1 ++ wn :: l2 ->
  moved news (wn_reorder wn) (rx_h st) r' h' out -> (out.1.2 = 1 -> forall m, elem_refs m news = refs_to m chain) ->
  Forall whole news ->
  wn_rd_guid wn' = wn_rd_guid wn -> wn_reorder wn' = r' -> is_reliable wn' = is_reliable wn ->
  (out_of_sync wn' = true -> out_of_sync wn = true) ->
  counted_down (rx_pwr st) p' (if out_of_sync wn && negb (out_of_sync wn') then 1 else 0) ->
  for_reader (wn_rd_guid wn) out.1.1 o ->
  let st' := store_reader cfg (Rx p' h' (rx_adjust st + out.1.2) (rx_out st ++ o)) wn' in
  carries 1 chain st st' /\ readers (rx_pwr st') = l1 ++ wn' :: l2.
Proof.
  intros Hr El Hmv Hnews Hwn Hg Hre Hrel Hsy [D1 D2 D3 D4 D5 D6 D7] [O1 O2 O3 O4 O5] st'.
  pose proof Hr as [Hp Hw Hcov Hadj]. pose proof Hp as [P1 P2 P3 P4 P5 P6 P7 P8].
  destruct (store_spec (rx_pwr st) l1 wn l2 wn' P1 El Hg) as [Hwf Hel].
  assert (Er : readers (rx_pwr st') = l1 ++ wn' :: l2) by (unfold st', readers; simpl; by rewrite D1).
  split; [|done]. rewrite El in P4. apply Forall_app in P4 as [P4a P4b]. apply Forall_cons in P4b as [P4w P4b].
  destruct (reo_ok_moved _ _ _ _ _ _ P4w Hmv Hwn) as [Hreo Hwh]. pose proof (mv_adj _ _ _ _ _ _ Hmv) as Ha.
  assert (Hs1 : sorted wkey (l1 ++ wn :: l2)) by (rewrite <- El; by apply ot_wf_sorted).
  split.
  - split; rewrite ?Er; unfold st'; simpl; rewrite ?D1, ?D2, ?D3; auto.
    + apply Forall_app. split; [done|]. constructor; [by rewrite Hre|done].
    + rewrite D4, P5, El, !count_app. simpl. destruct (out_of_sync wn) eqn:E1, (out_of_sync wn') eqn:E2; simpl; try lia.
    + rewrite D5, P6, El, !count_app. simpl. by rewrite Hrel.
    + rewrite El in P7. rewrite length_app in *. simpl in *. lia.
  - apply Hmv.
  - intros m. pose proof (mv_refs _ _ _ _ _ _ Hmv m) as Hm. unfold balance, owed. rewrite Er. unfold st'. simpl.
    rewrite El, !readers_refs_app, handed_app, O1, D2, D3. simpl. rewrite Hre.
    destruct Ha as [E|E]; rewrite E in *; [lia|]. specialize (Hnews eq_refl m). lia.
  - simpl. lia.
  - exists o. split; [done|]. split; [done|]. split; [unfold st'; simpl; rewrite D3, O2; simpl; lia|].
    rewrite El, Er. assert (Hid : forall l : list (pwr_rd_match T), (forall x, x ∈ l -> wn_rd_guid x <> wn_rd_guid wn) -> Forall2 (reader_moves o) l l).
    { induction l as [|x l IH]; intros Hx; constructor; [|apply IH; intros y Hy; apply Hx; by right].
      split; auto; [done|]. rewrite O4; [simpl; lia|]. apply Hx. by left. }
    apply Forall2_app; [apply Hid; intros x Hx; eapply other_guid; eauto|].
    constructor; [|apply Hid; intros x Hx; eapply other_guid; eauto].
    split; auto; rewrite Hre; [apply Hmv|]. rewrite O3. apply Hmv.
  - unfold st'. simpl. by rewrite D2.
  - unfold st'. simpl. rewrite D7. lia.
  - unfold st'. simpl. by rewrite D3.
Qed.

(** [maybe_set_reader_in_sync] takes a reader that is not in sync and counts
    it when it becomes so. *)
Lemma maybe_spec st wn last :
  pwr_n_readers_out_of_sync (rx_pwr st) - 1 < 2 ^ 31 -> - 2 ^ 31 <= pwr_n_readers_out_of_sync (rx_pwr st) - 1 ->
  in_s 32 (pwr_n_reliable_readers (rx_pwr st)) ->
  out_of_sync wn = true ->
  exists st1 wn1 o, maybe_set_reader_in_sync st wn last = Some (st1, wn1) /\
    rx_h st1 = rx_h st /\ rx_adjust st1 = rx_adjust st /\ rx_out st1 = rx_out st ++ o /\
    counted_down (rx_pwr st) (rx_pwr st1) (if negb (out_of_sync wn1) then 1 else 0) /\
    for_reader (wn_rd_guid wn) [] o /\
    wn_rd_guid wn1 = wn_rd_guid wn /\ wn_reorder wn1 = wn_reorder wn /\ is_reliable wn1 = is_reliable wn.
Proof.
  intros H1 H2 H3 Hs.
  assert (Htl : forall w, wn_rd_guid w = wn_rd_guid wn -> wn_reorder w = wn_reorder wn -> is_reliable w = is_reliable wn ->
    out_of_sync w = true ->
    exists st1 wn1 o, Some (tlcatchup_in_sync st w last) = Some (st1, wn1) /\
    rx_h st1 = rx_h st /\ rx_adjust st1 = rx_adjust st /\ rx_out st1 = rx_out st ++ o /\
    counted_down (rx_pwr st) (rx_pwr st1) (if negb (out_of_sync wn1) then 1 else 0) /\
    for_reader (wn_rd_guid wn) [] o /\
    wn_rd_guid wn1 = wn_rd_guid wn /\ wn_reorder wn1 = wn_reorder wn /\ is_reliable wn1 = is_reliable wn).
  { intros w Hg Hr Hl Ho. unfold tlcatchup_in_sync. destruct (last >=? wn_end_of_tl_seq w).
    - eexists _, _, [_]. split; [done|]. do 3 (split; [done|]). split; [|split; [apply for_notify|done]].
      change (out_of_sync (wn_set_sync w PRMSS_SYNC)) with false. split; simpl; auto; apply wrap_s_small; auto; unfold in_s; lia.
    - exists st, w, []. rewrite app_nil_r. split; [done|]. do 3 (split; [done|]). rewrite Ho. simpl.
      split; [apply counted_refl|]. split; [apply for_nil|done]. }
  unfold maybe_set_reader_in_sync. destruct (wn_in_sync wn) eqn:Es.
  - unfold out_of_sync in Hs. by rewrite bool_decide_eq_true_2 in Hs.
  - by apply Htl.
  - destruct (_ >=? _); [by apply Htl|]. exists st, wn, []. rewrite app_nil_r. split; [done|]. do 3 (split; [done|]).
    rewrite Hs. simpl. split; [apply counted_refl|]. split; [apply for_nil|done].
Qed.

(** ** Loops over readers *)

(** The body of a loop, at any reader. *)
Definition body_ok chain (f : rx T H -> pwr_rd_match T -> option (rx T H * pwr_rd_match T)) : Prop :=
  forall st wn l1 l2, ready 1 chain st -> readers (rx_pwr st) = l1 ++ wn :: l2 ->
  exists st1 wn1, f st wn = Some (st1, wn1) /\ carries 1 chain st (store_reader cfg st1 wn1) /\
    readers (rx_pwr (store_reader cfg st1 wn1)) = l1 ++ wn1 :: l2 /\ wn_rd_guid wn1 = wn_rd_guid wn.

Lemma readers_loop_spec chain f rest : body_ok chain f -> forall fuel st front,
  readers (rx_pwr st) = front ++ rest -> (length rest <= fuel)%nat -> ready (Z.of_nat (length rest)) chain st ->
  exists st', readers_loop cfg fuel f st (head rest) = Some st' /\ carries (Z.of_nat (length rest)) chain st st'.
Proof.
  intros Hf. induction rest as [|wn rest IH]; intros fuel st front El Hl Hr.
  - exists st. destruct fuel; (split; [done|]); (apply carries_refl; apply Hr).
  - destruct fuel as [|fuel]; [simpl in Hl; lia|]. simpl length in *. cbn [readers_loop head].
    destruct (Hf st wn front rest) as (st1 & wn1 & E & Hc & Er & Hg); [eapply ready_weaken; [exact Hr|lia]|done|].
    rewrite E. cbn [mbind option_bind]. set (st2 := store_reader cfg st1 wn1) in *.
    pose proof (cy_pwr _ _ _ _ _ Hc) as Hp2. unfold readers in Er.
    rewrite (ot_find_succ_spec wkey _ front wn1 rest (po_wf _ _ Hp2) Er).
    destruct (IH fuel st2 (front ++ [wn1])) as (st' & E' & Hc').
    + unfold readers. by rewrite Er, <- app_assoc.
    + lia.
    + eapply ready_after; [|exact Hc]. eapply ready_weaken; [exact Hr|lia].
    + exists st'. split; [done|]. eapply carries_weaken; [eapply carries_trans; [exact Hc|exact Hc']|lia].
Qed.

Lemma for_readers_spec chain f st :
  body_ok chain f -> ready (Z.of_nat (length (readers (rx_pwr st)))) chain st ->
  exists st', for_readers cfg f st = Some st' /\ carries (Z.of_nat (length (readers (rx_pwr st)))) chain st st'.
Proof.
  intros Hf Hr. unfold for_readers. rewrite ot_find_min_spec. by apply (readers_loop_spec chain f (readers (rx_pwr st)) Hf _ st []).
Qed.

Lemma walk_range_spec chain f kmax rest : body_ok chain f -> forall fuel st front,
  readers (rx_pwr st) = front ++ rest -> (length rest <= fuel)%nat -> ready (Z.of_nat (length rest)) chain st ->
  exists st', walk_range_loop cfg fuel f kmax st (head rest) = Some st' /\ carries (Z.of_nat (length rest)) chain st st'.
Proof.
  intros Hf. induction rest as [|wn rest IH]; intros fuel st front El Hl Hr.
  - exists st. destruct fuel; (split; [done|]); (apply carries_refl; apply Hr).
  - destruct fuel as [|fuel]; [simpl in Hl; lia|]. simpl length in *. cbn [walk_range_loop head].
    destruct (wkey wn <=? kmax).
    2:{ exists st. split; [done|]. eapply carries_weaken; [apply carries_refl; apply Hr|lia]. }
    destruct (Hf st wn front rest) as (st1 & wn1 & E & Hc & Er & Hg); [eapply ready_weaken; [exact Hr|lia]|done|].
    rewrite E. cbn [mbind option_bind]. set (st2 := store_reader cfg st1 wn1) in *.
    pose proof (cy_pwr _ _ _ _ _ Hc) as Hp2. unfold readers in Er.
    rewrite (ot_find_succ_spec wkey _ front wn1 rest (po_wf _ _ Hp2) Er).
    destruct (IH fuel st2 (front ++ [wn1])) as (st' & E' & Hc').
    + unfold readers. by rewrite Er, <- app_assoc.
    + lia.
    + eapply ready_after; [|exact Hc]. eapply ready_weaken; [exact Hr|lia].
    + exists st'. split; [done|]. eapply carries_weaken; [eapply carries_trans; [exact Hc|exact Hc']|lia].
Qed.

Lemma lookup_reader_spec st dst :
  pwr_ok cfg (rx_pwr st) ->
  match lookup_reader cfg st dst with
  | Some wn => exists l1 l2, readers (rx_pwr st) = l1 ++ wn :: l2
  | None => True
  end.
Proof.
  intros Hp. unfold lookup_reader. rewrite (ot_lookup_spec wkey _ _ (po_wf _ _ Hp)).
  destruct (l_lookup wkey _ _) as [wn|] eqn:E; [|done]. apply l_lookup_Some in E as (_ & l1 & l2 & E). eauto.
Qed.

(** ** The bodies *)

(** The counters of readers are small numbers. *)
Lemma counts_small p : pwr_ok cfg p ->
  pwr_n_readers_out_of_sync p - 1 < 2 ^ 31 /\ - 2 ^ 31 <= pwr_n_readers_out_of_sync p - 1 /\ in_s 32 (pwr_n_reliable_readers p).
Proof.
  intros [P1 P2 P3 P4 P5 P6 P7 P8]. rewrite P5, P6. pose proof (count_bound out_of_sync (readers p)).
  pose proof (count_bound is_reliable (readers p)). unfold in_s. lia.
Qed.

(** Nothing happened to the administration of the reader. *)
Lemma still st wn l1 l2 :
  pwr_ok cfg (rx_pwr st) -> rc_wf (rx_h st) -> readers (rx_pwr st) = l1 ++ wn :: l2 ->
  moved [] (wn_reorder wn) (rx_h st) (wn_reorder wn) (rx_h st) ([], 0, NN_REORDER_REJECT).
Proof.
  intros Hp Hw El. apply moved_refl; auto. pose proof (po_readers _ _ Hp) as Hf. rewrite El in Hf.
  apply Forall_app in Hf as [_ Hf]. apply Forall_cons in Hf as [Hf _]. apply Hf.
Qed.

Lemma still_step chain st l1 wn l2 wn' p' o :
  ready 1 chain st -> readers (rx_pwr st) = l1 ++ wn :: l2 ->
  wn_rd_guid wn' = wn_rd_guid wn -> wn_reorder wn' = wn_reorder wn -> is_reliable wn' = is_reliable wn ->
  (out_of_sync wn' = true -> out_of_sync wn = true) ->
  counted_down (rx_pwr st) p' (if out_of_sync wn && negb (out_of_sync wn') then 1 else 0) ->
  for_reader (wn_rd_guid wn) [] o ->
  let st' := store_reader cfg (Rx p' (rx_h st) (rx_adjust st) (rx_out st ++ o)) wn' in
  carries 1 chain st st' /\ readers (rx_pwr st') = l1 ++ wn' :: l2.
Proof.
  intros Hr El Hg Hre Hrel Hs Hcd Ho st'. pose proof Hr as [Hp Hw _ _].
  pose proof (reader_step chain st l1 wn l2 (wn_reorder wn) (rx_h st) ([], 0, NN_REORDER_REJECT) [] wn' p' o Hr El
    (still st wn l1 l2 Hp Hw El)) as Hst. simpl in Hst. rewrite Z.add_0_r in Hst. by apply Hst.
Qed.

(** A body that leaves the reader alone, or only changes fields the invariant
    does not speak about. *)
Lemma idle_step chain st l1 wn l2 wn' :
  ready 1 chain st -> readers (rx_pwr st) = l1 ++ wn :: l2 ->
  wn_rd_guid wn' = wn_rd_guid wn -> wn_reorder wn' = wn_reorder wn -> is_reliable wn' = is_reliable wn ->
  wn_in_sync wn' = wn_in_sync wn ->
  carries 1 chain st (store_reader cfg st wn') /\ readers (rx_pwr (store_reader cfg st wn')) = l1 ++ wn' :: l2.
Proof.
  intros Hr El Hg Hre Hrel Hs. assert (Ho : out_of_sync wn' = out_of_sync wn) by (unfold out_of_sync; by rewrite Hs).
  destruct (still_step chain st l1 wn l2 wn' (rx_pwr st) []) as [Hc Er]; auto.
  { by rewrite Ho. }
  { rewrite Ho. replace (out_of_sync wn && negb (out_of_sync wn)) with false by (by destruct (out_of_sync wn)). apply counted_refl. }
  { apply for_nil. }
  rewrite app_nil_r in Hc, Er. by destruct st.
Qed.

(** A reader that is not in sync may get so; [wn2] is the reader with fields
    changed that the invariant does not speak about. *)
Lemma sync_step chain st l1 wn l2 wn2 last :
  ready 1 chain st -> readers (rx_pwr st) = l1 ++ wn :: l2 -> out_of_sync wn = true ->
  wn_rd_guid wn2 = wn_rd_guid wn -> wn_reorder wn2 = wn_reorder wn -> is_reliable wn2 = is_reliable wn -> out_of_sync wn2 = true ->
  exists st1 wn1, maybe_set_reader_in_sync st wn2 last = Some (st1, wn1) /\
    carries 1 chain st (store_reader cfg st1 wn1) /\
    readers (rx_pwr (store_reader cfg st1 wn1)) = l1 ++ wn1 :: l2 /\ wn_rd_guid wn1 = wn_rd_guid wn.
Proof.
  intros Hr El Ho G2 R2 L2 O2. pose proof Hr as [Hp Hw _ _]. destruct (counts_small _ Hp) as (C1 & C2 & C3).
  destruct (maybe_spec st wn2 last C1 C2 C3 O2) as (st1 & wn1 & o & E & Eh & Ea & Eo & Hcd & Hfo & Hg & Hre & Hrel).
  exists st1, wn1. split; [done|].
  destruct (still_step chain st l1 wn l2 wn1 (rx_pwr st1) o) as [Hc Er]; try congruence; [by rewrite Ho|].
  destruct st1 as [p1 h1 a1 out1]. simpl in *. subst. split; [done|]. split; [done|congruence].
Qed.

(** A reader the body of a loop does not look at. *)
Lemma skip_step chain st l1 wn l2 :
  ready 1 chain st -> readers (rx_pwr st) = l1 ++ wn :: l2 ->
  exists st1 wn1, Some (st, wn) = Some (st1, wn1) /\ carries 1 chain st (store_reader cfg st1 wn1) /\
    readers (rx_pwr (store_reader cfg st1 wn1)) = l1 ++ wn1 :: l2 /\ wn_rd_guid wn1 = wn_rd_guid wn.
Proof. intros Hr El. exists st, wn. destruct (idle_step chain st l1 wn l2 wn) as [Hc Er]; auto. Qed.

Lemma tlcatchup_body chain seq : body_ok chain (tlcatchup_reader seq).
Proof.
  intros st wn l1 l2 Hr El. unfold tlcatchup_reader. case_bool_decide as Htl; [|by apply skip_step].
  assert (Ho : out_of_sync wn = true) by (unfold out_of_sync; rewrite Htl; by rewrite bool_decide_eq_false_2).
  by apply sync_step.
Qed.

(** A reader that is out of sync takes a sample or a gap and then may get in
    sync. *)
Lemma outsync_step chain st l1 wn l2 r' h' out news wn2 last :
  ready 1 chain st -> readers (rx_pwr st) = l1 ++ wn :: l2 -> out_of_sync wn = true ->
  moved news (wn_reorder wn) (rx_h st) r' h' out -> (out.1.2 = 1 -> forall m, elem_refs m news = refs_to m chain) ->
  Forall whole news -> wn_rd_guid wn2 = wn_rd_guid wn -> wn_reorder wn2 = r' -> is_reliable wn2 = is_reliable wn ->
  out_of_sync wn2 = true ->
  forall st0 o0, rx_pwr st0 = rx_pwr st -> rx_h st0 = h' -> rx_adjust st0 = rx_adjust st + out.1.2 -> rx_out st0 = rx_out st ++ o0 ->
  forall sc2 o2, o0 = [] /\ sc2 = out.1.1 \/ for_reader (wn_rd_guid wn) out.1.1 o0 /\ sc2 = [] ->
  for_reader (wn_rd_guid wn) sc2 o2 ->
  exists st1 wn1, maybe_set_reader_in_sync st0 wn2 last = Some (st1, wn1) /\ wn_rd_guid wn1 = wn_rd_guid wn /\
    let st' := store_reader cfg (Rx (rx_pwr st1) (rx_h st1) (rx_adjust st1) (rx_out st1 ++ o2)) wn1 in
    carries 1 chain st st' /\ readers (rx_pwr st') = l1 ++ wn1 :: l2.
Proof.
  intros Hr El Ho Hmv Hnews Hwn G2 R2 L2 O2 st0 o0 Ep Eh Ea Eo sc2 o2 Hsc Hfo2. pose proof Hr as [Hp Hw _ _].
  destruct (counts_small _ Hp) as (C1 & C2 & C3). rewrite <- Ep in C1, C2, C3.
  destruct (maybe_spec st0 wn2 last C1 C2 C3 O2) as (st1 & wn1 & o & E & Eh1 & Ea1 & Eo1 & Hcd & Hfo & Hg & Hre & Hrel).
  exists st1, wn1. split; [done|]. split; [congruence|]. rewrite Eh1, Ea1, Eo1, Eh, Ea, Eo, <- !app_assoc.
  apply (reader_step chain st l1 wn l2 r' h' out news); auto; try congruence.
  - rewrite Ho, <- Ep. exact Hcd.
  - rewrite <- G2 in *. destruct Hsc as [[-> ->]|[Hf0 ->]].
    + simpl. by apply (for_reader_app _ [] out.1.1 o o2).
    + rewrite <- (app_nil_r out.1.1). apply for_reader_app; [done|]. by apply (for_reader_app _ [] [] o o2).
Qed.

Lemma outsync_true wn : wn_in_sync wn = PRMSS_OUT_OF_SYNC -> out_of_sync wn = true.
Proof. intros Hs. unfold out_of_sync. rewrite Hs. by rewrite bool_decide_eq_false_2. Qed.

Lemma reader_reo_ok st l1 wn l2 : pwr_ok cfg (rx_pwr st) -> readers (rx_pwr st) = l1 ++ wn :: l2 -> reo_ok (wn_reorder wn).
Proof.
  intros Hp El. pose proof (po_readers _ _ Hp) as Hf. rewrite El in Hf.
  apply Forall_app in Hf as [_ Hf]. by apply Forall_cons in Hf as [Hf _].
Qed.

(** A result that is not positive comes without samples. *)
Lemma moved_none news (r : nn_reorder T) h r' h' out :
  moved news r h r' h' out -> out.2 <= 0 ->
  out.1.1 = [] /\ (out.2 = NN_REORDER_TOO_OLD \/ out.2 = NN_REORDER_REJECT \/ out.2 = NN_REORDER_ACCEPT).
Proof.
  intros Hmv Hn. destruct (mv_res _ _ _ _ _ _ Hmv) as [Hl|[Hnil Hc]]; [|tauto].
  destruct out.1.1; simpl in *; [|lia]. split; [done|]. right. right. unfold NN_REORDER_ACCEPT. lia.
Qed.

Lemma moved_some news (r : nn_reorder T) h r' h' out :
  moved news r h r' h' out -> 0 < out.2 -> out.1.1 <> [] /\ out.2 = Z.of_nat (length out.1.1).
Proof.
  intros Hmv Hn. destruct (mv_res _ _ _ _ _ _ Hmv) as [Hl|[_ Hc]].
  - split; [|done]. intros E. rewrite E in Hl. simpl in Hl. lia.
  - unfold NN_REORDER_TOO_OLD, NN_REORDER_REJECT in Hc. lia.
Qed.

Lemma too_old_body chain dq_full s q c i seq :
  s = RsampleReorder [ChainElem c (Some i)] q (q + 1) 1 -> si_seq i = q -> whole (ChainElem c (Some i)) -> chain = c ->
  body_ok chain (too_old_reader cfg dq_full s seq).
Proof.
  intros Es Hi Hwh -> st wn l1 l2 Hr El. pose proof Hr as [Hp Hw _ _]. unfold too_old_reader.
  case_bool_decide as Hos; [|by apply skip_step]. cbn [negb orb].
  destruct (seq >? wn_end_of_out_of_sync_seq wn); [by apply skip_step|].
  assert (Hin : sample_in q s) by (subst s; by exists c, i).
  destruct (sample_in_good q s Hin) as (_ & _ & _ & Hsing & _).
  assert (Hdup : nn_reorder_rsample_dup s = Some s) by (unfold nn_reorder_rsample_dup; rewrite Hsing; by subst s).
  rewrite Hdup. cbn [mbind option_bind]. unfold reader_rsample.
  destruct (reader_reo_ok st l1 wn l2 Hp El) as (R1 & R2 & R3 & R4).
  assert (Hnews : forall m, elem_refs m (ro_sc s) = refs_to m c) by (subst s; intros m; simpl; lia).
  destruct (any_rsample_spec (wn_reorder wn) (rx_h st) s q (late_ack_mode cfg) (dq_full (Some (wn_rd_guid wn))) R1 Hw R2 Hin)
    as (r' & h' & [[sc adj] rres] & E & Hmv).
  { eapply reader_cover; eauto; [lia|]. intros m. by rewrite Hnews. }
  rewrite E. cbn [mbind option_bind].
  assert (Hwn : Forall whole (ro_sc s)) by (subst s; by apply Forall_singleton).
  destruct (Z.le_gt_cases rres 0) as [Hneg|Hpos].
  - destruct (moved_none _ _ _ _ _ _ Hmv Hneg) as [Hnil Hcode]. simpl in Hnil, Hcode.
    assert (Hb : (rres =? NN_REORDER_TOO_OLD) || (rres =? NN_REORDER_REJECT) || (rres =? NN_REORDER_ACCEPT) = true).
    { destruct Hcode as [->|[->| ->]]; done. }
    rewrite Hb. eexists _, _. split; [done|].
    destruct (reader_step c st l1 wn l2 r' h' (sc, adj, rres) (ro_sc s) (wn_set_reorder wn r') (rx_pwr st) []) as [Hc Er]; auto.
    { change (out_of_sync (wn_set_reorder wn r')) with (out_of_sync wn).
      replace (out_of_sync wn && negb (out_of_sync wn)) with false by (by destruct (out_of_sync wn)). apply counted_refl. }
    { simpl. rewrite Hnil. apply for_nil. }
    rewrite app_nil_r in Hc, Er. split; [done|]. split; [done|done].
  - assert (Hb : (rres =? NN_REORDER_TOO_OLD) || (rres =? NN_REORDER_REJECT) || (rres =? NN_REORDER_ACCEPT) = false).
    { unfold NN_REORDER_TOO_OLD, NN_REORDER_REJECT, NN_REORDER_ACCEPT. zcases. }
    rewrite Hb, Z.gtb_ltb. destruct (Z.ltb_spec 0 rres); [|lia]. cbn [negb].
    destruct (moved_some _ _ _ _ _ _ Hmv Hpos) as [Hne Hlen]. simpl in Hne, Hlen.
    destruct (reo_ok_moved _ _ _ _ _ _ (reader_reo_ok st l1 wn l2 Hp El) Hmv Hwn) as [_ Hwsc].
    destruct (outsync_step c st l1 wn l2 r' h' (sc, adj, rres) (ro_sc s) (wn_set_reorder wn r') seq Hr El (outsync_true _ Hos) Hmv)
      with (st0 := add_adjust (with_h st h') adj) (o0 := @nil output) (sc2 := sc) (o2 := [OutEnqueue1 (wn_rd_guid wn) sc rres])
      as (st1 & wn1 & Em & Hg & Hc & Er); auto.
    { by apply outsync_true. }
    { simpl. by rewrite app_nil_r. }
    { rewrite Hlen. by apply for_enqueue1. }
    rewrite Em. cbn [mbind option_bind]. eexists _, _. split; [done|]. rewrite Hg. split; [done|]. split; [done|done].
Qed.

(** A reader that is out of sync takes a gap; what it releases goes to the
    queue at once. *)
Lemma reader_gap_step gap st l1 wn l2 a b last (upd : pwr_rd_match T -> pwr_rd_match T) :
  ready 1 [gap] st -> readers (rx_pwr st) = l1 ++ wn :: l2 -> wn_in_sync wn = PRMSS_OUT_OF_SYNC ->
  a < b \/ b <= rr_next_seq (wn_reorder wn) ->
  (forall w, wn_rd_guid (upd w) = wn_rd_guid w /\ wn_reorder (upd w) = wn_reorder w /\ wn_in_sync (upd w) = wn_in_sync w /\
             wn_acknack_xevent (upd w) = wn_acknack_xevent w) ->
  exists st1 wn1 sc res, reader_gap st wn gap a b = Some (st1, wn1, sc, res) /\
  let st1 := if res >? 0 then emit st1 (OutEnqueue1 (wn_rd_guid wn1) sc res) else st1 in
  exists st2 wn2, maybe_set_reader_in_sync st1 (upd wn1) (last wn1) = Some (st2, wn2) /\
    carries 1 [gap] st (store_reader cfg st2 wn2) /\
    readers (rx_pwr (store_reader cfg st2 wn2)) = l1 ++ wn2 :: l2 /\ wn_rd_guid wn2 = wn_rd_guid wn.
Proof.
  intros Hr El Hos Hab Hupd. pose proof Hr as [Hp Hw _ _]. destruct (reader_reo_ok st l1 wn l2 Hp El) as (R1 & R2 & R3 & R4).
  assert (Hnews : forall m, elem_refs m (gap_news gap) = refs_to m [gap]) by (intros m; simpl; lia).
  destruct (any_gap_spec (wn_reorder wn) (rx_h st) gap a b R1 Hw R2) as (r' & h' & [[sc adj] res] & E & Hmv); [done| |].
  { eapply reader_cover; eauto; [lia|]. intros m. by rewrite Hnews. }
  unfold reader_gap. rewrite E. cbn [mbind option_bind]. eexists _, _, _, _. split; [done|]. cbv zeta.
  pose proof (gap_whole gap) as Hwn.
  destruct (reo_ok_moved _ _ _ _ _ _ (reader_reo_ok st l1 wn l2 Hp El) Hmv Hwn) as [_ Hwsc]. simpl in Hwsc.
  destruct (Hupd (wn_set_reorder wn r')) as (U1 & U2 & U3 & U4).
  set (st0 := if res >? 0 then _ else _).
  assert (H0 : exists o0, rx_pwr st0 = rx_pwr st /\ rx_h st0 = h' /\ rx_adjust st0 = rx_adjust st + adj /\ rx_out st0 = rx_out st ++ o0 /\
                     for_reader (wn_rd_guid wn) sc o0).
  { unfold st0. rewrite Z.gtb_ltb. destruct (Z.ltb_spec 0 res) as [Hpos|Hneg].
    - destruct (moved_some _ _ _ _ _ _ Hmv Hpos) as [Hne Hlen]. simpl in Hne, Hlen. eexists [_]. do 4 (split; [done|]).
      rewrite Hlen. by apply for_enqueue1.
    - destruct (moved_none _ _ _ _ _ _ Hmv Hneg) as [Hnil _]. simpl in Hnil. subst sc. exists []. rewrite app_nil_r.
      do 4 (split; [done|]). apply for_nil. }
  destruct H0 as (o0 & E1 & E2 & E3 & E4 & Hfo).
  destruct (outsync_step [gap] st l1 wn l2 r' h' (sc, adj, res) (gap_news gap) (upd (wn_set_reorder wn r')) (last (wn_set_reorder wn r'))
    Hr El (outsync_true _ Hos) Hmv) with (st0 := st0) (o0 := o0) (sc2 := @nil rsample_chain_elem) (o2 := @nil output)
    as (st2 & wn2 & Em & Hg & Hc & Er); auto.
  { unfold is_reliable. by rewrite U4. }
  { apply outsync_true. by rewrite U3. }
  { apply for_nil. }
  rewrite app_nil_r in Hc, Er. exists st2, wn2. split; [done|]. destruct st2. by split.
Qed.
End Ops.
