(* ===== verification/ReceiveProps.v ===== *)
(** * The handlers of a proxy writer

    Every handler, on every valid submessage, succeeds (no assertion fails,
    nothing is read outside), keeps the invariant of the proxy writer, accounts
    for every reference and delivers whole samples in order. *)

From Stdlib Require Import ZArith Lia Sorting.Sorted.
From stdpp Require Import prelude.
From S2P Require Import Prelude OrdTree Bitset Refs Defrag DefragFacts DefragOps DefragProps Reorder ReorderFacts ReorderOps ReorderProps ReorderGap ReorderRun Rmsg Dqueue Time Wire Protocol ProtocolProps Receive ReceiveFacts ReceiveOps.

Section Props.
Context {T : Type -> Type} `{!OrdTree T, !OrdTreeLaws T}.
Context {H : Type} `{!RmsgRefs H, !RmsgRefsLaws H}.
Context `{FF : !FragFrom} (cfg : ddsi_config).

Abbreviation BIAS := RMSG_REFCOUNT_RDATA_BIAS.
Abbreviation UNCOMMITTED := RMSG_REFCOUNT_UNCOMMITTED_BIAS.
Abbreviation carries := (carries cfg).
Abbreviation ready := (ready cfg).
Implicit Types (wn : pwr_rd_match T) (p : proxy_writer T) (h : H) (st : rx T H) (chain : list rdata).

(** ** Whole handlers *)

(** What a handler does to a proxy writer: [ok_sample] says which samples the
    defragmenter may have new. *)
Record handled (ok_sample : rsample_defrag T -> Prop) st st' : Prop := {
  hd_pwr : pwr_ok cfg (rx_pwr st');
  hd_wf : rc_wf (rx_h st');
  hd_refs : forall m, rc (rx_h st') m - owed (rx_pwr st') m - handed m (rx_out st') =
                      rc (rx_h st) m - owed (rx_pwr st) m - handed m (rx_out st);
  hd_out : exists o, rx_out st' = rx_out st ++ o /\ Forall output_ok o /\
    fits (rr_next_seq (pwr_reorder (rx_pwr st))) (rr_next_seq (pwr_reorder (rx_pwr st'))) (primary o) /\
    Forall2 (reader_moves o) (readers (rx_pwr st)) (readers (rx_pwr st'));
  hd_samples : forall s, s ∈ samples (pwr_defrag (rx_pwr st')) -> s ∈ samples (pwr_defrag (rx_pwr st)) \/ ok_sample s;
  hd_last : pwr_last_seq (rx_pwr st) <= pwr_last_seq (rx_pwr st');
  hd_conf : same_conf (pwr_reorder (rx_pwr st)) (pwr_reorder (rx_pwr st'));
}.

Lemma carries_handled k ok st st' : carries k [] st st' -> handled ok st st'.
Proof.
  intros [P W B A O S L [C _]]. split; auto. intros m. specialize (B m). unfold balance in B. simpl in B. lia.
Qed.

Lemma handled_trans ok st st1 st2 : handled ok st st1 -> handled ok st1 st2 -> handled ok st st2.
Proof.
  intros [P1 W1 B1 (o1 & O1 & K1 & F1 & M1) S1 L1 [C1 C1']] [P2 W2 B2 (o2 & O2 & K2 & F2 & M2) S2 L2 [C2 C2']]. split; auto.
  - intros m. by rewrite B2.
  - exists (o1 ++ o2). rewrite O2, O1, app_assoc. split; [done|]. split; [by apply Forall_app|].
    split; [rewrite primary_app; by eapply fits_app|]. by eapply readers_moves_trans.
  - intros s Hs. destruct (S2 s Hs); auto.
  - lia.
  - split; congruence.
Qed.

(** The fragments of [chain] got their bias between [st] and [st1]. *)
Record loaded (ok_sample : rsample_defrag T -> Prop) chain st st1 : Prop := {
  ld_bal : forall m, balance chain st1 m = balance [] st m + BIAS * refs_to m chain;
  ld_out : rx_out st1 = rx_out st;
  ld_readers : readers (rx_pwr st1) = readers (rx_pwr st);
  ld_reorder : pwr_reorder (rx_pwr st1) = pwr_reorder (rx_pwr st);
  ld_last : pwr_last_seq (rx_pwr st1) = pwr_last_seq (rx_pwr st);
  ld_samples : forall s, s ∈ samples (pwr_defrag (rx_pwr st1)) -> s ∈ samples (pwr_defrag (rx_pwr st)) \/ ok_sample s;
}.

(** Giving back the bias at the end of a handler. *)
Lemma finish ok k chain st st1 st2 :
  loaded ok chain st st1 -> ready k chain st1 -> carries k chain st1 st2 ->
  exists h, nn_fragchain_adjust_refcount (rx_h st2) chain (rx_adjust st2) = Some h /\ handled ok st (with_h st2 h).
Proof.
  intros [LB LO LR LE LL LS] Hr Hc. pose proof Hr as [_ _ Hcov [A1 A2]].
  pose proof Hc as [P W B A (o & O & K & F & M) S L [C _]].
  destruct (fragchain_adjust_spec (rx_h st2) chain (rx_adjust st2) W) as (h & E & Wh & Hrc); [lia| |].
  { intros m. specialize (Hcov m). specialize (B m). unfold balance in B at 1.
    pose proof (handed_nonneg m (rx_out st2)). pose proof (readers_refs_nonneg m (readers (rx_pwr st2))).
    pose proof (elem_refs_nonneg m (elems (rivs (pwr_reorder (rx_pwr st2))))). unfold owed in B.
    pose proof (refs_to_nonneg m (held (samples (pwr_defrag (rx_pwr st2))))). change BIAS with (2 ^ 20) in *. lia. }
  exists h. split; [done|]. split; simpl; auto.
  - intros m. rewrite Hrc. specialize (B m). rewrite LB in B. unfold balance in B. simpl in B. lia.
  - exists o. rewrite O, LO. split; [done|]. split; [done|]. rewrite <- LE, <- LR. by split.
  - lia.
  - by rewrite <- LE.
Qed.

(** ** A new gap *)

(** The reference count of the message being received: it is not committed
    yet, and has room for one more fragment. *)
Definition uncommitted (m0 : rmsg_addr) st : Prop :=
  (forall m, (if decide (m = m0) then UNCOMMITTED else 0) <= balance [] st m) /\ rc (rx_h st) m0 + BIAS < 2 ^ 32.

Lemma newgap_spec st m0 :
  pwr_ok cfg (rx_pwr st) -> rc_wf (rx_h st) -> uncommitted m0 st -> rx_adjust st = 0 ->
  exists gap h, nn_rdata_newgap (rx_h st) m0 = Some (gap, h) /\ gap = Rdata m0 0 0 0 0 /\
    loaded (fun _ => False) [gap] st (with_h st h) /\ ready (BIAS - 1) [gap] (with_h st h).
Proof.
  intros Hp Hw [Hu Hroom] Ha. unfold nn_rdata_newgap, rdata_new. change (NN_OFF_TO_ZOFF 0) with (Some 0). cbn [mbind option_bind].
  unfold nn_rdata_addbias. cbn [rd_rmsg].
  destruct (addbias_spec (rx_h st) m0 Hw) as (h & E & Wh & Hup); [|done|].
  { specialize (Hu m0). rewrite decide_True in Hu by done. unfold balance in Hu. simpl in Hu.
    pose proof (handed_nonneg m0 (rx_out st)). unfold owed in Hu.
    pose proof (readers_refs_nonneg m0 (readers (rx_pwr st))). pose proof (elem_refs_nonneg m0 (elems (rivs (pwr_reorder (rx_pwr st))))).
    pose proof (refs_to_nonneg m0 (held (samples (pwr_defrag (rx_pwr st))))). change BIAS with (2 ^ 20) in *. lia. }
  rewrite E. cbn [mbind option_bind]. eexists _, h. split; [done|]. split; [done|].
  assert (Hb : forall m, balance [Rdata m0 0 0 0 0] (with_h st h) m = balance [] st m + BIAS * refs_to m [Rdata m0 0 0 0 0]).
  { intros m. unfold balance. simpl. rewrite Hup, Ha. case_decide; lia. }
  split; [split; auto|]. split; auto; [|simpl; rewrite Ha; change BIAS with (2 ^ 20); lia].
  intros m. rewrite Hb. specialize (Hu m). case_decide; change UNCOMMITTED with (2 ^ 31) in *; lia.
Qed.

(** ** A complete sample *)

(** A sample that is accepted without being delivered is stored. *)
Lemma accept_stored (r : nn_reorder T) h s q la full r' h' out :
  reorder_ok r -> rc_wf h -> rr_mode r <> NN_REORDER_MODE_ALWAYS_DELIVER -> sample_in q s ->
  sc_cover h (elems (rivs r) ++ ro_sc s) -> nn_reorder_rsample r h s la full = Some (r', h', out) ->
  out.2 = NN_REORDER_ACCEPT -> rr_mode r = NN_REORDER_MODE_NORMAL /\ q ∈ elem_seqs (elems (rivs r')).
Proof.
  intros Hok Hwf Hm Hs Hc E Ha. destruct (decide (rr_mode r = NN_REORDER_MODE_NORMAL)) as [Hn|Hn].
  - split; [done|].
    destruct (rsample_normal_spec r h s q la full Hok Hwf Hn Hs Hc) as (r2 & h2 & out2 & dr & E2 & Hre & Han).
    rewrite E in E2. injection E2 as <- <- <-. unfold answers in Han. rewrite Ha in Han.
    assert (Hnew : out.1.2 = 1 /\ ~ rcov (rivs r) q).
    { destruct (q <? rr_next_seq r); [done|]. destruct (q =? rr_next_seq r); [by destruct full; [|destruct Han]|].
      destruct Han as [[? _]|(_ & ? & ?)]; [done|auto]. }
    destruct Hnew as [Hadj Hnew]. pose proof (re_elems _ _ _ _ _ _ _ _ _ Hre) as He. rewrite Hadj in He. simpl in He.
    destruct (re_old _ _ _ _ _ _ _ _ _ Hre) as [rest Hold]. destruct Hs as (c & i & -> & Hi). simpl in He.
    destruct (re_res _ _ _ _ _ _ _ _ _ Hre) as [Hl|[_ ?]]; [|rewrite Ha in *; done].
    rewrite Ha in Hl. destruct out.1.1; [|done]. simpl in He.
    assert (Hin : ChainElem c (Some i) ∈ elems (rivs r') ++ dr) by (rewrite He; set_solver).
    apply elem_of_app in Hin as [Hin|Hin]; [rewrite <- Hi; by eapply elem_seqs_in|].
    exfalso. apply Hnew. apply (stored_covered _ _ (tk_ivs _ (rk_tree _ Hok))). rewrite <- Hi.
    eapply (elem_seqs_in _ (ChainElem c (Some i))); [|done]. rewrite Hold. set_solver.
  - exfalso. rewrite (rsample_modes_spec r h s q la full Hok Hn Hs) in E.
    destruct (_ && _); [by simplify_eq|]. destruct full; by simplify_eq.
Qed.

(** Offering the sample to the primary administration, and forcing its
    delivery when all readers are best-effort. *)
Lemma primary_part dq st info rd c i :
  let q := si_seq info in let s := RsampleReorder [ChainElem c (Some i)] q (q + 1) 1 in
  si_seq i = q -> whole (ChainElem c (Some i)) -> ready 2 c st ->
  (forall m, elem_refs m (gap_news rd) + BIAS * refs_to m c <= balance c st m) ->
  exists st1 sc rres,
    ('(st1, sc, rres) ← primary_rsample cfg st s dq;
     if (rres =? NN_REORDER_ACCEPT) && (pwr_n_reliable_readers (rx_pwr st1) =? 0)
     then force_delivery st1 rd q else Some (st1, sc, rres)) = Some (st1, sc, rres) /\
    if 0 <? rres then exists st2, deliver_primary st1 sc rres = Some st2 /\ carries 2 c st st2
    else carries 2 c st st1 /\ (rres = NN_REORDER_TOO_OLD \/ rres = NN_REORDER_REJECT \/ rres = NN_REORDER_ACCEPT).
Proof.
  intros q s Hi Hwh Hr Hrd. pose proof Hr as [Hp Hw _ _]. pose proof (po_reorder _ _ Hp) as (R1 & R2 & R3 & R4).
  assert (Hs : sample_in q s) by (by exists c, i).
  assert (Hr1 : ready 1 c st) by (eapply ready_weaken; [exact Hr|lia]).
  assert (Hnews : forall m, elem_refs m (ro_sc s) = refs_to m c) by (intros m; simpl; lia).
  assert (Hwn : Forall whole (ro_sc s)) by (by apply Forall_singleton).
  assert (Hcov : sc_cover (rx_h st) (elems (rivs (pwr_reorder (rx_pwr st))) ++ ro_sc s)).
  { apply (primary_cover cfg 2 c); auto; [lia|]. intros m. rewrite Hnews. lia. }
  destruct (any_rsample_spec _ _ s q (late_ack_mode cfg) dq R1 Hw R2 Hs Hcov) as (r' & h' & out & E & Hmv).
  unfold primary_rsample. rewrite E. destruct out as [[sc adj] rres] eqn:Eout. cbn [mbind option_bind].
  destruct (primary_step cfg c st r' h' out (ro_sc s) Hr1) as [Hnone Hsome]; [by subst|by intros|done|].
  subst out. cbn [fst snd] in Hnone, Hsome. set (st1 := add_adjust _ adj) in *.
  destruct (Z.eqb_spec rres NN_REORDER_ACCEPT) as [->|Hne]; cbn [andb].
  2:{ exists st1, sc, rres. split; [done|]. destruct (Z.ltb_spec 0 rres) as [Hpos|Hneg].
      - destruct (Hsome Hpos) as (st2 & E2 & Hc). exists st2. split; [done|]. eapply carries_weaken; [exact Hc|lia].
      - destruct (moved_none _ _ _ _ _ _ Hmv Hneg) as [Hnil Hcode]. split; [|done].
        eapply carries_weaken; [by apply Hnone|lia]. }
  destruct (moved_none _ _ _ _ _ _ Hmv) as [Hnil _]; [done|]. simpl in Hnil. specialize (Hnone Hnil).
  destruct (Z.eqb_spec (pwr_n_reliable_readers (rx_pwr st1)) 0).
  2:{ exists st1, sc, NN_REORDER_ACCEPT. split; [done|]. change (0 <? NN_REORDER_ACCEPT) with false. cbv iota.
      split; [|auto]. eapply carries_weaken; [exact Hnone|lia]. }
  destruct (accept_stored _ _ _ _ _ _ _ _ _ R1 Hw R2 Hs Hcov E eq_refl) as [Hmode Hq].
  assert (Hr2 : ready 1 c st1) by (eapply ready_after; [|exact Hnone]; eapply ready_weaken; [exact Hr|lia]).
  pose proof (rd_pwr _ _ _ _ Hr2) as Hp1. pose proof (po_reorder _ _ Hp1) as (Q1 & Q2 & Q3 & Q4).
  destruct (gap_forces r' h' rd q) as (r2 & h2 & [[sc2 adj2] rres2] & E2 & Hmv2 & Hpos & Hadj); auto.
  { apply Hmv. }
  { pose proof (proj1 (mv_conf _ _ _ _ _ _ Hmv)) as Hmo. congruence. }
  { intros m. specialize (Hrd m). rewrite elem_refs_app. rewrite <- (cy_bal _ _ _ _ _ Hnone m) in Hrd.
    unfold balance, owed in Hrd. pose proof (rd_adj _ _ _ _ Hr2) as Had. cbn [rx_pwr rx_h st1 add_adjust with_h with_pwr] in Hrd.
    change (pwr_reorder (pwr_set_reorder (rx_pwr st) r')) with r' in Hrd.
    pose proof (handed_nonneg m (rx_out st1)). pose proof (refs_to_nonneg m c).
    pose proof (refs_to_nonneg m (held (samples (pwr_defrag (pwr_set_reorder (rx_pwr st) r'))))).
    pose proof (readers_refs_nonneg m (readers (pwr_set_reorder (rx_pwr st) r'))). change BIAS with (2 ^ 20) in *.
    assert (Hb : rx_adjust st1 * refs_to m c <= 2 ^ 20 * refs_to m c) by nia. lia. }
  simpl in Hpos, Hadj. subst adj2. unfold force_delivery. change (pwr_reorder (rx_pwr st1)) with r'. change (rx_h st1) with h'.
  rewrite E2. cbn [mbind option_bind]. destruct (Z.ltb_spec 0 rres2) as [_|]; [|lia].
  rewrite Z.gtb_ltb. destruct (Z.ltb_spec 0 rres2) as [_|]; [|lia]. cbn [andb Z.eqb].
  eexists _, _, _. split; [done|]. rewrite (proj2 (Z.ltb_lt _ _) Hpos).
  destruct (primary_step cfg c st1 r2 h2 (sc2, 0, rres2) (gap_news rd) Hr2 Hmv2) as [_ Hsome2]; [done|apply gap_whole|].
  cbn [fst snd] in Hsome2. destruct (Hsome2 Hpos) as (st2 & E3 & Hc2). exists st2. split.
  - unfold add_adjust in E3. cbn [rx_adjust with_h with_pwr] in E3. rewrite Z.add_0_r in E3. exact E3.
  - eapply carries_weaken; [eapply carries_trans; [exact Hnone|exact Hc2]|lia].
Qed.

Lemma carries_length k chain st st' : carries k chain st st' -> length (readers (rx_pwr st')) = length (readers (rx_pwr st)).
Proof. intros Hc. destruct (cy_out _ _ _ _ _ Hc) as (o & _ & _ & _ & HM). symmetry. by eapply Forall2_length. Qed.

Abbreviation nreaders st := (Z.of_nat (length (readers (rx_pwr st)))).

Lemma regular_rsample_spec ok dq_full st0 st info rd c i :
  let q := si_seq info in let s := RsampleReorder [ChainElem c (Some i)] q (q + 1) 1 in
  si_seq i = q -> whole (ChainElem c (Some i)) -> loaded ok c st0 st -> ready (2 + nreaders st) c st ->
  (forall m, elem_refs m (gap_news rd) + BIAS * refs_to m c <= balance c st m) ->
  exists st', regular_rsample cfg dq_full st info rd s = Some st' /\ handled ok st0 st'.
Proof.
  intros q s Hi Hwh Hld Hr Hrd. unfold regular_rsample. 
  destruct (sample_in_good q s) as (_ & _ & _ & Hsing & _); [by exists c, i|].
  assert (Hfc : nn_rsample_fragchain s = Some c) by (unfold nn_rsample_fragchain; by rewrite Hsing).
  rewrite Hfc. cbn [mbind option_bind].
  destruct (primary_part (pwr_builtins_dqueue (rx_pwr st) && dq_full None) st info rd c i) as (st1 & sc & rres & E & Hres); auto.
  { eapply ready_weaken; [exact Hr|lia]. }
  fold q in E. fold s in E. destruct (primary_rsample cfg st s _) as [[[sta sca] rresa]|]; [|done]. cbn [mbind option_bind] in E |- *.
  fold q. rewrite E. cbn [mbind option_bind]. rewrite Z.gtb_ltb. clear E.
  assert (Hfin : exists st3, (if 0 <? rres then
          st ← deliver_primary st1 sc rres;
          if pwr_n_readers_out_of_sync (rx_pwr st) >? 0 then for_readers cfg (tlcatchup_reader q) st else Some st
        else if rres =? NN_REORDER_TOO_OLD then for_readers cfg (too_old_reader cfg dq_full s q) st1
        else if (rres =? NN_REORDER_ACCEPT) || (rres =? NN_REORDER_REJECT) then Some st1 else None) = Some st3 /\
    carries (2 + nreaders st) c st st3).
  { destruct (0 <? rres).
    - destruct Hres as (st2 & E2 & Hc). rewrite E2. cbn [mbind option_bind].
      destruct (_ >? 0); [|exists st2; split; [done|]; eapply carries_weaken; [exact Hc|lia]].
      destruct (for_readers_spec cfg c (tlcatchup_reader q) st2) as (st3 & E3 & Hc3); [apply tlcatchup_body| |].
      { rewrite (carries_length _ _ _ _ Hc). by eapply ready_after. }
      exists st3. split; [done|]. rewrite (carries_length _ _ _ _ Hc) in Hc3. by eapply carries_trans.
    - destruct Hres as [Hc Hcode]. destruct (Z.eqb_spec rres NN_REORDER_TOO_OLD).
      + destruct (for_readers_spec cfg c (too_old_reader cfg dq_full s q) st1) as (st3 & E3 & Hc3);
          [by eapply too_old_body| |].
        { rewrite (carries_length _ _ _ _ Hc). by eapply ready_after. }
        exists st3. split; [done|]. rewrite (carries_length _ _ _ _ Hc) in Hc3. by eapply carries_trans.
      + exists st1. split; [|eapply carries_weaken; [exact Hc|lia]]. destruct Hcode as [->|[->| ->]]; done. }
  destruct Hfin as (st3 & E3 & Hc3). rewrite E3. cbn [mbind option_bind].
  destruct (finish ok _ c st0 st st3 Hld Hr Hc3) as (h & Eh & Hd). rewrite Eh. cbn [mbind option_bind]. eauto.
Qed.

(** ** DATA and DATAFRAG *)

(** What a valid DATA or DATAFRAG submessage tells about the fragment [rd] of
    the sample [info]. *)
Record data_pre info rd st : Prop := {
  dp_seq : 0 < si_seq info < 2 ^ 63 - 1;
  dp_range : 0 <= rd_min rd <= rd_maxp1 rd /\ rd_maxp1 rd <= si_size info;
  dp_nonempty : rd_min rd = 0 /\ rd_maxp1 rd = si_size info \/ rd_min rd < rd_maxp1 rd;
  dp_size : forall s, s ∈ samples (pwr_defrag (rx_pwr st)) -> df_seq s = si_seq info -> si_size (df_sampleinfo s) = si_size info;
  dp_from : frag_from (si_seq info) rd;
  dp_msg : uncommitted (rd_rmsg rd) st;
  dp_adj : rx_adjust st = 0;
}.

(** The samples the defragmenter gets new. *)
Definition of_sample info (s : rsample_defrag T) : Prop :=
  df_seq s = si_seq info /\ si_size (df_sampleinfo s) = si_size info.

Lemma uncommitted_nonneg m0 st m : uncommitted m0 st -> 0 <= balance [] st m.
Proof. intros [Hu _]. specialize (Hu m). change UNCOMMITTED with (2 ^ 31) in Hu. case_decide; lia. Qed.

Lemma few_readers st : pwr_ok cfg (rx_pwr st) -> nreaders st < 2 ^ 16.
Proof. apply po_few. Qed.

(** Before the first fragment is loaded there is nothing to account for. *)
Lemma ready_nil k m0 st :
  pwr_ok cfg (rx_pwr st) -> rc_wf (rx_h st) -> uncommitted m0 st -> rx_adjust st = 0 -> k < BIAS -> ready k [] st.
Proof.
  intros Hp Hw Hu Ha Hk. split; auto; [|lia]. intros m. pose proof (uncommitted_nonneg m0 st m Hu). simpl. lia.
Qed.

Lemma uncommitted_carries m0 k st st' :
  uncommitted m0 st -> carries k [] st st' -> (forall m, rc (rx_h st') m <= rc (rx_h st) m) -> uncommitted m0 st'.
Proof.
  intros [Hu Hroom] Hc Hle. split; [|specialize (Hle m0); lia]. intros m. by rewrite (cy_bal _ _ _ _ _ Hc).
Qed.

(** The defragmenter takes the fragment. *)
Lemma defrag_part info rd st :
  pwr_ok cfg (rx_pwr st) -> rc_wf (rx_h st) -> data_pre info rd st ->
  exists d h r, nn_defrag_rsample (pwr_defrag (rx_pwr st)) (rx_h st) rd info = Some (d, h, r) /\
    let st' := with_h (with_pwr st (pwr_set_defrag (rx_pwr st) d)) h in
    let chain := match r with Some s => mjoin (map ce_fragchain (ro_sc s)) | None => [] end in
    match r with
    | Some s => result_ok info s /\ Forall (fun e => Forall (frag_from (si_seq info)) (ce_fragchain e)) (ro_sc s)
    | None => True
    end /\
    loaded (of_sample info) chain st st' /\ (forall k, k < BIAS -> ready k chain st') /\
    (forall m, elem_refs m (gap_news rd) + BIAS * refs_to m chain <= balance chain st' m).
Proof.
  intros Hp Hw [D1 D2 D3 D4 Dfrom [Hu Hroom] Ha].
  assert (Hfp : frag_pre rd info (pwr_defrag (rx_pwr st)) (rx_h st)).
  { split; auto; [lia|]. intros m. specialize (Hu m). unfold balance, owed in Hu. simpl in Hu.
    pose proof (handed_nonneg m (rx_out st)). pose proof (readers_refs_nonneg m (readers (rx_pwr st))).
    pose proof (elem_refs_nonneg m (elems (rivs (pwr_reorder (rx_pwr st))))). lia. }
  destruct (defrag_rsample_spec rd info _ _ (po_defrag _ _ Hp) Hfp) as (d & h & r & E & Hst).
  exists d, h, r. split; [done|]. intros st' chain.
  assert (Hch : forall m, result_refs m r = refs_to m chain) by (intros m; unfold chain; by destruct r).
  assert (Hb : forall m, balance chain st' m = balance [] st m + BIAS * refs_to m chain).
  { intros m. pose proof (st_refs _ _ _ _ _ _ _ Hst m) as Hm. rewrite Hch in Hm. unfold balance, owed, st'. simpl.
    change (readers (pwr_set_defrag (rx_pwr st) d)) with (readers (rx_pwr st)). rewrite Ha. lia. }
  destruct (st_frags _ _ _ _ _ _ _ Hst frag_from (po_frags _ _ Hp) Dfrom) as [Hff Hfr].
  split; [destruct r; [split; [apply Hst|done]|done]|]. split; [|split].
  - split; auto. apply (st_from _ _ _ _ _ _ _ Hst).
  - intros k Hk. destruct Hp as [P1 P2 P3 P4 P5 P6 P7 P8].
    split; [split; auto; apply Hst|apply Hst| |simpl; lia].
    intros m. rewrite Hb. pose proof (uncommitted_nonneg (rd_rmsg rd) st m). unfold uncommitted in *. intuition lia.
  - intros m. rewrite Hb. specialize (Hu m). simpl. change UNCOMMITTED with (2 ^ 31) in Hu.
    repeat case_decide; subst; try done; lia.
Qed.

Lemma loaded_handled ok st st' :
  loaded ok [] st st' -> pwr_ok cfg (rx_pwr st') -> rc_wf (rx_h st') -> handled ok st st'.
Proof.
  intros [LB LO LR LE LL LS] Hp Hw. split; auto; rewrite ?LE, ?LL; [| |lia|done].
  - intros m. specialize (LB m). unfold balance in LB. simpl in LB. lia.
  - exists []. rewrite app_nil_r, LR. split; [done|]. split; [constructor|]. split; [simpl; lia|]. apply readers_moves_refl.
Qed.

Lemma handle_regular_spec dq_full st info fragnum rd :
  pwr_ok cfg (rx_pwr st) -> rc_wf (rx_h st) -> data_pre info rd st ->
  exists st', handle_regular cfg dq_full st info fragnum rd = Some st' /\ handled (of_sample info) st st'.
Proof.
  intros Hp Hw Hd. unfold handle_regular. pose proof (carries_renew cfg [] st Hp Hw) as Hc1. set (st1 := renew_lease st) in *.
  destruct (ot_is_empty _); [exists st1; split; [done|]; by eapply carries_handled|].
  pose proof (carries_track cfg [] st1 (si_seq info) fragnum (cy_pwr _ _ _ _ _ Hc1) (cy_wf _ _ _ _ _ Hc1)) as Hc2.
  set (st2 := with_pwr st1 _) in *. pose proof (carries_trans _ _ _ _ _ _ _ Hc1 Hc2) as Hc12. simpl in Hc12.
  assert (Eh : rx_h st2 = rx_h st) by (unfold st2, st1, renew_lease; by destruct (pwr_assert_pp_lease (rx_pwr st))).
  assert (Hadj : rx_adjust st2 = 0) by (pose proof (cy_adj _ _ _ _ _ Hc12); rewrite (dp_adj _ _ _ Hd) in *; lia).
  assert (Hu2 : uncommitted (rd_rmsg rd) st2).
  { eapply uncommitted_carries; [apply (dp_msg _ _ _ Hd)|exact Hc12|]. intros m. rewrite Eh. lia. }
  destruct (carries_clean cfg 0 [] st2) as (st3 & E3 & Hc3 & Hle); [|lia|].
  { apply (ready_nil _ (rd_rmsg rd)); auto; [apply Hc2|apply Hc2|done]. }
  rewrite E3. cbn [mbind option_bind]. pose proof (carries_trans _ _ _ _ _ _ _ Hc12 Hc3) as Hc13. simpl in Hc13.
  destruct (defrag_part info rd st3) as (d & h & r & E & Hok & Hld & Hr & Hrd); [apply Hc3|apply Hc3| |].
  { destruct Hd as [D1 D2 D3 D4 Dfrom D5 D6]. split; auto.
    - intros s Hs. apply D4. by apply (cy_samples _ _ _ _ _ Hc13).
    - eapply uncommitted_carries; [exact D5|exact Hc13|]. intros m. rewrite <- Eh. apply Hle.
    - pose proof (cy_adj _ _ _ _ _ Hc3). lia. }
  rewrite E. cbn [mbind option_bind]. set (st4 := with_h _ h) in *.
  assert (Hreg : exists st5, match r with Some s => regular_rsample cfg dq_full st4 info rd s | None => Some st4 end = Some st5 /\
                 handled (of_sample info) st3 st5).
  { destruct r as [s|].
    - destruct Hok as [(c & i & -> & Hi & Hz & Hwk) Hfrom]. apply Forall_cons in Hfrom as [Hfrom _]. simpl in Hld, Hr, Hrd. rewrite app_nil_r in Hld, Hr, Hrd.
      pose proof (dp_seq _ _ _ Hd). rewrite (wrap_seq (si_seq info + 1)) by lia.
      apply regular_rsample_spec; auto; [intros j [= <-]; cbn [ce_fragchain]; rewrite Hz, Hi; split; assumption|]. apply Hr.
      pose proof (few_readers st4 (rd_pwr _ _ _ _ (Hr 0 eq_refl))). change BIAS with (2 ^ 20). lia.
    - exists st4. split; [done|]. apply loaded_handled; auto; apply (Hr 0); done. }
  destruct Hreg as (st5 & E5 & Hd5). rewrite E5. cbn [mbind option_bind]. eexists. split; [done|].
  pose proof (handled_trans _ _ _ _ (carries_handled _ (of_sample info) _ _ Hc13) Hd5) as Hall.
  destruct (_ && _); [|done]. eapply handled_trans; [exact Hall|]. eapply carries_handled. by apply carries_emit; auto; [apply Hall|apply Hall|].
Qed.
End Props.
