(* ===== verification/ReceiveGap.v ===== *)
(** * Gaps at a proxy writer

    A GAP submessage is a range and a set of sequence numbers that are not
    coming.  [handle_Gap] turns it into ranges, and tells the defragmenter, the
    primary administration and that of the addressed reader about each. *)

From Stdlib Require Import ZArith Lia Sorting.Sorted.
From stdpp Require Import prelude.
From S2P Require Import Prelude OrdTree Bitset Refs Defrag DefragFacts DefragOps DefragProps Reorder ReorderFacts ReorderOps ReorderProps ReorderGap ReorderRun Rmsg Dqueue Time Wire Protocol ProtocolProps Receive ReceiveFacts ReceiveOps ReceiveProps.

(** ** The ranges of a gap *)

Definition in_ranges (l : list (Z * Z)) (q : Z) : Prop := exists ab, ab ∈ l /\ ab.1 <= q < ab.2.

(** Non-empty ranges in order, from [lo] on and before [hi]. *)
Fixpoint ranges_ok (lo hi : Z) (l : list (Z * Z)) : Prop :=
  match l with
  | [] => lo <= hi
  | (a, b) :: l' => lo <= a < b /\ ranges_ok b hi l'
  end.

Lemma ranges_ok_le lo hi l : ranges_ok lo hi l -> lo <= hi.
Proof. revert lo. induction l as [|[a b] l IH]; intros lo; simpl; [done|]. intros [Hab Hl]. apply IH in Hl. lia. Qed.

Lemma ranges_ok_weaken lo lo' hi l : ranges_ok lo hi l -> lo' <= lo -> ranges_ok lo' hi l.
Proof. destruct l as [|[a b] l]; simpl; [lia|]. intros [Hab Hl] Hlo. split; [lia|done]. Qed.

Lemma ranges_ok_in lo hi l q : ranges_ok lo hi l -> in_ranges l q -> lo <= q < hi.
Proof.
  revert lo. induction l as [|[a b] l IH]; intros lo; simpl; intros Hok ([x y] & Hin & Hq); [by apply elem_of_nil in Hin|].
  destruct Hok as [Hab Hl]. apply elem_of_cons in Hin as [[= -> ->]|Hin].
  - simpl in Hq. apply ranges_ok_le in Hl. lia.
  - assert (b <= q < hi) by (apply IH; [done|by exists (x, y)]). lia.
Qed.

Lemma in_ranges_cons a b l q : in_ranges ((a, b) :: l) q <-> a <= q < b \/ in_ranges l q.
Proof.
  split.
  - intros ([x y] & [[= -> ->]|Hin]%elem_of_cons & Hq); [by left|right; by exists (x, y)].
  - intros [Hq|(ab & Hin & Hq)]; [exists (a, b)|exists ab]; (split; [set_solver|done]).
Qed.

(** The sequence numbers a GAP is about. *)
Definition in_gap (msg : Gap) (q : Z) : Prop :=
  fromSN (gp_gapStart msg) <= q < fromSN (ss_bitmap_base (gp_gapList msg)) \/
  0 <= q - fromSN (ss_bitmap_base (gp_gapList msg)) < ss_numbits (gp_gapList msg) /\
  bit_at (ss_bits (gp_gapList msg)) (q - fromSN (ss_bitmap_base (gp_gapList msg))) = true.

(** The sums of [handle_Gap] fit 64 bits. *)
Definition gap_fits (msg : Gap) : Prop :=
  - 2 ^ 63 < fromSN (ss_bitmap_base (gp_gapList msg)) /\
  fromSN (ss_bitmap_base (gp_gapList msg)) + ss_numbits (gp_gapList msg) < 2 ^ 63.

Lemma skip_set_spec numbits bits n : bits_ok numbits bits -> forall i,
  0 <= i <= numbits -> numbits - i <= Z.of_nat n ->
  exists j, skip_set n numbits bits i = Some j /\ i <= j <= numbits /\
    (forall k, i <= k < j -> bit_at bits k = true) /\ (j < numbits -> bit_at bits j = false).
Proof.
  intros Hb. induction n as [|n IH]; intros i Hi Hn; cbn [skip_set].
  - exists i. split; [done|]. split; [lia|]. split; intros; lia.
  - destruct (Z.ltb_spec i numbits).
    2:{ exists i. split; [done|]. split; [lia|]. split; intros; lia. }
    rewrite isset_bit_at by (done || lia). rewrite bool_decide_eq_true_2 by done. cbn [andb mbind option_bind].
    destruct (bit_at bits i) eqn:Eb.
    + destruct (IH (i + 1)) as (j & E & Hj & Hset & Hend); [lia..|]. exists j. split; [done|]. split; [lia|]. split; [|done].
      intros k Hk. destruct (decide (k = i)) as [->|]; [done|]. apply Hset. lia.
    + exists i. split; [done|]. split; [lia|]. split; [intros; lia|done].
Qed.

Section Gaps.
Context {T : Type -> Type} `{!OrdTree T, !OrdTreeLaws T}.
Context {H : Type} `{!RmsgRefs H, !RmsgRefsLaws H}.
Context `{FF : !FragFrom} (cfg : ddsi_config).

Abbreviation BIAS := RMSG_REFCOUNT_RDATA_BIAS.
Abbreviation carries := (carries cfg).
Abbreviation ready := (ready cfg).
Implicit Types (wn : pwr_rd_match T) (p : proxy_writer T) (h : H) (st : rx T H) (r : nn_reorder T).

(** [handle_one_gap] for each of a list of ranges. *)
Fixpoint one_gaps st (owner : option (pwr_rd_match T)) (l : list (Z * Z)) (gap : rdata) : option (rx T H * option (pwr_rd_match T)) :=
  match l with
  | [] => Some (st, owner)
  | (a, b) :: l' => '(st, owner, _) ← handle_one_gap cfg st owner a b gap; one_gaps st owner l' gap
  end.

(** The [while] of [handle_Gap] handles the runs of set bits, in order. *)
Lemma gap_bits_loop_ranges numbits bits base : bits_ok numbits bits -> - 2 ^ 63 < base -> base + numbits < 2 ^ 63 -> forall fuel i last,
  0 <= i <= numbits -> numbits - i <= Z.of_nat fuel ->
  exists l last', ranges_ok (base + i) (base + numbits) l /\ (length l <= Z.to_nat (numbits - i))%nat /\
    (forall q, in_ranges l q <-> i <= q - base < numbits /\ bit_at bits (q - base) = true) /\
    (forall st owner gap, gap_bits_loop cfg fuel st owner base numbits bits gap i last =
      '(st, owner) ← one_gaps st owner l gap; Some (st, owner, last')).
Proof.
  intros Hb Hlo Hhi. assert (Hend : forall i q, numbits <= i -> in_ranges [] q <-> i <= q - base < numbits /\ bit_at bits (q - base) = true).
  { intros i q Hi. split; [intros (ab & Hin & _); by apply elem_of_nil in Hin|lia]. }
  induction fuel as [|fuel IH]; intros i last Hi Hf; cbn [gap_bits_loop]; destruct (Z.ltb_spec i numbits); try lia;
    try (exists [], last; split; [simpl; lia|]; split; [simpl; lia|]; split; [auto|done]).
  - rewrite isset_bit_at by (done || lia). rewrite bool_decide_eq_true_2 by done. cbn [andb mbind option_bind].
    destruct (bit_at bits i) eqn:Eb.
    + destruct (skip_set_spec numbits bits (Z.to_nat numbits) Hb (i + 1)) as (j & Ej & Hj & Hset & _); [lia..|].
      rewrite Ej. cbn [mbind option_bind]. rewrite (wrap_seq (base + i)), (wrap_seq (base + j)) by lia. destruct (IH j (j - 1)) as (l & last' & Hok & Hlen & Hin & Hrun); [lia..|].
      exists ((base + i, base + j) :: l), last'. split; [simpl; split; [lia|done]|]. split; [simpl; lia|]. split.
      * intros q. rewrite in_ranges_cons, Hin. split.
        -- intros [Hq|Hq]; [|split; [lia|apply Hq]]. split; [lia|].
           destruct (decide (q - base = i)) as [->|]; [done|]. apply Hset. lia.
        -- intros [Hq Hbit]. destruct (Z.lt_ge_cases (q - base) j); [left; lia|right; split; [lia|done]].
      * intros st owner gap. cbn [one_gaps]. destruct (handle_one_gap cfg st owner _ _ gap) as [[[st1 o1] v]|]; [|done].
        cbn [mbind option_bind]. rewrite Z.geb_leb. destruct (Z.leb_spec 1 j); [|lia]. by rewrite Hrun.
    + destruct (IH (i + 1) last) as (l & last' & Hok & Hlen & Hin & Hrun); [lia..|]. exists l, last'.
      split; [eapply ranges_ok_weaken; [exact Hok|lia]|]. split; [lia|]. split; [|done]. intros q. rewrite Hin. split.
      * intros [Hq Hbit]. split; [lia|done].
      * intros [Hq Hbit]. split; [|done]. destruct (decide (q - base = i)) as [E|]; [rewrite E in Hbit; congruence|lia].
Qed.

(** The whole of [handle_Gap] over the ranges of the message. *)
Definition gap_reference st (m : rmsg_addr) (dst : nn_guid) (l : list (Z * Z)) (last : Z) : option (rx T H) :=
  let st := renew_lease st in
  match lookup_reader cfg st dst with
  | None => Some st
  | Some wn =>
      '(gap, h) ← nn_rdata_newgap (rx_h st) m;
      '(st, _) ← one_gaps (with_h st h) (Some wn) l gap;
      h ← nn_fragchain_adjust_refcount (rx_h st) [gap] (rx_adjust st);
      let p := rx_pwr st in
      Some (with_pwr (with_h st h) (if last >? pwr_last_seq p then pwr_set_last p last (2 ^ 32 - 1) false else p))
  end.

Lemma handle_Gap_ranges msg :
  gap_ok msg -> gap_fits msg ->
  exists lo hi l last, ranges_ok lo hi l /\ (length l <= 257)%nat /\
    (forall q, in_ranges l q -> in_gap msg q) /\
    (fromSN (gp_gapStart msg) <= fromSN (ss_bitmap_base (gp_gapList msg)) -> forall q, in_gap msg q -> in_ranges l q) /\
    (forall st m dst, handle_Gap cfg st m dst msg = gap_reference st m dst l last).
Proof.
  intros [G1 G2 G3 [Gf Gw Gb] G5] [F1 F2]. set (s0 := fromSN (gp_gapStart msg)) in *. set (base := fromSN (ss_bitmap_base (gp_gapList msg))) in *.
  set (nb := ss_numbits (gp_gapList msg)) in *. set (bits := ss_bits (gp_gapList msg)) in *.
  destruct (skip_set_spec nb bits (Z.to_nat nb) Gb 0) as (i & Ei & Hi & Hset & Hend); [lia..|].
  destruct (gap_bits_loop_ranges nb bits base Gb F1 F2 (Z.to_nat nb) i (i - 1)) as (l & last & Hok & Hlen & Hin & Hrun); [lia..|].
  assert (Hs : forall q, s0 <= q < base + i \/ in_ranges l q -> in_gap msg q).
  { intros q. unfold in_gap. fold s0 base nb bits. rewrite Hin. intros [Hq|[Hq Hb]]; [|right; split; [lia|done]].
    destruct (Z.lt_ge_cases q base); [left; lia|right]. split; [lia|]. apply Hset. lia. }
  assert (Hc : s0 <= base -> forall q, in_gap msg q -> s0 <= q < base + i \/ in_ranges l q).
  { intros Hord q. unfold in_gap. fold s0 base nb bits. rewrite Hin.
    intros [Hq|[Hq Hb]]; [left; lia|]. destruct (Z.lt_ge_cases (q - base) i); [left; lia|right; split; [lia|done]]. }
  exists (if s0 <? base + i then s0 else base + i), (base + nb), (if s0 <? base + i then (s0, base + i) :: l else l), (wrap_s 64 (base + last)).
  split; [destruct (Z.ltb_spec s0 (base + i)); [simpl; split; [lia|done]|done]|].
  split; [destruct (s0 <? base + i); simpl; lia|].
  split; [|split].
  - intros q Hq. apply Hs. destruct (Z.ltb_spec s0 (base + i)); [by apply in_ranges_cons in Hq|by right].
  - intros Hord q Hq. apply (Hc Hord) in Hq. destruct (Z.ltb_spec s0 (base + i)); [by apply in_ranges_cons|destruct Hq; [lia|done]].
  - intros st m dst. unfold handle_Gap, gap_reference. fold s0 base nb bits. rewrite Ei. cbn [mbind option_bind]. rewrite (wrap_seq (base + i)) by lia.
    destruct (lookup_reader _ _ _) as [wn|]; [|done]. destruct (nn_rdata_newgap _ m) as [[gap h]|]; [|done]. cbn [mbind option_bind].
    assert (Hfin : forall st1 o1, ('(st, _, last_included_rel) ← gap_bits_loop cfg (Z.to_nat nb) st1 o1 base nb bits gap i (i - 1);
        h ← nn_fragchain_adjust_refcount (rx_h st) [gap] (rx_adjust st);
        let st := with_h st h in
        let last_included := wrap_s 64 (base + last_included_rel) in
        Some (if last_included >? pwr_last_seq (rx_pwr st)
              then with_pwr st (pwr_set_last (rx_pwr st) last_included (2 ^ 32 - 1) false) else st)) =
      ('(st, _) ← one_gaps st1 o1 l gap;
       h ← nn_fragchain_adjust_refcount (rx_h st) [gap] (rx_adjust st);
       let p := rx_pwr st in
       Some (with_pwr (with_h st h) (if wrap_s 64 (base + last) >? pwr_last_seq p then pwr_set_last p (wrap_s 64 (base + last)) (2 ^ 32 - 1) false else p)))).
    { intros st1 o1. rewrite Hrun. destruct (one_gaps st1 o1 l gap) as [[st2 o2]|]; [|done]. cbn [mbind option_bind].
      destruct (nn_fragchain_adjust_refcount _ _ _); [|done]. cbn [mbind option_bind rx_pwr with_h]. by destruct (_ >? _), st2. }
    destruct (s0 <? base + i); [|apply Hfin]. cbn [one_gaps].
    destruct (handle_one_gap _ _ _ _ _ _) as [[[st1 o1] v]|]; [|done]. cbn [mbind option_bind]. apply Hfin.
Qed.

(** ** One range *)

Lemma deliver_primary_pwr st sc n st' : deliver_primary st sc n = Some st' -> rx_pwr st' = rx_pwr st.
Proof.
  unfold deliver_primary. destruct (pwr_deliver_synchronously (rx_pwr st)); [|by intros [= <-]].
  revert st. induction sc as [|e sc IH]; intros st; cbn [deliver_user_data_synchronously]; [by intros [= <-]|].
  set (st0 := match ce_sampleinfo e with Some _ => _ | None => _ end). assert (E0 : rx_pwr st0 = rx_pwr st) by (unfold st0; by destruct (ce_sampleinfo e)).
  destruct (nn_fragchain_unref _ _) as [h|]; [|done]. cbn [mbind option_bind]. intros E. apply IH in E. by rewrite E.
Qed.

(** What a gap does to the sequence numbers an administration knows of. *)
Record gap_known (a b : Z) r r' : Prop := {
  ge_sound : forall q, known r' q -> known r q \/ a <= q < b;
  ge_known : rr_mode r = NN_REORDER_MODE_NORMAL -> rr_n_samples r < rr_max_samples r ->
    forall q, known r q \/ a <= q < b -> known r' q;
  ge_samples : rr_n_samples r' <= rr_n_samples r + 1;
  ge_next : rr_mode r = NN_REORDER_MODE_NORMAL -> a <= rr_next_seq r -> b <= rr_next_seq r';
}.

(** What is known right up to [b] is past. *)
Lemma known_next r b : tree_ok r -> (forall q, rr_next_seq r <= q < b -> known r q) -> b <= rr_next_seq r.
Proof.
  intros Ht Hk. destruct (Z.le_gt_cases b (rr_next_seq r)) as [|Hlt]; [done|].
  destruct (Hk (rr_next_seq r)) as [?|(iv & Hin & Hr)]; [lia..|].
  pose proof (tk_next _ Ht) as Hf. rewrite Forall_forall in Hf. specialize (Hf iv Hin). simpl in Hf. lia.
Qed.

Lemma any_gap_known r h rd a b r' h' out :
  reorder_ok r -> rc_wf h -> rr_mode r <> NN_REORDER_MODE_ALWAYS_DELIVER -> a < b \/ b <= rr_next_seq r ->
  sc_cover h (elems (rivs r) ++ gap_news rd) -> nn_reorder_gap r h rd a b = Some (r', h', out) -> gap_known a b r r'.
Proof.
  intros Hok Hwf Hm Hab Hc E.
  assert (Hold : (b <= rr_next_seq r \/ rr_mode r <> NN_REORDER_MODE_NORMAL) -> gap_known a b r r').
  { intros Hcase. assert (r' = r) as ->.
    { unfold nn_reorder_gap, nn_reorder_gap_build in E. destruct (Z.leb_spec b (rr_next_seq r)); [by simplify_eq|].
      destruct Hcase; [lia|]. rewrite bool_decide_eq_false_2 in E by done. by simplify_eq/=. }
    split; [auto| |lia|]; [|by intros Hn _; destruct Hcase].
    intros Hn Hroom q [|Hq]; [done|]. destruct Hcase; [left; lia|done]. }
  destruct (Z.le_gt_cases b (rr_next_seq r)); [auto|].
  destruct (decide (rr_mode r = NN_REORDER_MODE_NORMAL)) as [Hn|]; [|auto].
  destruct (gap_normal_spec r h rd a b Hok Hwf Hn) as (r2 & h2 & out2 & dr & E2 & Hre & Ha); [lia|done|].
  rewrite E in E2. injection E2 as <- <- <-. split.
  - intros q Hq. destruct (re_sound _ _ _ _ _ _ _ _ _ Hre q Hq) as [|[_ ?]]; auto.
  - intros _ Hroom q Hq. assert (dr = []) as -> by (destruct (re_dropped _ _ _ _ _ _ _ _ _ Hre) as [|[? _]]; [done|lia]).
    apply (re_known _ _ _ _ _ _ _ _ _ Hre eq_refl). destruct Hq as [Hq|Hq]; [by left|]. unfold gap_answers in Ha.
    destruct (Z.leb_spec b (rr_next_seq r)); [lia|]. destruct (a <=? rr_next_seq r); [right; by destruct Ha|].
    destruct Ha as [Ha|[_ [Hcov|Hfull]]]; [right; by rewrite Ha| |lia]. left. right. by apply Hcov.
  - pose proof (Permutation_length (re_elems _ _ _ _ _ _ _ _ _ Hre)) as Hl. rewrite !length_app in Hl.
    rewrite (rk_n _ Hok), (rk_n _ (re_ok _ _ _ _ _ _ _ _ _ Hre)). destruct (out.1.2 =? 1); simpl in Hl; lia.
  - intros _ Ha1. unfold gap_answers in Ha. destruct (Z.leb_spec b (rr_next_seq r)); [lia|].
    destruct (Z.leb_spec a (rr_next_seq r)); [|lia]. destruct Ha as [Ha Hz].
    assert (dr = []) as -> by (destruct (re_dropped _ _ _ _ _ _ _ _ _ Hre) as [|(_ & _ & ?)]; [done|lia]).
    apply known_next; [apply (re_ok _ _ _ _ _ _ _ _ _ Hre)|]. intros q Hq. apply (re_known _ _ _ _ _ _ _ _ _ Hre eq_refl). right.
    pose proof (fits_le _ _ _ (re_fits _ _ _ _ _ _ _ _ _ Hre)). lia.
Qed.

(** The primary administration takes the gap. *)
Lemma primary_gap_part gap st a b :
  ready 1 [gap] st -> a < b \/ b <= rr_next_seq (pwr_reorder (rx_pwr st)) ->
  exists st1 sc res, primary_gap st gap a b = Some (st1, sc, res) /\
  exists st2, (if res >? 0 then deliver_primary st1 sc res else Some st1) = Some st2 /\
    carries 1 [gap] st st2 /\ readers (rx_pwr st2) = readers (rx_pwr st) /\
    gap_known a b (pwr_reorder (rx_pwr st)) (pwr_reorder (rx_pwr st2)).
Proof.
  intros Hr Hab. pose proof Hr as [Hp Hw _ _]. pose proof (po_reorder _ _ Hp) as (R1 & R2 & R3 & R4).
  assert (Hnews : forall m, elem_refs m (gap_news gap) = refs_to m [gap]) by (intros m; simpl; lia).
  assert (Hcov : sc_cover (rx_h st) (elems (rivs (pwr_reorder (rx_pwr st))) ++ gap_news gap)).
  { apply (primary_cover cfg 1 [gap]); auto; [lia|]. intros m. rewrite Hnews. lia. }
  destruct (any_gap_spec _ _ gap a b R1 Hw R2 Hab Hcov) as (r' & h' & out & E & Hmv).
  pose proof (any_gap_known _ _ _ _ _ _ _ _ R1 Hw R2 Hab Hcov E) as Hk.
  unfold primary_gap. rewrite E. destruct out as [[sc adj] res] eqn:Eout. cbn [mbind option_bind]. eexists _, _, _. split; [done|].
  destruct (primary_step cfg [gap] st r' h' out (gap_news gap) Hr) as [Hnone Hsome]; [by subst|by intros|apply gap_whole|].
  subst out. cbn [fst snd] in Hnone, Hsome. rewrite Z.gtb_ltb. destruct (Z.ltb_spec 0 res) as [Hpos|Hneg].
  - destruct (Hsome Hpos) as (st2 & E2 & Hc). exists st2. split; [done|]. split; [done|].
    apply deliver_primary_pwr in E2. by rewrite E2.
  - eexists. split; [done|]. split; [|done]. apply Hnone. by destruct (moved_none _ _ _ _ _ _ Hmv Hneg) as [Hnil _].
Qed.

Lemma maybe_reorder st wn q st' wn' :
  maybe_set_reader_in_sync st wn q = Some (st', wn') -> pwr_reorder (rx_pwr st') = pwr_reorder (rx_pwr st).
Proof. unfold maybe_set_reader_in_sync, tlcatchup_in_sync. intros E. repeat case_match; by simplify_eq/=. Qed.

Definition is_reader st (owner : option (pwr_rd_match T)) : Prop :=
  match owner with Some wn => wn ∈ readers (rx_pwr st) | None => True end.

Lemma one_gap_spec gap st owner a b :
  ready 2 [gap] st -> is_reader st owner -> a < b ->
  exists st' owner' v, handle_one_gap cfg st owner a b gap = Some (st', owner', v) /\ carries 2 [gap] st st' /\
    is_reader st' owner' /\ gap_known a b (pwr_reorder (rx_pwr st)) (pwr_reorder (rx_pwr st')) /\
    Forall (fun s => ~ a <= df_seq s < b) (samples (pwr_defrag (rx_pwr st'))).
Proof.
  intros Hr Hown Hab. unfold handle_one_gap. destruct (carries_notegap cfg 2 [gap] st a b Hr) as (d & h & E & Hc1 & _ & Hfree); [lia|].
  rewrite E. cbn [mbind option_bind]. set (st1 := with_h _ h) in *.
  assert (Hr1 : ready 2 [gap] st1) by (by apply (ready_after cfg 0 2 _ st)).
  destruct (primary_gap_part gap st1 a b) as (sta & sc & res & E2 & st2 & E3 & Hc2 & Er & Hk); [eapply ready_weaken; [exact Hr1|lia]|by left|].
  rewrite E2. cbn [mbind option_bind]. rewrite E3. cbn [mbind option_bind].
  pose proof (carries_trans _ _ _ _ _ _ _ Hc1 Hc2) as Hc12. change (0 + 1) with 1 in Hc12.
  assert (Hdone : carries 2 [gap] st st2) by (eapply carries_weaken; [exact Hc12|lia]).
  change (pwr_reorder (rx_pwr st1)) with (pwr_reorder (rx_pwr st)) in Hk. change (readers (rx_pwr st1)) with (readers (rx_pwr st)) in Er.
  assert (Hfree2 : Forall (fun s => ~ a <= df_seq s < b) (samples (pwr_defrag (rx_pwr st2)))).
  { apply Forall_forall. intros s Hs. rewrite Forall_forall in Hfree. apply Hfree. by apply (cy_samples _ _ _ _ _ Hc2). }
  destruct owner as [wn|]; [|by eexists _, _, _]. unfold is_reader in Hown. rewrite <- Er in Hown.
  case_bool_decide as Hsync; [by eexists _, _, _|].
  pose proof Hown as (l1 & l2 & El)%list_elem_of_split.
  assert (Hr2 : ready 1 [gap] st2) by (by apply (ready_after cfg 1 1 _ st)).
  assert (Hlast : forall stb wnb, carries 1 [gap] st2 (store_reader cfg stb wnb) -> readers (rx_pwr (store_reader cfg stb wnb)) = l1 ++ wnb :: l2 ->
    pwr_reorder (rx_pwr stb) = pwr_reorder (rx_pwr st2) -> forall v : bool,
    exists st' owner' v', Some (store_reader cfg stb wnb, Some wnb, v) = Some (st', owner', v') /\ carries 2 [gap] st st' /\
    is_reader st' owner' /\ gap_known a b (pwr_reorder (rx_pwr st)) (pwr_reorder (rx_pwr st')) /\
    Forall (fun s => ~ a <= df_seq s < b) (samples (pwr_defrag (rx_pwr st')))).
  { intros stb wnb Hcb Erb Hrb v. eexists _, _, _. split; [done|]. split; [by apply (carries_trans _ 1 1 _ _ _ _ Hc12 Hcb)|].
    split; [unfold is_reader; rewrite Erb; set_solver|]. split; [simpl; by rewrite Hrb|].
    apply Forall_forall. intros s Hs. rewrite Forall_forall in Hfree2. apply Hfree2. by apply (cy_samples _ _ _ _ _ Hcb). }
  destruct (_ && _) eqn:Eo.
  - apply andb_prop in Eo as [Eo _]. apply bool_decide_eq_true in Eo.
    destruct (reader_gap_step cfg gap st2 l1 wn l2 a b (fun _ => b - 1) (fun w => w)) as (stg & wng & scg & resg & Eg & stm & wnm & Em & Hcm & Erm & _);
      auto.
    rewrite Eg. cbn [mbind option_bind]. rewrite Em. cbn [mbind option_bind]. apply Hlast; auto. rewrite (maybe_reorder _ _ _ _ _ Em).
    unfold reader_gap in Eg. destruct (nn_reorder_gap _ _ _ _ _) as [[[rr hh] [[ss aa] ee]]|]; [|done]. cbn [mbind option_bind] in Eg. injection Eg as <- <- <- <-. destruct (ee >? 0); reflexivity.
  - destruct (sync_step cfg [gap] st2 l1 wn l2 wn (b - 1)) as (stm & wnm & Em & Hcm & Erm & _); auto.
    { unfold out_of_sync. by rewrite bool_decide_eq_false_2. }
    { unfold out_of_sync. by rewrite bool_decide_eq_false_2. }
    cbn [mbind option_bind]. rewrite Em. cbn [mbind option_bind]. apply Hlast; auto. by apply (maybe_reorder _ _ _ _ _ Em).
Qed.

(** ** The whole message *)

(** What a GAP does: the administrations learn nothing but the ranges, learn
    all of them when there is room, and the fragments stored for them go. *)
Record gaps_done (l : list (Z * Z)) p p' : Prop := {
  gd_sound : forall q, known (pwr_reorder p') q -> known (pwr_reorder p) q \/ in_ranges l q;
  gd_known : rr_mode (pwr_reorder p) = NN_REORDER_MODE_NORMAL ->
    rr_n_samples (pwr_reorder p) + Z.of_nat (length l) <= rr_max_samples (pwr_reorder p) ->
    forall q, known (pwr_reorder p) q \/ in_ranges l q -> known (pwr_reorder p') q;
  gd_frags : forall s, s ∈ samples (pwr_defrag p') -> ~ in_ranges l (df_seq s);
}.

Lemma one_gaps_spec gap l : forall lo hi st owner,
  ranges_ok lo hi l -> ready (2 * Z.of_nat (length l)) [gap] st -> is_reader st owner ->
  exists st' owner', one_gaps st owner l gap = Some (st', owner') /\ carries (2 * Z.of_nat (length l)) [gap] st st' /\
    gaps_done l (rx_pwr st) (rx_pwr st').
Proof.
  induction l as [|[a b] l IH]; intros lo hi st owner Hok Hr Ho; cbn [one_gaps].
  - eexists _, _. split; [done|]. split; [apply carries_refl; apply Hr|].
    assert (Hnil : forall q, ~ in_ranges [] q) by (intros q (ab & Hin & _); by apply elem_of_nil in Hin).
    split; [auto|intros _ _ q [|Hq]; [done|by apply Hnil in Hq]|auto].
  - destruct Hok as [Hab Hok]. simpl length in *.
    destruct (one_gap_spec gap st owner a b) as (st1 & o1 & v & E & Hc & Ho1 & Hk & Hfree); [eapply ready_weaken; [exact Hr|lia]|done|lia|].
    rewrite E. cbn [mbind option_bind].
    destruct (IH b hi st1 o1 Hok) as (st2 & o2 & E2 & Hc2 & [D1 D2 D3]); [|done|].
    { eapply ready_after; [|exact Hc]. eapply ready_weaken; [exact Hr|lia]. }
    exists st2, o2. split; [done|]. split; [eapply carries_weaken; [by eapply carries_trans|lia]|].
    pose proof (cy_conf _ _ _ _ _ Hc) as [[Cm Cx] _]. destruct Hk as [K1 K2 K3]. split.
    + intros q Hq. rewrite in_ranges_cons. destruct (D1 q Hq) as [Hq1|]; [|auto]. destruct (K1 q Hq1); auto.
    + intros Hm Hroom q Hq. cbn [length] in Hroom. apply D2; [congruence|rewrite Cx; lia|]. rewrite in_ranges_cons in Hq.
      destruct Hq as [Hq|[Hq|Hq]]; [left; apply K2; auto; lia|left; apply K2; auto; lia|by right].
    + intros s Hs. rewrite in_ranges_cons. intros [Hq|Hq]; [|by apply (D3 s Hs)].
      rewrite Forall_forall in Hfree. apply (Hfree s); [|done]. by apply (cy_samples _ _ _ _ _ Hc2).
Qed.

Lemma gap_reference_spec st m dst lo hi l last :
  pwr_ok cfg (rx_pwr st) -> rc_wf (rx_h st) -> uncommitted m st -> rx_adjust st = 0 ->
  ranges_ok lo hi l -> (length l <= 257)%nat ->
  exists st', gap_reference st m dst l last = Some st' /\ handled cfg (fun _ => False) st st' /\
    match lookup_reader cfg st dst with
    | Some _ => gaps_done l (rx_pwr st) (rx_pwr st')
    | None => rx_pwr st' = rx_pwr st
    end.
Proof.
  intros Hp Hw Hu Ha Hok Hlen. unfold gap_reference. pose proof (carries_renew cfg [] st Hp Hw) as Hc1.
  assert (E1 : rx_pwr (renew_lease st) = rx_pwr st /\ rx_h (renew_lease st) = rx_h st /\ rx_adjust (renew_lease st) = rx_adjust st).
  { unfold renew_lease. by destruct (pwr_assert_pp_lease (rx_pwr st)). }
  destruct E1 as (Ep & Eh & Ea). set (st1 := renew_lease st) in *.
  assert (El : lookup_reader cfg st1 dst = lookup_reader cfg st dst) by (unfold lookup_reader; by rewrite Ep). rewrite El.
  pose proof (lookup_reader_spec cfg st dst Hp) as Hown.
  destruct (lookup_reader cfg st dst) as [wn|]; [|exists st1; split; [done|]; split; [by eapply carries_handled|done]].
  assert (Hu1 : uncommitted m st1) by (eapply uncommitted_carries; [exact Hu|exact Hc1|]; intros; rewrite Eh; lia).
  destruct (newgap_spec cfg st1 m) as (gap & h & E & _ & Hld & Hr); [by rewrite Ep|by rewrite Eh|done|by rewrite Ea|].
  rewrite E. cbn [mbind option_bind].
  assert (Hr2 : ready (2 * Z.of_nat (length l)) [gap] (with_h st1 h)) by (eapply ready_weaken; [exact Hr|change BIAS with (2 ^ 20); lia]).
  destruct (one_gaps_spec gap l lo hi (with_h st1 h) (Some wn) Hok Hr2) as (st2 & o2 & E2 & Hc2 & [G1 G2 G3]).
  { simpl. rewrite Ep. destruct Hown as (l1 & l2 & ->). set_solver. }
  simpl in G1, G2, G3. rewrite Ep in G1, G2.
  rewrite E2. cbn [mbind option_bind]. destruct (finish cfg _ _ _ _ _ _ Hld Hr2 Hc2) as (h3 & E3 & Hd). rewrite E3. cbn [mbind option_bind].
  eexists. split; [done|]. split.
  - eapply handled_trans; [by eapply carries_handled|]. eapply handled_trans; [exact Hd|]. eapply (carries_handled _ 0).
    change (with_pwr (with_h st2 h3)) with (@with_pwr T H (with_h st2 h3)).
    rewrite Z.gtb_ltb. destruct (Z.ltb_spec (pwr_last_seq (rx_pwr st2)) last); apply carries_fields; simpl; auto; try apply Hd; lia.
  - cbv zeta. destruct (last >? _); by split.
Qed.

Lemma handle_Gap_spec st m dst msg :
  pwr_ok cfg (rx_pwr st) -> rc_wf (rx_h st) -> uncommitted m st -> rx_adjust st = 0 -> gap_ok msg -> gap_fits msg ->
  exists st', handle_Gap cfg st m dst msg = Some st' /\ handled cfg (fun _ => False) st st' /\
    (forall q, known (pwr_reorder (rx_pwr st')) q -> known (pwr_reorder (rx_pwr st)) q \/ in_gap msg q) /\
    (is_Some (lookup_reader cfg st dst) -> fromSN (gp_gapStart msg) <= fromSN (ss_bitmap_base (gp_gapList msg)) ->
      forall q, in_gap msg q ->
      (forall s, s ∈ samples (pwr_defrag (rx_pwr st')) -> df_seq s <> q) /\
      (rr_mode (pwr_reorder (rx_pwr st)) = NN_REORDER_MODE_NORMAL ->
       rr_n_samples (pwr_reorder (rx_pwr st)) + 257 <= rr_max_samples (pwr_reorder (rx_pwr st)) ->
       known (pwr_reorder (rx_pwr st')) q)).
Proof.
  intros Hp Hw Hu Ha Hmsg Hfit. destruct (handle_Gap_ranges msg Hmsg Hfit) as (lo & hi & l & last & Hok & Hlen & Hs & Hc & Heq).
  rewrite Heq. destruct (gap_reference_spec st m dst lo hi l last) as (st' & E & Hd & Hdone); auto.
  exists st'. split; [done|]. split; [done|]. destruct (lookup_reader cfg st dst) as [wn|].
  - destruct Hdone as [D1 D2 D3]. split; [intros q Hq; destruct (D1 q Hq); auto|]. intros _ Hord q Hq. apply (Hc Hord) in Hq. split.
    + intros s Hin <-. by apply (D3 s Hin).
    + intros Hm Hroom. apply D2; [done|lia|by right].
  - rewrite Hdone. split; [auto|]. by intros [? ?].
Qed.

(** A sample that is too big is a gap of one. *)
Lemma drop_oversize_spec st m dst info :
  pwr_ok cfg (rx_pwr st) -> rc_wf (rx_h st) -> uncommitted m st -> rx_adjust st = 0 -> 0 < si_seq info < 2 ^ 63 - 1 ->
  exists st', drop_oversize cfg st m dst info = Some st' /\ handled cfg (fun _ => False) st st'.
Proof.
  intros Hp Hw Hu Ha Hq. unfold drop_oversize. rewrite (wrap_seq (si_seq info + 1)) by lia.
  destruct (newgap_spec cfg st m Hp Hw Hu Ha) as (gap & h & E & _ & Hld & Hr). rewrite E. cbn [mbind option_bind].
  pose proof (lookup_reader_spec cfg (with_h st h) dst Hp) as Hown.
  destruct (one_gap_spec gap (with_h st h) (lookup_reader cfg (with_h st h) dst) (si_seq info) (si_seq info + 1))
    as (st1 & o1 & v & E1 & Hc & _); [by eapply ready_weaken| |lia|].
  { unfold is_reader. destruct (lookup_reader cfg (with_h st h) dst); [|done]. destruct Hown as (l1 & l2 & ->). set_solver. }
  rewrite E1. cbn [mbind option_bind]. eapply finish in Hc as (h3 & E3 & Hd); [|done|by eapply ready_weaken].
  rewrite E3. cbn [mbind option_bind]. eauto.
Qed.
End Gaps.
