(* ===== verification/ReceiveHandlers.v ===== *)
(** * The other handlers of a proxy writer

    DATA, DATAFRAG, HEARTBEAT and HEARTBEATFRAG submessages, matching and
    unmatching of readers, and deleting the proxy writer. *)

From Stdlib Require Import ZArith Lia Sorting.Sorted.
From stdpp Require Import prelude.
From S2P Require Import Prelude OrdTree Bitset Refs Defrag DefragFacts DefragOps DefragProps DefragNack Reorder ReorderFacts ReorderOps ReorderProps ReorderGap ReorderRun Rmsg Dqueue Time Wire Protocol ProtocolProps Receive ReceiveFacts ReceiveOps ReceiveProps ReceiveGap.

(** Where the search for the first key not before [k] ends. *)
Lemma l_succeq_suffix {E : Type} (key : E -> Z) (l : list E) k : exists front rest, l = front ++ rest /\ l_succeq key k l = head rest.
Proof.
  induction l as [|x l IH]; [by exists [], []|]. simpl. destruct (k <=? key x); [by exists [], (x :: l)|].
  destruct IH as (front & rest & -> & E2). by exists (x :: front), rest.
Qed.

Lemma add_duration_ok t d : 0 <= t < 2 ^ 63 -> 0 <= d < 2 ^ 63 -> exists r, add_duration_to_time t d = Some r /\ 0 <= r.
Proof.
  intros Ht Hd. unfold add_duration_to_time. rewrite !Z.geb_leb.
  destruct (Z.leb_spec 0 t), (Z.leb_spec 0 d); try lia. cbn [andb].
  assert (E : wrap_u 64 (wrap_u 64 t + wrap_u 64 d) = t + d) by (rewrite !(wrap_u_small 64) by (unfold in_u; rewrite ?(wrap_u_small 64) by (unfold in_u; lia); lia); done).
  rewrite E. eexists. split; [done|]. destruct (Z.leb_spec T_NEVER (t + d)); [done|]. unfold T_NEVER in *.
  rewrite wrap_s_small; [lia|lia|]. unfold in_s. lia.
Qed.

Section Handlers.
Context {T : Type -> Type} `{!OrdTree T, !OrdTreeLaws T}.
Context {H : Type} `{!RmsgRefs H, !RmsgRefsLaws H}.
Context `{FF : !FragFrom} (cfg : ddsi_config).

Abbreviation BIAS := RMSG_REFCOUNT_RDATA_BIAS.
Abbreviation carries := (carries cfg).
Abbreviation ready := (ready cfg).
Abbreviation nreaders st := (Z.of_nat (length (readers (rx_pwr st)))).
Implicit Types (wn : pwr_rd_match T) (p : proxy_writer T) (h : H) (st : rx T H) (r : nn_reorder T).

(** ** Samples and fragments *)

(** All fragments of a sample agree on its size (the sample size of the
    submessage is not checked against that of earlier fragments). *)
Definition size_agrees info st : Prop :=
  forall s, s ∈ samples (pwr_defrag (rx_pwr st)) -> df_seq s = si_seq info -> si_size (df_sampleinfo s) = si_size info.

Lemma handled_weaken (ok ok' : rsample_defrag T -> Prop) st st' :
  handled cfg ok st st' -> (forall s, ok s -> ok' s) -> handled cfg ok' st st'.
Proof. intros [P W B O S L C] Hok. split; auto. intros s Hs. destruct (S s Hs); auto. Qed.

(** The fragment that a DATA or DATAFRAG brings. *)
Definition data_rdata (m : rmsg_addr) (smoff size : Z) info (datap : option Z) : rdata :=
  Rdata m 0 (si_size info) smoff (match datap with Some d => smoff + d | None => smoff + size end).
Definition frag_rdata (m : rmsg_addr) (smoff : Z) (msg : DataFrag) (datap : Z) : rdata :=
  Rdata m (claimed_range msg).1 (claimed_range msg).2 smoff (smoff + datap).

Lemma handle_Data_spec dq_full st m dst plen smoff size info datap :
  pwr_ok cfg (rx_pwr st) -> rc_wf (rx_h st) -> uncommitted m st -> rx_adjust st = 0 ->
  data_ok plen smoff size info datap -> plen < 65536 -> 0 < si_seq info < 2 ^ 63 - 1 -> size_agrees info st ->
  frag_from (si_seq info) (data_rdata m smoff size info datap) ->
  exists st', handle_Data cfg dq_full st m dst smoff size info datap = Some st' /\ handled cfg (of_sample info) st st'.
Proof.
  intros Hp Hw Hu Ha [[Ho Hoff] Hend _ Hd] Hlim Hseq Hag Hfrom. unfold handle_Data.
  destruct (_ >? max_sample_size cfg).
  { destruct (drop_oversize_spec cfg st m dst info Hp Hw Hu Ha Hseq) as (st' & E & Hh). exists st'. split; [done|]. by eapply handled_weaken. }
  set (q := match datap with Some d => smoff + d | None => smoff + size end).
  assert (Hq : NN_OFF_TO_ZOFF q = Some q).
  { unfold q. destruct datap as [d|]; apply off_to_zoff; try lia; try tauto. rewrite Z.add_mod by lia. destruct Hd as (_ & -> & _). by rewrite Hoff. }
  unfold rdata_new. rewrite (off_to_zoff smoff) by (done || destruct datap; lia). rewrite Hq. cbn [mbind option_bind].
  apply handle_regular_spec; auto. split; simpl; auto; destruct datap; lia.
Qed.

Lemma handle_DataFrag_spec dq_full st m dst plen smoff size msg info datap :
  pwr_ok cfg (rx_pwr st) -> rc_wf (rx_h st) -> uncommitted m st -> rx_adjust st = 0 ->
  frag_ok plen smoff size msg info datap -> plen < 65536 -> fits32 msg -> 0 < si_seq info < 2 ^ 63 - 1 -> size_agrees info st ->
  frag_from (si_seq info) (frag_rdata m smoff msg datap) ->
  exists st', handle_DataFrag cfg dq_full st m dst smoff size msg info datap = Some st' /\ handled cfg (of_sample info) st st'.
Proof.
  intros Hp Hw Hu Ha [[Ho Hoff] Hend _ [Hsz _] [Hdp Hal] Hok] Hlim Hfit Hseq Hag Hfrom. unfold handle_DataFrag.
  destruct (_ >? max_sample_size cfg).
  { destruct (drop_oversize_spec cfg st m dst info Hp Hw Hu Ha Hseq) as (st' & E & Hh). exists st'. split; [done|]. by eapply handled_weaken. }
  destruct (fragment_range_spec msg size datap Hok Hfit) as (Er & R1 & R2 & R3). rewrite Er. unfold frag_rdata in Hfrom. destruct (claimed_range msg) as [lo hi].
  unfold rdata_new. rewrite (off_to_zoff smoff), (off_to_zoff (smoff + datap)) by (done || lia).
  cbn [mbind option_bind]. apply handle_regular_spec; auto. split; simpl in *; auto; rewrite ?Hsz; lia.
Qed.

(** ** Heartbeats *)

Lemma carries_heartbeat st lastseq :
  pwr_ok cfg (rx_pwr st) -> rc_wf (rx_h st) -> carries 0 [] st (with_pwr st (track_heartbeat (pwr_set_seen (rx_pwr st)) lastseq)).
Proof.
  intros Hp Hw. unfold track_heartbeat. rewrite Z.gtb_ltb. destruct (Z.ltb_spec (pwr_last_seq (pwr_set_seen (rx_pwr st))) lastseq) as [Hl|].
  - apply carries_fields; simpl in *; auto. lia.
  - repeat case_match; apply carries_fields; simpl; auto; lia.
Qed.

Lemma heartbeat_body gap firstseq lastseq : body_ok cfg [gap] (heartbeat_reader gap firstseq lastseq).
Proof.
  intros st wn l1 l2 Hr El. unfold heartbeat_reader. set (upd (w : pwr_rd_match T) := if wn_end_of_tl_seq w =? MAX_SEQ_NUMBER then wn_set_end_of_tl w lastseq else w).
  assert (Hupd : forall w, wn_rd_guid (upd w) = wn_rd_guid w /\ wn_reorder (upd w) = wn_reorder w /\ wn_in_sync (upd w) = wn_in_sync w /\
             wn_acknack_xevent (upd w) = wn_acknack_xevent w) by (intros w; unfold upd; by destruct (_ =? _)).
  destruct (wn_in_sync wn) eqn:Es; [by apply skip_step|..].
  - cbn [mbind option_bind]. destruct (Hupd wn) as (U1 & U2 & U3 & U4).
    apply (sync_step cfg [gap] st l1 wn l2 (upd wn)); auto; unfold out_of_sync, is_reliable; rewrite ?U3, ?U4, ?Es; done.
  - destruct (reader_reo_ok cfg st l1 wn l2 (rd_pwr _ _ _ _ Hr) El) as (R1 & R2 & R3 & R4).
    destruct (reader_gap_step cfg gap st l1 wn l2 1 firstseq (fun w => nn_reorder_next_seq (wn_reorder w) - 1) upd)
      as (stg & wng & sc & res & Eg & st2 & wn2 & Em & Hc & Er & Hg); auto.
    { destruct (Z.lt_ge_cases 1 firstseq); [by left|right; lia]. }
    rewrite Eg. cbn [mbind option_bind]. exists st2, wn2. auto.
Qed.

Lemma helper_body msg timestamp tnow tnow_mt :
  0 <= tnow_mt -> 0 <= nack_delay cfg -> body_ok cfg [] (handle_Heartbeat_helper cfg msg timestamp tnow tnow_mt).
Proof.
  intros Ht Hd st wn l1 l2 Hr El. unfold handle_Heartbeat_helper.
  destruct (accept_ack_or_hb_w_timeout _ _ _ _ _) as [[acc nh] ta]. set (wn1 := wn_set_heartbeat wn nh ta).
  assert (Hidle : forall wn', wn_rd_guid wn' = wn_rd_guid wn -> wn_reorder wn' = wn_reorder wn -> is_reliable wn' = is_reliable wn ->
    wn_in_sync wn' = wn_in_sync wn -> exists st1 wn2, Some (st, wn') = Some (st1, wn2) /\ carries 1 [] st (store_reader cfg st1 wn2) /\
    readers (rx_pwr (store_reader cfg st1 wn2)) = l1 ++ wn2 :: l2 /\ wn_rd_guid wn2 = wn_rd_guid wn).
  { intros wn' G R L S. exists st, wn'. destruct (idle_step cfg [] st l1 wn l2 wn') as [Hc Er]; auto. }
  destruct (negb acc); [by apply Hidle|]. destruct (wn_acknack_xevent wn1) as [ev|] eqn:Eev; [|by apply Hidle].
  unfold resched_xevent_if_earlier. rewrite Z.gtb_ltb. set (t := nack_time _ _ _ _ _ _).
  assert (Hts : TSCHED_DELETE < t).
  { unfold t, nack_time, TSCHED_DELETE, T_NEVER. repeat case_match; lia. }
  destruct (Z.ltb_spec TSCHED_DELETE t); [|lia]. destruct (t >=? ev); cbn [mbind option_bind]; apply Hidle; auto;
    unfold is_reliable; change (wn_acknack_xevent wn) with (wn_acknack_xevent wn1); rewrite Eev; done.
Qed.

(** Only some of the readers. *)
Lemma filter_body chain (P : pwr_rd_match T -> bool) f :
  body_ok cfg chain f -> body_ok (H := H) cfg chain (fun st wn => if P wn then f st wn else Some (st, wn)).
Proof. intros Hf st wn l1 l2 Hr El. destruct (P wn); [by apply Hf|by apply skip_step]. Qed.

Lemma forall_destinations_spec chain dst f st :
  body_ok cfg chain f -> ready (nreaders st + 1) chain st ->
  exists st', handle_forall_destinations cfg dst f st = Some st' /\ carries (nreaders st + 1) chain st st'.
Proof.
  intros Hf Hr. pose proof (rd_pwr _ _ _ _ Hr) as Hp. unfold handle_forall_destinations.
  assert (Hr0 : ready (nreaders st) chain st) by (eapply ready_weaken; [exact Hr|lia]).
  destruct (negb _), (negb _).
  - pose proof (lookup_reader_spec cfg st dst Hp) as Hl. destruct (lookup_reader cfg st dst) as [wn|].
    2:{ exists st. split; [done|]. eapply carries_weaken; [apply carries_refl; apply Hr|lia]. }
    destruct Hl as (l1 & l2 & El). destruct (Hf st wn l1 l2) as (st1 & wn1 & E & Hc & _); [eapply ready_weaken; [exact Hr|lia]|done|].
    rewrite E. cbn [mbind option_bind]. eexists. split; [done|]. eapply carries_weaken; [exact Hc|lia].
  - rewrite (ot_lookup_succeq_spec (wn_key cfg) _ _ (po_wf _ _ Hp)). fold (readers (rx_pwr st)).
    destruct (l_succeq_suffix (wn_key cfg) (readers (rx_pwr st)) (guid_key (platform_is_little_endian cfg) (NnGuid (guid_prefix dst) 0)))
      as (front & rest & El & Es). rewrite Es. assert (Hlen : (length rest <= length (readers (rx_pwr st)))%nat) by (rewrite El, length_app; lia).
    destruct (walk_range_spec cfg chain f (guid_key (platform_is_little_endian cfg) (NnGuid (guid_prefix dst) (2 ^ 32 - 1))) rest Hf
      (length (readers (rx_pwr st))) st front El Hlen) as (st' & E & Hc); [eapply ready_weaken; [exact Hr|lia]|].
    exists st'. split; [exact E|]. eapply carries_weaken; [exact Hc|lia].
  - destruct (for_readers_spec cfg chain (fun st wn => if guid_entityid (wn_rd_guid wn) =? guid_entityid dst then f st wn else Some (st, wn)) st)
      as (st' & E & Hc); [by apply filter_body|done|]. exists st'. split; [done|]. eapply carries_weaken; [exact Hc|lia].
  - destruct (for_readers_spec cfg chain f st Hf Hr0) as (st' & E & Hc). exists st'. split; [done|]. eapply carries_weaken; [exact Hc|lia].
Qed.

Lemma track_heartbeat_last p lastseq : lastseq <= pwr_last_seq (track_heartbeat (pwr_set_seen p) lastseq).
Proof.
  unfold track_heartbeat. rewrite Z.gtb_ltb. destruct (Z.ltb_spec (pwr_last_seq (pwr_set_seen p)) lastseq) as [|Hge]; [done|].
  simpl in Hge. repeat case_match; simpl; lia.
Qed.

Lemma handle_Heartbeat_spec st m dst msg timestamp tnow tnow_mt :
  pwr_ok cfg (rx_pwr st) -> rc_wf (rx_h st) -> uncommitted m st -> rx_adjust st = 0 ->
  0 <= tnow_mt -> 0 <= nack_delay cfg ->
  exists st', handle_Heartbeat cfg st m dst msg timestamp tnow tnow_mt = Some st' /\ handled cfg (fun _ => False) st st' /\
    fromSN (hb_lastSN msg) <= pwr_last_seq (rx_pwr st') /\
    (rr_mode (pwr_reorder (rx_pwr st)) = NN_REORDER_MODE_NORMAL -> fromSN (hb_firstSN msg) <= rr_next_seq (pwr_reorder (rx_pwr st'))) /\
    Forall (fun s => ~ 1 <= df_seq s < fromSN (hb_firstSN msg)) (samples (pwr_defrag (rx_pwr st'))).
Proof.
  intros Hp Hw Hu Ha Ht Hnd. unfold handle_Heartbeat. set (first := fromSN (hb_firstSN msg)). set (last := fromSN (hb_lastSN msg)).
  pose proof (carries_renew cfg [] st Hp Hw) as Hc1.
  assert (E1 : rx_h (renew_lease st) = rx_h st /\ rx_adjust (renew_lease st) = 0).
  { unfold renew_lease. by destruct (pwr_assert_pp_lease (rx_pwr st)). }
  destruct E1 as [Eh Ea]. set (st1 := renew_lease st) in *.
  pose proof (carries_heartbeat st1 last (cy_pwr _ _ _ _ _ Hc1) (cy_wf _ _ _ _ _ Hc1)) as Hc2. set (st2 := with_pwr st1 _) in *.
  pose proof (carries_trans _ _ _ _ _ _ _ Hc1 Hc2) as Hc12. change (0 + 0) with 0 in Hc12.
  assert (Hu2 : uncommitted m st2) by (eapply uncommitted_carries; [exact Hu|exact Hc12|]; intros; simpl; rewrite Eh; lia).
  assert (Hr2 : ready 0 [] st2) by (apply (ready_nil cfg _ m); auto; [apply Hc2|apply Hc2|done]).
  destruct (carries_notegap cfg 0 [] st2 1 first Hr2) as (d & h & E & Hc3 & Hle & Hfree); [lia|].
  rewrite E. cbn [mbind option_bind]. set (st3 := with_h _ h) in *.
  pose proof (carries_trans _ _ _ _ _ _ _ Hc12 Hc3) as Hc13. change (0 + 0) with 0 in Hc13.
  destruct (newgap_spec cfg st3 m) as (gap & h4 & E4 & _ & Hld & Hr4); [apply Hc3|apply Hc3| |done|].
  { eapply uncommitted_carries; [exact Hu2|exact Hc3|done]. }
  rewrite E4. cbn [mbind option_bind]. set (st4 := with_h st3 h4) in *. pose proof (rd_pwr _ _ _ _ Hr4) as Hp4.
  pose proof (po_reorder _ _ Hp4) as (_ & _ & Hn4 & _). pose proof (po_few _ _ Hp4) as Hfew.
  destruct (primary_gap_part cfg gap st4 1 first) as (sta & sc & res & E5 & st5 & E6 & Hc5 & Er5 & Hk).
  { eapply ready_weaken; [exact Hr4|done]. }
  { destruct (Z.lt_ge_cases 1 first); [by left|right; lia]. }
  rewrite E5. cbn [mbind option_bind]. rewrite E6. cbn [mbind option_bind].
  set (n := nreaders st4) in *. assert (En : nreaders st5 = n) by (unfold n; by rewrite Er5).
  assert (Hr5 : ready (BIAS - 2) [gap] st5) by (eapply (ready_after cfg 1); [eapply ready_weaken; [exact Hr4|lia]|exact Hc5]).
  destruct (for_readers_spec cfg [gap] (heartbeat_reader gap first last) st5) as (st6 & E7 & Hc6); [apply heartbeat_body| |].
  { eapply ready_weaken; [exact Hr5|rewrite En; change BIAS with (2 ^ 20); lia]. }
  rewrite E7. cbn [mbind option_bind]. rewrite En in Hc6. pose proof (carries_trans _ _ _ _ _ _ _ Hc5 Hc6) as Hc56.
  assert (Hrf : ready (1 + n) [gap] st4) by (eapply ready_weaken; [exact Hr4|change BIAS with (2 ^ 20); lia]).
  destruct (finish cfg _ _ _ _ _ _ Hld Hrf Hc56) as (h7 & E8 & Hd7).
  rewrite E8. cbn [mbind option_bind]. set (st7 := with_h st6 h7) in *.
  pose proof (handled_trans cfg _ _ _ _ (carries_handled cfg _ (fun _ => False) _ _ Hc13) Hd7) as Hd17.
  pose proof (carries_length cfg _ _ _ _ Hc56) as Hlen.
  assert (Hr7 : ready (nreaders st7 + 1) [] st7).
  { split; [apply Hd7|apply Hd7| |].
    - intros mm. pose proof (hd_refs _ _ _ _ Hd17 mm) as Hbal. pose proof (uncommitted_nonneg m st mm Hu) as Hnn.
      unfold balance in Hnn |- *. cbn [refs_to] in Hnn |- *. lia.
    - pose proof (cy_adj _ _ _ _ _ Hc56) as Had. change (rx_adjust st4) with (rx_adjust st1) in Had. rewrite Ea in Had.
      change (rx_pwr st7) with (rx_pwr st6). change (rx_adjust st7) with (rx_adjust st6). rewrite Hlen. fold n. change BIAS with (2 ^ 20). lia. }
  destruct (forall_destinations_spec [] dst (handle_Heartbeat_helper cfg msg timestamp tnow tnow_mt) st7) as (st8 & E9 & Hc8);
    [by apply helper_body|done|].
  exists st8. split; [done|]. split; [eapply handled_trans; [exact Hd17|]; by eapply carries_handled|].
  split; [|split].
  - pose proof (track_heartbeat_last (rx_pwr st1) last) as Hl. pose proof (cy_last _ _ _ _ _ Hc3) as L1.
    pose proof (cy_last _ _ _ _ _ Hc56) as L2. pose proof (cy_last _ _ _ _ _ Hc8) as L3. simpl in *. lia.
  - intros Hm. destruct (cy_conf _ _ _ _ _ Hc13) as [[Cm _] _].
    pose proof (ge_next _ _ _ _ Hk) as Hnx. change (pwr_reorder (rx_pwr st4)) with (pwr_reorder (rx_pwr st3)) in Hnx.
    specialize (Hnx ltac:(congruence) ltac:(done)).
    destruct (cy_out _ _ _ _ _ Hc6) as (o6 & _ & _ & F6 & _). destruct (cy_out _ _ _ _ _ Hc8) as (o8 & _ & _ & F8 & _).
    apply fits_le in F6, F8. change (rx_pwr st7) with (rx_pwr st6) in F8. lia.
  - apply Forall_forall. intros s Hs. apply (cy_samples _ _ _ _ _ Hc8) in Hs. apply (cy_samples _ _ _ _ _ Hc56) in Hs.
    rewrite Forall_forall in Hfree. by apply Hfree.
Qed.

(** ** Heartbeats of fragments *)

Lemma find_reader_spec p P : match find_reader p P with Some wn => wn ∈ readers p /\ P wn = true | None => True end.
Proof.
  unfold find_reader. destruct (List.find P _) as [wn|] eqn:E; [|done]. apply List.find_some in E as [Hin HP].
  split; [by apply list_elem_of_In|done].
Qed.

(** The reader for which fragments are requested is a reliable one. *)
Lemma nackfrag_reader_spec p seq :
  match nackfrag_reader p seq with Some wn => wn ∈ readers p /\ is_reliable wn = true | None => True end.
Proof.
  unfold nackfrag_reader. destruct (nn_reorder_wantsample _ seq).
  - pose proof (ot_root_spec (pwr_readers p)) as Hr. destruct (ot_root (pwr_readers p)) as [m|]; [|done].
    destruct (wn_acknack_xevent m) eqn:Em; [split; [done|]; unfold is_reliable; by rewrite Em|].
    apply find_reader_spec.
  - destruct (seq <? _); [|done]. pose proof (find_reader_spec p (fun m => bool_decide (wn_in_sync m = PRMSS_OUT_OF_SYNC) &&
      bool_decide (is_Some (wn_acknack_xevent m)) && nn_reorder_wantsample (wn_reorder m) seq)) as Hf.
    destruct (find_reader _ _) as [m|]; [|done]. destruct Hf as [Hin HP]. split; [done|].
    apply andb_prop in HP as [HP _]. by apply andb_prop in HP as [_ HP].
Qed.

(** The map of missing fragments fits in the buffer: the sample is known, or
    has fewer than 256 fragments. *)
Definition nackmap_fits st (msg : HeartbeatFrag) : Prop :=
  match ot_lookup df_seq (dg_sampletree (pwr_defrag (rx_pwr st))) (fromSN (hf_writerSN msg)) with
  | Some s => 0 < si_fragsize (df_sampleinfo s) /\ si_size (df_sampleinfo s) + si_fragsize (df_sampleinfo s) < 2 ^ 32
  | None => hf_lastFragmentNum msg < 256
  end.

Lemma nackmap_runs st msg bits :
  pwr_ok cfg (rx_pwr st) -> heartbeatfrag_ok msg -> nackmap_fits st msg -> bits_ok 256 bits ->
  exists n set, nn_defrag_nackmap (pwr_defrag (rx_pwr st)) (fromSN (hf_writerSN msg)) (wrap_u 32 (hf_lastFragmentNum msg - 1)) bits 256 = Some (n, set).
Proof.
  intros Hp [_ _ Hl _] Hfit Hb. unfold nackmap_fits in Hfit. assert (Hw : wrap_u 32 (hf_lastFragmentNum msg - 1) = hf_lastFragmentNum msg - 1) by nowrap.
  rewrite Hw. destruct (ot_lookup df_seq _ _) as [s|] eqn:Es.
  - destruct (nackmap_spec _ s _ (hf_lastFragmentNum msg - 1) bits 256 (po_defrag _ _ Hp) Es) as (n & base & bits' & E & _); try tauto; [lia..|].
    rewrite E. eauto.
  - unfold nn_defrag_nackmap. rewrite Es. change (256 >? 256) with false. cbv iota.
    destruct (Z.eqb_spec (hf_lastFragmentNum msg - 1) (2 ^ 32 - 1)); [lia|].
    rewrite Z.gtb_ltb. destruct (Z.ltb_spec 256 (hf_lastFragmentNum msg - 1 + 1)); [lia|].
    destruct Hb as (Hb1 & Hb2 & Hb3).
    destruct (one_spec (hf_lastFragmentNum msg - 1 + 1) bits) as (bits' & E & _); [split; [lia|split; [done|lia]]|lia|].
    rewrite E. cbn [mbind option_bind]. eauto.
Qed.

Lemma handle_HeartbeatFrag_spec st msg now bits :
  pwr_ok cfg (rx_pwr st) -> rc_wf (rx_h st) -> (forall m, 0 <= balance [] st m) -> rx_adjust st = 0 ->
  heartbeatfrag_ok msg -> nackmap_fits st msg -> bits_ok 256 bits -> 0 <= now < 2 ^ 63 -> 0 <= nack_delay cfg < 2 ^ 63 ->
  exists st', handle_HeartbeatFrag cfg st msg now bits = Some st' /\ handled cfg (fun _ => False) st st'.
Proof.
  intros Hp Hw Hbal Ha Hmsg Hfit Hb Hnow Hnd. unfold handle_HeartbeatFrag. pose proof (carries_renew cfg [] st Hp Hw) as Hc1.
  assert (E1 : rx_pwr (renew_lease st) = rx_pwr st /\ rx_adjust (renew_lease st) = 0).
  { unfold renew_lease. by destruct (pwr_assert_pp_lease (rx_pwr st)). }
  destruct E1 as [Ep Ea]. set (st1 := renew_lease st) in *. set (seq := fromSN _). set (fragnum := wrap_u 32 _).
  pose proof (carries_track cfg [] st1 seq fragnum (cy_pwr _ _ _ _ _ Hc1) (cy_wf _ _ _ _ _ Hc1)) as Hc2. set (st2 := with_pwr st1 _) in *.
  pose proof (carries_trans _ _ _ _ _ _ _ Hc1 Hc2) as Hc12. change (0 + 0) with 0 in Hc12.
  assert (Hdone : handled cfg (fun _ => False) st st2) by (by eapply carries_handled).
  destruct (ot_is_empty _); [eauto|]. pose proof (nackfrag_reader_spec (rx_pwr st2) seq) as Hrd.
  destruct (nackfrag_reader (rx_pwr st2) seq) as [m|]; [|eauto]. destruct Hrd as [Hin Hrel].
  assert (Ed : pwr_defrag (rx_pwr st2) = pwr_defrag (rx_pwr st)).
  { unfold st2, track_seq. simpl. rewrite Ep. by repeat case_match. }
  destruct (nackmap_runs st2 msg bits) as (n & set & E); [apply Hc2|done|unfold nackmap_fits; by rewrite Ed|done|].
  fold seq fragnum in E. rewrite E. cbn [mbind option_bind]. destruct (n >? 0); [|eauto].
  unfold is_reliable in Hrel. apply bool_decide_eq_true in Hrel as [ev Hev]. rewrite Hev. cbn [mbind option_bind].
  destruct (add_duration_ok now (nack_delay cfg)) as (t & Et & Ht); [lia..|]. unfold add_duration_to_mtime. rewrite Et. cbn [mbind option_bind].
  unfold resched_xevent_if_earlier, TSCHED_DELETE. rewrite Z.gtb_ltb. destruct (Z.ltb_spec (- 2 ^ 63) t); [|lia]. cbn [mbind option_bind].
  apply list_elem_of_split in Hin as (l1 & l2 & El). assert (Hr : ready 1 [] st2).
  { split; [apply Hc2|apply Hc2| |change (rx_adjust st2) with (rx_adjust st1); rewrite Ea; by split].
    intros mm. rewrite (cy_bal _ _ _ _ _ Hc12). cbn [refs_to]. specialize (Hbal mm). lia. }
  assert (Hst : forall ev', handled cfg (fun _ => False) st (store_reader cfg st2 (wn_set_event m (Some ev') (wn_hb_timestamp m)))).
  { intros ev'. eapply handled_trans; [exact Hdone|]. eapply carries_handled.
    apply (idle_step cfg [] st2 l1 m l2); auto. unfold is_reliable. by rewrite Hev. }
  destruct (t >=? ev); eauto.
Qed.

(** ** Participant discovery *)

(** Every announcement goes to the queue, whatever its sequence number, unless
    the queue is full; the administrations hold nothing. *)
Lemma handle_SPDP_spec (d : nn_defrag T) r h info rd (full : bool) :
  defrag_ok d -> reorder_ok r -> rr_mode r = NN_REORDER_MODE_ALWAYS_DELIVER -> rc_wf h ->
  RMSG_REFCOUNT_UNCOMMITTED_BIAS <= rc h (rd_rmsg rd) -> rc h (rd_rmsg rd) + BIAS < 2 ^ 32 ->
  rd_min rd = 0 -> rd_maxp1 rd = si_size info -> 0 <= si_size info -> 0 < si_seq info < 2 ^ 63 - 1 ->
  exists h', handle_SPDP cfg d r h info rd full =
      Some (d, if full then r else set_next_seq r (si_seq info + 1), h', if full then [] else [OutEnqueue [ChainElem [rd] (Some info)] 1]) /\
    rc_wf h' /\ forall m, rc h' m = rc h m + if full then 0 else refs_to m [rd].
Proof.
  intros Hd Hr Hmode Hw Hu Hroom H0 H1 H2 Hq. unfold handle_SPDP, nn_defrag_rsample. pose proof (do_limit _ Hd).
  rewrite Z.gtb_ltb. destruct (Z.ltb_spec (dg_max_samples d) (dg_n_samples d)); [lia|].
  assert (Hf : nn_rdata_is_fragment rd info = Some false).
  { unfold nn_rdata_is_fragment. rewrite H0, H1. zcases; done. }
  rewrite Hf. cbn [mbind option_bind negb]. unfold reorder_rsample_new, nn_rdata_addbias.
  destruct (addbias_spec h (rd_rmsg rd) Hw Hu Hroom) as (h1 & E & Hw1 & Hup). rewrite E. cbn [mbind option_bind].
  rewrite (wrap_seq (si_seq info + 1)) by lia. set (s := RsampleReorder _ _ _ _). assert (Hs : sample_in (si_seq info) s) by (by exists [rd], info).
  destruct (sample_in_good _ _ Hs) as (_ & _ & _ & Hsing & _).
  assert (Hfc : nn_rsample_fragchain s = Some [rd]) by (unfold nn_rsample_fragchain; by rewrite Hsing).
  rewrite Hfc. cbn [mbind option_bind]. rewrite (rsample_modes_spec r h1 s (si_seq info)) by (done || by rewrite Hmode).
  rewrite bool_decide_eq_false_2 by (by rewrite Hmode). cbn [andb mbind option_bind].
  assert (Hadj : forall adj, 0 <= adj <= 1 -> exists h', nn_fragchain_adjust_refcount h1 [rd] adj = Some h' /\ rc_wf h' /\
    forall m, rc h' m = rc h m + adj * refs_to m [rd]).
  { intros adj Ha. destruct (fragchain_adjust_spec h1 [rd] adj Hw1) as (h' & E' & Hw' & Hr'); [change BIAS with (2 ^ 20); lia| |].
    - intros m. rewrite Hup. change RMSG_REFCOUNT_RDATA_BIAS with (2 ^ 20) in *. change RMSG_REFCOUNT_UNCOMMITTED_BIAS with (2 ^ 31) in *.
      simpl. pose proof (rc_range h m Hw). case_decide; subst; lia.
    - exists h'. split; [done|]. split; [done|]. intros m. rewrite Hr', Hup. simpl. case_decide; lia. }
  destruct full; cbn [mbind option_bind].
  - destruct (Hadj 0) as (h' & E' & Hw' & Hr'); [lia|]. rewrite E'. cbn [mbind option_bind]. exists h'. split; [done|]. split; [done|].
    intros m. rewrite Hr'. lia.
  - destruct (Hadj 1) as (h' & E' & Hw' & Hr'); [lia|]. rewrite E'. cbn [mbind option_bind]. exists h'. split; [done|]. split; [done|].
    intros m. rewrite Hr'. lia.
Qed.
End Handlers.
