(* ===== verification/ReceiveConn.v ===== *)
(** * Making, matching and deleting a proxy writer

    A new proxy writer satisfies the invariant, matching and unmatching a
    reader keeps it, and deleting it gives back every reference it owes. *)

From Stdlib Require Import ZArith Lia Sorting.Sorted.
From stdpp Require Import prelude.
From S2P Require Import Prelude OrdTree Bitset Refs Defrag DefragFacts DefragOps DefragProps DefragClaims Reorder ReorderFacts ReorderOps ReorderProps ReorderGap ReorderRun ReorderClaims Rmsg Dqueue Time Wire Protocol ProtocolProps Receive ReceiveFacts ReceiveOps ReceiveProps ReceiveGap ReceiveHandlers.

Section Conn.
Context {T : Type -> Type} `{!OrdTree T, !OrdTreeLaws T}.
Context {H : Type} `{!RmsgRefs H, !RmsgRefsLaws H}.
Context `{FF : !FragFrom} (cfg : ddsi_config).

Abbreviation BIAS := RMSG_REFCOUNT_RDATA_BIAS.
Abbreviation wkey := (@wn_key T cfg).
Implicit Types (wn : pwr_rd_match T) (p : proxy_writer T) (h : H) (st : rx T H).

(** The limits in the configuration. *)
Record config_ok : Prop := {
  cf_defrag_reliable : 1 <= defrag_reliable_maxsamples cfg < 2 ^ 32;
  cf_defrag_unreliable : 1 <= defrag_unreliable_maxsamples cfg < 2 ^ 32;
  cf_primary : 0 <= primary_reorder_maxsamples cfg < 2 ^ 32 - 1;
  cf_secondary : 0 <= secondary_reorder_maxsamples cfg < 2 ^ 32 - 1;
  cf_ack_delay : 0 <= preemptive_ack_delay cfg < 2 ^ 63;
  cf_nack_delay : 0 <= nack_delay cfg < 2 ^ 63;
}.

Lemma new_reo_ok (reliable : bool) n : 0 <= n < 2 ^ 32 - 1 ->
  reo_ok (nn_reorder_new (if reliable then NN_REORDER_MODE_NORMAL else NN_REORDER_MODE_MONOTONICALLY_INCREASING) n : nn_reorder T).
Proof.
  intros Hn. assert (He : forall mode, rivs (nn_reorder_new mode n : nn_reorder T) = []) by (intros; apply ot_init_elements).
  split; [by apply reorder_new_ok|]. split; [by destruct reliable|]. split; [done|]. by rewrite He.
Qed.

Lemma new_proxy_writer_spec isreliable sync lease builtins :
  config_ok -> exists p, new_proxy_writer cfg isreliable sync lease builtins = Some p /\ pwr_ok cfg p /\ readers p = [] /\ forall m, owed p m = 0.
Proof.
  intros Hcf. unfold new_proxy_writer.
  assert (Hd : exists d : nn_defrag T, (if isreliable then nn_defrag_new NN_DEFRAG_DROP_LATEST (defrag_reliable_maxsamples cfg)
       else nn_defrag_new NN_DEFRAG_DROP_OLDEST (defrag_unreliable_maxsamples cfg)) = Some d /\ defrag_ok d /\ samples d = []).
  { assert (Hnew : forall mode n, 1 <= n < 2 ^ 32 -> exists d : nn_defrag T, nn_defrag_new mode n = Some d /\ defrag_ok d /\ samples d = []).
    { intros mode n Hn. destruct (nn_defrag_new mode n) as [d|] eqn:E.
      - exists d. split; [done|]. by destruct (defrag_new_ok mode n d E) as (? & ? & _); [lia|].
      - unfold nn_defrag_new in E. rewrite Z.geb_leb, (proj2 (Z.leb_le 1 n)) in E by lia. done. }
    destruct isreliable; apply Hnew, Hcf. }
  destruct Hd as (d & -> & Hd & He). cbn [mbind option_bind]. eexists. split; [done|].
  assert (Hr : readers (ProxyWriter (T := T) ot_init 0 0 0 (2 ^ 32 - 1) false sync false lease d
    (nn_reorder_new (if isreliable then NN_REORDER_MODE_NORMAL else NN_REORDER_MODE_MONOTONICALLY_INCREASING) (primary_reorder_maxsamples cfg)) builtins) = [])
    by apply ot_init_elements.
  split; [|split; [done|]].
  - split; rewrite ?Hr; simpl; auto; [apply ot_init_wf|apply new_reo_ok; apply Hcf|done|rewrite He; constructor].
  - intros m. unfold owed. rewrite Hr. simpl. rewrite He. simpl.
    assert (Hi : forall mode n, rivs (nn_reorder_new mode n : nn_reorder T) = []) by (intros; apply ot_init_elements). by rewrite Hi.
Qed.

(** ** Matching *)

(** Adding one reader to the list. *)
Lemma insert_reader p wn n_reliable n_out :
  pwr_ok cfg p -> Forall (fun w => wkey w <> wkey wn) (readers p) -> reo_ok (wn_reorder wn) -> rivs (wn_reorder wn) = [] ->
  Z.of_nat (length (readers p)) < 2 ^ 16 - 1 ->
  n_reliable = pwr_n_reliable_readers p + (if is_reliable wn then 1 else 0) ->
  n_out = pwr_n_readers_out_of_sync p + (if out_of_sync wn then 1 else 0) ->
  let p' := pwr_set_readers (pwr_set_counts p n_reliable n_out) (ot_insert wkey (pwr_readers p) wn) in
  pwr_ok cfg p' /\ (forall m, owed p' m = owed p m) /\ exists l1 l2, readers p = l1 ++ l2 /\ readers p' = l1 ++ wn :: l2.
Proof.
  intros Hp Hnew Hreo Hempty Hlen -> -> p'. pose proof Hp as [P1 P2 P3 P4 P5 P6 P7 P8].
  destruct (ot_insert_spec wkey (pwr_readers p) wn P1 Hnew) as [Hwf Hel].
  pose proof (ot_wf_sorted _ _ P1) as Hs. fold (readers p) in Hs, Hel.
  destruct (sorted_split wkey (wkey wn) (readers p) Hs Hnew) as (l1 & l2 & El & Hlt & Hgt).
  assert (Er : readers p' = l1 ++ wn :: l2) by (unfold p', readers; simpl; rewrite Hel, El; by apply l_insert_mid).
  pose proof (count_bound out_of_sync (readers p)). pose proof (count_bound is_reliable (readers p)).
  pose proof Hlen as Hlen'. rewrite El in P4, Hlen'. apply Forall_app in P4 as [P4a P4b]. rewrite length_app in Hlen'.
  split; [|split; [|eauto]].
  - split; rewrite ?Er; simpl; auto.
    + apply Forall_app. split; [done|]. by constructor.
    + rewrite P5, wrap_s_small; [|done|unfold in_s; destruct (out_of_sync wn); lia]. rewrite El, !count_app. simpl. lia.
    + rewrite P6, wrap_s_small; [|done|unfold in_s; destruct (is_reliable wn); lia]. rewrite El, !count_app. simpl. lia.
    + rewrite length_app. simpl. lia.
  - intros m. unfold owed. rewrite Er, El, !readers_refs_app. simpl. rewrite Hempty. simpl. lia.
Qed.

(** A new connection: in sync for volatile data, catching up from the start
    when nothing was delivered yet, and out of sync otherwise. *)
Lemma add_connection_spec p rd tnow now init_count garbage :
  config_ok -> pwr_ok cfg p -> Z.of_nat (length (readers p)) < 2 ^ 16 - 1 -> 0 <= tnow < 2 ^ 63 ->
  exists p', proxy_writer_add_connection cfg p rd tnow now init_count garbage = Some p' /\ pwr_ok cfg p' /\
    (forall m, owed p' m = owed p m) /\
    (readers p' = readers p /\ is_Some (ot_lookup wkey (pwr_readers p) (guid_key (platform_is_little_endian cfg) (rd_guid rd))) \/
     exists l1 wn l2, readers p = l1 ++ l2 /\ readers p' = l1 ++ wn :: l2 /\ wn_rd_guid wn = rd_guid rd /\
       is_reliable wn = rd_reliable rd /\ (rd_handle_as_transient_local rd = false -> wn_in_sync wn = PRMSS_SYNC)).
Proof.
  intros Hcf Hp Hlen Ht. unfold proxy_writer_add_connection.
  destruct (ot_lookup wkey _ _) as [wn0|] eqn:El; [exists p; split; [done|]; split; [done|]; split; [done|]; left; eauto|].
  rewrite (ot_lookup_spec wkey _ _ (po_wf _ _ Hp)) in El.
  destruct (if negb (rd_handle_as_transient_local rd) then _ else _) as [[sync tl] oos] eqn:Es.
  destruct (add_duration_ok tnow (preemptive_ack_delay cfg) Ht (cf_ack_delay Hcf)) as (t & Et & _).
  assert (Hev : exists ev, (if rd_reliable rd then t ← add_duration_to_mtime tnow (preemptive_ack_delay cfg); Some (Some t) else Some None) = Some ev /\
    bool_decide (is_Some ev) = rd_reliable rd).
  { unfold add_duration_to_mtime. rewrite Et. destruct (rd_reliable rd); eexists; (split; [done|]); [by rewrite bool_decide_eq_true_2|by rewrite bool_decide_eq_false_2 by (intros [? ?]; done)]. }
  destruct Hev as (ev & Eev & Hrel). rewrite Eev. cbn [mbind option_bind]. eexists. split; [done|].
  set (m := PwrRdMatch (rd_guid rd) now init_count DDSI_COUNT_MIN 0 0 0 0 ev sync tl oos
    (nn_reorder_new (if rd_reliable rd then NN_REORDER_MODE_NORMAL else NN_REORDER_MODE_MONOTONICALLY_INCREASING) (secondary_reorder_maxsamples cfg))).
  destruct (insert_reader p m (pwr_n_reliable_readers p + if rd_reliable rd then 1 else 0)
    (pwr_n_readers_out_of_sync p + if bool_decide (sync = PRMSS_SYNC) then 0 else 1)) as (Hok & Ho & l1 & l2 & E1 & E2); auto.
  - apply Forall_forall. intros w Hw Hk. rewrite l_lookup_None, Forall_forall in El. by apply (El w Hw).
  - apply new_reo_ok, Hcf.
  - apply ot_init_elements.
  - unfold is_reliable. simpl. by rewrite Hrel.
  - unfold out_of_sync. simpl. by destruct sync.
  - split; [exact Hok|]. split; [exact Ho|]. right. exists l1, m, l2. split; [done|]. split; [exact E2|]. split; [done|].
    split; [exact Hrel|]. intros Hv. rewrite Hv in Es. by injection Es as <- _ _.
Qed.

(** ** Unmatching *)

Lemma drop_connection_spec st rd wn :
  pwr_ok cfg (rx_pwr st) -> rc_wf (rx_h st) -> (forall m, owed (rx_pwr st) m <= rc (rx_h st) m) ->
  lookup_reader cfg st (rd_guid rd) = Some wn -> rd_reliable rd = is_reliable wn ->
  exists st', proxy_writer_drop_connection cfg st rd = Some st' /\ pwr_ok cfg (rx_pwr st') /\ rc_wf (rx_h st') /\
    (forall m, rc (rx_h st') m - owed (rx_pwr st') m = rc (rx_h st) m - owed (rx_pwr st) m) /\
    exists l1 l2, readers (rx_pwr st) = l1 ++ wn :: l2 /\ readers (rx_pwr st') = l1 ++ l2.
Proof.
  intros Hp Hw Hcov El Hrel. pose proof Hp as [P1 P2 P3 P4 P5 P6 P7 P8]. pose proof (lookup_reader_spec cfg st (rd_guid rd) Hp) as Hl.
  unfold proxy_writer_drop_connection. rewrite El in *. destruct Hl as (l1 & l2 & Er).
  destruct (ot_delete_spec wkey _ (wkey wn) P1) as [Hwf Hel]. pose proof (ot_wf_sorted _ _ P1) as Hs. fold (readers (rx_pwr st)) in Hs, Hel.
  rewrite Er in Hs, Hel. rewrite (l_delete_mid _ _ _ _ Hs) in Hel. set (st1 := if bool_decide _ then _ else _).
  set (st2 := if rd_reliable rd then _ else _).
  destruct (reader_reo_ok cfg st l1 wn l2 Hp Er) as (R1 & R2 & R3 & R4).
  assert (Hrefs : forall m, elem_refs m (elems (rivs (wn_reorder wn))) <= rc (rx_h st) m).
  { intros m. specialize (Hcov m). unfold owed in Hcov. rewrite Er, readers_refs_app in Hcov. simpl in Hcov.
    pose proof (readers_refs_nonneg m l1). pose proof (readers_refs_nonneg m l2). pose proof (elem_refs_nonneg m (elems (rivs (pwr_reorder (rx_pwr st))))).
    pose proof (refs_to_nonneg m (held (samples (pwr_defrag (rx_pwr st))))). change BIAS with (2 ^ 20) in *. lia. }
  assert (Hst : rx_h st2 = rx_h st /\ readers (rx_pwr st2) = l1 ++ l2 /\ ot_wf wkey (pwr_readers (rx_pwr st2)) /\
    pwr_defrag (rx_pwr st2) = pwr_defrag (rx_pwr st) /\ pwr_reorder (rx_pwr st2) = pwr_reorder (rx_pwr st) /\
    pwr_n_readers_out_of_sync (rx_pwr st2) = count out_of_sync (l1 ++ l2) /\ pwr_n_reliable_readers (rx_pwr st2) = count is_reliable (l1 ++ l2)).
  { pose proof (count_bound out_of_sync (readers (rx_pwr st))) as B1. pose proof (count_bound is_reliable (readers (rx_pwr st))) as B2.
    rewrite Er in P5, P6, P7, B1, B2. rewrite !count_app in *. rewrite length_app in P7, B1, B2. simpl in P5, P6, P7, B1, B2.
    pose proof (count_bound out_of_sync l1). pose proof (count_bound out_of_sync l2).
    pose proof (count_bound is_reliable l1). pose proof (count_bound is_reliable l2).
    assert (Hst1 : rx_h st1 = rx_h st /\ readers (rx_pwr st1) = l1 ++ l2 /\ ot_wf wkey (pwr_readers (rx_pwr st1)) /\
      pwr_defrag (rx_pwr st1) = pwr_defrag (rx_pwr st) /\ pwr_reorder (rx_pwr st1) = pwr_reorder (rx_pwr st) /\
      pwr_n_readers_out_of_sync (rx_pwr st1) = count out_of_sync l1 + count out_of_sync l2 /\
      pwr_n_reliable_readers (rx_pwr st1) = pwr_n_reliable_readers (rx_pwr st)).
    { unfold st1. assert (Ho : out_of_sync wn = negb (bool_decide (wn_in_sync wn = PRMSS_SYNC))) by done. rewrite Ho in P5, B1.
      destruct (bool_decide (wn_in_sync wn = PRMSS_SYNC)); cbn [negb] in P5, B1; repeat (split; [done|]); simpl; [first [lia|done]|].
      rewrite P5, P6. split; rewrite wrap_s_small; unfold in_s; destruct (is_reliable wn); try done; lia. }
    destruct Hst1 as (A1 & A2 & A3 & A4 & A5 & A6 & A7). unfold st2. rewrite Hrel. destruct (is_reliable wn); simpl; rewrite ?A6, ?A7, P6;
      repeat (split; [done|]); [|lia]. split; rewrite wrap_s_small; unfold in_s; try done; lia. }
  destruct Hst as (S1 & S2 & S3 & S4 & S5 & S6 & S7).
  destruct (reorder_free_spec (wn_reorder wn) (rx_h st2) R1) as (h' & E & Hw' & Hr'); [by rewrite S1|rewrite S1; exact Hrefs|].
  unfold free_pwr_rd_match. rewrite E. cbn [mbind option_bind]. eexists. split; [done|]. simpl. split; [|split; [done|split; [|eauto]]].
  - rewrite Er in P4, P7. apply Forall_app in P4 as [P4a P4b]. apply Forall_cons in P4b as [_ P4b].
    split; rewrite ?S2, ?S4, ?S5; auto; [by apply Forall_app|]. rewrite length_app in *. simpl in P7. lia.
  - intros m. rewrite Hr', S1. unfold owed. rewrite S2, S4, S5, Er, !readers_refs_app. simpl. lia.
Qed.

(** ** Deleting *)

Lemma delete_readers_spec (l : list (pwr_rd_match T)) : forall fuel t h,
  ot_wf wkey t -> ot_elements t = l -> (length l <= fuel)%nat -> Forall (fun wn => reo_ok (wn_reorder wn)) l ->
  rc_wf h -> (forall m, readers_refs m l <= rc h m) ->
  exists h', delete_readers_loop cfg fuel t h = Some h' /\ rc_wf h' /\ forall m, rc h' m = rc h m - readers_refs m l.
Proof.
  induction l as [l IH] using (Wf_nat.induction_ltof1 _ (@length _)). unfold Wf_nat.ltof in IH.
  intros fuel t h Hwf El Hlen Hok Hw Hcov. pose proof (ot_root_spec t) as Hroot.
  destruct fuel as [|fuel]; cbn [delete_readers_loop]; destruct (ot_root t) as [m|].
  - rewrite El in Hroot. destruct l; [by apply elem_of_nil in Hroot|simpl in Hlen; lia].
  - rewrite El in Hroot. subst l. exists h. split; [done|]. split; [done|]. intros mm. simpl. rewrite Hroot. simpl. lia.
  - rewrite El in Hroot. apply list_elem_of_split in Hroot as (l1 & l2 & ->).
    apply Forall_app in Hok as [O1 O2]. apply Forall_cons in O2 as [(R1 & _) O2].
    unfold free_pwr_rd_match.
    destruct (reorder_free_spec (wn_reorder m) h R1 Hw) as (h1 & E1 & Hw1 & Hr1).
    { intros mm. specialize (Hcov mm). rewrite readers_refs_app in Hcov. simpl in Hcov.
      pose proof (readers_refs_nonneg mm l1). pose proof (readers_refs_nonneg mm l2). lia. }
    rewrite E1. cbn [mbind option_bind]. destruct (ot_delete_spec wkey t (wkey m) Hwf) as [Hwf' Hel'].
    pose proof (ot_wf_sorted _ _ Hwf) as Hs. rewrite El in Hs, Hel'. rewrite (l_delete_mid _ _ _ _ Hs) in Hel'.
    rewrite length_app in Hlen. simpl in Hlen.
    destruct (IH (l1 ++ l2)) with (fuel := fuel) (t := ot_delete wkey t (wkey m)) (h := h1) as (h' & E & Hw' & Hr'); auto.
    + rewrite !length_app. simpl. lia.
    + rewrite length_app. lia.
    + by apply Forall_app.
    + intros mm. rewrite Hr1. specialize (Hcov mm). rewrite readers_refs_app in Hcov |- *. simpl in Hcov. lia.
    + exists h'. split; [done|]. split; [done|]. intros mm. rewrite Hr', Hr1, !readers_refs_app. simpl. lia.
  - exists h. split; [done|]. split; [done|]. intros mm. rewrite <- El, Hroot. simpl. lia.
Qed.

Lemma delete_spec p h :
  pwr_ok cfg p -> rc_wf h -> (forall m, owed p m <= rc h m) ->
  exists h', gc_delete_proxy_writer cfg p h = Some h' /\ rc_wf h' /\ forall m, rc h' m = rc h m - owed p m.
Proof.
  intros [P1 P2 [P3 _] P4 P5 P6 P7 P8] Hw Hcov. unfold gc_delete_proxy_writer.
  assert (Hnn : forall m, 0 <= BIAS * refs_to m (held (samples (pwr_defrag p))) /\ 0 <= elem_refs m (elems (rivs (pwr_reorder p))) /\ 0 <= readers_refs m (readers p)).
  { intros m. pose proof (refs_to_nonneg m (held (samples (pwr_defrag p)))). pose proof (elem_refs_nonneg m (elems (rivs (pwr_reorder p)))).
    pose proof (readers_refs_nonneg m (readers p)). change BIAS with (2 ^ 20). lia. }
  destruct (delete_readers_spec (readers p) (length (ot_elements (pwr_readers p))) (pwr_readers p) h P1 eq_refl) as (h1 & E1 & W1 & R1); auto.
  { intros m. specialize (Hcov m). specialize (Hnn m). unfold owed in Hcov. lia. }
  rewrite E1. cbn [mbind option_bind].
  destruct (defrag_free_spec (pwr_defrag p) h1 P2 W1) as (h2 & E2 & W2 & R2).
  { intros m. rewrite R1. specialize (Hcov m). specialize (Hnn m). unfold owed in Hcov. lia. }
  rewrite E2. cbn [mbind option_bind].
  destruct (reorder_free_spec (pwr_reorder p) h2 P3 W2) as (h3 & E3 & W3 & R3).
  { intros m. rewrite R2, R1. specialize (Hcov m). specialize (Hnn m). unfold owed in Hcov. lia. }
  exists h3. split; [done|]. split; [done|]. intros m. rewrite R3, R2, R1. unfold owed. lia.
Qed.
End Conn.
