(* ===== verification/Submsg.v ===== *)
(** * The submessages of a packet: [handle_submsg_sequence] and [do_packet]

    A packet is a list of bytes.  [handle_submsg_sequence] cuts it into
    submessages, keeps the receiver state (source, destination, time stamp) that
    the INFO submessages set, validates each of the others and hands it to its
    handler.  Here the calls of handlers are a list of actions; the handlers of
    writer submessages are in [Receive].

    A receiver state lives in the message that is being received; one that a
    sample may refer to is not changed but copied.  Receiver states are numbered
    in the order in which they are allocated.  What is outside the packet is a
    parameter: [pwr_of] is the lookup of a proxy writer, [is_local] whether a
    GUID is that of a local participant (or of one that was deleted),
    [dst_prefix] the participant the socket belongs to, [tnowWC] the time and
    [garbage] the uninitialised sample info on the stack.  The build is one
    without encryption, so an encrypted container is skipped.  [None] is a read
    outside the packet or a failed assertion. *)

From Stdlib Require Import ZArith Lia.
From stdpp Require Import prelude.
From S2P Require Import Prelude Bitset Refs Defrag Reorder Rmsg Dqueue Time Wire Protocol.

Definition RTPS_MAJOR : Z := 2.
Definition RTPS_MINOR_MINIMUM : Z := 1.
Definition RTPS_MESSAGE_HEADER_SIZE : Z := 20.
Definition NN_ENTITYID_PARTICIPANT : Z := 0x1c1.

(** A call of a handler, with the receiver state it gets. *)
Inductive action : Type :=
| ActAckNack (rst : receiver_state) (msg : AckNack) (timestamp : nn_ddsi_time)
| ActHeartbeat (rst : receiver_state) (msg : Heartbeat) (timestamp : nn_ddsi_time)
| ActGap (rst : receiver_state) (msg : Gap)
| ActNackFrag (rst : receiver_state) (msg : NackFrag)
| ActHeartbeatFrag (rst : receiver_state) (msg : HeartbeatFrag)
| ActDataFrag (rst : receiver_state) (smoff size : Z) (msg : DataFrag) (info : rsample_info) (datap : Z)
| ActData (rst : receiver_state) (smoff size : Z) (msg : Data_DataFrag_common) (info : rsample_info) (datap : option Z).

(** The local variables of [handle_submsg_sequence], and the number of
    receiver states allocated. *)
Record seq_state : Type := SeqState {
  sq_rst : receiver_state;
  sq_rst_live : bool;
  sq_ts_for_latmeas : bool;
  sq_timestamp : nn_ddsi_time;
  sq_allocated : Z;
}.

Definition set_timestamps (info : rsample_info) (timestamp : nn_ddsi_time) (reception : Z) : rsample_info :=
  RsampleInfo (si_seq info) (si_rst info) (si_pwr info) (si_size info) (si_fragsize info) (seconds timestamp, fraction timestamp)
    reception (si_statusinfo info) (si_pt_wr_info_zoff info) (si_bswap info) (si_complex_qos info).

(** [rst_cow_if_needed]: the receiver state that may be changed. *)
Definition rst_cow_if_needed (st : seq_state) : seq_state :=
  if negb (sq_rst_live st) then st
  else
    let rst := sq_rst st in
    SeqState (ReceiverState (sq_allocated st) (rst_src_guid_prefix rst) (rst_dst_guid_prefix rst) (rst_vendor rst)
                (rst_protocol_version rst) (rst_forme rst))
      false (sq_ts_for_latmeas st) (sq_timestamp st) (sq_allocated st + 1).

Definition set_rst (st : seq_state) (rst : receiver_state) : seq_state :=
  SeqState rst (sq_rst_live st) (sq_ts_for_latmeas st) (sq_timestamp st) (sq_allocated st).
Definition set_ts (st : seq_state) (ts_for_latmeas : bool) : seq_state :=
  SeqState (sq_rst st) (sq_rst_live st) ts_for_latmeas (sq_timestamp st) (sq_allocated st).
Definition set_live (st : seq_state) : seq_state :=
  SeqState (sq_rst st) true false (sq_timestamp st) (sq_allocated st).

Section Submsg.
Context (cfg : ddsi_config) (pwr_of : nn_guid -> Z) (is_local : nn_guid -> bool) (dst_prefix : option (Z * Z * Z)) (tnowWC : Z)
  (garbage : rsample_info).
Implicit Types (b : list Z) (st : seq_state) (rst : receiver_state).

Abbreviation le := (platform_is_little_endian cfg).

Definition handle_InfoDST rst (msg : InfoDST) : receiver_state :=
  let p := nn_ntoh_guid_prefix le (id_guid_prefix msg) in
  let '(prefix, forme) :=
    if bool_decide (p = (0, 0, 0)) then (default p dst_prefix, true)
    else (p, is_local (NnGuid p NN_ENTITYID_PARTICIPANT)) in
  ReceiverState (rst_id rst) (rst_src_guid_prefix rst) prefix (rst_vendor rst) (rst_protocol_version rst) forme.

Definition handle_InfoSRC rst (msg : InfoSRC) : receiver_state :=
  ReceiverState (rst_id rst) (nn_ntoh_guid_prefix le (is_guid_prefix msg)) (rst_dst_guid_prefix rst) (is_vendorid msg)
    (is_version msg) (rst_forme rst).

Definition handle_InfoTS (msg : InfoTS) : nn_ddsi_time :=
  if flag (it_flags msg) INFOTS_INVALIDATE_FLAG then invalid_ddsi_timestamp else it_time msg.

(** The time stamp for measuring latencies. *)
Definition latmeas_ts st : nn_ddsi_time := if sq_ts_for_latmeas st then sq_timestamp st else invalid_ddsi_timestamp.

(** What a validated submessage leads to. *)
Definition on_valid {A : Type} (v : option (validity A)) (f : A -> seq_state * list action) : option (validity (seq_state * list action)) :=
  r ← v; Some (match r with Malformed => Malformed | Valid a => Valid (f a) end).

(** The [switch] on the kind of submessage: [b] are the bytes from the
    submessage on, [smoff] is where it starts in the packet. *)
Definition handle_submsg st b (smoff size : Z) (byteswap : bool) (id : Z) : option (validity (seq_state * list action)) :=
  let rst := sq_rst st in
  if (id =? SMID_PAD) || (id =? SMID_INFO_REPLY_IP4) || (id =? SMID_INFO_REPLY) || (id =? SMID_PT_ENTITY_ID)
  then Some (Valid (st, []))
  else if id =? SMID_PT_MSG_LEN then
    (* the trace prints the length *)
    if lc_trace cfg then _ ← get4u le b 4; Some (Valid (st, [])) else Some (Valid (st, []))
  else if id =? SMID_ACKNACK then
    on_valid (valid_AckNack cfg b size byteswap) (fun m => (set_ts st false, [ActAckNack rst m (latmeas_ts st)]))
  else if id =? SMID_HEARTBEAT then
    on_valid (valid_Heartbeat cfg b size byteswap) (fun m => (set_ts st false, [ActHeartbeat rst m (latmeas_ts st)]))
  else if id =? SMID_GAP then
    on_valid (valid_Gap cfg b size byteswap) (fun m => (set_ts st false, [ActGap rst m]))
  else if id =? SMID_INFO_TS then
    on_valid (valid_InfoTS cfg b size byteswap)
      (fun m => (SeqState rst (sq_rst_live st) true (handle_InfoTS m) (sq_allocated st), []))
  else if id =? SMID_INFO_SRC then
    on_valid (valid_InfoSRC cfg b size byteswap)
      (fun m => let st := rst_cow_if_needed st in (set_rst st (handle_InfoSRC (sq_rst st) m), []))
  else if id =? SMID_INFO_DST then
    on_valid (valid_InfoDST cfg b size byteswap)
      (fun m => let st := rst_cow_if_needed st in (set_rst st (handle_InfoDST (sq_rst st) m), []))
  else if id =? SMID_NACK_FRAG then
    on_valid (valid_NackFrag cfg b size byteswap) (fun m => (set_ts st false, [ActNackFrag rst m]))
  else if id =? SMID_HEARTBEAT_FRAG then
    on_valid (valid_HeartbeatFrag cfg b size byteswap) (fun m => (set_ts st false, [ActHeartbeatFrag rst m]))
  else if id =? SMID_DATA_FRAG then
    on_valid (valid_DataFrag cfg pwr_of rst b smoff size byteswap garbage)
      (fun '(m, info, datap) => (set_live st, [ActDataFrag rst smoff size m (set_timestamps info (sq_timestamp st) tnowWC) datap]))
  else if id =? SMID_DATA then
    on_valid (valid_Data cfg pwr_of rst b smoff size byteswap garbage)
      (fun '(m, info, datap) => (set_live st, [ActData rst smoff size m (set_timestamps info (sq_timestamp st) tnowWC) datap]))
  else if id =? SMID_PT_INFO_CONTAINER then
    if is_own_vendor (rst_vendor rst) || vendor_is_lite (rst_vendor rst)
    then on_valid (valid_PT_InfoContainer cfg b size byteswap) (fun _ => (st, []))
    else Some (Valid (st, []))
  else if (id <=? 0x7f) &&
          (((rst_protocol_version rst).1 <? RTPS_MAJOR) ||
           (((rst_protocol_version rst).1 =? RTPS_MAJOR) && ((rst_protocol_version rst).2 <? RTPS_MINOR_MINIMUM)))
  then Some Malformed
  else Some (Valid (set_ts st false, [])).

(** The header of the submessage at [off] in the packet: its kind, its size in
    bytes and whether its byte order differs. *)
Definition submsg_header b (off : Z) : option (Z * Z * bool) :=
  id ← get1 b off; flags ← get1 b (off + 1); octets ← get2u le b (off + 2);
  let byteswap := if flag flags SMFLAG_ENDIANNESS then negb le else le in
  let octetsToNextHeader := if byteswap then bswap2u octets else octets in
  Some (id,
        (if negb (octetsToNextHeader =? 0) then RTPS_SUBMESSAGE_HEADER_SIZE + octetsToNextHeader
         else if (id =? SMID_PAD) || (id =? SMID_INFO_TS) then RTPS_SUBMESSAGE_HEADER_SIZE
         else Z.of_nat (length b) - off),
        byteswap).

(** The [while]: whether all of the packet is well formed, and the calls. *)
Fixpoint submsg_loop (fuel : nat) st b (off : Z) : option (bool * seq_state * list action) :=
  let malformed := if off <? Z.of_nat (length b) then Some (false, st, []) else None in
  let short := if negb (off =? Z.of_nat (length b)) then malformed else Some (true, st, []) in
  if off <=? Z.of_nat (length b) - RTPS_SUBMESSAGE_HEADER_SIZE then
    match fuel with
    | O => None
    | S fuel' =>
        '(id, size, byteswap) ← submsg_header b off;
        if off + size >? Z.of_nat (length b) then short
        else
          r ← handle_submsg st (drop (Z.to_nat off) b) off size byteswap id;
          match r with
          | Malformed => malformed
          | Valid (st, acts) =>
              '(ok, st, acts') ← submsg_loop fuel' st b (off + size); Some (ok, st, acts ++ acts')
          end
    end
  else short.

Definition handle_submsg_sequence b (src_prefix : Z * Z * Z) (version vendor : Z * Z) (off : Z) : option (bool * seq_state * list action) :=
  let rst := ReceiverState 1 src_prefix (default (0, 0, 0) dst_prefix) vendor version true in
  submsg_loop (length b) (SeqState rst false false invalid_ddsi_timestamp 2) b off.

(** A datagram that is too short or has the wrong header: the version, and for
    the trace and a warning the rest of the header, are looked at, whether the
    datagram has them or not. *)
Definition header_refused b : option (list action) :=
  major ← get1 b 4;
  minor ← (if major =? RTPS_MAJOR then get1 b 5 else Some RTPS_MINOR_MINIMUM);
  _ ← (if (minor <? RTPS_MINOR_MINIMUM) && lc_trace cfg
       then (_ ← field_prefix cfg b 8; _ ← get1 b 6; get1 b 7) else Some 0);
  _ ← (if nn_pedantic_p cfg then _ ← get1 b 6; get1 b 7 else Some 0);
  Some [].

(** [do_packet] on a datagram: the calls it leads to.  [coexist] is the setting
    with which packets of this product are ignored. *)
Definition do_packet (coexist : bool) b : option (list action) :=
  if Z.of_nat (length b) <? RTPS_MESSAGE_HEADER_SIZE then header_refused b
  else
    b0 ← get1 b 0; b1 ← get1 b 1; b2 ← get1 b 2; b3 ← get1 b 3;
    major ← get1 b 4; minor ← get1 b 5; v0 ← get1 b 6; v1 ← get1 b 7;
    prefix ← field_prefix cfg b 8;
    if negb ((b0 =? 82) && (b1 =? 84) && (b2 =? 80) && (b3 =? 83)) ||
       negb (major =? RTPS_MAJOR) || (minor <? RTPS_MINOR_MINIMUM)
    then header_refused b
    else if coexist && is_own_vendor (v0, v1) then Some []
    else
      '(_, _, acts) ← handle_submsg_sequence b (nn_ntoh_guid_prefix le prefix) (major, minor) (v0, v1) RTPS_MESSAGE_HEADER_SIZE;
      Some acts.
End Submsg.

(** ** Streams *)

(** [do_packet] on a stream: the packet header and the MSG_LEN submessage are
    read first; the bytes that are then read, and where they go in the buffer.
    [None] is a malformed packet. *)
Definition stream_rest (cfg : ddsi_config) (b : list Z) : option (Z * Z) :=
  id ← get1 b RTPS_MESSAGE_HEADER_SIZE; flags ← get1 b (RTPS_MESSAGE_HEADER_SIZE + 1);
  length ← get4u (platform_is_little_endian cfg) b (RTPS_MESSAGE_HEADER_SIZE + 4);
  let swap := if flag flags SMFLAG_ENDIANNESS then negb (platform_is_little_endian cfg) else platform_is_little_endian cfg in
  let length := if swap then bswap4u length else length in
  if negb (id =? SMID_PT_MSG_LEN) then None
  else Some (RTPS_MESSAGE_HEADER_SIZE + 8, wrap_u 64 (length - (RTPS_MESSAGE_HEADER_SIZE + 8))).
