(* ===== verification/SubmsgProps.v ===== *)
(** * The submessages of a packet are handled one by one

    Cutting a packet ends, every submessage lies in the packet and starts where
    the one before ends, no validator reads outside, what the handlers get is
    well typed, and a receiver state that a sample refers to is not changed.  The
    theorems and their witnesses are at the end. *)

From Stdlib Require Import ZArith Lia.
From stdpp Require Import prelude.
From S2P Require Import Prelude Bitset Refs Defrag Reorder Rmsg Dqueue Time Wire Protocol ProtocolProps ProtocolRound ProtocolClaims Submsg.

(** What a handler may rely on. *)
Definition action_ok (plen : Z) (a : action) : Prop :=
  match a with
  | ActAckNack _ m _ => acknack_ok m
  | ActHeartbeat _ m _ => heartbeat_ok m
  | ActGap _ m => gap_ok m
  | ActNackFrag _ m => nackfrag_ok m
  | ActHeartbeatFrag _ m => heartbeatfrag_ok m
  | ActDataFrag rst smoff size m info datap => frag_ok plen smoff size m info datap /\ si_rst info = rst_id rst
  | ActData rst smoff size _ info datap => data_ok plen smoff size info datap /\ si_rst info = rst_id rst
  end.

(** The receiver state a sample refers to. *)
Definition sample_rst (a : action) : option receiver_state :=
  match a with
  | ActDataFrag rst _ _ _ _ _ => Some rst
  | ActData rst _ _ _ _ _ => Some rst
  | _ => None
  end.

(** The receiver states samples refer to are not changed any more: the one
    being used is as the samples saw it, and each has one value. *)
Record rsts_kept (acts : list action) (st : seq_state) : Prop := {
  rk_current : rst_id (sq_rst st) < sq_allocated st;
  rk_seen : forall a rst, a ∈ acts -> sample_rst a = Some rst ->
    rst_id rst < sq_allocated st /\ (rst_id rst = rst_id (sq_rst st) -> sq_rst_live st = true /\ rst = sq_rst st);
  rk_same : forall a a' rst rst', a ∈ acts -> a' ∈ acts -> sample_rst a = Some rst -> sample_rst a' = Some rst' ->
    rst_id rst = rst_id rst' -> rst = rst';
}.

Section Props.
Context (cfg : ddsi_config) (pwr_of : nn_guid -> Z) (is_local : nn_guid -> bool) (dst_prefix : option (Z * Z * Z)) (tnowWC : Z)
  (garbage : rsample_info).
Implicit Types (b : list Z) (st : seq_state).

Abbreviation handle_submsg := (handle_submsg cfg pwr_of is_local dst_prefix tnowWC garbage).
Abbreviation submsg_loop := (submsg_loop cfg pwr_of is_local dst_prefix tnowWC garbage).

(** ** Framing *)

(** The submessages of a packet, from [off] on: offset, size, kind and byte
    order of each. *)
Fixpoint frames (fuel : nat) b (off : Z) : list (Z * Z * Z * bool) :=
  match fuel with
  | O => []
  | S fuel' =>
      if off <=? Z.of_nat (length b) - 4 then
        match submsg_header cfg b off with
        | Some (id, size, byteswap) =>
            if off + size >? Z.of_nat (length b) then [] else (off, size, id, byteswap) :: frames fuel' b (off + size)
        | None => []
        end
      else []
  end.

(** Frames one after the other, from [off] to at most [stop]. *)
Fixpoint consecutive (off stop : Z) (l : list (Z * Z * Z * bool)) : Prop :=
  match l with
  | [] => off <= stop
  | (o, size, _, _) :: l' => o = off /\ 4 <= size /\ consecutive (off + size) stop l'
  end.

(** As [NN_OFF_TO_ZOFF] requires: sizes and, in DATA and DATAFRAG, the offset
    of the inline QoS are multiples of 4. *)
Definition aligned_frame b (f : Z * Z * Z * bool) : bool :=
  let '(off, size, id, byteswap) := f in
  (size mod 4 =? 0) &&
  (negb ((id =? SMID_DATA) || (id =? SMID_DATA_FRAG)) ||
   match read_common cfg byteswap (drop (Z.to_nat off) b) with
   | Some x => dx_octetsToInlineQos x mod 4 =? 0
   | None => true
   end).

(** What the trace of a MSG_LEN submessage prints is in the packet. *)
Definition traceable_frame b (f : Z * Z * Z * bool) : bool :=
  let '(off, _, id, _) := f in negb (lc_trace cfg) || negb (id =? SMID_PT_MSG_LEN) || (off + 8 <=? Z.of_nat (length b)).

Lemma submsg_header_spec b off :
  bytes_ok b -> 0 <= off <= Z.of_nat (length b) - 4 ->
  exists id size byteswap, submsg_header cfg b off = Some (id, size, byteswap) /\ 4 <= size.
Proof.
  intros Hb Ho. unfold submsg_header. destruct (get1_lt b off) as [id E1]; [lia|]. destruct (get1_lt b (off + 1)) as [fl E2]; [lia|].
  destruct (get2u_lt (platform_is_little_endian cfg) b (off + 2)) as [oc E3]; [lia..|]. rewrite E1, E2, E3. cbn [mbind option_bind].
  eexists _, _, _. split; [done|]. unfold RTPS_SUBMESSAGE_HEADER_SIZE.
  assert (Hf : exists byteswap, (if (if flag fl SMFLAG_ENDIANNESS then negb (platform_is_little_endian cfg) else platform_is_little_endian cfg)
    then bswap2u oc else oc) = (if byteswap : bool then bswap2u oc else oc)) by eauto.
  destruct Hf as [sw ->]. assert (Hr : in_u 16 (if sw then bswap2u oc else oc)).
  { apply (field2_range cfg sw b (off + 2)); [done|]. unfold field2. by rewrite E3. }
  unfold in_u in Hr. destruct (Z.eqb_spec (if sw then bswap2u oc else oc) 0); cbn [negb]; [|lia]. destruct (_ || _); lia.
Qed.

Lemma frames_consecutive b : bytes_ok b -> forall fuel off, 0 <= off <= Z.of_nat (length b) ->
  consecutive off (Z.of_nat (length b)) (frames fuel b off).
Proof.
  intros Hb. induction fuel as [|fuel IH]; intros off Ho; cbn [frames]; [simpl; lia|].
  destruct (Z.leb_spec off (Z.of_nat (length b) - 4)); [|simpl; lia].
  destruct (submsg_header_spec b off Hb) as (id & size & bs & -> & Hs); [lia|].
  rewrite Z.gtb_ltb. destruct (Z.ltb_spec (Z.of_nat (length b)) (off + size)); [simpl; lia|]. simpl. split; [done|]. split; [done|].
  apply IH. lia.
Qed.

(** ** One submessage *)

Lemma on_valid_spec {A : Type} (v : option (validity A)) (P : A -> Prop) f (Q : seq_state * list action -> Prop) :
  (exists r, v = Some r /\ match r with Malformed => True | Valid a => P a end) -> (forall a, P a -> Q (f a)) ->
  exists r, on_valid v f = Some r /\ match r with Malformed => True | Valid x => Q x end.
Proof.
  intros (r & -> & Hr) Hf. eexists. split; [done|]. destruct r as [|a]; [done|]. simpl. auto.
Qed.

Lemma typed {A : Type} (v : option (validity A)) (P : A -> Prop) :
  (exists r, v = Some r) -> (forall a, v = Some (Valid a) -> P a) ->
  exists r, v = Some r /\ match r with Malformed => True | Valid a => P a end.
Proof. intros [r ->] HP. exists r. split; [done|]. destruct r; auto. Qed.

(** What one submessage leads to: its calls are fine, and earlier receiver
    states are kept. *)
Definition step_ok (plen : Z) (past : list action) (r : seq_state * list action) : Prop :=
  Forall (action_ok plen) r.2 /\ rsts_kept (past ++ r.2) r.1.

Lemma kept_same past st st' : rsts_kept past st -> sq_rst st' = sq_rst st -> sq_rst_live st' = sq_rst_live st ->
  sq_allocated st' = sq_allocated st -> rsts_kept past st'.
Proof. intros [K1 K2 K3] E1 E2 E3. split; rewrite ?E1, ?E2, ?E3; auto. Qed.

(** A handler that leaves the receiver state alone. *)
Lemma kept_other past st a ts : rsts_kept past st -> sample_rst a = None -> rsts_kept (past ++ [a]) (set_ts st ts).
Proof.
  intros [K1 K2 K3] Ha. assert (Hin : forall x r, x ∈ past ++ [a] -> sample_rst x = Some r -> x ∈ past).
  { intros x r [Hx|Hx]%elem_of_app Hr; [done|]. apply list_elem_of_singleton in Hx as ->. congruence. }
  split; simpl; [done|eauto|eauto].
Qed.

(** A sample makes the receiver state live. *)
Lemma kept_sample past st a : rsts_kept past st -> sample_rst a = Some (sq_rst st) -> rsts_kept (past ++ [a]) (set_live st).
Proof.
  intros [K1 K2 K3] Ha. assert (Hin : forall x r, x ∈ past ++ [a] -> sample_rst x = Some r -> x ∈ past \/ r = sq_rst st).
  { intros x r [Hx|Hx]%elem_of_app Hr; [by left|]. apply list_elem_of_singleton in Hx as ->. right. congruence. }
  split; simpl; [done|..].
  - intros x r Hx Hr. destruct (Hin x r Hx Hr) as [Hp| ->]; [|done]. destruct (K2 x r Hp Hr) as [Hlt Heq]. split; [done|].
    intros E. split; [done|]. by apply Heq.
  - intros x x' r r' Hx Hx' Hr Hr' E. destruct (Hin x r Hx Hr) as [Hp| ->], (Hin x' r' Hx' Hr') as [Hp'| ->]; eauto.
    + by apply (proj2 (K2 x r Hp Hr)).
    + symmetry. by apply (proj2 (K2 x' r' Hp' Hr')).
Qed.

(** Changing a receiver state after [rst_cow_if_needed]. *)
Lemma kept_cow past st rst : rsts_kept past st -> rst_id rst = rst_id (sq_rst (rst_cow_if_needed st)) ->
  rsts_kept past (set_rst (rst_cow_if_needed st) rst).
Proof.
  intros [K1 K2 K3]. unfold rst_cow_if_needed. destruct (sq_rst_live st) eqn:El; simpl; intros Hid.
  - split; simpl; [lia| |done]. intros a r Ha Hr. destruct (K2 a r Ha Hr) as [Hlt _]. split; [lia|]. lia.
  - split; simpl; [lia| |done]. intros a r Ha Hr. destruct (K2 a r Ha Hr) as [Hlt Heq]. split; [done|].
    intros E. rewrite Hid in E. by destruct (Heq E).
Qed.

Lemma InfoDST_id rst m : rst_id (handle_InfoDST cfg is_local dst_prefix rst m) = rst_id rst.
Proof. unfold handle_InfoDST. by destruct (bool_decide _). Qed.

Lemma handle_submsg_spec past st b off size byteswap id :
  bytes_ok b -> 0 <= off -> off mod 4 = 0 -> 4 <= size -> off + size <= Z.of_nat (length b) -> Z.of_nat (length b) < 65536 ->
  aligned_frame b (off, size, id, byteswap) = true -> traceable_frame b (off, size, id, byteswap) = true -> rsts_kept past st ->
  exists r, handle_submsg st (drop (Z.to_nat off) b) off size byteswap id = Some r /\
    match r with Malformed => True | Valid x => step_ok (Z.of_nat (length b)) past x end.
Proof.
  intros Hb Ho Hmod Hs Hend Hlen Hal Htr Hk. unfold handle_submsg. set (b' := drop (Z.to_nat off) b) in *.
  assert (Hb' : bytes_ok b') by (by apply Forall_drop).
  assert (Hl' : size <= Z.of_nat (length b')) by (unfold b'; rewrite length_drop; lia).
  apply andb_prop in Hal as [Hsz%Z.eqb_eq Hqos]. fold b' in Hqos.
  assert (Hnil : forall st', rsts_kept past st' -> step_ok (Z.of_nat (length b)) past (st', [])) by (intros st' Hst; split; [done|by rewrite app_nil_r]).
  assert (Hone : forall a ts, action_ok (Z.of_nat (length b)) a -> sample_rst a = None -> step_ok (Z.of_nat (length b)) past (set_ts st ts, [a])).
  { intros a ts Ha Hn. split; [by repeat constructor|]. by apply kept_other. }
  assert (Hpl : (id =? SMID_DATA) || (id =? SMID_DATA_FRAG) = true -> placed cfg byteswap b' off size).
  { intros Hid. rewrite Hid in Hqos. split; auto; [lia..|]. intros x Hx. rewrite Hx in Hqos. apply Z.eqb_eq in Hqos.
    replace (off + (8 + dx_octetsToInlineQos x)) with (off + dx_octetsToInlineQos x + 2 * 4) by lia.
    rewrite Z.mod_add, Z.add_mod, Hmod, Hqos by lia. done. }
  destruct ((id =? SMID_PAD) || _ || _ || _); [eexists; split; [done|]; by apply Hnil|].
  destruct (id =? SMID_PT_MSG_LEN) eqn:El.
  { unfold traceable_frame in Htr. rewrite El in Htr. destruct (lc_trace cfg); [|eexists; split; [done|]; by apply Hnil].
    apply Z.leb_le in Htr. destruct (get4u_lt (platform_is_little_endian cfg) b' 4) as [v E]; [lia|unfold b'; rewrite length_drop; lia|].
    rewrite E. eexists. split; [done|]. by apply Hnil. }
  clear Htr El.
  destruct (id =? SMID_ACKNACK).
  { eapply on_valid_spec; [eapply typed; [by apply valid_AckNack_reads|intros a; by apply (acknack_typed cfg b' size byteswap)]|]. intros m Hm. by apply Hone. }
  destruct (id =? SMID_HEARTBEAT).
  { eapply on_valid_spec; [eapply typed; [by apply valid_Heartbeat_reads|intros a; by apply (heartbeat_typed cfg b' size byteswap)]|]. intros m Hm. by apply Hone. }
  destruct (id =? SMID_GAP).
  { eapply on_valid_spec; [eapply typed; [by apply valid_Gap_reads|intros a; by apply (gap_typed cfg b' size byteswap)]|]. intros m Hm. by apply Hone. }
  destruct (id =? SMID_INFO_TS).
  { eapply on_valid_spec; [apply (typed _ (fun _ => True)); [apply valid_InfoTS_reads; unfold RTPS_SUBMESSAGE_HEADER_SIZE; lia|done]|]. intros m _. apply Hnil. by eapply kept_same. }
  destruct (id =? SMID_INFO_SRC).
  { eapply on_valid_spec; [apply (typed _ (fun _ => True)); [by apply valid_InfoSRC_reads|done]|]. intros m _. apply Hnil. by apply kept_cow. }
  destruct (id =? SMID_INFO_DST).
  { eapply on_valid_spec; [apply (typed _ (fun _ => True)); [by apply valid_InfoDST_reads|done]|]. intros m _. apply Hnil. apply kept_cow; [done|apply InfoDST_id]. }
  destruct (id =? SMID_NACK_FRAG).
  { eapply on_valid_spec; [eapply typed; [by apply valid_NackFrag_reads|intros a; by apply (nackfrag_typed cfg b' size byteswap)]|]. intros m Hm. by apply Hone. }
  destruct (id =? SMID_HEARTBEAT_FRAG).
  { eapply on_valid_spec; [eapply typed; [by apply valid_HeartbeatFrag_reads|intros a; by apply (heartbeatfrag_typed cfg b' size byteswap)]|]. intros m Hm. by apply Hone. }
  destruct (id =? SMID_DATA_FRAG) eqn:Ef.
  { eapply on_valid_spec; [apply (valid_DataFrag_spec cfg pwr_of (sq_rst st) b' off size byteswap garbage (Hpl (orb_true_r _)))|].
    intros [[m info] p] (_ & _ & V1 & _ & V2 & V3 & V4 & V5 & V6 & V7). split; [|by apply kept_sample]. constructor; [|done].
    split; [|done]. split; simpl; auto. }
  destruct (id =? SMID_DATA) eqn:Ed.
  { eapply on_valid_spec; [apply (valid_Data_spec cfg pwr_of (sq_rst st) b' off size byteswap garbage (Hpl eq_refl))|].
    intros [[m info] p] (_ & _ & V1 & _ & V2 & V3). split; [|by apply kept_sample]. constructor; [|done].
    split; [|done]. split; simpl; auto. destruct p; simpl in *; [done|]. split; [lia|done]. }
  clear Hqos Hpl. destruct (id =? SMID_PT_INFO_CONTAINER).
  { destruct (_ || _); [|eexists; split; [done|]; by apply Hnil].
    eapply on_valid_spec; [apply (typed _ (fun _ => True)); [by apply valid_PT_InfoContainer_reads|done]|]. intros m _. by apply Hnil. }
  destruct (_ && _); [by eexists|]. eexists. split; [done|]. apply Hnil. by eapply kept_same.
Qed.

(** ** All submessages *)

(** The reference: the frames one by one, up to the first that is malformed. *)
Fixpoint run_frames st b (l : list (Z * Z * Z * bool)) : option (bool * seq_state * list action) :=
  match l with
  | [] => Some (true, st, [])
  | (off, size, id, byteswap) :: l' =>
      r ← handle_submsg st (drop (Z.to_nat off) b) off size byteswap id;
      match r with
      | Malformed => Some (false, st, [])
      | Valid (st, acts) => '(ok, st, acts') ← run_frames st b l'; Some (ok, st, acts ++ acts')
      end
  end.

Fixpoint frames_end (off : Z) (l : list (Z * Z * Z * bool)) : Z :=
  match l with [] => off | (o, size, _, _) :: l' => frames_end (o + size) l' end.

(** The loop ends, and does what the frames say. *)
Lemma submsg_loop_frames b : bytes_ok b -> forall fuel st off,
  0 <= off <= Z.of_nat (length b) -> Z.of_nat (length b) - off <= Z.of_nat fuel ->
  submsg_loop fuel st b off =
    '(ok, st, acts) ← run_frames st b (frames fuel b off);
    Some (ok && (frames_end off (frames fuel b off) =? Z.of_nat (length b)), st, acts).
Proof.
  intros Hb. assert (Hshort : forall st off, 0 <= off <= Z.of_nat (length b) ->
    (if negb (off =? Z.of_nat (length b)) then if off <? Z.of_nat (length b) then Some (false, st, []) else None else Some (true, st, [] : list action)) =
    Some (true && (off =? Z.of_nat (length b)), st, [])).
  { intros st off Ho. destruct (Z.eqb_spec off (Z.of_nat (length b))); cbn [negb andb]; [done|]. by destruct (Z.ltb_spec off (Z.of_nat (length b))); [|lia]. }
  induction fuel as [|fuel IH]; intros st off Ho Hf; cbn [Submsg.submsg_loop frames]; unfold RTPS_SUBMESSAGE_HEADER_SIZE;
    (destruct (Z.leb_spec off (Z.of_nat (length b) - 4)); [|simpl run_frames; simpl frames_end; cbn [mbind option_bind]; by apply Hshort]).
  - lia.
  - destruct (submsg_header_spec b off Hb) as (id & size & bs & E & Hs); [lia|]. rewrite E. cbn [mbind option_bind].
    rewrite Z.gtb_ltb. destruct (Z.ltb_spec (Z.of_nat (length b)) (off + size)); [by apply Hshort|]. cbn [run_frames frames_end].
    destruct (handle_submsg st _ off size bs id) as [[|[st1 acts]]|]; cbn [mbind option_bind]; [|..|done].
    + by destruct (Z.ltb_spec off (Z.of_nat (length b))); [|lia].
    + rewrite IH by lia. by destruct (run_frames st1 b _) as [[[ok st2] acts2]|].
Qed.

Lemma run_frames_spec b l : forall past st off,
  bytes_ok b -> 0 <= off -> off mod 4 = 0 -> consecutive off (Z.of_nat (length b)) l -> Z.of_nat (length b) < 65536 ->
  forallb (aligned_frame b) l = true -> forallb (traceable_frame b) l = true -> rsts_kept past st ->
  exists ok st' acts, run_frames st b l = Some (ok, st', acts) /\ Forall (action_ok (Z.of_nat (length b))) acts /\ rsts_kept (past ++ acts) st'.
Proof.
  assert (Hstop : forall off l, consecutive off (Z.of_nat (length b)) l -> off <= Z.of_nat (length b)).
  { intros off l'. revert off. induction l' as [|[[[o s] i] sw] l' IH]; intros off; simpl; [done|]. intros (-> & Hs & Hc). apply IH in Hc. lia. }
  induction l as [|[[[o size] id] bs] l IH]; intros past st off Hb Ho Hm Hc Hlen Hal Htr Hk; cbn [run_frames].
  - eexists _, _, []. split; [done|]. split; [done|]. by rewrite app_nil_r.
  - destruct Hc as (-> & Hs & Hc). simpl in Hal, Htr. apply andb_prop in Hal as [Ha Hal], Htr as [Ht Htr].
    destruct (handle_submsg_spec past st b off size bs id) as (r & E & Hr); auto; [by apply (Hstop _ l)|].
    rewrite E. cbn [mbind option_bind]. destruct r as [|[st1 acts]].
    { eexists _, _, []. split; [done|]. split; [done|]. by rewrite app_nil_r. }
    destruct Hr as [Hok Hk1]. simpl in Hok, Hk1.
    destruct (IH (past ++ acts) st1 (off + size)) as (ok & st2 & acts2 & E2 & Hok2 & Hk2); auto; [lia|..].
    { apply andb_prop in Ha as [Hsz%Z.eqb_eq _]. rewrite Z.add_mod, Hm, Hsz by lia. done. }
    rewrite E2. cbn [mbind option_bind]. eexists _, _, _. split; [done|]. rewrite app_assoc. split; [by apply Forall_app|done].
Qed.

(** A packet of which all submessages are aligned. *)
Definition aligned_packet b (off : Z) : bool := forallb (aligned_frame b) (frames (length b) b off).

(** A packet of which all MSG_LEN submessages have a length, or no trace is
    written. *)
Definition traceable_packet b (off : Z) : bool := forallb (traceable_frame b) (frames (length b) b off).

Lemma sequence_spec b src version vendor off :
  bytes_ok b -> 0 <= off <= Z.of_nat (length b) -> off mod 4 = 0 -> Z.of_nat (length b) < 65536 -> aligned_packet b off = true -> traceable_packet b off = true ->
  exists ok st acts, handle_submsg_sequence cfg pwr_of is_local dst_prefix tnowWC garbage b src version vendor off = Some (ok, st, acts) /\
    Forall (action_ok (Z.of_nat (length b))) acts /\ rsts_kept acts st.
Proof.
  intros Hb Ho Hm Hlen Hal Htr. unfold handle_submsg_sequence. rewrite submsg_loop_frames by (done || lia).
  set (st0 := SeqState _ _ _ _ _). assert (Hk0 : rsts_kept [] st0) by (split; simpl; [lia|by intros a r Ha%elem_of_nil|by intros a a' r r' Ha%elem_of_nil]).
  destruct (run_frames_spec b (frames (length b) b off) [] st0 off Hb) as (ok & st & acts & E & Hok & Hk); auto; [lia|by apply frames_consecutive|].
  rewrite E. cbn [mbind option_bind]. eexists _, _, _. by split.
Qed.

Lemma header_refused_reads b : 20 <= Z.of_nat (length b) -> header_refused cfg b = Some [].
Proof.
  intros Hl. unfold header_refused.
  destruct (get1_lt b 4) as [v4 ->]; [lia|]. destruct (get1_lt b 5) as [v5 ->]; [lia|]. destruct (get1_lt b 6) as [v6 ->]; [lia|].
  destruct (get1_lt b 7) as [v7 ->]; [lia|]. destruct (field_prefix_lt cfg b 8) as [pre ->]; [lia..|].
  cbn [mbind option_bind]. by destruct (v4 =? _), (nn_pedantic_p cfg); cbn [mbind option_bind]; destruct (_ && _).
Qed.

Lemma do_packet_spec coexist b :
  bytes_ok b -> RTPS_MESSAGE_HEADER_SIZE <= Z.of_nat (length b) < 65536 -> aligned_packet b RTPS_MESSAGE_HEADER_SIZE = true ->
  traceable_packet b RTPS_MESSAGE_HEADER_SIZE = true ->
  exists acts, do_packet cfg pwr_of is_local dst_prefix tnowWC garbage coexist b = Some acts /\ Forall (action_ok (Z.of_nat (length b))) acts /\
    forall a a' rst rst', a ∈ acts -> a' ∈ acts -> sample_rst a = Some rst -> sample_rst a' = Some rst' -> rst_id rst = rst_id rst' -> rst = rst'.
Proof.
  intros Hb Hlen Hal Htr. unfold do_packet. assert (Hnil : exists acts : list action, Some [] = Some acts /\ Forall (action_ok (Z.of_nat (length b))) acts /\
    forall a a' rst rst', a ∈ acts -> a' ∈ acts -> sample_rst a = Some rst -> sample_rst a' = Some rst' -> rst_id rst = rst_id rst' -> rst = rst').
  { exists []. split; [done|]. split; [done|]. by intros a a' r r' Ha%elem_of_nil. }
  assert (Hrf : header_refused cfg b = Some []) by (apply header_refused_reads; unfold RTPS_MESSAGE_HEADER_SIZE in Hlen; lia).
  destruct (Z.ltb_spec (Z.of_nat (length b)) RTPS_MESSAGE_HEADER_SIZE) as [|Hge]; [lia|]. unfold RTPS_MESSAGE_HEADER_SIZE in Hlen, Hge, Hal, Htr |- *.
  repeat match goal with |- context [get1 b ?o ≫= _] => let x := fresh "v" in let E := fresh "E" in
    destruct (get1_lt b o) as [x E]; [lia|]; rewrite E; cbn [mbind option_bind] end.
  destruct (field_prefix_lt cfg b 8) as [pre E8]; [lia..|]. rewrite E8. cbn [mbind option_bind].
  destruct (_ || _); [by rewrite Hrf|]. destruct (coexist && _); [done|].
  destruct (sequence_spec b (nn_ntoh_guid_prefix (platform_is_little_endian cfg) pre) (v3, v4) (v5, v6) 20) as (ok & st & acts & Es & Hok & Hk); auto; [lia|lia|].
  rewrite Es. cbn [mbind option_bind]. exists acts. split; [done|]. split; [done|]. apply Hk.
Qed.
End Props.

(** ** The theorems about packets, with witnesses *)

Section Claims.
Context (cfg : ddsi_config) (pwr_of : nn_guid -> Z) (is_local : nn_guid -> bool) (dst_prefix : option (Z * Z * Z)) (tnowWC : Z)
  (garbage : rsample_info).

(** C18: whatever bytes a datagram of 20 (a header) to 65535 bytes has, as long
    as its submessages are aligned and, when a trace is written, each MSG_LEN
    submessage in it has its length, [do_packet] reads nothing outside it and
    fails no assertion up to the calls of the handlers, each handler it calls
    gets a well-typed submessage and a payload inside the datagram, and the
    receiver state that a sample refers to is not changed by a later
    submessage. *)
Theorem packet_handled coexist b :
  bytes_ok b -> RTPS_MESSAGE_HEADER_SIZE <= Z.of_nat (length b) < 65536 -> aligned_packet cfg b RTPS_MESSAGE_HEADER_SIZE = true ->
  traceable_packet cfg b RTPS_MESSAGE_HEADER_SIZE = true ->
  exists acts, do_packet cfg pwr_of is_local dst_prefix tnowWC garbage coexist b = Some acts /\ Forall (action_ok (Z.of_nat (length b))) acts /\
    forall a a' rst rst', a ∈ acts -> a' ∈ acts -> sample_rst a = Some rst -> sample_rst a' = Some rst' -> rst_id rst = rst_id rst' -> rst = rst'.
Proof. apply do_packet_spec. Qed.

(** C19: the loop over the submessages of a packet ends within as many
    iterations as the packet has bytes: it cuts the packet into consecutive
    submessages of at least 4 bytes each, handles these one by one up to the first
    that is malformed, and finds the packet well formed exactly when they are
    and fill it. *)
Theorem submessage_framing st b off :
  bytes_ok b -> 0 <= off <= Z.of_nat (length b) ->
  consecutive off (Z.of_nat (length b)) (frames cfg (length b) b off) /\
  submsg_loop cfg pwr_of is_local dst_prefix tnowWC garbage (length b) st b off =
    '(ok, st, acts) ← run_frames cfg pwr_of is_local dst_prefix tnowWC garbage st b (frames cfg (length b) b off);
    Some (ok && (frames_end off (frames cfg (length b) b off) =? Z.of_nat (length b)), st, acts).
Proof. intros Hb Ho. split; [by apply frames_consecutive|]. apply submsg_loop_frames; [done..|lia]. Qed.
End Claims.

(** ** A concrete packet *)

(** The header, padding, a big-endian GAP and a DATAFRAG. *)
Definition ppacket : list Z :=
  [82; 84; 80; 83; 2; 1; 1; 2] ++ replicate 12 9 ++ [1; 1; 0; 0] ++ encode_Gap false 0 36 pgap ++ pfrag_bytes.

Lemma ppacket_ok : bytes_ok ppacket.
Proof. by apply bytes_ok_dec; vm_compute. Qed.

Lemma packet_handled_witness :
  exists a1 a2, do_packet rcfg (fun _ => 0) (fun _ => true) None 0 pinfo false ppacket = Some [a1; a2] /\ action_ok 104 a1 /\ action_ok 104 a2.
Proof.
  destruct (packet_handled rcfg (fun _ => 0) (fun _ => true) None 0 pinfo false ppacket ppacket_ok) as (acts & E & Ha & _); [by vm_compute..|].
  vm_compute in E. injection E as <-. apply Forall_cons in Ha as [H1 Ha]. apply Forall_cons in Ha as [H2 _].
  eexists _, _. split; [vm_compute; reflexivity|]. split; [exact H1|exact H2].
Defined.

Lemma submessage_framing_witness :
  frames rcfg 104 ppacket 20 = [(20, 4, 1, false); (24, 40, 8, true); (64, 40, 22, false)] /\
  consecutive 20 104 (frames rcfg 104 ppacket 20).
Proof.
  split; [vm_compute; reflexivity|].
  apply (submessage_framing rcfg (fun _ => 0) (fun _ => true) None 0 pinfo (SeqState prst false false invalid_ddsi_timestamp 2) ppacket 20 ppacket_ok).
  by vm_compute.
Defined.

(** Without these conditions something outside is read: the length of a
    MSG_LEN submessage of 4 bytes, for the trace, and the version of a datagram
    of 4 bytes. *)
Theorem short_packets_overread :
  do_packet rcfg (fun _ => 0) (fun _ => true) None 0 pinfo false ([82; 84; 80; 83; 2; 1; 1; 2] ++ replicate 12 9 ++ [SMID_PT_MSG_LEN; 1; 0; 0]) = None /\
  do_packet rcfg (fun _ => 0) (fun _ => true) None 0 pinfo false [82; 84; 80; 83] = None.
Proof. split; vm_compute; reflexivity. Qed.
