(* ===== verification/Deliver.v ===== *)
(** * From fragments to the data of a sample: [defragment] of [q_receive.c]

    [deliver_user_data] gets a chain of fragments that point into the received
    messages.  A single fragment is used where it is; the bytes of several are
    copied to a buffer of the size of the sample.  [mem m] is the payload of
    message [m]; [None] is a failed assertion or an access outside an object. *)

From Stdlib Require Import ZArith Lia.
From stdpp Require Import prelude.
From S2P Require Import Prelude Refs Defrag DefragFacts Wire.

(** [memcpy]: reading [n] bytes from [off] on, and writing bytes from [off] on. *)
Definition read_bytes (b : list Z) (off n : Z) : option (list Z) :=
  if (0 <=? off) && (0 <=? n) && (off + n <=? Z.of_nat (length b)) then Some (take (Z.to_nat n) (drop (Z.to_nat off) b)) else None.

Definition write_bytes (buf : list Z) (off : Z) (src : list Z) : option (list Z) :=
  if (0 <=? off) && (off + Z.of_nat (length src) <=? Z.of_nat (length buf))
  then Some (take (Z.to_nat off) buf ++ src ++ drop (Z.to_nat off + length src) buf) else None.

(** [*datap]: into the message, or a buffer of its own. *)
Inductive sample_data : Type :=
| InPlace (m : rmsg_addr) (off : Z)
| Copied (buf : list Z).

Section Deliver.
Context (mem : rmsg_addr -> list Z).

(** The [while] of [defragment]. *)
Fixpoint copy_fragments (sz : Z) (fragchain : list rdata) (off : Z) (buf : list Z) : option (list Z) :=
  match fragchain with
  | [] => Some buf
  | rd :: rest =>
      if negb ((rd_min rd <=? off) && (rd_maxp1 rd <=? sz)) then None
      else if rd_maxp1 rd >? off then
        src ← read_bytes (mem (rd_rmsg rd)) (rd_payload_zoff rd + off - rd_min rd) (rd_maxp1 rd - off);
        buf ← write_bytes buf off src;
        copy_fragments sz rest (rd_maxp1 rd) buf
      else copy_fragments sz rest off buf
  end.

(** [garbage] is what [os_malloc] returns. *)
Definition defragment (fragchain : list rdata) (sz : Z) (garbage : list Z) : option sample_data :=
  match fragchain with
  | [] => None
  | [rd] => Some (InPlace (rd_rmsg rd) (rd_payload_zoff rd))
  | _ => buf ← copy_fragments sz fragchain 0 garbage; Some (Copied buf)
  end.

(** A byte of the data. *)
Definition data_byte (d : sample_data) (i : Z) : option Z :=
  match d with
  | InPlace m off => get1 (mem m) (off + i)
  | Copied buf => get1 buf i
  end.

(** ** The bytes of the sample *)

(** The fragment carries the bytes [content] has in its range. *)
Definition carried (content : Z -> Z) (rd : rdata) : Prop :=
  0 <= rd_min rd /\ 0 <= rd_payload_zoff rd /\
  forall i, rd_min rd <= i < rd_maxp1 rd -> get1 (mem (rd_rmsg rd)) (rd_payload_zoff rd + (i - rd_min rd)) = Some (content i).

Lemma get1_lookup b i : 0 <= i -> get1 b i = b !! Z.to_nat i.
Proof. intros Hi. unfold get1. by rewrite (proj2 (Z.leb_le 0 i) Hi). Qed.

Lemma read_bytes_spec b off n :
  0 <= off -> 0 < n -> (forall i, 0 <= i < n -> is_Some (get1 b (off + i))) ->
  exists l, read_bytes b off n = Some l /\ Z.of_nat (length l) = n /\ forall i, 0 <= i < n -> get1 l i = get1 b (off + i).
Proof.
  intros Ho Hn Hb. unfold read_bytes. assert (Hlen : off + n <= Z.of_nat (length b)).
  { destruct (Hb (n - 1)) as [x Hx]; [lia|]. rewrite get1_lookup in Hx by lia. apply lookup_lt_Some in Hx. lia. }
  destruct (Z.leb_spec 0 off), (Z.leb_spec 0 n), (Z.leb_spec (off + n) (Z.of_nat (length b))); try lia. cbn [andb].
  eexists. split; [done|]. split; [rewrite length_take, length_drop; lia|].
  intros i Hi. rewrite !get1_lookup by lia. rewrite lookup_take_lt, lookup_drop by lia. f_equal. lia.
Qed.

Lemma write_bytes_spec buf off src :
  0 <= off -> off + Z.of_nat (length src) <= Z.of_nat (length buf) ->
  exists buf', write_bytes buf off src = Some buf' /\ length buf' = length buf /\
    (forall i, 0 <= i < off -> get1 buf' i = get1 buf i) /\
    (forall i, off <= i < off + Z.of_nat (length src) -> get1 buf' i = get1 src (i - off)).
Proof.
  intros Ho Hl. unfold write_bytes.
  destruct (Z.leb_spec 0 off), (Z.leb_spec (off + Z.of_nat (length src)) (Z.of_nat (length buf))); try lia. cbn [andb].
  assert (Ht : length (take (Z.to_nat off) buf) = Z.to_nat off) by (rewrite length_take; lia).
  eexists. split; [done|]. split; [rewrite !length_app, length_take, length_drop; lia|]. split; intros i Hi; rewrite !get1_lookup by lia.
  - rewrite lookup_app_l by lia. rewrite lookup_take_lt by lia. done.
  - rewrite lookup_app_r by lia. rewrite lookup_app_l by lia. f_equal. lia.
Qed.

Lemma copy_fragments_spec content sz c : forall off buf,
  walk off c = Some sz -> Forall (carried content) c -> 0 <= off -> Z.of_nat (length buf) = sz ->
  (forall i, 0 <= i < off -> get1 buf i = Some (content i)) ->
  exists buf', copy_fragments sz c off buf = Some buf' /\ forall i, 0 <= i < sz -> get1 buf' i = Some (content i).
Proof.
  induction c as [|rd c IH]; intros off buf Hw Hc Ho Hl Hb; simpl in Hw; cbn [copy_fragments].
  - injection Hw as ->. by exists buf.
  - apply Forall_cons in Hc as [(C1 & C2 & C3) Hc]. destruct (Z.leb_spec (rd_min rd) off); [|done].
    pose proof (walk_ge _ _ _ Hw) as Hge. destruct (Z.leb_spec (rd_maxp1 rd) sz); [|lia]. cbn [andb negb].
    rewrite Z.gtb_ltb. destruct (Z.ltb_spec off (rd_maxp1 rd)).
    2:{ rewrite Z.max_l in Hw by lia. by apply IH. }
    rewrite Z.max_r in Hw by lia.
    assert (Hsrc : forall i, 0 <= i < rd_maxp1 rd - off ->
      get1 (mem (rd_rmsg rd)) (rd_payload_zoff rd + off - rd_min rd + i) = Some (content (off + i))).
    { intros i Hi. rewrite <- C3 by lia. f_equal. lia. }
    destruct (read_bytes_spec (mem (rd_rmsg rd)) (rd_payload_zoff rd + off - rd_min rd) (rd_maxp1 rd - off)) as (src & -> & Ls & Hs); [lia|lia|by intros i Hi; rewrite Hsrc|].
    cbn [mbind option_bind]. destruct (write_bytes_spec buf off src) as (buf' & -> & Lb & B1 & B2); [lia|lia|]. cbn [mbind option_bind].
    apply IH; auto; [lia|lia|]. intros i Hi. destruct (Z.lt_ge_cases i off); [rewrite B1 by lia; apply Hb; lia|].
    rewrite B2, Hs, Hsrc by lia. f_equal. f_equal. lia.
Qed.

Lemma defragment_spec content c sz garbage :
  walk 0 c = Some sz -> Forall (carried content) c -> c <> [] -> Z.of_nat (length garbage) = sz ->
  exists d, defragment c sz garbage = Some d /\ forall i, 0 <= i < sz -> data_byte d i = Some (content i).
Proof.
  intros Hw Hc Hne Hl. destruct c as [|rd [|rd2 c]]; [done|..].
  - eexists. split; [done|]. simpl in Hw. destruct (Z.leb_spec (rd_min rd) 0); [|done]. injection Hw as Hsz.
    apply Forall_cons in Hc as [(C1 & C2 & C3) _]. intros i Hi. simpl. rewrite <- C3 by lia. f_equal. lia.
  - destruct (copy_fragments_spec content sz (rd :: rd2 :: c) 0 garbage Hw Hc) as (buf & E & Hb); [lia|done|intros; lia|].
    unfold defragment. rewrite E. cbn [mbind option_bind]. eexists. split; [done|]. done.
Qed.
End Deliver.
