(* ===== verification/ReceiveRun.v ===== *)
(** * A proxy writer in operation

    Calls of handlers, matching and unmatching of readers, and whatever other
    threads do to the reference counts, in any order: the invariant is kept,
    every submessage is processed, no reference is lost, and the samples come
    out whole and in order, up to the readers at the far end of the delivery
    queue. *)

From Stdlib Require Import ZArith Lia Sorting.Sorted.
From stdpp Require Import prelude.
From S2P Require Import Prelude OrdTree Bitset Refs Defrag DefragFacts DefragOps DefragProps Reorder ReorderFacts ReorderOps ReorderProps ReorderGap ReorderRun Rmsg Dqueue DqueueClaims Time Wire Protocol ProtocolProps Receive ReceiveFacts ReceiveOps ReceiveProps ReceiveGap ReceiveHandlers ReceiveConn Submsg SubmsgProps.

Section Run.
Context {T : Type -> Type} `{!OrdTree T, !OrdTreeLaws T}.
Context {H : Type} `{!RmsgRefs H, !RmsgRefsLaws H}.
Context `{FF : !FragFrom} (cfg : ddsi_config).
Implicit Types (wn : pwr_rd_match T) (p : proxy_writer T) (h : H) (st : rx T H) (out : list output).

(** The reader a submessage is addressed to. *)
Definition dst_of (rst : receiver_state) (readerId : Z) : nn_guid := NnGuid (rst_dst_guid_prefix rst) readerId.

(** The time, the state of the queue and the stack in a call. *)
Record call_env : Type := CallEnv {
  ce_dq_full : option nn_guid -> bool;
  ce_tnow : Z;
  ce_tnow_mt : Z;
  ce_bits : list Z;
}.

(** What a submessage that is for us does to this proxy writer, in message
    [m].  ACKNACK and NACKFRAG are for writers; participant announcements have no
    proxy writer but go to [handle_SPDP], fragments of them are refused. *)
Definition handle_action (env : call_env) st (m : rmsg_addr) (a : action) : option (rx T H) :=
  match a with
  | ActHeartbeat rst msg ts =>
      if negb (rst_forme rst) then Some st
      else handle_Heartbeat cfg st m (dst_of rst (hb_readerId msg)) msg ts (ce_tnow env) (ce_tnow_mt env)
  | ActGap rst msg =>
      if negb (rst_forme rst) then Some st else handle_Gap cfg st m (dst_of rst (gp_readerId msg)) msg
  | ActHeartbeatFrag rst msg =>
      if negb (rst_forme rst) then Some st else handle_HeartbeatFrag cfg st msg (ce_tnow_mt env) (ce_bits env)
  | ActDataFrag rst smoff size msg info datap =>
      if negb (rst_forme rst) || (dx_writerId (df_x msg) =? NN_ENTITYID_SPDP_BUILTIN_PARTICIPANT_WRITER) then Some st
      else handle_DataFrag cfg (ce_dq_full env) st m (dst_of rst (dx_readerId (df_x msg))) smoff size msg info datap
  | ActData rst smoff size msg info datap =>
      if negb (rst_forme rst) || (dx_writerId msg =? NN_ENTITYID_SPDP_BUILTIN_PARTICIPANT_WRITER) then Some st
      else handle_Data cfg (ce_dq_full env) st m (dst_of rst (dx_readerId msg)) smoff size info datap
  | ActAckNack _ _ _ | ActNackFrag _ _ => Some st
  end.

(** What the validation of a submessage leaves open: the number of a sample is
    positive and below 2^63 - 1, so that the next one is a number too; the
    fragments of a sample agree on the size [sizes] gives and are the sample's;
    the arithmetic on fragment numbers does not leave 32 bits, nor that on the
    numbers of a gap 64; and the missing fragments of a sample of which nothing
    was received fit the buffer of a HEARTBEATFRAG. *)
Definition sane (sizes : Z -> Z) p h (m : rmsg_addr) (a : action) : Prop :=
  match a with
  | ActDataFrag _ smoff size msg info datap =>
      fits32 msg /\ 0 < si_seq info < 2 ^ 63 - 1 /\ si_size info = sizes (si_seq info) /\
      frag_from (si_seq info) (frag_rdata m smoff msg datap)
  | ActData _ smoff size _ info datap =>
      0 < si_seq info < 2 ^ 63 - 1 /\ si_size info = sizes (si_seq info) /\
      frag_from (si_seq info) (data_rdata m smoff size info datap)
  | ActGap _ msg => gap_fits msg
  | ActHeartbeatFrag _ msg => nackmap_fits (Rx p h 0 []) msg
  | _ => True
  end.

Definition env_ok (env : call_env) : Prop := 0 <= ce_tnow_mt env < 2 ^ 63 /\ bits_ok 256 (ce_bits env).

(** The samples in the defragmenter have the size they should have. *)
Definition sized (sizes : Z -> Z) p : Prop :=
  forall s, s ∈ samples (pwr_defrag p) -> si_size (df_sampleinfo s) = sizes (df_seq s).

Lemma handled_refl ok st : pwr_ok cfg (rx_pwr st) -> rc_wf (rx_h st) -> handled cfg ok st st.
Proof. intros Hp Hw. eapply carries_handled. by apply carries_refl. Qed.

Lemma handle_action_spec env sizes plen p h m a :
  config_ok cfg -> pwr_ok cfg p -> rc_wf h -> sized sizes p -> uncommitted m (Rx p h 0 []) ->
  env_ok env -> action_ok plen a -> plen < 65536 -> sane sizes p h m a ->
  exists st', handle_action env (Rx p h 0 []) m a = Some st' /\
    handled cfg (fun s => si_size (df_sampleinfo s) = sizes (df_seq s)) (Rx p h 0 []) st'.
Proof.
  intros Hcf Hp Hw Hsz Hu [Ht Hb] Ha Hlen Hs. pose proof (cf_nack_delay _ Hcf) as Hnd. set (st := Rx p h 0 []) in *.
  assert (Hskip : exists st', Some st = Some st' /\ handled cfg (fun s => si_size (df_sampleinfo s) = sizes (df_seq s)) st st').
  { exists st. split; [done|]. by apply handled_refl. }
  assert (Hag : forall info, si_size info = sizes (si_seq info) -> size_agrees info st).
  { intros info Hi s Hin Hq. rewrite (Hsz s Hin), Hi. by rewrite Hq. }
  assert (Hof : forall info s, si_size info = sizes (si_seq info) -> of_sample info s -> si_size (df_sampleinfo (T := T) s) = sizes (df_seq s)).
  { intros info s Hi [Hq Hz]. by rewrite Hz, Hi, Hq. }
  destruct a as [| | | | |rst smoff size msg info datap|rst smoff size msg info datap]; simpl; try exact Hskip;
    (destruct (negb (rst_forme rst)); [exact Hskip|]).
  - destruct (handle_Heartbeat_spec cfg st m (dst_of rst (hb_readerId msg)) msg timestamp (ce_tnow env) (ce_tnow_mt env)) as (st' & E & Hd & _);
      auto; [lia..|]. exists st'. split; [done|]. by eapply handled_weaken.
  - destruct (handle_Gap_spec cfg st m (dst_of rst (gp_readerId msg)) msg) as (st' & E & Hd & _); auto.
    exists st'. split; [done|]. by eapply handled_weaken.
  - destruct (handle_HeartbeatFrag_spec cfg st msg (ce_tnow_mt env) (ce_bits env)) as (st' & E & Hd); auto.
    { intros mm. by eapply uncommitted_nonneg. }
    exists st'. split; [done|]. by eapply handled_weaken.
  - simpl orb. destruct (_ =? _); [exact Hskip|]. destruct Hs as (S1 & S2 & S3 & S4). destruct Ha as [Ha _].
    destruct (handle_DataFrag_spec cfg (ce_dq_full env) st m (dst_of rst (dx_readerId (df_x msg))) plen smoff size msg info datap)
      as (st' & E & Hd); auto. exists st'. split; [done|]. eapply handled_weaken; [exact Hd|]. eauto.
  - simpl orb. destruct (_ =? _); [exact Hskip|]. destruct Hs as (S2 & S3 & S4). destruct Ha as [Ha _].
    destruct (handle_Data_spec cfg (ce_dq_full env) st m (dst_of rst (dx_readerId msg)) plen smoff size info datap)
      as (st' & E & Hd); auto. exists st'. split; [done|]. eapply handled_weaken; [exact Hd|]. eauto.
Qed.

(** ** Runs *)

(** The states a proxy writer gets into from [p0], with what it has put out. *)
Inductive reaches (sizes : Z -> Z) (p0 : proxy_writer T) : proxy_writer T -> H -> list output -> Prop :=
| reaches_start h : rc_wf h -> (forall m, owed p0 m <= rc h m) -> reaches sizes p0 p0 h []
| reaches_others p h out h' :
    reaches sizes p0 p h out -> rc_wf h' -> (forall m, owed p m <= rc h' m) -> reaches sizes p0 p h' out
| reaches_action env plen p h out m a st' :
    reaches sizes p0 p h out -> uncommitted m (Rx p h 0 []) ->
    env_ok env -> action_ok plen a -> plen < 65536 -> sane sizes p h m a ->
    handle_action env (Rx p h 0 []) m a = Some st' -> reaches sizes p0 (rx_pwr st') (rx_h st') (out ++ rx_out st')
| reaches_match p h out rd tnow now count garbage p' :
    reaches sizes p0 p h out -> Z.of_nat (length (readers p)) < 2 ^ 16 - 1 -> 0 <= tnow < 2 ^ 63 ->
    proxy_writer_add_connection cfg p rd tnow now count garbage = Some p' -> reaches sizes p0 p' h out
| reaches_unmatch p h out rd wn st' :
    reaches sizes p0 p h out -> lookup_reader cfg (Rx p h 0 []) (rd_guid rd) = Some wn -> rd_reliable rd = is_reliable wn ->
    proxy_writer_drop_connection cfg (Rx p h 0 []) rd = Some st' -> reaches sizes p0 (rx_pwr st') (rx_h st') (out ++ rx_out st').

(** Since it was matched, what a reader alone got is in order. *)
Definition reader_ordered out wn : Prop :=
  exists o1 o2 n, out = o1 ++ o2 /\ fits n (rr_next_seq (wn_reorder wn)) (reader_chain (wn_rd_guid wn) o2).

(** What holds throughout. *)
Record run_inv (sizes : Z -> Z) (p0 p : proxy_writer T) h out : Prop := {
  rn_pwr : pwr_ok cfg p;
  rn_wf : rc_wf h;
  rn_owed : forall m, owed p m <= rc h m;
  rn_sized : sized sizes p;
  rn_out : Forall output_ok out;
  rn_order : fits (rr_next_seq (pwr_reorder p0)) (rr_next_seq (pwr_reorder p)) (primary out);
  rn_readers : Forall (reader_ordered out) (readers p);
}.

Lemma readers_step o out (l l' : list (pwr_rd_match T)) :
  Forall2 (reader_moves o) l l' ->
  Forall (reader_ordered out) l ->
  Forall (reader_ordered (out ++ o)) l'.
Proof.
  induction 1 as [|wn wn' l l' [G C R F S] HF IH]; intros Hl; [done|]. apply Forall_cons in Hl as [(o1 & o2 & n & E & Hf) Hl].
  constructor; [|by apply IH]. exists o1, (o2 ++ o), n. split; [by rewrite E, app_assoc|]. rewrite G, reader_chain_app. by eapply fits_app.
Qed.

(** A reader that is not named in [o]. *)
Lemma readers_quiet o out (l : list (pwr_rd_match T)) : (forall g, reader_chain g o = []) ->
  Forall (reader_ordered out) l ->
  Forall (reader_ordered (out ++ o)) l.
Proof.
  intros Ho Hl. eapply Forall_impl; [exact Hl|]. intros wn (o1 & o2 & n & -> & Hf). exists o1, (o2 ++ o), n. rewrite app_assoc. split; [done|].
  by rewrite reader_chain_app, Ho, app_nil_r.
Qed.

(** What dropping a connection leaves as it was. *)
Lemma drop_connection_same st rd st' : proxy_writer_drop_connection cfg st rd = Some st' ->
  pwr_defrag (rx_pwr st') = pwr_defrag (rx_pwr st) /\ pwr_reorder (rx_pwr st') = pwr_reorder (rx_pwr st) /\
  exists o, rx_out st' = rx_out st ++ o /\ (o = [] \/ o = [OutNotify (rd_guid rd)]).
Proof.
  assert (Hnil : exists o, rx_out st = rx_out st ++ o /\ (o = [] \/ o = [OutNotify (rd_guid rd)])) by (exists []; rewrite app_nil_r; auto).
  unfold proxy_writer_drop_connection. destruct (lookup_reader cfg st (rd_guid rd)) as [wn|];
    [|by destruct (rd_reliable rd); intros [= <-]].
  case_bool_decide; destruct (rd_reliable rd); cbv zeta; (destruct (free_pwr_rd_match _ wn); [|done]); intros [= <-]; simpl; eauto 6.
Qed.

Lemma add_connection_same p rd tnow now count garbage p' :
  proxy_writer_add_connection cfg p rd tnow now count garbage = Some p' -> pwr_defrag p' = pwr_defrag p /\ pwr_reorder p' = pwr_reorder p.
Proof.
  unfold proxy_writer_add_connection. destruct (ot_lookup _ _ _); [by intros [= <-]|].
  destruct (if negb (rd_handle_as_transient_local rd) then _ else _) as [[sync tl] oos].
  destruct (rd_reliable rd); [destruct (add_duration_to_mtime _ _); [|done]|]; by intros [= <-].
Qed.

Lemma run_spec sizes p0 p h out :
  config_ok cfg -> pwr_ok cfg p0 -> sized sizes p0 -> reaches sizes p0 p h out -> run_inv sizes p0 p h out.
Proof.
  intros Hcf Hp0 Hs0. induction 1 as [h Hw Ho|p h out h' _ IH Hw' Ho'|env plen p h out m a st' _ IH Hu He Ha Hl Hs E
    |p h out rd tnow now count garbage p' _ IH Hl Ht E|p h out rd wn st' _ IH El Hrel E].
  - split; auto; [simpl; lia|]. apply Forall_forall. intros wn _. exists [], [], (rr_next_seq (wn_reorder wn)). split; [done|]. simpl. lia.
  - destruct IH as [I1 I2 I3 I4 I5 I6 I7]. split; auto.
  - destruct IH as [I1 I2 I3 I4 I5 I6 I7].
    destruct (handle_action_spec env sizes plen p h m a) as (st2 & E2 & [D1 D2 D3 (o & O1 & O2 & O3 & O4) D5 D6 D7]); auto.
    rewrite E in E2. injection E2 as <-. simpl in O1. subst o. split; auto.
    + intros mm. specialize (D3 mm). simpl in D3. specialize (I3 mm). pose proof (handed_nonneg mm (rx_out st')). lia.
    + intros s Hin. destruct (D5 s Hin); auto.
    + by apply Forall_app.
    + rewrite primary_app. by eapply fits_app.
    + by eapply readers_step.
  - destruct IH as [I1 I2 I3 I4 I5 I6 I7].
    destruct (add_connection_spec cfg p rd tnow now count garbage Hcf I1 Hl Ht) as (p2 & E2 & Hok & Hown & Hrd).
    rewrite E in E2. injection E2 as <-.
    pose proof (add_connection_same _ _ _ _ _ _ _ E) as Esame.
    destruct Esame as [Ed Er]. split; auto; rewrite ?Ed, ?Er; auto.
    + intros mm. by rewrite Hown.
    + intros s. rewrite Ed. apply I4.
    + destruct Hrd as [[-> _]|(l1 & wn & l2 & E1 & E2 & _)]; [done|]. rewrite E2. rewrite E1 in I7. apply Forall_app in I7 as [F1 F2].
      apply Forall_app. split; [done|]. constructor; [|done]. exists out, [], (rr_next_seq (wn_reorder wn)). rewrite app_nil_r. split; [done|]. simpl. lia.
  - destruct IH as [I1 I2 I3 I4 I5 I6 I7].
    destruct (drop_connection_spec cfg (Rx p h 0 []) rd wn I1 I2 I3 El Hrel) as (st2 & E2 & Hok & Hw & Hrefs & l1 & l2 & E3 & E4).
    rewrite E in E2. injection E2 as <-. destruct (drop_connection_same _ _ _ E) as (Ed & Er & o & Eo & Ho). simpl in Ed, Er, Eo, E3. rewrite Eo.
    assert (Hq : (forall g, reader_chain g o = []) /\ primary o = [] /\ Forall output_ok o) by (destruct Ho as [->| ->]; by repeat constructor).
    destruct Hq as (Q1 & Q2 & Q3). split; auto; rewrite ?Er; auto.
    + intros mm. specialize (Hrefs mm). simpl in Hrefs. specialize (I3 mm). lia.
    + intros s. rewrite Ed. apply I4.
    + by apply Forall_app.
    + by rewrite primary_app, Q2, app_nil_r.
    + apply readers_quiet; [done|]. rewrite E4. rewrite E3 in I7. apply Forall_app in I7 as [F1 F2]. apply Forall_cons in F2 as [_ F2].
      by apply Forall_app.
Qed.
End Run.
