(* ===== verification/ReceiveClaims.v ===== *)
(** * The theorems about reception, with witnesses *)

From Stdlib Require Import ZArith Lia Sorting.Sorted.
From stdpp Require Import prelude gmap.
From S2P Require Import Prelude OrdTree Avl AvlProps Bitset Refs Defrag DefragFacts DefragOps DefragProps DefragClaims Reorder ReorderFacts ReorderOps ReorderProps ReorderGap ReorderRun ReorderClaims Rmsg Dqueue DqueueClaims Time Wire Protocol ProtocolProps ProtocolClaims Receive ReceiveFacts ReceiveOps ReceiveProps ReceiveGap ReceiveHandlers ReceiveConn Submsg SubmsgProps Deliver ReceiveRun.

(** ** Through the delivery queue *)

(** What the delivery thread has to do for the outputs of a proxy writer. *)
Fixpoint queue_hist (o : list output) : list event :=
  match o with
  | [] => []
  | OutEnqueue sc _ :: o' => deliver_all None sc ++ queue_hist o'
  | OutEnqueue1 g sc _ :: o' => deliver_all (Some g) sc ++ queue_hist o'
  | _ :: o' => queue_hist o'
  end.

(** The sequence numbers of the samples handled for [g]. *)
Fixpoint handled_seqs (g : option nn_guid) (l : list event) : list Z :=
  match l with
  | [] => []
  | EvHandler info _ g' :: l' => (if decide (g' = g) then [si_seq info] else []) ++ handled_seqs g l'
  | _ :: l' => handled_seqs g l'
  end.

(** The handler gets chains it can follow over the whole sample, of fragments
    that arrived for it. *)
Definition event_whole `{!FragFrom} (e : event) : Prop :=
  match e with
  | EvHandler info c _ => walk 0 c = Some (si_size info) /\ Forall (frag_from (si_seq info)) c
  | _ => True
  end.

Lemma handled_seqs_app g a b : handled_seqs g (a ++ b) = handled_seqs g a ++ handled_seqs g b.
Proof. induction a as [|[]]; simpl; rewrite ?IHa, ?app_assoc; done. Qed.

Lemma handled_deliver_all g g' sc : handled_seqs g (deliver_all g' sc) = if decide (g' = g) then elem_seqs sc else [].
Proof.
  unfold deliver_all. induction sc as [|e sc IH]; simpl; [by case_decide|]. rewrite handled_seqs_app, IH. unfold deliver.
  destruct (ce_sampleinfo e); simpl; by case_decide.
Qed.

Lemma queue_hist_primary o : sublist (handled_seqs None (queue_hist o)) (elem_seqs (primary o)).
Proof.
  induction o as [|[] o IH]; simpl; try done.
  - rewrite handled_seqs_app, handled_deliver_all, decide_True, elem_seqs_app by done. by apply sublist_app.
  - rewrite handled_seqs_app, handled_deliver_all, decide_False by done. done.
  - by apply sublist_cons.
Qed.

Lemma queue_hist_whole `{!FragFrom} o : Forall output_ok o -> Forall event_whole (queue_hist o).
Proof.
  assert (Hd : forall g sc, Forall whole sc -> Forall event_whole (deliver_all g sc)).
  { intros g sc. unfold deliver_all. induction sc as [|e sc IH]; intros Hw; simpl; [done|]. apply Forall_cons in Hw as [He Hw].
    apply Forall_app. split; [|by apply IH]. unfold deliver. destruct (ce_sampleinfo e) eqn:E; [constructor; [by apply He|]|]; by repeat constructor. }
  induction 1 as [|[] o Ho Hf IH]; simpl in *; auto; apply Forall_app; (split; [apply Hd; tauto|done]).
Qed.

Lemma sorted_sublist (a b : list Z) : sublist a b -> StronglySorted Z.lt b -> StronglySorted Z.lt a.
Proof.
  induction 1 as [|x a b Hs IH|x a b Hs IH]; intros Hb; auto; apply StronglySorted_inv in Hb as [Hb Hx]; [|auto].
  constructor; [auto|]. rewrite Forall_forall in Hx |- *. intros y Hy. apply Hx. by eapply elem_of_submseteq, sublist_submseteq.
Qed.

Section Claims.
Context {T : Type -> Type} `{!OrdTree T, !OrdTreeLaws T}.
Context {H : Type} `{!RmsgRefs H, !RmsgRefsLaws H}.
Context `{FF : !FragFrom} (cfg : ddsi_config).


(** C6: in every state a proxy writer can get into by such submessages, each
    call of a handler for a submessage that passes validation and is [sane]
    succeeds: nothing is read or written outside an object, no loop runs
    forever, and no assertion fails other than the two of the reorder
    administration that are compiled out here (on the element before the last in
    [delete_last_sample], on the length of a released range).  Not [sane], and
    excluded, are: samples numbered SEQUENCENUMBER_UNKNOWN or 2^63 - 1 (whose
    successor overflows), fragments of one sample that disagree on its size, a
    DATAFRAG whose fragment numbers overflow 32 bits, a GAP whose numbers overflow
    64, and a HEARTBEATFRAG that announces 256 or more fragments of a sample of
    which nothing was received or is about one within a fragment of 4 GB. *)
Theorem proxy_writer_accepts sizes (p0 p : proxy_writer T) (h : H) out env plen m a :
  config_ok cfg -> pwr_ok cfg p0 -> sized sizes p0 -> reaches cfg sizes p0 p h out ->
  uncommitted m (Rx p h 0 []) -> env_ok env -> action_ok plen a -> plen < 65536 -> sane sizes p h m a ->
  exists st', handle_action cfg env (Rx p h 0 []) m a = Some st'.
Proof.
  intros Hcf Hp Hs Hr Hu He Ha Hl Hsane. destruct (run_spec cfg sizes p0 p h out Hcf Hp Hs Hr) as [I1 I2 I3 I4 I5 I6 I7].
  destruct (handle_action_spec cfg env sizes plen p h m a) as (st' & E & _); eauto.
Qed.

(** C2: from the network to the reader: when a proxy writer got submessages
    that passed validation and are [sane] (no sample has the number 2^63 - 1, the
    fragments of a sample agree on its size, the numbers of a GAP stay within 64
    bits and those of fragments within 32, and what else C6 lists) and the delivery queue, which serves
    other proxy writers as well, got exactly the outputs of this one, then its
    thread has handed the samples to the readers in sync in strictly increasing
    order of their sequence numbers, so none of them twice. *)
Theorem delivered_in_order sizes (p0 p : proxy_writer T) (h : H) out max_samples q hist stopped mine :
  config_ok cfg -> pwr_ok cfg p0 -> sized sizes p0 -> reaches cfg sizes p0 p h out ->
  reach max_samples q hist stopped -> List.filter mine hist = queue_hist out ->
  StronglySorted Z.lt (handled_seqs None (List.filter mine (dq_log q))).
Proof.
  intros Hcf Hp Hs Hr Hq%reach_inv Hmine. destruct (run_spec cfg sizes p0 p h out Hcf Hp Hs Hr) as [I1 I2 I3 I4 I5 I6 I7].
  rewrite (di_hist _ _ _ _ Hq), List.filter_app in Hmine. destruct (fits_seqs _ _ _ I6) as [Hsort _].
  eapply sorted_sublist; [|exact Hsort]. etrans; [|apply queue_hist_primary]. rewrite <- Hmine, handled_seqs_app. apply sublist_inserts_r. done.
Qed.

(** What the delivery thread has handed over so far. *)
Lemma log_whole sizes (p0 p : proxy_writer T) (h : H) out max_samples q hist stopped mine :
  config_ok cfg -> pwr_ok cfg p0 -> sized sizes p0 -> reaches cfg sizes p0 p h out ->
  reach max_samples q hist stopped -> List.filter mine hist = queue_hist out -> Forall event_whole (List.filter mine (dq_log q)).
Proof.
  intros Hcf Hp Hs Hr Hq%reach_inv Hmine. pose proof (queue_hist_whole _ (rn_out _ _ _ _ _ _ (run_spec cfg sizes p0 p h out Hcf Hp Hs Hr))) as Hw.
  rewrite <- Hmine, (di_hist _ _ _ _ Hq), List.filter_app in Hw. by apply Forall_app in Hw as [Hw _].
Qed.

(** C20: deleting a proxy writer, whatever [sane] submessages and other events
    it went through, gives back exactly
    the references that its administrations still hold. *)
Theorem proxy_writer_no_leak sizes (p0 p : proxy_writer T) (h : H) out :
  config_ok cfg -> pwr_ok cfg p0 -> sized sizes p0 -> reaches cfg sizes p0 p h out ->
  exists h', gc_delete_proxy_writer cfg p h = Some h' /\ rc_wf h' /\ forall m, rc h' m = rc h m - owed p m.
Proof.
  intros Hcf Hp Hs Hr. destruct (run_spec cfg sizes p0 p h out Hcf Hp Hs Hr) as [I1 I2 I3 I4 I5 I6 I7]. by apply delete_spec.
Qed.

(** C27: a GAP that passed validation, and whose numbers (up to the end of its
    bitmap) are within 64 bits, makes the primary administration know of the
    sequence numbers in the message and no others; if it has a matched reader as
    destination and its range is not inverted, the fragments stored for these
    are dropped and, in the normal mode and as long as there is room for 257
    more, all of them are known afterwards. *)
Theorem handle_Gap_exact (st : rx T H) m dst msg :
  pwr_ok cfg (rx_pwr st) -> rc_wf (rx_h st) -> uncommitted m st -> rx_adjust st = 0 -> gap_ok msg -> gap_fits msg ->
  exists st', handle_Gap cfg st m dst msg = Some st' /\ handled cfg (fun _ => False) st st' /\
    (forall q, known (pwr_reorder (rx_pwr st')) q -> known (pwr_reorder (rx_pwr st)) q \/ in_gap msg q) /\
    (is_Some (lookup_reader cfg st dst) -> fromSN (gp_gapStart msg) <= fromSN (ss_bitmap_base (gp_gapList msg)) ->
      forall q, in_gap msg q ->
      (forall s, s ∈ samples (pwr_defrag (rx_pwr st')) -> df_seq s <> q) /\
      (rr_mode (pwr_reorder (rx_pwr st)) = NN_REORDER_MODE_NORMAL ->
       rr_n_samples (pwr_reorder (rx_pwr st)) + 257 <= rr_max_samples (pwr_reorder (rx_pwr st)) ->
       known (pwr_reorder (rx_pwr st')) q)).
Proof. apply handle_Gap_spec. Qed.


(** Matching a reader adds one match record, which is in sync unless the
    reader wants historical data, and keeps the invariant, in particular the
    counts of reliable readers and of readers out of sync. *)
Theorem add_connection_ok (p : proxy_writer T) rd tnow now init_count garbage :
  config_ok cfg -> pwr_ok cfg p -> Z.of_nat (length (readers p)) < 2 ^ 16 - 1 -> 0 <= tnow < 2 ^ 63 ->
  exists p', proxy_writer_add_connection cfg p rd tnow now init_count garbage = Some p' /\ pwr_ok cfg p' /\
    (forall m, owed p' m = owed p m) /\
    (readers p' = readers p /\ is_Some (ot_lookup (wn_key cfg) (pwr_readers p) (guid_key (platform_is_little_endian cfg) (rd_guid rd))) \/
     exists l1 wn l2, readers p = l1 ++ l2 /\ readers p' = l1 ++ wn :: l2 /\ wn_rd_guid wn = rd_guid rd /\
       is_reliable wn = rd_reliable rd /\ (rd_handle_as_transient_local rd = false -> wn_in_sync wn = PRMSS_SYNC)).
Proof. apply add_connection_spec. Qed.

(** Participant announcements are all passed on, in whatever order their
    sequence numbers come, unless the queue is full, and leave nothing behind. *)
Theorem handle_SPDP_ok (d : nn_defrag T) r (h : H) info rd (full : bool) :
  defrag_ok d -> reorder_ok r -> rr_mode r = NN_REORDER_MODE_ALWAYS_DELIVER -> rc_wf h ->
  RMSG_REFCOUNT_UNCOMMITTED_BIAS <= rc h (rd_rmsg rd) -> rc h (rd_rmsg rd) + RMSG_REFCOUNT_RDATA_BIAS < 2 ^ 32 ->
  rd_min rd = 0 -> rd_maxp1 rd = si_size info -> 0 <= si_size info -> 0 < si_seq info < 2 ^ 63 - 1 ->
  exists h', handle_SPDP cfg d r h info rd full =
      Some (d, if full then r else set_next_seq r (si_seq info + 1), h', if full then [] else [OutEnqueue [ChainElem [rd] (Some info)] 1]) /\
    rc_wf h' /\ forall m, rc h' m = rc h m + if full then 0 else refs_to m [rd].
Proof. apply handle_SPDP_spec. Qed.
End Claims.

(** ** The bytes of the samples *)

Section Bytes.
Context {T : Type -> Type} `{!OrdTree T, !OrdTreeLaws T}.
Context {H : Type} `{!RmsgRefs H, !RmsgRefsLaws H}.
Context (cfg : ddsi_config) (mem : rmsg_addr -> list Z) (content : Z -> Z -> Z).

(** Every fragment that arrives carries the bytes that the sample [content q]
    has in its range. *)
#[local] Instance sent_bytes : FragFrom := fun q rd => carried mem (content q) rd.

(** C1: when the payloads of the DATA and DATAFRAG submessages are those parts
    of the samples that the submessages say they are (and the submessages are
    [sane]: no sample has the number 2^63 - 1, and so on), then, in whatever order
    and pieces they arrive, each sample that the delivery thread hands over is,
    put together again by [defragment], the sample that was sent, byte by
    byte. *)
Theorem delivered_bytes sizes (p0 p : proxy_writer T) (h : H) out max_samples q hist stopped mine info c g garbage :
  config_ok cfg -> pwr_ok cfg p0 -> sized sizes p0 -> reaches cfg sizes p0 p h out ->
  reach max_samples q hist stopped -> List.filter mine hist = queue_hist out ->
  EvHandler info c g ∈ List.filter mine (dq_log q) -> 0 < si_size info -> Z.of_nat (length garbage) = si_size info ->
  exists d, defragment mem c (si_size info) garbage = Some d /\
    forall i, 0 <= i < si_size info -> data_byte mem d i = Some (content (si_seq info) i).
Proof.
  intros Hcf Hp Hs Hr Hq Hmine Hin Hpos Hlen.
  pose proof (log_whole cfg sizes p0 p h out max_samples q hist stopped mine Hcf Hp Hs Hr Hq Hmine) as Hw.
  rewrite Forall_forall in Hw. destruct (Hw _ Hin) as [Hwalk Hfrom]. apply defragment_spec; auto.
  intros ->. simpl in Hwalk. injection Hwalk as Hz. lia.
Qed.
End Bytes.

(** ** A concrete proxy writer *)

(** The message: 100 bytes 7. *)
Definition rmem (m : rmsg_addr) : list Z := replicate 100 7.
#[local] Instance rsent : FragFrom := sent_bytes rmem (fun _ _ => 7).

Definition rguid : nn_guid := NnGuid (1, 2, 3) 0x107.
Definition rreader : reader := Reader rguid true false.
Definition rgarbage : pwr_rd_match AvlTree :=
  PwrRdMatch rguid 0 0 0 0 0 0 0 None PRMSS_SYNC 0 0 (nn_reorder_new NN_REORDER_MODE_NORMAL 1).

Definition rnew : proxy_writer AvlTree :=
  ProxyWriter ot_init 0 0 0 (2 ^ 32 - 1) false false false true (dnew NN_DEFRAG_DROP_LATEST 16) (demo_new 300) false.
Definition rmatched : proxy_writer AvlTree := default rnew (proxy_writer_add_connection rcfg rnew rreader 0 0 0 rgarbage).

Definition rrst : receiver_state := ReceiverState 1 (9, 9, 9) (1, 2, 3) (1, 2) (2, 1) true.
Definition rinfo (q : Z) : rsample_info := RsampleInfo q 1 0 8 0 (0, 0) 0 0 0 false false.
Definition rdata_msg : Data_DataFrag_common := DataCommon 5 0 16 0x107 0x102 (SequenceNumber 0 1).
Definition rdata_act (q : Z) : action := ActData rrst 20 32 rdata_msg (rinfo q) (Some 24).
Definition renv : call_env := CallEnv (fun _ => false) 0 0 (replicate 8 0).

Lemma rcfg_ok : config_ok rcfg.
Proof. split; vm_compute; intuition discriminate. Qed.

Lemma rnew_made : new_proxy_writer rcfg true false true false = Some rnew.
Proof. vm_compute. reflexivity. Qed.

Lemma rnew_ok : pwr_ok rcfg rnew /\ (forall m, owed rnew m = 0).
Proof.
  destruct (new_proxy_writer_spec (T := AvlTree) rcfg true false true false rcfg_ok) as (p & E & Hok & _ & Ho).
  rewrite rnew_made in E. injection E as <-. auto.
Qed.

Lemma rmatched_made : proxy_writer_add_connection rcfg rnew rreader 0 0 0 rgarbage = Some rmatched.
Proof. vm_compute. reflexivity. Qed.

Lemma rmatched_ok : pwr_ok rcfg rmatched /\ (forall m, owed rmatched m = 0).
Proof.
  destruct (add_connection_spec rcfg rnew rreader 0 0 0 rgarbage rcfg_ok) as (p & E & Hok & Ho & _); [apply rnew_ok|vm_compute; reflexivity|lia|].
  rewrite rmatched_made in E. injection E as <-. split; [done|]. intros m. rewrite Ho. apply rnew_ok.
Qed.

Lemma rbalance m : balance [] (Rx rmatched dheap 0 []) m = rc dheap m.
Proof. unfold balance. simpl. rewrite (proj2 rmatched_ok). lia. Qed.

Lemma runcommitted : uncommitted dmsg (Rx rmatched dheap 0 []).
Proof.
  split; [|rewrite dheap_rc, decide_True by done; vm_compute; reflexivity].
  intros m. rewrite rbalance, dheap_rc. by case_decide.
Qed.

Lemma rdata_act_ok q : 0 < q -> action_ok 52 (rdata_act q).
Proof. intros Hq. split; [|done]. split; [split; [lia|done]|lia|by left|]. split; [lia|]. split; [lia|]. by split. Qed.

Lemma renv_ok : env_ok renv.
Proof. split; [simpl; lia|]. split; [lia|]. split; [by repeat constructor|simpl; lia]. Qed.

Lemma rdata_sane (p : proxy_writer AvlTree) (h : RefCounts) q : 0 < q < 100 -> sane (fun _ => 8) p h dmsg (rdata_act q).
Proof.
  intros Hq. split; [simpl; lia|]. split; [done|]. split; [simpl; lia|]. split; [simpl; lia|]. simpl. intros i Hi. rewrite get1_lookup by lia.
  unfold rmem. rewrite lookup_replicate_2; [done|]. lia.
Qed.

Lemma rsized : sized (fun _ => 8) rnew /\ sized (fun _ => 8) rmatched.
Proof. split; intros s Hs; vm_compute in Hs; by apply elem_of_nil in Hs. Qed.

Lemma rreach_matched : reaches rcfg (fun _ => 8) rnew rmatched dheap [].
Proof.
  eapply reaches_match; [apply reaches_start|vm_compute; reflexivity| |apply rmatched_made].
  - apply dheap_wf.
  - intros m. rewrite (proj2 rnew_ok). apply (rc_range dheap m dheap_wf).
  - lia.
Qed.

(** The state after sample 1. *)
Definition rdone : rx AvlTree RefCounts :=
  default (Rx rnew dheap 0 []) (handle_action rcfg renv (Rx rmatched dheap 0 []) dmsg (rdata_act 1)).

Lemma rdone_made : handle_action rcfg renv (Rx rmatched dheap 0 []) dmsg (rdata_act 1) = Some rdone.
Proof. vm_compute. reflexivity. Qed.

Lemma rreach_done : reaches rcfg (fun _ => 8) rnew (rx_pwr rdone) (rx_h rdone) ([] ++ rx_out rdone).
Proof.
  eapply (reaches_action rcfg _ _ renv 52 _ _ _ dmsg (rdata_act 1)); [apply rreach_matched|apply runcommitted|apply renv_ok|by apply rdata_act_ok|lia|by apply rdata_sane|].
  apply rdone_made.
Qed.


Lemma proxy_writer_accepts_witness :
  exists st', handle_action rcfg renv (Rx rmatched dheap 0 []) dmsg (rdata_act 3) = Some st'.
Proof.
  apply (proxy_writer_accepts rcfg (fun _ => 8) rnew rmatched dheap [] renv 52 dmsg (rdata_act 3) rcfg_ok (proj1 rnew_ok) (proj1 rsized) rreach_matched
    runcommitted renv_ok); [by apply rdata_act_ok|lia|by apply rdata_sane].
Defined.

(** The queue that got the sample. *)
Definition rchain : list rsample_chain_elem :=
  match rx_out rdone with [_; OutEnqueue sc _; _] => sc | _ => [] end.
Definition rqueue : nn_dqueue :=
  default (nn_dqueue_new 10) (nn_dqueue_enqueue (nn_dqueue_new 10) rchain (Z.of_nat (length rchain))).

Lemma rqueue_reach : reach 10 rqueue ([] ++ deliver_all None rchain) false.
Proof. apply (reach_enqueue 10 (nn_dqueue_new 10) [] rchain rqueue (reach_new 10)). vm_compute. reflexivity. Qed.

Lemma rqueue_mine : List.filter (fun _ => true) ([] ++ deliver_all None rchain) = queue_hist ([] ++ rx_out rdone).
Proof. vm_compute. reflexivity. Qed.

Lemma delivered_in_order_witness :
  rchain <> [] /\ StronglySorted Z.lt (handled_seqs None (List.filter (fun _ => true) (dq_log rqueue))).
Proof.
  split; [vm_compute; discriminate|].
  apply (delivered_in_order rcfg (fun _ => 8) rnew (rx_pwr rdone) (rx_h rdone) ([] ++ rx_out rdone) 10 rqueue
    ([] ++ deliver_all None rchain) false (fun _ => true) rcfg_ok (proj1 rnew_ok) (proj1 rsized) rreach_done rqueue_reach rqueue_mine).
Defined.

(** The queue after its thread has run. *)
Definition rqueue_done : nn_dqueue := default rqueue (thread_run 4 rqueue).

Lemma rqueue_done_reach : reach 10 rqueue_done ([] ++ deliver_all None rchain) false.
Proof.
  eapply (thread_run_reach 10 4 rqueue); [apply rqueue_reach|]. vm_compute. reflexivity.
Qed.

Lemma delivered_bytes_witness :
  exists d, defragment rmem [data_rdata dmsg 20 32 (rinfo 1) (Some 24)] 8 (replicate 8 0) = Some d /\
    forall i, 0 <= i < 8 -> data_byte rmem d i = Some 7.
Proof.
  apply (delivered_bytes rcfg rmem (fun _ _ => 7) (fun _ => 8) rnew (rx_pwr rdone) (rx_h rdone) ([] ++ rx_out rdone) 10 rqueue_done
    ([] ++ deliver_all None rchain) false (fun _ => true) (rinfo 1) [data_rdata dmsg 20 32 (rinfo 1) (Some 24)] None (replicate 8 0)
    rcfg_ok (proj1 rnew_ok) (proj1 rsized) rreach_done rqueue_done_reach rqueue_mine); [|reflexivity|reflexivity].
  vm_compute. left.
Defined.

Lemma proxy_writer_no_leak_witness :
  exists h', gc_delete_proxy_writer rcfg (rx_pwr rdone) (rx_h rdone) = Some h' /\ forall m, rc h' m = rc (rx_h rdone) m - owed (rx_pwr rdone) m.
Proof.
  destruct (proxy_writer_no_leak rcfg (fun _ => 8) rnew (rx_pwr rdone) (rx_h rdone) ([] ++ rx_out rdone) rcfg_ok (proj1 rnew_ok) (proj1 rsized) rreach_done)
    as (h' & E & _ & Hr). exists h'. split; [exact E|exact Hr].
Defined.

(** A GAP of the sequence numbers 1, 2 and 4, and a HEARTBEAT from 3 on. *)
Definition rgap : Gap :=
  MkGap 0x107 0x102 (SequenceNumber 0 1) (SequenceNumberSet (SequenceNumber 0 3) 2 [0x40000000]).

Lemma rgap_ok : gap_ok rgap.
Proof.
  split; [by split; split; vm_compute|by split; split; split; vm_compute|by vm_compute| |by vm_compute].
  split; [by vm_compute|by vm_compute|]. split; [by vm_compute|]. split; [|by vm_compute]. by repeat constructor; vm_compute.
Qed.

Lemma handle_Gap_exact_witness :
  exists st', handle_Gap rcfg (Rx rmatched dheap 0 []) dmsg rguid rgap = Some st' /\ known (pwr_reorder (rx_pwr st')) 4 /\
    ~ known (pwr_reorder (rx_pwr st')) 3.
Proof.
  destruct (handle_Gap_exact rcfg (Rx rmatched dheap 0 []) dmsg rguid rgap (proj1 rmatched_ok) dheap_wf runcommitted eq_refl rgap_ok (conj eq_refl eq_refl))
    as (st' & E & _ & Hs & Hc). exists st'. split; [exact E|]. split.
  - apply Hc; [by vm_compute; eexists|by vm_compute| |reflexivity|by vm_compute].
    by right; vm_compute.
  - intros [K|K]%Hs.
    + vm_compute in K. destruct K as [K|K]; [done|]. by destruct K as (? & K%elem_of_nil & _).
    + by vm_compute in K; destruct K as [[_ K]|[_ K]].
Defined.

