(* ===== verification/ReceiveFindings.v ===== *)
(** * Where reception does not do what it means to

    Each theorem runs the code on a concrete packet or message: a check of
    [valid_DataFrag] that overflows, fragments that disagree about the size of
    their sample, a bitmap that is too short by a word, sequence numbers that
    overflow, a reader that is said to
    have all historical data when it has none, and a length on a stream that is
    not checked. *)

From Stdlib Require Import ZArith Lia.
From stdpp Require Import prelude gmap.
From S2P Require Import Prelude OrdTree Avl AvlProps Bitset Refs Defrag DefragFacts DefragClaims Reorder ReorderClaims Rmsg Dqueue Time Wire Protocol ProtocolRound ProtocolClaims Receive Submsg Deliver ReceiveRun ReceiveClaims.

(** ** DATAFRAG *)

(** A little-endian DATAFRAG with a payload of [len] bytes 7. *)
Definition datafrag_bytes (sn : list Z) (start n fragsize samplesize len : Z) : list Z :=
  encode_header true SMID_DATA_FRAG 1 (32 + len) ++ [0; 0; 28; 0] ++ encode_entityid 0x107 ++ encode_entityid 0x102 ++
  sn ++ bytes4 true start ++ bytes2 true n ++ bytes2 true fragsize ++ bytes4 true samplesize ++ replicate (Z.to_nat len) 7.

(** [valid_DataFrag] and then [handle_DataFrag], as [handle_submsg_sequence]
    calls them. *)
Definition receive_datafrag (st : rx AvlTree RefCounts) (b : list Z) : option (validity (rx AvlTree RefCounts)) :=
  let size := Z.of_nat (length b) in
  r ← valid_DataFrag rcfg (fun _ => 0) rrst b 20 size false (rinfo 0);
  match r with
  | Malformed => Some Malformed
  | Valid (msg, info, datap) => st ← handle_DataFrag rcfg (fun _ => false) st dmsg rguid 20 size msg info datap; Some (Valid st)
  end.

Definition rstart : rx AvlTree RefCounts := Rx rmatched dheap 0 [].
Definition sn1 : list Z := encodeSN true (SequenceNumber 0 1).

Definition is_valid {A : Type} (v : option (validity A)) : bool := match v with Some (Valid _) => true | _ => false end.

(** The check of the fragment numbers of a DATAFRAG is done in 32 bits:
    one with fragments 4194304 and 4194305 of a sample of 4 kB passes it, and
    then fails an assertion of the defragmenter. *)
Theorem datafrag_overflow :
  let b := datafrag_bytes sn1 (2 ^ 22) 2 1024 4096 2048 in
  is_valid (valid_DataFrag rcfg (fun _ => 0) rrst b 20 (Z.of_nat (length b)) false (rinfo 0)) = true /\
  receive_datafrag rstart b = None.
Proof. vm_compute. done. Qed.

(** A DATAFRAG with the sequence number SEQUENCENUMBER_UNKNOWN passes
    validation and fails an assertion of the defragmenter. *)
Theorem datafrag_unknown_seq :
  let b := datafrag_bytes (encodeSN true (SequenceNumber (-1) 0)) 2 1 1024 2048 1024 in
  is_valid (valid_DataFrag rcfg (fun _ => 0) rrst b 20 (Z.of_nat (length b)) false (rinfo 0)) = true /\
  receive_datafrag rstart b = None.
Proof. vm_compute. done. Qed.

(** ** Fragments that disagree about their sample *)

(** The first fragment of a sample of 2 kB, which starts with the header of
    CDR, and then the second and third of a sample of 4 kB with the same sequence
    number. *)
Definition first_bytes : list Z :=
  take 36 (datafrag_bytes sn1 1 1 1024 2048 1024) ++ [0; 1; 0; 0] ++ replicate 1020 7.
Definition second_bytes : list Z := datafrag_bytes sn1 2 2 1024 4096 2048.
Definition both_received : rx AvlTree RefCounts :=
  match receive_datafrag rstart first_bytes with
  | Some (Valid st) => match receive_datafrag st second_bytes with Some (Valid st') => st' | _ => st end
  | _ => rstart
  end.

(** Nothing compares the sample sizes of the fragments of a sample: two
    DATAFRAG submessages make the proxy writer deliver a sample of 2048 bytes with
    a fragment that ends at byte 3072, so that [defragment] fails its assertion,
    without which it would write 1024 bytes past its buffer. *)
Theorem datafrag_sizes_differ :
  exists info c, rx_out both_received = [OutRenewLease; OutWaitIfFull; OutRenewLease; OutEnqueue [ChainElem c (Some info)] 1; OutWaitIfFull] /\
    si_size info = 2048 /\ map rd_maxp1 c = [1024; 3072] /\
    defragment (fun _ => replicate 4096 7) c (si_size info) (replicate 2048 0) = None.
Proof. eexists _, _. split; [vm_compute; reflexivity|]. by vm_compute. Qed.

(** ** A bitmap of 256 bits *)

(** A HEARTBEATFRAG about [n] fragments of sample 1. *)
Definition heartbeatfrag (n : Z) : HeartbeatFrag := MkHeartbeatFrag 0x107 0x102 (SequenceNumber 0 1) n 1.

(** For a sample it knows nothing of, a HEARTBEATFRAG with 256 fragments
    or more makes [handle_HeartbeatFrag] write past the 8 words of the bitmap on
    its stack; with 255 it does not. *)
Theorem heartbeatfrag_overruns :
  is_Some (handle_HeartbeatFrag rcfg rstart (heartbeatfrag 255) 0 (replicate 8 0)) /\
  handle_HeartbeatFrag rcfg rstart (heartbeatfrag 256) 0 (replicate 8 0) = None /\
  handle_HeartbeatFrag rcfg rstart (heartbeatfrag 1000) 0 (replicate 8 0) = None.
Proof. split; [by vm_compute; eexists|]. by vm_compute. Qed.

(** ** The last sequence number *)

(** The successor of the sequence number 2^63 - 1, which a DATA may have,
    overflows: an assertion of the reorder administration fails. *)
Theorem data_number_overflows :
  handle_action rcfg renv rstart dmsg (rdata_act (2 ^ 63 - 1)) = None /\
  is_Some (handle_action rcfg renv rstart dmsg (rdata_act (2 ^ 63 - 2))).
Proof. split; [by vm_compute|]. vm_compute. eexists. reflexivity. Qed.

(** A GAP of all numbers up to 2^63 - 1, and an empty one that starts at the
    least number: they pass validation, but the end of the first range is the
    least number, so that nothing becomes known, and the number before the start
    of the other is the greatest, which is then the last that exists. *)
Definition gap_to (start base numbits : Z) (bits : list Z) : Gap :=
  MkGap 0x107 0x102 (toSN start) (SequenceNumberSet (toSN base) numbits bits).

Theorem gap_numbers_overflow :
  let g := gap_to 1 (2 ^ 63 - 1) 1 [2 ^ 31] in
  let g' := gap_to 1 (- 2 ^ 63) 0 [] in
  valid_Gap rcfg (encode_Gap true 0 40 g) 36 false = Some (Valid g) /\
  valid_Gap rcfg (encode_Gap true 0 36 g') 32 false = Some (Valid g') /\
  exists st st', handle_Gap rcfg rstart dmsg rguid g = Some st /\ nn_reorder_wantsample (pwr_reorder (rx_pwr st)) 1 = true /\
    handle_Gap rcfg rstart dmsg rguid g' = Some st' /\ pwr_last_seq (rx_pwr st') = 2 ^ 63 - 1.
Proof.
  split; [by vm_compute|]. split; [by vm_compute|]. eexists _, _. split; [vm_compute; reflexivity|]. split; [by vm_compute|].
  split; [vm_compute; reflexivity|]. by vm_compute.
Qed.

(** ** Historical data *)

(** A reader that wants historical data; the writer has the samples 1 to 9, of
    which it says that 3 to 9 are not relevant. *)
Definition tl_matched : proxy_writer AvlTree :=
  default rnew (proxy_writer_add_connection rcfg rnew (Reader rguid true true) 0 0 0 rgarbage).
Definition tl_heartbeat : Heartbeat := MkHeartbeat 1 0x107 0x102 (SequenceNumber 0 1) (SequenceNumber 0 9) 1.
Definition tl_gap : Gap := MkGap 0x107 0x102 (SequenceNumber 0 3) (SequenceNumberSet (SequenceNumber 0 10) 0 []).

(** A GAP that ends at the last historical sample makes a reader that catches
    up be in sync and is reported as the end of the historical data, although the
    samples before it have not been received. *)
Theorem gap_ends_catchup :
  exists st1 st2,
    handle_Heartbeat rcfg (Rx tl_matched dheap 0 []) dmsg rguid tl_heartbeat invalid_ddsi_timestamp 0 0 = Some st1 /\
    map wn_in_sync (ot_elements (pwr_readers (rx_pwr st1))) = [PRMSS_TLCATCHUP] /\
    handle_Gap rcfg st1 dmsg rguid tl_gap = Some st2 /\
    map wn_in_sync (ot_elements (pwr_readers (rx_pwr st2))) = [PRMSS_SYNC] /\
    OutNotify rguid ∈ rx_out st2 /\ rr_next_seq (pwr_reorder (rx_pwr st2)) = 1.
Proof.
  eexists _, _. split; [vm_compute; reflexivity|]. split; [vm_compute; reflexivity|]. split; [vm_compute; reflexivity|].
  split; [vm_compute; reflexivity|]. split; [vm_compute; repeat constructor|vm_compute; reflexivity].
Qed.

(** ** Streams *)

(** A header and a MSG_LEN submessage with the given length. *)
Definition stream_start (len : Z) : list Z :=
  [82; 84; 80; 83; 2; 1; 1; 2] ++ replicate 12 9 ++ encode_header true SMID_PT_MSG_LEN 1 4 ++ bytes4 true len.

(** The length that a peer announces on a stream is not checked: 64 MB are read
    into the buffer as willingly as 64 kB, and a length less than that of the
    header becomes an enormous one. *)
Theorem stream_length_unchecked :
  stream_rest rcfg (stream_start (2 ^ 16)) = Some (28, 2 ^ 16 - 28) /\
  stream_rest rcfg (stream_start (2 ^ 26)) = Some (28, 2 ^ 26 - 28) /\
  stream_rest rcfg (stream_start 27) = Some (28, 2 ^ 64 - 1).
Proof. by vm_compute. Qed.
