(* ===== verification/Whc.v ===== *)
(** * The writer history cache: [q_whc.c]

    A writer keeps the samples it has written until all reliable readers have
    acknowledged them, and the latest samples of each instance for readers that
    join late.  The cache has all its samples in a hash table and a doubly linked
    list ordered on sequence numbers, a tree of intervals of consecutive sequence
    numbers, of which the last is the open one, and, unless it keeps all
    samples, per instance a ring of pointers to the latest ones.

    A sample is in the cache at most once, so the pointer to a [struct whc_node]
    is its sequence number, which is dereferenced in the hash table; that of an
    interval is its [min], that of a ring the key of its instance.  A pointer to
    a node that was freed leads nowhere, and following it is a failure, as is an
    assertion ([None]).  The hash tables ([ut_hopscotch.c]) are finite maps.  The
    free list is not observable.  Of a [serdata] the model has what the cache
    looks at: the key of the instance, the size, and whether it is empty or
    unregisters the instance.

    [ndebug] tells whether assertions about [maxseq_node] in
    [find_nextseq_intv] are compiled out: see [WhcClaims]. *)

From Stdlib Require Import ZArith Lia.
From stdpp Require Import prelude gmap.
From S2P Require Import Prelude OrdTree Receive.

Record serdata : Type := Serdata {
  sd_key : Z;
  sd_size : Z;                        (* ddsi_serdata_size *)
  sd_is_empty : bool;                 (* ddsi_serdata_is_empty *)
  sd_unregister : bool;               (* statusinfo & NN_STATUSINFO_UNREGISTER *)
}.

Record whc_node : Type := WhcNode {
  nd_next_seq : option Z;
  nd_prev_seq : option Z;
  nd_idxnode : option Z;
  nd_idxnode_pos : nat;
  nd_seq : Z;
  nd_unacked : bool;
  nd_last_rexmit_ts : Z;
  nd_rexmit_count : Z;
  nd_serdata : serdata;
}.

Record whc_intvnode : Type := WhcIntvnode {
  vn_min : Z;
  vn_maxp1 : Z;
  vn_first : option Z;
  vn_last : option Z;                 (* valid iff first != NULL *)
}.

Record whc_idxnode : Type := WhcIdxnode {
  ix_prune_seq : Z;
  ix_headidx : nat;
  ix_hist : list (option Z);
}.

Definition nd_set_next (nd : whc_node) (n : option Z) : whc_node :=
  WhcNode n (nd_prev_seq nd) (nd_idxnode nd) (nd_idxnode_pos nd) (nd_seq nd) (nd_unacked nd) (nd_last_rexmit_ts nd)
    (nd_rexmit_count nd) (nd_serdata nd).
Definition nd_set_prev (nd : whc_node) (p : option Z) : whc_node :=
  WhcNode (nd_next_seq nd) p (nd_idxnode nd) (nd_idxnode_pos nd) (nd_seq nd) (nd_unacked nd) (nd_last_rexmit_ts nd)
    (nd_rexmit_count nd) (nd_serdata nd).
Definition nd_set_idx (nd : whc_node) (k : option Z) (pos : nat) : whc_node :=
  WhcNode (nd_next_seq nd) (nd_prev_seq nd) k pos (nd_seq nd) (nd_unacked nd) (nd_last_rexmit_ts nd)
    (nd_rexmit_count nd) (nd_serdata nd).
Definition nd_set_acked (nd : whc_node) : whc_node :=
  WhcNode (nd_next_seq nd) (nd_prev_seq nd) (nd_idxnode nd) (nd_idxnode_pos nd) (nd_seq nd) false (nd_last_rexmit_ts nd)
    (nd_rexmit_count nd) (nd_serdata nd).

Section Whc.
Context {T : Type -> Type} `{!OrdTree T}.
Context (ndebug : bool) (fragment_size : Z).

Record whc : Type := MkWhc {
  wh_seq_size : Z;
  wh_unacked_bytes : Z;
  wh_sample_overhead : Z;
  wh_is_transient_local : bool;
  wh_hdepth : nat;
  wh_tldepth : nat;
  wh_idxdepth : nat;
  wh_max_drop_seq : Z;
  wh_open_intv : Z;
  wh_maxseq_node : option Z;
  wh_seq_hash : gmap Z whc_node;
  wh_idx_hash : option (gmap Z whc_idxnode);
  wh_seq : T whc_intvnode;
}.
Implicit Types (w : whc) (nd : whc_node).

Definition set_size w (n : Z) : whc :=
  MkWhc n (wh_unacked_bytes w) (wh_sample_overhead w) (wh_is_transient_local w) (wh_hdepth w) (wh_tldepth w) (wh_idxdepth w)
    (wh_max_drop_seq w) (wh_open_intv w) (wh_maxseq_node w) (wh_seq_hash w) (wh_idx_hash w) (wh_seq w).
Definition set_unacked w (n : Z) : whc :=
  MkWhc (wh_seq_size w) n (wh_sample_overhead w) (wh_is_transient_local w) (wh_hdepth w) (wh_tldepth w) (wh_idxdepth w)
    (wh_max_drop_seq w) (wh_open_intv w) (wh_maxseq_node w) (wh_seq_hash w) (wh_idx_hash w) (wh_seq w).
Definition set_depths w (tldepth idxdepth : nat) : whc :=
  MkWhc (wh_seq_size w) (wh_unacked_bytes w) (wh_sample_overhead w) (wh_is_transient_local w) (wh_hdepth w) tldepth idxdepth
    (wh_max_drop_seq w) (wh_open_intv w) (wh_maxseq_node w) (wh_seq_hash w) (wh_idx_hash w) (wh_seq w).
Definition set_max_drop w (q : Z) : whc :=
  MkWhc (wh_seq_size w) (wh_unacked_bytes w) (wh_sample_overhead w) (wh_is_transient_local w) (wh_hdepth w) (wh_tldepth w)
    (wh_idxdepth w) q (wh_open_intv w) (wh_maxseq_node w) (wh_seq_hash w) (wh_idx_hash w) (wh_seq w).
Definition set_maxseq w (n : option Z) : whc :=
  MkWhc (wh_seq_size w) (wh_unacked_bytes w) (wh_sample_overhead w) (wh_is_transient_local w) (wh_hdepth w) (wh_tldepth w)
    (wh_idxdepth w) (wh_max_drop_seq w) (wh_open_intv w) n (wh_seq_hash w) (wh_idx_hash w) (wh_seq w).
Definition set_hash w (h : gmap Z whc_node) : whc :=
  MkWhc (wh_seq_size w) (wh_unacked_bytes w) (wh_sample_overhead w) (wh_is_transient_local w) (wh_hdepth w) (wh_tldepth w)
    (wh_idxdepth w) (wh_max_drop_seq w) (wh_open_intv w) (wh_maxseq_node w) h (wh_idx_hash w) (wh_seq w).
Definition set_idx w (x : option (gmap Z whc_idxnode)) : whc :=
  MkWhc (wh_seq_size w) (wh_unacked_bytes w) (wh_sample_overhead w) (wh_is_transient_local w) (wh_hdepth w) (wh_tldepth w)
    (wh_idxdepth w) (wh_max_drop_seq w) (wh_open_intv w) (wh_maxseq_node w) (wh_seq_hash w) x (wh_seq w).
Definition set_seq w (t : T whc_intvnode) (open_intv : Z) : whc :=
  MkWhc (wh_seq_size w) (wh_unacked_bytes w) (wh_sample_overhead w) (wh_is_transient_local w) (wh_hdepth w) (wh_tldepth w)
    (wh_idxdepth w) (wh_max_drop_seq w) open_intv (wh_maxseq_node w) (wh_seq_hash w) (wh_idx_hash w) t.

(** Writing a field of a node, and of a ring. *)
Definition upd_node w (q : Z) (f : whc_node -> whc_node) : option whc :=
  nd ← wh_seq_hash w !! q; Some (set_hash w (<[q := f nd]> (wh_seq_hash w))).
Definition upd_node_opt w (q : option Z) (f : whc_node -> whc_node) : option whc :=
  match q with Some q => upd_node w q f | None => Some w end.
Definition upd_idxnode w (k : Z) (x : whc_idxnode) : option whc :=
  idx ← wh_idx_hash w; Some (set_idx w (Some (<[k := x]> idx))).
Definition lookup_idxnode w (k : Z) : option whc_idxnode := wh_idx_hash w ≫= lookup k.

Definition lookup_intv w (k : Z) : option whc_intvnode := ot_lookup vn_min (wh_seq w) k.

(** ** Looking things up *)

Definition whc_findseq w (seq : Z) : option whc_node := wh_seq_hash w !! seq.

Definition whc_findmax_procedurally w : option (option Z) :=
  if wh_seq_size w =? 0 then Some None
  else
    open ← lookup_intv w (wh_open_intv w);
    match vn_first open with
    | Some _ => Some (vn_last open)
    | None =>
        intv ← ot_find_pred vn_min (wh_seq w) (wh_open_intv w);
        match vn_first intv with Some _ => Some (vn_last intv) | None => None end
    end.

(** Whether all assertions of [check_whc] hold. *)
Definition check_whc w : bool :=
  match lookup_intv w (wh_open_intv w) with
  | None => false
  | Some open =>
      bool_decide (option_map vn_min (ot_find_max (wh_seq w)) = Some (wh_open_intv w)) &&
      bool_decide (option_map vn_min (ot_find_succ vn_min (wh_seq w) (wh_open_intv w)) = None) &&
      match wh_maxseq_node w with
      | Some q => match whc_findseq w q with Some nd => bool_decide (nd_next_seq nd = None) | None => false end
      | None => true
      end &&
      match vn_first open with
      | Some _ =>
          bool_decide (is_Some (vn_last open)) && bool_decide (wh_maxseq_node w = vn_last open) && (vn_min open <? vn_maxp1 open) &&
          match wh_maxseq_node w ≫= whc_findseq w with Some nd => nd_seq nd + 1 =? vn_maxp1 open | None => false end
      | None => vn_min open =? vn_maxp1 open
      end &&
      bool_decide (whc_findmax_procedurally w = Some (wh_maxseq_node w))
  end.

Definition whc_empty w : bool := wh_seq_size w =? 0.

Definition whc_min_seq w : option Z :=
  if negb (check_whc w) || whc_empty w then None
  else intv ← ot_find_min (wh_seq w); if vn_maxp1 intv >? vn_min intv then Some (vn_min intv) else None.

Definition whc_findmax w : option (option Z) := if check_whc w then Some (wh_maxseq_node w) else None.

Definition whc_max_seq w : option Z :=
  if negb (check_whc w) || whc_empty w then None else nd ← wh_maxseq_node w ≫= whc_findseq w; Some (nd_seq nd).

(** The first node after [seq] and its interval, if any. *)
Definition find_nextseq_intv w (seq : Z) : option (option (Z * Z)) :=
  let predintv := ot_lookup_predeq vn_min (wh_seq w) seq in
  match whc_findseq w seq with
  | None =>
      if match predintv with Some p => negb (vn_maxp1 p <=? seq) | None => false end then None
      else
        match ot_lookup_succeq vn_min (wh_seq w) seq with
        | None => if bool_decide (option_map vn_min predintv = Some (wh_open_intv w)) then Some None else None
        | Some intv =>
            if vn_min intv <? vn_maxp1 intv then
              if vn_min intv >? seq then first ← vn_first intv; Some (Some (first, vn_min intv)) else None
            else if vn_min intv =? wh_open_intv w then Some None else None
        end
  | Some n =>
      match nd_next_seq n with
      | None => if ndebug || bool_decide (Some seq = wh_maxseq_node w) then Some None else None
      | Some next =>
          if ndebug || match wh_maxseq_node w ≫= whc_findseq w with Some mx => nd_seq n <? nd_seq mx | None => false end then
            n ← whc_findseq w next;
            intv ← ot_lookup_predeq vn_min (wh_seq w) (nd_seq n);
            Some (Some (next, vn_min intv))
          else None
      end
  end.

Definition whc_next_seq w (seq : Z) : option Z :=
  if negb (check_whc w) then None
  else
    r ← find_nextseq_intv w seq;
    match r with
    | None => Some MAX_SEQ_NUMBER
    | Some (q, _) => n ← whc_findseq w q; Some (nd_seq n)
    end.

Definition whc_findkey w (key : Z) : option (option Z) :=
  if negb (check_whc w) then None
  else
    idx ← wh_idx_hash w;
    match idx !! key with
    | None => Some None
    | Some n => q ← mjoin (ix_hist n !! ix_headidx n); Some (Some q)
    end.

Definition whc_unacked_bytes w : Z := wh_unacked_bytes w.

(** ** Making a cache *)

Definition whc_new (is_transient_local : bool) (hdepth tldepth : nat) (sample_overhead : Z) : option whc :=
  if negb ((hdepth =? 0)%nat || (tldepth <=? hdepth)%nat || is_transient_local) then None
  else
    let idxdepth := if (tldepth <? hdepth)%nat then hdepth else tldepth in
    let w := MkWhc 0 0 sample_overhead is_transient_local hdepth tldepth idxdepth 0 1 None ∅
               (if (0 <? idxdepth)%nat then Some ∅ else None)
               (ot_insert vn_min ot_init (WhcIntvnode 1 1 None None)) in
    if check_whc w then Some w else None.

(** ** Deleting *)

Definition whcn_size w nd : Z :=
  let sz := sd_size (nd_serdata nd) in
  sz + ((sz + fragment_size - 1) / fragment_size) * wh_sample_overhead w.

Definition delete_one_sample_from_idx w (whcn : Z) : option whc :=
  nd ← whc_findseq w whcn;
  k ← nd_idxnode nd;
  idxn ← lookup_idxnode w k;
  if negb (bool_decide (is_Some (mjoin (ix_hist idxn !! ix_headidx idxn))) &&
           bool_decide (ix_hist idxn !! nd_idxnode_pos nd = Some (Some whcn))) then None
  else
    w ← (if negb (nd_idxnode_pos nd =? ix_headidx idxn)%nat
         then upd_idxnode w k (WhcIdxnode (ix_prune_seq idxn) (ix_headidx idxn) (<[nd_idxnode_pos nd := None]> (ix_hist idxn)))
         else if forallb (fun i => (i =? ix_headidx idxn)%nat || bool_decide (ix_hist idxn !! i = Some None)) (seq 0 (wh_idxdepth w))
         then idx ← wh_idx_hash w; Some (set_idx w (Some (delete k idx)))
         else None);
    upd_node w whcn (fun nd => nd_set_idx nd None (nd_idxnode_pos nd)).

(** The part of [whc_delete_one_intv] that counts: [whcn] is not counted as
    unacknowledged any more. *)
Definition uncount w nd : option whc :=
  if nd_unacked nd then
    if wh_unacked_bytes w >=? whcn_size w nd then Some (set_unacked w (wh_unacked_bytes w - whcn_size w nd)) else None
  else Some w.

(** [remove_whcn_from_hash], and out of the linked list. *)
Definition unlink w (whcn : Z) nd : option whc :=
  _ ← whc_findseq w whcn;
  let w := set_hash w (delete whcn (wh_seq_hash w)) in
  w ← upd_node_opt w (nd_prev_seq nd) (fun p => nd_set_next p (nd_next_seq nd));
  upd_node_opt w (nd_next_seq nd) (fun n => nd_set_prev n (nd_prev_seq nd)).

(** Taking [whcn] out of its interval: the interval of the next sample. *)
Definition delete_from_intv w (intv : whc_intvnode) (whcn : Z) nd : option (whc * option Z) :=
  let t := wh_seq w in
  let open := vn_min intv =? wh_open_intv w in
  if decide (vn_first intv = Some whcn) then
    if bool_decide (vn_last intv = Some whcn) && negb open then
      Some (set_seq w (ot_delete vn_min t (vn_min intv)) (wh_open_intv w), option_map vn_min (ot_find_succ vn_min t (vn_min intv)))
    else
      let intv' := WhcIntvnode (vn_min intv + 1) (vn_maxp1 intv) (nd_next_seq nd) (vn_last intv) in
      if (bool_decide (is_Some (vn_first intv')) || open) && ((vn_min intv' <? vn_maxp1 intv') || open) &&
         Bool.eqb (bool_decide (vn_first intv' = None)) (vn_min intv' =? vn_maxp1 intv')
      then Some (set_seq w (ot_replace vn_min t (vn_min intv) intv') (if open then vn_min intv' else wh_open_intv w), Some (vn_min intv'))
      else None
  else if decide (vn_last intv = Some whcn) then
    prev ← nd_prev_seq nd;
    pnd ← whc_findseq w prev;
    if negb ((vn_min intv <? nd_seq nd) && (nd_seq pnd + 1 =? nd_seq nd)) then None
    else
      let intv' := WhcIntvnode (vn_min intv) (vn_maxp1 intv - 1) (vn_first intv) (Some prev) in
      Some (set_seq w (ot_replace vn_min t (vn_min intv) intv') (wh_open_intv w),
            option_map vn_min (ot_find_succ vn_min t (vn_min intv)))
  else
    next ← nd_next_seq nd;
    nnd ← whc_findseq w next;
    let new_intv := WhcIntvnode (nd_seq nd + 1) (vn_maxp1 intv) (Some next) (vn_last intv) in
    let intv' := WhcIntvnode (vn_min intv) (nd_seq nd) (vn_first intv) (nd_prev_seq nd) in
    if negb ((nd_seq nd + 1 =? nd_seq nnd) && (vn_min intv' <? vn_maxp1 intv') && (vn_min new_intv <? vn_maxp1 new_intv)) then None
    else
      let t := ot_replace vn_min t (vn_min intv) intv' in
      match ot_lookup vn_min t (vn_min new_intv) with
      | Some _ => None
      | None => Some (set_seq w (ot_insert vn_min t new_intv) (if open then vn_min new_intv else wh_open_intv w), Some (vn_min new_intv))
      end.

(** The new state, [*p_intv] and [*p_whcn]. *)
Definition whc_delete_one_intv w (p_intv whcn : Z) : option (whc * option Z * option Z) :=
  intv ← lookup_intv w p_intv;
  nd ← whc_findseq w whcn;
  if negb ((vn_min intv <=? nd_seq nd) && (nd_seq nd <? vn_maxp1 intv)) then None
  else
    w ← (match nd_idxnode nd with Some _ => delete_one_sample_from_idx w whcn | None => Some w end);
    w ← uncount w nd;
    w ← unlink w whcn nd;
    '(w, p_intv) ← delete_from_intv w intv whcn nd;
    Some (w, p_intv, nd_next_seq nd).

Definition whc_delete_one w (whcn : Z) : option whc :=
  nd ← whc_findseq w whcn;
  intv ← ot_lookup_predeq vn_min (wh_seq w) (nd_seq nd);
  '(w, _, _) ← whc_delete_one_intv w (vn_min intv) whcn;
  Some (set_size w (wh_seq_size w - 1)).

(** The loop of [free_one_instance_from_idx]. *)
Fixpoint free_hist w (max_drop_seq : Z) (hist : list (option Z)) : option whc :=
  match hist with
  | [] => Some w
  | None :: hist' => free_hist w max_drop_seq hist'
  | Some oldn :: hist' =>
      nd ← whc_findseq w oldn;
      w ← upd_node w oldn (fun nd => nd_set_idx nd None (nd_idxnode_pos nd));
      w ← (if nd_seq nd <=? max_drop_seq then
             if bool_decide (wh_maxseq_node w = Some oldn) then None else whc_delete_one w oldn
           else Some w);
      free_hist w max_drop_seq hist'
  end.

Definition free_one_instance_from_idx w (max_drop_seq : Z) (idxn : whc_idxnode) : option whc :=
  free_hist w max_drop_seq (take (wh_idxdepth w) (ix_hist idxn)).

Definition delete_one_instance_from_idx w (max_drop_seq k : Z) : option whc :=
  idx ← wh_idx_hash w;
  idxn ← idx !! k;
  free_one_instance_from_idx (set_idx w (Some (delete k idx))) max_drop_seq idxn.

Definition whcn_in_tlidx w (idxnode : option Z) (pos : nat) : option bool :=
  match idxnode with
  | None => Some false
  | Some k =>
      idxn ← lookup_idxnode w k;
      let d := (ix_headidx idxn + (if (ix_headidx idxn <? pos)%nat then wh_idxdepth w else 0) - pos)%nat in
      if (d <? wh_idxdepth w)%nat then Some (d <? wh_tldepth w)%nat else None
  end.

(** [whc_free]: the nodes from the last one on, which are freed. *)
Fixpoint free_nodes (fuel : nat) w (whcn : option Z) : option (list Z) :=
  match whcn with
  | None => Some []
  | Some q =>
      match fuel with
      | O => None
      | S fuel' => nd ← whc_findseq w q; freed ← free_nodes fuel' w (nd_prev_seq nd); Some (q :: freed)
      end
  end.

Definition whc_free w : option (list Z) :=
  if check_whc w then free_nodes (length (map_to_list (wh_seq_hash w))) w (wh_maxseq_node w) else None.

(** ** Acknowledgements *)

(** The first loop of [whc_remove_acked_messages]: drops all up to
    [max_drop_seq] that is not among the latest of its instance. *)
Fixpoint drop_acked (fuel : nat) w (whcn p_intv : option Z) (max_drop_seq ndropped : Z) : option (whc * Z) :=
  match whcn with
  | None => Some (w, ndropped)
  | Some q =>
      nd ← whc_findseq w q;
      if nd_seq nd <=? max_drop_seq then
        match fuel with
        | O => None
        | S fuel' =>
            keep ← whcn_in_tlidx w (nd_idxnode nd) (nd_idxnode_pos nd);
            k ← p_intv;
            if keep : bool then
              w ← uncount w nd;
              w ← upd_node w q (fun nd => if nd_unacked nd then nd_set_acked nd else nd);
              intv ← lookup_intv w k;
              let p_intv := if decide (vn_last intv = Some q) then option_map vn_min (ot_find_succ vn_min (wh_seq w) k) else Some k in
              drop_acked fuel' w (nd_next_seq nd) p_intv max_drop_seq ndropped
            else
              '(w, p_intv, next) ← whc_delete_one_intv w k q;
              drop_acked fuel' w next p_intv max_drop_seq (ndropped + 1)
        end
      else Some (w, ndropped)
  end.

(** [while (cnt--)]: the older samples of the instance [k]. *)
Fixpoint prune_instance (cnt : nat) w (k whcn : Z) (idx : nat) : option whc :=
  match cnt with
  | O => Some w
  | S cnt' =>
      let idx := if (S idx =? wh_idxdepth w)%nat then 0%nat else S idx in
      idxn ← lookup_idxnode w k;
      oldn ← ix_hist idxn !! idx;
      match oldn with
      | None => prune_instance cnt' w k whcn idx
      | Some oldn =>
          ond ← whc_findseq w oldn;
          if negb (nd_seq ond <? whcn) then None
          else
            w ← whc_delete_one w oldn;
            _ ← lookup_idxnode w k;
            prune_instance cnt' w k whcn idx
      end
  end.

(** The second loop: prunes the instances of what was retained. *)
Fixpoint prune_acked (fuel : nat) w (whcn : option Z) (max_drop_seq : Z) : option whc :=
  match whcn with
  | None => Some w
  | Some q =>
      nd ← whc_findseq w q;
      if nd_seq nd <=? max_drop_seq then
        match fuel with
        | O => None
        | S fuel' =>
            tl ← whcn_in_tlidx w (nd_idxnode nd) (nd_idxnode_pos nd);
            k ← nd_idxnode nd;
            idxn ← lookup_idxnode w k;
            if negb (tl && (ix_prune_seq idxn <=? max_drop_seq)) then None
            else if ix_prune_seq idxn =? max_drop_seq then prune_acked fuel' w (nd_next_seq nd) max_drop_seq
            else
              w ← upd_idxnode w k (WhcIdxnode max_drop_seq (ix_headidx idxn) (ix_hist idxn));
              w ← prune_instance (wh_idxdepth w - wh_tldepth w) w k (nd_seq nd) (ix_headidx idxn);
              nd ← whc_findseq w q;
              prune_acked fuel' w (nd_next_seq nd) max_drop_seq
        end
      else Some w
  end.

(** The new state and the number of samples dropped. *)
Definition whc_remove_acked_messages w (max_drop_seq : Z) : option (whc * Z) :=
  if negb ((max_drop_seq <? MAX_SEQ_NUMBER) && (max_drop_seq >=? wh_max_drop_seq w) && check_whc w) then None
  else if wh_is_transient_local w && (wh_tldepth w =? 0)%nat then Some (w, 0)
  else
    let fuel := length (map_to_list (wh_seq_hash w)) in
    start ← find_nextseq_intv w (wh_max_drop_seq w);
    '(w, ndropped) ← drop_acked fuel w (option_map fst start) (option_map snd start) max_drop_seq 0;
    w ← (if (0 <? wh_tldepth w)%nat && (wh_tldepth w <? wh_idxdepth w)%nat then
           if negb (wh_hdepth w =? wh_idxdepth w)%nat then None
           else
             start ← find_nextseq_intv w (wh_max_drop_seq w);
             prune_acked fuel w (option_map fst start) max_drop_seq
         else Some w);
    if negb (ndropped <=? wh_seq_size w) then None
    else
      let w := set_size w (wh_seq_size w - ndropped) in
      maxseq ← whc_findmax_procedurally w;
      Some (set_max_drop (set_maxseq w maxseq) max_drop_seq, ndropped).

(** [free_one_instance_from_idx] for all instances. *)
Fixpoint free_instances w (l : list (Z * whc_idxnode)) : option whc :=
  match l with
  | [] => Some w
  | (_, n) :: l' => w ← free_one_instance_from_idx w 0 n; free_instances w l'
  end.

Definition whc_downgrade_to_volatile w : option whc :=
  if negb (check_whc w) || wh_is_transient_local w then None
  else
    w ← (if (0 <? wh_tldepth w)%nat then
           if negb ((wh_hdepth w =? 0)%nat || (wh_tldepth w <=? wh_hdepth w)%nat) then None
           else
             let w := set_depths w 0 (wh_idxdepth w) in
             if (wh_hdepth w =? 0)%nat then
               idx ← wh_idx_hash w;
               w ← free_instances w (map_to_list idx);
               Some (set_idx (set_depths w 0 0) None)
             else Some w
         else Some w);
    let old_max_drop_seq := wh_max_drop_seq w in
    '(w, _) ← whc_remove_acked_messages (set_max_drop w 0) old_max_drop_seq;
    if wh_max_drop_seq w =? old_max_drop_seq then Some w else None.

(** ** Inserting *)

(** The interval of a new last sample. *)
Definition insert_in_intv w (seq : Z) : option whc :=
  open ← lookup_intv w (wh_open_intv w);
  match vn_first open with
  | None => Some (set_seq w (ot_replace vn_min (wh_seq w) (vn_min open) (WhcIntvnode seq (seq + 1) (Some seq) (Some seq))) seq)
  | Some _ =>
      if vn_maxp1 open =? seq
      then Some (set_seq w (ot_replace vn_min (wh_seq w) (vn_min open)
                              (WhcIntvnode (vn_min open) (vn_maxp1 open + 1) (vn_first open) (Some seq))) (wh_open_intv w))
      else match lookup_intv w seq with
           | Some _ => None
           | None => Some (set_seq w (ot_insert vn_min (wh_seq w) (WhcIntvnode seq (seq + 1) (Some seq) (Some seq))) seq)
           end
  end.

Definition whc_insert_seq w (max_drop_seq seq : Z) (sd : serdata) : option whc :=
  let newn := WhcNode None (wh_maxseq_node w) None 0 seq (max_drop_seq <? seq) 0 0 sd in
  w ← upd_node_opt w (wh_maxseq_node w) (fun p => nd_set_next p (Some seq));
  let w := set_maxseq w (Some seq) in
  let w := if nd_unacked newn then set_unacked w (wh_unacked_bytes w + whcn_size w newn) else w in
  match whc_findseq w seq with
  | Some _ => None
  | None =>
      let w := set_hash w (<[seq := newn]> (wh_seq_hash w)) in
      w ← insert_in_intv w seq;
      Some (set_size w (wh_seq_size w + 1))
  end.

(** An unregistration that is acknowledged is not kept. *)
Definition drop_unregister w (max_drop_seq newn : Z) : option whc :=
  nd ← whc_findseq w newn;
  if nd_seq nd <=? max_drop_seq then w ← whc_delete_one w newn; Some (set_maxseq w (nd_prev_seq nd)) else Some w.

(** A sample of an instance that has a ring: it takes the place of the oldest
    one. *)
Definition insert_in_hist w (max_drop_seq newn k : Z) (idxn : whc_idxnode) : option whc :=
  let headidx := if (S (ix_headidx idxn) =? wh_idxdepth w)%nat then 0%nat else S (ix_headidx idxn) in
  oldn ← ix_hist idxn !! headidx;
  w ← upd_node_opt w oldn (fun nd => nd_set_idx nd None (nd_idxnode_pos nd));
  w ← upd_idxnode w k (WhcIdxnode (ix_prune_seq idxn) headidx (<[headidx := Some newn]> (ix_hist idxn)));
  w ← upd_node w newn (fun nd => nd_set_idx nd (Some k) headidx);
  w ← (match oldn with
       | Some oldn =>
           ond ← whc_findseq w oldn;
           if (0 <? wh_hdepth w)%nat || (nd_seq ond <=? max_drop_seq) then
             if bool_decide (wh_maxseq_node w = Some oldn) then None else whc_delete_one w oldn
           else Some w
       | None => Some w
       end);
  if (newn <=? max_drop_seq) && (0 <? wh_tldepth w)%nat && (wh_tldepth w <? wh_idxdepth w)%nat then
    let pos := (headidx + wh_idxdepth w - wh_tldepth w)%nat in
    let pos := if (wh_idxdepth w <=? pos)%nat then (pos - wh_idxdepth w)%nat else pos in
    idxn ← lookup_idxnode w k;
    oldn ← ix_hist idxn !! pos;
    match oldn with
    | Some oldn => if bool_decide (wh_maxseq_node w = Some oldn) then None else whc_delete_one w oldn
    | None => Some w
    end
  else Some w.

Definition whc_insert w (max_drop_seq seq : Z) (sd : serdata) : option whc :=
  if negb (check_whc w && (max_drop_seq <? MAX_SEQ_NUMBER) && (max_drop_seq >=? wh_max_drop_seq w) &&
           (whc_empty w || match whc_max_seq w with Some m => seq >? m | None => false end)) then None
  else
    w ← whc_insert_seq w max_drop_seq seq sd;
    if sd_is_empty sd || (wh_idxdepth w =? 0)%nat then Some w
    else
      idx ← wh_idx_hash w;
      let k := sd_key sd in
      match idx !! k with
      | Some idxn =>
          if sd_unregister sd then
            w ← delete_one_instance_from_idx w max_drop_seq k;
            drop_unregister w max_drop_seq seq
          else insert_in_hist w max_drop_seq seq k idxn
      | None =>
          if negb (sd_unregister sd) then
            w ← upd_node w seq (fun nd => nd_set_idx nd (Some k) 0);
            upd_idxnode w k (WhcIdxnode 0 0 (Some seq :: replicate (wh_idxdepth w - 1) None))
          else drop_unregister w max_drop_seq seq
      end.
End Whc.
