(* ===== verification/WhcFacts.v ===== *)
(** * The invariant of the writer history cache

    The intervals give the sequence numbers in the cache, in order; the hash
    table and the links follow this list; the rings of the index follow, for
    each instance, the list [log] of its samples since it was last unregistered,
    the latest first. *)

From Stdlib Require Import ZArith Lia Sorting.Sorted.
From stdpp Require Import prelude gmap.
From S2P Require Import Prelude OrdTree Receive Whc.

(** ** Ranges of integers *)

Definition range (a b : Z) : list Z := seqZ a (b - a).

Lemma range_nil a b : b <= a -> range a b = [].
Proof. intros Hab. unfold range. apply seqZ_nil. lia. Qed.
Lemma range_cons a b : a < b -> range a b = a :: range (a + 1) b.
Proof. intros Hab. unfold range. rewrite seqZ_cons by lia. f_equal. f_equal; lia. Qed.
Lemma range_app a c b : a <= c <= b -> range a b = range a c ++ range c b.
Proof. intros Hc. unfold range. replace (b - a) with ((c - a) + (b - c)) by lia. rewrite seqZ_app by lia. f_equal. f_equal. lia. Qed.
Lemma range_snoc a b : a < b -> range a b = range a (b - 1) ++ [b - 1].
Proof. intros Hab. rewrite (range_app a (b - 1) b) by lia. f_equal. rewrite range_cons by lia. rewrite range_nil by lia. done. Qed.
Lemma range_mid a q b : a <= q < b -> range a b = range a q ++ q :: range (q + 1) b.
Proof. intros Hq. rewrite (range_app a q b) by lia. f_equal. apply range_cons. lia. Qed.
Lemma elem_of_range q a b : q ∈ range a b <-> a <= q < b.
Proof. unfold range. rewrite elem_of_seqZ. lia. Qed.
Lemma range_sorted a b : StronglySorted Z.lt (range a b).
Proof.
  destruct (Z.le_gt_cases a b) as [H|H]; [|rewrite range_nil by lia; constructor]. remember (Z.to_nat (b - a)) as n eqn:En.
  revert a H En. induction n as [|n IH]; intros a H En; [rewrite range_nil by lia; constructor|].
  rewrite range_cons by lia. constructor; [apply IH; lia|]. apply Forall_forall. intros q Hq%elem_of_range. lia.
Qed.
Lemma range_last a b : a < b -> last (range a b) = Some (b - 1).
Proof. intros H. rewrite range_snoc by done. apply last_snoc. Qed.
Lemma range_head a b : a < b -> head (range a b) = Some a.
Proof. intros H. by rewrite range_cons. Qed.

(** ** Lists of sequence numbers *)

Lemma sorted_app_lt (l1 l2 : list Z) : StronglySorted Z.lt (l1 ++ l2) <->
  StronglySorted Z.lt l1 /\ StronglySorted Z.lt l2 /\ (forall x y, x ∈ l1 -> y ∈ l2 -> x < y).
Proof.
  rewrite StronglySorted_app_iff. setoid_rewrite Forall_forall. setoid_rewrite Forall_forall. naive_solver.
Qed.

Lemma sorted_lt_NoDup (l : list Z) : StronglySorted Z.lt l -> NoDup l.
Proof.
  induction 1 as [|x l Hs IH Hf]; constructor; [|done]. rewrite Forall_forall in Hf. intros Hx%Hf. lia.
Qed.

Lemma sorted_split_at (l : list Z) q : q ∈ l -> exists l1 l2, l = l1 ++ q :: l2.
Proof. apply list_elem_of_split. Qed.

(** Filters that agree on a list, and those that keep all or nothing of it. *)
Lemma filter_same {A : Type} (P Q : A -> Prop) `{!forall x, Decision (P x), !forall x, Decision (Q x)} (l : list A) :
  (forall x, x ∈ l -> P x <-> Q x) -> filter P l = filter Q l.
Proof.
  induction l as [|x l IH]; intros HP; [done|]. rewrite !filter_cons, IH by (intros; apply HP; set_solver). specialize (HP x ltac:(set_solver)).
  destruct (decide (P x)), (decide (Q x)); tauto.
Qed.
Lemma filter_all {A : Type} (P : A -> Prop) `{!forall x, Decision (P x)} (l : list A) : (forall x, x ∈ l -> P x) -> filter P l = l.
Proof. induction l as [|x l IH]; intros HP; [done|]. rewrite filter_cons_True, IH by (intros; apply HP; set_solver). done. Qed.

(** The neighbours in a sorted list are determined. *)
Lemma mid_unique (l1 l2 m1 m2 : list Z) q : NoDup (l1 ++ q :: l2) -> l1 ++ q :: l2 = m1 ++ q :: m2 -> l1 = m1 /\ l2 = m2.
Proof.
  revert m1. induction l1 as [|x l1 IH]; intros [|y m1] Hn E; simpl in *; apply NoDup_cons in Hn as [Hx Hn]; simplify_eq.
  - done.
  - set_solver.
  - set_solver.
  - by destruct (IH m1 Hn) as [-> ->].
Qed.

(** ** Intervals *)

Definition vn_range (v : whc_intvnode) : list Z := range (vn_min v) (vn_maxp1 v).
Definition ivs_seqs (l : list whc_intvnode) : list Z := mjoin (map vn_range l).

Definition vn_full (v : whc_intvnode) : Prop :=
  vn_min v < vn_maxp1 v /\ vn_first v = Some (vn_min v) /\ vn_last v = Some (vn_maxp1 v - 1).
Definition vn_open (v : whc_intvnode) : Prop := vn_full v \/ vn_min v = vn_maxp1 v /\ vn_first v = None.

(** Intervals one after the other, from [lo] on. *)
Fixpoint chain (lo : Z) (l : list whc_intvnode) : Prop :=
  match l with [] => True | v :: l' => lo <= vn_min v <= vn_maxp1 v /\ chain (vn_maxp1 v) l' end.
Fixpoint chain_end (lo : Z) (l : list whc_intvnode) : Z := match l with [] => lo | v :: l' => chain_end (vn_maxp1 v) l' end.

Lemma chain_app lo l1 l2 : chain lo (l1 ++ l2) <-> chain lo l1 /\ chain (chain_end lo l1) l2.
Proof. revert lo. induction l1 as [|v l1 IH]; intros lo; simpl; [tauto|]. rewrite IH. tauto. Qed.
Lemma chain_end_app lo l1 l2 : chain_end lo (l1 ++ l2) = chain_end (chain_end lo l1) l2.
Proof. revert lo. induction l1 as [|v l1 IH]; intros lo; simpl; [done|]. apply IH. Qed.
Lemma chain_end_le lo l : chain lo l -> lo <= chain_end lo l.
Proof. revert lo. induction l as [|v l IH]; intros lo; simpl; [lia|]. intros [Hv Hc%IH]. lia. Qed.
Lemma chain_weaken lo lo' l : chain lo l -> lo' <= lo -> chain lo' l.
Proof. destruct l as [|v l]; simpl; [done|]. intros [Hv Hc] Hl. split; [lia|done]. Qed.

Lemma ivs_seqs_app l1 l2 : ivs_seqs (l1 ++ l2) = ivs_seqs l1 ++ ivs_seqs l2.
Proof. unfold ivs_seqs. by rewrite map_app, join_app. Qed.
Lemma ivs_seqs_cons v l : ivs_seqs (v :: l) = vn_range v ++ ivs_seqs l.
Proof. done. Qed.

Lemma chain_seqs lo l q : chain lo l -> q ∈ ivs_seqs l -> lo <= q < chain_end lo l.
Proof.
  revert lo. induction l as [|v l IH]; intros lo; simpl; [intros _ Hq; by apply elem_of_nil in Hq|].
  intros [Hv Hc]. rewrite ivs_seqs_cons, elem_of_app. pose proof (chain_end_le _ _ Hc).
  intros [Hq%elem_of_range|Hq]; [lia|]. apply (IH _ Hc) in Hq. lia.
Qed.

Lemma chain_sorted lo l : chain lo l -> StronglySorted Z.lt (ivs_seqs l).
Proof.
  revert lo. induction l as [|v l IH]; intros lo; simpl; [constructor|]. intros [Hv Hc]. rewrite ivs_seqs_cons.
  apply sorted_app_lt. split; [apply range_sorted|]. split; [by eapply IH|]. intros x y Hx%elem_of_range Hy%(chain_seqs _ _ _ Hc). lia.
Qed.

Lemma chain_ge lo l u : chain lo l -> u ∈ l -> lo <= vn_min u.
Proof.
  revert lo. induction l as [|v l IH]; intros lo Hc Hu; [by apply elem_of_nil in Hu|].
  destruct Hc as [Hv Hc]. apply elem_of_cons in Hu as [->|Hu]; [lia|]. specialize (IH _ Hc Hu). lia.
Qed.

Lemma chain_le lo l u : chain lo l -> u ∈ l -> vn_min u <= vn_maxp1 u <= chain_end lo l.
Proof.
  revert lo. induction l as [|v l IH]; intros lo Hc Hu; [by apply elem_of_nil in Hu|]. destruct Hc as [Hv Hc]. simpl. pose proof (chain_end_le _ _ Hc).
  apply elem_of_cons in Hu as [->|Hu]; [lia|]. by apply IH.
Qed.

(** Keys of full intervals increase. *)
Lemma chain_keys lo l o : chain lo (l ++ [o]) -> Forall vn_full l -> sorted vn_min (l ++ [o]).
Proof.
  revert lo. induction l as [|v l IH]; intros lo Hc Hf.
  - constructor; [constructor|constructor].
  - apply Forall_cons in Hf as [[Hv _] Hf]. destruct Hc as [Hm Hc]. apply sorted_cons. split; [|by eapply IH].
    apply Forall_forall. intros u Hu. unfold key_lt. pose proof (chain_ge _ _ _ Hc Hu). lia.
Qed.

(** ** Links *)

Record linked (hash : gmap Z whc_node) (l : list Z) : Prop := {
  lk_node : forall l1 q l2, l = l1 ++ q :: l2 ->
    exists nd, hash !! q = Some nd /\ nd_seq nd = q /\ nd_prev_seq nd = last l1 /\ nd_next_seq nd = head l2;
  lk_dom : forall q nd, hash !! q = Some nd -> q ∈ l;
}.

(** What a node is besides its links. *)
Abbreviation info := (option Z * nat * bool * serdata)%type.
Definition nd_info (nd : whc_node) : info := (nd_idxnode nd, nd_idxnode_pos nd, nd_unacked nd, nd_serdata nd).

(** ** Rings *)

(** The place at distance [d] from the head, and back. *)
Definition pos_of (depth head d : nat) : nat := if (d <=? head)%nat then (head - d)%nat else (head + depth - d)%nat.
Definition dist_of (depth head pos : nat) : nat := (head + (if (head <? pos)%nat then depth else 0) - pos)%nat.

Lemma pos_of_lt depth head d : (head < depth)%nat -> (d < depth)%nat -> (pos_of depth head d < depth)%nat.
Proof. intros. unfold pos_of. destruct (Nat.leb_spec d head); lia. Qed.
Lemma dist_of_lt depth head pos : (head < depth)%nat -> (pos < depth)%nat -> (dist_of depth head pos < depth)%nat.
Proof. intros. unfold dist_of. destruct (Nat.ltb_spec head pos); lia. Qed.
Lemma pos_dist depth head pos : (head < depth)%nat -> (pos < depth)%nat -> pos_of depth head (dist_of depth head pos) = pos.
Proof. intros. unfold pos_of, dist_of. destruct (Nat.ltb_spec head pos), (Nat.leb_spec (head + depth - pos) head), (Nat.leb_spec (head + 0 - pos) head); lia. Qed.
Lemma dist_pos depth head d : (head < depth)%nat -> (d < depth)%nat -> dist_of depth head (pos_of depth head d) = d.
Proof. intros. unfold pos_of, dist_of. destruct (Nat.leb_spec d head); [destruct (Nat.ltb_spec head (head - d))|destruct (Nat.ltb_spec head (head + depth - d))]; lia. Qed.
Lemma dist_head depth head pos : (head < depth)%nat -> (pos < depth)%nat -> dist_of depth head pos = 0%nat <-> pos = head.
Proof. intros. unfold dist_of. destruct (Nat.ltb_spec head pos); lia. Qed.

(** The head moves on by one. *)
Definition next_head (depth head : nat) : nat := if (S head =? depth)%nat then 0%nat else S head.
Lemma next_head_lt depth head : (head < depth)%nat -> (next_head depth head < depth)%nat.
Proof. intros. unfold next_head. destruct (Nat.eqb_spec (S head) depth); lia. Qed.
Lemma pos_of_next depth head d : (head < depth)%nat -> (S d < depth)%nat -> pos_of depth (next_head depth head) (S d) = pos_of depth head d.
Proof.
  intros. unfold pos_of, next_head. destruct (Nat.eqb_spec (S head) depth).
  - destruct (Nat.leb_spec (S d) 0), (Nat.leb_spec d head); lia.
  - destruct (Nat.leb_spec (S d) (S head)), (Nat.leb_spec d head); lia.
Qed.
Lemma pos_of_0 depth head : pos_of depth head 0 = head.
Proof. unfold pos_of. simpl. lia. Qed.

(** A ring follows the list of the samples of its instance: what it has is in
    its place in the list, and of the latest [tl] it has all. *)
Record ring_ok (depth tl : nat) (log : list Z) (k : Z) (x : whc_idxnode) (im : gmap Z info) : Prop := {
  ro_len : length (ix_hist x) = depth;
  ro_head : (ix_headidx x < depth)%nat;
  ro_some : exists q, ix_hist x !! ix_headidx x = Some (Some q);
  ro_log : forall d q, (d < depth)%nat -> ix_hist x !! pos_of depth (ix_headidx x) d = Some (Some q) ->
    log !! d = Some q /\ exists u sd, im !! q = Some (Some k, pos_of depth (ix_headidx x) d, u, sd) /\ sd_key sd = k;
  ro_tl : forall d, (d < tl)%nat -> (d < depth)%nat -> ix_hist x !! pos_of depth (ix_headidx x) d = Some None -> log !! d = None;
}.

Record idx_ok (depth tl : nat) (log : Z -> list Z) (idx : gmap Z whc_idxnode) (im : gmap Z info) : Prop := {
  io_ring : forall k x, idx !! k = Some x -> ring_ok depth tl (log k) k x im;
  io_node : forall q k pos u sd, im !! q = Some (Some k, pos, u, sd) -> exists x, idx !! k = Some x /\ ix_hist x !! pos = Some (Some q);
  io_none : forall k, idx !! k = None -> tl = 0%nat \/ log k = [];
  io_sorted : forall k, StronglySorted Z.gt (log k);
}.

(** The index depends only on where the nodes say they are and their key. *)
Definition place (i : info) : option Z * nat * Z := (i.1.1.1, i.1.1.2, sd_key i.2).

Lemma idx_ok_ext depth tl log idx im im' :
  (forall q : Z, place <$> (im !! q) = place <$> (im' !! q)) -> idx_ok depth tl log idx im -> idx_ok depth tl log idx im'.
Proof.
  intros He [I1 I2 I3 I4]. split; auto.
  - intros k x Hx. destruct (I1 k x Hx) as [R1 R2 R3 R4 R5]. split; auto. intros d q Hd Hq.
    destruct (R4 d q Hd Hq) as (Hl & u & sd & Hi & Hk). split; [done|]. specialize (He q). rewrite Hi in He.
    destruct (im' !! q) as [[[[k' pos'] u'] sd']|]; [|done]. unfold place in He. simpl in He. injection He as <- <- E. exists u', sd'. split; [done|]. congruence.
  - intros q k pos u sd Hi. specialize (He q). rewrite Hi in He. destruct (im !! q) as [[[[k' pos'] u'] sd']|] eqn:Eq; [|done].
    unfold place in He. simpl in He. injection He as -> -> E. by eapply I2.
Qed.

(** A node that is not in the index comes or goes. *)
Lemma idx_ok_delete depth tl log idx im q :
  (forall k pos u sd, im !! q <> Some (Some k, pos, u, sd)) -> idx_ok depth tl log idx im -> idx_ok depth tl log idx (delete q im).
Proof.
  intros Hq [I1 I2 I3 I4]. split; auto.
  - intros k x Hx. destruct (I1 k x Hx) as [R1 R2 R3 R4 R5]. split; auto. intros d q' Hd Hq'.
    destruct (R4 d q' Hd Hq') as (Hl & u & sd & Hi & Hk). split; [done|]. exists u, sd. split; [|done].
    rewrite lookup_delete_ne; [done|]. intros ->. by eapply Hq.
  - intros q' k pos u sd [_ Hi]%lookup_delete_Some. by eapply I2.
Qed.
Lemma idx_ok_insert depth tl log idx im q pos u sd :
  im !! q = None -> idx_ok depth tl log idx im -> idx_ok depth tl log idx (<[q := (None, pos, u, sd)]> im).
Proof.
  intros Hq [I1 I2 I3 I4]. split; auto.
  - intros k x Hx. destruct (I1 k x Hx) as [R1 R2 R3 R4 R5]. split; auto. intros d q' Hd Hq'.
    destruct (R4 d q' Hd Hq') as (Hl & u' & sd' & Hi & Hk). split; [done|]. exists u', sd'. split; [|done].
    rewrite lookup_insert_ne; [done|]. intros ->. congruence.
  - intros q' k pos' u' sd' Hi. apply lookup_insert_Some in Hi as [[<- E]|[_ Hi]]; [done|]. by eapply I2.
Qed.

(** ** The whole cache *)

Section Core.
Context {T : Type -> Type} `{!OrdTree T, !OrdTreeLaws T}.
Context (fragment_size : Z).
Implicit Types (w : whc (T := T)) (t : T whc_intvnode).

Definition intvs w : list whc_intvnode := ot_elements (wh_seq w).
Definition seqs w : list Z := ivs_seqs (intvs w).
Definition infos w : gmap Z info := nd_info <$> wh_seq_hash w.

(** What a sample counts for in [unacked_bytes]. *)
Definition cost (overhead : Z) (i : info) : Z :=
  if i.1.2 then sd_size i.2 + ((sd_size i.2 + fragment_size - 1) / fragment_size) * overhead else 0.
Definition cost_at (overhead : Z) (im : gmap Z info) (q : Z) : Z := match im !! q with Some i => cost overhead i | None => 0 end.
Definition usum (overhead : Z) (im : gmap Z info) (l : list Z) : Z := foldr (fun q acc => cost_at overhead im q + acc) 0 l.

(** The intervals: all but the open one, the last, are not empty. *)
Record intv_ok t (open : Z) : Prop := {
  vo_wf : ot_wf vn_min t;
  vo_parts : exists L o, ot_elements t = L ++ [o] /\ Forall vn_full L /\ vn_open o /\ chain 1 (L ++ [o]) /\ open = vn_min o;
}.

(** What every step of an operation keeps, but for the index. *)
Record base w : Prop := {
  co_intv : intv_ok (wh_seq w) (wh_open_intv w);
  co_links : linked (wh_seq_hash w) (seqs w);
  co_unacked : wh_unacked_bytes w = usum (wh_sample_overhead w) (infos w) (seqs w);
  co_sizes : 0 <= wh_sample_overhead w /\ forall q i, infos w !! q = Some i -> 0 <= sd_size i.2;
}.

Record core (log : Z -> list Z) w : Prop := {
  co_base :> base w;
  co_idx : match wh_idx_hash w with
           | Some idx => idx_ok (wh_idxdepth w) (wh_tldepth w) log idx (infos w)
           | None => wh_tldepth w = 0%nat /\ forall q k pos u sd, infos w !! q <> Some (Some k, pos, u, sd)
           end;
}.

(** The cache between operations. *)
Record whc_ok (log : Z -> list Z) w : Prop := {
  wo_core : core log w;
  wo_size : wh_seq_size w = Z.of_nat (length (seqs w));
  wo_max : wh_maxseq_node w = last (seqs w);
  wo_depth : wh_idxdepth w = Nat.max (wh_hdepth w) (wh_tldepth w);
  wo_depths : (wh_hdepth w = 0 \/ wh_tldepth w <= wh_hdepth w)%nat \/ wh_is_transient_local w = true;
  wo_index : is_Some (wh_idx_hash w) <-> (0 < wh_idxdepth w)%nat;
  wo_drop : 0 <= wh_max_drop_seq w < MAX_SEQ_NUMBER;
  wo_keep_all : wh_is_transient_local w = true -> wh_tldepth w = 0%nat -> wh_max_drop_seq w = 0;
  wo_low : forall q i, infos w !! q = Some i -> q <= wh_max_drop_seq w -> (0 < wh_tldepth w)%nat /\ is_Some i.1.1.1;
  wo_prune : forall k x, lookup_idxnode w k = Some x -> ix_prune_seq x <= wh_max_drop_seq w;
}.

(** ** Intervals *)

Lemma intv_ok_parts t open : intv_ok t open -> exists L o,
  ot_elements t = L ++ [o] /\ Forall vn_full L /\ vn_open o /\ chain 1 (L ++ [o]) /\ open = vn_min o.
Proof. by intros []. Qed.

Lemma intv_ok_chain t open : intv_ok t open -> chain 1 (ot_elements t).
Proof. by intros [_ (L & o & -> & _ & _ & Hc & _)]. Qed.

Lemma core_sorted w : base w -> StronglySorted Z.lt (seqs w).
Proof. intros [Hi]. eapply chain_sorted, intv_ok_chain, Hi. Qed.
Lemma core_NoDup w : base w -> NoDup (seqs w).
Proof. intros H. eapply sorted_lt_NoDup, core_sorted, H. Qed.
Lemma core_pos w q : base w -> q ∈ seqs w -> 1 <= q.
Proof. intros [Hi] Hq. eapply (chain_seqs 1) in Hq; [lia|eapply intv_ok_chain, Hi]. Qed.

(** An interval that is not empty is full. *)
Lemma intv_full t open v q : intv_ok t open -> v ∈ ot_elements t -> q ∈ vn_range v -> vn_full v.
Proof.
  intros [_ (L & o & -> & HL & Ho & _)] [Hv| ->%list_elem_of_singleton]%elem_of_app Hq%elem_of_range.
  - rewrite Forall_forall in HL. auto.
  - destruct Ho as [Ho|[E _]]; [done|lia].
Qed.

(** The interval of a sequence number. *)
Lemma intv_of t q : q ∈ ivs_seqs (ot_elements t) -> exists v, v ∈ ot_elements t /\ q ∈ vn_range v.
Proof.
  unfold ivs_seqs. intros (r & Hq & Hr)%list_elem_of_join. apply list_elem_of_fmap in Hr as (v & -> & Hv). eauto.
Qed.

Lemma intv_sides t open v : intv_ok t open -> v ∈ ot_elements t ->
  exists L1 L2, ot_elements t = L1 ++ v :: L2 /\ Forall vn_full L1 /\ chain 1 L1 /\ chain_end 1 L1 <= vn_min v <= vn_maxp1 v /\ chain (vn_maxp1 v) L2 /\
    ((L2 = [] /\ open = vn_min v /\ vn_open v) \/ exists L o, L2 = L ++ [o] /\ vn_full v /\ Forall vn_full L /\ vn_open o /\ open = vn_min o).
Proof.
  intros [Hw (L & o & E & HL & Ho & Hc & Hopen)] Hv. rewrite E in Hv. apply elem_of_app in Hv as [Hv| ->%list_elem_of_singleton].
  - apply list_elem_of_split in Hv as (L1 & L2 & ->). rewrite <- app_assoc in Hc. apply Forall_app in HL as [HL1 HL]. apply Forall_cons in HL as [Hv HL2].
    apply chain_app in Hc as [Hc1 [Hv1 Hc2]]. exists L1, (L2 ++ [o]). rewrite E, <- app_assoc. split; [done|]. repeat (split; [done|]). right. by exists L2, o.
  - apply chain_app in Hc as [Hc1 [Hv1 _]]. exists L, []. repeat (split; [done|]). by left.
Qed.

Lemma intv_predeq t open v q : intv_ok t open -> v ∈ ot_elements t -> q ∈ vn_range v -> ot_lookup_predeq vn_min t q = Some v.
Proof.
  intros Hi Hv Hq. destruct (intv_sides t open v Hi Hv) as (L1 & L2 & E & _ & _ & Hm & Hc & _). pose proof (vo_wf _ _ Hi) as Hw.
  rewrite ot_lookup_predeq_spec, E by done. pose proof (ot_wf_sorted _ _ Hw) as Hs. rewrite E in Hs. apply elem_of_range in Hq.
  apply l_predeq_mid; [done|lia|]. apply Forall_forall. intros u Hu. pose proof (chain_ge _ _ _ Hc Hu). lia.
Qed.

Lemma intv_lookup t open v : intv_ok t open -> v ∈ ot_elements t -> ot_lookup vn_min t (vn_min v) = Some v.
Proof.
  intros Hi Hv. destruct (intv_sides t open v Hi Hv) as (L1 & L2 & E & _). pose proof (vo_wf _ _ Hi) as Hw. rewrite ot_lookup_spec, E by done.
  apply l_lookup_mid. rewrite <- E. by apply ot_wf_sorted.
Qed.

Lemma intv_succ t open L1 v L2 : intv_ok t open -> ot_elements t = L1 ++ v :: L2 -> ot_find_succ vn_min t (vn_min v) = head L2.
Proof. intros Hi E. eapply ot_find_succ_spec; [apply Hi|done]. Qed.

(** The interval of the first sequence number of some. *)
Lemma ivs_head L o n : Forall vn_full L -> vn_open o -> head (ivs_seqs (L ++ [o])) = Some n ->
  exists v, head (L ++ [o]) = Some v /\ n = vn_min v /\ n ∈ vn_range v.
Proof.
  intros HL Ho Hn. assert (Hf : forall v l, vn_full v -> head (ivs_seqs (v :: l)) = Some n -> n = vn_min v /\ n ∈ vn_range v).
  { intros v l [Hv _]. rewrite ivs_seqs_cons. unfold vn_range. rewrite range_cons by done. simpl. intros [= <-]. split; [done|].
    rewrite <- range_cons by done. apply elem_of_range. lia. }
  destruct L as [|v L].
  - exists o. split; [done|]. destruct Ho as [Ho|[E _]]; [by eapply Hf|]. simpl in Hn. rewrite ivs_seqs_cons in Hn. unfold vn_range in Hn. rewrite range_nil in Hn by lia. done.
  - apply Forall_cons in HL as [Hv _]. exists v. split; [done|]. by eapply Hf.
Qed.
End Core.
