(* ===== verification/WhcOps.v ===== *)
(** * Deleting one sample from the writer history cache

    The parts of [whc_delete_one_intv], the function, and the loops that use
    it. *)

From Stdlib Require Import ZArith Lia Sorting.Sorted.
From stdpp Require Import prelude gmap.
From S2P Require Import Prelude OrdTree Receive Whc WhcFacts.

Section Ops.
Context {T : Type -> Type} `{!OrdTree T, !OrdTreeLaws T}.
Implicit Types (w : whc (T := T)) (t : T whc_intvnode) (log : Z -> list Z).

(** ** The intervals *)

(** An interval is replaced by others in its place. *)
Lemma intv_change t t' open open' L1 v L2 M :
  intv_ok t open -> ot_elements t = L1 ++ v :: L2 -> ot_wf vn_min t' -> ot_elements t' = L1 ++ M ++ L2 ->
  chain (vn_min v) M -> chain_end (vn_min v) M <= vn_maxp1 v ->
  (L2 = [] -> exists M' o, M = M' ++ [o] /\ Forall vn_full M' /\ vn_open o /\ open' = vn_min o) ->
  (L2 <> [] -> Forall vn_full M /\ open' = open) ->
  intv_ok t' open'.
Proof.
  intros Hi E Hw E' Hc He Hnil Hcons. destruct (intv_sides t open v Hi) as (L1' & L2' & E2 & HL1 & Hc1 & Hm & Hc2 & Hopen); [rewrite E; set_solver|].
  assert (L1' = L1 /\ L2' = L2) as [-> ->].
  { rewrite E in E2. destruct (sorted_mid_unique vn_min v L1 L2 L1' L2') as [<- <-]; [|done|done]. rewrite <- E. by apply ot_wf_sorted, Hi. }
  split; [done|]. assert (Hch : chain 1 (L1 ++ M ++ L2)).
  { rewrite !chain_app. split; [done|]. split; [eapply chain_weaken; [exact Hc|lia]|]. eapply chain_weaken; [exact Hc2|].
    destruct M as [|m M]; simpl in *; [|done]. lia. }
  destruct Hopen as [(-> & -> & Hv)|(L & o & -> & Hv & HL & Ho & ->)].
  - destruct (Hnil eq_refl) as (M' & o & -> & HM & Ho & ->). rewrite app_nil_r in *. exists (L1 ++ M'), o.
    rewrite E', <- app_assoc. split; [done|]. split; [by apply Forall_app|]. done.
  - destruct Hcons as [HM ->]; [by destruct L|]. exists (L1 ++ M ++ L), o. rewrite E', <- !app_assoc. split; [done|].
    split; [by rewrite !Forall_app|]. done.
Qed.

(** An interval shrinks in its place. *)
Lemma intv_replace t open open' L1 v v' L2 :
  intv_ok t open -> ot_elements t = L1 ++ v :: L2 -> vn_min v <= vn_min v' <= vn_maxp1 v' -> vn_maxp1 v' <= vn_maxp1 v ->
  (L2 = [] -> vn_open v' /\ open' = vn_min v') -> (L2 <> [] -> vn_full v' /\ open' = open) ->
  intv_ok (ot_replace vn_min t (vn_min v) v') open' /\ ot_elements (ot_replace vn_min t (vn_min v) v') = L1 ++ v' :: L2.
Proof.
  intros Hi E Hm Hx Hnil Hcons. assert (Hs : sorted vn_min (L1 ++ v' :: L2)).
  { destruct (intv_sides t open v Hi) as (L1' & L2' & E2 & HL1 & Hc1 & Hm' & Hc2 & Hopen); [rewrite E; set_solver|].
    assert (L1' = L1 /\ L2' = L2) as [-> ->].
    { rewrite E in E2. destruct (sorted_mid_unique vn_min v L1 L2 L1' L2') as [<- <-]; [|done|done]. rewrite <- E. by apply ot_wf_sorted, Hi. }
    assert (Hc : chain 1 (L1 ++ v' :: L2)) by (apply chain_app; split; [done|]; split; [lia|]; eapply chain_weaken; [exact Hc2|lia]).
    destruct Hopen as [(-> & _)|(L & o & -> & _ & HL & _)]; [by apply (chain_keys 1)|].
    destruct Hcons as [Hv' _]; [by destruct L|]. replace (L1 ++ v' :: L ++ [o]) with ((L1 ++ v' :: L) ++ [o]) in Hc |- * by (by rewrite <- app_assoc).
    apply (chain_keys 1); [done|]. apply Forall_app. split; [done|]. by constructor. }
  destruct (ot_replace_spec vn_min t L1 v v' L2 (vo_wf _ _ Hi) E Hs) as [Hw' E']. split; [|done].
  apply (intv_change t _ open open' L1 v L2 [v'] Hi E Hw' E'); simpl; [by split; [lia|]|lia|..].
  - intros HL. destruct (Hnil HL) as [Ho ->]. by exists [], v'.
  - intros HL. destruct (Hcons HL) as [Hv' ->]. split; [by constructor|done].
Qed.

(** What comes after an interval. *)
Lemma intv_next t open L1 v L2 n : intv_ok t open -> ot_elements t = L1 ++ v :: L2 -> head (ivs_seqs L2) = Some n ->
  exists u, head L2 = Some u /\ u ∈ L2 /\ n ∈ vn_range u.
Proof.
  intros Hi E Hn. destruct (intv_sides t open v Hi) as (L1' & L2' & E2 & _ & _ & _ & _ & Hopen); [rewrite E; set_solver|].
  assert (L2' = L2) as ->.
  { rewrite E in E2. destruct (sorted_mid_unique vn_min v L1 L2 L1' L2') as [<- <-]; [|done|done]. rewrite <- E. by apply ot_wf_sorted, Hi. }
  destruct Hopen as [(-> & _)|(L & o & -> & _ & HL & Ho & _)]; [done|].
  destruct (ivs_head L o n HL Ho Hn) as (u & Hu & _ & Hr). exists u. split; [done|]. split; [|done]. destruct (L ++ [o]); [done|]. simpl in Hu. injection Hu as ->. set_solver.
Qed.

(** A sample [q] in the interval [v]: [l1] is before, [l2] after it. *)
Record in_intv w (v : whc_intvnode) (q : Z) (nd : whc_node) (l1 l2 : list Z) (L1 L2 : list whc_intvnode) : Prop := {
  ii_ok : intv_ok (wh_seq w) (wh_open_intv w);
  ii_elements : ot_elements (wh_seq w) = L1 ++ v :: L2;
  ii_in : vn_min v <= q < vn_maxp1 v;
  ii_full : vn_full v;
  ii_open : (vn_min v =? wh_open_intv w) = true <-> L2 = [];
  ii_before : l1 = ivs_seqs L1 ++ range (vn_min v) q;
  ii_after : l2 = range (q + 1) (vn_maxp1 v) ++ ivs_seqs L2;
  ii_above : chain (vn_maxp1 v) L2;
  ii_node : nd_seq nd = q /\ nd_prev_seq nd = last l1 /\ nd_next_seq nd = head l2;
  ii_links : forall p, last l1 = Some p \/ head l2 = Some p -> exists pn, whc_findseq w p = Some pn /\ nd_seq pn = p;
}.

(** The sample is taken out of the intervals; the result has the interval of
    the next one. *)
Definition cut w (l1 l2 : list Z) (r : option (whc (T := T) * option Z)) : Prop :=
  exists t' open' pi, r = Some (set_seq w t' open', pi) /\ intv_ok t' open' /\ ivs_seqs (ot_elements t') = l1 ++ l2 /\
    (forall n, head l2 = Some n -> exists u, pi = Some (vn_min u) /\ u ∈ ot_elements t' /\ n ∈ vn_range u).

Lemma in_intv_seqs w v q nd l1 l2 L1 L2 t' M : in_intv w v q nd l1 l2 L1 L2 -> ot_elements t' = L1 ++ M ++ L2 ->
  ivs_seqs M = range (vn_min v) q ++ range (q + 1) (vn_maxp1 v) -> ivs_seqs (ot_elements t') = l1 ++ l2.
Proof. intros [_ _ _ _ _ -> -> _ _ _] -> HM. rewrite !ivs_seqs_app, HM. by rewrite !app_assoc. Qed.

Lemma delete_first w v q nd l1 l2 L1 L2 : in_intv w v q nd l1 l2 L1 L2 -> vn_min v = q -> cut w l1 l2 (delete_from_intv w v q nd).
Proof.
  intros H Eq. pose proof (fun t' M => in_intv_seqs w v q nd l1 l2 L1 L2 t' M H) as Hset.
  destruct H as [Hi E Hq (Hlt & Hf & Hl) Hopen' Hl1 Hl2 _ (Hnq & Hprev & Hnext) Hnb]. unfold delete_from_intv. rewrite Hf, Hl. pose proof (vo_wf _ _ Hi) as Hw.
  rewrite decide_True by congruence.
  destruct (bool_decide (Some (vn_maxp1 v - 1) = Some q) && negb (vn_min v =? wh_open_intv w)) eqn:Ec.
  + apply andb_prop in Ec as [Ec%bool_decide_eq_true Eo]. injection Ec as Ec. apply negb_true_iff in Eo.
    assert (HL2 : L2 <> []) by (intros HL; by rewrite (proj2 Hopen' HL) in Eo).
    destruct (ot_delete_spec vn_min (wh_seq w) (vn_min v) Hw) as [Hw' E'].
    rewrite E, l_delete_mid in E' by (rewrite <- E; by apply ot_wf_sorted). eexists _, _, _. split; [done|]. split; [|split].
    * eapply (intv_change _ _ _ _ L1 v L2 []); eauto; simpl; try lia. by intros HL; destruct (HL2 HL).
    * apply (Hset _ []); [done|]. rewrite !range_nil by lia. done.
    * intros n Hn. rewrite Hl2, range_nil in Hn by lia. simpl in Hn. destruct (intv_next _ _ _ _ _ n Hi E Hn) as (u & Hu & Hin & Hr).
      exists u. rewrite (intv_succ _ _ _ _ _ Hi E), Hu. split; [done|]. split; [|done]. rewrite E'. set_solver.
  + set (v' := WhcIntvnode (vn_min v + 1) (vn_maxp1 v) (nd_next_seq nd) (Some (vn_maxp1 v - 1))).
    assert (Hv' : vn_full v' \/ L2 = [] /\ vn_min v' = vn_maxp1 v' /\ vn_first v' = None).
    { destruct (Z.eq_dec (vn_maxp1 v) (q + 1)) as [Em|Em].
      - right. assert (HL2 : L2 = []). { apply Hopen'. apply andb_false_iff in Ec as [Ec|Ec]; [|by apply negb_false_iff in Ec].
          apply bool_decide_eq_false in Ec. destruct Ec. f_equal. lia. }
        split; [done|]. split; [simpl; lia|]. simpl. rewrite Hnext, Hl2, HL2, range_nil by lia. done.
      - left. split; [simpl; lia|]. split; [|done]. simpl. rewrite Hnext, Hl2, range_cons by lia. simpl. f_equal. lia. }
    destruct (intv_replace _ _ (if vn_min v =? wh_open_intv w then vn_min v' else wh_open_intv w) L1 v v' L2 Hi E) as [Hi' E']; [simpl; lia|simpl; lia|..].
    { intros HL. rewrite (proj2 Hopen' HL). split; [|done]. destruct Hv' as [Hv'|[_ Hv']]; [by left|by right]. }
    { intros HL. destruct Hv' as [Hv'|[HL' _]]; [|done]. split; [done|]. destruct (vn_min v =? wh_open_intv w) eqn:Eo; [|done]. by destruct HL; apply Hopen'. }
    assert (Hassert : (bool_decide (is_Some (vn_first v')) || (vn_min v =? wh_open_intv w)) && ((vn_min v' <? vn_maxp1 v') || (vn_min v =? wh_open_intv w)) &&
      Bool.eqb (bool_decide (vn_first v' = None)) (vn_min v' =? vn_maxp1 v') = true).
    { destruct Hv' as [(H1 & H2 & _)|(HL & H1 & H2)].
      - rewrite H2, (bool_decide_true _ (mk_is_Some _ _ eq_refl)), (bool_decide_false (Some _ = None)) by done.
        destruct (Z.ltb_spec (vn_min v') (vn_maxp1 v')), (Z.eqb_spec (vn_min v') (vn_maxp1 v')); done || lia.
      - rewrite (proj2 Hopen' HL), H2, H1, Z.eqb_refl, !orb_true_r. done. }
    rewrite Hassert. eexists _, _, _. split; [done|]. split; [done|]. split.
    * apply (Hset _ [v']); [done|]. unfold ivs_seqs. simpl. rewrite app_nil_r, (range_nil (vn_min v)) by lia. unfold vn_range. simpl. by rewrite Eq.
    * intros n Hn. destruct Hv' as [Hv'|(HL & H1 & H2)]; [|simpl in H2; congruence]. exists v'. split; [done|]. split; [rewrite E'; set_solver|].
      destruct Hv' as (H1 & H2 & _). simpl in H2. rewrite Hnext, Hn in H2. injection H2 as ->. apply elem_of_range. simpl in *. lia.
Qed.

Lemma delete_last w v q nd l1 l2 L1 L2 : in_intv w v q nd l1 l2 L1 L2 -> vn_min v < q -> vn_maxp1 v - 1 = q -> cut w l1 l2 (delete_from_intv w v q nd).
Proof.
  intros H Hmq Eq. pose proof (fun t' M => in_intv_seqs w v q nd l1 l2 L1 L2 t' M H) as Hset.
  destruct H as [Hi E Hq (Hlt & Hf & Hl) Hopen' Hl1 Hl2 _ (Hnq & Hprev & Hnext) Hnb]. unfold delete_from_intv. rewrite Hf, Hl.
  assert (Hp : last l1 = Some (q - 1)) by (rewrite Hl1, range_snoc by done; by rewrite app_assoc, last_snoc).
  rewrite decide_False, decide_True by (try intros [= E1]; (congruence || lia)).
  rewrite Hprev, Hp. cbn [mbind option_bind]. destruct (Hnb (q - 1)) as (pn & -> & Hpn); [by left|]. cbn [mbind option_bind].
  rewrite Hnq, Hpn. destruct (Z.ltb_spec (vn_min v) q), (Z.eqb_spec (q - 1 + 1) q); try lia. simpl negb. cbv iota.
  set (v' := WhcIntvnode (vn_min v) (vn_maxp1 v - 1) (Some (vn_min v)) (Some (q - 1))).
  assert (Hv' : vn_full v') by (split; [simpl; lia|]; split; [done|]; simpl; f_equal; lia).
  destruct (intv_replace _ _ (wh_open_intv w) L1 v v' L2 Hi E) as [Hi' E']; [simpl; lia|simpl; lia|..].
  { intros HL. split; [by left|]. simpl. symmetry. by apply Z.eqb_eq, Hopen'. }
  { done. }
  eexists _, _, _. split; [done|]. split; [done|]. split.
  * apply (Hset _ [v']); [done|]. unfold ivs_seqs. simpl. rewrite (range_nil (q + 1)) by lia. unfold vn_range. simpl. by rewrite !app_nil_r, Eq.
  * intros n Hn. rewrite Hl2, range_nil in Hn by lia. simpl in Hn. destruct (intv_next _ _ _ _ _ n Hi E Hn) as (u & Hu & Hin & Hr).
    exists u. rewrite (intv_succ _ _ _ _ _ Hi E), Hu. split; [done|]. split; [|done]. rewrite E'. set_solver.
Qed.

Lemma delete_middle w v q nd l1 l2 L1 L2 : in_intv w v q nd l1 l2 L1 L2 -> vn_min v < q -> q + 1 < vn_maxp1 v -> cut w l1 l2 (delete_from_intv w v q nd).
Proof.
  intros H Hmq Hqm. pose proof (fun t' M => in_intv_seqs w v q nd l1 l2 L1 L2 t' M H) as Hset.
  destruct H as [Hi E Hq (Hlt & Hf & Hl) Hopen' Hl1 Hl2 Habove (Hnq & Hprev & Hnext) Hnb]. unfold delete_from_intv. rewrite Hf, Hl.
  assert (Hp : last l1 = Some (q - 1)) by (rewrite Hl1, range_snoc by done; by rewrite app_assoc, last_snoc).
  rewrite decide_False, decide_False by (intros [= E1]; lia).
  assert (Hn : head l2 = Some (q + 1)) by (rewrite Hl2, range_cons by done; done).
  rewrite Hnext, Hn. cbn [mbind option_bind]. destruct (Hnb (q + 1)) as (nn & -> & Hnn); [by right|]. cbn [mbind option_bind].
  rewrite Hnq, Hnn, Hprev, Hp. simpl vn_min. simpl vn_maxp1.
  destruct (Z.eqb_spec (q + 1) (q + 1)), (Z.ltb_spec (vn_min v) q), (Z.ltb_spec (q + 1) (vn_maxp1 v)); try lia. simpl negb. cbv iota.
  set (v1 := WhcIntvnode (vn_min v) q (Some (vn_min v)) (Some (q - 1))). set (v2 := WhcIntvnode (q + 1) (vn_maxp1 v) (Some (q + 1)) (Some (vn_maxp1 v - 1))).
  assert (Hv1 : vn_full v1) by done. assert (Hv2 : vn_full v2) by done.
  destruct (intv_replace _ _ (wh_open_intv w) L1 v v1 L2 Hi E) as [Hi1 E1]; [simpl; lia|simpl; lia|..].
  { intros HL. split; [by left|]. simpl. symmetry. by apply Z.eqb_eq, Hopen'. }
  { done. }
  pose proof (ot_wf_sorted _ _ (vo_wf _ _ Hi)) as Hs. rewrite E in Hs. apply sorted_mid in Hs as (_ & _ & S3 & _ & _).
  assert (Hlow : Forall (fun u => key_lt vn_min u v2) (L1 ++ [v1])).
  { apply Forall_app. split; [|constructor; [unfold key_lt; simpl; lia|constructor]]. eapply Forall_impl; [exact S3|]. unfold key_lt. simpl. lia. }
  assert (Hhigh : Forall (key_lt vn_min v2) L2).
  { apply Forall_forall. intros u Hu. unfold key_lt. simpl. pose proof (chain_ge _ _ _ Habove Hu). lia. }
  replace (L1 ++ v1 :: L2) with ((L1 ++ [v1]) ++ L2) in E1 by (by rewrite <- app_assoc).
  assert (Hno : Forall (fun u => vn_min u <> vn_min v2) ((L1 ++ [v1]) ++ L2)).
  { apply Forall_app. split; (eapply Forall_impl; [eassumption|]); unfold key_lt; simpl; lia. }
  rewrite ot_lookup_spec, E1 by apply Hi1. replace (l_lookup vn_min (q + 1) _) with (@None whc_intvnode) by (symmetry; by apply l_lookup_None).
  destruct (ot_insert_spec vn_min (ot_replace vn_min (wh_seq w) (vn_min v) v1) v2 (vo_wf _ _ Hi1)) as [Hw2 E2]; [by rewrite E1|].
  rewrite E1, l_insert_mid, <- app_assoc in E2 by done. eexists _, _, _. split; [done|]. split; [|split].
  * apply (intv_change (wh_seq w) _ (wh_open_intv w) _ L1 v L2 [v1; v2] Hi E Hw2 E2); simpl; [lia|lia|..].
    -- intros HL. exists [v1], v2. rewrite (proj2 Hopen' HL). split; [done|]. split; [by constructor|]. by split; [left|].
    -- intros HL. split; [by constructor; [|constructor]|]. destruct (vn_min v =? wh_open_intv w) eqn:Eo; [|done]. by destruct HL; apply Hopen'.
  * apply (Hset _ [v1; v2]); [done|]. unfold ivs_seqs. simpl. by rewrite app_nil_r.
  * intros n Hn'. rewrite Hn in Hn'. injection Hn' as <-. exists v2. split; [done|]. split; [rewrite E2; set_solver|]. apply elem_of_range. simpl. lia.
Qed.

Lemma delete_from_intv_spec w v q nd l1 l2 :
  intv_ok (wh_seq w) (wh_open_intv w) -> v ∈ intvs w -> q ∈ vn_range v -> seqs w = l1 ++ q :: l2 ->
  nd_seq nd = q -> nd_prev_seq nd = last l1 -> nd_next_seq nd = head l2 ->
  (forall p, last l1 = Some p \/ head l2 = Some p -> exists pn, whc_findseq w p = Some pn /\ nd_seq pn = p) ->
  cut w l1 l2 (delete_from_intv w v q nd).
Proof.
  intros Hi Hv Hq Hseq Hnq Hprev Hnext Hnb. pose proof (intv_full _ _ _ _ Hi Hv Hq) as Hfull.
  destruct (intv_sides _ _ _ Hi Hv) as (L1 & L2 & E & _ & _ & _ & Habove & Hopen). apply elem_of_range in Hq.
  assert (Hin : in_intv w v q nd l1 l2 L1 L2).
  { assert (Hparts : l1 = ivs_seqs L1 ++ range (vn_min v) q /\ l2 = range (q + 1) (vn_maxp1 v) ++ ivs_seqs L2).
    { assert (Hsort : NoDup (seqs w)) by (eapply sorted_lt_NoDup, chain_sorted, intv_ok_chain, Hi).
      unfold seqs, intvs in *. rewrite E, ivs_seqs_app, ivs_seqs_cons in Hseq, Hsort. unfold vn_range in Hseq, Hsort. rewrite (range_mid _ q) in Hseq, Hsort by done.
      rewrite <- app_assoc, app_assoc in Hseq, Hsort. rewrite <- app_comm_cons in Hseq, Hsort. by destruct (mid_unique _ _ _ _ _ Hsort Hseq) as [<- <-]. }
    destruct Hparts. split; auto. rewrite Z.eqb_eq. destruct Hopen as [(-> & -> & _)|(L & o & -> & _ & _ & _ & ->)]; [done|]. split; [|by destruct L].
    intros Eq. pose proof (ot_wf_sorted _ _ (vo_wf _ _ Hi)) as Hs. rewrite E in Hs. apply sorted_mid in Hs as (_ & _ & _ & Hs & _).
    rewrite Forall_app in Hs. destruct Hs as [_ Hs]. apply Forall_cons in Hs as [Hs _]. unfold key_lt in Hs. lia. }
  destruct (Z.eq_dec (vn_min v) q); [by eapply delete_first|]. destruct (Z.eq_dec (vn_maxp1 v - 1) q).
  - eapply delete_last; eauto. lia.
  - eapply delete_middle; eauto; lia.
Qed.

(** ** The links *)

Lemma last_app_self (a b : list Z) x : NoDup (a ++ x :: b) -> last (a ++ x :: b) = Some x -> b = [].
Proof.
  intros Hn Hl. destruct b as [|y b]; [done|]. rewrite last_app_cons in Hl. rewrite last_cons_cons in Hl.
  apply last_Some_elem_of in Hl. apply NoDup_app in Hn as (_ & _ & Hn). apply NoDup_cons in Hn as [Hn _]. done.
Qed.

(** The node [x] after [q], between [p] and [n], is gone. *)
Definition relinked (p n : option Z) (x : Z) (nd : whc_node) : whc_node :=
  let nd := if decide (p = Some x) then nd_set_next nd n else nd in if decide (n = Some x) then nd_set_prev nd p else nd.

Lemma relinked_info p n x nd : nd_info (relinked p n x nd) = nd_info nd.
Proof. unfold relinked. by destruct (decide (p = Some x)), (decide (n = Some x)). Qed.

Lemma upd_node_opt_spec w (o : option Z) f : (forall x, o = Some x -> is_Some (wh_seq_hash w !! x)) ->
  exists h', upd_node_opt w o f = Some (set_hash w h') /\ forall x, h' !! x = (if decide (o = Some x) then f else id) <$> wh_seq_hash w !! x.
Proof.
  intros Ho. destruct o as [o|]; cbn [upd_node_opt].
  - destruct (Ho o eq_refl) as [no Eo]. unfold upd_node. rewrite Eo. cbn [mbind option_bind]. eexists. split; [done|]. intros x.
    destruct (decide (o = x)) as [->|Hne]; [rewrite decide_True, lookup_insert_eq, Eo by done; done|].
    rewrite decide_False, lookup_insert_ne by congruence. by rewrite option_fmap_id.
  - exists (wh_seq_hash w). split; [by destruct w|]. intros x. rewrite decide_False by done. by rewrite option_fmap_id.
Qed.

Lemma unlink_lookup w q nd p n : nd_prev_seq nd = p -> nd_next_seq nd = n -> is_Some (wh_seq_hash w !! q) ->
  p <> Some q -> n <> Some q -> (p = n -> p = None) -> (forall x, p = Some x \/ n = Some x -> is_Some (wh_seq_hash w !! x)) ->
  exists h', unlink w q nd = Some (set_hash w h') /\ forall x, h' !! x = if decide (x = q) then None else relinked p n x <$> wh_seq_hash w !! x.
Proof.
  intros <- <- [nq Hq] Hp Hn Hpn Hx. unfold unlink, whc_findseq. rewrite Hq. cbn [mbind option_bind].
  destruct (upd_node_opt_spec (set_hash w (delete q (wh_seq_hash w))) (nd_prev_seq nd) (fun p0 => nd_set_next p0 (nd_next_seq nd))) as (h1 & E1 & L1).
  { intros x Ex. simpl. rewrite lookup_delete_ne by congruence. apply Hx. by left. }
  rewrite E1. cbn [mbind option_bind].
  destruct (upd_node_opt_spec (set_hash (set_hash w (delete q (wh_seq_hash w))) h1) (nd_next_seq nd) (fun n0 => nd_set_prev n0 (nd_prev_seq nd))) as (h2 & E2 & L2).
  { intros x Ex. simpl. rewrite L1. simpl. rewrite lookup_delete_ne by congruence. apply fmap_is_Some. apply Hx. by right. }
  rewrite E2. exists h2. split; [done|]. intros x. rewrite L2. simpl. rewrite L1. simpl. destruct (decide (x = q)) as [->|Hne]; [by rewrite lookup_delete_eq|].
  rewrite lookup_delete_ne by done. rewrite <- option_fmap_compose. destruct (wh_seq_hash w !! x) as [nx|]; [|done]. simpl. f_equal.
  unfold relinked, compose. by destruct (decide (nd_prev_seq nd = Some x)), (decide (nd_next_seq nd = Some x)).
Qed.

Lemma linked_neq hash l1 q l2 : linked hash (l1 ++ q :: l2) -> NoDup (l1 ++ q :: l2) ->
  last l1 <> Some q /\ head l2 <> Some q /\ (last l1 = head l2 -> last l1 = None).
Proof.
  intros _ Hn. apply NoDup_app in Hn as (N1 & N2 & N3). apply NoDup_cons in N3 as [N3 N4].
  assert (Hl : forall x, last l1 = Some x -> x ∈ l1) by (intros x Hx; by apply last_Some_elem_of).
  assert (Hh : forall x, head l2 = Some x -> x ∈ l2) by (intros x Hx; destruct l2; [done|]; simpl in Hx; simplify_eq; set_solver).
  split; [intros Hx%Hl; apply (N2 q Hx); set_solver|]. split; [by intros Hx%Hh|].
  intros E. destruct (last l1) as [x|] eqn:El; [|done]. destruct (N2 x (Hl x eq_refl)). right. by apply Hh.
Qed.

Lemma linked_remove hash hash' l1 q l2 : linked hash (l1 ++ q :: l2) -> NoDup (l1 ++ q :: l2) ->
  (forall x, hash' !! x = if decide (x = q) then None else relinked (last l1) (head l2) x <$> hash !! x) -> linked hash' (l1 ++ l2).
Proof.
  intros [Hn Hd] Hnd Hl. assert (Hin : forall x, last l1 = Some x -> x ∈ l1) by (intros x Hx; by apply last_Some_elem_of).
  assert (Hin2 : forall x, head l2 = Some x -> x ∈ l2) by (intros x Hx; destruct l2; [done|]; simpl in Hx; simplify_eq; set_solver).
  apply NoDup_app in Hnd as (N1 & N2 & N3). apply NoDup_cons in N3 as [N3 N4]. split.
  - intros m1 x m2 E. assert (Hx : x ∈ l1 ++ l2) by (rewrite E; set_solver). assert (Hne : x <> q) by (intros ->; apply elem_of_app in Hx as [Hx|Hx]; [apply (N2 q Hx)|]; set_solver).
    assert (N : NoDup (l1 ++ l2)) by (apply NoDup_app; split; [done|]; split; [|done]; intros y Hy Hy2; apply (N2 y Hy); set_solver).
    rewrite Hl, decide_False by done. apply elem_of_app in Hx as [Hx|Hx]; apply list_elem_of_split in Hx as (a & b & ->).
    + rewrite <- app_assoc in E, N. simpl in E, N. destruct (mid_unique _ _ _ _ _ N E) as [<- <-].
      destruct (Hn a x (b ++ q :: l2)) as (nx & -> & E1 & E2 & E3); [by rewrite <- app_assoc|]. eexists. split; [done|].
      unfold relinked. rewrite (decide_False (P := head l2 = Some x)) by (intros Hx%Hin2; apply (N2 x); set_solver).
      destruct (decide (last (a ++ x :: b) = Some x)) as [El|El]; simpl; [|].
      * assert (b = []) as -> by (by eapply last_app_self). done.
      * split; [done|]. split; [done|]. rewrite E3. destruct b; [|done]. by rewrite last_snoc in El.
    + rewrite app_assoc in E, N. destruct (mid_unique _ _ _ _ _ N E) as [<- <-].
      destruct (Hn (l1 ++ q :: a) x b) as (nx & -> & E1 & E2 & E3); [by rewrite <- app_assoc|]. eexists. split; [done|].
      unfold relinked. rewrite (decide_False (P := last l1 = Some x)) by (intros Hx%Hin; apply (N2 x Hx); set_solver).
      destruct (decide (head (a ++ x :: b) = Some x)) as [El|El]; simpl.
      * assert (a = []) as -> by (destruct a as [|y a]; [done|]; simpl in El; simplify_eq; apply NoDup_cons in N4 as [N4 _]; set_solver).
        split; [done|]. split; [by rewrite app_nil_r|done].
      * split; [done|]. split; [|done]. rewrite E2. destruct a as [|y a]; [done|]. rewrite last_app_cons, (last_app_cons l1). by rewrite last_cons_cons.
  - intros x nd Ex. rewrite Hl in Ex. destruct (decide (x = q)); [done|]. destruct (hash !! x) as [nx|] eqn:En; [|done]. apply Hd in En. set_solver.
Qed.

(** ** Counting *)

Context (fragment_size : Z) (Hfs : 0 < fragment_size).

Lemma usum_app o im l1 l2 : usum fragment_size o im (l1 ++ l2) = usum fragment_size o im l1 + usum fragment_size o im l2.
Proof. induction l1 as [|x l1 IH]; simpl; [done|]. rewrite IH. lia. Qed.
Lemma usum_ext o im im' l : (forall q, q ∈ l -> cost_at fragment_size o im q = cost_at fragment_size o im' q) ->
  usum fragment_size o im l = usum fragment_size o im' l.
Proof. induction l as [|x l IH]; intros H; simpl; [done|]. rewrite (H x), IH by set_solver. done. Qed.
Lemma usum_delete o im q l : q ∉ l -> usum fragment_size o (delete q im) l = usum fragment_size o im l.
Proof. intros Hq. apply usum_ext. intros x Hx. unfold cost_at. rewrite lookup_delete_ne; [done|]. by intros ->. Qed.
Lemma usum_insert o im q i l : q ∉ l -> usum fragment_size o (<[q := i]> im) l = usum fragment_size o im l.
Proof. intros Hq. apply usum_ext. intros x Hx. unfold cost_at. rewrite lookup_insert_ne; [done|]. by intros ->. Qed.

Lemma cost_nonneg o (i : info) : 0 <= o -> 0 <= sd_size i.2 -> 0 <= cost fragment_size o i.
Proof. intros Ho Hs. unfold cost. destruct i.1.2; [|lia]. assert (0 <= (sd_size i.2 + fragment_size - 1) / fragment_size) by (apply Z.div_pos; lia). nia. Qed.
Lemma usum_nonneg o (im : gmap Z info) l : 0 <= o -> (forall q i, im !! q = Some i -> 0 <= sd_size i.2) -> 0 <= usum fragment_size o im l.
Proof.
  intros Ho Hs. induction l as [|x l IH]; simpl; [lia|]. assert (0 <= cost_at fragment_size o im x); [|lia].
  unfold cost_at. destruct (im !! x) as [i|] eqn:E; [|lia]. apply cost_nonneg; eauto.
Qed.

Lemma uncount_spec w nd : 0 <= cost fragment_size (wh_sample_overhead w) (nd_info nd) <= wh_unacked_bytes w ->
  uncount fragment_size w nd = Some (set_unacked w (wh_unacked_bytes w - cost fragment_size (wh_sample_overhead w) (nd_info nd))).
Proof.
  unfold cost, nd_info, uncount, whcn_size. simpl. destruct (nd_unacked nd).
  - intros Hc. destruct (Z.geb_spec (wh_unacked_bytes w) (sd_size (nd_serdata nd) + (sd_size (nd_serdata nd) + fragment_size - 1) / fragment_size * wh_sample_overhead w)); [done|lia].
  - intros _. rewrite Z.sub_0_r. by destruct w.
Qed.

(** ** The index *)

(** A sample may leave the index: it is not among the latest [tl], and if it is
    the head of its ring it is the only one in it. *)
Definition may_leave (depth tl : nat) (x : whc_idxnode) (pos : nat) : Prop :=
  pos <> ix_headidx x /\ (tl <= dist_of depth (ix_headidx x) pos)%nat \/
  pos = ix_headidx x /\ tl = 0%nat /\ forall i, (i < depth)%nat -> i <> pos -> ix_hist x !! i = Some None.

Definition leave (idx : gmap Z whc_idxnode) (k : Z) (x : whc_idxnode) (pos : nat) : gmap Z whc_idxnode :=
  if decide (pos = ix_headidx x) then delete k idx
  else <[k := WhcIdxnode (ix_prune_seq x) (ix_headidx x) (<[pos := None]> (ix_hist x))]> idx.

(** A node in the index is where it says it is. *)
Lemma idx_ok_place depth tl log idx im q k pos u sd : idx_ok depth tl log idx im -> im !! q = Some (Some k, pos, u, sd) ->
  exists x, idx !! k = Some x /\ ix_hist x !! pos = Some (Some q) /\ (pos < depth)%nat /\ ring_ok depth tl (log k) k x im.
Proof.
  intros [I1 I2 I3 I4] Hq. destruct (I2 _ _ _ _ _ Hq) as (x & Hx & Hp). exists x. split; [done|]. split; [done|].
  pose proof (I1 _ _ Hx) as Hr. split; [|done]. rewrite <- (ro_len _ _ _ _ _ _ Hr). by eapply lookup_lt_Some.
Qed.

Lemma ring_other depth tl (lg : list Z) k x im q k' pos' u sd i : im !! q = Some (Some k', pos', u, sd) -> k' <> k ->
  ring_ok depth tl lg k x im -> ring_ok depth tl lg k x (<[q := i]> im).
Proof.
  intros Hq Hk [R1 R2 R3 R4 R5]. split; auto. intros d q' Hd Hq'. destruct (R4 d q' Hd Hq') as (Hl & u' & sd' & Hi & Hs).
  split; [done|]. exists u', sd'. split; [|done]. rewrite lookup_insert_ne; [done|]. intros ->. congruence.
Qed.

Lemma idx_ok_leave depth tl log idx im q k pos u sd x :
  idx_ok depth tl log idx im -> im !! q = Some (Some k, pos, u, sd) -> idx !! k = Some x -> may_leave depth tl x pos ->
  idx_ok depth tl log (leave idx k x pos) (<[q := (None, pos, u, sd)]> im).
Proof.
  intros Hok Hq Hx Hm. destruct (idx_ok_place _ _ _ _ _ _ _ _ _ _ Hok Hq) as (x' & Hx' & Hp & Hlt & Hr). rewrite Hx in Hx'. injection Hx' as <-.
  destruct Hok as [I1 I2 I3 I4]. unfold leave. destruct Hm as [[Hne Ht]|(-> & -> & Hall)]; [rewrite decide_False by done|rewrite decide_True by done]; split; auto.
  - intros k' x' Hx'. apply lookup_insert_Some in Hx' as [[<- <-]|[Hk Hx']]; [|by eapply ring_other; eauto].
    destruct Hr as [R1 R2 [h R3] R4 R5]. split; simpl; auto.
    + by rewrite length_insert.
    + exists h. by rewrite list_lookup_insert_ne.
    + intros d q' Hd Hq'. apply list_lookup_insert_Some in Hq' as [(_ & E & _)|[Hpos Hq']]; [done|]. destruct (R4 d q' Hd Hq') as (Hl & u' & sd' & Hi & Hs).
      split; [done|]. exists u', sd'. split; [|done]. rewrite lookup_insert_ne; [done|]. intros ->. rewrite Hq in Hi. congruence.
    + intros d Hd Hd' Hn. apply list_lookup_insert_Some in Hn as [(E & _ & _)|[Hpos Hn]]; [|by apply R5].
      rewrite E, dist_pos in Ht by done. lia.
  - intros q' k' pos' u' sd' Hi. apply lookup_insert_Some in Hi as [[_ E]|[Hne' Hi]]; [done|]. destruct (I2 _ _ _ _ _ Hi) as (x' & Hx' & Hp').
    destruct (decide (k' = k)) as [->|Hk]; [|exists x'; by rewrite lookup_insert_ne]. rewrite Hx in Hx'. injection Hx' as <-.
    eexists. rewrite lookup_insert_eq. split; [done|]. simpl. rewrite list_lookup_insert_ne; [done|]. intros ->. rewrite Hp in Hp'. congruence.
  - intros k' Hk'. apply lookup_insert_None in Hk' as [Hk' _]. auto.
  - intros k' x' Hx'. apply lookup_delete_Some in Hx' as [Hk Hx']. by eapply ring_other; eauto.
  - intros q' k' pos' u' sd' Hi. apply lookup_insert_Some in Hi as [[_ E]|[Hne' Hi]]; [done|]. destruct (I2 _ _ _ _ _ Hi) as (x' & Hx' & Hp').
    destruct (decide (k' = k)) as [->|Hk]; [|exists x'; by rewrite lookup_delete_ne]. rewrite Hx in Hx'. injection Hx' as <-.
    destruct (decide (pos' = ix_headidx x)) as [->|Hne]; [rewrite Hp in Hp'; congruence|]. rewrite (Hall pos') in Hp'; [done| |done].
    rewrite <- (ro_len _ _ _ _ _ _ Hr). by eapply lookup_lt_Some.
Qed.

Lemma ring_checks depth tl (lg : list Z) k x im q pos : ring_ok depth tl lg k x im -> ix_hist x !! pos = Some (Some q) ->
  bool_decide (is_Some (mjoin (ix_hist x !! ix_headidx x))) && bool_decide (ix_hist x !! pos = Some (Some q)) = true.
Proof. intros [_ _ [h Hh] _ _] Hp. rewrite Hh, Hp. simpl. by rewrite !bool_decide_true by eauto. Qed.

Definition leaves w (q : Z) : Prop := forall k pos u sd, infos w !! q = Some (Some k, pos, u, sd) ->
  exists x, lookup_idxnode w k = Some x /\ may_leave (wh_idxdepth w) (wh_tldepth w) x pos.

(** The index without a sample. *)
Definition left_idx (idx : option (gmap Z whc_idxnode)) (i : option info) : option (gmap Z whc_idxnode) :=
  match i with
  | Some (Some k, pos, _, _) => (fun m => match m !! k with Some x => leave m k x pos | None => m end) <$> idx
  | _ => idx
  end.

Lemma delete_one_sample_from_idx_spec log w q nd k :
  core fragment_size log w -> wh_seq_hash w !! q = Some nd -> nd_idxnode nd = Some k -> leaves w q ->
  delete_one_sample_from_idx w q =
    Some (set_hash (set_idx w (left_idx (wh_idx_hash w) (Some (nd_info nd)))) (<[q := nd_set_idx nd None (nd_idxnode_pos nd)]> (wh_seq_hash w))).
Proof.
  intros Hc Hq Hk Hl. assert (Hi : infos w !! q = Some (Some k, nd_idxnode_pos nd, nd_unacked nd, nd_serdata nd)).
  { unfold infos. rewrite lookup_fmap, Hq. unfold nd_info. simpl. by rewrite Hk. }
  destruct (Hl _ _ _ _ Hi) as (x & Hx & Hm). unfold lookup_idxnode in Hx. pose proof (co_idx _ _ _ Hc) as Hio.
  destruct (wh_idx_hash w) as [idx|] eqn:Eidx; [|done]. simpl in Hx. destruct (idx_ok_place _ _ _ _ _ _ _ _ _ _ Hio Hi) as (x' & Hx' & Hp & _ & Hr).
  rewrite Hx in Hx'. injection Hx' as <-. unfold delete_one_sample_from_idx, whc_findseq, lookup_idxnode. rewrite Hq, Eidx. simpl. rewrite Hk. simpl.
  rewrite Hx. simpl. rewrite (ring_checks _ _ _ _ _ _ _ _ Hr Hp). unfold upd_idxnode, upd_node, leave. rewrite Eidx. simpl.
  destruct Hm as [[Hne _]|(He & _ & Hall)].
  - rewrite (proj2 (Nat.eqb_neq _ _) Hne), decide_False by done. simpl. by rewrite Hq.
  - rewrite (proj2 (Nat.eqb_eq _ _) He), decide_True by done. simpl.
    rewrite (proj2 (forallb_forall _ _)); [simpl; by rewrite Hq|]. intros i Hin%list_elem_of_In%elem_of_seq.
    destruct (Nat.eqb_spec i (ix_headidx x)) as [->|Hne]; [done|]. simpl. apply bool_decide_eq_true, Hall; [lia|congruence].
Qed.
End Ops.

(** ** [whc_delete_one] and the loops that use it *)

Section Delete.
Context {T : Type -> Type} `{!OrdTree T, !OrdTreeLaws T}.
Context (fragment_size : Z) (Hfs : 0 < fragment_size).
Implicit Types (w : whc (T := T)) (t : T whc_intvnode) (log : Z -> list Z).

(** What no deletion changes. *)
Definition conf w : Z * bool * nat * nat * nat * Z * option Z :=
  (wh_sample_overhead w, wh_is_transient_local w, wh_hdepth w, wh_tldepth w, wh_idxdepth w, wh_max_drop_seq w, wh_maxseq_node w).

Lemma conf_fields w w' : conf w' = conf w ->
  wh_sample_overhead w' = wh_sample_overhead w /\ wh_is_transient_local w' = wh_is_transient_local w /\ wh_hdepth w' = wh_hdepth w /\
  wh_tldepth w' = wh_tldepth w /\ wh_idxdepth w' = wh_idxdepth w /\ wh_max_drop_seq w' = wh_max_drop_seq w /\ wh_maxseq_node w' = wh_maxseq_node w.
Proof. unfold conf. intros E. by injection E. Qed.

(** The sample [q] is gone. *)
Record deleted w (q : Z) (l1 l2 : list Z) w' : Prop := {
  de_seqs : seqs w' = l1 ++ l2;
  de_infos : infos w' = delete q (infos w);
  de_idx : wh_idx_hash w' = left_idx (wh_idx_hash w) (infos w !! q);
  de_conf : conf w' = conf w;
}.

(** ** [whc_delete_one_intv] *)

Lemma core_node w l1 q l2 : base fragment_size w -> seqs w = l1 ++ q :: l2 ->
  exists nd, wh_seq_hash w !! q = Some nd /\ nd_seq nd = q /\ nd_prev_seq nd = last l1 /\ nd_next_seq nd = head l2.
Proof. intros [_ Hl _ _] E. by apply (lk_node _ _ Hl). Qed.

Lemma core_find w q : base fragment_size w -> q ∈ seqs w -> exists nd, wh_seq_hash w !! q = Some nd /\ nd_seq nd = q.
Proof. intros Hc Hq. destruct (sorted_split_at _ _ Hq) as (l1 & l2 & E). destruct (core_node _ _ _ _ Hc E) as (nd & H1 & H2 & _). eauto. Qed.

Lemma core_infos w q : base fragment_size w -> is_Some (infos w !! q) <-> q ∈ seqs w.
Proof.
  intros Hc. unfold infos. rewrite lookup_fmap, fmap_is_Some. split.
  - intros [nd Hn]. eapply lk_dom; [apply Hc|done].
  - intros Hq. destruct (core_find _ _ Hc Hq) as (nd & Hn & _). eauto.
Qed.

(** Its part of the index. *)
Lemma out_of_idx log w q nd : core fragment_size log w -> wh_seq_hash w !! q = Some nd -> leaves w q ->
  (match nd_idxnode nd with Some _ => delete_one_sample_from_idx w q | None => Some w end) =
  Some (set_hash (set_idx w (left_idx (wh_idx_hash w) (infos w !! q))) (<[q := nd_set_idx nd None (nd_idxnode_pos nd)]> (wh_seq_hash w))).
Proof.
  intros Hc Hq Hl. assert (Hi : infos w !! q = Some (nd_info nd)) by (unfold infos; by rewrite lookup_fmap, Hq). rewrite Hi.
  destruct (nd_idxnode nd) as [k|] eqn:Hk; [by eapply delete_one_sample_from_idx_spec|]. unfold nd_info. rewrite Hk. simpl.
  replace (nd_set_idx nd None (nd_idxnode_pos nd)) with nd by (destruct nd; simpl in *; by subst). rewrite insert_id by done. by destruct w.
Qed.

(** What the index is once the node is gone. *)
Lemma core_left_idx log w q w' : core fragment_size log w -> leaves w q -> wh_tldepth w' = wh_tldepth w -> wh_idxdepth w' = wh_idxdepth w ->
  wh_idx_hash w' = left_idx (wh_idx_hash w) (infos w !! q) -> infos w' = delete q (infos w) ->
  match wh_idx_hash w' with
  | Some idx => idx_ok (wh_idxdepth w') (wh_tldepth w') log idx (infos w')
  | None => wh_tldepth w' = 0%nat /\ forall q k pos u sd, infos w' !! q <> Some (Some k, pos, u, sd)
  end.
Proof.
  intros Hc Hl -> -> -> ->. pose proof (co_idx _ _ _ Hc) as Hio. destruct (infos w !! q) as [[[[[k|] pos] u] sd]|] eqn:Hi.
  - destruct (Hl _ _ _ _ Hi) as (x & Hx & Hm). unfold lookup_idxnode in Hx. destruct (wh_idx_hash w) as [idx|]; [|done]. simpl in Hx |- *.
    rewrite Hx. rewrite <- (delete_insert_eq (infos w) q (None, pos, u, sd)). apply idx_ok_delete; [|by eapply idx_ok_leave].
    intros k' pos' u' sd'. by rewrite lookup_insert_eq.
  - simpl. destruct (wh_idx_hash w) as [idx|]; [apply idx_ok_delete; [|done]; intros; congruence|].
    destruct Hio as [-> Hio]. split; [done|]. intros q' k pos' u' sd' Hq'. apply lookup_delete_Some in Hq' as [_ Hq']. by eapply Hio.
  - simpl. rewrite delete_id by done. destruct (wh_idx_hash w); done.
Qed.

(** Counting, and the node out of the list. *)
Lemma uncounted w l1 q l2 nd : base fragment_size w -> seqs w = l1 ++ q :: l2 -> wh_seq_hash w !! q = Some nd ->
  0 <= cost fragment_size (wh_sample_overhead w) (nd_info nd) <= wh_unacked_bytes w /\
  wh_unacked_bytes w - cost fragment_size (wh_sample_overhead w) (nd_info nd) = usum fragment_size (wh_sample_overhead w) (delete q (infos w)) (l1 ++ l2).
Proof.
  intros Hc E Hq. assert (Hi : infos w !! q = Some (nd_info nd)) by (unfold infos; by rewrite lookup_fmap, Hq).
  pose proof (core_NoDup _ _ Hc) as Hn. rewrite E in Hn. apply NoDup_app in Hn as (_ & N2 & N3). apply NoDup_cons in N3 as [N3 _].
  destruct (co_sizes _ _ Hc) as [Ho Hs]. pose proof (usum_nonneg _ Hfs _ _ l1 Ho Hs). pose proof (usum_nonneg _ Hfs _ _ l2 Ho Hs).
  pose proof (cost_nonneg _ Hfs (wh_sample_overhead w) _ Ho (Hs _ _ Hi)). rewrite (co_unacked _ _ Hc), E, !usum_app, !usum_delete by set_solver.
  simpl. unfold cost_at at 1. rewrite Hi. unfold cost_at. rewrite Hi. lia.
Qed.

(** The deletion, once it is known what happens to the index. *)
Lemma delete_intv_base w v q l1 l2 nd idx' : base fragment_size w -> v ∈ intvs w -> q ∈ vn_range v -> seqs w = l1 ++ q :: l2 -> wh_seq_hash w !! q = Some nd ->
  (match nd_idxnode nd with Some _ => delete_one_sample_from_idx w q | None => Some w end) =
    Some (set_hash (set_idx w idx') (<[q := nd_set_idx nd None (nd_idxnode_pos nd)]> (wh_seq_hash w))) ->
  exists w' pi, whc_delete_one_intv fragment_size w (vn_min v) q = Some (w', pi, head l2) /\ base fragment_size w' /\
    (seqs w' = l1 ++ l2 /\ infos w' = delete q (infos w) /\ wh_idx_hash w' = idx' /\ conf w' = conf w) /\
    wh_seq_size w' = wh_seq_size w /\ (forall n, head l2 = Some n -> exists u, pi = Some (vn_min u) /\ u ∈ intvs w' /\ n ∈ vn_range u).
Proof.
  intros Hc Hv Hq E Hn Hidx. destruct (core_node _ _ _ _ Hc E) as (nd' & Hn' & Hs & Hprev & Hnext). rewrite Hn in Hn'. injection Hn' as <-. unfold whc_delete_one_intv, lookup_intv, whc_findseq.
  rewrite (intv_lookup _ _ _ (co_intv _ _ Hc) Hv). cbn [mbind option_bind]. rewrite Hn. cbn [mbind option_bind].
  apply elem_of_range in Hq as Hr. rewrite Hs, (proj2 (Z.leb_le _ _)), (proj2 (Z.ltb_lt _ _)) by lia. cbn [andb negb].
  rewrite Hidx. cbn [mbind option_bind]. destruct (uncounted _ _ _ _ _ Hc E Hn) as [Hcost Hsum].
  rewrite uncount_spec by exact Hcost. cbn [mbind option_bind].
  set (w2 := set_unacked _ _). pose proof (core_NoDup _ _ Hc) as HN. rewrite E in HN.
  pose proof (co_links _ _ Hc) as Hlk. rewrite E in Hlk. destruct (linked_neq _ _ _ _ Hlk HN) as (Hne1 & Hne2 & Hne3).
  assert (Hnb : forall p, last l1 = Some p \/ head l2 = Some p -> p <> q /\ exists pn, wh_seq_hash w !! p = Some pn /\ nd_seq pn = p).
  { intros p Hp. split; [intros ->; naive_solver|]. apply core_find; [done|]. rewrite E. destruct Hp as [Hp|Hp].
    - apply last_Some_elem_of in Hp. set_solver.
    - destruct l2; [done|]. simpl in Hp. simplify_eq. set_solver. }
  destruct (unlink_lookup w2 q nd (last l1) (head l2) Hprev Hnext) as (h' & Eh & Hh); [simpl; by rewrite lookup_insert_eq|done|done|done|..].
  { intros x Hx. simpl. destruct (Hnb x Hx) as (Hxq & pn & Hpn & _). rewrite lookup_insert_ne by done. eauto. }
  rewrite Eh. cbn [mbind option_bind]. assert (Hh' : forall x, h' !! x = if decide (x = q) then None else relinked (last l1) (head l2) x <$> wh_seq_hash w !! x).
  { intros x. rewrite Hh. destruct (decide (x = q)) as [->|Hx]; [done|]. simpl. by rewrite lookup_insert_ne. }
  destruct (delete_from_intv_spec (set_hash w2 h') v q nd l1 l2 (co_intv _ _ Hc) Hv Hq E Hs Hprev Hnext) as (t' & open' & pi & Ed & Hi' & Hseq' & Hpi).
  { intros p Hp. destruct (Hnb p Hp) as (Hpq & pn & Hpn & Hps). unfold whc_findseq. simpl. rewrite Hh', decide_False, Hpn by done. eexists. split; [done|].
    rewrite <- Hps. unfold relinked. by destruct (decide _), (decide _). }
  rewrite Ed. cbn [mbind option_bind]. rewrite Hnext. eexists _, pi. split; [done|].
  assert (Hinf : nd_info <$> h' = delete q (infos w)).
  { apply map_eq. intros x. unfold infos. rewrite lookup_fmap, Hh', lookup_delete. destruct (decide (x = q)) as [->|Hx]; [by rewrite decide_True|].
    rewrite decide_False, lookup_fmap by done. destruct (wh_seq_hash w !! x) as [nx|]; [|done]. simpl. by rewrite relinked_info. }
  split; [|split; [done|by split]]. split.
  - done.
  - unfold seqs, intvs. simpl. rewrite Hseq'. by eapply linked_remove.
  - unfold infos, seqs, intvs. simpl. by rewrite Hseq', Hinf.
  - destruct (co_sizes _ _ Hc) as [Ho Hsz]. split; [done|]. unfold infos. simpl. rewrite Hinf. intros x i [_ Hx]%lookup_delete_Some. eauto.
Qed.

Lemma whc_delete_one_intv_spec log w v q l1 l2 :
  core fragment_size log w -> v ∈ intvs w -> q ∈ vn_range v -> seqs w = l1 ++ q :: l2 -> leaves w q ->
  exists w' pi, whc_delete_one_intv fragment_size w (vn_min v) q = Some (w', pi, head l2) /\ core fragment_size log w' /\ deleted w q l1 l2 w' /\
    wh_seq_size w' = wh_seq_size w /\ (forall n, head l2 = Some n -> exists u, pi = Some (vn_min u) /\ u ∈ intvs w' /\ n ∈ vn_range u).
Proof.
  intros Hc Hv Hq E Hl. destruct (core_node _ _ _ _ Hc E) as (nd & Hn & _).
  destruct (delete_intv_base _ _ _ _ _ _ _ Hc Hv Hq E Hn (out_of_idx _ _ _ _ Hc Hn Hl)) as (w' & pi & Ew & Hb & (D1 & D2 & D3 & D4) & Hz & Hp).
  exists w', pi. split; [done|]. destruct (conf_fields _ _ D4) as (_ & _ & _ & Et & Ed & _). split; [|by repeat split]. split; [done|]. by apply (core_left_idx log w q).
Qed.

(** A sample that is not in the index is deleted, whatever the index. *)
Lemma delete_unindexed w q l1 l2 nd : base fragment_size w -> seqs w = l1 ++ q :: l2 -> wh_seq_hash w !! q = Some nd -> nd_idxnode nd = None ->
  exists w', whc_delete_one fragment_size w q = Some w' /\ base fragment_size w' /\
    (seqs w' = l1 ++ l2 /\ infos w' = delete q (infos w) /\ wh_idx_hash w' = wh_idx_hash w /\ conf w' = conf w) /\ wh_seq_size w' = wh_seq_size w - 1.
Proof.
  intros Hb E Hn Hi. destruct (core_node _ _ _ _ Hb E) as (nd' & Hn' & Hs & _). rewrite Hn in Hn'. injection Hn' as <-.
  destruct (intv_of (wh_seq w) q) as (v & Hv & Hq); [fold (intvs w) (seqs w); rewrite E; set_solver|].
  destruct (delete_intv_base w v q l1 l2 nd (wh_idx_hash w) Hb Hv Hq E Hn) as (w' & pi & Ew & Hb' & Hd & Hz & _).
  { rewrite Hi. replace (nd_set_idx nd None (nd_idxnode_pos nd)) with nd by (destruct nd; simpl in *; by subst). rewrite insert_id by done. by destruct w. }
  unfold whc_delete_one, whc_findseq. rewrite Hn. cbn [mbind option_bind]. rewrite Hs, (intv_predeq _ _ _ _ (co_intv _ _ Hb) Hv Hq). cbn [mbind option_bind].
  rewrite Ew. cbn [mbind option_bind]. eexists. split; [done|]. split; [by destruct Hb'; split|]. split; [done|]. simpl. lia.
Qed.

Lemma whc_delete_one_spec log w q l1 l2 : core fragment_size log w -> seqs w = l1 ++ q :: l2 -> leaves w q ->
  exists w', whc_delete_one fragment_size w q = Some w' /\ core fragment_size log w' /\ deleted w q l1 l2 w' /\ wh_seq_size w' = wh_seq_size w - 1.
Proof.
  intros Hc E Hl. destruct (core_node _ _ _ _ Hc E) as (nd & Hn & Hs & _). destruct (intv_of (wh_seq w) q) as (v & Hv & Hq); [fold (intvs w) (seqs w); rewrite E; set_solver|].
  destruct (whc_delete_one_intv_spec log w v q l1 l2 Hc Hv Hq E Hl) as (w' & pi & Ew & Hc' & Hd & Hz & _).
  unfold whc_delete_one, whc_findseq. rewrite Hn. cbn [mbind option_bind]. rewrite Hs, (intv_predeq _ _ _ _ (co_intv _ _ Hc) Hv Hq). cbn [mbind option_bind].
  rewrite Ew. cbn [mbind option_bind]. eexists. split; [done|]. split; [by destruct Hc' as [[]]; split|]. split; [by destruct Hd; split|]. simpl. lia.
Qed.
End Delete.
