(* ===== verification/WhcFind.v ===== *)
(** * Looking things up in the writer history cache, and acknowledging

    The ends and the successors of samples, and the first pass of
    [whc_remove_acked_messages]. *)

From Stdlib Require Import ZArith Lia Sorting.Sorted.
From stdpp Require Import prelude gmap.
From S2P Require Import Prelude OrdTree Receive Whc WhcFacts WhcOps.

Section Find.
Context {T : Type -> Type} `{!OrdTree T, !OrdTreeLaws T}.
Implicit Types (w : whc (T := T)) (t : T whc_intvnode) (log : Z -> list Z).

(** ** The ends *)

Lemma full_last L v : vn_full v -> last (ivs_seqs (L ++ [v])) = vn_last v.
Proof. intros (H1 & _ & ->). rewrite ivs_seqs_app. unfold ivs_seqs at 2. simpl. rewrite app_nil_r. unfold vn_range. rewrite range_snoc by done. by rewrite app_assoc, last_snoc. Qed.

Lemma empty_last L v : vn_min v = vn_maxp1 v -> ivs_seqs (L ++ [v]) = ivs_seqs L.
Proof. intros H. rewrite ivs_seqs_app. unfold ivs_seqs at 2. simpl. rewrite app_nil_r. unfold vn_range. rewrite range_nil by lia. by rewrite app_nil_r. Qed.

Lemma findmax_spec w : intv_ok (wh_seq w) (wh_open_intv w) -> wh_seq_size w = Z.of_nat (length (seqs w)) ->
  whc_findmax_procedurally w = Some (last (seqs w)).
Proof.
  intros Hi Hz. unfold whc_findmax_procedurally. rewrite Hz. destruct (Z.eqb_spec (Z.of_nat (length (seqs w))) 0) as [E0|E0].
  - destruct (seqs w); [done|simpl in E0; lia].
  - destruct (intv_ok_parts _ _ Hi) as (L & o & E & HL & Ho & _ & Eo). unfold lookup_intv. rewrite Eo, (intv_lookup _ _ o Hi) by (rewrite E; set_solver).
    cbn [mbind option_bind]. unfold seqs, intvs in *. rewrite E in *. destruct Ho as [Ho|[Em Ef]]; [destruct Ho as (H1 & H2 & H3); rewrite H2; by rewrite full_last by done|].
    rewrite Ef. rewrite (ot_find_pred_spec vn_min _ _ _ _ (vo_wf _ _ Hi) E). rewrite empty_last in * by done.
    destruct L as [|v L _] using rev_ind; [by destruct E0|]. rewrite last_snoc. cbn [mbind option_bind]. apply Forall_app in HL as [_ Hv]; apply Forall_cons in Hv as [Hv _].
    rewrite full_last by done. by destruct Hv as (_ & -> & _).
Qed.

Context (fragment_size : Z).

Lemma last_node log w q : core fragment_size log w -> last (seqs w) = Some q ->
  exists nd, wh_seq_hash w !! q = Some nd /\ nd_seq nd = q /\ nd_next_seq nd = None.
Proof.
  intros Hc [l1 E]%last_Some. destruct (core_node _ _ _ _ _ Hc E) as (nd & H1 & H2 & H3 & H4). eauto.
Qed.

(** All assertions of [check_whc] hold. *)
Lemma check_whc_core log w : core fragment_size log w -> wh_seq_size w = Z.of_nat (length (seqs w)) -> wh_maxseq_node w = last (seqs w) -> check_whc w = true.
Proof.
  intros Hc Hz Hm. pose proof (co_intv _ _ Hc) as Hi. pose proof (findmax_spec _ Hi Hz) as Hmax. rewrite <- Hm in Hmax.
  destruct (intv_ok_parts _ _ Hi) as (L & o & E & HL & Ho & _ & Eo). unfold check_whc, lookup_intv.
  rewrite ot_find_max_spec, E, last_snoc, Eo, (intv_lookup _ _ o Hi), (intv_succ _ _ _ _ _ Hi E) by (rewrite E; set_solver).
  apply andb_true_intro. split; [|by apply bool_decide_eq_true]. simpl. rewrite !(bool_decide_true (_ = _)) by done. simpl. unfold seqs, intvs in Hm. rewrite E in Hm.
  assert (Hlast : match wh_maxseq_node w with Some q => exists nd, whc_findseq w q = Some nd /\ nd_seq nd = q /\ nd_next_seq nd = None | None => True end).
  { destruct (wh_maxseq_node w) as [q|] eqn:Eq; [|done]. apply (last_node log w); [done|]. unfold seqs, intvs. by rewrite E, <- Hm. }
  destruct Ho as [Ho|[Em Ef]].
  - rewrite full_last in Hm by done. destruct Ho as (H1 & H2 & H3). rewrite H2, H3 in *. rewrite Hm in *. destruct Hlast as (nd & Hf & Hs & Hn). rewrite Hf.
    simpl. rewrite Hf, Hn, !bool_decide_true by (done || eauto). simpl. rewrite Hs, (proj2 (Z.ltb_lt _ _)) by done. simpl. apply Z.eqb_eq. lia.
  - rewrite Ef. rewrite (proj2 (Z.eqb_eq _ _)), andb_true_r by done. destruct (wh_maxseq_node w) as [q|]; [|done]. destruct Hlast as (nd & -> & _ & ->). done.
Qed.

Lemma check_whc_ok log w : whc_ok fragment_size log w -> check_whc w = true.
Proof. intros Hk. eapply check_whc_core; apply Hk. Qed.

Lemma whc_empty_spec w : wh_seq_size w = Z.of_nat (length (seqs w)) -> whc_empty w = bool_decide (seqs w = []).
Proof. intros Hz. unfold whc_empty. rewrite Hz. destruct (seqs w); [done|]. rewrite bool_decide_false by done. apply Z.eqb_neq. simpl. lia. Qed.

Lemma whc_max_seq_core log w : core fragment_size log w -> wh_seq_size w = Z.of_nat (length (seqs w)) -> wh_maxseq_node w = last (seqs w) ->
  whc_max_seq w = last (seqs w).
Proof.
  intros Hc Hz Hm. unfold whc_max_seq. rewrite (check_whc_core log), whc_empty_spec by done. cbn [negb orb]. rewrite Hm.
  destruct (last (seqs w)) as [q|] eqn:El; [|apply last_None in El; rewrite bool_decide_true by done; done].
  rewrite bool_decide_false by (intros E; by rewrite E in El). destruct (last_node log w q Hc El) as (nd & Hn & Hs & _). cbn [mbind option_bind].
  unfold whc_findseq. rewrite Hn. cbn [mbind option_bind]. by rewrite Hs.
Qed.

Lemma whc_min_seq_core log w : core fragment_size log w -> wh_seq_size w = Z.of_nat (length (seqs w)) -> wh_maxseq_node w = last (seqs w) ->
  whc_min_seq w = head (seqs w).
Proof.
  intros Hc Hz Hm. unfold whc_min_seq. rewrite (check_whc_core log), whc_empty_spec by done. cbn [negb orb]. rewrite ot_find_min_spec.
  destruct (intv_ok_parts _ _ (co_intv _ _ Hc)) as (L & o & E & HL & Ho & _). unfold seqs, intvs. rewrite E.
  destruct (bool_decide (ivs_seqs (L ++ [o]) = [])) eqn:Eb; [apply bool_decide_eq_true in Eb; by rewrite Eb|]. apply bool_decide_eq_false in Eb.
  destruct (head (ivs_seqs (L ++ [o]))) as [n|] eqn:Eh; [|by destruct (ivs_seqs (L ++ [o]))]. destruct (ivs_head L o n HL Ho Eh) as (v & -> & -> & Hr).
  cbn [mbind option_bind]. apply elem_of_range in Hr. by rewrite (proj2 (Z.gtb_lt _ _)) by lia.
Qed.

(** ** The next one *)

(** The sequence numbers up to [q] and those after it. *)
Definition splits_at (l : list Z) (q : Z) (l1 l2 : list Z) : Prop := l = l1 ++ l2 /\ (forall x, x ∈ l1 -> x <= q) /\ (forall x, x ∈ l2 -> q < x).

Lemma splits_exists (l : list Z) q : StronglySorted Z.lt l -> exists l1 l2, splits_at l q l1 l2.
Proof.
  induction 1 as [|x l Hs (l1 & l2 & -> & H1 & H2) Hf]; [by exists [], []; split; [|split; intros x Hx; apply elem_of_nil in Hx]|].
  destruct (Z.le_gt_cases x q) as [Hx|Hx].
  - exists (x :: l1), l2. split; [done|]. split; [|done]. intros y [->|Hy]%elem_of_cons; auto.
  - exists [], (x :: l1 ++ l2). split; [done|]. rewrite Forall_forall in Hf. split; [intros y Hy; by apply elem_of_nil in Hy|].
    intros y [->|Hy%Hf]%elem_of_cons; lia.
Qed.

(** The interval of the first of some samples. *)
Definition at_intv w (p_intv : option Z) (l : list Z) : Prop :=
  forall n, head l = Some n -> exists u, p_intv = Some (vn_min u) /\ u ∈ intvs w /\ n ∈ vn_range u.

Lemma splits_unique l q l1 l2 m1 m2 : splits_at l q l1 l2 -> splits_at l q m1 m2 -> l1 = m1 /\ l2 = m2.
Proof.
  intros (-> & A1 & A2) (E & B1 & B2). revert m1 E B1. induction l1 as [|x l1 IH]; intros [|y m1] E B1; simpl in *.
  - done.
  - subst l2. specialize (B1 y ltac:(set_solver)). specialize (A2 y ltac:(set_solver)). lia.
  - subst m2. specialize (B2 x ltac:(set_solver)). specialize (A1 x ltac:(set_solver)). lia.
  - injection E as -> E. destruct (IH (fun x Hx => A1 x (list_elem_of_further _ _ _ Hx)) m1 E) as [-> ->]; [intros; apply B1; set_solver|done].
Qed.

(** The intervals before [q] end before it, when [q] is not there. *)
Lemma before_seq t open q A : intv_ok t open -> q ∉ ivs_seqs (ot_elements t) -> (exists B, ot_elements t = A ++ B) ->
  Forall (fun v => vn_min v < q) A -> forall x, x ∈ ivs_seqs A -> x <= q.
Proof.
  intros Hi Hq [B E] HA x Hx. apply list_elem_of_join in Hx as (r & Hx & Hr). apply list_elem_of_fmap in Hr as (v & -> & Hv).
  rewrite Forall_forall in HA. specialize (HA _ Hv). apply elem_of_range in Hx. destruct (Z.le_gt_cases x q); [done|]. destruct Hq.
  rewrite E, ivs_seqs_app. apply elem_of_app. left. apply list_elem_of_join. exists (vn_range v). split; [apply elem_of_range; lia|]. apply list_elem_of_fmap. eauto.
Qed.

Definition next_found w (l2 : list Z) (r : option (option (Z * Z))) : Prop :=
  exists p, r = Some p /\ option_map fst p = head l2 /\ at_intv w (option_map snd p) l2.

Lemma next_of_stored ndebug log w q l1 l2 : core fragment_size log w -> seqs w = l1 ++ q :: l2 ->
  (ndebug = true \/ wh_maxseq_node w = last (seqs w)) -> next_found w l2 (find_nextseq_intv ndebug w q).
Proof.
  intros Hc E Hmax. destruct (core_node _ _ _ _ _ Hc E) as (nd & Hn & Hs & _ & Hx). unfold find_nextseq_intv, whc_findseq. rewrite Hn, Hx.
  destruct l2 as [|n l2]; simpl.
  - exists None. split; [|by split]. destruct Hmax as [->|Hmax]; [done|]. rewrite Hmax, E, last_snoc, bool_decide_true by done. by rewrite orb_true_r.
  - destruct (intv_of (wh_seq w) n) as (v & Hv & Hr); [fold (intvs w) (seqs w); rewrite E; set_solver|].
    destruct (core_find _ w n Hc) as (nn & Hnn & Hns); [rewrite E; set_solver|]. exists (Some (n, vn_min v)).
    split; [|split; [done|intros x [= <-]; exists v; done]].
    rewrite Hnn. cbn [mbind option_bind]. rewrite Hns, (intv_predeq _ _ _ _ (co_intv _ _ Hc) Hv Hr). cbn [mbind option_bind].
    destruct Hmax as [->|Hmax]; [done|]. rewrite Hmax.
    assert (Hl : last (seqs w) = last (n :: l2)) by (by rewrite E, last_app_cons, last_cons_cons). rewrite Hl.
    destruct (last (n :: l2)) as [m|] eqn:Em; [|by apply last_None in Em]. cbn [mbind option_bind].
    destruct (last_node log w m Hc Hl) as (mx & Hmx & Hms & _). rewrite Hmx. pose proof (core_sorted _ _ Hc) as Hsort. rewrite E in Hsort.
    apply sorted_app_lt in Hsort as (_ & Hsort & _). apply StronglySorted_inv in Hsort as [_ Hf]. rewrite Forall_forall in Hf.
    apply last_Some_elem_of in Em. apply Hf in Em. rewrite (proj2 (Z.ltb_lt _ _)) by lia. by rewrite orb_true_r.
Qed.

Lemma next_of_absent ndebug log w q l1 l2 : core fragment_size log w -> splits_at (seqs w) q l1 l2 -> q ∉ seqs w ->
  next_found w l2 (find_nextseq_intv ndebug w q).
Proof.
  intros Hc Hsp Hq. pose proof (co_intv _ _ Hc) as Hi. pose proof (vo_wf _ _ Hi) as Hw. pose proof (ot_wf_sorted _ _ Hw) as Hsort. unfold find_nextseq_intv.
  assert (Hn : whc_findseq w q = None).
  { unfold whc_findseq. destruct (wh_seq_hash w !! q) as [nd|] eqn:E; [|done]. destruct Hq. by eapply lk_dom; [apply Hc|]. }
  rewrite Hn, ot_lookup_predeq_spec, ot_lookup_succeq_spec by done.
  assert (Hpred : (match l_predeq vn_min q (ot_elements (wh_seq w)) with Some p => negb (vn_maxp1 p <=? q) | None => false end) = false).
  { destruct (l_predeq _ _ _) as [p|] eqn:Ep; [|done]. apply l_predeq_Some in Ep as (A & B & E & Hp & _); [|done].
    destruct (Z.leb_spec (vn_maxp1 p) q); [done|]. destruct Hq. unfold seqs, intvs. rewrite E, ivs_seqs_app, ivs_seqs_cons. rewrite !elem_of_app.
    right. left. apply elem_of_range. lia. }
  rewrite Hpred. destruct (l_succeq vn_min q (ot_elements (wh_seq w))) as [v|] eqn:Ev.
  - apply l_succeq_Some in Ev as (A & B & E & Hv & HA). destruct (intv_sides _ _ v Hi) as (A' & B' & E' & _ & _ & Hm & HcB & Hopen); [rewrite E; set_solver|].
    assert (A' = A /\ B' = B) as [-> ->].
    { rewrite E in E'. destruct (sorted_mid_unique vn_min v A B A' B') as [<- <-]; [|done|done]. by rewrite <- E. }
    assert (Hq' : vn_min v < vn_maxp1 v -> q < vn_min v).
    { intros Hlt. destruct (Z.eq_dec (vn_min v) q) as [Eq|]; [|lia]. destruct Hq. unfold seqs, intvs. rewrite E, ivs_seqs_app, ivs_seqs_cons. rewrite !elem_of_app.
      right. left. apply elem_of_range. lia. }
    assert (Hsp' : splits_at (seqs w) q (ivs_seqs A) (ivs_seqs (v :: B))).
    { split; [unfold seqs, intvs; by rewrite E, ivs_seqs_app|]. split; [by eapply before_seq; eauto|]. intros x. rewrite ivs_seqs_cons, elem_of_app.
      intros [Hx%elem_of_range|Hx]; [lia|]. pose proof (chain_seqs _ _ _ HcB Hx).
      destruct (Z.eq_dec q x) as [->|]; [|lia]. destruct Hq. unfold seqs, intvs. rewrite E, ivs_seqs_app, ivs_seqs_cons. rewrite !elem_of_app. by right; right. }
    destruct (splits_unique _ _ _ _ _ _ Hsp Hsp') as [-> ->]. destruct (Z.ltb_spec (vn_min v) (vn_maxp1 v)) as [Hlt|Hge].
    + assert (Hf : vn_full v) by (apply (intv_full _ _ v (vn_min v) Hi); [rewrite E; set_solver|apply elem_of_range; lia]). destruct Hf as (_ & Hf & _).
      rewrite (proj2 (Z.gtb_lt _ _)), Hf by auto. cbn [mbind option_bind]. rewrite ivs_seqs_cons. unfold vn_range. rewrite range_cons by done.
      exists (Some (vn_min v, vn_min v)). split; [done|]. split; [done|]. intros n [= <-]. exists v. split; [done|].
      split; [unfold intvs; rewrite E; set_solver|apply elem_of_range; lia].
    + destruct Hopen as [(-> & -> & _)|(L & o & _ & Hf & _)]; [|destruct Hf; lia]. rewrite Z.eqb_refl. exists None. split; [done|].
      rewrite ivs_seqs_cons. unfold vn_range. rewrite range_nil by lia. by split.
  - apply l_succeq_None in Ev.
    assert (Hsp' : splits_at (seqs w) q (seqs w) []).
    { split; [by rewrite app_nil_r|]. split; [|intros x Hx; by apply elem_of_nil in Hx]. eapply (before_seq _ _ q _ Hi Hq); [|exact Ev]. exists []. by rewrite app_nil_r. }
    destruct (splits_unique _ _ _ _ _ _ Hsp Hsp') as [-> ->]. destruct (intv_ok_parts _ _ Hi) as (L & o & E & HL & Ho & _ & Eo).
    rewrite E in *. assert (Ho' : vn_min o < q) by (rewrite Forall_forall in Ev; apply Ev; set_solver).
    rewrite (l_predeq_mid vn_min q L o []) by (done || lia || constructor). simpl. rewrite bool_decide_true by congruence. by exists None.
Qed.

Lemma find_nextseq_spec ndebug log w q l1 l2 : core fragment_size log w -> splits_at (seqs w) q l1 l2 ->
  (ndebug = true \/ wh_maxseq_node w = last (seqs w)) -> next_found w l2 (find_nextseq_intv ndebug w q).
Proof.
  intros Hc Hsp Hmax. destruct (decide (q ∈ seqs w)) as [Hq|Hq]; [|by eapply next_of_absent].
  destruct (sorted_split_at _ _ Hq) as (m1 & m2 & E). assert (Hsp' : splits_at (seqs w) q (m1 ++ [q]) m2).
  { pose proof (core_sorted _ _ Hc) as Hs. rewrite E in Hs. apply sorted_app_lt in Hs as (_ & Hs & H1). apply StronglySorted_inv in Hs as [_ Hf].
    rewrite Forall_forall in Hf. split; [by rewrite <- app_assoc|]. split; [|done]. intros x [Hx| ->%list_elem_of_singleton]%elem_of_app; [|lia].
    specialize (H1 x q Hx ltac:(set_solver)). lia. }
  destruct (splits_unique _ _ _ _ _ _ Hsp Hsp') as [-> ->]. by eapply next_of_stored.
Qed.
End Find.

(** ** Acknowledgements: [whc_remove_acked_messages] *)

(** Whether [q] is among the latest [tldepth] of its instance. *)
Definition in_tl {T : Type -> Type} (w : whc (T := T)) (q : Z) : bool :=
  match infos w !! q with
  | Some (Some k, pos, _, _) =>
      match lookup_idxnode w k with
      | Some x => (dist_of (wh_idxdepth w) (ix_headidx x) pos <? wh_tldepth w)%nat
      | None => false
      end
  | _ => false
  end.

Definition acked (i : info) : info := (i.1.1, false, i.2).

Section Ack.
Context {T : Type -> Type} `{!OrdTree T, !OrdTreeLaws T}.
Implicit Types (w : whc (T := T)) (t : T whc_intvnode) (log : Z -> list Z).

(** ** The index while samples go *)

(** Rings only lose samples, and only without a history for late joiners do
    they go. *)
Record rings_shrink w w' : Prop := {
  rs_ring : forall k x', lookup_idxnode w' k = Some x' ->
    exists x, lookup_idxnode w k = Some x /\ ix_headidx x' = ix_headidx x /\ ix_prune_seq x' = ix_prune_seq x;
  rs_stay : (0 < wh_tldepth w)%nat -> forall k, is_Some (lookup_idxnode w k) -> is_Some (lookup_idxnode w' k);
  rs_idx : is_Some (wh_idx_hash w') <-> is_Some (wh_idx_hash w);
}.

Lemma rings_refl w w' : wh_idx_hash w' = wh_idx_hash w -> rings_shrink w w'.
Proof. intros E. unfold lookup_idxnode. split; unfold lookup_idxnode; rewrite E; eauto. Qed.

Lemma rings_trans w1 w2 w3 : wh_tldepth w2 = wh_tldepth w1 -> rings_shrink w1 w2 -> rings_shrink w2 w3 -> rings_shrink w1 w3.
Proof.
  intros Et [A1 A2 A3] [B1 B2 B3]. split.
  - intros k x3 H3. destruct (B1 _ _ H3) as (x2 & H2 & -> & ->). eauto.
  - intros Ht k Hk. apply B2; [lia|]. auto.
  - by rewrite B3.
Qed.

Lemma deleted_rings w q l1 l2 w' : leaves w q -> deleted w q l1 l2 w' -> rings_shrink w w'.
Proof.
  intros Hl [_ _ Hidx _]. destruct (infos w !! q) as [[[[[k|] pos] u] sd]|] eqn:Hi; [|by apply rings_refl|by apply rings_refl].
  destruct (Hl _ _ _ _ Hi) as (x & Hx & Hm). unfold left_idx in Hidx. unfold lookup_idxnode in Hx. destruct (wh_idx_hash w) as [idx|] eqn:E; [|done].
  simpl in Hidx, Hx. rewrite Hx in Hidx. unfold leave in Hidx. split; unfold lookup_idxnode; rewrite Hidx, E; simpl; [| |by split; eauto].
  - intros k' x' Hx'. destruct (decide (pos = ix_headidx x)).
    + apply lookup_delete_Some in Hx' as [_ Hx']. eauto.
    + apply lookup_insert_Some in Hx' as [[<- <-]|[_ Hx']]; [|eauto]. exists x. done.
  - intros Ht k' [x' Hx']. destruct Hm as [[Hne _]|(_ & Ht0 & _)]; [|lia]. rewrite decide_False by done.
    destruct (decide (k = k')) as [<-|Hk]; [by rewrite lookup_insert_eq|]. rewrite lookup_insert_ne by done. eauto.
Qed.

Lemma in_tl_rings w w' q : rings_shrink w w' -> conf w' = conf w ->
  (fun i : info => i.1.1) <$> infos w' !! q = (fun i : info => i.1.1) <$> infos w !! q -> in_tl w' q = in_tl w q.
Proof.
  intros [R1 R2 _] Hc Hi. apply conf_fields in Hc as (_ & _ & _ & Et & Ed & _). unfold in_tl. rewrite Et, Ed.
  destruct (infos w !! q) as [[[[k pos] u] sd]|], (infos w' !! q) as [[[[k' pos'] u'] sd']|]; simpl in Hi; try done. injection Hi as -> ->.
  destruct k as [k|]; [|done]. destruct (lookup_idxnode w' k) as [x'|] eqn:E'.
  - destruct (R1 _ _ E') as (x & -> & -> & _). done.
  - destruct (lookup_idxnode w k) as [x|] eqn:E; [|done]. symmetry. apply Nat.ltb_ge. destruct (wh_tldepth w); [lia|].
    destruct (R2 ltac:(lia) k) as [? ?]; [by rewrite E|]. congruence.
Qed.

Lemma in_tl_0 w q : wh_tldepth w = 0%nat -> in_tl w q = false.
Proof. intros Ht. unfold in_tl. rewrite Ht. destruct (infos w !! q) as [[[[[k|] ?] ?] ?]|]; [|done|done]. by destruct (lookup_idxnode w k). Qed.

Context (fragment_size : Z) (Hfs : 0 < fragment_size).

(** A sample that is not among the latest may go. *)
Lemma may_go log w L q R : core fragment_size log w -> seqs w = L ++ q :: R -> (wh_tldepth w = 0%nat -> L = []) -> in_tl w q = false -> leaves w q.
Proof.
  intros Hc E HL Htl k pos u sd Hi. unfold in_tl in Htl. rewrite Hi in Htl. pose proof (co_idx _ _ _ Hc) as Hio. unfold lookup_idxnode in *.
  destruct (wh_idx_hash w) as [idx|]; [|destruct Hio as [_ Hio]; by destruct (Hio _ _ _ _ _ Hi)]. simpl in *.
  destruct (idx_ok_place _ _ _ _ _ _ _ _ _ _ Hio Hi) as (x & Hx & Hp & Hlt & Hr). exists x. split; [done|]. rewrite Hx in Htl. apply Nat.ltb_ge in Htl.
  pose proof (ro_head _ _ _ _ _ _ Hr) as Hh. destruct (decide (pos = ix_headidx x)) as [->|Hne]; [|by left]. right. split; [done|].
  rewrite (proj2 (dist_head _ _ _ Hh Hh)) in Htl by done. assert (Ht : wh_tldepth w = 0%nat) by lia. split; [done|]. rewrite (HL Ht) in E. simpl in E.
  intros i Hi' Hne. destruct (ix_hist x !! i) as [[q'|]|] eqn:Eq; [|done|].
  2: { apply lookup_ge_None in Eq. rewrite (ro_len _ _ _ _ _ _ Hr) in Eq. lia. }
  exfalso. pose proof (ro_log _ _ _ _ _ _ Hr) as Hlog. destruct (Hlog 0%nat q) as [H0 _]; [lia|by rewrite pos_of_0|].
  destruct (Hlog (dist_of (wh_idxdepth w) (ix_headidx x) i) q') as (Hd & u' & sd' & Hq' & _); [by apply dist_of_lt|by rewrite pos_dist|].
  assert (Hpos : dist_of (wh_idxdepth w) (ix_headidx x) i <> 0%nat) by (intros Ez; apply dist_head in Ez; auto).
  assert (Hin : q' ∈ seqs w) by (apply (core_infos _ w q' Hc); eauto). pose proof (core_sorted _ _ Hc) as Hs. rewrite E in Hin, Hs.
  apply StronglySorted_inv in Hs as [_ Hf]. rewrite Forall_forall in Hf. pose proof (io_sorted _ _ _ _ _ Hio k) as Hg.
  destruct (log k) as [|q0 lg]; [done|]. simpl in H0. injection H0 as ->. apply StronglySorted_inv in Hg as [_ Hg]. rewrite Forall_forall in Hg.
  destruct (dist_of (wh_idxdepth w) (ix_headidx x) i) as [|d]; [done|]. simpl in Hd. apply list_elem_of_lookup_2 in Hd. apply Hg in Hd.
  apply elem_of_cons in Hin as [->|Hin%Hf]; lia.
Qed.

Lemma whcn_in_tlidx_spec log w q nd : core fragment_size log w -> wh_seq_hash w !! q = Some nd ->
  whcn_in_tlidx w (nd_idxnode nd) (nd_idxnode_pos nd) = Some (in_tl w q).
Proof.
  intros Hc Hq. assert (Hi : infos w !! q = Some (nd_info nd)) by (unfold infos; by rewrite lookup_fmap, Hq). unfold in_tl, whcn_in_tlidx. rewrite Hi.
  unfold nd_info in Hi |- *. destruct (nd_idxnode nd) as [k|]; [|done]. pose proof (co_idx _ _ _ Hc) as Hio. unfold lookup_idxnode.
  destruct (wh_idx_hash w) as [idx|]; [|destruct Hio as [_ Hio]; by destruct (Hio _ _ _ _ _ Hi)]. simpl.
  destruct (idx_ok_place _ _ _ _ _ _ _ _ _ _ Hio Hi) as (x & -> & Hp & Hlt & Hr). cbn [mbind option_bind].
  pose proof (dist_of_lt _ _ _ (ro_head _ _ _ _ _ _ Hr) Hlt) as Hd. unfold dist_of in *. by rewrite (proj2 (Nat.ltb_lt _ _) Hd).
Qed.

(** ** The first pass *)

(** A sample is kept, and counts as acknowledged. *)
Lemma keep_step log w l1 q l2 nd : core fragment_size log w -> seqs w = l1 ++ q :: l2 -> wh_seq_hash w !! q = Some nd ->
  exists w1 w', uncount fragment_size w nd = Some w1 /\ upd_node w1 q (fun nd => if nd_unacked nd then nd_set_acked nd else nd) = Some w' /\
    core fragment_size log w' /\ conf w' = conf w /\ wh_seq w' = wh_seq w /\ wh_seq_size w' = wh_seq_size w /\ wh_idx_hash w' = wh_idx_hash w /\
    infos w' = <[q := acked (nd_info nd)]> (infos w).
Proof.
  intros Hc E Hq. destruct (uncounted _ Hfs _ _ _ _ _ Hc E Hq) as [Hcost Hsum]. rewrite uncount_spec by done. eexists _, _. split; [done|].
  unfold upd_node. simpl. rewrite Hq. cbn [mbind option_bind]. split; [done|]. set (nd' := if nd_unacked nd then nd_set_acked nd else nd).
  assert (Hinf : nd_info <$> <[q := nd']> (wh_seq_hash w) = <[q := acked (nd_info nd)]> (infos w)).
  { unfold infos. rewrite fmap_insert. f_equal. unfold nd', acked, nd_info. destruct (nd_unacked nd) eqn:Eu; simpl; [done|]. by rewrite Eu. }
  assert (Hi : infos w !! q = Some (nd_info nd)) by (unfold infos; by rewrite lookup_fmap, Hq). split; [|repeat split; exact Hinf].
  pose proof (core_NoDup _ _ Hc) as HN. rewrite E in HN. apply NoDup_app in HN as (_ & N1 & N2). apply NoDup_cons in N2 as [N2 _].
  destruct Hc as [[C1 C2 C4 C5] C3]. split; [split|].
  - done.
  - split.
    + intros m1 x m2 Ex. destruct (lk_node _ _ C2 m1 x m2 Ex) as (nx & Hx & H1 & H2 & H3). simpl. destruct (decide (x = q)) as [->|Hne].
      * rewrite lookup_insert_eq. exists nd'. rewrite Hq in Hx. injection Hx as ->. unfold nd'. by destruct (nd_unacked nx).
      * rewrite lookup_insert_ne by done. eauto.
    + intros x nx. simpl. intros Hx. apply (lk_dom _ _ C2 x (default nd (wh_seq_hash w !! x))). apply lookup_insert_Some in Hx as [[<- _]|[_ Hx]]; [by rewrite Hq|by rewrite Hx].
  - unfold infos, seqs, intvs in *. simpl. rewrite Hinf, Hsum, E, !usum_app. simpl. rewrite !usum_insert, !usum_delete by set_solver.
    unfold cost_at at 1. rewrite lookup_insert_eq. unfold cost, acked. simpl. lia.
  - unfold infos. simpl. rewrite Hinf. destruct C5 as [C5 C6]. split; [done|]. intros x i Hx. apply lookup_insert_Some in Hx as [[<- <-]|[_ Hx]]; [|eauto]. apply (C6 _ _ Hi).
  - unfold infos. simpl. rewrite Hinf. destruct (wh_idx_hash w) as [idx|]; [|destruct C3 as [C3 C3']; split; [done|]].
    + eapply idx_ok_ext; [|exact C3]. intros x. destruct (decide (x = q)) as [->|Hne]; [by rewrite lookup_insert_eq, Hi|by rewrite lookup_insert_ne].
    + intros x k pos u sd Hx. apply lookup_insert_Some in Hx as [[<- Hx]|[_ Hx]]; [|by eapply C3']. injection Hx as E1 E2 _ E3.
      eapply (C3' q k pos (nd_unacked nd) sd). rewrite Hi. unfold nd_info. congruence.
Qed.

Lemma at_intv_next w v L q R : intv_ok (wh_seq w) (wh_open_intv w) -> v ∈ intvs w -> q ∈ vn_range v -> seqs w = L ++ q :: R ->
  at_intv w (if decide (vn_last v = Some q) then option_map vn_min (ot_find_succ vn_min (wh_seq w) (vn_min v)) else Some (vn_min v)) R.
Proof.
  intros Hi Hv Hq E. destruct (intv_full _ _ _ _ Hi Hv Hq) as (H1 & _ & H3). destruct (intv_sides _ _ _ Hi Hv) as (L1 & L2 & EL & _). apply elem_of_range in Hq.
  assert (HR : R = range (q + 1) (vn_maxp1 v) ++ ivs_seqs L2).
  { assert (Hn : NoDup (seqs w)) by (eapply sorted_lt_NoDup, chain_sorted, intv_ok_chain, Hi). unfold seqs, intvs in *.
    rewrite EL, ivs_seqs_app, ivs_seqs_cons in E, Hn. unfold vn_range in E, Hn. rewrite (range_mid _ q) in E, Hn by done.
    rewrite <- app_assoc, app_assoc in E, Hn. rewrite <- app_comm_cons in E, Hn. by destruct (mid_unique _ _ _ _ _ Hn E) as [_ <-]. }
  intros n Hn. destruct (decide (vn_last v = Some q)) as [Hl|Hl]; rewrite H3 in Hl.
  - injection Hl as Hl. rewrite HR, range_nil in Hn by lia. simpl in Hn. rewrite (intv_succ _ _ _ _ _ Hi EL).
    destruct (intv_next _ _ _ _ _ _ Hi EL Hn) as (u & -> & Hu & Hr). exists u. split; [done|]. split; [|done]. unfold intvs. rewrite EL. set_solver.
  - rewrite HR, range_cons in Hn by (destruct (Z.eq_dec (vn_maxp1 v - 1) q); [congruence|lia]). injection Hn as <-. exists v. split; [done|]. split; [done|].
    apply elem_of_range. destruct (Z.eq_dec (vn_maxp1 v - 1) q); [congruence|lia].
Qed.

(** What the first pass keeps of the samples [R]. *)
Definition kept w (m : Z) (q : Z) : Prop := m < q \/ in_tl w q = true.
#[export] Instance kept_dec w m q : Decision (kept w m q).
Proof. unfold kept. apply _. Defined.

Lemma kept_filter_same w w1 m (R : list Z) : rings_shrink w w1 -> conf w1 = conf w ->
  (forall x, x ∈ R -> (fun i : info => i.1.1) <$> infos w1 !! x = (fun i : info => i.1.1) <$> infos w !! x) -> filter (kept w1 m) R = filter (kept w m) R.
Proof. intros Hr Hc Hi. apply filter_same. intros x Hx. unfold kept. by rewrite (in_tl_rings w w1 x) by auto. Qed.

Record dropped log w (m : Z) (L R : list Z) w' : Prop := {
  dr_core : core fragment_size log w';
  dr_seqs : seqs w' = L ++ filter (kept w m) R;
  dr_infos : forall q, infos w' !! q =
    if decide (q ∈ seqs w') then if decide (q ∈ R /\ q <= m) then acked <$> infos w !! q else infos w !! q else None;
  dr_conf : conf w' = conf w;
  dr_rings : rings_shrink w w';
  dr_size : wh_seq_size w' = wh_seq_size w;
}.

Lemma infos_seqs w q : base fragment_size w -> q ∉ seqs w -> infos w !! q = None.
Proof. intros Hc Hq. apply eq_None_not_Some. by rewrite core_infos. Qed.

Lemma dropped_nil log w m L R : core fragment_size log w -> seqs w = L ++ R -> (forall q, q ∈ R -> m < q) -> dropped log w m L R w.
Proof.
  intros Hc E HR. split; [done| | |done|by apply rings_refl|done].
  - rewrite E. f_equal. symmetry. apply filter_all. intros q Hq. left. auto.
  - intros q. destruct (decide (q ∈ seqs w)) as [Hq|Hq]; [|by apply infos_seqs; [apply Hc|]]. rewrite decide_False; [done|]. intros [H1%HR H2]. lia.
Qed.

(** One sample goes, then the rest of the pass. *)
Lemma dropped_delete log w m L q R w1 w' : core fragment_size log w -> seqs w = L ++ q :: R -> q <= m -> in_tl w q = false -> leaves w q ->
  deleted w q L R w1 -> wh_seq_size w1 = wh_seq_size w -> dropped log w1 m L R w' -> dropped log w m L (q :: R) w'.
Proof.
  intros Hc E Hm Htl Hl Hd Hz [D1 D2 D3 D4 D5 D6]. pose proof (deleted_rings _ _ _ _ _ Hl Hd) as Hr. destruct Hd as [E1 E2 E3 E4].
  pose proof (core_NoDup _ _ Hc) as HN. rewrite E in HN. apply NoDup_app in HN as (_ & N1 & N2). apply NoDup_cons in N2 as [N2 _].
  assert (Hsame : forall x, x <> q -> infos w1 !! x = infos w !! x) by (intros x Hx; by rewrite E2, lookup_delete_ne).
  assert (Hin : forall x, x ∈ seqs w' -> x <> q) by (intros x Hx ->; rewrite D2 in Hx; apply elem_of_app in Hx as [Hx|Hx]; [apply (N1 q Hx); left|by apply list_elem_of_filter in Hx as [_ Hx]]).
  split; [done| | |congruence| |congruence].
  - rewrite D2, filter_cons_False by (intros [?|?]; [lia|congruence]). f_equal. apply kept_filter_same; [done|done|].
    intros x Hx. rewrite Hsame; [done|set_solver].
  - intros x. rewrite D3. destruct (decide (x ∈ seqs w')) as [Hx|Hx]; [|done]. rewrite (Hsame x) by auto. pose proof (Hin x Hx).
    destruct (decide (x ∈ R /\ x <= m)) as [H1|H1]; [rewrite decide_True by set_solver|rewrite decide_False by set_solver]; done.
  - eapply rings_trans; [|exact Hr|exact D5]. by apply conf_fields in E4 as (_ & _ & _ & -> & _).
Qed.

(** One sample is kept, then the rest of the pass. *)
Lemma dropped_keep log w m L q R w1 w' i : core fragment_size log w -> seqs w = L ++ q :: R -> q <= m -> in_tl w q = true ->
  infos w !! q = Some i -> infos w1 = <[q := acked i]> (infos w) -> conf w1 = conf w -> wh_idx_hash w1 = wh_idx_hash w -> wh_seq_size w1 = wh_seq_size w ->
  dropped log w1 m (L ++ [q]) R w' -> dropped log w m L (q :: R) w'.
Proof.
  intros Hc E Hm Htl Hi E2 E4 E5 Hz [D1 D2 D3 D4 D5 D6]. pose proof (rings_refl w w1 E5) as Hr.
  pose proof (core_NoDup _ _ Hc) as HN. rewrite E in HN. apply NoDup_app in HN as (_ & N1 & N2). apply NoDup_cons in N2 as [N2 _].
  assert (Hsame : forall x, x <> q -> infos w1 !! x = infos w !! x) by (intros x Hx; by rewrite E2, lookup_insert_ne).
  split; [done| | |congruence| |congruence].
  - rewrite D2, filter_cons_True by (by right). rewrite <- app_assoc. f_equal. simpl. f_equal. apply kept_filter_same; [done|done|].
    intros x Hx. rewrite Hsame; [done|set_solver].
  - intros x. rewrite D3. destruct (decide (x ∈ seqs w')) as [Hx|Hx]; [|done]. destruct (decide (x = q)) as [->|Hne].
    + rewrite E2, lookup_insert_eq, decide_False, decide_True, Hi by set_solver. done.
    + rewrite (Hsame x) by done. destruct (decide (x ∈ R /\ x <= m)) as [H1|H1]; [rewrite decide_True by set_solver|rewrite decide_False by set_solver]; done.
  - eapply rings_trans; [|exact Hr|exact D5]. by apply conf_fields in E4 as (_ & _ & _ & -> & _).
Qed.

Lemma drop_acked_spec log m fuel w L R pi n :
  core fragment_size log w -> seqs w = L ++ R -> (wh_tldepth w = 0%nat -> L = []) -> at_intv w pi R -> (length R <= fuel)%nat ->
  exists w', drop_acked fragment_size fuel w (head R) pi m n = Some (w', n + Z.of_nat (length R - length (filter (kept w m) R))) /\ dropped log w m L R w'.
Proof.
  revert w L R pi n. induction fuel as [|fuel IH]; intros w L R pi n Hc E HL Hpi Hlen.
  { destruct R; [|simpl in Hlen; lia]. exists w. split; [simpl; do 2 f_equal; lia|]. apply dropped_nil; [done|done|]. intros q Hq. by apply elem_of_nil in Hq. }
  destruct R as [|q R].
  { exists w. split; [simpl; do 2 f_equal; lia|]. apply dropped_nil; [done|done|]. intros q Hq. by apply elem_of_nil in Hq. }
  cbn [drop_acked head]. destruct (core_node _ _ _ _ _ Hc E) as (nd & Hn & Hs & _ & Hx). unfold whc_findseq. rewrite Hn. cbn [mbind option_bind].
  assert (Hi : infos w !! q = Some (nd_info nd)) by (unfold infos; by rewrite lookup_fmap, Hn).
  destruct (Hpi q eq_refl) as (v & -> & Hv & Hr). pose proof (core_sorted _ _ Hc) as Hsort. rewrite E in Hsort.
  apply sorted_app_lt in Hsort as (_ & Hsort & _). apply StronglySorted_inv in Hsort as [_ Hf]. rewrite Forall_forall in Hf.
  rewrite Hs. destruct (Z.leb_spec q m) as [Hqm|Hqm].
  2: { assert (Hall : forall x, x ∈ q :: R -> m < x) by (intros x [->|Hx'%Hf]%elem_of_cons; lia). exists w. split; [|by apply dropped_nil].
       rewrite filter_all by (intros x Hx'; left; auto). do 2 f_equal. lia. }
  rewrite (whcn_in_tlidx_spec _ _ _ _ Hc Hn). cbn [mbind option_bind]. simpl in Hlen. pose proof (length_filter (kept w m) R) as Hle.
  destruct (in_tl w q) eqn:Htl.
  - destruct (keep_step _ _ _ _ _ _ Hc E Hn) as (w1 & w2 & -> & Hup & Hc2 & Hcf & Hsq & Hz & Hidx & Hinf). cbn [mbind option_bind]. rewrite Hup. cbn [mbind option_bind].
    assert (Hop : intv_ok (wh_seq w2) (wh_open_intv w2)) by apply Hc2. assert (Hv2 : v ∈ intvs w2) by (unfold intvs; by rewrite Hsq).
    assert (E2 : seqs w2 = L ++ q :: R) by (unfold seqs, intvs; by rewrite Hsq). unfold lookup_intv. rewrite (intv_lookup _ _ _ Hop Hv2). cbn [mbind option_bind]. rewrite Hx.
    destruct (IH w2 (L ++ [q]) R (if decide (vn_last v = Some q) then option_map vn_min (ot_find_succ vn_min (wh_seq w2) (vn_min v)) else Some (vn_min v)) n Hc2) as (w' & -> & Hd).
    + by rewrite E2, <- app_assoc.
    + apply conf_fields in Hcf as (_ & _ & _ & -> & _). intros Ht. by rewrite (in_tl_0 w q Ht) in Htl.
    + by apply (at_intv_next w2 v L).
    + lia.
    + exists w'. assert (Hd' : dropped log w m L (q :: R) w') by (by eapply dropped_keep; eauto). split; [|done]. rewrite filter_cons_True by (by right).
      rewrite (kept_filter_same w w2); [done|by apply rings_refl|done|]. intros x _. rewrite Hinf. destruct (decide (x = q)) as [->|Hne]; [by rewrite lookup_insert_eq, Hi|by rewrite lookup_insert_ne].
  - pose proof (may_go _ _ _ _ _ Hc E HL Htl) as Hl. destruct (whc_delete_one_intv_spec _ Hfs _ _ _ _ _ _ Hc Hv Hr E Hl) as (w1 & pi & -> & Hc1 & Hd & Hz & Hp1).
    cbn [mbind option_bind]. destruct (IH w1 L R pi (n + 1) Hc1) as (w' & -> & Hd').
    + apply Hd.
    + destruct Hd as [_ _ _ Hcf]. by apply conf_fields in Hcf as (_ & _ & _ & -> & _).
    + done.
    + lia.
    + exists w'. split; [|by eapply dropped_delete; eauto]. rewrite filter_cons_False by (intros [?|?]; [lia|congruence]).
      rewrite (kept_filter_same w w1); [simpl; do 2 f_equal; lia|by eapply deleted_rings|apply Hd|]. intros x Hx'.
      destruct Hd as [_ -> _ _]. rewrite lookup_delete_ne; [done|]. intros <-. apply Hf in Hx'. lia.
Qed.
End Ack.
