(* ===== verification/WhcRemove.v ===== *)
(** * Removing acknowledged samples

    The second pass of [whc_remove_acked_messages], which prunes what is no
    longer part of the history of its instance, and the whole operation. *)

From Stdlib Require Import ZArith Lia Sorting.Sorted.
From stdpp Require Import prelude gmap.
From S2P Require Import Prelude OrdTree Receive Whc WhcFacts WhcOps WhcFind.

(** The instance of a sample that is in the index, and its distance from the
    latest one. *)
Definition ring_pos {T : Type -> Type} (w : whc (T := T)) (q : Z) : option (Z * nat) :=
  match infos w !! q with
  | Some (Some k, pos, _, _) => (fun x => (k, dist_of (wh_idxdepth w) (ix_headidx x) pos)) <$> lookup_idxnode w k
  | _ => None
  end.

Lemma in_tl_pos {T : Type -> Type} (w : whc (T := T)) q : in_tl w q = match ring_pos w q with Some (_, d) => (d <? wh_tldepth w)%nat | None => false end.
Proof. unfold in_tl, ring_pos. destruct (infos w !! q) as [[[[[k|] pos] u] sd]|]; [|done|done]. by destruct (lookup_idxnode w k). Qed.

(** One place further back. *)
Lemma next_pos_of depth head d : (head < depth)%nat -> (d < depth)%nat -> next_head depth (pos_of depth head (S d)) = pos_of depth head d.
Proof.
  intros. unfold next_head, pos_of. destruct (Nat.leb_spec (S d) head), (Nat.leb_spec d head); try lia.
  - destruct (Nat.eqb_spec (S (head - S d)) depth); lia.
  - destruct (Nat.eqb_spec (S (head + depth - S d)) depth); lia.
  - destruct (Nat.eqb_spec (S (head + depth - S d)) depth); lia.
Qed.
Lemma pos_of_depth depth head : (head < depth)%nat -> pos_of depth head depth = head.
Proof. intros. unfold pos_of. destruct (Nat.leb_spec depth head); lia. Qed.

Section Prune.
Context {T : Type -> Type} `{!OrdTree T, !OrdTreeLaws T}.
Context (fragment_size : Z) (Hfs : 0 < fragment_size).
Implicit Types (w : whc (T := T)) (log : Z -> list Z).

(** ** Samples that go *)

Record pruned log w (gone : Z -> bool) w' : Prop := {
  pr_core : core fragment_size log w';
  pr_seqs : seqs w' = filter (fun q => gone q = false) (seqs w);
  pr_infos : forall q, infos w' !! q = if gone q then None else infos w !! q;
  pr_conf : conf w' = conf w;
  pr_pos : forall q, gone q = false -> ring_pos w' q = ring_pos w q;
  pr_size : wh_seq_size w' - Z.of_nat (length (seqs w')) = wh_seq_size w - Z.of_nat (length (seqs w));
  pr_idx : is_Some (wh_idx_hash w') <-> is_Some (wh_idx_hash w);
}.

Lemma ring_pos_rings w w' q : (0 < wh_tldepth w)%nat -> rings_shrink w w' -> conf w' = conf w -> infos w' !! q = infos w !! q -> ring_pos w' q = ring_pos w q.
Proof.
  intros Ht [R1 R2 _] Hc Hi. apply conf_fields in Hc as (_ & _ & _ & _ & Ed & _). unfold ring_pos. rewrite Hi, Ed.
  destruct (infos w !! q) as [[[[[k|] pos] u] sd]|]; [|done|done]. destruct (lookup_idxnode w' k) as [x'|] eqn:E'.
  - destruct (R1 _ _ E') as (x & -> & Eh & _). simpl. by rewrite Eh.
  - destruct (lookup_idxnode w k) as [x|] eqn:E; [|done]. destruct (R2 Ht k) as [? ?]; [by rewrite E|]. congruence.
Qed.

Lemma pruned_none log w gone : core fragment_size log w -> (forall q, q ∈ seqs w -> gone q = false) -> pruned log w gone w.
Proof.
  intros Hc Hg. split; [done| | |done|done|done|done].
  - symmetry. by apply filter_all.
  - intros q. destruct (decide (q ∈ seqs w)) as [Hq|Hq]; [by rewrite Hg|]. rewrite (infos_seqs _ _ _ Hc Hq). by destruct (gone q).
Qed.

Lemma pruned_trans log w g1 w1 g2 w2 gone : pruned log w g1 w1 -> pruned log w1 g2 w2 ->
  (forall q, gone q = g1 q || g2 q) -> pruned log w gone w2.
Proof.
  intros [A1 A2 A3 A4 A5 A6 A7] [B1 B2 B3 B4 B5 B6 B7] Hg. split; [done| | |congruence| |lia|by rewrite B7].
  - rewrite B2, A2, list_filter_filter. apply filter_same. intros q _. rewrite Hg, orb_false_iff. tauto.
  - intros q. rewrite B3, A3, Hg. by destruct (g1 q), (g2 q).
  - intros q Hq. rewrite Hg, orb_false_iff in Hq. destruct Hq. rewrite B5, A5 by done. done.
Qed.

Lemma pruned_ext log w g w' gone : core fragment_size log w -> pruned log w g w' -> (forall q, q ∈ seqs w -> gone q = g q) -> pruned log w gone w'.
Proof.
  intros Hc [A1 A2 A3 A4 A5 A6 A7] Hg. split; [done| | |done| |done|done].
  - rewrite A2. apply filter_same. intros q Hq. by rewrite Hg.
  - intros q. rewrite A3. destruct (decide (q ∈ seqs w)) as [Hq|Hq]; [by rewrite Hg|]. rewrite (infos_seqs _ _ _ Hc Hq). by destruct (g q), (gone q).
  - intros q Hq. destruct (decide (q ∈ seqs w)) as [Hin|Hin]; [rewrite Hg in Hq by done; auto|].
    unfold ring_pos. rewrite A3, (infos_seqs _ _ _ Hc Hin). by destruct (g q).
Qed.

Lemma pruned_one log w q l1 l2 w' : core fragment_size log w -> core fragment_size log w' -> seqs w = l1 ++ q :: l2 -> (0 < wh_tldepth w)%nat -> leaves w q ->
  deleted w q l1 l2 w' -> wh_seq_size w' = wh_seq_size w - 1 -> pruned log w (fun x => x =? q) w'.
Proof.
  intros Hc Hc' E Ht Hl Hd Hz. pose proof (deleted_rings _ _ _ _ _ Hl Hd) as Hr. destruct Hd as [D1 D2 D3 D4].
  assert (Hinf : forall x, infos w' !! x = if x =? q then None else infos w !! x).
  { intros x. rewrite D2. destruct (Z.eqb_spec x q) as [->|Hne]; [by rewrite lookup_delete_eq|by rewrite lookup_delete_ne]. }
  split; [done| |done|done| | |by apply rs_idx].
  - pose proof (core_NoDup _ _ Hc) as HN. rewrite E in HN. apply NoDup_app in HN as (_ & N1 & N2). apply NoDup_cons in N2 as [N2 _].
    rewrite D1, E, filter_app, filter_cons_False by (by rewrite Z.eqb_refl).
    rewrite !filter_all; [done|..]; intros x Hx; apply Z.eqb_neq; intros ->; [done|]. apply (N1 q Hx). left.
  - intros x Hx. apply ring_pos_rings; [done|done|done|]. rewrite Hinf. by rewrite Hx.
  - rewrite D1, E, Hz, !length_app. simpl. lia.
Qed.

(** ** What is where in a ring *)

Lemma core_ring log w k x : core fragment_size log w -> lookup_idxnode w k = Some x ->
  ring_ok (wh_idxdepth w) (wh_tldepth w) (log k) k x (infos w) /\ StronglySorted Z.gt (log k).
Proof.
  intros Hc Hx. pose proof (co_idx _ _ _ Hc) as Hio. unfold lookup_idxnode in Hx. destruct (wh_idx_hash w) as [idx|]; [|done]. simpl in Hx.
  split; [by apply (io_ring _ _ _ _ _ Hio)|apply (io_sorted _ _ _ _ _ Hio)].
Qed.

Lemma ring_pos_Some log w q k d : core fragment_size log w -> ring_pos w q = Some (k, d) ->
  exists x, lookup_idxnode w k = Some x /\ ix_hist x !! pos_of (wh_idxdepth w) (ix_headidx x) d = Some (Some q) /\ (d < wh_idxdepth w)%nat /\ log k !! d = Some q.
Proof.
  intros Hc Hp. pose proof (co_idx _ _ _ Hc) as Hio. unfold ring_pos in Hp. destruct (infos w !! q) as [[[[[k'|] pos] u] sd]|] eqn:Hi; [|done|done].
  destruct (lookup_idxnode w k') as [x|] eqn:Hx; [|done]. injection Hp as -> Ed. exists x. split; [done|]. destruct (core_ring _ _ _ _ Hc Hx) as [Hr _].
  unfold lookup_idxnode in Hx. destruct (wh_idx_hash w) as [idx|]; [|done]. destruct (idx_ok_place _ _ _ _ _ _ _ _ _ _ Hio Hi) as (x' & Hx' & Hh & Hlt & _).
  simpl in Hx. rewrite Hx in Hx'. injection Hx' as <-. pose proof (ro_head _ _ _ _ _ _ Hr) as Hhd.
  assert (Hd : (d < wh_idxdepth w)%nat) by (rewrite <- Ed; by apply dist_of_lt).
  assert (Hp : ix_hist x !! pos_of (wh_idxdepth w) (ix_headidx x) d = Some (Some q)) by (rewrite <- Ed, pos_dist by done; done).
  split; [done|]. split; [done|]. by apply (ro_log _ _ _ _ _ _ Hr).
Qed.

Lemma hist_pos log w k x d q : core fragment_size log w -> lookup_idxnode w k = Some x -> (d < wh_idxdepth w)%nat ->
  ix_hist x !! pos_of (wh_idxdepth w) (ix_headidx x) d = Some (Some q) -> ring_pos w q = Some (k, d) /\ log k !! d = Some q /\ q ∈ seqs w.
Proof.
  intros Hc Hx Hd Hq. destruct (core_ring _ _ _ _ Hc Hx) as [Hr _]. destruct (ro_log _ _ _ _ _ _ Hr d q Hd Hq) as (Hl & u & sd & Hi & _).
  unfold ring_pos. rewrite Hi, Hx. simpl. rewrite dist_pos by (apply Hr || done). split; [done|]. split; [done|]. apply (core_infos _ w q Hc). eauto.
Qed.

(** The samples of an instance further back are older. *)
Lemma ring_older log w k d q d' q' : core fragment_size log w -> ring_pos w q = Some (k, d) -> ring_pos w q' = Some (k, d') -> (d < d')%nat -> q' < q.
Proof.
  intros Hc Hq Hq' Hd. destruct (ring_pos_Some _ _ _ _ _ Hc Hq) as (x & Hx & _ & _ & H1). destruct (ring_pos_Some _ _ _ _ _ Hc Hq') as (x' & _ & _ & _ & H2).
  destruct (core_ring _ _ _ _ Hc Hx) as [_ Hs]. clear -H1 H2 Hs Hd. revert d d' H1 H2 Hd. induction Hs as [|y l Hs IH Hf]; intros d d' H1 H2 Hd; [done|].
  destruct d as [|d], d' as [|d']; simpl in *; [lia| |lia|by apply (IH d d'); [| |lia]].
  injection H1 as ->. rewrite Forall_forall in Hf. apply list_elem_of_lookup_2 in H2. apply Hf in H2. lia.
Qed.

Lemma ring_pos_inj log w k d q q' : core fragment_size log w -> ring_pos w q = Some (k, d) -> ring_pos w q' = Some (k, d) -> q = q'.
Proof.
  intros Hc Hq Hq'. destruct (ring_pos_Some _ _ _ _ _ Hc Hq) as (x & _ & _ & _ & H1). destruct (ring_pos_Some _ _ _ _ _ Hc Hq') as (x' & _ & _ & _ & H2). congruence.
Qed.

(** A sample that is not among the latest may go, if there is a latest one. *)
Lemma leaves_old log w q k d : core fragment_size log w -> (0 < wh_tldepth w <= d)%nat -> ring_pos w q = Some (k, d) -> leaves w q.
Proof.
  intros Hc Ht Hq k' pos u sd Hi. unfold ring_pos in Hq. rewrite Hi in Hq. destruct (lookup_idxnode w k') as [x|] eqn:Hx; [|done]. injection Hq as -> Ed.
  exists x. split; [done|]. left. split; [|lia]. intros ->. destruct (core_ring _ _ _ _ Hc Hx) as [Hr _]. pose proof (ro_head _ _ _ _ _ _ Hr) as Hh.
  rewrite (proj2 (dist_head _ _ _ Hh Hh)) in Ed by done. lia.
Qed.

(** ** [prune_instance] *)

(** The samples of the instance [k] in the first [cnt] places beyond the history
    for late joiners. *)
Definition beyond w (k : Z) (cnt : nat) (q : Z) : bool :=
  match ring_pos w q with Some (k', d) => (k' =? k) && (wh_tldepth w <=? d)%nat && (d <? wh_tldepth w + cnt)%nat | None => false end.

Lemma beyond_true w k cnt q : beyond w k cnt q = true <-> exists d, ring_pos w q = Some (k, d) /\ (wh_tldepth w <= d < wh_tldepth w + cnt)%nat.
Proof.
  unfold beyond. destruct (ring_pos w q) as [[k' d]|]; [|by split; [|intros (? & ? & _)]].
  rewrite !andb_true_iff, Z.eqb_eq, Nat.leb_le, Nat.ltb_lt. split; [intros [[-> ?] ?]; eauto|]. intros (d' & [= -> ->] & ?). lia.
Qed.

Lemma beyond_S w k cnt q : beyond w k (S cnt) q = beyond w k cnt q || bool_decide (ring_pos w q = Some (k, wh_tldepth w + cnt)%nat).
Proof.
  apply eq_true_iff_eq. rewrite orb_true_iff, !beyond_true, bool_decide_eq_true. split.
  - intros (d & Hq & Hd). destruct (decide (d = wh_tldepth w + cnt)%nat) as [->|]; [by right|]. left. exists d. split; [done|]. lia.
  - intros [(d & Hq & Hd)|Hq]; eexists; (split; [done|]); lia.
Qed.

Lemma prune_instance_spec log cnt w k x q dq :
  core fragment_size log w -> (0 < wh_tldepth w)%nat -> (wh_tldepth w + cnt <= wh_idxdepth w)%nat -> lookup_idxnode w k = Some x ->
  ring_pos w q = Some (k, dq) -> (dq < wh_tldepth w)%nat ->
  exists w', prune_instance fragment_size cnt w k q (pos_of (wh_idxdepth w) (ix_headidx x) (wh_tldepth w + cnt)) = Some w' /\
    pruned log w (beyond w k cnt) w' /\ rings_shrink w w'.
Proof.
  revert w x. induction cnt as [|cnt IH]; intros w x Hc Ht Hcnt Hx Hq Hdq.
  { exists w. split; [done|]. split; [|by apply rings_refl]. apply pruned_none; [done|]. intros y _. apply not_true_is_false. rewrite beyond_true. intros (d & _ & Hd). lia. }
  destruct (core_ring _ _ _ _ Hc Hx) as [Hr _]. pose proof (ro_head _ _ _ _ _ _ Hr) as Hh. cbn [prune_instance]. fold (next_head (wh_idxdepth w) (pos_of (wh_idxdepth w) (ix_headidx x) (wh_tldepth w + S cnt))).
  rewrite <- plus_n_Sm, next_pos_of by lia. rewrite Hx. cbn [mbind option_bind]. set (p := pos_of _ _ _).
  assert (Hp : (p < wh_idxdepth w)%nat) by (apply pos_of_lt; lia). destruct (ix_hist x !! p) as [[o|]|] eqn:Ho; cbn [mbind option_bind].
  - destruct (hist_pos _ _ _ _ (wh_tldepth w + cnt) _ Hc Hx ltac:(lia) Ho) as (Hop & _ & Hin). destruct (core_find _ _ _ Hc Hin) as (nd & Hn & Hs). unfold whc_findseq. rewrite Hn. cbn [mbind option_bind].
    assert (Hlt : o < q) by (eapply ring_older; [exact Hc|exact Hq|exact Hop|lia]). rewrite Hs, (proj2 (Z.ltb_lt _ _)) by done. cbn [negb].
    assert (Hl : leaves w o) by (eapply leaves_old; [exact Hc| |exact Hop]; lia). destruct (sorted_split_at _ _ Hin) as (l1 & l2 & E).
    destruct (whc_delete_one_spec _ Hfs _ _ _ _ _ Hc E Hl) as (w1 & -> & Hc1 & Hd & Hz). cbn [mbind option_bind].
    pose proof (deleted_rings _ _ _ _ _ Hl Hd) as Hrs. pose proof (pruned_one _ _ _ _ _ _ Hc Hc1 E Ht Hl Hd Hz) as Hpr.
    destruct (rs_stay _ _ Hrs Ht k) as [x1 Hx1]; [by rewrite Hx|]. rewrite Hx1. cbn [mbind option_bind].
    destruct (rs_ring _ _ Hrs _ _ Hx1) as (x' & Hx' & Ehd & _). rewrite Hx in Hx'. injection Hx' as <-.
    destruct (conf_fields _ _ (de_conf _ _ _ _ _ Hd)) as (_ & _ & _ & Et & Ed & _).
    destruct (IH w1 x1 Hc1) as (w' & Ew & Hpr' & Hrs'); [lia|lia|done|rewrite (pr_pos _ _ _ _ Hpr); [done|apply Z.eqb_neq; lia]|lia|].
    unfold p. rewrite <- Ehd, <- Et, <- Ed. exists w'. split; [done|]. split; [|eapply rings_trans; eauto]. eapply pruned_ext; [done|eapply pruned_trans; [exact Hpr|exact Hpr'|]; done|].
    intros y _. simpl. rewrite beyond_S. destruct (Z.eqb_spec y o) as [->|Hne]; simpl; [by rewrite Hop, bool_decide_true, orb_true_r|].
    rewrite bool_decide_false by (intros Hy; by pose proof (ring_pos_inj _ _ _ _ _ _ Hc Hop Hy)). rewrite orb_false_r. unfold beyond.
    rewrite Et, (pr_pos _ _ _ _ Hpr) by (by apply Z.eqb_neq). done.
  - destruct (IH w x Hc Ht ltac:(lia) Hx Hq Hdq) as (w' & Ew & Hpr & Hrs). exists w'. split; [exact Ew|]. split; [|done]. eapply pruned_ext; [done|exact Hpr|].
    intros y _. rewrite beyond_S, bool_decide_false; [by rewrite orb_false_r|]. intros Hy. destruct (ring_pos_Some _ _ _ _ _ Hc Hy) as (x' & Hx' & Hy' & _).
    rewrite Hx in Hx'. injection Hx' as <-. fold p in Hy'. congruence.
  - apply lookup_ge_None in Ho. rewrite (ro_len _ _ _ _ _ _ Hr) in Ho. lia.
Qed.

(** ** [prune_acked] *)

(** Writing [prune_seq] changes nothing else. *)
Lemma set_prune log w k x m : core fragment_size log w -> lookup_idxnode w k = Some x ->
  exists w1, upd_idxnode w k (WhcIdxnode m (ix_headidx x) (ix_hist x)) = Some w1 /\ pruned log w (fun _ => false) w1 /\
    forall k', lookup_idxnode w1 k' = if decide (k' = k) then Some (WhcIdxnode m (ix_headidx x) (ix_hist x)) else lookup_idxnode w k'.
Proof.
  intros Hc Hx. unfold lookup_idxnode in *. destruct (wh_idx_hash w) as [idx|] eqn:Eidx; [|done]. simpl in Hx. unfold upd_idxnode. rewrite Eidx. cbn [mbind option_bind].
  eexists. split; [done|]. assert (Hlk : forall k', <[k := WhcIdxnode m (ix_headidx x) (ix_hist x)]> idx !! k' = if decide (k' = k) then Some (WhcIdxnode m (ix_headidx x) (ix_hist x)) else idx !! k').
  { intros k'. destruct (decide (k' = k)) as [->|Hne]; [by rewrite lookup_insert_eq|by rewrite lookup_insert_ne]. }
  split; [|done]. split; [| |done|done| |done|].
  - destruct Hc as [Hb C3]. split; [by destruct Hb|]. simpl. rewrite Eidx in C3. destruct C3 as [I1 I2 I3 I4]. split.
    + intros k' x' Hx'. rewrite Hlk in Hx'. destruct (decide (k' = k)) as [->|Hne]; [|auto]. injection Hx' as <-. destruct (I1 _ _ Hx) as [R1 R2 R3 R4 R5]. by split.
    + intros q k' pos u sd Hi. destruct (I2 _ _ _ _ _ Hi) as (x' & Hx' & Hh). rewrite Hlk. destruct (decide (k' = k)) as [->|Hne]; [|eauto].
      rewrite Hx in Hx'. injection Hx' as <-. eauto.
    + intros k' Hk'. rewrite Hlk in Hk'. destruct (decide (k' = k)); [done|auto].
    + done.
  - symmetry. by apply filter_all.
  - intros q _. unfold ring_pos, lookup_idxnode. rewrite Eidx. unfold infos. simpl. destruct ((nd_info <$> wh_seq_hash w) !! q) as [[[[[k'|] pos] u] sd]|]; [|done|done].
    rewrite Hlk. destruct (decide (k' = k)) as [->|]; [by rewrite Hx|done].
  - rewrite Eidx. by split; eauto.
Qed.

(** What the second pass over [R] prunes. *)
Definition prunes w (m : Z) (R : list Z) (q : Z) : bool :=
  match ring_pos w q with
  | Some (k, d) => (wh_tldepth w <=? d)%nat && existsb (fun s => (s <=? m) && match ring_pos w s with Some (k', _) => k' =? k | None => false end) R
  | None => false
  end.

(** Rings that have been pruned already. *)
Definition prune_ok w (m : Z) : Prop := forall k x, lookup_idxnode w k = Some x ->
  ix_prune_seq x <= m /\ (ix_prune_seq x = m -> forall q d, ring_pos w q = Some (k, d) -> (d < wh_tldepth w)%nat).

Lemma prunes_skip w m s R q k ds : ring_pos w s = Some (k, ds) ->
  (forall d, ring_pos w q = Some (k, d) -> (d < wh_tldepth w)%nat) -> prunes w m (s :: R) q = prunes w m R q.
Proof.
  intros Es Hq. unfold prunes. simpl. rewrite Es.
  destruct (ring_pos w q) as [[k' d]|] eqn:Eq; [|done]. destruct (Z.eqb_spec k k') as [->|Hne]; [|by rewrite andb_false_r].
  rewrite (proj2 (Nat.leb_gt _ _) (Hq d eq_refl)). done.
Qed.

Lemma prunes_above w m R q : (forall s, s ∈ R -> m < s) -> prunes w m R q = false.
Proof.
  intros HR. unfold prunes. destruct (ring_pos w q) as [[k d]|]; [|done]. apply andb_false_intro2. induction R as [|s R IH]; [done|]. simpl.
  pose proof (HR s ltac:(by left)). rewrite (proj2 (Z.leb_gt _ _)) by done. simpl. apply IH. intros; apply HR; by right.
Qed.

Lemma pruned_ring_pos log w g w' q : pruned log w g w' -> ring_pos w' q = if g q then None else ring_pos w q.
Proof.
  intros Hp. destruct (g q) eqn:E; [|by apply (pr_pos _ _ _ _ Hp)]. unfold ring_pos. by rewrite (pr_infos _ _ _ _ Hp), E.
Qed.

Lemma pruned_suffix log w g w' L R : pruned log w g w' -> seqs w = L ++ R -> (forall q, q ∈ R -> g q = false) ->
  seqs w' = filter (fun q => g q = false) L ++ R.
Proof. intros Hp E HR. rewrite (pr_seqs _ _ _ _ Hp), E, filter_app. f_equal. by apply filter_all. Qed.

(** The instance of [s] is pruned. *)
Lemma prune_ring log w k x s ds m : core fragment_size log w -> (0 < wh_tldepth w <= wh_idxdepth w)%nat -> lookup_idxnode w k = Some x ->
  ring_pos w s = Some (k, ds) -> (ds < wh_tldepth w)%nat -> prune_ok w m ->
  exists w1 w2, upd_idxnode w k (WhcIdxnode m (ix_headidx x) (ix_hist x)) = Some w1 /\
    prune_instance fragment_size (wh_idxdepth w1 - wh_tldepth w1) w1 k s (ix_headidx x) = Some w2 /\
    pruned log w (beyond w k (wh_idxdepth w - wh_tldepth w)) w2 /\ prune_ok w2 m.
Proof.
  intros Hc Ht Hx Hs Hds Hok. destruct (set_prune _ _ _ _ m Hc Hx) as (w1 & E1 & P1 & Hlk). exists w1.
  destruct (conf_fields _ _ (pr_conf _ _ _ _ P1)) as (_ & _ & _ & Et & Ed & _). set (x1 := WhcIdxnode m (ix_headidx x) (ix_hist x)) in *.
  assert (Hx1 : lookup_idxnode w1 k = Some x1) by (by rewrite Hlk, decide_True). assert (Hpos : forall q, ring_pos w1 q = ring_pos w q) by (intros q; by apply (pr_pos _ _ _ _ P1)).
  destruct (prune_instance_spec log (wh_idxdepth w1 - wh_tldepth w1) w1 k x1 s ds (pr_core _ _ _ _ P1)) as (w2 & E2 & P2 & R2); [lia|lia|done|by rewrite Hpos|lia|].
  destruct (core_ring _ _ _ _ Hc Hx) as [Hr _]. pose proof (ro_head _ _ _ _ _ _ Hr) as Hh.
  replace (wh_tldepth w1 + (wh_idxdepth w1 - wh_tldepth w1))%nat with (wh_idxdepth w1) in E2 by lia. rewrite pos_of_depth in E2 by (simpl; lia).
  exists w2. split; [done|]. split; [done|]. rewrite Et, Ed in P2.
  assert (Hb : forall q, beyond w1 k (wh_idxdepth w - wh_tldepth w) q = beyond w k (wh_idxdepth w - wh_tldepth w) q) by (intros q; unfold beyond; by rewrite Hpos, Et).
  assert (P : pruned log w (beyond w k (wh_idxdepth w - wh_tldepth w)) w2) by (eapply pruned_trans; [exact P1|exact P2|]; intros q; by rewrite Hb).
  split; [done|]. destruct (conf_fields _ _ (pr_conf _ _ _ _ P)) as (_ & _ & _ & Et2 & _ & _). intros k' x' Hx'. destruct (rs_ring _ _ R2 _ _ Hx') as (x1' & Hx1' & _ & ->).
  assert (Hold : forall q d, ring_pos w2 q = Some (k', d) -> beyond w k (wh_idxdepth w - wh_tldepth w) q = false /\ ring_pos w q = Some (k', d)).
  { intros q d Hq. rewrite (pruned_ring_pos _ _ _ _ q P) in Hq. by destruct (beyond w k _ q). }
  rewrite Hlk in Hx1'. rewrite Et2. destruct (decide (k' = k)) as [->|Hne].
  - injection Hx1' as <-. simpl. split; [lia|]. intros _ q d Hq. destruct (Hold q d Hq) as [Hb' Hq']. destruct (ring_pos_Some _ _ _ _ _ Hc Hq') as (_ & _ & _ & Hd & _).
    destruct (Nat.lt_ge_cases d (wh_tldepth w)); [done|]. enough (beyond w k (wh_idxdepth w - wh_tldepth w) q = true) by congruence. apply beyond_true. exists d. split; [done|]. lia.
  - destruct (Hok _ _ Hx1') as [H1 H2]. split; [done|]. intros Em q d Hq. apply (H2 Em q). by apply Hold.
Qed.

Lemma prunes_step log w k n w2 m s ds R q : pruned log w (beyond w k n) w2 -> ring_pos w s = Some (k, ds) -> s <= m -> (wh_idxdepth w <= wh_tldepth w + n)%nat ->
  core fragment_size log w -> (forall s', s' ∈ R -> s' <= m -> in_tl w s' = true) -> prunes w m (s :: R) q = beyond w k n q || prunes w2 m R q.
Proof.
  intros P Hs Hsm Hn Hc HR. destruct (conf_fields _ _ (pr_conf _ _ _ _ P)) as (_ & _ & _ & Et & _). destruct (beyond w k n q) eqn:Eb.
  - apply beyond_true in Eb as (d & Eq & Hd). unfold prunes. simpl. rewrite Eq, Hs, Z.eqb_refl, (proj2 (Z.leb_le _ _)), (proj2 (Nat.leb_le _ _)) by lia. done.
  - rewrite (prunes_skip w m s R q k ds Hs).
    2: { intros d Hd. destruct (Nat.lt_ge_cases d (wh_tldepth w)); [done|]. destruct (ring_pos_Some _ _ _ _ _ Hc Hd) as (_ & _ & _ & Hlt & _).
         enough (beyond w k n q = true) by congruence. apply beyond_true. exists d. split; [done|]. lia. }
    unfold prunes. rewrite Et, (pruned_ring_pos _ _ _ _ q P), Eb. destruct (ring_pos w q) as [[k' d]|]; [|done]. simpl. f_equal.
    clear -HR P Et. induction R as [|s' R IH]; [done|]. simpl. rewrite IH by (intros; apply HR; [by right|done]). f_equal. destruct (Z.leb_spec s' m) as [Hm|]; [|done]. simpl.
    rewrite (pruned_ring_pos _ _ _ _ s' P). destruct (beyond w k n s') eqn:Eb; [|done]. apply beyond_true in Eb as (d' & Es' & Hd').
    specialize (HR s' ltac:(by left) Hm). rewrite in_tl_pos, Es' in HR. apply Nat.ltb_lt in HR. lia.
Qed.

Lemma prune_acked_spec log m fuel w L R : core fragment_size log w -> (0 < wh_tldepth w <= wh_idxdepth w)%nat -> seqs w = L ++ R ->
  (forall s, s ∈ R -> s <= m -> in_tl w s = true) -> prune_ok w m -> (length R <= fuel)%nat ->
  exists w', prune_acked fragment_size fuel w (head R) m = Some w' /\ pruned log w (prunes w m R) w' /\ prune_ok w' m.
Proof.
  revert w L R. induction fuel as [|fuel IH]; intros w L R Hc Ht E HR Hok Hlen.
  { destruct R; [|simpl in Hlen; lia]. exists w. split; [done|]. split; [|done]. apply pruned_none; [done|]. intros q _. unfold prunes.
    destruct (ring_pos w q) as [[k d]|]; [|done]. by rewrite andb_false_r. }
  destruct R as [|s R].
  { exists w. split; [done|]. split; [|done]. apply pruned_none; [done|]. intros q _. unfold prunes. destruct (ring_pos w q) as [[k d]|]; [|done]. by rewrite andb_false_r. }
  cbn [prune_acked head]. destruct (core_node _ _ _ _ _ Hc E) as (nd & Hn & Hs & _ & Hx). unfold whc_findseq. rewrite Hn. cbn [mbind option_bind].
  rewrite Hs. destruct (Z.leb_spec s m) as [Hsm|Hsm].
  2: { exists w. split; [done|]. split; [|done]. apply pruned_none; [done|]. intros q _. apply prunes_above. intros y Hy.
       pose proof (core_sorted _ _ Hc) as Hsort. rewrite E in Hsort. apply sorted_app_lt in Hsort as (_ & Hsort & _). apply StronglySorted_inv in Hsort as [_ Hf].
       rewrite Forall_forall in Hf. apply elem_of_cons in Hy as [->|Hy%Hf]; lia. }
  rewrite (whcn_in_tlidx_spec _ _ _ _ _ Hc Hn). cbn [mbind option_bind]. pose proof (HR s ltac:(by left) Hsm) as Htl. rewrite Htl.
  assert (exists k x ds, nd_idxnode nd = Some k /\ lookup_idxnode w k = Some x /\ ring_pos w s = Some (k, ds) /\ (ds < wh_tldepth w)%nat) as (k & x & ds & Hk & Hlx & Hp & Hds).
  { rewrite in_tl_pos in Htl. destruct (ring_pos w s) as [[k ds]|] eqn:Ep; [|done]. apply Nat.ltb_lt in Htl. destruct (ring_pos_Some _ _ _ _ _ Hc Ep) as (x & Hlx & _).
    exists k, x, ds. repeat (split; [|done]). unfold ring_pos, infos in Ep. rewrite lookup_fmap, Hn in Ep. simpl in Ep. unfold nd_info in Ep.
    destruct (nd_idxnode nd) as [k'|]; [|done]. destruct (lookup_idxnode w k'); [|done]. by injection Ep as ->. }
  rewrite Hk. cbn [mbind option_bind]. rewrite Hlx. cbn [mbind option_bind]. destruct (Hok _ _ Hlx) as [Hle Hdone]. rewrite (proj2 (Z.leb_le _ _)) by done. cbn [negb andb].
  simpl in Hlen. destruct (Z.eqb_spec (ix_prune_seq x) m) as [Em|Em].
  - rewrite Hx. destruct (IH w (L ++ [s]) R Hc Ht) as (w' & -> & P & Hok'); [by rewrite <- app_assoc|intros; apply HR; [by right|done]|done|lia|].
    exists w'. split; [done|]. split; [|done]. eapply pruned_ext; [done|exact P|]. intros q _. eapply prunes_skip; [done|]. intros d Hd. by apply (Hdone Em q).
  - destruct (prune_ring _ _ _ _ _ _ m Hc Ht Hlx Hp Hds Hok) as (w1 & w2 & -> & E2 & P & Hok2). cbn [mbind option_bind]. rewrite E2. cbn [mbind option_bind].
    assert (Hsuf : forall q, q ∈ s :: R -> beyond w k (wh_idxdepth w - wh_tldepth w) q = false).
    { intros q Hq. apply not_true_is_false. rewrite beyond_true. intros (d & Hqd & Hd). pose proof (ring_older _ _ _ _ _ _ _ Hc Hp Hqd ltac:(lia)) as Hlt.
      pose proof (core_sorted _ _ Hc) as Hsort. rewrite E in Hsort. apply sorted_app_lt in Hsort as (_ & Hsort & _). apply StronglySorted_inv in Hsort as [_ Hf].
      rewrite Forall_forall in Hf. apply elem_of_cons in Hq as [->|Hq%Hf]; lia. }
    pose proof (pruned_suffix _ _ _ _ _ _ P E Hsuf) as Eq2. destruct (core_node _ _ _ _ _ (pr_core _ _ _ _ P) Eq2) as (nd2 & -> & _ & _ & Hx2). cbn [mbind option_bind].
    rewrite Hx2. destruct (conf_fields _ _ (pr_conf _ _ _ _ P)) as (_ & _ & _ & Et & Ed & _).
    assert (HR' : forall s', s' ∈ R -> s' <= m -> in_tl w s' = true) by (intros; apply HR; [by right|done]).
    destruct (IH w2 (filter (fun q => beyond w k (wh_idxdepth w - wh_tldepth w) q = false) L ++ [s]) R (pr_core _ _ _ _ P)) as (w' & -> & P' & Hok').
    + lia.
    + by rewrite <- app_assoc.
    + intros s' Hs' Hm'. rewrite in_tl_pos, (pr_pos _ _ _ _ P), Et, <- in_tl_pos by (apply Hsuf; by right). auto.
    + done.
    + lia.
    + exists w'. split; [done|]. split; [|done]. eapply pruned_trans; [exact P|exact P'|]. intros q. eapply prunes_step; eauto. lia.
Qed.
End Prune.

(** ** [whc_remove_acked_messages] and [whc_downgrade_to_volatile] *)

Section Remove.
Context {T : Type -> Type} `{!OrdTree T, !OrdTreeLaws T}.
Context (ndebug : bool) (fragment_size : Z) (Hfs : 0 < fragment_size).
Implicit Types (w : whc (T := T)) (log : Z -> list Z).

(** What is left of the cache [w] when all is acknowledged up to [m]: of the
    samples [R] after those acknowledged before, the later ones and those in the
    history for late joiners; of the instances of the latter, only the history. *)
Definition left_by w (m : Z) (L R : list Z) : list Z :=
  filter (fun q => prunes w m (filter (kept w m) R) q = false) (L ++ filter (kept w m) R).

Definition acked_infos w (m : Z) (R l : list Z) (im : gmap Z info) : Prop :=
  forall q, im !! q = if decide (q ∈ l) then if decide (q ∈ R /\ q <= m) then acked <$> infos w !! q else infos w !! q else None.

Record removed log w (m : Z) (L R : list Z) w' : Prop := {
  re_core : core fragment_size log w';
  re_seqs : seqs w' = left_by w m L R;
  re_infos : acked_infos w m R (seqs w') (infos w');
  re_conf : conf w' = conf w;
  re_idx : is_Some (wh_idx_hash w') <-> is_Some (wh_idx_hash w);
  re_prune : forall k x, lookup_idxnode w' k = Some x -> ix_prune_seq x <= m;
}.

Lemma dropped_infos log w m L R w' q : dropped fragment_size log w m L R w' -> q ∈ seqs w' ->
  (fun i : info => i.1.1) <$> infos w' !! q = (fun i : info => i.1.1) <$> infos w !! q.
Proof. intros D Hq. rewrite (dr_infos _ _ _ _ _ _ _ D), decide_True by done. destruct (decide _), (infos w !! q); done. Qed.

Lemma dropped_pos log w m L R w' q : dropped fragment_size log w m L R w' -> (0 < wh_tldepth w)%nat -> q ∈ seqs w' -> ring_pos w' q = ring_pos w q.
Proof.
  intros D Ht Hq. pose proof (dropped_infos _ _ _ _ _ _ q D Hq) as Hi. destruct (dr_rings _ _ _ _ _ _ _ D) as [R1 R2 _].
  destruct (conf_fields _ _ (dr_conf _ _ _ _ _ _ _ D)) as (_ & _ & _ & _ & Ed & _). unfold ring_pos. rewrite Ed.
  destruct (infos w !! q) as [[[[k pos] u] sd]|], (infos w' !! q) as [[[[k' pos'] u'] sd']|]; simpl in Hi; try done. injection Hi as -> ->.
  destruct k as [k|]; [|done]. destruct (lookup_idxnode w' k) as [x'|] eqn:E'.
  - destruct (R1 _ _ E') as (x & -> & Eh & _). simpl. by rewrite Eh.
  - destruct (lookup_idxnode w k) as [x|] eqn:E; [|done]. destruct (R2 Ht k) as [? ?]; [by rewrite E|]. congruence.
Qed.

(** Nothing is pruned when the index is not deeper than the history. *)
Lemma prunes_shallow log w m (R : list Z) q : core fragment_size log w -> (wh_tldepth w = 0 \/ wh_idxdepth w <= wh_tldepth w)%nat ->
  (forall s, s ∈ R -> kept w m s) -> prunes w m R q = false.
Proof.
  intros Hc [Ht|Hd] HR.
  - apply prunes_above. intros s Hs. destruct (HR s Hs) as [?|Htl]; [done|]. by rewrite in_tl_0 in Htl.
  - unfold prunes. destruct (ring_pos w q) as [[k d]|] eqn:E; [|done]. destruct (ring_pos_Some _ _ _ _ _ _ Hc E) as (_ & _ & _ & Hlt & _).
    rewrite (proj2 (Nat.leb_gt _ _)) by lia. done.
Qed.

Lemma removed_shallow log w m L R w' : core fragment_size log w -> (wh_tldepth w = 0 \/ wh_idxdepth w <= wh_tldepth w)%nat ->
  dropped fragment_size log w m L R w' -> (forall k x, lookup_idxnode w k = Some x -> ix_prune_seq x <= m) -> removed log w m L R w'.
Proof.
  intros Hc Hd [D1 D2 D3 D4 D5 D6] Hp. split; [done| |done|done|by apply rs_idx|].
  - unfold left_by. rewrite filter_all; [done|]. intros q _. eapply (prunes_shallow log w m); [done|done|]. by intros s [Hs _]%list_elem_of_filter.
  - intros k x' Hx'. destruct (rs_ring _ _ D5 _ _ Hx') as (x & Hx & _ & ->). eauto.
Qed.

Lemma removed_pruned log w m L R w1 w' : core fragment_size log w -> (0 < wh_tldepth w)%nat -> seqs w = L ++ R -> dropped fragment_size log w m L R w1 ->
  pruned fragment_size log w1 (prunes w1 m (filter (kept w m) R)) w' -> (forall k x, lookup_idxnode w' k = Some x -> ix_prune_seq x <= m) ->
  removed log w m L R w'.
Proof.
  intros Hc Ht E D [P1 P2 P3 P4 P5 P6 P7] Hp. assert (Hpr : forall q, q ∈ seqs w1 -> prunes w1 m (filter (kept w m) R) q = prunes w m (filter (kept w m) R) q).
  { intros q Hq. unfold prunes. destruct (conf_fields _ _ (dr_conf _ _ _ _ _ _ _ D)) as (_ & _ & _ & Et & _). rewrite Et, (dropped_pos _ _ _ _ _ _ q D Ht Hq).
    destruct (ring_pos w q) as [[k d]|]; [|done]. f_equal. assert (Hsub : forall s, s ∈ filter (kept w m) R -> s ∈ seqs w1) by (intros s Hs; rewrite (dr_seqs _ _ _ _ _ _ _ D); apply elem_of_app; by right).
    revert Hsub. generalize (filter (kept w m) R). intros l Hsub.
    induction l as [|s l IH]; [done|]. simpl. rewrite IH by (intros; apply Hsub; by right).
    rewrite (dropped_pos _ _ _ _ _ _ s D Ht) by (apply Hsub; by left). done. }
  pose proof D as [D1 D2 D3 D4 D5 D6]. split; [done| | |congruence|rewrite P7; by apply rs_idx|done].
  - unfold left_by. rewrite <- D2. rewrite P2. apply filter_same. intros q Hq. by rewrite Hpr.
  - intros q. rewrite P3, P2, D3. destruct (decide (q ∈ seqs w1)) as [Hq|Hq].
    + destruct (prunes w1 m (filter (kept w m) R) q) eqn:Eq; [rewrite (decide_False (P := q ∈ filter _ (seqs w1)))|rewrite (decide_True (P := q ∈ filter _ (seqs w1)))]; [done| |done|].
      * intros [? _]%list_elem_of_filter. congruence.
      * apply list_elem_of_filter. done.
    + rewrite (decide_False (P := q ∈ filter _ (seqs w1))) by (by intros [_ ?]%list_elem_of_filter). by destruct (prunes w1 m _ q).
Qed.

(** ** The whole operation *)

Definition static w : Z * bool * nat * nat * nat :=
  (wh_sample_overhead w, wh_is_transient_local w, wh_hdepth w, wh_tldepth w, wh_idxdepth w).
Lemma static_fields w w' : static w' = static w ->
  wh_sample_overhead w' = wh_sample_overhead w /\ wh_is_transient_local w' = wh_is_transient_local w /\ wh_hdepth w' = wh_hdepth w /\
  wh_tldepth w' = wh_tldepth w /\ wh_idxdepth w' = wh_idxdepth w.
Proof. unfold static. intros E. by injection E. Qed.

(** A cache whose counters agree with its contents. *)
Record settled log w : Prop := {
  st_core : core fragment_size log w;
  st_size : wh_seq_size w = Z.of_nat (length (seqs w));
  st_max : wh_maxseq_node w = last (seqs w);
}.

Lemma hash_length log w l : core fragment_size log w -> (forall q, q ∈ l -> q ∈ seqs w) -> NoDup l -> (length l <= length (map_to_list (wh_seq_hash w)))%nat.
Proof.
  intros Hc Hl Hn. rewrite <- (length_fmap fst (map_to_list (wh_seq_hash w))). apply submseteq_length, NoDup_submseteq; [done|]. intros q Hq%Hl.
  destruct (core_find _ _ _ Hc Hq) as (nd & Hnd & _). apply list_elem_of_fmap. exists (q, nd). split; [done|]. by apply elem_of_map_to_list.
Qed.

(** What a call needs besides. *)
Record ready w (m : Z) (L R : list Z) : Prop := {
  rd_split : splits_at (seqs w) (wh_max_drop_seq w) L R;
  rd_low : wh_tldepth w = 0%nat -> L = [];
  rd_ack : wh_max_drop_seq w <= m < MAX_SEQ_NUMBER;
  rd_all : wh_is_transient_local w = true -> wh_tldepth w <> 0%nat;
  rd_depth : (0 < wh_tldepth w < wh_idxdepth w)%nat -> wh_hdepth w = wh_idxdepth w /\ ndebug = true /\
    forall k x, lookup_idxnode w k = Some x -> ix_prune_seq x <= wh_max_drop_seq w;
  rd_prune : forall k x, lookup_idxnode w k = Some x -> ix_prune_seq x <= m;
}.

Record acknowledged log w (m : Z) (L R : list Z) w' : Prop := {
  ak_settled : settled log w';
  ak_seqs : seqs w' = left_by w m L R;
  ak_infos : acked_infos w m R (seqs w') (infos w');
  ak_static : static w' = static w;
  ak_drop : wh_max_drop_seq w' = m;
  ak_idx : is_Some (wh_idx_hash w') <-> is_Some (wh_idx_hash w);
  ak_prune : forall k x, lookup_idxnode w' k = Some x -> ix_prune_seq x <= m;
}.

(** The second pass, if there is one. *)
Lemma second_pass log w m L R w1 fuel : core fragment_size log w -> ready w m L R -> (0 < wh_tldepth w < wh_idxdepth w)%nat ->
  dropped fragment_size log w m L R w1 -> (length R <= fuel)%nat ->
  exists w2, (start ← find_nextseq_intv ndebug w1 (wh_max_drop_seq w1); prune_acked fragment_size fuel w1 (option_map fst start) m) = Some w2 /\
    removed log w m L R w2 /\ wh_seq_size w2 - Z.of_nat (length (seqs w2)) = wh_seq_size w1 - Z.of_nat (length (seqs w1)).
Proof.
  intros Hc [Hsp _ Hm _ Hdep _] Ht D Hfuel. destruct (Hdep Ht) as (_ & -> & Hold). pose proof D as [D1 D2 D3 D4 D5 D6]. destruct Hsp as (E & HL & HR).
  destruct (conf_fields _ _ D4) as (_ & _ & _ & Et & Ed & Emd & _). rewrite Emd.
  destruct (find_nextseq_spec _ true log w1 (wh_max_drop_seq w) L (filter (kept w m) R) D1) as (r & -> & Hr & _); [|by left|].
  { split; [done|]. split; [done|]. intros q [_ Hq]%list_elem_of_filter. auto. }
  cbn [mbind option_bind]. rewrite Hr. pose proof (length_filter (kept w m) R) as Hlen.
  assert (Hpr1 : forall k x, lookup_idxnode w1 k = Some x -> ix_prune_seq x <= wh_max_drop_seq w).
  { intros k x' Hx'. destruct (rs_ring _ _ D5 _ _ Hx') as (x & Hx & _ & ->). eauto. }
  assert (Hok : exists w2, prune_acked fragment_size fuel w1 (head (filter (kept w m) R)) m = Some w2 /\
    pruned fragment_size log w1 (prunes w1 m (filter (kept w m) R)) w2 /\ forall k x, lookup_idxnode w2 k = Some x -> ix_prune_seq x <= m).
  { destruct (Z.eq_dec (wh_max_drop_seq w) m) as [Em|Em].
    - exists w1. assert (Hab : forall s, s ∈ filter (kept w m) R -> m < s) by (intros s [_ Hs%HR]%list_elem_of_filter; lia).
      split; [|split; [apply pruned_none; [done|]; intros q _; by apply prunes_above|intros k x Hx; specialize (Hpr1 k x Hx); lia]].
      destruct (filter (kept w m) R) as [|s l] eqn:Ef; [by destruct fuel|]. simpl. destruct (core_find _ w1 s D1) as (nd & Hn & Hs); [rewrite D2; set_solver|].
      specialize (Hab s ltac:(by left)). destruct fuel; simpl; unfold whc_findseq; rewrite Hn; cbn [mbind option_bind]; rewrite Hs, (proj2 (Z.leb_gt _ _)) by done; done.
    - destruct (prune_acked_spec _ Hfs log m fuel w1 L (filter (kept w m) R) D1) as (w2 & E2 & P & Hp); [lia|done| | |lia|].
      + intros s [[Hs|Hs] Hin]%list_elem_of_filter Hsm; [lia|]. rewrite (in_tl_rings w w1); [done|done|done|]. apply (dropped_infos log w m L R w1 s D). rewrite D2.
        apply elem_of_app. right. apply list_elem_of_filter. split; [by right|done].
      + intros k x Hx. specialize (Hpr1 k x Hx). split; [lia|]. intros Ex. lia.
      + exists w2. split; [done|]. split; [done|]. intros k x Hx. apply (Hp k x Hx). }
  destruct Hok as (w2 & -> & P & Hp). exists w2. split; [done|]. split; [|apply P]. eapply removed_pruned; eauto. lia.
Qed.

Lemma conf_static w w' : conf w' = conf w -> static w' = static w.
Proof. intros (H1 & H2 & H3 & H4 & H5 & _)%conf_fields. unfold static. congruence. Qed.

Lemma remove_acked_spec log w m L R : settled log w -> ready w m L R ->
  exists w', whc_remove_acked_messages ndebug fragment_size w m = Some (w', Z.of_nat (length R - length (filter (kept w m) R))) /\ acknowledged log w m L R w'.
Proof.
  intros [Hc Hz Hmax] Hrd. pose proof Hrd as [Hsp Hlow Hm Hall Hdep Hpr]. destruct Hsp as (E & HL & HR). unfold whc_remove_acked_messages.
  rewrite (check_whc_core _ log) by done. rewrite (proj2 (Z.ltb_lt _ _)), (proj2 (Z.geb_le _ _)) by lia. cbn [andb negb].
  replace (wh_is_transient_local w && (wh_tldepth w =? 0)%nat) with false.
  2: { destruct (wh_is_transient_local w); [|done]. symmetry. simpl. by apply Nat.eqb_neq, Hall. }
  destruct (find_nextseq_spec _ ndebug log w (wh_max_drop_seq w) L R Hc) as (r & -> & Hr & Hat); [done|by right|]. cbn [mbind option_bind]. rewrite Hr.
  assert (Hfuel : (length R <= length (map_to_list (wh_seq_hash w)))%nat).
  { apply (hash_length log); [done|intros q Hq; rewrite E; set_solver|]. pose proof (core_NoDup _ _ Hc) as HN. rewrite E in HN. by apply NoDup_app in HN as (_ & _ & HN). }
  destruct (drop_acked_spec _ Hfs log m _ w L R _ 0 Hc E Hlow Hat Hfuel) as (w1 & -> & D). cbn [mbind option_bind]. rewrite Z.add_0_l.
  destruct (conf_fields _ _ (dr_conf _ _ _ _ _ _ _ D)) as (_ & _ & Eh & Et & Ed & _). pose proof (length_filter (kept w m) R) as Hlen.
  set (n := Z.of_nat (length R - length (filter (kept w m) R))).
  assert (Hsz : wh_seq_size w1 - Z.of_nat (length (seqs w1)) = n).
  { rewrite (dr_size _ _ _ _ _ _ _ D), (dr_seqs _ _ _ _ _ _ _ D), Hz, E, !length_app. lia. }
  assert (Hpass : exists w2, (if (0 <? wh_tldepth w1)%nat && (wh_tldepth w1 <? wh_idxdepth w1)%nat then
      if negb (wh_hdepth w1 =? wh_idxdepth w1)%nat then None
      else start ← find_nextseq_intv ndebug w1 (wh_max_drop_seq w1); prune_acked fragment_size (length (map_to_list (wh_seq_hash w))) w1 (option_map fst start) m
    else Some w1) = Some w2 /\ removed log w m L R w2 /\ wh_seq_size w2 - Z.of_nat (length (seqs w2)) = n).
  { rewrite Et, Ed, Eh. destruct (Nat.ltb_spec 0 (wh_tldepth w)), (Nat.ltb_spec (wh_tldepth w) (wh_idxdepth w)); cbn [andb].
    - destruct Hdep as (-> & _); [lia|]. rewrite Nat.eqb_refl. cbn [negb]. rewrite <- Hsz. by eapply second_pass.
    - exists w1. split; [done|]. split; [|done]. eapply removed_shallow; eauto.
    - exists w1. split; [done|]. split; [|done]. eapply removed_shallow; eauto. left. lia.
    - exists w1. split; [done|]. split; [|done]. eapply removed_shallow; eauto. }
  destruct Hpass as (w2 & -> & [A1 A2 A3 A4 A5 A6] & Hsz2). cbn [mbind option_bind]. rewrite (proj2 (Z.leb_le _ _)) by lia. cbn [negb].
  rewrite findmax_spec; [|apply A1|simpl; unfold seqs, intvs in *; simpl; lia]. cbn [mbind option_bind]. eexists. split; [done|].
  pose proof (conf_static _ _ A4) as Hst. split; [|done|done|done|done|done|done]. split; [by destruct A1 as [[] ?]; split; [split|]|simpl; unfold seqs, intvs in *; simpl; lia|done].
Qed.
End Remove.
