(* ===== verification/WhcInsert.v ===== *)
(** * Inserting a sample: the sequence and the index

    [whc_insert_seq] adds a sample at the end; in the index rings are made, move
    on and are dropped. *)

From Stdlib Require Import ZArith Lia Sorting.Sorted.
From stdpp Require Import prelude gmap.
From S2P Require Import Prelude OrdTree Receive Whc WhcFacts WhcOps WhcFind WhcRemove.

Section Insert.
Context {T : Type -> Type} `{!OrdTree T, !OrdTreeLaws T}.
Implicit Types (w : whc (T := T)) (t : T whc_intvnode) (log : Z -> list Z).

(** ** The intervals *)

Lemma chain_end_full L : Forall vn_full L -> chain 1 L -> chain_end 1 L = match last (ivs_seqs L) with Some q => q + 1 | None => 1 end.
Proof.
  destruct L as [|v L _] using rev_ind; [done|]. intros [_ Hv]%Forall_app _. apply Forall_cons in Hv as [Hv _]. rewrite chain_end_app, full_last by done.
  destruct Hv as (_ & _ & ->). simpl. lia.
Qed.

(** The open interval changes. *)
Lemma intv_replace_last t open L o v : intv_ok t open -> ot_elements t = L ++ [o] -> Forall vn_full L -> chain 1 L -> chain_end 1 L <= vn_min v <= vn_maxp1 v -> vn_open v ->
  intv_ok (ot_replace vn_min t (vn_min o) v) (vn_min v) /\ ot_elements (ot_replace vn_min t (vn_min o) v) = L ++ [v].
Proof.
  intros Hi E HL Hc Hv Ho. assert (Hc' : chain 1 (L ++ [v])) by (apply chain_app; split; [done|]; by split). pose proof (chain_keys 1 L v Hc' HL) as Hs.
  destruct (ot_replace_spec vn_min t L o v [] (vo_wf _ _ Hi) E Hs) as [Hw E']. split; [|done]. split; [done|]. by exists L, v.
Qed.

Lemma intv_ok_last t open : intv_ok t open -> exists L o, ot_elements t = L ++ [o] /\ Forall vn_full L /\ vn_open o /\ chain 1 L /\
  chain_end 1 L <= vn_min o <= vn_maxp1 o /\ open = vn_min o.
Proof. intros (L & o & E & HL & Ho & [Hc [Hv _]]%chain_app & Eo)%intv_ok_parts. exists L, o. split; [done|]. split; [done|]. split; [done|]. split; [done|]. by split. Qed.

Lemma insert_in_intv_spec w q : intv_ok (wh_seq w) (wh_open_intv w) -> 1 <= q -> (forall x, x ∈ seqs w -> x < q) ->
  exists t' open', insert_in_intv w q = Some (set_seq w t' open') /\ intv_ok t' open' /\ ivs_seqs (ot_elements t') = seqs w ++ [q].
Proof.
  intros Hi H1 Hlt. destruct (intv_ok_last _ _ Hi) as (L & o & E & HL & Ho & Hc & Hlo & Eo). unfold insert_in_intv, lookup_intv. unfold seqs, intvs in *.
  rewrite Eo, (intv_lookup _ _ o Hi) by (rewrite E; set_solver). cbn [mbind option_bind]. set (nv := WhcIntvnode q (q + 1) (Some q) (Some q)).
  assert (Hnv : vn_full nv) by (split; [simpl; lia|]; split; [done|]; simpl; f_equal; lia).
  assert (Hnr : vn_range nv = [q]) by (unfold vn_range; simpl; rewrite range_cons, range_nil by lia; done).
  destruct Ho as [Ho|[Em Ef]].
  - pose proof Ho as (O1 & O2 & O3). rewrite O2. assert (Hq : vn_maxp1 o <= q).
    { specialize (Hlt (vn_maxp1 o - 1)). rewrite E, ivs_seqs_app, elem_of_app in Hlt. unfold ivs_seqs at 2 in Hlt. simpl in Hlt. rewrite app_nil_r in Hlt.
      enough (vn_maxp1 o - 1 < q) by lia. apply Hlt. right. apply elem_of_range. lia. }
    destruct (Z.eqb_spec (vn_maxp1 o) q) as [Eq|Hne].
    + destruct (intv_replace_last _ _ L o (WhcIntvnode (vn_min o) (vn_maxp1 o + 1) (Some (vn_min o)) (Some q)) Hi E HL Hc) as [Hi' E']; [simpl; lia| |].
      { left. split; [simpl; lia|]. split; [done|]. simpl. f_equal. lia. }
      eexists _, _. split; [done|]. split; [exact Hi'|]. rewrite E', E, !ivs_seqs_app, <- app_assoc. f_equal. unfold ivs_seqs. simpl. rewrite !app_nil_r.
      unfold vn_range. simpl. rewrite (range_snoc _ (vn_maxp1 o + 1)) by lia. do 2 f_equal; [lia|]. f_equal. lia.
    + assert (Hbelow : Forall (fun y => key_lt vn_min y nv) (ot_elements (wh_seq w))).
      { pose proof (intv_ok_chain _ _ Hi) as Hch. apply Forall_forall. intros y Hy. unfold key_lt. simpl. pose proof (chain_le _ _ _ Hch Hy) as Hle.
        rewrite E, chain_end_app in Hle. simpl in Hle. lia. }
      assert (Hnew : l_lookup vn_min q (ot_elements (wh_seq w)) = None).
      { apply l_lookup_None. eapply Forall_impl; [exact Hbelow|]. unfold key_lt. simpl. intros y Hy. lia. }
      rewrite ot_lookup_spec, Hnew by apply Hi. apply l_lookup_None in Hnew. destruct (ot_insert_spec vn_min (wh_seq w) nv (vo_wf _ _ Hi) Hnew) as [Hw' E'].
      rewrite <- (app_nil_r (ot_elements (wh_seq w))), l_insert_mid in E'; [|done|constructor]. eexists _, _. split; [done|]. split.
      * split; [exact Hw'|]. exists (ot_elements (wh_seq w)), nv. rewrite E'. split; [done|]. split; [rewrite E; by apply Forall_app; split; [|constructor]|].
        split; [by left|]. split; [|done]. apply chain_app. split; [by eapply intv_ok_chain|]. rewrite E, chain_end_app. simpl. lia.
      * rewrite E', ivs_seqs_app. f_equal. unfold ivs_seqs. simpl. by rewrite Hnr.
  - rewrite Ef. destruct (intv_replace_last _ _ L o nv Hi E HL Hc) as [Hi' E']; [|by left|].
    { rewrite chain_end_full by done. rewrite E, empty_last in Hlt by done. destruct (last (ivs_seqs L)) as [x|] eqn:Ex; [|simpl; lia].
      apply last_Some_elem_of, Hlt in Ex. simpl. lia. }
    eexists _, _. split; [done|]. split; [exact Hi'|]. rewrite E', E, (empty_last L o Em), ivs_seqs_app. f_equal. unfold ivs_seqs. simpl. by rewrite Hnr.
Qed.

(** ** The links *)

Lemma linked_snoc hash l q nd hash' : linked hash l -> NoDup l -> q ∉ l -> nd_seq nd = q -> nd_prev_seq nd = last l -> nd_next_seq nd = None ->
  (forall x, hash' !! x = if decide (x = q) then Some nd else (if decide (last l = Some x) then (fun p => nd_set_next p (Some q)) else id) <$> hash !! x) ->
  linked hash' (l ++ [q]).
Proof.
  intros [Hn Hd] HN Hq E1 E2 E3 Hl. split.
  - intros m1 x m2 E. rewrite Hl. destruct (decide (x = q)) as [->|Hne].
    + destruct (mid_unique l [] m1 m2 q) as [<- <-]; [|done|]; [|by exists nd]. apply NoDup_app. split; [done|]. split; [|by apply NoDup_singleton]. set_solver.
    + assert (exists m3, m2 = m3 ++ [q] /\ l = m1 ++ x :: m3) as (m3 & -> & El).
      { destruct m2 as [|y m2 _] using rev_ind; [apply app_inj_tail in E as [_ E]; congruence|].
        rewrite app_comm_cons, app_assoc in E. apply app_inj_tail in E as [-> <-]. eauto. }
      destruct (Hn _ _ _ El) as (nx & -> & F1 & F2 & F3). eexists. split; [done|]. destruct (decide (last l = Some x)) as [Hx|Hx]; simpl.
      * rewrite El in Hx, HN. by rewrite (last_app_self _ _ _ HN Hx).
      * split; [done|]. split; [done|]. rewrite F3. destruct m3; [|done]. by rewrite El, last_snoc in Hx.
  - intros x nx Hx. rewrite Hl in Hx. destruct (decide (x = q)) as [->|Hne]; [set_solver|]. destruct (hash !! x) eqn:Ex; [|done]. apply Hd in Ex. set_solver.
Qed.

Context (fragment_size : Z) (Hfs : 0 < fragment_size).

Record inserted log w (q : Z) (i : info) w' : Prop := {
  in_settled : settled fragment_size log w';
  in_seqs : seqs w' = seqs w ++ [q];
  in_infos : infos w' = <[q := i]> (infos w);
  in_static : static w' = static w;
  in_drop : wh_max_drop_seq w' = wh_max_drop_seq w;
  in_idx : wh_idx_hash w' = wh_idx_hash w;
}.

Lemma whc_insert_seq_spec log w md q sd : settled fragment_size log w -> 1 <= q -> (forall x, x ∈ seqs w -> x < q) -> 0 <= sd_size sd ->
  exists w', whc_insert_seq fragment_size w md q sd = Some w' /\ inserted log w q (None, 0%nat, md <? q, sd) w'.
Proof.
  intros [Hc Hz Hmax] H1 Hlt Hsd. pose proof (core_NoDup _ _ Hc) as HN. assert (Hq : q ∉ seqs w) by (intros Hq%Hlt; lia). unfold whc_insert_seq.
  set (nd := WhcNode None (wh_maxseq_node w) None 0 q (md <? q) 0 0 sd). rewrite Hmax.
  destruct (upd_node_opt_spec w (last (seqs w)) (fun p => nd_set_next p (Some q))) as (h & -> & Hh).
  { intros x Hx%last_Some_elem_of. destruct (core_find _ _ _ Hc Hx) as (nx & -> & _). eauto. }
  cbn [mbind option_bind]. assert (Hnone : wh_seq_hash w !! q = None) by (apply eq_None_not_Some; intros [nx Hx]; apply Hq; by eapply lk_dom; [apply Hc|]).
  match goal with |- context [if nd_unacked nd then ?a else ?b] => set (w1 := if nd_unacked nd then a else b) end. assert (Hw1 : exists u, w1 = set_unacked (set_maxseq (set_hash w h) (Some q)) u /\
    u = wh_unacked_bytes w + cost fragment_size (wh_sample_overhead w) (None, 0%nat, md <? q, sd)).
  { eexists. split; [|done]. unfold w1, nd, cost, whcn_size. cbn [nd_unacked nd_serdata fst snd]. destruct (md <? q); [done|]. rewrite Z.add_0_r. by destruct w. }
  destruct Hw1 as (u & -> & ->). unfold whc_findseq. simpl. rewrite Hh, Hnone. simpl.
  set (w2 := set_hash _ _). destruct (insert_in_intv_spec w2 q (co_intv _ _ Hc) H1 Hlt) as (t' & open' & -> & Hi & Es). cbn [mbind option_bind].
  assert (Hl2 : forall x, wh_seq_hash w2 !! x = if decide (x = q) then Some nd else (if decide (last (seqs w) = Some x) then (fun p => nd_set_next p (Some q)) else id) <$> wh_seq_hash w !! x).
  { intros x. simpl. destruct (decide (x = q)) as [->|Hne]; [by rewrite lookup_insert_eq|]. by rewrite lookup_insert_ne, Hh. }
  assert (Hinf : nd_info <$> wh_seq_hash w2 = <[q := (None, 0%nat, md <? q, sd)]> (infos w)).
  { apply map_eq. intros x. unfold infos. rewrite lookup_fmap, Hl2. destruct (decide (x = q)) as [->|Hne]; [by rewrite lookup_insert_eq|].
    rewrite lookup_insert_ne, lookup_fmap by done. destruct (wh_seq_hash w !! x); [|done]. simpl. by destruct (decide _). }
  assert (Hino : infos w !! q = None) by (unfold infos; by rewrite lookup_fmap, Hnone). destruct Hc as [[C1 C2 C4 C5] C3].
  set (w3 := set_size _ _). assert (Hinf3 : infos w3 = <[q := (None, 0%nat, md <? q, sd)]> (infos w)) by exact Hinf.
  assert (Hs3 : seqs w3 = seqs w ++ [q]) by exact Es. exists w3. split; [done|]. split; [|done|done|done|done|done]. split; [split; [split|]|..].
  - done.
  - rewrite Hs3. by apply (linked_snoc (wh_seq_hash w) (seqs w) q nd).
  - rewrite Hinf3, Hs3, usum_app, usum_insert by done. simpl. unfold cost_at. rewrite lookup_insert_eq. lia.
  - rewrite Hinf3. destruct C5 as [C5 C6]. split; [done|]. intros x i Hx. apply lookup_insert_Some in Hx as [[_ <-]|[_ Hx]]; [done|eauto].
  - rewrite Hinf3. change (wh_idx_hash w3) with (wh_idx_hash w). destruct (wh_idx_hash w) as [idx|]; [by apply idx_ok_insert|]. destruct C3 as [C3' C3]. split; [done|].
    intros x k pos u sd' Hx. apply lookup_insert_Some in Hx as [[_ Hx]|[_ Hx]]; [done|]. by eapply C3.
  - rewrite Hs3, length_app. simpl. lia.
  - rewrite Hs3. by rewrite last_snoc.
Qed.
End Insert.

(** ** The index: rings that are made, moved on and dropped *)

Definition upd_log (log : Z -> list Z) (k : Z) (l : list Z) : Z -> list Z := fun k' => if decide (k' = k) then l else log k'.

Lemma upd_log_eq log k l : upd_log log k l k = l.
Proof. unfold upd_log. by rewrite decide_True. Qed.
Lemma upd_log_ne log k l k' : k' <> k -> upd_log log k l k' = log k'.
Proof. intros H. unfold upd_log. by rewrite decide_False. Qed.

(** A sample is added to the list of its instance. *)
Lemma log_sorted_cons (l : list Z) q : StronglySorted Z.gt l -> (forall x, x ∈ l -> x < q) -> StronglySorted Z.gt (q :: l).
Proof. intros Hs Hl. constructor; [done|]. apply Forall_forall. intros x Hx%Hl. lia. Qed.

(** ** A new ring *)

(** The ring of another instance does not see a change of nodes that are not in
    it. *)
Lemma ring_ok_ext depth tl (l : list Z) k x (im im' : gmap Z info) :
  (forall q pos u sd, im !! q = Some (Some k, pos, u, sd) -> exists u', im' !! q = Some (Some k, pos, u', sd)) ->
  ring_ok depth tl l k x im -> ring_ok depth tl l k x im'.
Proof.
  intros He [R1 R2 R3 R4 R5]. split; auto. intros d q Hd Hq. destruct (R4 d q Hd Hq) as (Hl & u & sd & Hi & Hk). split; [done|].
  destruct (He _ _ _ _ Hi) as (u' & Hi'). eauto.
Qed.

Lemma hist_new_lookup depth q i (o : option Z) : (Some q :: replicate (depth - 1) None) !! i = Some o -> (i = 0%nat /\ o = Some q) \/ (i <> 0%nat /\ o = None).
Proof. destruct i as [|i]; simpl; [intros [= <-]; by left|]. intros [-> _]%lookup_replicate. by right. Qed.

Lemma idx_ok_new depth tl log idx (im : gmap Z info) q p u sd k : idx_ok depth tl log idx im -> im !! q = Some (None, p, u, sd) -> sd_key sd = k ->
  idx !! k = None -> (0 < depth)%nat -> (forall x, x ∈ log k -> x < q) ->
  idx_ok depth tl (upd_log log k (q :: log k)) (<[k := WhcIdxnode 0 0 (Some q :: replicate (depth - 1) None)]> idx) (<[q := (Some k, 0%nat, u, sd)]> im).
Proof.
  intros [I1 I2 I3 I4] Hq Hsd Hk Hd Hlt. split.
  - intros k' x Hx. apply lookup_insert_Some in Hx as [[<- <-]|[Hne Hx]].
    + rewrite upd_log_eq. split; simpl; [rewrite length_replicate; lia|lia|eauto|..].
      * intros d q' Hdd Hh. apply hist_new_lookup in Hh as [[Hp [= ->]]|[_ Hh]]; [|done]. assert (d = 0%nat) as -> by (unfold pos_of in Hp; destruct (Nat.leb_spec d 0); lia).
        split; [done|]. exists u, sd. rewrite lookup_insert_eq, pos_of_0. done.
      * intros d Hdt Hdd Hh. apply hist_new_lookup in Hh as [[_ Hh]|[Hp _]]; [done|]. destruct d as [|d]; [by rewrite pos_of_0 in Hp|]. simpl.
        destruct (I3 k Hk) as [->| ->]; [lia|done].
    + rewrite upd_log_ne by done. eapply ring_ok_ext; [|by apply I1]. intros q' pos u' sd' Hi. exists u'. rewrite lookup_insert_ne; [done|]. intros ->. congruence.
  - intros q' k' pos u' sd' Hi. apply lookup_insert_Some in Hi as [[<- [= <- <- <- <-]]|[Hne Hi]]; [exists (WhcIdxnode 0 0 (Some q :: replicate (depth - 1) None)); by rewrite lookup_insert_eq|].
    destruct (I2 _ _ _ _ _ Hi) as (x & Hx & Hh). exists x. rewrite lookup_insert_ne by congruence. done.
  - intros k' Hk'. apply lookup_insert_None in Hk' as [Hk' Hne]. rewrite upd_log_ne by done. auto.
  - intros k'. destruct (decide (k' = k)) as [->|Hne]; [rewrite upd_log_eq; by apply log_sorted_cons|by rewrite upd_log_ne].
Qed.

(** ** A ring that moves on *)

Definition cleared (i : info) : info := (None, i.1.1.2, i.1.2, i.2).

Lemma pos_of_inj depth head d d' : (head < depth)%nat -> (d < depth)%nat -> (d' < depth)%nat -> pos_of depth head d = pos_of depth head d' -> d = d'.
Proof. intros Hh Hd Hd' E. rewrite <- (dist_pos depth head d), <- (dist_pos depth head d'), E; done. Qed.

Lemma next_head_pos depth head : (head < depth)%nat -> next_head depth head = pos_of depth head (depth - 1).
Proof.
  intros H. pose proof (next_pos_of depth head (depth - 1) H ltac:(lia)) as E. replace (S (depth - 1)) with depth in E by lia. by rewrite pos_of_depth in E.
Qed.

Lemma idx_ok_push depth tl log idx (im : gmap Z info) q p u sd k x old im1 : idx_ok depth tl log idx im -> im !! q = Some (None, p, u, sd) -> sd_key sd = k ->
  idx !! k = Some x -> (forall y, y ∈ log k -> y < q) -> ix_hist x !! next_head depth (ix_headidx x) = Some old ->
  (forall y, im1 !! y = if decide (old = Some y) then cleared <$> im !! y else im !! y) ->
  idx_ok depth tl (upd_log log k (q :: log k))
    (<[k := WhcIdxnode (ix_prune_seq x) (next_head depth (ix_headidx x)) (<[next_head depth (ix_headidx x) := Some q]> (ix_hist x))]> idx)
    (<[q := (Some k, next_head depth (ix_headidx x), u, sd)]> im1).
Proof.
  intros [I1 I2 I3 I4] Hq Hsd Hk Hlt Hold Him. pose proof (I1 _ _ Hk) as [R1 R2 R3 R4 R5]. set (h := next_head depth (ix_headidx x)) in *.
  assert (Hh : (h < depth)%nat) by (by apply next_head_lt).
  (* a node of the index that stays is in another place *)
  assert (Hstay : forall y k' pos u' sd', im !! y = Some (Some k', pos, u', sd') -> (k' <> k \/ pos <> h) -> y <> q /\ im1 !! y = Some (Some k', pos, u', sd')).
  { intros y k' pos u' sd' Hy Hne. split; [intros ->; congruence|]. rewrite Him, Hy. destruct (decide (old = Some y)) as [->|]; [|done]. exfalso.
    destruct (R4 (depth - 1)%nat y) as (_ & u2 & sd2 & Hy2 & _); [lia|by rewrite <- next_head_pos|]. rewrite <- next_head_pos in Hy2 by done. fold h in Hy2. rewrite Hy in Hy2.
    injection Hy2 as -> -> -> ->. naive_solver. }
  split.
  - intros k' x' Hx'. apply lookup_insert_Some in Hx' as [[<- <-]|[Hne Hx']].
    + rewrite upd_log_eq. split; simpl; [by rewrite length_insert|done| |..].
      * exists q. apply list_lookup_insert_eq. lia.
      * intros d y Hd Hy. destruct d as [|d].
        { rewrite pos_of_0, list_lookup_insert_eq in Hy by lia. injection Hy as <-. split; [done|]. exists u, sd. by rewrite lookup_insert_eq, pos_of_0. }
        unfold h in Hy |- *. rewrite pos_of_next in Hy |- * by done. fold h in Hy |- *.
        assert (Hpos : h <> pos_of depth (ix_headidx x) d) by (unfold h; rewrite next_head_pos by done; intros Ep; apply pos_of_inj in Ep; lia).
        rewrite list_lookup_insert_ne in Hy by done. destruct (R4 d y) as (Hl & u' & sd' & Hy' & Hk'); [lia|done|]. split; [done|]. exists u', sd'. split; [|done].
        destruct (Hstay _ _ _ _ _ Hy') as [Hyq Hy1]; [by right|]. by rewrite lookup_insert_ne.
      * intros d Hd Hd' Hn. destruct d as [|d]; [rewrite pos_of_0, list_lookup_insert_eq in Hn by lia; done|].
        unfold h in Hn. rewrite pos_of_next in Hn by done. fold h in Hn. simpl.
        assert (Hpos : h <> pos_of depth (ix_headidx x) d) by (unfold h; rewrite next_head_pos by done; intros Ep; apply pos_of_inj in Ep; lia).
        rewrite list_lookup_insert_ne in Hn by done. apply R5; [lia|lia|done].
    + rewrite upd_log_ne by done. eapply ring_ok_ext; [|by apply I1]. intros y pos u' sd' Hi. exists u'.
      destruct (Hstay _ _ _ _ _ Hi) as [Hyq Hy1]; [by left|]. by rewrite lookup_insert_ne.
  - intros y k' pos u' sd' Hi. apply lookup_insert_Some in Hi as [[<- [= <- <- <- <-]]|[Hne Hi]].
    + eexists. rewrite lookup_insert_eq. split; [done|]. simpl. apply list_lookup_insert_eq. lia.
    + rewrite Him in Hi. destruct (decide (old = Some y)) as [->|Hyo]; [by destruct (im !! y)|]. destruct (I2 _ _ _ _ _ Hi) as (x' & Hx' & Hh').
      destruct (decide (k' = k)) as [->|Hkk]; [|exists x'; by rewrite lookup_insert_ne]. rewrite Hk in Hx'. injection Hx' as <-. eexists. rewrite lookup_insert_eq. split; [done|].
      simpl. rewrite list_lookup_insert_ne; [done|]. intros <-. congruence.
  - intros k' Hk'. apply lookup_insert_None in Hk' as [Hk' Hne]. rewrite upd_log_ne by done. auto.
  - intros k'. destruct (decide (k' = k)) as [->|Hne]; [rewrite upd_log_eq; by apply log_sorted_cons|by rewrite upd_log_ne].
Qed.

(** ** A ring that is dropped *)

Lemma idx_ok_drop depth tl log idx (im im' : gmap Z info) k : idx_ok depth tl log idx im ->
  (forall q pos u sd, im' !! q <> Some (Some k, pos, u, sd)) ->
  (forall q k' pos u sd, k' <> k -> im !! q = Some (Some k', pos, u, sd) <-> im' !! q = Some (Some k', pos, u, sd)) ->
  idx_ok depth tl (upd_log log k []) (delete k idx) im'.
Proof.
  intros [I1 I2 I3 I4] Hno Hoth. split.
  - intros k' x [Hne Hx]%lookup_delete_Some. rewrite upd_log_ne by done. eapply ring_ok_ext; [|by apply I1]. intros q pos u sd Hi. exists u. apply Hoth; [done|done].
  - intros q k' pos u sd Hi. destruct (decide (k' = k)) as [->|Hne]; [by apply Hno in Hi|]. apply Hoth in Hi; [|done]. destruct (I2 _ _ _ _ _ Hi) as (x & Hx & Hh).
    exists x. by rewrite lookup_delete_ne.
  - intros k' Hk'. destruct (decide (k' = k)) as [->|Hne]; [right; by rewrite upd_log_eq|]. rewrite upd_log_ne by done. rewrite lookup_delete_ne in Hk' by done. auto.
  - intros k'. destruct (decide (k' = k)) as [->|Hne]; [rewrite upd_log_eq; constructor|by rewrite upd_log_ne].
Qed.
