(* ===== verification/WhcWrite.v ===== *)
(** * [whc_insert]: a sample is written

    The cases of a sample of an instance with and without a ring, of an
    unregistration, and the operation as a whole. *)

From Stdlib Require Import ZArith Lia Sorting.Sorted.
From stdpp Require Import prelude gmap.
From S2P Require Import Prelude OrdTree Receive Whc WhcFacts WhcOps WhcFind WhcRemove WhcInsert.

Section Write.
Context {T : Type -> Type} `{!OrdTree T, !OrdTreeLaws T}.
Context (fragment_size : Z) (Hfs : 0 < fragment_size).
Implicit Types (w : whc (T := T)) (log : Z -> list Z).

Lemma infos_node w q i : infos w !! q = Some i -> exists nd, wh_seq_hash w !! q = Some nd /\ nd_info nd = i.
Proof. unfold infos. rewrite lookup_fmap. destruct (wh_seq_hash w !! q) as [nd|]; [|done]. intros [= <-]. eauto. Qed.

(** ** A node changes its place in the index *)

Lemma base_set_idx w q nd k pos : base fragment_size w -> wh_seq_hash w !! q = Some nd ->
  base fragment_size (set_hash w (<[q := nd_set_idx nd k pos]> (wh_seq_hash w))) /\
  infos (set_hash w (<[q := nd_set_idx nd k pos]> (wh_seq_hash w))) = <[q := (k, pos, nd_unacked nd, nd_serdata nd)]> (infos w).
Proof.
  intros [C1 C2 C4 C5] Hq. set (w' := set_hash _ _). assert (Hi : infos w !! q = Some (nd_info nd)) by (unfold infos; by rewrite lookup_fmap, Hq).
  assert (Hinf : infos w' = <[q := (k, pos, nd_unacked nd, nd_serdata nd)]> (infos w)) by (unfold infos; simpl; by rewrite fmap_insert).
  split; [|done]. split; [done| | |].
  - split.
    + intros m1 x m2 Ex. destruct (lk_node _ _ C2 m1 x m2 Ex) as (nx & Hx & H1 & H2 & H3). simpl. destruct (decide (x = q)) as [->|Hne].
      * rewrite lookup_insert_eq. rewrite Hq in Hx. injection Hx as ->. by eexists.
      * rewrite lookup_insert_ne by done. eauto.
    + intros x nx. simpl. intros Hx. apply (lk_dom _ _ C2 x (default nd (wh_seq_hash w !! x))). apply lookup_insert_Some in Hx as [[<- _]|[_ Hx]]; [by rewrite Hq|by rewrite Hx].
  - change (seqs w') with (seqs w). rewrite Hinf. simpl. rewrite C4. apply usum_ext; [done|]. intros x _. unfold cost_at. destruct (decide (x = q)) as [->|Hne].
    + by rewrite lookup_insert_eq, Hi.
    + by rewrite lookup_insert_ne.
  - rewrite Hinf. destruct C5 as [C5 C6]. split; [done|]. intros x i Hx. apply lookup_insert_Some in Hx as [[_ <-]|[_ Hx]]; [apply (C6 _ _ Hi)|eauto].
Qed.

(** ** [free_one_instance_from_idx] *)

Definition goes (H : list (option Z)) (md q : Z) : Prop := Some q ∈ H /\ q <= md.
#[export] Instance goes_dec H md q : Decision (goes H md q).
Proof. unfold goes. apply _. Defined.

Record freed w (md : Z) (H : list (option Z)) w' : Prop := {
  fr_base : base fragment_size w';
  fr_seqs : seqs w' = filter (fun q => ~ goes H md q) (seqs w);
  fr_infos : forall q, infos w' !! q = if decide (goes H md q) then None else (if decide (Some q ∈ H) then cleared else id) <$> infos w !! q;
  fr_conf : conf w' = conf w;
  fr_idx : wh_idx_hash w' = wh_idx_hash w;
  fr_size : wh_seq_size w' - Z.of_nat (length (seqs w')) = wh_seq_size w - Z.of_nat (length (seqs w));
}.

(** One of them is cleared, and deleted if it is acknowledged. *)
Lemma free_one w md o : base fragment_size w -> o ∈ seqs w -> (o <= md -> wh_maxseq_node w <> Some o) ->
  exists nd w1 w2, whc_findseq w o = Some nd /\ nd_seq nd = o /\ upd_node w o (fun nd => nd_set_idx nd None (nd_idxnode_pos nd)) = Some w1 /\
    (if nd_seq nd <=? md then if bool_decide (wh_maxseq_node w1 = Some o) then None else whc_delete_one fragment_size w1 o else Some w1) = Some w2 /\
    freed w md [Some o] w2.
Proof.
  intros Hb Ho Hmax. destruct (core_find _ _ _ Hb Ho) as (nd & Hn & Hs). exists nd. unfold upd_node. rewrite Hn. cbn [mbind option_bind]. set (w1 := set_hash _ _).
  destruct (base_set_idx w o nd None (nd_idxnode_pos nd) Hb Hn) as [Hb1 Hi1]. fold w1 in Hb1, Hi1. assert (Hi : infos w !! o = Some (nd_info nd)) by (unfold infos; by rewrite lookup_fmap, Hn).
  exists w1. rewrite Hs. assert (HS : forall q, Some q ∈ [Some o] <-> q = o) by (intros q; rewrite list_elem_of_singleton; naive_solver). destruct (Z.leb_spec o md) as [Hle|Hgt].
  - rewrite bool_decide_false by (by apply Hmax). destruct (sorted_split_at _ _ Ho) as (l1 & l2 & E).
    destruct (delete_unindexed _ Hfs w1 o l1 l2 (nd_set_idx nd None (nd_idxnode_pos nd)) Hb1 E) as (w2 & E2 & Hb2 & (D1 & D2 & D3 & D4) & Hz); [simpl; by rewrite lookup_insert_eq|done|].
    exists w2. split; [done|]. split; [done|]. split; [done|]. split; [done|]. pose proof (core_NoDup _ _ Hb) as HN. rewrite E in HN. apply NoDup_app in HN as (_ & N1 & N2). apply NoDup_cons in N2 as [N2 _].
    split; [done| | |done|done|].
    + rewrite D1, E, filter_app, filter_cons_False by (intros Hg; apply Hg; split; [by apply HS|done]). unfold goes. rewrite !filter_all; [done|..]; intros x Hx; rewrite HS; intros [-> _]; [done|]. apply (N1 o Hx). left.
    + intros q. rewrite D2, Hi1. unfold goes. destruct (decide (q = o)) as [->|Hne]; [rewrite lookup_delete_eq, decide_True by (by rewrite HS); done|].
      rewrite lookup_delete_ne, lookup_insert_ne by congruence. rewrite !decide_False by (rewrite HS; tauto). by rewrite option_fmap_id.
    + rewrite D1, Hz, E, !length_app. simpl. lia.
  - exists w1. split; [done|]. split; [done|]. split; [done|]. split; [done|]. split; [done| | |done|done|done].
    + symmetry. apply filter_all. intros x _ [Hx Hle]. apply HS in Hx. lia.
    + intros q. rewrite Hi1. unfold goes. rewrite (decide_False (P := _ /\ _)) by (rewrite HS; lia). destruct (decide (q = o)) as [->|Hne].
      * by rewrite lookup_insert_eq, decide_True, Hi by (by apply HS).
      * rewrite lookup_insert_ne, decide_False by (rewrite ?HS; done). by rewrite option_fmap_id.
Qed.

Lemma freed_none w md H : base fragment_size w -> (forall q, Some q ∉ H) -> freed w md H w.
Proof.
  intros Hb HH. assert (Hno : forall q, ~ goes H md q) by (intros q [Hq _]; by apply HH in Hq). split; [done| | |done|done|done].
  - symmetry. by apply filter_all.
  - intros q. rewrite !decide_False by done. by rewrite option_fmap_id.
Qed.

Lemma freed_cons w md o H w1 w2 : freed w md [o] w1 -> freed w1 md H w2 -> freed w md (o :: H) w2.
Proof.
  intros [A1 A2 A3 A4 A5 A6] [B1 B2 B3 B4 B5 B6]. assert (HS : forall q, Some q ∈ o :: H <-> Some q ∈ [o] \/ Some q ∈ H) by (intros q; rewrite elem_of_cons, list_elem_of_singleton; tauto).
  split; [done| | |congruence|congruence|lia].
  - rewrite B2, A2, list_filter_filter. apply filter_same. intros q _. unfold goes. rewrite HS. tauto.
  - intros q. rewrite B3, A3. unfold goes. destruct (infos w !! q) as [i|]; [|by repeat case_decide].
    destruct (decide (Some q ∈ [o])) as [Ho|Ho], (decide (Some q ∈ H)) as [HH|HH], (decide (q <= md)) as [Hm|Hm]; repeat case_decide; (done || naive_solver).
Qed.

Lemma free_hist_spec md H w : base fragment_size w -> (forall o, Some o ∈ H -> o ∈ seqs w /\ (o <= md -> wh_maxseq_node w <> Some o)) -> NoDup (omap id H) ->
  exists w', free_hist fragment_size w md H = Some w' /\ freed w md H w'.
Proof.
  revert w. induction H as [|[o|] H IH]; intros w Hb HH HN; cbn [free_hist].
  - exists w. split; [done|]. apply freed_none; [done|]. intros q. apply not_elem_of_nil.
  - destruct (HH o) as [Ho Hmax]; [left|]. destruct (free_one w md o Hb Ho Hmax) as (nd & w1 & w2 & -> & Hs & E1 & E2 & F). cbn [mbind option_bind]. rewrite E1. cbn [mbind option_bind].
    rewrite E2. cbn [mbind option_bind]. simpl in HN. apply NoDup_cons in HN as [HN1 HN2].
    destruct (IH w2 (fr_base _ _ _ _ F)) as (w' & -> & F'); [|done|].
    + intros o' Ho'. destruct (HH o') as [Hin Hm]; [by right|]. destruct (conf_fields _ _ (fr_conf _ _ _ _ F)) as (_ & _ & _ & _ & _ & _ & ->). split; [|done].
      rewrite (fr_seqs _ _ _ _ F). apply list_elem_of_filter. split; [|done]. intros [Hg%list_elem_of_singleton _]. injection Hg as ->. apply HN1. apply list_elem_of_omap. exists (Some o). done.
    + exists w'. split; [done|]. by eapply freed_cons.
  - destruct (IH w Hb) as (w' & -> & F); [intros o Ho; apply HH; by right|done|]. exists w'. split; [done|]. eapply freed_cons; [|exact F].
    apply freed_none; [done|]. intros q Hq. by apply list_elem_of_singleton in Hq.
Qed.

(** The samples of a ring. *)
Lemma ring_entries log w k x o : core fragment_size log w -> lookup_idxnode w k = Some x -> Some o ∈ ix_hist x <-> exists d, ring_pos w o = Some (k, d).
Proof.
  intros Hc Hx. destruct (core_ring _ _ _ _ _ Hc Hx) as [Hr _]. pose proof (ro_head _ _ _ _ _ _ Hr) as Hh. split.
  - intros [i Hi]%list_elem_of_lookup. assert (Hlt : (i < wh_idxdepth w)%nat) by (rewrite <- (ro_len _ _ _ _ _ _ Hr); by eapply lookup_lt_Some).
    exists (dist_of (wh_idxdepth w) (ix_headidx x) i). eapply hist_pos; [done|done|by apply dist_of_lt|by rewrite pos_dist].
  - intros [d Hd]. destruct (ring_pos_Some _ _ _ _ _ _ Hc Hd) as (x' & Hx' & Hp & _). rewrite Hx in Hx'. injection Hx' as <-. by eapply list_elem_of_lookup_2.
Qed.

Lemma ring_NoDup log w k x : core fragment_size log w -> lookup_idxnode w k = Some x -> NoDup (omap id (ix_hist x)).
Proof.
  intros Hc Hx. destruct (core_ring _ _ _ _ _ Hc Hx) as [Hr _]. pose proof (ro_head _ _ _ _ _ _ Hr) as Hh.
  assert (Hinj : forall i j o, ix_hist x !! i = Some (Some o) -> ix_hist x !! j = Some (Some o) -> i = j).
  { intros i j o Hi Hj. assert (Hli : (i < wh_idxdepth w)%nat) by (rewrite <- (ro_len _ _ _ _ _ _ Hr); by eapply lookup_lt_Some).
    assert (Hlj : (j < wh_idxdepth w)%nat) by (rewrite <- (ro_len _ _ _ _ _ _ Hr); by eapply lookup_lt_Some).
    destruct (hist_pos _ _ _ _ _ (dist_of (wh_idxdepth w) (ix_headidx x) i) o Hc Hx) as (H1 & _); [by apply dist_of_lt|by rewrite pos_dist|].
    destruct (hist_pos _ _ _ _ _ (dist_of (wh_idxdepth w) (ix_headidx x) j) o Hc Hx) as (H2 & _); [by apply dist_of_lt|by rewrite pos_dist|].
    rewrite H1 in H2. injection H2 as E. rewrite <- (pos_dist (wh_idxdepth w) (ix_headidx x) i), <- (pos_dist (wh_idxdepth w) (ix_headidx x) j), E; done. }
  clear -Hinj. induction (ix_hist x) as [|o l IH]; simpl; [constructor|]. assert (Hl : NoDup (omap id l)).
  { apply IH. intros i j o' Hi Hj. specialize (Hinj (S i) (S j) o' Hi Hj). lia. }
  destruct o as [o|]; simpl; [|done]. constructor; [|done]. intros (o' & Ho' & E)%list_elem_of_omap. simpl in E. subst o'.
  apply list_elem_of_lookup in Ho' as [j Hj]. specialize (Hinj 0%nat (S j) o eq_refl Hj). lia.
Qed.

(** ** What a write does *)

(** The samples of each instance, the latest first, since it was unregistered. *)
Definition next_log log (q : Z) (sd : serdata) : Z -> list Z :=
  if sd_is_empty sd then log else if sd_unregister sd then upd_log log (sd_key sd) [] else upd_log log (sd_key sd) (q :: log (sd_key sd)).

(** Samples go that are acknowledged, or replaced by a newer one of the instance. *)
Record written log w (md q : Z) (sd : serdata) w' : Prop := {
  wr_settled : settled fragment_size (next_log log q sd) w';
  wr_static : static w' = static w;
  wr_drop : wh_max_drop_seq w' = wh_max_drop_seq w;
  wr_sub : forall x, x ∈ seqs w' -> x ∈ seqs w \/ x = q;
  wr_keep : forall x, x ∈ seqs w \/ x = q -> x ∉ seqs w' -> x <= md \/ (0 < wh_hdepth w)%nat /\ next_log log q sd (sd_key sd) !! wh_idxdepth w = Some x;
  wr_info : forall x i, infos w' !! x = Some i -> x = q /\ i.1.2 = (md <? q) /\ i.2 = sd \/ exists i0, infos w !! x = Some i0 /\ i.1.2 = i0.1.2 /\ i.2 = i0.2;
  wr_low : forall x i, infos w' !! x = Some i -> x <= md -> x <> q -> exists i0, infos w !! x = Some i0 /\ i.1.1.1 = i0.1.1.1;
  wr_prune : forall k x', lookup_idxnode w' k = Some x' -> ix_prune_seq x' = 0 \/ exists x, lookup_idxnode w k = Some x /\ ix_prune_seq x' = ix_prune_seq x;
  wr_idx : is_Some (wh_idx_hash w') <-> is_Some (wh_idx_hash w);
}.

(** Samples go, and nothing else changes. *)
Record shrunk log w (G : Z -> Prop) w' : Prop := {
  sh_settled : settled fragment_size log w';
  sh_sub : forall x, x ∈ seqs w' -> x ∈ seqs w;
  sh_keep : forall x, x ∈ seqs w -> x ∉ seqs w' -> G x;
  sh_info : forall x i, infos w' !! x = Some i -> infos w !! x = Some i;
  sh_conf : static w' = static w /\ wh_max_drop_seq w' = wh_max_drop_seq w /\ (is_Some (wh_idx_hash w') <-> is_Some (wh_idx_hash w));
  sh_rings : rings_shrink w w';
  sh_max : wh_maxseq_node w' = wh_maxseq_node w;
}.

Lemma shrunk_refl log w (G : Z -> Prop) : settled fragment_size log w -> shrunk log w G w.
Proof. intros Hs. split; [done|done|by intros x Hx Hn|done|by repeat split|by apply rings_refl|done]. Qed.

Lemma shrunk_trans log w G w1 G1 w2 : shrunk log w G w1 -> shrunk log w1 G1 w2 -> (forall x, G1 x -> G x) -> shrunk log w G w2.
Proof.
  intros [A1 A2 A3 A4 (A5 & A6 & A7) A8 A9] [B1 B2 B3 B4 (B5 & B6 & B7) B8 B9] HG. split; auto.
  - intros x Hx Hn. destruct (decide (x ∈ seqs w1)); auto.
  - split; [congruence|]. split; [congruence|by rewrite B7].
  - apply (rings_trans w w1 w2); [by apply static_fields in A5 as (_ & _ & _ & -> & _)|done|done].
  - congruence.
Qed.

(** One sample that is not the last goes. *)
Lemma shrunk_delete log w x (G : Z -> Prop) : settled fragment_size log w -> x ∈ seqs w -> last (seqs w) <> Some x -> leaves w x -> G x ->
  exists w', (if bool_decide (wh_maxseq_node w = Some x) then None else whc_delete_one fragment_size w x) = Some w' /\ shrunk log w G w' /\ x ∉ seqs w'.
Proof.
  intros [Hc Hz Hm] Hx Hl Hlv HG. rewrite bool_decide_false by congruence. destruct (sorted_split_at _ _ Hx) as (l1 & l2 & E).
  destruct (whc_delete_one_spec _ Hfs _ _ _ _ _ Hc E Hlv) as (w' & -> & Hc' & Hd & Hz'). exists w'. split; [done|]. pose proof (deleted_rings _ _ _ _ _ Hlv Hd) as Hr. pose proof Hd as [D1 D2 D3 D4].
  destruct l2 as [|y l2]; [by rewrite E, last_snoc in Hl|]. destruct (conf_fields _ _ D4) as (_ & _ & _ & _ & _ & Emd & Emx). split.
  2: { pose proof (core_NoDup _ _ Hc) as HN. rewrite E in HN. apply NoDup_app in HN as (_ & N1 & N2). apply NoDup_cons in N2 as [N2 _]. rewrite D1.
       intros [Hin|Hin]%elem_of_app; [|done]. apply (N1 x Hin). left. }
  split.
  - split; [done|rewrite Hz', D1, Hz, E, !length_app; simpl; lia|]. rewrite Emx, Hm, D1, E, !last_app_cons. by rewrite last_cons_cons.
  - intros y'. rewrite D1, E. set_solver.
  - intros y'. rewrite D1, E. intros Hy' Hn. assert (y' = x) as -> by set_solver. done.
  - intros y' i. rewrite D2. by intros [_ ?]%lookup_delete_Some.
  - split; [by apply conf_static|]. split; [done|]. by apply rs_idx.
  - done.
  - done.
Qed.
End Write.

(** ** The cases of [whc_insert] *)

Section Cases.
Context {T : Type -> Type} `{!OrdTree T, !OrdTreeLaws T}.
Context (fragment_size : Z) (Hfs : 0 < fragment_size).
Implicit Types (w : whc (T := T)) (log : Z -> list Z).

(** The new sample is in the cache and not yet in the index. *)
Definition fresh log w (md q : Z) (sd : serdata) w0 : Prop := inserted fragment_size log w q (None, 0%nat, md <? q, sd) w0.

(** What is left to do then. *)
Record indexed log w0 (md q : Z) (sd : serdata) w' : Prop := {
  ixd_settled : settled fragment_size (next_log log q sd) w';
  ixd_static : static w' = static w0;
  ixd_drop : wh_max_drop_seq w' = wh_max_drop_seq w0;
  ixd_sub : forall x, x ∈ seqs w' -> x ∈ seqs w0;
  ixd_keep : forall x, x ∈ seqs w0 -> x ∉ seqs w' -> x <= md \/ (0 < wh_hdepth w0)%nat /\ next_log log q sd (sd_key sd) !! wh_idxdepth w0 = Some x;
  ixd_info : forall x i, infos w' !! x = Some i -> exists i0, infos w0 !! x = Some i0 /\ i.1.2 = i0.1.2 /\ i.2 = i0.2 /\ (x <= md -> x <> q -> i.1.1.1 = i0.1.1.1);
  ixd_prune : forall k x', lookup_idxnode w' k = Some x' -> ix_prune_seq x' = 0 \/ exists x, lookup_idxnode w0 k = Some x /\ ix_prune_seq x' = ix_prune_seq x;
  ixd_idx : is_Some (wh_idx_hash w') <-> is_Some (wh_idx_hash w0);
}.

Lemma written_indexed log w md q sd w0 w' : fresh log w md q sd w0 -> indexed log w0 md q sd w' -> written fragment_size log w md q sd w'.
Proof.
  intros [A1 A2 A3 A4 A5 A6] [B1 B2 B3 B4 B5 B6 B7 B8]. destruct (static_fields _ _ A4) as (_ & _ & Eh & _ & Ed). split.
  - done.
  - congruence.
  - congruence.
  - intros x Hx%B4. rewrite A2 in Hx. set_solver.
  - intros x Hx Hn. rewrite Eh, Ed in B5. apply B5; [rewrite A2; set_solver|done].
  - intros x i Hx. destruct (B6 _ _ Hx) as (i0 & Hi0 & E1 & E2 & _). rewrite A3 in Hi0. apply lookup_insert_Some in Hi0 as [[<- <-]|[_ Hi0]]; [by left|right]. eauto.
  - intros x i Hx Hm Hne. destruct (B6 _ _ Hx) as (i0 & Hi0 & _ & _ & E3). rewrite A3, lookup_insert_ne in Hi0 by done. eauto.
  - intros k x' Hx'. unfold lookup_idxnode in *. rewrite A6 in B7. eauto.
  - by rewrite B8, A6.
Qed.

(** A sample that is not in the index. *)
Lemma indexed_plain log w md q sd w0 : fresh log w md q sd w0 -> sd_is_empty sd = true \/ wh_idx_hash w0 = None -> indexed log w0 md q sd w0.
Proof.
  intros Hf Hp. pose proof (in_settled _ _ _ _ _ _ Hf) as [Hc Hz Hm]. split; auto.
  - split; [|done|done]. destruct Hp as [Hp|Hp]; [unfold next_log; by rewrite Hp|]. destruct Hc as [Hb Hi]. split; [done|]. by rewrite Hp in *.
  - by intros x Hx Hn.
  - intros x i Hx. eauto.
  - eauto.
Qed.

(** The first sample of an instance. *)
Lemma indexed_new log w md q sd w0 idx : fresh log w md q sd w0 -> q ∉ seqs w -> sd_is_empty sd = false -> sd_unregister sd = false ->
  wh_idx_hash w0 = Some idx -> idx !! sd_key sd = None -> (0 < wh_idxdepth w0)%nat -> (forall x, x ∈ log (sd_key sd) -> x < q) ->
  exists w', (w ← upd_node w0 q (fun nd => nd_set_idx nd (Some (sd_key sd)) 0);
              upd_idxnode w (sd_key sd) (WhcIdxnode 0 0 (Some q :: replicate (wh_idxdepth w - 1) None))) = Some w' /\ indexed log w0 md q sd w'.
Proof.
  intros Hf Hq Hemp Hun Hidx Hk Hd Hlt. pose proof (in_settled _ _ _ _ _ _ Hf) as [Hc Hz Hm].
  assert (Hi : infos w0 !! q = Some (None, 0%nat, md <? q, sd)) by (rewrite (in_infos _ _ _ _ _ _ Hf); apply lookup_insert_eq).
  destruct (infos_node _ _ _ Hi) as (nd & Hn & Hni). unfold upd_node, upd_idxnode. rewrite Hn. cbn [mbind option_bind]. simpl. rewrite Hidx. cbn [mbind option_bind].
  injection Hni as _ _ Eu Es. destruct (base_set_idx _ Hfs w0 q nd (Some (sd_key sd)) 0 Hc Hn) as [Hb Hinf]. rewrite Eu, Es in Hinf.
  eexists. split; [done|]. set (w' := set_idx _ _). assert (Hinf' : infos w' = <[q := (Some (sd_key sd), 0%nat, md <? q, sd)]> (infos w0)) by exact Hinf.
  assert (Hlog : next_log log q sd = upd_log log (sd_key sd) (q :: log (sd_key sd))) by (unfold next_log; by rewrite Hemp, Hun).
  split; try done.
  - split; [|done|done]. split; [by destruct Hb|]. change (wh_idx_hash w') with (Some (<[sd_key sd := WhcIdxnode 0 0 (Some q :: replicate (wh_idxdepth w0 - 1) None)]> idx)).
    rewrite Hinf', Hlog. pose proof (co_idx _ _ _ Hc) as Hio. rewrite Hidx in Hio. by eapply idx_ok_new.
  - intros x i Hx. rewrite Hinf' in Hx. apply lookup_insert_Some in Hx as [[<- <-]|[_ Hx]]; [eexists; split; [exact Hi|]; split; [done|]; split; [done|]; by intros _ ?|eauto].
  - intros k x' Hx'. change (lookup_idxnode w' k) with (<[sd_key sd := WhcIdxnode 0 0 (Some q :: replicate (wh_idxdepth w0 - 1) None)]> idx !! k) in Hx'.
    apply lookup_insert_Some in Hx' as [[_ <-]|[_ Hx']]; [by left|]. right. exists x'. unfold lookup_idxnode. rewrite Hidx. done.
Qed.

(** ** A sample of an instance that has a ring *)

(** The ring moves on: the first steps of [insert_in_hist]. *)
Record pushed log w0 (q : Z) (sd : serdata) (x : whc_idxnode) (old : option Z) w' : Prop := {
  pu_settled : settled fragment_size (upd_log log (sd_key sd) (q :: log (sd_key sd))) w';
  pu_seqs : seqs w' = seqs w0;
  pu_infos : forall y, y <> q -> infos w' !! y = if decide (old = Some y) then cleared <$> infos w0 !! y else infos w0 !! y;
  pu_info : exists i0, infos w0 !! q = Some i0 /\ infos w' !! q = Some (Some (sd_key sd), next_head (wh_idxdepth w0) (ix_headidx x), i0.1.2, sd) /\ i0.2 = sd;
  pu_conf : conf w' = conf w0;
  pu_idx : wh_idx_hash w' = <[sd_key sd := WhcIdxnode (ix_prune_seq x) (next_head (wh_idxdepth w0) (ix_headidx x))
                                 (<[next_head (wh_idxdepth w0) (ix_headidx x) := Some q]> (ix_hist x))]> <$> wh_idx_hash w0;
}.

Lemma push_steps log w md q sd w0 x old : fresh log w md q sd w0 -> q ∉ seqs w -> lookup_idxnode w0 (sd_key sd) = Some x -> (forall y, y ∈ log (sd_key sd) -> y < q) ->
  ix_hist x !! next_head (wh_idxdepth w0) (ix_headidx x) = Some old ->
  exists w1 w2 w3, upd_node_opt w0 old (fun nd => nd_set_idx nd None (nd_idxnode_pos nd)) = Some w1 /\
    upd_idxnode w1 (sd_key sd) (WhcIdxnode (ix_prune_seq x) (next_head (wh_idxdepth w0) (ix_headidx x))
                                  (<[next_head (wh_idxdepth w0) (ix_headidx x) := Some q]> (ix_hist x))) = Some w2 /\
    upd_node w2 q (fun nd => nd_set_idx nd (Some (sd_key sd)) (next_head (wh_idxdepth w0) (ix_headidx x))) = Some w3 /\ pushed log w0 q sd x old w3.
Proof.
  intros Hf Hq Hx Hlt Hold. pose proof (in_settled _ _ _ _ _ _ Hf) as [Hc Hz Hm]. destruct (core_ring _ _ _ _ _ Hc Hx) as [Hr _].
  assert (Hi : infos w0 !! q = Some (None, 0%nat, md <? q, sd)) by (rewrite (in_infos _ _ _ _ _ _ Hf); apply lookup_insert_eq).
  assert (Holdq : old <> Some q).
  { intros ->. pose proof (ro_head _ _ _ _ _ _ Hr) as Hh. rewrite next_head_pos in Hold by done. destruct (hist_pos _ _ _ _ _ (wh_idxdepth w0 - 1) q Hc Hx) as (Hp & _); [lia|done|].
    unfold ring_pos in Hp. by rewrite Hi in Hp. }
  set (h := next_head (wh_idxdepth w0) (ix_headidx x)) in *.
  assert (H1 : exists w1, upd_node_opt w0 old (fun nd => nd_set_idx nd None (nd_idxnode_pos nd)) = Some w1 /\ base fragment_size w1 /\ seqs w1 = seqs w0 /\
    (forall y, infos w1 !! y = if decide (old = Some y) then cleared <$> infos w0 !! y else infos w0 !! y) /\ conf w1 = conf w0 /\ wh_idx_hash w1 = wh_idx_hash w0 /\ wh_seq_size w1 = wh_seq_size w0).
  { destruct old as [o|]; [|exists w0; split; [done|]; split; [apply Hc|]; split; [done|]; split; [intros y; by rewrite decide_False|done]].
    pose proof (ro_head _ _ _ _ _ _ Hr) as Hh. unfold h in Hold. rewrite next_head_pos in Hold by done.
    destruct (hist_pos _ _ _ _ _ (wh_idxdepth w0 - 1) o Hc Hx) as (_ & _ & Ho); [lia|done|].
    destruct (core_find _ _ _ Hc Ho) as (nd & Hn & _). simpl. unfold upd_node. rewrite Hn. cbn [mbind option_bind].
    destruct (base_set_idx _ Hfs w0 o nd None (nd_idxnode_pos nd) Hc Hn) as [Hb Hinf]. eexists. split; [done|]. split; [done|]. split; [done|]. split; [|done].
    intros y. rewrite Hinf. destruct (decide (y = o)) as [->|Hne]; [|by rewrite lookup_insert_ne, decide_False by congruence].
    rewrite lookup_insert_eq, decide_True by done. unfold infos. by rewrite lookup_fmap, Hn. }
  destruct H1 as (w1 & -> & Hb1 & Es1 & Him1 & Ec1 & Ei1 & Ez1). exists w1. pose proof (co_idx _ _ _ Hc) as Hio.
  unfold lookup_idxnode in Hx. destruct (wh_idx_hash w0) as [idx|] eqn:Hidx; [|done]. simpl in Hx. unfold upd_idxnode. rewrite Ei1. cbn [mbind option_bind].
  set (w2 := set_idx w1 _). exists w2. assert (Hiq : infos w1 !! q = Some (None, 0%nat, md <? q, sd)) by (by rewrite Him1, decide_False).
  destruct (infos_node w1 _ _ Hiq) as (nd & Hn & Hni). injection Hni as _ _ Eu Es. unfold upd_node. change (wh_seq_hash w2) with (wh_seq_hash w1). rewrite Hn. cbn [mbind option_bind].
  eexists. split; [done|]. split; [done|]. split; [done|]. destruct (base_set_idx _ Hfs w1 q nd (Some (sd_key sd)) h Hb1 Hn) as [Hb3 Hinf3]. rewrite Eu, Es in Hinf3.
  set (w3 := set_hash w2 _). assert (Hinf : infos w3 = <[q := (Some (sd_key sd), h, md <? q, sd)]> (infos w1)) by exact Hinf3.
  destruct (conf_fields _ _ Ec1) as (_ & _ & _ & Et & Ed & _ & Em). split.
  - split; [|change (wh_seq_size w1 = Z.of_nat (length (seqs w1))); congruence|change (wh_maxseq_node w1 = last (seqs w1)); congruence]. split; [by destruct Hb3|].
    change (wh_idx_hash w3) with (Some (<[sd_key sd := WhcIdxnode (ix_prune_seq x) h (<[h := Some q]> (ix_hist x))]> idx)).
    change (wh_idxdepth w3) with (wh_idxdepth w1). change (wh_tldepth w3) with (wh_tldepth w1). rewrite Hinf, Et, Ed. by eapply idx_ok_push.
  - done.
  - intros y Hy. by rewrite Hinf, lookup_insert_ne.
  - exists (None, 0%nat, md <? q, sd). split; [done|]. split; [by rewrite Hinf, lookup_insert_eq|done].
  - done.
  - by rewrite Hidx.
Qed.

(** The sample at the end of a ring that moved on is out of the index. *)
Lemma pushed_old log w0 q sd x o w3 : pushed log w0 q sd x (Some o) w3 -> o <> q -> leaves w3 o.
Proof.
  intros P Hne k pos u sd' Hi. rewrite (pu_infos _ _ _ _ _ _ _ P), decide_True in Hi by done. destruct (infos w0 !! o) as [i|]; [|done]. discriminate.
Qed.

Lemma pushed_at log w0 q sd x old w3 : pushed log w0 q sd x old w3 -> ring_pos w3 q = Some (sd_key sd, 0%nat).
Proof.
  intros P. destruct (pu_info _ _ _ _ _ _ _ P) as (i0 & _ & Hi & _). pose proof (co_idx _ _ _ (st_core _ _ _ (pu_settled _ _ _ _ _ _ _ P))) as Hio. pose proof (pu_idx _ _ _ _ _ _ _ P) as Hidx.
  destruct (conf_fields _ _ (pu_conf _ _ _ _ _ _ _ P)) as (_ & _ & _ & _ & Ed & _). unfold ring_pos, lookup_idxnode. rewrite Hi, Hidx. rewrite Hidx in Hio.
  destruct (wh_idx_hash w0) as [idx|]; [|simpl in Hio; destruct Hio as [_ Hio]; by destruct (Hio _ _ _ _ _ Hi)]. simpl. rewrite lookup_insert_eq. simpl. do 2 f_equal.
  unfold dist_of. destruct (Nat.ltb_spec (next_head (wh_idxdepth w0) (ix_headidx x)) (next_head (wh_idxdepth w0) (ix_headidx x))); lia.
Qed.

Lemma prune_pos depth head tl : (head < depth)%nat -> (0 < tl < depth)%nat ->
  (if (depth <=? head + depth - tl)%nat then (head + depth - tl - depth)%nat else (head + depth - tl)%nat) = pos_of depth head tl.
Proof. intros. unfold pos_of. destruct (Nat.leb_spec depth (head + depth - tl)), (Nat.leb_spec tl head); lia. Qed.

(** The end of [insert_in_hist]: beyond the history for late joiners nothing
    acknowledged is kept. *)
Lemma prune_beyond log w (md q k : Z) (h : nat) (G : Z -> Prop) : settled fragment_size log w -> ((0 < wh_tldepth w)%nat -> ring_pos w q = Some (k, 0%nat)) ->
  last (seqs w) = Some q -> (forall x, lookup_idxnode w k = Some x -> ix_headidx x = h) -> (forall x, x <= md -> G x) ->
  exists w', (if (q <=? md) && (0 <? wh_tldepth w)%nat && (wh_tldepth w <? wh_idxdepth w)%nat then
      let pos := (h + wh_idxdepth w - wh_tldepth w)%nat in
      let pos := if (wh_idxdepth w <=? pos)%nat then (pos - wh_idxdepth w)%nat else pos in
      x ← lookup_idxnode w k;
      oldn ← ix_hist x !! pos;
      match oldn with Some oldn => if bool_decide (wh_maxseq_node w = Some oldn) then None else whc_delete_one fragment_size w oldn | None => Some w end
    else Some w) = Some w' /\ shrunk fragment_size log w G w'.
Proof.
  intros Hs Hq Hl Hhd HG. pose proof Hs as [Hc _ _]. destruct ((q <=? md) && (0 <? wh_tldepth w)%nat && (wh_tldepth w <? wh_idxdepth w)%nat) eqn:Ec.
  2: { exists w. split; [done|]. by apply shrunk_refl. }
  apply andb_prop in Ec as [[Eq%Z.leb_le Et%Nat.ltb_lt]%andb_prop Ed%Nat.ltb_lt]. specialize (Hq Et). destruct (ring_pos_Some _ _ _ _ _ _ Hc Hq) as (x & Hx & _). cbn zeta.
  rewrite <- (Hhd x Hx). clear Hhd h.
  destruct (core_ring _ _ _ _ _ Hc Hx) as [Hr _]. pose proof (ro_head _ _ _ _ _ _ Hr) as Hh. rewrite Hx. cbn [mbind option_bind]. rewrite prune_pos by done.
  destruct (ix_hist x !! pos_of (wh_idxdepth w) (ix_headidx x) (wh_tldepth w)) as [[o|]|] eqn:Eo; cbn [mbind option_bind].
  - destruct (hist_pos _ _ _ _ _ _ _ Hc Hx Ed Eo) as (Ho & _ & Hin). assert (Hlt : o < q) by (eapply ring_older; [exact Hc|exact Hq|exact Ho|lia]).
    destruct (shrunk_delete _ Hfs log w o G Hs Hin) as (w' & -> & Hsh & _); [rewrite Hl; intros [= ->]; lia|eapply leaves_old; [exact Hc| |exact Ho]; lia|apply HG; lia|]. eauto.
  - exists w. split; [done|]. by apply shrunk_refl.
  - apply lookup_ge_None in Eo. rewrite (ro_len _ _ _ _ _ _ Hr) in Eo. pose proof (pos_of_lt _ _ _ Hh Ed). lia.
Qed.

(** The replaced sample goes, unless it is not acknowledged and all are kept. *)
Lemma drop_replaced log w0 q sd x old w3 md (G : Z -> Prop) : pushed log w0 q sd x old w3 -> last (seqs w3) = Some q ->
  (forall o, old = Some o -> o <> q /\ o ∈ seqs w0 /\ ((0 < wh_hdepth w0)%nat -> G o)) -> (forall y, y <= md -> G y) ->
  exists w4, (match old with
              | Some o => ond ← whc_findseq w3 o;
                  if (0 <? wh_hdepth w3)%nat || (nd_seq ond <=? md) then if bool_decide (wh_maxseq_node w3 = Some o) then None else whc_delete_one fragment_size w3 o else Some w3
              | None => Some w3
              end) = Some w4 /\ shrunk fragment_size (upd_log log (sd_key sd) (q :: log (sd_key sd))) w3 G w4 /\
    (forall o, old = Some o -> o ∈ seqs w4 -> md < o).
Proof.
  intros P Hl Hold HG. pose proof (pu_settled _ _ _ _ _ _ _ P) as Hs. destruct old as [o|]; [|exists w3; split; [done|]; split; [by apply shrunk_refl|done]].
  destruct (Hold o eq_refl) as (Hne & Hin & HGo). assert (Ho : o ∈ seqs w3) by (by rewrite (pu_seqs _ _ _ _ _ _ _ P)).
  destruct (core_find _ _ _ (st_core _ _ _ Hs) Ho) as (nd & Hn & Hnq). unfold whc_findseq. rewrite Hn. cbn [mbind option_bind]. rewrite Hnq.
  destruct (conf_fields _ _ (pu_conf _ _ _ _ _ _ _ P)) as (_ & _ & -> & _ & _). destruct ((0 <? wh_hdepth w0)%nat || (o <=? md)) eqn:Ec.
  - assert (HG' : G o) by (apply orb_true_iff in Ec as [Ec%Nat.ltb_lt|Ec%Z.leb_le]; auto).
    destruct (shrunk_delete _ Hfs _ w3 o G Hs Ho) as (w4 & -> & Hsh & Hno); [rewrite Hl; congruence|by eapply pushed_old|done|].
    exists w4. split; [done|]. split; [done|]. by intros o' [= <-] Ho'.
  - apply orb_false_iff in Ec as [_ Ec%Z.leb_gt]. exists w3. split; [done|]. split; [by apply shrunk_refl|]. intros o' [= <-] _. done.
Qed.

(** After that the new sample is still the latest of its instance. *)
Lemma shrunk_last log w G w' q : settled fragment_size log w -> shrunk fragment_size log w G w' -> last (seqs w) = Some q -> last (seqs w') = Some q.
Proof. intros [_ _ Hm] S Hl. destruct (sh_settled _ _ _ _ _ S) as [_ _ Hm']. rewrite <- Hm', (sh_max _ _ _ _ _ S), Hm. done. Qed.

Lemma ring_at_head log w0 q sd x old w3 G w4 : pushed log w0 q sd x old w3 -> last (seqs w3) = Some q ->
  shrunk fragment_size (upd_log log (sd_key sd) (q :: log (sd_key sd))) w3 G w4 -> (0 < wh_tldepth w4)%nat -> ring_pos w4 q = Some (sd_key sd, 0%nat).
Proof.
  intros P Hl S Ht. pose proof (shrunk_last _ _ _ _ _ (pu_settled _ _ _ _ _ _ _ P) S Hl) as Hl4%last_Some_elem_of. rewrite <- (pushed_at _ _ _ _ _ _ _ P).
  destruct (sh_conf _ _ _ _ _ S) as ((_ & _ & _ & Et & Ed)%static_fields & _). pose proof (core_infos _ w4 q (st_core _ _ _ (sh_settled _ _ _ _ _ S))) as Hi.
  destruct (proj2 Hi Hl4) as [i Hq]. pose proof (sh_info _ _ _ _ _ S _ _ Hq) as Hq3. destruct (sh_rings _ _ _ _ _ S) as [R1 R2 _].
  unfold ring_pos. rewrite Hq, Hq3, Ed. destruct i as [[[[k|] pos] u] sd']; [|done]. destruct (lookup_idxnode w4 k) as [x4|] eqn:E4.
  - destruct (R1 _ _ E4) as (x3 & -> & Eh & _). simpl. by rewrite Eh.
  - destruct (lookup_idxnode w3 k) as [x3|] eqn:E3; [|done]. destruct (R2 ltac:(lia) k) as [? ?]; [by rewrite E3|]. congruence.
Qed.

Lemma ring_head_at log w0 q sd x old w3 G w4 : pushed log w0 q sd x old w3 -> shrunk fragment_size (upd_log log (sd_key sd) (q :: log (sd_key sd))) w3 G w4 ->
  forall y, lookup_idxnode w4 (sd_key sd) = Some y -> ix_headidx y = next_head (wh_idxdepth w0) (ix_headidx x).
Proof.
  intros P S y Hy. destruct (rs_ring _ _ (sh_rings _ _ _ _ _ S) _ _ Hy) as (x3 & Hx3 & -> & _). unfold lookup_idxnode in Hx3. rewrite (pu_idx _ _ _ _ _ _ _ P) in Hx3.
  destruct (wh_idx_hash w0); [|done]. simpl in Hx3. rewrite lookup_insert_eq in Hx3. by injection Hx3 as <-.
Qed.

Lemma indexed_pushed log w0 md q sd x old w3 w' : sd_is_empty sd = false -> sd_unregister sd = false -> lookup_idxnode w0 (sd_key sd) = Some x ->
  pushed log w0 q sd x old w3 -> (forall o, old = Some o -> o ∈ seqs w' -> md < o) ->
  shrunk fragment_size (upd_log log (sd_key sd) (q :: log (sd_key sd))) w3
    (fun y => y <= md \/ (0 < wh_hdepth w0)%nat /\ (q :: log (sd_key sd)) !! wh_idxdepth w0 = Some y) w' -> indexed log w0 md q sd w'.
Proof.
  intros Hemp Hun Hx P Hold S. assert (Hlog : next_log log q sd = upd_log log (sd_key sd) (q :: log (sd_key sd))) by (unfold next_log; by rewrite Hemp, Hun).
  pose proof S as [S1 S2 S3 S4 (S5 & S6 & S7) S8 S9]. destruct (conf_fields _ _ (pu_conf _ _ _ _ _ _ _ P)) as (_ & _ & _ & _ & _ & Emd & _).
  pose proof (conf_static _ _ (pu_conf _ _ _ _ _ _ _ P)) as Est. rewrite (pu_seqs _ _ _ _ _ _ _ P) in S2, S3. split.
  - by rewrite Hlog.
  - congruence.
  - congruence.
  - done.
  - intros y Hy Hn. rewrite Hlog, upd_log_eq. auto.
  - intros y i Hy. pose proof (S4 _ _ Hy) as Hy3. destruct (decide (y = q)) as [->|Hne].
    + destruct (pu_info _ _ _ _ _ _ _ P) as (i0 & Hi0 & Hi & Hsd). rewrite Hi in Hy3. injection Hy3 as <-. exists i0. split; [done|]. split; [done|]. split; [by rewrite Hsd|]. by intros _ ?.
    + rewrite (pu_infos _ _ _ _ _ _ _ P) in Hy3 by done. destruct (decide (old = Some y)) as [Ho|Ho]; [|exists i; split; [done|]; done].
      destruct (infos w0 !! y) as [i0|]; [|done]. injection Hy3 as <-. exists i0. split; [done|]. split; [done|]. split; [done|]. intros Hmd _. exfalso.
      assert (Hin : y ∈ seqs w') by (apply (core_infos _ w' y (st_core _ _ _ S1)); eauto). specialize (Hold _ Ho Hin). lia.
  - intros k y Hy. right. destruct (rs_ring _ _ S8 _ _ Hy) as (x3 & Hx3 & _ & ->). unfold lookup_idxnode in *. rewrite (pu_idx _ _ _ _ _ _ _ P) in Hx3.
    destruct (wh_idx_hash w0) as [idx|]; [|done]. simpl in *. apply lookup_insert_Some in Hx3 as [[<- <-]|[_ Hx3]]; eauto.
  - rewrite S7, (pu_idx _ _ _ _ _ _ _ P). by rewrite fmap_is_Some.
Qed.

Lemma indexed_more log w md q sd w0 x : fresh log w md q sd w0 -> q ∉ seqs w -> sd_is_empty sd = false -> sd_unregister sd = false ->
  lookup_idxnode w0 (sd_key sd) = Some x -> (forall y, y ∈ log (sd_key sd) -> y < q) ->
  exists w', insert_in_hist fragment_size w0 md q (sd_key sd) x = Some w' /\ indexed log w0 md q sd w'.
Proof.
  intros Hf Hq Hemp Hun Hx Hlt. pose proof (in_settled _ _ _ _ _ _ Hf) as [Hc Hz Hm]. destruct (core_ring _ _ _ _ _ Hc Hx) as [Hr _]. pose proof (ro_head _ _ _ _ _ _ Hr) as Hh.
  unfold insert_in_hist. fold (next_head (wh_idxdepth w0) (ix_headidx x)). set (h := next_head (wh_idxdepth w0) (ix_headidx x)).
  assert (Hhd : (h < wh_idxdepth w0)%nat) by (by apply next_head_lt). destruct (lookup_lt_is_Some_2 (ix_hist x) h) as [old Hold]; [by rewrite (ro_len _ _ _ _ _ _ Hr)|].
  rewrite Hold. cbn [mbind option_bind]. destruct (push_steps _ _ _ _ _ _ _ _ Hf Hq Hx Hlt Hold) as (w1 & w2 & w3 & -> & E2 & E3 & P). cbn [mbind option_bind].
  fold h in E2, E3. rewrite E2. cbn [mbind option_bind]. rewrite E3. cbn [mbind option_bind].
  set (G := fun y => y <= md \/ (0 < wh_hdepth w0)%nat /\ (q :: log (sd_key sd)) !! wh_idxdepth w0 = Some y).
  assert (Hlast : last (seqs w3) = Some q) by (by rewrite (pu_seqs _ _ _ _ _ _ _ P), (in_seqs _ _ _ _ _ _ Hf), last_snoc).
  assert (Hoo : forall o, old = Some o -> o <> q /\ o ∈ seqs w0 /\ ((0 < wh_hdepth w0)%nat -> G o)).
  { intros o ->. unfold h in Hold. rewrite next_head_pos in Hold by done. destruct (hist_pos _ _ _ _ _ (wh_idxdepth w0 - 1) o Hc Hx) as (_ & Hlo & Ho); [lia|done|].
    split; [|split; [done|]]; [apply list_elem_of_lookup_2, Hlt in Hlo; lia|]. intros Hhd'. right. split; [done|]. destruct (wh_idxdepth w0) as [|dd]; [lia|]. simpl. by replace (S dd - 1)%nat with dd in Hlo by lia. }
  destruct (drop_replaced log w0 q sd x old w3 md G P Hlast Hoo) as (w4 & -> & S4 & Hlow); [by left|]. cbn [mbind option_bind].
  destruct (prune_beyond _ w4 md q (sd_key sd) h G (sh_settled _ _ _ _ _ S4)) as (w5 & E5 & S5); [intros Ht; by eapply ring_at_head; [exact P|exact Hlast|exact S4|]|eapply shrunk_last; [exact (pu_settled _ _ _ _ _ _ _ P)|exact S4|done]|eapply ring_head_at; [exact P|exact S4]|by left|].
  exists w5. split; [exact E5|]. pose proof (shrunk_trans _ _ _ _ _ _ _ S4 S5 (fun y H => H)) as S.
  eapply indexed_pushed; [done|done|done|exact P| |exact S]. intros o Ho Hin. apply (Hlow o Ho). by apply (sh_sub _ _ _ _ _ S5).
Qed.
End Cases.

(** ** [whc_insert] of an unregistration, and [whc_insert] as a whole *)

Section Unregister.
Context {T : Type -> Type} `{!OrdTree T, !OrdTreeLaws T}.
Context (fragment_size : Z) (Hfs : 0 < fragment_size).
Implicit Types (w : whc (T := T)) (log : Z -> list Z).

(** The unregistration itself goes when it is acknowledged. *)
Lemma indexed_drop_new log w0 md q sd w2 l i : indexed fragment_size log w0 md q sd w2 -> seqs w2 = l ++ [q] -> infos w2 !! q = Some i -> i.1.1.1 = None ->
  exists w', drop_unregister fragment_size w2 md q = Some w' /\ indexed fragment_size log w0 md q sd w'.
Proof.
  intros X E Hi Hni. pose proof X as [[Hc Hz Hm] X2 X3 X4 X5 X6 X7 X8]. destruct (infos_node _ _ _ Hi) as (nd & Hn & Hinf). destruct (core_node _ _ _ _ _ Hc E) as (nd' & Hn' & Hs & Hp & _).
  rewrite Hn in Hn'. injection Hn' as <-. unfold drop_unregister, whc_findseq. rewrite Hn. cbn [mbind option_bind]. rewrite Hs. destruct (Z.leb_spec q md) as [Hle|Hgt]; [|by exists w2].
  assert (Hlv : leaves w2 q) by (intros k pos u sd' Hk; rewrite Hk in Hi; injection Hi as <-; done).
  destruct (whc_delete_one_spec _ Hfs _ _ _ _ _ Hc E Hlv) as (w3 & -> & Hc3 & Hd & Hz3). cbn [mbind option_bind]. rewrite Hp. eexists. split; [done|].
  pose proof (deleted_rings _ _ _ _ _ Hlv Hd) as Hr. destruct Hd as [D1 D2 D3 D4]. rewrite app_nil_r in D1. destruct (conf_fields _ _ D4) as (_ & _ & _ & _ & _ & Emd & _).
  set (w4 := set_maxseq w3 (last l)). split.
  - split; [by destruct Hc3 as [[] ?]; split; [split|]| |].
    + change (wh_seq_size w3 = Z.of_nat (length (seqs w3))). rewrite Hz3, Hz, D1, E, length_app. simpl. lia.
    + change (last l = last (seqs w3)). by rewrite D1.
  - rewrite <- X2. by apply conf_static in D4.
  - change (wh_max_drop_seq w3 = wh_max_drop_seq w0). congruence.
  - intros x. change (x ∈ seqs w3 -> x ∈ seqs w0). rewrite D1. intros Hx. apply X4. rewrite E. set_solver.
  - intros x Hx. change (x ∉ seqs w3 -> x <= md \/ (0 < wh_hdepth w0)%nat /\ next_log log q sd (sd_key sd) !! wh_idxdepth w0 = Some x). rewrite D1. intros Hnx.
    destruct (decide (x = q)) as [->|Hne]; [by left|]. apply X5; [done|]. rewrite E. set_solver.
  - intros x i'. change (infos w3 !! x = Some i' -> exists i0, infos w0 !! x = Some i0 /\ i'.1.2 = i0.1.2 /\ i'.2 = i0.2 /\ (x <= md -> x <> q -> i'.1.1.1 = i0.1.1.1)).
    rewrite D2. intros [_ Hx]%lookup_delete_Some. auto.
  - intros k x'. change (lookup_idxnode w3 k = Some x' -> ix_prune_seq x' = 0 \/ exists x, lookup_idxnode w0 k = Some x /\ ix_prune_seq x' = ix_prune_seq x).
    intros Hx'. destruct (rs_ring _ _ Hr _ _ Hx') as (x & Hx & _ & ->). auto.
  - change (is_Some (wh_idx_hash w3) <-> is_Some (wh_idx_hash w0)). rewrite <- X8. by apply rs_idx.
Qed.

(** An instance without a ring. *)
Lemma indexed_skip log w md q sd w0 idx : fresh fragment_size log w md q sd w0 -> sd_is_empty sd = false -> sd_unregister sd = true ->
  wh_idx_hash w0 = Some idx -> idx !! sd_key sd = None -> indexed fragment_size log w0 md q sd w0.
Proof.
  intros Hf Hemp Hun Hidx Hk. pose proof (in_settled _ _ _ _ _ _ Hf) as [Hc Hz Hm]. split; auto.
  - split; [|done|done]. destruct Hc as [Hb Hi]. split; [done|]. rewrite Hidx in *. unfold next_log. rewrite Hemp, Hun. rewrite <- (delete_id idx (sd_key sd)) by done.
    eapply idx_ok_drop; [done| |done]. intros x pos u sd' Hx. destruct (io_node _ _ _ _ _ Hi _ _ _ _ _ Hx) as (y & Hy & _). congruence.
  - by intros x Hx Hn.
  - intros x i Hx. eauto.
  - eauto.
Qed.

(** What is in the index after the ring [x] of the instance [k] is dropped. *)
Lemma freed_core log w0 md k idx x w2 : core fragment_size log w0 -> wh_idx_hash w0 = Some idx -> idx !! k = Some x ->
  freed fragment_size (set_idx w0 (Some (delete k idx))) md (ix_hist x) w2 -> core fragment_size (upd_log log k []) w2.
Proof.
  intros Hc Hidx Hk [F1 F2 F3 F4 F5 F6]. assert (Hx : lookup_idxnode w0 k = Some x) by (unfold lookup_idxnode; by rewrite Hidx). split; [done|].
  destruct (conf_fields _ _ F4) as (_ & _ & _ & Et & Ed & _). rewrite F5, Et, Ed. pose proof (co_idx _ _ _ Hc) as Hio. rewrite Hidx in Hio. simpl.
  assert (Hent : forall q k' pos u sd, infos w0 !! q = Some (Some k', pos, u, sd) -> Some q ∈ ix_hist x <-> k' = k).
  { intros q k' pos u sd Hq. rewrite (ring_entries _ log w0 k x q Hc Hx). unfold ring_pos. rewrite Hq. split.
    - intros [d Hd]. destruct (lookup_idxnode w0 k'); [|done]. by injection Hd as ->.
    - intros ->. rewrite Hx. simpl. eauto. }
  assert (Hi2 : forall q, infos w2 !! q = if decide (goes (ix_hist x) md q) then None else (if decide (Some q ∈ ix_hist x) then cleared else id) <$> infos w0 !! q) by exact F3.
  apply (idx_ok_drop _ _ _ _ (infos w0)); [done|..].
  - intros q pos u sd Hq. rewrite Hi2 in Hq. destruct (decide (goes _ _ _)); [done|]. destruct (infos w0 !! q) as [i|] eqn:Ei; [|done].
    destruct (decide (Some q ∈ ix_hist x)) as [Hin|Hin]; [done|]. simpl in Hq. injection Hq as ->. apply Hin. by eapply Hent.
  - intros q k' pos u sd Hne. rewrite Hi2. split.
    + intros Hq. assert (Hin : Some q ∉ ix_hist x) by (intros Hin; by apply Hne; eapply Hent). rewrite !decide_False by (done || by intros [? _]). by rewrite option_fmap_id.
    + destruct (decide (goes _ _ _)); [done|]. destruct (infos w0 !! q) as [i|] eqn:Ei; [|done]. by destruct (decide (Some q ∈ ix_hist x)).
Qed.

(** An instance that has a ring: its acknowledged samples go, the others are not
    in the index any more. *)
Lemma indexed_unregister log w md q sd w0 idx x : fresh fragment_size log w md q sd w0 -> q ∉ seqs w -> sd_is_empty sd = false -> sd_unregister sd = true ->
  wh_idx_hash w0 = Some idx -> idx !! sd_key sd = Some x ->
  exists w2, delete_one_instance_from_idx fragment_size w0 md (sd_key sd) = Some w2 /\ indexed fragment_size log w0 md q sd w2 /\
    (exists l, seqs w2 = l ++ [q]) /\ exists i, infos w2 !! q = Some i /\ i.1.1.1 = None.
Proof.
  intros Hf Hq Hemp Hun Hidx Hk. pose proof (in_settled _ _ _ _ _ _ Hf) as [Hc Hz Hm]. set (k := sd_key sd) in *.
  assert (Hx : lookup_idxnode w0 k = Some x) by (unfold lookup_idxnode; by rewrite Hidx). destruct (core_ring _ _ _ _ _ Hc Hx) as [Hr _].
  assert (Hi : infos w0 !! q = Some (None, 0%nat, md <? q, sd)) by (rewrite (in_infos _ _ _ _ _ _ Hf); apply lookup_insert_eq).
  assert (Hqh : Some q ∉ ix_hist x) by (intros [d Hd]%(ring_entries _ log w0 k x q Hc Hx); unfold ring_pos in Hd; by rewrite Hi in Hd).
  unfold delete_one_instance_from_idx, free_one_instance_from_idx. rewrite Hidx. cbn [mbind option_bind]. rewrite Hk. cbn [mbind option_bind].
  set (w1 := set_idx w0 (Some (delete k idx))). change (wh_idxdepth w1) with (wh_idxdepth w0). rewrite take_ge by (by rewrite (ro_len _ _ _ _ _ _ Hr)).
  destruct (free_hist_spec _ Hfs md (ix_hist x) w1) as (w2 & -> & F).
  - by destruct (co_base _ _ _ Hc).
  - intros o Ho. apply (ring_entries _ log w0 k x o Hc Hx) in Ho as Hd. destruct Hd as [d Hd]. split.
    + change (o ∈ seqs w0). apply (core_infos _ w0 o Hc). unfold ring_pos in Hd. destruct (infos w0 !! o); [eauto|done].
    + intros _. change (wh_maxseq_node w0 <> Some o). rewrite Hm, (in_seqs _ _ _ _ _ _ Hf), last_snoc. intros [= ->]. done.
  - by eapply ring_NoDup.
  - exists w2. split; [done|]. pose proof (freed_core _ _ _ _ _ _ _ Hc Hidx Hk F) as Hc2. destruct F as [F1 F2 F3 F4 F5 F6].
    assert (Hnq : ~ goes (ix_hist x) md q) by (by intros [? _]).
    assert (E2 : seqs w2 = filter (fun y => ~ goes (ix_hist x) md y) (seqs w) ++ [q]).
    { rewrite F2. change (seqs w1) with (seqs w0). rewrite (in_seqs _ _ _ _ _ _ Hf), filter_app. f_equal. by rewrite filter_cons_True. }
    assert (Hi2 : forall y, infos w2 !! y = if decide (goes (ix_hist x) md y) then None else (if decide (Some y ∈ ix_hist x) then cleared else id) <$> infos w0 !! y) by exact F3.
    destruct (conf_fields _ _ F4) as (_ & _ & _ & _ & _ & Emd & Emx). split; [|split; [by eexists|]].
    2: { exists (None, 0%nat, md <? q, sd). split; [|done]. rewrite Hi2, !decide_False, Hi by done. done. }
    split.
    + unfold next_log. rewrite Hemp, Hun. split; [done|change (seqs w1) with (seqs w0) in F6; change (wh_seq_size w1) with (wh_seq_size w0) in F6; lia|].
      rewrite Emx, E2, last_snoc. change (wh_maxseq_node w0 = Some q). by rewrite Hm, (in_seqs _ _ _ _ _ _ Hf), last_snoc.
    + by apply conf_static in F4.
    + done.
    + intros y. rewrite F2. by intros [_ ?]%list_elem_of_filter.
    + intros y Hy. rewrite F2. intros Hn. left. destruct (decide (goes (ix_hist x) md y)) as [[_ Hg]|Hg]; [done|]. destruct Hn. by apply list_elem_of_filter.
    + intros y i Hy. rewrite Hi2 in Hy. destruct (decide (goes (ix_hist x) md y)) as [Hg|Hg]; [done|]. destruct (infos w0 !! y) as [i0|]; [|done]. exists i0. split; [done|].
      destruct (decide (Some y ∈ ix_hist x)) as [Hin|Hin]; simpl in Hy; injection Hy as <-; [|done]. split; [done|]. split; [done|]. intros Hmd _. destruct Hg. by split.
    + intros k' x' Hx'. right. unfold lookup_idxnode in *. rewrite F5 in Hx'. simpl in Hx'. apply lookup_delete_Some in Hx' as [_ Hx']. rewrite Hidx. eauto.
    + rewrite F5, Hidx. simpl. by split; eauto.
Qed.

(** ** [whc_insert] *)

(** What the writer sees to: sequence numbers increase. *)
Record may_write log w (md q : Z) (sd : serdata) : Prop := {
  mw_pos : 1 <= q;
  mw_seqs : forall x, x ∈ seqs w -> x < q;
  mw_log : forall k x, x ∈ log k -> x < q;
  mw_drop : wh_max_drop_seq w <= md < MAX_SEQ_NUMBER;
  mw_size : 0 <= sd_size sd;
}.

Lemma whc_insert_spec log w md q sd : settled fragment_size log w -> (is_Some (wh_idx_hash w) <-> (0 < wh_idxdepth w)%nat) -> may_write log w md q sd ->
  exists w', whc_insert fragment_size w md q sd = Some w' /\ written fragment_size log w md q sd w'.
Proof.
  intros Hs Hix [H1 Hlt Hlog Hmd Hsz]. pose proof Hs as [Hc Hz Hm]. assert (Hq : q ∉ seqs w) by (intros Hq%Hlt; lia).
  destruct (whc_insert_seq_spec _ Hfs log w md q sd Hs H1 Hlt Hsz) as (w0 & E0 & Hf).
  assert (Hguard : check_whc w && (md <? MAX_SEQ_NUMBER) && (md >=? wh_max_drop_seq w) && (whc_empty w || match whc_max_seq w with Some m => q >? m | None => false end) = true).
  { rewrite (check_whc_core _ log), (proj2 (Z.ltb_lt _ _)), (proj2 (Z.geb_le _ _)), (whc_max_seq_core _ log) by (done || lia). simpl. rewrite whc_empty_spec by done.
    destruct (last (seqs w)) as [m|] eqn:El; [|apply last_None in El; by rewrite bool_decide_true]. apply last_Some_elem_of, Hlt in El. rewrite (proj2 (Z.gtb_lt _ _)) by done. apply orb_true_r. }
  unfold whc_insert. rewrite Hguard, E0. cbn [negb mbind option_bind]. pose proof (in_idx _ _ _ _ _ _ Hf) as Eidx. destruct (static_fields _ _ (in_static _ _ _ _ _ _ Hf)) as (_ & _ & _ & _ & Ed).
  enough (exists w', (if sd_is_empty sd || (wh_idxdepth w0 =? 0)%nat then Some w0 else
      idx ← wh_idx_hash w0; match idx !! sd_key sd with
      | Some idxn => if sd_unregister sd then w ← delete_one_instance_from_idx fragment_size w0 md (sd_key sd); drop_unregister fragment_size w md q
                     else insert_in_hist fragment_size w0 md q (sd_key sd) idxn
      | None => if negb (sd_unregister sd) then w ← upd_node w0 q (fun nd => nd_set_idx nd (Some (sd_key sd)) 0); upd_idxnode w (sd_key sd) (WhcIdxnode 0 0 (Some q :: replicate (wh_idxdepth w - 1) None))
                else drop_unregister fragment_size w0 md q
      end) = Some w' /\ indexed fragment_size log w0 md q sd w') as (w' & E' & X) by (exists w'; split; [exact E'|by eapply written_indexed]).
  destruct (sd_is_empty sd) eqn:Hemp; [exists w0; split; [done|]; eapply indexed_plain; eauto|]. cbn [orb]. destruct (Nat.eqb_spec (wh_idxdepth w0) 0) as [Hd0|Hd0].
  { exists w0. split; [done|]. eapply indexed_plain; [done|]. right. rewrite Eidx. destruct (wh_idx_hash w); [|done]. exfalso. enough (0 < wh_idxdepth w)%nat by lia. by apply Hix. }
  destruct (wh_idx_hash w0) as [idx|] eqn:Hidx; [|exfalso; destruct (proj2 Hix) as [? ?]; [lia|congruence]]. cbn [mbind option_bind].
  assert (Hinq : infos w0 !! q = Some (None, 0%nat, md <? q, sd)) by (rewrite (in_infos _ _ _ _ _ _ Hf); apply lookup_insert_eq).
  destruct (idx !! sd_key sd) as [x|] eqn:Hk, (sd_unregister sd) eqn:Hun; cbn [negb].
  - destruct (indexed_unregister log w md q sd w0 idx x Hf Hq Hemp Hun Hidx Hk) as (w2 & -> & X & [l E2] & i & Hi & Hni). cbn [mbind option_bind]. by eapply indexed_drop_new.
  - eapply indexed_more; eauto. unfold lookup_idxnode. by rewrite Hidx.
  - eapply indexed_drop_new; [by eapply indexed_skip|apply (in_seqs _ _ _ _ _ _ Hf)|done|done].
  - eapply indexed_new; eauto. lia.
Qed.
End Unregister.
