(* ===== verification/WhcHist.v ===== *)
(** * What the writer history cache promises

    Every operation keeps the invariant; runs of the cache are related to the
    history of what it was asked to keep. *)

From Stdlib Require Import ZArith Lia Sorting.Sorted.
From stdpp Require Import prelude gmap.
From S2P Require Import Prelude OrdTree Receive Whc WhcFacts WhcOps WhcFind WhcRemove WhcInsert WhcWrite.

Section Run.
Context {T : Type -> Type} `{!OrdTree T, !OrdTreeLaws T}.
Context (ndebug : bool) (fragment_size : Z) (Hfs : 0 < fragment_size).
Implicit Types (w : whc (T := T)) (log : Z -> list Z).

Lemma whc_ok_settled log w : whc_ok fragment_size log w -> settled fragment_size log w.
Proof. intros Hk. split; apply Hk. Qed.

(** ** [whc_new] *)

Lemma whc_new_ok is_tl hdepth tldepth overhead : 0 <= overhead -> (hdepth = 0 \/ tldepth <= hdepth)%nat \/ is_tl = true ->
  exists w, whc_new is_tl hdepth tldepth overhead = Some w /\ whc_ok fragment_size (fun _ => []) w /\ seqs w = [] /\ wh_max_drop_seq w = 0 /\
    static w = (overhead, is_tl, hdepth, tldepth, Nat.max hdepth tldepth).
Proof.
  intros Ho Hd. unfold whc_new.
  replace (negb ((hdepth =? 0)%nat || (tldepth <=? hdepth)%nat || is_tl)) with false.
  2: { symmetry. apply negb_false_iff. destruct (Nat.eqb_spec hdepth 0); [done|]. destruct (Nat.leb_spec tldepth hdepth); [done|]. simpl. destruct Hd as [Hd|Hd]; [lia|done]. }
  assert (Hmx : (if (tldepth <? hdepth)%nat then hdepth else tldepth) = Nat.max hdepth tldepth) by (destruct (Nat.ltb_spec tldepth hdepth); lia). rewrite Hmx.
  set (w := MkWhc _ _ _ _ _ _ _ _ _ _ _ _ _). set (o := WhcIntvnode 1 1 None None).
  assert (Hel : ot_wf vn_min (wh_seq w) /\ ot_elements (wh_seq w) = [o]).
  { destruct (ot_insert_spec vn_min ot_init o (ot_init_wf vn_min)) as [Hw' E']; [rewrite ot_init_elements; constructor|].
    split; [exact Hw'|]. change (wh_seq w) with (ot_insert vn_min ot_init o). by rewrite E', ot_init_elements. }
  destruct Hel as [Hw E]. assert (Es : seqs w = []) by (unfold seqs, intvs; by rewrite E).
  assert (Hinf : infos w = ∅) by apply (fmap_empty (M := gmap Z) nd_info).
  assert (Hs : settled fragment_size (fun _ => []) w).
  { split; [|by rewrite Es|by rewrite Es]. split; [split|].
    - split; [done|]. exists [], o. split; [done|]. split; [constructor|]. split; [by right|]. split; [|done]. simpl. split; [lia|done].
    - rewrite Es. split; [by intros [] ? ? [=]|]. intros q nd. cbn [wh_seq_hash w]. by rewrite lookup_empty.
    - rewrite Es. done.
    - split; [done|]. intros q i. by rewrite Hinf, lookup_empty.
    - cbn [wh_idx_hash w]. destruct (Nat.ltb_spec 0 (Nat.max hdepth tldepth)).
      + split; [intros k x; by rewrite lookup_empty| |by right|constructor]. intros q k pos u sd. by rewrite Hinf, lookup_empty.
      + split; [cbn [wh_tldepth w]; lia|]. intros q k pos u sd. by rewrite Hinf, lookup_empty. }
  rewrite (check_whc_core _ (fun _ => [])) by apply Hs. exists w. split; [done|]. split; [|done]. destruct Hs as [H1 H2 H3]. split; try done.
  - cbn [wh_idx_hash wh_idxdepth w]. destruct (Nat.ltb_spec 0 (Nat.max hdepth tldepth)); [by split; [|eauto]|]. split; [by intros [? ?]|lia].
  - intros k x. unfold lookup_idxnode. cbn [wh_idx_hash w]. destruct (0 <? Nat.max hdepth tldepth)%nat; simpl; by rewrite ?lookup_empty.
Qed.

(** ** [whc_insert] *)

Lemma written_ok log w md q sd w' : whc_ok fragment_size log w -> wh_max_drop_seq w < q -> wh_max_drop_seq w <= md -> written fragment_size log w md q sd w' ->
  whc_ok fragment_size (next_log log q sd) w'.
Proof.
  intros Hk Hq Hmd [[W1 W2 W3] Wst Wd _ _ _ Wl Wp Wi]. destruct (static_fields _ _ Wst) as (_ & Etl & Eh & Et & Ed). destruct Hk as [K1 K2 K3 K4 K5 K6 K7 K8 K9 K10].
  split; [done|done|done|congruence|by rewrite Eh, Et, Etl|by rewrite Wi, Ed|by rewrite Wd|by rewrite Etl, Et, Wd|..]; rewrite Wd.
  - intros x i Hx Hle. destruct (Wl x i Hx) as (i0 & Hi0 & ->); [lia|lia|]. rewrite Et. eauto.
  - intros k x' Hx'. destruct (Wp k x' Hx') as [->|(x & Hx & ->)]; [lia|eauto].
Qed.

(** ** [whc_remove_acked_messages] *)

(** All samples are kept for late joiners: nothing happens. *)
Lemma remove_acked_keep_all log w m : whc_ok fragment_size log w -> wh_max_drop_seq w <= m < MAX_SEQ_NUMBER -> wh_is_transient_local w = true -> wh_tldepth w = 0%nat ->
  whc_remove_acked_messages ndebug fragment_size w m = Some (w, 0).
Proof.
  intros Hk Hm Htl Ht. unfold whc_remove_acked_messages. rewrite (check_whc_ok _ _ _ Hk), (proj2 (Z.ltb_lt _ _)), (proj2 (Z.geb_le _ _)) by lia. by rewrite Htl, Ht.
Qed.

Lemma whc_ok_ready log w m L R : whc_ok fragment_size log w -> wh_max_drop_seq w <= m < MAX_SEQ_NUMBER -> (wh_is_transient_local w = true -> wh_tldepth w <> 0%nat) ->
  ((0 < wh_tldepth w < wh_idxdepth w)%nat -> ndebug = true) -> splits_at (seqs w) (wh_max_drop_seq w) L R -> ready ndebug w m L R.
Proof.
  intros [K1 K2 K3 K4 K5 K6 K7 K8 K9 K10] Hm Hall Hdeep Hsp. split; [done| |done|done| |].
  - intros Ht. destruct L as [|q L]; [done|]. exfalso. destruct Hsp as (E & HL & _). specialize (HL q ltac:(by left)).
    destruct (proj2 (core_infos _ w q K1)) as [i Hi]; [rewrite E; by left|]. destruct (K9 q i Hi HL). lia.
  - intros Ht. split; [lia|]. split; [auto|done].
  - intros k x Hx. specialize (K10 k x Hx). lia.
Qed.

Lemma acknowledged_ok log w m L R w' : whc_ok fragment_size log w -> wh_max_drop_seq w <= m < MAX_SEQ_NUMBER -> (wh_is_transient_local w = true -> wh_tldepth w <> 0%nat) ->
  splits_at (seqs w) (wh_max_drop_seq w) L R -> acknowledged fragment_size log w m L R w' -> whc_ok fragment_size log w'.
Proof.
  intros [K1 K2 K3 K4 K5 K6 K7 K8 K9 K10] Hm Hall (E & HL & HR) [[W1 W2 W3] A2 A3 A4 A5 A6 A7]. destruct (static_fields _ _ A4) as (_ & Etl & Eh & Et & Ed).
  split; [done|done|done|congruence|by rewrite Eh, Et, Etl|by rewrite A6, Ed|lia|by rewrite Etl, Et; intros H1 H2; destruct (Hall H1)| |by rewrite A5].
  intros q i Hi Hle. rewrite A5 in Hle. assert (Hq : q ∈ seqs w') by (apply (core_infos _ w' q W1); eauto). rewrite (A3 q), decide_True in Hi by done. rewrite Et.
  rewrite A2 in Hq. apply list_elem_of_filter in Hq as [_ Hq]. apply elem_of_app in Hq as [Hq|Hq].
  - rewrite decide_False in Hi by (intros [Hin%HR _]; specialize (HL q Hq); lia). eauto.
  - apply list_elem_of_filter in Hq as [[Hlt|Htl] Hq]; [lia|]. rewrite decide_True in Hi by done. unfold in_tl in Htl.
    destruct (infos w !! q) as [[[[[k|] pos] u] sd]|]; [|done|done]. injection Hi as <-. split; [|simpl; eauto].
    destruct (lookup_idxnode w k); [|done]. apply Nat.ltb_lt in Htl. lia.
Qed.

Lemma remove_acked_ok log w m : whc_ok fragment_size log w -> wh_max_drop_seq w <= m < MAX_SEQ_NUMBER -> (wh_is_transient_local w = true -> wh_tldepth w <> 0%nat) ->
  ((0 < wh_tldepth w < wh_idxdepth w)%nat -> ndebug = true) ->
  exists L R w', splits_at (seqs w) (wh_max_drop_seq w) L R /\
    whc_remove_acked_messages ndebug fragment_size w m = Some (w', Z.of_nat (length R - length (filter (kept w m) R))) /\
    acknowledged fragment_size log w m L R w' /\ whc_ok fragment_size log w'.
Proof.
  intros Hk Hm Hall Hdeep. destruct (splits_exists (seqs w) (wh_max_drop_seq w)) as (L & R & Hsp); [eapply core_sorted, Hk|].
  destruct (remove_acked_spec ndebug _ Hfs log w m L R (whc_ok_settled _ _ Hk)) as (w' & E & A); [by eapply whc_ok_ready|]. exists L, R, w'.
  split; [done|]. split; [done|]. split; [done|]. by eapply acknowledged_ok.
Qed.
End Run.

(** ** [whc_downgrade_to_volatile] and [whc_free] *)

Section Downgrade.
Context {T : Type -> Type} `{!OrdTree T, !OrdTreeLaws T}.
Context (ndebug : bool) (fragment_size : Z) (Hfs : 0 < fragment_size).
Implicit Types (w : whc (T := T)) (log : Z -> list Z).

(** ** All rings are dropped *)

(** Nothing goes but the places in the index of the samples of [rings]. *)
Record unindexed w (rings : list (Z * whc_idxnode)) w' : Prop := {
  un_base : base fragment_size w';
  un_seqs : seqs w' = seqs w;
  un_infos : forall q i', infos w' !! q = Some i' -> exists i, infos w !! q = Some i /\ i'.1.2 = i.1.2 /\ i'.2 = i.2 /\
    (i'.1.1.1 = None \/ i'.1.1.1 = i.1.1.1 /\ forall k x, (k, x) ∈ rings -> Some q ∉ ix_hist x);
  un_conf : conf w' = conf w;
  un_idx : wh_idx_hash w' = wh_idx_hash w;
  un_size : wh_seq_size w' = wh_seq_size w;
}.

Lemma unindexed_freed w k x w' : (forall q, q ∈ seqs w -> 1 <= q) -> base fragment_size w -> freed fragment_size w 0 (ix_hist x) w' -> unindexed w [(k, x)] w'.
Proof.
  intros Hpos Hb [F1 F2 F3 F4 F5 F6]. assert (Es : seqs w' = seqs w) by (rewrite F2; apply filter_all; intros q Hq [_ Hle]; specialize (Hpos q Hq); lia).
  split; [done|done| |done|done|rewrite Es in F6; lia]. intros q i' Hi. rewrite F3 in Hi. destruct (decide (goes _ _ _)); [done|].
  destruct (infos w !! q) as [i|]; [|done]. exists i. split; [done|]. destruct (decide (Some q ∈ ix_hist x)) as [Hin|Hin]; simpl in Hi; injection Hi as <-.
  - split; [done|]. split; [done|]. by left.
  - split; [done|]. split; [done|]. right. split; [done|]. intros k' x' [= -> ->]%list_elem_of_singleton. done.
Qed.

Lemma unindexed_cons w r l w1 w2 : unindexed w [r] w1 -> unindexed w1 l w2 -> unindexed w (r :: l) w2.
Proof.
  intros [A1 A2 A3 A4 A5 A6] [B1 B2 B3 B4 B5 B6]. split; [done|congruence| |congruence|congruence|congruence].
  intros q i2 H2. destruct (B3 _ _ H2) as (i1 & H1 & E1 & E2 & E3). destruct (A3 _ _ H1) as (i & Hi & F1 & F2 & F3). exists i.
  split; [done|]. split; [congruence|]. split; [congruence|]. destruct E3 as [E3|[E3 E4]]; [by left|]. destruct F3 as [F3|[F3 F4]]; [left; congruence|].
  right. split; [congruence|]. intros k x [Hkx|Hkx]%elem_of_cons; [|eauto]. apply (F4 k x). by apply list_elem_of_singleton.
Qed.

Lemma free_instances_spec l w : base fragment_size w -> (forall q, q ∈ seqs w -> 1 <= q) ->
  (forall k x, (k, x) ∈ l -> length (ix_hist x) = wh_idxdepth w /\ NoDup (omap id (ix_hist x)) /\ forall o, Some o ∈ ix_hist x -> o ∈ seqs w) ->
  exists w', free_instances fragment_size w l = Some w' /\ unindexed w l w'.
Proof.
  revert w. induction l as [|[k x] l IH]; intros w Hb Hpos Hl; cbn [free_instances].
  - exists w. split; [done|]. split; [done|done| |done|done|done]. intros q i Hi. exists i. split; [done|]. split; [done|]. split; [done|]. right. split; [done|].
    intros k x Hx. by apply elem_of_nil in Hx.
  - destruct (Hl k x) as (Hlen & HN & Hin); [by left|]. unfold free_one_instance_from_idx. rewrite take_ge by lia.
    destruct (free_hist_spec _ Hfs 0 (ix_hist x) w Hb) as (w1 & -> & F); [|done|].
    { intros o Ho. split; [auto|]. specialize (Hpos o (Hin o Ho)). lia. }
    cbn [mbind option_bind]. pose proof (unindexed_freed w k x w1 Hpos Hb F) as U. destruct (conf_fields _ _ (un_conf _ _ _ U)) as (_ & _ & _ & _ & Ed & _).
    destruct (IH w1 (un_base _ _ _ U)) as (w2 & -> & U2).
    + by rewrite (un_seqs _ _ _ U).
    + intros k' x' Hx'. rewrite Ed, (un_seqs _ _ _ U). apply (Hl k' x'). by right.
    + exists w2. split; [done|]. by eapply unindexed_cons.
Qed.

(** ** Before the acknowledged samples go *)

(** The cache without a history for late joiners, but with all its samples. *)
Record forgotten log w w' : Prop := {
  fg_settled : settled fragment_size log w';
  fg_seqs : seqs w' = seqs w;
  fg_infos : forall q i', infos w' !! q = Some i' -> exists i, infos w !! q = Some i /\ i'.1.2 = i.1.2 /\ i'.2 = i.2;
  fg_static : static w' = (wh_sample_overhead w, wh_is_transient_local w, wh_hdepth w, 0%nat, wh_hdepth w);
  fg_drop : wh_max_drop_seq w' = wh_max_drop_seq w;
  fg_idx : is_Some (wh_idx_hash w') <-> (0 < wh_hdepth w)%nat;
  fg_prune : forall k x, lookup_idxnode w' k = Some x -> lookup_idxnode w k = Some x;
}.

Lemma settled_no_tl log w : settled fragment_size log w -> settled fragment_size log (set_depths w 0 (wh_idxdepth w)).
Proof.
  intros [[[B1 B2 B3 B4] Hi] Hz Hm]. split; [split; [by split|]|done|done]. simpl. unfold infos in *. simpl. destruct (wh_idx_hash w) as [idx|]; [|by destruct Hi].
  destruct Hi as [I1 I2 I3 I4]. split; [|done|by left|done]. intros k x Hx. destruct (I1 k x Hx) as [R1 R2 R3 R4 R5]. split; auto. intros d Hd. lia.
Qed.

Lemma unindexed_all log w idx w' : settled fragment_size log w -> wh_idx_hash w = Some idx -> unindexed w (map_to_list idx) w' ->
  settled fragment_size log (set_idx (set_depths w' 0 0) None).
Proof.
  intros [Hc Hz Hm] Hidx [U1 U2 U3 U4 U5 U6]. destruct (conf_fields _ _ U4) as (_ & _ & _ & _ & _ & _ & Em). destruct U1 as [B1 B2 B3 B4].
  split; [split; [by split|]|change (wh_seq_size w' = Z.of_nat (length (seqs w'))); congruence|change (wh_maxseq_node w' = last (seqs w')); congruence].
  simpl. split; [done|]. intros q k pos u sd. change (infos w' !! q <> Some (Some k, pos, u, sd)). intros Hq. destruct (U3 _ _ Hq) as (i & Hi & _ & _ & [Hn|[He Hno]]); [done|].
  simpl in He. destruct i as [[[k' pos'] u'] sd']. simpl in He. subst k'. pose proof (co_idx _ _ _ Hc) as Hio. rewrite Hidx in Hio.
  destruct (io_node _ _ _ _ _ Hio _ _ _ _ _ Hi) as (x & Hx & Hh). apply (Hno k x); [by apply elem_of_map_to_list|]. by eapply list_elem_of_lookup_2.
Qed.

Lemma forget_history log w : whc_ok fragment_size log w -> wh_is_transient_local w = false ->
  exists w', (if (0 <? wh_tldepth w)%nat then
      if negb ((wh_hdepth w =? 0)%nat || (wh_tldepth w <=? wh_hdepth w)%nat) then None
      else
        let w := set_depths w 0 (wh_idxdepth w) in
        if (wh_hdepth w =? 0)%nat then
          idx ← wh_idx_hash w;
          w ← free_instances fragment_size w (map_to_list idx);
          Some (set_idx (set_depths w 0 0) None)
        else Some w
    else Some w) = Some w' /\ forgotten log w w'.
Proof.
  intros Hk Hv. pose proof (whc_ok_settled _ _ _ Hk) as Hs. destruct Hk as [K1 K2 K3 K4 K5 K6 K7 K8 K9 K10]. destruct (Nat.ltb_spec 0 (wh_tldepth w)) as [Ht|Ht].
  - assert (Hd : (wh_hdepth w = 0 \/ wh_tldepth w <= wh_hdepth w)%nat) by (destruct K5 as [?|?]; [done|congruence]).
    replace (negb ((wh_hdepth w =? 0)%nat || (wh_tldepth w <=? wh_hdepth w)%nat)) with false.
    2: { symmetry. apply negb_false_iff, orb_true_iff. rewrite Nat.eqb_eq, Nat.leb_le. done. }
    pose proof (settled_no_tl _ _ Hs) as Hs1. cbv zeta. set (w1 := set_depths w 0 (wh_idxdepth w)) in *. change (wh_hdepth w1) with (wh_hdepth w). destruct (Nat.eqb_spec (wh_hdepth w) 0) as [Hh|Hh].
    + assert (is_Some (wh_idx_hash w)) as [idx Hidx] by (apply K6; lia). change (wh_idx_hash w1) with (wh_idx_hash w). rewrite Hidx. cbn [mbind option_bind].
      destruct (free_instances_spec (map_to_list idx) w1) as (w2 & -> & U).
      * apply Hs1.
      * intros q Hq. by apply (core_pos fragment_size w1 q (st_core _ _ _ Hs1)).
      * intros k x Hx%elem_of_map_to_list. assert (Hlx : lookup_idxnode w1 k = Some x) by (unfold lookup_idxnode; change (wh_idx_hash w1) with (wh_idx_hash w); by rewrite Hidx).
        destruct (core_ring _ _ _ _ _ (st_core _ _ _ Hs1) Hlx) as [Hr _]. split; [apply Hr|]. split; [eapply ring_NoDup; [exact (st_core _ _ _ Hs1)|exact Hlx]|].
        intros o Ho. apply (ring_entries _ _ _ _ _ _ (st_core _ _ _ Hs1) Hlx) in Ho as [d Hdd]. apply (core_infos _ w1 o (st_core _ _ _ Hs1)).
        unfold ring_pos in Hdd. destruct (infos w1 !! o); [eauto|done].
      * cbn [mbind option_bind]. eexists. split; [done|]. pose proof (unindexed_all _ w1 idx w2 Hs1 Hidx U) as Hs2. destruct U as [U1 U2 U3 U4 U5 U6].
        destruct (conf_fields _ _ U4) as (E1 & E2 & E3 & _ & _ & E6 & _). split; [done|done| | |done| |].
        -- intros q i' Hi. destruct (U3 q i' Hi) as (i & Hi' & Ea & Eb & _). exists i. done.
        -- unfold static. simpl. rewrite E1, E2, E3. simpl. by rewrite Hh.
        -- simpl. split; [by intros [? ?]|lia].
        -- intros k x. unfold lookup_idxnode. done.
    + exists w1. split; [done|]. split; [done|done|eauto| |done| |done].
      * unfold static. simpl. rewrite K4. do 2 f_equal. lia.
      * change (wh_idx_hash w1) with (wh_idx_hash w). rewrite K6, K4. lia.
  - exists w. split; [done|]. split; [done|done|eauto| |done| |done].
    + unfold static. rewrite K4. replace (wh_tldepth w) with 0%nat by lia. do 2 f_equal. lia.
    + rewrite K6, K4. lia.
Qed.

(** ** [whc_downgrade_to_volatile] *)

Record downgraded log w w' : Prop := {
  dg_ok : whc_ok fragment_size log w';
  dg_seqs : seqs w' = filter (fun q => wh_max_drop_seq w < q) (seqs w);
  dg_infos : forall q i', infos w' !! q = Some i' -> exists i, infos w !! q = Some i /\ i'.1.2 = i.1.2 /\ i'.2 = i.2;
  dg_static : static w' = (wh_sample_overhead w, wh_is_transient_local w, wh_hdepth w, 0%nat, wh_hdepth w);
  dg_drop : wh_max_drop_seq w' = wh_max_drop_seq w;
}.

(** Without a history for late joiners only what is not acknowledged stays. *)
Lemma kept_no_tl w m (R : list Z) : wh_tldepth w = 0%nat -> filter (kept w m) R = filter (fun q => m < q) R.
Proof. intros Ht. apply filter_same. intros q _. unfold kept. rewrite in_tl_0 by done. by split; [intros [?|?]|left]. Qed.

Lemma left_by_no_tl log w m L R : core fragment_size log w -> wh_tldepth w = 0%nat -> L = [] -> left_by w m L R = filter (fun q => m < q) R.
Proof.
  intros Hc Ht ->. unfold left_by. simpl. rewrite filter_all; [by apply kept_no_tl|]. intros q _. eapply (prunes_shallow _ log); [done|by left|].
  by intros s [Hs _]%list_elem_of_filter.
Qed.

Lemma forgotten_ready log w w' : whc_ok fragment_size log w -> wh_is_transient_local w = false -> forgotten log w w' ->
  ready ndebug (set_max_drop w' 0) (wh_max_drop_seq w) [] (seqs w).
Proof.
  intros Hk Hv [[Hc _ _] Es _ Hst Hd _ Hp]. injection Hst as _ E2 _ E4 E5. split.
  - split; [by rewrite <- Es|]. split; [intros x Hx; by apply elem_of_nil in Hx|]. intros x Hx. change (0 < x). pose proof (core_pos _ w x (wo_core _ _ _ Hk) Hx). lia.
  - done.
  - change (0 <= wh_max_drop_seq w < MAX_SEQ_NUMBER). apply Hk.
  - change (wh_is_transient_local w' = true -> wh_tldepth w' <> 0%nat). rewrite E2, Hv. done.
  - change ((0 < wh_tldepth w' < wh_idxdepth w')%nat -> wh_hdepth w' = wh_idxdepth w' /\ ndebug = true /\ forall k x, lookup_idxnode w' k = Some x -> ix_prune_seq x <= 0). lia.
  - intros k x. change (lookup_idxnode w' k = Some x -> ix_prune_seq x <= wh_max_drop_seq w). intros Hx. by eapply wo_prune; [exact Hk|apply Hp].
Qed.

Lemma whc_downgrade_spec log w : whc_ok fragment_size log w -> wh_is_transient_local w = false ->
  exists w', whc_downgrade_to_volatile ndebug fragment_size w = Some w' /\ downgraded log w w'.
Proof.
  intros Hk Hv. destruct (forget_history log w Hk Hv) as (w1 & E1 & F). unfold whc_downgrade_to_volatile. rewrite (check_whc_ok _ _ _ Hk), Hv.
  change (negb true || false) with false. cbv iota. cbv zeta in E1 |- *. rewrite E1. cbn [mbind option_bind]. pose proof (forgotten_ready _ _ _ Hk Hv F) as Hrd. pose proof F as [[F1 Fz Fm] Fs Fi Fst Fd Fx Fp]. injection Fst as E2 E3 E4 E5 E6.
  assert (Hs1 : settled fragment_size log (set_max_drop w1 0)) by (destruct F1 as [[] ?]; by split; [split; [split|]|..]).
  rewrite Fd. destruct (remove_acked_spec ndebug _ Hfs log (set_max_drop w1 0) (wh_max_drop_seq w) [] (seqs w) Hs1 Hrd) as (w' & -> & A). cbn [mbind option_bind].
  rewrite (ak_drop _ _ _ _ _ _ _ A), Z.eqb_refl. exists w'. split; [done|]. destruct A as [A1 A2 A3 A4 A5 A6 A7].
  rewrite (left_by_no_tl log) in A2; [|apply Hs1|done|done]. destruct (static_fields _ _ A4) as (G1 & G2 & G3 & G4 & G5). simpl in G1, G2, G3, G4, G5.
  assert (Hinf : forall q i', infos w' !! q = Some i' -> exists i, infos w !! q = Some i /\ i'.1.2 = i.1.2 /\ i'.2 = i.2).
  { intros q i' Hi. assert (Hq : q ∈ seqs w') by (apply (core_infos _ w' q (st_core _ _ _ A1)); eauto). rewrite (A3 q), decide_True in Hi by done.
    rewrite decide_False in Hi; [apply Fi; exact Hi|]. rewrite A2 in Hq. apply list_elem_of_filter in Hq as [Hq _]. intros [_ Hle]. lia. }
  split; [|done|done|unfold static; congruence|done]. destruct A1 as [C1 C2 C3]. split; [done|done|done|rewrite G3, G4, G5, E4, E5, E6; lia|rewrite G3, G4, E4, E5; lia| |rewrite A5; apply Hk|rewrite G2, E3, Hv; done| |].
  - rewrite A6, G5, E6. exact Fx.
  - intros q i Hi Hle. exfalso. assert (Hq : q ∈ seqs w') by (apply (core_infos _ w' q C1); eauto). rewrite A2 in Hq. apply list_elem_of_filter in Hq as [Hq _]. lia.
  - rewrite A5. exact A7.
Qed.

(** ** [whc_free] *)

Lemma free_nodes_spec w fuel l1 l2 : base fragment_size w -> seqs w = l1 ++ l2 -> (length l1 <= fuel)%nat -> free_nodes fuel w (last l1) = Some (reverse l1).
Proof.
  intros Hb. revert l1 l2. induction fuel as [|fuel IH]; intros l1 l2 E Hl; destruct l1 as [|q l1 _] using rev_ind; try done.
  - rewrite length_app in Hl. simpl in Hl. lia.
  - rewrite last_snoc. cbn [free_nodes]. rewrite <- app_assoc in E. destruct (core_node _ _ _ _ _ Hb E) as (nd & Hn & _ & Hp & _). unfold whc_findseq. rewrite Hn. cbn [mbind option_bind].
    rewrite Hp, (IH l1 (q :: l2)), reverse_snoc; [done|done|]. rewrite length_app in Hl. simpl in Hl. lia.
Qed.

Lemma whc_free_spec log w : whc_ok fragment_size log w -> whc_free w = Some (reverse (seqs w)).
Proof.
  intros Hk. unfold whc_free. rewrite (check_whc_ok _ _ _ Hk), (wo_max _ _ _ Hk). apply (free_nodes_spec w _ (seqs w) []); [apply Hk|by rewrite app_nil_r|].
  eapply (hash_length fragment_size log); [apply Hk|done|eapply core_NoDup, Hk].
Qed.
End Downgrade.

(** ** What the writer history cache promises

    The abstract state is the history of the writer: the data of all samples it
    wrote, per instance the list of samples since it was last unregistered, and
    up to where samples were acknowledged. *)

Record hist : Type := Hist {
  h_log : Z -> list Z;
  h_data : gmap Z serdata;
  h_last : Z;
  h_ack : Z;
}.

Inductive whc_op : Type :=
| OWrite (max_drop_seq seq : Z) (sd : serdata)
| OAck (max_drop_seq : Z)
| ODowngrade.

Definition h_step (h : hist) (op : whc_op) : hist :=
  match op with
  | OWrite md q sd => Hist (next_log (h_log h) q sd) (<[q := sd]> (h_data h)) q (Z.max (h_ack h) md)
  | OAck m => Hist (h_log h) (h_data h) (h_last h) (Z.max (h_ack h) m)
  | ODowngrade => h
  end.
Definition h_new : hist := Hist (fun _ => []) ∅ 0 0.

(** At least [n] later samples of the same instance were written. *)
Definition replaced (h : hist) (n : nat) (q : Z) (sd : serdata) : Prop :=
  exists l, length l = n /\ NoDup l /\ forall y, y ∈ l -> q < y /\ exists sd', h_data h !! y = Some sd' /\ sd_key sd' = sd_key sd.

Section Hist.
Context {T : Type -> Type} `{!OrdTree T, !OrdTreeLaws T}.
Context (ndebug : bool) (fragment_size : Z) (Hfs : 0 < fragment_size).
Context (is_tl : bool) (hdepth tldepth : nat) (overhead : Z).
Implicit Types (w : whc (T := T)) (h : hist).

Definition whc_step w (op : whc_op) : option whc :=
  match op with
  | OWrite md q sd => whc_insert fragment_size w md q sd
  | OAck m => option_map fst (whc_remove_acked_messages ndebug fragment_size w m)
  | ODowngrade => whc_downgrade_to_volatile ndebug fragment_size w
  end.

(** What the callers see to. *)
Definition legal h w (op : whc_op) : Prop :=
  match op with
  | OWrite md q sd => h_last h < q /\ wh_max_drop_seq w < q /\ wh_max_drop_seq w <= md < MAX_SEQ_NUMBER /\ 0 <= sd_size sd
  | OAck m => wh_max_drop_seq w <= m < MAX_SEQ_NUMBER
  | ODowngrade => wh_is_transient_local w = false
  end.

Inductive reaches : hist -> whc (T := T) -> Prop :=
| reaches_new w : whc_new is_tl hdepth tldepth overhead = Some w -> reaches h_new w
| reaches_step h w op w' : reaches h w -> legal h w op -> whc_step w op = Some w' -> reaches (h_step h op) w'.

(** The settings the library is used with. *)
Record settings : Prop := {
  se_overhead : 0 <= overhead;
  se_depths : (hdepth = 0 \/ tldepth <= hdepth)%nat \/ is_tl = true;
  se_debug : (0 < tldepth < hdepth)%nat -> ndebug = true;
}.

Record hist_ok h w : Prop := {
  ho_ok : whc_ok fragment_size (h_log h) w;
  ho_hdepth : wh_hdepth w = hdepth;
  ho_tldepth : wh_tldepth w = tldepth \/ wh_tldepth w = 0%nat;
  ho_overhead : wh_sample_overhead w = overhead;
  ho_ack : wh_max_drop_seq w <= h_ack h;
  ho_last : 0 <= h_last h /\ (forall q sd, h_data h !! q = Some sd -> q <= h_last h);
  ho_data : forall q i, infos w !! q = Some i -> h_data h !! q = Some i.2;
  ho_log : forall k q, q ∈ h_log h k -> exists sd, h_data h !! q = Some sd /\ sd_key sd = k;
  ho_flag : forall q i, infos w !! q = Some i -> (q <= wh_max_drop_seq w -> i.1.2 = false) /\ (h_ack h < q -> i.1.2 = true);
  ho_kept : forall q sd, h_data h !! q = Some sd -> h_ack h < q -> q ∈ seqs w \/ (0 < hdepth)%nat /\ replaced h hdepth q sd;
}.

Lemma hist_ok_seqs h w q : hist_ok h w -> q ∈ seqs w -> exists i, infos w !! q = Some i /\ h_data h !! q = Some i.2.
Proof. intros H Hq. destruct (proj2 (core_infos _ w q (wo_core _ _ _ (ho_ok _ _ H))) Hq) as [i Hi]. exists i. split; [done|]. by apply (ho_data _ _ H). Qed.

Lemma hist_ok_new w : settings -> whc_new is_tl hdepth tldepth overhead = Some w -> hist_ok h_new w.
Proof.
  intros [S1 S2 _] E. destruct (whc_new_ok fragment_size is_tl hdepth tldepth overhead S1 S2) as (w' & E' & Hk & Hs & Hmd & Hst). rewrite E in E'. injection E' as <-.
  injection Hst as E1 _ E3 E4 _. assert (Hno : forall q i, infos w !! q <> Some i).
  { intros q i Hi. assert (Hq : q ∈ seqs w) by (apply (core_infos _ w q (wo_core _ _ _ Hk)); eauto). rewrite Hs in Hq. by apply elem_of_nil in Hq. }
  split; simpl; auto; try (intros q i Hi; by apply Hno in Hi).
  - lia.
  - split; [lia|]. intros q sd. by rewrite lookup_empty.
  - intros k q Hq. by apply elem_of_nil in Hq.
  - intros q sd Hq. by rewrite lookup_empty in Hq.
Qed.

(** ** Writing *)

Lemma hist_ok_may_write h w md q sd : hist_ok h w -> legal h w (OWrite md q sd) -> may_write (h_log h) w md q sd.
Proof.
  intros H (H1 & H2 & H3 & H4). pose proof (ho_last _ _ H) as [H0 Hl]. split; [lia| | |lia|done].
  - intros x Hx. destruct (hist_ok_seqs _ _ _ H Hx) as (i & _ & Hd%Hl). lia.
  - intros k x Hx. destruct (ho_log _ _ H k x Hx) as (sd' & Hd%Hl & _). lia.
Qed.

Lemma replaced_more h n q sd q' sd' md : replaced h n q sd -> h_data h !! q' = None -> replaced (h_step h (OWrite md q' sd')) n q sd.
Proof.
  intros (l & Hl & HN & Hall) Hq'. exists l. split; [done|]. split; [done|]. intros y Hy. destruct (Hall y Hy) as (Hlt & s & Hs & Hk). split; [done|].
  exists s. split; [|done]. simpl. rewrite lookup_insert_ne; [done|]. intros ->. congruence.
Qed.

(** A sample beyond the depth of the history of its instance is replaced. *)
Lemma log_replaced (lg : list Z) h n d q sd : StronglySorted Z.gt lg -> lg !! d = Some q -> (n <= d)%nat ->
  (forall y, y ∈ lg -> exists sd', h_data h !! y = Some sd' /\ sd_key sd' = sd_key sd) -> replaced h n q sd.
Proof.
  intros Hs Hq Hn Hk. exists (take n lg). pose proof (lookup_lt_Some _ _ _ Hq) as Hlt. split; [rewrite length_take; lia|].
  assert (HN : NoDup lg). { clear -Hs. induction Hs as [|y l Hs IH Hf]; constructor; [|done]. rewrite Forall_forall in Hf. intros Hy%Hf. lia. }
  split; [by eapply sublist_NoDup; [|apply sublist_take]|]. intros y Hy. apply list_elem_of_lookup in Hy as [j Hj]. apply lookup_take_Some in Hj as [Hj Hjn].
  split; [|apply Hk; by eapply list_elem_of_lookup_2]. clear -Hs Hj Hq Hjn Hn. assert (Hjd : (j < d)%nat) by lia. clear Hjn Hn.
  revert j d Hj Hq Hjd. induction Hs as [|x l Hs IH Hf]; intros j d Hj Hq Hjd; [done|]. destruct j as [|j], d as [|d]; simpl in *; [lia| |lia|apply (IH j d); [done|done|lia]].
  injection Hj as ->. apply list_elem_of_lookup_2 in Hq. rewrite Forall_forall in Hf. apply Hf in Hq. lia.
Qed.

Lemma hist_ok_write h w md q sd w' : hist_ok h w -> legal h w (OWrite md q sd) -> written fragment_size (h_log h) w md q sd w' ->
  hist_ok (h_step h (OWrite md q sd)) w'.
Proof.
  intros H Hl Wr. pose proof (hist_ok_may_write _ _ _ _ _ H Hl) as [M1 M2 M3 M4 M5]. destruct Hl as (L1 & L2 & L3 & L4).
  pose proof (written_ok _ _ _ _ _ _ _ (ho_ok _ _ H) L2 (proj1 L3) Wr) as Hk'. pose proof (ho_last _ _ H) as [H0 Hlast].
  assert (Hfresh : h_data h !! q = None) by (destruct (h_data h !! q) as [s|] eqn:E; [apply Hlast in E; lia|done]). destruct Wr as [W1 W2 W3 W4 W5 W6 W7 W8 W9].
  destruct (static_fields _ _ W2) as (E1 & E2 & E3 & E4 & E5). rewrite (ho_hdepth _ _ H) in *.
  assert (Hlog : forall k x, x ∈ next_log (h_log h) q sd k -> exists s, <[q := sd]> (h_data h) !! x = Some s /\ sd_key s = k).
  { intros k x Hx. assert (Hold : x ∈ h_log h k -> exists s, <[q := sd]> (h_data h) !! x = Some s /\ sd_key s = k).
    { intros Hin. destruct (ho_log _ _ H k x Hin) as (s & Hs & Hks). exists s. rewrite lookup_insert_ne; [done|]. intros ->. congruence. }
    unfold next_log in Hx. destruct (sd_is_empty sd); [auto|]. destruct (sd_unregister sd); unfold upd_log in Hx; destruct (decide (k = sd_key sd)) as [->|]; auto; [by apply elem_of_nil in Hx|].
    apply elem_of_cons in Hx as [->|Hx]; [|auto]. exists sd. by rewrite lookup_insert_eq. }
  split; simpl.
  - done.
  - congruence.
  - rewrite E4. apply H.
  - rewrite E1. apply H.
  - rewrite W3. pose proof (ho_ack _ _ H). lia.
  - split; [lia|]. intros x s Hx. apply lookup_insert_Some in Hx as [[<- _]|[_ Hx%Hlast]]; lia.
  - intros x i Hx. destruct (W6 _ _ Hx) as [(-> & _ & ->)|(i0 & Hi0 & _ & ->)]; [by rewrite lookup_insert_eq|]. pose proof (ho_data _ _ H _ _ Hi0) as Hd.
    rewrite lookup_insert_ne; [done|]. intros ->. congruence.
  - done.
  - intros x i Hx. rewrite W3. destruct (W6 _ _ Hx) as [(-> & -> & _)|(i0 & Hi0 & -> & _)]; [split; [lia|intros Hlt; apply Z.ltb_lt; lia]|].
    destruct (ho_flag _ _ H _ _ Hi0) as [F1 F2]. split; [auto|]. intros Hlt. apply F2. lia.
  - intros x s Hx Hack. destruct (decide (x ∈ seqs w')) as [Hin|Hin]; [by left|]. right.
    assert (Hcase : x ∈ seqs w \/ x = q -> (0 < hdepth)%nat /\ replaced (h_step h (OWrite md q sd)) hdepth x s).
    { intros Hc. destruct (W5 x Hc Hin) as [?|[Hd Hlk]]; [lia|]. split; [done|].
      destruct (Hlog (sd_key sd) x) as (s' & Hs' & Hks); [by eapply list_elem_of_lookup_2|]. rewrite Hx in Hs'. injection Hs' as <-.
      apply (log_replaced (next_log (h_log h) q sd (sd_key sd)) _ _ (wh_idxdepth w)); [|done| |intros y Hy; rewrite Hks; by apply Hlog].
      - pose proof (co_idx _ _ _ (st_core _ _ _ W1)) as Hio. pose proof (wo_index _ _ _ Hk') as Hix. pose proof (wo_depth _ _ _ Hk') as Hdp. rewrite E3 in Hdp.
        destruct (wh_idx_hash w') as [idx|]; [apply Hio|]. exfalso. destruct (proj2 Hix) as [? ?]; [lia|done].
      - rewrite (wo_depth _ _ _ (ho_ok _ _ H)), (ho_hdepth _ _ H). lia. }
    destruct (decide (x = q)) as [->|Hne]; [by apply Hcase; right|]. rewrite lookup_insert_ne in Hx by done.
    destruct (ho_kept _ _ H x s Hx) as [Hin'|[Hd Hr]]; [lia|by apply Hcase; left|]. split; [done|]. by apply replaced_more.
Qed.

(** ** Acknowledging *)

(** What is pruned is acknowledged. *)
Lemma prunes_acked log w m R q : core fragment_size log w -> (forall s, s ∈ R -> kept w m s) -> prunes w m R q = true -> q < m.
Proof.
  intros Hc HR Hp. unfold prunes in Hp. destruct (ring_pos w q) as [[k d]|] eqn:Eq; [|done]. apply andb_prop in Hp as [Hd%Nat.leb_le He].
  apply existsb_exists in He as (s & Hs%list_elem_of_In & Hc'). apply andb_prop in Hc' as [Hsm%Z.leb_le Hk]. destruct (ring_pos w s) as [[k' d']|] eqn:Es; [|done]. apply Z.eqb_eq in Hk as ->.
  destruct (HR s Hs) as [?|Htl]; [lia|]. rewrite in_tl_pos, Es in Htl. apply Nat.ltb_lt in Htl. enough (q < s) by lia. eapply ring_older; [exact Hc|exact Es|exact Eq|lia].
Qed.

Lemma left_by_above log w m L R q : core fragment_size log w -> q ∈ L ++ R -> (forall x, x ∈ L -> x <= m) -> m < q -> q ∈ left_by w m L R.
Proof.
  intros Hc Hq HL Hm. apply list_elem_of_filter. split.
  - apply not_true_is_false. intros Hp. apply (prunes_acked log) in Hp; [lia|done|]. by intros s [Hs _]%list_elem_of_filter.
  - apply elem_of_app. apply elem_of_app in Hq as [Hq|Hq]; [by left|]. right. apply list_elem_of_filter. split; [by left|done].
Qed.

Lemma hist_ok_same h w h' : hist_ok h w -> h_log h' = h_log h -> h_data h' = h_data h -> h_last h' = h_last h -> h_ack h <= h_ack h' -> hist_ok h' w.
Proof.
  intros [K1 K2 K3 K4 Ka K5 K6 K7 K8 K9] E1 E2 E3 E4. split; rewrite ?E1, ?E2, ?E3; auto.
  - lia.
  - intros q i Hi. destruct (K8 q i Hi). split; [done|]. intros. auto with lia.
  - intros q sd Hd Ha. destruct (K9 q sd Hd) as [?|[? Hr]]; [lia|by left|right]. split; [done|]. unfold replaced in *. by rewrite E2.
Qed.

Lemma hist_ok_ack h w m L R w' : hist_ok h w -> wh_max_drop_seq w <= m -> splits_at (seqs w) (wh_max_drop_seq w) L R ->
  acknowledged fragment_size (h_log h) w m L R w' -> whc_ok fragment_size (h_log h) w' -> hist_ok (h_step h (OAck m)) w'.
Proof.
  intros H Hm (E & HL & HR) [_ A2 A3 A4 A5 A6 A7] Hk. destruct (static_fields _ _ A4) as (E1 & _ & E3 & E4 & _). pose proof H as [K1 K2 K3 K4 Ka K5 K6 K7 K8 K9].
  assert (Hinf : forall q i, infos w' !! q = Some i -> exists i0, infos w !! q = Some i0 /\ i.2 = i0.2 /\ i.1.2 = if decide (q ∈ R /\ q <= m) then false else i0.1.2).
  { intros q i Hi. rewrite (A3 q) in Hi. destruct (decide (q ∈ seqs w')); [|done]. destruct (infos w !! q) as [i0|]; [|by destruct (decide (q ∈ R /\ q <= m))].
    exists i0. split; [done|]. destruct (decide (q ∈ R /\ q <= m)); injection Hi as <-; done. }
  split; simpl.
  - done.
  - congruence.
  - by rewrite E4.
  - congruence.
  - rewrite A5. lia.
  - done.
  - intros q i Hi. destruct (Hinf q i Hi) as (i0 & Hi0 & -> & _). auto.
  - done.
  - intros q i Hi. rewrite A5. destruct (Hinf q i Hi) as (i0 & Hi0 & _ & ->). destruct (K8 _ _ Hi0) as [F1 F2]. split.
    + intros Hle. destruct (decide (q ∈ R /\ q <= m)) as [Hd|Hd]; [done|]. apply F1, HL. assert (Hq : q ∈ seqs w) by (apply (core_infos _ w q (wo_core _ _ _ K1)); eauto).
      rewrite E in Hq. apply elem_of_app in Hq as [Hq|Hq]; [done|tauto].
    + intros Hlt. rewrite decide_False by lia. apply F2. lia.
  - intros q sd Hd Ha. destruct (K9 q sd Hd) as [Hq|Hr]; [lia| |by right]. left. rewrite A2. eapply left_by_above; [apply K1|by rewrite <- E| |lia].
    intros x Hx. specialize (HL x Hx). lia.
Qed.

Lemma hist_ok_downgrade h w w' : hist_ok h w -> downgraded fragment_size (h_log h) w w' -> hist_ok h w'.
Proof.
  intros H [D1 D2 D3 D4 D5]. injection D4 as E1 _ E3 E4 _. pose proof H as [K1 K2 K3 K4 Ka K5 K6 K7 K8 K9]. split.
  - done.
  - congruence.
  - by right.
  - congruence.
  - by rewrite D5.
  - done.
  - intros q i Hi. destruct (D3 q i Hi) as (i0 & Hi0 & _ & ->). auto.
  - done.
  - intros q i Hi. rewrite D5. destruct (D3 q i Hi) as (i0 & Hi0 & -> & _). auto.
  - intros q sd Hd Ha. destruct (K9 q sd Hd Ha) as [Hq|Hr]; [|by right]. left. rewrite D2. apply list_elem_of_filter. split; [lia|done].
Qed.

(** ** All together *)

Lemma hist_ok_deep h w : hist_ok h w -> settings -> (0 < wh_tldepth w < wh_idxdepth w)%nat -> ndebug = true.
Proof. intros [K1 K2 K3 _ _ _ _ _ _ _] [_ _ Hd] Ht. apply Hd. rewrite (wo_depth _ _ _ K1), K2 in Ht. destruct K3; lia. Qed.

Lemma hist_ok_step h w op : settings -> hist_ok h w -> legal h w op -> exists w', whc_step w op = Some w' /\ hist_ok (h_step h op) w'.
Proof.
  intros Hset H Hl. pose proof (ho_ok _ _ H) as Hk. destruct op as [md q sd|m|].
  - destruct (whc_insert_spec _ Hfs (h_log h) w md q sd) as (w' & E & Wr); [by apply whc_ok_settled|apply Hk|by apply hist_ok_may_write|].
    exists w'. split; [done|]. by apply (hist_ok_write h w).
  - simpl. destruct (wh_is_transient_local w && (wh_tldepth w =? 0)%nat) eqn:Ea.
    + apply andb_prop in Ea as [Htl Ht%Nat.eqb_eq]. rewrite (remove_acked_keep_all ndebug _ _ _ _ Hk Hl Htl Ht). exists w. split; [done|]. apply (hist_ok_same h); try done. simpl. lia.
    + destruct (remove_acked_ok ndebug _ Hfs _ _ m Hk Hl) as (L & R & w' & Hsp & -> & A & Hk').
      * intros Htl Ht. rewrite Htl, Ht in Ea. done.
      * by eapply hist_ok_deep.
      * exists w'. split; [done|]. eapply hist_ok_ack; [done|apply Hl|done|done|done].
  - destruct (whc_downgrade_spec ndebug _ Hfs _ _ Hk Hl) as (w' & E & D). exists w'. split; [done|]. by eapply hist_ok_downgrade.
Qed.

Lemma reaches_ok h w : settings -> reaches h w -> hist_ok h w.
Proof.
  intros Hset. induction 1 as [w E|h w op w' _ IH Hl E]; [by apply hist_ok_new|]. destruct (hist_ok_step _ _ _ Hset IH Hl) as (w2 & E2 & H2). congruence.
Qed.

(** The first sample after [q]. *)
Lemma whc_next_seq_spec log w q : whc_ok fragment_size log w -> whc_next_seq ndebug w q = Some (default MAX_SEQ_NUMBER (head (filter (fun x => q < x) (seqs w)))).
Proof.
  intros Hk. pose proof (wo_core _ _ _ Hk) as Hc. pose proof (wo_max _ _ _ Hk) as Hm.
  unfold whc_next_seq. rewrite (check_whc_ok _ _ _ Hk). cbn [negb]. destruct (splits_exists (seqs w) q (core_sorted _ _ Hc)) as (l1 & l2 & Hsp).
  destruct (find_nextseq_spec _ ndebug _ w q l1 l2 Hc Hsp) as (r & -> & Hr1 & _); [by right|]. cbn [mbind option_bind]. destruct Hsp as (E & H1 & H2).
  replace (filter (fun x => q < x) (seqs w)) with l2.
  2: { rewrite E, filter_app, (filter_all _ l2) by auto. replace (filter (fun x => q < x) l1) with (@nil Z); [done|]. symmetry. clear -H1. induction l1 as [|x l1 IH]; [done|].
       rewrite filter_cons_False by (specialize (H1 x ltac:(by left)); lia). apply IH. intros y Hy. apply H1. by right. }
  destruct r as [[n p]|], l2 as [|n' l2]; simpl in Hr1; try done. injection Hr1 as ->. destruct (core_find _ w n' Hc) as (nd & Hn & Hs); [rewrite E; set_solver|].
  unfold whc_findseq. rewrite Hn. cbn [mbind option_bind]. by rewrite Hs.
Qed.
End Hist.
