(* ===== verification/WhcClaims.v ===== *)
(** * The theorems about the writer history cache, with witnesses

    They hold for every implementation of the tree interface; the witnesses run
    them on the AVL trees of [Avl.v]. *)

From Stdlib Require Import ZArith Lia Sorting.Sorted.
From stdpp Require Import prelude gmap.
From S2P Require Import Prelude OrdTree Avl AvlProps Receive Whc WhcFacts WhcOps WhcFind WhcRemove WhcInsert WhcWrite WhcHist.

Section Claims.
Context {T : Type -> Type} `{!OrdTree T, !OrdTreeLaws T}.
Context (ndebug : bool) (fragment_size : Z) (Hfs : 0 < fragment_size).
Context (is_tl : bool) (hdepth tldepth : nat) (overhead : Z).
Context (Hset : settings ndebug is_tl hdepth tldepth overhead).
Implicit Types (w : whc (T := T)) (h : hist).

Abbreviation reachable := (reaches (T := T) ndebug fragment_size is_tl hdepth tldepth overhead).
Abbreviation consistent := (hist_ok (T := T) fragment_size hdepth tldepth overhead).

Lemma stored_infos w q : is_Some (whc_findseq w q) <-> is_Some (infos w !! q).
Proof. unfold whc_findseq, infos. by rewrite lookup_fmap, fmap_is_Some. Qed.

Lemma stored_seqs h w q : consistent h w -> is_Some (whc_findseq w q) <-> q ∈ seqs w.
Proof. intros H. rewrite stored_infos. apply (core_infos fragment_size). apply (wo_core _ _ _ (ho_ok _ _ _ _ _ _ H)). Qed.

Lemma stored_node h w q : consistent h w -> q ∈ seqs w -> exists nd, whc_findseq w q = Some nd /\ h_data h !! q = Some (nd_serdata nd) /\
  (q <= wh_max_drop_seq w -> nd_unacked nd = false) /\ (h_ack h < q -> nd_unacked nd = true).
Proof.
  intros H Hq. apply (stored_seqs h) in Hq as [nd Hn]; [|done]. exists nd. split; [done|]. assert (Hi : infos w !! q = Some (nd_info nd)) by (unfold infos; unfold whc_findseq in Hn; by rewrite lookup_fmap, Hn).
  split; [by apply (ho_data _ _ _ _ _ _ H _ _ Hi)|]. by apply (ho_flag _ _ _ _ _ _ H _ _ Hi).
Qed.

(** The latest samples of an instance. *)
Definition recent h w (q : Z) : Prop := exists k d, (d < wh_tldepth w)%nat /\ h_log h k !! d = Some q.

(** They are in the ring of their instance. *)
Lemma recent_pos h w k d q : consistent h w -> (d < wh_tldepth w)%nat -> h_log h k !! d = Some q -> ring_pos w q = Some (k, d) /\ q ∈ seqs w.
Proof.
  intros H Hd Hq. pose proof (ho_ok _ _ _ _ _ _ H) as Hk. pose proof (wo_core _ _ _ Hk) as Hc. pose proof (wo_depth _ _ _ Hk) as Hdp.
  assert (Hdd : (d < wh_idxdepth w)%nat) by lia. assert (is_Some (wh_idx_hash w)) as [idx Hidx] by (apply (wo_index _ _ _ Hk); lia).
  pose proof (co_idx _ _ _ Hc) as Hio. rewrite Hidx in Hio. destruct (idx !! k) as [x|] eqn:Hx.
  2: { destruct (io_none _ _ _ _ _ Hio k Hx) as [?|E]; [lia|by rewrite E in Hq]. }
  assert (Hlx : lookup_idxnode w k = Some x) by (unfold lookup_idxnode; by rewrite Hidx). destruct (core_ring _ _ _ _ _ Hc Hlx) as [[R1 R2 R3 R4 R5] _].
  pose proof (pos_of_lt _ _ _ R2 Hdd) as Hp. destruct (lookup_lt_is_Some_2 (ix_hist x) (pos_of (wh_idxdepth w) (ix_headidx x) d)) as [[q'|] Ho]; [lia| |].
  - destruct (hist_pos _ _ _ _ _ _ _ Hc Hlx Hdd Ho) as (Hpos & Hl & Hin). rewrite Hq in Hl. by injection Hl as <-.
  - by rewrite (R5 d Hd Hdd Ho) in Hq.
Qed.

Lemma in_tl_recent h w q : consistent h w -> in_tl w q = true <-> recent h w q.
Proof.
  intros H. rewrite in_tl_pos. split.
  - destruct (ring_pos w q) as [[k d]|] eqn:E; [|done]. intros Hd%Nat.ltb_lt. exists k, d. split; [done|].
    by destruct (ring_pos_Some _ _ _ _ _ _ (wo_core _ _ _ (ho_ok _ _ _ _ _ _ H)) E) as (_ & _ & _ & _ & ?).
  - intros (k & d & Hd & Hq). destruct (recent_pos _ _ _ _ _ H Hd Hq) as [-> _]. by apply Nat.ltb_lt.
Qed.

(** C11: except in builds with assertions when 0 < [tldepth] < [hdepth] (where
    one fails), whatever a writer does to its history cache, in whatever order:
    writing samples with increasing sequence numbers, of any instance,
    unregistering instances, passing on acknowledgements that do not decrease and
    giving up its history when it is not transient-local, no assertion of the
    cache fails, no freed sample or interval is used, and the consistency check
    [check_whc] succeeds afterwards. *)
Theorem whc_never_fails h w op : reachable h w -> legal h w op -> exists w', whc_step ndebug fragment_size w op = Some w' /\ check_whc w' = true.
Proof.
  intros Hr Hl. destruct (hist_ok_step _ _ Hfs _ _ _ _ _ _ _ Hset (reaches_ok _ _ Hfs _ _ _ _ _ _ Hset Hr) Hl) as (w' & E & H').
  exists w'. split; [done|]. eapply check_whc_ok, (ho_ok _ _ _ _ _ _ H').
Qed.

(** A sample that was written and is not acknowledged is in the cache, with
    the data it was written with and marked as unacknowledged, unless the
    writer keeps only the last [hdepth] samples of an instance and as many
    later ones of this instance were written. *)
Theorem whc_unacked_kept h w q sd : reachable h w -> h_data h !! q = Some sd -> h_ack h < q ->
  (exists nd, whc_findseq w q = Some nd /\ nd_serdata nd = sd /\ nd_unacked nd = true) \/ (0 < hdepth)%nat /\ replaced h hdepth q sd.
Proof.
  intros Hr Hd Ha. pose proof (reaches_ok _ _ Hfs _ _ _ _ _ _ Hset Hr) as H. destruct (ho_kept _ _ _ _ _ _ H q sd Hd Ha) as [Hq|Hrep]; [|by right]. left.
  destruct (stored_node _ _ _ H Hq) as (nd & Hn & Hdd & _ & Hu). exists nd. rewrite Hd in Hdd. injection Hdd as <-. auto.
Qed.

(** C12: the latest [tldepth] samples of every instance since it was last
    unregistered are in the cache, acknowledged or not, with the data they were
    written with; [whc_findkey] finds the latest of them. *)
Theorem whc_history_kept h w : reachable h w ->
  (forall k d q, (d < wh_tldepth w)%nat -> h_log h k !! d = Some q -> exists nd, whc_findseq w q = Some nd /\ h_data h !! q = Some (nd_serdata nd)) /\
  ((0 < wh_tldepth w)%nat -> forall k, whc_findkey w k = Some (head (h_log h k))).
Proof.
  intros Hr. pose proof (reaches_ok _ _ Hfs _ _ _ _ _ _ Hset Hr) as H. pose proof (ho_ok _ _ _ _ _ _ H) as Hk. split.
  - intros k d q Hd Hq. destruct (recent_pos _ _ _ _ _ H Hd Hq) as [_ Hin]. destruct (stored_node _ _ _ H Hin) as (nd & Hn & Hdd & _). eauto.
  - intros Ht k. unfold whc_findkey. rewrite (check_whc_ok _ _ _ Hk). cbn [negb]. pose proof (wo_depth _ _ _ Hk) as Hdp.
    assert (is_Some (wh_idx_hash w)) as [idx Hidx] by (apply (wo_index _ _ _ Hk); lia). rewrite Hidx. cbn [mbind option_bind]. pose proof (co_idx _ _ _ (wo_core _ _ _ Hk)) as Hio. rewrite Hidx in Hio.
    destruct (idx !! k) as [x|] eqn:Hx; [|destruct (io_none _ _ _ _ _ Hio k Hx) as [?|E]; [lia|by rewrite E]].
    destruct (io_ring _ _ _ _ _ Hio k x Hx) as [R1 R2 [q R3] R4 R5]. rewrite R3. simpl. destruct (R4 0%nat q) as [Hl _]; [lia|by rewrite pos_of_0|]. by destruct (h_log h k); simplify_eq/=.
Qed.

(** An acknowledgement up to [m] keeps every sample after [m] and the latest
    [tldepth] of every instance; of those acknowledged it keeps no other that
    was not acknowledged before. *)
Theorem whc_acked_dropped h w m : reachable h w -> wh_max_drop_seq w <= m < MAX_SEQ_NUMBER -> (wh_is_transient_local w = true -> wh_tldepth w <> 0%nat) ->
  exists w' n, whc_remove_acked_messages ndebug fragment_size w m = Some (w', n) /\ wh_max_drop_seq w' = m /\
    (forall q, is_Some (whc_findseq w q) -> m < q \/ recent h w q -> is_Some (whc_findseq w' q)) /\
    (forall q, is_Some (whc_findseq w' q) -> is_Some (whc_findseq w q) /\ (m < q \/ recent h w q \/ q <= wh_max_drop_seq w)).
Proof.
  intros Hr Hm Hall. pose proof (reaches_ok _ _ Hfs _ _ _ _ _ _ Hset Hr) as H. pose proof (ho_ok _ _ _ _ _ _ H) as Hk. pose proof (wo_core _ _ _ Hk) as Hc.
  destruct (remove_acked_ok ndebug _ Hfs _ _ m Hk Hm Hall) as (L & R & w' & (E & HL & HR) & Ew & A & Hk'); [by apply (hist_ok_deep ndebug fragment_size is_tl hdepth tldepth overhead h)|].
  exists w'. eexists. split; [exact Ew|]. split; [apply A|]. destruct A as [A1 A2 A3 A4 A5 A6 A7].
  assert (Hs' : forall q, is_Some (whc_findseq w' q) <-> q ∈ left_by w m L R) by (intros q; rewrite stored_infos, <- A2; apply (core_infos fragment_size); apply (st_core _ _ _ A1)).
  split; intros q; rewrite Hs', (stored_seqs h w q H).
  - intros Hq [Hlt|Hrec]; [eapply left_by_above; [exact Hc|by rewrite <- E| |done]; intros x Hx; specialize (HL x Hx); lia|]. apply (in_tl_recent h w q H) in Hrec.
    apply list_elem_of_filter. split; [|rewrite E in Hq; apply elem_of_app in Hq as [Hq|Hq]; apply elem_of_app; [by left|right; apply list_elem_of_filter; split; [by right|done]]].
    unfold prunes. rewrite in_tl_pos in Hrec. destruct (ring_pos w q) as [[k d]|]; [|done]. apply Nat.ltb_lt in Hrec. by rewrite (proj2 (Nat.leb_gt _ _)).
  - intros [_ Hq]%list_elem_of_filter. rewrite E, elem_of_app. apply elem_of_app in Hq as [Hq|Hq]; [split; [by left|]; right; right; auto|].
    apply list_elem_of_filter in Hq as [[Hlt|Htl] Hq]; (split; [by right|]); [by left|]. right. left. by apply in_tl_recent.
Qed.

(** The samples in the cache, in order. *)
Definition contents w (l : list Z) : Prop := StronglySorted Z.lt l /\ forall q, q ∈ l <-> is_Some (whc_findseq w q).

Lemma contents_seqs h w l : consistent h w -> contents w l -> l = seqs w.
Proof.
  intros H [Hs Hl]. assert (Hs' : StronglySorted Z.lt (seqs w)) by (eapply core_sorted, (wo_core _ _ _ (ho_ok _ _ _ _ _ _ H))).
  assert (Hsame : forall q, q ∈ l <-> q ∈ seqs w) by (intros q; rewrite Hl; by apply (stored_seqs h)). clear Hl H. revert Hs Hs' Hsame. generalize (seqs w). intros l2 Hs Hs'.
  revert l2 Hs'. induction Hs as [|x l Hs IH Hf]; intros [|y l2] Hs' Hsame; [done|by destruct (not_elem_of_nil y); apply Hsame; left|by destruct (not_elem_of_nil x); apply Hsame; left|].
  apply StronglySorted_inv in Hs' as [Hs' Hf']. rewrite Forall_forall in Hf, Hf'.
  assert (x = y) as <-.
  { destruct (proj1 (elem_of_cons _ _ _) (proj1 (Hsame x) ltac:(by left))) as [?|Hx%Hf']; [done|].
    destruct (proj1 (elem_of_cons _ _ _) (proj2 (Hsame y) ltac:(by left))) as [?|Hy%Hf]; [done|]. lia. }
  f_equal. apply IH; [done|]. intros q. pose proof (Hsame q) as Hq. rewrite !elem_of_cons in Hq. split; intros Hin.
  - destruct (proj1 Hq (or_intror Hin)) as [->|?]; [|done]. apply Hf in Hin. lia.
  - destruct (proj2 Hq (or_intror Hin)) as [->|?]; [|done]. apply Hf' in Hin. lia.
Qed.

(** The lookups of the cache agree with the sorted list of the sequence
    numbers in it: its size, whether it is empty, the first and the last one,
    and for any number the first one after it, or [MAX_SEQ_NUMBER]. *)
Theorem whc_lookups_exact h w l : reachable h w -> contents w l ->
  wh_seq_size w = Z.of_nat (length l) /\ whc_empty w = bool_decide (l = []) /\ whc_min_seq w = head l /\ whc_max_seq w = last l /\
  forall q, whc_next_seq ndebug w q = Some (default MAX_SEQ_NUMBER (head (filter (fun x => q < x) l))).
Proof.
  intros Hr Hl. pose proof (reaches_ok _ _ Hfs _ _ _ _ _ _ Hset Hr) as H. rewrite (contents_seqs h w l H Hl). pose proof (ho_ok _ _ _ _ _ _ H) as Hk. pose proof Hk as [Hc Hz Hm _ _ _ _ _ _ _].
  split; [done|]. split; [by apply whc_empty_spec|]. split; [by eapply whc_min_seq_core|]. split; [by eapply whc_max_seq_core|]. intros q.
  by eapply whc_next_seq_spec.
Qed.

(** [whc_unacked_bytes] is the size of the samples in the cache that are
    marked as unacknowledged, with the overhead of their fragments; those up to
    the last acknowledged one are not marked, those beyond it are. *)
Theorem whc_unacked_bytes_exact h w l : reachable h w -> contents w l ->
  whc_unacked_bytes w = foldr (fun q n => match whc_findseq w q with Some nd => if nd_unacked nd then whcn_size fragment_size w nd + n else n | None => n end) 0 l /\
  forall q nd, whc_findseq w q = Some nd -> (q <= wh_max_drop_seq w -> nd_unacked nd = false) /\ (h_ack h < q -> nd_unacked nd = true).
Proof.
  intros Hr Hl. pose proof (reaches_ok _ _ Hfs _ _ _ _ _ _ Hset Hr) as H. rewrite (contents_seqs h w l H Hl). pose proof (wo_core _ _ _ (ho_ok _ _ _ _ _ _ H)) as Hc. split.
  - unfold whc_unacked_bytes. rewrite (co_unacked _ _ Hc). clear. induction (seqs w) as [|q l IH]; [done|]. simpl. rewrite <- IH. unfold cost_at, infos, whc_findseq. rewrite lookup_fmap.
    destruct (wh_seq_hash w !! q) as [nd|]; simpl; [|lia]. unfold cost, nd_info, whcn_size. simpl. destruct (nd_unacked nd); lia.
  - intros q nd Hn. destruct (stored_node h w q H) as (nd' & Hn' & _ & F1 & F2); [by apply (stored_seqs h); [|eauto]|]. rewrite Hn in Hn'. injection Hn' as <-. done.
Qed.

(** [whc_free] frees every sample in the cache exactly once. *)
Theorem whc_free_once h w : reachable h w -> exists l, whc_free w = Some l /\ NoDup l /\ forall q, q ∈ l <-> is_Some (whc_findseq w q).
Proof.
  intros Hr. pose proof (reaches_ok _ _ Hfs _ _ _ _ _ _ Hset Hr) as H. exists (reverse (seqs w)). split; [by eapply whc_free_spec, (ho_ok _ _ _ _ _ _ H)|].
  split; [rewrite reverse_Permutation; eapply core_NoDup, (wo_core _ _ _ (ho_ok _ _ _ _ _ _ H))|]. intros q. rewrite elem_of_reverse. symmetry. by apply (stored_seqs h).
Qed.

(** [whc_downgrade_to_volatile] leaves the samples that are not yet
    acknowledged and no others. *)
Theorem whc_downgrade_exact h w : reachable h w -> wh_is_transient_local w = false ->
  exists w', whc_downgrade_to_volatile ndebug fragment_size w = Some w' /\ wh_tldepth w' = 0%nat /\
    forall q, is_Some (whc_findseq w' q) <-> is_Some (whc_findseq w q) /\ wh_max_drop_seq w < q.
Proof.
  intros Hr Hv. pose proof (reaches_ok _ _ Hfs _ _ _ _ _ _ Hset Hr) as H. destruct (whc_downgrade_spec ndebug _ Hfs _ _ (ho_ok _ _ _ _ _ _ H) Hv) as (w' & E & [D1 D2 D3 D4 D5]).
  exists w'. split; [done|]. injection D4 as _ _ _ -> _. split; [done|]. intros q. rewrite (stored_seqs h w q H), stored_infos, (core_infos fragment_size w' q (wo_core _ _ _ D1)), D2, list_elem_of_filter. tauto.
Qed.
End Claims.

(** ** Witnesses *)

#[export] Instance legal_dec {T : Type -> Type} (h : hist) (w : whc (T := T)) op : Decision (legal h w op).
Proof. destruct op; simpl; apply _. Defined.

(** Runs that can be computed. *)
Fixpoint whc_run {T : Type -> Type} `{!OrdTree T} (ndebug : bool) (fragment_size : Z) (h : hist) (w : whc (T := T)) (ops : list whc_op) : option (hist * whc (T := T)) :=
  match ops with
  | [] => Some (h, w)
  | op :: ops => if decide (legal h w op) then w ← whc_step ndebug fragment_size w op; whc_run ndebug fragment_size (h_step h op) w ops else None
  end.

Lemma whc_run_reaches {T : Type -> Type} `{!OrdTree T} ndebug fragment_size is_tl hdepth tldepth overhead h (w : whc (T := T)) ops h' w' :
  reaches ndebug fragment_size is_tl hdepth tldepth overhead h w -> whc_run ndebug fragment_size h w ops = Some (h', w') ->
  reaches ndebug fragment_size is_tl hdepth tldepth overhead h' w'.
Proof.
  revert h w. induction ops as [|op ops IH]; intros h w Hr E; simpl in E; [by injection E as <- <-|]. destruct (decide (legal h w op)) as [Hl|]; [|done].
  destruct (whc_step ndebug fragment_size w op) as [w1|] eqn:E1; [|done]. cbn [mbind option_bind] in E. eapply IH; [|exact E]. by eapply reaches_step.
Qed.

(** A run from a new cache. *)
Definition whc_runs (ndebug is_tl : bool) (hdepth tldepth : nat) (ops : list whc_op) : option (hist * whc (T := AvlTree)) :=
  w ← whc_new is_tl hdepth tldepth 8; whc_run ndebug 100 h_new w ops.
Definition whc_after (is_tl : bool) (hdepth tldepth : nat) (ops : list whc_op) : hist * whc (T := AvlTree) :=
  match whc_runs true is_tl hdepth tldepth ops with Some r => r | None => (h_new, MkWhc 0 0 8 is_tl hdepth tldepth 0 0 0 None ∅ None ot_init) end.

Lemma whc_after_reaches is_tl hdepth tldepth ops : is_Some (whc_runs true is_tl hdepth tldepth ops) ->
  reaches true 100 is_tl hdepth tldepth 8 (fst (whc_after is_tl hdepth tldepth ops)) (snd (whc_after is_tl hdepth tldepth ops)).
Proof.
  unfold whc_after, whc_runs. intros [[h w] E]. rewrite E. destruct (whc_new is_tl hdepth tldepth 8) as [w0|] eqn:E0; [|done]. cbn [mbind option_bind] in E.
  eapply whc_run_reaches; [by apply reaches_new|exact E].
Qed.

Definition demo_sd (k n : Z) : serdata := Serdata k n false false.
Definition demo_unregister (k : Z) : serdata := Serdata k 4 false true.

(** Two instances, a history of two samples and of one for late joiners. *)
Definition whc_ops : list whc_op :=
  [OWrite 0 1 (demo_sd 7 10); OWrite 0 2 (demo_sd 7 150); OAck 1; OWrite 1 3 (demo_sd 8 20); OWrite 1 4 (demo_sd 7 30); OAck 3; OWrite 3 6 (demo_sd 8 40)].
Definition whc_demo : hist * whc (T := AvlTree) := whc_after false 2 1 whc_ops.

Lemma whc_demo_reaches : reaches true 100 false 2 1 8 (fst whc_demo) (snd whc_demo).
Proof. apply whc_after_reaches. vm_compute. eauto. Qed.
Lemma whc_demo_settings : settings true false 2 1 8.
Proof. split; [lia|left; lia|done]. Qed.

Lemma whc_never_fails_witness : exists w', whc_step true 100 (snd whc_demo) (OWrite 6 7 (demo_unregister 8)) = Some w' /\ check_whc w' = true.
Proof. apply (whc_never_fails true 100 ltac:(lia) false 2 1 8 whc_demo_settings (fst whc_demo)); [apply whc_demo_reaches|]. vm_compute. repeat split; discriminate. Defined.

Lemma whc_unacked_kept_witness : (exists nd, whc_findseq (snd whc_demo) 4 = Some nd /\ nd_serdata nd = demo_sd 7 30 /\ nd_unacked nd = true) \/
  (0 < 2)%nat /\ replaced (fst whc_demo) 2 4 (demo_sd 7 30).
Proof. apply (whc_unacked_kept true 100 ltac:(lia) false 2 1 8 whc_demo_settings (fst whc_demo)); [apply whc_demo_reaches|vm_compute; reflexivity|vm_compute; reflexivity]. Defined.

Lemma whc_history_kept_witness : h_log (fst whc_demo) 7 = [4; 2; 1] /\ whc_findkey (snd whc_demo) 7 = Some (Some 4).
Proof.
  split; [vm_compute; reflexivity|]. destruct (whc_history_kept true 100 ltac:(lia) false 2 1 8 whc_demo_settings (fst whc_demo) (snd whc_demo) whc_demo_reaches) as [_ Hf].
  apply Hf. vm_compute. lia.
Defined.

Lemma whc_acked_dropped_witness : exists w' n, whc_remove_acked_messages true 100 (snd whc_demo) 5 = Some (w', n) /\ wh_max_drop_seq w' = 5.
Proof.
  destruct (whc_acked_dropped true 100 ltac:(lia) false 2 1 8 whc_demo_settings (fst whc_demo) (snd whc_demo) 5 whc_demo_reaches) as (w' & n & E & Hm & _);
    [vm_compute; split; [discriminate|reflexivity]|vm_compute; discriminate|]. eauto.
Defined.

Lemma contents_keys {T : Type -> Type} (w : whc (T := T)) l : StronglySorted Z.lt l -> map fst (map_to_list (wh_seq_hash w)) ≡ₚ l -> contents w l.
Proof.
  intros Hs Hp. split; [done|]. intros q. rewrite <- Hp. unfold whc_findseq. split.
  - intros ((q' & nd) & -> & Hin)%list_elem_of_fmap. apply elem_of_map_to_list in Hin. eauto.
  - intros [nd Hn]. apply list_elem_of_fmap. exists (q, nd). split; [done|]. by apply elem_of_map_to_list.
Qed.

Lemma whc_demo_contents : contents (snd whc_demo) [3; 4; 6].
Proof. apply contents_keys; [repeat constructor; lia|]. vm_compute. constructor. constructor. Qed.

Lemma whc_lookups_exact_witness : whc_min_seq (snd whc_demo) = Some 3 /\ whc_next_seq true (snd whc_demo) 4 = Some 6.
Proof.
  destruct (whc_lookups_exact true 100 ltac:(lia) false 2 1 8 whc_demo_settings (fst whc_demo) (snd whc_demo) [3; 4; 6] whc_demo_reaches whc_demo_contents)
    as (_ & _ & Hmin & _ & Hnext). split; [exact Hmin|]. rewrite (Hnext 4). reflexivity.
Defined.

Lemma whc_unacked_bytes_exact_witness : whc_unacked_bytes (snd whc_demo) = 86.
Proof.
  destruct (whc_unacked_bytes_exact true 100 ltac:(lia) false 2 1 8 whc_demo_settings (fst whc_demo) (snd whc_demo) [3; 4; 6] whc_demo_reaches whc_demo_contents) as [E _].
  rewrite E. vm_compute. reflexivity.
Defined.

Lemma whc_free_once_witness : exists l, whc_free (snd whc_demo) = Some l /\ NoDup l.
Proof.
  destruct (whc_free_once true 100 ltac:(lia) false 2 1 8 whc_demo_settings (fst whc_demo) (snd whc_demo) whc_demo_reaches) as (l & E & HN & _). eauto.
Defined.

Lemma whc_downgrade_exact_witness : exists w', whc_downgrade_to_volatile true 100 (snd whc_demo) = Some w' /\ wh_tldepth w' = 0%nat.
Proof.
  destruct (whc_downgrade_exact true 100 ltac:(lia) false 2 1 8 whc_demo_settings (fst whc_demo) (snd whc_demo) whc_demo_reaches) as (w' & E & Ht & _); [vm_compute; reflexivity|]. eauto.
Defined.

(** ** An assertion that is wrong *)

(** A sample, its acknowledgement, a message without data and its
    acknowledgement. *)
Definition commit_ops : list whc_op := [OWrite 0 1 (demo_sd 7 10); OAck 1; OWrite 1 2 (Serdata 0 4 true false); OAck 2].

(** In a writer whose history is deeper than that for late joiners,
    [whc_remove_acked_messages] looks for the samples to prune with
    [find_nextseq_intv] while [maxseq_node] still is the one from before the
    first pass, which may have freed it: with assertions compiled in, the
    acknowledgement of a message without data after an acknowledged sample
    fails one; without, it succeeds. *)
Theorem whc_prune_assertion : whc_runs false true 2 1 commit_ops = None /\ is_Some (whc_runs true true 2 1 commit_ops).
Proof. split; [vm_compute; reflexivity|]. vm_compute. eauto. Qed.
