(* ===== verification/WrReaders.v ===== *)
(** * The matched readers of a writer: [struct wr_prd_match] of [q_entity.h]

    A writer has a tree of the remote readers it is matched with, ordered on
    their GUIDs, in which [augment_wr_prd_match] of [q_entity.c] keeps with each
    node a summary of the subtree below it: the least and the greatest
    acknowledged sequence number, whether all have replied to a heartbeat, how
    many have acknowledged the greatest one and a reader that has not.  The tree
    is that of [ut_avl.c].

    A reader that is best-effort or was found unresponsive counts as having
    acknowledged [MAX_SEQ_NUMBER]. *)

From Stdlib Require Import ZArith Lia.
From stdpp Require Import prelude.
From S2P Require Import Prelude OrdTree Avl AvlFacts AvlSearch AvlProps Reorder Dqueue Wire Receive.

Record wr_prd_match : Type := WrPrdMatch {
  rn_prd_guid : nn_guid;
  rn_assumed_in_sync : bool;
  rn_has_replied_to_hb : bool;
  rn_is_reliable : bool;
  rn_seq : Z;
  rn_next_acknack : Z;
  rn_next_nackfrag : Z;
  rn_t_acknack_accepted : Z;
  rn_rexmit_requests : Z;
}.

(** The fields of [struct wr_prd_match] about the subtree. *)
Record wr_prd_summary : Type := WrPrdSummary {
  rs_all_have_replied_to_hb : bool;
  rs_min_seq : Z;
  rs_max_seq : Z;
  rs_num_reliable_readers_where_seq_equals_max : Z;
  rs_arbitrary_unacked_reader : nn_guid;
}.

Definition rn_set_seq (n : wr_prd_match) (seq : Z) : wr_prd_match :=
  WrPrdMatch (rn_prd_guid n) (rn_assumed_in_sync n) (rn_has_replied_to_hb n) (rn_is_reliable n) seq (rn_next_acknack n)
    (rn_next_nackfrag n) (rn_t_acknack_accepted n) (rn_rexmit_requests n).
Definition rn_set_replied (n : wr_prd_match) (b : bool) : wr_prd_match :=
  WrPrdMatch (rn_prd_guid n) (rn_assumed_in_sync n) b (rn_is_reliable n) (rn_seq n) (rn_next_acknack n)
    (rn_next_nackfrag n) (rn_t_acknack_accepted n) (rn_rexmit_requests n).
Definition rn_set_in_sync (n : wr_prd_match) : wr_prd_match :=
  WrPrdMatch (rn_prd_guid n) true (rn_has_replied_to_hb n) (rn_is_reliable n) (rn_seq n) (rn_next_acknack n)
    (rn_next_nackfrag n) (rn_t_acknack_accepted n) (rn_rexmit_requests n).
Definition rn_set_acknack (n : wr_prd_match) (next t_accepted requests : Z) : wr_prd_match :=
  WrPrdMatch (rn_prd_guid n) (rn_assumed_in_sync n) (rn_has_replied_to_hb n) (rn_is_reliable n) (rn_seq n) next
    (rn_next_nackfrag n) t_accepted requests.
Definition rn_set_nackfrag (n : wr_prd_match) (next : Z) : wr_prd_match :=
  WrPrdMatch (rn_prd_guid n) (rn_assumed_in_sync n) (rn_has_replied_to_hb n) (rn_is_reliable n) (rn_seq n) (rn_next_acknack n)
    next (rn_t_acknack_accepted n) (rn_rexmit_requests n).

(** The null GUID but for its prefix, which is not assigned and never used. *)
Definition guid_unknown : nn_guid := NnGuid (0, 0, 0) NN_ENTITYID_UNKNOWN.

Definition known (g : nn_guid) : bool := negb (guid_entityid g =? NN_ENTITYID_UNKNOWN).

(** ** [augment_wr_prd_match] *)

Definition child_summary (c : option (wr_prd_match * wr_prd_summary)) (P : wr_prd_match -> wr_prd_summary -> bool) : bool :=
  match c with Some (n, s) => P n s | None => false end.

Definition augment_min (min_seq : Z) (c : option (wr_prd_match * wr_prd_summary)) : Z :=
  match c with Some (_, s) => if rs_min_seq s <? min_seq then rs_min_seq s else min_seq | None => min_seq end.
Definition augment_max (max_seq : Z) (c : option (wr_prd_match * wr_prd_summary)) : Z :=
  match c with Some (_, s) => if rs_max_seq s >? max_seq then rs_max_seq s else max_seq | None => max_seq end.
Definition augment_replied (have_replied : bool) (c : option (wr_prd_match * wr_prd_summary)) : bool :=
  match c with Some (_, s) => have_replied && rs_all_have_replied_to_hb s | None => have_replied end.
Definition augment_num (max_seq : Z) (c : option (wr_prd_match * wr_prd_summary)) : Z :=
  match c with
  | Some (_, s) => if rs_max_seq s =? max_seq then rs_num_reliable_readers_where_seq_equals_max s else 0
  | None => 0
  end.

(** Part 3 of the function. *)
Definition augment_arbitrary (n : wr_prd_match) (max_seq : Z) (left right : option (wr_prd_match * wr_prd_summary)) : nn_guid :=
  let candidate c := child_summary c (fun _ s => known (rs_arbitrary_unacked_reader s)) in
  let behind c := child_summary c (fun _ s => negb (rs_max_seq s =? 0) && (rs_max_seq s <? max_seq)) in
  if rn_seq n <? max_seq then rn_prd_guid n
  else if rn_is_reliable n && ((rn_seq n =? MAX_SEQ_NUMBER) || negb (rn_has_replied_to_hb n)) then rn_prd_guid n
  else if candidate left then match left with Some (_, s) => rs_arbitrary_unacked_reader s | None => guid_unknown end
  else if candidate right then match right with Some (_, s) => rs_arbitrary_unacked_reader s | None => guid_unknown end
  else if behind left then match left with Some (l, _) => rn_prd_guid l | None => guid_unknown end
  else if behind right then match right with Some (r, _) => rn_prd_guid r | None => guid_unknown end
  else guid_unknown.

Definition augment_wr_prd_match (n : wr_prd_match) (left right : option (wr_prd_match * wr_prd_summary)) : wr_prd_summary :=
  let min_seq := augment_min (augment_min (rn_seq n) left) right in
  let max_seq := augment_max (augment_max (if rn_seq n <? MAX_SEQ_NUMBER then rn_seq n else 0) left) right in
  WrPrdSummary
    (augment_replied (augment_replied (rn_has_replied_to_hb n) left) right)
    min_seq
    max_seq
    (if max_seq =? 0 then 0
     else (if (rn_seq n =? max_seq) && rn_has_replied_to_hb n then 1 else 0) + augment_num max_seq left + augment_num max_seq right)
    (augment_arbitrary n max_seq left right).

Section Readers.
Context (le : bool).

Definition rn_key (n : wr_prd_match) : Z := guid_key le (rn_prd_guid n).

Definition wr_readers_treedef : treedef Z wr_prd_match wr_prd_summary :=
  Treedef rn_key compare_int64 (Some augment_wr_prd_match) false.

Abbreviation readers := (tree wr_prd_match wr_prd_summary).

(** An assignment to fields of the node with the given key. *)
Definition upd_match (t : readers) (k : Z) (f : wr_prd_match -> wr_prd_match) : readers :=
  match lookup_path wr_readers_treedef t k [] with
  | (Node h l x a r, p) => zip p (Node h l (f x) a r)
  | (Nil, _) => t
  end.

(** An assignment followed by [ut_avlAugmentUpdate]. *)
Definition upd_match_augment (t : readers) (k : Z) (f : wr_prd_match -> wr_prd_match) : readers :=
  ut_avlAugmentUpdate wr_readers_treedef (upd_match t k f) k.
End Readers.
