(* ===== verification/WrReadersFacts.v ===== *)
(** * The tree of matched readers: its operations and its summaries

    [readers_ok] is the invariant of the tree: it is a balanced search tree, and
    each summary is what [augment_wr_prd_match] computes.  [summarizes] tells
    what a summary says of the readers below it. *)

From Stdlib Require Import ZArith Lia.
From stdpp Require Import prelude.
From S2P Require Import Prelude OrdTree Avl AvlFacts AvlSearch AvlProps Reorder Dqueue Wire Receive WrReaders.

(** ** Updating the summaries on the way to the root *)

Section Up.
Context {K E A : Type} (td : treedef K E A).
Implicit Types (t n : tree E A) (p q : list (@frame E A)).

(** A search that is guided by the nodes around a position gets to it. *)
Lemma lookup_path_zip p q n k : ctx_sep td p k -> lookup_path td (zip p n) k q = lookup_path td n k (p ++ q).
Proof.
  revert n q. induction p as [|f p IH]; intros n q [H1 H2]; [done|]. cbn [zip]. simpl in H1, H2.
  apply Forall_app in H1 as [H1 Hl]. apply Forall_app in H2 as [Hr H2]. rewrite IH by done.
  destruct f as [[] h x a o]; unfold plug, mk; simpl in *.
  - apply Forall_app in Hl as [_ Hl]. apply Forall_cons in Hl as [Hx _]. zcases; done.
  - apply Forall_cons in Hr as [Hx _]. zcases; done.
Qed.

Lemma augment_up_elements p t : elements (augment_up td t p) = elements (zip p t).
Proof.
  assert (Ha : forall u, elements (augment td u) = elements u).
  { intros [|h l x a r]; unfold augment; by destruct (td_augment td). }
  revert t. induction p as [|f p IH]; intros t; simpl; [done|]. rewrite IH, !elements_zip, !elements_plug. by rewrite Ha.
Qed.

Lemma augment_up_bal p t : bal (augment_up td t p) <-> bal (zip p t).
Proof.
  assert (Ha : forall u, (bal (augment td u) <-> bal u) /\ node_height (augment td u) = node_height u).
  { intros [|h l x a r]; unfold augment; by destruct (td_augment td). }
  revert t. induction p as [|f p IH]; intros t; simpl; [apply Ha|]. rewrite IH, !bal_zip, !bal_plug, !height_plug. destruct (Ha t) as [-> ->]. done.
Qed.

Lemma augment_up_aug f p h l x a r : td_augment td = Some f -> aug_ok f l -> aug_ok f r -> aug_ctx f p -> aug_ok f (augment_up td (Node h l x a r) p).
Proof.
  intros Hf. revert h l x a r. induction p as [|fr p IH]; intros h l x a r Hl Hr Hp; cbn [augment_up]; [by apply aug_ok_augment|].
  apply Forall_cons in Hp as [Ho Hp]. pose proof (aug_ok_augment td f Hf h l x a r Hl Hr) as Hn. destruct fr as [[] h' x' a' o]; unfold plug, mk; apply IH; done.
Qed.

Lemma zip_aug_inv f p t : aug_ok f (zip p t) -> aug_ok f t /\ aug_ctx f p.
Proof.
  revert t. induction p as [|fr p IH]; intros t H; [by split; [|constructor]|]. simpl in H. destruct (IH _ H) as [Ht Hp].
  destruct fr as [[] h x a o]; unfold plug, mk in Ht; simpl in Ht; destruct Ht as (? & ? & _); split; try done; by constructor.
Qed.

Lemma zip_aug_replace f p t t' : aug_ok f (zip p t) -> aug_ok f t' ->
  (forall z o, f z (onode_from_node t) o = f z (onode_from_node t') o /\ f z o (onode_from_node t) = f z o (onode_from_node t')) -> aug_ok f (zip p t').
Proof.
  revert t t'. induction p as [|fr p IH]; intros t t' H Ht' He; [done|]. simpl in *. destruct (zip_aug_inv _ _ _ H) as [Ht _].
  apply (IH _ _ H); destruct fr as [[] h x a o]; unfold plug, mk in *; simpl in *; destruct Ht as (? & ? & ->); auto.
  - split; [done|]. split; [done|]. apply He.
  - split; [done|]. split; [done|]. apply He.
Qed.
End Up.

(** ** The operations *)

Section Readers.
Context (le : bool).
Abbreviation td := (wr_readers_treedef le).
Abbreviation readers := (tree wr_prd_match wr_prd_summary).
Implicit Types (t : readers) (k : Z) (n : wr_prd_match).

Definition readers_ok t : Prop := avl_ok td t /\ aug_ok augment_wr_prd_match t.

Lemma ck_reader n k : comparenk td n k = compare_int64 (rn_key le n) k.
Proof. done. Qed.
Lemma ck_reader_lt n k : comparenk td n k < 0 <-> rn_key le n < k.
Proof. rewrite ck_reader. unfold compare_int64. zcases. Qed.
Lemma ck_reader_gt n k : 0 < comparenk td n k <-> k < rn_key le n.
Proof. rewrite ck_reader. unfold compare_int64. zcases. Qed.
Lemma ck_reader_eq n k : comparenk td n k = 0 <-> rn_key le n = k.
Proof. rewrite ck_reader. unfold compare_int64. zcases. Qed.

Lemma readers_sorted t : readers_ok t -> sorted (rn_key le) (elements t).
Proof.
  intros [[_ Hs] _]. unfold td_sorted in Hs. simpl in Hs. unfold sorted. induction Hs as [|x l Hs IH Hf]; constructor; [done|].
  eapply Forall_impl; [exact Hf|]. intros y Hy. by apply ck_reader_lt.
Qed.

(** A list of readers with that of key [k] changed. *)
Definition change k (f : wr_prd_match -> wr_prd_match) (l : list wr_prd_match) : list wr_prd_match :=
  map (fun n => if rn_key le n =? k then f n else n) l.
Definition keeps_key (f : wr_prd_match -> wr_prd_match) : Prop := forall n, rn_prd_guid (f n) = rn_prd_guid n.

Lemma change_other k f l : Forall (fun n => rn_key le n <> k) l -> change k f l = l.
Proof. intros H. induction H as [|n l Hn H IH]; [done|]. simpl. rewrite (proj2 (Z.eqb_neq _ _) Hn). by rewrite IH. Qed.

(** What [lookup_path] finds. *)
Lemma lookup_reader_path t k nd p : readers_ok t -> lookup_path td t k [] = (nd, p) ->
  zip p nd = t /\ ctx_sep td p k /\ Forall (fun n => rn_key le n <> k) (lctx p ++ rctx p) /\
  match nd with
  | Nil => Forall (fun n => rn_key le n <> k) (elements t)
  | Node _ l x _ r => rn_key le x = k /\ Forall (fun n => rn_key le n <> k) (elements l ++ elements r)
  end.
Proof.
  intros Hok H. pose proof (readers_sorted t Hok) as Hs. destruct Hok as [Ha _]. apply lookup_path_root in H as ([H1 H2] & Hz & Hn); [|exact _|by apply avl_ok_wsorted].
  assert (Hc : Forall (fun n => rn_key le n <> k) (lctx p ++ rctx p)).
  { apply Forall_app. split; [eapply Forall_impl; [exact H1|]|eapply Forall_impl; [exact H2|]]; intros y Hy; cbn beta in Hy;
    [apply ck_reader_lt in Hy|apply ck_reader_gt in Hy]; cbn beta; lia. }
  split; [done|]. split; [done|]. split; [done|]. destruct nd as [|h l x a r].
  - rewrite <- Hz, elements_zip. done.
  - apply ck_reader_eq in Hn. split; [done|]. rewrite <- Hz, elements_zip in Hs. simpl in Hs. rewrite <- app_assoc in Hs. simpl in Hs.
    apply sorted_app in Hs as (_ & Hs & _). apply sorted_mid in Hs as (_ & _ & Hlt & Hgt & _).
    apply Forall_app in Hgt as [Hgt _]. unfold key_lt in Hlt, Hgt. apply Forall_app. rewrite !Forall_forall in *.
    split; intros y Hy; [specialize (Hlt y Hy)|specialize (Hgt y Hy)]; cbn beta in *; lia.
Qed.

Definition find_reader t k : option wr_prd_match := elt (ut_avlLookup td t k).

Lemma find_reader_path t k : find_reader t k = elt (onode_from_node (lookup_path td t k []).1).
Proof. unfold find_reader, ut_avlLookup. by rewrite <- (lookup_path_node td t k []). Qed.

Lemma found_reader_spec t k : readers_ok t -> match find_reader t k with
  | Some n => n ∈ elements t /\ rn_key le n = k
  | None => Forall (fun n => rn_key le n <> k) (elements t)
  end.
Proof.
  intros Hok. rewrite find_reader_path. destruct (lookup_path td t k []) as [nd p] eqn:E.
  destruct (lookup_reader_path _ _ _ _ Hok E) as (<- & _ & _ & H). destruct nd as [|h l x a r]; simpl; [done|]. destruct H as [Hx _].
  split; [|done]. rewrite elements_zip. simpl. set_solver.
Qed.

Lemma find_reader_unique t n : readers_ok t -> n ∈ elements t -> find_reader t (rn_key le n) = Some n.
Proof.
  intros Hok Hn. rewrite find_reader_path. destruct (lookup_path td t (rn_key le n) []) as [nd p] eqn:E.
  destruct (lookup_reader_path _ _ _ _ Hok E) as (<- & _ & Hc & H). rewrite Forall_forall in Hc. destruct nd as [|h l x a r]; simpl.
  - rewrite Forall_forall in H. by destruct (H n Hn).
  - destruct H as [Hx H]. rewrite Forall_forall in H. rewrite elements_zip in Hn. simpl in Hn. rewrite !elem_of_app, elem_of_cons in Hn.
    destruct Hn as [Hn|[[Hn|[->|Hn]]|Hn]]; [| |done| |]; exfalso; [apply (Hc n)|apply (H n)|apply (H n)|apply (Hc n)]; rewrite ?elem_of_app; auto.
Qed.

Lemma upd_match_elements t k f : readers_ok t -> elements (upd_match le t k f) = change k f (elements t).
Proof.
  intros Hok. unfold upd_match. destruct (lookup_path td t k []) as [nd p] eqn:E. destruct (lookup_reader_path _ _ _ _ Hok E) as (<- & _ & Hc & H).
  destruct nd as [|h l x a r]; [by rewrite change_other|]. destruct H as [Hx H]. rewrite !elements_zip. simpl. unfold change. rewrite !map_app. simpl.
  rewrite (proj2 (Z.eqb_eq _ _) Hx). apply Forall_app in Hc as [Hc1 Hc2]. apply Forall_app in H as [H1 H2].
  pose proof (change_other k f) as Ho. unfold change in Ho. by rewrite !Ho.
Qed.

Lemma change_sorted k f l : keeps_key f -> sorted (rn_key le) l -> sorted (rn_key le) (change k f l).
Proof.
  intros Hf. assert (Hk : forall n, rn_key le (if rn_key le n =? k then f n else n) = rn_key le n) by (intros n; case_match; unfold rn_key; by rewrite ?Hf).
  induction l as [|n l IH]; [done|]. simpl. rewrite !sorted_cons. intros [H1 H2]. split; [|auto]. apply Forall_map. eapply Forall_impl; [exact H1|].
  intros y Hy. unfold key_lt in *. simpl. by rewrite !Hk.
Qed.

Lemma sorted_td l : sorted (rn_key le) l -> td_sorted td l.
Proof.
  unfold td_sorted. simpl. intros Hs. induction Hs as [|x l Hs IH Hf]; constructor; [done|]. eapply Forall_impl; [exact Hf|]. intros y Hy. by apply ck_reader_lt.
Qed.

Lemma upd_match_bal t k f : readers_ok t -> bal (upd_match le t k f).
Proof.
  intros Hok. unfold upd_match. destruct (lookup_path td t k []) as [nd p] eqn:E. destruct (lookup_reader_path _ _ _ _ Hok E) as (Hz & _).
  destruct Hok as [[Hb _] _]. destruct nd as [|h l x a r]; [done|]. rewrite <- Hz in Hb. rewrite bal_zip in *. exact Hb.
Qed.

(** An assignment to fields that the summaries do not use. *)
Definition unsummarized (f : wr_prd_match -> wr_prd_match) : Prop := forall n, rn_prd_guid (f n) = rn_prd_guid n /\ rn_seq (f n) = rn_seq n /\
  rn_has_replied_to_hb (f n) = rn_has_replied_to_hb n /\ rn_is_reliable (f n) = rn_is_reliable n.

Lemma upd_match_ok t k f : readers_ok t -> unsummarized f -> readers_ok (upd_match le t k f).
Proof.
  intros Hok Hf. split; [split; [by apply upd_match_bal|]|].
  - apply sorted_td. rewrite upd_match_elements by done. apply change_sorted; [intros n; apply Hf|by apply readers_sorted].
  - unfold upd_match. destruct (lookup_path td t k []) as [nd p] eqn:E. destruct (lookup_reader_path _ _ _ _ Hok E) as (Hz & _).
    destruct Hok as [_ Ha]. destruct nd as [|h l x a r]; [done|]. rewrite <- Hz in Ha. destruct (Hf x) as (F1 & F2 & F3 & F4).
    destruct (zip_aug_inv _ _ _ Ha) as [(Hl & Hr & Hx) _]. apply (zip_aug_replace _ _ _ _ Ha).
    + split; [done|]. split; [done|]. rewrite Hx. unfold augment_wr_prd_match, augment_arbitrary. by rewrite F1, F2, F3, F4.
    + intros z o. simpl. unfold augment_wr_prd_match, augment_arbitrary. simpl. by rewrite F1.
Qed.

Lemma upd_match_path t k f : readers_ok t -> keeps_key f -> match lookup_path td t k [] with
  | (Node h l x a r, p) => lookup_path td (upd_match le t k f) k [] = (Node h l (f x) a r, p)
  | (Nil, _) => upd_match le t k f = t
  end.
Proof.
  intros Hok Hf. unfold upd_match. destruct (lookup_path td t k []) as [nd p] eqn:E. destruct (lookup_reader_path _ _ _ _ Hok E) as (Hz & Hs & _ & H).
  destruct nd as [|h l x a r]; [done|]. rewrite lookup_path_zip, app_nil_r by done. destruct H as [Hx _]. cbn [lookup_path].
  rewrite ck_reader. unfold rn_key, compare_int64 in *. rewrite Hf, Hx, Z.eqb_refl. done.
Qed.

Lemma upd_match_augment_spec t k f : readers_ok t -> keeps_key f ->
  readers_ok (upd_match_augment le t k f) /\ elements (upd_match_augment le t k f) = change k f (elements t).
Proof.
  intros Hok Hf. pose proof (upd_match_path t k f Hok Hf) as Hp. pose proof (upd_match_elements t k f Hok) as He. pose proof (upd_match_bal t k f Hok) as Hb.
  unfold upd_match_augment, ut_avlAugmentUpdate. simpl. destruct (lookup_path td t k []) as [nd p] eqn:E.
  destruct (lookup_reader_path _ _ _ _ Hok E) as (Hz & Hs & _ & H). destruct nd as [|h l x a r].
  { rewrite Hp, E. split; [done|]. by rewrite change_other. }
  rewrite Hp. assert (Hu : upd_match le t k f = zip p (Node h l (f x) a r)) by (unfold upd_match; by rewrite E).
  assert (He' : elements (augment_up td (Node h l (f x) a r) p) = change k f (elements t)) by (by rewrite augment_up_elements, <- Hu).
  split; [|done]. destruct Hok as [Ha Hg]. split; [split|].
  - apply augment_up_bal. by rewrite <- Hu.
  - rewrite He'. apply sorted_td, change_sorted; [done|]. by apply readers_sorted.
  - rewrite <- Hz in Hg. destruct (zip_aug_inv _ _ _ Hg) as [(Hl & Hr & _) Hc]. by apply augment_up_aug.
Qed.

Lemma insert_reader_ok t n a : readers_ok t -> find_reader t (rn_key le n) = None -> exists t' l1 l2, ut_avlInsert td t (n, a) = Some t' /\
  readers_ok t' /\ elements t = l1 ++ l2 /\ elements t' = l1 ++ n :: l2.
Proof.
  intros Hok Hn. pose proof (found_reader_spec t (rn_key le n) Hok) as Hf. rewrite Hn in Hf. destruct Hok as [Ha Hg].
  pose proof (insert_correct td t n a Ha) as H. destruct (ut_avlInsert td t (n, a)) as [t'|] eqn:E.
  - destruct H as (Ha' & l1 & l2 & E1 & E2 & _). exists t', l1, l2. split; [done|]. split; [|done]. split; [done|]. by eapply insert_aug in E.
  - destruct H as (_ & y & Hy & Hc). rewrite Forall_forall in Hf. destruct (Hf y Hy). by apply ck_reader_eq.
Qed.

Lemma delete_reader_ok t n : readers_ok t -> n ∈ elements t -> exists t' l1 l2, ut_avlDelete td t (rn_key le n) = Some t' /\
  readers_ok t' /\ elements t = l1 ++ n :: l2 /\ elements t' = l1 ++ l2.
Proof.
  intros Hok Hn. pose proof Hok as [Ha Hg]. pose proof (delete_correct td t (rn_key le n) Ha) as H. destruct (ut_avlDelete td t (rn_key le n)) as [t'|] eqn:E.
  - destruct H as (Ha' & l1 & x & l2 & E1 & E2 & E3). apply ck_reader_eq in E2. assert (Hx : x = n).
    { pose proof (find_reader_unique t n Hok Hn) as F1. pose proof (find_reader_unique t x Hok ltac:(rewrite E1; set_solver)) as F2.
      rewrite E2, F1 in F2. by injection F2. }
    subst x. exists t', l1, l2. split; [done|]. split; [|done]. split; [done|]. by eapply delete_aug in E.
  - rewrite Forall_forall in H. by destruct (H n Hn (proj2 (ck_reader_eq _ _) eq_refl)).
Qed.
End Readers.

(** ** What the summaries say *)

Record summarizes (l : list wr_prd_match) (s : wr_prd_summary) : Prop := {
  su_min : (exists n, n ∈ l /\ rn_seq n = rs_min_seq s) /\ forall n, n ∈ l -> rs_min_seq s <= rn_seq n;
  su_max : (rs_max_seq s = 0 \/ exists n, n ∈ l /\ rn_seq n = rs_max_seq s) /\ 0 <= rs_max_seq s < MAX_SEQ_NUMBER /\
           forall n, n ∈ l -> rn_seq n < MAX_SEQ_NUMBER -> rn_seq n <= rs_max_seq s;
  su_replied : rs_all_have_replied_to_hb s = forallb rn_has_replied_to_hb l;
  su_num : rs_num_reliable_readers_where_seq_equals_max s =
           if rs_max_seq s =? 0 then 0 else Z.of_nat (length (filter (fun n => rn_seq n = rs_max_seq s /\ rn_has_replied_to_hb n = true) l));
}.

Definition seqs_ok (l : list wr_prd_match) : Prop := Forall (fun n => 0 <= rn_seq n <= MAX_SEQ_NUMBER) l.

(** Joining the summary of a child to that of the readers [l]. *)
Definition summary_of (t : tree wr_prd_match wr_prd_summary) : Prop :=
  match t with Nil => True | Node _ _ _ s _ => summarizes (elements t) s end.

Lemma filter_none {A} (P : A -> Prop) `{!forall x, Decision (P x)} (l : list A) : (forall x, x ∈ l -> ~ P x) -> filter P l = [].
Proof. intros Hn. induction l as [|x l IH]; [done|]. rewrite filter_cons_False by (apply Hn; by left). apply IH. intros y Hy. apply Hn. by right. Qed.

Lemma augment_min_spec m t : summary_of t -> augment_min m (onode_from_node t) <= m /\ (forall n, n ∈ elements t -> augment_min m (onode_from_node t) <= rn_seq n) /\
  (augment_min m (onode_from_node t) = m \/ exists n, n ∈ elements t /\ rn_seq n = augment_min m (onode_from_node t)).
Proof.
  destruct t as [|h l x s r]; simpl; [intros _; split; [lia|]; split; [intros n Hn; by apply elem_of_nil in Hn|by left]|].
  intros [[Hex Hmin] _ _ _]. zcases; (split; [lia|]); (split; [intros n Hn; specialize (Hmin n Hn); lia|]); auto.
Qed.

Lemma augment_max_spec m t : summary_of t -> 0 <= m < MAX_SEQ_NUMBER -> let M := augment_max m (onode_from_node t) in
  m <= M < MAX_SEQ_NUMBER /\ (forall n, n ∈ elements t -> rn_seq n < MAX_SEQ_NUMBER -> rn_seq n <= M) /\
  (M = m \/ exists n, n ∈ elements t /\ rn_seq n = M) /\ match onode_from_node t with Some (_, s) => rs_max_seq s <= M | None => True end.
Proof.
  destruct t as [|h l x s r]; simpl; [intros _ Hm; split; [lia|]; split; [intros n Hn; by apply elem_of_nil in Hn|auto]|].
  intros [_ (Hex & Hb & Hmax) _ _] Hm. zcases; (split; [lia|]); (split; [intros n Hn Hlt; specialize (Hmax n Hn Hlt); lia|]); (split; [|lia]); auto.
  destruct Hex as [?|Hex]; [lia|]. auto.
Qed.

Lemma augment_replied_spec b t : summary_of t -> augment_replied b (onode_from_node t) = b && forallb rn_has_replied_to_hb (elements t).
Proof. destruct t as [|h l x s r]; simpl; [by rewrite andb_true_r|]. intros [_ _ -> _]. done. Qed.

Lemma augment_num_spec M t : summary_of t -> 0 < M < MAX_SEQ_NUMBER -> match onode_from_node t with Some (_, s) => rs_max_seq s <= M | None => True end ->
  augment_num M (onode_from_node t) = Z.of_nat (length (filter (fun n => rn_seq n = M /\ rn_has_replied_to_hb n = true) (elements t))).
Proof.
  destruct t as [|h l x s r]; cbn [onode_from_node augment_num]; [done|]. intros [_ (_ & _ & Hmax) _ Hnum] HM Hle. destruct (Z.eqb_spec (rs_max_seq s) M) as [<-|Hne].
  - rewrite Hnum. rewrite (proj2 (Z.eqb_neq (rs_max_seq s) 0)) by lia. done.
  - replace (filter _ _) with (@nil wr_prd_match); [done|]. symmetry. apply filter_none. intros n Hn [E _]. specialize (Hmax n Hn). lia.
Qed.

Lemma forallb_app_cons {A} (p : A -> bool) l x r : forallb p (l ++ x :: r) = p x && forallb p l && forallb p r.
Proof. rewrite forallb_app. simpl. destruct (p x), (forallb p l); done. Qed.

(** Every summary describes the readers in its subtree. *)
Lemma aug_ok_summary t : aug_ok augment_wr_prd_match t -> seqs_ok (elements t) -> summary_of t.
Proof.
  induction t as [|h l IHl x s r IHr]; [done|]. intros (Hl & Hr & Hs) Hq. cbn [elements] in Hq. apply Forall_app in Hq as [Hql Hq]. apply Forall_cons in Hq as [Hx Hqr].
  specialize (IHl Hl Hql). specialize (IHr Hr Hqr). cbn [summary_of elements]. unfold augment_wr_prd_match in Hs.
  set (m0 := if rn_seq x <? MAX_SEQ_NUMBER then rn_seq x else 0) in *. assert (HMAX : 0 < MAX_SEQ_NUMBER) by done. assert (Hm0 : 0 <= m0 < MAX_SEQ_NUMBER) by (unfold m0; zcases).
  destruct (augment_min_spec (rn_seq x) l IHl) as (A1 & A2 & A3). destruct (augment_min_spec (augment_min (rn_seq x) (onode_from_node l)) r IHr) as (B1 & B2 & B3).
  destruct (augment_max_spec m0 l IHl Hm0) as (C1 & C2 & C3 & C4). set (m1 := augment_max m0 (onode_from_node l)) in *. destruct (augment_max_spec m1 r IHr ltac:(lia)) as (D1 & D2 & D3 & D4).
  set (M := augment_max m1 (onode_from_node r)) in *. subst s. split; cbn [rs_min_seq rs_max_seq rs_all_have_replied_to_hb rs_num_reliable_readers_where_seq_equals_max].
  - split.
    + destruct B3 as [E|(n & Hn & E)]; [destruct A3 as [E'|(n & Hn & E')]|]; [exists x|exists n|exists n]; (split; [set_solver|congruence]).
    + intros n Hn. rewrite elem_of_app, elem_of_cons in Hn. destruct Hn as [Hn|[->|Hn]]; [specialize (A2 n Hn)| |specialize (B2 n Hn)]; lia.
  - split; [|split; [lia|]].
    + assert (Hm : forall n, n ∈ elements l ++ x :: elements r /\ rn_seq n = M -> M = 0 \/ exists n, n ∈ elements l ++ x :: elements r /\ rn_seq n = M) by eauto.
      destruct D3 as [->|(n & Hn & E)]; [|apply (Hm n); set_solver]. destruct C3 as [->|(n & Hn & E)]; [|right; exists n; set_solver].
      unfold m0. destruct (Z.ltb_spec (rn_seq x) MAX_SEQ_NUMBER); [right; exists x; set_solver|by left].
    + intros n Hn Hlt. rewrite elem_of_app, elem_of_cons in Hn. destruct Hn as [Hn|[->|Hn]]; [specialize (C2 n Hn Hlt); lia| |by apply D2].
      unfold m0 in C1. zcases.
  - rewrite augment_replied_spec, augment_replied_spec by done. by rewrite forallb_app_cons.
  - destruct (Z.eqb_spec M 0) as [|HM]; [done|].
    assert (C5 : match onode_from_node l with Some (_, s) => rs_max_seq s <= M | None => True end) by (destruct (onode_from_node l) as [[? ?]|]; [lia|done]).
    rewrite (augment_num_spec M l), (augment_num_spec M r) by (done || lia).
    rewrite filter_app, length_app, Nat2Z.inj_add. rewrite filter_cons. destruct (Z.eqb_spec (rn_seq x) M) as [E|E]; destruct (rn_has_replied_to_hb x) eqn:Er; case_decide as Hd; simpl andb; cbn [length]; try lia; exfalso; naive_solver.
Qed.

(** ** The reader that has not acknowledged everything *)

(** [n] has not acknowledged [M] or not replied to a heartbeat. *)
Definition pending (M : Z) (n : wr_prd_match) : Prop := rn_is_reliable n = true /\ ~ (rn_seq n = M /\ rn_has_replied_to_hb n = true).

Record matches_ok (l : list wr_prd_match) : Prop := {
  mk_seqs : seqs_ok l;
  mk_known : Forall (fun n => known (rn_prd_guid n) = true) l;
  mk_best_effort : Forall (fun n => rn_is_reliable n = false -> rn_seq n = MAX_SEQ_NUMBER) l;
  mk_replied : Forall (fun n => rn_is_reliable n = true -> rn_has_replied_to_hb n = true -> rn_seq n <> 0) l;
}.

Lemma matches_ok_app l1 x l2 : matches_ok (l1 ++ x :: l2) <-> matches_ok l1 /\ matches_ok [x] /\ matches_ok l2.
Proof.
  split.
  - intros [H1 H2 H3 H4]. unfold seqs_ok in *. rewrite Forall_app, Forall_cons in *. split; [|split]; split; unfold seqs_ok; try tauto; constructor; tauto || constructor.
  - intros ([A1 A2 A3 A4] & [B1 B2 B3 B4] & [C1 C2 C3 C4]). unfold seqs_ok in *. rewrite Forall_cons in *. split; unfold seqs_ok; rewrite Forall_app, Forall_cons; tauto.
Qed.

(** The reader that [augment_arbitrary] finds, if it finds one. *)
Definition found (l : list wr_prd_match) (s : wr_prd_summary) : Prop :=
  (known (rs_arbitrary_unacked_reader s) = true -> exists n, n ∈ l /\ rn_prd_guid n = rs_arbitrary_unacked_reader s /\
     (Forall (fun n => rn_is_reliable n = true) l -> pending (rs_max_seq s) n)) /\
  (known (rs_arbitrary_unacked_reader s) = false -> Forall (fun n => ~ pending (rs_max_seq s) n) l).
Definition found_in (t : tree wr_prd_match wr_prd_summary) : Prop :=
  match t with Nil => True | Node _ _ _ s _ => found (elements t) s end.

Lemma pending_mono l s M n : summarizes l s -> n ∈ l -> rs_max_seq s <= M < MAX_SEQ_NUMBER -> pending (rs_max_seq s) n -> pending M n.
Proof.
  intros [_ (_ & _ & Hmax) _ _] Hn HM [Hr Hp]. split; [done|]. intros [E Hh]. apply Hp. split; [|done]. specialize (Hmax n Hn). lia.
Qed.

Lemma child_found M t : found_in t -> summary_of t -> matches_ok (elements t) ->
  match onode_from_node t with Some (_, s) => rs_max_seq s <= M | None => True end -> 0 <= M < MAX_SEQ_NUMBER ->
  let all_reliable := Forall (fun n => rn_is_reliable n = true) (elements t) in
  let good g := known g = true /\ exists n, n ∈ elements t /\ rn_prd_guid n = g /\ (all_reliable -> pending M n) in
  let candidate := child_summary (onode_from_node t) (fun _ s => known (rs_arbitrary_unacked_reader s)) in
  let behind := child_summary (onode_from_node t) (fun _ s => negb (rs_max_seq s =? 0) && (rs_max_seq s <? M)) in
  (candidate = true -> good match onode_from_node t with Some (_, s) => rs_arbitrary_unacked_reader s | None => guid_unknown end) /\
  (candidate = false -> behind = true -> good match onode_from_node t with Some (c, _) => rn_prd_guid c | None => guid_unknown end) /\
  (candidate = false -> behind = false -> Forall (fun n => ~ pending M n) (elements t)).
Proof.
  destruct t as [|h l x s r]; [done|]. cbn [onode_from_node child_summary found_in summary_of]. set (L := elements (Node h l x s r)). intros [F1 F2] Hs Hok Hle HM. cbn zeta.
  assert (Hx : x ∈ L) by (unfold L; simpl; set_solver). pose proof Hok as [O1 O2 O3 O4]. rewrite Forall_forall in O2, O4. split; [|split].
  - intros Hk. split; [done|]. destruct (F1 Hk) as (n & Hn & Hg & Hp). exists n. split; [done|]. split; [done|]. intros Ha. by eapply pending_mono; eauto; lia.
  - intros Hk [H0 Hlt]%andb_true_iff. apply Z.ltb_lt in Hlt. specialize (F2 Hk). rewrite Forall_forall in F2. split; [by apply O2|]. exists x. split; [done|]. split; [done|].
    rewrite Forall_forall. intros Ha. specialize (Ha x Hx). split; [done|]. intros [E Eh]. apply (F2 x Hx). split; [done|]. intros [E' _]. lia.
  - intros Hk Hb. specialize (F2 Hk). rewrite Forall_forall in *. intros n Hn [Hr Hp]. apply (F2 n Hn). split; [done|]. intros [E Hh].
    pose proof (O4 n Hn Hr Hh) as Hne. apply Hp. split; [|done]. rewrite E in *. apply andb_false_iff in Hb as [Hb|Hb]; [apply negb_false_iff in Hb|]; zcases.
Qed.

Lemma sub_max_le t l s : summary_of t -> summarizes l s -> elements t ⊆ l -> match onode_from_node t with Some (_, s') => rs_max_seq s' <= rs_max_seq s | None => True end.
Proof.
  destruct t as [|h tl x s' tr]; [done|]. cbn [summary_of onode_from_node]. intros [_ (Hex & Hb & _) _ _] [_ (_ & Hb' & Hmax) _ _] Hsub.
  destruct Hex as [->|(n & Hn & E)]; [lia|]. rewrite <- E. apply Hmax; [by apply Hsub|lia].
Qed.

(** Either [augment_arbitrary] finds a reader or there is none to find. *)
Lemma arbitrary_cases l x r M : found_in l -> found_in r -> summary_of l -> summary_of r -> matches_ok (elements l) -> matches_ok [x] -> matches_ok (elements r) ->
  match onode_from_node l with Some (_, s) => rs_max_seq s <= M | None => True end -> match onode_from_node r with Some (_, s) => rs_max_seq s <= M | None => True end ->
  (rn_seq x < MAX_SEQ_NUMBER -> rn_seq x <= M) -> 0 <= M < MAX_SEQ_NUMBER ->
  let g := augment_arbitrary x M (onode_from_node l) (onode_from_node r) in
  known g = true /\ (exists n, n ∈ elements l ++ x :: elements r /\ rn_prd_guid n = g /\ (Forall (fun n => rn_is_reliable n = true) (elements l ++ x :: elements r) -> pending M n)) \/
  g = guid_unknown /\ Forall (fun n => ~ pending M n) (elements l ++ x :: elements r).
Proof.
  intros Fl Fr Sl Sr Kl [X1 X2 X3 X4] Kr Ml Mr Hx HM. destruct (child_found M l Fl Sl Kl Ml HM) as (L1 & L2 & L3). destruct (child_found M r Fr Sr Kr Mr HM) as (R1 & R2 & R3). clear Fl Fr Sl Sr Kl Kr Ml Mr.
  unfold seqs_ok in X1. apply Forall_cons in X1 as [X1 _], X2 as [X2 _], X3 as [X3 _], X4 as [X4 _]. unfold augment_arbitrary. cbn zeta in *.
  destruct (Z.ltb_spec (rn_seq x) M) as [Hlt|Hge].
  { left. split; [done|]. exists x. split; [set_solver|]. split; [done|]. rewrite Forall_app, Forall_cons. intros (_ & Hr & _). split; [done|]. lia. }
  destruct (rn_is_reliable x && _) eqn:Erel.
  { left. split; [done|]. exists x. split; [set_solver|]. split; [done|]. intros _. apply andb_true_iff in Erel as [Hr Ho]. split; [done|]. intros [E Hh].
    rewrite Hh in Ho. rewrite orb_false_r in Ho. lia. }
  assert (Hnx : ~ pending M x).
  { intros [Hr Hp]. rewrite Hr in Erel. apply orb_false_iff in Erel as [E1 E2%negb_false_iff]. apply Hp. split; [|done]. zcases. }
  destruct (child_summary (onode_from_node l) (fun _ s => known _)) eqn:Cl.
  { left. destruct (L1 eq_refl) as (Hk & n & Hn & Hg & Hp). split; [done|]. exists n. split; [set_solver|]. split; [done|]. rewrite Forall_app. intros [Hr _]. auto. }
  destruct (child_summary (onode_from_node r) (fun _ s => known _)) eqn:Cr.
  { left. destruct (R1 eq_refl) as (Hk & n & Hn & Hg & Hp). split; [done|]. exists n. split; [set_solver|]. split; [done|]. rewrite Forall_app, Forall_cons. intros (_ & _ & Hr). auto. }
  destruct (child_summary (onode_from_node l) (fun _ s => _ && _)) eqn:Bl.
  { left. destruct (L2 eq_refl eq_refl) as (Hk & n & Hn & Hg & Hp). split; [done|]. exists n. split; [set_solver|]. split; [done|]. rewrite Forall_app. intros [Hr _]. auto. }
  destruct (child_summary (onode_from_node r) (fun _ s => _ && _)) eqn:Br.
  { left. destruct (R2 eq_refl eq_refl) as (Hk & n & Hn & Hg & Hp). split; [done|]. exists n. split; [set_solver|]. split; [done|]. rewrite Forall_app, Forall_cons. intros (_ & _ & Hr). auto. }
  right. split; [done|]. rewrite Forall_app, Forall_cons. auto.
Qed.

Lemma aug_ok_found t : aug_ok augment_wr_prd_match t -> matches_ok (elements t) -> found_in t.
Proof.
  induction t as [|h l IHl x s r IHr]; [done|]. intros Ha Hok. pose proof (aug_ok_summary _ Ha (mk_seqs _ Hok)) as Hs. destruct Ha as (Hl & Hr & Es).
  cbn [elements summary_of] in Hok, Hs. apply matches_ok_app in Hok as (Kl & Kx & Kr).
  pose proof (aug_ok_summary l Hl (mk_seqs _ Kl)) as Sl. pose proof (aug_ok_summary r Hr (mk_seqs _ Kr)) as Sr. pose proof Hs as [_ (_ & HM & Hmax) _ _].
  assert (Earb : rs_arbitrary_unacked_reader s = augment_arbitrary x (rs_max_seq s) (onode_from_node l) (onode_from_node r)) by (by rewrite Es).
  cbn [found_in elements]. unfold found. rewrite Earb.
  destruct (arbitrary_cases l x r (rs_max_seq s) (IHl Hl Kl) (IHr Hr Kr) Sl Sr Kl Kx Kr) as [[Hk Hn]|[-> Hn]].
  - apply (sub_max_le _ _ _ Sl Hs). set_solver.
  - apply (sub_max_le _ _ _ Sr Hs). set_solver.
  - intros Hlt. apply Hmax; [set_solver|done].
  - done.
  - split; [done|]. intros Hf. congruence.
  - split; [done|]. done.
Qed.

(** At the root. *)
Lemma root_summary le t x s : readers_ok le t -> matches_ok (elements t) -> ut_avlRoot t = Some (x, s) -> summarizes (elements t) s /\ found (elements t) s.
Proof.
  intros [_ Ha] Hok. destruct t as [|h l y s' r]; [done|]. intros [= -> ->]. split; [by apply (aug_ok_summary (Node h l x s r) Ha), Hok|].
  by apply (aug_ok_found (Node h l x s r) Ha).
Qed.
