(* ===== verification/Xmsg.v ===== *)
(** * Outgoing messages and the queue of messages to send: [q_xmsg.c], [q_xevent.c]

    A message ([struct nn_xmsg]) is a list of submessages with a destination, of
    one remote participant or of all readers of the writer.  Of a submessage with
    data the model has the reader, the writer, the sequence number, the
    fragment, whether the parameters of the sample (inline QoS) go with it, and
    which bytes of the sample it carries; the others are those of [Protocol].
    The bytes of a message are not modelled: the size that counts for the limit
    on retransmissions is a parameter [xmsg_size].

    Of [struct xeventq] these are the messages that wait to be sent, in order,
    and the tree by which a retransmission that is already waiting is found, so
    that another request for the same data only adds its destination.  An event
    is its number; [None] is a failed assertion.  The events with a time are in
    the objects they belong to, as the time they are scheduled for. *)

From Stdlib Require Import ZArith Lia.
From stdpp Require Import prelude gmap.
From S2P Require Import Prelude OrdTree Bitset Reorder Dqueue Wire Protocol Receive.

Inductive nn_xmsg_kind : Type :=
| NN_XMSG_KIND_CONTROL
| NN_XMSG_KIND_DATA
| NN_XMSG_KIND_DATA_REXMIT.

#[global] Instance nn_xmsg_kind_eq_dec : EqDecision nn_xmsg_kind.
Proof. solve_decision. Defined.

(** [enum nn_xmsg_dstmode], with the prefix of [data->dst] for one destination. *)
Inductive nn_xmsg_dstmode : Type :=
| NN_XMSG_DST_UNSET
| NN_XMSG_DST_ONE (gp : Z * Z * Z)
| NN_XMSG_DST_ALL.

(** [Data_t] or [DataFrag_t] with the part of the sample that follows it. *)
Record xdata : Type := XData {
  xd_readerId : Z;
  xd_writerId : Z;
  xd_writerSN : sequence_number;
  xd_frag : option (Z * Z * Z * Z);     (* fragmentStartingNum, fragmentsInSubmessage, fragmentSize, sampleSize *)
  xd_params : bool;
  xd_payload : option (Z * Z);          (* offset and length in the sample *)
}.

Inductive xsubmsg : Type :=
| SmInfoTS
| SmData (d : xdata)
| SmGap (msg : Gap)
| SmHeartbeat (msg : Heartbeat)
| SmHeartbeatFrag (msg : HeartbeatFrag).

(** [kindspecific.data] is zero unless it was set. *)
Record nn_xmsg : Type := Xmsg {
  xm_kind : nn_xmsg_kind;
  xm_wrguid : nn_guid;
  xm_wrseq : Z;
  xm_wrfragid : Z;
  xm_readerId_set : bool;               (* readerId_off != 0 *)
  xm_dst : nn_xmsg_dstmode;
  xm_submsgs : list xsubmsg;
}.

(** What a message needs to know of its destination: whether [prd->c.as] has an
    address. *)
Record proxy_reader : Type := ProxyReader {
  prd_guid : nn_guid;
  prd_has_address : bool;
  prd_reliable : bool;                  (* xqos->reliability.kind is RELIABLE *)
  prd_deleting : bool;
  prd_assert_pp_lease : bool;
}.

Definition ERR_INVALID : Z := -2.
Definition ERR_OUT_OF_MEMORY : Z := -3.
Definition ERR_UNKNOWN_ENTITY : Z := -5.
Definition ERR_INVALID_DATA : Z := -7.
Definition ERR_NO_ADDRESS : Z := -9.

(** ** Messages *)

Definition nn_xmsg_new (kind : nn_xmsg_kind) : nn_xmsg :=
  Xmsg kind (NnGuid (0, 0, 0) 0) 0 0 false NN_XMSG_DST_UNSET [].

Definition submsg_is_compatible (m : nn_xmsg) (sm : xsubmsg) : bool :=
  match xm_kind m, sm with
  | NN_XMSG_KIND_CONTROL, SmData _ => false
  | NN_XMSG_KIND_CONTROL, _ => true
  | _, (SmInfoTS | SmData _) => negb (xm_readerId_set m)
  | _, _ => false
  end.

(** [nn_xmsg_append], [nn_xmsg_submsg_init] and [nn_xmsg_submsg_setnext]. *)
Definition add_submsg (m : nn_xmsg) (sm : xsubmsg) : option nn_xmsg :=
  if submsg_is_compatible m sm
  then Some (Xmsg (xm_kind m) (xm_wrguid m) (xm_wrseq m) (xm_wrfragid m) (xm_readerId_set m) (xm_dst m) (xm_submsgs m ++ [sm]))
  else None.

Definition set_dst (m : nn_xmsg) (d : nn_xmsg_dstmode) : nn_xmsg :=
  Xmsg (xm_kind m) (xm_wrguid m) (xm_wrseq m) (xm_wrfragid m) (xm_readerId_set m) d (xm_submsgs m).

Definition nn_xmsg_setdst1 (m : nn_xmsg) (gp : Z * Z * Z) : option nn_xmsg :=
  match xm_dst m with NN_XMSG_DST_UNSET => Some (set_dst m (NN_XMSG_DST_ONE gp)) | _ => None end.

(** The message, or [None] without an address: the error is a value of its own. *)
Definition nn_xmsg_setdstPRD (m : nn_xmsg) (prd : proxy_reader) : option (nn_xmsg + Z) :=
  if prd_has_address prd then m ← nn_xmsg_setdst1 m (guid_prefix (prd_guid prd)); Some (inl m) else Some (inr ERR_NO_ADDRESS).

Definition nn_xmsg_setdstN (m : nn_xmsg) : option nn_xmsg :=
  match xm_dst m with NN_XMSG_DST_ALL => None | _ => Some (set_dst m NN_XMSG_DST_ALL) end.

(** [nn_xmsg_setwriterseq_fragid]; [nn_xmsg_setwriterseq] leaves [wrfragid]. *)
Definition nn_xmsg_setwriterseq_fragid (m : nn_xmsg) (wrguid : nn_guid) (wrseq wrfragid : Z) : nn_xmsg :=
  Xmsg (xm_kind m) wrguid wrseq wrfragid (xm_readerId_set m) (xm_dst m) (xm_submsgs m).
Definition nn_xmsg_setwriterseq (m : nn_xmsg) (wrguid : nn_guid) (wrseq : Z) : nn_xmsg :=
  nn_xmsg_setwriterseq_fragid m wrguid wrseq (xm_wrfragid m).

Definition is_data (sm : xsubmsg) : bool := match sm with SmData _ => true | _ => false end.

(** [readerId] points into the data submessage. *)
Definition nn_xmsg_set_data_readerId (m : nn_xmsg) : option nn_xmsg :=
  if bool_decide (xm_kind m = NN_XMSG_KIND_DATA_REXMIT) && negb (xm_readerId_set m) && existsb is_data (xm_submsgs m)
  then Some (Xmsg (xm_kind m) (xm_wrguid m) (xm_wrseq m) (xm_wrfragid m) true (xm_dst m) (xm_submsgs m))
  else None.

Definition xd_clear_readerId (sm : xsubmsg) : xsubmsg :=
  match sm with
  | SmData d => SmData (XData NN_ENTITYID_UNKNOWN (xd_writerId d) (xd_writerSN d) (xd_frag d) (xd_params d) (xd_payload d))
  | _ => sm
  end.

Definition clear_readerId (m : nn_xmsg) : option nn_xmsg :=
  if bool_decide (xm_kind m = NN_XMSG_KIND_DATA_REXMIT) && xm_readerId_set m
  then Some (Xmsg (xm_kind m) (xm_wrguid m) (xm_wrseq m) (xm_wrfragid m) true (xm_dst m) (map xd_clear_readerId (xm_submsgs m)))
  else None.

Definition load_readerId (m : nn_xmsg) : option Z :=
  if bool_decide (xm_kind m = NN_XMSG_KIND_DATA_REXMIT) && xm_readerId_set m
  then match filter (fun sm => is_data sm = true) (xm_submsgs m) with SmData d :: _ => Some (xd_readerId d) | _ => None end
  else None.

Definition readerId_compatible (m madd : nn_xmsg) : option bool :=
  e ← load_readerId m; eadd ← load_readerId madd; Some ((e =? NN_ENTITYID_UNKNOWN) || (e =? eadd)).

(** The key by which [nn_xmsg_compare_fragid] orders retransmissions. *)
Definition xm_key (m : nn_xmsg) : nn_guid * Z * Z := (xm_wrguid m, xm_wrseq m, xm_wrfragid m).

Definition is_writer_entityid (id : Z) : bool := (Z.land id 0x3f =? 0x02) || (Z.land id 0x3f =? 0x03).

(** The assertions at the start of the function. *)
Definition mergeable (m madd : nn_xmsg) : bool :=
  (xm_wrseq m >=? 1) && negb ((guid_prefix (xm_wrguid m)).1.1 =? 0) && is_writer_entityid (guid_entityid (xm_wrguid m)) && bool_decide (xm_key m = xm_key madd) &&
  bool_decide (xm_kind m = NN_XMSG_KIND_DATA_REXMIT) && bool_decide (xm_kind madd = NN_XMSG_KIND_DATA_REXMIT) &&
  xm_readerId_set m && xm_readerId_set madd.

(** The message with the destination of [madd], or [None] inside when the writer
    is gone; [writer_alive] is whether it is in the table of writers. *)
Definition nn_xmsg_merge_rexmit_destinations_wrlock_held (writer_alive : bool) (m madd : nn_xmsg) : option (option nn_xmsg) :=
  if negb (mergeable m madd) then None else
  match xm_dst m, xm_dst madd with
  | NN_XMSG_DST_UNSET, _ => None
  | NN_XMSG_DST_ALL, _ => Some (Some m)
  | NN_XMSG_DST_ONE _, NN_XMSG_DST_UNSET => None
  | NN_XMSG_DST_ONE _, NN_XMSG_DST_ALL => m ← clear_readerId m; Some (Some (set_dst m NN_XMSG_DST_ALL))
  | NN_XMSG_DST_ONE gp, NN_XMSG_DST_ONE gpadd =>
      if decide (gp = gpadd) then
        c ← readerId_compatible m madd;
        if c : bool then Some (Some m) else m ← clear_readerId m; Some (Some m)
      else if writer_alive then m ← clear_readerId m; Some (Some (set_dst m NN_XMSG_DST_ALL))
      else Some None
  end.

(** ** The messages that wait *)

Section Queue.
Context (xmsg_size : nn_xmsg -> Z).

(** [struct xevent_nt]: the kind follows from that of the message. *)
Record xevent_nt : Type := XeventNt {
  nt_id : Z;
  nt_msg : nn_xmsg;
  nt_queued_rexmit_bytes : Z;           (* of a retransmission *)
}.

Record xeventq : Type := Xeventq {
  evq_non_timed_xmit_list : list xevent_nt;             (* the oldest first *)
  evq_msg_xevents : gmap (nn_guid * Z * Z) Z;
  evq_queued_rexmit_bytes : Z;
  evq_queued_rexmit_msgs : Z;
  evq_max_queued_rexmit_bytes : Z;
  evq_max_queued_rexmit_msgs : Z;
  evq_next_id : Z;                                      (* for new events *)
}.

Implicit Types (q : xeventq) (ev : xevent_nt).

Definition xeventq_new (max_queued_rexmit_bytes max_queued_rexmit_msgs : Z) : xeventq :=
  Xeventq [] ∅ 0 0 (if max_queued_rexmit_bytes >? 2147483648 then 2147483648 else max_queued_rexmit_bytes) max_queued_rexmit_msgs 0.

Definition is_rexmit ev : bool := bool_decide (xm_kind (nt_msg ev) = NN_XMSG_KIND_DATA_REXMIT).

(** The event that [lookup_msg] finds. *)
Definition lookup_msg q (msg : nn_xmsg) : option xevent_nt :=
  id ← evq_msg_xevents q !! xm_key msg; head (filter (fun ev => nt_id ev = id) (evq_non_timed_xmit_list q)).

(** [qxev_common_nt] and [qxev_insert_nt] with [add_to_non_timed_xmit_list]; a
    retransmission that is already in the tree fails the insertion. *)
Definition qxev_insert_nt q (msg : nn_xmsg) (bytes : Z) : option xeventq :=
  let ev := XeventNt (evq_next_id q) msg bytes in
  tree ← (if is_rexmit ev
          then match evq_msg_xevents q !! xm_key msg with
               | Some _ => None
               | None => Some (<[xm_key msg := nt_id ev]> (evq_msg_xevents q))
               end
          else Some (evq_msg_xevents q));
  Some (Xeventq (evq_non_timed_xmit_list q ++ [ev]) tree (evq_queued_rexmit_bytes q) (evq_queued_rexmit_msgs q)
          (evq_max_queued_rexmit_bytes q) (evq_max_queued_rexmit_msgs q) (evq_next_id q + 1)).

Definition qxev_msg q (msg : nn_xmsg) : option xeventq :=
  if bool_decide (xm_kind msg = NN_XMSG_KIND_DATA_REXMIT) then None else qxev_insert_nt q msg 0.

Definition set_msg q (id : Z) (msg : nn_xmsg) : xeventq :=
  Xeventq (map (fun ev => if nt_id ev =? id then XeventNt id msg (nt_queued_rexmit_bytes ev) else ev) (evq_non_timed_xmit_list q))
    (evq_msg_xevents q) (evq_queued_rexmit_bytes q) (evq_queued_rexmit_msgs q)
    (evq_max_queued_rexmit_bytes q) (evq_max_queued_rexmit_msgs q) (evq_next_id q).

(** The last two branches of [qxev_msg_rexmit_wrlock_held]. *)
Definition qxev_rexmit_new q (msg : nn_xmsg) (force : bool) : option (xeventq * Z) :=
  if ((evq_queued_rexmit_bytes q >? evq_max_queued_rexmit_bytes q) || (evq_queued_rexmit_msgs q =? evq_max_queued_rexmit_msgs q)) && negb force
  then Some (q, 0)
  else
    let q := Xeventq (evq_non_timed_xmit_list q) (evq_msg_xevents q) (evq_queued_rexmit_bytes q + xmsg_size msg) (evq_queued_rexmit_msgs q + 1)
               (evq_max_queued_rexmit_bytes q) (evq_max_queued_rexmit_msgs q) (evq_next_id q) in
    q ← qxev_insert_nt q msg (xmsg_size msg);
    Some (q, 2).

Definition qxev_msg_rexmit_wrlock_held (writer_alive : bool) q (msg : nn_xmsg) (force : bool) : option (xeventq * Z) :=
  if negb (bool_decide (xm_kind msg = NN_XMSG_KIND_DATA_REXMIT)) then None else
  match evq_msg_xevents q !! xm_key msg with
  | None => qxev_rexmit_new q msg force
  | Some _ =>
      ev ← lookup_msg q msg;
      merged ← nn_xmsg_merge_rexmit_destinations_wrlock_held writer_alive (nt_msg ev) msg;
      match merged with
      | Some m => Some (set_msg q (nt_id ev) m, 1)
      | None => qxev_rexmit_new q msg force
      end
  end.

(** [getnext_from_non_timed_xmit_list]: the oldest one. *)
Definition getnext_from_non_timed_xmit_list q : option (xeventq * option xevent_nt) :=
  match evq_non_timed_xmit_list q with
  | [] => Some (q, None)
  | ev :: l =>
      let rest t := Xeventq l t (evq_queued_rexmit_bytes q) (evq_queued_rexmit_msgs q)
                      (evq_max_queued_rexmit_bytes q) (evq_max_queued_rexmit_msgs q) (evq_next_id q) in
      if is_rexmit ev
      then if bool_decide (evq_msg_xevents q !! xm_key (nt_msg ev) = Some (nt_id ev))
           then Some (rest (delete (xm_key (nt_msg ev)) (evq_msg_xevents q)), Some ev)
           else None
      else Some (rest (evq_msg_xevents q), Some ev)
  end.

Definition update_rexmit_counts q ev : option xeventq :=
  if is_rexmit ev && (nt_queued_rexmit_bytes ev <=? evq_queued_rexmit_bytes q) && (evq_queued_rexmit_msgs q >? 0)
  then Some (Xeventq (evq_non_timed_xmit_list q) (evq_msg_xevents q) (evq_queued_rexmit_bytes q - nt_queued_rexmit_bytes ev)
               (evq_queued_rexmit_msgs q - 1) (evq_max_queued_rexmit_bytes q) (evq_max_queued_rexmit_msgs q) (evq_next_id q))
  else None.

(** [handle_nontimed_xevent]: what it hands to [nn_xpack_addmsg], after the
    event was taken off the queue. *)
Definition handle_individual_xevent_nt q ev : option (xeventq * nn_xmsg) :=
  if is_rexmit ev then q ← update_rexmit_counts q ev; Some (q, nt_msg ev) else Some (q, nt_msg ev).

(** [xeventq_free]: the events that are freed. *)
Fixpoint free_nontimed (fuel : nat) q : option (xeventq * list xevent_nt) :=
  '(q, ev) ← getnext_from_non_timed_xmit_list q;
  match ev with
  | None => Some (q, [])
  | Some ev =>
      match fuel with
      | O => None
      | S fuel' =>
          q ← (if is_rexmit ev then update_rexmit_counts q ev else Some q);
          '(q, l) ← free_nontimed fuel' q;
          Some (q, ev :: l)
      end
  end.
Definition xeventq_free q : option (list xevent_nt) :=
  '(q, l) ← free_nontimed (length (evq_non_timed_xmit_list q)) q;
  if bool_decide (evq_msg_xevents q = ∅) then Some l else None.
End Queue.
