(* ===== verification/XmsgFacts.v ===== *)
(** * The queue of messages: invariant and what its operations do *)

From Stdlib Require Import ZArith Lia.
From stdpp Require Import prelude gmap.
From S2P Require Import Prelude OrdTree Bitset Reorder Dqueue Wire Protocol Receive Xmsg.

(** The reader a retransmission is for. *)
Definition data_readerId (m : nn_xmsg) : option Z :=
  match filter (fun sm => is_data sm = true) (xm_submsgs m) with SmData d :: _ => Some (xd_readerId d) | _ => None end.

(** A retransmission as [create_fragment_message] makes it. *)
Record rexmit_ok (m : nn_xmsg) : Prop := {
  ro_kind : xm_kind m = NN_XMSG_KIND_DATA_REXMIT;
  ro_seq : 1 <= xm_wrseq m;
  ro_prefix : (guid_prefix (xm_wrguid m)).1.1 <> 0;
  ro_writer : is_writer_entityid (guid_entityid (xm_wrguid m)) = true;
  ro_readerId_set : xm_readerId_set m = true;
  ro_dst : xm_dst m <> NN_XMSG_DST_UNSET;
  ro_readerId : is_Some (data_readerId m);
  ro_all : xm_dst m = NN_XMSG_DST_ALL -> data_readerId m = Some NN_ENTITYID_UNKNOWN;
}.

(** [m'] reaches every reader that [m] is for. *)
Definition reaches_all (m' m : nn_xmsg) : Prop :=
  (xm_dst m' = NN_XMSG_DST_ALL \/ xm_dst m' = xm_dst m) /\ (data_readerId m' = Some NN_ENTITYID_UNKNOWN \/ data_readerId m' = data_readerId m).

Lemma reaches_all_refl m : reaches_all m m.
Proof. split; auto. Qed.

Lemma load_readerId_ok m : rexmit_ok m -> load_readerId m = data_readerId m.
Proof. intros [R1 _ _ _ R5 _ _ _]. unfold load_readerId. by rewrite R1, R5. Qed.

Lemma data_readerId_clear m m' : xm_submsgs m' = map xd_clear_readerId (xm_submsgs m) -> is_Some (data_readerId m) -> data_readerId m' = Some NN_ENTITYID_UNKNOWN.
Proof.
  intros E. unfold data_readerId. rewrite E. clear E m'. induction (xm_submsgs m) as [|sm l IH]; [by intros [? ?]|]. destruct sm; simpl; try exact IH.
  intros _. done.
Qed.

(** [m] with the destination of [madd] as well. *)
Record merged (m madd m' : nn_xmsg) : Prop := {
  me_ok : rexmit_ok m';
  me_key : xm_key m' = xm_key m;
  me_old : reaches_all m' m;
  me_new : reaches_all m' madd;
}.

Lemma clear_readerId_ok m : rexmit_ok m -> exists m', clear_readerId m = Some m' /\ data_readerId m' = Some NN_ENTITYID_UNKNOWN /\ xm_dst m' = xm_dst m /\ xm_key m' = xm_key m /\ rexmit_ok m'.
Proof.
  intros [R1 R2 R3 R4 R5 R6 R7 R8]. unfold clear_readerId. rewrite R1, R5. simpl. eexists. split; [done|]. assert (E : data_readerId
    (Xmsg NN_XMSG_KIND_DATA_REXMIT (xm_wrguid m) (xm_wrseq m) (xm_wrfragid m) true (xm_dst m) (map xd_clear_readerId (xm_submsgs m))) = Some NN_ENTITYID_UNKNOWN)
    by (by apply (data_readerId_clear m)). split; [exact E|]. split; [done|]. split; [done|]. split; simpl; try done.
Qed.

Lemma set_dst_all_ok m : rexmit_ok m -> data_readerId m = Some NN_ENTITYID_UNKNOWN -> rexmit_ok (set_dst m NN_XMSG_DST_ALL) /\ data_readerId (set_dst m NN_XMSG_DST_ALL) = data_readerId m.
Proof. intros [R1 R2 R3 R4 R5 R6 R7 R8] E. split; [|done]. split; simpl; done. Qed.

Lemma merge_ok alive m madd : rexmit_ok m -> rexmit_ok madd -> xm_key m = xm_key madd ->
  match nn_xmsg_merge_rexmit_destinations_wrlock_held alive m madd with
  | None => False
  | Some None => alive = false
  | Some (Some m') => merged m madd m'
  end.
Proof.
  intros Hm Ha Hk. unfold nn_xmsg_merge_rexmit_destinations_wrlock_held. assert (Hmg : mergeable m madd = true).
  { unfold mergeable. destruct Hm as [R1 R2 R3 R4 R5 R6 R7 R8], Ha as [A1 A2 A3 A4 A5 A6 A7 A8]. rewrite R1, R4, R5, A1, A5, Hk, !bool_decide_true by done. simpl.
    rewrite !andb_true_r. apply andb_true_iff. split; [lia|]. apply negb_true_iff. lia. }
  rewrite Hmg. cbn [negb]. destruct (clear_readerId_ok m Hm) as (m1 & E1 & D1 & T1 & K1 & O1). destruct (set_dst_all_ok m1 O1 D1) as [O2 D2]. rewrite D1 in D2.
  assert (Hall : merged m madd (set_dst m1 NN_XMSG_DST_ALL)) by (split; [done|done| |]; (split; [by left|by left])).
  destruct (xm_dst m) as [|gp|] eqn:Em.
  - by destruct (ro_dst _ Hm).
  - destruct (xm_dst madd) as [|gpa|] eqn:Ea.
    + by destruct (ro_dst _ Ha).
    + destruct (decide (gp = gpa)) as [->|Hne].
      * unfold readerId_compatible. rewrite !load_readerId_ok by done. destruct (ro_readerId _ Hm) as [e Ee], (ro_readerId _ Ha) as [ea Eea]. rewrite Ee, Eea. cbn [mbind option_bind].
        destruct ((e =? NN_ENTITYID_UNKNOWN) || (e =? ea)) eqn:Ec.
        -- split; [done|done|apply reaches_all_refl|]. split; [right; congruence|]. apply orb_true_iff in Ec as [Ec|Ec]; apply Z.eqb_eq in Ec; subst; [by left|right; congruence].
        -- rewrite E1. simpl. split; [done|done| |]; (split; [right; congruence|by left]).
      * destruct alive; [|done]. by rewrite E1.
    + by rewrite E1.
  - split; [done|done|apply reaches_all_refl|]. split; [by left|]. left. by apply (ro_all _ Hm).
Qed.

(** ** The invariant *)

Section Queue.
Context (xmsg_size : nn_xmsg -> Z) (Hsize : forall m, 0 <= xmsg_size m).
Implicit Types (q : xeventq) (ev : xevent_nt) (fl : list xevent_nt).

Definition rexmits (l : list xevent_nt) : list xevent_nt := filter (fun ev => is_rexmit ev = true) l.
Definition bytes_of (l : list xevent_nt) : Z := foldr (fun ev n => nt_queued_rexmit_bytes ev + n) 0 (rexmits l).
Definition count_of (l : list xevent_nt) : Z := Z.of_nat (length (rexmits l)).

(** [fl] are the events that were taken off the list and not yet counted off. *)
Record evq_ok fl q : Prop := {
  eo_ids : NoDup (map nt_id (evq_non_timed_xmit_list q));
  eo_next : Forall (fun ev => nt_id ev < evq_next_id q) (evq_non_timed_xmit_list q);
  eo_tree : forall k id, evq_msg_xevents q !! k = Some id <->
              exists ev, ev ∈ evq_non_timed_xmit_list q /\ is_rexmit ev = true /\ nt_id ev = id /\ xm_key (nt_msg ev) = k;
  eo_rexmit : Forall (fun ev => is_rexmit ev = true -> rexmit_ok (nt_msg ev) /\ 0 <= nt_queued_rexmit_bytes ev) (evq_non_timed_xmit_list q ++ fl);
  eo_bytes : evq_queued_rexmit_bytes q = bytes_of (evq_non_timed_xmit_list q ++ fl);
  eo_msgs : evq_queued_rexmit_msgs q = count_of (evq_non_timed_xmit_list q ++ fl);
}.

Lemma bytes_of_app l1 l2 : bytes_of (l1 ++ l2) = bytes_of l1 + bytes_of l2.
Proof. unfold bytes_of, rexmits. rewrite filter_app. induction (filter _ l1) as [|ev l IH]; simpl; lia. Qed.
Lemma count_of_app l1 l2 : count_of (l1 ++ l2) = count_of l1 + count_of l2.
Proof. unfold count_of, rexmits. rewrite filter_app, length_app. lia. Qed.
Lemma bytes_of_one ev : bytes_of [ev] = if is_rexmit ev then nt_queued_rexmit_bytes ev else 0.
Proof. unfold bytes_of, rexmits. destruct (is_rexmit ev) eqn:E; [rewrite filter_cons_True by done|rewrite filter_cons_False by congruence]; simpl; lia. Qed.
Lemma count_of_one ev : count_of [ev] = if is_rexmit ev then 1 else 0.
Proof. unfold count_of, rexmits. destruct (is_rexmit ev) eqn:E; [rewrite filter_cons_True by done|rewrite filter_cons_False by congruence]; done. Qed.

Lemma evq_new_ok b n : evq_ok [] (xeventq_new b n).
Proof.
  split; simpl; [constructor|constructor| |constructor|done|done]. intros k id. rewrite lookup_empty. split; [done|]. intros (ev & Hev & _). by apply elem_of_nil in Hev.
Qed.

(** A new event at the end of the list. *)
Lemma insert_nt_ok fl q msg b : evq_ok fl q -> (xm_kind msg = NN_XMSG_KIND_DATA_REXMIT -> rexmit_ok msg /\ 0 <= b /\ evq_msg_xevents q !! xm_key msg = None) ->
  let ev := XeventNt (evq_next_id q) msg b in
  exists q', qxev_insert_nt q msg b = Some q' /\ evq_non_timed_xmit_list q' = evq_non_timed_xmit_list q ++ [ev] /\
    evq_queued_rexmit_bytes q' = evq_queued_rexmit_bytes q /\ evq_queued_rexmit_msgs q' = evq_queued_rexmit_msgs q /\
    evq_max_queued_rexmit_bytes q' = evq_max_queued_rexmit_bytes q /\ evq_max_queued_rexmit_msgs q' = evq_max_queued_rexmit_msgs q /\
    forall q'', evq_non_timed_xmit_list q'' = evq_non_timed_xmit_list q' -> evq_msg_xevents q'' = evq_msg_xevents q' -> evq_next_id q'' = evq_next_id q' ->
      evq_queued_rexmit_bytes q'' = evq_queued_rexmit_bytes q + bytes_of [ev] -> evq_queued_rexmit_msgs q'' = evq_queued_rexmit_msgs q + count_of [ev] -> evq_ok fl q''.
Proof.
  intros [I1 I2 I3 I4 I5 I6] Hr ev. unfold qxev_insert_nt. fold ev.
  assert (Hb : exists t, (if is_rexmit ev then match evq_msg_xevents q !! xm_key msg with Some _ => None | None => Some (<[xm_key msg:=nt_id ev]> (evq_msg_xevents q)) end
      else Some (evq_msg_xevents q)) = Some t /\ forall k id, t !! k = Some id <-> exists e, e ∈ evq_non_timed_xmit_list q ++ [ev] /\ is_rexmit e = true /\ nt_id e = id /\ xm_key (nt_msg e) = k).
  { destruct (is_rexmit ev) eqn:E.
    - unfold is_rexmit in E. apply bool_decide_eq_true in E. destruct (Hr E) as (_ & _ & HN). rewrite HN. eexists. split; [done|]. intros k id. rewrite lookup_insert_Some. split.
      + intros [[<- <-]|[Hne Hk]]; [exists ev; repeat split; [set_solver|unfold is_rexmit; by rewrite bool_decide_true]|]. apply I3 in Hk as (e & He & ?). exists e. split; [set_solver|done].
      + intros (e & He & E1 & E2 & E3). apply elem_of_app in He as [He|He%list_elem_of_singleton]; [|subst e; left; by split].
        right. assert (Hk : evq_msg_xevents q !! k = Some id) by (apply I3; eauto). split; [|done]. intros E4. rewrite E4 in HN. congruence.
    - eexists. split; [done|]. intros k id. rewrite I3. split; [intros (e & He & ?); exists e; split; [set_solver|done]|].
      intros (e & He & E1 & E2). apply elem_of_app in He as [He|He%list_elem_of_singleton]; [eauto|]. subst e. congruence. }
  destruct Hb as (t & -> & Ht). cbn [mbind option_bind]. eexists. split; [done|]. do 5 (split; [done|]). intros q'' E1 E2 E3 E4 E5. simpl in E1, E2, E3.
  split; rewrite ?E1, ?E2, ?E3.
  - rewrite map_app. apply NoDup_app. split; [done|]. split; [|simpl; apply NoDup_singleton]. intros id Hid Hid'%list_elem_of_singleton. simpl in Hid'. subst id.
    apply list_elem_of_fmap in Hid as (e & Ee & He). rewrite Forall_forall in I2. specialize (I2 e He). lia.
  - apply Forall_app. split; [eapply Forall_impl; [exact I2|]; simpl; lia|]. constructor; [simpl; lia|constructor].
  - exact Ht.
  - rewrite Forall_app in I4. rewrite !Forall_app. split; [split; [tauto|]|tauto]. constructor; [|constructor]. intros E. apply bool_decide_eq_true in E. simpl in *. destruct (Hr E) as (? & ? & _). done.
  - rewrite E4, I5, !bytes_of_app. lia.
  - rewrite E5, I6, !count_of_app. lia.
Qed.
Lemma qxev_msg_ok fl q msg : evq_ok fl q -> xm_kind msg <> NN_XMSG_KIND_DATA_REXMIT ->
  exists q', qxev_msg q msg = Some q' /\ evq_ok fl q' /\ evq_non_timed_xmit_list q' = evq_non_timed_xmit_list q ++ [XeventNt (evq_next_id q) msg 0].
Proof.
  intros Hok Hk. unfold qxev_msg. rewrite bool_decide_false by done. destruct (insert_nt_ok fl q msg 0 Hok) as (q' & E & El & Eb & Em & _ & _ & H); [done|].
  exists q'. split; [done|]. split; [|done]. apply H; try done; [rewrite bytes_of_one|rewrite count_of_one]; unfold is_rexmit; simpl; rewrite bool_decide_false by done; lia.
Qed.

(** What [qxev_msg_rexmit_wrlock_held] does with a retransmission. *)
Inductive rexmit_result q (msg : nn_xmsg) : xeventq -> Z -> Prop :=
| RexmitDropped : evq_max_queued_rexmit_bytes q < evq_queued_rexmit_bytes q \/ evq_queued_rexmit_msgs q = evq_max_queued_rexmit_msgs q -> rexmit_result q msg q 0
| RexmitMerged q' l1 ev m' l2 : evq_non_timed_xmit_list q = l1 ++ ev :: l2 ->
    evq_non_timed_xmit_list q' = l1 ++ XeventNt (nt_id ev) m' (nt_queued_rexmit_bytes ev) :: l2 -> merged (nt_msg ev) msg m' ->
    xm_key (nt_msg ev) = xm_key msg -> rexmit_result q msg q' 1
| RexmitQueued q' : evq_non_timed_xmit_list q' = evq_non_timed_xmit_list q ++ [XeventNt (evq_next_id q) msg (xmsg_size msg)] -> rexmit_result q msg q' 2.

Lemma rexmit_new_ok fl q msg force : evq_ok fl q -> rexmit_ok msg -> evq_msg_xevents q !! xm_key msg = None ->
  exists q' r, qxev_rexmit_new xmsg_size q msg force = Some (q', r) /\ evq_ok fl q' /\ rexmit_result q msg q' r.
Proof.
  intros Hok Hm HN. unfold qxev_rexmit_new. destruct (((_ >? _) || _) && _) eqn:Ef.
  - exists q, 0. split; [done|]. split; [done|]. constructor. apply andb_true_iff in Ef as [Ef _]. apply orb_true_iff in Ef as [Ef|Ef]; [left|right]; lia.
  - destruct (insert_nt_ok fl q msg (xmsg_size msg) Hok) as (q' & E & El & _ & _ & _ & _ & H); [intros _; auto|]. unfold qxev_insert_nt in *. cbn [evq_next_id evq_msg_xevents evq_non_timed_xmit_list] in *.
    destruct (if is_rexmit _ then _ else _) as [t|]; [|done]. cbn [mbind option_bind] in *. injection E as <-. eexists _, _. split; [done|].
    assert (Hr : is_rexmit (XeventNt (evq_next_id q) msg (xmsg_size msg)) = true) by (unfold is_rexmit; simpl; rewrite (ro_kind _ Hm); by rewrite bool_decide_true).
    split; [apply H; simpl; try done; [by rewrite bytes_of_one, Hr|by rewrite count_of_one, Hr]|]. by constructor.
Qed.

Lemma list_find_id (l : list xevent_nt) ev : NoDup (map nt_id l) -> ev ∈ l -> filter (fun e => nt_id e = nt_id ev) l = [ev].
Proof.
  induction l as [|e l IH]; intros HN Hev; [by apply elem_of_nil in Hev|]. simpl in HN. apply NoDup_cons in HN as [Hn HN]. apply elem_of_cons in Hev as [<-|Hev].
  - rewrite filter_cons_True by done. f_equal. clear IH HN. induction l as [|e l IH]; [done|]. simpl in Hn. rewrite filter_cons_False by (intros E; apply Hn; rewrite E; by left).
    apply IH. intros H. apply Hn. by right.
  - rewrite filter_cons_False; [by apply IH|]. intros E. apply Hn. rewrite E. by apply list_elem_of_fmap_2.
Qed.

Lemma lookup_msg_ok fl q msg id : evq_ok fl q -> evq_msg_xevents q !! xm_key msg = Some id ->
  exists l1 ev l2, evq_non_timed_xmit_list q = l1 ++ ev :: l2 /\ lookup_msg q msg = Some ev /\ nt_id ev = id /\ is_rexmit ev = true /\ xm_key (nt_msg ev) = xm_key msg.
Proof.
  intros [I1 I2 I3 I4 I5 I6] Hid. pose proof Hid as Hid'. apply I3 in Hid' as (ev & Hev & Hr & <- & Hk). destruct (list_elem_of_split _ _ Hev) as (l1 & l2 & E).
  exists l1, ev, l2. split; [done|]. split; [|done]. unfold lookup_msg. rewrite Hid. cbn [mbind option_bind]. by rewrite (list_find_id _ ev).
Qed.

(** Another message with the same key in the place of one. *)
Lemma set_msg_ok fl q l1 ev l2 m' : evq_ok fl q -> evq_non_timed_xmit_list q = l1 ++ ev :: l2 -> is_rexmit ev = true -> rexmit_ok m' -> xm_key m' = xm_key (nt_msg ev) ->
  evq_non_timed_xmit_list (set_msg q (nt_id ev) m') = l1 ++ XeventNt (nt_id ev) m' (nt_queued_rexmit_bytes ev) :: l2 /\ evq_ok fl (set_msg q (nt_id ev) m').
Proof.
  intros [I1 I2 I3 I4 I5 I6] El Hr Hm Hk. set (ev' := XeventNt (nt_id ev) m' (nt_queued_rexmit_bytes ev)).
  assert (Hr' : is_rexmit ev' = true) by (unfold is_rexmit; simpl; rewrite (ro_kind _ Hm); by rewrite bool_decide_true).
  assert (El' : evq_non_timed_xmit_list (set_msg q (nt_id ev) m') = l1 ++ ev' :: l2).
  { simpl. rewrite El in *. rewrite map_app in I1. simpl in I1. apply NoDup_app in I1 as (_ & N1 & N2). apply NoDup_cons in N2 as [N2 _]. rewrite map_app. simpl. rewrite Z.eqb_refl.
    assert (Hid : forall l, nt_id ev ∉ map nt_id l -> map (fun e => if nt_id e =? nt_id ev then XeventNt (nt_id ev) m' (nt_queued_rexmit_bytes e) else e) l = l).
    { induction l as [|e l IH]; [done|]. simpl. rewrite not_elem_of_cons. intros [A B]. rewrite (proj2 (Z.eqb_neq _ _)) by done. by rewrite IH. }
    rewrite !Hid; [done|done|]. intros Hin. apply (N1 _ Hin). by left. }
  split; [done|]. rewrite El in *. split; rewrite ?El'.
  - rewrite map_app in *. exact I1.
  - rewrite Forall_app, Forall_cons in *. exact I2.
  - intros k id. simpl evq_msg_xevents. rewrite I3. split; intros (e & He & H1 & H2 & H3).
    + rewrite elem_of_app, elem_of_cons in He. destruct He as [He|[->|He]]; [exists e; set_solver| |exists e; set_solver]. exists ev'. split; [set_solver|]. split; [done|]. simpl. split; [done|congruence].
    + rewrite elem_of_app, elem_of_cons in He. destruct He as [He|[->|He]]; [exists e; set_solver| |exists e; set_solver]. exists ev. split; [set_solver|]. split; [done|]. simpl in *. split; [done|congruence].
  - rewrite <- app_assoc in *. simpl in *. rewrite Forall_app, Forall_cons in *. destruct I4 as (A & B & C). split; [done|]. split; [|done]. intros _. split; [done|]. by apply B.
  - simpl evq_queued_rexmit_bytes. rewrite I5, !bytes_of_app. f_equal. f_equal. change (ev :: l2) with ([ev] ++ l2). change (ev' :: l2) with ([ev'] ++ l2). rewrite !bytes_of_app, !bytes_of_one, Hr, Hr'. done.
  - simpl evq_queued_rexmit_msgs. rewrite I6, !count_of_app. f_equal. f_equal. change (ev :: l2) with ([ev] ++ l2). change (ev' :: l2) with ([ev'] ++ l2). rewrite !count_of_app, !count_of_one, Hr, Hr'. done.
Qed.

Lemma qxev_rexmit_ok fl q msg force : evq_ok fl q -> rexmit_ok msg ->
  exists q' r, qxev_msg_rexmit_wrlock_held xmsg_size true q msg force = Some (q', r) /\ evq_ok fl q' /\ rexmit_result q msg q' r.
Proof.
  intros Hok Hm. unfold qxev_msg_rexmit_wrlock_held. rewrite bool_decide_true by apply Hm. cbn [negb]. destruct (evq_msg_xevents q !! xm_key msg) as [id|] eqn:E; [|by apply rexmit_new_ok].
  destruct (lookup_msg_ok fl q msg id Hok E) as (l1 & ev & l2 & El & -> & <- & Hr & Hk). cbn [mbind option_bind].
  assert (Hev : rexmit_ok (nt_msg ev)). { pose proof (eo_rexmit _ _ Hok) as H. rewrite El, Forall_app, Forall_app, Forall_cons in H. by apply H. }
  pose proof (merge_ok true (nt_msg ev) msg Hev Hm Hk) as H. destruct (nn_xmsg_merge_rexmit_destinations_wrlock_held true (nt_msg ev) msg) as [[m'|]|]; [|done|done].
  cbn [mbind option_bind]. eexists _, _. split; [done|]. destruct (set_msg_ok fl q l1 ev l2 m' Hok El Hr (me_ok _ _ _ H)) as [El' Hok']; [apply H|]. split; [done|]. by econstructor.
Qed.

(** [q] holds a retransmission that reaches every reader [msg] is for. *)
Definition queued q (msg : nn_xmsg) : Prop := exists ev, ev ∈ evq_non_timed_xmit_list q /\ is_rexmit ev = true /\ xm_key (nt_msg ev) = xm_key msg /\ reaches_all (nt_msg ev) msg.
(** What was queued still is. *)
Definition keeps_queued q q' : Prop := forall msg, queued q msg -> queued q' msg.

Lemma keeps_queued_app q q' l : evq_non_timed_xmit_list q' = evq_non_timed_xmit_list q ++ l -> keeps_queued q q'.
Proof. intros E msg (ev & Hev & H). exists ev. split; [rewrite E; apply elem_of_app; by left|done]. Qed.

Lemma reaches_all_trans m1 m2 m3 : reaches_all m1 m2 -> reaches_all m2 m3 -> reaches_all m1 m3.
Proof. intros [A B] [C D]. split; [destruct A as [A|A]; [by left|by rewrite A]|destruct B as [B|B]; [by left|by rewrite B]]. Qed.

Lemma rexmit_result_queued q msg q' r : rexmit_ok msg -> rexmit_result q msg q' r -> keeps_queued q q' /\ (r <> 0 -> queued q' msg).
Proof.
  intros Hm. destruct 1 as [_|q' l1 ev m' l2 E E' [M1 M2 M3 M4] Hkey|q' E'].
  - split; [by intros m|done].
  - set (ev' := XeventNt (nt_id ev) m' (nt_queued_rexmit_bytes ev)) in *. assert (Hin : ev' ∈ evq_non_timed_xmit_list q') by (rewrite E'; set_solver).
    assert (Hr : is_rexmit ev' = true) by (unfold is_rexmit; simpl; rewrite (ro_kind _ M1); by rewrite bool_decide_true). split.
    + intros m (e & He & Hre & Hk & Hra). rewrite E in He. assert (e = ev \/ e ∈ l1 ++ l2) as [->|He'] by set_solver.
      * exists ev'. split; [done|]. split; [done|]. simpl. split; [congruence|]. by apply (reaches_all_trans _ (nt_msg ev)).
      * exists e. split; [rewrite E'; set_solver|done].
    + intros _. exists ev'. split; [done|]. split; [done|]. split; [|done]. simpl. congruence.
  - split; [by eapply keeps_queued_app|]. intros _. eexists. split; [rewrite E'; apply elem_of_app; right; by apply list_elem_of_singleton|]. unfold is_rexmit. simpl. rewrite (ro_kind _ Hm), bool_decide_true by done. split; [done|]. split; [done|apply reaches_all_refl].
Qed.

Lemma getnext_ok fl q : evq_ok fl q -> match evq_non_timed_xmit_list q with
  | [] => getnext_from_non_timed_xmit_list q = Some (q, None)
  | ev :: l => exists q', getnext_from_non_timed_xmit_list q = Some (q', Some ev) /\ evq_non_timed_xmit_list q' = l /\ evq_ok (ev :: fl) q'
  end.
Proof.
  intros Hok. destruct (evq_non_timed_xmit_list q) as [|ev l] eqn:El; unfold getnext_from_non_timed_xmit_list; rewrite El; [done|].
  destruct Hok as [I1 I2 I3 I4 I5 I6]. rewrite El in *. simpl in I1. apply NoDup_cons in I1 as [Hn I1]. apply Forall_cons in I2 as [_ I2].
  assert (H4 : Forall (fun ev => is_rexmit ev = true -> rexmit_ok (nt_msg ev) /\ 0 <= nt_queued_rexmit_bytes ev) (l ++ ev :: fl)).
  { simpl in I4. apply Forall_cons in I4 as [A B]. rewrite Forall_app, Forall_cons in *. tauto. }
  assert (H5 : bytes_of ((ev :: l) ++ fl) = bytes_of (l ++ ev :: fl)).
  { change (ev :: l) with ([ev] ++ l). change (ev :: fl) with ([ev] ++ fl). rewrite !bytes_of_app. lia. }
  assert (H6 : count_of ((ev :: l) ++ fl) = count_of (l ++ ev :: fl)).
  { change (ev :: l) with ([ev] ++ l). change (ev :: fl) with ([ev] ++ fl). rewrite !count_of_app. lia. }
  destruct (is_rexmit ev) eqn:Hr.
  - assert (Hid : evq_msg_xevents q !! xm_key (nt_msg ev) = Some (nt_id ev)) by (apply I3; exists ev; split; [by left|done]).
    rewrite bool_decide_true by done. eexists. split; [done|]. split; [done|]. split; simpl; try done; try congruence.
    intros k id. rewrite lookup_delete_Some, I3. split.
    + intros (Hne & e & He & E1 & E2 & E3). apply elem_of_cons in He as [E4|He]; [destruct Hne; congruence|eauto].
    + intros (e & He & E1 & E2 & E3). split; [|exists e; split; [by right|done]]. intros Ek. rewrite Ek in Hid.
      assert (Hid2 : evq_msg_xevents q !! k = Some (nt_id e)) by (apply I3; exists e; split; [by right|done]). rewrite Hid in Hid2. injection Hid2 as Hid2.
      apply Hn. rewrite Hid2. by apply list_elem_of_fmap_2.
  - eexists. split; [done|]. split; [done|]. split; simpl; try done; try congruence. intros k id. rewrite I3. split; intros (e & He & ?); [|exists e; split; [by right|done]].
    apply elem_of_cons in He as [->|He]; [|eauto]. destruct H as (H1 & _). congruence.
Qed.

Lemma bytes_of_pos l : Forall (fun ev => is_rexmit ev = true -> rexmit_ok (nt_msg ev) /\ 0 <= nt_queued_rexmit_bytes ev) l -> 0 <= bytes_of l.
Proof.
  induction 1 as [|ev l Hev Hl IH]; [done|]. change (ev :: l) with ([ev] ++ l). rewrite bytes_of_app, bytes_of_one. destruct (is_rexmit ev); [destruct (Hev eq_refl)|]; lia.
Qed.

Lemma handle_nt_ok fl q ev : evq_ok (ev :: fl) q -> exists q', handle_individual_xevent_nt q ev = Some (q', nt_msg ev) /\ evq_ok fl q' /\
  evq_non_timed_xmit_list q' = evq_non_timed_xmit_list q.
Proof.
  intros [I1 I2 I3 I4 I5 I6]. unfold handle_individual_xevent_nt. change (ev :: fl) with ([ev] ++ fl) in *. rewrite !bytes_of_app, bytes_of_one in I5. rewrite !count_of_app, count_of_one in I6.
  rewrite !Forall_app, Forall_singleton in I4. destruct I4 as (F1 & F2 & F3). destruct (is_rexmit ev) eqn:Hr.
  - destruct (F2 eq_refl) as [_ Hb]. pose proof (bytes_of_pos _ F1). pose proof (bytes_of_pos _ F3). unfold update_rexmit_counts. rewrite Hr.
    assert (0 <= count_of (evq_non_timed_xmit_list q) /\ 0 <= count_of fl) as [? ?] by (unfold count_of; lia).
    rewrite (proj2 (Z.leb_le _ _)) by lia. rewrite Z.gtb_ltb, (proj2 (Z.ltb_lt _ _)) by lia. simpl. eexists. split; [done|]. split; [|done].
    split; simpl; try done; [by rewrite Forall_app|rewrite bytes_of_app; lia|rewrite count_of_app; lia].
  - exists q. split; [done|]. split; [|done]. split; try done; [by rewrite Forall_app|rewrite bytes_of_app; lia|rewrite count_of_app; lia].
Qed.

Lemma free_nontimed_ok n q : evq_ok [] q -> (length (evq_non_timed_xmit_list q) <= n)%nat -> exists q', free_nontimed n q = Some (q', evq_non_timed_xmit_list q) /\
  evq_non_timed_xmit_list q' = [] /\ evq_ok [] q'.
Proof.
  revert q. induction n as [|n IH]; intros q Hok Hn; pose proof (getnext_ok [] q Hok) as Hg; destruct (evq_non_timed_xmit_list q) as [|ev l] eqn:El; simpl in Hn; try lia;
    cbn [free_nontimed]; try (rewrite Hg; cbn [mbind option_bind]; eexists; split; [done|]; split; done).
  destruct Hg as (q1 & -> & El1 & Hok1). cbn [mbind option_bind]. destruct (handle_nt_ok [] q1 ev Hok1) as (q2 & E2 & Hok2 & El2). unfold handle_individual_xevent_nt in E2.
  assert (E3 : (if is_rexmit ev then update_rexmit_counts q1 ev else Some q1) = Some q2). { destruct (is_rexmit ev); [|congruence]. destruct (update_rexmit_counts q1 ev); simpl in *; congruence. }
  rewrite E3. cbn [mbind option_bind]. destruct (IH q2 Hok2) as (q3 & -> & El3 & Hok3); [rewrite El2, El1; lia|]. cbn [mbind option_bind]. exists q3. rewrite El2, El1. done.
Qed.

Lemma xeventq_free_ok q : evq_ok [] q -> xeventq_free q = Some (evq_non_timed_xmit_list q).
Proof.
  intros Hok. unfold xeventq_free. destruct (free_nontimed_ok _ q Hok (le_n _)) as (q' & -> & El & Hok'). cbn [mbind option_bind]. rewrite bool_decide_true; [done|].
  apply map_eq. intros k. rewrite lookup_empty. destruct (evq_msg_xevents q' !! k) as [id|] eqn:E; [|done]. apply (eo_tree _ _ Hok') in E as (ev & Hev & _). rewrite El in Hev. by apply elem_of_nil in Hev.
Qed.
End Queue.
