(* ===== verification/Writer.v ===== *)
(** * Writers: [q_entity.c], [q_transmit.c], [q_receive.c], [q_xevent.c]

    A writer numbers the samples it writes, keeps them in its history cache while
    a reader may need them, sends them, tells its readers with heartbeats what it
    has, and answers their ACKNACKs and NACKFRAGs with retransmissions and gaps.

    [struct writer] is a record of records; the lock of the writer is held during
    the functions modelled here, and where the code gives it up a function is cut
    in two.  [wx] is a writer with the queue of messages and a list of what else
    the code does ([woutput]).  Times are arguments ([now_mt], [now_et]); the
    heartbeat event of a writer is the time it is scheduled for.  Addresses,
    tracing, latency estimates and the parameters that mark coherent sets are
    left out.  [None] is a failed assertion. *)

From Stdlib Require Import ZArith Lia.
From stdpp Require Import prelude gmap.
From S2P Require Import Prelude OrdTree Avl Bitset Reorder Dqueue Time Wire Protocol Receive Whc WrReaders Xmsg.

Inductive retransmit_merging_kind : Type :=
| REXMIT_MERGE_NEVER
| REXMIT_MERGE_ADAPTIVE
| REXMIT_MERGE_ALWAYS.

#[global] Instance retransmit_merging_eq_dec : EqDecision retransmit_merging_kind.
Proof. solve_decision. Defined.

(** The settings of [struct config] that writers look at. *)
Record writer_config : Type := WriterConfig {
  wc_little_endian : bool;
  wc_fragment_size : Z;
  wc_retransmit_merging : retransmit_merging_kind;
  wc_retransmit_merging_period : Z;
  wc_retransmit_complete_sample : bool;
  wc_accelerate_rexmit_block_size : Z;
  wc_respond_to_rti_init_zero_ack_with_invalid_heartbeat : bool;
  wc_whc_adaptive : bool;
  wc_whc_lowwater_mark : Z;
  wc_whc_init_highwater_mark : Z;
  wc_whc_highwater_mark : Z;
  wc_prioritize_retransmit : bool;
  wc_max_sample_size : Z;
  wc_forward_all_messages : bool;
  wc_const_hb_intv_sched : Z;
  wc_const_hb_intv_sched_min : Z;
  wc_const_hb_intv_sched_max : Z;
  wc_const_hb_intv_min : Z;
  wc_aggressive_keep_last_whc : bool;
  wc_startup_mode_full : bool;
}.

Record hbcontrol : Type := HbControl {
  hbc_t_of_last_write : Z;
  hbc_t_of_last_hb : Z;
  hbc_t_of_last_ackhb : Z;
  hbc_tsched : Z;
  hbc_hbs_since_last_write : Z;
  hbc_last_packetid : Z;
}.

Inductive writer_state : Type :=
| WRST_OPERATIONAL
| WRST_LINGERING
| WRST_DELETING.

#[global] Instance writer_state_eq_dec : EqDecision writer_state.
Proof. solve_decision. Defined.

Definition writer_state_num (s : writer_state) : Z :=
  match s with WRST_OPERATIONAL => 0 | WRST_LINGERING => 1 | WRST_DELETING => 2 end.

Inductive durability_kind : Type :=
| NN_VOLATILE_DURABILITY_QOS
| NN_TRANSIENT_LOCAL_DURABILITY_QOS
| NN_TRANSIENT_DURABILITY_QOS
| NN_PERSISTENT_DURABILITY_QOS.

#[global] Instance durability_kind_eq_dec : EqDecision durability_kind.
Proof. solve_decision. Defined.

(** The QoS settings of a writer that matter here; a history is KEEP_ALL or has
    a depth. *)
Record writer_qos : Type := WriterQos {
  wq_reliable : bool;
  wq_durability : durability_kind;
  wq_history : option nat;
  wq_durability_service_history : option nat;
}.

Definition INT32_MAX : Z := 2 ^ 31 - 1.

(** What does not change. *)
Record wr_traits : Type := WrTraits {
  wt_guid : nn_guid;
  wt_reliable : bool;
  wt_handle_as_transient_local : bool;
  wt_aggressive_keep_last : bool;
}.

(** Sequence numbers and counts of submessages. *)
Record wr_numbers : Type := WrNumbers {
  nu_seq : Z;
  nu_cs_seq : Z;
  nu_seq_xmit : Z;
  nu_hbcount : Z;
  nu_hbfragcount : Z;
  nu_last_kernel_seq : Z;
}.

(** The limits on unacknowledged data. *)
Record wr_limits : Type := WrLimits {
  wl_throttling : bool;
  wl_retransmitting : bool;
  wl_whc_low : Z;
  wl_whc_high : Z;
  wl_t_rexmit_end : Z;
  wl_t_whc_high_upd : Z;
}.

Record wr_stats : Type := WrStats {
  wst_num_acks_received : Z;
  wst_num_nacks_received : Z;
  wst_throttle_count : Z;
  wst_rexmit_count : Z;
  wst_rexmit_lost_count : Z;
}.

Section Writer.
Context {T : Type -> Type} `{!OrdTree T}.
Context (cfg : writer_config) (ndebug : bool) (xmsg_size : nn_xmsg -> Z).

Record writer : Type := MkWriter {
  wr_traits_ : wr_traits;
  wr_numbers_ : wr_numbers;
  wr_limits_ : wr_limits;
  wr_stats_ : wr_stats;
  wr_hbcontrol : hbcontrol;
  wr_heartbeat_xevent : option Z;
  wr_state : writer_state;
  wr_startup_mode : bool;
  wr_whc : whc (T := T);
  wr_num_reliable_readers : Z;
  wr_readers : tree wr_prd_match wr_prd_summary;
}.

(** What the code does besides: [os_condBroadcast] of [throttle_cond],
    [rebuild_writer_addrset], [lease_renew] and [lease_set_expiry] of the
    participant of a reader, [ephash_remove_writer_guid] with [gcreq_writer],
    [nn_xpack_addmsg], [nn_xpack_send], and [qxev_delete_writer]. *)
Inductive woutput : Type :=
| WOutBroadcast
| WOutRebuildAddrset
| WOutRenewLease
| WOutExpireLease (prd_guid : nn_guid)
| WOutGone
| WOutXpack (m : nn_xmsg)
| WOutXpackSend
| WOutLinger.

Record wx : Type := Wx {
  wx_wr : writer;
  wx_evq : xeventq;
  wx_out : list woutput;
}.

Implicit Types (w : writer) (x : wx) (sd : serdata) (prd : proxy_reader).

(** The fields. *)
Definition wr_guid w : nn_guid := wt_guid (wr_traits_ w).
Definition wr_reliable w : bool := wt_reliable (wr_traits_ w).
Definition wr_handle_as_transient_local w : bool := wt_handle_as_transient_local (wr_traits_ w).
Definition wr_seq w : Z := nu_seq (wr_numbers_ w).
Definition wr_seq_xmit w : Z := nu_seq_xmit (wr_numbers_ w).
Definition wr_whc_low w : Z := wl_whc_low (wr_limits_ w).
Definition wr_whc_high w : Z := wl_whc_high (wr_limits_ w).
Definition wr_throttling w : bool := wl_throttling (wr_limits_ w).
Definition wr_retransmitting w : bool := wl_retransmitting (wr_limits_ w).

Definition set_numbers w (n : wr_numbers) : writer :=
  MkWriter (wr_traits_ w) n (wr_limits_ w) (wr_stats_ w) (wr_hbcontrol w) (wr_heartbeat_xevent w) (wr_state w) (wr_startup_mode w)
    (wr_whc w) (wr_num_reliable_readers w) (wr_readers w).
Definition set_limits w (l : wr_limits) : writer :=
  MkWriter (wr_traits_ w) (wr_numbers_ w) l (wr_stats_ w) (wr_hbcontrol w) (wr_heartbeat_xevent w) (wr_state w) (wr_startup_mode w)
    (wr_whc w) (wr_num_reliable_readers w) (wr_readers w).
Definition set_stats w (s : wr_stats) : writer :=
  MkWriter (wr_traits_ w) (wr_numbers_ w) (wr_limits_ w) s (wr_hbcontrol w) (wr_heartbeat_xevent w) (wr_state w) (wr_startup_mode w)
    (wr_whc w) (wr_num_reliable_readers w) (wr_readers w).
Definition set_hb w (hbc : hbcontrol) (ev : option Z) : writer :=
  MkWriter (wr_traits_ w) (wr_numbers_ w) (wr_limits_ w) (wr_stats_ w) hbc ev (wr_state w) (wr_startup_mode w)
    (wr_whc w) (wr_num_reliable_readers w) (wr_readers w).
Definition set_state w (s : writer_state) : writer :=
  MkWriter (wr_traits_ w) (wr_numbers_ w) (wr_limits_ w) (wr_stats_ w) (wr_hbcontrol w) (wr_heartbeat_xevent w) s (wr_startup_mode w)
    (wr_whc w) (wr_num_reliable_readers w) (wr_readers w).
Definition set_startup w (b : bool) : writer :=
  MkWriter (wr_traits_ w) (wr_numbers_ w) (wr_limits_ w) (wr_stats_ w) (wr_hbcontrol w) (wr_heartbeat_xevent w) (wr_state w) b
    (wr_whc w) (wr_num_reliable_readers w) (wr_readers w).
Definition set_whc w (c : whc (T := T)) : writer :=
  MkWriter (wr_traits_ w) (wr_numbers_ w) (wr_limits_ w) (wr_stats_ w) (wr_hbcontrol w) (wr_heartbeat_xevent w) (wr_state w) (wr_startup_mode w)
    c (wr_num_reliable_readers w) (wr_readers w).
Definition set_readers w (n : Z) (t : tree wr_prd_match wr_prd_summary) : writer :=
  MkWriter (wr_traits_ w) (wr_numbers_ w) (wr_limits_ w) (wr_stats_ w) (wr_hbcontrol w) (wr_heartbeat_xevent w) (wr_state w) (wr_startup_mode w)
    (wr_whc w) n t.

Definition put x w : wx := Wx w (wx_evq x) (wx_out x).
Definition emit x (o : woutput) : wx := Wx (wx_wr x) (wx_evq x) (wx_out x ++ [o]).
Definition put_evq x (q : xeventq) : wx := Wx (wx_wr x) q (wx_out x).

(** ** Readers and the history cache: [q_entity.c] *)

Definition reader_key (g : nn_guid) : Z := guid_key (wc_little_endian cfg) g.
Abbreviation td := (wr_readers_treedef (wc_little_endian cfg)).

Definition root_rdmatch w : option wr_prd_summary := option_map snd (ut_avlRoot (wr_readers w)).

Definition writer_max_drop_seq w : Z :=
  match root_rdmatch w with
  | None => wr_seq w
  | Some n => if rs_min_seq n =? MAX_SEQ_NUMBER then wr_seq w else rs_min_seq n
  end.

Definition writer_must_have_hb_scheduled w : option bool :=
  match root_rdmatch w with
  | None => Some false
  | Some n =>
      if whc_empty (wr_whc w) then Some false
      else if negb (rs_all_have_replied_to_hb n) then Some true
      else m ← whc_max_seq (wr_whc w); Some (writer_max_drop_seq w <? m)
  end.

Definition writer_set_retransmitting w : option writer :=
  if wr_retransmitting w then None else
  let l := wr_limits_ w in
  let high := if wc_whc_adaptive cfg && (wl_whc_high l >? wl_whc_low l)
              then let m := wrap_u 32 (8 * wl_whc_high l) / 10 in if m >? wl_whc_low l then m else wl_whc_low l
              else wl_whc_high l in
  Some (set_limits w (WrLimits (wl_throttling l) true (wl_whc_low l) high (wl_t_rexmit_end l) (wl_t_whc_high_upd l))).

Definition writer_clear_retransmitting x (now_et : Z) : wx :=
  let w := wx_wr x in
  let l := wr_limits_ w in
  emit (put x (set_limits w (WrLimits (wl_throttling l) false (wl_whc_low l) (wl_whc_high l) now_et now_et))) WOutBroadcast.

Definition writer_set_state x (newstate : writer_state) : option wx :=
  let w := wx_wr x in
  if negb (writer_state_num newstate >? writer_state_num (wr_state w)) then None
  else
    let x := if decide (wr_state w = WRST_OPERATIONAL) then emit x WOutBroadcast else x in
    Some (put x (set_state w newstate)).

Definition delete_writer_nolinger_locked x : option wx :=
  let x := emit x WOutGone in writer_set_state x WRST_DELETING.

(** The number of messages dropped comes with the state. *)
Definition remove_acked_messages x (now_et : Z) : option (wx * Z) :=
  let w := wx_wr x in
  if guid_entityid (wr_guid w) =? NN_ENTITYID_SPDP_BUILTIN_PARTICIPANT_WRITER then None
  else
    '(c, n) ← whc_remove_acked_messages ndebug (wc_fragment_size cfg) (wr_whc w) (writer_max_drop_seq w);
    let x := put x (set_whc w c) in
    let n_unacked := whc_unacked_bytes c in
    let x := if wr_throttling w && (n_unacked <=? wr_whc_low w) then emit x WOutBroadcast else x in
    let x := if wr_retransmitting w && (n_unacked =? 0) then writer_clear_retransmitting x now_et else x in
    x ← (if bool_decide (wr_state w = WRST_LINGERING) && (n_unacked =? 0) then delete_writer_nolinger_locked x else Some x);
    Some (x, n).

(** [resched_xevent_if_earlier] of the heartbeat event. *)
Definition resched_heartbeat w (tsched : Z) : option writer :=
  ev ← wr_heartbeat_xevent w;
  '(ev, _) ← resched_xevent_if_earlier ev tsched;
  Some (set_hb w (wr_hbcontrol w) (Some ev)).

Definition hbc_set_tsched (h : hbcontrol) (t : Z) : hbcontrol :=
  HbControl (hbc_t_of_last_write h) (hbc_t_of_last_hb h) (hbc_t_of_last_ackhb h) t (hbc_hbs_since_last_write h) (hbc_last_packetid h).
Definition hbc_reset_count (h : hbcontrol) : hbcontrol :=
  HbControl (hbc_t_of_last_write h) (hbc_t_of_last_hb h) (hbc_t_of_last_ackhb h) (hbc_tsched h) 0 (hbc_last_packetid h).

(** A heartbeat no later than [tnext], with the number of heartbeats since the
    last write reset: the ends of [writer_add_connection] and of
    [writer_hbcontrol_note_asyncwrite]. *)
Definition schedule_heartbeat w (tnext : Z) : option writer :=
  let w := set_hb w (hbc_reset_count (wr_hbcontrol w)) (wr_heartbeat_xevent w) in
  if tnext <? hbc_tsched (wr_hbcontrol w)
  then resched_heartbeat (set_hb w (hbc_set_tsched (wr_hbcontrol w) tnext) (wr_heartbeat_xevent w)) tnext
  else Some w.

Definition new_match prd (merging : retransmit_merging_kind) (seq : Z) : wr_prd_match :=
  WrPrdMatch (prd_guid prd) (bool_decide (merging = REXMIT_MERGE_ALWAYS)) (negb (prd_reliable prd)) (prd_reliable prd) seq
    DDSI_COUNT_MIN DDSI_COUNT_MIN 0 0.

Definition zero_summary : wr_prd_summary := WrPrdSummary false 0 0 0 guid_unknown.

(** [writer_add_connection] up to where it gives up the lock, and whether it goes
    on to the end of the function. *)
Definition writer_add_connection x prd : option (wx * bool) :=
  let w := wx_wr x in
  let pretend_everything_acked := prd_deleting prd || negb (prd_reliable prd) in
  let m := new_match prd (wc_retransmit_merging cfg) (if pretend_everything_acked then MAX_SEQ_NUMBER else wr_seq w) in
  match ut_avlLookupIPath td (wr_readers w) (reader_key (prd_guid prd)) with
  | (Some _, _) => Some (x, false)
  | (None, path) =>
      t ← ut_avlInsertIPath td (m, zero_summary) path;
      let w := set_readers w (wr_num_reliable_readers w + (if rn_is_reliable m then 1 else 0)) t in
      Some (emit (put x w) WOutRebuildAddrset, true)
  end.

(** The end of [writer_add_connection], with the lock taken again. *)
Definition writer_add_connection_heartbeat x (now_mt : Z) : option wx :=
  match wr_heartbeat_xevent (wx_wr x) with
  | None => Some x
  | Some _ => tnext ← add_duration_to_mtime now_mt T_MILLISECOND; w ← schedule_heartbeat (wx_wr x) tnext; Some (put x w)
  end.

Definition writer_drop_connection x prd (now_et : Z) : option wx :=
  let w := wx_wr x in
  match ut_avlLookup td (wr_readers w) (reader_key (prd_guid prd)) with
  | None => Some x
  | Some (m, _) =>
      t ← ut_avlDelete td (wr_readers w) (reader_key (prd_guid prd));
      let x := emit (put x (set_readers w (wr_num_reliable_readers w) t)) WOutRebuildAddrset in
      '(x, _) ← remove_acked_messages x now_et;
      let w := wx_wr x in
      Some (put x (set_readers w (wr_num_reliable_readers w - (if rn_is_reliable m then 1 else 0)) (wr_readers w)))
  end.

(** The body of the loop of [proxy_reader_set_delete_and_ack_all_messages]. *)
Definition writer_ack_all x prd (now_et : Z) : option wx :=
  let w := wx_wr x in
  match ut_avlLookup td (wr_readers w) (reader_key (prd_guid prd)) with
  | None => Some x
  | Some _ =>
      let t := upd_match_augment (wc_little_endian cfg) (wr_readers w) (reader_key (prd_guid prd)) (fun m => rn_set_seq m MAX_SEQ_NUMBER) in
      '(x, _) ← remove_acked_messages (put x (set_readers w (wr_num_reliable_readers w) t)) now_et;
      Some (writer_clear_retransmitting x now_et)
  end.

(** A writer that is not in the table any more is not deleted again. *)
Definition delete_writer_nolinger x : option (wx * Z) :=
  if decide (wr_state (wx_wr x) = WRST_DELETING) then Some (x, ERR_UNKNOWN_ENTITY)
  else x ← delete_writer_nolinger_locked x; Some (x, 0).

Definition delete_writer x : option (wx * Z) :=
  if decide (wr_state (wx_wr x) = WRST_DELETING) then Some (x, ERR_UNKNOWN_ENTITY)
  else if whc_unacked_bytes (wr_whc (wx_wr x)) =? 0 then x ← delete_writer_nolinger_locked x; Some (x, 0)
  else x ← writer_set_state x WRST_LINGERING; Some (emit x WOutLinger, 0).

Definition writer_exit_startup_mode x (now_et : Z) : option wx :=
  let w := wx_wr x in
  if wr_startup_mode w && wr_handle_as_transient_local w then None
  else if negb (wr_startup_mode w) then Some x
  else if guid_entityid (wr_guid w) =? NN_ENTITYID_SPDP_BUILTIN_PARTICIPANT_WRITER then None
  else
    c ← whc_downgrade_to_volatile ndebug (wc_fragment_size cfg) (wr_whc w);
    '(x, _) ← remove_acked_messages (put x (set_whc (set_startup w false) c)) now_et;
    Some (writer_clear_retransmitting x now_et).

(** ** Heartbeats: [q_transmit.c] *)

Definition have_reliable_subs w : bool :=
  match root_rdmatch w with None => false | Some n => negb (rs_min_seq n =? MAX_SEQ_NUMBER) end.

Definition writer_hbcontrol_init : hbcontrol := HbControl 0 0 0 T_NEVER 0 0.

Definition writer_hbcontrol_note_hb w (tnow : Z) (ansreq : bool) : writer :=
  let h := wr_hbcontrol w in
  set_hb w (HbControl (hbc_t_of_last_write h) tnow (if ansreq then tnow else hbc_t_of_last_ackhb h) (hbc_tsched h)
              (wrap_u 32 (hbc_hbs_since_last_write h + 1)) (hbc_last_packetid h)) (wr_heartbeat_xevent w).

(** The loop that doubles the interval, at most [n] times. *)
Fixpoint intv_double (n : nat) (ret : Z) : Z :=
  match n with
  | O => ret
  | S n' => if 2 * ret <? wc_const_hb_intv_sched_max cfg then intv_double n' (ret * 2) else ret
  end.

(** The marks at a half and at three quarters between low and high water, as
    32-bit unsigned numbers. *)
Definition whc_half w : Z := wrap_u 32 (wr_whc_low w + wrap_u 32 (wr_whc_high w - wr_whc_low w) / 2).
Definition whc_three_quarters w : Z := wrap_u 32 (wr_whc_low w + wrap_u 32 (3 * wrap_u 32 (wr_whc_high w - wr_whc_low w)) / 4).

Definition writer_hbcontrol_intv w : Z :=
  let ret := wc_const_hb_intv_sched cfg in
  let n := hbc_hbs_since_last_write (wr_hbcontrol w) in
  let ret := if n >? 2 then intv_double (Z.to_nat (n - 2)) ret else ret in
  let n_unacked := whc_unacked_bytes (wr_whc w) in
  let ret := if n_unacked >=? whc_three_quarters w then Z.quot ret 2 else ret in
  let ret := if n_unacked >=? whc_half w then Z.quot ret 2 else ret in
  let ret := if wr_throttling w then Z.quot ret 2 else ret in
  if ret <? wc_const_hb_intv_sched_min cfg then wc_const_hb_intv_sched_min cfg else ret.

Definition writer_hbcontrol_note_asyncwrite w (tnow : Z) : option writer :=
  schedule_heartbeat w (tnow + wc_const_hb_intv_sched cfg).

Definition writer_hbcontrol_must_send w (tnow : Z) : bool :=
  tnow >=? hbc_t_of_last_hb (wr_hbcontrol w) + writer_hbcontrol_intv w.

(** The sequence numbers that [add_Heartbeat] advertises. *)
Definition heartbeat_range w (issync : bool) : option (Z * Z) :=
  let invalid := wc_respond_to_rti_init_zero_ack_with_invalid_heartbeat cfg in
  if whc_empty (wr_whc w) then
    if invalid || (wr_seq w >=? 1) then Some (if invalid then wr_seq w + 1 else wr_seq w, wr_seq w) else None
  else
    min ← whc_min_seq (wr_whc w);
    let max := wr_seq w in
    if negb (min <=? max) then None
    else if negb issync && (wr_seq_xmit w <? max) && negb (wr_handle_as_transient_local w)
    then Some (min, if wr_seq_xmit w >=? min then wr_seq_xmit w else if invalid then min - 1 else min)
    else Some (min, max).

Definition submsg_flags : Z := if wc_little_endian cfg then SMFLAG_ENDIANNESS else 0.

Definition next_hbcount w : writer :=
  let n := wr_numbers_ w in
  set_numbers w (WrNumbers (nu_seq n) (nu_cs_seq n) (nu_seq_xmit n) (wrap_s 32 (nu_hbcount n + 1)) (nu_hbfragcount n) (nu_last_kernel_seq n)).

Definition add_Heartbeat (m : nn_xmsg) w (hbansreq : Z) (dst : Z) (issync : bool) : option (nn_xmsg * writer) :=
  if negb (wr_reliable w) || (hbansreq <? 0) then None
  else
    '(min, max) ← heartbeat_range w issync;
    let flags := if hbansreq =? 0 then Z.lor submsg_flags HEARTBEAT_FLAG_FINAL else submsg_flags in
    let w := next_hbcount w in
    m ← add_submsg m (SmHeartbeat (MkHeartbeat flags dst (guid_entityid (wr_guid w)) (toSN min) (toSN max) (nu_hbcount (wr_numbers_ w))));
    Some (m, w).

(** The reader to send a heartbeat to, if to one only. *)
Definition heartbeat_destination w : option (option nn_guid) :=
  match root_rdmatch w with
  | None => Some None
  | Some n =>
      if wr_num_reliable_readers w =? 0 then Some None
      else if negb (wr_seq w =? rs_max_seq n) then Some None
      else
        let n_unacked := wr_num_reliable_readers w - rs_num_reliable_readers_where_seq_equals_max n in
        if n_unacked <? 0 then None
        else if n_unacked =? 0 then Some None
        else if negb (known (rs_arbitrary_unacked_reader n)) then None
        else if n_unacked >? 1 then Some None
        else Some (Some (rs_arbitrary_unacked_reader n))
  end.

(** [lookup_prd] is [ephash_lookup_proxy_reader_guid]. *)
Definition writer_hbcontrol_create_heartbeat (lookup_prd : nn_guid -> option proxy_reader) w (tnow hbansreq : Z) (issync : bool)
  : option (writer * option nn_xmsg) :=
  if negb (wr_reliable w) || (hbansreq <? 0) then None
  else
    let m := nn_xmsg_new NN_XMSG_KIND_CONTROL in
    dst ← heartbeat_destination w;
    match dst with
    | None =>
        m ← nn_xmsg_setdstN m;
        '(m, w) ← add_Heartbeat m w hbansreq NN_ENTITYID_UNKNOWN issync;
        Some (writer_hbcontrol_note_hb w tnow (negb (hbansreq =? 0)), Some m)
    | Some g =>
        match lookup_prd g with
        | None => Some (w, None)
        | Some prd =>
            r ← nn_xmsg_setdstPRD m prd;
            match r with
            | inr _ => Some (w, None)
            | inl m =>
                '(m, w) ← add_Heartbeat m w hbansreq (guid_entityid g) issync;
                Some (writer_hbcontrol_note_hb w tnow (negb (hbansreq =? 0)), Some m)
            end
        end
    end.

Definition writer_hbcontrol_ack_required_generic w (tlast tnow : Z) (piggyback : bool) : Z :=
  let hb_intv_ack := wc_const_hb_intv_sched cfg in
  let t_ackhb := hbc_t_of_last_ackhb (wr_hbcontrol w) in
  if (if piggyback then tnow >=? tlast + Z.quot (4 * hb_intv_ack) 5 else tnow >=? tlast + hb_intv_ack) then 2
  else if whc_unacked_bytes (wr_whc w) >=? whc_half w then
    if tnow >=? t_ackhb + wc_const_hb_intv_sched_min cfg then 2
    else if tnow >=? t_ackhb + wc_const_hb_intv_min cfg then 1
    else 0
  else 0.

Definition writer_hbcontrol_ack_required w (tnow : Z) : Z :=
  writer_hbcontrol_ack_required_generic w (hbc_t_of_last_write (wr_hbcontrol w)) tnow false.

(** The message, and [*hbansreq]. *)
Definition writer_hbcontrol_piggyback (lookup_prd : nn_guid -> option proxy_reader) w (tnow packetid : Z) : option (writer * option nn_xmsg * Z) :=
  let h := wr_hbcontrol w in
  let tlast := hbc_t_of_last_write h in
  let last_packetid := hbc_last_packetid h in
  let w := set_hb w (HbControl tnow (hbc_t_of_last_hb h) (hbc_t_of_last_ackhb h) (hbc_tsched h) (hbc_hbs_since_last_write h) packetid) (wr_heartbeat_xevent w) in
  w ← writer_hbcontrol_note_asyncwrite w tnow;
  let hbansreq := writer_hbcontrol_ack_required_generic w tlast tnow true in
  if (hbansreq >=? 2) || negb (last_packetid =? packetid)
  then '(w, m) ← writer_hbcontrol_create_heartbeat lookup_prd w tnow hbansreq true; Some (w, m, hbansreq)
  else Some (w, None, 0).

(** [handle_xevk_heartbeat] of [q_xevent.c]: the event was taken off the heap, so
    its time is [T_NEVER] unless it was scheduled again since. *)
Definition handle_xevk_heartbeat (lookup_prd : nn_guid -> option proxy_reader) x (tnow : Z) : option wx :=
  let w := wx_wr x in
  if negb (wr_reliable w) then None
  else
    must ← writer_must_have_hb_scheduled w;
    '(w, m, t_next) ←
      (if negb must then Some (w, None, T_NEVER)
       else if negb (writer_hbcontrol_must_send w tnow) then Some (w, None, tnow + writer_hbcontrol_intv w)
       else
         let hbansreq := writer_hbcontrol_ack_required w tnow in
         '(w, m) ← writer_hbcontrol_create_heartbeat lookup_prd w tnow hbansreq false;
         Some (w, m, tnow + writer_hbcontrol_intv w));
    w ← resched_heartbeat w t_next;
    let x := put x (set_hb w (hbc_set_tsched (wr_hbcontrol w) t_next) (wr_heartbeat_xevent w)) in
    Some (match m with Some m => emit x (WOutXpack m) | None => x end).

(** ** Making a writer: [new_writer_guid] *)

Definition startup_mode_of (q : writer_qos) (gv_startup_mode : bool) : bool :=
  let volatile_reliable := bool_decide (wq_durability q = NN_VOLATILE_DURABILITY_QOS) && wq_reliable q in
  gv_startup_mode &&
  (if wc_startup_mode_full cfg
   then bool_decide (wq_durability q = NN_TRANSIENT_DURABILITY_QOS \/ wq_durability q = NN_PERSISTENT_DURABILITY_QOS) || volatile_reliable
   else volatile_reliable).

(** [hdepth] and [tldepth] of the history cache. *)
Definition whc_depths (q : writer_qos) (aggressive startup : bool) : nat * nat :=
  let hdepth := match wq_history q with Some d => if aggressive then d else 0%nat | None => 0%nat end in
  let tldepth :=
    if decide (wq_durability q = NN_TRANSIENT_LOCAL_DURABILITY_QOS)
    then default 0%nat (wq_durability_service_history q)
    else if startup then hdepth else 0%nat in
  (hdepth, tldepth).

Definition sample_overhead : Z := 120.

Definition new_writer_guid (guid : nn_guid) (q : writer_qos) (gv_startup_mode : bool) : option writer :=
  let builtin := is_builtin_own_entityid (guid_entityid guid) in
  let keep_last := bool_decide (is_Some (wq_history q)) in
  let tl := bool_decide (wq_durability q = NN_TRANSIENT_LOCAL_DURABILITY_QOS) in
  if negb (is_writer_entityid (guid_entityid guid)) || (builtin && negb (keep_last && tl)) then None
  else
    let aggressive := if builtin then true else wc_aggressive_keep_last_whc cfg && keep_last in
    let startup := startup_mode_of q gv_startup_mode in
    let '(hdepth, tldepth) := whc_depths q aggressive startup in
    c ← whc_new tl hdepth tldepth sample_overhead;
    let '(low, high) := if (0 <? hdepth)%nat then (INT32_MAX, INT32_MAX) else (wc_whc_lowwater_mark cfg, wc_whc_init_highwater_mark cfg) in
    if builtin && negb ((low =? high) && (low =? INT32_MAX)) then None
    else Some (MkWriter (WrTraits guid (wq_reliable q) tl aggressive) (WrNumbers 0 0 0 0 0 0xffffffff) (WrLimits false false low high 0 0) (WrStats 0 0 0 0 0)
                 writer_hbcontrol_init (if wq_reliable q then Some T_NEVER else None) WRST_OPERATIONAL startup c 0 ut_avlInit).
End Writer.
