(* ===== verification/WriterSend.v ===== *)
(** * Sending samples: [q_transmit.c]

    A sample goes out in one message, or in one per fragment of
    [config.fragment_size] bytes; either in a packet that the writing thread fills
    itself ([transmit_sample]), or through the queue of messages
    ([enqueue_sample_wrlock_held]), as do retransmissions, which the queue may
    refuse.  [write_sample_kernel_seq_eot] is cut where it waits for room in
    [throttle_writer]. *)

From Stdlib Require Import ZArith Lia.
From stdpp Require Import prelude gmap.
From S2P Require Import Prelude OrdTree Avl Bitset Reorder Dqueue Time Wire Protocol Receive Whc WrReaders Xmsg Writer.

(** [align4u] *)
Definition align4u (n : Z) : Z := Z.land (wrap_u 32 (n + 3)) 0xfffffffc.

Section Send.
Context {T : Type -> Type} `{!OrdTree T}.
Context (cfg : writer_config) (ndebug : bool) (xmsg_size : nn_xmsg -> Z).
Implicit Types (w : writer (T := T)) (x : wx (T := T)) (sd : serdata) (prd : option proxy_reader).

Abbreviation fragment_size := (wc_fragment_size cfg).

(** A message for [prd], or for all readers; an error without an address. *)
Definition set_destination (m : nn_xmsg) prd : option (nn_xmsg + Z) :=
  match prd with
  | Some prd => nn_xmsg_setdstPRD m prd
  | None => m ← nn_xmsg_setdstN m; Some (inl m)
  end.

Definition readerId_of prd : Z := match prd with Some prd => guid_entityid (prd_guid prd) | None => NN_ENTITYID_UNKNOWN end.

(** The DATA or DATAFRAG submessage of fragment [fragnum]. *)
Definition fragment_submsg w (seq : Z) sd (fragnum : Z) prd : xdata :=
  let size := sd_size sd in
  let fragging := fragment_size <? size in
  let fragstart := if fragging then wrap_u 32 (fragnum * fragment_size) else 0 in
  let fraglen :=
    if fragging
    then if wrap_u 32 (fragstart + fragment_size) >? size then wrap_u 32 (size - fragstart) else fragment_size
    else size in
  XData (readerId_of prd) (guid_entityid (wr_guid w)) (toSN seq)
    (if fragging then Some (wrap_u 32 (fragnum + 1), 1, wrap_u 16 fragment_size, size) else None)
    (fragnum =? 0)
    (if sd_is_empty sd then None else Some (fragstart, align4u fraglen)).

(** Whether the message carries the sequence number of the writer: all
    retransmissions do, so that they can be merged, of new samples only the
    message that completes them. *)
Definition marks_seq w sd (fragnum : Z) (isnew : bool) : bool :=
  let size := sd_size sd in
  let fragging := fragment_size <? size in
  let fragstart := wrap_u 32 (fragnum * fragment_size) in
  let fraglen := if wrap_u 32 (fragstart + fragment_size) >? size then wrap_u 32 (size - fragstart) else fragment_size in
  wr_reliable w && (negb fragging || negb isnew || (wrap_u 32 (fragstart + fraglen) =? size)).

Definition create_fragment_message w (seq : Z) sd (fragnum : Z) prd (isnew : bool) : option (nn_xmsg + Z) :=
  let size := sd_size sd in
  if (wrap_u 32 (fragnum * fragment_size) >=? size) && (size >? 0) then Some (inr ERR_INVALID)
  else
    let fragging := fragment_size <? size in
    let m := nn_xmsg_new (if isnew then NN_XMSG_KIND_DATA else NN_XMSG_KIND_DATA_REXMIT) in
    r ← set_destination m prd;
    match r with
    | inr e => Some (inr e)
    | inl m =>
        m ← (if fragnum =? 0 then add_submsg m SmInfoTS else Some m);
        if fragging && sd_is_empty sd then None
        else
          let m := if marks_seq w sd fragnum isnew
                   then if fragging then nn_xmsg_setwriterseq_fragid m (wr_guid w) seq fragnum else nn_xmsg_setwriterseq m (wr_guid w) seq
                   else m in
          m ← add_submsg m (SmData (fragment_submsg w seq sd fragnum prd));
          m ← (if isnew then Some m else nn_xmsg_set_data_readerId m);
          Some (inl m)
    end.

Definition next_hbfragcount w : writer :=
  let n := wr_numbers_ w in
  set_numbers w (WrNumbers (nu_seq n) (nu_cs_seq n) (nu_seq_xmit n) (nu_hbcount n) (wrap_s 32 (nu_hbfragcount n + 1)) (nu_last_kernel_seq n)).

Definition create_HeartbeatFrag w (seq fragnum : Z) prd : option (writer * option nn_xmsg) :=
  r ← set_destination (nn_xmsg_new NN_XMSG_KIND_CONTROL) prd;
  match r with
  | inr _ => Some (w, None)
  | inl m =>
      let w := next_hbfragcount w in
      m ← add_submsg m (SmHeartbeatFrag (MkHeartbeatFrag (readerId_of prd) (guid_entityid (wr_guid w)) (toSN seq) (wrap_u 32 (fragnum + 1))
                          (nu_hbfragcount (wr_numbers_ w))));
      Some (w, Some m)
  end.

(** The number of fragments; a sample without data still needs a message. *)
Definition num_fragments sd : Z :=
  let n := wrap_u 32 (sd_size sd + fragment_size - 1) / fragment_size in if n =? 0 then 1 else n.

(** Fragment [i] of [nfrags] with the heartbeat that goes with all but the last. *)
Definition fragment_messages w (seq : Z) sd (nfrags i : Z) prd (isnew : bool) : option (writer * option nn_xmsg * option nn_xmsg) :=
  r ← create_fragment_message w seq sd i prd isnew;
  match r with
  | inr _ => Some (w, None, None)
  | inl m =>
      if (nfrags >? 1) && (i + 1 <? nfrags)
      then '(w, h) ← create_HeartbeatFrag w seq i prd; Some (w, Some m, h)
      else Some (w, Some m, None)
  end.

Definition qxev_opt (q : xeventq) (m : option nn_xmsg) : option xeventq :=
  match m with Some m => qxev_msg q m | None => Some q end.

(** The body of the loop of [enqueue_sample_wrlock_held], with [enqueued]. *)
Definition enqueue_fragment x (seq : Z) sd (nfrags i : Z) prd (isnew : bool) (enqueued : Z) : option (wx (T := T) * Z) :=
  '(w, fmsg, hmsg) ← fragment_messages (wx_wr x) seq sd nfrags i prd isnew;
  let x := put x w in
  if isnew then
    q ← qxev_opt (wx_evq x) fmsg;
    q ← qxev_opt q hmsg;
    Some (put_evq x q, enqueued)
  else
    '(q, enqueued) ←
      (match fmsg with
       | Some m => qxev_msg_rexmit_wrlock_held xmsg_size (bool_decide (wr_state w <> WRST_DELETING)) (wx_evq x) m false
       | None => Some (wx_evq x, enqueued)
       end);
    q ← (if enqueued >? 1 then qxev_opt q hmsg else Some q);
    Some (put_evq x q, enqueued).

Fixpoint enqueue_fragments (n : nat) x (seq : Z) sd (nfrags i : Z) prd (isnew : bool) (enqueued : Z) : option (wx (T := T) * Z) :=
  match n with
  | O => Some (x, enqueued)
  | S n' =>
      if enqueued =? 0 then Some (x, enqueued)
      else '(x, enqueued) ← enqueue_fragment x seq sd nfrags i prd isnew enqueued; enqueue_fragments n' x seq sd nfrags (i + 1) prd isnew enqueued
  end.

Definition enqueue_sample_wrlock_held x (seq : Z) sd prd (isnew : bool) : option (wx (T := T) * Z) :=
  let nfrags := num_fragments sd in
  let one := (nfrags >? 1) && negb isnew && negb (wc_retransmit_complete_sample cfg) in
  let nfrags := if one then 1 else nfrags in
  '(x, enqueued) ← enqueue_fragments (Z.to_nat nfrags) x seq sd nfrags 0 prd isnew 1;
  Some (x, if enqueued =? 0 then -1 else if one then -1 else 0).

(** [transmit_sample], up to the heartbeat. *)
Fixpoint transmit_fragments (n : nat) x (seq : Z) sd (nfrags i : Z) prd (isnew : bool) : option (wx (T := T)) :=
  match n with
  | O => Some x
  | S n' =>
      '(w, fmsg, hmsg) ← fragment_messages (wx_wr x) seq sd nfrags i prd isnew;
      let x := put x w in
      let x := match fmsg with Some m => emit x (WOutXpack m) | None => x end in
      let x := match hmsg with Some m => emit x (WOutXpack m) | None => x end in
      transmit_fragments n' x seq sd nfrags (i + 1) prd isnew
  end.

(** The heartbeat at the end of [transmit_sample]. *)
Definition transmit_heartbeat (lookup_prd : nn_guid -> option proxy_reader) x (twrite packetid : Z) : option (wx (T := T)) :=
  match wr_heartbeat_xevent (wx_wr x) with
  | None => Some x
  | Some _ =>
      '(w, m, hbansreq) ← writer_hbcontrol_piggyback cfg lookup_prd (wx_wr x) twrite packetid;
      let x := put x w in
      Some (match m with
            | Some m => let x := emit x (WOutXpack m) in if hbansreq >=? 2 then emit x WOutXpackSend else x
            | None => x
            end)
  end.

(** ** Writing a sample *)

(** The result is 1 if the sample was inserted. *)
Definition insert_sample_in_whc w (seq : Z) sd : option (writer (T := T) * Z) :=
  if negb (wr_reliable w || negb (have_reliable_subs w)) then None
  else if (wr_reliable w && have_reliable_subs w) || wr_handle_as_transient_local w || wr_startup_mode w
  then c ← whc_insert fragment_size (wr_whc w) (writer_max_drop_seq w) seq sd; Some (set_whc w c, 1)
  else Some (w, 0).

Definition writer_may_continue w : bool :=
  ((whc_unacked_bytes (wr_whc w) <=? wr_whc_low w) && negb (wr_retransmitting w)) || bool_decide (wr_state w <> WRST_OPERATIONAL).

(** A reader that has not acknowledged everything is given up on. *)
Definition throttle_helper x (k : Z) : wx (T := T) :=
  let w := wx_wr x in
  match ut_avlLookup (wr_readers_treedef (wc_little_endian cfg)) (wr_readers w) k with
  | Some (n, _) =>
      if rn_seq n <? wr_seq w then
        let t := upd_match_augment (wc_little_endian cfg) (wr_readers w) k (fun n => rn_set_replied (rn_set_seq n MAX_SEQ_NUMBER) false) in
        emit (put x (set_readers w (wr_num_reliable_readers w) t)) (WOutExpireLease (rn_prd_guid n))
      else x
  | None => x
  end.

(** [ut_avlWalk] with [throttle_helper], which does not change the order. *)
Definition throttle_walk x : option (wx (T := T)) :=
  l ← ut_avlWalk (wr_readers (wx_wr x));
  Some (fold_left (fun x n => throttle_helper x (reader_key cfg (rn_prd_guid n))) l x).

Definition set_throttling w (b : bool) : writer :=
  let l := wr_limits_ w in
  set_limits w (WrLimits b (wl_retransmitting l) (wl_whc_low l) (wl_whc_high l) (wl_t_rexmit_end l) (wl_t_whc_high_upd l)).

(** [throttle_writer] up to the loop; [xp] is whether the thread has a packet. *)
Definition throttle_begin (lookup_prd : nn_guid -> option proxy_reader) x (xp : bool) (tnow : Z) : option (wx (T := T)) :=
  let w := wx_wr x in
  if wr_throttling w || is_builtin_own_entityid (guid_entityid (wr_guid w)) then None
  else
    let s := wr_stats_ w in
    let w := set_stats (set_throttling w true)
               (WrStats (wst_num_acks_received s) (wst_num_nacks_received s) (wrap_u 32 (wst_throttle_count s + 1)) (wst_rexmit_count s) (wst_rexmit_lost_count s)) in
    if xp then
      '(w, m) ← writer_hbcontrol_create_heartbeat cfg lookup_prd w tnow 1 true;
      let x := put x w in
      Some (emit (match m with Some m => emit x (WOutXpack m) | None => x end) WOutXpackSend)
    else Some (put x w).

(** The condition of the loop in which it waits. *)
Definition throttle_waits w (keepgoing : bool) (tnow abstimeout : Z) : bool :=
  keepgoing && negb (writer_may_continue w) && (tnow <? abstimeout).

(** [throttle_writer] from the end of the loop. *)
Definition throttle_end x (now_et : Z) : option (wx (T := T)) :=
  x ← (if writer_may_continue (wx_wr x) then Some x
       else x ← throttle_walk x; '(x, _) ← remove_acked_messages cfg ndebug x now_et; Some (emit x WOutBroadcast));
  let x := put x (set_throttling (wx_wr x) false) in
  Some (if decide (wr_state (wx_wr x) = WRST_OPERATIONAL) then x else emit x WOutBroadcast).

Definition maybe_grow_whc w (now_et : Z) : option (writer (T := T) * bool) :=
  let l := wr_limits_ w in
  if negb (wl_retransmitting l) && wc_whc_adaptive cfg && (wl_whc_high l <? wc_whc_highwater_mark cfg) then
    tgrow ← add_duration_to_etime (wl_t_whc_high_upd l) (10 * T_MILLISECOND);
    if now_et >=? tgrow then
      let m := wrap_u 32 (wc_whc_highwater_mark cfg - wl_whc_high l) / 32 in
      let high := if m =? 0 then wc_whc_highwater_mark cfg else wrap_u 32 (wl_whc_high l + m) in
      Some (set_limits w (WrLimits (wl_throttling l) (wl_retransmitting l) (wl_whc_low l) high (wl_t_rexmit_end l) now_et), true)
    else Some (w, false)
  else Some (w, false).

(** What becomes of a sample: it is dropped, the thread waits for room, or it is
    written. *)
Inductive write_decision : Type :=
| WriteDrop (r : Z)
| WriteThrottle
| WriteGo.

Definition set_kernel_seq w (cs_seq last_kernel_seq : Z) : writer :=
  let n := wr_numbers_ w in set_numbers w (WrNumbers (nu_seq n) cs_seq (nu_seq_xmit n) (nu_hbcount n) (nu_hbfragcount n) last_kernel_seq).

(** [write_sample_kernel_seq_eot] up to [throttle_writer], for a write that may
    block ([gc_allowed], so that the two assertions on it hold); [kernel_seq] is
    [None] without [have_kernel_seq]. *)
Definition write_begin x sd (kernel_seq : option Z) (end_of_txn : bool) (now_et : Z) : option (wx (T := T) * write_decision) :=
  if sd_size sd >? wc_max_sample_size cfg then Some (x, WriteDrop ERR_INVALID_DATA)
  else
    let w := wx_wr x in
    let n := wr_numbers_ w in
    let w := if end_of_txn then set_kernel_seq w 0 (nu_last_kernel_seq n) else w in
    let duplicate := match kernel_seq with
                     | Some k => negb (wc_forward_all_messages cfg) && (nu_last_kernel_seq n =? k)
                     | None => false
                     end in
    if duplicate then Some (put x w, WriteDrop 0)
    else
      let w := match kernel_seq with
               | Some k => if wc_forward_all_messages cfg then w else set_kernel_seq w (nu_cs_seq (wr_numbers_ w)) k
               | None => w
               end in
      let unacked_bytes := whc_unacked_bytes (wr_whc w) in
      if negb (unacked_bytes >? wr_whc_high w) then Some (put x w, WriteGo)
      else if wc_prioritize_retransmit cfg && wr_retransmitting w then Some (put x w, WriteThrottle)
      else
        '(w, _) ← maybe_grow_whc w now_et;
        Some (put x w, if unacked_bytes <=? wr_whc_high w then WriteGo else WriteThrottle).

Definition next_seq w : writer :=
  let n := wr_numbers_ w in
  set_numbers w (WrNumbers (nu_seq n + 1) (nu_cs_seq n) (nu_seq_xmit n) (nu_hbcount n) (nu_hbfragcount n) (nu_last_kernel_seq n)).

(** The rest of [write_sample_kernel_seq_eot], with the result.  With a packet
    the sample is sent after the lock is given up: [transmit_sample] follows.  The
    parameter list, to which [PP_COHERENT_SET] is added in a coherent set, is not
    in the model, nor the assertion that the caller has not put it there. *)
Definition write_end x sd (xp : bool) (now_mt : Z) : option (wx (T := T) * Z) :=
  let w := next_seq (wx_wr x) in
  let seq := wr_seq w in
  '(w, r) ← insert_sample_in_whc w seq sd;
  if xp then Some (put x w, r)
  else
    w ← (match wr_heartbeat_xevent w with Some _ => writer_hbcontrol_note_asyncwrite cfg w now_mt | None => Some w end);
    '(x, _) ← enqueue_sample_wrlock_held (put x w) seq sd None true;
    Some (x, r).

(** A packet with a message of the writer was sent: [nn_xmsg_chain_release]. *)
Definition note_transmitted w (m : nn_xmsg) : writer :=
  if bool_decide (xm_kind m = NN_XMSG_KIND_DATA) && bool_decide (xm_wrguid m = wr_guid w) && (xm_wrseq m >? wr_seq_xmit w)
  then let n := wr_numbers_ w in
       set_numbers w (WrNumbers (nu_seq n) (nu_cs_seq n) (xm_wrseq m) (nu_hbcount n) (nu_hbfragcount n) (nu_last_kernel_seq n))
  else w.

Definition begin_coherent_set w : writer :=
  if nu_cs_seq (wr_numbers_ w) =? 0 then set_kernel_seq w (wr_seq w + 1) (nu_last_kernel_seq (wr_numbers_ w)) else w.
End Send.
