(* ===== verification/WriterReply.v ===== *)
(** * The answers of a writer to its readers: [q_receive.c]

    [handle_AckNack] takes the acknowledgements of a reader into account and
    retransmits the samples it asks for; what is not in the history cache any
    more goes into a GAP.  [handle_NackFrag] does so for the fragments of one
    sample.  The body of [handle_AckNack] is cut into the parts that its comments
    tell apart.  The clock is read at several points: [now_mt (Some seq)] is the
    time read before retransmitting [seq], [now_mt None] that at the end. *)

From Stdlib Require Import ZArith Lia.
From stdpp Require Import prelude gmap.
From S2P Require Import Prelude OrdTree Avl Bitset Defrag Reorder Dqueue Time Wire Protocol Receive Whc WrReaders Xmsg Writer WriterSend.

Definition ACKNACK_FLAG_FINAL : Z := 0x02.

Section Reply.
Context {T : Type -> Type} `{!OrdTree T}.
Context (cfg : writer_config) (ndebug : bool) (xmsg_size : nn_xmsg -> Z).
Implicit Types (w : writer (T := T)) (x : wx (T := T)) (sd : serdata) (prd : proxy_reader).

Abbreviation readers_upd t k f := (upd_match (wc_little_endian cfg) t k f).
Abbreviation readers_upd_augment t k f := (upd_match_augment (wc_little_endian cfg) t k f).

Definition add_Gap (m : nn_xmsg) w prd (start base numbits : Z) (bits : list Z) : option nn_xmsg :=
  if numbits <=? 0 then None
  else if (length bits <? bitset_words numbits)%nat then None
  else add_submsg m (SmGap (MkGap (guid_entityid (prd_guid prd)) (guid_entityid (wr_guid w)) (toSN start)
                              (SequenceNumberSet (toSN base) numbits (take (bitset_words numbits) bits)))).

(** The first sequence number, for a writer that has not written anything. *)
Definition pretend_written w : writer :=
  if wr_seq w >? 0 then w
  else let n := wr_numbers_ w in set_numbers w (WrNumbers 1 (nu_cs_seq n) 1 (nu_hbcount n) (nu_hbfragcount n) (nu_last_kernel_seq n)).

Definition force_heartbeat_to_peer x prd (hbansreq : Z) : option (wx (T := T)) :=
  let w := wx_wr x in
  if negb (wr_reliable w) then None
  else
    r ← nn_xmsg_setdstPRD (nn_xmsg_new NN_XMSG_KIND_CONTROL) prd;
    match r with
    | inr _ => Some x
    | inl m =>
        '(m, w) ←
          (if whc_empty (wr_whc w) && negb (wc_respond_to_rti_init_zero_ack_with_invalid_heartbeat cfg) then
             let w := pretend_written w in
             m ← add_Gap m w prd (wr_seq w) (wr_seq w + 1) 1 [0];
             add_Heartbeat cfg m w hbansreq (guid_entityid (prd_guid prd)) true
           else add_Heartbeat cfg m w hbansreq (guid_entityid (prd_guid prd)) false);
        q ← qxev_msg (wx_evq x) m;
        Some (put_evq (put x w) q)
    end.

Definition grow_gap_to_next_seq w (seq : Z) : option Z :=
  next_seq ← whc_next_seq ndebug (wr_whc w) (seq - 1);
  Some (if next_seq =? MAX_SEQ_NUMBER then wr_seq_xmit w + 1
        else if next_seq >? wr_seq_xmit w then wr_seq_xmit w
        else next_seq).

(** ** The parts of [handle_AckNack] *)

(** [seqbase - 1], a difference of 64 bits. *)
Definition acked_seq (seqbase : Z) : Z := wrap_s 64 (seqbase - 1).

(** The ACK part. *)
Definition acknack_ack x (k seqbase now_et : Z) : option (wx (T := T)) :=
  let w := wx_wr x in
  '(n, _) ← ut_avlLookup (wr_readers_treedef (wc_little_endian cfg)) (wr_readers w) k;
  if acked_seq seqbase >? rn_seq n then
    let seq := if acked_seq seqbase >? wr_seq w then wr_seq w else acked_seq seqbase in
    let t := readers_upd_augment (wr_readers w) k (fun n => rn_set_seq n seq) in
    '(x, _) ← remove_acked_messages cfg ndebug (put x (set_readers w (wr_num_reliable_readers w) t)) now_et;
    Some x
  else Some x.

(** The acknowledged sequence number of a reader that responds again. *)
Definition responsive_seq w (seqbase : Z) : option Z :=
  oldest_seq ← (if whc_empty (wr_whc w) then Some (wr_seq w) else whc_max_seq (wr_whc w));
  let seq := if oldest_seq >? acked_seq seqbase then oldest_seq else acked_seq seqbase in
  Some (if seq >? wr_seq w then wr_seq w else seq).

Definition acknack_responsive x (k seqbase : Z) prd : option (wx (T := T)) :=
  let w := wx_wr x in
  '(n, _) ← ut_avlLookup (wr_readers_treedef (wc_little_endian cfg)) (wr_readers w) k;
  if (rn_seq n =? MAX_SEQ_NUMBER) && prd_reliable prd then
    seq ← responsive_seq w seqbase;
    let t := readers_upd_augment (wr_readers w) k (fun n => rn_set_seq (rn_set_replied n true) seq) in
    Some (put x (set_readers w (wr_num_reliable_readers w) t))
  else Some x.

Definition acknack_replied x (k seqbase : Z) (is_pure_nonhist_ack : bool) : option (wx (T := T)) :=
  let w := wx_wr x in
  '(n, _) ← ut_avlLookup (wr_readers_treedef (wc_little_endian cfg)) (wr_readers w) k;
  if negb (rn_has_replied_to_hb n) && (seqbase >? 1) && is_pure_nonhist_ack
  then Some (put x (set_readers w (wr_num_reliable_readers w) (readers_upd_augment (wr_readers w) k (fun n => rn_set_replied n true))))
  else Some x.

(** What to retransmit: [seqbase], [numbits] and [hb_sent_in_response]. *)
Definition acknack_classify x (k seqbase msg_numbits : Z) prd (is_preemptive_ack is_pure_nonhist_ack : bool)
  : option (wx (T := T) * Z * Z * bool) :=
  let w := wx_wr x in
  '(n, _) ← ut_avlLookup (wr_readers_treedef (wc_little_endian cfg)) (wr_readers w) k;
  if is_preemptive_ack then
    x ← force_heartbeat_to_peer x prd 0;
    if whc_empty (wr_whc w) then Some (x, seqbase, msg_numbits, true)
    else min ← whc_min_seq (wr_whc (wx_wr x)); Some (x, min, wc_accelerate_rexmit_block_size cfg, true)
  else if negb (rn_assumed_in_sync n) then
    if is_pure_nonhist_ack
    then Some (put x (set_readers w (wr_num_reliable_readers w) (readers_upd (wr_readers w) k rn_set_in_sync)), seqbase, msg_numbits, false)
    else if msg_numbits <? wc_accelerate_rexmit_block_size cfg
    then Some (x, seqbase, wc_accelerate_rexmit_block_size cfg, false)
    else Some (x, seqbase, msg_numbits, false)
  else Some (x, seqbase, msg_numbits, false).

(** The variables of the loop. *)
Record rexmit_loop : Type := RexmitLoop {
  rl_st : wx (T := T);
  rl_enqueued : bool;
  rl_gapstart : Z;
  rl_gapend : Z;
  rl_gapnumbits : Z;
  rl_gapbits : list Z;
  rl_msgs_sent : Z;
  rl_msgs_lost : Z;
  rl_max_seq_in_reply : Z;
}.

Definition upd_whc_node w (seq : Z) (f : whc_node -> whc_node) : option (writer (T := T)) :=
  c ← upd_node (wr_whc w) seq f; Some (set_whc w c).
Definition nd_set_rexmit_ts (nd : whc_node) (t : Z) : whc_node :=
  WhcNode (nd_next_seq nd) (nd_prev_seq nd) (nd_idxnode nd) (nd_idxnode_pos nd) (nd_seq nd) (nd_unacked nd) t (nd_rexmit_count nd) (nd_serdata nd).
Definition nd_inc_rexmit_count (nd : whc_node) : whc_node :=
  WhcNode (nd_next_seq nd) (nd_prev_seq nd) (nd_idxnode nd) (nd_idxnode_pos nd) (nd_seq nd) (nd_unacked nd) (nd_last_rexmit_ts nd)
    (wrap_u 32 (nd_rexmit_count nd + 1)) (nd_serdata nd).

(** [enqueued], and the sample was sent if so. *)
Definition rexmit_done (l : rexmit_loop) x (seq r : Z) (touch : whc_node -> whc_node) : option rexmit_loop :=
  if r >=? 0 then
    w ← upd_whc_node (wx_wr x) seq touch;
    Some (RexmitLoop (put x w) true (rl_gapstart l) (rl_gapend l) (rl_gapnumbits l) (rl_gapbits l) (rl_msgs_sent l + 1) (rl_msgs_lost l) seq)
  else Some (RexmitLoop x false (rl_gapstart l) (rl_gapend l) (rl_gapnumbits l) (rl_gapbits l) (rl_msgs_sent l) (rl_msgs_lost l) (rl_max_seq_in_reply l)).

(** A sample that is in the cache. *)
Definition rexmit_sample (l : rexmit_loop) (seq : Z) (whcn : whc_node) prd (assumed_in_sync : bool) (now_mt : Z) : option rexmit_loop :=
  let x := rl_st l in
  w ← (if negb (wr_retransmitting (wx_wr x)) && nd_unacked whcn then writer_set_retransmitting cfg (wx_wr x) else Some (wx_wr x));
  let x := put x w in
  if bool_decide (wc_retransmit_merging cfg <> REXMIT_MERGE_NEVER) && assumed_in_sync then
    if now_mt >? nd_last_rexmit_ts whcn + wc_retransmit_merging_period cfg then
      '(x, r) ← enqueue_sample_wrlock_held cfg xmsg_size x seq (nd_serdata whcn) None false;
      rexmit_done l x seq r (fun nd => nd_set_rexmit_ts nd now_mt)
    else Some (RexmitLoop x true (rl_gapstart l) (rl_gapend l) (rl_gapnumbits l) (rl_gapbits l) (rl_msgs_sent l) (rl_msgs_lost l) (rl_max_seq_in_reply l))
  else
    '(x, r) ← enqueue_sample_wrlock_held cfg xmsg_size x seq (nd_serdata whcn) (Some prd) false;
    rexmit_done l x seq r nd_inc_rexmit_count.

(** A sample that is not. *)
Definition note_lost (l : rexmit_loop) (seq : Z) : option rexmit_loop :=
  let lost start stop numbits bits :=
    RexmitLoop (rl_st l) (rl_enqueued l) start stop numbits bits (rl_msgs_sent l) (rl_msgs_lost l + 1) (rl_max_seq_in_reply l) in
  if rl_gapstart l =? -1 then Some (lost seq (seq + 1) (rl_gapnumbits l) (rl_gapbits l))
  else if seq =? rl_gapend l then Some (lost (rl_gapstart l) (seq + 1) (rl_gapnumbits l) (rl_gapbits l))
  else if seq - rl_gapend l <? 256 then
    let idx := wrap_u 32 (seq - rl_gapend l) in
    bits ← nn_bitset_set (idx + 1) (rl_gapbits l) idx;
    Some (lost (rl_gapstart l) (rl_gapend l) (idx + 1) bits)
  else Some l.

(** The body of the loop for bit [i]. *)
Definition acknack_step (l : rexmit_loop) (snset : sequence_number_set) (seqbase numbits i : Z) prd (assumed_in_sync : bool) (now_mt : option Z -> Z)
  : option rexmit_loop :=
  wanted ← (if i >=? ss_numbits snset then Some true else nn_bitset_isset numbits (ss_bits snset) i);
  if wanted : bool then
    let seq := seqbase + i in
    match whc_findseq (wr_whc (wx_wr (rl_st l))) seq with
    | Some whcn => rexmit_sample l seq whcn prd assumed_in_sync (now_mt (Some seq))
    | None => note_lost l seq
    end
  else Some l.

Fixpoint acknack_loop (n : nat) (l : rexmit_loop) (snset : sequence_number_set) (seqbase numbits i : Z) prd (assumed_in_sync : bool) (now_mt : option Z -> Z)
  : option rexmit_loop :=
  match n with
  | O => Some l
  | S n' =>
      if (seqbase + i <=? wr_seq_xmit (wx_wr (rl_st l))) && rl_enqueued l then
        l ← acknack_step l snset seqbase numbits i prd assumed_in_sync now_mt;
        acknack_loop n' l snset seqbase numbits (i + 1) prd assumed_in_sync now_mt
      else Some l
  end.

Definition init_loop x : rexmit_loop := RexmitLoop x true (-1) (-1) 0 (replicate 8 0) 0 0 0.

(** The GAP: its start, base, number of bits and bits. *)
Definition acknack_gap_params (l : rexmit_loop) (seqbase msg_numbits : Z) : option (Z * Z * Z * list Z) :=
  gapend ← (if rl_gapend l =? seqbase + msg_numbits then grow_gap_to_next_seq (wx_wr (rl_st l)) (rl_gapend l) else Some (rl_gapend l));
  if rl_gapnumbits l =? 0 then bits ← nn_bitset_set 1 (rl_gapbits l) 0; Some (rl_gapstart l, gapend - 1, 1, bits)
  else Some (rl_gapstart l, gapend, rl_gapnumbits l, rl_gapbits l).

Definition acknack_gap (l : rexmit_loop) (seqbase msg_numbits : Z) prd : option rexmit_loop :=
  if rl_gapstart l >? 0 then
    '(start, base, numbits, bits) ← acknack_gap_params l seqbase msg_numbits;
    let x := rl_st l in
    r ← nn_xmsg_setdstPRD (nn_xmsg_new NN_XMSG_KIND_CONTROL) prd;
    x ← (match r with
         | inr _ => Some x
         | inl m => m ← add_Gap m (wx_wr x) prd start base numbits bits; q ← qxev_msg (wx_evq x) m; Some (put_evq x q)
         end);
    Some (RexmitLoop x (rl_enqueued l) start base numbits bits (rl_msgs_sent l + 1) (rl_msgs_lost l)
            (if base - 1 + numbits >? rl_max_seq_in_reply l then base - 1 + numbits else rl_max_seq_in_reply l))
  else Some l.

Definition count_rexmits w (sent lost : Z) : writer :=
  let s := wr_stats_ w in
  set_stats w (WrStats (wst_num_acks_received s) (wst_num_nacks_received s) (wst_throttle_count s)
                 (wrap_u 32 (wst_rexmit_count s + sent)) (wrap_u 32 (wst_rexmit_lost_count s + lost))).

(** The heartbeats at the end. *)
Definition acknack_heartbeat (l : rexmit_loop) (flags : Z) prd (hb_sent : bool) (now_mt : Z) : option (wx (T := T)) :=
  let x := rl_st l in
  let x := put x (count_rexmits (wx_wr x) (rl_msgs_sent l) (rl_msgs_lost l)) in
  if negb (rl_msgs_sent l =? 0) && (rl_max_seq_in_reply l <? wr_seq_xmit (wx_wr x)) then
    x ← force_heartbeat_to_peer x prd 1;
    w ← writer_hbcontrol_note_asyncwrite cfg (wx_wr x) now_mt;
    Some (put x w)
  else if negb (flag flags ACKNACK_FLAG_FINAL) && negb hb_sent then force_heartbeat_to_peer x prd 0
  else Some x.

Definition count_ack w (is_nack : bool) : writer :=
  let s := wr_stats_ w in
  set_stats w (WrStats (wrap_u 32 (wst_num_acks_received s + 1))
                 (if is_nack then wrap_u 32 (wst_num_nacks_received s + 1) else wst_num_nacks_received s)
                 (wst_throttle_count s) (wst_rexmit_count s) (wst_rexmit_lost_count s)).

(** From where the ACKNACK is accepted to the NACK part. *)
Definition acknack_accepted x (k : Z) (msg : AckNack) prd (is_pure_ack is_pure_nonhist_ack is_preemptive_ack : bool) (now_et : Z) (now_mt : option Z -> Z)
  : option (wx (T := T)) :=
  let snset := an_readerSNState msg in
  let seqbase := fromSN (ss_bitmap_base snset) in
  x ← acknack_ack x k seqbase now_et;
  x ← acknack_responsive x k seqbase prd;
  x ← acknack_replied x k seqbase is_pure_nonhist_ack;
  '(x, seqbase, numbits, hb_sent) ← acknack_classify x k seqbase (ss_numbits snset) prd is_preemptive_ack is_pure_nonhist_ack;
  '(n, _) ← ut_avlLookup (wr_readers_treedef (wc_little_endian cfg)) (wr_readers (wx_wr x)) k;
  l ← acknack_loop (Z.to_nat numbits) (init_loop x) snset seqbase numbits 0 prd (rn_assumed_in_sync n) now_mt;
  l ← acknack_gap l seqbase (ss_numbits snset) prd;
  acknack_heartbeat l (an_flags msg) prd hb_sent (now_mt None).

(** [prd] is what [ephash_lookup_proxy_reader_guid] finds for the sender. *)
Definition handle_AckNack x (forme : bool) (prd : option proxy_reader) (msg : AckNack) (now_et : Z) (now_mt : option Z -> Z) : option (wx (T := T)) :=
  if negb forme then Some x
  else
    match prd with
    | None => Some x
    | Some prd =>
        let x := if prd_assert_pp_lease prd then emit x WOutRenewLease else x in
        let w := wx_wr x in
        if negb (wr_reliable w) then Some x
        else
          let k := reader_key cfg (prd_guid prd) in
          match ut_avlLookup (wr_readers_treedef (wc_little_endian cfg)) (wr_readers w) k with
          | None => Some x
          | Some (rn, _) =>
              let seqbase := fromSN (ss_bitmap_base (an_readerSNState msg)) in
              is_nack ← acknack_is_nack msg;
              let is_pure_ack := negb is_nack in
              let is_pure_nonhist_ack := is_pure_ack && (acked_seq seqbase >=? rn_seq rn) in
              let is_preemptive_ack := (seqbase <=? 1) && is_pure_ack in
              let requests := if is_nack : bool then wrap_u 32 (rn_rexmit_requests rn + 1) else rn_rexmit_requests rn in
              let '(accept, next, t) := accept_ack_or_hb_w_timeout (an_count msg) (rn_next_acknack rn) now_et (rn_t_acknack_accepted rn) is_preemptive_ack in
              let t' := readers_upd (wr_readers w) k (fun n => rn_set_acknack n next t requests) in
              let x := put x (set_readers (count_ack w is_nack) (wr_num_reliable_readers w) t') in
              if accept : bool then acknack_accepted x k msg prd is_pure_ack is_pure_nonhist_ack is_preemptive_ack now_et now_mt else Some x
          end
    end.

(** ** [handle_NackFrag] *)

(** The loop over the requested fragments. *)
Fixpoint nackfrag_loop (n : nat) x (seq base : Z) sd (fnset : fragment_number_set) (i : Z) prd (enqueued : Z) : option (wx (T := T)) :=
  match n with
  | O => Some x
  | S n' =>
      if enqueued =? 0 then Some x
      else
        wanted ← nn_bitset_isset (fn_numbits fnset) (fn_bits fnset) i;
        if wanted : bool then
          r ← create_fragment_message cfg (wx_wr x) seq sd (wrap_u 32 (base + i)) (Some prd) false;
          match r with
          | inr _ => Some x
          | inl m =>
              '(q, enqueued) ← qxev_msg_rexmit_wrlock_held xmsg_size (bool_decide (wr_state (wx_wr x) <> WRST_DELETING)) (wx_evq x) m false;
              nackfrag_loop n' (put_evq x q) seq base sd fnset (i + 1) prd enqueued
          end
        else nackfrag_loop n' x seq base sd fnset (i + 1) prd enqueued
  end.

(** A GAP for a sample that is not in the cache. *)
Definition nackfrag_gap x (seq : Z) prd : option (wx (T := T)) :=
  r ← nn_xmsg_setdstPRD (nn_xmsg_new NN_XMSG_KIND_CONTROL) prd;
  match r with
  | inr _ => Some x
  | inl m => m ← add_Gap m (wx_wr x) prd seq (seq + 1) 1 [0]; q ← qxev_msg (wx_evq x) m; Some (put_evq x q)
  end.

Definition handle_NackFrag x (forme : bool) (prd : option proxy_reader) (msg : NackFrag) (now_mt : Z) : option (wx (T := T)) :=
  if negb forme then Some x
  else
    match prd with
    | None => Some x
    | Some prd =>
        let x := if prd_assert_pp_lease prd then emit x WOutRenewLease else x in
        let w := wx_wr x in
        if negb (wr_reliable w) then Some x
        else
          let k := reader_key cfg (prd_guid prd) in
          let seq := fromSN (nf_writerSN msg) in
          match ut_avlLookup (wr_readers_treedef (wc_little_endian cfg)) (wr_readers w) k with
          | None => Some x
          | Some (rn, _) =>
              if nf_count msg <? rn_next_nackfrag rn then Some x
              else
                let t := readers_upd (wr_readers w) k (fun n => rn_set_nackfrag n (wrap_s 32 (nf_count msg + 1))) in
                let x := put x (set_readers w (wr_num_reliable_readers w) t) in
                x ← (match whc_findseq (wr_whc w) seq with
                     | None => nackfrag_gap x seq prd
                     | Some whcn =>
                         let fnset := nf_fragmentNumberState msg in
                         let base := wrap_u 32 (fn_bitmap_base fnset - 1) in
                         nackfrag_loop (Z.to_nat (fn_numbits fnset)) x seq base (nd_serdata whcn) fnset 0 prd 1
                     end);
                if seq <? wr_seq_xmit (wx_wr x) then
                  x ← force_heartbeat_to_peer x prd 1;
                  w ← writer_hbcontrol_note_asyncwrite cfg (wx_wr x) now_mt;
                  Some (put x w)
                else Some x
          end
    end.
End Reply.
