(* ===== verification/WriterFacts.v ===== *)
(** * Writers: the invariant, and the operations on readers and states

    [writer_ok h w] ties the state of a writer to the history [h] of what its
    cache was asked to keep; [advances] is what the operations other than writing
    may change. *)

From Stdlib Require Import ZArith Lia Sorting.Sorted.
From stdpp Require Import prelude gmap.
From S2P Require Import Prelude OrdTree Avl AvlFacts AvlSearch AvlProps Bitset Reorder Dqueue Time Wire Protocol Receive Whc WhcFacts WhcOps WhcFind WhcRemove WhcInsert WhcWrite WhcHist WrReaders WrReadersFacts Xmsg XmsgFacts Writer.

Section Facts.
Context {T : Type -> Type} `{!OrdTree T, !OrdTreeLaws T}.
Context (cfg : writer_config) (ndebug : bool).
Context (Hfs : 0 < wc_fragment_size cfg).
Context (is_tl : bool) (hdepth tldepth : nat).
Context (Hset : settings ndebug is_tl hdepth tldepth sample_overhead).
Implicit Types (c : whc (T := T)) (w : writer (T := T)) (x : wx (T := T)) (h : hist).

Abbreviation fs := (wc_fragment_size cfg).
Abbreviation le := (wc_little_endian cfg).
Abbreviation cache_ok := (hist_ok (T := T) fs hdepth tldepth sample_overhead).

(** ** The history cache *)

(** The cache with other bookkeeping of retransmissions. *)
Definition touches (f : whc_node -> whc_node) : Prop := forall nd, nd_info (f nd) = nd_info nd /\ nd_next_seq (f nd) = nd_next_seq nd /\
  nd_prev_seq (f nd) = nd_prev_seq nd /\ nd_seq (f nd) = nd_seq nd.

Lemma touch_infos c q nd f : touches f -> wh_seq_hash c !! q = Some nd -> infos (set_hash c (<[q := f nd]> (wh_seq_hash c))) = infos c.
Proof.
  intros Hf Hq. unfold infos. simpl. rewrite fmap_insert. destruct (Hf nd) as [-> _]. apply insert_id. by rewrite lookup_fmap, Hq.
Qed.

Lemma touch_ok h c q nd f : cache_ok h c -> touches f -> whc_findseq c q = Some nd -> exists c', upd_node c q f = Some c' /\ cache_ok h c' /\
  infos c' = infos c /\ seqs c' = seqs c /\ wh_is_transient_local c' = wh_is_transient_local c /\ wh_max_drop_seq c' = wh_max_drop_seq c /\
  wh_unacked_bytes c' = wh_unacked_bytes c /\ wh_seq_size c' = wh_seq_size c.
Proof.
  intros H Hf Hq. unfold whc_findseq in Hq. unfold upd_node. rewrite Hq. cbn [mbind option_bind]. set (c' := set_hash c _). pose proof (touch_infos c q nd f Hf Hq) as Ei. fold c' in Ei.
  exists c'. split; [done|]. split; [|done]. destruct H as [K1 K2 K3 K4 K5 K6 K7 K8 K9 K10]. split; try (rewrite ?Ei; done).
  destruct K1 as [[[B1 B2 B3 B4] C2] W2 W3 W4 W5 W6 W7 W8 W9 W10]. split; try (rewrite ?Ei; done). split; [|rewrite ?Ei; exact C2].
  split; try (rewrite ?Ei; done). destruct B2 as [L1 L2]. split.
  - intros l1 y l2 E. destruct (L1 l1 y l2 E) as (nd' & Hn & E1 & E2 & E3). simpl. destruct (decide (q = y)) as [->|Hne].
    + rewrite lookup_insert_eq. rewrite Hq in Hn. injection Hn as <-. exists (f nd). destruct (Hf nd) as (_ & -> & -> & ->). done.
    + rewrite lookup_insert_ne by done. eauto.
  - intros y nd' Hy. simpl in Hy. apply lookup_insert_Some in Hy as [[<- _]|[_ Hy]]; [by eapply L2|by eapply L2].
Qed.

(** No sample becomes unacknowledged. *)
Definition marks_less c c' : Prop := forall q i', infos c' !! q = Some i' -> i'.1.2 = true -> exists i, infos c !! q = Some i /\ i.1.2 = true.
Lemma marks_less_refl c c' : infos c' = infos c -> marks_less c c'.
Proof. intros E q i. rewrite E. eauto. Qed.

Lemma whc_acks h c m : cache_ok h c -> wh_max_drop_seq c <= m < MAX_SEQ_NUMBER ->
  exists c' n, whc_remove_acked_messages ndebug fs c m = Some (c', n) /\ cache_ok (h_step h (OAck m)) c' /\ wh_is_transient_local c' = wh_is_transient_local c /\
    wh_max_drop_seq c' <= m /\ (forall q, q ∈ seqs c' -> q ∈ seqs c) /\ marks_less c c'.
Proof.
  intros H Hm. pose proof (ho_ok _ _ _ _ _ _ H) as Hk. destruct (wh_is_transient_local c && (wh_tldepth c =? 0)%nat) eqn:Ea.
  - apply andb_prop in Ea as [Htl Ht%Nat.eqb_eq]. rewrite (remove_acked_keep_all ndebug _ _ _ _ Hk Hm Htl Ht). exists c, 0. split; [done|]. split; [|split; [done|]; split; [lia|]; split; [done|by apply marks_less_refl]].
    apply (hist_ok_same fs hdepth tldepth sample_overhead h c); try done. simpl. lia.
  - destruct (remove_acked_ok ndebug _ Hfs _ _ m Hk Hm) as (L & R & c' & Hsp & E & A & Hk').
    { intros Htl Ht. rewrite Htl, Ht in Ea. done. }
    { by eapply (hist_ok_deep ndebug fs is_tl hdepth tldepth sample_overhead h). }
    eexists c', _. split; [exact E|]. split; [eapply (hist_ok_ack fs hdepth tldepth sample_overhead); [exact H|lia|done|done|done]|].
    destruct A as [A1 A2 A3 A4 A5 A6 A7]. destruct (static_fields _ _ A4) as (_ & -> & _). split; [done|]. split; [lia|]. split.
    + intros q. rewrite A2. unfold left_by. intros [_ Hq]%list_elem_of_filter. destruct Hsp as (-> & _ & _). apply elem_of_app in Hq as [Hq|Hq]; apply elem_of_app; [by left|right]. by apply list_elem_of_filter in Hq as [_ ?].
    + intros q i' Hi Hu. specialize (A3 q). rewrite Hi in A3. destruct (decide (q ∈ seqs c')); [|done]. destruct (decide (q ∈ R /\ q <= m)); [|eauto].
      destruct (infos c !! q) as [i|]; simplify_eq/=.
Qed.

Lemma whc_inserts h c md q sd : cache_ok h c -> legal h c (OWrite md q sd) -> exists c', whc_insert fs c md q sd = Some c' /\
  cache_ok (h_step h (OWrite md q sd)) c' /\ wh_is_transient_local c' = wh_is_transient_local c /\ wh_max_drop_seq c' = wh_max_drop_seq c /\
  (forall y, y ∈ seqs c' -> y ∈ seqs c \/ y = q) /\
  (forall y i', infos c' !! y = Some i' -> i'.1.2 = true -> y = q /\ md < q \/ exists i, infos c !! y = Some i /\ i.1.2 = true).
Proof.
  intros H Hl. pose proof (ho_ok _ _ _ _ _ _ H) as Hk. destruct (whc_insert_spec _ Hfs (h_log h) c md q sd) as (c' & E & Wr); [by apply whc_ok_settled|apply Hk|by eapply hist_ok_may_write|].
  exists c'. split; [done|]. split; [by apply (hist_ok_write fs hdepth tldepth sample_overhead h c)|]. destruct Wr as [W1 W2 W3 W4 W5 W6 W7 W8 W9]. destruct (static_fields _ _ W2) as (_ & -> & _). split; [done|]. split; [done|]. split; [done|].
  intros y i' Hi Hu. destruct (W6 y i' Hi) as [(-> & Em & _)|(i0 & Hi0 & Em & _)]; [left; split; [done|]; rewrite Hu in Em; symmetry in Em; by apply Z.ltb_lt|right; exists i0; split; [done|congruence]].
Qed.

Lemma whc_downgrades h c : cache_ok h c -> wh_is_transient_local c = false -> exists c', whc_downgrade_to_volatile ndebug fs c = Some c' /\ cache_ok h c' /\
  wh_is_transient_local c' = false /\ wh_max_drop_seq c' = wh_max_drop_seq c /\ (forall y, y ∈ seqs c' -> y ∈ seqs c) /\ marks_less c c'.
Proof.
  intros H Htl. destruct (whc_downgrade_spec ndebug _ Hfs _ _ (ho_ok _ _ _ _ _ _ H) Htl) as (c' & E & D). exists c'. split; [done|]. split; [by eapply hist_ok_downgrade|].
  destruct D as [D1 D2 D3 D4 D5]. injection D4 as _ -> _ _ _. split; [done|]. split; [done|]. rewrite D2. split; [intros y [_ ?]%list_elem_of_filter; done|].
  intros q i' Hi Hu. destruct (D3 q i' Hi) as (i & Hi0 & Em & _). exists i. split; [done|congruence].
Qed.
Lemma cache_find h c q : cache_ok h c -> is_Some (whc_findseq c q) <-> q ∈ seqs c.
Proof.
  intros H. unfold whc_findseq. rewrite <- (core_infos fs c q (wo_core _ _ _ (ho_ok _ _ _ _ _ _ H))). unfold infos. by rewrite lookup_fmap, fmap_is_Some.
Qed.
Lemma cache_empty h c : cache_ok h c -> whc_empty c = bool_decide (seqs c = []).
Proof. intros H. by eapply whc_empty_spec, (wo_size _ _ _ (ho_ok _ _ _ _ _ _ H)). Qed.
Lemma cache_min h c : cache_ok h c -> whc_min_seq c = head (seqs c).
Proof. intros H. destruct (ho_ok _ _ _ _ _ _ H) as [K1 K2 K3 _ _ _ _ _ _ _]. by eapply whc_min_seq_core. Qed.
Lemma cache_max h c : cache_ok h c -> whc_max_seq c = last (seqs c).
Proof. intros H. destruct (ho_ok _ _ _ _ _ _ H) as [K1 K2 K3 _ _ _ _ _ _ _]. by eapply whc_max_seq_core. Qed.
Lemma cache_sorted h c : cache_ok h c -> StronglySorted Z.lt (seqs c).
Proof. intros H. eapply core_sorted, (wo_core _ _ _ (ho_ok _ _ _ _ _ _ H)). Qed.
Lemma cache_pos h c q : cache_ok h c -> q ∈ seqs c -> 1 <= q.
Proof. intros H. eapply core_pos, (wo_core _ _ _ (ho_ok _ _ _ _ _ _ H)). Qed.
Lemma cache_last h c q : cache_ok h c -> q ∈ seqs c -> q <= h_last h.
Proof. intros H Hq. destruct (hist_ok_seqs _ _ _ _ _ _ _ H Hq) as (i & _ & Hd). by apply (proj2 (ho_last _ _ _ _ _ _ H)) in Hd. Qed.
Lemma cache_drop h c : cache_ok h c -> 0 <= wh_max_drop_seq c <= h_ack h.
Proof. intros H. split; [apply (wo_drop _ _ _ (ho_ok _ _ _ _ _ _ H))|apply (ho_ack _ _ _ _ _ _ H)]. Qed.
Lemma cache_unacked h c : cache_ok h c -> 0 <= whc_unacked_bytes c.
Proof.
  intros H. destruct (wo_core _ _ _ (ho_ok _ _ _ _ _ _ H)) as [[_ _ E [S1 S2]] _]. unfold whc_unacked_bytes. rewrite E. by apply usum_nonneg.
Qed.

(** All samples have data: an empty one does not count as unacknowledged. *)
Definition sized (d : gmap Z serdata) : Prop := forall q sd, d !! q = Some sd -> 0 < sd_size sd.

Lemma cache_unacked_zero h c q : cache_ok h c -> sized (h_data h) -> whc_unacked_bytes c = 0 -> q ∈ seqs c -> q <= h_ack h.
Proof.
  intros H Hs Hu Hq. destruct (Z.le_gt_cases q (h_ack h)) as [|Hlt]; [done|]. destruct (hist_ok_seqs _ _ _ _ _ _ _ H Hq) as (i & Hi & Hd). destruct (ho_flag _ _ _ _ _ _ H q i Hi) as [_ Hf]. specialize (Hf Hlt).
  pose proof (Hs q _ Hd) as Hp. destruct (wo_core _ _ _ (ho_ok _ _ _ _ _ _ H)) as [[_ _ E [S1 S2]] _]. unfold whc_unacked_bytes in Hu. rewrite E in Hu.
  destruct (list_elem_of_split _ _ Hq) as (l1 & l2 & El). rewrite El, usum_app in Hu. cbn [usum foldr] in Hu. unfold cost_at at 1 in Hu. rewrite Hi in Hu. unfold cost in Hu. rewrite Hf in Hu.
  pose proof (usum_nonneg fs Hfs (wh_sample_overhead c) (infos c) l1 S1 S2). pose proof (usum_nonneg fs Hfs (wh_sample_overhead c) (infos c) l2 S1 S2). unfold usum in *.
  assert (0 <= (sd_size i.2 + fs - 1) / fs) by (apply Z.div_pos; lia). nia.
Qed.

(** ** The invariant *)

Definition matches w : list wr_prd_match := elements (wr_readers w).

Definition match_ok (seq : Z) (n : wr_prd_match) : Prop :=
  0 <= rn_seq n /\ (rn_seq n <= seq \/ rn_seq n = MAX_SEQ_NUMBER) /\ known (rn_prd_guid n) = true /\ (rn_is_reliable n = false -> rn_seq n = MAX_SEQ_NUMBER) /\
  (rn_is_reliable n = true -> rn_has_replied_to_hb n = true -> rn_seq n <> 0).

Record writer_ok h w : Prop := {
  wk_readers : readers_ok le (wr_readers w);
  wk_match : Forall (match_ok (wr_seq w)) (matches w);
  wk_count : wr_num_reliable_readers w = Z.of_nat (length (filter (fun n => rn_is_reliable n = true) (matches w)));
  wk_xmit : 0 <= wr_seq_xmit w <= wr_seq w;
  wk_seq : wr_seq w < MAX_SEQ_NUMBER;
  wk_whc : cache_ok h (wr_whc w);
  wk_tl : wh_is_transient_local (wr_whc w) = wr_handle_as_transient_local w;
  wk_last : h_last h <= wr_seq w;
  wk_ack : h_ack h <= writer_max_drop_seq w;
  wk_unreliable : wr_reliable w = false -> Forall (fun n => rn_is_reliable n = false) (matches w);
  wk_event : is_Some (wr_heartbeat_xevent w) <-> wr_reliable w = true;
  wk_besteffort : wr_reliable w = false -> forall q i, infos (wr_whc w) !! q = Some i -> i.1.2 = false;
  wk_startup : wr_startup_mode w = true -> wr_handle_as_transient_local w = false;
  wk_time : 0 <= wl_t_whc_high_upd (wr_limits_ w);
  wk_guid : is_writer_entityid (guid_entityid (wr_guid w)) = true /\ (guid_prefix (wr_guid w)).1.1 <> 0 /\
            guid_entityid (wr_guid w) <> NN_ENTITYID_SPDP_BUILTIN_PARTICIPANT_WRITER;
}.

(** ** What all readers have acknowledged *)

Lemma match_seqs_ok w : wr_seq w < MAX_SEQ_NUMBER -> Forall (match_ok (wr_seq w)) (matches w) -> seqs_ok (matches w).
Proof. intros Hs H. eapply Forall_impl; [exact H|]. intros n (A & B & _). simpl. lia. Qed.

(** [writer_max_drop_seq] is the least acknowledged number of the readers that
    count, or the last one written. *)
Lemma max_drop_spec w : readers_ok le (wr_readers w) -> Forall (match_ok (wr_seq w)) (matches w) -> wr_seq w < MAX_SEQ_NUMBER -> 0 <= wr_seq w ->
  0 <= writer_max_drop_seq w <= wr_seq w /\ (forall n, n ∈ matches w -> rn_seq n <> MAX_SEQ_NUMBER -> writer_max_drop_seq w <= rn_seq n) /\
  (writer_max_drop_seq w = wr_seq w \/ exists n, n ∈ matches w /\ rn_seq n <> MAX_SEQ_NUMBER /\ rn_seq n = writer_max_drop_seq w).
Proof.
  intros Hr Hm Hs H0. pose proof (match_seqs_ok _ Hs Hm) as Hq. unfold writer_max_drop_seq, root_rdmatch, matches in *. destruct Hr as [_ Ha].
  pose proof (aug_ok_summary _ Ha Hq) as Hsum. destruct (wr_readers w) as [|hh l y s r]; cbn [ut_avlRoot onode_from_node option_map snd summary_of] in *.
  { split; [lia|]. split; [intros n Hn; by apply elem_of_nil in Hn|by left]. }
  destruct Hsum as [[(n & Hn & En) Hmin] _ _ _]. rewrite Forall_forall in Hm. destruct (Z.eqb_spec (rs_min_seq s) MAX_SEQ_NUMBER) as [E|E].
  - split; [lia|]. split; [|by left]. intros n' Hn' Hne. specialize (Hmin n' Hn'). destruct (Hm n' Hn') as (_ & [B|B] & _); lia.
  - destruct (Hm n Hn) as (A & B & _). split; [lia|]. split; [intros n' Hn' _; by apply Hmin|]. right. exists n. split; [done|]. split; [congruence|done].
Qed.

Lemma max_drop_ge w a : readers_ok le (wr_readers w) -> Forall (match_ok (wr_seq w)) (matches w) -> wr_seq w < MAX_SEQ_NUMBER -> 0 <= wr_seq w -> a <= wr_seq w ->
  (forall n, n ∈ matches w -> rn_seq n <> MAX_SEQ_NUMBER -> a <= rn_seq n) -> a <= writer_max_drop_seq w.
Proof. intros Hr Hm Hs H0 Ha Hn. destruct (max_drop_spec w Hr Hm Hs H0) as (_ & _ & [->|(n & Hin & Hne & <-)]); auto. Qed.

Lemma writer_ok_max_drop h w : writer_ok h w -> 0 <= writer_max_drop_seq w <= wr_seq w /\ (forall n, n ∈ matches w -> rn_seq n <> MAX_SEQ_NUMBER -> h_ack h <= rn_seq n) /\
  wh_max_drop_seq (wr_whc w) <= writer_max_drop_seq w < MAX_SEQ_NUMBER.
Proof.
  intros H. pose proof (wk_xmit _ _ H). pose proof (wk_seq _ _ H). pose proof (wk_ack _ _ H). destruct (max_drop_spec w (wk_readers _ _ H) (wk_match _ _ H)) as (A & B & _); [lia|lia|].
  pose proof (cache_drop _ _ (wk_whc _ _ H)). split; [done|]. split; [|lia]. intros n Hn Hne. specialize (B n Hn Hne). lia.
Qed.
(** ** Changes that keep the invariant *)

(** The heartbeat event is scheduled no later than [tsched] and [t]. *)
Definition hb_upto (t : Z) w : Prop := exists ev, wr_heartbeat_xevent w = Some ev /\ ev <= hbc_tsched (wr_hbcontrol w) /\ ev <= t.

(** A reader that has not been given up on has not acknowledged a sample that is
    in the cache. *)
Definition behind w : Prop := exists n q, n ∈ matches w /\ rn_seq n <> MAX_SEQ_NUMBER /\ q ∈ seqs (wr_whc w) /\ rn_seq n < q.
Definition lags_less w (n n' : wr_prd_match) : Prop :=
  forall q, q ∈ seqs (wr_whc w) -> rn_seq n' <> MAX_SEQ_NUMBER -> rn_seq n' < q -> rn_seq n <> MAX_SEQ_NUMBER /\ rn_seq n < q.

Lemma behind_less w w' : (forall n', n' ∈ matches w' -> rn_seq n' <> MAX_SEQ_NUMBER -> (forall q, q ∈ seqs (wr_whc w) -> q <= rn_seq n') \/ exists n, n ∈ matches w /\ lags_less w n n') ->
  (forall q, q ∈ seqs (wr_whc w') -> q ∈ seqs (wr_whc w)) -> behind w' -> behind w.
Proof.
  intros Hn Hq (n' & q & Hn' & Hne & Hin & Hlt). destruct (Hn n' Hn' Hne) as [Hall|(n & Hin' & Hl)]; [specialize (Hall q (Hq q Hin)); lia|]. destruct (Hl q (Hq q Hin) Hne Hlt) as [A B]. exists n, q. auto.
Qed.

(** The fields that the invariant looks at, besides the cache. *)
Record same_core w w' : Prop := {
  sc_traits : wr_traits_ w' = wr_traits_ w;
  sc_seq : wr_seq w' = wr_seq w;
  sc_xmit : wr_seq_xmit w' = wr_seq_xmit w;
  sc_readers : wr_readers w' = wr_readers w;
  sc_num : wr_num_reliable_readers w' = wr_num_reliable_readers w;
  sc_event : is_Some (wr_heartbeat_xevent w') <-> is_Some (wr_heartbeat_xevent w);
  sc_startup : wr_startup_mode w' = true -> wr_startup_mode w = true;
  sc_time : 0 <= wl_t_whc_high_upd (wr_limits_ w) -> 0 <= wl_t_whc_high_upd (wr_limits_ w');
  sc_hb : forall t, hb_upto t w -> hb_upto t w';
}.

Lemma same_core_refl w : same_core w w.
Proof. by split. Qed.
Lemma same_core_trans w1 w2 w3 : same_core w1 w2 -> same_core w2 w3 -> same_core w1 w3.
Proof. intros [A1 A2 A3 A4 A5 A6 A7 A8 A9] [B1 B2 B3 B4 B5 B6 B7 B8 B9]. split; try congruence; [by rewrite B6|auto|auto|auto]. Qed.

Lemma same_core_max_drop w w' : same_core w w' -> writer_max_drop_seq w' = writer_max_drop_seq w.
Proof. intros [A1 A2 A3 A4 A5 A6 A7 A8 A9]. unfold writer_max_drop_seq, root_rdmatch. by rewrite A2, A4. Qed.

(** With another cache for the same history or a longer one. *)
Lemma writer_ok_cache h h' w w' : writer_ok h w -> same_core w w' -> cache_ok h' (wr_whc w') -> wh_is_transient_local (wr_whc w') = wh_is_transient_local (wr_whc w) ->
  h_last h' <= wr_seq w -> h_ack h' <= writer_max_drop_seq w -> marks_less (wr_whc w) (wr_whc w') -> writer_ok h' w'.
Proof.
  intros [K1 K2 K3 K4 K5 K6 K7 K8 K9 K10 K11 K12 K13 K14 K15] S Hc Htl Hl Ha Hml. pose proof (same_core_max_drop _ _ S) as Hmd. destruct S as [S1 S2 S3 S4 S5 S6 S7 S8 S9].
  unfold matches, wr_guid, wr_reliable, wr_handle_as_transient_local in *. split; unfold matches, wr_guid, wr_reliable, wr_handle_as_transient_local; rewrite ?S1, ?S2, ?S3, ?S4, ?S5, ?Hmd; try done.
  - congruence.
  - rewrite S6. done.
  - intros Hr q i Hi. destruct (i.1.2) eqn:Eu; [|done]. destruct (Hml q i Hi Eu) as (i0 & Hi0 & Eu0). rewrite (K12 Hr q i0 Hi0) in Eu0. done.
  - intros H. auto.
  - auto.
Qed.

Lemma writer_ok_frame h w w' : writer_ok h w -> same_core w w' -> wr_whc w' = wr_whc w -> writer_ok h w'.
Proof. intros H S E. pose proof (wk_whc _ _ H). apply (writer_ok_cache h h w w' H S); rewrite ?E; try done; [apply (wk_last _ _ H)|apply (wk_ack _ _ H)|by apply marks_less_refl]. Qed.

(** What [remove_acked_messages] leaves alone. *)
Record acked_frame x x' : Prop := {
  af_core : same_core (wx_wr x) (wx_wr x');
  af_numbers : wr_numbers_ (wx_wr x') = wr_numbers_ (wx_wr x);
  af_hb : wr_hbcontrol (wx_wr x') = wr_hbcontrol (wx_wr x) /\ wr_heartbeat_xevent (wx_wr x') = wr_heartbeat_xevent (wx_wr x);
  af_evq : wx_evq x' = wx_evq x;
  af_startup : wr_startup_mode (wx_wr x') = wr_startup_mode (wx_wr x);
  af_limits : wr_whc_low (wx_wr x') = wr_whc_low (wx_wr x) /\ wr_whc_high (wx_wr x') = wr_whc_high (wx_wr x) /\ wr_throttling (wx_wr x') = wr_throttling (wx_wr x);
  af_state : wr_state (wx_wr x') = wr_state (wx_wr x) \/ wr_state (wx_wr x) = WRST_LINGERING /\ wr_state (wx_wr x') = WRST_DELETING /\ whc_unacked_bytes (wr_whc (wx_wr x')) = 0;
}.

(** The number of reliable readers does not matter to [remove_acked_messages],
    and [writer_drop_connection] corrects it later. *)
Definition set_num w (n : Z) : writer (T := T) := set_readers w n (wr_readers w).
Lemma set_num_id w : set_num w (wr_num_reliable_readers w) = w.
Proof. by destruct w. Qed.

Lemma remove_acked_gen h x et num : writer_ok h (set_num (wx_wr x) num) -> 0 <= et -> exists x' n, remove_acked_messages cfg ndebug x et = Some (x', n) /\
  writer_ok (h_step h (OAck (writer_max_drop_seq (wx_wr x)))) (set_num (wx_wr x') num) /\ acked_frame x x' /\
  (forall q, q ∈ seqs (wr_whc (wx_wr x')) -> q ∈ seqs (wr_whc (wx_wr x))).
Proof.
  intros H Het. destruct (writer_ok_max_drop _ _ H) as (M1 & _ & M2). destruct (wk_guid _ _ H) as (_ & _ & G). pose proof (wk_whc _ _ H) as Hwhc. pose proof (wk_last _ _ H) as Hlast. pose proof (wk_ack _ _ H) as Hack.
  change (writer_max_drop_seq (set_num _ _)) with (writer_max_drop_seq (wx_wr x)) in *. change (wr_whc (set_num _ _)) with (wr_whc (wx_wr x)) in *. change (wr_seq (set_num _ _)) with (wr_seq (wx_wr x)) in *.
  change (wr_guid (set_num _ _)) with (wr_guid (wx_wr x)) in G. unfold remove_acked_messages. rewrite (proj2 (Z.eqb_neq _ _) G).
  destruct (whc_acks h (wr_whc (wx_wr x)) (writer_max_drop_seq (wx_wr x)) Hwhc M2) as (c & n & -> & Hc & Htl & Hmd & Hsub & Hml). cbn [mbind option_bind].
  set (x1 := put x (set_whc (wx_wr x) c)). set (x2 := if wr_throttling _ && _ then emit x1 WOutBroadcast else x1). set (x3 := if wr_retransmitting _ && _ then _ else x2).
  assert (E3 : wr_state (wx_wr x3) = wr_state (wx_wr x) /\ wr_whc (wx_wr x3) = c /\ acked_frame x x3).
  { unfold x3, x2. destruct (wr_throttling _ && _), (wr_retransmitting _ && _); (split; [done|]); (split; [done|]); split; try done; by left. }
  destruct E3 as (Est & Ec & [F1 F2 F3 F4 F5 F6 F7]). destruct (bool_decide (wr_state (wx_wr x) = WRST_LINGERING) && _) eqn:El.
  - apply andb_true_iff in El as [El Eu%Z.eqb_eq]. apply bool_decide_eq_true in El. unfold delete_writer_nolinger_locked, writer_set_state. cbn [emit wx_wr put].
    rewrite Est, El. cbn. eexists _, _. split; [done|]. cbn. split; [|split; [|by rewrite Ec]].
    + apply (writer_ok_cache h _ (set_num (wx_wr x) num)); try done; cbn; rewrite ?Ec; try done; [destruct F1; by split|]. change (writer_max_drop_seq (set_num (wx_wr x) num)) with (writer_max_drop_seq (wx_wr x)). lia.
    + split; try done; [by destruct F1|]. right. split; [done|]. split; [done|]. cbn. by rewrite Ec.
  - cbn [mbind option_bind]. eexists _, _. split; [done|]. split; [|split; [by split|by rewrite Ec]]. apply (writer_ok_cache h _ (set_num (wx_wr x) num)); try done; cbn; rewrite ?Ec; try done; [destruct F1; by split|]. change (writer_max_drop_seq (set_num (wx_wr x) num)) with (writer_max_drop_seq (wx_wr x)). lia.
Qed.

Lemma remove_acked_ok_ h x et : writer_ok h (wx_wr x) -> 0 <= et -> exists x' n, remove_acked_messages cfg ndebug x et = Some (x', n) /\
  writer_ok (h_step h (OAck (writer_max_drop_seq (wx_wr x)))) (wx_wr x') /\ acked_frame x x' /\ (forall q, q ∈ seqs (wr_whc (wx_wr x')) -> q ∈ seqs (wr_whc (wx_wr x))).
Proof.
  intros H Het. rewrite <- (set_num_id (wx_wr x)) in H. destruct (remove_acked_gen h x et _ H Het) as (x' & n & E & Hok & F & Hs). exists x', n. split; [done|]. split; [|done].
  rewrite <- (sc_num _ _ (af_core _ _ F)), set_num_id in Hok. done.
Qed.
(** ** Other readers *)

Lemma writer_ok_set_readers h w num t : writer_ok h w -> readers_ok le t -> Forall (match_ok (wr_seq w)) (elements t) ->
  num = Z.of_nat (length (filter (fun n => rn_is_reliable n = true) (elements t))) -> (wr_reliable w = false -> Forall (fun n => rn_is_reliable n = false) (elements t)) ->
  (forall n, n ∈ elements t -> rn_seq n <> MAX_SEQ_NUMBER -> h_ack h <= rn_seq n) -> writer_ok h (set_readers w num t).
Proof.
  intros H Ht Hm Hn Hu Ha. destruct (writer_ok_max_drop _ _ H) as (M1 & _ & _). pose proof (wk_ack _ _ H). destruct H as [K1 K2 K3 K4 K5 K6 K7 K8 K9 K10 K11 K12 K13 K14 K15].
  split; try done. apply max_drop_ge; try done; unfold wr_seq in *; simpl; lia.
Qed.

Lemma elem_of_change k f l n : n ∈ change le k f l -> exists n0, n0 ∈ l /\ (rn_key le n0 = k /\ n = f n0 \/ rn_key le n0 <> k /\ n = n0).
Proof.
  unfold change. intros (n0 & -> & Hn)%list_elem_of_fmap. exists n0. split; [done|]. destruct (Z.eqb_spec (rn_key le n0) k); [left|right]; done.
Qed.

Lemma change_reliable k f l : (forall n, rn_is_reliable (f n) = rn_is_reliable n) ->
  length (filter (fun n => rn_is_reliable n = true) (change le k f l)) = length (filter (fun n => rn_is_reliable n = true) l).
Proof.
  intros Hf. induction l as [|n l IH]; [done|]. simpl. rewrite !filter_cons. assert (E : rn_is_reliable (if rn_key le n =? k then f n else n) = rn_is_reliable n) by (case_match; auto).
  rewrite E. case_decide; simpl; by rewrite IH.
Qed.

(** An assignment to the fields of one reader. *)
Definition keeps_identity (f : wr_prd_match -> wr_prd_match) : Prop := forall n, rn_prd_guid (f n) = rn_prd_guid n /\ rn_is_reliable (f n) = rn_is_reliable n.

Lemma writer_ok_change h w k f t : writer_ok h w -> keeps_identity f -> readers_ok le t -> elements t = change le k f (matches w) ->
  (forall n, n ∈ matches w -> rn_key le n = k -> match_ok (wr_seq w) n -> match_ok (wr_seq w) (f n) /\ (rn_seq (f n) <> MAX_SEQ_NUMBER -> h_ack h <= rn_seq (f n))) ->
  writer_ok h (set_readers w (wr_num_reliable_readers w) t).
Proof.
  intros H Hf Ht E Hn. destruct (writer_ok_max_drop _ _ H) as (_ & Hack & _). pose proof (wk_match _ _ H) as Hm. rewrite Forall_forall in Hm. apply writer_ok_set_readers; rewrite ?E; try done.
  - apply Forall_forall. intros n (n0 & Hn0 & [[Hk ->]|[_ ->]])%elem_of_change; [|auto]. by apply Hn; auto.
  - rewrite change_reliable by apply Hf. apply (wk_count _ _ H).
  - intros Hr. pose proof (wk_unreliable _ _ H Hr) as Hu. rewrite Forall_forall in *. intros n (n0 & Hn0 & [[Hk ->]|[_ ->]])%elem_of_change; [rewrite (proj2 (Hf n0))|]; auto.
  - intros n (n0 & Hn0 & [[Hk ->]|[_ ->]])%elem_of_change; [|auto]. by apply Hn; auto.
Qed.

Lemma writer_ok_upd_augment h w k f : writer_ok h w -> keeps_identity f ->
  (forall n, n ∈ matches w -> rn_key le n = k -> match_ok (wr_seq w) n -> match_ok (wr_seq w) (f n) /\ (rn_seq (f n) <> MAX_SEQ_NUMBER -> h_ack h <= rn_seq (f n))) ->
  writer_ok h (set_readers w (wr_num_reliable_readers w) (upd_match_augment le (wr_readers w) k f)).
Proof.
  intros H Hf Hn. destruct (upd_match_augment_spec le (wr_readers w) k f (wk_readers _ _ H)) as [Ht E]; [intros n; apply Hf|]. by apply (writer_ok_change h w k f).
Qed.

Lemma zip_root (p : list (@frame wr_prd_match wr_prd_summary)) n n' : option_map snd (ut_avlRoot n) = option_map snd (ut_avlRoot n') ->
  option_map snd (ut_avlRoot (zip p n)) = option_map snd (ut_avlRoot (zip p n')).
Proof. revert n n'. induction p as [|f p IH]; intros n n' E; [done|]. apply IH. unfold plug. by destruct (fr_dir f). Qed.

(** It leaves the summaries alone. *)
Lemma max_drop_upd h w k f num : writer_ok h w -> writer_max_drop_seq (set_readers w num (upd_match le (wr_readers w) k f)) = writer_max_drop_seq w.
Proof.
  intros H. unfold writer_max_drop_seq, root_rdmatch. simpl. unfold upd_match. destruct (lookup_path _ (wr_readers w) k []) as [nd p] eqn:E. destruct nd as [|hh l y a r]; [done|].
  destruct (lookup_reader_path _ _ _ _ _ (wk_readers _ _ H) E) as (Hz & _). rewrite (zip_root p _ (Node hh l y a r)) by done. by rewrite Hz.
Qed.

Lemma writer_ok_upd h w k f : writer_ok h w -> unsummarized f -> writer_ok h (set_readers w (wr_num_reliable_readers w) (upd_match le (wr_readers w) k f)).
Proof.
  intros H Hf. destruct (writer_ok_max_drop _ _ H) as (_ & Hack & _). pose proof (wk_readers _ _ H) as Hr.
  apply (writer_ok_change h w k f); [done|intros n; split; apply Hf|by apply upd_match_ok|by apply upd_match_elements|].
  intros n Hn Hk Hm. destruct (Hf n) as (F1 & F2 & F3 & F4). unfold match_ok. rewrite F1, F2, F3, F4. split; [done|]. auto.
Qed.

(** [ut_avlLookup] among the readers. *)
Lemma lookup_match h w k : writer_ok h w -> match ut_avlLookup (wr_readers_treedef le) (wr_readers w) k with
  | Some (n, _) => n ∈ matches w /\ rn_key le n = k /\ match_ok (wr_seq w) n
  | None => Forall (fun n => rn_key le n <> k) (matches w)
  end.
Proof.
  intros H. pose proof (found_reader_spec le _ k (wk_readers _ _ H)) as Hf. unfold find_reader in Hf. destruct (ut_avlLookup _ _ k) as [[n a]|]; simpl in Hf; [|done].
  destruct Hf as [Hn Hk]. split; [done|]. split; [done|]. pose proof (wk_match _ _ H) as Hm. rewrite Forall_forall in Hm. auto.
Qed.

Lemma lookup_match_unique h w n : writer_ok h w -> n ∈ matches w -> exists a, ut_avlLookup (wr_readers_treedef le) (wr_readers w) (rn_key le n) = Some (n, a).
Proof.
  intros H Hn. pose proof (find_reader_unique le _ n (wk_readers _ _ H) Hn) as Hf. unfold find_reader in Hf. destruct (ut_avlLookup _ _ _) as [[n' a]|]; simpl in Hf; [|done]. injection Hf as ->. eauto.
Qed.

(** ** Matching with a reader, and no longer *)

Lemma match_ok_mono seq seq' n : seq <= seq' -> match_ok seq n -> match_ok seq' n.
Proof. intros Hs (A & B & C). split; [done|]. split; [lia|done]. Qed.

Lemma writer_add_connection_ok h x prd : writer_ok h (wx_wr x) -> known (prd_guid prd) = true -> (prd_reliable prd = true -> wr_reliable (wx_wr x) = true) ->
  exists x' b, writer_add_connection cfg x prd = Some (x', b) /\ writer_ok h (wx_wr x') /\ wx_evq x' = wx_evq x /\ wr_whc (wx_wr x') = wr_whc (wx_wr x) /\
    wr_numbers_ (wx_wr x') = wr_numbers_ (wx_wr x) /\ wr_state (wx_wr x') = wr_state (wx_wr x) /\
    wr_hbcontrol (wx_wr x') = wr_hbcontrol (wx_wr x) /\ wr_heartbeat_xevent (wx_wr x') = wr_heartbeat_xevent (wx_wr x) /\ (b = false -> x' = x) /\
    (forall n, n ∈ matches (wx_wr x') -> n ∈ matches (wx_wr x) \/ (rn_seq n = MAX_SEQ_NUMBER \/ rn_seq n = wr_seq (wx_wr x))).
Proof.
  intros H Hk Hrel. unfold writer_add_connection, reader_key. set (m := new_match _ _ _). pose proof (wk_readers _ _ H) as Hr. destruct (writer_ok_max_drop _ _ H) as (M1 & M2 & M3).
  pose proof (wk_match _ _ H) as Hm. pose proof (found_reader_spec le (wr_readers (wx_wr x)) (rn_key le m) Hr) as Hf. rewrite find_reader_path in Hf.
  destruct (ut_avlLookupIPath _ _ _) as [o path] eqn:Ep. unfold ut_avlLookupIPath in Ep. change (guid_key le (prd_guid prd)) with (rn_key le m) in Ep.
  destruct (lookup_path _ _ (rn_key le m) []) as [nd p] eqn:El. injection Ep as <- <-. cbn [fst] in Hf. destruct nd as [|hh l y a r]; cbn [onode_from_node] in *.
  - destruct (insert_reader_ok le (wr_readers (wx_wr x)) m zero_summary Hr) as (t & l1 & l2 & Ei & Ht & E1 & E2); [by rewrite find_reader_path, El|].
    unfold ut_avlInsert in Ei. cbn [fst] in Ei. change (td_key (wr_readers_treedef le) m) with (rn_key le m) in Ei. unfold ut_avlLookupIPath in Ei. rewrite El in Ei. rewrite Ei.
    cbn [mbind option_bind]. eexists _, _. split; [done|]. cbn [emit put wx_wr]. unfold matches in *. split.
    2: { repeat (split; [done|]). intros n. simpl. rewrite E1, E2, !elem_of_app, elem_of_cons. intros [Hn|[->|Hn]]; [left; by left| |left; by right]. right. unfold m, new_match. cbn. destruct (_ || _); [by left|by right]. }
    assert (Hmo : match_ok (wr_seq (wx_wr x)) m).
    { unfold match_ok, m, new_match. cbn. unfold MAX_SEQ_NUMBER. destruct (prd_deleting prd), (prd_reliable prd); cbn; repeat split; try lia; try done; auto. }
    rewrite E1, Forall_app in Hm. apply writer_ok_set_readers; try done; rewrite ?E2.
    + rewrite Forall_app, Forall_cons. tauto.
    + rewrite (wk_count _ _ H). unfold matches. rewrite E1, !filter_app, !length_app. rewrite filter_cons. case_decide as Hd; [rewrite Hd|apply not_true_is_false in Hd; rewrite Hd]; simpl; lia.
    + intros Hu. pose proof (wk_unreliable _ _ H Hu) as Hun. unfold matches in Hun. rewrite E1, Forall_app in Hun. rewrite Forall_app, Forall_cons. split; [tauto|]. split; [|tauto].
      destruct (rn_is_reliable m) eqn:Em; [|done]. rewrite Hrel in Hu by done. done.
    + intros n Hn Hne. assert (n ∈ l1 ++ l2 \/ n = m) as [Hin| ->] by set_solver; [apply M2; [unfold matches; by rewrite E1|done]|].
      pose proof (wk_ack _ _ H). unfold m, new_match in *. cbn in *. destruct (prd_deleting prd || negb (prd_reliable prd)); [done|lia].
  - eexists _, _. split; [done|]. repeat (split; [done|]). by left.
Qed.
Lemma drop_reader_ok h w m t l1 l2 : writer_ok h w -> readers_ok le t -> matches w = l1 ++ m :: l2 -> elements t = l1 ++ l2 ->
  writer_ok h (set_readers w (wr_num_reliable_readers w - (if rn_is_reliable m then 1 else 0)) t).
Proof.
  intros H Ht E1 E2. destruct (writer_ok_max_drop _ _ H) as (M1 & M2 & M3). pose proof (wk_match _ _ H) as Hm. rewrite E1, Forall_app, Forall_cons in Hm.
  apply writer_ok_set_readers; try done; rewrite ?E2, ?Forall_app.
  - tauto.
  - rewrite (wk_count _ _ H), E1, !filter_app, !length_app, filter_cons. case_decide as Hd; [rewrite Hd|apply not_true_is_false in Hd; rewrite Hd]; simpl; lia.
  - intros Hu. pose proof (wk_unreliable _ _ H Hu) as Hun. rewrite E1, Forall_app, Forall_cons in Hun. tauto.
  - intros n Hin. apply M2. rewrite E1. set_solver.
Qed.
End Facts.

(** ** What the operations on readers and states do to the invariant

    [advances] is what all operations have in common that do not write. *)

Section Steps.
Context {T : Type -> Type} `{!OrdTree T, !OrdTreeLaws T}.
Context (cfg : writer_config) (ndebug : bool).
Context (Hfs : 0 < wc_fragment_size cfg).
Context (is_tl : bool) (hdepth tldepth : nat).
Context (Hset : settings ndebug is_tl hdepth tldepth sample_overhead).
Context (fl : list xevent_nt).
Implicit Types (c : whc (T := T)) (w : writer (T := T)) (x : wx (T := T)) (h : hist).

Abbreviation fs := (wc_fragment_size cfg).
Abbreviation le := (wc_little_endian cfg).
Abbreviation ok := (writer_ok (T := T) cfg hdepth tldepth).

(** More was acknowledged, nothing was written. *)
Record acks_more h h' : Prop := {
  am_log : h_log h' = h_log h;
  am_data : h_data h' = h_data h;
  am_last : h_last h' = h_last h;
  am_ack : h_ack h <= h_ack h';
}.

Lemma acks_more_refl h : acks_more h h.
Proof. by split. Qed.
Lemma acks_more_trans h1 h2 h3 : acks_more h1 h2 -> acks_more h2 h3 -> acks_more h1 h3.
Proof. intros [A1 A2 A3 A4] [B1 B2 B3 B4]. split; [congruence|congruence|congruence|lia]. Qed.
Lemma acks_more_step h m : acks_more h (h_step h (OAck m)).
Proof. split; simpl; [done|done|done|lia]. Qed.

Definition state_le (s s' : writer_state) : Prop := writer_state_num s <= writer_state_num s'.

(** A step that does not write: the invariant holds after it, and sequence
    numbers, states and queues move forward. *)
Record advances h x h' x' : Prop := {
  ad_ok : ok h' (wx_wr x');
  ad_hist : acks_more h h';
  ad_traits : wr_traits_ (wx_wr x') = wr_traits_ (wx_wr x);
  ad_seq : wr_seq (wx_wr x) <= wr_seq (wx_wr x');
  ad_xmit : wr_seq_xmit (wx_wr x) <= wr_seq_xmit (wx_wr x');
  ad_state : state_le (wr_state (wx_wr x)) (wr_state (wx_wr x'));
  ad_stored : forall q, q ∈ seqs (wr_whc (wx_wr x')) -> q ∈ seqs (wr_whc (wx_wr x));
  ad_hb : forall t, hb_upto t (wx_wr x) -> hb_upto t (wx_wr x');
  ad_behind : behind (wx_wr x') -> behind (wx_wr x);
  ad_evq : evq_ok fl (wx_evq x) -> evq_ok fl (wx_evq x');
}.

Lemma advances_refl h x : ok h (wx_wr x) -> advances h x h x.
Proof. intros H. split; try done. apply Z.le_refl. Qed.
Lemma advances_trans h1 x1 h2 x2 h3 x3 : advances h1 x1 h2 x2 -> advances h2 x2 h3 x3 -> advances h1 x1 h3 x3.
Proof.
  intros [A1 A2 A3 A4 A5 A6 A7 A8 A9 A10] [B1 B2 B3 B4 B5 B6 B7 B8 B9 B10]. unfold state_le in *. split; auto; [by eapply acks_more_trans|congruence|lia|lia|unfold state_le; lia].
Qed.

(** A change of fields that the invariant does not look at. *)
Lemma advances_frame h x x' : ok h (wx_wr x) -> same_core (wx_wr x) (wx_wr x') -> wr_whc (wx_wr x') = wr_whc (wx_wr x) -> wr_state (wx_wr x') = wr_state (wx_wr x) ->
  (evq_ok fl (wx_evq x) -> evq_ok fl (wx_evq x')) -> advances h x h x'.
Proof.
  intros H S Ec Es Eq. split; try done; [by eapply writer_ok_frame|apply S|rewrite (sc_seq _ _ S); lia|rewrite (sc_xmit _ _ S); lia|rewrite Es; unfold state_le; lia|by rewrite Ec|apply S|].
  unfold behind, matches. by rewrite (sc_readers _ _ S), Ec.
Qed.

(** Other readers, with the same numbers. *)
Lemma advances_readers h x num t : ok h (set_readers (wx_wr x) num t) -> (behind (set_readers (wx_wr x) num t) -> behind (wx_wr x)) -> advances h x h (put x (set_readers (wx_wr x) num t)).
Proof. intros H Hb. split; try done; apply Z.le_refl. Qed.

Lemma remove_acked_advances h x et : ok h (wx_wr x) -> 0 <= et -> exists x' n, remove_acked_messages cfg ndebug x et = Some (x', n) /\ acked_frame x x' /\
  advances h x (h_step h (OAck (writer_max_drop_seq (wx_wr x)))) x'.
Proof.
  intros H Het. destruct (remove_acked_ok_ cfg ndebug Hfs is_tl hdepth tldepth Hset h x et H Het) as (x' & n & E & Hok & F & Hs). exists x', n. split; [done|]. split; [done|].
  destruct F as [F1 F2 F3 F4 F5 F6 F7]. split; try done; [apply acks_more_step|apply F1|rewrite (sc_seq _ _ F1); lia|rewrite (sc_xmit _ _ F1); lia| |apply F1| |by rewrite F4].
  - unfold state_le. destruct F7 as [->|(-> & -> & _)]; simpl; lia.
  - apply behind_less; [|done]. unfold matches. rewrite (sc_readers _ _ F1). intros n' Hn' _. right. exists n'. split; [done|]. by intros q.
Qed.

Lemma clear_retransmitting_advances h x et : ok h (wx_wr x) -> 0 <= et -> advances h x h (writer_clear_retransmitting x et).
Proof. intros H Het. apply advances_frame; try done. Qed.

(** ** Readers *)

Lemma stored_within h w q : ok h w -> q ∈ seqs (wr_whc w) -> q <= wr_seq w.
Proof. intros H Hq. pose proof (cache_last cfg hdepth tldepth h _ q (wk_whc _ _ _ _ _ H) Hq). pose proof (wk_last _ _ _ _ _ H). lia. Qed.

Lemma add_connection_advances h x prd : ok h (wx_wr x) -> known (prd_guid prd) = true -> (prd_reliable prd = true -> wr_reliable (wx_wr x) = true) ->
  exists x' b, writer_add_connection cfg x prd = Some (x', b) /\ advances h x h x' /\ (b = false -> x' = x).
Proof.
  intros H Hk Hr. destruct (writer_add_connection_ok cfg ndebug Hfs is_tl hdepth tldepth Hset h x prd H Hk Hr) as (x' & b & E & Hok & Eq & Ew & En & Es & Ehc & Ehx & Hb & Hnew). exists x', b. split; [done|]. split; [|done].
  assert (Et : wr_traits_ (wx_wr x') = wr_traits_ (wx_wr x)).
  { unfold writer_add_connection in E. destruct (ut_avlLookupIPath _ _ _) as [[o|] path]; [by simplify_eq|]. destruct (ut_avlInsertIPath _ _ _); cbn in E; by simplify_eq. }
  split; try done; unfold wr_seq, wr_seq_xmit, state_le; rewrite ?En, ?Es, ?Ew, ?Eq; try done; try apply Z.le_refl.
  - intros t (ev & Ev). exists ev. unfold hb_upto. by rewrite Ehx, Ehc.
  - apply behind_less; [|by rewrite Ew]. intros n' Hn' Hne. destruct (Hnew n' Hn') as [Hin|Hmax]; [right; exists n'; split; [done|]; by intros q|left]. intros q Hq.
    destruct Hmax as [Hmax|Hmax]; [done|]. rewrite Hmax. apply (stored_within h); done.
Qed.

Lemma drop_connection_advances h x prd et : ok h (wx_wr x) -> 0 <= et -> exists x' h', writer_drop_connection cfg ndebug x prd et = Some x' /\ advances h x h' x'.
Proof.
  intros H Het. unfold writer_drop_connection, reader_key. pose proof (lookup_match cfg hdepth tldepth h _ (guid_key le (prd_guid prd)) H) as Hl. destruct (ut_avlLookup _ _ _) as [[m a]|]; [|exists x, h; split; [done|by apply advances_refl]].
  destruct Hl as (Hn & Hk & _). destruct (delete_reader_ok le (wr_readers (wx_wr x)) m (wk_readers _ _ _ _ _ H) Hn) as (t & l1 & l2 & E & Ht & E1 & E2). rewrite Hk in E. rewrite E. cbn [mbind option_bind].
  set (num := wr_num_reliable_readers (wx_wr x) - (if rn_is_reliable m then 1 else 0)). set (x1 := emit _ _).
  assert (H1 : ok h (set_num (wx_wr x1) num)) by exact (drop_reader_ok cfg ndebug Hfs is_tl hdepth tldepth Hset h (wx_wr x) m t l1 l2 H Ht E1 E2).
  destruct (remove_acked_gen cfg ndebug Hfs is_tl hdepth tldepth Hset h x1 et num H1 Het) as (x2 & n & E3 & H2 & F & Hs). rewrite E3. cbn [mbind option_bind]. destruct F as [F1 F2 F3 F4 F5 F6 F7].
  eexists _, _. split; [done|]. assert (En : wr_num_reliable_readers (wx_wr x2) = wr_num_reliable_readers (wx_wr x)) by (by rewrite (sc_num _ _ F1)). rewrite En.
  split; cbn; try done; [apply acks_more_step|apply F1| | | |apply F1| |by rewrite F4].
  - pose proof (sc_seq _ _ F1) as Eq. unfold wr_seq in *. simpl in *. lia.
  - pose proof (sc_xmit _ _ F1) as Eq. unfold wr_seq_xmit in *. simpl in *. lia.
  - unfold state_le. change (wr_state (wx_wr x)) with (wr_state (wx_wr x1)). destruct F7 as [->|(-> & -> & _)]; simpl; lia.
  - apply behind_less; [|done]. unfold matches. cbn. rewrite (sc_readers _ _ F1). cbn. rewrite E1, E2. intros n' Hn' _. right. exists n'. split; [set_solver|]. by intros q.
Qed.

(** An assignment to the fields of one reader and what follows from the change
    of its acknowledged sequence number. *)
Lemma upd_augment_advances h x k f : ok h (wx_wr x) -> keeps_identity f ->
  (forall n, n ∈ matches (wx_wr x) -> rn_key le n = k -> match_ok (wr_seq (wx_wr x)) n -> match_ok (wr_seq (wx_wr x)) (f n) /\ (rn_seq (f n) <> MAX_SEQ_NUMBER -> h_ack h <= rn_seq (f n))) ->
  (forall n, n ∈ matches (wx_wr x) -> rn_key le n = k -> lags_less (wx_wr x) n (f n)) ->
  advances h x h (put x (set_readers (wx_wr x) (wr_num_reliable_readers (wx_wr x)) (upd_match_augment le (wr_readers (wx_wr x)) k f))).
Proof.
  intros H Hf Hn Hl. apply advances_readers; [by apply writer_ok_upd_augment|]. destruct (upd_match_augment_spec le (wr_readers (wx_wr x)) k f (wk_readers _ _ _ _ _ H)) as [_ E]; [intros m; apply Hf|].
  apply behind_less; [|done]. unfold matches. simpl. rewrite E. intros n' (n & Hin & [[Hk ->]|[_ ->]])%elem_of_change _; right; exists n; (split; [done|]); [by apply Hl|by intros q].
Qed.

Lemma upd_advances h x k f : ok h (wx_wr x) -> unsummarized f ->
  advances h x h (put x (set_readers (wx_wr x) (wr_num_reliable_readers (wx_wr x)) (upd_match le (wr_readers (wx_wr x)) k f))).
Proof.
  intros H Hf. apply advances_readers; [by apply writer_ok_upd|]. apply behind_less; [|done]. unfold matches. simpl. rewrite upd_match_elements by apply H.
  intros n' (n & Hin & [[Hk ->]|[_ ->]])%elem_of_change _; right; exists n; (split; [done|]); [|by intros q]. destruct (Hf n) as (_ & E & _). intros q. by rewrite E.
Qed.

(** Giving up on a reader. *)
Lemma match_ok_given_up seq n : match_ok seq n -> match_ok seq (rn_set_seq n MAX_SEQ_NUMBER).
Proof. intros (A & B & C & D & E). unfold match_ok, MAX_SEQ_NUMBER. simpl. repeat split; try lia; done. Qed.

Lemma ack_all_advances h x prd et : ok h (wx_wr x) -> 0 <= et -> exists x' h', writer_ack_all cfg ndebug x prd et = Some x' /\ advances h x h' x'.
Proof.
  intros H Het. unfold writer_ack_all. destruct (ut_avlLookup _ _ _) as [[m a]|]; [|exists x, h; split; [done|by apply advances_refl]].
  assert (A1 : advances h x h (put x (set_readers (wx_wr x) (wr_num_reliable_readers (wx_wr x))
    (upd_match_augment le (wr_readers (wx_wr x)) (reader_key cfg (prd_guid prd)) (fun m => rn_set_seq m MAX_SEQ_NUMBER))))).
  { apply upd_augment_advances; [done|by intros n| |by intros n _ _ q _]. intros n _ _ Hm. split; [by apply match_ok_given_up|done]. }
  set (x1 := put _ _) in *. destruct (remove_acked_advances h x1 et (ad_ok _ _ _ _ A1) Het) as (x2 & n & -> & F & A2). cbn [mbind option_bind]. eexists _, _. split; [done|].
  eapply advances_trans; [exact A1|]. eapply advances_trans; [exact A2|]. by apply clear_retransmitting_advances; [apply A2|].
Qed.

(** ** States *)

Lemma set_state_advances h x s : ok h (wx_wr x) -> state_le (wr_state (wx_wr x)) s -> advances h x h (put x (set_state (wx_wr x) s)).
Proof. intros H Hs. split; try done; try apply Z.le_refl. by eapply writer_ok_frame. Qed.

Lemma emit_advances h x h' x' o : advances h x h' x' -> advances h x h' (emit x' o).
Proof. intros [A1 A2 A3 A4 A5 A6 A7 A8]. by split. Qed.

Lemma writer_set_state_advances h x s : ok h (wx_wr x) -> writer_state_num (wr_state (wx_wr x)) < writer_state_num s ->
  exists x', writer_set_state x s = Some x' /\ advances h x h x' /\ wr_state (wx_wr x') = s.
Proof.
  intros H Hs. unfold writer_set_state. rewrite Z.gtb_ltb, (proj2 (Z.ltb_lt _ _)) by lia. cbn [negb]. eexists. split; [done|]. split; [|done].
  destruct (decide _); [apply (emit_advances h x h (put x (set_state (wx_wr x) s)))|]; apply set_state_advances; try done; unfold state_le; lia.
Qed.

Lemma delete_nolinger_advances h x : ok h (wx_wr x) -> exists x' r, delete_writer_nolinger x = Some (x', r) /\ advances h x h x' /\ wr_state (wx_wr x') = WRST_DELETING.
Proof.
  intros H. unfold delete_writer_nolinger, delete_writer_nolinger_locked. destruct (decide _) as [|Hn]; [eexists _, _; split; [done|]; split; [by apply advances_refl|done]|].
  destruct (writer_set_state_advances h (emit x WOutGone) WRST_DELETING H) as (x' & -> & A & Es); [simpl; by destruct (wr_state (wx_wr x))|]. cbn [mbind option_bind]. eexists _, _. split; [done|].
  split; [|done]. by destruct A; split.
Qed.

Lemma delete_writer_advances h x : ok h (wx_wr x) -> wr_state (wx_wr x) <> WRST_LINGERING -> exists x' r, delete_writer x = Some (x', r) /\ advances h x h x'.
Proof.
  intros H Hl. unfold delete_writer, delete_writer_nolinger_locked. destruct (decide _) as [|Hn]; [eexists _, _; split; [done|]; by apply advances_refl|]. destruct (_ =? 0).
  - destruct (writer_set_state_advances h (emit x WOutGone) WRST_DELETING H) as (x' & -> & A & Es); [simpl; by destruct (wr_state (wx_wr x))|]. cbn [mbind option_bind]. eexists _, _. split; [done|].
    by destruct A; split.
  - destruct (writer_set_state_advances h x WRST_LINGERING H) as (x' & -> & A & Es); [by destruct (wr_state (wx_wr x))|]. cbn [mbind option_bind]. eexists _, _. split; [done|]. by apply emit_advances.
Qed.

Lemma exit_startup_advances h x et : ok h (wx_wr x) -> 0 <= et -> exists x' h', writer_exit_startup_mode cfg ndebug x et = Some x' /\ advances h x h' x'.
Proof.
  intros H Het. unfold writer_exit_startup_mode. destruct (wr_startup_mode (wx_wr x)) eqn:Es; cbn [negb andb]; [|exists x, h; split; [done|by apply advances_refl]].
  pose proof (wk_startup _ _ _ _ _ H Es) as Htl. rewrite Htl. destruct (wk_guid _ _ _ _ _ H) as (_ & _ & G). rewrite (proj2 (Z.eqb_neq _ _) G).
  destruct (whc_downgrades cfg ndebug Hfs hdepth tldepth h (wr_whc (wx_wr x)) (wk_whc _ _ _ _ _ H)) as (c & -> & Hc & Ht & Hd & Hs & Hml); [by rewrite (wk_tl _ _ _ _ _ H)|]. cbn [mbind option_bind].
  set (x1 := put x _). assert (A1 : advances h x h x1).
  { split; try done; try apply Z.le_refl; [|apply behind_less; [|done]; intros n' Hn' _; right; exists n'; split; [done|by intros q]]. apply (writer_ok_cache cfg hdepth tldepth h h (wx_wr x)); try done; [simpl; by rewrite Ht, (wk_tl _ _ _ _ _ H)|apply (wk_last _ _ _ _ _ H)|apply (wk_ack _ _ _ _ _ H)]. }
  destruct (remove_acked_advances h x1 et (ad_ok _ _ _ _ A1) Het) as (x2 & n & -> & F & A2). cbn [mbind option_bind]. eexists _, _. split; [done|].
  eapply advances_trans; [exact A1|]. eapply advances_trans; [exact A2|]. by apply clear_retransmitting_advances; [apply A2|].
Qed.
End Steps.
