(* ===== verification/WriterHb.v ===== *)
(** * Writers: heartbeats

    What a heartbeat advertises, whom it is sent to, and that scheduling and
    making one never fails. *)

From Stdlib Require Import ZArith Lia Sorting.Sorted.
From stdpp Require Import prelude gmap.
From S2P Require Import Prelude OrdTree Avl Bitset Reorder Dqueue Time Wire Protocol Receive Whc WhcFacts WhcHist WrReaders WrReadersFacts Xmsg XmsgFacts Writer WriterFacts.

(** The intervals are not negative. *)
Record hb_settings (cfg : writer_config) : Prop := {
  hs_sched : 0 <= wc_const_hb_intv_sched cfg;
  hs_sched_min : 0 <= wc_const_hb_intv_sched_min cfg;
}.

Lemma sorted_last_max (l : list Z) o q : StronglySorted Z.lt l -> last l = Some o -> q ∈ l -> q <= o.
Proof.
  induction l as [|a l IH]; intros Hs Hl Hq; [done|]. apply StronglySorted_inv in Hs as [Hs Hf]. destruct l as [|b l']; [injection Hl as ->; apply list_elem_of_singleton in Hq as ->; lia|].
  assert (Hl' : last (b :: l') = Some o) by done. apply elem_of_cons in Hq as [->|Hq]; [|by apply IH]. rewrite Forall_forall in Hf.
  assert (o ∈ b :: l') as Ho by (apply last_Some in Hl' as (l0 & ->); set_solver). specialize (Hf o Ho). lia.
Qed.

Section Hb.
Context {T : Type -> Type} `{!OrdTree T, !OrdTreeLaws T}.
Context (cfg : writer_config) (hdepth tldepth : nat) (fl : list xevent_nt).
Implicit Types (c : whc (T := T)) (w : writer (T := T)) (x : wx (T := T)) (h : hist).

Abbreviation fs := (wc_fragment_size cfg).
Abbreviation le := (wc_little_endian cfg).
Abbreviation ok := (writer_ok (T := T) cfg hdepth tldepth).

(** Nothing but the times of heartbeats, counts and statistics. *)
Record same_hb w w' : Prop := {
  sh_core : same_core w w';
  sh_whc : wr_whc w' = wr_whc w;
  sh_state : wr_state w' = wr_state w;
  sh_limits : wr_limits_ w' = wr_limits_ w;
}.

Lemma same_hb_refl w : same_hb w w.
Proof. split; try done. Qed.
Lemma same_hb_trans w1 w2 w3 : same_hb w1 w2 -> same_hb w2 w3 -> same_hb w1 w3.
Proof. intros [A1 A2 A3 A4] [B1 B2 B3 B4]. split; try congruence. by eapply same_core_trans. Qed.
Lemma same_hb_ok h w w' : ok h w -> same_hb w w' -> ok h w'.
Proof. intros H [S1 S2 S3 S4]. by eapply writer_ok_frame. Qed.

Lemma same_hb_advances h x w' : ok h (wx_wr x) -> same_hb (wx_wr x) w' -> advances cfg hdepth tldepth fl h x h (put x w').
Proof. intros H [S1 S2 S3 S4]. by apply advances_frame. Qed.

(** ** Scheduling *)

Lemma resched_ok w ev t : wr_heartbeat_xevent w = Some ev -> 0 <= t -> resched_heartbeat w t = Some (set_hb w (wr_hbcontrol w) (Some (Z.min ev t))).
Proof.
  intros He Ht. unfold resched_heartbeat. rewrite He. cbn [mbind option_bind]. unfold resched_xevent_if_earlier. rewrite Z.gtb_ltb, (proj2 (Z.ltb_lt _ _)) by (unfold TSCHED_DELETE; lia).
  rewrite Z.geb_leb. destruct (Z.leb_spec ev t); cbn [mbind option_bind]; repeat f_equal; lia.
Qed.

(** After it an event is scheduled no later than [tsched], and [tsched] is no
    later than [tnext]. *)
Lemma schedule_ok w ev tnext : wr_heartbeat_xevent w = Some ev -> 0 <= tnext -> exists w' ev', schedule_heartbeat w tnext = Some w' /\ same_hb w w' /\
  wr_heartbeat_xevent w' = Some ev' /\ ev' <= ev /\ hbc_tsched (wr_hbcontrol w') = Z.min (hbc_tsched (wr_hbcontrol w)) tnext /\
  (tnext < hbc_tsched (wr_hbcontrol w) -> ev' <= tnext).
Proof.
  intros He Ht. unfold schedule_heartbeat. set (w1 := set_hb w (hbc_reset_count (wr_hbcontrol w)) (wr_heartbeat_xevent w)).
  assert (S1 : same_hb w w1) by (split; done). change (hbc_tsched (wr_hbcontrol w1)) with (hbc_tsched (wr_hbcontrol w)). destruct (Z.ltb_spec tnext (hbc_tsched (wr_hbcontrol w))) as [Hlt|Hge].
  - rewrite (resched_ok _ ev) by done. eexists _, _. split; [done|]. split; [|simpl; repeat split; lia].
    split; [|done|done|done]. split; try done. intros t (e & Ee & H1 & H2). rewrite He in Ee. injection Ee as <-. exists (Z.min ev tnext). simpl. repeat split; lia.
  - eexists _, ev. split; [done|]. split; [done|]. simpl. rewrite He. repeat split; lia.
Qed.

Lemma add_connection_heartbeat_ok h x now_mt : ok h (wx_wr x) -> 0 <= now_mt -> exists x', writer_add_connection_heartbeat x now_mt = Some x' /\ advances cfg hdepth tldepth fl h x h x'.
Proof.
  intros H Hn. unfold writer_add_connection_heartbeat. destruct (wr_heartbeat_xevent (wx_wr x)) as [ev|] eqn:Ee; [|exists x; split; [done|by apply advances_refl]].
  unfold add_duration_to_mtime, add_duration_to_time. rewrite !Z.geb_leb, (proj2 (Z.leb_le _ _)) by lia. cbn [andb]. rewrite (proj2 (Z.leb_le 0 T_MILLISECOND)) by (unfold T_MILLISECOND; lia).
  cbn [mbind option_bind]. set (t := if _ : bool then _ else _). assert (Ht : 0 <= t).
  { unfold t. match goal with |- 0 <= (if ?b then _ else _) => destruct b eqn:E end; [unfold T_NEVER; lia|]. apply Z.leb_gt in E. unfold T_NEVER in E. unfold wrap_u, wrap_s in *.
    set (s := (_ + _) mod _) in *. assert (0 <= s) by (apply Z.mod_pos_bound; lia). rewrite Z.mod_small by lia. cbn zeta. destruct (Z.ltb_spec s (2 ^ (64 - 1))); lia. }
  destruct (schedule_ok (wx_wr x) ev t Ee Ht) as (w' & ev' & -> & S & _). cbn [mbind option_bind]. eexists. split; [done|]. by apply same_hb_advances.
Qed.

(** ** What a heartbeat advertises *)

(** There is something to advertise. *)
Definition may_advertise w : Prop := 1 <= wr_seq w \/ wc_respond_to_rti_init_zero_ack_with_invalid_heartbeat cfg = true.

Lemma stored_range h w q : ok h w -> q ∈ seqs (wr_whc w) -> 1 <= q <= wr_seq w.
Proof.
  intros H Hq. pose proof (cache_pos cfg hdepth tldepth h _ q (wk_whc _ _ _ _ _ H) Hq). pose proof (cache_last cfg hdepth tldepth h _ q (wk_whc _ _ _ _ _ H) Hq). pose proof (wk_last _ _ _ _ _ H). lia.
Qed.

Lemma head_least h w q a : ok h w -> head (seqs (wr_whc w)) = Some a -> q ∈ seqs (wr_whc w) -> a <= q.
Proof.
  intros H Ha Hq. pose proof (cache_sorted cfg hdepth tldepth h _ (wk_whc _ _ _ _ _ H)) as Hs. destruct (seqs (wr_whc w)) as [|b l]; [done|]. injection Ha as ->.
  apply StronglySorted_inv in Hs as [_ Hs]. rewrite Forall_forall in Hs. apply elem_of_cons in Hq as [->|Hq]; [lia|]. specialize (Hs _ Hq). lia.
Qed.

(** The range ends at most one before it starts, and within what was written; it
    starts at the first sample of the cache, and ends at the last one written,
    or at the last one sent if there is one in the range. *)
Lemma heartbeat_range_ok h w issync : ok h w -> may_advertise w -> exists a b, heartbeat_range cfg w issync = Some (a, b) /\ 1 <= a <= b + 1 /\ b <= wr_seq w /\
  (forall q, q ∈ seqs (wr_whc w) -> a <= q) /\ (seqs (wr_whc w) <> [] -> a ∈ seqs (wr_whc w)) /\
  (issync = true -> b = wr_seq w) /\ (forall q, q ∈ seqs (wr_whc w) -> q <= wr_seq_xmit w -> q <= b).
Proof.
  intros H Hm. unfold heartbeat_range, may_advertise in *. pose proof (wk_xmit _ _ _ _ _ H) as Hx. rewrite (cache_empty cfg hdepth tldepth h _ (wk_whc _ _ _ _ _ H)). case_bool_decide as He.
  - rewrite He. destruct (wc_respond_to_rti_init_zero_ack_with_invalid_heartbeat cfg) eqn:Ei; cbn [orb].
    + eexists _, _. split; [done|]. repeat split; try lia; try done; intros q Hq; by apply elem_of_nil in Hq.
    + destruct Hm as [Hm|]; [|done]. rewrite Z.geb_leb, (proj2 (Z.leb_le _ _)) by lia. eexists _, _. split; [done|]. repeat split; try lia; try done; intros q Hq; by apply elem_of_nil in Hq.
  - rewrite (cache_min cfg hdepth tldepth h _ (wk_whc _ _ _ _ _ H)). destruct (head (seqs (wr_whc w))) as [a|] eqn:Ea; [|by destruct (seqs (wr_whc w))]. cbn [mbind option_bind].
    assert (Hin : a ∈ seqs (wr_whc w)) by (destruct (seqs (wr_whc w)); [done|]; injection Ea as ->; by left). pose proof (stored_range h w a H Hin) as Hr.
    assert (Hl : forall q, q ∈ seqs (wr_whc w) -> a <= q) by (intros q; by apply (head_least h)). rewrite (proj2 (Z.leb_le _ _)) by lia. cbn [negb]. destruct (negb issync && _ && _) eqn:Eb.
    + eexists a, _. split; [done|]. apply andb_true_iff in Eb as [[Eb _]%andb_true_iff _]. apply negb_true_iff in Eb. subst issync. rewrite Z.geb_leb. destruct (Z.leb_spec a (wr_seq_xmit w)); [|case_match];
        (repeat split; try lia; try done); intros q Hq Hqx; specialize (Hl q Hq); lia.
    + eexists a, _. split; [done|]. repeat split; try lia; done.
Qed.

(** ** Whom it is sent to *)

Lemma writer_matches_ok h w : ok h w -> matches_ok (matches w).
Proof.
  intros H. pose proof (wk_match _ _ _ _ _ H) as Hm. pose proof (wk_seq _ _ _ _ _ H). split; (eapply Forall_impl; [exact Hm|]); intros n (A & B & C & D & E); simpl; try done. lia.
Qed.

Lemma pending_not M n : (rn_is_reliable n = false -> rn_seq n = MAX_SEQ_NUMBER) -> M < MAX_SEQ_NUMBER -> rn_seq n = M /\ rn_has_replied_to_hb n = true -> rn_is_reliable n = true.
Proof. intros Hb HM [E _]. destruct (rn_is_reliable n); [done|]. rewrite Hb in E by done. lia. Qed.

#[global] Instance pending_dec M n : Decision (pending M n).
Proof. unfold pending. apply _. Defined.

(** The readers that are not counted in [num_reliable_readers_where_seq_equals_max]. *)
Lemma pending_count l s : matches_ok l -> summarizes l s ->
  Z.of_nat (length (filter (fun n => rn_is_reliable n = true) l)) - rs_num_reliable_readers_where_seq_equals_max s = Z.of_nat (length (filter (fun n => pending (rs_max_seq s) n) l)).
Proof.
  intros [M1 M2 M3 M4] [S1 (_ & S2 & _) S3 ->]. set (M := rs_max_seq s) in *. clearbody M. clear S1 S3 s M1 M2. destruct (Z.eqb_spec M 0) as [->|Hne].
  - induction l as [|n l IH]; [done|]. apply Forall_cons in M3 as [Hb M3], M4 as [Hr M4]. specialize (IH M3 M4). rewrite !filter_cons. unfold pending in *.
    repeat case_decide; simpl in *; try lia; exfalso; tauto || naive_solver.
  - induction l as [|n l IH]; [done|]. apply Forall_cons in M3 as [Hb M3], M4 as [Hr M4]. specialize (IH M3 M4). rewrite !filter_cons. pose proof (pending_not M n Hb) as Hp. unfold pending in *.
    repeat case_decide; simpl in *; try lia; exfalso; naive_solver lia.
Qed.

(** A heartbeat for one reader only is for one that is matched, when exactly one
    reliable reader has not acknowledged everything or not replied; it is that
    reader, if all are reliable. *)
Lemma heartbeat_destination_ok h w : ok h w -> exists d, heartbeat_destination w = Some d /\
  forall g, d = Some g -> length (filter (fun n => pending (wr_seq w) n) (matches w)) = 1%nat /\ exists n, n ∈ matches w /\ rn_prd_guid n = g /\
    (Forall (fun n => rn_is_reliable n = true) (matches w) -> filter (fun n => pending (wr_seq w) n) (matches w) = [n]).
Proof.
  intros H. pose proof (writer_matches_ok h w H) as Hm. unfold heartbeat_destination, root_rdmatch. destruct (ut_avlRoot (wr_readers w)) as [[y s]|] eqn:Er; cbn [option_map snd]; [|by eexists].
  destruct (root_summary le _ _ _ (wk_readers _ _ _ _ _ H) Hm Er) as [Hs [F1 F2]]. pose proof (pending_count _ _ Hm Hs) as Hc. pose proof (wk_count _ _ _ _ _ H) as Hn. unfold matches in *.
  rewrite <- Hn in Hc. rewrite Hc. destruct (_ =? 0); [by eexists|]. destruct (Z.eqb_spec (wr_seq w) (rs_max_seq s)) as [E|]; cbn [negb]; [|by eexists]. rewrite E.
  set (P := filter (fun n => pending (rs_max_seq s) n) _) in *. rewrite (proj2 (Z.ltb_ge _ _)) by lia. destruct (Z.eqb_spec (Z.of_nat (length P)) 0) as [|Hne]; [by eexists|].
  assert (exists n, n ∈ P) as [n Hp] by (destruct P as [|n P']; [done|]; exists n; by left). unfold P in Hp. apply list_elem_of_filter in Hp as [Hp Hin].
  destruct (known (rs_arbitrary_unacked_reader s)) eqn:Ek; [|specialize (F2 eq_refl); rewrite Forall_forall in F2; by destruct (F2 n Hin)]. cbn [negb].
  rewrite Z.gtb_ltb. destruct (Z.ltb_spec 1 (Z.of_nat (length P))); [by eexists|]. eexists. split; [done|]. intros g [= <-]. split; [lia|]. destruct (F1 eq_refl) as (n' & Hn' & Hg & Hall).
  exists n'. split; [done|]. split; [done|]. intros Hr. assert (Hin' : n' ∈ P) by (apply list_elem_of_filter; auto). destruct P as [|p [|]]; simpl in *; try lia. apply list_elem_of_singleton in Hin' as ->. done.
Qed.

(** ** Making heartbeats *)

Context (Hhb : hb_settings cfg).

(** Also the event of heartbeats and the time it is scheduled for stay. *)
Record same_sched w w' : Prop := {
  ss_hb : same_hb w w';
  ss_event : wr_heartbeat_xevent w' = wr_heartbeat_xevent w;
  ss_tsched : hbc_tsched (wr_hbcontrol w') = hbc_tsched (wr_hbcontrol w);
}.

Lemma add_Heartbeat_ok h m w ansreq dst issync : ok h w -> wr_reliable w = true -> 0 <= ansreq -> may_advertise w -> xm_kind m = NN_XMSG_KIND_CONTROL ->
  exists m' w', add_Heartbeat cfg m w ansreq dst issync = Some (m', w') /\ same_sched w w' /\ xm_kind m' = NN_XMSG_KIND_CONTROL.
Proof.
  intros H Hr Ha Hm Hk. unfold add_Heartbeat. rewrite Hr, (proj2 (Z.ltb_ge _ _)) by lia. cbn [negb orb]. destruct (heartbeat_range_ok h w issync H Hm) as (a & b & -> & _). cbn [mbind option_bind].
  unfold add_submsg, submsg_is_compatible. rewrite Hk. cbn [mbind option_bind]. eexists _, _. split; [done|]. split; [|done]. split; [split; done|done|done].
Qed.

Lemma note_hb_same w w' tnow b : same_sched w w' -> same_sched w (writer_hbcontrol_note_hb w' tnow b).
Proof. intros [[S1 S2 S3 S4] E1 E2]. destruct S1. split; try done. Qed.

Lemma create_heartbeat_ok lookup_prd h w tnow ansreq issync : ok h w -> wr_reliable w = true -> 0 <= ansreq -> may_advertise w ->
  exists w' m, writer_hbcontrol_create_heartbeat cfg lookup_prd w tnow ansreq issync = Some (w', m) /\ same_sched w w' /\ (forall m', m = Some m' -> xm_kind m' = NN_XMSG_KIND_CONTROL).
Proof.
  intros H Hr Ha Hm. unfold writer_hbcontrol_create_heartbeat. rewrite Hr, (proj2 (Z.ltb_ge _ _)) by lia. cbn [negb orb]. destruct (heartbeat_destination_ok h w H) as (d & -> & _). cbn [mbind option_bind].
  destruct d as [g|].
  - destruct (lookup_prd g) as [prd|]; [|by eexists _, _]. unfold nn_xmsg_setdstPRD. destruct (prd_has_address prd); cbn; [|by eexists _, _].
    set (m0 := set_dst _ _). destruct (add_Heartbeat_ok h m0 w ansreq (guid_entityid g) issync H Hr Ha Hm) as (m' & w' & -> & S & Hk); [done|]. cbn [mbind option_bind]. eexists _, _. split; [done|].
    split; [by apply note_hb_same|]. by intros ? [= <-].
  - cbn. set (m0 := set_dst _ _). destruct (add_Heartbeat_ok h m0 w ansreq NN_ENTITYID_UNKNOWN issync H Hr Ha Hm) as (m' & w' & -> & S & Hk); [done|]. cbn [mbind option_bind]. eexists _, _. split; [done|].
    split; [by apply note_hb_same|]. by intros ? [= <-].
Qed.

Lemma intv_ge w : 0 <= writer_hbcontrol_intv cfg w.
Proof. destruct Hhb. unfold writer_hbcontrol_intv. cbn zeta. set (r := if wr_throttling w then _ else _). destruct (Z.ltb_spec r (wc_const_hb_intv_sched_min cfg)); lia. Qed.

Lemma intv_double_le n r : intv_double cfg n r <= Z.max r (wc_const_hb_intv_sched_max cfg).
Proof. revert r. induction n as [|n IH]; intros r; cbn [intv_double]; [lia|]. destruct (Z.ltb_spec (2 * r) (wc_const_hb_intv_sched_max cfg)); [|lia]. specialize (IH (r * 2)). lia. Qed.

(** The longest interval between heartbeats. *)
Definition longest_intv : Z := Z.max (wc_const_hb_intv_sched_min cfg) (Z.max (wc_const_hb_intv_sched cfg) (wc_const_hb_intv_sched_max cfg)).

Lemma quot2_le a b : 0 <= a -> a <= b -> 0 <= Z.quot a 2 <= b.
Proof. intros Ha Hb. pose proof (Z.quot_pos a 2 Ha ltac:(lia)). pose proof (Z.quot_le_upper_bound a 2 b ltac:(lia)). lia. Qed.

Lemma intv_double_pos n r : 0 <= r -> 0 <= intv_double cfg n r.
Proof. revert r. induction n as [|n IH]; intros r Hr; cbn [intv_double]; [done|]. destruct (_ <? _); [apply IH; lia|done]. Qed.

Lemma intv_bounds w : wc_const_hb_intv_sched_min cfg <= writer_hbcontrol_intv cfg w <= longest_intv.
Proof.
  destruct Hhb as [H1 H2]. unfold writer_hbcontrol_intv, longest_intv. cbn zeta. set (M := Z.max (wc_const_hb_intv_sched cfg) (wc_const_hb_intv_sched_max cfg)). set (r1 := if _ >? 2 then _ else _).
  assert (B1 : 0 <= r1 <= M). { unfold r1, M. destruct (_ >? 2); [|lia]. split; [by apply intv_double_pos|]. pose proof (intv_double_le (Z.to_nat (hbc_hbs_since_last_write (wr_hbcontrol w) - 2)) (wc_const_hb_intv_sched cfg)). lia. }
  clearbody r1. set (r2 := if _ >=? _ then Z.quot r1 2 else r1). assert (B2 : 0 <= r2 <= M) by (unfold r2; case_match; [apply quot2_le; lia|done]). clearbody r2.
  set (r3 := if _ >=? _ then Z.quot r2 2 else r2). assert (B3 : 0 <= r3 <= M) by (unfold r3; case_match; [apply quot2_le; lia|done]). clearbody r3.
  set (r4 := if wr_throttling w then Z.quot r3 2 else r3). assert (B4 : 0 <= r4 <= M) by (unfold r4; case_match; [apply quot2_le; lia|done]).
  destruct (Z.ltb_spec r4 (wc_const_hb_intv_sched_min cfg)); lia.
Qed.

Lemma ack_required_ge w tlast tnow b : 0 <= writer_hbcontrol_ack_required_generic cfg w tlast tnow b.
Proof. unfold writer_hbcontrol_ack_required_generic. repeat case_match; lia. Qed.

Lemma ok_event h w : ok h w -> wr_reliable w = true -> exists ev, wr_heartbeat_xevent w = Some ev.
Proof. intros H Hr. apply (wk_event _ _ _ _ _ H) in Hr as [ev He]. eauto. Qed.

Lemma note_asyncwrite_ok h w tnow : ok h w -> wr_reliable w = true -> 0 <= tnow -> exists w', writer_hbcontrol_note_asyncwrite cfg w tnow = Some w' /\ same_hb w w' /\
  forall t, hb_upto t w -> hb_upto (tnow + wc_const_hb_intv_sched cfg) w'.
Proof.
  intros H Hr Ht. destruct (ok_event _ _ H Hr) as [ev He]. destruct (schedule_ok w ev (tnow + wc_const_hb_intv_sched cfg) He) as (w' & ev' & E & S & He' & Hle & Hts & Hnew); [destruct Hhb; lia|].
  exists w'. split; [done|]. split; [done|]. intros t (e & Ee & Hb & _). rewrite He in Ee. injection Ee as <-. exists ev'. split; [done|]. rewrite Hts. lia.
Qed.

Lemma piggyback_ok lookup_prd h w tnow packetid : ok h w -> wr_reliable w = true -> 0 <= tnow -> may_advertise w ->
  exists w' m r, writer_hbcontrol_piggyback cfg lookup_prd w tnow packetid = Some (w', m, r) /\ same_hb w w' /\ (forall m', m = Some m' -> xm_kind m' = NN_XMSG_KIND_CONTROL) /\
    forall t, hb_upto t w -> hb_upto (tnow + wc_const_hb_intv_sched cfg) w'.
Proof.
  intros H Hr Ht Hm. unfold writer_hbcontrol_piggyback. set (w1 := set_hb w _ _). assert (S1 : same_hb w w1) by (split; done). pose proof (same_hb_ok _ _ _ H S1) as H1.
  destruct (note_asyncwrite_ok h w1 tnow H1 Hr Ht) as (w2 & -> & S2 & U2). cbn [mbind option_bind]. pose proof (same_hb_ok _ _ _ H1 S2) as H2. pose proof (same_hb_trans _ _ _ S1 S2) as S12.
  set (r := writer_hbcontrol_ack_required_generic _ _ _ _ _). destruct (_ || _); [|eexists _, _, _; split; [done|]; split; [done|]; split; [done|exact U2]]. pose proof (sh_core _ _ S12) as C.
  destruct (create_heartbeat_ok lookup_prd h w2 tnow r true H2) as (w3 & m & -> & S3 & Hk).
  - unfold wr_reliable. by rewrite (sc_traits _ _ C).
  - apply ack_required_ge.
  - unfold may_advertise. by rewrite (sc_seq _ _ C).
  - cbn [mbind option_bind]. eexists _, _, _. split; [done|]. split; [by eapply same_hb_trans, S3|]. split; [done|]. intros t Hu. apply (sc_hb _ _ (sh_core _ _ (ss_hb _ _ S3))). by apply (U2 t).
Qed.

Lemma must_have_ok h w : ok h w -> exists b, writer_must_have_hb_scheduled w = Some b /\ (b = true -> seqs (wr_whc w) <> []).
Proof.
  intros H. unfold writer_must_have_hb_scheduled. destruct (root_rdmatch w) as [n|]; [|by eexists]. rewrite (cache_empty cfg hdepth tldepth h _ (wk_whc _ _ _ _ _ H)), (cache_max cfg hdepth tldepth h _ (wk_whc _ _ _ _ _ H)).
  case_bool_decide as He; [by eexists|]. destruct (negb _); [by eexists|]. destruct (last (seqs (wr_whc w))) as [m|] eqn:El; [by eexists|]. by apply last_None in El.
Qed.

Lemma nonempty_advertise h w : ok h w -> seqs (wr_whc w) <> [] -> may_advertise w.
Proof. intros H Hn. left. destruct (seqs (wr_whc w)) as [|q l] eqn:E; [done|]. assert (q ∈ seqs (wr_whc w)) as Hq by (rewrite E; by left). pose proof (stored_range h w q H Hq). lia. Qed.

(** A heartbeat must be scheduled while a reader lacks a sample. *)
Lemma behind_must h w : ok h w -> behind w -> writer_must_have_hb_scheduled w = Some true.
Proof.
  intros H (n & q & Hn & Hne & Hq & Hlt). unfold writer_must_have_hb_scheduled. destruct (writer_ok_max_drop _ _ _ _ _ H) as (M1 & _ & _). pose proof (wk_xmit _ _ _ _ _ H).
  destruct (max_drop_spec cfg w (wk_readers _ _ _ _ _ H) (wk_match _ _ _ _ _ H) (wk_seq _ _ _ _ _ H)) as (_ & M2 & _); [lia|]. specialize (M2 n Hn Hne).
  destruct (root_rdmatch w) as [s|] eqn:Er; [|unfold root_rdmatch, matches in *; destruct (wr_readers w); [by apply elem_of_nil in Hn|done]].
  rewrite (cache_empty cfg hdepth tldepth h _ (wk_whc _ _ _ _ _ H)), (cache_max cfg hdepth tldepth h _ (wk_whc _ _ _ _ _ H)). rewrite bool_decide_false by (intros E; rewrite E in Hq; by apply elem_of_nil in Hq).
  destruct (negb _); [done|]. destruct (last (seqs (wr_whc w))) as [m|] eqn:El; [|apply last_None in El; rewrite El in Hq; by apply elem_of_nil in Hq].
  assert (q <= m). { eapply sorted_last_max; [apply (cache_sorted cfg hdepth tldepth h _ (wk_whc _ _ _ _ _ H))|exact El|done]. }
  cbn [mbind option_bind]. f_equal. apply Z.ltb_lt. lia.
Qed.

(** The event handler: a heartbeat is scheduled again exactly if one must be. *)
Lemma handle_xevk_heartbeat_ok lookup_prd h x tnow : ok h (wx_wr x) -> wr_reliable (wx_wr x) = true -> 0 <= tnow ->
  exists x' ev ev' must, handle_xevk_heartbeat cfg lookup_prd x tnow = Some x' /\ advances cfg hdepth tldepth fl h x h x' /\ same_hb (wx_wr x) (wx_wr x') /\ wx_evq x' = wx_evq x /\
    wr_heartbeat_xevent (wx_wr x) = Some ev /\ wr_heartbeat_xevent (wx_wr x') = Some ev' /\ writer_must_have_hb_scheduled (wx_wr x) = Some must /\
    ev' = Z.min ev (hbc_tsched (wr_hbcontrol (wx_wr x'))) /\ (if must then exists w1, hbc_tsched (wr_hbcontrol (wx_wr x')) = tnow + writer_hbcontrol_intv cfg w1 else hbc_tsched (wr_hbcontrol (wx_wr x')) = T_NEVER).
Proof.
  intros H Hr Ht. unfold handle_xevk_heartbeat. rewrite Hr. cbn [negb]. destruct (ok_event _ _ H Hr) as [ev He]. destruct (must_have_ok h _ H) as (must & Em & Hne). rewrite Em. cbn [mbind option_bind].
  match goal with |- context [?B ≫= _] => set (body := B) end.
  assert (exists w m t, body = Some (w, m, t) /\ same_sched (wx_wr x) w /\ 0 <= t /\ (if must then exists w1, t = tnow + writer_hbcontrol_intv cfg w1 else t = T_NEVER)) as (w & m & t & Eb & [S E1 E2] & H0 & Hm).
  { unfold body. destruct must; cbn [negb]; [|eexists _, _, T_NEVER; split; [done|]; split; [by split|]; split; [unfold T_NEVER; lia|done]]. destruct (writer_hbcontrol_must_send cfg _ _); cbn [negb].
    - destruct (create_heartbeat_ok lookup_prd h (wx_wr x) tnow (writer_hbcontrol_ack_required cfg (wx_wr x) tnow) false H Hr) as (w & m & -> & S & _); [apply ack_required_ge|apply (nonempty_advertise h); auto|].
      cbn [mbind option_bind]. eexists _, _, _. split; [done|]. split; [done|]. pose proof (intv_ge w). split; [lia|eauto].
    - eexists _, _, _. split; [done|]. split; [by split|]. pose proof (intv_ge (wx_wr x)). split; [lia|eauto]. }
  rewrite Eb. cbn [mbind option_bind]. rewrite (resched_ok w ev t) by (done || by rewrite E1). cbn [mbind option_bind].
  set (x1 := put x _). assert (S1 : same_hb (wx_wr x) (wx_wr x1)).
  { destruct S as [[C1 C2 C3 C4 C5 C6 C7 C8 C9] S2 S3 S4]. split; try done. split; try done. intros t0 (e & Ee & B1 & B2). rewrite He in Ee. injection Ee as <-. exists (Z.min ev t). simpl. repeat split; lia. }
  eexists _, ev, (Z.min ev t), must. split; [done|]. destruct m as [m|]; cbn; (split; [|eauto 10]); [apply emit_advances|]; by apply same_hb_advances.
Qed.
End Hb.
