(* ===== verification/WriterWrite.v ===== *)
(** * Sending and writing samples

    The messages that [create_fragment_message] makes, how fragments cover a
    sample, that queueing them never fails, and the steps of
    [write_sample_kernel_seq_eot]. *)

From Stdlib Require Import ZArith Lia Sorting.Sorted.
From stdpp Require Import prelude gmap.
From S2P Require Import Prelude OrdTree Avl AvlFacts AvlWalk Bitset Reorder Dqueue Time Wire Protocol Receive Whc WhcFacts WhcHist WrReaders WrReadersFacts Xmsg XmsgFacts Writer WriterSend WriterFacts WriterHb.

Section SendFacts.
Context {T : Type -> Type} `{!OrdTree T, !OrdTreeLaws T}.
Context (cfg : writer_config) (xmsg_size : nn_xmsg -> Z) (hdepth tldepth : nat).
Context (Hxs : forall m, 0 <= xmsg_size m).
Context (Hfs : 0 < wc_fragment_size cfg).
Implicit Types (c : whc (T := T)) (w : writer (T := T)) (x : wx (T := T)) (h : hist) (prd : option proxy_reader) (sd : serdata).

Abbreviation fs := (wc_fragment_size cfg).
Abbreviation ok := (writer_ok (T := T) cfg hdepth tldepth).

(** A serialised sample: an empty one has no data. *)
Definition sd_ok sd : Prop := 0 <= sd_size sd /\ (sd_is_empty sd = true -> sd_size sd = 0).

(** ** Messages *)

Lemma set_destination_ok k prd : exists r, set_destination (nn_xmsg_new k) prd = Some r /\ forall m, r = inl m -> xm_kind m = k /\ xm_submsgs m = [] /\
  xm_readerId_set m = false /\ xm_dst m = match prd with Some p => NN_XMSG_DST_ONE (guid_prefix (prd_guid p)) | None => NN_XMSG_DST_ALL end.
Proof.
  unfold set_destination. destruct prd as [p|]; [|eexists; split; [done|]; by intros m [= <-]]. unfold nn_xmsg_setdstPRD. destruct (prd_has_address p); [|eexists; split; [done|]; by intros m].
  eexists. split; [done|]. by intros m [= <-].
Qed.

(** A message for [fragnum], or an error if there is no such fragment or no
    address. *)
Lemma create_fragment_ok w seq sd fragnum prd isnew : sd_ok sd -> exists r, create_fragment_message cfg w seq sd fragnum prd isnew = Some r /\
  forall m, r = inl m -> xm_kind m = (if isnew then NN_XMSG_KIND_DATA else NN_XMSG_KIND_DATA_REXMIT) /\
    (exists pre, xm_submsgs m = pre ++ [SmData (fragment_submsg cfg w seq sd fragnum prd)] /\ Forall (fun sm => is_data sm = false) pre) /\
    xm_readerId_set m = negb isnew /\ xm_dst m = match prd with Some p => NN_XMSG_DST_ONE (guid_prefix (prd_guid p)) | None => NN_XMSG_DST_ALL end /\
    (isnew = false -> wr_reliable w = true -> xm_wrguid m = wr_guid w /\ xm_wrseq m = seq).
Proof.
  intros [Hs He]. unfold create_fragment_message. destruct (_ && _); [eexists; split; [done|]; by intros m|].
  destruct (set_destination_ok (if isnew then NN_XMSG_KIND_DATA else NN_XMSG_KIND_DATA_REXMIT) prd) as (r & -> & Hr). cbn [mbind option_bind]. destruct r as [m|e]; [|eexists; split; [done|]; by intros m].
  destruct (Hr m eq_refl) as (Hk & Hsm & Hid & Hd). clear Hr.
  assert (exists m1 pre, (if fragnum =? 0 then add_submsg m SmInfoTS else Some m) = Some m1 /\ xm_kind m1 = xm_kind m /\ xm_submsgs m1 = pre /\ Forall (fun sm => is_data sm = false) pre /\
    xm_readerId_set m1 = false /\ xm_dst m1 = xm_dst m) as (m1 & pre & -> & K1 & S1 & P1 & I1 & D1).
  { destruct (fragnum =? 0); [|exists m, []; auto 10]. unfold add_submsg, submsg_is_compatible. rewrite Hk, Hid. destruct isnew; eexists _, _; (split; [done|]); cbn; rewrite ?Hsm; repeat constructor; done. }
  cbn [mbind option_bind]. destruct ((fs <? sd_size sd) && sd_is_empty sd) eqn:Ef; [apply andb_true_iff in Ef as [Ef%Z.ltb_lt E%He]; lia|].
  set (m2 := if marks_seq _ _ _ _ _ then _ else m1). assert (xm_kind m2 = xm_kind m /\ xm_submsgs m2 = pre /\ xm_readerId_set m2 = false /\ xm_dst m2 = xm_dst m /\
    (isnew = false -> wr_reliable w = true -> xm_wrguid m2 = wr_guid w /\ xm_wrseq m2 = seq)) as (K2 & S2 & I2 & D2 & W2).
  { unfold m2, marks_seq. destruct (wr_reliable w && _) eqn:E; [destruct (fs <? sd_size sd); cbn; auto 10|]. split; [done|]. split; [done|]. split; [done|]. split; [done|]. intros -> Hrel. rewrite Hrel in E. simpl in E.
    by destruct (fs <? sd_size sd). }
  clearbody m2. unfold add_submsg at 1, submsg_is_compatible. rewrite K2, Hk, I2. destruct isnew; cbn.
  - eexists. split; [done|]. intros m' [= <-]. cbn. split; [congruence|]. split; [rewrite S2; eauto|]. split; [done|]. split; [congruence|done].
  - unfold nn_xmsg_set_data_readerId. cbn. rewrite existsb_app. cbn. rewrite orb_true_r. eexists. split; [done|]. intros m' [= <-]. cbn. split; [congruence|]. split; [rewrite S2; eauto|].
    split; [done|]. split; [congruence|done].
Qed.
Lemma data_readerId_last m pre d : xm_submsgs m = pre ++ [SmData d] -> Forall (fun sm => is_data sm = false) pre -> data_readerId m = Some (xd_readerId d).
Proof.
  intros E Hp. unfold data_readerId. rewrite E, filter_app, (filter_none _ pre); [done|]. rewrite Forall_forall in Hp. intros sm Hsm. rewrite (Hp sm Hsm). done.
Qed.

(** A retransmission can be queued and merged. *)
Lemma create_rexmit_ok h w seq sd fragnum prd m : ok h w -> sd_ok sd -> wr_reliable w = true -> 1 <= seq ->
  create_fragment_message cfg w seq sd fragnum prd false = Some (inl m) -> rexmit_ok m.
Proof.
  intros H Hsd Hr Hseq E. destruct (create_fragment_ok w seq sd fragnum prd false Hsd) as (r & E' & Hm). rewrite E in E'. injection E' as <-. destruct (Hm m eq_refl) as (Hk & (pre & Hs & Hp) & Hid & Hd & Hw).
  destruct (Hw eq_refl Hr) as [Hg Hq]. destruct (wk_guid _ _ _ _ _ H) as (G1 & G2 & _). pose proof (data_readerId_last m pre _ Hs Hp) as Hdr. split; rewrite ?Hg, ?Hq; try done.
  - rewrite Hd. by destruct prd.
  - rewrite Hd, Hdr. by destruct prd.
Qed.

Lemma create_HeartbeatFrag_ok w seq fragnum prd : exists w' m, create_HeartbeatFrag w seq fragnum prd = Some (w', m) /\ same_sched w w' /\ (forall m', m = Some m' -> xm_kind m' = NN_XMSG_KIND_CONTROL).
Proof.
  unfold create_HeartbeatFrag. destruct (set_destination_ok NN_XMSG_KIND_CONTROL prd) as (r & -> & Hr). cbn [mbind option_bind]. destruct r as [m|e]; [|by eexists _, _].
  destruct (Hr m eq_refl) as (Hk & _). unfold add_submsg, submsg_is_compatible. rewrite Hk. cbn [mbind option_bind]. eexists _, _. split; [done|]. split; [by split|]. by intros m' [= <-].
Qed.

Lemma same_sched_refl w : same_sched w w.
Proof. split; [apply same_hb_refl|done|done]. Qed.
Lemma same_sched_trans w1 w2 w3 : same_sched w1 w2 -> same_sched w2 w3 -> same_sched w1 w3.
Proof. intros [A1 A2 A3] [B1 B2 B3]. split; [by eapply same_hb_trans|congruence|congruence]. Qed.
Lemma same_sched_traits w w' : same_sched w w' -> wr_traits_ w' = wr_traits_ w.
Proof. intros [[[]] _ _]. done. Qed.

(** Only the GUID and the reliability of the writer matter to a message. *)
Lemma create_fragment_traits w w' seq sd i prd isnew : wr_traits_ w' = wr_traits_ w -> create_fragment_message cfg w' seq sd i prd isnew = create_fragment_message cfg w seq sd i prd isnew.
Proof. intros E. unfold create_fragment_message, fragment_submsg, marks_seq, wr_guid, wr_reliable. by rewrite E. Qed.

Lemma fragment_messages_ok w seq sd nfrags i prd isnew : sd_ok sd -> exists w' f hm, fragment_messages cfg w seq sd nfrags i prd isnew = Some (w', f, hm) /\ same_sched w w' /\
  (match f with Some m => create_fragment_message cfg w seq sd i prd isnew = Some (inl m) | None => exists e, create_fragment_message cfg w seq sd i prd isnew = Some (inr e) end) /\
  (forall m, hm = Some m -> xm_kind m = NN_XMSG_KIND_CONTROL).
Proof.
  intros Hsd. unfold fragment_messages. destruct (create_fragment_ok w seq sd i prd isnew Hsd) as (r & -> & _). cbn [mbind option_bind]. destruct r as [m|e].
  2: { eexists _, _, _. split; [done|]. split; [apply same_sched_refl|]. split; [by eexists|done]. }
  destruct (_ && _); [|by eexists _, _, _]. destruct (create_HeartbeatFrag_ok w seq i prd) as (w' & hm & -> & S & Hk). cbn [mbind option_bind]. by eexists _, _, _.
Qed.

Lemma qxev_opt_ok fl q m : evq_ok fl q -> (forall m', m = Some m' -> xm_kind m' <> NN_XMSG_KIND_DATA_REXMIT) -> exists q', qxev_opt q m = Some q' /\ evq_ok fl q' /\ keeps_queued q q'.
Proof.
  intros Hq Hk. destruct m as [m|]; [|exists q; split; [done|]; split; [done|]; by intros m]. destruct (qxev_msg_ok xmsg_size Hxs fl q m Hq) as (q' & E & Hq' & El); [by apply Hk|]. exists q'. split; [done|]. split; [done|]. by eapply keeps_queued_app.
Qed.

(** ** Queueing a sample *)

Definition may_rexmit w (seq : Z) : Prop := wr_reliable w = true /\ 1 <= seq /\ wr_state w <> WRST_DELETING.

(** Nothing but counts of the writer change, and the queue. *)
Record enqueues (fl : list xevent_nt) x x' : Prop := {
  en_sched : same_sched (wx_wr x) (wx_wr x');
  en_out : wx_out x' = wx_out x;
  en_evq : evq_ok fl (wx_evq x');
  en_keeps : keeps_queued (wx_evq x) (wx_evq x');
}.

Lemma enqueues_refl fl x : evq_ok fl (wx_evq x) -> enqueues fl x x.
Proof. intros Hq. split; [apply same_sched_refl|done|done|by intros m]. Qed.
Lemma enqueues_trans fl x1 x2 x3 : enqueues fl x1 x2 -> enqueues fl x2 x3 -> enqueues fl x1 x3.
Proof. intros [A1 A2 A3 A4] [B1 B2 B3 B4]. split; [by eapply same_sched_trans|congruence|done|]. intros m Hm. auto. Qed.

(** Fragment [i] is in the queue, if there is one. *)
Definition frag_queued w (seq : Z) sd prd (q : xeventq) (i : Z) : Prop :=
  forall m, create_fragment_message cfg w seq sd i prd false = Some (inl m) -> queued q m.

Lemma enqueue_fragment_ok fl h x seq sd nfrags i prd isnew enq : ok h (wx_wr x) -> sd_ok sd -> (isnew = false -> may_rexmit (wx_wr x) seq) -> enq <> 0 -> evq_ok fl (wx_evq x) ->
  exists x' e, enqueue_fragment cfg xmsg_size x seq sd nfrags i prd isnew enq = Some (x', e) /\ enqueues fl x x' /\
    (isnew = true -> e = enq) /\ (isnew = false -> e <> 0 -> frag_queued (wx_wr x) seq sd prd (wx_evq x') i).
Proof.
  intros H Hsd Hre Henq Hq. unfold enqueue_fragment. destruct (fragment_messages_ok (wx_wr x) seq sd nfrags i prd isnew Hsd) as (w' & f & hm & -> & S & Hf & Hhm). cbn [mbind option_bind].
  assert (Hhm' : forall m', hm = Some m' -> xm_kind m' <> NN_XMSG_KIND_DATA_REXMIT) by (intros m' Em; by rewrite (Hhm _ Em)). destruct isnew.
  - destruct (qxev_opt_ok fl (wx_evq x) f Hq) as (q1 & E1 & Hq1 & K1).
    { intros m ->. destruct (create_fragment_ok (wx_wr x) seq sd i prd true Hsd) as (r & E & Hr). rewrite Hf in E. injection E as <-. destruct (Hr m eq_refl) as [-> _]. done. }
    change (wx_evq (put x w')) with (wx_evq x). rewrite E1. cbn [mbind option_bind]. destruct (qxev_opt_ok fl q1 hm Hq1 Hhm') as (q2 & E2 & Hq2 & K2). rewrite E2. cbn [mbind option_bind].
    eexists _, _. split; [done|]. split; [|done]. split; [done|done|done|]. intros m Hm. apply K2, K1, Hm.
  - destruct (Hre eq_refl) as (Hrel & Hseq & Hst). rewrite bool_decide_true by (rewrite (sh_state _ _ (ss_hb _ _ S)); done). change (wx_evq (put x w')) with (wx_evq x).
    assert (exists q1 e, match f with Some m => qxev_msg_rexmit_wrlock_held xmsg_size true (wx_evq x) m false | None => Some (wx_evq x, enq) end = Some (q1, e) /\ evq_ok fl q1 /\
      keeps_queued (wx_evq x) q1 /\ (e <> 0 -> frag_queued (wx_wr x) seq sd prd q1 i)) as (q1 & e & -> & Hq1 & K1 & Q1).
    { destruct f as [m|].
      - pose proof (create_rexmit_ok h (wx_wr x) seq sd i prd m H Hsd Hrel Hseq Hf) as Hm. destruct (qxev_rexmit_ok xmsg_size Hxs fl (wx_evq x) m false Hq Hm) as (q1 & e & E & Hq1 & R).
        destruct (rexmit_result_queued _ Hxs _ _ _ _ Hm R) as [K1 Q1]. exists q1, e. split; [done|]. split; [done|]. split; [done|]. intros He m' Em. rewrite Hf in Em. injection Em as <-. auto.
      - destruct Hf as [e Hf]. eexists _, _. split; [done|]. split; [done|]. split; [by intros m|]. intros _ m Em. rewrite Hf in Em. done. }
    cbn [mbind option_bind]. destruct (e >? 1).
    + destruct (qxev_opt_ok fl q1 hm Hq1 Hhm') as (q2 & E2 & Hq2 & K2). rewrite E2. cbn [mbind option_bind]. eexists _, _. split; [done|]. split; [split; [done|done|done|]|].
      * intros m Hm. apply K2, K1, Hm.
      * split; [done|]. intros _ He m Em. by apply K2, Q1.
    + cbn [mbind option_bind]. eexists _, _. split; [done|]. split; [by split|]. split; [done|]. auto.
Qed.

Lemma may_rexmit_sched w w' seq : same_sched w w' -> may_rexmit w seq -> may_rexmit w' seq.
Proof. intros S (A & B & C). pose proof (same_sched_traits _ _ S) as E. unfold may_rexmit, wr_reliable in *. rewrite E. split; [done|]. split; [done|]. by rewrite (sh_state _ _ (ss_hb _ _ S)). Qed.
Lemma same_sched_ok h w w' : ok h w -> same_sched w w' -> ok h w'.
Proof. intros H S. by eapply same_hb_ok, S. Qed.

Lemma enqueue_fragments_ok fl h n x seq sd nfrags i prd isnew enq : ok h (wx_wr x) -> sd_ok sd -> (isnew = false -> may_rexmit (wx_wr x) seq) -> evq_ok fl (wx_evq x) ->
  exists x' e, enqueue_fragments cfg xmsg_size n x seq sd nfrags i prd isnew enq = Some (x', e) /\ enqueues fl x x' /\
    (isnew = true -> e = enq) /\ (isnew = false -> e <> 0 -> forall j, i <= j < i + Z.of_nat n -> frag_queued (wx_wr x) seq sd prd (wx_evq x') j).
Proof.
  revert x i enq. induction n as [|n IH]; intros x i enq H Hsd Hre Hq; cbn [enqueue_fragments].
  { eexists _, _. split; [done|]. split; [by apply enqueues_refl|]. split; [done|]. intros; lia. }
  destruct (Z.eqb_spec enq 0) as [->|Hne]; [eexists _, _; split; [done|]; split; [by apply enqueues_refl|done]|].
  destruct (enqueue_fragment_ok fl h x seq sd nfrags i prd isnew enq H Hsd Hre Hne Hq) as (x1 & e1 & -> & N1 & T1 & Q1). cbn [mbind option_bind]. pose proof N1 as [S1 _ Hq1 K1].
  destruct (IH x1 (i + 1) e1) as (x2 & e2 & E2 & N2 & T2 & Q2); [by eapply same_sched_ok|done| |done|].
  { intros Hn. eapply may_rexmit_sched; [exact S1|auto]. }
  eexists _, _. split; [exact E2|]. split; [by eapply enqueues_trans|]. split; [intros Ht; rewrite T2 by done; auto|]. intros Hn He j Hj. pose proof (same_sched_traits _ _ S1) as Et.
  destruct (decide (j = i)) as [->|Hji].
  - intros m Em. apply (en_keeps _ _ _ N2). apply Q1; [done| |done]. intros ->. destruct n; simpl in E2; injection E2 as <- <-; done.
  - intros m Em. apply (Q2 Hn He j); [lia|]. by rewrite (create_fragment_traits (wx_wr x)).
Qed.

Lemma enqueue_sample_ok fl h x seq sd prd isnew : ok h (wx_wr x) -> sd_ok sd -> (isnew = false -> may_rexmit (wx_wr x) seq) -> evq_ok fl (wx_evq x) ->
  exists x' r, enqueue_sample_wrlock_held cfg xmsg_size x seq sd prd isnew = Some (x', r) /\ enqueues fl x x' /\ (r = 0 \/ r = -1) /\
    (r = 0 -> isnew = false -> forall j, 0 <= j < num_fragments cfg sd -> frag_queued (wx_wr x) seq sd prd (wx_evq x') j).
Proof.
  intros H Hsd Hre Hq. unfold enqueue_sample_wrlock_held. set (one := _ && _ && _). set (n := if one then 1 else num_fragments cfg sd).
  destruct (enqueue_fragments_ok fl h (Z.to_nat n) x seq sd n 0 prd isnew 1 H Hsd Hre Hq) as (x' & e & -> & N & T1 & Q). cbn [mbind option_bind]. eexists _, _. split; [done|]. split; [done|].
  destruct (Z.eqb_spec e 0) as [->|He]; [split; [by right|]; lia|]. unfold n in *. destruct one; [split; [by right|]; lia|]. split; [by left|]. intros _ Hn j Hj. apply Q; [done|done|lia].
Qed.

(** ** Fragments *)

(** Fragments cover the sample, and none is beyond its end. *)
Lemma num_fragments_spec sd : 0 <= sd_size sd -> sd_size sd + fs - 1 < 2 ^ 32 ->
  1 <= num_fragments cfg sd /\ sd_size sd <= num_fragments cfg sd * fs /\ (0 < sd_size sd -> (num_fragments cfg sd - 1) * fs < sd_size sd).
Proof.
  intros H0 H1. unfold num_fragments. rewrite wrap_u_small by (unfold in_u; lia). pose proof (Z.div_mod (sd_size sd + fs - 1) fs ltac:(lia)) as Hd. pose proof (Z.mod_pos_bound (sd_size sd + fs - 1) fs Hfs) as Hm.
  assert (0 <= (sd_size sd + fs - 1) / fs) by (apply Z.div_pos; lia). destruct (Z.eqb_spec ((sd_size sd + fs - 1) / fs) 0) as [E|E]; [rewrite E in Hd|]; repeat split; nia.
Qed.

Lemma align4u_spec n : 0 <= n < 2 ^ 32 - 3 -> n <= align4u n < n + 4 /\ align4u n mod 4 = 0.
Proof.
  intros Hn. unfold align4u. rewrite wrap_u_small by (unfold in_u; lia). change 0xfffffffc with (Z.lnot 3 mod 2 ^ 32).
  assert (E : Z.land (n + 3) (Z.lnot 3 mod 2 ^ 32) = (n + 3) / 4 * 4).
  { rewrite <- Z.land_ones by lia. rewrite (Z.land_comm (Z.lnot 3)), Z.land_assoc, Z.land_ones by lia. rewrite Z.mod_small by lia. change 3 with (Z.ones 2) at 2. rewrite <- Z.ldiff_land, Z.ldiff_ones_r by lia.
    rewrite Z.shiftl_mul_pow2, Z.shiftr_div_pow2 by lia. done. }
  rewrite E. pose proof (Z.div_mod (n + 3) 4 ltac:(lia)). pose proof (Z.mod_pos_bound (n + 3) 4 ltac:(lia)). split; [lia|]. by rewrite Z.mod_mul.
Qed.

(** The part of the sample in fragment [i]. *)
Definition frag_start (i : Z) : Z := i * fs.
Definition frag_end sd (i : Z) : Z := Z.min ((i + 1) * fs) (sd_size sd).

Lemma fragment_submsg_spec w seq sd i prd : sd_ok sd -> fs < sd_size sd -> fs < 2 ^ 16 -> sd_size sd + fs < 2 ^ 32 -> 0 <= i < num_fragments cfg sd ->
  let d := fragment_submsg cfg w seq sd i prd in
  xd_frag d = Some (i + 1, 1, fs, sd_size sd) /\ xd_payload d = Some (frag_start i, align4u (frag_end sd i - frag_start i)) /\
  frag_start i < frag_end sd i <= frag_start i + fs.
Proof.
  intros [H0 He] Hf H16 H32 Hi. destruct (num_fragments_spec sd H0) as (N1 & N2 & N3); [lia|]. specialize (N3 ltac:(lia)). assert (Hs : 0 <= i * fs < sd_size sd) by nia.
  unfold fragment_submsg, frag_start, frag_end. cbn zeta. cbn [xd_frag xd_payload]. rewrite (proj2 (Z.ltb_lt _ _)) by done. destruct (sd_is_empty sd) eqn:Ee; [specialize (He eq_refl); lia|].
  rewrite (wrap_u_small 32 (i * fs)) by (unfold in_u; lia). rewrite (wrap_u_small 32 (i + 1)) by (unfold in_u; nia). rewrite (wrap_u_small 16 fs) by (unfold in_u; lia).
  rewrite (wrap_u_small 32 (i * fs + fs)) by (unfold in_u; lia). rewrite (wrap_u_small 32 (sd_size sd - i * fs)) by (unfold in_u; lia). rewrite Z.gtb_ltb.
  split; [done|]. split; [|lia]. do 3 f_equal. destruct (Z.ltb_spec (sd_size sd) (i * fs + fs)); lia.
Qed.

(** The receiver takes exactly this part from it. *)
Lemma fragment_received sd i hdr datap : 0 < sd_size sd -> fs < 2 ^ 16 -> sd_size sd + fs < 2 ^ 32 -> 0 <= i < num_fragments cfg sd -> 0 <= datap ->
  fragment_range (MkDataFrag hdr (i + 1) 1 fs (sd_size sd)) (datap + align4u (frag_end sd i - frag_start i)) datap = (frag_start i, frag_end sd i).
Proof.
  intros H0 H16 H32 Hi Hd. destruct (num_fragments_spec sd) as (N1 & N2 & N3); [lia|lia|]. specialize (N3 H0). assert (Hs : 0 <= i * fs < sd_size sd) by nia. unfold fragment_range, frag_start, frag_end in *.
  cbn [df_fragmentStartingNum df_fragmentSize df_fragmentsInSubmessage df_sampleSize]. replace (i + 1 - 1) with i by lia. rewrite (wrap_u_small 32 i) by (unfold in_u; nia).
  rewrite (wrap_u_small 32 (i * fs)) by (unfold in_u; lia). destruct (align4u_spec (Z.min ((i + 1) * fs) (sd_size sd) - i * fs)) as [Ha _]; [lia|].
  set (a := align4u _) in *. replace (datap + a - datap) with a by lia. rewrite (wrap_u_small 32 a) by (unfold in_u; lia). rewrite !Z.gtb_ltb. f_equal.
  destruct (Z.ltb_spec a (fs * 1)); rewrite wrap_u_small by (unfold in_u; lia); match goal with |- context [?p <? ?q] => destruct (Z.ltb_spec p q) end; lia.
Qed.
End SendFacts.

(** ** Writing samples: the steps of [write_sample_kernel_seq_eot]

    A written sample goes into the history cache if a reader may have to be sent
    it again; writing, waiting for room and transmitting never fail. *)

Section Write.
Context {T : Type -> Type} `{!OrdTree T, !OrdTreeLaws T}.
Context (cfg : writer_config) (ndebug : bool) (xmsg_size : nn_xmsg -> Z).
Context (Hxs : forall m, 0 <= xmsg_size m).
Context (Hfs : 0 < wc_fragment_size cfg) (Hhb : hb_settings cfg).
Context (is_tl : bool) (hdepth tldepth : nat).
Context (Hset : settings ndebug is_tl hdepth tldepth sample_overhead).
Context (fl : list xevent_nt).
Implicit Types (c : whc (T := T)) (w : writer (T := T)) (x : wx (T := T)) (h : hist) (prd : option proxy_reader) (sd : serdata).

Abbreviation fs := (wc_fragment_size cfg).
Abbreviation ok := (writer_ok (T := T) cfg hdepth tldepth).
Abbreviation advances := (advances (T := T) cfg hdepth tldepth fl).

(** ** The next sequence number *)

Lemma set_numbers_ok h w n : ok h w -> nu_seq (wr_numbers_ w) <= nu_seq n < MAX_SEQ_NUMBER -> 0 <= nu_seq_xmit n <= nu_seq n -> ok h (set_numbers w n).
Proof.
  intros H Hs Hx. destruct (writer_ok_max_drop _ _ _ _ _ H) as (M1 & M2 & _). pose proof (wk_ack _ _ _ _ _ H). pose proof (wk_last _ _ _ _ _ H). destruct H as [K1 K2 K3 K4 K5 K6 K7 K8 K9 K10 K11 K12 K13 K14 K15].
  assert (Hm : Forall (match_ok (nu_seq n)) (matches w)) by (eapply Forall_impl; [exact K2|]; intros m; apply match_ok_mono, Hs). unfold wr_seq in *.
  split; unfold wr_seq, wr_seq_xmit in *; simpl; try done; try lia. apply (max_drop_ge cfg); unfold wr_seq in *; simpl; try done; try lia.
Qed.

Lemma next_seq_ok h w : ok h w -> wr_seq w + 1 < MAX_SEQ_NUMBER -> ok h (next_seq w).
Proof. intros H Hs. pose proof (wk_xmit _ _ _ _ _ H). unfold wr_seq, wr_seq_xmit in *. apply set_numbers_ok; simpl; [done|lia|lia]. Qed.

(** ** The history cache *)

(** A reader that counts: it has not been given up on. *)
Definition responsive (n : wr_prd_match) : Prop := rn_seq n <> MAX_SEQ_NUMBER.

Lemma have_reliable_subs_spec h w : ok h w -> have_reliable_subs w = true <-> exists n, n ∈ matches w /\ responsive n.
Proof.
  intros H. unfold have_reliable_subs, root_rdmatch. pose proof (match_seqs_ok w (wk_seq _ _ _ _ _ H) (wk_match _ _ _ _ _ H)) as Hq. destruct (wk_readers _ _ _ _ _ H) as [_ Ha].
  unfold matches, responsive in *. pose proof (aug_ok_summary _ Ha Hq) as Hs. destruct (wr_readers w) as [|hh l y s r]; cbn [ut_avlRoot onode_from_node option_map snd summary_of] in *.
  - split; [done|]. intros (n & Hn & _). by apply elem_of_nil in Hn.
  - destruct Hs as [[(n & Hn & En) Hmin] _ _ _]. rewrite negb_true_iff, Z.eqb_neq. split.
    + intros Hne. exists n. split; [done|congruence].
    + intros (n' & Hn' & Hne) E. specialize (Hmin n' Hn'). unfold seqs_ok in Hq. rewrite Forall_forall in Hq. specialize (Hq n' Hn'). simpl in Hq. lia.
Qed.

Lemma unresponsive_max_drop h w : ok h w -> have_reliable_subs w = false -> writer_max_drop_seq w = wr_seq w.
Proof.
  intros H Hn. pose proof (wk_xmit _ _ _ _ _ H). destruct (max_drop_spec cfg w (wk_readers _ _ _ _ _ H) (wk_match _ _ _ _ _ H) (wk_seq _ _ _ _ _ H)) as (_ & _ & [?|(n & Hn' & Hne & _)]); [lia|done|].
  assert (have_reliable_subs w = true) by (apply (have_reliable_subs_spec h w H); eauto). congruence.
Qed.

Lemma responsive_reliable h w : ok h w -> have_reliable_subs w = true -> wr_reliable w = true.
Proof.
  intros H (n & Hn & Hr)%(have_reliable_subs_spec h w H). destruct (wr_reliable w) eqn:E; [done|]. pose proof (wk_unreliable _ _ _ _ _ H E) as Hu. pose proof (wk_match _ _ _ _ _ H) as Hm. rewrite Forall_forall in *.
  destruct (Hm n Hn) as (_ & _ & _ & Hb & _). destruct Hr. auto.
Qed.

Lemma behind_reliable h w : ok h w -> behind w -> wr_reliable w = true.
Proof. intros H (n & q & Hn & Hne & _). apply (responsive_reliable h w H), (have_reliable_subs_spec h w H). by exists n. Qed.

(** The history of the cache when a sample with number [seq] is written. *)
Definition written_hist h w (seq : Z) sd (r : Z) : hist := if r =? 1 then h_step h (OWrite (writer_max_drop_seq w) seq sd) else h.

Lemma insert_sample_ok h w sd : ok h w -> 0 <= sd_size sd -> h_last h < wr_seq w -> h_ack h < wr_seq w ->
  exists w' r, insert_sample_in_whc cfg w (wr_seq w) sd = Some (w', r) /\ ok (written_hist h w (wr_seq w) sd r) w' /\ same_hb (set_whc w (wr_whc w')) w' /\
    wr_heartbeat_xevent w' = wr_heartbeat_xevent w /\ wr_hbcontrol w' = wr_hbcontrol w /\ (r = 0 \/ r = 1) /\
    (have_reliable_subs w || wr_handle_as_transient_local w || wr_startup_mode w = true <-> r = 1).
Proof.
  intros H Hsz Hl Ha. unfold insert_sample_in_whc. destruct (writer_ok_max_drop _ _ _ _ _ H) as (M1 & M2 & M3).
  assert (E : negb (wr_reliable w || negb (have_reliable_subs w)) = false).
  { destruct (have_reliable_subs w) eqn:E; [by rewrite (responsive_reliable h)|]. by rewrite orb_true_r. }
  assert (Eb : wr_reliable w && have_reliable_subs w = have_reliable_subs w) by (destruct (have_reliable_subs w) eqn:E1; [by rewrite (responsive_reliable h)|by rewrite andb_false_r]).
  rewrite E, Eb. destruct (_ || _ || _).
  2: { eexists _, _. split; [done|]. split; [done|]. split; [by destruct w; split|]. split; [done|]. split; [done|]. split; [by left|done]. }
  destruct (whc_inserts cfg Hfs hdepth tldepth h (wr_whc w) (writer_max_drop_seq w) (wr_seq w) sd (wk_whc _ _ _ _ _ H)) as (c & -> & Hc & Ht & Hd & Hs & Hi).
  { split; [done|]. pose proof (cache_drop _ _ _ _ _ (wk_whc _ _ _ _ _ H)). split; [lia|]. split; [lia|done]. }
  cbn [mbind option_bind]. eexists _, _. split; [done|]. split; [|split; [by split|]; split; [done|]; split; [done|]; split; [by right|done]]. unfold written_hist. simpl (1 =? 1).
  pose proof (wk_ack _ _ _ _ _ H). pose proof (unresponsive_max_drop h w H) as Hun. pose proof (responsive_reliable h w H) as Hrr. destruct H as [K1 K2 K3 K4 K5 K6 K7 K8 K9 K10 K11 K12 K13 K14 K15]. split; try done.
  - unfold wr_handle_as_transient_local in *. simpl. congruence.
  - change (writer_max_drop_seq (set_whc w c)) with (writer_max_drop_seq w). simpl. lia.
  - intros Hr q i Hq. destruct (i.1.2) eqn:Eu; [|done]. exfalso. change (wr_reliable w = false) in Hr. destruct (Hi q i Hq Eu) as [[_ Hlt]|(i0 & Hi0 & Eu0)]; [|by rewrite (K12 Hr q i0 Hi0) in Eu0].
    destruct (have_reliable_subs w); [by rewrite Hrr in Hr|]. rewrite Hun in Hlt by done. lia.
Qed.


(** ** Waiting for room *)

Lemma unacked_some h w : ok h w -> 0 < whc_unacked_bytes (wr_whc w) -> wr_reliable w = true /\ seqs (wr_whc w) <> [].
Proof.
  intros H Hu. destruct (wo_core _ _ _ (ho_ok _ _ _ _ _ _ (wk_whc _ _ _ _ _ H))) as [[_ _ E _] _]. unfold whc_unacked_bytes in Hu. rewrite E in Hu. split; [|by intros E'; rewrite E' in Hu].
  destruct (wr_reliable w) eqn:Er; [done|]. exfalso. pose proof (wk_besteffort _ _ _ _ _ H Er) as Hb. clear - Hu Hb. induction (seqs (wr_whc w)) as [|q l IH]; simpl in Hu; [lia|].
  unfold cost_at in Hu at 1. destruct (infos (wr_whc w) !! q) as [i|] eqn:Ei; [|auto]. unfold cost in Hu at 1. rewrite (Hb q i Ei) in Hu. auto.
Qed.

Lemma set_throttling_advances h x b : ok h (wx_wr x) -> advances h x h (put x (set_throttling (wx_wr x) b)).
Proof. intros H. apply advances_frame; try done. Qed.

Lemma put_put x w1 w2 : put (put x w1) w2 = put x w2.
Proof. done. Qed.

Lemma throttle_begin_ok lookup_prd h x xp tnow : ok h (wx_wr x) -> wr_throttling (wx_wr x) = false -> is_builtin_own_entityid (guid_entityid (wr_guid (wx_wr x))) = false ->
  0 < whc_unacked_bytes (wr_whc (wx_wr x)) -> exists x', throttle_begin cfg lookup_prd x xp tnow = Some x' /\ advances h x h x' /\ wr_throttling (wx_wr x') = true.
Proof.
  intros H Ht Hb Hu. destruct (unacked_some h _ H Hu) as [Hr Hne]. unfold throttle_begin. rewrite Ht, Hb. cbn [orb]. set (w1 := set_stats _ _). assert (S1 : same_core (wx_wr x) w1) by (split; done).
  assert (A1 : advances h x h (put x w1)) by (apply advances_frame; done). destruct xp; [|eexists; split; [done|]; split; [exact A1|done]].
  destruct (create_heartbeat_ok cfg hdepth tldepth lookup_prd h w1 tnow 1 true (ad_ok _ _ _ _ _ _ _ _ A1) Hr) as (w2 & m & -> & S2 & _); [lia|by apply (nonempty_advertise cfg hdepth tldepth h); [apply A1|]|].
  cbn [mbind option_bind]. eexists. split; [done|]. assert (A2 : advances h x h (put x w2)).
  { eapply advances_trans; [exact A1|]. rewrite <- (put_put x w1 w2). apply same_hb_advances; [apply A1|apply S2]. }
  split; [apply emit_advances; destruct m; [by apply emit_advances|done]|]. assert (E : wr_throttling w2 = true) by (unfold wr_throttling; by rewrite (sh_limits _ _ (ss_hb _ _ S2))). by destruct m.
Qed.

Lemma throttle_helper_advances h x k : ok h (wx_wr x) -> advances h x h (throttle_helper cfg x k).
Proof.
  intros H. unfold throttle_helper. pose proof (lookup_match cfg hdepth tldepth h _ k H) as Hl. destruct (ut_avlLookup _ _ _) as [[n a]|]; [|by apply advances_refl]. destruct (_ <? _); [|by apply advances_refl].
  apply emit_advances, upd_augment_advances; [done|by intros m| |by intros m _ _ q _]. intros m _ _ Hm. split; [|done]. destruct (match_ok_given_up _ _ Hm) as (A & B & C & D & E). by repeat split.
Qed.

Lemma throttle_walk_advances h x : ok h (wx_wr x) -> exists x', throttle_walk cfg x = Some x' /\ advances h x h x'.
Proof.
  intros H. unfold throttle_walk. rewrite walk_spec. cbn [mbind option_bind]. eexists. split; [done|]. generalize (elements (wr_readers (wx_wr x))) as l. intros l. revert x H.
  induction l as [|n l IH]; intros x H; cbn [fold_left]; [by apply advances_refl|]. pose proof (throttle_helper_advances h x (reader_key cfg (rn_prd_guid n)) H) as A.
  eapply advances_trans; [exact A|]. apply IH, A.
Qed.

Lemma throttle_end_advances h x et : ok h (wx_wr x) -> 0 <= et -> exists x' h', throttle_end cfg ndebug x et = Some x' /\ advances h x h' x' /\ wr_throttling (wx_wr x') = false.
Proof.
  intros H Het. unfold throttle_end. assert (exists x1 h1, (if writer_may_continue (wx_wr x) then Some x else x' ← throttle_walk cfg x; '(x', _) ← remove_acked_messages cfg ndebug x' et;
    Some (emit x' WOutBroadcast)) = Some x1 /\ advances h x h1 x1) as (x1 & h1 & -> & A1).
  { destruct (writer_may_continue _); [exists x, h; split; [done|by apply advances_refl]|]. destruct (throttle_walk_advances h x H) as (x1 & -> & A1). cbn [mbind option_bind].
    destruct (remove_acked_advances cfg ndebug Hfs is_tl hdepth tldepth Hset fl h x1 et (ad_ok _ _ _ _ _ _ _ _ A1) Het) as (x2 & n & -> & _ & A2). cbn [mbind option_bind]. eexists _, _. split; [done|].
    apply emit_advances. by eapply advances_trans. }
  cbn [mbind option_bind]. pose proof (set_throttling_advances h1 x1 false (ad_ok _ _ _ _ _ _ _ _ A1)) as A2. eexists _, h1. split; [done|]. split; [|by case_decide].
  eapply advances_trans; [exact A1|]. case_decide; [done|by apply emit_advances].
Qed.

(** ** Beginning to write *)

Lemma maybe_grow_ok w et : 0 <= wl_t_whc_high_upd (wr_limits_ w) -> 0 <= et -> exists w' b, maybe_grow_whc cfg w et = Some (w', b) /\ same_core w w' /\ wr_whc w' = wr_whc w /\ wr_state w' = wr_state w /\
  wr_throttling w' = wr_throttling w.
Proof.
  intros Ht Het. unfold maybe_grow_whc. destruct (_ && _ && _); [|by eexists _, _]. unfold add_duration_to_etime, add_duration_to_time. rewrite !Z.geb_leb, (proj2 (Z.leb_le _ _)) by lia.
  rewrite (proj2 (Z.leb_le 0 (10 * T_MILLISECOND))) by (unfold T_MILLISECOND; lia). cbn [andb mbind option_bind]. destruct (_ >=? _); [|by eexists _, _]. eexists _, _. split; [done|]. split; [by split|done].
Qed.

Lemma write_begin_advances h x sd ks eot et : ok h (wx_wr x) -> 0 <= et -> exists x' d, write_begin cfg x sd ks eot et = Some (x', d) /\ advances h x h x' /\
  (d = WriteThrottle -> wr_whc_high (wx_wr x') < whc_unacked_bytes (wr_whc (wx_wr x'))) /\ wr_throttling (wx_wr x') = wr_throttling (wx_wr x).
Proof.
  intros H Het. unfold write_begin. destruct (_ >? _); [exists x, (WriteDrop ERR_INVALID_DATA); split; [done|]; split; [by apply advances_refl|done]|].
  set (w1 := if eot then _ else _). assert (S1 : same_core (wx_wr x) w1 /\ wr_whc w1 = wr_whc (wx_wr x) /\ wr_state w1 = wr_state (wx_wr x) /\ wr_limits_ w1 = wr_limits_ (wx_wr x)) by (unfold w1; destruct eot; (split; [by split|done])).
  destruct S1 as (S1 & C1 & T1 & L1). destruct (match ks with Some _ => _ | None => _ end).
  { eexists _, _. split; [done|]. split; [by apply advances_frame|]. split; [done|]. unfold wr_throttling. simpl. by rewrite L1. }
  set (w2 := match ks with Some _ => _ | None => _ end). assert (S2 : same_core (wx_wr x) w2 /\ wr_whc w2 = wr_whc (wx_wr x) /\ wr_state w2 = wr_state (wx_wr x) /\ wr_limits_ w2 = wr_limits_ (wx_wr x)).
  { unfold w2. destruct ks as [k|]; [|done]. destruct (wc_forward_all_messages cfg); [done|]. split; [|done]. destruct S1. by split. }
  clearbody w2. clear w1 S1 C1 T1 L1. destruct S2 as (S2 & C2 & T2 & L2). assert (A2 : advances h x h (put x w2)) by (by apply advances_frame).
  assert (Hth : wr_throttling w2 = wr_throttling (wx_wr x)) by (unfold wr_throttling; by rewrite L2).
  destruct (Z.gtb_spec (whc_unacked_bytes (wr_whc w2)) (wr_whc_high w2)); cbn [negb]; [|by eexists _, _]. destruct (_ && _); [eexists _, _; split; [done|]; split; [done|]; split; [intros _; simpl; lia|done]|].
  destruct (maybe_grow_ok w2 et) as (w3 & b & -> & S3 & C3 & T3 & Th3); [rewrite L2; apply (wk_time _ _ _ _ _ H)|done|]. cbn [mbind option_bind]. eexists _, _. split; [done|].
  assert (A3 : advances h x h (put x w3)) by (apply advances_frame; [done|by eapply same_core_trans|simpl; congruence|simpl; congruence|done]). split; [done|]. split; [|simpl; congruence].
  destruct (Z.leb_spec (whc_unacked_bytes (wr_whc w2)) (wr_whc_high w3)); [done|]. intros _. simpl. rewrite C3. lia.
Qed.

(** ** Writing *)

(** A sample was written with the next sequence number. *)
Record writes h x sd (r : Z) h' x' : Prop := {
  ww_ok : ok h' (wx_wr x');
  ww_hist : h' = written_hist h (next_seq (wx_wr x)) (wr_seq (wx_wr x) + 1) sd r;
  ww_inserted : (have_reliable_subs (wx_wr x) || wr_handle_as_transient_local (wx_wr x) || wr_startup_mode (wx_wr x) = true <-> r = 1) /\ (r = 0 \/ r = 1);
  ww_seq : wr_seq (wx_wr x') = wr_seq (wx_wr x) + 1;
  ww_xmit : wr_seq_xmit (wx_wr x') = wr_seq_xmit (wx_wr x);
  ww_traits : wr_traits_ (wx_wr x') = wr_traits_ (wx_wr x);
  ww_state : wr_state (wx_wr x') = wr_state (wx_wr x);
  ww_readers : wr_readers (wx_wr x') = wr_readers (wx_wr x);
  ww_hb : forall t, hb_upto t (wx_wr x) -> hb_upto t (wx_wr x');
  ww_evq : evq_ok fl (wx_evq x');
}.

Lemma write_end_ok h x sd xp now_mt : ok h (wx_wr x) -> wr_seq (wx_wr x) + 1 < MAX_SEQ_NUMBER -> sd_ok sd -> 0 <= now_mt -> evq_ok fl (wx_evq x) ->
  exists x' r h', write_end cfg xmsg_size x sd xp now_mt = Some (x', r) /\ writes h x sd r h' x' /\
    (xp = false -> wr_reliable (wx_wr x) = true -> forall t, hb_upto t (wx_wr x) -> hb_upto (now_mt + wc_const_hb_intv_sched cfg) (wx_wr x')).
Proof.
  intros H Hs Hsd Ht Hq. unfold write_end. pose proof (next_seq_ok h _ H Hs) as H1. set (w1 := next_seq (wx_wr x)) in *. assert (E1 : wr_seq w1 = wr_seq (wx_wr x) + 1) by done.
  destruct (writer_ok_max_drop _ _ _ _ _ H) as (M1 & _ & _). pose proof (wk_ack _ _ _ _ _ H) as Hack. pose proof (wk_last _ _ _ _ _ H) as Hlast.
  destruct (insert_sample_ok h w1 sd H1) as (w2 & r & -> & H2 & S2 & Ee & Eh & Hr & Hins); [apply Hsd|lia|lia|]. cbn [mbind option_bind]. rewrite E1 in H2.
  assert (B : forall w3, same_hb w2 w3 -> wr_seq w3 = wr_seq (wx_wr x) + 1 /\ wr_seq_xmit w3 = wr_seq_xmit (wx_wr x) /\ wr_traits_ w3 = wr_traits_ (wx_wr x) /\ wr_state w3 = wr_state (wx_wr x) /\ wr_readers w3 = wr_readers (wx_wr x)).
  { intros w3 S3. destruct (same_hb_trans _ _ _ S2 S3) as [[A1 A2 A3 A4 A5 A6 A7 A8 A9] B2 B3 B4]. split; [by rewrite A2|]. split; [by rewrite A3|]. split; [by rewrite A1|]. split; [by rewrite B3|by rewrite A4]. }
  assert (Hw : forall x3, ok (written_hist h w1 (wr_seq (wx_wr x) + 1) sd r) (wx_wr x3) -> same_hb w2 (wx_wr x3) -> evq_ok fl (wx_evq x3) -> writes h x sd r (written_hist h w1 (wr_seq (wx_wr x) + 1) sd r) x3).
  { intros x3 H3 S3 Hq3. destruct (B _ S3) as (B1 & B2 & B3 & B4 & B5). split; try done. intros t Hu. apply (sc_hb _ _ (sh_core _ _ S3)). unfold hb_upto in *. by rewrite Ee, Eh. }
  assert (Hu2 : forall t, hb_upto t (wx_wr x) -> hb_upto t w2) by (intros t Hu; unfold hb_upto in *; by rewrite Ee, Eh).
  destruct xp; [eexists _, _, _; split; [done|]; split; [apply Hw; [done|apply same_hb_refl|done]|done]|].
  assert (exists w3, (match wr_heartbeat_xevent w2 with Some _ => writer_hbcontrol_note_asyncwrite cfg w2 now_mt | None => Some w2 end) = Some w3 /\ same_hb w2 w3 /\
    forall t, hb_upto t w2 -> hb_upto (now_mt + wc_const_hb_intv_sched cfg) w3) as (w3 & -> & S3 & U3).
  { destruct (wr_heartbeat_xevent w2) as [ev|] eqn:Ev; [|eexists; split; [done|]; split; [apply same_hb_refl|]; intros t (e & Ee' & _); congruence]. apply (note_asyncwrite_ok cfg hdepth tldepth Hhb _ w2 now_mt H2); [|done]. apply (wk_event _ _ _ _ _ H2). by rewrite Ev. }
  cbn [mbind option_bind]. pose proof (same_hb_ok cfg hdepth tldepth _ _ _ H2 S3) as H3.
  destruct (enqueue_sample_ok cfg xmsg_size hdepth tldepth Hxs Hfs fl _ (put x w3) (wr_seq w1) sd None true H3 Hsd) as (x4 & r4 & -> & [N1 N2 N3 N4] & _); [done|done|]. cbn [mbind option_bind].
  eexists _, _, _. split; [done|]. split; [apply Hw; [by eapply same_hb_ok, N1|by eapply same_hb_trans, N1|done]|]. intros _ _ t Hu. apply (sc_hb _ _ (sh_core _ _ (ss_hb _ _ N1))). by apply (U3 t), Hu2.
Qed.

(** ** Transmitting *)

Lemma transmit_fragments_advances h n x seq sd nfrags i prd isnew : ok h (wx_wr x) -> sd_ok sd -> exists x', transmit_fragments cfg n x seq sd nfrags i prd isnew = Some x' /\ advances h x h x'.
Proof.
  intros H Hsd. revert x i H. induction n as [|n IH]; intros x i H; cbn [transmit_fragments]; [exists x; split; [done|by apply advances_refl]|].
  destruct (fragment_messages_ok cfg Hfs (wx_wr x) seq sd nfrags i prd isnew Hsd) as (w' & f & hm & -> & S & _). cbn [mbind option_bind]. set (x1 := put x w').
  set (x2 := match f with Some m => emit x1 _ | None => x1 end). set (x3 := match hm with Some m => emit x2 _ | None => x2 end).
  assert (A : advances h x h x3). { assert (A1 : advances h x h x1) by (apply same_hb_advances; [done|apply S]). unfold x3, x2. destruct f, hm; repeat apply emit_advances; done. }
  destruct (IH x3 (i + 1) (ad_ok _ _ _ _ _ _ _ _ A)) as (x' & E & A'). exists x'. split; [done|]. by eapply advances_trans.
Qed.

Lemma transmit_heartbeat_advances lookup_prd h x twrite packetid : ok h (wx_wr x) -> 0 <= twrite -> 1 <= wr_seq (wx_wr x) -> exists x', transmit_heartbeat cfg lookup_prd x twrite packetid = Some x' /\ advances h x h x' /\
  (forall t, hb_upto t (wx_wr x) -> hb_upto (twrite + wc_const_hb_intv_sched cfg) (wx_wr x')).
Proof.
  intros H Ht Hs. unfold transmit_heartbeat. destruct (wr_heartbeat_xevent (wx_wr x)) as [ev|] eqn:Ev; [|exists x; split; [done|]; split; [by apply advances_refl|]; intros t (e & Ee & _); congruence].
  destruct (piggyback_ok cfg hdepth tldepth Hhb lookup_prd h (wx_wr x) twrite packetid H) as (w' & m & r & -> & S & _ & U); [apply (wk_event _ _ _ _ _ H); by rewrite Ev|done|by left|].
  cbn [mbind option_bind]. eexists. split; [done|]. assert (A : advances h x h (put x w')) by (by apply same_hb_advances). destruct m; [|by split]. destruct (r >=? 2); (split; [repeat apply emit_advances; done|exact U]).
Qed.

(** The message that completes a sample was sent. *)
Lemma note_transmitted_advances h x m : ok h (wx_wr x) -> (xm_kind m = NN_XMSG_KIND_DATA -> xm_wrguid m = wr_guid (wx_wr x) -> xm_wrseq m <= wr_seq (wx_wr x)) ->
  advances h x h (put x (note_transmitted (wx_wr x) m)).
Proof.
  intros H Hm. unfold note_transmitted. destruct (_ && _ && _) eqn:E; [|by apply advances_frame]. apply andb_true_iff in E as [[E1%bool_decide_eq_true E2%bool_decide_eq_true]%andb_true_iff E3]. rewrite Z.gtb_ltb in E3. apply Z.ltb_lt in E3.
  specialize (Hm E1 E2). pose proof (wk_xmit _ _ _ _ _ H). pose proof (wk_seq _ _ _ _ _ H). unfold wr_seq, wr_seq_xmit in *. split; try done; unfold wr_seq, wr_seq_xmit in *; simpl; try lia; [|unfold state_le; simpl; lia].
  apply set_numbers_ok; simpl; [done|lia|lia].
Qed.

Lemma begin_coherent_advances h x : ok h (wx_wr x) -> advances h x h (put x (begin_coherent_set (wx_wr x))).
Proof. intros H. unfold begin_coherent_set. destruct (_ =? 0); apply advances_frame; try done. Qed.
End Write.
