(* ===== verification/WriterReplyFacts.v ===== *)
(** * The answers of a writer: acknowledgements and forced heartbeats

    The parts of [handle_AckNack] up to the loop that retransmits. *)

From Stdlib Require Import ZArith Lia Sorting.Sorted.
From stdpp Require Import prelude gmap.
From S2P Require Import Prelude OrdTree Avl AvlFacts Bitset Defrag Reorder Dqueue Time Wire Protocol ProtocolProps Receive Whc WhcFacts WhcHist WrReaders WrReadersFacts Xmsg XmsgFacts Writer WriterSend WriterReply WriterFacts WriterHb WriterWrite.

Section ReplyFacts.
Context {T : Type -> Type} `{!OrdTree T, !OrdTreeLaws T}.
Context (cfg : writer_config) (ndebug : bool) (xmsg_size : nn_xmsg -> Z).
Context (Hxs : forall m, 0 <= xmsg_size m).
Context (Hfs : 0 < wc_fragment_size cfg) (Hhb : hb_settings cfg).
Context (is_tl : bool) (hdepth tldepth : nat).
Context (Hset : settings ndebug is_tl hdepth tldepth sample_overhead).
Context (fl : list xevent_nt).
Implicit Types (c : whc (T := T)) (w : writer (T := T)) (x : wx (T := T)) (h : hist) (prd : proxy_reader) (sd : serdata).

Abbreviation fs := (wc_fragment_size cfg).
Abbreviation le := (wc_little_endian cfg).
Abbreviation ok := (writer_ok (T := T) cfg hdepth tldepth).
Abbreviation advances := (advances (T := T) cfg hdepth tldepth fl).

(** ** Gaps and heartbeats for one reader *)

Lemma add_Gap_ok m w prd start base numbits bits : xm_kind m = NN_XMSG_KIND_CONTROL -> 1 <= numbits -> (bitset_words numbits <= length bits)%nat ->
  exists m', add_Gap m w prd start base numbits bits = Some m' /\ xm_kind m' = NN_XMSG_KIND_CONTROL /\ xm_dst m' = xm_dst m /\ xm_submsgs m' = xm_submsgs m ++
    [SmGap (MkGap (guid_entityid (prd_guid prd)) (guid_entityid (wr_guid w)) (toSN start) (SequenceNumberSet (toSN base) numbits (take (bitset_words numbits) bits)))].
Proof.
  intros Hk Hn Hb. unfold add_Gap. rewrite (proj2 (Z.leb_gt _ _)) by lia. rewrite (proj2 (Nat.ltb_ge _ _)) by done. unfold add_submsg, submsg_is_compatible. rewrite Hk. by eexists.
Qed.

Lemma pretend_written_advances h x : ok h (wx_wr x) -> advances h x h (put x (pretend_written (wx_wr x))) /\ 1 <= wr_seq (pretend_written (wx_wr x)).
Proof.
  intros H. pose proof (wk_xmit _ _ _ _ _ H) as Hx. pose proof (wk_seq _ _ _ _ _ H). unfold pretend_written. rewrite Z.gtb_ltb. destruct (Z.ltb_spec 0 (wr_seq (wx_wr x))); [split; [by apply advances_frame|lia]|].
  split; [|done]. unfold wr_seq, wr_seq_xmit in *. split; try done; unfold wr_seq, wr_seq_xmit, state_le; simpl; try lia. apply set_numbers_ok; simpl; try done; unfold MAX_SEQ_NUMBER; lia.
Qed.

(** What a forced heartbeat leaves alone: everything but the queue, the counts,
    and the sequence number of a writer that has not written yet. *)
Record forced x x' : Prop := {
  fo_readers : wr_readers (wx_wr x') = wr_readers (wx_wr x);
  fo_whc : wr_whc (wx_wr x') = wr_whc (wx_wr x);
  fo_state : wr_state (wx_wr x') = wr_state (wx_wr x);
  fo_seq : 1 <= wr_seq (wx_wr x) -> wr_seq (wx_wr x') = wr_seq (wx_wr x) /\ wr_seq_xmit (wx_wr x') = wr_seq_xmit (wx_wr x);
  fo_queue : keeps_queued (wx_evq x) (wx_evq x');
}.

Lemma force_heartbeat_ok h x prd ansreq : ok h (wx_wr x) -> wr_reliable (wx_wr x) = true -> 0 <= ansreq -> evq_ok fl (wx_evq x) ->
  exists x', force_heartbeat_to_peer cfg x prd ansreq = Some x' /\ advances h x h x' /\ forced x x'.
Proof.
  intros H Hr Ha Hq. unfold force_heartbeat_to_peer. rewrite Hr. cbn [negb]. unfold nn_xmsg_setdstPRD. destruct (prd_has_address prd); cbn [mbind option_bind nn_xmsg_setdst1 nn_xmsg_new xm_dst].
  2: { exists x. split; [done|]. split; [by apply advances_refl|]. split; try done. by intros m. }
  set (m0 := set_dst _ _). match goal with |- context [?B ≫= _] => set (body := B) end.
  assert (exists m w, body = Some (m, w) /\ advances h x h (put x w) /\ xm_kind m = NN_XMSG_KIND_CONTROL /\ forced x (put x w)) as (m & w & -> & A & Hk & F).
  { unfold body. destruct (whc_empty _ && _) eqn:Ee.
    - destruct (pretend_written_advances h x H) as [A1 Hs1]. set (w1 := pretend_written (wx_wr x)) in *. pose proof (ad_ok _ _ _ _ _ _ _ _ A1) as H1. simpl in H1.
      destruct (add_Gap_ok m0 w1 prd (wr_seq w1) (wr_seq w1 + 1) 1 [0]) as (m1 & -> & Hk1 & _); [done|lia|vm_compute; lia|]. cbn [mbind option_bind].
      destruct (add_Heartbeat_ok cfg hdepth tldepth h m1 w1 ansreq (guid_entityid (prd_guid prd)) true H1) as (m2 & w2 & -> & S & Hk2); [unfold wr_reliable in *; by rewrite <- Hr, <- (ad_traits _ _ _ _ _ _ _ _ A1)|done|by left|done|].
      eexists _, _. split; [done|]. split; [eapply advances_trans; [exact A1|]; rewrite <- (put_put x w1 w2); apply same_hb_advances; [done|apply S]|]. split; [done|].
      destruct S as [[C S2 S3 S4] _ _]. split; simpl; [rewrite (sc_readers _ _ C)|rewrite S2|rewrite S3|rewrite (sc_seq _ _ C), (sc_xmit _ _ C)|by intros m].
      + unfold w1, pretend_written. by destruct (_ >? 0).
      + unfold w1, pretend_written. by destruct (_ >? 0).
      + unfold w1, pretend_written. by destruct (_ >? 0).
      + intros Hs. unfold w1, pretend_written. rewrite Z.gtb_ltb, (proj2 (Z.ltb_lt _ _)) by lia. done.
    - assert (Hm : may_advertise cfg (wx_wr x)).
      { apply andb_false_iff in Ee as [Ee|Ee]; [|right; by apply negb_false_iff in Ee]. rewrite (cache_empty cfg hdepth tldepth h _ (wk_whc _ _ _ _ _ H)) in Ee. apply bool_decide_eq_false in Ee. by apply (nonempty_advertise cfg hdepth tldepth h). }
      destruct (add_Heartbeat_ok cfg hdepth tldepth h m0 (wx_wr x) ansreq (guid_entityid (prd_guid prd)) false H Hr Ha Hm) as (m2 & w2 & -> & S & Hk2); [done|].
      eexists _, _. split; [done|]. split; [apply same_hb_advances; [done|apply S]|]. split; [done|]. destruct S as [[C S2 S3 S4] _ _]. split; simpl; try done; [apply C|intros _; split; apply C|by intros m]. }
  cbn [mbind option_bind]. destruct (qxev_msg_ok xmsg_size Hxs fl (wx_evq x) m Hq) as (q' & -> & Hq' & El); [by rewrite Hk|]. cbn [mbind option_bind]. eexists. split; [done|].
  split; [by destruct A; split|]. destruct F. split; try done. simpl. by eapply keeps_queued_app.
Qed.

(** ** The reader that answers *)

Definition reader_at w (k : Z) (n : wr_prd_match) : Prop := n ∈ matches w /\ rn_key le n = k.

Lemma reader_lookup h w k n : ok h w -> reader_at w k n -> exists a, ut_avlLookup (wr_readers_treedef le) (wr_readers w) k = Some (n, a).
Proof. intros H [Hn <-]. by apply (lookup_match_unique cfg hdepth tldepth h). Qed.

Lemma reader_change k f l n : n ∈ l -> rn_key le n = k -> f n ∈ change le k f l.
Proof. intros Hn Hk. unfold change. apply list_elem_of_fmap. exists n. split; [|done]. by rewrite Hk, Z.eqb_refl. Qed.

Lemma reader_upd_augment h w k f n num : ok h w -> keeps_identity f -> reader_at w k n -> reader_at (set_readers w num (upd_match_augment le (wr_readers w) k f)) k (f n).
Proof.
  intros H Hf [Hn Hk]. destruct (upd_match_augment_spec le (wr_readers w) k f (wk_readers _ _ _ _ _ H)) as [_ E]; [intros m; apply Hf|]. split; [|unfold rn_key; by rewrite (proj1 (Hf n))].
  unfold matches. simpl. rewrite E. by apply reader_change.
Qed.

Lemma reader_upd h w k f n num : ok h w -> unsummarized f -> reader_at w k n -> reader_at (set_readers w num (upd_match le (wr_readers w) k f)) k (f n).
Proof.
  intros H Hf [Hn Hk]. split; [|unfold rn_key; destruct (Hf n) as (-> & _); done]. unfold matches. simpl. rewrite upd_match_elements by apply H. by apply reader_change.
Qed.

Lemma reader_ok h w k n : ok h w -> reader_at w k n -> match_ok (wr_seq w) n.
Proof. intros H [Hn _]. pose proof (wk_match _ _ _ _ _ H) as Hm. rewrite Forall_forall in Hm. auto. Qed.

Lemma reader_unique h w k n n' : ok h w -> reader_at w k n -> reader_at w k n' -> n' = n.
Proof. intros H H1 H2. destruct (reader_lookup h w k n H H1) as [a E], (reader_lookup h w k n' H H2) as [a' E']. rewrite E in E'. by injection E' as <-. Qed.

(** ** The ACK part *)

(** What acknowledging does not touch. *)
Record acking x x' : Prop := {
  ai_numbers : wr_numbers_ (wx_wr x') = wr_numbers_ (wx_wr x);
  ai_evq : wx_evq x' = wx_evq x;
}.

Lemma acked_seq_le base : acked_seq base <= MAX_SEQ_NUMBER.
Proof. unfold acked_seq, MAX_SEQ_NUMBER. pose proof (wrap_s_range 64 (base - 1) ltac:(lia)) as [_ Hr]. change (2 ^ (64 - 1)) with (2 ^ 63) in Hr. lia. Qed.

(** Afterwards the reader has acknowledged at least what it says, within what was
    written; if the last unacknowledged data of a lingering writer goes with it,
    nothing from there on is in the cache. *)
Lemma acknack_ack_ok h x k n base et : ok h (wx_wr x) -> reader_at (wx_wr x) k n -> 0 <= et ->
  exists x' h' n', acknack_ack cfg ndebug x k base et = Some x' /\ advances h x h' x' /\ acking x x' /\ reader_at (wx_wr x') k n' /\
    n' = (if acked_seq base >? rn_seq n then rn_set_seq n (Z.min (acked_seq base) (wr_seq (wx_wr x))) else n) /\
    (acked_seq base <= rn_seq n -> x' = x /\ h' = h) /\
    (wr_state (wx_wr x') = wr_state (wx_wr x) \/
     wr_state (wx_wr x) = WRST_LINGERING /\ rn_seq n < acked_seq base /\ (sized (h_data h) -> forall q, q ∈ seqs (wr_whc (wx_wr x')) -> q <= acked_seq base)).
Proof.
  intros H Hr Het. pose proof (acked_seq_le base) as Hb. unfold acknack_ack. destruct (reader_lookup h _ _ _ H Hr) as [a ->]. cbn [mbind option_bind]. destruct (Z.gtb_spec (acked_seq base) (rn_seq n)) as [Hlt|Hge].
  2: { exists x, h, n. split; [done|]. split; [by apply advances_refl|]. split; [done|]. split; [done|]. split; [done|]. split; [done|]. by left. }
  set (s := if _ >? _ then _ else _). assert (Es : s = Z.min (acked_seq base) (wr_seq (wx_wr x))) by (unfold s; rewrite Z.gtb_ltb; destruct (Z.ltb_spec (wr_seq (wx_wr x)) (acked_seq base)); lia).
  destruct (writer_ok_max_drop _ _ _ _ _ H) as (M1 & M2 & M3). pose proof (wk_ack _ _ _ _ _ H) as Hack. pose proof (wk_seq _ _ _ _ _ H) as Hsq.
  set (f := fun m => rn_set_seq m s). assert (Hf : keeps_identity f) by (by intros m).
  assert (A1 : advances h x h (put x (set_readers (wx_wr x) (wr_num_reliable_readers (wx_wr x)) (upd_match_augment le (wr_readers (wx_wr x)) k f)))).
  { apply upd_augment_advances; [done|done| |].
    2: { intros m Hm Hk q Hq Hn1 Hn2. rewrite (reader_unique h _ k n m H Hr (conj Hm Hk)) in *. unfold f in Hn2. cbn in Hn2. rewrite Es in Hn2. destruct (reader_ok h _ k n H Hr) as (_ & B2 & _). split; lia. }
    intros m Hm Hk (B1 & B2 & B3 & B4 & B5). rewrite (reader_unique h _ k n m H Hr (conj Hm Hk)) in *.
    assert (Hne : rn_seq n <> MAX_SEQ_NUMBER) by (unfold MAX_SEQ_NUMBER in *; lia). specialize (M2 n (proj1 Hr) Hne). unfold f, match_ok, rn_set_seq. cbn. rewrite Es. split; [|lia].
    split; [lia|]. split; [left; lia|]. split; [done|]. split; [intros E; specialize (B4 E); lia|]. intros E1 E2. specialize (B5 E1 E2). lia. }
  set (x1 := put _ _) in *. pose proof (ad_ok _ _ _ _ _ _ _ _ A1) as H1.
  destruct (remove_acked_advances cfg ndebug Hfs is_tl hdepth tldepth Hset fl h x1 et H1 Het) as (x2 & d & -> & F & A2). cbn [mbind option_bind]. eexists x2, _, (f n). split; [done|].
  split; [by eapply advances_trans|]. destruct F as [F1 F2 F3 F4 F5 F6 F7]. split; [by split|]. pose proof (reader_upd_augment h (wx_wr x) k f n (wr_num_reliable_readers (wx_wr x)) H Hf Hr) as Hr1.
  split; [unfold reader_at, matches in *; by rewrite (sc_readers _ _ F1)|]. split; [unfold f; by rewrite Es|]. split; [lia|]. destruct F7 as [F7|(F7 & _ & Fu)]; [by left|right]. split; [done|]. split; [lia|].
  intros Hsz q Hq. pose proof (ad_ok _ _ _ _ _ _ _ _ A2) as H2. pose proof (cache_unacked_zero cfg Hfs hdepth tldepth _ _ q (wk_whc _ _ _ _ _ H2) Hsz Fu Hq) as Hqa.
  destruct (writer_ok_max_drop _ _ _ _ _ H2) as (_ & M2' & _). assert (Hn2 : f n ∈ matches (wx_wr x2)) by (destruct Hr1 as [Hr1 _]; unfold matches in *; by rewrite (sc_readers _ _ F1)).
  assert (Ef : rn_seq (f n) = Z.min (acked_seq base) (wr_seq (wx_wr x))) by (by rewrite <- Es). specialize (M2' (f n) Hn2). rewrite Ef in M2'. specialize (M2' ltac:(lia)). lia.
Qed.

(** A reader that answers again is given what is new from then on. *)
Lemma responsive_seq_ok h w base : ok h w -> exists s, responsive_seq w base = Some s /\ Z.min (acked_seq base) (wr_seq w) <= s <= wr_seq w /\ 0 <= s /\ (1 <= wr_seq w -> 1 <= s) /\
  (forall q, q ∈ seqs (wr_whc w) -> q <= s).
Proof.
  intros H. unfold responsive_seq. pose proof (wk_xmit _ _ _ _ _ H). rewrite (cache_empty cfg hdepth tldepth h _ (wk_whc _ _ _ _ _ H)), (cache_max cfg hdepth tldepth h _ (wk_whc _ _ _ _ _ H)).
  assert (exists o, (if bool_decide (seqs (wr_whc w) = []) then Some (wr_seq w) else last (seqs (wr_whc w))) = Some o /\ 0 <= o <= wr_seq w /\ (1 <= wr_seq w -> 1 <= o) /\
    forall q, q ∈ seqs (wr_whc w) -> q <= o) as (o & -> & Ho & H1 & Hmax).
  { case_bool_decide as He; [eexists; split; [done|]; split; [lia|]; split; [lia|]; intros q Hq; rewrite He in Hq; by apply elem_of_nil in Hq|]. destruct (last (seqs (wr_whc w))) as [o|] eqn:El; [|by apply last_None in El]. exists o. split; [done|].
    assert (o ∈ seqs (wr_whc w)) as Hin by (apply last_Some in El as (l & ->); set_solver). pose proof (stored_range cfg hdepth tldepth h w o H Hin). split; [lia|]. split; [lia|].
    intros q Hq. by apply (sorted_last_max (seqs (wr_whc w))); [apply (cache_sorted cfg hdepth tldepth h _ (wk_whc _ _ _ _ _ H))| |]. }
  cbn [mbind option_bind]. eexists. split; [done|]. rewrite !Z.gtb_ltb. assert (Hmax' : forall q, q ∈ seqs (wr_whc w) -> q <= o /\ q <= wr_seq w) by (intros q Hq; pose proof (stored_range cfg hdepth tldepth h w q H Hq); specialize (Hmax q Hq); lia).
  destruct (Z.ltb_spec (acked_seq base) o); match goal with |- context [?p <? ?q] => destruct (Z.ltb_spec p q) end; (repeat split; try lia); intros q Hq; specialize (Hmax' q Hq); lia.
Qed.

(** The reader may answer again: what was dropped was not for it. *)
Definition may_respond w n (base : Z) : Prop := rn_seq n = MAX_SEQ_NUMBER -> 1 <= wr_seq w /\ forall s, responsive_seq w base = Some s -> writer_max_drop_seq w <= s.

Lemma acknack_responsive_ok h x k n base prd : ok h (wx_wr x) -> reader_at (wx_wr x) k n -> prd_reliable prd = rn_is_reliable n -> may_respond (wx_wr x) n base ->
  exists x' n', acknack_responsive cfg x k base prd = Some x' /\ advances h x h x' /\ acking x x' /\ reader_at (wx_wr x') k n' /\ wr_whc (wx_wr x') = wr_whc (wx_wr x) /\ wr_state (wx_wr x') = wr_state (wx_wr x) /\
    rn_is_reliable n' = rn_is_reliable n /\ rn_assumed_in_sync n' = rn_assumed_in_sync n /\ Z.min (Z.min (acked_seq base) (wr_seq (wx_wr x))) (rn_seq n) <= rn_seq n' /\ (rn_seq n <> MAX_SEQ_NUMBER -> n' = n).
Proof.
  intros H Hr Hp Hresp. unfold acknack_responsive. destruct (reader_lookup h _ _ _ H Hr) as [a ->]. cbn [mbind option_bind]. destruct (Z.eqb_spec (rn_seq n) MAX_SEQ_NUMBER) as [E|E]; cbn [andb].
  2: { exists x, n. repeat (split; [done||lia||by apply advances_refl|]). done. }
  destruct (prd_reliable prd) eqn:Ep; [|exists x, n; repeat (split; [done||lia||by apply advances_refl|]); done].
  destruct (Hresp E) as [Hs1 Hs2]. destruct (responsive_seq_ok h (wx_wr x) base H) as (s & Es & Hs & Hs0 & Hs3 & Hsto). rewrite Es. cbn [mbind option_bind]. set (f := fun m => rn_set_seq (rn_set_replied m true) s).
  assert (Hf : keeps_identity f) by (by intros m). eexists _, (f n). split; [done|]. split; [|split; [done|]; split; [by apply (reader_upd_augment h)|]; repeat (split; [done|]); split; [unfold f; cbn; lia|done]].
  apply upd_augment_advances; [done|done| |intros m _ _ q Hq _ Hlt; unfold f in Hlt; cbn in Hlt; specialize (Hsto q Hq); lia].
  intros m Hm Hk (B1 & B2 & B3 & B4 & B5). rewrite (reader_unique h _ k n m H Hr (conj Hm Hk)) in *. unfold f, match_ok. cbn. split; [|intros _; specialize (Hs2 s Es); pose proof (wk_ack _ _ _ _ _ H); lia].
  split; [lia|]. split; [left; lia|]. split; [done|]. split; [congruence|]. intros _ _. lia.
Qed.

Lemma acknack_replied_ok h x k n base b : ok h (wx_wr x) -> reader_at (wx_wr x) k n -> (b = true -> 1 < base -> rn_is_reliable n = true -> rn_seq n <> 0) ->
  exists x' n', acknack_replied cfg x k base b = Some x' /\ advances h x h x' /\ acking x x' /\ reader_at (wx_wr x') k n' /\ wr_whc (wx_wr x') = wr_whc (wx_wr x) /\ wr_state (wx_wr x') = wr_state (wx_wr x) /\
    (n' = n \/ n' = rn_set_replied n true).
Proof.
  intros H Hr Hn. unfold acknack_replied. destruct (reader_lookup h _ _ _ H Hr) as [a ->]. cbn [mbind option_bind]. destruct (negb _ && _ && _) eqn:E.
  2: { exists x, n. repeat (split; [done||by apply advances_refl|]). by left. }
  apply andb_true_iff in E as [[_ E1]%andb_true_iff ->]. rewrite Z.gtb_ltb in E1. apply Z.ltb_lt in E1. set (f := fun m => rn_set_replied m true). assert (Hf : keeps_identity f) by (by intros m).
  eexists _, (f n). split; [done|]. split; [|split; [done|]; split; [by apply (reader_upd_augment h)|]; split; [done|]; split; [done|by right]].
  apply upd_augment_advances; [done|done| |by intros m _ _ q]. intros m Hm Hk (B1 & B2 & B3 & B4 & B5). rewrite (reader_unique h _ k n m H Hr (conj Hm Hk)) in *. destruct (writer_ok_max_drop _ _ _ _ _ H) as (_ & M2 & _).
  unfold f, match_ok. cbn. split; [|intros Hne; by apply M2; [apply Hr|]]. repeat (split; [done|]). intros E2 _. by apply Hn.
Qed.

(** ** What to retransmit *)

(** The numbers the loop looks at start at 1; only a reader that has nothing yet
    is offered the whole cache. *)
Lemma acknack_classify_ok h x k n base nb prd pre nonhist : ok h (wx_wr x) -> reader_at (wx_wr x) k n -> wr_reliable (wx_wr x) = true -> evq_ok fl (wx_evq x) ->
  (0 < nb -> 1 <= base) -> (pre = false -> 1 <= base) ->
  exists x' base' nb' hb n', acknack_classify cfg x k base nb prd pre nonhist = Some (x', base', nb', hb) /\ advances h x h x' /\ reader_at (wx_wr x') k n' /\
    wr_whc (wx_wr x') = wr_whc (wx_wr x) /\ wr_state (wx_wr x') = wr_state (wx_wr x) /\ keeps_queued (wx_evq x) (wx_evq x') /\
    (0 < nb' -> 1 <= base') /\ (pre = false -> base' = base /\ nb <= nb' /\ wr_numbers_ (wx_wr x') = wr_numbers_ (wx_wr x)) /\
    (pre = true -> base' = (if whc_empty (wr_whc (wx_wr x)) then base else default base (whc_min_seq (wr_whc (wx_wr x))))).
Proof.
  intros H Hr Hrel Hq Hb Hp. unfold acknack_classify. destruct (reader_lookup h _ _ _ H Hr) as [a ->]. cbn [mbind option_bind]. destruct pre.
  - destruct (force_heartbeat_ok h x prd 0 H Hrel ltac:(lia) Hq) as (x1 & -> & A1 & [F1 F2 F3 F4 F5]). cbn [mbind option_bind]. assert (Hr1 : reader_at (wx_wr x1) k n) by (unfold reader_at, matches in *; by rewrite F1).
    destruct (whc_empty (wr_whc (wx_wr x))) eqn:Ee; [eexists _, _, _, _, _; split; [done|]; split; [done|]; split; [done|]; repeat (split; [done|]); done|]. rewrite F2.
    rewrite (cache_empty cfg hdepth tldepth h _ (wk_whc _ _ _ _ _ H)) in Ee. apply bool_decide_eq_false in Ee. rewrite (cache_min cfg hdepth tldepth h _ (wk_whc _ _ _ _ _ H)).
    destruct (seqs (wr_whc (wx_wr x))) as [|q l] eqn:El; [done|]. cbn [head mbind option_bind]. eexists _, _, _, _, _. split; [done|]. split; [done|]. split; [done|]. split; [done|]. split; [done|]. split; [done|].
    assert (Hin : q ∈ seqs (wr_whc (wx_wr x))) by (rewrite El; by left). pose proof (stored_range cfg hdepth tldepth h _ q H Hin). split; [lia|done].
  - specialize (Hp eq_refl). assert (Hid : keeps_queued (wx_evq x) (wx_evq x)) by (by intros m). destruct (rn_assumed_in_sync n); cbn [negb].
    { eexists _, _, _, _, _. split; [done|]. split; [by apply advances_refl|]. repeat (split; [done||lia|]). done. }
    destruct nonhist.
    + assert (Hf : unsummarized rn_set_in_sync) by (by intros m). eexists _, _, _, _, _. split; [done|]. split; [by apply upd_advances|]. split; [by apply (reader_upd h)|]. repeat (split; [done||lia|]). done.
    + destruct (Z.ltb_spec nb (wc_accelerate_rexmit_block_size cfg)); eexists _, _, _, _, _; (split; [done|]); (split; [by apply advances_refl|]); repeat (split; [done||lia||(intros _; split; [done|]; split; [lia|done])|]); done.
Qed.
End ReplyFacts.
