(* ===== verification/WriterAnswer.v ===== *)
(** * The answers of a writer: [handle_AckNack] and [handle_NackFrag]

    Every requested sample that the loop gets to is queued for the reader, was
    retransmitted shortly before, or is noted as lost when it is not in the
    history cache; the GAP that follows; and neither handler fails. *)

From Stdlib Require Import ZArith Lia Sorting.Sorted.
From stdpp Require Import prelude gmap.
From S2P Require Import Prelude OrdTree Avl AvlFacts Bitset Defrag Reorder Dqueue Time Wire Protocol ProtocolProps ProtocolClaims Receive Whc WhcFacts WhcHist WrReaders WrReadersFacts Xmsg XmsgFacts Writer WriterSend WriterReply WriterFacts WriterHb WriterWrite WriterReplyFacts.

Section Rexmit.
Context {T : Type -> Type} `{!OrdTree T, !OrdTreeLaws T}.
Context (cfg : writer_config) (ndebug : bool) (xmsg_size : nn_xmsg -> Z).
Context (Hxs : forall m, 0 <= xmsg_size m).
Context (Hfs : 0 < wc_fragment_size cfg) (Hhb : hb_settings cfg).
Context (is_tl : bool) (hdepth tldepth : nat).
Context (Hset : settings ndebug is_tl hdepth tldepth sample_overhead).
Context (fl : list xevent_nt).
Implicit Types (c : whc (T := T)) (w : writer (T := T)) (x : wx (T := T)) (h : hist) (prd : proxy_reader) (sd : serdata) (l : rexmit_loop (T := T)).

Abbreviation fs := (wc_fragment_size cfg).
Abbreviation le := (wc_little_endian cfg).
Abbreviation ok := (writer_ok (T := T) cfg hdepth tldepth).
Abbreviation advances := (advances (T := T) cfg hdepth tldepth fl).

(** All data that was written is well formed. *)
Definition data_ok (d : gmap Z serdata) : Prop := forall q sd, d !! q = Some sd -> sd_ok sd.

Lemma stored_data h w q nd : ok h w -> data_ok (h_data h) -> whc_findseq (wr_whc w) q = Some nd -> sd_ok (nd_serdata nd) /\ q ∈ seqs (wr_whc w) /\ h_data h !! q = Some (nd_serdata nd).
Proof.
  intros H Hd Hn. assert (Hq : q ∈ seqs (wr_whc w)) by (apply (cache_find cfg hdepth tldepth h _ _ (wk_whc _ _ _ _ _ H)); eauto).
  destruct (hist_ok_seqs _ _ _ _ _ _ _ (wk_whc _ _ _ _ _ H) Hq) as (i & Hi & Hdi). unfold infos in Hi. rewrite lookup_fmap in Hi. unfold whc_findseq in Hn. rewrite Hn in Hi. injection Hi as <-. simpl in Hdi. eauto.
Qed.

(** ** One sample *)

(** What retransmissions leave alone: only the bookkeeping of the samples from
    [q] on does not change. *)
Record rexmits_to (q : Z) x x' : Prop := {
  rt_core : same_core (wx_wr x) (wx_wr x');
  rt_infos : infos (wr_whc (wx_wr x')) = infos (wr_whc (wx_wr x)) /\ seqs (wr_whc (wx_wr x')) = seqs (wr_whc (wx_wr x));
  rt_later : forall y, q <= y -> whc_findseq (wr_whc (wx_wr x')) y = whc_findseq (wr_whc (wx_wr x)) y;
  rt_state : wr_state (wx_wr x') = wr_state (wx_wr x);
  rt_hb : wr_heartbeat_xevent (wx_wr x') = wr_heartbeat_xevent (wx_wr x) /\ hbc_tsched (wr_hbcontrol (wx_wr x')) = hbc_tsched (wr_hbcontrol (wx_wr x));
  rt_keeps : keeps_queued (wx_evq x) (wx_evq x');
}.

Lemma rexmits_refl q x : rexmits_to q x x.
Proof. split; try done. by intros m. Qed.
Lemma rexmits_trans q q' x1 x2 x3 : q <= q' -> rexmits_to q x1 x2 -> rexmits_to q' x2 x3 -> rexmits_to q' x1 x3.
Proof.
  intros Hq [A1 [A2 A2'] A3 A4 [A5 A5'] A6] [B1 [B2 B2'] B3 B4 [B5 B5'] B6]. split; try (split; congruence); [by eapply same_core_trans|intros y Hy; rewrite B3, A3 by lia; done|congruence|]. intros m Hm. auto.
Qed.

(** All fragments of a sample are queued. *)
Definition sample_queued w (q : Z) sd (prd : option proxy_reader) (evq : xeventq) : Prop :=
  forall j, 0 <= j < num_fragments cfg sd -> frag_queued cfg w q sd prd evq j.

(** A stored sample was answered: it is queued for all readers or was shortly
    before, or it is queued for the one that asked. *)
Definition merging (sync : bool) : bool := bool_decide (wc_retransmit_merging cfg <> REXMIT_MERGE_NEVER) && sync.
Definition answered w (q : Z) (nd : whc_node) prd (sync : bool) (now : Z) (evq : xeventq) : Prop :=
  if merging sync then now <= nd_last_rexmit_ts nd + wc_retransmit_merging_period cfg \/ sample_queued w q (nd_serdata nd) None evq
  else sample_queued w q (nd_serdata nd) (Some prd) evq.

Lemma answered_more w w' q nd prd sync now evq evq' : wr_traits_ w' = wr_traits_ w -> keeps_queued evq evq' -> answered w q nd prd sync now evq -> answered w' q nd prd sync now evq'.
Proof.
  intros Et Hk. unfold answered, sample_queued, frag_queued. destruct (merging sync).
  - intros [?|Hs]; [by left|right]. intros j Hj m Hm. rewrite (create_fragment_traits cfg w w') in Hm by done. apply Hk. by eapply Hs.
  - intros Hs j Hj m Hm. rewrite (create_fragment_traits cfg w w') in Hm by done. apply Hk. by eapply Hs.
Qed.

(** The gap is not touched. *)
Definition same_gap l l' : Prop := rl_gapstart l' = rl_gapstart l /\ rl_gapend l' = rl_gapend l /\ rl_gapnumbits l' = rl_gapnumbits l /\ rl_gapbits l' = rl_gapbits l.

Lemma set_retransmitting_ok h x nd : ok h (wx_wr x) -> exists w', (if negb (wr_retransmitting (wx_wr x)) && nd_unacked nd then writer_set_retransmitting cfg (wx_wr x) else Some (wx_wr x)) = Some w' /\
  advances h x h (put x w') /\ (forall q, rexmits_to q x (put x w')).
Proof.
  intros H. destruct (negb (wr_retransmitting (wx_wr x)) && nd_unacked nd) eqn:E.
  - apply andb_true_iff in E as [E _]. apply negb_true_iff in E. unfold writer_set_retransmitting. rewrite E. eexists. split; [done|]. split; [by apply advances_frame|]. intros q. split; try done. by intros m.
  - eexists. split; [done|]. split; [by apply advances_frame|]. intros q. destruct x. apply rexmits_refl.
Qed.

Lemma enqueues_rexmits q x x' : enqueues fl x x' -> rexmits_to q x x'.
Proof. intros [[[S1 S2 S3 S4] Ee Et] N2 N3 N4]. split; try done; by rewrite ?S2. Qed.

Lemma enqueues_advances h x x' : ok h (wx_wr x) -> enqueues fl x x' -> advances h x h x'.
Proof. intros H [[[S1 S2 S3 S4] Ee Et] N2 N3 N4]. by apply advances_frame. Qed.

(** The bookkeeping of one sample. *)
Lemma touch_advances h x q nd f : ok h (wx_wr x) -> touches f -> whc_findseq (wr_whc (wx_wr x)) q = Some nd ->
  exists w', upd_whc_node (wx_wr x) q f = Some w' /\ advances h x h (put x w') /\ rexmits_to (q + 1) x (put x w').
Proof.
  intros H Hf Hn. unfold upd_whc_node. destruct (touch_ok cfg hdepth tldepth h (wr_whc (wx_wr x)) q nd f (wk_whc _ _ _ _ _ H) Hf Hn) as (c & E & Hc & Ei & Es & Et & Ed & _). rewrite E. cbn [mbind option_bind].
  eexists. split; [done|]. split.
  - split; try done; try apply Z.le_refl; [|by intros y; simpl; rewrite Es|unfold behind; simpl; by rewrite Es]. apply (writer_ok_cache cfg hdepth tldepth h h (wx_wr x)); try done; [apply (wk_last _ _ _ _ _ H)|apply (wk_ack _ _ _ _ _ H)|by apply marks_less_refl].
  - split; try done; [|by intros m]. intros y Hy. simpl. unfold upd_node, whc_findseq in *. rewrite Hn in E. cbn [mbind option_bind] in E. injection E as <-. simpl. by rewrite lookup_insert_ne by lia.
Qed.

Lemma rexmit_done_ok h l x q nd r f : ok h (wx_wr x) -> touches f -> whc_findseq (wr_whc (wx_wr x)) q = Some nd -> exists l', rexmit_done l x q r f = Some l' /\ same_gap l l' /\
  advances h x h (rl_st l') /\ rexmits_to (q + 1) x (rl_st l') /\ wx_evq (rl_st l') = wx_evq x /\ (rl_enqueued l' = true -> 0 <= r).
Proof.
  intros H Hf Hn. unfold rexmit_done. destruct (Z.geb_spec r 0) as [Hr|Hr].
  - destruct (touch_advances h x q nd f H Hf Hn) as (w' & -> & A & R). cbn [mbind option_bind]. eexists. split; [done|]. by repeat (split; [done|]).
  - eexists. split; [done|]. split; [done|]. split; [by apply advances_refl|]. split; [apply rexmits_refl|]. done.
Qed.

Lemma rexmit_sample_ok h l q nd prd sync now : ok h (wx_wr (rl_st l)) -> data_ok (h_data h) -> wr_reliable (wx_wr (rl_st l)) = true -> wr_state (wx_wr (rl_st l)) <> WRST_DELETING -> evq_ok fl (wx_evq (rl_st l)) ->
  whc_findseq (wr_whc (wx_wr (rl_st l))) q = Some nd ->
  exists l', rexmit_sample cfg xmsg_size l q nd prd sync now = Some l' /\ same_gap l l' /\ advances h (rl_st l) h (rl_st l') /\ rexmits_to (q + 1) (rl_st l) (rl_st l') /\
    (rl_enqueued l' = true -> answered (wx_wr (rl_st l)) q nd prd sync now (wx_evq (rl_st l'))).
Proof.
  intros H Hd Hrel Hst Hq Hn. unfold rexmit_sample, answered, merging. destruct (stored_data h _ q nd H Hd Hn) as (Hsd & Hin & _). pose proof (stored_range cfg hdepth tldepth h _ q H Hin) as Hpos.
  destruct (set_retransmitting_ok h (rl_st l) nd H) as (w1 & -> & A1 & R1). cbn [mbind option_bind]. set (x1 := put (rl_st l) w1) in *. pose proof (ad_ok _ _ _ _ _ _ _ _ A1) as H1.
  assert (Hre : may_rexmit (wx_wr x1) q). { split; [|split; [lia|by rewrite (rt_state _ _ _ (R1 0))]]. unfold wr_reliable in *. by rewrite (sc_traits _ _ (rt_core _ _ _ (R1 0))). }
  assert (Henq : forall p f, touches f -> exists l', ('(x', r) ← enqueue_sample_wrlock_held cfg xmsg_size x1 q (nd_serdata nd) p false; rexmit_done l x' q r f) = Some l' /\ same_gap l l' /\
    advances h (rl_st l) h (rl_st l') /\ rexmits_to (q + 1) (rl_st l) (rl_st l') /\ (rl_enqueued l' = true -> sample_queued (wx_wr (rl_st l)) q (nd_serdata nd) p (wx_evq (rl_st l')))).
  { intros p f Hf. destruct (enqueue_sample_ok cfg xmsg_size hdepth tldepth Hxs Hfs fl h x1 q (nd_serdata nd) p false H1 Hsd) as (x2 & r & -> & N & Hr & Hs); [done|done|]. cbn [mbind option_bind].
    pose proof (enqueues_advances h x1 x2 H1 N) as A2. pose proof (enqueues_rexmits q x1 x2 N) as R2.
    destruct (rexmit_done_ok h l x2 q nd r f (ad_ok _ _ _ _ _ _ _ _ A2) Hf) as (l' & -> & G & A3 & R3 & Eq & Hr').
    { rewrite (rt_later _ _ _ R2 q) by lia. by rewrite (rt_later _ _ _ (R1 q) q) by lia. }
    exists l'. split; [done|]. split; [done|]. split; [eapply advances_trans; [exact A1|]; by eapply advances_trans|].
    split; [eapply (rexmits_trans q); [lia| |exact R3]; eapply (rexmits_trans q); [lia|apply R1|exact R2]|]. intros He. specialize (Hr' He). assert (r = 0) as -> by lia.
    rewrite Eq. intros j Hj m Hm. apply (Hs eq_refl eq_refl j Hj). rewrite (create_fragment_traits cfg (wx_wr (rl_st l))); [done|]. apply (rt_core _ _ _ (R1 0)). }
  destruct (bool_decide (wc_retransmit_merging cfg <> REXMIT_MERGE_NEVER) && sync).
  - destruct (Z.gtb_spec now (nd_last_rexmit_ts nd + wc_retransmit_merging_period cfg)).
    + destruct (Henq None (fun nd => nd_set_rexmit_ts nd now)) as (l' & -> & G & A & R & Hs); [by intros ?|]. exists l'. split; [done|]. split; [done|]. split; [done|]. split; [done|]. intros He. right. auto.
    + eexists. split; [done|]. split; [done|]. split; [done|]. split; [apply R1|]. intros _. left. lia.
  - destruct (Henq (Some prd) nd_inc_rexmit_count) as (l' & -> & G & A & R & Hs); [by intros ?|]. by exists l'.
Qed.
End Rexmit.

(** ** Gaps

    The loop notes the requested samples that are not in the history cache; the
    GAP that is sent announces them, and never a sample that is in the cache
    unless the last sample sent is the last one asked for and a later one is
    waiting to be sent. *)

(** Whether number [i] of the set is asked for. *)
Definition wanted (snset : sequence_number_set) (i : Z) : bool := (ss_numbits snset <=? i) || bit_at (ss_bits snset) i.

(** The numbers that a GAP announces. *)
Definition gap_announces (start base numbits : Z) (bits : list Z) (q : Z) : Prop :=
  start <= q < base \/ 0 <= q - base < numbits /\ bit_at bits (q - base) = true.

Section Gap.
Context {T : Type -> Type} `{!OrdTree T, !OrdTreeLaws T}.
Implicit Types (w : writer (T := T)) (x : wx (T := T)) (l : rexmit_loop (T := T)).

Abbreviation announced l := (gap_announces (rl_gapstart l) (rl_gapend l) (rl_gapnumbits l) (rl_gapbits l)).

(** After the numbers before [base + i], where [S] are the stored ones. *)
Record gap_inv (snset : sequence_number_set) (S : list Z) (base i : Z) l : Prop := {
  gi_shape : (rl_gapstart l = -1 /\ rl_gapend l = -1 /\ rl_gapnumbits l = 0) \/ base <= rl_gapstart l < rl_gapend l;
  gi_bits : length (rl_gapbits l) = 8%nat /\ Forall word_ok (rl_gapbits l) /\ 0 <= rl_gapnumbits l <= 256;
  gi_clear : forall j, 0 <= j -> j = 0 \/ rl_gapnumbits l <= j -> bit_at (rl_gapbits l) j = false;
  gi_end : rl_gapend l + rl_gapnumbits l <= base + i;
  gi_sound : forall q, announced l q -> base <= q < base + i /\ wanted snset (q - base) = true /\ q ∉ S;
  gi_complete : forall j, 0 <= j < i -> wanted snset j = true -> base + j ∉ S -> announced l (base + j) \/ rl_gapstart l <> -1 /\ rl_gapend l + 256 <= base + j;
}.

Lemma gap_inv_init snset S base x : 1 <= base -> gap_inv snset S base 0 (init_loop x).
Proof.
  intros Hb. assert (Hz : forall j, bit_at (replicate 8 0) j = false).
  { intros j. unfold bit_at. destruct (replicate 8 0 !! Z.to_nat (j / 32)) as [z|] eqn:E; [|done]. apply lookup_replicate in E as [-> _]. apply Z.testbit_0_l. }
  split; simpl.
  - by left.
  - split; [done|]. split; [|lia]. repeat constructor; unfold in_u; lia.
  - intros j _ _. apply Hz.
  - lia.
  - intros q [Hq|[Hq _]]; lia.
  - intros; lia.
Qed.

(** The numbers and the gap of [l'] are those of [l]. *)
Lemma gap_inv_same snset S base i l l' : gap_inv snset S base i l -> same_gap l l' -> (wanted snset i = true -> base + i ∈ S) -> gap_inv snset S base (i + 1) l'.
Proof.
  intros [G1 G2 G3 G4 G5 G6] (E1 & E2 & E3 & E4) Hw. split; rewrite ?E1, ?E2, ?E3, ?E4; try done.
  - lia.
  - intros q Hq. destruct (G5 q Hq) as (A & B & C). split; [lia|done].
  - intros j Hj Hwj Hs. destruct (decide (j = i)) as [->|]; [destruct (Hs (Hw Hwj))|]. apply G6; [lia|done|done].
Qed.

Lemma note_lost_ok snset S base i l : 1 <= base -> 0 <= i -> gap_inv snset S base i l -> wanted snset i = true -> base + i ∉ S ->
  exists l', note_lost l (base + i) = Some l' /\ gap_inv snset S base (i + 1) l' /\ rl_st l' = rl_st l /\ rl_enqueued l' = rl_enqueued l.
Proof.
  intros Hb Hi [G1 G2 G3 G4 G5 G6] Hw Hs. unfold note_lost. destruct (Z.eqb_spec (rl_gapstart l) (-1)) as [E1|E1].
  - destruct G1 as [(_ & E2 & E3)|G1]; [|lia]. eexists. split; [done|]. split; [|done]. split; simpl; try done.
    + right. lia.
    + rewrite E3. lia.
    + intros q [Hq|[Hq Hbit]]; [assert (q = base + i) as -> by lia; replace (base + i - base) with i by lia; split; [lia|done]|]. rewrite E3 in Hq. lia.
    + intros j Hj Hwj Hsj. destruct (decide (j = i)) as [->|]; [left; left; lia|]. destruct (G6 j ltac:(lia) Hwj Hsj) as [[Hq|[Hq Hbit]]|[Hne _]]; [lia|rewrite E3 in Hq; lia|done].
  - destruct G1 as [(E1' & _)|G1]; [done|]. destruct (Z.eqb_spec (base + i) (rl_gapend l)) as [E2|E2].
    + assert (E3 : rl_gapnumbits l = 0) by lia. eexists. split; [done|]. split; [|done]. split; simpl; try done.
      * right. lia.
      * lia.
      * intros q [Hq|[Hq Hbit]]; [|lia]. destruct (decide (q = base + i)) as [->|]; [replace (base + i - base) with i by lia; split; [lia|done]|]. destruct (G5 q) as (A & B & C); [left; lia|]. split; [lia|done].
      * intros j Hj Hwj Hsj. left. destruct (decide (j = i)) as [->|]; [left; lia|]. destruct (G6 j ltac:(lia) Hwj Hsj) as [[Hq|[Hq Hbit]]|[Hne Hf]]; [left; lia|lia|lia].
    + destruct (Z.ltb_spec (base + i - rl_gapend l) 256) as [Hlt|Hge].
      * rewrite wrap_u_small by (unfold in_u; lia). set (idx := base + i - rl_gapend l) in *. destruct G2 as (B1 & B2 & B3).
        destruct (set_spec (idx + 1) (rl_gapbits l) idx) as (bits & -> & (_ & Hok & _) & Hl & Hset); [split; [lia|]; split; [done|lia]|lia|]. cbn [mbind option_bind]. eexists. split; [done|]. split; [|done].
        split; simpl; [by right|split; [lia|]; split; [done|lia]| |lia| |].
        -- intros j Hj Hc. rewrite Hset by done. destruct (Z.eqb_spec j idx) as [->|]; [lia|]. simpl. apply G3; [done|lia].
        -- intros q [Hq|[Hq Hbit]]; [destruct (G5 q) as (A & B & C); [by left|]; split; [lia|done]|]. rewrite Hset in Hbit by lia. apply orb_true_iff in Hbit as [Hbit|Hbit].
           ++ apply Z.eqb_eq in Hbit. assert (q = base + i) as -> by lia. replace (base + i - base) with i by lia. split; [lia|done].
           ++ destruct (Z.lt_ge_cases (q - rl_gapend l) (rl_gapnumbits l)); [|rewrite G3 in Hbit by lia; done]. destruct (G5 q) as (A & B & C); [right; split; [lia|done]|]. split; [lia|done].
        -- intros j Hj Hwj Hsj. destruct (decide (j = i)) as [->|]; [left; right; split; [lia|]; rewrite Hset by lia; fold idx; by rewrite Z.eqb_refl|].
           destruct (G6 j ltac:(lia) Hwj Hsj) as [[Hq|[Hq Hbit]]|[Hne Hf]]; [left; left; lia|left; right; split; [lia|]; rewrite Hset by lia; rewrite Hbit; apply orb_true_r|right; split; [done|lia]].
      * exists l. split; [done|]. split; [|done]. split; try done.
        -- by right.
        -- lia.
        -- intros q Hq. destruct (G5 q Hq) as (A & B & C). split; [lia|done].
        -- intros j Hj Hwj Hsj. destruct (decide (j = i)) as [->|]; [right; split; [done|lia]|]. apply G6; [lia|done|done].
Qed.
End Gap.

(** ** The loop of [handle_AckNack] and what follows it *)

Lemma sorted_filter (P : Z -> Prop) `{!forall y, Decision (P y)} (l : list Z) : StronglySorted Z.lt l -> StronglySorted Z.lt (filter P l).
Proof.
  induction 1 as [|y l Hs IH Hf]; [constructor|]. rewrite filter_cons. case_decide; [|done]. constructor; [done|]. rewrite Forall_forall in *. intros z Hz. apply list_elem_of_filter in Hz as [_ Hz]. auto.
Qed.

Section Loop.
Context {T : Type -> Type} `{!OrdTree T, !OrdTreeLaws T}.
Context (cfg : writer_config) (ndebug : bool) (xmsg_size : nn_xmsg -> Z).
Context (Hxs : forall m, 0 <= xmsg_size m).
Context (Hfs : 0 < wc_fragment_size cfg) (Hhb : hb_settings cfg).
Context (is_tl : bool) (hdepth tldepth : nat).
Context (Hset : settings ndebug is_tl hdepth tldepth sample_overhead).
Context (fl : list xevent_nt).
Implicit Types (c : whc (T := T)) (w : writer (T := T)) (x : wx (T := T)) (h : hist) (prd : proxy_reader) (sd : serdata) (l : rexmit_loop (T := T)).

Abbreviation fs := (wc_fragment_size cfg).
Abbreviation le := (wc_little_endian cfg).
Abbreviation ok := (writer_ok (T := T) cfg hdepth tldepth).
Abbreviation advances := (advances (T := T) cfg hdepth tldepth fl).
Abbreviation stored w := (seqs (wr_whc w)).

(** ** The loop *)

(** Retransmissions may be queued: the writer is known, or there is nothing to
    retransmit. *)
Definition may_answer w (base : Z) : Prop := wr_state w <> WRST_DELETING \/ forall q, q ∈ stored w -> q < base.

Record loop_inv h x0 (snset : sequence_number_set) (base : Z) prd (sync : bool) (now : option Z -> Z) (i : Z) l : Prop := {
  li_adv : advances h x0 h (rl_st l);
  li_evq : evq_ok fl (wx_evq (rl_st l));
  li_rex : rexmits_to (base + i) x0 (rl_st l);
  li_gap : gap_inv snset (stored (wx_wr x0)) base i l;
  li_xmit : 0 < i -> base + i - 1 <= wr_seq_xmit (wx_wr x0);
  li_done : rl_enqueued l = true -> forall j nd, 0 <= j < i -> wanted snset j = true -> whc_findseq (wr_whc (wx_wr x0)) (base + j) = Some nd ->
    answered cfg (wx_wr x0) (base + j) nd prd sync (now (Some (base + j))) (wx_evq (rl_st l));
}.

Lemma rexmits_more q q' x x' : q <= q' -> rexmits_to q x x' -> rexmits_to q' x x'.
Proof. intros Hq [A1 A2 A3 A4 A5 A6]. split; try done. intros y Hy. apply A3. lia. Qed.

Lemma acknack_step_ok h x0 snset base nb i prd sync now l : loop_inv h x0 snset base prd sync now i l -> ok h (wx_wr x0) -> data_ok (h_data h) -> wr_reliable (wx_wr x0) = true -> may_answer (wx_wr x0) base ->
  set_ok (ss_numbits snset) (ss_bits snset) -> 1 <= base -> 0 <= i < nb -> base + i <= wr_seq_xmit (wx_wr x0) -> rl_enqueued l = true ->
  exists l', acknack_step cfg xmsg_size l snset base nb i prd sync now = Some l' /\ loop_inv h x0 snset base prd sync now (i + 1) l'.
Proof.
  intros [L1 L2 L3 L4 L5 L6] H Hd Hrel Hst [Hn1 Hn2 Hn3] Hb Hi Hx He. unfold acknack_step. pose proof (ad_ok _ _ _ _ _ _ _ _ L1) as Hl.
  assert ((if i >=? ss_numbits snset then Some true else nn_bitset_isset nb (ss_bits snset) i) = Some (wanted snset i)) as ->.
  { unfold wanted. rewrite Z.geb_leb. destruct (Z.leb_spec (ss_numbits snset) i) as [|Hlt]; [done|]. simpl. pose proof (isset_bit_at _ _ i Hn3 ltac:(lia)) as E. unfold nn_bitset_isset in *.
    rewrite (proj2 (Z.ltb_lt _ _)) in E by lia. rewrite (proj2 (Z.ltb_lt _ _)) by lia. rewrite bool_decide_true in E by done. done. }
  cbn [mbind option_bind]. destruct (wanted snset i) eqn:Ew.
  2: { exists l. split; [done|]. split; try done; [by apply (rexmits_more (base + i)); [lia|]|by apply (gap_inv_same snset _ base i l l); [done|done|congruence]|lia|].
       intros He' j nd Hj Hwj Hnd. destruct (decide (j = i)) as [->|]; [congruence|]. apply L6; [done|lia|done|done]. }
  rewrite (rt_later _ _ _ L3) by lia. destruct (whc_findseq (wr_whc (wx_wr x0)) (base + i)) as [nd|] eqn:Ef.
  - assert (Hin : base + i ∈ stored (wx_wr x0)) by (apply (cache_find cfg hdepth tldepth h _ _ (wk_whc _ _ _ _ _ H)); eauto).
    destruct (rexmit_sample_ok cfg xmsg_size Hxs Hfs hdepth tldepth fl h l (base + i) nd prd sync (now (Some (base + i))) Hl Hd) as (l' & -> & G & A & R & Hans); [| |done| |].
    + unfold wr_reliable in *. by rewrite (ad_traits _ _ _ _ _ _ _ _ L1).
    + rewrite (rt_state _ _ _ L3). destruct Hst as [|Hst]; [done|]. specialize (Hst _ Hin). lia.
    + by rewrite (rt_later _ _ _ L3) by lia.
    + exists l'. split; [done|]. split.
      * by eapply advances_trans.
      * by apply (ad_evq _ _ _ _ _ _ _ _ A).
      * eapply (rexmits_trans (base + i)); [lia|exact L3|]. by replace (base + (i + 1)) with (base + i + 1) by lia.
      * by apply (gap_inv_same snset _ base i l l').
      * intros _. lia.
      * intros He' j nd' Hj Hwj Hnd. pose proof (ad_traits _ _ _ _ _ _ _ _ L1) as Et. destruct (decide (j = i)) as [->|].
        -- rewrite Ef in Hnd. injection Hnd as <-. apply (answered_more cfg (wx_wr (rl_st l)) (wx_wr x0) _ _ _ _ _ (wx_evq (rl_st l'))); [done|by intros m|by apply Hans].
        -- apply (answered_more cfg (wx_wr x0) (wx_wr x0) _ _ _ _ _ (wx_evq (rl_st l))); [done|apply (rt_keeps _ _ _ R)|]. apply L6; [done|lia|done|done].
  - assert (Hin : base + i ∉ stored (wx_wr x0)) by (rewrite <- (cache_find cfg hdepth tldepth h _ _ (wk_whc _ _ _ _ _ H)), Ef; by intros [? ?]).
    destruct (note_lost_ok snset (stored (wx_wr x0)) base i l Hb ltac:(lia) L4 Ew Hin) as (l' & -> & G & Es & Ee). exists l'. split; [done|]. split; rewrite ?Es; try done; [by apply (rexmits_more (base + i)); [lia|]|lia|].
    intros He' j nd Hj Hwj Hnd. destruct (decide (j = i)) as [->|]; [congruence|]. apply L6; [done|lia|done|done].
Qed.

Lemma acknack_loop_ok h x0 snset base nb prd sync now n i l : loop_inv h x0 snset base prd sync now i l -> ok h (wx_wr x0) -> data_ok (h_data h) -> wr_reliable (wx_wr x0) = true -> may_answer (wx_wr x0) base ->
  set_ok (ss_numbits snset) (ss_bits snset) -> 1 <= base -> 0 <= i -> i + Z.of_nat n <= nb ->
  exists l' i', acknack_loop cfg xmsg_size n l snset base nb i prd sync now = Some l' /\ loop_inv h x0 snset base prd sync now i' l' /\ i <= i' <= i + Z.of_nat n /\
    (rl_enqueued l' = true -> i' = i + Z.of_nat n \/ wr_seq_xmit (wx_wr x0) < base + i').
Proof.
  revert i l. induction n as [|n IH]; intros i l L H Hd Hrel Hst Hs Hb Hi Hn; cbn [acknack_loop]; [exists l, i; split; [done|]; split; [done|]; split; [lia|]; intros _; left; lia|].
  rewrite (sc_xmit _ _ (rt_core _ _ _ (li_rex _ _ _ _ _ _ _ _ _ L))). destruct (Z.leb_spec (base + i) (wr_seq_xmit (wx_wr x0))) as [Hx|Hx]; cbn [andb].
  2: { exists l, i. split; [done|]. split; [done|]. split; [lia|]. intros _. right. lia. }
  destruct (rl_enqueued l) eqn:He; [|exists l, i; split; [done|]; split; [done|]; split; [lia|congruence]].
  destruct (acknack_step_ok h x0 snset base nb i prd sync now l L H Hd Hrel Hst Hs Hb) as (l1 & -> & L1); [lia|done|done|]. cbn [mbind option_bind].
  destruct (IH (i + 1) l1 L1 H Hd Hrel Hst Hs Hb) as (l2 & i2 & E & L2 & Hi2 & Hq2); [lia|lia|]. exists l2, i2. split; [done|]. split; [done|]. split; [lia|]. intros Hq. specialize (Hq2 Hq). lia.
Qed.

(** ** The GAP *)

(** The end of the gap can be moved up: unless it is just beyond the last sample
    sent and there is a sample that has not been sent. *)
Definition growable w (gapend : Z) : Prop := gapend <= wr_seq_xmit w \/ forall q, q ∈ stored w -> q <= wr_seq_xmit w.

Lemma grow_gap_ok h w e : ok h w -> e <= wr_seq_xmit w + 1 -> exists e', grow_gap_to_next_seq ndebug w e = Some e' /\
  (growable w e -> e <= e' <= wr_seq_xmit w + 1 /\ forall q, e <= q < e' -> q ∉ stored w) /\ (e ∈ stored w -> e <= wr_seq_xmit w -> e' = e).
Proof.
  intros H He. unfold grow_gap_to_next_seq. pose proof (cache_sorted cfg hdepth tldepth h _ (wk_whc _ _ _ _ _ H)) as Hs. pose proof (wk_seq _ _ _ _ _ H) as Hsq. pose proof (stored_range cfg hdepth tldepth h w) as Hrng.
  rewrite (whc_next_seq_spec ndebug fs Hfs _ _ _ (ho_ok _ _ _ _ _ _ (wk_whc _ _ _ _ _ H))). cbn [mbind option_bind]. eexists. split; [done|]. set (P := filter (fun y => e - 1 < y) (stored w)).
  assert (HP : forall q, q ∈ P <-> e <= q /\ q ∈ stored w) by (intros q; unfold P; rewrite list_elem_of_filter; split; intros [? ?]; (split; [lia|done])).
  assert (HsP : StronglySorted Z.lt P) by (unfold P; by apply sorted_filter). destruct P as [|p P'] eqn:EP; simpl.
  - assert (Hno : forall q, e <= q -> q ∉ stored w) by (intros q Hq Hin; assert (q ∈ @nil Z) as Hn by (by apply HP); by apply elem_of_nil in Hn). split; [|intros Hin; destruct (Hno e (Z.le_refl _) Hin)].
    intros _. split; [lia|]. intros q Hq. apply Hno. lia.
  - destruct (proj1 (HP p) ltac:(by left)) as [Hpe Hps]. specialize (Hrng p H Hps). rewrite (proj2 (Z.eqb_neq p MAX_SEQ_NUMBER)) by lia. apply StronglySorted_inv in HsP as [_ HsP]. rewrite Forall_forall in HsP.
    assert (Hno : forall q, e <= q < p -> q ∉ stored w).
    { intros q Hq Hin. assert (q ∈ p :: P') as Hn by (apply HP; split; [lia|done]). apply elem_of_cons in Hn as [->|Hn]; [lia|]. specialize (HsP _ Hn). lia. }
    rewrite Z.gtb_ltb. destruct (Z.ltb_spec (wr_seq_xmit w) p) as [Hlt|Hge].
    + split; [|intros Hin Hx; destruct (Hno e); [lia|done]]. intros [Hg|Hg]; [|specialize (Hg p Hps); lia]. split; [lia|]. intros q Hq. apply Hno. lia.
    + split; [intros _; split; [lia|]; auto|]. intros Hin Hx. destruct (decide (p = e)); [done|]. destruct (Hno e); [lia|done].
Qed.

Lemma gap_params_ok h x0 snset base prd sync now i l : loop_inv h x0 snset base prd sync now i l -> ok h (wx_wr x0) -> 1 <= base -> 0 <= ss_numbits snset -> rl_gapstart l <> -1 ->
  exists b nb bits, acknack_gap_params ndebug l base (ss_numbits snset) = Some (rl_gapstart l, b, nb, bits) /\ 1 <= nb <= 256 /\ length bits = 8%nat /\ base <= rl_gapstart l /\ 0 < i /\
    ((rl_gapend l = base + ss_numbits snset -> growable (wx_wr x0) (rl_gapend l)) ->
      (forall q, gap_announces (rl_gapstart l) b nb bits q -> base <= q <= wr_seq_xmit (wx_wr x0) /\ q ∉ stored (wx_wr x0)) /\
      (forall q, gap_announces (rl_gapstart l) (rl_gapend l) (rl_gapnumbits l) (rl_gapbits l) q -> gap_announces (rl_gapstart l) b nb bits q) /\
      rl_gapstart l <= b <= wr_seq_xmit (wx_wr x0) + 1).
Proof.
  intros [L1 L2 L3 L4 L5 L6] H Hb Hn Hg. destruct L4 as [G1 (B1 & B2 & B3) G3 G4 G5 G6]. destruct G1 as [(? & _)|G1]; [done|]. specialize (L5 ltac:(lia)). pose proof (ad_ok _ _ _ _ _ _ _ _ L1) as Hl.
  assert (Esto : stored (wx_wr (rl_st l)) = stored (wx_wr x0)) by apply L3. assert (Ex : wr_seq_xmit (wx_wr (rl_st l)) = wr_seq_xmit (wx_wr x0)) by apply L3.
  unfold acknack_gap_params. set (e := rl_gapend l) in *.
  assert (exists e', (if e =? base + ss_numbits snset then grow_gap_to_next_seq ndebug (wx_wr (rl_st l)) e else Some e) = Some e' /\
    ((e = base + ss_numbits snset -> growable (wx_wr x0) e) -> e <= e' <= wr_seq_xmit (wx_wr x0) + 1 /\ forall q, e <= q < e' -> q ∉ stored (wx_wr x0)) /\ (0 < rl_gapnumbits l -> e' = e)) as (e' & -> & Hgrow & Hkeep).
  { destruct (Z.eqb_spec e (base + ss_numbits snset)) as [Ee|Ee]; [|exists e; split; [done|]; split; [intros _; split; lia|done]].
    destruct (grow_gap_ok h (wx_wr (rl_st l)) e Hl ltac:(lia)) as (e' & -> & Hgr & Hin). exists e'. split; [done|]. unfold growable in *. rewrite Esto, Ex in *. split; [intros Hgw; by apply Hgr, Hgw|]. intros Hnb.
    apply Hin; [|lia]. destruct (decide (e ∈ stored (wx_wr x0))) as [|Hns]; [done|]. exfalso. destruct (G6 (ss_numbits snset)) as [[Hq|[Hq Hbit]]|[_ Hf]]; [lia|unfold wanted; rewrite (proj2 (Z.leb_le _ _)) by lia; done|by rewrite <- Ee|lia| |lia].
    rewrite <- Ee, Z.sub_diag in Hbit. rewrite G3 in Hbit by lia. done. }
  cbn [mbind option_bind]. destruct (Z.eqb_spec (rl_gapnumbits l) 0) as [Ez|Ez].
  - destruct (set_spec 1 (rl_gapbits l) 0) as (bits & -> & _ & Hlen & Hsb); [split; [lia|]; split; [done|lia]|lia|]. cbn [mbind option_bind]. eexists _, _, _. split; [done|]. split; [lia|]. split; [lia|]. split; [lia|]. split; [lia|].
    intros Hgw. destruct (Hgrow Hgw) as [He' Hno]. split.
    + intros q Hq. assert (Hq' : rl_gapstart l <= q < e') by (destruct Hq as [Hq|[Hq _]]; lia). split; [lia|]. destruct (Z.lt_ge_cases q e) as [Hlt|Hge]; [|apply Hno; lia]. apply (G5 q). left. lia.
    + split; [|lia]. intros q [Hq|[Hq _]]; [|lia]. destruct (decide (q = e' - 1)) as [->|]; [right; rewrite Z.sub_diag; split; [lia|]; by rewrite Hsb|left; lia].
  - rewrite (Hkeep ltac:(lia)). eexists _, _, _. split; [done|]. split; [lia|]. split; [lia|]. split; [lia|]. split; [lia|]. intros _. split; [|split; [done|lia]]. intros q Hq. destruct (G5 q Hq) as (A & _ & C). split; [lia|done].
Qed.

(** The GAP as it is sent. *)
Definition gap_msg w prd (start b nb : Z) (bits : list Z) : Gap :=
  MkGap (guid_entityid (prd_guid prd)) (guid_entityid (wr_guid w)) (toSN start) (SequenceNumberSet (toSN b) nb (take (bitset_words nb) bits)).

Lemma acknack_gap_ok h x0 snset base prd sync now i l : loop_inv h x0 snset base prd sync now i l -> ok h (wx_wr x0) -> 1 <= base -> 0 <= ss_numbits snset ->
  exists l', acknack_gap ndebug l base (ss_numbits snset) prd = Some l' /\ wx_wr (rl_st l') = wx_wr (rl_st l) /\ evq_ok fl (wx_evq (rl_st l')) /\ keeps_queued (wx_evq (rl_st l)) (wx_evq (rl_st l')) /\
    (rl_gapstart l <> -1 -> prd_has_address prd = true -> exists b nb bits m, acknack_gap_params ndebug l base (ss_numbits snset) = Some (rl_gapstart l, b, nb, bits) /\
      xm_submsgs m = [SmGap (gap_msg (wx_wr x0) prd (rl_gapstart l) b nb bits)] /\ xm_dst m = NN_XMSG_DST_ONE (guid_prefix (prd_guid prd)) /\
      evq_non_timed_xmit_list (wx_evq (rl_st l')) = evq_non_timed_xmit_list (wx_evq (rl_st l)) ++ [XeventNt (evq_next_id (wx_evq (rl_st l))) m 0]).
Proof.
  intros L H Hb Hn. unfold acknack_gap. pose proof (gi_shape _ _ _ _ _ (li_gap _ _ _ _ _ _ _ _ _ L)) as Hsh. pose proof (li_evq _ _ _ _ _ _ _ _ _ L) as Hq. rewrite Z.gtb_ltb. destruct (Z.ltb_spec 0 (rl_gapstart l)) as [Hg|Hg].
  2: { exists l. split; [done|]. split; [done|]. split; [done|]. split; [by intros m|]. intros Hne. lia. }
  destruct (gap_params_ok h x0 snset base prd sync now i l L H Hb Hn ltac:(lia)) as (b & nb & bits & E & Hnb & Hlen & _). rewrite E. cbn [mbind option_bind]. unfold nn_xmsg_setdstPRD.
  destruct (prd_has_address prd); cbn [mbind option_bind nn_xmsg_setdst1 nn_xmsg_new xm_dst].
  2: { eexists. split; [done|]. split; [done|]. split; [done|]. split; [by intros m|done]. }
  set (m0 := set_dst _ _). destruct (add_Gap_ok m0 (wx_wr (rl_st l)) prd (rl_gapstart l) b nb bits) as (m & -> & Hk & Hdst & Hsub); [done|lia|rewrite Hlen, bitset_words_eq by lia; assert ((nb + 31) / 32 < 9) by (apply Z.div_lt_upper_bound; lia); lia|]. cbn [mbind option_bind].
  destruct (qxev_msg_ok xmsg_size Hxs fl (wx_evq (rl_st l)) m Hq) as (q' & -> & Hq' & El); [by rewrite Hk|]. cbn [mbind option_bind]. eexists. split; [done|]. cbn. split; [done|]. split; [done|].
  split; [by eapply keeps_queued_app|]. intros _ _. exists b, nb, bits, m. split; [done|]. split; [|done]. rewrite Hsub. unfold gap_msg, wr_guid. rewrite (sc_traits _ _ (rt_core _ _ _ (li_rex _ _ _ _ _ _ _ _ _ L))). done.
Qed.

Lemma acknack_heartbeat_ok h l flags prd hb now : ok h (wx_wr (rl_st l)) -> wr_reliable (wx_wr (rl_st l)) = true -> evq_ok fl (wx_evq (rl_st l)) -> 0 <= now ->
  exists x', acknack_heartbeat cfg l flags prd hb now = Some x' /\ advances h (rl_st l) h x' /\ keeps_queued (wx_evq (rl_st l)) (wx_evq x').
Proof.
  intros H Hr Hq Ht. unfold acknack_heartbeat. set (x1 := put (rl_st l) _). assert (A1 : advances h (rl_st l) h x1) by (apply advances_frame; try done). pose proof (ad_ok _ _ _ _ _ _ _ _ A1) as H1.
  destruct (negb _ && _).
  - destruct (force_heartbeat_ok cfg xmsg_size Hxs hdepth tldepth fl h x1 prd 1 H1 Hr) as (x2 & -> & A2 & F2); [lia|done|]. cbn [mbind option_bind]. pose proof (ad_ok _ _ _ _ _ _ _ _ A2) as H2.
    destruct (note_asyncwrite_ok cfg hdepth tldepth Hhb h (wx_wr x2) now H2) as (w3 & -> & S3 & _); [|done|]. { unfold wr_reliable in *. by rewrite (ad_traits _ _ _ _ _ _ _ _ A2). }
    cbn [mbind option_bind]. eexists. split; [done|]. split; [|apply F2]. eapply advances_trans; [exact A1|]. eapply advances_trans; [exact A2|]. by apply same_hb_advances.
  - destruct (negb _ && _).
    + destruct (force_heartbeat_ok cfg xmsg_size Hxs hdepth tldepth fl h x1 prd 0 H1 Hr) as (x2 & E & A2 & F2); [lia|done|]. exists x2. split; [done|]. split; [by eapply advances_trans|apply F2].
    + exists x1. split; [done|]. split; [done|by intros m].
Qed.

(** ** [handle_AckNack] *)

(** The reader and the writer are such that an ACKNACK of [base] makes sense. *)
Record acknack_legal (d : gmap Z serdata) w (n : wr_prd_match) prd (base : Z) : Prop := {
  al_reliable : prd_reliable prd = rn_is_reliable n;
  al_written : 1 < base -> 1 <= wr_seq w;
  al_respond : may_respond w n base;
  al_state : wr_state w = WRST_OPERATIONAL \/ wr_state w = WRST_LINGERING /\ sized d /\ - 2 ^ 63 < base;
}.

Lemma acknack_accepted_ok h x k n msg prd nack et now : ok h (wx_wr x) -> data_ok (h_data h) -> evq_ok fl (wx_evq x) -> wr_reliable (wx_wr x) = true -> reader_at cfg (wx_wr x) k n -> acknack_ok msg ->
  acknack_is_nack msg = Some nack -> let base := fromSN (ss_bitmap_base (an_readerSNState msg)) in acknack_legal (h_data h) (wx_wr x) n prd base -> 0 <= et -> 0 <= now None ->
  exists x' h', acknack_accepted cfg ndebug xmsg_size x k msg prd (negb nack) (negb nack && (acked_seq base >=? rn_seq n)) ((base <=? 1) && negb nack) et now = Some x' /\ advances h x h' x'.
Proof.
  intros H Hd Hq Hrel Hr Hmsg Hnack base [R1 R2 R3 R4] Het Hnow. unfold acknack_accepted. fold base. set (snset := an_readerSNState msg) in *. pose proof (reader_ok cfg hdepth tldepth h _ k n H Hr) as (B1 & B2 & B3 & B4 & B5).
  assert (Hbase : - 2 ^ 63 <= base < 2 ^ 63) by (pose proof (sn_range _ (ak_sn _ Hmsg)); unfold base, snset; lia). pose proof (wk_seq _ _ _ _ _ H) as Hsq.
  assert (Hack : - 2 ^ 63 < base -> acked_seq base = base - 1) by (intros Hlow; unfold acked_seq; apply wrap_seq; lia).
  destruct (acknack_ack_ok cfg ndebug Hfs is_tl hdepth tldepth Hset fl h x k n base et H Hr Het) as (x1 & h1 & n1 & -> & A1 & [I1 I1'] & Hr1 & En1 & Hid & Hst1). cbn [mbind option_bind]. pose proof (ad_ok _ _ _ _ _ _ _ _ A1) as H1.
  assert (Eseq : wr_seq (wx_wr x1) = wr_seq (wx_wr x)) by (unfold wr_seq; by rewrite I1). assert (Hn1 : Z.min (acked_seq base) (wr_seq (wx_wr x)) <= rn_seq n1).
  { rewrite En1. rewrite Z.gtb_ltb. destruct (Z.ltb_spec (rn_seq n) (acked_seq base)); simpl; lia. }
  destruct (acknack_responsive_ok cfg ndebug xmsg_size Hxs Hfs Hhb is_tl hdepth tldepth Hset fl h1 x1 k n1 base prd H1 Hr1) as (x2 & n2 & -> & A2 & [I2 I2'] & Hr2 & W2 & S2 & T2 & _ & Hn2 & _).
  { rewrite En1. by destruct (_ >? _). }
  { intros E1. destruct (Z.lt_ge_cases (rn_seq n) (acked_seq base)) as [Hlt|Hge]; [exfalso; rewrite En1, Z.gtb_ltb, (proj2 (Z.ltb_lt _ _)) in E1 by lia; simpl in E1; lia|].
    destruct (Hid ltac:(lia)) as [-> ->]. apply R3. rewrite En1, Z.gtb_ltb, (proj2 (Z.ltb_ge _ _)) in E1 by lia. done. }
  cbn [mbind option_bind]. pose proof (ad_ok _ _ _ _ _ _ _ _ A2) as H2. set (nonhist := negb nack && _).
  destruct (acknack_replied_ok cfg hdepth tldepth fl h1 x2 k n2 base nonhist H2 Hr2) as (x3 & n3 & -> & A3 & [I3 I3'] & Hr3 & W3 & S3 & Hn3).
  { intros _ Hb1 Hrl. specialize (R2 Hb1). rewrite Eseq in Hn2. rewrite Hack in Hn1, Hn2 by lia. lia. }
  cbn [mbind option_bind]. pose proof (ad_ok _ _ _ _ _ _ _ _ A3) as H3. pose proof (advances_trans _ _ _ _ _ _ _ _ _ _ A1 (advances_trans _ _ _ _ _ _ _ _ _ _ A2 A3)) as A13.
  assert (Hrel3 : wr_reliable (wx_wr x3) = true) by (unfold wr_reliable in *; by rewrite (ad_traits _ _ _ _ _ _ _ _ A13)). pose proof (ad_evq _ _ _ _ _ _ _ _ A13 Hq) as Hq3.
  assert (Hnb : 0 < ss_numbits snset -> 1 <= base) by (intros Hp; pose proof (ak_base _ Hmsg Hp) as Hp0; change (0 < base) in Hp0; lia). set (pre := (base <=? 1) && negb nack).
  assert (Hpre : pre = false -> 1 <= base).
  { unfold pre. intros [Hp|Hp]%andb_false_iff; [lia|]. apply Hnb. apply negb_false_iff in Hp. subst nack. unfold acknack_is_nack in Hnack. fold snset in Hnack. pose proof (so_few _ _ (ak_set _ Hmsg)). unfold snset in *.
    destruct (Z.eqb_spec (ss_numbits (an_readerSNState msg)) 0); [done|lia]. }
  destruct (acknack_classify_ok cfg xmsg_size Hxs hdepth tldepth fl h1 x3 k n3 base (ss_numbits snset) prd pre nonhist H3 Hr3 Hrel3 Hq3 Hnb Hpre) as (x4 & base' & nb & hb & n4 & -> & A4 & Hr4 & W4 & S4 & K4 & P1 & P2 & P3).
  cbn [mbind option_bind]. pose proof (ad_ok _ _ _ _ _ _ _ _ A4) as H4. destruct (reader_lookup cfg hdepth tldepth h1 _ k n4 H4 Hr4) as [a ->]. cbn [mbind option_bind].
  assert (Hrel4 : wr_reliable (wx_wr x4) = true) by (unfold wr_reliable in *; by rewrite (ad_traits _ _ _ _ _ _ _ _ A4)). pose proof (ad_evq _ _ _ _ _ _ _ _ A4 Hq3) as Hq4.
  assert (Hd1 : data_ok (h_data h1)) by (intros q sd; rewrite (am_data _ _ (ad_hist _ _ _ _ _ _ _ _ A1)); apply Hd).
  destruct (Z.le_gt_cases nb 0) as [Hz|Hp].
  { replace (Z.to_nat nb) with 0%nat by lia. cbn [acknack_loop mbind option_bind].
    assert (acknack_gap ndebug (init_loop x4) base' (ss_numbits snset) prd = Some (init_loop x4)) as -> by done. cbn [mbind option_bind].
    destruct (acknack_heartbeat_ok h1 (init_loop x4) (an_flags msg) prd hb (now None) H4 Hrel4 Hq4 Hnow) as (x' & -> & A5 & _). exists x', h1. split; [done|].
    eapply advances_trans; [exact A13|]. by eapply advances_trans. }
  specialize (P1 Hp). assert (Hans : may_answer (wx_wr x4) base').
  { unfold may_answer. rewrite S4, W4, S3, W3, S2, W2. destruct Hst1 as [->|(El & Hlt & Hst1)]; [left; by destruct R4 as [->|[-> _]]|]. right. destruct R4 as [R4|(_ & R4 & Hlow)]; [congruence|].
    rewrite (Hack Hlow) in Hlt, Hst1. destruct pre eqn:Ep; [unfold pre in Ep; apply andb_true_iff in Ep as [Ep _]; lia|]. destruct (P2 eq_refl) as [-> _].
    intros q Hq6. specialize (Hst1 R4 q Hq6). lia. }
  assert (L0 : loop_inv h1 x4 snset base' prd (rn_assumed_in_sync n4) now 0 (init_loop x4)).
  { split; [by apply advances_refl|done|apply rexmits_refl|by apply gap_inv_init|lia|intros; lia]. }
  destruct (acknack_loop_ok h1 x4 snset base' nb prd (rn_assumed_in_sync n4) now (Z.to_nat nb) 0 (init_loop x4) L0 H4 Hd1 Hrel4 Hans (ak_set _ Hmsg) P1) as (l & i & -> & L & _ & _); [lia|lia|]. cbn [mbind option_bind].
  pose proof (so_few _ _ (ak_set _ Hmsg)) as Hfew.
  destruct (acknack_gap_ok h1 x4 snset base' prd (rn_assumed_in_sync n4) now i l L H4 P1 ltac:(unfold snset; lia)) as (l' & -> & Ew & Hq5 & K5 & _). cbn [mbind option_bind].
  pose proof (li_adv _ _ _ _ _ _ _ _ _ L) as AL. assert (A5 : advances h1 (rl_st l) h1 (rl_st l')).
  { apply advances_frame; rewrite ?Ew; try done. apply AL. }
  pose proof (ad_ok _ _ _ _ _ _ _ _ A5) as H5. assert (Hrel5 : wr_reliable (wx_wr (rl_st l')) = true) by (rewrite Ew; unfold wr_reliable in *; by rewrite (ad_traits _ _ _ _ _ _ _ _ AL)).
  destruct (acknack_heartbeat_ok h1 l' (an_flags msg) prd hb (now None) H5 Hrel5 Hq5 Hnow) as (x' & -> & A6 & _). exists x', h1. split; [done|].
  eapply advances_trans; [exact A13|]. eapply advances_trans; [exact A4|]. eapply advances_trans; [exact AL|]. by eapply advances_trans.
Qed.
End Loop.

(** ** The handlers never fail *)

Section Handlers.
Context {T : Type -> Type} `{!OrdTree T, !OrdTreeLaws T}.
Context (cfg : writer_config) (ndebug : bool) (xmsg_size : nn_xmsg -> Z).
Context (Hxs : forall m, 0 <= xmsg_size m).
Context (Hfs : 0 < wc_fragment_size cfg) (Hhb : hb_settings cfg).
Context (is_tl : bool) (hdepth tldepth : nat).
Context (Hset : settings ndebug is_tl hdepth tldepth sample_overhead).
Context (fl : list xevent_nt).
Implicit Types (c : whc (T := T)) (w : writer (T := T)) (x : wx (T := T)) (h : hist) (prd : proxy_reader) (sd : serdata).

Abbreviation le := (wc_little_endian cfg).
Abbreviation ok := (writer_ok (T := T) cfg hdepth tldepth).
Abbreviation advances := (advances (T := T) cfg hdepth tldepth fl).

(** The reader that [prd] stands for, if it is matched. *)
Definition matched w prd (n : wr_prd_match) : Prop := reader_at cfg w (reader_key cfg (prd_guid prd)) n.

Lemma lookup_matched h w prd n a : ok h w -> ut_avlLookup (wr_readers_treedef le) (wr_readers w) (reader_key cfg (prd_guid prd)) = Some (n, a) -> matched w prd n.
Proof. intros H E. pose proof (lookup_match cfg hdepth tldepth h w (reader_key cfg (prd_guid prd)) H) as Hl. rewrite E in Hl. destruct Hl as (A & B & _). by split. Qed.

Lemma handle_AckNack_ok h x forme (prd : option proxy_reader) msg et now : ok h (wx_wr x) -> data_ok (h_data h) -> evq_ok fl (wx_evq x) -> acknack_ok msg -> 0 <= et -> 0 <= now None ->
  (forall p n, prd = Some p -> matched (wx_wr x) p n -> acknack_legal (h_data h) (wx_wr x) n p (fromSN (ss_bitmap_base (an_readerSNState msg)))) ->
  exists x' h', handle_AckNack cfg ndebug xmsg_size x forme prd msg et now = Some x' /\ advances h x h' x'.
Proof.
  intros H Hd Hq Hmsg Het Hnow Hlegal. unfold handle_AckNack. destruct forme; cbn [negb]; [|exists x, h; split; [done|by apply advances_refl]].
  destruct prd as [p|]; [|exists x, h; split; [done|by apply advances_refl]]. set (x1 := if prd_assert_pp_lease p then _ else x).
  assert (E1 : wx_wr x1 = wx_wr x /\ wx_evq x1 = wx_evq x) by (unfold x1; by destruct (prd_assert_pp_lease p)). destruct E1 as [E1 E1']. assert (A1 : advances h x h x1) by (apply advances_frame; rewrite ?E1, ?E1'; done).
  rewrite E1. destruct (wr_reliable (wx_wr x)) eqn:Hrel; cbn [negb]; [|exists x1, h; by split]. destruct (ut_avlLookup _ _ _) as [[n a]|] eqn:El; [|exists x1, h; by split].
  pose proof (lookup_matched h _ _ _ _ H El) as Hr. specialize (Hlegal p n eq_refl Hr). destruct (acknack_is_nack_exact msg Hmsg) as (nack & En & _). rewrite En. cbn [mbind option_bind].
  destruct (accept_ack_or_hb_w_timeout _ _ _ _ _) as [[accept next] t]. set (requests := if nack then _ else _). set (f := fun m => rn_set_acknack m next t requests). assert (Hf : unsummarized f) by (by intros m).
  set (k := reader_key cfg (prd_guid p)) in *. set (x2 := put x1 _). assert (A2 : advances h x h x2).
  { pose proof (advances_frame cfg hdepth tldepth fl h x1 (put x1 (count_ack (wx_wr x) nack)) (ad_ok _ _ _ _ _ _ _ _ A1)) as A3. rewrite E1 in A3. specialize (A3 ltac:(by split) eq_refl eq_refl ltac:(done)).
    eapply advances_trans; [exact A1|]. eapply advances_trans; [exact A3|]. by apply (upd_advances cfg hdepth tldepth fl h (put x1 (count_ack (wx_wr x) nack)) k f (ad_ok _ _ _ _ _ _ _ _ A3)). }
  destruct accept; [|exists x2, h; by split]. pose proof (ad_ok _ _ _ _ _ _ _ _ A2) as H2.
  assert (Hr2 : reader_at cfg (wx_wr x2) k (f n)) by exact (reader_upd cfg hdepth tldepth h (wx_wr x) k f n (wr_num_reliable_readers (wx_wr x)) H Hf Hr).
  destruct (acknack_accepted_ok cfg ndebug xmsg_size Hxs Hfs Hhb is_tl hdepth tldepth Hset fl h x2 k (f n) msg p nack et now H2 Hd (ad_evq _ _ _ _ _ _ _ _ A2 Hq) Hrel Hr2 Hmsg En) as (x' & h' & E & A3);
    [|done|done|]. 1: { destruct Hlegal as [R1 R2 R3 R4]. split; try done. intros En'. destruct (R3 En') as [Q1 Q2]. split; [done|]. intros s Es. specialize (Q2 s Es).
      pose proof (max_drop_upd cfg hdepth tldepth h (wx_wr x) k f (wr_num_reliable_readers (wx_wr x)) H) as Em. change (writer_max_drop_seq (wx_wr x2)) with (writer_max_drop_seq (set_readers (wx_wr x) (wr_num_reliable_readers (wx_wr x)) (upd_match le (wr_readers (wx_wr x)) k f))). lia. }
  exists x', h'. split; [exact E|]. by eapply advances_trans.
Qed.

(** ** [handle_NackFrag] *)

Lemma nackfrag_loop_ok h n x seq base sd fnset i prd enq : ok h (wx_wr x) -> sd_ok sd -> may_rexmit (wx_wr x) seq -> evq_ok fl (wx_evq x) -> set_ok (fn_numbits fnset) (fn_bits fnset) ->
  0 <= i -> i + Z.of_nat n <= fn_numbits fnset -> exists q', nackfrag_loop cfg xmsg_size n x seq base sd fnset i prd enq = Some (put_evq x q') /\ evq_ok fl q' /\ keeps_queued (wx_evq x) q'.
Proof.
  intros H Hsd Hre Hq Hs. pose proof Hs as [_ _ Hbo]. destruct Hre as (Hrel & Hseq & Hst). revert x i enq H Hrel Hst Hq. induction n as [|n IH]; intros x i enq H Hrel Hst Hq Hi Hn; cbn [nackfrag_loop].
  { exists (wx_evq x). split; [by destruct x|]. split; [done|by intros m]. }
  destruct (_ =? 0); [exists (wx_evq x); split; [by destruct x|]; split; [done|by intros m]|]. rewrite (isset_bit_at _ _ i Hbo) by lia. cbn [mbind option_bind]. destruct (_ && _); [|apply IH; try done; lia].
  destruct (create_fragment_ok cfg Hfs (wx_wr x) seq sd (wrap_u 32 (base + i)) (Some prd) false Hsd) as (r & Er & _). rewrite Er. cbn [mbind option_bind].
  destruct r as [m|e]; [|exists (wx_evq x); split; [by destruct x|]; split; [done|by intros m]]. rewrite bool_decide_true by done.
  pose proof (create_rexmit_ok cfg hdepth tldepth Hfs h (wx_wr x) seq sd _ (Some prd) m H Hsd Hrel Hseq Er) as Hm. destruct (qxev_rexmit_ok xmsg_size Hxs fl (wx_evq x) m false Hq Hm) as (q1 & e & -> & Hq1 & R).
  cbn [mbind option_bind]. destruct (IH (put_evq x q1) (i + 1) e H Hrel Hst Hq1) as (q2 & E2 & Hq2 & K2); [lia|lia|]. exists q2. split; [exact E2|]. split; [done|]. destruct (rexmit_result_queued _ Hxs _ _ _ _ Hm R) as [K1 _].
  intros m' Hm'. apply K2, K1, Hm'.
Qed.

Lemma nackfrag_gap_ok x seq prd : evq_ok fl (wx_evq x) -> exists q', nackfrag_gap x seq prd = Some (put_evq x q') /\ evq_ok fl q' /\ keeps_queued (wx_evq x) q'.
Proof.
  intros Hq. unfold nackfrag_gap, nn_xmsg_setdstPRD. destruct (prd_has_address prd); cbn [mbind option_bind nn_xmsg_setdst1 nn_xmsg_new xm_dst].
  2: { exists (wx_evq x). split; [by destruct x|]. split; [done|by intros m]. }
  set (m0 := set_dst _ _). destruct (add_Gap_ok m0 (wx_wr x) prd seq (seq + 1) 1 [0]) as (m & -> & Hk & _); [done|lia|vm_compute; lia|]. cbn [mbind option_bind].
  destruct (qxev_msg_ok xmsg_size Hxs fl (wx_evq x) m Hq) as (q' & -> & Hq' & El); [by rewrite Hk|]. cbn [mbind option_bind]. exists q'. split; [done|]. split; [done|by eapply keeps_queued_app].
Qed.

Lemma put_evq_advances h x q' : ok h (wx_wr x) -> evq_ok fl q' -> advances h x h (put_evq x q').
Proof. intros H Hq. by apply advances_frame. Qed.

Lemma handle_NackFrag_ok h x forme (prd : option proxy_reader) msg now : ok h (wx_wr x) -> data_ok (h_data h) -> evq_ok fl (wx_evq x) -> nackfrag_ok msg -> 0 <= now -> wr_state (wx_wr x) <> WRST_DELETING ->
  exists x', handle_NackFrag cfg xmsg_size x forme prd msg now = Some x' /\ advances h x h x'.
Proof.
  intros H Hd Hq Hmsg Hnow Hst. unfold handle_NackFrag. destruct forme; cbn [negb]; [|exists x; split; [done|by apply advances_refl]].
  destruct prd as [p|]; [|exists x; split; [done|by apply advances_refl]]. set (x1 := if prd_assert_pp_lease p then _ else x).
  assert (E1 : wx_wr x1 = wx_wr x /\ wx_evq x1 = wx_evq x) by (unfold x1; by destruct (prd_assert_pp_lease p)). destruct E1 as [E1 E1']. assert (A1 : advances h x h x1) by (apply advances_frame; rewrite ?E1, ?E1'; done).
  rewrite E1. destruct (wr_reliable (wx_wr x)) eqn:Hrel; cbn [negb]; [|exists x1; by split]. destruct (ut_avlLookup _ _ _) as [[n a]|] eqn:El; [|exists x1; by split]. destruct (_ <? _); [exists x1; by split|].
  set (f := fun m => rn_set_nackfrag m _). assert (Hf : unsummarized f) by (by intros m). set (k := reader_key cfg (prd_guid p)) in *. set (x2 := put x1 _). assert (A2 : advances h x h x2).
  { eapply advances_trans; [exact A1|]. pose proof (upd_advances cfg hdepth tldepth fl h x1 k f) as A. rewrite E1 in A. by apply A. }
  pose proof (ad_ok _ _ _ _ _ _ _ _ A2) as H2. pose proof (ad_evq _ _ _ _ _ _ _ _ A2 Hq) as Hq2. set (seq := fromSN (nf_writerSN msg)).
  match goal with |- context [?B ≫= _] => set (body := B) end. assert (exists q', body = Some (put_evq x2 q') /\ evq_ok fl q') as (q' & -> & Hq').
  { unfold body. destruct (whc_findseq (wr_whc (wx_wr x)) seq) as [nd|] eqn:Ef.
    - destruct (stored_data cfg hdepth tldepth h (wx_wr x) seq nd H Hd Ef) as (Hsd & Hin & _). pose proof (stored_range cfg hdepth tldepth h _ seq H Hin). pose proof (nk_set _ Hmsg) as Hset'. pose proof (so_few _ _ Hset').
      destruct (nackfrag_loop_ok h (Z.to_nat (fn_numbits (nf_fragmentNumberState msg))) x2 seq (wrap_u 32 (fn_bitmap_base (nf_fragmentNumberState msg) - 1)) (nd_serdata nd) (nf_fragmentNumberState msg) 0 p 1 H2 Hsd)
        as (q' & E & Hq' & _); [split; [done|split; [lia|done]]|done|done|lia|lia|]. eauto.
    - destruct (nackfrag_gap_ok x2 seq p Hq2) as (q' & E & Hq' & _). eauto. }
  cbn [mbind option_bind]. pose proof (put_evq_advances h x2 q' H2 Hq') as A3. pose proof (advances_trans _ _ _ _ _ _ _ _ _ _ A2 A3) as A23. destruct (_ <? _); [|eexists; by split].
  pose proof (ad_ok _ _ _ _ _ _ _ _ A3) as H3. destruct (force_heartbeat_ok cfg xmsg_size Hxs hdepth tldepth fl h (put_evq x2 q') p 1 H3 Hrel) as (x4 & -> & A4 & _); [lia|done|]. cbn [mbind option_bind].
  pose proof (ad_ok _ _ _ _ _ _ _ _ A4) as H4. destruct (note_asyncwrite_ok cfg hdepth tldepth Hhb h (wx_wr x4) now H4) as (w5 & -> & S5 & _); [|done|]. { unfold wr_reliable in *. by rewrite (ad_traits _ _ _ _ _ _ _ _ A4). }
  cbn [mbind option_bind]. eexists. split; [done|]. eapply advances_trans; [exact A23|]. eapply advances_trans; [exact A4|]. by apply same_hb_advances.
Qed.
End Handlers.
