(* ===== verification/WriterRun.v ===== *)
(** * Writers: all that can happen to one

    A run is any sequence of the operations of a writer, in the order in which
    its lock serialises them: matching and unmatching of readers, the parts of
    writing a sample, ACKNACKs and NACKFRAGs, the heartbeat event, and the queue
    of messages being worked off.  [ru_log] remembers the samples that went into
    the history cache, [ru_due] counts the threads that wrote a sample and have
    yet to send it with a heartbeat, [ru_taken] is that the heartbeat event was
    taken off the heap and is about to be handled, and [ru_fl] are the messages
    taken off the queue and not yet counted off. *)

From Stdlib Require Import ZArith Lia Sorting.Sorted.
From stdpp Require Import prelude gmap.
From S2P Require Import Prelude OrdTree Avl AvlFacts Bitset Defrag Reorder Dqueue Time Wire Protocol ProtocolProps Receive Whc WhcFacts WhcHist WrReaders WrReadersFacts Xmsg XmsgFacts Writer WriterSend WriterReply WriterFacts WriterHb WriterWrite WriterReplyFacts WriterAnswer.

Inductive writer_op : Type :=
| OpConnect (prd : proxy_reader)
| OpConnectHeartbeat (now_mt : Z)
| OpDisconnect (prd : proxy_reader) (now_et : Z)
| OpAckAll (prd : proxy_reader) (now_et : Z)
| OpDelete
| OpDeleteNolinger
| OpExitStartup (now_et : Z)
| OpWriteBegin (sd : serdata) (kernel_seq : option Z) (end_of_txn : bool) (now_et : Z)
| OpThrottle (xp : bool) (now_mt : Z)
| OpThrottleEnd (now_et : Z)
| OpWrite (sd : serdata) (xp : bool) (now_mt : Z)
| OpTransmit (seq : Z) (sd : serdata)
| OpTransmitHeartbeat (twrite packetid : Z)
| OpTransmitted (m : nn_xmsg)
| OpCoherent
| OpAckNack (forme : bool) (prd : option proxy_reader) (msg : AckNack) (now_et : Z) (now_mt : option Z -> Z)
| OpNackFrag (forme : bool) (prd : option proxy_reader) (msg : NackFrag) (now_mt : Z)
| OpEvent
| OpHeartbeat (now_mt : Z)
| OpNextMsg
| OpSendMsg.

Section Run.
Context {T : Type -> Type} `{!OrdTree T, !OrdTreeLaws T}.
Context (cfg : writer_config) (ndebug : bool) (xmsg_size : nn_xmsg -> Z) (lookup_prd : nn_guid -> option proxy_reader).

Record wrun : Type := WRun {
  ru_x : wx (T := T);
  ru_fl : list xevent_nt;
  ru_due : nat;
  ru_taken : bool;
  ru_log : gmap Z serdata;
}.

Definition ru_w (r : wrun) : writer := wx_wr (ru_x r).
Definition ru_set (r : wrun) (x : wx) : wrun := WRun x (ru_fl r) (ru_due r) (ru_taken r) (ru_log r).

Definition w_step (r : wrun) (op : writer_op) : option wrun :=
  let x := ru_x r in
  match op with
  | OpConnect prd => '(x, _) ← writer_add_connection cfg x prd; Some (ru_set r x)
  | OpConnectHeartbeat now => x ← writer_add_connection_heartbeat x now; Some (ru_set r x)
  | OpDisconnect prd now => x ← writer_drop_connection cfg ndebug x prd now; Some (ru_set r x)
  | OpAckAll prd now => x ← writer_ack_all cfg ndebug x prd now; Some (ru_set r x)
  | OpDelete => '(x, _) ← delete_writer x; Some (ru_set r x)
  | OpDeleteNolinger => '(x, _) ← delete_writer_nolinger x; Some (ru_set r x)
  | OpExitStartup now => x ← writer_exit_startup_mode cfg ndebug x now; Some (ru_set r x)
  | OpWriteBegin sd ks eot now => '(x, _) ← write_begin cfg x sd ks eot now; Some (ru_set r x)
  | OpThrottle xp now => x ← throttle_begin cfg lookup_prd x xp now; Some (ru_set r x)
  | OpThrottleEnd now => x ← throttle_end cfg ndebug x now; Some (ru_set r x)
  | OpWrite sd xp now =>
      '(x', res) ← write_end cfg xmsg_size x sd xp now;
      Some (WRun x' (ru_fl r) (if xp then S (ru_due r) else ru_due r) (ru_taken r)
              (if res =? 1 then <[wr_seq (wx_wr x) + 1 := sd]> (ru_log r) else ru_log r))
  | OpTransmit seq sd => x ← transmit_fragments cfg (Z.to_nat (num_fragments cfg sd)) x seq sd (num_fragments cfg sd) 0 None true; Some (ru_set r x)
  | OpTransmitHeartbeat tw pid => x ← transmit_heartbeat cfg lookup_prd x tw pid; Some (WRun x (ru_fl r) (pred (ru_due r)) (ru_taken r) (ru_log r))
  | OpTransmitted m => Some (ru_set r (put x (note_transmitted (wx_wr x) m)))
  | OpCoherent => Some (ru_set r (put x (begin_coherent_set (wx_wr x))))
  | OpAckNack forme prd msg et mt => x ← handle_AckNack cfg ndebug xmsg_size x forme prd msg et mt; Some (ru_set r x)
  | OpNackFrag forme prd msg mt => x ← handle_NackFrag cfg xmsg_size x forme prd msg mt; Some (ru_set r x)
  | OpEvent => Some (WRun (put x (set_hb (wx_wr x) (wr_hbcontrol (wx_wr x)) (Some T_NEVER))) (ru_fl r) (ru_due r) true (ru_log r))
  | OpHeartbeat now => x ← handle_xevk_heartbeat cfg lookup_prd x now; Some (WRun x (ru_fl r) (ru_due r) false (ru_log r))
  | OpNextMsg =>
      '(q, ev) ← getnext_from_non_timed_xmit_list (wx_evq x);
      Some (WRun (put_evq x q) (match ev with Some ev => ev :: ru_fl r | None => ru_fl r end) (ru_due r) (ru_taken r) (ru_log r))
  | OpSendMsg =>
      match ru_fl r with
      | [] => Some r
      | ev :: fl => '(q, _) ← handle_individual_xevent_nt (wx_evq x) ev; Some (WRun (put_evq x q) fl (ru_due r) (ru_taken r) (ru_log r))
      end
  end.

(** A time at which something is scheduled. *)
Definition early (now : Z) : Prop := 0 <= now /\ now + longest_intv cfg < T_NEVER.

(** What the callers of the operations guarantee. *)
Definition legal_op (r : wrun) (op : writer_op) : Prop :=
  let w := ru_w r in
  match op with
  | OpConnect prd => known (prd_guid prd) = true /\ (prd_reliable prd = true -> wr_reliable w = true)
  | OpDisconnect _ t | OpAckAll _ t | OpExitStartup t | OpWriteBegin _ _ _ t | OpThrottleEnd t | OpConnectHeartbeat t => 0 <= t
  | OpDelete => wr_state w <> WRST_LINGERING
  | OpThrottle _ _ => wr_throttling w = false /\ is_builtin_own_entityid (guid_entityid (wr_guid w)) = false /\ 0 < whc_unacked_bytes (wr_whc w)
  | OpWrite sd _ now => wr_seq w + 1 < MAX_SEQ_NUMBER /\ sd_ok sd /\ early now
  | OpTransmit _ sd => sd_ok sd
  | OpTransmitHeartbeat now _ => (0 < ru_due r)%nat /\ early now /\ 1 <= wr_seq w
  | OpTransmitted m => xm_kind m = NN_XMSG_KIND_DATA -> xm_wrguid m = wr_guid w -> xm_wrseq m <= wr_seq w
  | OpAckNack _ prd msg et mt => acknack_ok msg /\ 0 <= et /\ 0 <= mt None /\
      forall p n, prd = Some p -> matched cfg w p n -> acknack_legal (ru_log r) w n p (fromSN (ss_bitmap_base (an_readerSNState msg)))
  | OpNackFrag _ _ msg mt => nackfrag_ok msg /\ 0 <= mt /\ wr_state w <> WRST_DELETING
  | OpEvent => wr_reliable w = true /\ ru_taken r = false
  | OpHeartbeat now => wr_reliable w = true /\ ru_taken r = true /\ early now
  | OpDeleteNolinger | OpCoherent | OpNextMsg | OpSendMsg => True
  end.

(** A new writer with an empty queue. *)
Context (guid : nn_guid) (qos : writer_qos) (gv_startup_mode : bool) (max_bytes max_msgs : Z).

Inductive writer_reaches : wrun -> Prop :=
| reaches_new_writer w : new_writer_guid cfg guid qos gv_startup_mode = Some w -> writer_reaches (WRun (Wx w (xeventq_new max_bytes max_msgs) []) [] 0 false ∅)
| reaches_writer_step r op r' : writer_reaches r -> legal_op r op -> w_step r op = Some r' -> writer_reaches r'.
End Run.

(** ** Writers: the invariant of a run *)

(** The depths of the history cache of a writer. *)
Definition writer_depths (cfg : writer_config) (guid : nn_guid) (q : writer_qos) (gv_startup_mode : bool) : nat * nat :=
  let aggressive := if is_builtin_own_entityid (guid_entityid guid) then true else wc_aggressive_keep_last_whc cfg && bool_decide (is_Some (wq_history q)) in
  whc_depths q aggressive (startup_mode_of cfg q gv_startup_mode).

(** What the settings and the GUID of a writer must be. *)
Record writer_setting (cfg : writer_config) (ndebug : bool) (xmsg_size : nn_xmsg -> Z) (guid : nn_guid) (q : writer_qos) (gv_startup_mode : bool) : Prop := {
  wg_size : forall m, 0 <= xmsg_size m;
  wg_fragment_size : 0 < wc_fragment_size cfg;
  wg_intervals : hb_settings cfg;
  wg_prefix : (guid_prefix guid).1.1 <> 0;
  wg_spdp : guid_entityid guid <> NN_ENTITYID_SPDP_BUILTIN_PARTICIPANT_WRITER;
  wg_debug : (0 < (writer_depths cfg guid q gv_startup_mode).2 < (writer_depths cfg guid q gv_startup_mode).1)%nat -> ndebug = true;
}.

Section RunOk.
Context {T : Type -> Type} `{!OrdTree T, !OrdTreeLaws T}.
Context (cfg : writer_config) (ndebug : bool) (xmsg_size : nn_xmsg -> Z) (lookup_prd : nn_guid -> option proxy_reader).
Context (guid : nn_guid) (qos : writer_qos) (gv_startup_mode : bool) (max_bytes max_msgs : Z).
Context (HW : writer_setting cfg ndebug xmsg_size guid qos gv_startup_mode).
Implicit Types (w : writer (T := T)) (x : wx (T := T)) (h : hist) (r : wrun (T := T)).

Abbreviation hdepth := (writer_depths cfg guid qos gv_startup_mode).1.
Abbreviation tldepth := (writer_depths cfg guid qos gv_startup_mode).2.
Abbreviation is_tl := (bool_decide (wq_durability qos = NN_TRANSIENT_LOCAL_DURABILITY_QOS)).
Abbreviation ok := (writer_ok (T := T) cfg hdepth tldepth).
Abbreviation adv fl := (advances (T := T) cfg hdepth tldepth fl).

Lemma run_settings : settings ndebug is_tl hdepth tldepth sample_overhead.
Proof.
  destruct HW as [H1 H2 H3 H4 H5 H6]. split; [unfold sample_overhead; lia| |done]. unfold writer_depths, whc_depths. cbn [fst snd]. destruct (decide (wq_durability qos = NN_TRANSIENT_LOCAL_DURABILITY_QOS)); [right; by apply bool_decide_true|left].
  destruct (startup_mode_of cfg qos gv_startup_mode); lia.
Qed.


Lemma startup_not_tl : startup_mode_of cfg qos gv_startup_mode = true -> is_tl = false.
Proof.
  unfold startup_mode_of. intros [_ E]%andb_true_iff. apply bool_decide_false. intros Etl. rewrite Etl in E. destruct (wc_startup_mode_full cfg); [|done].
  apply orb_true_iff in E as [E|E]; [|done]. apply bool_decide_eq_true in E as [?|?]; done.
Qed.

(** ** The invariant *)

(** While a reader lacks a sample, a heartbeat is scheduled, or its event is being
    handled, or a thread is about to send one. *)
Record hb_ok r : Prop := {
  hk_event : ru_taken r = true \/ wr_reliable (ru_w r) = false \/ hb_upto T_NEVER (ru_w r);
  hk_behind : behind (ru_w r) -> (0 < ru_due r)%nat \/ ru_taken r = true \/ exists t, t < T_NEVER /\ hb_upto t (ru_w r);
}.

Record run_ok r : Prop := {
  rk_hist : exists h, h_data h = ru_log r /\ ok h (ru_w r);
  rk_data : data_ok (ru_log r);
  rk_evq : evq_ok (ru_fl r) (wx_evq (ru_x r));
  rk_hb : hb_ok r;
}.

Lemma new_writer_ok w : new_writer_guid cfg guid qos gv_startup_mode = Some w -> run_ok (WRun (Wx w (xeventq_new max_bytes max_msgs) []) [] 0 false ∅).
Proof.
  intros E. pose proof run_settings as Hs. destruct HW as [H1 H2 H3 H4 H5 H6]. unfold new_writer_guid in E. destruct (negb (is_writer_entityid _) || _) eqn:Ew; [done|]. apply orb_false_iff in Ew as [Ew _]. apply negb_false_iff in Ew.
  change (whc_depths qos _ _) with (writer_depths cfg guid qos gv_startup_mode) in E. destruct (writer_depths cfg guid qos gv_startup_mode) as [hd tl] eqn:Ed. cbn [fst snd] in *.
  destruct (whc_new is_tl hd tl sample_overhead) as [c|] eqn:Ec; [|done]. cbn [mbind option_bind] in E. destruct (if (0 <? hd)%nat then _ else _) as [low high]. destruct (_ && _); [done|]. injection E as <-.
  pose proof (hist_ok_new ndebug (wc_fragment_size cfg) is_tl hd tl sample_overhead c Hs Ec) as Hc. assert (Hc' : hist_ok (wc_fragment_size cfg) hdepth tldepth sample_overhead h_new c) by (by rewrite Ed).
  assert (Hfields : wh_is_transient_local c = is_tl /\ infos c = ∅).
  { unfold whc_new in Ec. destruct (negb _); [done|]. destruct (check_whc _); [|done]. injection Ec as <-. split; [done|]. unfold infos. simpl. apply fmap_empty. }
  destruct Hfields as [Htl Hinf]. split; simpl.
  - exists h_new. split; [done|]. split; unfold matches, ru_w, wr_seq, wr_seq_xmit; simpl; try done; try lia.
    + split; [split; [done|]|done]. by constructor.
    + unfold wr_reliable. simpl. destruct (wq_reliable qos); split; try done; by intros [? ?].
    + intros _ q i. rewrite Hinf. by rewrite lookup_empty.
    + intros Hst. unfold wr_handle_as_transient_local. simpl. by apply startup_not_tl.
  - by intros q sd; rewrite lookup_empty.
  - apply evq_new_ok.
  - split; simpl.
    + right. unfold wr_reliable. simpl. destruct (wq_reliable qos); [right|by left]. exists T_NEVER. split; [done|]. split; apply Z.le_refl.
    + intros (n & q & Hn & _). by apply elem_of_nil in Hn.
Qed.

(** ** Steps *)

(** A step that does not write. *)
Lemma run_advances r h h' x' : run_ok r -> h_data h = ru_log r -> adv (ru_fl r) h (ru_x r) h' x' -> run_ok (ru_set r x').
Proof.
  intros [R1 R2 R3 [R4 R5]] Hh [A1 A2 A3 A4 A5 A6 A7 A8 A9 A10]. unfold ru_w in *. split; simpl; [|done|auto|].
  - exists h'. split; [by rewrite (am_data _ _ A2)|done].
  - unfold wr_reliable in *. split; unfold ru_w; simpl.
    + destruct R4 as [R4|[R4|R4]]; [by left|right; left; unfold wr_reliable; by rewrite A3|auto].
    + intros Hb. destruct (R5 (A9 Hb)) as [?|[?|(t & Ht & Hu)]]; [by left|right; by left|]. right. right. exists t. auto.
Qed.

Lemma run_hist r : run_ok r -> exists h, h_data h = ru_log r /\ ok h (ru_w r) /\ data_ok (h_data h) /\ evq_ok (ru_fl r) (wx_evq (ru_x r)).
Proof. intros [(h & Hh & H) R2 R3 R4]. exists h. split; [done|]. split; [done|]. by rewrite Hh. Qed.

(** A sample that was written can only be what readers lack then. *)
Lemma run_write r sd xp now : run_ok r -> legal_op cfg r (OpWrite sd xp now) -> exists r', w_step cfg ndebug xmsg_size lookup_prd r (OpWrite sd xp now) = Some r' /\ run_ok r' /\
  (have_reliable_subs (ru_w r) = true -> ru_log r' !! wr_seq (ru_w r') = Some sd) /\ wr_seq (ru_w r') = wr_seq (ru_w r) + 1.
Proof.
  intros R (L1 & L2 & [L3 L3']). destruct (run_hist r R) as (h & Hh & H & Hd & Hq). destruct R as [_ _ _ [R4 R5]]. destruct HW as [W1 W2 W3 W4 W5 W6].
  destruct (write_end_ok cfg xmsg_size W1 W2 W3 hdepth tldepth (ru_fl r) h (ru_x r) sd xp now H L1 L2 L3 Hq) as (x' & res & h' & E & [K1 K2 K3 K4 K5 K6 K7 K8 K9 K10] & U). cbn [w_step]. rewrite E. cbn [mbind option_bind].
  eexists. split; [done|]. assert (Hlog : h_data h' = if res =? 1 then <[wr_seq (wx_wr (ru_x r)) + 1 := sd]> (ru_log r) else ru_log r).
  { rewrite K2. unfold written_hist. rewrite <- Hh. by destruct (res =? 1). }
  unfold ru_w in *. cbn [ru_x ru_log]. split; [|split; [|done]].
  - split; cbn; [exists h'; by split| |done|].
    + rewrite <- Hlog, K2. unfold written_hist. destruct (res =? 1); [|done]. intros q sd'. simpl. intros [[_ <-]|[_ Hq']]%lookup_insert_Some; [done|by apply (Hd q)].
    + split; unfold ru_w; cbn [ru_x ru_due ru_taken].
      * destruct R4 as [R4|[R4|R4]]; [by left|right; left; unfold wr_reliable; by rewrite K6|auto].
      * intros Hb. destruct xp; [left; lia|]. pose proof (behind_reliable cfg hdepth tldepth h' _ K1 Hb) as Hr. assert (Hr0 : wr_reliable (wx_wr (ru_x r)) = true) by (unfold wr_reliable in *; by rewrite <- K6).
        destruct R4 as [R4|[R4|R4]]; [right; by left|congruence|]. right. right. exists (now + wc_const_hb_intv_sched cfg). split; [unfold longest_intv in L3'; lia|]. by eapply U.
  - intros Hs. rewrite Hs in K3. destruct K3 as [[K3 _] _]. rewrite (K3 eq_refl). simpl (1 =? 1). cbn. rewrite K4. apply lookup_insert_eq.
Qed.

Lemma run_transmit_heartbeat r tw pid : run_ok r -> legal_op cfg r (OpTransmitHeartbeat tw pid) -> exists r', w_step cfg ndebug xmsg_size lookup_prd r (OpTransmitHeartbeat tw pid) = Some r' /\ run_ok r'.
Proof.
  intros R (L1 & [L2 L2'] & L3). destruct (run_hist r R) as (h & Hh & H & Hd & Hq). pose proof HW as [W1 W2 W3 W4 W5 W6].
  destruct (transmit_heartbeat_advances cfg W3 hdepth tldepth (ru_fl r) lookup_prd h (ru_x r) tw pid H L2 L3) as (x' & E & A & U). cbn [w_step]. rewrite E. cbn [mbind option_bind]. eexists. split; [done|].
  destruct (run_advances r h h x' R Hh A) as [B1 B2 B3 [B4 B5]]. unfold ru_w in *. split; try done. split; [exact B4|]. unfold ru_w. cbn. intros Hb. pose proof (behind_reliable cfg hdepth tldepth h _ (ad_ok _ _ _ _ _ _ _ _ A) Hb) as Hr.
  destruct (rk_hb _ R) as [R4 _]. unfold ru_w in R4. destruct R4 as [R4|[R4|R4]]; [right; by left| |].
  - unfold wr_reliable in *. rewrite (ad_traits _ _ _ _ _ _ _ _ A) in Hr. congruence.
  - right. right. exists (tw + wc_const_hb_intv_sched cfg). split; [unfold longest_intv in L2'; lia|]. by apply (U _ R4).
Qed.

Lemma run_heartbeat r now : run_ok r -> legal_op cfg r (OpHeartbeat now) -> exists r', w_step cfg ndebug xmsg_size lookup_prd r (OpHeartbeat now) = Some r' /\ run_ok r'.
Proof.
  intros R (L1 & L2 & [L3 L3']). destruct (run_hist r R) as (h & Hh & H & Hd & Hq). pose proof HW as [W1 W2 W3 W4 W5 W6].
  destruct (handle_xevk_heartbeat_ok cfg hdepth tldepth (ru_fl r) W3 lookup_prd h (ru_x r) now H L1 L3) as (x' & ev & ev' & must & E & A & S & Eq & Ev & Ev' & Em & Eev & Hm). cbn [w_step]. rewrite E. cbn [mbind option_bind].
  eexists. split; [done|]. destruct (run_advances r h h x' R Hh A) as [B1 B2 B3 _]. unfold ru_w in *. split; try done.
  assert (Hts : hbc_tsched (wr_hbcontrol (wx_wr x')) <= T_NEVER /\ (must = true -> hbc_tsched (wr_hbcontrol (wx_wr x')) < T_NEVER)).
  { destruct must; [|rewrite Hm; split; [lia|done]]. destruct Hm as [w1 ->]. pose proof (intv_bounds cfg W3 w1). split; [lia|]. intros _. lia. }
  split; unfold ru_w; cbn.
  - right. right. exists ev'. split; [done|]. lia.
  - intros Hb. right. right. pose proof (behind_must cfg hdepth tldepth h _ H (ad_behind _ _ _ _ _ _ _ _ A Hb)) as Hmust. rewrite Hmust in Em. injection Em as <-. destruct Hts as [_ Hts]. specialize (Hts eq_refl).
    exists (hbc_tsched (wr_hbcontrol (wx_wr x'))). split; [done|]. exists ev'. split; [done|]. lia.
Qed.

Lemma run_event r : run_ok r -> legal_op cfg r OpEvent -> exists r', w_step cfg ndebug xmsg_size lookup_prd r OpEvent = Some r' /\ run_ok r'.
Proof.
  intros R [L1 L2]. destruct (run_hist r R) as (h & Hh & H & Hd & Hq). cbn [w_step]. eexists. split; [done|]. split; cbn.
  - exists h. split; [done|]. destruct H as [K1 K2 K3 K4 K5 K6 K7 K8 K9 K10 K11 K12 K13 K14 K15]. split; try done.
  - by rewrite <- Hh.
  - done.
  - split; cbn; [by left|]. intros _. right. by left.
Qed.

Lemma run_messages r op : run_ok r -> op = OpNextMsg \/ op = OpSendMsg -> exists r', w_step cfg ndebug xmsg_size lookup_prd r op = Some r' /\ run_ok r'.
Proof.
  intros R Hop. destruct (run_hist r R) as (h & Hh & H & Hd & Hq). destruct R as [R1 R2 _ [R4 R5]]. destruct Hop as [->| ->]; cbn [w_step].
  - pose proof (getnext_ok (ru_fl r) (wx_evq (ru_x r)) Hq) as Hg. destruct (evq_non_timed_xmit_list (wx_evq (ru_x r))) as [|ev l]; [rewrite Hg|destruct Hg as (q' & -> & _ & Hq')]; cbn [mbind option_bind]; eexists; (split; [done|]); split; done.
  - destruct (ru_fl r) as [|ev fl] eqn:Ef; [exists r; split; [done|]; split; try done; by rewrite Ef|]. destruct (handle_nt_ok fl (wx_evq (ru_x r)) ev Hq) as (q' & -> & Hq' & _). cbn [mbind option_bind]. eexists. split; [done|]. split; done.
Qed.

(** No operation fails, and the invariant is kept. *)
Lemma run_step r op : run_ok r -> legal_op cfg r op -> exists r', w_step cfg ndebug xmsg_size lookup_prd r op = Some r' /\ run_ok r'.
Proof.
  intros R L. destruct (run_hist r R) as (h & Hh & H & Hd & Hq). pose proof run_settings as Hs. pose proof HW as [W1 W2 W3 W4 W5 W6]. unfold ru_w in *.
  assert (Hgo : forall h' x' (o : option (wx (T := T))), (exists x0, o = Some x0 /\ x0 = x') -> adv (ru_fl r) h (ru_x r) h' x' -> exists r', (x0 ← o; Some (ru_set r x0)) = Some r' /\ run_ok r').
  { intros h' x' o (x0 & -> & ->) A. cbn [mbind option_bind]. eexists. split; [done|]. by eapply run_advances. }
  assert (Hgo2 : forall (B : Type) h' x' (o : option (wx (T := T) * B)), (exists b, o = Some (x', b)) -> adv (ru_fl r) h (ru_x r) h' x' -> exists r', ('(x0, _) ← o; Some (ru_set r x0)) = Some r' /\ run_ok r').
  { intros B h' x' o (b & ->) A. cbn [mbind option_bind]. eexists. split; [done|]. by eapply run_advances. }
  destruct op; cbn [legal_op] in L; unfold ru_w in L.
  - destruct L as [L1 L2]. destruct (add_connection_advances cfg ndebug W2 _ _ _ Hs (ru_fl r) h (ru_x r) prd H L1 L2) as (x' & b & E & A & _). eapply Hgo2; eauto.
  - destruct (add_connection_heartbeat_ok cfg hdepth tldepth (ru_fl r) h (ru_x r) now_mt H L) as (x' & E & A). eapply Hgo; eauto.
  - destruct (drop_connection_advances cfg ndebug W2 _ _ _ Hs (ru_fl r) h (ru_x r) prd now_et H L) as (x' & h' & E & A). eapply Hgo; eauto.
  - destruct (ack_all_advances cfg ndebug W2 _ _ _ Hs (ru_fl r) h (ru_x r) prd now_et H L) as (x' & h' & E & A). eapply Hgo; eauto.
  - destruct (delete_writer_advances cfg hdepth tldepth (ru_fl r) h (ru_x r) H L) as (x' & b & E & A). eapply Hgo2; eauto.
  - destruct (delete_nolinger_advances cfg hdepth tldepth (ru_fl r) h (ru_x r) H) as (x' & b & E & A & _). eapply Hgo2; eauto.
  - destruct (exit_startup_advances cfg ndebug W2 _ _ _ Hs (ru_fl r) h (ru_x r) now_et H L) as (x' & h' & E & A). eapply Hgo; eauto.
  - destruct (write_begin_advances cfg hdepth tldepth (ru_fl r) h (ru_x r) sd kernel_seq end_of_txn now_et H L) as (x' & d & E & A & _). eapply Hgo2; eauto.
  - destruct L as (L1 & L2 & L3). destruct (throttle_begin_ok cfg hdepth tldepth (ru_fl r) lookup_prd h (ru_x r) xp now_mt H L1 L2 L3) as (x' & E & A & _). eapply Hgo; eauto.
  - destruct (throttle_end_advances cfg ndebug W2 _ _ _ Hs (ru_fl r) h (ru_x r) now_et H L) as (x' & h' & E & A & _). eapply Hgo; eauto.
  - destruct (run_write r sd xp now_mt R L) as (r' & E & R' & _). eauto.
  - destruct (transmit_fragments_advances cfg W2 hdepth tldepth (ru_fl r) h (Z.to_nat (num_fragments cfg sd)) (ru_x r) seq sd (num_fragments cfg sd) 0 None true H L) as (x' & E & A). eapply Hgo; eauto.
  - by apply run_transmit_heartbeat.
  - eexists. split; [done|]. eapply run_advances; [done|done|]. by apply note_transmitted_advances.
  - eexists. split; [done|]. eapply run_advances; [done|done|]. by apply begin_coherent_advances.
  - destruct L as (L1 & L2 & L3 & L4). rewrite <- Hh in L4. destruct (handle_AckNack_ok cfg ndebug xmsg_size W1 W2 W3 _ _ _ Hs (ru_fl r) h (ru_x r) forme prd msg now_et now_mt H Hd Hq L1 L2 L3 L4) as (x' & h' & E & A). eapply Hgo; eauto.
  - destruct L as (L1 & L2 & L3). destruct (handle_NackFrag_ok cfg xmsg_size W1 W2 W3 hdepth tldepth (ru_fl r) h (ru_x r) forme prd msg now_mt H Hd Hq L1 L2 L3) as (x' & E & A). eapply Hgo; eauto.
  - by apply run_event.
  - by apply run_heartbeat.
  - apply run_messages; auto.
  - apply run_messages; auto.
Qed.

Lemma reaches_run_ok r : writer_reaches cfg ndebug xmsg_size lookup_prd guid qos gv_startup_mode max_bytes max_msgs r -> run_ok r.
Proof.
  induction 1 as [w E|r op r' _ IH L E]; [by apply new_writer_ok|]. destruct (run_step r op IH L) as (r2 & E2 & R2). rewrite E in E2. by injection E2 as <-.
Qed.
End RunOk.
