(* ===== verification/WriterClaims.v ===== *)
(** * The theorems about writers, with witnesses

    First a decision procedure for the conditions on operations, and a run of a
    writer with three readers to show that the theorems can be applied. *)

From Stdlib Require Import ZArith Lia Sorting.Sorted.
From stdpp Require Import prelude gmap.
From S2P Require Import Prelude OrdTree Avl AvlFacts AvlProps Bitset Defrag Reorder ReorderRun Dqueue Time Wire Protocol ProtocolProps Receive ReceiveGap Whc WhcFacts WhcFind WhcHist WhcClaims WrReaders WrReadersFacts Xmsg XmsgFacts Writer WriterSend WriterReply WriterFacts WriterHb WriterWrite WriterReplyFacts WriterAnswer WriterRun.

Section Decide.
Context {T : Type -> Type} `{!OrdTree T, !OrdTreeLaws T}.
Context (cfg : writer_config) (ndebug : bool) (xmsg_size : nn_xmsg -> Z) (lookup_prd : nn_guid -> option proxy_reader).
Implicit Types (w : writer (T := T)) (r : wrun (T := T)).

(** A set of at most 256 bits in as many words as it needs. *)
Definition set_okb (n : Z) (bits : list Z) : bool :=
  (0 <=? n) && (n <=? 256) && (length bits =? bitset_words n)%nat && forallb (fun b => (0 <=? b) && (b <? 2 ^ 32)) bits.

Lemma set_okb_ok n bits : set_okb n bits = true -> set_ok n bits.
Proof.
  unfold set_okb. intros [[[A%Z.leb_le B%Z.leb_le]%andb_true_iff C%Nat.eqb_eq]%andb_true_iff D]%andb_true_iff. split; [lia|done|]. split; [lia|]. split.
  - rewrite forallb_forall in D. apply Forall_forall. intros b Hb. specialize (D b ltac:(by apply list_elem_of_In)). unfold word_ok, in_u. lia.
  - rewrite C, bitset_words_eq by lia. pose proof (Z.div_mod (n + 31) 32 ltac:(lia)). pose proof (Z.mod_pos_bound (n + 31) 32 ltac:(lia)). lia.
Qed.

Definition sn_okb (sn : sequence_number) : bool := (- 2 ^ 31 <=? sn_high sn) && (sn_high sn <? 2 ^ 31) && (0 <=? sn_low sn) && (sn_low sn <? 2 ^ 32).

Definition acknack_okb (msg : AckNack) : bool :=
  let s := an_readerSNState msg in
  (0 <=? an_readerId msg) && (an_readerId msg <? 2 ^ 32) && (0 <=? an_writerId msg) && (an_writerId msg <? 2 ^ 32) && sn_okb (ss_bitmap_base s) && set_okb (ss_numbits s) (ss_bits s) &&
  (negb (0 <? ss_numbits s) || (0 <? fromSN (ss_bitmap_base s))) && (- 2 ^ 31 <=? an_count msg) && (an_count msg <? 2 ^ 31).

Lemma acknack_okb_ok msg : acknack_okb msg = true -> acknack_ok msg.
Proof.
  unfold acknack_okb, sn_okb. rewrite !andb_true_iff, orb_true_iff, negb_true_iff. intros ((((((((A & B) & C) & D) & ((E & F) & G) & I) & J) & K) & L) & M). split.
  - unfold entityid_ok, in_u. lia.
  - unfold sn_ok, in_s, in_u. lia.
  - by apply set_okb_ok.
  - destruct K; lia.
  - unfold in_s. lia.
Qed.

Definition acknack_legalb (d : gmap Z serdata) w (n : wr_prd_match) (prd : proxy_reader) (base : Z) : bool :=
  bool_decide (prd_reliable prd = rn_is_reliable n) && (negb (1 <? base) || (1 <=? wr_seq w)) &&
  (negb (rn_seq n =? MAX_SEQ_NUMBER) || ((1 <=? wr_seq w) && match responsive_seq w base with Some s => writer_max_drop_seq w <=? s | None => true end)) &&
  (bool_decide (wr_state w = WRST_OPERATIONAL) || bool_decide (wr_state w = WRST_LINGERING) && forallb (fun p => 0 <? sd_size p.2) (map_to_list d) && (- 2 ^ 63 <? base)).

Lemma acknack_legalb_ok d w n prd base : acknack_legalb d w n prd base = true -> acknack_legal d w n prd base.
Proof.
  unfold acknack_legalb. rewrite !andb_true_iff, !orb_true_iff, !andb_true_iff, !negb_true_iff. intros (((A & B) & C) & D). rewrite ?andb_true_iff in D. split.
  - by apply bool_decide_eq_true in A.
  - intros Hb. destruct B; lia.
  - intros E. destruct C as [C|[C1 C2]]; [rewrite E, Z.eqb_refl in C; done|]. split; [lia|]. intros s Es. rewrite Es in C2. lia.
  - destruct D as [D|[[D1 D2] D3]]; [left; by apply bool_decide_eq_true in D|right]. split; [by apply bool_decide_eq_true in D1|]. split; [|lia]. intros q sd Hq. rewrite forallb_forall in D2.
    specialize (D2 (q, sd) ltac:(apply list_elem_of_In; by apply elem_of_map_to_list)). simpl in D2. lia.
Qed.

Definition legal_opb r (op : writer_op) : bool :=
  let w := ru_w r in
  match op with
  | OpConnect prd => known (prd_guid prd) && (negb (prd_reliable prd) || wr_reliable w)
  | OpDisconnect _ t | OpAckAll _ t | OpExitStartup t | OpWriteBegin _ _ _ t | OpThrottleEnd t | OpConnectHeartbeat t => 0 <=? t
  | OpDelete => bool_decide (wr_state w <> WRST_LINGERING)
  | OpThrottle _ _ => negb (wr_throttling w) && negb (is_builtin_own_entityid (guid_entityid (wr_guid w))) && (0 <? whc_unacked_bytes (wr_whc w))
  | OpWrite sd _ now => (wr_seq w + 1 <? MAX_SEQ_NUMBER) && (0 <=? sd_size sd) && (negb (sd_is_empty sd) || (sd_size sd =? 0)) && (0 <=? now) && (now + longest_intv cfg <? T_NEVER)
  | OpTransmit _ sd => (0 <=? sd_size sd) && (negb (sd_is_empty sd) || (sd_size sd =? 0))
  | OpTransmitHeartbeat now _ => (0 <? ru_due r)%nat && (0 <=? now) && (now + longest_intv cfg <? T_NEVER) && (1 <=? wr_seq w)
  | OpTransmitted m => xm_wrseq m <=? wr_seq w
  | OpAckNack _ prd msg et mt =>
      acknack_okb msg && (0 <=? et) && (0 <=? mt None) &&
      match prd with
      | None => true
      | Some p => forallb (fun n => negb (rn_key (wc_little_endian cfg) n =? reader_key cfg (prd_guid p)) ||
                                    acknack_legalb (ru_log r) w n p (fromSN (ss_bitmap_base (an_readerSNState msg)))) (matches w)
      end
  | OpNackFrag _ _ _ _ => false
  | OpEvent => wr_reliable w && negb (ru_taken r)
  | OpHeartbeat now => wr_reliable w && ru_taken r && (0 <=? now) && (now + longest_intv cfg <? T_NEVER)
  | OpDeleteNolinger | OpCoherent | OpNextMsg | OpSendMsg => true
  end.

Lemma sd_okb_ok sd : (0 <=? sd_size sd) && (negb (sd_is_empty sd) || (sd_size sd =? 0)) = true -> sd_ok sd.
Proof. rewrite andb_true_iff, orb_true_iff, negb_true_iff. intros [A B]. split; [lia|]. intros E. destruct B; [congruence|lia]. Qed.

Lemma legal_opb_ok r op : legal_opb r op = true -> legal_op cfg r op.
Proof.
  destruct op; cbn [legal_opb legal_op]; unfold early; try (intros; lia).
  - rewrite andb_true_iff, orb_true_iff, negb_true_iff. intros [A B]. split; [done|]. intros E. destruct B; congruence.
  - apply bool_decide_eq_true.
  - rewrite !andb_true_iff, !negb_true_iff. intros [[A B] C]. split; [done|]. split; [done|lia].
  - intros [[[A D]%andb_true_iff E]%andb_true_iff F]%andb_true_iff. apply andb_true_iff in A as [A B]. split; [lia|]. split; [apply sd_okb_ok; by rewrite B, D|lia].
  - apply sd_okb_ok.
  - rewrite !andb_true_iff. intros [[[A B] C] D]. apply Nat.ltb_lt in A. split; [done|]. lia.
  - rewrite !andb_true_iff. intros [[[A B] C] D]. split; [by apply acknack_okb_ok|]. split; [lia|]. split; [lia|]. intros p n -> [Hn Hk]. rewrite forallb_forall in D. specialize (D n ltac:(by apply list_elem_of_In)).
    apply orb_true_iff in D as [D|D]; [apply negb_true_iff in D; lia|by apply acknack_legalb_ok].
  - rewrite andb_true_iff, negb_true_iff. done.
  - rewrite !andb_true_iff. intros [[[A B] C] D]. split; [done|]. split; [done|]. lia.
Qed.

Fixpoint writer_run (r : wrun (T := T)) (ops : list writer_op) : option (wrun (T := T)) :=
  match ops with
  | [] => Some r
  | op :: ops => if legal_opb r op then r ← w_step cfg ndebug xmsg_size lookup_prd r op; writer_run r ops else None
  end.

Context (guid : nn_guid) (qos : writer_qos) (gv_startup_mode : bool) (max_bytes max_msgs : Z).

Definition writer_runs (ops : list writer_op) : option (wrun (T := T)) :=
  w ← new_writer_guid cfg guid qos gv_startup_mode; writer_run (WRun (Wx w (xeventq_new max_bytes max_msgs) []) [] 0 false ∅) ops.

Lemma writer_runs_reaches ops r : writer_runs ops = Some r -> writer_reaches cfg ndebug xmsg_size lookup_prd guid qos gv_startup_mode max_bytes max_msgs r.
Proof.
  unfold writer_runs. destruct (new_writer_guid _ _ _ _) as [w|] eqn:E; [|done]. cbn [mbind option_bind]. assert (H0 := reaches_new_writer (T := T) cfg ndebug xmsg_size lookup_prd guid qos gv_startup_mode max_bytes max_msgs w E).
  revert H0. generalize (WRun (Wx w (xeventq_new max_bytes max_msgs) []) [] 0 false ∅) as r0. induction ops as [|op ops IH]; intros r0 H0 Hr; simpl in Hr; [by injection Hr as <-|].
  destruct (legal_opb r0 op) eqn:El; [|done]. destruct (w_step _ _ _ _ r0 op) as [r1|] eqn:Es; [|done]. cbn [mbind option_bind] in Hr. apply (IH r1); [|done]. eapply reaches_writer_step; [exact H0|by apply legal_opb_ok|done].
Qed.
End Decide.

(** ** A reliable writer of volatile samples, with fragments of 1000 bytes *)

Definition demo_cfg : writer_config :=
  WriterConfig true 1000 REXMIT_MERGE_ADAPTIVE 5000000 true 0 false false 1000 30000 30000 false 65536 false 100000000 20000000 8000000000 5000000 true false.
Definition demo_guid : nn_guid := NnGuid (1, 2, 3) 0x102.
Definition demo_qos : writer_qos := WriterQos true NN_VOLATILE_DURABILITY_QOS None None.
Definition demo_prd (k : Z) (reliable : bool) : proxy_reader := ProxyReader (NnGuid (7, 7, k) 0x107) true reliable false false.
Definition demo_lookup (g : nn_guid) : option proxy_reader := Some (ProxyReader g true true false false).
Definition demo_size (m : nn_xmsg) : Z := 100.
Definition demo_data (k n : Z) : serdata := Serdata k n false false.
Definition demo_acknack (base nb : Z) (bits : list Z) (count : Z) : AckNack := MkAckNack 1 0x107 0x102 (SequenceNumberSet (toSN base) nb bits) count.
Definition demo_sent (q : Z) : nn_xmsg := nn_xmsg_setwriterseq (nn_xmsg_new NN_XMSG_KIND_DATA) demo_guid q.

(** Three samples go to two reliable readers and one that is not; the first one
    acknowledges sample 1, the second one has lost samples 1 and 2. *)
Definition demo_ops : list writer_op :=
  [OpConnect (demo_prd 1 true); OpConnectHeartbeat 10; OpConnect (demo_prd 2 true); OpConnect (demo_prd 3 false);
   OpWriteBegin (demo_data 5 2500) None false 20; OpWrite (demo_data 5 2500) false 20; OpWrite (demo_data 6 300) true 30; OpTransmit 2 (demo_data 6 300); OpTransmitHeartbeat 30 1;
   OpWrite (demo_data 5 400) false 40; OpTransmitted (demo_sent 3); OpNextMsg; OpSendMsg;
   OpAckNack true (Some (demo_prd 1 true)) (demo_acknack 2 0 [] 1) 50 (fun _ => 50);
   OpAckNack true (Some (demo_prd 2 true)) (demo_acknack 1 2 [0xc0000000] 1) 60 (fun _ => 60)].

Abbreviation demo_runs := (writer_runs (T := AvlTree) demo_cfg true demo_size demo_lookup demo_guid demo_qos false 100000 200).
Definition demo_run : wrun (T := AvlTree) := Eval vm_compute in
  match demo_runs demo_ops with
  | Some r => r
  | None => WRun (Wx (MkWriter (WrTraits demo_guid true false false) (WrNumbers 0 0 0 0 0 0) (WrLimits false false 0 0 0 0) (WrStats 0 0 0 0 0) writer_hbcontrol_init None
                        WRST_OPERATIONAL false (MkWhc 0 0 120 false 0 0 0 0 0 None ∅ None ot_init) 0 ot_init) (xeventq_new 0 0) []) [] 0 false ∅
  end.

Lemma demo_run_eq : demo_runs demo_ops = Some demo_run.
Proof. vm_compute. reflexivity. Qed.

(** ** The theorems

    They are about every state that a new writer and its queue of messages
    reach by any sequence of legal operations; the witnesses are about the run
    above on the AVL trees of [Avl.v]. *)

Section Claims.
Context {T : Type -> Type} `{!OrdTree T, !OrdTreeLaws T}.
Context (cfg : writer_config) (ndebug : bool) (xmsg_size : nn_xmsg -> Z) (lookup_prd : nn_guid -> option proxy_reader).
Context (guid : nn_guid) (qos : writer_qos) (gv_startup_mode : bool) (max_bytes max_msgs : Z).
Context (HW : writer_setting cfg ndebug xmsg_size guid qos gv_startup_mode).
Implicit Types (w : writer (T := T)) (x : wx (T := T)) (h : hist) (r : wrun (T := T)).

Abbreviation hdepth := (writer_depths cfg guid qos gv_startup_mode).1.
Abbreviation tldepth := (writer_depths cfg guid qos gv_startup_mode).2.
Abbreviation ok := (writer_ok (T := T) cfg hdepth tldepth).
Abbreviation reachable := (writer_reaches (T := T) cfg ndebug xmsg_size lookup_prd guid qos gv_startup_mode max_bytes max_msgs).
Abbreviation step := (w_step (T := T) cfg ndebug xmsg_size lookup_prd).

Lemma reachable_ok r : reachable r -> run_ok cfg guid qos gv_startup_mode r.
Proof. by apply reaches_run_ok. Qed.

Lemma reachable_hist r : reachable r -> exists h, h_data h = ru_log r /\ ok h (ru_w r) /\ data_ok (h_data h) /\ evq_ok (ru_fl r) (wx_evq (ru_x r)).
Proof. intros Hr. by apply (run_hist cfg guid qos gv_startup_mode), reachable_ok. Qed.

(** A later sample of the same instance for each one that is kept. *)
Definition superseded r (n : nat) (q : Z) (sd : serdata) : Prop :=
  exists l, length l = n /\ NoDup l /\ forall y, y ∈ l -> q < y /\ exists sd', ru_log r !! y = Some sd' /\ sd_key sd' = sd_key sd.

Lemma unacked_kept r q sd n : run_ok cfg guid qos gv_startup_mode r -> ru_log r !! q = Some sd -> n ∈ matches (ru_w r) -> rn_seq n < q -> rn_seq n <> MAX_SEQ_NUMBER ->
  (exists nd, whc_findseq (wr_whc (ru_w r)) q = Some nd /\ nd_serdata nd = sd /\ nd_unacked nd = true) \/ (0 < hdepth)%nat /\ superseded r hdepth q sd.
Proof.
  intros R Hq Hn Hlt Hne. destruct (rk_hist _ _ _ _ _ R) as (h & Hh & H). destruct (writer_ok_max_drop _ _ _ _ _ H) as (_ & M & _). specialize (M n Hn Hne). rewrite <- Hh in Hq.
  destruct (ho_kept _ _ _ _ _ _ (wk_whc _ _ _ _ _ H) q sd Hq) as [Hs|[Hd Hrep]]; [lia| |].
  - left. destruct (stored_node _ _ _ _ _ _ _ (wk_whc _ _ _ _ _ H) Hs) as (nd & Hnd & Hdd & _ & Hu). exists nd. rewrite Hq in Hdd. injection Hdd as <-. split; [done|]. split; [done|]. apply Hu. lia.
  - right. split; [done|]. unfold superseded. rewrite <- Hh. exact Hrep.
Qed.

(** C3: whatever legal operations happen to a writer, in whatever order: readers
    are matched and unmatched, samples are written (by calls that may block, and
    with no coherent set in the parameter list they pass), throttled and sent,
    ACKNACKs and NACKFRAGs come in, heartbeats fall due, and the queue of messages is
    worked off, no assertion fails and nothing that was freed is used, in the
    writer, its tree of readers, its history cache and the queue; the
    consistency check of the history cache succeeds afterwards.  Legal is an
    ACKNACK only while the writer is operational, or lingers and all its samples
    have data, and not when it acknowledges something to a writer that has
    written nothing, when it lets a reader that was given up on answer again with
    a number below what the others have acknowledged, or when its base is -2^63
    and the writer lingers: some of these make assertions fail.  A
    NACKFRAG is legal until the writer is deleted, and sequence numbers stay below
    2^63 - 1.  Not covered are builds with assertions when 0 < [tldepth] < [hdepth] (an assertion
    of the history cache fails then), and the writer of participant
    announcements. *)
Theorem writer_never_fails r op : reachable r -> legal_op cfg r op -> exists r', step r op = Some r' /\ check_whc (wr_whc (ru_w r')) = true.
Proof.
  intros Hr Hl. destruct (run_step cfg ndebug xmsg_size lookup_prd guid qos gv_startup_mode HW r op (reachable_ok r Hr) Hl) as (r' & E & R). exists r'. split; [done|].
  destruct (rk_hist _ _ _ _ _ R) as (h & _ & H). eapply check_whc_ok, (ho_ok _ _ _ _ _ _ (wk_whc _ _ _ _ _ H)).
Qed.

(** C4: as long as a matched reliable reader, not given up on, has not
    acknowledged a sample that went into the history cache, the sample is there,
    with the data it was written with and marked as unacknowledged; unless the
    writer keeps only the last [hdepth] samples of an instance and as many later
    ones of the instance were written. *)
Theorem writer_keeps_unacked r q sd n : reachable r -> ru_log r !! q = Some sd -> n ∈ matches (ru_w r) -> rn_seq n < q -> rn_seq n <> MAX_SEQ_NUMBER ->
  (exists nd, whc_findseq (wr_whc (ru_w r)) q = Some nd /\ nd_serdata nd = sd /\ nd_unacked nd = true) \/ (0 < hdepth)%nat /\ superseded r hdepth q sd.
Proof. intros Hr. apply unacked_kept, reachable_ok, Hr. Qed.

(** C17: a sample that is written while a reliable reader is matched and not given
    up on gets the next sequence number and is in the history cache afterwards,
    as unacknowledged. *)
Theorem writer_stores_written r sd xp now : reachable r -> legal_op cfg r (OpWrite sd xp now) -> (exists n, n ∈ matches (ru_w r) /\ rn_seq n <> MAX_SEQ_NUMBER) ->
  exists r' nd, step r (OpWrite sd xp now) = Some r' /\ wr_seq (ru_w r') = wr_seq (ru_w r) + 1 /\ matches (ru_w r') = matches (ru_w r) /\
    whc_findseq (wr_whc (ru_w r')) (wr_seq (ru_w r')) = Some nd /\ nd_serdata nd = sd /\ nd_unacked nd = true.
Proof.
  intros Hr Hl (n & Hn & Hne). pose proof (reachable_ok r Hr) as R. destruct (reachable_hist r Hr) as (h & Hh & H & Hd & Hq). pose proof HW as [W1 W2 W3 W4 W5 W6].
  destruct (run_write cfg ndebug xmsg_size lookup_prd guid qos gv_startup_mode HW r sd xp now R Hl) as (r' & E & R' & Hlog & Hseq). specialize (Hlog ltac:(apply (have_reliable_subs_spec cfg hdepth tldepth h); eauto)).
  assert (Em : matches (ru_w r') = matches (ru_w r)).
  { destruct Hl as (L1 & L2 & [L3 _]). destruct (write_end_ok cfg xmsg_size W1 W2 W3 hdepth tldepth (ru_fl r) h (ru_x r) sd xp now H L1 L2 L3 Hq) as (x' & res & h' & E' & K & _).
    cbn [w_step] in E. rewrite E' in E. injection E as <-. unfold matches, ru_w. simpl. by rewrite (ww_readers _ _ _ _ _ _ _ _ _ _ K). }
  pose proof (wk_match _ _ _ _ _ H) as Hm. rewrite Forall_forall in Hm. destruct (Hm n Hn) as (_ & B & _). destruct B as [B|B]; [|done].
  destruct (unacked_kept r' _ sd n R' Hlog) as [(nd & A1 & A2 & A3)|[Hp (l & Hlen & _ & Hlate)]]; [by rewrite Em|lia|done|by eexists _, nd|]. exfalso.
  rewrite <- Hlen in Hp. destruct l as [|y l]; [by apply Nat.lt_irrefl in Hp|]. destruct (Hlate y ltac:(by left)) as (Hlt & sd' & Hy & _). destruct (rk_hist _ _ _ _ _ R') as (h' & Hh' & H').
  destruct (ho_last _ _ _ _ _ _ (wk_whc _ _ _ _ _ H')) as [_ Hlast]. rewrite <- Hh' in Hy. specialize (Hlast _ _ Hy). pose proof (wk_last _ _ _ _ _ H'). lia.
Qed.

(** The number that [writer_max_drop_seq] reads off the root of the tree is
    the least one that the reliable readers not given up on have acknowledged,
    or the last one written when there are no such readers. *)
Theorem writer_max_drop_exact r : reachable r ->
  (forall n, n ∈ matches (ru_w r) -> rn_seq n <> MAX_SEQ_NUMBER -> writer_max_drop_seq (ru_w r) <= rn_seq n) /\
  ((exists n, n ∈ matches (ru_w r) /\ rn_seq n <> MAX_SEQ_NUMBER /\ rn_seq n = writer_max_drop_seq (ru_w r)) \/
   (forall n, n ∈ matches (ru_w r) -> rn_seq n = MAX_SEQ_NUMBER) /\ writer_max_drop_seq (ru_w r) = wr_seq (ru_w r)).
Proof.
  intros Hr. destruct (reachable_hist r Hr) as (h & _ & H & _). pose proof (wk_xmit _ _ _ _ _ H).
  destruct (max_drop_spec cfg (ru_w r) (wk_readers _ _ _ _ _ H) (wk_match _ _ _ _ _ H) (wk_seq _ _ _ _ _ H)) as (B0 & B1 & B2); [lia|]. split; [done|].
  destruct (decide (Forall (fun n => rn_seq n = MAX_SEQ_NUMBER) (matches (ru_w r)))) as [Hall|Hsome].
  - right. rewrite Forall_forall in Hall. split; [done|]. destruct B2 as [?|(n & Hn & Hne & _)]; [done|]. by specialize (Hall n Hn).
  - left. destruct B2 as [E|B2]; [|done]. apply not_Forall_Exists in Hsome; [|apply _]. apply Exists_exists in Hsome as (n & Hn & Hne). simpl in Hne. exists n. split; [done|]. split; [done|].
    pose proof (wk_match _ _ _ _ _ H) as Hm. rewrite Forall_forall in Hm. destruct (Hm n Hn) as (_ & B & _). destruct B as [B|B]; [|done]. specialize (B1 n Hn Hne). lia.
Qed.


(** The first number of a heartbeat is that of the oldest sample in the
    history cache, and every sample of the cache that was sent is in its range;
    without samples the range is empty, and it never ends after the last sample
    written. *)
Theorem writer_heartbeat_range r issync : reachable r -> 1 <= wr_seq (ru_w r) -> exists a b, heartbeat_range cfg (ru_w r) issync = Some (a, b) /\ 1 <= a <= b + 1 /\ b <= wr_seq (ru_w r) /\
  (forall q, is_Some (whc_findseq (wr_whc (ru_w r)) q) -> a <= q) /\
  ((exists q, is_Some (whc_findseq (wr_whc (ru_w r)) q)) -> is_Some (whc_findseq (wr_whc (ru_w r)) a)) /\
  (issync = true -> b = wr_seq (ru_w r)) /\ (forall q, is_Some (whc_findseq (wr_whc (ru_w r)) q) -> q <= wr_seq_xmit (ru_w r) -> q <= b).
Proof.
  intros Hr H1. destruct (reachable_hist r Hr) as (h & _ & H & _). destruct (heartbeat_range_ok cfg hdepth tldepth h (ru_w r) issync H) as (a & b & E & R1 & R2 & R3 & R4 & R5 & R6); [by left|].
  pose proof (fun q => cache_find cfg hdepth tldepth h (wr_whc (ru_w r)) q (wk_whc _ _ _ _ _ H)) as F. exists a, b. split; [done|]. split; [done|]. split; [done|]. split; [intros q Hq; by apply R3, F|]. split.
  - intros [q Hq]. apply F, R4. apply F in Hq. intros En. rewrite En in Hq. by apply elem_of_nil in Hq.
  - split; [done|]. intros q Hq. by apply R6, F.
Qed.

(** A heartbeat goes to one reader instead of to all only if exactly one
    reliable reader has not acknowledged everything; when all readers are
    reliable it goes to that one. *)
Theorem writer_heartbeat_destination r g : reachable r -> heartbeat_destination (ru_w r) = Some (Some g) ->
  length (filter (fun n => pending (wr_seq (ru_w r)) n) (matches (ru_w r))) = 1%nat /\
  (Forall (fun n => rn_is_reliable n = true) (matches (ru_w r)) -> exists n, rn_prd_guid n = g /\ filter (fun n => pending (wr_seq (ru_w r)) n) (matches (ru_w r)) = [n]).
Proof.
  intros Hr E. destruct (reachable_hist r Hr) as (h & _ & H & _). destruct (heartbeat_destination_ok cfg hdepth tldepth h (ru_w r) H) as (d & E' & Hd). rewrite E in E'. injection E' as <-.
  destruct (Hd g eq_refl) as (A & n & _ & Hg & B). split; [done|]. intros Hall. exists n. auto.
Qed.

(** ** Answers *)

Lemma reachable_loop r snset base nb prd sync now : reachable r -> wr_reliable (ru_w r) = true -> wr_state (ru_w r) <> WRST_DELETING -> set_ok (ss_numbits snset) (ss_bits snset) -> 1 <= base -> 0 <= nb ->
  exists h l i, ok h (ru_w r) /\ acknack_loop cfg xmsg_size (Z.to_nat nb) (init_loop (ru_x r)) snset base nb 0 prd sync now = Some l /\
    loop_inv cfg hdepth tldepth (ru_fl r) h (ru_x r) snset base prd sync now i l /\ 0 <= i <= nb /\ (rl_enqueued l = true -> i = nb \/ wr_seq_xmit (ru_w r) < base + i).
Proof.
  intros Hr Hrel Hst Hset Hb Hnb. destruct (reachable_hist r Hr) as (h & Hh & H & Hd & Hev). pose proof HW as [W1 W2 W3 W4 W5 W6]. unfold ru_w in *.
  assert (L0 : loop_inv cfg hdepth tldepth (ru_fl r) h (ru_x r) snset base prd sync now 0 (init_loop (ru_x r))) by (split; [by apply advances_refl|done|apply rexmits_refl|by apply gap_inv_init|lia|intros; lia]).
  destruct (acknack_loop_ok cfg xmsg_size W1 W2 hdepth tldepth (ru_fl r) h (ru_x r) snset base nb prd sync now (Z.to_nat nb) 0 (init_loop (ru_x r)) L0 H Hd Hrel) as (l & i & E & L & Hi & Hq); [by left|done|done|lia|lia|].
  exists h, l, i. split; [done|]. split; [done|]. split; [done|]. split; [lia|]. intros He. destruct (Hq He); [left; lia|by right].
Qed.

Abbreviation noted l := (gap_announces (rl_gapstart l) (rl_gapend l) (rl_gapnumbits l) (rl_gapbits l)).


Lemma gap_msg_in w prd start b nb bits q : in_s 64 start -> in_s 64 b -> nb <= 256 -> in_gap (gap_msg w prd start b nb bits) q <-> gap_announces start b nb bits q.
Proof.
  intros Hs Hb Hn. unfold in_gap, gap_announces, gap_msg. cbn [gp_gapStart gp_gapList ss_bitmap_base ss_numbits ss_bits]. rewrite !toSN_fromSN_inv by done.
  split; (intros [?|[? Hbit]]; [by left|right; split; [done|]]); rewrite bit_at_take in * by done; done.
Qed.

(** C10: the GAP that follows is queued for the reader, and announces to it every
    number that was noted as lost and no number that is in the history cache or
    has not been sent; provided that, if all numbers up to the last one sent were
    asked for and the last is lost, no sample waits to be sent. *)
Theorem writer_gap_exact r snset base nb prd sync now : reachable r -> wr_reliable (ru_w r) = true -> wr_state (ru_w r) <> WRST_DELETING ->
  set_ok (ss_numbits snset) (ss_bits snset) -> 1 <= base -> 0 <= nb -> prd_has_address prd = true ->
  exists l l', acknack_loop cfg xmsg_size (Z.to_nat nb) (init_loop (ru_x r)) snset base nb 0 prd sync now = Some l /\ acknack_gap ndebug l base (ss_numbits snset) prd = Some l' /\
    (rl_gapstart l <> -1 -> exists g ev, evq_non_timed_xmit_list (wx_evq (rl_st l')) = evq_non_timed_xmit_list (wx_evq (rl_st l)) ++ [ev] /\
       xm_submsgs (nt_msg ev) = [SmGap g] /\ xm_dst (nt_msg ev) = NN_XMSG_DST_ONE (guid_prefix (prd_guid prd)) /\ gp_readerId g = guid_entityid (prd_guid prd) /\
       ((rl_gapend l = base + ss_numbits snset -> rl_gapend l <= wr_seq_xmit (ru_w r) \/ forall q, is_Some (whc_findseq (wr_whc (ru_w r)) q) -> q <= wr_seq_xmit (ru_w r)) ->
         (forall q, in_gap g q -> base <= q <= wr_seq_xmit (ru_w r) /\ whc_findseq (wr_whc (ru_w r)) q = None) /\ (forall q, noted l q -> in_gap g q))).
Proof.
  intros Hr Hrel Hst Hset Hb Hnb Had. destruct (reachable_loop r snset base nb prd sync now Hr Hrel Hst Hset Hb Hnb) as (h & l & i & H & E & L & Hi & Hq). pose proof HW as [W1 W2 W3 W4 W5 W6].
  pose proof (so_few _ _ Hset) as Hfew. destruct (acknack_gap_ok cfg ndebug xmsg_size W1 W2 hdepth tldepth (ru_fl r) h (ru_x r) snset base prd sync now i l L H Hb ltac:(lia)) as (l' & E' & _ & _ & _ & Hg).
  exists l, l'. split; [done|]. split; [done|]. intros Hne. destruct (Hg Hne Had) as (b & nb' & bits & m & Ep & Hsub & Hdst & Hlist).
  destruct (gap_params_ok cfg ndebug W2 hdepth tldepth (ru_fl r) h (ru_x r) snset base prd sync now i l L H Hb ltac:(lia) Hne) as (b2 & nb2 & bits2 & Ep2 & Hnb2 & Hlen2 & Hst2 & Hi2 & Hgp).
  rewrite Ep in Ep2. injection Ep2 as <- <- <-. eexists _, _. split; [exact Hlist|]. split; [exact Hsub|]. split; [done|]. split; [done|]. intros Hgrow.
  pose proof (fun q => cache_find cfg hdepth tldepth h (wr_whc (ru_w r)) q (wk_whc _ _ _ _ _ H)) as F. destruct Hgp as (G1 & G2 & G3).
  { intros Ee. unfold growable. destruct (Hgrow Ee) as [?|Hall]; [by left|right]. intros q Hin. apply Hall. by apply F. }
  pose proof (wk_xmit _ _ _ _ _ H) as Hx. pose proof (wk_seq _ _ _ _ _ H) as Hsq. unfold ru_w in *.
  assert (Hin : forall q, in_gap (gap_msg (wx_wr (ru_x r)) prd (rl_gapstart l) b nb' bits) q <-> gap_announces (rl_gapstart l) b nb' bits q) by (intros q; apply gap_msg_in; [unfold in_s, MAX_SEQ_NUMBER in *; lia..|lia]).
  split; intros q; rewrite Hin; [|apply G2]. intros Hq'. destruct (G1 q Hq') as [A B]. split; [done|]. destruct (whc_findseq _ q) eqn:Ef; [|done]. destruct B. apply F. eauto.
Qed.

(** A retransmission that is offered to the queue is dropped only when the
    queue is full and holds no message for the same fragment; otherwise a
    message is in the queue afterwards that reaches its destinations, as do the
    ones that were there, and each fragment has one message in the queue. *)
Theorem writer_rexmit_queue r msg force : reachable r -> rexmit_ok msg -> exists q' res, qxev_msg_rexmit_wrlock_held xmsg_size true (wx_evq (ru_x r)) msg force = Some (q', res) /\
  (forall m, queued (wx_evq (ru_x r)) m -> queued q' m) /\
  (res <> 0 /\ queued q' msg \/ res = 0 /\ q' = wx_evq (ru_x r) /\
     (evq_max_queued_rexmit_bytes q' < evq_queued_rexmit_bytes q' \/ evq_queued_rexmit_msgs q' = evq_max_queued_rexmit_msgs q')) /\
  (forall e1 e2, e1 ∈ evq_non_timed_xmit_list q' -> e2 ∈ evq_non_timed_xmit_list q' -> is_rexmit e1 = true -> is_rexmit e2 = true -> xm_key (nt_msg e1) = xm_key (nt_msg e2) -> nt_id e1 = nt_id e2).
Proof.
  intros Hr Hm. destruct (reachable_hist r Hr) as (h & _ & _ & _ & Hev). destruct (qxev_rexmit_ok xmsg_size (wg_size _ _ _ _ _ _ HW) (ru_fl r) (wx_evq (ru_x r)) msg force Hev Hm) as (q' & res & E & Hq' & Hres). exists q', res. split; [done|].
  destruct (rexmit_result_queued xmsg_size (wg_size _ _ _ _ _ _ HW) _ _ _ _ Hm Hres) as [K1 K2]. split; [exact K1|]. split.
  - destruct (decide (res = 0)) as [->|Hne]; [right|left; auto]. inversion Hres; subst. done.
  - intros e1 e2 H1 H2 R1 R2 Hk. assert (A1 : evq_msg_xevents q' !! xm_key (nt_msg e1) = Some (nt_id e1)) by (apply (eo_tree _ _ Hq'); exists e1; done).
    assert (A2 : evq_msg_xevents q' !! xm_key (nt_msg e2) = Some (nt_id e2)) by (apply (eo_tree _ _ Hq'); exists e2; done). rewrite Hk, A2 in A1. by injection A1 as <-.
Qed.

(** C29: for a fragment size below 64 kB and a sample that is larger than it, but
    by at least a fragment smaller than 4 GB, the fragments are consecutive
    non-empty parts that make up all of the sample, and the receiver of the
    DATAFRAG that carries one takes exactly this part from it. *)
Theorem writer_fragments_received w seq sd prd : sd_ok sd -> wc_fragment_size cfg < 2 ^ 16 -> wc_fragment_size cfg < sd_size sd -> sd_size sd + wc_fragment_size cfg < 2 ^ 32 ->
  frag_start cfg 0 = 0 /\ frag_end cfg sd (num_fragments cfg sd - 1) = sd_size sd /\
  forall i, 0 <= i < num_fragments cfg sd -> frag_start cfg i < frag_end cfg sd i /\ (i + 1 < num_fragments cfg sd -> frag_end cfg sd i = frag_start cfg (i + 1)) /\
    exists fnum nfr fsz ssz len, xd_frag (fragment_submsg cfg w seq sd i prd) = Some (fnum, nfr, fsz, ssz) /\ xd_payload (fragment_submsg cfg w seq sd i prd) = Some (frag_start cfg i, len) /\
      forall hdr datap, 0 <= datap -> fragment_range (MkDataFrag hdr fnum nfr fsz ssz) (datap + len) datap = (frag_start cfg i, frag_end cfg sd i).
Proof.
  intros Hsd H16 Hf H32. pose proof (wg_fragment_size _ _ _ _ _ _ HW) as Hfs. destruct (num_fragments_spec cfg Hfs sd) as (N1 & N2 & N3); [lia|lia|]. specialize (N3 ltac:(lia)).
  split; [unfold frag_start; lia|]. split; [unfold frag_end; lia|]. intros i Hi. destruct (fragment_submsg_spec cfg Hfs w seq sd i prd Hsd Hf H16 H32 Hi) as (A & B & C). split; [lia|]. split; [unfold frag_end, frag_start; nia|].
  eexists _, _, _, _, _. split; [exact A|]. split; [exact B|]. intros hdr datap Hd. apply fragment_received; try done. lia.
Qed.
End Claims.

(** ** Witnesses *)

Lemma demo_setting : writer_setting demo_cfg true demo_size demo_guid demo_qos false.
Proof. split; [intros m; unfold demo_size; lia|vm_compute; reflexivity|split; vm_compute; discriminate|discriminate|discriminate|done]. Qed.

Abbreviation demo_reaches := (writer_reaches (T := AvlTree) demo_cfg true demo_size demo_lookup demo_guid demo_qos false 100000 200).

Lemma demo_reachable : demo_reaches demo_run.
Proof. apply (writer_runs_reaches _ _ _ _ _ _ _ _ _ demo_ops), demo_run_eq. Qed.

(** The reader that has lost samples. *)
Definition demo_reader : wr_prd_match := WrPrdMatch (prd_guid (demo_prd 2 true)) false false true 0 2 (- 2 ^ 31) 60 1.

Lemma demo_reader_in : demo_reader ∈ matches (ru_w demo_run).
Proof. vm_compute. right. left. Qed.

(** It has got sample 1 now, which is no longer in the cache. *)
Definition demo_acked_ops : list writer_op := demo_ops ++ [OpAckNack true (Some (demo_prd 2 true)) (demo_acknack 2 0 [] 2) 70 (fun _ => 70)].
Definition demo_acked : wrun (T := AvlTree) := Eval vm_compute in match demo_runs demo_acked_ops with Some r => r | None => demo_run end.

Lemma demo_acked_reachable : demo_reaches demo_acked.
Proof. apply (writer_runs_reaches _ _ _ _ _ _ _ _ _ demo_acked_ops). vm_compute. reflexivity. Qed.

(** One of two readers has acknowledged the only sample. *)
Definition demo_one_ops : list writer_op :=
  [OpConnect (demo_prd 1 true); OpConnect (demo_prd 2 true); OpWrite (demo_data 5 250) false 20; OpTransmitted (demo_sent 1); OpAckNack true (Some (demo_prd 1 true)) (demo_acknack 2 0 [] 1) 50 (fun _ => 50)].
Definition demo_one : wrun (T := AvlTree) := Eval vm_compute in match demo_runs demo_one_ops with Some r => r | None => demo_run end.

Lemma demo_one_reachable : demo_reaches demo_one.
Proof. apply (writer_runs_reaches _ _ _ _ _ _ _ _ _ demo_one_ops). vm_compute. reflexivity. Qed.

Lemma writer_never_fails_witness : exists r', w_step demo_cfg true demo_size demo_lookup demo_run (OpDisconnect (demo_prd 2 true) 70) = Some r' /\ check_whc (wr_whc (ru_w r')) = true.
Proof. apply (writer_never_fails _ _ _ _ _ _ _ _ _ demo_setting demo_run _ demo_reachable). simpl. lia. Defined.

Lemma writer_keeps_unacked_witness : exists nd, whc_findseq (wr_whc (ru_w demo_run)) 1 = Some nd /\ nd_serdata nd = demo_data 5 2500 /\ nd_unacked nd = true.
Proof.
  destruct (writer_keeps_unacked _ _ _ _ _ _ _ _ _ demo_setting demo_run 1 (demo_data 5 2500) demo_reader demo_reachable) as [H|[H _]]; [vm_compute; reflexivity|apply demo_reader_in|reflexivity|discriminate|exact H|].
  vm_compute in H. lia.
Defined.

Lemma writer_stores_written_witness : exists r' nd, w_step demo_cfg true demo_size demo_lookup demo_run (OpWrite (demo_data 9 10) false 80) = Some r' /\ wr_seq (ru_w r') = wr_seq (ru_w demo_run) + 1 /\ matches (ru_w r') = matches (ru_w demo_run) /\
  whc_findseq (wr_whc (ru_w r')) (wr_seq (ru_w r')) = Some nd /\ nd_serdata nd = demo_data 9 10 /\ nd_unacked nd = true.
Proof.
  apply (writer_stores_written _ _ _ _ _ _ _ _ _ demo_setting demo_run _ _ _ demo_reachable).
  - apply legal_opb_ok. vm_compute. reflexivity.
  - exists demo_reader. split; [apply demo_reader_in|discriminate].
Defined.

Lemma writer_max_drop_exact_witness : writer_max_drop_seq (ru_w demo_run) <= 0.
Proof. destruct (writer_max_drop_exact _ _ _ _ _ _ _ _ _ demo_setting demo_run demo_reachable) as [H _]. apply (H demo_reader); [apply demo_reader_in|discriminate]. Defined.


Lemma writer_heartbeat_range_witness : exists a b, heartbeat_range demo_cfg (ru_w demo_run) true = Some (a, b) /\ 1 <= a <= b + 1 /\ b = 3.
Proof.
  destruct (writer_heartbeat_range _ _ _ _ _ _ _ _ _ demo_setting demo_run true demo_reachable) as (a & b & E & H & _ & _ & _ & Hb & _); [vm_compute; discriminate|]. exists a, b. split; [exact E|]. split; [exact H|]. apply (Hb eq_refl).
Defined.

Lemma writer_heartbeat_destination_witness : length (filter (fun n => pending (wr_seq (ru_w demo_one)) n) (matches (ru_w demo_one))) = 1%nat.
Proof. apply (writer_heartbeat_destination _ _ _ _ _ _ _ _ _ demo_setting demo_one (prd_guid (demo_prd 2 true)) demo_one_reachable). vm_compute. reflexivity. Defined.

(** The set of samples 1 and 2. *)
Definition demo_set : sequence_number_set := SequenceNumberSet (toSN 1) 2 [0xc0000000].

Lemma demo_set_ok : set_ok (ss_numbits demo_set) (ss_bits demo_set).
Proof. apply set_okb_ok. vm_compute. reflexivity. Qed.


Lemma writer_gap_exact_witness : exists l l' g ev, acknack_loop demo_cfg demo_size 2 (init_loop (ru_x demo_acked)) demo_set 1 2 0 (demo_prd 2 true) false (fun _ => 80) = Some l /\
  acknack_gap true l 1 2 (demo_prd 2 true) = Some l' /\ ev ∈ evq_non_timed_xmit_list (wx_evq (rl_st l')) /\ xm_submsgs (nt_msg ev) = [SmGap g] /\ in_gap g 1 /\ ~ in_gap g 2.
Proof.
  destruct (writer_gap_exact _ _ _ _ _ _ _ _ _ demo_setting demo_acked demo_set 1 2 (demo_prd 2 true) false (fun _ => 80) demo_acked_reachable) as (l & l' & E & E' & H);
    [reflexivity|discriminate|apply demo_set_ok|lia|lia|reflexivity|]. assert (Hl : rl_gapstart l = 1 /\ rl_gapend l = 2 /\ rl_gapnumbits l = 0) by (vm_compute in E; injection E as <-; repeat split; reflexivity).
  destruct Hl as (Hs & He & Hn). destruct H as (g & ev & Hev & Hsub & _ & _ & Hg); [rewrite Hs; discriminate|]. destruct Hg as [G1 G2]; [rewrite He; discriminate|]. exists l, l', g, ev. split; [exact E|]. split; [exact E'|].
  split; [rewrite Hev; apply elem_of_app; right; left|]. split; [exact Hsub|]. split; [apply G2; left; lia|]. intros H2. destruct (G1 2 H2) as [_ F]. vm_compute in F. discriminate.
Defined.

(** A retransmission of sample 3 to the second reader. *)
Definition demo_rexmit : nn_xmsg := match create_fragment_message demo_cfg (ru_w demo_run) 3 (demo_data 5 400) 0 (Some (demo_prd 2 true)) false with Some (inl m) => m | _ => demo_sent 3 end.

Lemma demo_rexmit_ok : rexmit_ok demo_rexmit.
Proof. split; vm_compute; try reflexivity; try discriminate; eauto. Qed.

Lemma writer_rexmit_queue_witness : exists q' res, qxev_msg_rexmit_wrlock_held demo_size true (wx_evq (ru_x demo_run)) demo_rexmit false = Some (q', res).
Proof. destruct (writer_rexmit_queue _ _ _ _ _ _ _ _ _ demo_setting demo_run demo_rexmit false demo_reachable demo_rexmit_ok) as (q' & res & E & _). exists q', res. exact E. Defined.

Lemma writer_fragments_received_witness : frag_end demo_cfg (demo_data 5 2500) 2 = 2500.
Proof.
  apply (writer_fragments_received _ _ _ _ _ _ demo_setting (ru_w demo_run) 1 (demo_data 5 2500) None); [split; simpl; [lia|discriminate]|reflexivity|reflexivity|reflexivity].
Defined.
