(* ===== verification/WriterFindings.v ===== *)
(** * Where writers do not do what they mean to

    Each theorem is about a state that a writer reaches: a GAP for a sample that
    is in the history cache, a heartbeat to a reader that does not answer it, a
    writer that blocks although all is acknowledged, a message from a reader
    after which a heartbeat fails an assertion, and one that acknowledges
    everything by an overflow. *)

From Stdlib Require Import ZArith Lia.
From stdpp Require Import prelude gmap.
From S2P Require Import Prelude OrdTree Avl AvlProps Bitset Defrag Reorder ReorderRun Time Wire Protocol ProtocolProps ReceiveGap Whc WhcFacts WrReaders WrReadersFacts Xmsg XmsgFacts Writer WriterSend WriterReply WriterFacts WriterRun WriterClaims.

Abbreviation reaches_with qos := (writer_reaches (T := AvlTree) demo_cfg true demo_size demo_lookup demo_guid qos false 100000 200).
Abbreviation runs_with qos := (writer_runs (T := AvlTree) demo_cfg true demo_size demo_lookup demo_guid qos false 100000 200).
Abbreviation step_with := (w_step (T := AvlTree) demo_cfg true demo_size demo_lookup).

(** The state after operations that succeed. *)
Definition after_ops (qos : writer_qos) (ops : list writer_op) : wrun (T := AvlTree) := match runs_with qos ops with Some r => r | None => demo_run end.

Lemma after_ops_reaches qos ops : bool_decide (is_Some (runs_with qos ops)) = true -> reaches_with qos (after_ops qos ops).
Proof. intros [r E]%bool_decide_eq_true. apply (writer_runs_reaches _ _ _ _ _ _ _ _ _ ops). unfold after_ops. by rewrite E. Qed.

(** ** A GAP *)

(** A writer that keeps one sample of each instance sends sample 1 of an instance
    and 2 of another, and writes 3 of that one; the reader has lost 1 and 2. *)
Definition last_one_qos : writer_qos := WriterQos true NN_VOLATILE_DURABILITY_QOS (Some 1%nat) None.
Definition gapped_ops : list writer_op :=
  [OpConnect (demo_prd 1 true); OpWrite (demo_data 5 250) false 20; OpWrite (demo_data 6 300) false 30; OpTransmitted (demo_sent 2); OpWrite (demo_data 6 400) false 40].
Definition gapped_nack : writer_op := OpAckNack true (Some (demo_prd 1 true)) (demo_acknack 1 2 [0xc0000000] 1) 60 (fun _ => 60).

(** When the last sample that was sent is lost and a later one waits to be
    sent, the end of the gap moves back instead of up: the GAP announces a sample
    that is in the history cache, that the reader lacks and that the same answer
    retransmits, and not the one that is lost. *)
Theorem gap_of_stored_sample : exists r r' ev g, reaches_with last_one_qos r /\ legal_op demo_cfg r gapped_nack /\ step_with r gapped_nack = Some r' /\
  ev ∈ evq_non_timed_xmit_list (wx_evq (ru_x r')) /\ xm_submsgs (nt_msg ev) = [SmGap g] /\ in_gap g 1 /\ is_Some (whc_findseq (wr_whc (ru_w r)) 1) /\ ~ in_gap g 2 /\ whc_findseq (wr_whc (ru_w r)) 2 = None.
Proof.
  exists (after_ops last_one_qos gapped_ops), (after_ops last_one_qos (gapped_ops ++ [gapped_nack])).
  exists (default (XeventNt 0 (demo_sent 0) 0) (evq_non_timed_xmit_list (wx_evq (ru_x (after_ops last_one_qos (gapped_ops ++ [gapped_nack])))) !! 4%nat)).
  exists (MkGap 0x107 0x102 (toSN 2) (SequenceNumberSet (toSN 1) 1 [0x80000000])).
  split; [by apply after_ops_reaches; vm_compute|]. split; [apply legal_opb_ok; vm_compute; reflexivity|]. split; [vm_compute; reflexivity|].
  split; [apply (list_elem_of_lookup_2 _ 4); vm_compute; reflexivity|]. split; [vm_compute; reflexivity|]. split; [right; split; [split; vm_compute; congruence|vm_compute; reflexivity]|].
  split; [vm_compute; eauto|]. split; [|vm_compute; reflexivity]. intros [H|[H _]]; vm_compute in H; destruct H as [H1 H2]; congruence.
Qed.

(** ** A heartbeat *)

(** Of four readers, one of them best-effort, two have acknowledged both samples
    and one the first. *)
Definition lagging_ops : list writer_op :=
  [OpConnect (demo_prd 3 true); OpConnect (demo_prd 2 false); OpConnect (demo_prd 4 true); OpConnect (demo_prd 1 true);
   OpWrite (demo_data 5 250) false 20; OpWrite (demo_data 5 250) false 20; OpTransmitted (demo_sent 2);
   OpAckNack true (Some (demo_prd 1 true)) (demo_acknack 2 0 [] 1) 50 (fun _ => 50);
   OpAckNack true (Some (demo_prd 3 true)) (demo_acknack 3 0 [] 1) 50 (fun _ => 50);
   OpAckNack true (Some (demo_prd 4 true)) (demo_acknack 3 0 [] 1) 50 (fun _ => 50)].

(** With a best-effort reader among the readers, the one reader that has not
    acknowledged everything may not be the one that a heartbeat is sent to: it
    is sent to a best-effort reader, which does not answer. *)
Theorem heartbeat_to_best_effort_reader : exists r, reaches_with demo_qos r /\ heartbeat_destination (ru_w r) = Some (Some (prd_guid (demo_prd 2 false))) /\
  map rn_prd_guid (filter (fun n => pending (wr_seq (ru_w r)) n) (matches (ru_w r))) = [prd_guid (demo_prd 1 true)] /\
  map rn_prd_guid (filter (fun n => rn_is_reliable n = false) (matches (ru_w r))) = [prd_guid (demo_prd 2 false)].
Proof.
  exists (after_ops demo_qos lagging_ops). split; [by apply after_ops_reaches; vm_compute|]. repeat split; vm_compute; reflexivity.
Qed.

(** ** Throttling *)

(** A writer that keeps all samples for later readers. *)
Definition keep_all_qos : writer_qos := WriterQos true NN_TRANSIENT_LOCAL_DURABILITY_QOS None None.
(** Each of [n] samples is written, sent and acknowledged before the next. *)
Definition keep_all_ops (n : nat) : list writer_op :=
  OpConnect (demo_prd 1 true) ::
  flat_map (fun q => [OpWriteBegin (demo_data 5 1000) None false 20; OpWrite (demo_data 5 1000) false 20; OpTransmitted (demo_sent (Z.of_nat q));
                      OpAckNack true (Some (demo_prd 1 true)) (demo_acknack (Z.of_nat q + 1) 0 [] (Z.of_nat q)) 50 (fun _ => 50)]) (seq 1 n).

(** A transient-local writer whose durability service keeps all samples never
    counts a sample as acknowledged: it throttles the next one although its only
    reader has acknowledged everything, and gives up on no reader by it. *)
Theorem keep_all_throttles : exists r x, reaches_with keep_all_qos r /\ map rn_seq (matches (ru_w r)) = [wr_seq (ru_w r)] /\ writer_max_drop_seq (ru_w r) = wr_seq (ru_w r) /\
  write_begin demo_cfg (ru_x r) (demo_data 5 1000) None false 70 = Some (x, WriteThrottle) /\ writer_may_continue (wx_wr x) = false /\
  (exists x', throttle_end demo_cfg true x 80 = Some x' /\ matches (wx_wr x') = matches (ru_w r) /\ whc_unacked_bytes (wr_whc (wx_wr x')) = whc_unacked_bytes (wr_whc (ru_w r))).
Proof.
  exists (after_ops keep_all_qos (keep_all_ops 27)). eexists. split; [by apply after_ops_reaches; vm_compute|]. split; [vm_compute; reflexivity|]. split; [vm_compute; reflexivity|]. split; [vm_compute; reflexivity|].
  split; [vm_compute; reflexivity|]. eexists. split; [vm_compute; reflexivity|]. split; vm_compute; reflexivity.
Qed.

(** ** An early ACKNACK *)

(** A reader acknowledges sample 1 before anything is written; then one is written
    and another reader acknowledges it. *)
Definition early_ack : writer_op := OpAckNack true (Some (demo_prd 1 true)) (demo_acknack 2 0 [] 1) 50 (fun _ => 50).
Definition later_ops : list writer_op :=
  [OpWrite (demo_data 5 250) false 60; OpTransmitted (demo_sent 2); OpAckNack true (Some (demo_prd 2 true)) (demo_acknack 3 0 [] 1) 70 (fun _ => 70); OpEvent].

Definition early_run : wrun (T := AvlTree) := after_ops demo_qos [OpConnect (demo_prd 2 true); OpConnect (demo_prd 1 true)].
Definition run_all (r : wrun (T := AvlTree)) (ops : list writer_op) : option (wrun (T := AvlTree)) := foldl (fun o op => o ← o; step_with o op) (Some r) ops.

(** An ACKNACK for a sample that is yet to be written marks the reader as having
    replied to a heartbeat while it has acknowledged nothing; the next heartbeat
    then fails the assertion that a reader that lacks something is known. *)
Theorem early_ack_breaks_heartbeat : reaches_with demo_qos early_run /\ is_Some (run_all early_run (early_ack :: later_ops)) /\ run_all early_run (early_ack :: later_ops ++ [OpHeartbeat 200000000]) = None.
Proof. split; [by apply after_ops_reaches; vm_compute|]. split; [apply (bool_decide_eq_true (is_Some _)); vm_compute; reflexivity|vm_compute; reflexivity]. Qed.

(** ** A base that overflows *)

(** A reader has sample 1 to acknowledge, and sends an ACKNACK with an empty set
    that starts at the least number. *)
Definition unacked_run : wrun (T := AvlTree) := after_ops demo_qos [OpConnect (demo_prd 1 true); OpWrite (demo_data 5 250) false 20; OpTransmitted (demo_sent 1)].
Definition least_base : AckNack := demo_acknack (- 2 ^ 63) 0 [] 1.

(** [seqbase - 1] is then the greatest number: sample 1 counts as acknowledged,
    although the validator accepts the message. *)
Theorem least_base_acknowledges : reaches_with demo_qos unacked_run /\ acknack_ok least_base /\
  match step_with unacked_run (OpAckNack true (Some (demo_prd 1 true)) least_base 60 (fun _ => 60)) with
  | Some r => map rn_seq (matches (ru_w unacked_run)) = [0] /\ map rn_seq (matches (ru_w r)) = [1]
  | None => False
  end.
Proof. split; [by apply after_ops_reaches; vm_compute|]. split; [apply acknack_okb_ok; vm_compute; reflexivity|]. vm_compute. by split. Qed.
