(* ===== verification/AckNack.v ===== *)
(** * The acknowledgements of readers

    The ACKNACK event of a reader matched with a proxy writer: [add_AckNack],
    [next_deliv_seq] and [handle_xevk_acknack] of [q_xevent.c].  An ACKNACK
    acknowledges everything before its base and asks for what its bitmap marks;
    it is cut off at the first sample of which the defragmenter has a part, and
    a NACKFRAG asks for the fragments that sample lacks.

    It is the other end of [handle_AckNack] and [handle_NackFrag] of
    [WriterReply].  The records of the messages have the entity ids in host
    order.  The arguments [anbits] and [nfbits] are what the memory for the two
    bitmaps has in it; [lowword] is what is read of
    [pwr->next_deliv_seq_lowword] and [dq_full] whether the delivery queue is
    full at that moment. *)

From Stdlib Require Import ZArith Lia.
From stdpp Require Import prelude.
From S2P Require Import Prelude OrdTree Avl AvlProps Bitset Refs Defrag DefragFacts DefragOps DefragProps DefragNack Reorder ReorderFacts ReorderOps ReorderRun Rmsg Dqueue Time Wire Protocol ProtocolProps ProtocolClaims Receive ReceiveFacts ReceiveOps ReceiveRun ReceiveClaims WriterReply.



Section AckNack.
Context {T : Type -> Type} `{!OrdTree T}.
Context (cfg : ddsi_config).
(** [config.acknack_numbits_emptyset] and [config.auto_resched_nack_delay] *)
Context (acknack_numbits_emptyset auto_resched_nack_delay : Z).
(** The GUID of the proxy writer. *)
Context (pwr_guid : nn_guid).
Implicit Types (p : proxy_writer T) (wn : pwr_rd_match T).












End AckNack.

(** ** The next number to be delivered *)


Section AckNackProps.
Context {T : Type -> Type} `{!OrdTree T, !OrdTreeLaws T}.
Context `{FF : !FragFrom} (cfg : ddsi_config).
Context (acknack_numbits_emptyset auto_resched_nack_delay : Z) (pwr_guid : nn_guid).
Implicit Types (p : proxy_writer T) (wn : pwr_rd_match T).

(** ** The fragments of a sample *)












(** ** The ACKNACK *)

















(** ** The event *)

Abbreviation wkey := (@wn_key T cfg).









(** ** Theorems *)



End AckNackProps.

(** ** Witnesses *)

#[local] Instance asent : FragFrom := rsent.











