(* ===== verification/Lease.v ===== *)
(** * Leases

    The leases of entities, [q_lease.c]: an entity whose lease is not renewed
    in time is deleted.  A lease is on the heap for the time [tsched], which may
    be before its end [tend]: renewing a lease only moves [tend], and what
    checks the leases finds out when it gets there.  The heap is any
    [PrioHeap].

    [lease_renew] has only the lock of the lease, the other operations that of the
    heap too.  [lease_check_one] is one iteration of the loop of
    [check_and_handle_lease_expiration]: it has both for as long as it looks at
    the lease.  Where the loop gives up the lock of the heap to delete an entity
    the iteration ends. *)

From Stdlib Require Import ZArith Lia.
From stdpp Require Import prelude gmap.
From S2P Require Import Prelude Dqueue Time Wire Fibheap.

(** [TSCHED_NOT_ON_HEAP] is the absolute bottom of the signed integers. *)
Definition TSCHED_NOT_ON_HEAP : Z := - 2 ^ 63.

Inductive entity_kind :=
  EK_PARTICIPANT | EK_PROXY_PARTICIPANT | EK_WRITER | EK_PROXY_WRITER | EK_READER | EK_PROXY_READER.

#[global] Instance entity_kind_eq_dec : EqDecision entity_kind.
Proof. solve_decision. Defined.

(** What a lease looks at of its entity. *)
Record entity_common := Entity { e_kind : entity_kind; e_guid : nn_guid }.

Record lease := Lease {
  l_tsched : Z;
  l_tend : Z;
  l_tdur : Z;
  l_entity : entity_common }.

Definition set_tsched (t : Z) (l : lease) : lease := Lease t (l_tend l) (l_tdur l) (l_entity l).
Definition set_tend (t : Z) (l : lease) : lease := Lease (l_tsched l) t (l_tdur l) (l_entity l).

Definition compare_lease_tsched (a b : Z) : Z := if a =? b then 0 else if a <? b then -1 else 1.

(** Which of the locks is that of a lease. *)
Definition N_LEASE_LOCKS_LG2 : Z := 4.
Definition N_LEASE_LOCKS : Z := Z.shiftl 1 N_LEASE_LOCKS_LG2.
Definition lock_lease_addr (a : Z) : Z :=
  let u := wrap_u 16 (Z.shiftr a 3) in
  let v := wrap_u 32 (u * 0xb4817365) in
  Z.shiftr v (32 - N_LEASE_LOCKS_LG2).

Section Lease.
Context {H : Type} `{PrioHeap H}.

(** The leases there are, by address, and the heap. *)
Record lease_state := LS { ls_leases : gmap Z lease; ls_heap : H }.

Definition lease_tsched (ls : gmap Z lease) (a : Z) : Z :=
  match ls !! a with Some l => l_tsched l | None => TSCHED_NOT_ON_HEAP end.

Definition lease_fhdef (ls : gmap Z lease) : fhcmp :=
  fun a b => compare_lease_tsched (lease_tsched ls a) (lease_tsched ls b).

Definition lease_management_init : lease_state := LS ∅ ph_init.

Definition lease_management_term (st : lease_state) : option unit :=
  match ph_min (ls_heap st) with None => Some tt | Some _ => None end.

(** [p] is what [os_malloc] returns. *)
Definition lease_new (st : lease_state) (p : option Z) (texpire tdur : Z) (e : entity_common)
  : lease_state * option Z :=
  match p with
  | None => (st, None)
  | Some a => (LS (<[a := Lease TSCHED_NOT_ON_HEAP texpire tdur e]> (ls_leases st)) (ls_heap st), Some a)
  end.

(** Schedule a lease that is not on the heap for its end. *)
Definition lease_schedule (ls : gmap Z lease) (h : H) (a : Z) (l : lease) : option lease_state :=
  let ls := <[a := set_tsched (l_tend l) l]> ls in
  h ← ph_insert (lease_fhdef ls) h a;
  Some (LS ls h).

Definition lease_register (st : lease_state) (a : Z) : option lease_state :=
  l ← ls_leases st !! a;
  if l_tsched l =? TSCHED_NOT_ON_HEAP then
    if negb (l_tend l =? T_NEVER) then lease_schedule (ls_leases st) (ls_heap st) a l
    else Some st
  else None.

Definition lease_free (st : lease_state) (a : Z) : option lease_state :=
  l ← ls_leases st !! a;
  h ← (if negb (l_tsched l =? TSCHED_NOT_ON_HEAP)
       then ph_delete (lease_fhdef (ls_leases st)) (ls_heap st) a
       else Some (ls_heap st));
  Some (LS (delete a (ls_leases st)) h).

Definition lease_renew (st : lease_state) (a tnowE : Z) : option lease_state :=
  l ← ls_leases st !! a;
  tend_new ← add_duration_to_etime tnowE (l_tdur l);
  if (tend_new <=? l_tend l) || (tnowE >=? l_tend l) then Some st
  else Some (LS (<[a := set_tend tend_new l]> (ls_leases st)) (ls_heap st)).

Definition lease_set_expiry (st : lease_state) (a when : Z) : option lease_state :=
  if when >=? 0 then
    l ← ls_leases st !! a;
    let l := set_tend when l in
    let ls := <[a := l]> (ls_leases st) in
    if l_tend l <? l_tsched l then
      let ls := <[a := set_tsched (l_tend l) l]> ls in
      h ← ph_decrease (lease_fhdef ls) (ls_heap st) a;
      Some (LS ls h)
    else if (l_tsched l =? TSCHED_NOT_ON_HEAP) && (l_tend l <? T_NEVER) then
      lease_schedule ls (ls_heap st) a l
    else Some (LS ls (ls_heap st))
  else None.

(** [ephash g] is the privileged participant of the proxy participant [g], when
    there is such a proxy participant. *)
Definition privileged_live (ephash : nn_guid -> option nn_guid) (e : entity_common) : bool :=
  bool_decide (e_kind e = EK_PROXY_PARTICIPANT) &&
  match ephash (e_guid e) with
  | Some g => bool_decide (is_Some (ephash g))
  | None => false
  end.

(** What an iteration of the loop comes to: the loop ends, it goes on, or the
    entity of the lease at this address is deleted, without the lock. *)
Inductive check_result := CDone | CAgain | CExpired (a : Z) (e : entity_common).

Definition lease_check_one (ephash : nn_guid -> option nn_guid) (st : lease_state) (tnowE : Z)
  : option (lease_state * check_result) :=
  match ph_min (ls_heap st) with
  | None => Some (st, CDone)
  | Some a =>
    l ← ls_leases st !! a;
    if negb (l_tsched l <=? tnowE) then Some (st, CDone)
    else if l_tsched l =? TSCHED_NOT_ON_HEAP then None
    else
      '(h, _) ← ph_extract (lease_fhdef (ls_leases st)) (ls_heap st);
      if tnowE <? l_tend l then
        if l_tend l =? T_NEVER then
          Some (LS (<[a := set_tsched TSCHED_NOT_ON_HEAP l]> (ls_leases st)) h, CAgain)
        else
          st ← lease_schedule (ls_leases st) h a l;
          Some (st, CAgain)
      else if privileged_live ephash (l_entity l) then
        t ← add_duration_to_etime tnowE (200 * T_MILLISECOND);
        st ← lease_schedule (ls_leases st) h a (set_tend t l);
        Some (st, CAgain)
      else
        Some (LS (<[a := set_tsched TSCHED_NOT_ON_HEAP l]> (ls_leases st)) h,
              CExpired a (l_entity l))
  end.

(** The loop.  [deleted] is what happens to the leases, and to the proxy
    participants there are, while the entity is deleted; the result has the
    leases that expired, the last one first. *)
Fixpoint check_and_handle_lease_expiration (fuel : nat)
    (deleted : lease_state -> (nn_guid -> option nn_guid) -> Z -> entity_common ->
               lease_state * (nn_guid -> option nn_guid))
    (st : lease_state) (ephash : nn_guid -> option nn_guid) (tnowE : Z) (out : list Z)
  : option (lease_state * list Z) :=
  match fuel with
  | O => None
  | S fuel =>
    '(st, r) ← lease_check_one ephash st tnowE;
    match r with
    | CDone => Some (st, out)
    | CAgain => check_and_handle_lease_expiration fuel deleted st ephash tnowE out
    | CExpired a e =>
      let '(st, ephash) := deleted st ephash a e in
      check_and_handle_lease_expiration fuel deleted st ephash tnowE (a :: out)
    end
  end.

End Lease.
Arguments lease_state : clear implicits.
