(* ===== verification/LeaseProps.v ===== *)
(** * Leases expire when they should

    The invariant of the leases and their heap, runs of the lease
    administration, and the theorems: in every run each operation succeeds, a
    lease expires only after its end, and when a check is finished no lease
    that is still pending is past its end. *)

From Stdlib Require Import ZArith Lia.
From stdpp Require Import prelude gmap.
From S2P Require Import Prelude Dqueue Time Wire Fibheap FibheapProps Lease.

Section LeaseProps.
Context {H : Type} `{PrioHeapLaws H}.
Implicit Types (st : lease_state H) (ls : gmap Z lease) (h : H).

(** ** The invariant *)

Definition times_ok (l : lease) : Prop :=
  0 <= l_tend l <= T_NEVER /\ 0 <= l_tdur l <= T_NEVER /\
  (l_tsched l = TSCHED_NOT_ON_HEAP \/ 0 <= l_tsched l <= l_tend l).

(** The heap has exactly the leases that are scheduled. *)
Abbreviation heap_right := (keyed_ok l_tsched TSCHED_NOT_ON_HEAP).
Abbreviation heap_but := (keyed_but l_tsched TSCHED_NOT_ON_HEAP).

Definition lease_ok st : Prop :=
  heap_right (ls_leases st) (ls_heap st) /\ forall a l, ls_leases st !! a = Some l -> times_ok l.

(** There is room for the leases on the heap. *)
Definition lease_room st : Prop := Z.of_nat (size (ls_leases st)) < HEAP_CAPACITY.

Lemma lease_cmp_ok ls : cmp_ok (key_of l_tsched TSCHED_NOT_ON_HEAP ls) (lease_fhdef ls).
Proof. apply cmp3_ok. Qed.

Lemma times_insert ls a l :
  (forall x l, ls !! x = Some l -> times_ok l) -> times_ok l ->
  forall x l', <[a := l]> ls !! x = Some l' -> times_ok l'.
Proof. intros Ht Hl x l' Hx. apply lookup_insert_Some in Hx as [[_ <-]|[_ Hx]]; eauto. Qed.

(** The lease goes onto the heap for its end. *)
Lemma lease_schedule_ok a ls h l :
  heap_but a ls h -> (forall x l, ls !! x = Some l -> times_ok l) ->
  0 <= l_tend l <= T_NEVER -> 0 <= l_tdur l <= T_NEVER ->
  exists h', lease_schedule ls h a l = Some (LS (<[a := set_tsched (l_tend l) l]> ls) h') /\
             lease_ok (LS (<[a := set_tsched (l_tend l) l]> ls) h').
Proof.
  intros Hb Ht Hend Hdur. unfold lease_schedule.
  destruct (keyed_put_on l_tsched TSCHED_NOT_ON_HEAP a ls h (set_tsched (l_tend l) l)
    (lease_fhdef (<[a := set_tsched (l_tend l) l]> ls)) Hb) as (h' & -> & Hok).
  { unfold TSCHED_NOT_ON_HEAP. simpl. lia. }
  { apply lease_cmp_ok. }
  exists h'. split; [done|]. split; [done|]. simpl. apply times_insert; [done|].
  unfold times_ok. simpl. lia.
Qed.

(** A change that does not move the lease on the heap. *)
Lemma retime_ok st a l l' :
  lease_ok st -> ls_leases st !! a = Some l -> l_tsched l' = l_tsched l -> times_ok l' ->
  lease_ok (LS (<[a := l']> (ls_leases st)) (ls_heap st)).
Proof.
  intros (Hh & Ht) Ha Hl Htl. split; simpl; [by eapply keyed_same|by apply times_insert].
Qed.

Lemma room_few st : lease_ok st -> lease_room st -> few (ls_heap st).
Proof. intros (Hh & _) Hr. by eapply keyed_few. Qed.

(** ** The operations *)

(** The lease is on the heap or never ends. *)
Definition watched st (a : Z) : Prop :=
  exists l, ls_leases st !! a = Some l /\ (l_tend l = T_NEVER \/ l_tsched l <> TSCHED_NOT_ON_HEAP).

Lemma sched_off t : 0 <= t -> t <> TSCHED_NOT_ON_HEAP.
Proof. unfold TSCHED_NOT_ON_HEAP. lia. Qed.

Lemma lease_new_ok st a texpire tdur e :
  lease_ok st -> ls_leases st !! a = None -> 0 <= texpire <= T_NEVER -> 0 <= tdur <= T_NEVER ->
  exists st', lease_new st (Some a) texpire tdur e = (st', Some a) /\ lease_ok st' /\
    ls_leases st' = <[a := Lease TSCHED_NOT_ON_HEAP texpire tdur e]> (ls_leases st).
Proof.
  intros [Hok Ht] Ha He Hd. eexists. split; [done|]. split; [|done]. split; simpl.
  - apply keyed_put_off; [by apply keyed_absent|done].
  - apply times_insert; [done|]. unfold times_ok. simpl. auto.
Qed.

Lemma lease_register_ok st a l :
  lease_ok st -> ls_leases st !! a = Some l -> l_tsched l = TSCHED_NOT_ON_HEAP ->
  exists st' l', lease_register st a = Some st' /\ lease_ok st' /\
    ls_leases st' = <[a := l']> (ls_leases st) /\ watched st' a.
Proof.
  intros Hok Ha Hl. unfold lease_register. rewrite Ha. cbn [mbind option_bind].
  rewrite (proj2 (Z.eqb_eq _ _) Hl). pose proof (proj2 Hok _ _ Ha) as (He & Hd & _).
  destruct (Z.eqb_spec (l_tend l) T_NEVER) as [Hn|Hn]; simpl.
  - exists st, l. rewrite insert_id by done. split_and!; try done. exists l. auto.
  - destruct (lease_schedule_ok a (ls_leases st) (ls_heap st) l) as (h' & -> & Hok');
      [by eapply keyed_off; [apply Hok|..]|apply Hok|done|done|].
    eexists _, _. split_and!; [done|done|done|]. eexists. split; [apply lookup_insert_eq|].
    right. apply sched_off. simpl. lia.
Qed.

Lemma lease_free_ok st a l :
  lease_ok st -> lease_room st -> ls_leases st !! a = Some l ->
  exists st', lease_free st a = Some st' /\ lease_ok st' /\ ls_leases st' = delete a (ls_leases st).
Proof.
  intros Hok Hr Ha. unfold lease_free. rewrite Ha. cbn [mbind option_bind].
  destruct (Z.eqb_spec (l_tsched l) TSCHED_NOT_ON_HEAP) as [Hl|Hl]; simpl.
  - eexists. split; [done|]. split; [|done]. split; simpl.
    + eapply keyed_forget, keyed_off; [apply Hok|done..].
    + intros x l' Hx. apply lookup_delete_Some in Hx as [_ Hx]. by eapply (proj2 Hok).
  - destruct (keyed_delete l_tsched TSCHED_NOT_ON_HEAP (ls_leases st) (ls_heap st) a l
      (lease_fhdef (ls_leases st)) (proj1 Hok)) as (h' & -> & Hb); [apply lease_cmp_ok|by apply room_few|done..|].
    eexists. split; [done|]. split; [|done]. split; simpl; [by apply keyed_forget|].
    intros x l' Hx. apply lookup_delete_Some in Hx as [_ Hx]. by eapply (proj2 Hok).
Qed.

Lemma lease_renew_ok st a l tnowE :
  lease_ok st -> ls_leases st !! a = Some l -> 0 <= tnowE <= T_NEVER ->
  exists st' t, lease_renew st a tnowE = Some st' /\ lease_ok st' /\
    ls_leases st' = <[a := set_tend t l]> (ls_leases st) /\
    t = (if (tnowE <? l_tend l) then Z.max (l_tend l) (Z.min (tnowE + l_tdur l) T_NEVER) else l_tend l).
Proof.
  intros Hok Ha Ht. unfold lease_renew. rewrite Ha. cbn [mbind option_bind].
  pose proof (proj2 Hok _ _ Ha) as (He & Hd & Hs).
  unfold add_duration_to_etime. rewrite add_duration_spec by done. cbn [mbind option_bind].
  rewrite Z.geb_leb.
  destruct (Z.leb_spec (Z.min (tnowE + l_tdur l) T_NEVER) (l_tend l)) as [Hle|Hle]; simpl.
  - exists st, (l_tend l). split_and!; [done|done| |destruct (tnowE <? l_tend l); lia].
    by rewrite insert_id; destruct l.
  - destruct (Z.leb_spec (l_tend l) tnowE) as [Hx|Hx].
    + exists st, (l_tend l). rewrite (proj2 (Z.ltb_ge _ _) Hx). split_and!; [done|done| |done].
      by rewrite insert_id; destruct l.
    + rewrite (proj2 (Z.ltb_lt _ _) Hx). eexists _, _. split_and!; [done| |done|].
      * eapply retime_ok; [done|done|done|]. unfold times_ok. simpl. lia.
      * lia.
Qed.

Lemma lease_set_expiry_ok st a l t :
  lease_ok st -> ls_leases st !! a = Some l -> 0 <= t <= T_NEVER ->
  exists st' l', lease_set_expiry st a t = Some st' /\ lease_ok st' /\
    ls_leases st' = <[a := l']> (ls_leases st) /\ l_tend l' = t /\ watched st' a.
Proof.
  intros Hok Ha Ht. unfold lease_set_expiry. rewrite Z.geb_leb, (proj2 (Z.leb_le _ _)) by lia.
  rewrite Ha. cbn [mbind option_bind]. pose proof (proj2 Hok _ _ Ha) as (He & Hd & Hs).
  simpl. set (ls := ls_leases st) in *.
  destruct (Z.ltb_spec t (l_tsched l)) as [Hlt|Hge].
  - rewrite insert_insert_eq. set (l' := set_tsched _ _).
    assert (Hof : l_tsched l' <> TSCHED_NOT_ON_HEAP) by (apply sched_off; simpl; lia).
    destruct (keyed_lower l_tsched TSCHED_NOT_ON_HEAP ls (ls_heap st) a l l' (lease_fhdef (<[a := l']> ls)) (proj1 Hok) Ha)
      as (h' & -> & Hh); [apply sched_off; lia|done|simpl; lia|apply lease_cmp_ok|].
    eexists _, l'. split_and!; [done| |done|done|by exists l'; simpl; rewrite lookup_insert_eq; auto].
    split; simpl; [done|]. apply times_insert; [apply Hok|]. unfold times_ok. simpl. lia.
  - destruct (Z.eqb_spec (l_tsched l) TSCHED_NOT_ON_HEAP) as [Hl|Hl]; simpl.
    + destruct (Z.ltb_spec t T_NEVER) as [Hf|Hf]; simpl.
      * destruct (lease_schedule_ok a (<[a := set_tend t l]> ls) (ls_heap st) (set_tend t l))
          as (h' & -> & Hok');
          [eapply keyed_but_insert, keyed_off; [apply Hok|done..]| |simpl; lia|done|].
        { apply times_insert; [apply Hok|]. unfold times_ok. simpl. lia. }
        rewrite insert_insert_eq in Hok' |- *. eexists _, _. split_and!; [done|done|done|done|].
        eexists. split; [apply lookup_insert_eq|]. right. apply sched_off. simpl. lia.
      * eexists _, _. split_and!; [done| |done|done|].
        -- eapply retime_ok; [done|done|done|]. unfold times_ok. simpl. lia.
        -- eexists. split; [apply lookup_insert_eq|]. left. simpl. lia.
    + eexists _, _. split_and!; [done| |done|done|].
      * eapply retime_ok; [done|done|done|]. unfold times_ok. simpl. lia.
      * eexists. split; [apply lookup_insert_eq|]. by right.
Qed.

(** ** One iteration of the check *)

(** A lease was due, and is now off the heap or scheduled for later. *)
Definition moved_on (ephash : nn_guid -> option nn_guid) (tnowE : Z) (l l' : lease) : Prop :=
  l_tsched l <> TSCHED_NOT_ON_HEAP /\ l_tsched l <= tnowE /\
  tnowE < l_tend l' /\
  (l_tsched l' = l_tend l' \/ l_tsched l' = TSCHED_NOT_ON_HEAP /\ l_tend l' = T_NEVER) /\
  (l_tend l' = l_tend l \/
   l_tend l <= tnowE /\ privileged_live ephash (l_entity l) = true /\
   l_tend l' = Z.min (tnowE + 200 * T_MILLISECOND) T_NEVER).

Definition check_post (ephash : nn_guid -> option nn_guid) (tnowE : Z) st st' (r : check_result) : Prop :=
  match r with
  | CDone => st' = st /\
             forall a l, ls_leases st !! a = Some l -> l_tsched l = TSCHED_NOT_ON_HEAP \/ tnowE < l_tsched l
  | CAgain => exists a l l', ls_leases st !! a = Some l /\ ls_leases st' = <[a := l']> (ls_leases st) /\
                             moved_on ephash tnowE l l'
  | CExpired a e => exists l, ls_leases st !! a = Some l /\
      ls_leases st' = <[a := set_tsched TSCHED_NOT_ON_HEAP l]> (ls_leases st) /\
      e = l_entity l /\ l_tsched l <> TSCHED_NOT_ON_HEAP /\ l_tsched l <= tnowE /\ l_tend l <= tnowE /\
      privileged_live ephash e = false
  end.

(** What is left of the iteration once the lease is off the heap. *)
Lemma check_taken ephash st tnowE a l h :
  lease_ok st -> 0 <= tnowE < T_NEVER -> ls_leases st !! a = Some l -> heap_but a (ls_leases st) h ->
  l_tsched l <> TSCHED_NOT_ON_HEAP -> l_tsched l <= tnowE ->
  exists st' r,
    (if tnowE <? l_tend l then
       if l_tend l =? T_NEVER then
         Some (LS (<[a := set_tsched TSCHED_NOT_ON_HEAP l]> (ls_leases st)) h, CAgain)
       else st ← lease_schedule (ls_leases st) h a l; Some (st, CAgain)
     else if privileged_live ephash (l_entity l) then
       t ← add_duration_to_etime tnowE (200 * T_MILLISECOND);
       st ← lease_schedule (ls_leases st) h a (set_tend t l);
       Some (st, CAgain)
     else
       Some (LS (<[a := set_tsched TSCHED_NOT_ON_HEAP l]> (ls_leases st)) h,
             CExpired a (l_entity l))) = Some (st', r) /\
    lease_ok st' /\ check_post ephash tnowE st st' r.
Proof.
  intros Hok Ht Ha Hb Hon Hdue. pose proof (proj2 Hok _ _ Ha) as (He & Hd & _).
  assert (Hms : 0 < 200 * T_MILLISECOND <= T_NEVER) by (unfold T_MILLISECOND, T_NEVER; lia).
  assert (Hoff : times_ok (set_tsched TSCHED_NOT_ON_HEAP l)) by (unfold times_ok; simpl; auto).
  destruct (Z.ltb_spec tnowE (l_tend l)) as [Hlt|Hge].
  - destruct (Z.eqb_spec (l_tend l) T_NEVER) as [Hn|Hn].
    + eexists _, _. split; [done|]. split; [split; simpl; [by apply keyed_put_off|by apply times_insert; [apply Hok|]]|].
      exists a, l. eexists. split_and!; [done|done|]. unfold moved_on. simpl. auto 8.
    + destruct (lease_schedule_ok a (ls_leases st) h l) as (h' & -> & Hok'); [done|apply Hok|done|done|].
      eexists _, _. split; [done|]. split; [done|].
      exists a, l. eexists. split_and!; [done|done|]. unfold moved_on. simpl. auto 8.
  - destruct (privileged_live ephash (l_entity l)) eqn:Hp.
    + unfold add_duration_to_etime. rewrite add_duration_spec by lia. cbn [mbind option_bind].
      set (l1 := set_tend (Z.min (tnowE + 200 * T_MILLISECOND) T_NEVER) l).
      destruct (lease_schedule_ok a (ls_leases st) h l1) as (h' & -> & Hok'); [done|apply Hok|simpl; lia|done|].
      eexists _, _. split; [done|]. split; [done|].
      exists a, l. eexists. split_and!; [done|done|]. unfold moved_on. simpl. split_and!; auto; lia.
    + eexists _, _. split; [done|]. split; [split; simpl; [by apply keyed_put_off|by apply times_insert; [apply Hok|]]|]. simpl. eauto 10.
Qed.

Lemma lease_check_one_ok ephash st tnowE :
  lease_ok st -> lease_room st -> 0 <= tnowE < T_NEVER ->
  exists st' r, lease_check_one ephash st tnowE = Some (st', r) /\ lease_ok st' /\
                check_post ephash tnowE st st' r.
Proof.
  intros Hok Hr Ht. unfold lease_check_one.
  pose proof (keyed_extract l_tsched TSCHED_NOT_ON_HEAP (ls_leases st) (ls_heap st) (lease_fhdef (ls_leases st))
    (proj1 Hok) (lease_cmp_ok _) (room_few st Hok Hr)) as Hm.
  destruct (ph_min (ls_heap st)) as [a|].
  - destruct Hm as (l & h' & Hl & Hs & E & Hb & Hmin). rewrite Hl. cbn [mbind option_bind].
    destruct (Z.leb_spec (l_tsched l) tnowE) as [Hdue|Hnot]; simpl.
    + rewrite (proj2 (Z.eqb_neq _ _) Hs), E. cbn [mbind option_bind]. by apply check_taken.
    + exists st, CDone. do 3 (split; [done|]). intros x l' Hl'. destruct (Hmin x l' Hl'); [by left|right; lia].
  - exists st, CDone. do 3 (split; [done|]). intros x l' Hl'. left. by eapply Hm.
Qed.

(** ** Runs *)

(** The state of a run: [lr_registered] are the leases that have been
    registered, [lr_pending] those of them that have not expired;
    [lr_check] is the time of the check that has the lock of the heap. *)
Record lease_run := LR {
  lr_st : lease_state H;
  lr_registered : gset Z;
  lr_pending : gset Z;
  lr_check : option Z;
  lr_expired : list (Z * entity_common) }.

Inductive lease_op :=
  | LNew (a texpire tdur : Z) (e : entity_common)
  | LRegister (a : Z)
  | LFree (a : Z)
  | LRenew (a tnowE : Z)
  | LSetExpiry (a when : Z)
  | LCheck (tnowE : Z)
  | LIter (ephash : nn_guid -> option nn_guid).

Definition lease_step (r : lease_run) (op : lease_op) : option lease_run :=
  let 'LR st reg pend chk out := r in
  match op with
  | LNew a texpire tdur e => Some (LR (lease_new st (Some a) texpire tdur e).1 reg pend chk out)
  | LRegister a =>
    st ← lease_register st a; Some (LR st ({[a]} ∪ reg) ({[a]} ∪ pend) chk out)
  | LFree a => st ← lease_free st a; Some (LR st (reg ∖ {[a]}) (pend ∖ {[a]}) chk out)
  | LRenew a tnowE => st ← lease_renew st a tnowE; Some (LR st reg pend chk out)
  | LSetExpiry a when =>
    st ← lease_set_expiry st a when; Some (LR st reg ({[a]} ∪ pend) chk out)
  | LCheck tnowE => Some (LR st reg pend (Some tnowE) out)
  | LIter ephash =>
    tnowE ← chk;
    '(st, res) ← lease_check_one ephash st tnowE;
    Some match res with
         | CDone => LR st reg pend None out
         | CAgain => LR st reg pend chk out
         | CExpired a e => LR st reg (pend ∖ {[a]}) None ((a, e) :: out)
         end
  end.

(** When an operation may happen: leases are allocated at addresses that are
    not in use, registered once and before their expiry is set, and not used
    after they are freed; what needs the lock of the heap waits for it. *)
Definition lease_legal (r : lease_run) (op : lease_op) : Prop :=
  let leases := ls_leases (lr_st r) in
  match op with
  | LNew a texpire tdur _ =>
    leases !! a = None /\ 0 <= texpire <= T_NEVER /\ 0 <= tdur <= T_NEVER /\
    Z.of_nat (size leases) + 1 < HEAP_CAPACITY
  | LRegister a => is_Some (leases !! a) /\ (a ∉ lr_registered r) /\ lr_check r = None
  | LFree a => is_Some (leases !! a) /\ lr_check r = None
  | LRenew a tnowE => is_Some (leases !! a) /\ 0 <= tnowE <= T_NEVER
  | LSetExpiry a when => a ∈ lr_registered r /\ 0 <= when <= T_NEVER /\ lr_check r = None
  | LCheck tnowE => 0 <= tnowE < T_NEVER /\ lr_check r = None
  | LIter _ => is_Some (lr_check r)
  end.

Definition lease_init : lease_run := LR lease_management_init ∅ ∅ None [].

Inductive lease_reachable : lease_run -> Prop :=
  | lease_reach_init : lease_reachable lease_init
  | lease_reach_step r op r' :
      lease_reachable r -> lease_legal r op -> lease_step r op = Some r' -> lease_reachable r'.

Record lease_run_ok (r : lease_run) : Prop := {
  lro_ok : lease_ok (lr_st r);
  lro_room : lease_room (lr_st r);
  lro_registered a : a ∈ lr_registered r -> is_Some (ls_leases (lr_st r) !! a);
  lro_fresh a l : ls_leases (lr_st r) !! a = Some l -> a ∉ lr_registered r ->
                  l_tsched l = TSCHED_NOT_ON_HEAP;
  lro_pending a : a ∈ lr_pending r -> a ∈ lr_registered r /\ watched (lr_st r) a;
  lro_check t : lr_check r = Some t -> 0 <= t < T_NEVER }.

(** A step that changes one lease. *)
Lemma run_put r st' reg' pend' chk' out' a l' :
  lease_run_ok r -> is_Some (ls_leases (lr_st r) !! a) -> lease_ok st' ->
  ls_leases st' = <[a := l']> (ls_leases (lr_st r)) ->
  (forall x, x <> a -> (x ∈ reg' <-> x ∈ lr_registered r)) ->
  (a ∈ reg' \/ l_tsched l' = TSCHED_NOT_ON_HEAP) ->
  (forall x, x <> a -> x ∈ pend' -> x ∈ lr_pending r) ->
  (a ∈ pend' -> a ∈ reg' /\ watched st' a) ->
  (forall t, chk' = Some t -> 0 <= t < T_NEVER) ->
  lease_run_ok (LR st' reg' pend' chk' out').
Proof.
  intros [Hok Hroom Hreg Hfresh Hpend Hchk] Ha Hok' Hls Hr Hl Hp Hpa Hc.
  assert (Hin : forall x, x <> a -> ls_leases st' !! x = ls_leases (lr_st r) !! x)
    by (intros x Hne; rewrite Hls; by apply lookup_insert_ne).
  assert (Hin' : ls_leases st' !! a = Some l') by (rewrite Hls; apply lookup_insert_eq).
  constructor; simpl; [done| | | | |done].
  - unfold lease_room in *. rewrite Hls, map_size_insert_Some by (by destruct Ha). done.
  - intros x Hx. destruct (decide (x = a)) as [->|Hne]; [eauto|].
    rewrite Hin by done. apply Hreg. by apply Hr.
  - intros x l Hl0 Hx. destruct (decide (x = a)) as [->|Hne].
    + destruct Hl; [done|congruence].
    + rewrite Hin in Hl0 by done. eapply Hfresh; [done|]. by rewrite <- Hr.
  - intros x Hx. destruct (decide (x = a)) as [->|Hne]; [auto|].
    destruct (Hpend x (Hp x Hne Hx)) as (Hx1 & l0 & Hl0 & Hw). split; [by apply Hr|].
    exists l0. by rewrite Hin.
Qed.

Lemma run_new r a texpire tdur e :
  lease_run_ok r -> lease_legal r (LNew a texpire tdur e) ->
  lease_run_ok (LR (lease_new (lr_st r) (Some a) texpire tdur e).1
                   (lr_registered r) (lr_pending r) (lr_check r) (lr_expired r)).
Proof.
  intros [Hok Hroom Hreg Hfresh Hpend Hchk] (Ha & He & Hd & Hsz).
  destruct (lease_new_ok (lr_st r) a texpire tdur e Hok Ha He Hd) as (st' & -> & Hok' & Hls).
  assert (Hne : forall x, is_Some (ls_leases (lr_st r) !! x) ->
            ls_leases st' !! x = ls_leases (lr_st r) !! x).
  { intros x [l Hx]. rewrite Hls. apply lookup_insert_ne. congruence. }
  constructor; simpl; [done| | | | |done].
  - unfold lease_room. rewrite Hls, map_size_insert_None by done. lia.
  - intros x Hx. rewrite Hne; auto.
  - intros x l Hl Hx. rewrite Hls in Hl. apply lookup_insert_Some in Hl as [[<- <-]|[Hxa Hl]]; [done|].
    by eapply Hfresh.
  - intros x Hx. destruct (Hpend x Hx) as (Hx1 & l & Hl & Hw). split; [done|]. exists l.
    rewrite Hne; eauto.
Qed.

Lemma run_free r a st' :
  lease_run_ok r -> lease_ok st' -> ls_leases st' = delete a (ls_leases (lr_st r)) ->
  lease_run_ok (LR st' (lr_registered r ∖ {[a]}) (lr_pending r ∖ {[a]}) (lr_check r) (lr_expired r)).
Proof.
  intros [Hok Hroom Hreg Hfresh Hpend Hchk] Hok' Hls. constructor; simpl; [done| | | | |done].
  - unfold lease_room in *. rewrite Hls, map_size_delete. destruct (_ !! a); simpl; lia.
  - intros x [Hx Hne]%elem_of_difference. rewrite Hls, lookup_delete_ne by set_solver. auto.
  - intros x l Hl Hx. rewrite Hls in Hl. apply lookup_delete_Some in Hl as [Hne Hl].
    eapply Hfresh; [done|]. set_solver.
  - intros x [Hx Hne]%elem_of_difference. destruct (Hpend x Hx) as (Hx1 & l & Hl & Hw).
    split; [set_solver|]. exists l. rewrite Hls, lookup_delete_ne by set_solver. done.
Qed.

Lemma run_iter r ephash :
  lease_run_ok r -> is_Some (lr_check r) ->
  exists r', lease_step r (LIter ephash) = Some r' /\ lease_run_ok r'.
Proof.
  intros Hr [t Ht]. pose proof Hr as [Hok Hroom Hreg Hfresh Hpend Hchk].
  specialize (Hchk t Ht). destruct r as [st reg pend chk out]. simpl in *. subst chk.
  destruct (lease_check_one_ok ephash st t Hok Hroom Hchk) as (st' & res & Hone & Hok' & Hpost).
  cbn [mbind option_bind]. rewrite Hone. cbn [mbind option_bind]. eexists. split; [done|].
  destruct res as [| |a e]; simpl in Hpost.
  - destruct Hpost as [-> _]. by constructor.
  - destruct Hpost as (a & l & l' & Ha & Hls & (Hon & Hdue & Hend & Hsch & _)).
    assert (Hin : a ∈ reg) by (destruct (decide (a ∈ reg)); [done|exfalso; eauto]).
    eapply (run_put _ st' reg pend (Some t) out a l' Hr); simpl; eauto; try done.
    + intros Hp. split; [done|]. exists l'. rewrite Hls, lookup_insert_eq. split; [done|].
      destruct Hsch as [Hsch|[_ ?]]; [|by left]. right. apply sched_off. lia.
    + intros t' [= <-]. done.
  - destruct Hpost as (l & Ha & Hls & -> & Hon & Hdue & Hend & _).
    eapply (run_put _ st' reg (pend ∖ {[a]}) None _ a _ Hr); simpl; eauto; try done; set_solver.
Qed.

Lemma lease_run_step r op :
  lease_run_ok r -> lease_legal r op ->
  exists r', lease_step r op = Some r' /\ lease_run_ok r'.
Proof.
  intros Hr Hl. pose proof Hr as [Hok Hroom Hreg Hfresh Hpend Hchk].
  destruct op as [a texpire tdur e|a|a|a t|a t|t|ephash].
  - eexists. split; [|apply run_new; [exact Hr|exact Hl]]. by destruct r.
  - destruct Hl as ([l Ha] & Hnr & _). specialize (Hfresh a l Ha Hnr).
    destruct (lease_register_ok (lr_st r) a l Hok Ha Hfresh) as (st' & l' & Hst & Hok' & Hls & Hw).
    destruct r as [st reg pend chk out]. simpl in *. rewrite Hst. eexists. split; [done|].
    eapply (run_put _ st' _ _ chk out a l' Hr); simpl; eauto; set_solver.
  - destruct Hl as ([l Ha] & _).
    destruct (lease_free_ok (lr_st r) a l Hok Hroom Ha) as (st' & Hst & Hok' & Hls).
    eexists. split; [|by eapply (run_free r a st')]. destruct r. simpl in *. by rewrite Hst.
  - destruct Hl as ([l Ha] & Ht).
    destruct (lease_renew_ok (lr_st r) a l t Hok Ha Ht) as (st' & tend & Hst & Hok' & Hls & Htend).
    destruct r as [st reg pend chk out]. simpl in *. rewrite Hst. eexists. split; [done|].
    eapply (run_put _ st' reg pend chk out a _ Hr); simpl; eauto; try done.
    + destruct (decide (a ∈ reg)); [by left|right; simpl; eauto].
    + intros Hp. destruct (Hpend a Hp) as (Hp1 & l0 & Hl0 & Hw). split; [done|].
      rewrite Ha in Hl0. injection Hl0 as <-. eexists. rewrite Hls, lookup_insert_eq. split; [done|].
      destruct Hw as [Hw|Hw]; [left|by right]. simpl. rewrite Htend, Hw.
      destruct (t <? T_NEVER); lia.
  - destruct Hl as (Hin & Ht & _). destruct (Hreg a Hin) as [l Ha].
    destruct (lease_set_expiry_ok (lr_st r) a l t Hok Ha Ht) as (st' & l' & Hst & Hok' & Hls & _ & Hw).
    destruct r as [st reg pend chk out]. simpl in *. rewrite Hst. eexists. split; [done|].
    eapply (run_put _ st' reg _ chk out a l' Hr); simpl; eauto; set_solver.
  - destruct r as [st reg pend chk out]. simpl in *. eexists. split; [done|].
    constructor; simpl in *; try done. intros t' [= <-]. tauto.
  - by apply run_iter.
Qed.

Lemma lease_init_ok : lease_run_ok lease_init.
Proof.
  destruct (ph_init_law (key_of l_tsched TSCHED_NOT_ON_HEAP ∅)) as [Hi He].
  constructor; simpl; try set_solver; try done.
  split; simpl; [split; [done|]|by intros a l; rewrite lookup_empty].
  intros a. rewrite He. unfold on_heap. split; [set_solver|]. intros (l & Hl & _). by rewrite lookup_empty in Hl.
Qed.

Lemma lease_reachable_ok r : lease_reachable r -> lease_run_ok r.
Proof.
  induction 1 as [|r op r' _ IH Hl Hs]; [apply lease_init_ok|].
  destruct (lease_run_step r op IH Hl) as (r1 & Hr1 & Hok). congruence.
Qed.

(** ** The loop *)

Definition due (tnowE : Z) (l : lease) : Prop :=
  l_tsched l <> TSCHED_NOT_ON_HEAP /\ l_tsched l <= tnowE.

#[local] Instance due_dec tnowE l : Decision (due tnowE l).
Proof. unfold due. apply _. Defined.

Definition due_count (tnowE : Z) ls : nat := size (filter (fun al => due tnowE al.2) ls).

(** The lease is past its end. *)
Definition past (tnowE : Z) ls (a : Z) : Prop :=
  exists l, ls !! a = Some l /\ l_tsched l <> TSCHED_NOT_ON_HEAP /\ l_tend l <= tnowE.

(** While an entity is deleted its lease may be freed; the others do not
    change. *)
Definition quiet (deleted : lease_state H -> (nn_guid -> option nn_guid) -> Z -> entity_common ->
                            lease_state H * (nn_guid -> option nn_guid)) : Prop :=
  forall st eph a e l,
    lease_ok st -> ls_leases st !! a = Some l -> l_tsched l = TSCHED_NOT_ON_HEAP ->
    let st' := (deleted st eph a e).1 in
    lease_ok st' /\ (ls_leases st' = ls_leases st \/ ls_leases st' = delete a (ls_leases st)).

Lemma due_count_put tnowE ls a l l' :
  ls !! a = Some l -> due tnowE l -> ~ due tnowE l' ->
  due_count tnowE ls = S (due_count tnowE (<[a := l']> ls)).
Proof.
  intros Ha Hd Hn. unfold due_count. rewrite map_filter_insert, decide_False by done.
  rewrite map_filter_delete, map_size_delete.
  assert (Hf : filter (fun al => due tnowE al.2) ls !! a = Some l)
    by (by apply map_lookup_filter_Some).
  rewrite Hf. destruct (size (filter _ ls)) eqn:E; [|simpl; lia].
  apply map_size_empty_inv in E. by rewrite E, lookup_empty in Hf.
Qed.

Lemma due_count_delete tnowE ls a : (due_count tnowE (delete a ls) <= due_count tnowE ls)%nat.
Proof. unfold due_count. rewrite map_filter_delete, map_size_delete. destruct (filter _ ls !! a); simpl; lia. Qed.

(** What a check leaves, and what it finds expired. *)
Record check_done (tnowE : Z) ls ls' (out : list Z) : Prop := {
  cd_none a l : ls' !! a = Some l -> ~ due tnowE l;
  cd_nodup : NoDup out;
  cd_sound a : a ∈ out -> past tnowE ls a;
  cd_complete a : past tnowE ls a ->
    a ∈ out \/ exists l, ls' !! a = Some l /\ l_tend l = Z.min (tnowE + 200 * T_MILLISECOND) T_NEVER;
  cd_rest a l : ls !! a = Some l -> ~ due tnowE l -> ls' !! a = Some l }.

Lemma past_due tnowE ls a l : times_ok l -> ls !! a = Some l -> past tnowE ls a -> due tnowE l.
Proof. intros (_ & _ & Ht) Ha (l' & Hl' & Hs & He). simplify_eq. split; [done|]. lia. Qed.

(** A lease has been scheduled for later, then the rest was done. *)
Lemma check_done_again ephash tnowE ls ls2 a l l' out :
  times_ok l -> ls !! a = Some l -> moved_on ephash tnowE l l' ->
  check_done tnowE (<[a := l']> ls) ls2 out -> check_done tnowE ls ls2 out.
Proof.
  intros Htl Ha (Hon & Hdue & Hend & Hsch & Hpost) [Hn Hnd Hs Hc Hr].
  assert (Hl' : ls2 !! a = Some l').
  { apply Hr; [apply lookup_insert_eq|]. intros [Hon' Hdue'].
    destruct Hsch as [Hsch|[Hsch _]]; [lia|done]. }
  assert (Hne : forall x, x <> a -> (past tnowE (<[a := l']> ls) x <-> past tnowE ls x))
    by (intros x Hx; unfold past; by rewrite lookup_insert_ne).
  constructor; [done|done| | |].
  - intros x Hx. specialize (Hs x Hx). destruct (decide (x = a)) as [->|]; [|by apply Hne].
    exfalso. destruct Hs as (l0 & Hl0 & _ & He). rewrite lookup_insert_eq in Hl0. simplify_eq. lia.
  - intros x Hx. destruct (decide (x = a)) as [->|]; [|by apply Hc, Hne].
    right. exists l'. split; [done|]. destruct Hx as (l0 & Hl0 & _ & He). simplify_eq. lia.
  - intros x l0 Hl0 Hd. destruct (decide (x = a)) as [->|Hx].
    + simplify_eq. exfalso. by apply Hd.
    + apply Hr; [by rewrite lookup_insert_ne|done].
Qed.

Lemma check_done_expired tnowE ls ls1 ls2 a l out :
  ls !! a = Some l -> due tnowE l -> l_tend l <= tnowE ->
  (forall x, x <> a -> ls1 !! x = ls !! x) ->
  (forall l', ls1 !! a = Some l' -> l_tsched l' = TSCHED_NOT_ON_HEAP) ->
  check_done tnowE ls1 ls2 out -> check_done tnowE ls ls2 (out ++ [a]).
Proof.
  intros Ha Hd He Hsame Hoff [Hn Hnd Hs Hc Hr].
  assert (Hna : a ∉ out).
  { intros Hin. destruct (Hs a Hin) as (l' & Hl' & Hon & _). eauto. }
  assert (Hne : forall x, x <> a -> (past tnowE ls1 x <-> past tnowE ls x))
    by (intros x Hx; unfold past; by rewrite Hsame).
  constructor; [done| | | |].
  - apply NoDup_app. split_and!; [done|set_solver|apply NoDup_singleton].
  - intros x [Hx|Hx%list_elem_of_singleton]%elem_of_app.
    + apply Hne; [by intros ->|auto].
    + subst x. exists l. destruct Hd. done.
  - intros x Hx. destruct (decide (x = a)) as [->|Hxa]; [left; set_solver|].
    destruct (Hc x) as [Hin|Hl2]; [by apply Hne|left; set_solver|by right].
  - intros x l0 Hl0 Hd0. apply Hr; [|done]. rewrite Hsame; [done|]. congruence.
Qed.

Lemma check_loop_ok fuel deleted st ephash tnowE out :
  quiet deleted -> lease_ok st -> lease_room st -> 0 <= tnowE < T_NEVER ->
  (due_count tnowE (ls_leases st) < fuel)%nat ->
  exists st' new, check_and_handle_lease_expiration fuel deleted st ephash tnowE out = Some (st', new ++ out) /\
    lease_ok st' /\ check_done tnowE (ls_leases st) (ls_leases st') new.
Proof.
  intros Hq. revert st ephash out. induction fuel as [|fuel IH]; intros st eph out Hok Hr Ht Hf; [lia|].
  destruct (lease_check_one_ok eph st tnowE Hok Hr Ht) as (st1 & r & Hone & Hok1 & Hpost).
  simpl. rewrite Hone. cbn [mbind option_bind]. destruct r as [| |a e]; simpl in Hpost.
  - destruct Hpost as [-> Hno]. exists st, []. split_and!; [done|done|]. constructor; try done.
    + intros a l Hl [Hon Hd]. destruct (Hno a l Hl); [done|lia].
    + constructor.
    + intros a Hin. by apply elem_of_nil in Hin.
    + intros a (l & Hl & Hon & He). destruct (Hno a l Hl); [done|].
      pose proof (proj2 Hok _ _ Hl) as (_ & _ & Ht'). lia.
  - destruct Hpost as (a & l & l' & Ha & Hls & Hmv).
    assert (Hn' : ~ due tnowE l') by (intros []; destruct Hmv as (_ & _ & ? & [?|[? _]] & _); [lia|done]).
    assert (Hd : due tnowE l) by (by split; apply Hmv).
    pose proof (due_count_put tnowE (ls_leases st) a l l' Ha Hd Hn') as Hcnt.
    destruct (IH st1 eph out) as (st2 & new & H2 & Hok2 & Hdone); [done| |done|rewrite Hls; lia|].
    { unfold lease_room in *. by rewrite Hls, map_size_insert_Some by eauto. }
    exists st2, new. split_and!; [done|done|]. rewrite Hls in Hdone.
    eapply check_done_again; [by eapply (proj2 Hok)|done|done|done].
  - destruct Hpost as (l & Ha & Hls & -> & Hon & Hsch & Hend & _).
    set (l' := set_tsched TSCHED_NOT_ON_HEAP l) in *.
    assert (Hl' : ls_leases st1 !! a = Some l') by (rewrite Hls; apply lookup_insert_eq).
    destruct (Hq st1 eph a (l_entity l) l' Hok1 Hl' eq_refl) as [Hok2 Hcase].
    destruct (deleted st1 eph a (l_entity l)) as [st2 eph2]. simpl in Hok2, Hcase.
    pose proof (due_count_put tnowE (ls_leases st) a l l' Ha (conj Hon Hsch) ltac:(by intros [? _])) as Hcnt.
    rewrite <- Hls in Hcnt. pose proof (due_count_delete tnowE (ls_leases st1) a) as Hcnt2.
    destruct (IH st2 eph2 (a :: out)) as (st3 & new & H3 & Hok3 & Hdone); [done| |done| |].
    { unfold lease_room in *. enough (size (ls_leases st2) <= size (ls_leases st))%nat by lia.
      transitivity (size (ls_leases st1)); [|by rewrite Hls, map_size_insert_Some by eauto].
      destruct Hcase as [->| ->]; [done|]. rewrite map_size_delete. destruct (ls_leases st1 !! a); simpl; lia. }
    { destruct Hcase as [->| ->]; lia. }
    exists st3, (new ++ [a]). rewrite <- app_assoc. split_and!; [done|done|].
    eapply (check_done_expired tnowE _ (ls_leases st2)); [done|by split|done| | |done].
    + intros x Hx. destruct Hcase as [->| ->]; [|rewrite lookup_delete_ne by done];
        rewrite Hls; by apply lookup_insert_ne.
    + intros l0 Hl0. destruct Hcase as [E|E]; rewrite E in Hl0.
      * by simplify_eq.
      * by rewrite lookup_delete_eq in Hl0.
Qed.

(** ** Theorems *)

(** C25: In every run of the lease administration in which leases are registered
    once, before their expiry is set, and not used after they are freed, each
    operation that keeps to this, to times up to [T_NEVER] and to the capacity of
    the heap succeeds (no assertion fails, no freed lease is looked at and the heap does
    not overflow) and keeps the invariant: the heap has exactly the leases that
    are scheduled, ordered by a time that is not after their end, and a lease
    that is pending is on it or never ends. *)
Theorem lease_never_fails r op :
  lease_reachable r -> lease_legal r op ->
  exists r', lease_step r op = Some r' /\ lease_run_ok r'.
Proof. intros Hr Hl. apply lease_run_step; [by apply lease_reachable_ok|done]. Qed.

(** When the loop of a check ends, no lease that has been registered and has
    not expired is past its end: none is forgotten. *)
Theorem lease_check_complete r ephash t st' :
  lease_reachable r -> lr_check r = Some t ->
  lease_check_one ephash (lr_st r) t = Some (st', CDone) ->
  forall a, a ∈ lr_pending r -> exists l, ls_leases st' !! a = Some l /\ t < l_tend l.
Proof.
  intros Hr Ht Hone a Ha. apply lease_reachable_ok in Hr as [Hok Hroom Hreg Hfresh Hpend Hchk].
  specialize (Hchk t Ht).
  destruct (lease_check_one_ok ephash (lr_st r) t Hok Hroom Hchk) as (st1 & res & H1' & _ & Hpost).
  rewrite Hone in H1'. injection H1' as <- <-. destruct Hpost as [-> Hno].
  destruct (Hpend a Ha) as (_ & l & Hl & Hw). exists l. split; [done|].
  pose proof (proj2 Hok _ _ Hl) as (_ & _ & Hs). destruct (Hno a l Hl); lia.
Qed.

(** A lease expires only when its end has passed and no live privileged
    participant vouches for its entity; it is then off the heap, and no other
    lease has changed. *)
Theorem lease_expires_late r ephash r' a e :
  lease_reachable r -> lease_step r (LIter ephash) = Some r' ->
  lr_expired r' = (a, e) :: lr_expired r ->
  exists t l, lr_check r = Some t /\ ls_leases (lr_st r) !! a = Some l /\ e = l_entity l /\
    l_tend l <= t /\ privileged_live ephash e = false /\
    ls_leases (lr_st r') = <[a := set_tsched TSCHED_NOT_ON_HEAP l]> (ls_leases (lr_st r)) /\
    (a ∉ ph_elems (ls_heap (lr_st r'))).
Proof.
  intros Hr Hstep Hout. apply lease_reachable_ok in Hr as [Hok Hroom _ _ _ Hchk].
  destruct r as [st reg pend chk out]. simpl in *. destruct chk as [t|]; [|done].
  destruct (lease_check_one_ok ephash st t Hok Hroom (Hchk t eq_refl)) as (st1 & res & Hone & Hok1 & Hpost).
  simpl in Hstep. rewrite Hone in Hstep. injection Hstep as <-.
  destruct res as [| |a' e']; simpl in Hout; [by apply (f_equal length) in Hout; simpl in Hout; lia..|].
  injection Hout as -> ->. destruct Hpost as (l & Ha & Hls & -> & _ & _ & Hend & Hp).
  exists t, l. split_and!; try done. simpl. destruct Hok1 as [[_ Hs] _]. rewrite Hs, Hls, on_heap_eq.
  simpl. tauto.
Qed.

(** C26: A check that nobody interferes with ends, after as many iterations as
    leases are due and one more; it reports each lease that is past its end
    exactly once, apart from those it postpones by 200 ms, and nothing else; it
    leaves nothing due and does not touch the leases that are not. *)
Theorem lease_check_terminates deleted st ephash tnowE :
  quiet deleted -> lease_ok st -> lease_room st -> 0 <= tnowE < T_NEVER ->
  exists st' out,
    check_and_handle_lease_expiration (S (due_count tnowE (ls_leases st))) deleted st ephash tnowE [] =
      Some (st', out) /\
    lease_ok st' /\ check_done tnowE (ls_leases st) (ls_leases st') out.
Proof.
  intros Hq Hok Hr Ht.
  destruct (check_loop_ok (S (due_count tnowE (ls_leases st))) deleted st ephash tnowE [] Hq Hok Hr Ht)
    as (st' & out & Hc & Hok' & Hd); [lia|].
  exists st', out. rewrite app_nil_r in Hc. done.
Qed.

(** ** What leases do not do *)

(** Renewing a lease for ever, as [proxy_participant_reassign_lease] does to
    keep the old lease of a proxy participant from expiring, does nothing: for
    [T_NEVER] every lease counts as expired already. *)
Theorem lease_renew_never_ignored st a :
  lease_ok st -> is_Some (ls_leases st !! a) -> lease_renew st a T_NEVER = Some st.
Proof.
  intros Hok [l Ha]. unfold lease_renew. rewrite Ha. cbn [mbind option_bind].
  pose proof (proj2 Hok _ _ Ha) as (He & Hd & _).
  unfold add_duration_to_etime. rewrite add_duration_spec by (unfold T_NEVER in *; lia).
  cbn [mbind option_bind]. rewrite Z.geb_leb, (proj2 (Z.leb_le (l_tend l) T_NEVER)) by lia.
  by rewrite orb_true_r.
Qed.

(** A lease whose expiry is set before it is registered cannot be registered:
    an assertion fails. *)
Theorem lease_expiry_before_register st a l t st' :
  lease_ok st -> ls_leases st !! a = Some l -> l_tsched l = TSCHED_NOT_ON_HEAP -> 0 <= t < T_NEVER ->
  lease_set_expiry st a t = Some st' -> lease_register st' a = None.
Proof.
  intros Hok Ha Hl Ht Hset.
  destruct (lease_set_expiry_ok st a l t Hok Ha) as (st1 & l' & Hset' & _ & Hls & Hend & Hw); [lia|].
  rewrite Hset in Hset'. injection Hset' as <-. unfold lease_register.
  destruct Hw as (l1 & Hl1 & Hw). rewrite Hl1. cbn [mbind option_bind].
  rewrite Hls, lookup_insert_eq in Hl1. injection Hl1 as <-.
  destruct Hw as [Hw|Hw]; [lia|]. by rewrite (proj2 (Z.eqb_neq _ _) Hw).
Qed.
End LeaseProps.
Arguments lease_run : clear implicits.

(** ** Witnesses *)

Definition demo_entity (k : entity_kind) (n : Z) : entity_common := Entity k (NnGuid (1, 2, n) 0x1c1).

(** Two leases, the second renewed, and a check at the end of the first. *)
Definition demo_ops : list lease_op :=
  [LNew 1000 50 100 (demo_entity EK_PROXY_PARTICIPANT 1); LRegister 1000;
   LNew 2000 70 100 (demo_entity EK_PROXY_PARTICIPANT 2); LRegister 2000;
   LRenew 2000 60; LCheck 80].

Fixpoint demo_exec (r : lease_run fibheap) (ops : list lease_op) : option (lease_run fibheap) :=
  match ops with
  | [] => Some r
  | op :: ops => r ← lease_step r op; demo_exec r ops
  end.

Definition demo_at (n : nat) : lease_run fibheap :=
  match demo_exec lease_init (take n demo_ops) with Some r => r | None => lease_init end.

#[local] Instance lease_legal_dec (r : lease_run fibheap) op : Decision (lease_legal r op).
Proof. destruct op; simpl; apply _. Defined.

Ltac demo_next R op :=
  eapply (lease_reach_step _ op);
  [exact R|by apply (bool_decide_eq_true_1 _); vm_compute|vm_compute; reflexivity].

Lemma demo_registered : lease_reachable (demo_at 5).
Proof.
  assert (R0 : lease_reachable (demo_at 0)) by constructor.
  assert (R1 : lease_reachable (demo_at 1))
    by demo_next R0 (LNew 1000 50 100 (demo_entity EK_PROXY_PARTICIPANT 1)).
  assert (R2 : lease_reachable (demo_at 2)) by demo_next R1 (LRegister 1000).
  assert (R3 : lease_reachable (demo_at 3))
    by demo_next R2 (LNew 2000 70 100 (demo_entity EK_PROXY_PARTICIPANT 2)).
  assert (R4 : lease_reachable (demo_at 4)) by demo_next R3 (LRegister 2000).
  demo_next R4 (LRenew 2000 60).
Qed.

Lemma lease_demo_reachable : lease_reachable (demo_at 6).
Proof. demo_next demo_registered (LCheck 80). Qed.

Definition nobody : nn_guid -> option nn_guid := fun _ => None.

Lemma lease_never_fails_witness :
  exists r', lease_step (demo_at 6) (LIter nobody) = Some r' /\ lease_run_ok r'.
Proof.
  apply (lease_never_fails (demo_at 6) (LIter nobody) lease_demo_reachable).
  apply (bool_decide_eq_true_1 _). vm_compute. reflexivity.
Defined.

(** The first lease expires, the second is put off to its new end. *)
Definition demo_next_check : option (lease_run fibheap) := lease_step (demo_at 6) (LIter nobody).

Lemma lease_expires_late_witness :
  match demo_next_check with
  | Some r' =>
    exists t l, lr_check (demo_at 6) = Some t /\ ls_leases (lr_st (demo_at 6)) !! 1000 = Some l /\
      demo_entity EK_PROXY_PARTICIPANT 1 = l_entity l /\ l_tend l <= t /\
      privileged_live nobody (demo_entity EK_PROXY_PARTICIPANT 1) = false /\
      ls_leases (lr_st r') = <[1000 := set_tsched TSCHED_NOT_ON_HEAP l]> (ls_leases (lr_st (demo_at 6))) /\
      (1000 ∉ ph_elems (ls_heap (lr_st r')))
  | None => False
  end.
Proof.
  destruct demo_next_check as [r'|] eqn:E; [|by vm_compute in E].
  apply (lease_expires_late (demo_at 6) nobody r' 1000 (demo_entity EK_PROXY_PARTICIPANT 1) lease_demo_reachable).
  - exact E.
  - apply (f_equal (fmap lr_expired)) in E. vm_compute in E. injection E as E. exact (eq_sym E).
Defined.

(** A check at 40 finds nothing due. *)
Definition demo_early : lease_run fibheap :=
  match lease_step (demo_at 5) (LCheck 40) with Some r => r | None => lease_init end.

Lemma demo_early_reachable : lease_reachable demo_early.
Proof. demo_next demo_registered (LCheck 40). Qed.

Lemma lease_check_complete_witness :
  exists l, ls_leases (lr_st demo_early) !! 2000 = Some l /\ 40 < l_tend l.
Proof.
  apply (lease_check_complete demo_early nobody 40 (lr_st demo_early) demo_early_reachable).
  - reflexivity.
  - vm_compute. reflexivity.
  - apply (bool_decide_eq_true_1 _). vm_compute. reflexivity.
Defined.

(** Deleting an entity does not free its lease at once. *)
Definition later (st : lease_state fibheap) (eph : nn_guid -> option nn_guid) (a : Z) (e : entity_common)
  : lease_state fibheap * (nn_guid -> option nn_guid) := (st, eph).

Lemma lease_check_terminates_witness :
  let st := lr_st (demo_at 6) in
  exists st' out,
    check_and_handle_lease_expiration (S (due_count 80 (ls_leases st))) later st nobody 80 [] = Some (st', out) /\
    lease_ok st' /\ check_done 80 (ls_leases st) (ls_leases st') out.
Proof.
  pose proof (lease_reachable_ok _ lease_demo_reachable) as [Hok Hroom _ _ _ _].
  apply (lease_check_terminates later (lr_st (demo_at 6)) nobody 80); [|exact Hok|exact Hroom|].
  - intros st eph a e l Hst _ _. split; [exact Hst|by left].
  - unfold T_NEVER. lia.
Defined.

Lemma lease_renew_never_ignored_witness :
  lease_renew (lr_st (demo_at 6)) 1000 T_NEVER = Some (lr_st (demo_at 6)).
Proof.
  pose proof (lease_reachable_ok _ lease_demo_reachable) as [Hok _ _ _ _ _].
  apply (lease_renew_never_ignored (lr_st (demo_at 6)) 1000 Hok).
  apply (bool_decide_eq_true_1 _). vm_compute. reflexivity.
Defined.
