(* ===== verification/Xevent.v ===== *)
(** * Timed events

    The timed part of the event queue of [q_xevent.c]: events (heartbeats,
    ACKNACKs, announcements, callbacks, ...) are on a heap by the time they are
    scheduled for, and the thread of the queue handles those that are due.  The
    heap is any [PrioHeap].  An event that is not on the heap is scheduled for
    [T_NEVER]; one that is to be freed for [TSCHED_DELETE], before all others.

    The queue gives up its lock while an event is handled, so an iteration of the
    loop of [handle_xevents] ends there, with the event to handle as its result.
    Waking up the thread is a flag of the results.  Elsewhere in this library
    an event is just the time it is scheduled for: [xevent_is_its_time] shows
    that this is right. *)

From Stdlib Require Import ZArith Lia.
From stdpp Require Import prelude gmap.
From S2P Require Import Prelude Dqueue Time Wire Fibheap FibheapProps Receive.

Inductive xeventkind :=
  | XEVK_HEARTBEAT (wr_guid : nn_guid)
  | XEVK_ACKNACK (pwr_guid rd_guid : nn_guid)
  | XEVK_SPDP (pp_guid : nn_guid) (dest_proxypp_guid_prefix : option (Z * Z * Z))
  | XEVK_PMD_UPDATE (pp_guid : nn_guid)
  | XEVK_END_STARTUP_MODE
  | XEVK_DELETE_WRITER (guid : nn_guid)
  | XEVK_CALLBACK (cb arg : Z).

Record xevent := Xev { x_tsched : Z; x_kind : xeventkind }.
Definition x_set_tsched (t : Z) (ev : xevent) : xevent := Xev t (x_kind ev).

Definition compare_xevent_tsched (a b : Z) : Z := if a =? b then 0 else if a <? b then -1 else 1.

Section Xevent.
Context {H : Type} `{PrioHeap H}.
(** [config.schedule_time_rounding] *)
Context (schedule_time_rounding : Z).

(** The events there are, by address, and the heap. *)
Record xevents := XQ { xq_events : gmap Z xevent; xq_heap : H }.

Definition xevent_tsched (evs : gmap Z xevent) (a : Z) : Z :=
  match evs !! a with Some ev => x_tsched ev | None => T_NEVER end.

Definition evq_xevents_fhdef (evs : gmap Z xevent) : fhcmp :=
  fun a b => compare_xevent_tsched (xevent_tsched evs a) (xevent_tsched evs b).

Definition xevents_new : xevents := XQ ∅ ph_init.

Definition earliest_in_xeventq (q : xevents) : option Z :=
  match ph_min (xq_heap q) with
  | Some a => ev ← xq_events q !! a; Some (x_tsched ev)
  | None => Some T_NEVER
  end.

(** The event goes onto the heap, or forward on it when it is there already. *)
Definition xq_move (q : xevents) (a tsched : Z) : option xevents :=
  ev ← xq_events q !! a;
  let evs := <[a := x_set_tsched tsched ev]> (xq_events q) in
  h ← (if negb (x_tsched ev =? T_NEVER)
       then ph_decrease (evq_xevents_fhdef evs) (xq_heap q) a
       else ph_insert (evq_xevents_fhdef evs) (xq_heap q) a);
  Some (XQ evs h).

Definition delete_xevent (q : xevents) (a : Z) : option (xevents * bool) :=
  ev ← xq_events q !! a;
  if negb (x_tsched ev =? TSCHED_DELETE) && (TSCHED_DELETE <? x_tsched ev) then
    q ← xq_move q a TSCHED_DELETE;
    Some (q, true)
  else None.

(** The queue, [is_resched] and whether the thread is woken up. *)
Definition resched_xevent_if_earlier (q : xevents) (a tsched : Z) : option (xevents * bool * bool) :=
  if negb (tsched =? TSCHED_DELETE) && (tsched >? TSCHED_DELETE) then
    ev ← xq_events q !! a;
    if tsched >=? x_tsched ev then Some (q, false, false)
    else
      tbefore ← earliest_in_xeventq q;
      if negb (tsched =? T_NEVER) then
        q ← xq_move q a tsched;
        Some (q, true, tsched <? tbefore)
      else None
  else None.

(** [a] is what [os_malloc] returns. *)
Definition qxev_common (q : xevents) (a tsched : Z) (kind : xeventkind) : option xevents :=
  if negb (tsched =? TSCHED_DELETE) then
    tsched ← (if negb (tsched =? T_NEVER) && negb (schedule_time_rounding =? 0)
              then mtime_round_up tsched schedule_time_rounding
              else Some tsched);
    Some (XQ (<[a := Xev tsched kind]> (xq_events q)) (xq_heap q))
  else None.

Definition qxev_insert (q : xevents) (a : Z) : option (xevents * bool) :=
  ev ← xq_events q !! a;
  if negb (x_tsched ev =? T_NEVER) then
    tbefore ← earliest_in_xeventq q;
    h ← ph_insert (evq_xevents_fhdef (xq_events q)) (xq_heap q) a;
    Some (XQ (xq_events q) h, x_tsched ev <? tbefore)
  else Some (q, false).

Definition qxev_new (q : xevents) (a tsched : Z) (kind : xeventkind) : option (xevents * bool) :=
  q ← qxev_common q a tsched kind;
  qxev_insert q a.

Definition qxev_heartbeat (q : xevents) (a tsched : Z) (wr_guid : nn_guid) :=
  qxev_new q a tsched (XEVK_HEARTBEAT wr_guid).
Definition qxev_acknack (q : xevents) (a tsched : Z) (pwr_guid rd_guid : nn_guid) :=
  qxev_new q a tsched (XEVK_ACKNACK pwr_guid rd_guid).
Definition qxev_spdp (q : xevents) (a tsched : Z) (pp_guid : nn_guid) (dest_proxypp_guid : option nn_guid) :=
  qxev_new q a tsched (XEVK_SPDP pp_guid (option_map guid_prefix dest_proxypp_guid)).
Definition qxev_pmd_update (q : xevents) (a tsched : Z) (pp_guid : nn_guid) :=
  qxev_new q a tsched (XEVK_PMD_UPDATE pp_guid).
Definition qxev_end_startup_mode (q : xevents) (a tsched : Z) := qxev_new q a tsched XEVK_END_STARTUP_MODE.
Definition qxev_delete_writer (q : xevents) (a tsched : Z) (guid : nn_guid) :=
  qxev_new q a tsched (XEVK_DELETE_WRITER guid).
Definition qxev_callback (q : xevents) (a tsched cb arg : Z) := qxev_new q a tsched (XEVK_CALLBACK cb arg).

Definition free_xevent (q : xevents) (a : Z) : xevents := XQ (delete a (xq_events q)) (xq_heap q).

(** What an iteration of the inner loop of [handle_xevents] comes to: nothing is
    due, an event has been freed, or one is to be handled without the lock. *)
Inductive xevent_result := XNone | XFreed (a : Z) | XHandle (a : Z) (kind : xeventkind).

Definition handle_xevents_one (q : xevents) (tnow : Z) : option (xevents * xevent_result) :=
  earliest ← earliest_in_xeventq q;
  if negb (earliest <=? tnow) then Some (q, XNone)
  else
    '(h, o) ← ph_extract (evq_xevents_fhdef (xq_events q)) (xq_heap q);
    a ← o;
    ev ← xq_events q !! a;
    if x_tsched ev =? TSCHED_DELETE then Some (free_xevent (XQ (xq_events q) h) a, XFreed a)
    else Some (XQ (<[a := x_set_tsched T_NEVER ev]> (xq_events q)) h, XHandle a (x_kind ev)).

(** The loop over the timed events of [xeventq_free].  [callback] is what a
    callback that is called with [T_NEVER] does to the events. *)
Fixpoint xeventq_free_timed (fuel : nat) (callback : xevents -> Z -> option xevents) (q : xevents) : option xevents :=
  match fuel with
  | O => None
  | S fuel =>
    '(h, o) ← ph_extract (evq_xevents_fhdef (xq_events q)) (xq_heap q);
    match o with
    | None => Some (XQ (xq_events q) h)
    | Some a =>
      ev ← xq_events q !! a;
      if (x_tsched ev =? TSCHED_DELETE) || match x_kind ev with XEVK_CALLBACK _ _ => false | _ => true end then
        xeventq_free_timed fuel callback (free_xevent (XQ (xq_events q) h) a)
      else
        q ← callback (XQ (<[a := x_set_tsched T_NEVER ev]> (xq_events q)) h) a;
        ev ← xq_events q !! a;
        if negb (x_tsched ev =? TSCHED_DELETE) then
          '(q, _) ← delete_xevent q a;
          xeventq_free_timed fuel callback q
        else xeventq_free_timed fuel callback q
    end
  end.
End Xevent.
Arguments xevents : clear implicits.

Section XeventProps.
Context {H : Type} `{PrioHeapLaws H} (rounding : Z).
Implicit Types (q : xevents H).

Abbreviation xheap_right := (keyed_ok x_tsched T_NEVER).

(** The heap has exactly the events that are scheduled. *)
Definition xq_ok q : Prop :=
  xheap_right (xq_events q) (xq_heap q) /\
  forall a ev, xq_events q !! a = Some ev -> x_tsched ev = TSCHED_DELETE \/ 0 <= x_tsched ev <= T_NEVER.

Definition xq_room q : Prop := Z.of_nat (size (xq_events q)) < HEAP_CAPACITY.

Lemma xevent_cmp_ok (evs : gmap Z xevent) : cmp_ok (key_of x_tsched T_NEVER evs) (evq_xevents_fhdef evs).
Proof. apply cmp3_ok. Qed.

Lemma xtimes_insert (evs : gmap Z xevent) a ev :
  (forall a ev, evs !! a = Some ev -> x_tsched ev = TSCHED_DELETE \/ 0 <= x_tsched ev <= T_NEVER) ->
  x_tsched ev = TSCHED_DELETE \/ 0 <= x_tsched ev <= T_NEVER ->
  forall x ev', <[a := ev]> evs !! x = Some ev' -> x_tsched ev' = TSCHED_DELETE \/ 0 <= x_tsched ev' <= T_NEVER.
Proof. intros Ht Hl x ev' Hx. apply lookup_insert_Some in Hx as [[_ <-]|[_ Hx]]; eauto. Qed.

Lemma earliest_ok q :
  xq_ok q -> exists t, earliest_in_xeventq q = Some t /\
                       forall a ev, xq_events q !! a = Some ev -> t <= x_tsched ev.
Proof.
  intros [[Hh Hs] Ht]. unfold earliest_in_xeventq. pose proof (ph_min_law _ _ Hh) as Hm.
  assert (Hon : forall x e, xq_events q !! x = Some e -> x_tsched e = T_NEVER \/ x ∈ ph_elems (xq_heap q)).
  { intros x e Hx. destruct (decide (x_tsched e = T_NEVER)); [auto|]. right. apply Hs. by exists e. }
  assert (Hle : forall x e, xq_events q !! x = Some e -> x_tsched e <= T_NEVER).
  { intros x e Hx. destruct (Ht x e Hx) as [->|]; [unfold TSCHED_DELETE, T_NEVER|]; lia. }
  destruct (ph_min (xq_heap q)) as [a|].
  - destruct Hm as [Hin Hm]. apply Hs in Hin as (ev & Ha & Hne). rewrite Ha. exists (x_tsched ev). split; [done|].
    intros x e Hx. destruct (Hon x e Hx) as [->|Hin]; [eauto|]. specialize (Hm x Hin).
    unfold key_of in Hm. by rewrite Ha, Hx in Hm.
  - exists T_NEVER. split; [done|]. intros x e Hx. destruct (Hon x e Hx) as [->|Hin]; [done|].
    rewrite Hm in Hin. by apply elem_of_nil in Hin.
Qed.

Lemma earliest_never q t : xq_ok q -> earliest_in_xeventq q = Some t -> t <= T_NEVER.
Proof.
  intros [_ Ht] E. unfold earliest_in_xeventq in E. destruct (ph_min (xq_heap q)) as [a|]; [|by simplify_eq].
  destruct (xq_events q !! a) as [ev|] eqn:Ha; [|done]. injection E as <-.
  destruct (Ht a ev Ha) as [->|]; [unfold TSCHED_DELETE, T_NEVER|]; lia.
Qed.

(** An event that is not yet on the heap does not count. *)
Lemma earliest_insert q a ev t :
  xq_ok q -> xq_events q !! a = None -> earliest_in_xeventq q = Some t ->
  earliest_in_xeventq (XQ (<[a := ev]> (xq_events q)) (xq_heap q)) = Some t.
Proof.
  intros _ Ha E. unfold earliest_in_xeventq in *. simpl. destruct (ph_min (xq_heap q)) as [x|]; [|done].
  destruct (decide (x = a)) as [->|Hne]; [by rewrite Ha in E|]. by rewrite lookup_insert_ne.
Qed.

(** Moving an event to an earlier time. *)
Lemma xq_move_ok q a ev t :
  xq_ok q -> xq_events q !! a = Some ev -> t < x_tsched ev -> t = TSCHED_DELETE \/ 0 <= t ->
  exists q', xq_move q a t = Some q' /\ xq_ok q' /\ xq_events q' = <[a := x_set_tsched t ev]> (xq_events q).
Proof.
  intros [Hok Ht] Ha Hlt Hr. unfold xq_move. rewrite Ha. cbn [mbind option_bind].
  assert (Hle : x_tsched ev <= T_NEVER).
  { destruct (Ht a ev Ha) as [->|]; [unfold TSCHED_DELETE, T_NEVER|]; lia. }
  assert (Hx := xtimes_insert (xq_events q) a (x_set_tsched t ev) Ht ltac:(simpl; lia)).
  destruct (Z.eqb_spec (x_tsched ev) T_NEVER) as [Hn|Hn]; cbn [negb].
  - destruct (keyed_put_on x_tsched T_NEVER a (xq_events q) (xq_heap q) (x_set_tsched t ev)
      (evq_xevents_fhdef (<[a := x_set_tsched t ev]> (xq_events q)))) as (h' & -> & Hk);
      [by eapply keyed_off|simpl; lia|apply xevent_cmp_ok|].
    eexists. split; [done|]. by split.
  - destruct (keyed_lower x_tsched T_NEVER (xq_events q) (xq_heap q) a ev (x_set_tsched t ev)
      (evq_xevents_fhdef (<[a := x_set_tsched t ev]> (xq_events q))) Hok Ha) as (h' & -> & Hk);
      [done|simpl; lia|simpl; lia|apply xevent_cmp_ok|].
    eexists. split; [done|]. by split.
Qed.

Lemma delete_xevent_ok q a ev :
  xq_ok q -> xq_events q !! a = Some ev -> x_tsched ev <> TSCHED_DELETE ->
  exists q', delete_xevent q a = Some (q', true) /\ xq_ok q' /\
             xq_events q' = <[a := x_set_tsched TSCHED_DELETE ev]> (xq_events q).
Proof.
  intros Hok Ha Hne. unfold delete_xevent. rewrite Ha. cbn [mbind option_bind].
  assert (Hlt : TSCHED_DELETE < x_tsched ev).
  { destruct (proj2 Hok a ev Ha); [done|]. unfold TSCHED_DELETE. lia. }
  rewrite (proj2 (Z.eqb_neq _ _) Hne), (proj2 (Z.ltb_lt _ _) Hlt). cbn [negb andb].
  destruct (xq_move_ok q a ev TSCHED_DELETE Hok Ha Hlt) as (q' & -> & Hok' & He); [by left|]. by exists q'.
Qed.

Lemma xq_resched_ok q a ev t :
  xq_ok q -> xq_events q !! a = Some ev -> 0 <= t ->
  exists q' w, resched_xevent_if_earlier q a t = Some (q', bool_decide (t < x_tsched ev), w) /\ xq_ok q' /\
    xq_events q' = <[a := x_set_tsched (Z.min t (x_tsched ev)) ev]> (xq_events q) /\
    (forall t0, earliest_in_xeventq q = Some t0 -> w = false -> t0 <= Z.min t (x_tsched ev)).
Proof.
  intros Hok Ha Ht. unfold resched_xevent_if_earlier. rewrite Z.gtb_ltb.
  assert (Hd : TSCHED_DELETE < t) by (unfold TSCHED_DELETE; lia).
  rewrite (proj2 (Z.eqb_neq _ _)), (proj2 (Z.ltb_lt _ _) Hd), Ha by lia. cbn [negb andb mbind option_bind]. rewrite Z.geb_leb.
  destruct (earliest_ok q Hok) as (t0 & Et & Hmin). destruct (Z.leb_spec (x_tsched ev) t) as [Hle|Hlt].
  - exists q, false. rewrite bool_decide_eq_false_2, Z.min_r by lia. split; [done|]. split; [done|]. split.
    + rewrite insert_id; [done|]. by destruct ev.
    + intros t1 E1 _. rewrite Et in E1. injection E1 as <-. by eapply Hmin.
  - rewrite Et. cbn [mbind option_bind].
    assert (x_tsched ev <= T_NEVER) by (destruct (proj2 Hok a ev Ha) as [->|]; [unfold TSCHED_DELETE, T_NEVER|]; lia).
    rewrite (proj2 (Z.eqb_neq t T_NEVER)) by lia. cbn [negb].
    destruct (xq_move_ok q a ev t Hok Ha Hlt) as (q' & -> & Hok' & He); [by right|].
    exists q', (t <? t0). rewrite bool_decide_eq_true_2, Z.min_l by lia. split_and!; try done.
    intros t1 E1 Hw. injection E1 as <-. by apply Z.ltb_ge in Hw.
Qed.

(** The time a new event is scheduled for. *)
Definition rounded (t t' : Z) : Prop :=
  if (t =? T_NEVER) || (rounding =? 0) then t' = t else t <= t' < t + rounding /\ t' mod rounding = 0.

Lemma qxev_new_ok q a t kind :
  xq_ok q -> xq_events q !! a = None -> 0 <= t <= T_NEVER -> 0 <= rounding -> t = T_NEVER \/ t + rounding < 2 ^ 63 ->
  exists q' w t', qxev_new rounding q a t kind = Some (q', w) /\ xq_ok q' /\ rounded t t' /\
    xq_events q' = <[a := Xev t' kind]> (xq_events q) /\
    (forall t0, earliest_in_xeventq q = Some t0 -> w = false -> t0 <= t').
Proof.
  intros Hok Ha Ht Hr Hb. unfold qxev_new, qxev_common.
  rewrite (proj2 (Z.eqb_neq t TSCHED_DELETE)) by (unfold TSCHED_DELETE; lia). cbn [negb].
  assert (exists t', (if negb (t =? T_NEVER) && negb (rounding =? 0) then mtime_round_up t rounding else Some t) = Some t' /\
            rounded t t' /\ t <= t' <= T_NEVER) as (t' & -> & Hrd & Ht').
  { unfold rounded. destruct (Z.eqb_spec t T_NEVER) as [->|Hn]; cbn [negb andb orb]; [by eexists|].
    destruct (Z.eqb_spec rounding 0) as [->|Hz]; cbn [negb]; [exists t; split_and!; [done|done|lia|lia]|].
    destruct (round_up_spec t rounding) as (u & -> & Hu1 & Hu2); [lia|lia|lia|].
    exists u. split_and!; [done|lia|lia|done|lia|unfold T_NEVER; lia]. }
  cbn [mbind option_bind]. set (q1 := XQ _ _). unfold qxev_insert.
  assert (Ha1 : xq_events q1 !! a = Some (Xev t' kind)) by (simpl; apply lookup_insert_eq). rewrite Ha1. cbn [mbind option_bind].
  assert (Hb' : keyed_but x_tsched T_NEVER a (xq_events q) (xq_heap q)) by (apply keyed_absent; [apply Hok|done]).
  assert (Hx := xtimes_insert (xq_events q) a (Xev t' kind) (proj2 Hok) ltac:(simpl; lia)).
  destruct (earliest_ok q Hok) as (t0 & Et & Hmin).
  destruct (Z.eqb_spec (x_tsched (Xev t' kind)) T_NEVER) as [Hn|Hn]; cbn [negb]; simpl in Hn.
  - exists q1, false, t'. split_and!; try done.
    + split; [|done]. simpl. by apply keyed_put_off.
    + intros t1 E1 _. rewrite Et in E1. injection E1 as <-. rewrite Hn. by eapply earliest_never.
  - destruct (keyed_put_on x_tsched T_NEVER a (xq_events q) (xq_heap q) (Xev t' kind)
      (evq_xevents_fhdef (xq_events q1)) Hb') as (h' & Eh & Hk); [done|apply xevent_cmp_ok|].
    assert (Et1 : earliest_in_xeventq q1 = Some t0) by (by eapply earliest_insert).
    rewrite Et1. cbn [mbind option_bind]. simpl in Eh |- *. rewrite Eh. cbn [mbind option_bind].
    exists (XQ (<[a := Xev t' kind]> (xq_events q)) h'), (t' <? t0), t'. split_and!; try done.
    intros t1 E1 Hw. rewrite Et in E1. injection E1 as <-. by apply Z.ltb_ge in Hw.
Qed.

(** What an iteration of the loop does. *)
Definition one_post (tnow : Z) q q' (r : xevent_result) : Prop :=
  match r with
  | XNone => q' = q /\ forall a ev, xq_events q !! a = Some ev -> tnow < x_tsched ev
  | XFreed a => exists ev, xq_events q !! a = Some ev /\ x_tsched ev = TSCHED_DELETE /\
                           xq_events q' = delete a (xq_events q)
  | XHandle a kind => exists ev, xq_events q !! a = Some ev /\ kind = x_kind ev /\ 0 <= x_tsched ev <= tnow /\
                                 (forall x e, xq_events q !! x = Some e -> x_tsched ev <= x_tsched e) /\
                                 xq_events q' = <[a := x_set_tsched T_NEVER ev]> (xq_events q)
  end.

Lemma handle_xevents_one_ok q tnow :
  xq_ok q -> xq_room q -> tnow < T_NEVER ->
  exists q' r, handle_xevents_one q tnow = Some (q', r) /\ xq_ok q' /\ one_post tnow q q' r.
Proof.
  intros Hok Hroom Ht. unfold handle_xevents_one.
  destruct (earliest_ok q Hok) as (t0 & Et & Hmin). rewrite Et. cbn [mbind option_bind].
  destruct (Z.leb_spec t0 tnow) as [Hdue|Hnot]; cbn [negb].
  2:{ exists q, XNone. split; [done|]. split; [done|]. split; [done|]. intros a ev Ha. specialize (Hmin a ev Ha). lia. }
  pose proof (keyed_extract x_tsched T_NEVER (xq_events q) (xq_heap q) (evq_xevents_fhdef (xq_events q))
    (proj1 Hok) (xevent_cmp_ok _) (keyed_few _ _ _ _ (proj1 Hok) Hroom)) as Hm.
  unfold earliest_in_xeventq in Et. destruct (ph_min (xq_heap q)) as [a|]; [|injection Et as <-; lia].
  destruct Hm as (ev & h' & Ha & Hon & E & Hb & _). rewrite Ha in Et. injection Et as <-.
  rewrite E. cbn [mbind option_bind]. rewrite Ha. cbn [mbind option_bind].
  destruct (Z.eqb_spec (x_tsched ev) TSCHED_DELETE) as [Hd|Hd].
  - eexists _, _. split; [done|]. split; [split; simpl|simpl; eauto].
    + by apply keyed_forget.
    + intros x e Hx. apply lookup_delete_Some in Hx as [_ Hx]. by eapply (proj2 Hok).
  - eexists _, _. split; [done|]. split; [split; simpl|].
    + by apply keyed_put_off.
    + apply xtimes_insert; [apply Hok|]. simpl. unfold T_NEVER. lia.
    + exists ev. split_and!; try done. destruct (proj2 Hok a ev Ha); [done|lia].
Qed.

(** ** Runs *)

Inductive xevent_op :=
  | XNew (a tsched : Z) (kind : xeventkind)
  | XResched (a tsched : Z)
  | XDelete (a : Z)
  | XIter (tnow : Z).

(** The queue, whether the thread is woken up, and the result of an iteration. *)
Definition xevent_step q (op : xevent_op) : option (xevents H * bool * xevent_result) :=
  match op with
  | XNew a tsched kind => '(q, w) ← qxev_new rounding q a tsched kind; Some (q, w, XNone)
  | XResched a tsched => '(q, _, w) ← resched_xevent_if_earlier q a tsched; Some (q, w, XNone)
  | XDelete a => '(q, w) ← delete_xevent q a; Some (q, w, XNone)
  | XIter tnow => '(q, r) ← handle_xevents_one q tnow; Some (q, false, r)
  end.

(** Events are allocated at addresses that are not in use, deleted once, and not
    used after they have been freed. *)
Definition xevent_legal q (op : xevent_op) : Prop :=
  match op with
  | XNew a t _ => xq_events q !! a = None /\ 0 <= t <= T_NEVER /\ (t = T_NEVER \/ t + rounding < 2 ^ 63) /\
                  Z.of_nat (size (xq_events q)) + 1 < HEAP_CAPACITY
  | XResched a t => is_Some (xq_events q !! a) /\ 0 <= t <= T_NEVER
  | XDelete a => exists ev, xq_events q !! a = Some ev /\ x_tsched ev <> TSCHED_DELETE
  | XIter tnow => 0 <= tnow < T_NEVER
  end.

Inductive xevents_reachable : xevents H -> Prop :=
  | xreach_init : xevents_reachable xevents_new
  | xreach_step q op q' w r :
      xevents_reachable q -> xevent_legal q op -> xevent_step q op = Some (q', w, r) -> xevents_reachable q'.

(** Nothing becomes due earlier without the thread being woken up. *)
Definition no_lost_wakeup q q' (w : bool) : Prop :=
  forall t t', earliest_in_xeventq q = Some t -> earliest_in_xeventq q' = Some t' -> t' < t -> w = true.

(** The earliest time is that of an event or [T_NEVER]. *)
Lemma earliest_witness q t :
  earliest_in_xeventq q = Some t -> t = T_NEVER \/ exists a ev, xq_events q !! a = Some ev /\ x_tsched ev = t.
Proof.
  unfold earliest_in_xeventq. destruct (ph_min (xq_heap q)) as [a|]; intros E; [|left; congruence].
  destruct (xq_events q !! a) as [ev|] eqn:Ha; [|done]. injection E as <-. eauto.
Qed.

Lemma put_wakeup q q' a ev w :
  xq_ok q -> xq_events q' = <[a := ev]> (xq_events q) ->
  (forall t0, earliest_in_xeventq q = Some t0 -> w = false -> t0 <= x_tsched ev) -> no_lost_wakeup q q' w.
Proof.
  intros Hok He Hw t t' Et Et' Hlt. destruct w; [done|exfalso]. specialize (Hw t Et eq_refl).
  destruct (earliest_ok q Hok) as (t0 & Et0 & Hmin). rewrite Et in Et0. injection Et0 as <-.
  destruct (earliest_witness q' t' Et') as [->|(x & e & Hx & <-)].
  - pose proof (earliest_never q t Hok Et). lia.
  - rewrite He in Hx. apply lookup_insert_Some in Hx as [[_ <-]|[_ Hx]]; [lia|]. specialize (Hmin x e Hx). lia.
Qed.

Definition run_ok q : Prop := xq_ok q /\ xq_room q.

Lemma room_put q q' a ev :
  xq_room q -> is_Some (xq_events q !! a) -> xq_events q' = <[a := ev]> (xq_events q) -> xq_room q'.
Proof. intros Hr Ha He. unfold xq_room in *. by rewrite He, map_size_insert_Some. Qed.

Lemma room_iter q q' tnow r : xq_room q -> one_post tnow q q' r -> xq_room q'.
Proof.
  intros Hr Hp. destruct r as [|a|a kind]; simpl in Hp.
  - by destruct Hp as [-> _].
  - destruct Hp as (ev & Ha & _ & He). unfold xq_room in *. rewrite He, map_size_delete.
    destruct (xq_events q !! a); simpl; lia.
  - destruct Hp as (ev & Ha & _ & _ & _ & He). eapply room_put; eauto.
Qed.

Lemma step_ok q op :
  0 <= rounding -> run_ok q -> xevent_legal q op ->
  exists q' w r, xevent_step q op = Some (q', w, r) /\ run_ok q' /\ no_lost_wakeup q q' w /\
    match op with XIter tnow => one_post tnow q q' r | _ => r = XNone end.
Proof.
  intros Hr [Hok Hroom] Hl. destruct op as [a t kind|a t|a|tnow]; simpl in *.
  - destruct Hl as (Ha & Ht & Hb & Hsz).
    destruct (qxev_new_ok q a t kind Hok Ha Ht Hr Hb) as (q' & w & t' & -> & Hok' & Hrd & He & Hw). cbn [mbind option_bind].
    eexists _, _, _. split; [done|]. split; [split; [done|]|split; [eapply put_wakeup; eauto|done]].
    unfold xq_room. rewrite He, map_size_insert_None by done. lia.
  - destruct Hl as ([ev Ha] & Ht).
    destruct (xq_resched_ok q a ev t Hok Ha) as (q' & w & -> & Hok' & He & Hw); [lia|]. cbn [mbind option_bind].
    eexists _, _, _. split; [done|]. split; [split; [done|eapply room_put; eauto]|split; [eapply put_wakeup; eauto|done]].
  - destruct Hl as (ev & Ha & Hd).
    destruct (delete_xevent_ok q a ev Hok Ha Hd) as (q' & -> & Hok' & He). cbn [mbind option_bind].
    eexists _, _, _. split; [done|]. split; [split; [done|eapply room_put; eauto]|split; [by intros t t'|done]].
  - destruct (handle_xevents_one_ok q tnow Hok Hroom) as (q' & r & -> & Hok' & Hp); [lia|]. cbn [mbind option_bind].
    eexists _, _, _. split; [done|]. split; [split; [done|by eapply room_iter]|split; [|done]].
    intros t t' Et Et' Hlt. exfalso. destruct (earliest_ok q Hok) as (t0 & Et0 & Hmin). rewrite Et in Et0. injection Et0 as <-.
    pose proof (earliest_never q t Hok Et). destruct (earliest_witness q' t' Et') as [->|(x & e & Hx & <-)]; [lia|].
    assert (xq_events q !! x = Some e \/ x_tsched e = T_NEVER) as [Hx'|]; [|specialize (Hmin x e Hx'); lia|lia].
    destruct r as [|a|a kind]; simpl in Hp.
    + destruct Hp as [-> _]. by left.
    + destruct Hp as (ev & _ & _ & He). rewrite He in Hx. apply lookup_delete_Some in Hx as [_ ?]. by left.
    + destruct Hp as (ev & _ & _ & _ & _ & He). rewrite He in Hx.
      apply lookup_insert_Some in Hx as [[_ <-]|[_ ?]]; [by right|by left].
Qed.

Lemma xreachable_ok q : 0 <= rounding -> xevents_reachable q -> run_ok q.
Proof.
  intros Hr. induction 1 as [|q op q' w r _ IH Hl Hs].
  - destruct (ph_init_law (key_of x_tsched T_NEVER ∅)) as [Hi He]. split; [|unfold xq_room; simpl; by rewrite map_size_empty].
    split; simpl; [split; [done|]|by intros a l; rewrite lookup_empty].
    intros a. rewrite He. unfold on_heap. split; [set_solver|]. intros (l & Hl & _). by rewrite lookup_empty in Hl.
  - destruct (step_ok q op Hr IH Hl) as (q1 & w1 & r1 & E1 & Hok & _). rewrite Hs in E1. by injection E1 as <- _ _.
Qed.

(** ** Theorems *)

(** C24: In every run of the queue each operation that may happen succeeds, and
    the thread is woken up whenever an operation makes the earliest time
    earlier, so it never sleeps past an event; the loop handles only events that
    are due, none while one that was due earlier is left, frees exactly those
    that have been deleted, and ends only when nothing is due. *)
Theorem xevents_run q op :
  0 <= rounding -> xevents_reachable q -> xevent_legal q op ->
  exists q' w r, xevent_step q op = Some (q', w, r) /\ run_ok q' /\ no_lost_wakeup q q' w /\
    match op with XIter tnow => one_post tnow q q' r | _ => r = XNone end.
Proof. intros Hr Hq Hl. apply step_ok; [done|by apply xreachable_ok|done]. Qed.

(** C33: For whoever schedules it, an event is the time it is scheduled for:
    rescheduling an event of the queue does to its time, and returns, what the
    function on times does that stands for it in the models of readers and
    writers, and changes no other event. *)
Theorem xevent_is_its_time q a ev t :
  0 <= rounding -> xevents_reachable q -> xq_events q !! a = Some ev -> 0 <= t <= T_NEVER ->
  exists q' t' b w, Receive.resched_xevent_if_earlier (x_tsched ev) t = Some (t', b) /\
    resched_xevent_if_earlier q a t = Some (q', b, w) /\
    xq_events q' = <[a := x_set_tsched t' ev]> (xq_events q) /\ run_ok q'.
Proof.
  intros Hr Hq Ha Ht. destruct (xreachable_ok q Hr Hq) as [Hok Hroom].
  destruct (xq_resched_ok q a ev t Hok Ha) as (q' & w & E & Hok' & He & _); [lia|].
  unfold Receive.resched_xevent_if_earlier. rewrite Z.gtb_ltb, (proj2 (Z.ltb_lt TSCHED_DELETE t)), Z.geb_leb by (unfold TSCHED_DELETE; lia).
  exists q', (Z.min t (x_tsched ev)), (bool_decide (t < x_tsched ev)), w. split_and!; try done.
  - destruct (Z.leb_spec (x_tsched ev) t).
    + by rewrite bool_decide_eq_false_2, Z.min_r by lia.
    + by rewrite bool_decide_eq_true_2, Z.min_l by lia.
  - split; [done|eapply room_put; eauto].
Qed.
End XeventProps.

(** ** Witnesses *)

Definition xguid : nn_guid := NnGuid (1, 2, 3) 0x102.

(** A heartbeat at 500 is moved forward to 300; a callback at 200. *)
Definition xdemo (n : nat) : xevents fibheap :=
  let '(q, _) := fold_left (fun '(q, ok) op =>
      match xevent_step 0 q op with Some (q, _, _) => (q, ok) | None => (q, false) end)
    (take n [XNew 8 500 (XEVK_HEARTBEAT xguid); XNew 16 200 (XEVK_CALLBACK 1 2); XResched 8 300]) (xevents_new, true) in q.

Lemma xdemo_reachable : xevents_reachable 0 (xdemo 3).
Proof.
  assert (R0 : xevents_reachable 0 (xdemo 0)) by constructor.
  assert (R1 : xevents_reachable 0 (xdemo 1)).
  { eapply (xreach_step 0 _ (XNew 8 500 (XEVK_HEARTBEAT xguid))); [exact R0| |vm_compute; reflexivity].
    split; [reflexivity|]. split; [unfold T_NEVER; lia|]. split; [right; lia|reflexivity]. }
  assert (R2 : xevents_reachable 0 (xdemo 2)).
  { eapply (xreach_step 0 _ (XNew 16 200 (XEVK_CALLBACK 1 2))); [exact R1| |vm_compute; reflexivity].
    split; [vm_compute; reflexivity|]. split; [unfold T_NEVER; lia|]. split; [right; lia|vm_compute; reflexivity]. }
  eapply (xreach_step 0 _ (XResched 8 300)); [exact R2| |vm_compute; reflexivity].
  split; [eexists; vm_compute; reflexivity|unfold T_NEVER; lia].
Qed.

Lemma xevents_run_witness :
  exists q', xevent_step 0 (xdemo 3) (XIter 250) = Some (q', false, XHandle 16 (XEVK_CALLBACK 1 2)) /\ run_ok q'.
Proof.
  destruct (xevents_run 0 (xdemo 3) (XIter 250)) as (q' & w & r & E & Hok & _ & _);
    [lia|exact xdemo_reachable|simpl; unfold T_NEVER; lia|].
  exists q'. split; [|exact Hok]. rewrite E. vm_compute in E. injection E as <- <- <-. reflexivity.
Defined.

Lemma xevent_is_its_time_witness :
  exists q' w, resched_xevent_if_earlier (xdemo 3) 8 100 = Some (q', true, w) /\ run_ok q'.
Proof.
  destruct (xevent_is_its_time 0 (xdemo 3) 8 (Xev 300 (XEVK_HEARTBEAT xguid)) 100) as (q' & t' & b & w & E1 & E2 & _ & Hok);
    [lia|exact xdemo_reachable|vm_compute; reflexivity|unfold T_NEVER; lia|].
  vm_compute in E1. injection E1 as <- <-. exists q', w. split; [exact E2|exact Hok].
Defined.
