(* ===== verification/Gc.v ===== *)
(** * Threads and the garbage collector

    Threads of the service announce when they use entities: [thread_state_awake]
    and [thread_state_asleep] of [q_thread_template.c] change the number [vtime]
    of the thread, which is even while it is awake.  An entity that is deleted is
    first removed from the tables it is found in; then a request to the garbage
    collector ([q_gc.c]) notes which threads are awake, with their numbers, and
    the entity is freed when all of these numbers have changed: then no thread has
    a pointer to it any more.  The watchdogs of the threads tell the thread that
    renews the lease of the service ([q_servicelease.c]) that all make progress.

    Requests and entities are known by their addresses.  The thread of the
    collector is a sequence of steps, cut where it gives up its lock or reads the
    number of another thread; memory is sequentially consistent. *)

From Stdlib Require Import ZArith Lia.
From stdpp Require Import prelude gmap.
From S2P Require Import Prelude Time.

(** ** Threads *)

Definition vtime_awake_p (vtime : Z) : bool := vtime mod 2 =? 0.
Definition vtime_asleep_p (vtime : Z) : bool := vtime mod 2 =? 1.
Definition vtime_gt (vtime1 vtime0 : Z) : bool := wrap_s 32 (vtime1 - vtime0) >? 0.

Inductive thread_state := THREAD_STATE_ZERO | THREAD_STATE_ALIVE.
#[global] Instance thread_state_eq_dec : EqDecision thread_state.
Proof. solve_decision. Defined.

Record thread_state1 := Thread {
  ts_vtime : Z;
  ts_watchdog : Z;
  ts_tid : Z;
  ts_state : thread_state }.

Definition ts_set_clocks (t : thread_state1) (vtime watchdog : Z) : thread_state1 :=
  Thread vtime watchdog (ts_tid t) (ts_state t).
Definition ts_set_state (t : thread_state1) (s : thread_state) : thread_state1 :=
  Thread (ts_vtime t) (ts_watchdog t) (ts_tid t) s.
Definition ts_set_tid (t : thread_state1) (tid : Z) : thread_state1 :=
  Thread (ts_vtime t) (ts_watchdog t) tid (ts_state t).

(** The next watchdog of a thread that is asleep or blocked, and of one that is not. *)
Definition watchdog_odd (wd : Z) : Z := wrap_u 32 (if negb (wd mod 2 =? 0) then wd + 2 else wd + 1).
Definition watchdog_even (wd : Z) : Z := wrap_u 32 (if negb (wd mod 2 =? 0) then wd + 1 else wd + 2).

Definition thread_state_asleep (t : thread_state1) : thread_state1 :=
  let vt := ts_vtime t in
  ts_set_clocks t (wrap_u 32 (if vtime_awake_p vt then vt + 1 else vt + 2)) (watchdog_odd (ts_watchdog t)).
Definition thread_state_awake (t : thread_state1) : thread_state1 :=
  let vt := ts_vtime t in
  ts_set_clocks t (wrap_u 32 (if vtime_asleep_p vt then vt + 1 else vt + 2)) (watchdog_even (ts_watchdog t)).
Definition thread_state_blocked (t : thread_state1) : thread_state1 :=
  ts_set_clocks t (ts_vtime t) (watchdog_odd (ts_watchdog t)).
Definition thread_state_unblocked (t : thread_state1) : thread_state1 :=
  ts_set_clocks t (ts_vtime t) (watchdog_even (ts_watchdog t)).

Definition thread_states_init (maxthreads : nat) : list thread_state1 :=
  replicate maxthreads (Thread 1 1 0 THREAD_STATE_ZERO).

Definition thread_states_fini (ts : list thread_state1) : option unit :=
  if forallb (fun t => negb (bool_decide (ts_state t = THREAD_STATE_ALIVE))) ts then Some tt else None.

Definition lookup_thread_state_real (ts : list thread_state1) (self : Z) : option nat :=
  fst <$> list_find (fun t => ts_tid t = self) ts.

(** The loop of [find_free_slot]. *)
Fixpoint free_slot_loop (ts : list thread_state1) (i : nat) (cand : option nat) : option nat :=
  match ts with
  | [] => cand
  | t :: ts =>
    let cand := if negb (bool_decide (ts_state t = THREAD_STATE_ALIVE)) then Some i else cand in
    if bool_decide (ts_state t = THREAD_STATE_ZERO) then cand else free_slot_loop ts (S i) cand
  end.
Definition find_free_slot (ts : list thread_state1) : option nat := free_slot_loop ts 0 None.

(** A null pointer when there is no slot, and then the program ends. *)
Definition init_thread_state (ts : list thread_state1) : option (list thread_state1 * option nat) :=
  match find_free_slot ts with
  | None => Some (ts, None)
  | Some cand =>
    t ← ts !! cand;
    if negb (bool_decide (ts_state t = THREAD_STATE_ZERO)) || vtime_asleep_p (ts_vtime t) then
      Some (<[cand := ts_set_state t THREAD_STATE_ALIVE]> ts, Some cand)
    else None
  end.

(** [create_thread] up to the creation of the thread, and the first thing the new
    thread does: [create_thread_wrapper] sets its identity. *)
Definition create_thread (ts : list thread_state1) : option (list thread_state1 * nat) :=
  '(ts, o) ← init_thread_state ts;
  i ← o;
  Some (ts, i).
Definition create_thread_wrapper (ts : list thread_state1) (i : nat) (self : Z) : option (list thread_state1) :=
  t ← ts !! i;
  Some (<[i := ts_set_tid t self]> ts).

Definition reap_thread_state (ts : list thread_state1) (i : nat) : option (list thread_state1) :=
  t ← ts !! i;
  Some (<[i := ts_set_state t THREAD_STATE_ZERO]> ts).

(** [join_thread], when the thread has ended. *)
Definition join_thread (ts : list thread_state1) (i : nat) : option (list thread_state1) :=
  t ← ts !! i;
  if bool_decide (ts_state t = THREAD_STATE_ALIVE) && vtime_asleep_p (ts_vtime t) then reap_thread_state ts i
  else None.

(** ** Requests *)

Record idx_vtime := IdxVtime { iv_idx : nat; iv_vtime : Z }.

(** One iteration of [threads_vtime_gather_for_wait]: thread [i]. *)
Definition vtime_gather_one (ts : list thread_state1) (i : nat) (ivs : list idx_vtime) : option (list idx_vtime) :=
  t ← ts !! i;
  Some (if vtime_awake_p (ts_vtime t) then ivs ++ [IdxVtime i (ts_vtime t)] else ivs).

Fixpoint vtime_gather_loop (n : nat) (ts : list thread_state1) (i : nat) (ivs : list idx_vtime)
  : option (list idx_vtime) :=
  match n with
  | O => Some ivs
  | S n => ivs ← vtime_gather_one ts i ivs; vtime_gather_loop n ts (S i) ivs
  end.
Definition threads_vtime_gather_for_wait (ts : list thread_state1) : option (list idx_vtime) :=
  vtime_gather_loop (length ts) ts 0 [].

(** One iteration of [threads_vtime_check]: the set and the index after it. *)
Definition vtime_check_one (ts : list thread_state1) (ivs : list idx_vtime) (i : nat)
  : option (list idx_vtime * nat) :=
  iv ← ivs !! i;
  t ← ts !! iv_idx iv;
  if vtime_awake_p (iv_vtime iv) then
    if negb (vtime_gt (ts_vtime t) (iv_vtime iv)) then Some (ivs, S i)
    else
      ivs ← (if (i + 1 <? length ivs)%nat then l ← ivs !! (length ivs - 1)%nat; Some (<[i := l]> ivs) else Some ivs);
      Some (take (length ivs - 1) ivs, i)
  else None.

Fixpoint vtime_check_loop (fuel : nat) (ts : list thread_state1) (ivs : list idx_vtime) (i : nat)
  : option (list idx_vtime) :=
  if (i <? length ivs)%nat then
    match fuel with
    | O => None
    | S fuel => '(ivs, i) ← vtime_check_one ts ivs i; vtime_check_loop fuel ts ivs i
    end
  else Some ivs.
Definition threads_vtime_check (ts : list thread_state1) (ivs : list idx_vtime)
  : option (list idx_vtime * bool) :=
  ivs ← vtime_check_loop (length ivs) ts ivs 0;
  Some (ivs, (length ivs =? 0)%nat).

(** A request: [gr_cb] identifies the callback, [gr_arg] is the entity it is
    about.  [nvtimes] is the length of [gr_vtimes]. *)
Record gcreq := Gcreq { gr_cb : Z; gr_arg : option Z; gr_vtimes : list idx_vtime }.

Definition gr_set_vtimes (g : gcreq) (ivs : list idx_vtime) : gcreq := Gcreq (gr_cb g) (gr_arg g) ivs.
Definition gr_set_cb (g : gcreq) (cb : Z) : gcreq := Gcreq cb (gr_arg g) (gr_vtimes g).

(** The queue: the list of the requests from [first] on. *)
Record gcreq_queue := GcreqQueue { gq_reqs : list Z; gq_terminate : bool; gq_count : Z }.

(** Where the thread of the collector is: at the lock before the test of the
    loop, before and in the check of the leases, in the loop of
    [threads_vtime_check], before and after the callback, or at its end. *)
Inductive gc_pc := PcTop | PcLease | PcLeasing | PcCheck (i : nat) | PcCall | PcCalled | PcDone.
#[global] Instance gc_pc_eq_dec : EqDecision gc_pc.
Proof. solve_decision. Defined.

(** The requests there are, the queue, and the local state of the thread:
    [gcreq] and where it is. *)
Record gcstate := Gc {
  gc_reqs : gmap Z gcreq;
  gc_queue : gcreq_queue;
  gc_cur : option Z;
  gc_at : gc_pc }.

Definition gcreq_queue_new : gcstate := Gc ∅ (GcreqQueue [] false 0) None PcTop.

(** [gcreq_new] after the gathering of [ivs], under the lock; [a] is what
    [os_malloc] returned.  The caller sets [gcreq->arg]. *)
Definition gcreq_new (s : gcstate) (a cb : Z) (arg : option Z) (ivs : list idx_vtime) : gcstate :=
  let q := gc_queue s in
  Gc (<[a := Gcreq cb arg ivs]> (gc_reqs s)) (GcreqQueue (gq_reqs q) (gq_terminate q) (wrap_s 32 (gq_count q + 1)))
     (gc_cur s) (gc_at s).

(** The state and whether the condition variable is broadcast. *)
Definition gcreq_free (s : gcstate) (a : Z) : option (gcstate * bool) :=
  _ ← gc_reqs s !! a;
  let q := gc_queue s in
  let count := wrap_s 32 (gq_count q - 1) in
  Some (Gc (delete a (gc_reqs s)) (GcreqQueue (gq_reqs q) (gq_terminate q) count) (gc_cur s) (gc_at s),
        gq_terminate q && (count <=? 1)).

Definition gcreq_enqueue_common (s : gcstate) (a : Z) : option (gcstate * bool) :=
  _ ← gc_reqs s !! a;
  let q := gc_queue s in
  Some (Gc (gc_reqs s) (GcreqQueue (gq_reqs q ++ [a]) (gq_terminate q) (gq_count q)) (gc_cur s) (gc_at s),
        match gq_reqs q with [] => true | _ => false end).
Definition gcreq_enqueue (s : gcstate) (a : Z) : option gcstate := fst <$> gcreq_enqueue_common s a.
Definition gcreq_requeue (s : gcstate) (a cb : Z) : option (gcstate * bool) :=
  g ← gc_reqs s !! a;
  gcreq_enqueue_common (Gc (<[a := gr_set_cb g cb]> (gc_reqs s)) (gc_queue s) (gc_cur s) (gc_at s)) a.

Definition gc_goto (s : gcstate) (pc : gc_pc) : gcstate := Gc (gc_reqs s) (gc_queue s) (gc_cur s) pc.

(** The loop of [gcreq_queue_thread] under the lock: the test, and taking a
    request when there is none.  Waiting is going round with nothing taken. *)
Definition gc_thread_top (s : gcstate) : gcstate :=
  let q := gc_queue s in
  if gq_terminate q && (gq_count q =? 0) then gc_goto s PcDone
  else
    match gc_cur s, gq_reqs q with
    | None, a :: reqs => Gc (gc_reqs s) (GcreqQueue reqs (gq_terminate q) (gq_count q)) (Some a) PcLease
    | _, _ => gc_goto s PcLease
    end.

(** An iteration of the check of the request. *)
Definition gc_thread_check (ts : list thread_state1) (s : gcstate) (a : Z) (g : gcreq) (i : nat) : option gcstate :=
  '(ivs, i) ← vtime_check_one ts (gr_vtimes g) i;
  Some (Gc (<[a := gr_set_vtimes g ivs]> (gc_reqs s)) (gc_queue s) (gc_cur s) (PcCheck i)).

Definition set_thread (ts : list thread_state1) (self : nat) (f : thread_state1 -> thread_state1)
  : option (list thread_state1) :=
  t ← ts !! self;
  Some (<[self := f t]> ts).

(** A step of [gcreq_queue_thread], whose own state is that of thread [self].
    When all threads have made progress it wakes up for the callback, otherwise
    it sleeps for a bit. *)
Definition gc_thread_step (self : nat) (ts : list thread_state1) (s : gcstate)
  : option (list thread_state1 * gcstate) :=
  match gc_at s with
  | PcTop => Some (ts, gc_thread_top s)
  | PcLease => ts ← set_thread ts self thread_state_awake; Some (ts, gc_goto s PcLeasing)
  | PcLeasing =>
    ts ← set_thread ts self thread_state_asleep;
    Some (ts, gc_goto s (match gc_cur s with Some _ => PcCheck 0 | None => PcTop end))
  | PcCheck i =>
    a ← gc_cur s;
    g ← gc_reqs s !! a;
    if (i <? length (gr_vtimes g))%nat then s ← gc_thread_check ts s a g i; Some (ts, s)
    else if (length (gr_vtimes g) =? 0)%nat then
      ts ← set_thread ts self thread_state_awake; Some (ts, gc_goto s PcCall)
    else Some (ts, gc_goto s PcTop)
  | PcCalled =>
    ts ← set_thread ts self thread_state_asleep;
    Some (ts, Gc (gc_reqs s) (gc_queue s) None PcTop)
  | PcCall | PcDone => None
  end.

(** What a callback does with its request: free it, as when the entity is freed;
    put it back with another callback; or pass it on to a thread that does
    ([gc_delete_proxy_writer_dqueue]). *)
Inductive gc_callback := CbFree | CbRequeue (cb : Z) | CbPassOn.

Definition gc_thread_call (s : gcstate) (c : gc_callback) : option gcstate :=
  match gc_at s with
  | PcCall =>
    a ← gc_cur s;
    s ← match c with
        | CbFree => fst <$> gcreq_free s a
        | CbRequeue cb => fst <$> gcreq_requeue s a cb
        | CbPassOn => Some s
        end;
    Some (gc_goto s PcCalled)
  | _ => None
  end.

(** The parts of [gcreq_queue_free] under the lock, the end of the wait for
    the last request, and what is left when the thread has ended. *)
Definition gcreq_queue_terminate (s : gcstate) : gcstate :=
  let q := gc_queue s in
  Gc (gc_reqs s) (GcreqQueue (gq_reqs q) true (gq_count q)) (gc_cur s) (gc_at s).
Definition gcreq_queue_quiet (s : gcstate) : bool := gq_count (gc_queue s) =? 1.
Definition gcreq_queue_joined (s : gcstate) : option unit :=
  match gq_reqs (gc_queue s) with [] => Some tt | _ => None end.

(** ** The lease of the service *)

(** [struct alive_wd], and the loop over the threads in [lease_renewal_thread]:
    what is noted of each, and how many count as alive. *)
Record alive_wd := AliveWd { av_alive : bool; av_wd : Z }.

Definition servicelease_init (ts : list thread_state1) : list alive_wd :=
  map (fun t => AliveWd true (wrap_u 32 (ts_watchdog t - 1))) ts.

Definition thread_progress (t : thread_state1) (av : alive_wd) : bool :=
  vtime_asleep_p (ts_vtime t) || vtime_asleep_p (ts_watchdog t) || vtime_gt (ts_watchdog t) (av_wd av).

Fixpoint servicelease_check (ts : list thread_state1) (avs : list alive_wd) (n_alive : Z) : list alive_wd * Z :=
  match ts, avs with
  | t :: ts, av :: avs =>
    if negb (bool_decide (ts_state t = THREAD_STATE_ALIVE)) then
      let '(avs, n_alive) := servicelease_check ts avs (n_alive + 1) in (av :: avs, n_alive)
    else
      let alive := thread_progress t av in
      let '(avs, n_alive) := servicelease_check ts avs (n_alive + (if alive then 1 else 0)) in
      (AliveWd alive (ts_watchdog t) :: avs, n_alive)
  | _, _ => (avs, n_alive)
  end.

(** An iteration of [lease_renewal_thread]: [tlast] and whether the lease is
    renewed. *)
Definition lease_renewal_step (ts : list thread_state1) (avs : list alive_wd) (tlast tnow : Z)
  : list alive_wd * Z * bool :=
  if tnow <? tlast + 100 * T_MILLISECOND then (avs, tlast, true)
  else
    let '(avs, n_alive) := servicelease_check ts avs 0 in
    (avs, tnow, n_alive =? Z.of_nat (length ts)).
