(* ===== verification/GcProps.v ===== *)
(** * What the garbage collector guarantees

    First the numbers of threads and their check; then the runs: any number of
    threads that find entities and say when they are awake, and a collector with
    requests, with the invariant that a request waits for every thread that may
    have a pointer to its entity.  Last the identities of threads and the lease of
    the service. *)

From Stdlib Require Import ZArith Lia.
From stdpp Require Import prelude gmap.
From S2P Require Import Prelude Time Gc.

(** ** The numbers of threads *)

Lemma vtime_gt_irrefl v : vtime_gt v v = false.
Proof. unfold vtime_gt. by rewrite Z.sub_diag. Qed.

(** Progress is seen, also when the number wraps around, as long as it is less
    than half of the numbers. *)
Lemma vtime_gt_progress v n : 0 < n < 2 ^ 31 -> vtime_gt (wrap_u 32 (v + n)) (wrap_u 32 v) = true.
Proof.
  intros Hn. unfold vtime_gt, wrap_s, wrap_u.
  rewrite <- Zminus_mod, Z.add_simpl_l, Z.mod_small by lia.
  change (2 ^ (32 - 1)) with (2 ^ 31). rewrite (proj2 (Z.ltb_lt n (2 ^ 31))) by lia.
  rewrite Z.gtb_ltb. apply Z.ltb_lt. lia.
Qed.

Lemma wrap_parity x : wrap_u 32 x mod 2 = x mod 2.
Proof.
  unfold wrap_u. change (2 ^ 32) with (2 * 2 ^ 31). rewrite Z.rem_mul_r by lia.
  rewrite (Z.mul_comm 2), Z_mod_plus_full. apply Z.mod_mod. lia.
Qed.

Lemma mod2_cases x : x mod 2 = 0 \/ x mod 2 = 1.
Proof. pose proof (Z.mod_pos_bound x 2 ltac:(lia)). lia. Qed.

Lemma mod2_add x k : (x + k) mod 2 = (x mod 2 + k mod 2) mod 2.
Proof. apply Z.add_mod. lia. Qed.

(** The case of a number by its parity. *)
Ltac parity v :=
  unfold vtime_awake_p, vtime_asleep_p, watchdog_odd, watchdog_even;
  let E := fresh "E" in
  destruct (mod2_cases v) as [E|E]; rewrite ?E; cbn [Z.eqb Pos.eqb negb];
  rewrite ?wrap_parity; try (rewrite mod2_add, E); reflexivity.

Lemma asleep_is_asleep t : vtime_awake_p (ts_vtime (thread_state_asleep t)) = false.
Proof. destruct t as [v wd tid st]. unfold thread_state_asleep. cbn [ts_vtime ts_set_clocks]. parity v. Qed.
Lemma awake_is_awake t : vtime_awake_p (ts_vtime (thread_state_awake t)) = true.
Proof. destruct t as [v wd tid st]. unfold thread_state_awake. cbn [ts_vtime ts_set_clocks]. parity v. Qed.
Lemma asleep_awake_p v : vtime_asleep_p v = negb (vtime_awake_p v).
Proof. parity v. Qed.

(** ** The check *)

Definition idx_ok (ts : list thread_state1) (iv : idx_vtime) : Prop :=
  is_Some (ts !! iv_idx iv) /\ vtime_awake_p (iv_vtime iv) = true.

(** The thread has not been seen to make progress. *)
Definition waiting (ts : list thread_state1) (iv : idx_vtime) : bool :=
  match ts !! iv_idx iv with Some t => negb (vtime_gt (ts_vtime t) (iv_vtime iv)) | None => true end.

(** The entry that is done is overwritten with the last one. *)
Lemma swap_out {A} (l1 : list A) x l2 :
  exists l2', l2' ≡ₚ l2 /\
    (ivs ← (if (length l1 + 1 <? length (l1 ++ x :: l2))%nat
            then l ← (l1 ++ x :: l2) !! (length (l1 ++ x :: l2) - 1)%nat; Some (<[length l1 := l]> (l1 ++ x :: l2))
            else Some (l1 ++ x :: l2));
     Some (take (length ivs - 1) ivs, length l1)) = Some (l1 ++ l2', length l1).
Proof.
  destruct l2 as [|l mid _] using rev_ind.
  - exists []. split; [done|]. rewrite length_app. simpl. rewrite Nat.ltb_irrefl. cbn [mbind option_bind].
    rewrite length_app. simpl. by rewrite Nat.add_sub, app_nil_r, take_app_length.
  - exists (l :: mid). split; [by rewrite Permutation_app_comm|].
    rewrite length_app. simpl. rewrite length_app. simpl.
    rewrite (proj2 (Nat.ltb_lt _ _)) by lia.
    replace (length l1 + S (length mid + 1) - 1)%nat with (length l1 + S (length mid))%nat by lia.
    rewrite lookup_app_r, Nat.add_comm, Nat.add_sub by lia. simpl. rewrite list_lookup_middle by done.
    cbn [mbind option_bind]. rewrite insert_app_r_alt, Nat.sub_diag by done. simpl. do 2 f_equal.
    change (l1 ++ l :: mid ++ [l]) with (l1 ++ (l :: mid) ++ [l]). rewrite (assoc_L (++)).
    rewrite take_app_le; [rewrite take_ge; [done|]|]; rewrite !length_app; simpl; lia.
Qed.

(** An iteration passes a thread that is still waited for, and takes one out that
    is not. *)
Lemma check_one_ok ts l1 iv l2 :
  Forall (idx_ok ts) (l1 ++ iv :: l2) ->
  exists l2', l2' ≡ₚ l2 /\ vtime_check_one ts (l1 ++ iv :: l2) (length l1) =
    Some (if waiting ts iv then (l1 ++ iv :: l2, S (length l1)) else (l1 ++ l2', length l1)).
Proof.
  intros [_ [[[t Ht] Haw] _]%Forall_cons]%Forall_app.
  destruct (swap_out l1 iv l2) as (l2' & Hp & E). exists l2'. split; [done|].
  unfold vtime_check_one, waiting. rewrite (list_lookup_middle l1 l2 iv _ eq_refl).
  cbn [mbind option_bind]. rewrite Ht. cbn [mbind option_bind]. rewrite Haw.
  destruct (vtime_gt (ts_vtime t) (iv_vtime iv)); [exact E|done].
Qed.

Lemma vtime_check_loop_ok ts l1 l2 fuel :
  Forall (idx_ok ts) (l1 ++ l2) -> (length l2 <= fuel)%nat ->
  exists l2', vtime_check_loop fuel ts (l1 ++ l2) (length l1) = Some (l1 ++ l2') /\
              l2' ≡ₚ filter (fun iv => waiting ts iv = true) l2.
Proof.
  revert l1 l2. induction fuel as [|fuel IH]; intros l1 l2 Hok Hf.
  - destruct l2; [|simpl in Hf; lia]. exists []. rewrite app_nil_r. simpl. by rewrite Nat.ltb_irrefl.
  - destruct l2 as [|iv l2].
    + exists []. rewrite app_nil_r. simpl. by rewrite Nat.ltb_irrefl.
    + simpl vtime_check_loop. rewrite (proj2 (Nat.ltb_lt _ _)) by (rewrite length_app; simpl; lia).
      destruct (check_one_ok ts l1 iv l2 Hok) as (l2' & Hp & ->). simpl in Hf.
      rewrite filter_cons. destruct (waiting ts iv) eqn:Ew; cbn [mbind option_bind].
      * rewrite decide_True by done.
        destruct (IH (l1 ++ [iv]) l2) as (r & E & Hr); [by rewrite <- (assoc_L (++))|lia|].
        rewrite length_app, Nat.add_1_r, <- !(assoc_L (++)) in E. cbn [app] in E. exists (iv :: r). split; [done|]. by rewrite Hr.
      * rewrite decide_False by done.
        destruct (IH l1 l2') as (r & E & Hr).
        { rewrite Hp. apply Forall_app in Hok as [? [? ?]%Forall_cons]. by apply Forall_app. }
        { rewrite Hp. lia. }
        exists r. split; [done|]. by rewrite Hr, Hp.
Qed.

(** [threads_vtime_check] ends, and leaves exactly the threads that have not made
    progress; it returns true when there are none. *)
Lemma threads_vtime_check_exact ts ivs :
  Forall (idx_ok ts) ivs ->
  exists ivs', threads_vtime_check ts ivs = Some (ivs', bool_decide (ivs' = [])) /\
               ivs' ≡ₚ filter (fun iv => waiting ts iv = true) ivs.
Proof.
  intros Hok. destruct (vtime_check_loop_ok ts [] ivs (length ivs)) as (r & E & Hr); [done|lia|].
  cbn [app length] in E. exists r. unfold threads_vtime_check. rewrite E. cbn [mbind option_bind]. split; [|done]. do 2 f_equal. by destruct r.
Qed.

(** ** Runs

    A thread that is awake gets pointers to entities that are linked, that is, can
    be found by others; it keeps them at most until the next time it says that it
    is asleep, or awake.  [r_held] has the pointers: thread and entity.  [r_alive]
    are the entities that have not been freed.  [r_new] are the requests of which
    the vtimes are being gathered, with the index of the loop; [r_out] those that
    are not (or no more) in the hands of the collector. *)
Record gcrun := Run {
  r_ts : list thread_state1;
  r_gc : gcstate;
  r_alive : gset Z;
  r_linked : gset Z;
  r_held : gset (nat * Z);
  r_new : gmap Z (gcreq * nat);
  r_out : gset Z }.

Inductive gc_op :=
| OAwake (i : nat) | OAsleep (i : nat) | OBlocked (i : nat) | OUnblocked (i : nat)
| OCreate | OStarted (i : nat) (tid : Z) | OJoin (i : nat)
| OLink (o : Z) | OUnlink (o : Z) | OLookup (i : nat) (o : Z)
| ONew (a cb : Z) (arg : option Z) | OGather (a : Z) | OReady (a : Z) | OClear (a : Z) | OEnqueue (a : Z)
| OTerminate | OGc | OCallback (c : gc_callback).

(** What thread [i] has pointers to is forgotten. *)
Definition drop_held (i : nat) (held : gset (nat * Z)) : gset (nat * Z) := filter (fun p => p.1 <> i) held.

Definition run_ts (r : gcrun) (ts : list thread_state1) : gcrun :=
  Run ts (r_gc r) (r_alive r) (r_linked r) (r_held r) (r_new r) (r_out r).
Definition run_gc (r : gcrun) (s : gcstate) : gcrun :=
  Run (r_ts r) s (r_alive r) (r_linked r) (r_held r) (r_new r) (r_out r).
Definition run_vtime (r : gcrun) (i : nat) (ts : list thread_state1) : gcrun :=
  Run ts (r_gc r) (r_alive r) (r_linked r) (drop_held i (r_held r)) (r_new r) (r_out r).
Definition run_request (r : gcrun) (new : gmap Z (gcreq * nat)) : gcrun :=
  Run (r_ts r) (r_gc r) (r_alive r) (r_linked r) (r_held r) new (r_out r).

Section Run.
Context (self : nat).
Implicit Types (r : gcrun) (s : gcstate).

(** The arguments of the callbacks that free their entity. *)
Definition freed_by s (c : gc_callback) : gset Z :=
  match c with
  | CbFree => match a ← gc_cur s; g ← gc_reqs s !! a; gr_arg g with Some o => {[ o ]} | None => ∅ end
  | _ => ∅
  end.

(** The request that is passed on. *)
Definition passed_on s (c : gc_callback) : gset Z :=
  match c, gc_cur s with CbPassOn, Some a => {[ a ]} | _, _ => ∅ end.

Definition gc_run_step r (op : gc_op) : option gcrun :=
  match op with
  | OAwake i => ts ← set_thread (r_ts r) i thread_state_awake; Some (run_vtime r i ts)
  | OAsleep i => ts ← set_thread (r_ts r) i thread_state_asleep; Some (run_vtime r i ts)
  | OBlocked i => run_ts r <$> set_thread (r_ts r) i thread_state_blocked
  | OUnblocked i => run_ts r <$> set_thread (r_ts r) i thread_state_unblocked
  | OCreate => '(ts, _) ← create_thread (r_ts r); Some (run_ts r ts)
  | OStarted i tid => run_ts r <$> create_thread_wrapper (r_ts r) i tid
  | OJoin i => run_ts r <$> join_thread (r_ts r) i
  | OLink o =>
    Some (Run (r_ts r) (r_gc r) ({[ o ]} ∪ r_alive r) ({[ o ]} ∪ r_linked r) (r_held r) (r_new r) (r_out r))
  | OUnlink o =>
    Some (Run (r_ts r) (r_gc r) (r_alive r) (r_linked r ∖ {[ o ]}) (r_held r) (r_new r) (r_out r))
  | OLookup i o =>
    Some (Run (r_ts r) (r_gc r) (r_alive r) (r_linked r) ({[ (i, o) ]} ∪ r_held r) (r_new r) (r_out r))
  | ONew a cb arg => Some (run_request r (<[a := (Gcreq cb arg [], 0%nat)]> (r_new r)))
  | OGather a =>
    '(g, i) ← r_new r !! a;
    ivs ← vtime_gather_one (r_ts r) i (gr_vtimes g);
    Some (run_request r (<[a := (gr_set_vtimes g ivs, S i)]> (r_new r)))
  | OReady a =>
    '(g, _) ← r_new r !! a;
    Some (Run (r_ts r) (gcreq_new (r_gc r) a (gr_cb g) (gr_arg g) (gr_vtimes g)) (r_alive r) (r_linked r) (r_held r)
              (delete a (r_new r)) ({[ a ]} ∪ r_out r))
  | OClear a =>
    g ← gc_reqs (r_gc r) !! a;
    let s := r_gc r in
    Some (run_gc r (Gc (<[a := gr_set_vtimes g []]> (gc_reqs s)) (gc_queue s) (gc_cur s) (gc_at s)))
  | OEnqueue a =>
    s ← gcreq_enqueue (r_gc r) a;
    Some (Run (r_ts r) s (r_alive r) (r_linked r) (r_held r) (r_new r) (r_out r ∖ {[ a ]}))
  | OTerminate => Some (run_gc r (gcreq_queue_terminate (r_gc r)))
  | OGc =>
    '(ts, s) ← gc_thread_step self (r_ts r) (r_gc r);
    Some (Run ts s (r_alive r) (r_linked r)
              (if decide (ts_vtime <$> ts !! self = ts_vtime <$> r_ts r !! self) then r_held r
               else drop_held self (r_held r))
              (r_new r) (r_out r))
  | OCallback c =>
    s ← gc_thread_call (r_gc r) c;
    Some (Run (r_ts r) s (r_alive r ∖ freed_by (r_gc r) c) (r_linked r) (r_held r) (r_new r)
              (passed_on (r_gc r) c ∪ r_out r))
  end.

(** Which request there is about an entity, with the threads it waits for and how
    far they have been gathered. *)
Definition about_in (reqs : gmap Z gcreq) (new : gmap Z (gcreq * nat)) (n : nat) (a : Z)
  : option (option Z * list idx_vtime * nat) :=
  match reqs !! a with
  | Some g => Some (gr_arg g, gr_vtimes g, n)
  | None => '(g, i) ← new !! a; Some (gr_arg g, gr_vtimes g, i)
  end.
Definition about r : Z -> option (option Z * list idx_vtime * nat) :=
  about_in (gc_reqs (r_gc r)) (r_new r) (length (r_ts r)).

Definition thread_alive (ts : list thread_state1) (i : nat) : Prop := exists t, ts !! i = Some t /\ ts_state t = THREAD_STATE_ALIVE.

(** A slot without a thread is asleep. *)
Definition free_asleep (t : thread_state1) : Prop :=
  ts_state t = THREAD_STATE_ZERO -> vtime_asleep_p (ts_vtime t) = true.

(** When an operation may happen.  Threads change only their own numbers; an
    entity that is linked is new; a request is made once for an entity, after it
    has been unlinked; the last request, which [gcreq_queue_free] makes, is about
    none and waits for none. *)
Definition gc_legal r (op : gc_op) : Prop :=
  match op with
  | OAwake i | OAsleep i => i <> self /\ thread_alive (r_ts r) i
  | OBlocked i | OUnblocked i | OStarted i _ => thread_alive (r_ts r) i
  | OCreate => is_Some (find_free_slot (r_ts r))
  | OJoin i => i <> self /\ exists t, r_ts r !! i = Some t /\ ts_state t = THREAD_STATE_ALIVE /\ vtime_awake_p (ts_vtime t) = false
  | OLink o => o ∉ r_alive r
  | OUnlink o => o ∈ r_linked r
  | OLookup i o => o ∈ r_linked r /\ exists t, r_ts r !! i = Some t /\ vtime_awake_p (ts_vtime t) = true
  | ONew a _ arg =>
    about r a = None /\
    match arg with
    | Some o => o ∈ r_alive r /\ (o ∉ r_linked r) /\ forall b ivs j, about r b <> Some (Some o, ivs, j)
    | None => True
    end
  | OGather a => exists g i, r_new r !! a = Some (g, i) /\ (i < length (r_ts r))%nat
  | OReady a =>
    (exists g, r_new r !! a = Some (g, length (r_ts r))) /\ gq_count (gc_queue (r_gc r)) < 2 ^ 31 - 1
  | OClear a => a ∈ r_out r /\ exists g, gc_reqs (r_gc r) !! a = Some g /\ gr_arg g = None
  | OEnqueue a => a ∈ r_out r
  | OTerminate => True
  | OGc => gc_at (r_gc r) <> PcCall /\ gc_at (r_gc r) <> PcDone
  | OCallback _ => gc_at (r_gc r) = PcCall
  end.

(** The collector starts among any threads. *)
Inductive gc_reachable : gcrun -> Prop :=
| gc_start ts : Forall free_asleep ts -> thread_alive ts self -> gc_reachable (Run ts gcreq_queue_new ∅ ∅ ∅ ∅ ∅)
| gc_more r op r' : gc_reachable r -> gc_legal r op -> gc_run_step r op = Some r' -> gc_reachable r'.

(** ** The invariant *)

Implicit Types (ts : list thread_state1) (alive linked : gset Z) (held : gset (nat * Z)) (new : gmap Z (gcreq * nat)).

(** A request waits for every thread that has a pointer to its entity, as far as
    the threads have been gathered, and the entity cannot be found any more. *)
Definition entry_ok ts alive linked held (e : option Z * list idx_vtime * nat) : Prop :=
  Forall (idx_ok ts) e.1.2 /\ (e.2 <= length ts)%nat /\
  forall o, e.1.1 = Some o ->
    o ∈ alive /\ (o ∉ linked) /\
    forall i t, (i, o) ∈ held -> (i < e.2)%nat -> ts !! i = Some t -> IdxVtime i (ts_vtime t) ∈ e.1.2.

(** Pointers are to entities that are alive, and only threads that are awake have
    them. *)
Definition held_ok ts alive held : Prop :=
  forall i o, (i, o) ∈ held -> o ∈ alive /\ exists t, ts !! i = Some t /\ vtime_awake_p (ts_vtime t) = true.

Definition once (ab : Z -> option (option Z * list idx_vtime * nat)) : Prop :=
  forall a b o e e', ab a = Some e -> ab b = Some e' -> e.1.1 = Some o -> e'.1.1 = Some o -> a = b.

Record mem_ok ts alive linked held (ab : Z -> option (option Z * list idx_vtime * nat)) : Prop := {
  mo_linked : linked ⊆ alive;
  mo_held : held_ok ts alive held;
  mo_entries : forall a e, ab a = Some e -> entry_ok ts alive linked held e;
  mo_once : once ab }.

(** The requests that the collector has: in the queue, or being worked on. *)
Definition in_hand s : list Z :=
  gq_reqs (gc_queue s) ++ match gc_at s, gc_cur s with PcCalled, _ => [] | _, Some a => [a] | _, None => [] end.

Record place_ok s new (out : gset Z) : Prop := {
  po_new : forall a, is_Some (gc_reqs s !! a) -> new !! a = None;
  po_nodup : NoDup (in_hand s);
  po_out : forall a, a ∈ in_hand s -> a ∉ out;
  po_reqs : forall a, is_Some (gc_reqs s !! a) <-> a ∈ out \/ a ∈ in_hand s;
  po_count : gq_count (gc_queue s) = Z.of_nat (size (gc_reqs s)) /\ gq_count (gc_queue s) < 2 ^ 31;
  po_pc : match gc_at s with
          | PcCheck _ => is_Some (gc_cur s)
          | PcCall => exists a g, gc_cur s = Some a /\ gc_reqs s !! a = Some g /\ gr_vtimes g = []
          | _ => True
          end }.

Record run_inv r : Prop := {
  ri_self : thread_alive (r_ts r) self;
  ri_free : Forall free_asleep (r_ts r);
  ri_mem : mem_ok (r_ts r) (r_alive r) (r_linked r) (r_held r) (about r);
  ri_place : place_ok (r_gc r) (r_new r) (r_out r) }.

(** Numbers of threads change, and those whose number does give up their pointers. *)
Lemma mem_threads ts ts' alive linked held held' ab :
  mem_ok ts alive linked held ab -> length ts' = length ts -> held' ⊆ held ->
  (forall i o, (i, o) ∈ held' -> ts_vtime <$> ts' !! i = ts_vtime <$> ts !! i) ->
  mem_ok ts' alive linked held' ab.
Proof.
  intros [Hl Hh He Ho] Hlen Hsub Hsame. split; [done| | |done].
  - intros i o Hi. destruct (Hh i o) as (Ha & t & Ht & Haw); [set_solver|]. split; [done|].
    pose proof (Hsame i o Hi) as Hs. rewrite Ht in Hs. destruct (ts' !! i) as [t'|]; [|done].
    injection Hs as Hs. exists t'. by rewrite Hs.
  - intros a e Ha. destruct (He a e Ha) as (Hi & Hj & Hw). split_and!; [|lia|].
    + eapply Forall_impl; [exact Hi|]. intros iv [Hs Hv]. split; [|done].
      apply lookup_lt_is_Some. rewrite Hlen. by apply lookup_lt_is_Some.
    + intros o Eo. destruct (Hw o Eo) as (? & ? & Hwait). split_and!; [done..|]. intros i t Hi' Hlt Ht.
      pose proof (Hsame i o Hi') as Hs. rewrite Ht in Hs. destruct (ts !! i) as [t0|] eqn:E0; [|done].
      injection Hs as ->. eapply Hwait; [set_solver|done|done].
Qed.

(** The entry of one address changes. *)
Lemma mem_entry ts alive linked held ab ab' a :
  mem_ok ts alive linked held ab -> (forall b, b <> a -> ab' b = ab b) ->
  (forall e, ab' a = Some e -> entry_ok ts alive linked held e /\
     forall o, e.1.1 = Some o -> (exists e0, ab a = Some e0 /\ e0.1.1 = Some o) \/
                               (forall b e0, ab b = Some e0 -> e0.1.1 <> Some o)) ->
  mem_ok ts alive linked held ab'.
Proof.
  intros [Hl Hh He Ho] Hne Ha.
  assert (Hold : forall b e o, ab' b = Some e -> e.1.1 = Some o ->
            (exists e0, ab b = Some e0 /\ e0.1.1 = Some o) \/ (b = a /\ forall c e0, ab c = Some e0 -> e0.1.1 <> Some o)).
  { intros b e o Hb Eo. destruct (decide (b = a)) as [->|Hn].
    - destruct (proj2 (Ha e Hb) o Eo); auto.
    - rewrite Hne in Hb by done. eauto. }
  split; [done|done| |].
  - intros b e Hb. destruct (decide (b = a)) as [->|Hn]; [by apply Ha|]. rewrite Hne in Hb by done. eauto.
  - intros b c o e e' Hb Hc Eb Ec.
    destruct (Hold b e o Hb Eb) as [(e0 & A & B)|[-> N]], (Hold c e' o Hc Ec) as [(e1 & A' & B')|[-> N']]; try done.
    + by eapply Ho.
    + by destruct (N' _ _ A).
    + by destruct (N _ _ A').
Qed.

Lemma about_reqs_insert reqs new n a g b :
  about_in (<[a := g]> reqs) new n b = if decide (b = a) then Some (gr_arg g, gr_vtimes g, n) else about_in reqs new n b.
Proof.
  unfold about_in. case_decide as Hd; [subst b; by rewrite lookup_insert_eq|by rewrite lookup_insert_ne by congruence].
Qed.
Lemma about_reqs_delete reqs new n a b :
  new !! a = None ->
  about_in (delete a reqs) new n b = if decide (b = a) then None else about_in reqs new n b.
Proof.
  intros Hn. unfold about_in. case_decide as Hd; [subst b; by rewrite lookup_delete_eq, Hn|by rewrite lookup_delete_ne by congruence].
Qed.
Lemma about_new_insert reqs new n a g i b :
  reqs !! a = None ->
  about_in reqs (<[a := (g, i)]> new) n b =
    if decide (b = a) then Some (gr_arg g, gr_vtimes g, i) else about_in reqs new n b.
Proof.
  intros Hn. unfold about_in. case_decide as Hd; [subst b; by rewrite Hn, lookup_insert_eq|by rewrite lookup_insert_ne by congruence].
Qed.
Lemma about_move reqs new n a g :
  reqs !! a = None -> new !! a = Some (g, n) ->
  forall b, about_in (<[a := g]> reqs) (delete a new) n b = about_in reqs new n b.
Proof.
  intros Hr Hn b. unfold about_in. destruct (decide (b = a)) as [->|Hne].
  - by rewrite lookup_insert_eq, Hr, Hn.
  - by rewrite lookup_insert_ne, lookup_delete_ne by congruence.
Qed.

Lemma mem_ext ts alive linked held ab ab' :
  (forall b, ab' b = ab b) -> mem_ok ts alive linked held ab -> mem_ok ts alive linked held ab'.
Proof.
  intros He Hm. eapply (mem_entry _ _ _ _ ab ab' 0); [done|auto|]. intros e E. rewrite He in E.
  split; [by eapply mo_entries|]. intros o Eo. left. eauto.
Qed.

Lemma drop_held_sub i held : drop_held i held ⊆ held.
Proof. unfold drop_held. intros p [_ Hp]%elem_of_filter. done. Qed.

(** ** Steps of threads *)

Lemma set_thread_ok ts i f : (i < length ts)%nat -> exists t, ts !! i = Some t /\ set_thread ts i f = Some (<[i := f t]> ts).
Proof. intros [t Ht]%lookup_lt_is_Some. exists t. split; [done|]. unfold set_thread. by rewrite Ht. Qed.

Lemma alive_insert ts i t' j :
  thread_alive ts j -> (j = i -> ts_state t' = THREAD_STATE_ALIVE) -> thread_alive (<[i := t']> ts) j.
Proof.
  intros (t & Ht & Hs) Hi. destruct (decide (j = i)) as [->|Hne].
  - exists t'. split; [|auto]. apply list_lookup_insert_eq. by eapply lookup_lt_Some.
  - exists t. by rewrite list_lookup_insert_ne by congruence.
Qed.

(** A thread changes its number. *)
Lemma step_vtime r i t t' :
  run_inv r -> r_ts r !! i = Some t -> ts_state t = THREAD_STATE_ALIVE -> ts_state t' = ts_state t ->
  run_inv (run_vtime r i (<[i := t']> (r_ts r))).
Proof.
  intros [Hs Hf Hm Hp] Ht Ha Hst. split; simpl; [apply alive_insert; congruence| | |done].
  - apply Forall_insert; [done|]. unfold free_asleep. congruence.
  - unfold about. simpl. rewrite length_insert. eapply mem_threads; [exact Hm|apply length_insert|apply drop_held_sub|].
    intros j o [Hne _]%elem_of_filter. simpl in Hne. by rewrite list_lookup_insert_ne by congruence.
Qed.

(** The number of a thread stays the same. *)
Lemma step_same r i t t' :
  run_inv r -> r_ts r !! i = Some t -> ts_vtime t' = ts_vtime t -> free_asleep t' ->
  (i = self -> ts_state t' = THREAD_STATE_ALIVE) -> run_inv (run_ts r (<[i := t']> (r_ts r))).
Proof.
  intros [Hs Hf Hm Hp] Ht Hv Hz Hi. split; simpl; [apply alive_insert; [done|auto]|by apply Forall_insert| |done].
  unfold about. simpl. rewrite length_insert. eapply mem_threads; [exact Hm|apply length_insert|done|].
  intros j o _. destruct (decide (j = i)) as [->|Hne].
  - rewrite list_lookup_insert_eq by by eapply lookup_lt_Some. rewrite Ht. simpl. by rewrite Hv.
  - by rewrite list_lookup_insert_ne by congruence.
Qed.

Lemma find_free_slot_ok ts i :
  find_free_slot ts = Some i -> exists t, ts !! i = Some t /\ ts_state t = THREAD_STATE_ZERO.
Proof.
  unfold find_free_slot. enough (forall k, free_slot_loop ts k None = Some i ->
    (k <= i)%nat /\ exists t, ts !! (i - k)%nat = Some t /\ ts_state t = THREAD_STATE_ZERO) as Hgen.
  { intros [_ H]%Hgen. by rewrite Nat.sub_0_r in H. }
  induction ts as [|t ts IH]; intros k; simpl; [done|].
  destruct (ts_state t) eqn:Et; simpl.
  - intros [= ->]. split; [done|]. exists t. by rewrite Nat.sub_diag.
  - intros (Hle & t' & Ht' & Hz)%IH. split; [lia|]. exists t'.
    by replace (i - k)%nat with (S (i - S k)) by lia.
Qed.

Lemma step_thread r op :
  run_inv r -> gc_legal r op ->
  match op with OAwake _ | OAsleep _ | OBlocked _ | OUnblocked _ | OCreate | OStarted _ _ | OJoin _ => True | _ => False end ->
  exists r', gc_run_step r op = Some r' /\ run_inv r'.
Proof.
  intros Hr Hl Hop. destruct op; try done; simpl in Hl; simpl gc_run_step; unfold set_thread, create_thread_wrapper.
  - destruct Hl as (_ & t & Ht & Ha). rewrite Ht. eexists. split; [done|]. by eapply step_vtime.
  - destruct Hl as (_ & t & Ht & Ha). rewrite Ht. eexists. split; [done|]. by eapply step_vtime.
  - destruct Hl as (t & Ht & Ha). rewrite Ht. eexists. split; [done|]. eapply step_same; [done|done|done| |done].
    intros H0. simpl in H0. congruence.
  - destruct Hl as (t & Ht & Ha). rewrite Ht. eexists. split; [done|]. eapply step_same; [done|done|done| |done].
    intros H0. simpl in H0. congruence.
  - destruct Hl as [i Hi]. destruct (find_free_slot_ok _ _ Hi) as (t & Ht & Hz).
    unfold create_thread, init_thread_state. rewrite Hi. cbn [mbind option_bind]. rewrite Ht. cbn [mbind option_bind].
    rewrite (proj1 (Forall_lookup _ _) (ri_free _ Hr) i t Ht Hz), orb_true_r. eexists. split; [done|].
    eapply step_same; [done|done|done|done|]. intros ->. destruct (ri_self _ Hr) as (t' & Ht' & Ha). congruence.
  - destruct Hl as (t & Ht & Ha). rewrite Ht. eexists. split; [done|]. eapply step_same; [done|done|done| |done].
    intros H0. simpl in H0. congruence.
  - destruct Hl as (Hne & t & Ht & Ha & Hv). unfold join_thread, reap_thread_state. rewrite Ht. cbn [mbind option_bind].
    rewrite bool_decide_eq_true_2, asleep_awake_p, Hv by done. simpl. eexists. split; [done|].
    eapply step_same; [done|done|done| |done]. intros _. simpl. by rewrite asleep_awake_p, Hv.
Qed.

(** ** Steps that link, find and unlink entities *)

Lemma step_link r o : run_inv r -> (o ∉ r_alive r) ->
  run_inv (Run (r_ts r) (r_gc r) ({[ o ]} ∪ r_alive r) ({[ o ]} ∪ r_linked r) (r_held r) (r_new r) (r_out r)).
Proof.
  intros [Hs Hf [Hl Hh He Ho] Hp] Hno. split; [done|done| |done]. split; simpl; [set_solver| | |done].
  - intros i o' Hi. destruct (Hh i o' Hi) as [? ?]. split; [set_solver|done].
  - intros a e Ha. destruct (He a e Ha) as (Hi & Hj & Hw). split_and!; [done|done|]. intros o' Eo.
    destruct (Hw o' Eo) as (? & ? & ?). split_and!; [set_solver|set_solver|done].
Qed.

Lemma step_unlink r o : run_inv r ->
  run_inv (Run (r_ts r) (r_gc r) (r_alive r) (r_linked r ∖ {[ o ]}) (r_held r) (r_new r) (r_out r)).
Proof.
  intros [Hs Hf [Hl Hh He Ho] Hp]. split; [done|done| |done]. split; simpl; [set_solver|done| |done].
  intros a e Ha. destruct (He a e Ha) as (Hi & Hj & Hw). split_and!; [done|done|]. intros o' Eo.
  destruct (Hw o' Eo) as (? & ? & ?). split_and!; [done|set_solver|done].
Qed.

(** Only what is linked is found, and there is no request about that. *)
Lemma step_lookup r i o t : run_inv r -> o ∈ r_linked r -> r_ts r !! i = Some t -> vtime_awake_p (ts_vtime t) = true ->
  run_inv (Run (r_ts r) (r_gc r) (r_alive r) (r_linked r) ({[ (i, o) ]} ∪ r_held r) (r_new r) (r_out r)).
Proof.
  intros [Hs Hf [Hl Hh He Ho] Hp] Ho' Ht Haw. split; [done|done| |done]. split; simpl; [done| | |done].
  - intros j o' [[= -> ->]%elem_of_singleton|Hj]%elem_of_union; [|by apply Hh]. split; [set_solver|eauto].
  - intros a e Ha. destruct (He a e Ha) as (Hi & Hj & Hw). split_and!; [done|done|]. intros o' Eo.
    destruct (Hw o' Eo) as (? & ? & Hwait). split_and!; [done|done|].
    intros j t' [[= -> ->]%elem_of_singleton|Hj']%elem_of_union; [done|by apply Hwait].
Qed.

(** ** Steps that make requests *)

Lemma about_None r a : about r a = None <-> gc_reqs (r_gc r) !! a = None /\ r_new r !! a = None.
Proof. unfold about, about_in. destruct (gc_reqs _ !! a), (r_new r !! a) as [[]|]; naive_solver. Qed.

Lemma place_new s new out a v : place_ok s new out -> gc_reqs s !! a = None -> place_ok s (<[a := v]> new) out.
Proof.
  intros [H1 H2 H3 H4 H5 H6] Ha. split; [|done..]. intros b Hb.
  rewrite lookup_insert_ne; [by apply H1|]. intros ->. rewrite Ha in Hb. by destruct Hb.
Qed.

Lemma step_new r a cb arg : run_inv r -> gc_legal r (ONew a cb arg) ->
  run_inv (run_request r (<[a := (Gcreq cb arg [], 0%nat)]> (r_new r))).
Proof.
  intros [Hs Hf Hm Hp] [[Ha Hn]%about_None Harg]. split; [done|done| |by apply place_new].
  eapply (mem_entry _ _ _ _ (about r) _ a); [exact Hm| |]; unfold about; simpl.
  - intros b Hb. rewrite about_new_insert by done. by rewrite decide_False.
  - intros e. rewrite about_new_insert, decide_True by done. intros [= <-]. simpl. split.
    + split_and!; [constructor|simpl; lia|]. simpl. intros o ->. destruct Harg as (? & ? & _). split_and!; [done|done|]. lia.
    + intros o ->. right. intros b [[x ivs] j] Hb Hx. simpl in Hx. subst x.
      destruct Harg as (_ & _ & Hno). exact (Hno b ivs j Hb).
Qed.

Lemma step_gather r a g i t : run_inv r -> r_new r !! a = Some (g, i) -> r_ts r !! i = Some t ->
  run_inv (run_request r (<[a := (gr_set_vtimes g
    (if vtime_awake_p (ts_vtime t) then gr_vtimes g ++ [IdxVtime i (ts_vtime t)] else gr_vtimes g), S i)]> (r_new r))).
Proof.
  intros [Hs Hf Hm Hp] Hn Ht. assert (Ha : gc_reqs (r_gc r) !! a = None).
  { destruct (gc_reqs (r_gc r) !! a) eqn:E; [|done]. rewrite (po_new _ _ _ Hp) in Hn; [done|eauto]. }
  split; [done|done| |by apply place_new].
  assert (Hab : about r a = Some (gr_arg g, gr_vtimes g, i)) by (unfold about, about_in; by rewrite Ha, Hn).
  destruct (mo_entries _ _ _ _ _ Hm _ _ Hab) as (Hi & Hj & Hw). simpl in Hi, Hj.
  eapply (mem_entry _ _ _ _ (about r) _ a); [exact Hm| |]; unfold about; simpl.
  - intros b Hb. rewrite about_new_insert by done. by rewrite decide_False.
  - intros e. rewrite about_new_insert, decide_True by done. intros [= <-]. simpl. split; [|intros o Eo; left; by eexists].
    assert (Hlt : (i < length (r_ts r))%nat) by (by eapply lookup_lt_Some). split_and!; simpl; [|lia|].
    + destruct (vtime_awake_p (ts_vtime t)) eqn:Eaw; [|done]. apply Forall_app. split; [done|].
      constructor; [|constructor]. split; simpl; [eauto|done].
    + intros o Eo. destruct (Hw o Eo) as (? & ? & Hwait). split_and!; [done|done|]. intros j t' Hjo Hlt' Ht'.
      destruct (decide (j = i)) as [->|Hne].
      * assert (t' = t) as -> by congruence. destruct (mo_held _ _ _ _ _ Hm i o Hjo) as (_ & t0 & Ht0 & Haw).
        assert (t0 = t) as -> by congruence. rewrite Haw. apply elem_of_app. right. by apply list_elem_of_singleton.
      * assert (IdxVtime j (ts_vtime t') ∈ gr_vtimes g) by (apply (Hwait j t'); [done|simpl; lia|done]).
        destruct (vtime_awake_p _); [apply elem_of_app; by left|done].
Qed.

Lemma not_in_hand s new out a : place_ok s new out -> gc_reqs s !! a = None -> (a ∉ out) /\ (a ∉ in_hand s).
Proof.
  intros Hp Ha. assert (Hn : ~ (a ∈ out \/ a ∈ in_hand s)).
  { intros H%(po_reqs _ _ _ Hp). rewrite Ha in H. by destruct H. }
  tauto.
Qed.

Lemma step_ready r a g : run_inv r -> r_new r !! a = Some (g, length (r_ts r)) ->
  gq_count (gc_queue (r_gc r)) < 2 ^ 31 - 1 ->
  run_inv (Run (r_ts r) (gcreq_new (r_gc r) a (gr_cb g) (gr_arg g) (gr_vtimes g)) (r_alive r) (r_linked r) (r_held r)
              (delete a (r_new r)) ({[ a ]} ∪ r_out r)).
Proof.
  intros [Hs Hf Hm Hp] Hn Hc. assert (Ha : gc_reqs (r_gc r) !! a = None).
  { destruct (gc_reqs (r_gc r) !! a) eqn:E; [|done]. rewrite (po_new _ _ _ Hp) in Hn; [done|eauto]. }
  destruct (not_in_hand _ _ _ _ Hp Ha) as [Hout Hhand]. destruct g as [cb arg ivs]. simpl.
  split; [done|done| |].
  - eapply mem_ext; [|exact Hm]. intros b. by apply about_move.
  - destruct Hp as [H1 H2 H3 H4 [H5 H5'] H6]. split; simpl.
    + intros b Hb. destruct (decide (b = a)) as [->|Hne]; [apply lookup_delete_eq|].
      rewrite lookup_delete_ne by done. apply H1. by rewrite lookup_insert_ne in Hb by done.
    + done.
    + intros b Hb. pose proof (H3 b Hb). apply not_elem_of_union. split; [|done].
      intros ->%elem_of_singleton. done.
    + intros b. rewrite lookup_insert. change (in_hand (gcreq_new (r_gc r) a cb arg ivs)) with (in_hand (r_gc r)).
      rewrite elem_of_union, elem_of_singleton. case_decide as Hd; [subst b; naive_solver|]. rewrite H4. naive_solver.
    + rewrite map_size_insert_None by done. rewrite wrap_s_small by (unfold in_s; lia). lia.
    + destruct (gc_at (r_gc r)); try done. destruct H6 as (b & g & Hb & Hg & Hv). exists b, g.
      rewrite lookup_insert_ne; [done|]. congruence.
Qed.

(** A request of the collector changes. *)
Lemma place_update s new out a g g' :
  place_ok s new out -> gc_reqs s !! a = Some g -> (gr_vtimes g = [] -> gr_vtimes g' = []) ->
  place_ok (Gc (<[a := g']> (gc_reqs s)) (gc_queue s) (gc_cur s) (gc_at s)) new out.
Proof.
  intros [H1 H2 H3 H4 H5 H6] Ha Hv. assert (Hiff : forall b, is_Some (<[a := g']> (gc_reqs s) !! b) <-> is_Some (gc_reqs s !! b)).
  { intros b. rewrite lookup_insert_is_Some. destruct (decide (a = b)) as [->|]; naive_solver. }
  split; simpl; [|done|done| | |].
  - intros b. rewrite Hiff. apply H1.
  - intros b. rewrite Hiff. apply H4.
  - rewrite map_size_insert, Ha. done.
  - destruct (gc_at s); try done. destruct H6 as (b & g0 & Hb & Hg & Hv0).
    destruct (decide (b = a)) as [->|Hne].
    + exists a, g'. rewrite lookup_insert_eq. split_and!; [done|done|]. apply Hv. congruence.
    + exists b, g0. by rewrite lookup_insert_ne.
Qed.

(** The threads it waits for change. *)
Lemma step_update r a g ivs pc : run_inv r -> gc_reqs (r_gc r) !! a = Some g ->
  entry_ok (r_ts r) (r_alive r) (r_linked r) (r_held r) (gr_arg g, ivs, length (r_ts r)) ->
  place_ok (Gc (<[a := gr_set_vtimes g ivs]> (gc_reqs (r_gc r))) (gc_queue (r_gc r)) (gc_cur (r_gc r)) pc) (r_new r) (r_out r) ->
  run_inv (run_gc r (Gc (<[a := gr_set_vtimes g ivs]> (gc_reqs (r_gc r))) (gc_queue (r_gc r)) (gc_cur (r_gc r)) pc)).
Proof.
  intros [Hs Hf Hm Hp] Ha He Hp'. split; [done|done| |done].
  assert (Hab : about r a = Some (gr_arg g, gr_vtimes g, length (r_ts r))) by (unfold about, about_in; by rewrite Ha).
  eapply (mem_entry _ _ _ _ (about r) _ a); [exact Hm| |]; unfold about; simpl.
  - intros b Hb. rewrite about_reqs_insert. by rewrite decide_False.
  - intros e. rewrite about_reqs_insert, decide_True by done. intros [= <-]. split; [done|].
    intros o Eo. left. by eexists.
Qed.

Lemma entry_none ts alive linked held : entry_ok ts alive linked held (None, [], length ts).
Proof. split_and!; simpl; [constructor|done|done]. Qed.

Lemma step_clear r a g : run_inv r -> gc_reqs (r_gc r) !! a = Some g -> gr_arg g = None ->
  run_inv (run_gc r (Gc (<[a := gr_set_vtimes g []]> (gc_reqs (r_gc r))) (gc_queue (r_gc r)) (gc_cur (r_gc r)) (gc_at (r_gc r)))).
Proof.
  intros Hr Ha Hg. apply step_update; [done|done|rewrite Hg; apply entry_none|].
  by eapply place_update; [apply (ri_place _ Hr)|exact Ha|].
Qed.

(** Steps that leave the requests as they are. *)
Lemma step_gc r s out :
  run_inv r -> gc_reqs s = gc_reqs (r_gc r) -> place_ok s (r_new r) out ->
  run_inv (Run (r_ts r) s (r_alive r) (r_linked r) (r_held r) (r_new r) out).
Proof. intros [Hs Hf Hm Hp] E Hp'. split; [done|done| |done]. unfold about. simpl. by rewrite E. Qed.

Lemma place_enqueue s new out a b :
  place_ok s new out -> a ∈ out ->
  place_ok (Gc (gc_reqs s) (GcreqQueue (gq_reqs (gc_queue s) ++ [a]) b (gq_count (gc_queue s))) (gc_cur s) (gc_at s))
    new (out ∖ {[ a ]}).
Proof.
  intros [H1 H2 H3 H4 H5 H6] Ha.
  set (s' := Gc _ _ _ _). assert (Hp : in_hand s' ≡ₚ a :: in_hand s).
  { unfold in_hand. simpl. rewrite <- (assoc_L (++)). symmetry. apply Permutation_middle. }
  assert (Hn : a ∉ in_hand s) by (intros Hin; by apply (H3 a)).
  split; simpl; [done| | | |done|done].
  - rewrite Hp. by constructor.
  - intros c. rewrite Hp, elem_of_cons. pose proof (H3 c). set_solver.
  - intros c. rewrite Hp, elem_of_cons, H4. destruct (decide (c = a)) as [->|]; set_solver.
Qed.

(** ** Steps of the collector *)

(** The collector goes on, with the same requests in hand. *)
Lemma place_goto s new out pc :
  place_ok s new out -> gc_at s <> PcCalled -> pc <> PcCalled ->
  match pc with
  | PcCheck _ => is_Some (gc_cur s)
  | PcCall => exists a g, gc_cur s = Some a /\ gc_reqs s !! a = Some g /\ gr_vtimes g = []
  | _ => True
  end -> place_ok (gc_goto s pc) new out.
Proof.
  intros [H1 H2 H3 H4 H5 H6] Hat Hpc Hok.
  assert (E : in_hand (gc_goto s pc) = in_hand s) by (unfold in_hand; simpl; by destruct pc, (gc_at s)).
  split; rewrite ?E; done.
Qed.

Lemma place_top s new out : place_ok s new out -> gc_at s = PcTop -> place_ok (gc_thread_top s) new out.
Proof.
  intros Hp Hat. unfold gc_thread_top. destruct (gq_terminate _ && _); [by apply place_goto; rewrite ?Hat|].
  destruct (gc_cur s) eqn:Ec; [by apply place_goto; rewrite ?Hat|].
  destruct (gq_reqs (gc_queue s)) as [|a reqs] eqn:Eq; [by apply place_goto; rewrite ?Hat|].
  destruct Hp as [H1 H2 H3 H4 H5 H6]. set (s' := Gc _ _ _ _).
  assert (E : in_hand s' ≡ₚ in_hand s).
  { unfold in_hand. simpl. rewrite Hat, Ec, Eq, app_nil_r. by rewrite Permutation_app_comm. }
  split; [done|by rewrite E|intros b; rewrite E; apply H3|intros b; rewrite E; apply H4|done|done].
Qed.

Lemma place_called s new out :
  place_ok s new out -> gc_at s = PcCalled -> place_ok (Gc (gc_reqs s) (gc_queue s) None PcTop) new out.
Proof.
  intros [H1 H2 H3 H4 H5 H6] Hat. set (s' := Gc _ _ _ _).
  assert (E : in_hand s' = in_hand s) by (unfold in_hand; by rewrite Hat).
  split; rewrite ?E; done.
Qed.

(** The collector changes its own number. *)
Lemma step_self r f :
  run_inv r -> (forall t, ts_state (f t) = ts_state t) ->
  exists ts', set_thread (r_ts r) self f = Some ts' /\
    run_inv (Run ts' (r_gc r) (r_alive r) (r_linked r)
      (if decide (ts_vtime <$> ts' !! self = ts_vtime <$> r_ts r !! self) then r_held r else drop_held self (r_held r))
      (r_new r) (r_out r)).
Proof.
  intros Hr Hf. destruct (ri_self _ Hr) as (t & Ht & Ha). exists (<[self := f t]> (r_ts r)).
  unfold set_thread. rewrite Ht. split; [done|].
  rewrite list_lookup_insert_eq by by eapply lookup_lt_Some. simpl. case_decide as Hd.
  - apply (step_same r self t (f t)); [done|done|congruence| |intros _; by rewrite Hf].
    intros Hz. rewrite Hf in Hz. congruence.
  - by eapply (step_vtime r self t (f t)).
Qed.

(** A thread that has a pointer to the entity is not taken out. *)
Lemma entry_check r a g l1 iv l2 l2' :
  run_inv r -> gc_reqs (r_gc r) !! a = Some g -> gr_vtimes g = l1 ++ iv :: l2 -> l2' ≡ₚ l2 -> waiting (r_ts r) iv = false ->
  entry_ok (r_ts r) (r_alive r) (r_linked r) (r_held r) (gr_arg g, l1 ++ l2', length (r_ts r)).
Proof.
  intros Hr Ha Hv Hp Hw.
  assert (Hab : about r a = Some (gr_arg g, gr_vtimes g, length (r_ts r))) by (unfold about, about_in; by rewrite Ha).
  destruct (mo_entries _ _ _ _ _ (ri_mem _ Hr) _ _ Hab) as (Hi & Hj & Hwait). simpl in *. rewrite Hv in Hi, Hwait.
  split_and!; simpl; [|done|].
  - apply Forall_app in Hi as [? [_ ?]%Forall_cons]. apply Forall_app. split; [done|by rewrite Hp].
  - intros o Eo. destruct (Hwait o Eo) as (? & ? & Hin). split_and!; [done|done|]. intros i t Hio Hlt Ht.
    pose proof (Hin i t Hio Hlt Ht) as Hm. rewrite elem_of_app, elem_of_cons in Hm. rewrite elem_of_app, Hp.
    destruct Hm as [?|[<-|?]]; [by left| |by right]. unfold waiting in Hw. simpl in Hw. rewrite Ht, vtime_gt_irrefl in Hw. done.
Qed.

Lemma step_check r a g i :
  run_inv r -> gc_at (r_gc r) = PcCheck i -> gc_cur (r_gc r) = Some a -> gc_reqs (r_gc r) !! a = Some g ->
  (i < length (gr_vtimes g))%nat ->
  exists s, gc_thread_check (r_ts r) (r_gc r) a g i = Some s /\ run_inv (run_gc r s).
Proof.
  intros Hr Hat Hc Ha Hi. pose proof (ri_place _ Hr) as Hp.
  destruct (lookup_lt_is_Some_2 _ _ Hi) as [iv Hiv]. pose proof (take_drop_middle _ _ _ Hiv) as Hsp.
  assert (Hl : length (take i (gr_vtimes g)) = i) by (rewrite length_take; lia).
  assert (Hab : about r a = Some (gr_arg g, gr_vtimes g, length (r_ts r))) by (unfold about, about_in; by rewrite Ha).
  pose proof (mo_entries _ _ _ _ _ (ri_mem _ Hr) _ _ Hab) as He. pose proof He as (Hidx & _). simpl in Hidx.
  destruct (check_one_ok (r_ts r) (take i (gr_vtimes g)) iv (drop (S i) (gr_vtimes g))) as (l2' & Hperm & E).
  { by rewrite Hsp. }
  rewrite Hsp, Hl in E. unfold gc_thread_check. rewrite E.
  assert (Hpl : forall ivs j, place_ok (Gc (<[a := gr_set_vtimes g ivs]> (gc_reqs (r_gc r))) (gc_queue (r_gc r)) (gc_cur (r_gc r)) (PcCheck j)) (r_new r) (r_out r)).
  { intros ivs j. apply (place_update (gc_goto (r_gc r) (PcCheck j)) (r_new r) (r_out r) a g (gr_set_vtimes g ivs)); [|done|].
    - apply place_goto; rewrite ?Hat; [done|done|done|]. by rewrite Hc.
    - intros H0. rewrite H0 in Hi. simpl in Hi. lia. }
  destruct (waiting (r_ts r) iv) eqn:Ew; cbn [mbind option_bind]; eexists; (split; [done|]); apply step_update; auto.
  eapply entry_check; [done|done|by symmetry|done|done].
Qed.

Lemma step_collector r : run_inv r -> gc_legal r OGc -> exists r', gc_run_step r OGc = Some r' /\ run_inv r'.
Proof.
  intros Hr [Hn1 Hn2]. pose proof (ri_place _ Hr) as Hp. simpl gc_run_step. unfold gc_thread_step.
  destruct (gc_at (r_gc r)) eqn:Hat; try done.
  - eexists. split; [done|]. rewrite decide_True by done. apply step_gc; [done| |by apply place_top].
    unfold gc_thread_top. by repeat case_match.
  - destruct (step_self r thread_state_awake Hr) as (ts' & -> & Hr'); [done|]. eexists. split; [done|].
    eapply (step_gc (Run ts' _ _ _ _ _ _)); [exact Hr'|done|]. by apply place_goto; rewrite ?Hat.
  - destruct (step_self r thread_state_asleep Hr) as (ts' & -> & Hr'); [done|]. eexists. split; [done|].
    eapply (step_gc (Run ts' _ _ _ _ _ _)); [exact Hr'|done|].
    apply place_goto; rewrite ?Hat; [done|done|by destruct (gc_cur _)|by destruct (gc_cur _)].
  - pose proof (po_pc _ _ _ Hp) as Hpc. rewrite Hat in Hpc. destruct Hpc as [a Hc]. rewrite Hc. cbn [mbind option_bind].
    assert (is_Some (gc_reqs (r_gc r) !! a)) as [g Ha].
    { apply (po_reqs _ _ _ Hp). right. unfold in_hand. rewrite Hat, Hc. apply elem_of_app. right. by apply list_elem_of_singleton. }
    rewrite Ha. cbn [mbind option_bind]. destruct (Nat.ltb_spec i (length (gr_vtimes g))) as [Hi|Hi].
    + destruct (step_check r a g i) as (s & -> & Hr'); [done..|]. eexists. split; [done|]. by rewrite decide_True.
    + destruct (Nat.eqb_spec (length (gr_vtimes g)) 0) as [H0|H0].
      * destruct (step_self r thread_state_awake Hr) as (ts' & -> & Hr'); [done|]. eexists. split; [done|].
        eapply (step_gc (Run ts' _ _ _ _ _ _)); [exact Hr'|done|].
        apply place_goto; rewrite ?Hat; [done|done|done|]. exists a, g. split_and!; [done|done|]. by apply nil_length_inv.
      * eexists. split; [done|]. rewrite decide_True by done. apply step_gc; [done|done|]. by apply place_goto; rewrite ?Hat.
  - destruct (step_self r thread_state_asleep Hr) as (ts' & -> & Hr'); [done|]. eexists. split; [done|].
    eapply (step_gc (Run ts' _ _ _ _ _ _)); [exact Hr'|done|]. by apply place_called.
Qed.

(** ** Callbacks *)

(** The request in hand is given up, and freed or put somewhere else. *)
Lemma in_hand_call s : gc_at s = PcCall -> forall a, gc_cur s = Some a -> in_hand s = gq_reqs (gc_queue s) ++ [a].
Proof. intros Hat a Hc. unfold in_hand. by rewrite Hat, Hc. Qed.

Lemma place_free s new out a g :
  place_ok s new out -> gc_at s = PcCall -> gc_cur s = Some a -> gc_reqs s !! a = Some g ->
  let q := gc_queue s in
  place_ok (Gc (delete a (gc_reqs s)) (GcreqQueue (gq_reqs q) (gq_terminate q) (wrap_s 32 (gq_count q - 1))) (gc_cur s) PcCalled)
    new out.
Proof.
  intros [H1 H2 H3 H4 [H5 H5'] H6] Hat Hc Ha q. rewrite (in_hand_call s Hat a Hc) in H2, H3, H4.
  apply NoDup_app in H2 as (Hnd & Hdis & _).
  set (s' := Gc _ _ _ _). assert (E : in_hand s' = gq_reqs (gc_queue s)) by (unfold in_hand; simpl; by rewrite app_nil_r).
  split; rewrite ?E; simpl; [|done| | | |done].
  - intros b [_ Hb]%lookup_delete_is_Some. by apply H1.
  - intros b Hb. apply H3. apply elem_of_app. by left.
  - intros b. rewrite lookup_delete_is_Some, H4, elem_of_app, list_elem_of_singleton.
    assert (b = a -> (b ∉ out) /\ (b ∉ gq_reqs (gc_queue s))); [|naive_solver].
    intros ->. split; [apply H3, elem_of_app; right; by apply list_elem_of_singleton|].
    intros Hin. apply (Hdis a Hin). by apply list_elem_of_singleton.
  - assert (Hsz : size (gc_reqs s) <> 0%nat).
    { intros H0%map_size_empty_inv. by rewrite H0 in Ha. }
    rewrite map_size_delete, Ha. simpl. unfold q. rewrite wrap_s_small by (unfold in_s; lia). lia.
Qed.

Lemma place_requeue s new out a g cb :
  place_ok s new out -> gc_at s = PcCall -> gc_cur s = Some a -> gc_reqs s !! a = Some g ->
  let q := gc_queue s in
  place_ok (Gc (<[a := gr_set_cb g cb]> (gc_reqs s)) (GcreqQueue (gq_reqs q ++ [a]) (gq_terminate q) (gq_count q)) (gc_cur s) PcCalled)
    new out.
Proof.
  intros Hp Hat Hc Ha q.
  pose proof (place_update s new out a g (gr_set_cb g cb) Hp Ha (fun H => H)) as [H1 H2 H3 H4 H5 H6]. simpl in *.
  set (s' := Gc _ _ _ _). assert (E : in_hand s' = in_hand s).
  { rewrite (in_hand_call s Hat a Hc). unfold in_hand. simpl. by rewrite app_nil_r. }
  split; rewrite ?E; done.
Qed.

Lemma place_pass s new out a :
  place_ok s new out -> gc_at s = PcCall -> gc_cur s = Some a -> place_ok (gc_goto s PcCalled) new ({[ a ]} ∪ out).
Proof.
  intros [H1 H2 H3 H4 H5 H6] Hat Hc. rewrite (in_hand_call s Hat a Hc) in H2, H3, H4.
  apply NoDup_app in H2 as (Hnd & Hdis & _).
  assert (E : in_hand (gc_goto s PcCalled) = gq_reqs (gc_queue s)) by (unfold in_hand; simpl; by rewrite app_nil_r).
  split; rewrite ?E; simpl; [done|done| | |done|done].
  - intros b Hb. apply not_elem_of_union. split.
    + intros ->%elem_of_singleton. apply (Hdis a Hb). by apply list_elem_of_singleton.
    + apply H3, elem_of_app. by left.
  - intros b. rewrite H4, elem_of_union, elem_of_singleton, elem_of_app, list_elem_of_singleton. tauto.
Qed.

(** No thread has a pointer to the entity of a request that waits for none. *)
Lemma mem_free r a g :
  run_inv r -> gc_reqs (r_gc r) !! a = Some g -> gr_vtimes g = [] ->
  let freed := match gr_arg g with Some o => {[ o ]} | None => ∅ end in
  mem_ok (r_ts r) (r_alive r ∖ freed) (r_linked r) (r_held r)
    (about_in (delete a (gc_reqs (r_gc r))) (r_new r) (length (r_ts r))).
Proof.
  intros Hr Ha Hv freed. destruct (ri_mem _ Hr) as [Hl Hh He Ho].
  assert (Hab : about r a = Some (gr_arg g, [], length (r_ts r))) by (unfold about, about_in; by rewrite Ha, Hv).
  assert (Hn : r_new r !! a = None) by (apply (po_new _ _ _ (ri_place _ Hr)); eauto).
  assert (Hno : forall o, o ∈ freed -> gr_arg g = Some o) by (unfold freed; destruct (gr_arg g); set_solver).
  destruct (He _ _ Hab) as (_ & _ & Hw). simpl in Hw.
  assert (Hold : forall b e, about_in (delete a (gc_reqs (r_gc r))) (r_new r) (length (r_ts r)) b = Some e -> b <> a /\ about r b = Some e).
  { intros b e. rewrite about_reqs_delete by done. by case_decide. }
  split.
  - intros o Hin. apply elem_of_difference. split; [auto|]. intros Hf%Hno. by destruct (Hw o Hf) as (_ & ? & _).
  - intros i o Hi. destruct (Hh i o Hi) as (Hal & t & Ht & Haw). split; [|eauto].
    apply elem_of_difference. split; [done|]. intros Hf%Hno. destruct (Hw o Hf) as (_ & _ & Hwait).
    apply (not_elem_of_nil (IdxVtime i (ts_vtime t))), (Hwait i t); [done|by eapply lookup_lt_Some|done].
  - intros b e [Hne Hb]%Hold. destruct (He b e Hb) as (Hi & Hj & Hwb). split_and!; [done|done|].
    intros o Eo. destruct (Hwb o Eo) as (? & ? & ?). split_and!; [|done|done].
    apply elem_of_difference. split; [done|]. intros Hf%Hno. apply Hne. by eapply (Ho b a o).
  - intros b c o e e' [_ Hb]%Hold [_ Hc]%Hold. by eapply Ho.
Qed.

Lemma step_callback r c : run_inv r -> gc_at (r_gc r) = PcCall -> exists r', gc_run_step r (OCallback c) = Some r' /\ run_inv r'.
Proof.
  intros Hr Hat. pose proof (ri_place _ Hr) as Hp. pose proof (po_pc _ _ _ Hp) as Hpc. rewrite Hat in Hpc.
  destruct Hpc as (a & g & Hc & Ha & Hv). simpl gc_run_step. unfold gc_thread_call, freed_by, passed_on.
  rewrite Hat, Hc. cbn [mbind option_bind]. destruct c as [|cb|].
  - unfold gcreq_free. rewrite Ha. cbn [mbind option_bind fmap option_fmap option_map fst]. eexists. split; [done|].
    pose proof (mem_free r a g Hr Ha Hv) as Hm. pose proof (place_free _ _ _ _ _ Hp Hat Hc Ha) as Hp'.
    destruct Hr as [Hs Hf _ _]. split; simpl; [done|done|exact Hm|]. rewrite (left_id_L ∅ (∪)). exact Hp'.
  - unfold gcreq_requeue, gcreq_enqueue_common. rewrite Ha. cbn [mbind option_bind]. simpl.
    rewrite lookup_insert_eq. simpl. eexists. split; [done|]. rewrite (left_id_L ∅ (∪)), difference_empty_L.
    pose proof (place_requeue _ _ _ _ _ cb Hp Hat Hc Ha) as Hp'.
    destruct Hr as [Hs Hf Hm _]. split; simpl; [done|done| |exact Hp'].
    eapply mem_ext; [|exact Hm]. intros b. unfold about. simpl. rewrite about_reqs_insert.
    case_decide as Hd; [subst b; unfold about_in; by rewrite Ha|done].
  - simpl. eexists. split; [done|]. rewrite difference_empty_L. apply step_gc; [done|done|]. by apply place_pass.
Qed.

Lemma gc_step_ok r op : run_inv r -> gc_legal r op -> exists r', gc_run_step r op = Some r' /\ run_inv r'.
Proof.
  intros Hr Hl. destruct op; try (by apply step_thread); simpl in Hl.
  - eexists. split; [done|]. by apply step_link.
  - eexists. split; [done|]. by apply step_unlink.
  - destruct Hl as (Ho & t & Ht & Haw). eexists. split; [done|]. by eapply step_lookup.
  - eexists. split; [done|]. by apply step_new.
  - destruct Hl as (g & i & Hn & [t Ht]%lookup_lt_is_Some). simpl. rewrite Hn. cbn [mbind option_bind].
    unfold vtime_gather_one. rewrite Ht. eexists. split; [done|]. by apply step_gather.
  - destruct Hl as ((g & Hn) & Hc). simpl. rewrite Hn. eexists. split; [done|]. by apply step_ready.
  - destruct Hl as (_ & g & Ha & Hg). simpl. rewrite Ha. eexists. split; [done|]. by apply step_clear.
  - pose proof (ri_place _ Hr) as Hp. destruct (proj2 (po_reqs _ _ _ Hp a) (or_introl Hl)) as [g Ha].
    simpl. unfold gcreq_enqueue, gcreq_enqueue_common. rewrite Ha. eexists. split; [done|].
    apply step_gc; [done|done|]. by apply place_enqueue.
  - eexists. split; [done|]. apply step_gc; [done|done|]. by destruct (ri_place _ Hr).
  - by apply step_collector.
  - by apply step_callback.
Qed.

Lemma gc_reachable_ok r : gc_reachable r -> run_inv r.
Proof.
  induction 1 as [ts Hf Ha|r op r' _ IH Hl Hs].
  - split; [done|done| |]; simpl.
    + split; [done|by intros ? ? ?%elem_of_empty|done|]. intros a b o e e' Ha'. done.
    + split; change (in_hand gcreq_queue_new) with (@nil Z); simpl.
      * done.
      * constructor.
      * by intros a Ha'%elem_of_nil.
      * intros a. rewrite lookup_empty. split; [by intros []|]. intros [?%elem_of_empty|?%elem_of_nil]; done.
      * done.
      * done.
  - destruct (gc_step_ok r op IH Hl) as (r1 & Hs1 & Hok). rewrite Hs in Hs1. by injection Hs1 as <-.
Qed.

(** ** What the collector guarantees *)

(** C21: In every run of the garbage collector each operation that may happen
    succeeds (no assertion fails, no freed request is looked at and no array is
    overrun), and no thread has a pointer to an entity that has been freed:
    a thread that was awake when the request was made, and so may have found the
    entity, has been asleep or awake anew before it is freed, however the
    gathering and checking of the numbers is interleaved with the threads. *)
Theorem gc_never_dangles r op :
  gc_reachable r -> gc_legal r op ->
  exists r', gc_run_step r op = Some r' /\ run_inv r' /\
    forall i o, (i, o) ∈ r_held r' -> o ∈ r_alive r'.
Proof.
  intros Hr Hl. destruct (gc_step_ok r op (gc_reachable_ok r Hr) Hl) as (r' & Hs & Hok).
  exists r'. split_and!; [done|done|]. intros i o Hi. by apply (mo_held _ _ _ _ _ (ri_mem _ Hok) i o).
Qed.

(** A thread has changed its number, less than half of the numbers ago. *)
Definition progressed ts (iv : idx_vtime) : Prop :=
  exists t n, ts !! iv_idx iv = Some t /\ 0 < n < 2 ^ 31 /\ ts_vtime t = wrap_u 32 (iv_vtime iv + n).

Lemma progressed_not_waiting ts iv : progressed ts iv -> waiting ts iv = false.
Proof.
  intros (t & n & Ht & Hn & Hv). unfold waiting. rewrite Ht, Hv.
  unfold vtime_gt, wrap_s, wrap_u. rewrite Zminus_mod_idemp_l, Z.add_simpl_l, Z.mod_small by lia.
  change (2 ^ (32 - 1)) with (2 ^ 31). rewrite (proj2 (Z.ltb_lt n (2 ^ 31))) by lia.
  by rewrite Z.gtb_ltb, (proj2 (Z.ltb_lt 0 n)) by lia.
Qed.

(** The first thread is taken out of the request. *)
Lemma check_takes r a g iv l :
  run_inv r -> gc_at (r_gc r) = PcCheck 0 -> gc_cur (r_gc r) = Some a -> gc_reqs (r_gc r) !! a = Some g ->
  gr_vtimes g = iv :: l -> progressed (r_ts r) iv ->
  exists l', l' ≡ₚ l /\ gc_run_step r OGc =
    Some (run_gc r (Gc (<[a := gr_set_vtimes g l']> (gc_reqs (r_gc r))) (gc_queue (r_gc r)) (Some a) (PcCheck 0))).
Proof.
  intros Hr Hat Hc Ha Eg Hiv.
  assert (Hab : about r a = Some (gr_arg g, gr_vtimes g, length (r_ts r))) by (unfold about, about_in; by rewrite Ha).
  destruct (mo_entries _ _ _ _ _ (ri_mem _ Hr) _ _ Hab) as [Hidx _]. simpl in Hidx. rewrite Eg in Hidx.
  destruct (check_one_ok (r_ts r) [] iv l Hidx) as (l' & Hp & E). exists l'. split; [done|].
  rewrite (progressed_not_waiting _ _ Hiv) in E. cbn [app length] in E.
  simpl. unfold gc_thread_step. rewrite Hat, Hc. cbn [mbind option_bind]. rewrite Ha. cbn [mbind option_bind].
  unfold gc_thread_check. rewrite Eg. cbn [length Nat.ltb Nat.leb]. rewrite E. cbn [mbind option_bind].
  rewrite decide_True by done. by rewrite Hc.
Qed.

(** C22: A request is granted: once every thread it waits for has changed its
    number, also past the wrap-around, the check takes all of them out, one in
    each iteration, and the callback is called. *)
Theorem gc_request_granted r a g :
  gc_reachable r -> gc_at (r_gc r) = PcCheck 0 -> gc_cur (r_gc r) = Some a -> gc_reqs (r_gc r) !! a = Some g ->
  Forall (progressed (r_ts r)) (gr_vtimes g) ->
  exists r', nsteps (fun r r' => gc_run_step r OGc = Some r') (S (length (gr_vtimes g))) r r' /\
    gc_at (r_gc r') = PcCall /\ gc_cur (r_gc r') = Some a.
Proof.
  intros Hr. apply gc_reachable_ok in Hr. remember (length (gr_vtimes g)) as n eqn:En.
  revert r g Hr En. induction n as [|n IH]; intros r g Hr En Hat Hc Ha Hall;
    (destruct (step_collector r Hr) as (r' & Hs & Hr'); [split; by rewrite Hat|]).
  - exists r'. split; [by apply nsteps_once|]. revert Hs. simpl. unfold gc_thread_step.
    rewrite Hat, Hc. cbn [mbind option_bind]. rewrite Ha. cbn [mbind option_bind]. rewrite <- En. simpl.
    destruct (set_thread _ _ _); [|done]. simpl. by intros [= <-].
  - destruct (gr_vtimes g) as [|iv l] eqn:Eg; [done|]. injection En as En. apply Forall_cons in Hall as [Hiv Hall].
    destruct (check_takes r a g iv l Hr Hat Hc Ha Eg Hiv) as (l' & Hp & E). rewrite E in Hs. injection Hs as <-.
    destruct (IH _ (gr_set_vtimes g l') Hr') as (r2 & Hn & Hpost); simpl; [by rewrite En, Hp|done|done| |by rewrite Hp|].
    + by rewrite lookup_insert_eq.
    + exists r2. split; [|done]. by eapply nsteps_l.
Qed.

(** The thread ends only when it is told to and there are no requests. *)
Lemma collector_ends r r' :
  gc_run_step r OGc = Some r' -> gc_at (r_gc r') = PcDone ->
  gq_terminate (gc_queue (r_gc r')) = true /\ gq_count (gc_queue (r_gc r')) = 0.
Proof.
  simpl. unfold gc_thread_step. destruct (gc_at (r_gc r)); simpl.
  - intros [= <-]. simpl. unfold gc_thread_top.
    destruct (gq_terminate _) eqn:Et, (Z.eqb_spec (gq_count (gc_queue (r_gc r))) 0); simpl; try done;
      repeat case_match; done.
  - destruct (set_thread _ _ _); [|done]. by intros [= <-].
  - destruct (set_thread _ _ _); [|done]. intros [= <-]. simpl. by case_match.
  - destruct (gc_cur _) as [a|]; [|done]. simpl. destruct (_ !! a) as [g|]; [|done]. simpl.
    case_match; [|case_match].
    + unfold gc_thread_check. destruct (vtime_check_one _ _ _) as [[? ?]|]; [|done]. by intros [= <-].
    + destruct (set_thread _ _ _); [|done]. by intros [= <-].
    + by intros [= <-].
  - done.
  - destruct (set_thread _ _ _); [|done]. by intros [= <-].
  - done.
Qed.

(** When [gcreq_queue_free] has waited until its own request is the only one, the
    queue is empty and the collector has nothing in hand; and when the thread
    ends there are no requests left, so that the assertion after it has been
    joined holds. *)
Theorem gc_shutdown r :
  gc_reachable r ->
  (forall a, gcreq_queue_quiet (r_gc r) = true -> a ∈ r_out r -> in_hand (r_gc r) = []) /\
  (forall r', gc_run_step r OGc = Some r' -> gc_at (r_gc r') = PcDone ->
     gq_terminate (gc_queue (r_gc r')) = true /\ gc_reqs (r_gc r') = ∅ /\ gcreq_queue_joined (r_gc r') = Some tt).
Proof.
  intros Hr. split.
  - intros a Hq Ha. pose proof (ri_place _ (gc_reachable_ok r Hr)) as [_ _ Hout Hreq [Hcnt _] _].
    unfold gcreq_queue_quiet in Hq. apply Z.eqb_eq in Hq. destruct (in_hand (r_gc r)) as [|b l] eqn:E; [done|].
    assert (Hne : a <> b) by (intros ->; by apply (Hout b (list_elem_of_here _ _))).
    destruct (proj2 (Hreq a) (or_introl Ha)) as [ga Hga], (proj2 (Hreq b) (or_intror (list_elem_of_here _ _))) as [gb Hgb].
    assert (2 <= size (gc_reqs (r_gc r)))%nat; [|lia].
    rewrite <- (insert_delete_id _ _ _ Hga), map_size_insert_None by apply lookup_delete_eq.
    rewrite <- (insert_delete_id (delete a (gc_reqs (r_gc r))) b gb) by by rewrite lookup_delete_ne.
    rewrite map_size_insert_None by apply lookup_delete_eq. lia.
  - intros r' Hs Hd. destruct (gc_step_ok r OGc) as (r1 & Hs1 & Hok).
    { by apply gc_reachable_ok. }
    { split; intros Hat; simpl in Hs; unfold gc_thread_step in Hs; by rewrite Hat in Hs. }
    rewrite Hs in Hs1. injection Hs1 as <-. destruct (ri_place _ Hok) as [_ _ _ Hreq [Hcnt _] _].
    destruct (collector_ends r r' Hs Hd) as [Ht H0].
    assert (He : gc_reqs (r_gc r') = ∅) by (apply map_size_empty_inv; lia).
    split_and!; [done|done|]. unfold gcreq_queue_joined. destruct (gq_reqs _) as [|b l] eqn:Eq; [done|].
    assert (Hb : is_Some (gc_reqs (r_gc r') !! b)).
    { apply Hreq. right. unfold in_hand. rewrite Eq. apply elem_of_app. left. apply list_elem_of_here. }
    rewrite He in Hb. by destruct Hb.
Qed.

(** ** Deciding what may happen *)

Definition is_alive ts (i : nat) : bool :=
  match ts !! i with Some t => bool_decide (ts_state t = THREAD_STATE_ALIVE) | None => false end.
Definition is_awake ts (i : nat) : bool := match ts !! i with Some t => vtime_awake_p (ts_vtime t) | None => false end.

Definition gc_legalb r (op : gc_op) : bool :=
  match op with
  | OAwake i | OAsleep i => negb (i =? self)%nat && is_alive (r_ts r) i
  | OLink o => bool_decide (o ∉ r_alive r)
  | OUnlink o => bool_decide (o ∈ r_linked r)
  | OLookup i o => bool_decide (o ∈ r_linked r) && is_awake (r_ts r) i
  | ONew _ _ (Some o) =>
    bool_decide (o ∈ r_alive r) && bool_decide (o ∉ r_linked r) &&
    bool_decide (gc_reqs (r_gc r) = ∅) && bool_decide (r_new r = ∅)
  | OGather a => match r_new r !! a with Some (_, i) => (i <? length (r_ts r))%nat | None => false end
  | OReady a =>
    match r_new r !! a with Some (_, i) => (i =? length (r_ts r))%nat | None => false end &&
    (gq_count (gc_queue (r_gc r)) <? 2 ^ 31 - 1)
  | OEnqueue a => bool_decide (a ∈ r_out r)
  | OGc => negb (bool_decide (gc_at (r_gc r) = PcCall)) && negb (bool_decide (gc_at (r_gc r) = PcDone))
  | OCallback _ => bool_decide (gc_at (r_gc r) = PcCall)
  | OTerminate => true
  | _ => false
  end.

#[local] Instance gcreq_eq_dec : EqDecision gcreq.
Proof. intros ? ?. unfold Decision. repeat decide equality. Defined.

Lemma gc_legalb_ok r op : gc_legalb r op = true -> gc_legal r op.
Proof.
  assert (Hal : forall i, is_alive (r_ts r) i = true -> thread_alive (r_ts r) i).
  { intros i. unfold is_alive, thread_alive. destruct (r_ts r !! i) as [t|]; [|done].
    intros Ht%bool_decide_eq_true. by exists t. }
  destruct op as [i|i|i|i| |i tid|i|o|o|i o|a cb [o|]|a|a|a|a| | |c]; simpl; try done;
    rewrite ?andb_true_iff, ?bool_decide_eq_true, ?negb_true_iff, ?bool_decide_eq_false; try done.
  - intros [?%Nat.eqb_neq ?]. auto.
  - intros [?%Nat.eqb_neq ?]. auto.
  - unfold is_awake. destruct (r_ts r !! i) as [t|] eqn:Et; [|intros [? ?]; done]. intros [? ?]. split; [done|by exists t].
  - intros [[[? ?] He] Hn]. unfold about, about_in. rewrite He, Hn. done.
  - destruct (r_new r !! a) as [[g i]|]; [|done]. intros ?%Nat.ltb_lt. by exists g, i.
  - destruct (r_new r !! a) as [[g i]|]; [|by intros [? ?]]. intros [->%Nat.eqb_eq ?%Z.ltb_lt]. split; [by exists g|done].
Qed.

(** A sequence of operations, each of which may happen. *)
Fixpoint gc_run r (ops : list gc_op) : option gcrun :=
  match ops with
  | [] => Some r
  | op :: ops => if gc_legalb r op then r ← gc_run_step r op; gc_run r ops else None
  end.

Lemma gc_run_reachable r ops r' : gc_reachable r -> gc_run r ops = Some r' -> gc_reachable r'.
Proof.
  revert r. induction ops as [|op ops IH]; intros r Hr; simpl; [by intros [= <-]|].
  destruct (gc_legalb r op) eqn:El; [|done]. destruct (gc_run_step r op) as [r1|] eqn:Es; [|done].
  apply IH. eapply gc_more; [exact Hr|by apply gc_legalb_ok|exact Es].
Qed.
End Run.

(** ** Witnesses *)

(** Of three threads the last is that of the collector.  The first finds an
    entity before it is unlinked; the request has waited for it. *)
Definition gdemo_start : gcrun :=
  Run (replicate 3 (Thread (2 ^ 32 - 1) 1 0 THREAD_STATE_ALIVE)) gcreq_queue_new ∅ ∅ ∅ ∅ ∅.
Definition gdemo_ops : list gc_op :=
  [OAwake 0; OLink 7; OLookup 0 7; OUnlink 7; ONew 100 1 (Some 7); OGather 100; OGather 100; OGather 100; OReady 100;
   OEnqueue 100; OGc; OGc; OGc; OAsleep 0].
Definition gdemo (ops : list gc_op) : gcrun :=
  match gc_run 2 gdemo_start (gdemo_ops ++ ops) with Some r => r | None => gdemo_start end.

Lemma gdemo_reachable ops : bool_decide (is_Some (gc_run 2 gdemo_start (gdemo_ops ++ ops))) = true -> gc_reachable 2 (gdemo ops).
Proof.
  intros [r E]%bool_decide_eq_true. unfold gdemo. rewrite E. eapply gc_run_reachable; [|exact E].
  apply gc_start; [repeat constructor; done|]. eexists. split; reflexivity.
Qed.

Lemma gc_never_dangles_witness :
  exists r', gc_run_step 2 (gdemo [OGc; OGc]) (OCallback CbFree) = Some r' /\ r_alive r' = ∅ /\
    forall i o, (i, o) ∈ r_held r' -> o ∈ r_alive r'.
Proof.
  destruct (gc_never_dangles 2 (gdemo [OGc; OGc]) (OCallback CbFree)) as (r' & E & _ & H).
  - apply gdemo_reachable. vm_compute. reflexivity.
  - vm_compute. reflexivity.
  - exists r'. split; [exact E|]. split; [|exact H]. vm_compute in E. injection E as <-. vm_compute. reflexivity.
Defined.

Lemma gc_request_granted_witness :
  exists r', nsteps (fun r r' => gc_run_step 2 r OGc = Some r') 2 (gdemo []) r' /\ gc_at (r_gc r') = PcCall.
Proof.
  destruct (gc_request_granted 2 (gdemo []) 100 (Gcreq 1 (Some 7) [IdxVtime 0 0])) as (r' & Hn & Hat & _).
  - apply gdemo_reachable. vm_compute. reflexivity.
  - vm_compute. reflexivity.
  - vm_compute. reflexivity.
  - vm_compute. reflexivity.
  - constructor; [|constructor]. exists (Thread 1 3 0 THREAD_STATE_ALIVE), 1.
    split; [vm_compute; reflexivity|]. split; [lia|vm_compute; reflexivity].
  - exists r'. split; [exact Hn|exact Hat].
Defined.

(** ** Threads and their identities *)

(** Two threads have ended, and the identities of both are used again for two new
    ones, the other way round.  The second runs first, and finds the slot of the
    first, which still has the identity of the thread that ended: two threads
    share a slot, and one may be asleep there while the other uses entities. *)
Definition swapped_threads : option (list thread_state1 * nat) :=
  '(ts, a) ← create_thread (thread_states_init 2);
  ts ← create_thread_wrapper ts a 10;
  '(ts, b) ← create_thread ts;
  ts ← create_thread_wrapper ts b 11;
  ts ← join_thread ts a;
  ts ← join_thread ts b;
  '(ts, _) ← create_thread ts;
  '(ts, d) ← create_thread ts;
  ts ← create_thread_wrapper ts d 10;
  Some (ts, d).

Theorem thread_finds_other_slot :
  exists ts d, swapped_threads = Some (ts, d) /\ d = 1%nat /\ lookup_thread_state_real ts 10 = Some 0%nat.
Proof. eexists _, _. split; [vm_compute; reflexivity|]. split; vm_compute; reflexivity. Qed.

(** ** The lease of the service *)

Lemma servicelease_check_spec ts avs n :
  length avs = length ts ->
  let '(avs', n') := servicelease_check ts avs n in
  length avs' = length ts /\ n <= n' <= n + Z.of_nat (length ts) /\
  (n' = n + Z.of_nat (length ts) <->
   forall i t av, ts !! i = Some t -> avs !! i = Some av -> ts_state t = THREAD_STATE_ALIVE -> thread_progress t av = true) /\
  forall i t av, ts !! i = Some t -> ts_state t = THREAD_STATE_ALIVE -> avs' !! i = Some av -> av_wd av = ts_watchdog t.
Proof.
  revert avs n. induction ts as [|t ts IH]; intros [|av avs] n Hlen; try done; simpl.
  - split_and!; [done|lia|lia| |done]. split; [done|lia].
  - injection Hlen as Hlen. case_bool_decide as Ha; simpl.
    + specialize (IH avs (n + (if thread_progress t av then 1 else 0)) Hlen).
      destruct (servicelease_check ts avs _) as [avs' n']. destruct IH as (Hl & Hb & Hiff & Hwd). simpl. split_and!.
      * by rewrite Hl.
      * destruct (thread_progress t av); lia.
      * destruct (thread_progress t av); lia.
      * destruct (thread_progress t av) eqn:Ep.
        -- split; [|intros Hall; enough (n' = n + 1 + Z.of_nat (length ts)) by lia; apply Hiff; intros i; apply (Hall (S i))].
           intros Hn [|i] t' av' Ht Hav Hs; simpl in *; [congruence|]. eapply Hiff; [lia|done..].
        -- split; [lia|]. intros Hall. specialize (Hall 0%nat t av eq_refl eq_refl Ha). congruence.
      * intros [|i] t' av' Ht Hs Hav; simpl in *; [by simplify_eq|]. by eapply Hwd.
    + specialize (IH avs (n + 1) Hlen).
      destruct (servicelease_check ts avs (n + 1)) as [avs' n']. destruct IH as (Hl & Hb & Hiff & Hwd). simpl. split_and!.
      * by rewrite Hl.
      * lia.
      * lia.
      * split; [|intros Hall; enough (n' = n + 1 + Z.of_nat (length ts)) by lia; apply Hiff; intros i; apply (Hall (S i))].
        intros Hn [|i] t' av' Ht Hav Hs; simpl in *; [congruence|]. eapply Hiff; [lia|done..].
      * intros [|i] t' av' Ht Hs Hav; simpl in *; [congruence|]. by eapply Hwd.
Qed.

(** When it is time to check, the lease is renewed if and only if each thread is
    asleep, blocked, or has moved its watchdog since the last check; so a thread
    that is stuck, awake and not blocked, from one check to the next keeps the
    lease from being renewed. *)
Theorem servicelease_exact ts avs tlast tnow :
  length avs = length ts -> tlast + 100 * T_MILLISECOND <= tnow ->
  let '(avs', tlast', renewed) := lease_renewal_step ts avs tlast tnow in
  (renewed = true <->
   forall i t av, ts !! i = Some t -> avs !! i = Some av -> ts_state t = THREAD_STATE_ALIVE -> thread_progress t av = true) /\
  forall ts2 tnow2 i t, tlast' + 100 * T_MILLISECOND <= tnow2 -> length ts2 = length ts ->
    ts !! i = Some t -> ts2 !! i = Some t -> ts_state t = THREAD_STATE_ALIVE ->
    vtime_awake_p (ts_vtime t) = true -> vtime_awake_p (ts_watchdog t) = true ->
    (lease_renewal_step ts2 avs' tlast' tnow2).2 = false.
Proof.
  intros Hlen Ht. unfold lease_renewal_step. rewrite (proj2 (Z.ltb_ge _ _)) by done.
  pose proof (servicelease_check_spec ts avs 0 Hlen) as H. destruct (servicelease_check ts avs 0) as [avs' n].
  destruct H as (Hl & Hb & Hiff & Hwd). split; [rewrite Z.eqb_eq; by rewrite <- Hiff|].
  intros ts2 tnow2 i t Ht2 Hl2 Hi Hi2 Hs Haw Hun. rewrite (proj2 (Z.ltb_ge _ _)) by done.
  pose proof (servicelease_check_spec ts2 avs' 0 ltac:(congruence)) as H2. destruct (servicelease_check ts2 avs' 0) as [avs2 n2].
  destruct H2 as (_ & _ & Hiff2 & _). simpl. apply Z.eqb_neq. intros E.
  assert (is_Some (avs' !! i)) as [av Hav] by (apply lookup_lt_is_Some; rewrite Hl; by eapply lookup_lt_Some).
  pose proof (proj1 Hiff2 ltac:(lia) i t av Hi2 Hav Hs) as Hp. unfold thread_progress in Hp.
  rewrite !asleep_awake_p, Haw, Hun, (Hwd i t av Hi Hs Hav), vtime_gt_irrefl in Hp. done.
Qed.
